(* ===== verification/_CoqProject ===== *)
-Q . S2P
Prelude.v
Interfaces.v
Ring.v
Queue.v
SafeMap.v
Syncx.v
Executors.v
Streams.v
RollingWindow.v
Float64.v
Breaker.v
Shedder.v
RateLimit.v
TimingWheel.v
Cache.v
RedisScripts.v
CacheNode.v
CachedCrud.v
GoStrings.v
GoStrconv.v
Utf8.v
GoSort.v
StringTrie.v
Replacer.v
Codec.v
Ssrf.v
Http.v
Auth.v
Guards.v
Jwks.v
ConsistentHash.v
SearchTree.v
ConfigTypes.v
ConfigText.v
ConfigValidate.v
TokenRefresh.v
RuntimeAuth.v
JobStore.v
AsyncJob.v
JobStores.v
SqlRewrite.v
OAuthStore.v
SqlModel.v
RedisClient.v
FieldOptions.v
Unmarshal.v
GoPath.v
RotateLog.v
EntryAuth.v
ExitWorker.v
Brokers.v
OpenApi.v
ErrorHandler.v
ServerSetup.v
Events.v
DbResolver.v
Storage.v
CachedStorage.v
FileEntry.v
Service.v
Authorization.v
Redirects.v
Migrations.v
SqlTable.v
TableOps.v
Crud.v
EntryRoutes.v
MySqlTable.v
TursoTable.v
TenantSql.v
ScanRow.v
MongoCrud.v
