(* ===== verification/Prelude.v ===== *)
(** * sdk-api: a verification development

    sdk-api is a Go framework for services described by a YAML file.  [runtime/]
    reads and validates the configuration and turns its entries into HTTP routes,
    workers and asynchronous jobs; [server/] is the HTTP server and its middleware;
    [db/] and [events/] talk to databases and brokers; [infra/] holds the in-memory
    machinery the rest is built on: collections, circuit breakers, concurrency helpers,
    text search, routing, stores.  This library models the configuration front end, the
    server it sets up and the routes of its entries with their authentication, the
    asynchronous jobs and their stores, the CRUD entries down to the statements they send to
    four kinds of databases, uploads and storage, events and brokers, migrations and query
    translation, the request checks of the server and the services of identity behind them,
    the start of the service, and the machinery of [infra/] (collections, executors, streams,
    limiters, locks and caches over Redis, decoding into structs, log files), each from the
    source, and proves what their users rely on.

    ** The parts and where they are modelled

    - [Prelude] (this file): single-field record update ([r <| f := v |>]), methods
      that mutate their receiver and return an error ([method], [;;;]), 64-bit
      wrap-around ([wrap64]), shared list, map and modulo lemmas.
    - [Interfaces]: type classes between components.  [KVMapOps]/[KVMapLaws] is the
      map of timers the wheel needs, implemented by [SafeMap];
      [BucketInterface]/[BucketLaws] is what a rolling window needs of its bucket,
      implemented by the plain bucket and by the breaker's.
    - The language and its library: [GoStrings] (package strings, string conversions),
      [GoStrconv] (ParseInt), [GoSort] (binary search, sorting), [Utf8] (runes),
      [Float64] (binary64 through the Standard Library's reference semantics).

    Infrastructure ([infra/]):
    - [Ring] (collection/ring.go), [Queue] (fifo.go), [SafeMap] (safemap.go),
      [RollingWindow] (rollingwindow.go): one record per struct, one function per
      method.
    - [TimingWheel] (collection/timingwheel.go): the goroutine [run] serialises ticks and
      requests, so the wheel is a machine whose events are ticks and requests
      ([tw_step], [tw_run]).  Entries are shared between a slot and the timers map and
      mutated through both, so they live in heaps and the containers hold addresses.
    - [Cache] (collection/cache.go): the LRU list, the cache, and the system of a cache and
      the wheel that expires its items ([cache_sys], [serve]), whose calls and ticks are
      served one after another.
    - [Breaker] (breaker/): the adaptive breaker on a rolling window, the promise
      objects, the error window and the entry points of [circuitBreaker].
    - [Syncx] (syncx/): single flight and locked calls as machines whose events are the
      steps of any goroutine between two accesses to shared state; the resource pool,
      token limits, reference counts, fetched and managed resources.
    - [Executors] (executors/): the periodical executor as a machine that interleaves callers
      and background goroutines, with the containers of bulk and chunk executors; the delay and
      the less executor.  [Streams] (fx/): the operations on streams as functions on lists,
      [Walk] with its workers as a machine, retries.  [Shedder] (load/): the adaptive shedder
      on rolling windows and binary64.
    - [RotateLog] (logx/rotatelogger.go): both rotation rules, the logger on a map of files,
      and the goroutines after a rotation, interleaved with the writes.
    - [FieldOptions], [Unmarshal] (mapping/): the tags of struct fields, and decoding a
      document into a reflected type, with the maps of the document in a heap.
    - [StringTrie], [Replacer] (stringx/, utils/version.go): the Aho-Corasick automaton on
      a heap of nodes, keyword filter and replacer, version comparison.
    - [ConsistentHash] (hash/consistenthash.go), [SearchTree] (search/tree.go),
      [Codec] (codec/aesecb.go).
    - [RedisScripts] (limit/, stores/redis/redislock.go, bloom/): the period and token
      limiters, the lock and the Bloom filter with their Lua scripts, on any server that meets
      the class [RedisLaws].
    - [RedisClient] (stores/redis/, stores/kv/): the client's methods as the commands they send,
      its options and shared connections, and the store that divides keys among servers.
    - [CacheNode] (stores/cache/): a cache node with placeholders and single flight, the
      cluster of nodes, the retried deletions, the statistics.

    HTTP ([server/middleware/]):
    - [Http]: requests and what a handler does with one ([outcome]).
    - [Auth] (jwt.go, auth_context.go, basic.go, apikey.go, openfga.go, mfa.go,
      session.go), [Guards] (csrf.go, csp.go and the small handlers), [RateLimit]
      (rate_limit.go, limiter_sliding.go), [Ssrf] (ssrf.go), [TokenRefresh]
      (tokenrefresh.go, the signing of jwt.go).
    - [Jwks] (auth/jwks/): the cached keys of a resolver; [OAuthStore] (auth/oauthstore/): every
      method with the text of its statement, over a database that is a parameter;
      [Authorization] (auth/openfga/seed.go, auth/ory/client.go): the model and the tuples
      written to OpenFGA and Keto, and the checks on them.
    - [ErrorHandler] (server.go, runtime/errcode/): the errors of the framework and the
      problem document they are answered with.
    - [ServerSetup] (server.go, tls.go, cors.go; the conversions of runtime/service.go): from
      the configuration to the list of middlewares, probes and groups of the application
      ([registered]) and to what is listened on.
    - [Storage] (storage.go, spool.go): the local storage on a tree of files, and spooled
      uploads; [GoPath] is the part of path/filepath they use.

    Data ([db/]):
    - [SqlRewrite] (query.go): the translation of queries written for PostgreSQL to
      MySQL and SQLite: the scanner of [Rewrite], conflict clauses, intervals.
    - [SqlModel] (types.go, dialect.go, migrate.go, index.go): columns from struct tags,
      types and defaults per dialect, the statements of [AutoInit].
    - [Migrations] (migrations.go): loading, [Up], [Down], [Status].
    - [SqlTable] (table.go, pagination.go), [TableOps] (the rest of table.go, prepared.go),
      [MySqlTable] (mysql.go) and [TursoTable] (turso.go): the operations of a table as
      programs over the database ([prog]); [TenantSql] puts the last two together with the
      meaning of their statements.  [ScanRow] (scan.go): from driver values to fields.

    Messages ([events/]):
    - [Brokers] (consumer.go, producer.go, kafka_broker.go, kafka_message.go, nats.go, kv.go).

    Runtime ([runtime/]):
    - [ConfigTypes], [ConfigText], [ConfigValidate] (config.go, validate.go,
      infra/logx/config.go): the configuration structs, environment expansion and
      naming, and every [Validate] method up to [ParseConfig].
    - [JobStore] (async_store.go): the in-memory store over a heap of shared job objects.
    - [AsyncJob] (async_job.go, entry_async.go): the job manager as a
      transition system that interleaves submissions, worker goroutines, cancellations,
      reaps, cleanups and event streams, one access to shared state per step; the
      callback with its retry loop; registration.
    - [JobStores] (async_store_redis.go, async_store_nats.go, async_store_pg.go,
      async_store_factory.go): the persistent stores over a map of keys or of rows.
    - [Crud] (entry_crud.go, table_provider.go): tenant middleware, list parameters, and
      the handlers of CRUD entries on the tables of [SqlTable]; [CachedCrud] (service.go): the
      PostgreSQL and MySQL providers behind two caches; [MongoCrud] (table_provider.go): the
      MongoDB provider over any server that meets the class [MongoLaws].
    - [EntryAuth] (entry.go and the identity middlewares of the server): the chain of
      authentication handlers of an entry; [EntryRoutes] (entry.go, the registrations of
      entry_rest.go, entry_crud.go, entry_realtime.go, entry_file.go, entry_async.go,
      entry_grpc.go and entry_graphql.go, bulkhead.go): what an entry of every type registers,
      in order, how a request is dispatched to it, and the bulkheads.
    - [Service] (service.go): the stages of [RunWithContext], shutdown, the permissions of a
      configuration; [RuntimeAuth] (runtime/auth/): roles, permissions, one-time passwords.
    - [ExitWorker] (exit.go): the worker of a subscription as an interleaving machine.
    - [OpenApi] (openapi.go): the document as a tree, from the entries to the final pruning.
    - [Events] (entry_rest.go, outbox.go, cron.go), [DbResolver] (db_resolver.go),
      [FileEntry] (entry_file.go, the sizes of service.go), [CachedStorage] and [Redirects]
      (service.go, redirect.go).

    ** What the theorems show

    - Containers refine their abstract counterparts for every sequence of calls: the
      ring keeps the last [n] values, the queue is a FIFO list, the safe map a finite
      map, the LRU list the most recently used keys, the route tree a table of patterns.
    - Time: the rolling window counts exactly the recent intervals; a timer is executed
      exactly once at the right tick; a moved timer at a tick given in closed form; a
      removed timer never; a cached item is readable until its expiry and then gone,
      and cache, LRU list and timers stay in agreement when calls and ticks are served one
      after another.
    - Breaker: no rejection below the protection threshold, a probe every second, one
      mark per request, the last five reasons reported.
    - Concurrency: at most one flight per key and every caller gets its flight's result;
      a pool never exceeds its limit and never shares a resource; a task given to an executor
      is always in exactly one place and the executor can always drain; the workers of [Walk]
      deliver each output once before the close.
    - Decoding and logs: a tag is read back, a document of a value is decoded into that value,
      decoding into a finite type ends; in every interleaving of writes and the goroutines after
      rotations the backups and the file hold what was written.
    - Text: the automaton finds exactly the occurrences of its keywords, the replacer is
      the leftmost-longest scan; consistent hashing returns the owner of a key and moves
      only the keys of the node that comes or goes; decryption inverts encryption.
    - Requests: what each authentication, CSRF and authorization check lets through,
      exactly; keys are never used with another family of algorithms; the lifetime of a
      session; the limiter as a fixed window counter; which middlewares, policies and
      handlers a request meets in the routes of a whole configuration, and that its handler
      runs exactly when the authentication passed (for the methods where it does); that an
      identity the handler sees was granted by a check of the entry; which tokens
      and which refreshed tokens are accepted, down to the documented behaviour of the token
      library; that keys, sessions and permissions are those the key endpoint served, the
      store was given and the configuration grants; what an error shows.
    - Redis: the limiters answer as counters and token buckets that never forget, a lock
      is exclusive until it expires, the Bloom filter answers by its locations; reads through
      the cache are reads of the database for sequential clients and boundedly stale for
      interleaved ones; a cluster is one server; a cached provider answers as its table.
    - Documents and files: the operations of the OpenAPI document and their requirements,
      that it is closed, and when building it ends; the local storage is a map that never
      leaves its root; a spooled upload is its stream; printed sizes are read back; what an
      upload must satisfy; what a redirect forwards.
    - Messages: a message of an exit worker is settled at most once in every
      interleaving; the outbox delivers at least once and, when nothing fails, exactly once
      in order; events go out exactly for successful requests; a bulkhead bounds concurrency.
    - Databases: every statement a PostgreSQL table sends is one over the columns of its model,
      whatever the request says; requests of a tenant neither depend on nor touch the rows
      of another, in every database that [understands] the statements - on PostgreSQL but for
      the total of filtered offset lists, on MySQL and Turso for names that are columns, on
      MongoDB for a tenant field other than [_id]; a row is read back from what the drivers
      hand over; keyset pagination
      ends and visits every row once when the order column is unique; migrations are
      applied in order, once, each with its record, and rolled back.
    - Configuration: an accepted configuration satisfies [valid_config], validation is
      idempotent, entry validation is characterised exactly, expansion evaluates
      templates, derived names are stable.
    - Jobs: the stores in memory, Redis, NATS and PostgreSQL refine one map of values (the last
      three while no call fails); the manager bounds its goroutines, runs a submission at most
      once, can finish every job when its callbacks are configured, and never revives a
      removed one; the callback's attempts are bounded.
    - Queries: [Rewrite] is correct on every query written from tokens (identifiers,
      literals, placeholders, calls), and the translated conflict clause is the one
      [UpsertClause] builds for MySQL.
    - Where the code does something else than its comments or documentation say, a
      theorem states what it does: among others [Set_keeps_old_value],
      [MoveTimer_one_revolution_off], [Drain_loses_next_timer],
      [ForceClose_may_still_reject], [expandEnvDefaults_breaks_utf8],
      [cache_reference_unchecked], [registerAsync_panics_iff], [callback_url_crashes],
      [sse_lost_wakeup], [entry_limit_never_applies], [update_can_change_tenant],
      [list_total_counts_other_tenants], [keyset_skips_ties], [mysql_text_from_request],
      [apikey_bearer_unchecked], [request_meets], [csrf_exclusions], [setup_gaps],
      [exit_shutdown_gaps], [kv_stores_gaps], [cached_crud_gaps], [document_gaps],
      [upload_gaps], [sizes_misread], [redirect_gaps], [outbox_stuck], [pool_sharing_gaps],
      [cached_storage_stale], [local_storage_edges], [spool_leaves_temporary_file],
      [empty_map_is_shared], [decoding_panics], [wait_misses], [scan_truncates],
      [mongo_unmatched], [prepared_elsewhere], [sessions_need_KV], [run_leaves_pools_open],
      [assertion_replay], [refresh_rotates_once], [client_of_another_database],
      [rotated_key_waits], [consume_starts_over], [kafka_redelivery],
      [rotations_of_one_second_lose], [skewed_clients_refill].

    ** Conventions, bounds and fuel

    Clock readings, random draws, the environment, and the results of user callbacks
    are arguments.  Panics are [None] (or a constructor of their own) and never
    identified with an ordinary error.  Integers are [Z]; where the source computes
    positions or counters that could leave 64 bits the wrap-around is in the model
    ([wrap64], [u64_incr]), and theorems that need the absence of overflow say so:
    [event_ok] bounds a delay by [2^63] ticks less the number of slots, [op_ok] an
    expiry by [2^63] nanoseconds.  [clock_ok] says that the clock readings of successive
    [Add]s do not decrease and that the two readings of one [Add] are in the same interval.
    Go leaves the order of map iteration open: where it matters, the order is an argument
    ([range], [order]) and the theorems hold for every order that lists the map.

    Fuel.  The loops over text ([expand_loop], [rewrite_loop], [replace_excluded],
    [fields_loop]) get its number of bytes: every round consumes at least
    one.  The failure links of the automaton get the depth of the node, its queue the
    number of nodes, the search in the route tree the length of the route, the schemas of the
    document one more than the number of models, [strip_front] one more than the length of
    the key, [clean_runs] the five delays of a clean task, [inherits] two more than the number
    of roles, [DecodeString] the number of bytes, [Value] the size of the valuer, [engine_at]
    the depth of the type, [wait_loop] the number of retries; the theorems
    are about the functions called with that fuel, and say that a result is returned.

    Parameters.  A database is a function from a text and its arguments to a reply and the
    new rows; [understands] says that it answers one statement as SQL defines ([eval]),
    and theorems about rows assume it of the statements the operation sends only.
    [trySOPSDecrypt], [loadYaml], [atoi] and [ParseDuration] are a decryption command, the
    YAML decoder and conversions whose result the code only passes on; [env_flat] (no
    environment value is itself a reference) is a hypothesis of the idempotence of validation
    and of the clause on resolved tokens.  The JWT library ([parse_documented] and
    [jwt_library] say what it documents), JWKS, OpenFGA, Keto and MongoDB (classes with their
    laws), the database of the OAuth store ([understands], [reliable]), gzip, name resolution, block ciphers, hash
    functions, the token bucket of x/time/rate and the user's hooks are arguments too; so
    are JSON codecs ([codec_ok]: what was marshalled is read back), the pages of a Redis scan
    ([scan_ok]: every key is on one), the rows a LIMIT picks, jitter, the identity
    providers, the matching of the router ([under], [is_route]), the faults of disks and
    connections, the parts of a parsed URL and the parser of cron schedules.

    ** What is not modelled

    Fiber itself, drivers and connection pools, the clients of brokers, Redis, S3 and identity
    providers, the bodies of WebSocket, SSE, GraphQL and gRPC handlers and the schemas generated
    for them, logging and telemetry, signals and process helpers, the map-reduce helper, the
    loaders of configuration files, the command line tool: they are I/O, generation for
    third-party servers, or wrappers of libraries.  Recursive Go types are not types of
    [Unmarshal].  Locks are represented by the atomicity of the operations they protect. *)

From stdpp Require Export base numbers option list gmap strings.
From Stdlib Require Export ZArith Lia ZifyNat.

#[global] Open Scope Z_scope.

(** ** Field update on records

    Go code assigns to single fields of large structs.  A record type that
    registers how it is rebuilt from its projections ([Eta]) gets an updater for
    every field, written [r <| field := v |>]. *)

Class Eta (R : Type) := eta : R -> R.
Class Upd {R T : Type} (get : R -> T) := upd : (T -> T) -> R -> R.
Arguments upd {R T} get {_} _ _.

Ltac derive_upd :=
  lazymatch goal with
  | |- @Upd ?R ?T ?get =>
    let i := constr:(_ : Eta R) in
    let e := eval hnf in i in
    lazymatch eval pattern get in e with
    | ?F _ => exact (fun (h : T -> T) => F (fun r => h (get r)))
    end
  end.

#[global] Hint Extern 1 (Upd _) => derive_upd : typeclass_instances.

Declare Scope go_scope.
Delimit Scope go_scope with go.
#[global] Open Scope go_scope.

Notation "r <| f := v |>" := (upd f (fun _ => v) r)
  (at level 1, left associativity, f at level 9, v at level 200) : go_scope.

(** ** Methods that mutate their receiver and return an error

    [method S E] is a Go method [func (s *S) M() error]: it returns the receiver
    after the assignments performed so far and the error, [None] standing for the
    [nil] error. *)

Definition method (S E : Type) : Type := S -> S * option E.

Definition m_ok {S E} : method S E := fun s => (s, None).
Definition m_fail {S E} (e : S -> E) : method S E := fun s => (s, Some (e s)).

(** [if cond { return err }] *)
Definition m_check {S E} (cond : S -> bool) (e : S -> E) : method S E :=
  fun s => if cond s then (s, Some (e s)) else (s, None).

(** [if cond { s.field = v }] *)
Definition m_assign_if {S E} (cond : S -> bool) (f : S -> S) : method S E :=
  fun s => if cond s then (f s, None) else (s, None).

(** [m1; m2]: stop at the first error. *)
Definition m_seq {S E} (m1 m2 : method S E) : method S E :=
  fun s => match m1 s with
           | (s', None) => m2 s'
           | r => r
           end.

Notation "m1 ;;; m2" := (m_seq m1 m2)
  (at level 60, right associativity) : go_scope.

(** ** Machine integers *)

(** Two's complement wrap-around of a 64-bit Go [int]. *)
Definition wrap64 (z : Z) : Z := (z + 2^63) mod 2^64 - 2^63.

(** ** Shared lemmas *)

Create HintDb go.

Lemma wrap64_small (z : Z) : -2^63 <= z < 2^63 -> wrap64 z = z.
Proof. intros H. unfold wrap64. rewrite Z.mod_small by lia. lia. Qed.

Lemma wrap64_range (z : Z) : -2^63 <= wrap64 z < 2^63.
Proof. unfold wrap64. pose proof (Z.mod_pos_bound (z + 2^63) (2^64)). lia. Qed.

Lemma m_seq_ok {S E} (m1 m2 : method S E) (s s' : S) :
  (m1 ;;; m2) s = (s', None) <->
  exists s1, m1 s = (s1, None) /\ m2 s1 = (s', None).
Proof.
  unfold m_seq. split.
  - destruct (m1 s) as [s1 [e|]]; [done|]. eauto.
  - intros (s1 & -> & ?). done.
Qed.

Lemma m_check_ok {S E} (c : S -> bool) (e : S -> E) (s s' : S) :
  m_check c e s = (s', None) <-> c s = false /\ s' = s.
Proof. unfold m_check. destruct (c s); naive_solver. Qed.

Lemma m_assign_if_ok {S E} (c : S -> bool) (f : S -> S) (s s' : S) :
  m_assign_if (E:=E) c f s = (s', None) <-> s' = if c s then f s else s.
Proof. unfold m_assign_if. destruct (c s); naive_solver. Qed.

(** Splits a successful method run into its elementary steps. *)
Ltac m_inv :=
  repeat match goal with
  | H : (_ ;;; _) _ = (_, None) |- _ =>
      apply m_seq_ok in H; destruct H as (? & ? & H)
  | H : m_check _ _ _ = (_, None) |- _ =>
      apply m_check_ok in H; destruct H as [? ?]; subst
  | H : m_assign_if _ _ _ = (_, None) |- _ => apply m_assign_if_ok in H; subst
  | H : m_ok _ = (_, None) |- _ => injection H as <-
  | H : m_fail _ _ = (_, None) |- _ => discriminate H
  end.

(** [lia] with quotients and remainders expanded into their defining equations. *)
Ltac mod_lia := zify; Z.to_euclidean_division_equations; lia.

(** Natural-number modulo facts used by the ring-shaped containers. *)
Lemma mod_add_wrap (a b n : nat) :
  (a < n)%nat -> (b <= n)%nat ->
  ((a + b) mod n = if decide (a + b < n) then a + b else a + b - n)%nat.
Proof.
  intros. case_decide.
  - by apply Nat.mod_small.
  - destruct (decide (n = 0%nat)) as [->|]; [lia|].
    destruct (decide (a + b = n)%nat) as [E|].
    + rewrite E, Nat.Div0.mod_same. lia.
    + replace (a + b)%nat with ((a + b - n) + 1 * n)%nat at 1 by lia.
      rewrite Nat.Div0.mod_add. apply Nat.mod_small. lia.
Qed.

Lemma mod_add_inj (a i j n : nat) :
  (a < n)%nat -> (i < n)%nat -> (j < n)%nat ->
  ((a + i) mod n = (a + j) mod n)%nat -> i = j.
Proof.
  intros. rewrite !mod_add_wrap in * by lia.
  repeat case_decide; lia.
Qed.

Lemma filter_all {A} (P : A -> Prop) `{forall x, Decision (P x)} (l : list A) :
  Forall P l -> filter P l = l.
Proof.
  induction 1 as [|x l Hx _ IH]; [done|]. rewrite filter_cons, decide_True by done. by rewrite IH.
Qed.

Lemma filter_none {A} (P : A -> Prop) `{forall x, Decision (P x)} (l : list A) :
  Forall (fun x => ~ P x) l -> filter P l = [].
Proof.
  induction 1 as [|x l Hx _ IH]; [done|]. rewrite filter_cons. by rewrite decide_False.
Qed.

Lemma filter_ext_in {A} (P Q : A -> Prop) `{forall x, Decision (P x)} `{forall x, Decision (Q x)} (l : list A) :
  (forall x, x ∈ l -> P x <-> Q x) -> filter P l = filter Q l.
Proof.
  induction l as [|x l IH]; intros Hl; [done|]. rewrite !filter_cons.
  rewrite IH by (intros y Hy; apply Hl; set_solver). specialize (Hl x ltac:(set_solver)).
  repeat case_decide; tauto.
Qed.

(** The bindings of a disjoint union. *)
Lemma map_to_list_disj_union `{Countable K} {V} (m1 m2 : gmap K V) :
  m1 ##ₘ m2 -> map_to_list (m1 ∪ m2) ≡ₚ map_to_list m1 ++ map_to_list m2.
Proof.
  induction m1 as [|k v m1 Hk IH] using map_ind; intros Hd.
  - by rewrite (left_id_L ∅ (∪)), map_to_list_empty.
  - apply map_disjoint_insert_l in Hd as [Hk2 Hd].
    rewrite <- insert_union_l.
    rewrite !map_to_list_insert by (rewrite ?lookup_union_None; done).
    cbn. by rewrite IH.
Qed.

#[export] Hint Resolve wrap64_small wrap64_range : go.

(** Replacing one element changes a sum by the difference of the two. *)
Lemma sum_insert {A} (f : A -> nat) l i a b : l !! i = Some a ->
  (sum_list_with f (<[i := b]> l) + f a = sum_list_with f l + f b)%nat.
Proof. revert i. induction l as [|c l IH]; intros [|i] H; cbn in *; simplify_eq; [lia|]. specialize (IH _ H). unfold insert in IH |- *. lia. Qed.

Lemma sum_lookup {A} (f : A -> nat) l i a : l !! i = Some a -> (f a <= sum_list_with f l)%nat.
Proof. revert i. induction l as [|c l IH]; intros [|i] H; cbn in *; simplify_eq; [lia|]. specialize (IH _ H). lia. Qed.

Lemma sum_positive {A} (f : A -> nat) l : (0 < sum_list_with f l)%nat -> exists i a, l !! i = Some a /\ (0 < f a)%nat.
Proof.
  induction l as [|c l IH]; cbn; [lia|]. intros H. destruct (decide (0 < f c)%nat) as [P|P]; [by exists 0%nat, c|].
  destruct IH as (i & a & E & L); [lia|]. by exists (S i), a.
Qed.
