(* ===== verification/Interfaces.v ===== *)
(** * Interfaces between components

    What one component promises to another, as type classes: operations first, then
    the laws a client's theorems rely on. *)

From S2P Require Import Prelude.

(** ** Key-value maps

    [TimingWheel] keeps its timers in a map it only uses through [Get], [Set] and
    [Del]; [SafeMap] is the implementation the source picks. *)

Class KVMapOps (K V M : Type) := {
  kv_new : M;
  kv_get : K -> M -> option V;
  kv_set : K -> V -> M -> M;
  kv_del : K -> M -> M
}.

(** An implementation is correct when it simulates a finite map. *)
Class KVMapLaws (K V M : Type) `{Countable K} `{!KVMapOps K V M} := {
  kv_wf : M -> Prop;
  kv_model : M -> gmap K V;
  kv_new_wf : kv_wf kv_new;
  kv_new_model : kv_model kv_new = ∅;
  kv_get_model k m : kv_wf m -> kv_get k m = kv_model m !! k;
  kv_set_wf k v m : kv_wf m -> kv_wf (kv_set k v m);
  kv_set_model k v m : kv_wf m -> kv_model (kv_set k v m) = <[k := v]> (kv_model m);
  kv_del_wf k m : kv_wf m -> kv_wf (kv_del k m);
  kv_del_model k m : kv_wf m -> kv_model (kv_del k m) = delete k (kv_model m)
}.

(** ** Buckets of a rolling window (infra/collection/rollingwindow.go,
    [BucketInterface]) *)

Class BucketInterface (T B : Type) := {
  newBucket : B;
  bucket_Add : T -> B -> B;
  bucket_Reset : B -> B
}.

(** [Reset] returns a bucket to the state the constructor gives it. *)
Class BucketLaws (T B : Type) `{!BucketInterface T B} :=
  bucket_Reset_new : forall b : B, bucket_Reset (T:=T) b = newBucket (T:=T).
