(* ===== verification/Ring.v ===== *)
(** * infra/collection/ring.go: a fixed size ring

    [Ring] keeps the last [n] values added.  Slots start as the nil interface
    value ([nil_v]); indices of the backing slice are natural numbers, the source
    never makes them negative. *)

From S2P Require Import Prelude.

Section ring.
Context {A : Type} (nil_v : A).

Record Ring : Type := mkRing {
  ring_elements : list A;
  ring_index : nat
}.

#[local] Instance eta_Ring : Eta Ring := fun r => mkRing (ring_elements r) (ring_index r).

(** [NewRing] panics ([None]) when [n < 1]. *)
Definition NewRing (n : Z) : option Ring :=
  if (n <? 1)%Z then None
  else Some (mkRing (replicate (Z.to_nat n) nil_v) 0).

Definition Ring_Add (v : A) (r : Ring) : Ring :=
  let rlen := length (ring_elements r) in
  let r1 := r <| ring_elements := <[(ring_index r mod rlen)%nat := v]> (ring_elements r) |> in
  let r2 := r1 <| ring_index := S (ring_index r1) |> in
  (* prevent ring index overflow *)
  if decide (Nat.shiftl rlen 1 <= ring_index r2)%nat
  then r2 <| ring_index := (ring_index r2 - rlen)%nat |>
  else r2.

(** The copy loop of [Take]; [None] is an out of range index. *)
Definition Ring_Take (r : Ring) : option (list A) :=
  let rlen := length (ring_elements r) in
  let '(size, start) :=
    if decide (rlen < ring_index r)%nat
    then (rlen, (ring_index r mod rlen)%nat)
    else (ring_index r, 0%nat) in
  mapM (fun i => ring_elements r !! ((start + i) mod rlen)%nat) (seq 0 size).

(** [vs] is everything added so far to a ring of [n] slots. *)
Definition ring_rep (n : nat) (r : Ring) (vs : list A) : Prop :=
  length (ring_elements r) = n /\
  (if decide (length vs <= n)%nat
   then ring_index r = length vs
   else (n <= ring_index r < 2 * n)%nat /\ (ring_index r mod n = length vs mod n)%nat) /\
  forall j, (length vs - n <= j)%nat -> (j < length vs)%nat ->
    ring_elements r !! (j mod n)%nat = vs !! j.

Lemma NewRing_rep (n : Z) (r : Ring) :
  NewRing n = Some r -> 1 <= n /\ ring_rep (Z.to_nat n) r [].
Proof.
  unfold NewRing. destruct (Z.ltb_spec n 1); [done|]. intros [= <-].
  split; [lia|]. split; [apply length_replicate|]. split; [|cbn; lia].
  rewrite decide_True by (cbn; lia). done.
Qed.

Lemma Ring_Add_rep (n : nat) (r : Ring) (vs : list A) (v : A) :
  (0 < n)%nat -> ring_rep n r vs -> ring_rep n (Ring_Add v r) (vs ++ [v]).
Proof.
  intros Hn (Hlen & Hidx & Hel). unfold Ring_Add. rewrite Hlen.
  replace (Nat.shiftl n 1) with (2 * n)%nat by (cbn; lia). cbn -[Nat.mul].
  assert (Hmod : (ring_index r mod n = length vs mod n)%nat)
    by (case_decide; [by f_equal|naive_solver]).
  assert (Hel' : forall j, (length (vs ++ [v]) - n <= j)%nat -> (j < length (vs ++ [v]))%nat ->
    <[(ring_index r mod n)%nat:=v]> (ring_elements r) !! (j mod n)%nat = (vs ++ [v]) !! j).
  { intros j Hj1 Hj2. rewrite length_app in *. cbn in *. rewrite Hmod.
    destruct (decide (j = length vs)) as [->|].
    - rewrite list_lookup_insert_eq by (rewrite Hlen; apply Nat.mod_upper_bound; lia).
      by rewrite list_lookup_middle.
    - rewrite lookup_app_l by lia.
      rewrite list_lookup_insert_ne; [apply Hel; lia|].
      intros E.
      assert (length vs - j < n)%nat by lia.
      assert (H0 : ((j mod n + (length vs - j)) mod n = (j mod n + 0) mod n)%nat).
      { rewrite Nat.Div0.add_mod_idemp_l, Nat.add_0_r, Nat.Div0.mod_mod.
        replace (j + (length vs - j))%nat with (length vs) by lia. done. }
      apply mod_add_inj in H0; lia || (apply Nat.mod_upper_bound; lia). }
  assert (Hnew : (S (ring_index r) mod n = length (vs ++ [v]) mod n)%nat).
  { rewrite length_app. cbn. rewrite <- (Nat.add_1_r (ring_index r)).
    rewrite <- Nat.Div0.add_mod_idemp_l, Hmod, Nat.Div0.add_mod_idemp_l. done. }
  unfold ring_rep.
  destruct (decide (2 * n <= S (ring_index r))%nat); cbn;
    (split; [by rewrite length_insert|]); (split; [|exact Hel']);
    rewrite length_app in *; cbn in *.
  - rewrite decide_False by (case_decide; lia).
    assert (S (ring_index r) = 2 * n)%nat as E by (case_decide; lia).
    rewrite E in *. replace (2 * n - n)%nat with n by lia.
    rewrite Nat.Div0.mod_same. replace (2 * n)%nat with (0 + 2 * n)%nat in Hnew by lia.
    rewrite Nat.Div0.mod_add in Hnew. rewrite Nat.Div0.mod_0_l in Hnew. lia.
  - repeat case_decide; lia.
Qed.

Lemma Ring_Take_rep (n : nat) (r : Ring) (vs : list A) :
  (0 < n)%nat -> ring_rep n r vs -> Ring_Take r = Some (drop (length vs - n) vs).
Proof.
  intros Hn (Hlen & Hidx & Hel). unfold Ring_Take. rewrite Hlen.
  set (k := length vs) in *.
  assert (Hcase : exists size start,
    (if decide (n < ring_index r)%nat then (n, (ring_index r mod n)%nat)
     else (ring_index r, 0%nat)) = (size, start) /\
    size = (k - (k - n))%nat /\
    forall i, (i < size)%nat -> ((start + i) mod n = (k - n + i) mod n)%nat).
  { assert (Hs : forall m, (m mod n = k mod n)%nat -> (n <= k)%nat ->
      forall i, ((m mod n + i) mod n = (k - n + i) mod n)%nat).
    { intros m E ? i. rewrite E, Nat.Div0.add_mod_idemp_l.
      replace (k + i)%nat with ((k - n + i) + 1 * n)%nat by lia.
      by rewrite Nat.Div0.mod_add. }
    destruct (decide (n < ring_index r)%nat); repeat case_decide; do 2 eexists;
      (split; [done|]); (split; [lia|]); intros i Hi; try lia.
    - apply Hs; [naive_solver|lia].
    - replace (k - n)%nat with 0%nat by lia. done.
    - destruct Hidx as [? Hm]. assert (ring_index r = n) as E by lia.
      rewrite <- (Hs n); [|congruence|lia]. by rewrite Nat.Div0.mod_same. }
  destruct Hcase as (size & start & -> & -> & Hst).
  apply mapM_Some_2. apply Forall2_same_length_lookup_2.
  - rewrite length_seq, length_drop. done.
  - intros i x y Hx Hy. apply lookup_seq in Hx as [-> Hi]. cbn.
    rewrite Hst by done. rewrite lookup_drop in Hy.
    rewrite Hel; [done|lia|]. apply lookup_lt_Some in Hy. done.
Qed.

(** Adding a list of values one by one. *)
Definition Ring_addAll (vs : list A) (r : Ring) : Ring :=
  foldl (fun r v => Ring_Add v r) r vs.

Lemma Ring_addAll_rep (n : nat) (vs ws : list A) (r : Ring) :
  (0 < n)%nat -> ring_rep n r ws -> ring_rep n (Ring_addAll vs r) (ws ++ vs).
Proof.
  intros Hn. revert r ws. induction vs as [|v vs IH]; intros r ws Hr; cbn.
  - by rewrite app_nil_r.
  - rewrite cons_middle, app_assoc. apply IH. by apply Ring_Add_rep.
Qed.

End ring.

(** Whatever is added to a fresh ring of size [n], [Take] returns exactly the
    last [n] values in the order they were added (all of them when there are
    fewer), without an out of range access, and the write index stays below twice
    the ring length, so the counter cannot overflow. *)
Theorem Ring_Take_last (A : Type) (nil_v : A) (n : Z) (r : Ring) (vs : list A)
  (Hnew : NewRing nil_v n = Some r) :
  Ring_Take (Ring_addAll vs r) = Some (drop (length vs - Z.to_nat n) vs) /\
  (ring_index (Ring_addAll vs r) < 2 * Z.to_nat n)%nat.
Proof.
  apply NewRing_rep in Hnew as [Hn Hr].
  apply (Ring_addAll_rep (Z.to_nat n) vs) in Hr; [|lia].
  split; [apply Ring_Take_rep; [lia|done]|].
  destruct Hr as (_ & Hidx & _). cbn [app] in Hidx. case_decide; lia.
Qed.

Lemma Ring_Take_last_witness :
  exists r, NewRing 0 3 = Some r /\
    Ring_Take (Ring_addAll [1; 2; 3; 4; 5; 6; 7] r) = Some [5; 6; 7] /\
    (ring_index (Ring_addAll [1; 2; 3; 4; 5; 6; 7]%Z r) < 6)%nat.
Proof.
  eexists. split; [reflexivity|].
  exact (Ring_Take_last Z 0 3 _ [1; 2; 3; 4; 5; 6; 7] eq_refl).
Defined.
