(* ===== verification/Queue.v ===== *)
(** * infra/collection/fifo.go: a growing FIFO queue

    A circular buffer with [head], [tail] and [count]; a full buffer is copied into
    one that is [size] slots longer.  Slice indices are natural numbers; an out of
    range access is a panic, [None]. *)

From S2P Require Import Prelude.

Section queue.
Context {A : Type} (nil_v : A).

Record Queue : Type := mkQueue {
  queue_elements : list A;
  queue_size : nat;
  queue_head : nat;
  queue_tail : nat;
  queue_count : nat
}.

#[local] Instance eta_Queue : Eta Queue := fun q =>
  mkQueue (queue_elements q) (queue_size q) (queue_head q) (queue_tail q) (queue_count q).

Definition NewQueue (size : nat) : Queue :=
  mkQueue (replicate size nil_v) size 0 0 0.

Definition Queue_Empty (q : Queue) : bool := bool_decide (queue_count q = 0%nat).

(** Go's [copy(dst[at:], src)]: as many elements as fit. *)
Definition copy_at (i : nat) (src dst : list A) : list A :=
  take i dst ++ take (length dst - i) src ++ drop (i + length src) dst.

(** The reallocation branch of [Put]. *)
Definition Queue_grow (q : Queue) : Queue :=
  let els := queue_elements q in
  let nodes := replicate (length els + queue_size q) nil_v in
  let nodes := copy_at 0 (drop (queue_head q) els) nodes in
  let nodes := copy_at (length els - queue_head q) (take (queue_head q) els) nodes in
  q <| queue_head := 0%nat |> <| queue_tail := length els |> <| queue_elements := nodes |>.

(** The store at [tail], common to both branches. *)
Definition Queue_store (element : A) (q : Queue) : option Queue :=
  if decide (queue_tail q < length (queue_elements q))%nat then
    let q := q <| queue_elements := <[queue_tail q := element]> (queue_elements q) |> in
    let q := q <| queue_tail := ((queue_tail q + 1) mod length (queue_elements q))%nat |> in
    Some (q <| queue_count := S (queue_count q) |>)
  else None.

Definition Queue_Put (element : A) (q : Queue) : option Queue :=
  Queue_store element
    (if decide (queue_head q = queue_tail q /\ 0 < queue_count q)%nat
     then Queue_grow q else q).

(** [Take] returns [(element, ok)]. *)
Definition Queue_Take (q : Queue) : option ((A * bool) * Queue) :=
  if decide (queue_count q = 0%nat) then Some ((nil_v, false), q)
  else
    element ← queue_elements q !! queue_head q;
    let q := q <| queue_head := ((queue_head q + 1) mod length (queue_elements q))%nat |> in
    Some ((element, true), q <| queue_count := (queue_count q - 1)%nat |>).

(** ** The abstract queue: a list, oldest element first *)

Definition queue_rep (q : Queue) (xs : list A) : Prop :=
  let n := length (queue_elements q) in
  (0 < queue_size q)%nat /\ (0 < n)%nat /\ (queue_head q < n)%nat /\
  queue_count q = length xs /\ (length xs <= n)%nat /\
  queue_tail q = ((queue_head q + length xs) mod n)%nat /\
  forall i, (i < length xs)%nat ->
    queue_elements q !! ((queue_head q + i) mod n)%nat = xs !! i.

Lemma NewQueue_rep (size : nat) : (0 < size)%nat -> queue_rep (NewQueue size) [].
Proof.
  intros H. unfold queue_rep, NewQueue. cbn. rewrite length_replicate.
  rewrite Nat.Div0.mod_0_l. repeat split; lia.
Qed.

Lemma Queue_Empty_rep (q : Queue) (xs : list A) :
  queue_rep q xs -> Queue_Empty q = bool_decide (xs = []).
Proof.
  intros (_ & _ & _ & Hc & _). unfold Queue_Empty. rewrite Hc.
  apply bool_decide_ext. by rewrite length_zero_iff_nil.
Qed.

Lemma copy_at_length (i : nat) (src dst : list A) :
  (i + length src <= length dst)%nat -> length (copy_at i src dst) = length dst.
Proof.
  intros. unfold copy_at. rewrite !length_app, !length_take, length_drop. lia.
Qed.

Lemma copy_at_lookup (i j : nat) (src dst : list A) :
  (i + length src <= length dst)%nat ->
  copy_at i src dst !! j =
    if decide (i <= j < i + length src)%nat then src !! (j - i)%nat else dst !! j.
Proof.
  intros Hi. unfold copy_at.
  rewrite (take_ge src) by lia.
  destruct (decide (j < i)%nat).
  - rewrite lookup_app_l by (rewrite length_take; lia).
    rewrite lookup_take_lt by lia. rewrite decide_False by lia. done.
  - rewrite lookup_app_r; rewrite length_take; [|lia].
    rewrite Nat.min_l by lia.
    destruct (decide (j < i + length src)%nat).
    + rewrite lookup_app_l by lia. by rewrite decide_True by lia.
    + rewrite lookup_app_r by lia. rewrite lookup_drop, decide_False by lia.
      f_equal. lia.
Qed.

(** A full buffer is re-laid out from index 0 in the old order. *)
Lemma Queue_grow_rep (q : Queue) (xs : list A) :
  queue_rep q xs -> length xs = length (queue_elements q) ->
  queue_rep (Queue_grow q) xs /\
  queue_tail (Queue_grow q) = length xs /\
  (length xs < length (queue_elements (Queue_grow q)))%nat.
Proof.
  intros (Hs & Hn & Hh & Hc & Hle & Ht & Hel) Hfull.
  set (els := queue_elements q) in *. set (h := queue_head q) in *.
  assert (Hd : length (drop h els) = (length els - h)%nat) by apply length_drop.
  assert (Ht' : length (take h els) = h) by (rewrite length_take; lia).
  assert (Hl1 : length (copy_at 0 (drop h els) (replicate (length els + queue_size q) nil_v))
                = (length els + queue_size q)%nat).
  { rewrite copy_at_length; rewrite length_replicate; lia. }
  assert (Hlen : length (queue_elements (Queue_grow q)) = (length els + queue_size q)%nat).
  { unfold Queue_grow. cbn. fold els h. rewrite copy_at_length; lia. }
  split; [|rewrite Hlen; cbn; fold els; lia].
  unfold queue_rep. rewrite Hlen. cbn -[Nat.modulo]. fold els h.
  split; [done|]. split; [lia|]. split; [lia|]. split; [done|]. split; [lia|].
  split; [rewrite Nat.mod_small; lia|].
  intros i Hi. rewrite Nat.mod_small by lia.
  rewrite copy_at_lookup by lia. rewrite <- Hel by done.
  rewrite mod_add_wrap by lia. rewrite Ht'.
  destruct (decide (h + i < length els)%nat).
  - rewrite decide_False by lia. rewrite copy_at_lookup; rewrite ?length_replicate; [|lia].
    rewrite decide_True by lia. rewrite lookup_drop. f_equal. lia.
  - rewrite decide_True by lia. rewrite lookup_take_lt by lia. f_equal. lia.
Qed.

Lemma Queue_store_rep (q : Queue) (xs : list A) (x : A) :
  queue_rep q xs -> (length xs < length (queue_elements q))%nat ->
  exists q', Queue_store x q = Some q' /\ queue_rep q' (xs ++ [x]).
Proof.
  intros (Hs & Hn & Hh & Hc & Hle & Ht & Hel) Hroom.
  assert (Htl : (queue_tail q < length (queue_elements q))%nat)
    by (rewrite Ht; apply Nat.mod_upper_bound; lia).
  unfold Queue_store. rewrite decide_True by done. eexists. split; [reflexivity|].
  unfold queue_rep. cbn -[Nat.modulo]. rewrite length_insert, length_app.
  cbn -[Nat.modulo].
  split; [done|]. split; [done|]. split; [done|]. split; [lia|]. split; [lia|]. split.
  - rewrite Ht, Nat.Div0.add_mod_idemp_l. f_equal. lia.
  - intros i Hi. rewrite Ht. destruct (decide (i = length xs)) as [->|].
    + rewrite list_lookup_insert_eq by (apply Nat.mod_upper_bound; lia).
      by rewrite list_lookup_middle.
    + rewrite list_lookup_insert_ne by (intros E; apply mod_add_inj in E; lia).
      rewrite lookup_app_l by lia. apply Hel. lia.
Qed.

Lemma Queue_Put_rep (q : Queue) (xs : list A) (x : A) :
  queue_rep q xs -> exists q', Queue_Put x q = Some q' /\ queue_rep q' (xs ++ [x]).
Proof.
  intros Hq. unfold Queue_Put.
  pose proof Hq as (Hs & Hn & Hh & Hc & Hle & Ht & Hel).
  destruct (decide (length xs = length (queue_elements q))) as [Hf|Hf].
  - destruct (Queue_grow_rep _ _ Hq Hf) as (Hq' & _ & Hroom).
    rewrite decide_True; [by apply Queue_store_rep|].
    split; [|lia]. rewrite Ht, Hf, mod_add_wrap, decide_False; lia.
  - rewrite decide_False; [apply Queue_store_rep; [done|lia]|].
    intros [E ?]. rewrite E, Ht in Hh. rewrite Ht in E.
    rewrite mod_add_wrap in E by lia. case_decide; lia.
Qed.

Lemma Queue_Take_rep (q : Queue) (xs : list A) :
  queue_rep q xs ->
  exists q', Queue_Take q = Some (match xs with [] => (nil_v, false) | x :: _ => (x, true) end, q') /\
    queue_rep q' (tail xs).
Proof.
  intros Hq. pose proof Hq as (Hs & Hn & Hh & Hc & Hle & Ht & Hel).
  unfold Queue_Take. rewrite Hc. destruct xs as [|x xs]; cbn.
  - eauto.
  - rewrite decide_False by (cbn; lia).
    pose proof (Hel 0%nat ltac:(cbn; lia)) as Hx.
    rewrite Nat.add_0_r, Nat.mod_small in Hx by done. rewrite Hx. cbn -[Nat.modulo].
    eexists. split; [reflexivity|].
    unfold queue_rep. cbn -[Nat.modulo] in *.
    split; [done|]. split; [done|]. split; [apply Nat.mod_upper_bound; lia|].
    split; [lia|]. split; [lia|]. split.
    + rewrite Ht, Nat.Div0.add_mod_idemp_l. f_equal. lia.
    + intros i Hi. rewrite Nat.Div0.add_mod_idemp_l.
      etransitivity; [|exact (Hel (S i) ltac:(lia))]. do 2 f_equal. lia.
Qed.

(** ** Traces *)

Inductive queue_op := OpPut (x : A) | OpTake.

(** Runs operations on the implementation, collecting what [Take] returned. *)
Fixpoint queue_run (ops : list queue_op) (q : Queue) : option (list (A * bool) * Queue) :=
  match ops with
  | [] => Some ([], q)
  | OpPut x :: ops => q' ← Queue_Put x q; queue_run ops q'
  | OpTake :: ops =>
      '(r, q') ← Queue_Take q;
      '(rs, q'') ← queue_run ops q';
      Some (r :: rs, q'')
  end.

(** The reference: a list, served from the front. *)
Fixpoint fifo_run (ops : list queue_op) (xs : list A) : list (A * bool) * list A :=
  match ops with
  | [] => ([], xs)
  | OpPut x :: ops => fifo_run ops (xs ++ [x])
  | OpTake :: ops =>
      let r := match xs with [] => (nil_v, false) | x :: _ => (x, true) end in
      let '(rs, ys) := fifo_run ops (tail xs) in (r :: rs, ys)
  end.

Lemma queue_run_refines (ops : list queue_op) (q : Queue) (xs : list A) :
  queue_rep q xs ->
  exists q', queue_run ops q = Some ((fifo_run ops xs).1, q') /\
    queue_rep q' (fifo_run ops xs).2.
Proof.
  revert q xs. induction ops as [|[x|] ops IH]; intros q xs Hq; cbn.
  - eauto.
  - destruct (Queue_Put_rep q xs x Hq) as (q1 & -> & Hq1). cbn. by apply IH.
  - destruct (Queue_Take_rep q xs Hq) as (q1 & -> & Hq1). cbn.
    destruct (IH _ _ Hq1) as (q2 & -> & Hq2). cbn.
    destruct (fifo_run ops (tail xs)) as [rs ys]. eauto.
Qed.

End queue.

Arguments queue_op : clear implicits.

(** A queue created with a positive size behaves as an unbounded FIFO list for
    every sequence of [Put] and [Take] calls, across all reallocations and index
    wrap-arounds: no call panics, and every [Take] returns what the list would,
    including [(nil, false)] when it is empty. *)
Theorem Queue_is_fifo (A : Type) (nil_v : A) (size : nat) (ops : list (queue_op A))
  (Hsize : (0 < size)%nat) :
  exists q, queue_run nil_v ops (NewQueue nil_v size) = Some ((fifo_run nil_v ops []).1, q) /\
    queue_rep q (fifo_run nil_v ops []).2.
Proof. apply queue_run_refines. by apply NewQueue_rep. Qed.

Lemma Queue_is_fifo_witness :
  exists q, queue_run 0 [OpPut 1; OpPut 2; OpTake; OpPut 3; OpPut 4; OpTake; OpTake; OpTake; OpTake]
      (NewQueue 0 2)
    = Some ([(1, true); (2, true); (3, true); (4, true); (0, false)], q) /\ queue_rep q [].
Proof.
  apply (Queue_is_fifo Z 0 2
    [OpPut 1; OpPut 2; OpTake; OpPut 3; OpPut 4; OpTake; OpTake; OpTake; OpTake]).
  lia.
Defined.
