(* ===== verification/SafeMap.v ===== *)
(** * infra/collection/safemap.go

    [SafeMap] spreads its entries over two Go maps so that a map that has seen many
    deletions can be rebuilt.  It implements the [KVMapOps] interface that the timing
    wheel uses, and simulates a finite map. *)

From S2P Require Import Prelude Interfaces.

Definition copyThreshold : Z := 1000.
Definition maxDeletion : Z := 10000.

Section safemap.
Context {K V : Type} `{Countable K}.

Record SafeMap : Type := mkSafeMap {
  sm_deletionOld : Z;
  sm_deletionNew : Z;
  sm_dirtyOld : gmap K V;
  sm_dirtyNew : gmap K V
}.

#[local] Instance eta_SafeMap : Eta SafeMap := fun m =>
  mkSafeMap (sm_deletionOld m) (sm_deletionNew m) (sm_dirtyOld m) (sm_dirtyNew m).

Definition NewSafeMap : SafeMap := mkSafeMap 0 0 ∅ ∅.

(** [maps.Copy(dst, src)] overwrites: the left-biased union [src ∪ dst]. *)
Definition SafeMap_Del (key : K) (m : SafeMap) : SafeMap :=
  let m :=
    match sm_dirtyOld m !! key with
    | Some _ => m <| sm_dirtyOld := delete key (sm_dirtyOld m) |>
                  <| sm_deletionOld := sm_deletionOld m + 1 |>
    | None =>
      match sm_dirtyNew m !! key with
      | Some _ => m <| sm_dirtyNew := delete key (sm_dirtyNew m) |>
                    <| sm_deletionNew := sm_deletionNew m + 1 |>
      | None => m
      end
    end in
  let m :=
    if (maxDeletion <=? sm_deletionOld m) && (Z.of_nat (size (sm_dirtyOld m)) <? copyThreshold)
    then m <| sm_dirtyOld := sm_dirtyOld m ∪ sm_dirtyNew m |>
           <| sm_deletionOld := sm_deletionNew m |>
           <| sm_dirtyNew := ∅ |>
           <| sm_deletionNew := 0 |>
    else m in
  if (maxDeletion <=? sm_deletionNew m) && (Z.of_nat (size (sm_dirtyNew m)) <? copyThreshold)
  then m <| sm_dirtyOld := sm_dirtyNew m ∪ sm_dirtyOld m |>
         <| sm_dirtyNew := ∅ |>
         <| sm_deletionNew := 0 |>
  else m.

Definition SafeMap_Get (key : K) (m : SafeMap) : option V :=
  match sm_dirtyOld m !! key with
  | Some val => Some val
  | None => sm_dirtyNew m !! key
  end.

(** The visiting order within one Go map is unspecified; [map_to_list] picks one. *)
Definition SafeMap_Range {S : Type} (f : K -> V -> S -> bool * S) (m : SafeMap) (s : S) : S :=
  let step := fix step (kvs : list (K * V)) (s : S) : bool * S :=
    match kvs with
    | [] => (true, s)
    | (k, v) :: kvs => let '(go, s') := f k v s in if go then step kvs s' else (false, s')
    end in
  let '(go, s) := step (map_to_list (sm_dirtyOld m)) s in
  if go then (step (map_to_list (sm_dirtyNew m)) s).2 else s.

Definition SafeMap_Set (key : K) (value : V) (m : SafeMap) : SafeMap :=
  if sm_deletionOld m <=? maxDeletion then
    let m := match sm_dirtyNew m !! key with
             | Some _ => m <| sm_dirtyNew := delete key (sm_dirtyNew m) |>
                           <| sm_deletionNew := sm_deletionNew m + 1 |>
             | None => m
             end in
    m <| sm_dirtyOld := <[key := value]> (sm_dirtyOld m) |>
  else
    let m := match sm_dirtyOld m !! key with
             | Some _ => m <| sm_dirtyOld := delete key (sm_dirtyOld m) |>
                           <| sm_deletionOld := sm_deletionOld m + 1 |>
             | None => m
             end in
    m <| sm_dirtyNew := <[key := value]> (sm_dirtyNew m) |>.

Definition SafeMap_Size (m : SafeMap) : nat :=
  (size (sm_dirtyOld m) + size (sm_dirtyNew m))%nat.

(** ** Invariant: a key is in at most one of the two maps *)

Definition sm_wf (m : SafeMap) : Prop := sm_dirtyOld m ##ₘ sm_dirtyNew m.
Definition sm_model (m : SafeMap) : gmap K V := sm_dirtyOld m ∪ sm_dirtyNew m.

Lemma SafeMap_Get_model (key : K) (m : SafeMap) :
  SafeMap_Get key m = sm_model m !! key.
Proof.
  unfold SafeMap_Get, sm_model. rewrite lookup_union.
  by destruct (_ !! key), (sm_dirtyNew m !! key).
Qed.

(** Moving the entries between the two maps is invisible. *)
Lemma SafeMap_compact (m : SafeMap) (c1 c2 : bool) :
  sm_wf m ->
  let m1 := if c1 then m <| sm_dirtyOld := sm_dirtyOld m ∪ sm_dirtyNew m |>
           <| sm_deletionOld := sm_deletionNew m |> <| sm_dirtyNew := ∅ |>
           <| sm_deletionNew := 0 |> else m in
  let m2 := if c2 then m1 <| sm_dirtyOld := sm_dirtyNew m1 ∪ sm_dirtyOld m1 |>
           <| sm_dirtyNew := ∅ |> <| sm_deletionNew := 0 |> else m1 in
  sm_wf m2 /\ sm_model m2 = sm_model m.
Proof.
  unfold sm_wf, sm_model. intros Hd. destruct c1, c2; cbn;
    rewrite ?(left_id_L ∅ (∪)), ?(right_id_L ∅ (∪));
    (split; [try apply map_disjoint_empty_r; try done|try done]).
  symmetry. by apply map_union_comm.
Qed.

Lemma SafeMap_Del_correct (key : K) (m : SafeMap) :
  sm_wf m ->
  sm_wf (SafeMap_Del key m) /\ sm_model (SafeMap_Del key m) = delete key (sm_model m).
Proof.
  intros Hd. unfold SafeMap_Del.
  set (m0 := match sm_dirtyOld m !! key with Some _ => _ | None => _ end).
  assert (Hm0 : sm_wf m0 /\ sm_model m0 = delete key (sm_model m)).
  { unfold m0, sm_wf, sm_model in *. rewrite delete_union.
    destruct (sm_dirtyOld m !! key) eqn:E1; [|destruct (sm_dirtyNew m !! key) eqn:E2]; cbn.
    - split; [by apply map_disjoint_delete_l|].
      rewrite (delete_id (sm_dirtyNew m)); [done|].
      eapply map_disjoint_Some_l; eauto.
    - split; [by apply map_disjoint_delete_r|]. by rewrite (delete_id (sm_dirtyOld m)).
    - by rewrite !delete_id. }
  destruct Hm0 as [Hw <-]. by apply SafeMap_compact.
Qed.

Lemma SafeMap_Set_correct (key : K) (value : V) (m : SafeMap) :
  sm_wf m ->
  sm_wf (SafeMap_Set key value m) /\
  sm_model (SafeMap_Set key value m) = <[key := value]> (sm_model m).
Proof.
  intros Hd. unfold SafeMap_Set, sm_wf, sm_model in *.
  destruct (_ <=? _); cbn.
  - assert (E : forall m', (sm_dirtyOld m', sm_dirtyNew m') = (sm_dirtyOld m, delete key (sm_dirtyNew m)) ->
      <[key:=value]> (sm_dirtyOld m') ##ₘ sm_dirtyNew m' /\
      <[key:=value]> (sm_dirtyOld m') ∪ sm_dirtyNew m' = <[key:=value]> (sm_dirtyOld m ∪ sm_dirtyNew m)).
    { intros m' [= -> ->]. split.
      - apply map_disjoint_insert_l_2; [apply lookup_delete_eq|]. by apply map_disjoint_delete_r.
      - rewrite <- insert_union_l. apply map_eq. intros k.
        destruct (decide (k = key)) as [->|]; [by rewrite !lookup_insert_eq|].
        by rewrite !lookup_insert_ne, !lookup_union, lookup_delete_ne. }
    destruct (sm_dirtyNew m !! key) eqn:E1; apply E; cbn; [done|by rewrite delete_id].
  - assert (E : forall m', (sm_dirtyOld m', sm_dirtyNew m') = (delete key (sm_dirtyOld m), sm_dirtyNew m) ->
      sm_dirtyOld m' ##ₘ <[key:=value]> (sm_dirtyNew m') /\
      sm_dirtyOld m' ∪ <[key:=value]> (sm_dirtyNew m') = <[key:=value]> (sm_dirtyOld m ∪ sm_dirtyNew m)).
    { intros m' [= -> ->]. split.
      - apply map_disjoint_insert_r_2; [apply lookup_delete_eq|]. by apply map_disjoint_delete_l.
      - rewrite <- insert_union_r by apply lookup_delete_eq. apply map_eq. intros k.
        destruct (decide (k = key)) as [->|]; [by rewrite !lookup_insert_eq|].
        by rewrite !lookup_insert_ne, !lookup_union, lookup_delete_ne. }
    destruct (sm_dirtyOld m !! key) eqn:E1; apply E; cbn; [done|by rewrite delete_id].
Qed.

Lemma SafeMap_Size_model (m : SafeMap) :
  sm_wf m -> SafeMap_Size m = size (sm_model m).
Proof. intros Hd. unfold SafeMap_Size, sm_model. by rewrite map_size_disj_union. Qed.

Lemma SafeMap_Range_model (m : SafeMap) :
  sm_wf m ->
  SafeMap_Range (fun k v acc => (true, acc ++ [(k, v)])) m [] ≡ₚ map_to_list (sm_model m).
Proof.
  intros Hd. unfold SafeMap_Range, sm_model.
  set (step := fix step (kvs : list (K * V)) (s : list (K * V)) : bool * list (K * V) := _).
  assert (Hstep : forall kvs s, step kvs s = (true, s ++ kvs)).
  { induction kvs as [|[k v] kvs IH]; intros s; cbn; [by rewrite app_nil_r|].
    by rewrite IH, <- app_assoc. }
  rewrite Hstep. cbn. rewrite Hstep. cbn. by rewrite map_to_list_disj_union.
Qed.

(** ** Traces *)

Inductive sm_op := SmSet (k : K) (v : V) | SmDel (k : K).

Definition sm_exec (op : sm_op) (m : SafeMap) : SafeMap :=
  match op with SmSet k v => SafeMap_Set k v m | SmDel k => SafeMap_Del k m end.

Definition map_exec (op : sm_op) (m : gmap K V) : gmap K V :=
  match op with SmSet k v => <[k := v]> m | SmDel k => delete k m end.

Lemma sm_exec_refines (op : sm_op) (m : SafeMap) :
  sm_wf m -> sm_wf (sm_exec op m) /\ sm_model (sm_exec op m) = map_exec op (sm_model m).
Proof.
  destruct op; cbn; [apply SafeMap_Set_correct|apply SafeMap_Del_correct].
Qed.

Lemma sm_run_refines (ops : list sm_op) (m : SafeMap) :
  sm_wf m ->
  let m' := foldl (fun m op => sm_exec op m) m ops in
  sm_wf m' /\ sm_model m' = foldl (fun m op => map_exec op m) (sm_model m) ops.
Proof.
  revert m. induction ops as [|op ops IH]; intros m Hm; cbn; [done|].
  destruct (sm_exec_refines op m Hm) as [Hw <-]. by apply IH.
Qed.

#[export] Instance SafeMap_ops : KVMapOps K V SafeMap := {
  kv_new := NewSafeMap;
  kv_get := SafeMap_Get;
  kv_set := SafeMap_Set;
  kv_del := SafeMap_Del
}.

#[export] Program Instance SafeMap_laws : KVMapLaws K V SafeMap := {
  kv_wf := sm_wf;
  kv_model := sm_model
}.
Next Obligation. apply map_disjoint_empty_l. Qed.
Next Obligation. apply (left_id_L ∅ (∪)). Qed.
Next Obligation. intros. apply SafeMap_Get_model. Qed.
Next Obligation. intros. by apply SafeMap_Set_correct. Qed.
Next Obligation. intros. by apply SafeMap_Set_correct. Qed.
Next Obligation. intros. by apply SafeMap_Del_correct. Qed.
Next Obligation. intros. by apply SafeMap_Del_correct. Qed.

End safemap.

Arguments SafeMap : clear implicits.
Arguments SafeMap K V {_ _}.
Arguments sm_op : clear implicits.

(** C39: After any sequence of [Set] and [Del] calls, whatever compactions happened on
    the way, [Get] answers as the finite map that received the same calls, [Size] is
    its size, and [Range] visits each of its bindings exactly once. *)
Theorem SafeMap_refines_map (K V : Type) `{Countable K} (ops : list (sm_op K V)) :
  let m := foldl (fun m op => sm_exec op m) NewSafeMap ops in
  let spec := foldl (fun m op => map_exec op m) (∅ : gmap K V) ops in
  (forall k, SafeMap_Get k m = spec !! k) /\
  SafeMap_Size m = size spec /\
  SafeMap_Range (fun k v acc => (true, acc ++ [(k, v)])) m [] ≡ₚ map_to_list spec.
Proof.
  intros m spec.
  destruct (sm_run_refines ops NewSafeMap (map_disjoint_empty_l _)) as [Hw E].
  change (sm_model NewSafeMap) with ((∅ : gmap K V) ∪ ∅) in E.
  rewrite (left_id_L ∅ (∪)) in E. subst spec. rewrite <- E.
  split; [intros k; apply SafeMap_Get_model|].
  split; [by apply SafeMap_Size_model|by apply SafeMap_Range_model].
Qed.
