(* ===== verification/Syncx.v ===== *)
(** * Concurrency helpers (infra/syncx)

    Shared calls ([SingleFlight]), serialised calls ([LockedCalls]), the resource pool,
    reference counting, token limits and the small guards.  Goroutines interleave: a
    machine's events are the steps between two accesses to shared state, taken by any
    goroutine in any order. *)

From S2P Require Import Prelude.

(** ** SingleFlight (singleflight.go)

    A flight is one [call] object.  Its leader runs the function, stores the result,
    removes the key from the table, and then releases the waiters. *)

Module SingleFlight.
Section singleflight.
Context {R : Type}.

Inductive phase := Executing | Stored | Unregistered | Released.

#[export] Instance phase_eq_dec : EqDecision phase.
Proof. solve_decision. Defined.

(** [c.val, c.err]: [None] until the function returns, and for good if it panics. *)
Record call : Type := mkCall { c_key : string; c_phase : phase; c_result : option R }.
#[export] Instance eta_call : Eta call := fun c => mkCall (c_key c) (c_phase c) (c_result c).

Inductive thread :=
| Leads (key : string) (c : nat)
| Waits (key : string) (c : nat)
| Returned (key : string) (c : nat) (fresh : bool) (res : option R).

Record flightGroup : Type := mkGroup {
  calls : gmap string nat;               (* g.calls, pointers into [heap] *)
  heap : list call;
  threads : gmap nat thread
}.
#[export] Instance eta_group : Eta flightGroup := fun g => mkGroup (calls g) (heap g) (threads g).

Definition NewSingleFlight : flightGroup := mkGroup ∅ [] ∅.

Inductive event :=
| Do (p : nat) (key : string)            (* createCall of goroutine p *)
| FnReturns (p : nat) (res : option R)   (* fn() returns, or panics: None, and p's own call ends in the panic *)
| Unregister (p : nat)                   (* delete(g.calls, key) *)
| Release (p : nat)                      (* c.wg.Done(), the leader returns *)
| Wake (p : nat).                        (* c.wg.Wait() returns *)

Definition set_thread (p : nat) (t : thread) (g : flightGroup) : flightGroup := g <| threads := <[p := t]> (threads g) |>.
Definition set_call (c : nat) (x : call) (g : flightGroup) : flightGroup := g <| heap := <[c := x]> (heap g) |>.

Definition step (e : event) (g : flightGroup) : option flightGroup :=
  match e with
  | Do p key =>
      match threads g !! p, calls g !! key with
      | Some _, _ => None
      | None, Some c => Some (set_thread p (Waits key c) g)
      | None, None =>
          let c := length (heap g) in
          Some (mkGroup (<[key := c]> (calls g)) (heap g ++ [mkCall key Executing None]) (<[p := Leads key c]> (threads g)))
      end
  | FnReturns p res =>
      match threads g !! p with
      | Some (Leads key c) =>
          x ← heap g !! c;
          if decide (c_phase x = Executing) then Some (set_call c (x <| c_phase := Stored |> <| c_result := res |>) g) else None
      | _ => None
      end
  | Unregister p =>
      match threads g !! p with
      | Some (Leads key c) =>
          x ← heap g !! c;
          if decide (c_phase x = Stored) then Some ((set_call c (x <| c_phase := Unregistered |>) g) <| calls := delete key (calls g) |>) else None
      | _ => None
      end
  | Release p =>
      match threads g !! p with
      | Some (Leads key c) =>
          x ← heap g !! c;
          if decide (c_phase x = Unregistered) then
            Some (set_thread p (Returned key c true (c_result x)) (set_call c (x <| c_phase := Released |>) g))
          else None
      | _ => None
      end
  | Wake p =>
      match threads g !! p with
      | Some (Waits key c) =>
          x ← heap g !! c;
          if decide (c_phase x = Released) then Some (set_thread p (Returned key c false (c_result x)) g) else None
      | _ => None
      end
  end.

Fixpoint run (es : list event) (g : flightGroup) : option flightGroup :=
  match es with [] => Some g | e :: es => g' ← step e g; run es g' end.

(** ** The invariant *)

Definition registered (ph : phase) : bool := match ph with Executing | Stored => true | _ => false end.

Record inv (g : flightGroup) : Prop := mk_inv {
  i_calls key c : calls g !! key = Some c <-> exists x, heap g !! c = Some x /\ c_key x = key /\ registered (c_phase x) = true;
  i_leads p key c : threads g !! p = Some (Leads key c) -> exists x, heap g !! c = Some x /\ c_key x = key /\ c_phase x <> Released;
  i_waits p key c : threads g !! p = Some (Waits key c) -> exists x, heap g !! c = Some x /\ c_key x = key;
  i_returned p key c b res : threads g !! p = Some (Returned key c b res) ->
    exists x, heap g !! c = Some x /\ c_key x = key /\ c_phase x = Released /\ c_result x = res;
  i_leader c x : heap g !! c = Some x -> exists p, (forall q key, threads g !! q = Some (Leads key c) -> q = p) /\
    (forall q key res, threads g !! q = Some (Returned key c true res) -> q = p) /\
    if decide (c_phase x = Released) then exists res, threads g !! p = Some (Returned (c_key x) c true res)
    else threads g !! p = Some (Leads (c_key x) c)
}.

Lemma inv_new : inv NewSingleFlight.
Proof.
  constructor; cbn; try (intros; by rewrite lookup_empty in * ).
  - intros key c. rewrite lookup_empty. split; [done|]. intros (x & H & _). by rewrite lookup_nil in H.
  - intros c x H. by rewrite lookup_nil in H.
Qed.

(** A new goroutine joins a flight. *)
Lemma inv_wait g p key c : inv g -> threads g !! p = None -> calls g !! key = Some c -> inv (set_thread p (Waits key c) g).
Proof.
  intros [H1 H2 H3 H4 H5] Hp Hc. constructor; cbn.
  - exact H1.
  - intros q k d. rewrite lookup_insert_Some. intros [[_ [=]]|[_ H]]. by eapply H2.
  - intros q k d. rewrite lookup_insert_Some. intros [[_ [= <- <-]]|[_ H]]; [|by eapply H3]. apply H1 in Hc as (x & ? & ? & _). by exists x.
  - intros q k d b res. rewrite lookup_insert_Some. intros [[_ [=]]|[_ H]]. by eapply H4.
  - intros d x Hd. destruct (H5 d x Hd) as (q & L1 & L2 & L3). exists q. split_and!.
    + intros q' k'. rewrite lookup_insert_Some. intros [[_ [=]]|[_ H]]. by eapply L1.
    + intros q' k' res. rewrite lookup_insert_Some. intros [[_ [=]]|[_ H]]. by eapply L2.
    + assert (q <> p) by (intros ->; destruct (decide _); [destruct L3|]; congruence). rewrite lookup_insert_ne by done. done.
Qed.

(** A new goroutine opens a flight. *)
Lemma inv_lead g p key : inv g -> threads g !! p = None -> calls g !! key = None ->
  let c := length (heap g) in
  inv (mkGroup (<[key := c]> (calls g)) (heap g ++ [mkCall key Executing None]) (<[p := Leads key c]> (threads g))).
Proof.
  intros [H1 H2 H3 H4 H5] Hp Hc c.
  assert (Hh : forall d x, (heap g ++ [mkCall key Executing None]) !! d = Some x <-> heap g !! d = Some x \/ (d = c /\ x = mkCall key Executing None)).
  { intros d x. rewrite lookup_snoc_Some. split; [intros [[_ ?]|[-> <-]]; auto|]. intros [H|[-> ->]]; [left; split; [by eapply lookup_lt_Some|done]|by right]. }
  assert (Hnew : forall x, heap g !! c = Some x -> False) by (intros x H%lookup_lt_Some; unfold c in *; lia).
  constructor; cbn.
  - intros k d. rewrite lookup_insert_Some. setoid_rewrite Hh. split.
    + intros [[<- <-]|[Hne H%H1]]; [eexists; split; [by right|done]|]. destruct H as (x & ? & ?). exists x. auto.
    + intros (x & [Hx|[-> ->]] & Hk & Hr); [|left; done]. assert (Hd : calls g !! k = Some d) by (apply H1; eauto).
      right. split; [congruence|done].
  - intros q k d. rewrite lookup_insert_Some. setoid_rewrite Hh. intros [[_ [= <- <-]]|[_ H]]; [eexists; split; [by right|done]|].
    destruct (H2 _ _ _ H) as (x & ? & ?). eauto.
  - intros q k d. rewrite lookup_insert_Some. setoid_rewrite Hh. intros [[_ [=]]|[_ H]]. destruct (H3 _ _ _ H) as (x & ? & ?). eauto.
  - intros q k d b res. rewrite lookup_insert_Some. setoid_rewrite Hh. intros [[_ [=]]|[_ H]]. destruct (H4 _ _ _ _ _ H) as (x & ? & ?). eauto.
  - intros d x [Hd|[-> ->]]%Hh.
    + destruct (H5 d x Hd) as (q & L1 & L2 & L3). exists q. split_and!.
      * intros q' k'. rewrite lookup_insert_Some. intros [[_ [= _ <-]]|[_ H]]; [exfalso; by eapply Hnew|by eapply L1].
      * intros q' k' res. rewrite lookup_insert_Some. intros [[_ [=]]|[_ H]]. by eapply L2.
      * assert (q <> p) by (intros ->; destruct (decide _); [destruct L3|]; congruence). rewrite lookup_insert_ne by done. done.
    + exists p. split_and!.
      * intros q' k'. rewrite lookup_insert_Some. intros [[<- _]|[_ H]]; [done|]. destruct (H2 _ _ _ H) as (x & Hx & _). by apply Hnew in Hx.
      * intros q' k' res. rewrite lookup_insert_Some. intros [[_ [=]]|[_ H]]. destruct (H4 _ _ _ _ _ H) as (x & Hx & _). by apply Hnew in Hx.
      * cbn. by rewrite lookup_insert_eq.
Qed.

(** The leader of a flight moves on without returning. *)
Lemma inv_phase g p key c x ph res (calls' : gmap string nat) :
  inv g -> threads g !! p = Some (Leads key c) -> heap g !! c = Some x -> ph <> Released ->
  (forall k d, calls' !! k = Some d <-> calls g !! k = Some d /\ (d <> c \/ registered ph = true)) ->
  registered (c_phase x) = true ->
  inv ((set_call c (mkCall (c_key x) ph res) g) <| calls := calls' |>).
Proof.
  intros [H1 H2 H3 H4 H5] Hp Hx Hph Hcalls Hreg. apply lookup_lt_Some in Hx as Hlt.
  assert (Hh : forall d y, <[c := mkCall (c_key x) ph res]> (heap g) !! d = Some y <-> (d = c /\ y = mkCall (c_key x) ph res) \/ (d <> c /\ heap g !! d = Some y)).
  { intros d y. rewrite list_lookup_insert_Some. naive_solver. }
  assert (Hold : forall d, (exists y, heap g !! d = Some y) -> forall y, heap g !! d = Some y ->
    exists z, <[c := mkCall (c_key x) ph res]> (heap g) !! d = Some z /\ c_key z = c_key y /\ (d <> c -> z = y)).
  { intros d _ y Hy. destruct (decide (d = c)) as [->|]; [|exists y; split; [by apply Hh; right|done]].
    eexists. split; [by apply Hh; left|]. split; [cbn; congruence|done]. }
  constructor; cbn.
  - intros k d. rewrite Hcalls, H1. setoid_rewrite Hh. split.
    + intros [(y & Hy & Hk & Hr) Hor]. destruct (decide (d = c)) as [->|]; [|exists y; auto].
      eexists. split; [by left|]. cbn. split; [congruence|]. by destruct Hor.
    + intros (y & [[-> ->]|[Hne Hy]] & Hk & Hr); cbn in *; [split; [exists x; naive_solver|by right]|]. split; [exists y; auto|by left].
  - intros q k d H. destruct (H2 _ _ _ H) as (y & Hy & Hk & Hne). destruct (Hold d ltac:(eauto) y Hy) as (z & Hz & Hzk & Hzy). exists z.
    split_and!; [done|congruence|]. destruct (decide (d = c)) as [->|Hd]; [|by rewrite Hzy]. apply Hh in Hz as [[_ ->]|[? _]]; done.
  - intros q k d H. destruct (H3 _ _ _ H) as (y & Hy & Hk). destruct (Hold d ltac:(eauto) y Hy) as (z & Hz & Hzk & _). exists z. split; [done|congruence].
  - intros q k d b r H. destruct (H4 _ _ _ _ _ H) as (y & Hy & Hk & Hr & Hres). destruct (decide (d = c)) as [->|Hd]; [|exists y; split; [by apply Hh; right|done]].
    assert (y = x) as -> by congruence. rewrite Hr in Hreg. done.
  - intros d y [[-> ->]|[Hd Hy]]%Hh; [|by apply H5]. destruct (H5 c x Hx) as (q & L1 & L2 & L3). exists q. split; [done|]. split; [done|]. cbn.
    rewrite decide_False by done. rewrite decide_False in L3 by (intros E; by rewrite E in Hreg). done.
Qed.

Lemma inv_release g p key c x :
  inv g -> threads g !! p = Some (Leads key c) -> heap g !! c = Some x -> c_phase x = Unregistered ->
  inv (set_thread p (Returned key c true (c_result x)) (set_call c (x <| c_phase := Released |>) g)).
Proof.
  intros [H1 H2 H3 H4 H5] Hp Hx Hph. apply lookup_lt_Some in Hx as Hlt. set (x' := x <| c_phase := Released |>).
  assert (Hh : forall d y, <[c := x']> (heap g) !! d = Some y <-> (d = c /\ y = x') \/ (d <> c /\ heap g !! d = Some y)).
  { intros d y. rewrite list_lookup_insert_Some. naive_solver. }
  destruct (H2 _ _ _ Hp) as (y0 & Hy0 & Hk0 & _). assert (y0 = x) as -> by congruence. clear Hy0.
  destruct (H5 c x Hx) as (ld & L1 & L2 & L3). assert (ld = p) as -> by (symmetry; by eapply L1).
  constructor; cbn.
  - intros k d. rewrite H1. setoid_rewrite Hh. split.
    + intros (y & Hy & Hk & Hr). exists y. split; [right; split; [|done]|done]. intros ->. assert (y = x) as -> by congruence. by rewrite Hph in Hr.
    + intros (y & [[-> ->]|[Hne Hy]] & Hk & Hr); [done|]. by exists y.
  - intros q k d. rewrite lookup_insert_Some. setoid_rewrite Hh. intros [[_ [=]]|[Hq H]]. destruct (H2 _ _ _ H) as (y & Hy & Hr).
    exists y. split; [right; split; [|done]|done]. intros ->. apply Hq. symmetry. by eapply L1.
  - intros q k d. rewrite lookup_insert_Some. setoid_rewrite Hh. intros [[_ [=]]|[Hq H]]. destruct (H3 _ _ _ H) as (y & Hy & Hr).
    destruct (decide (d = c)) as [->|]; [|exists y; auto]. assert (y = x) as -> by congruence. exists x'. split; [by left|done].
  - intros q k d b res. rewrite lookup_insert_Some. setoid_rewrite Hh. intros [[_ [= <- <- <- <-]]|[Hq H]]; [exists x'; split; [by left|done]|].
    destruct (H4 _ _ _ _ _ H) as (y & Hy & Hk & Hr & Hres). destruct (decide (d = c)) as [->|]; [|exists y; auto].
    assert (y = x) as -> by congruence. congruence.
  - intros d y [[-> ->]|[Hd Hy]]%Hh.
    + exists p. split_and!.
      * intros q k. rewrite lookup_insert_Some. intros [[_ [=]]|[_ H]]. by eapply L1.
      * intros q k res. rewrite lookup_insert_Some. intros [[<- _]|[_ H]]; [done|by eapply L2].
      * rewrite decide_True by done. exists (c_result x). by rewrite lookup_insert_eq, <- Hk0.
    + destruct (H5 d y Hy) as (q & M1 & M2 & M3). exists q. split_and!.
      * intros q' k. rewrite lookup_insert_Some. intros [[_ [=]]|[_ H]]. by eapply M1.
      * intros q' k res. rewrite lookup_insert_Some. intros [[_ [= _ <- _]]|[_ H]]; [done|by eapply M2].
      * assert (q <> p) by (intros ->; destruct (decide (c_phase y = Released)); [destruct M3|]; congruence). rewrite lookup_insert_ne by done. done.
Qed.

Lemma inv_wake g p key c x :
  inv g -> threads g !! p = Some (Waits key c) -> heap g !! c = Some x -> c_phase x = Released ->
  inv (set_thread p (Returned key c false (c_result x)) g).
Proof.
  intros [H1 H2 H3 H4 H5] Hp Hx Hph. destruct (H3 _ _ _ Hp) as (y0 & Hy0 & Hk0). assert (y0 = x) as -> by congruence. clear Hy0.
  constructor; cbn.
  - exact H1.
  - intros q k d. rewrite lookup_insert_Some. intros [[_ [=]]|[_ H]]. by eapply H2.
  - intros q k d. rewrite lookup_insert_Some. intros [[_ [=]]|[_ H]]. by eapply H3.
  - intros q k d b res. rewrite lookup_insert_Some. intros [[_ [= <- <- _ <-]]|[_ H]]; [by exists x|by eapply H4].
  - intros d y Hy. destruct (H5 d y Hy) as (q & L1 & L2 & L3). exists q. split_and!.
    + intros q' k. rewrite lookup_insert_Some. intros [[_ [=]]|[_ H]]. by eapply L1.
    + intros q' k res. rewrite lookup_insert_Some. intros [[_ [=]]|[_ H]]. by eapply L2.
    + assert (q <> p) by (intros ->; destruct (decide _); [destruct L3|]; congruence). rewrite lookup_insert_ne by done. done.
Qed.

Lemma inv_step e g g' : inv g -> step e g = Some g' -> inv g'.
Proof.
  intros Hi. unfold step. destruct e as [p key|p res|p|p|p].
  - destruct (threads g !! p) eqn:Hp; [done|]. destruct (calls g !! key) as [c|] eqn:Hc; intros [= <-]; [by apply inv_wait|by apply inv_lead].
  - destruct (threads g !! p) as [[key c| |]|] eqn:Hp; [|done..]. destruct (heap g !! c) as [x|] eqn:Hx; cbn; [|done].
    destruct (decide (c_phase x = Executing)) as [Hph|]; [|done]. intros [= <-].
    refine (inv_phase g p key c x Stored res (calls g) Hi Hp Hx _ _ _); [done|naive_solver|by rewrite Hph].
  - destruct (threads g !! p) as [[key c| |]|] eqn:Hp; [|done..]. destruct (heap g !! c) as [x|] eqn:Hx; cbn; [|done].
    destruct (decide (c_phase x = Stored)) as [Hph|]; [|done]. intros [= <-].
    refine (inv_phase g p key c x Unregistered (c_result x) (delete key (calls g)) Hi Hp Hx _ _ _); [done| |by rewrite Hph].
    intros k d. destruct (i_leads _ Hi _ _ _ Hp) as (y & Hy & Hk & _). assert (y = x) as -> by congruence.
    assert (Hc : calls g !! key = Some c) by (apply (i_calls _ Hi); exists x; by rewrite Hph). rewrite lookup_delete_Some. split.
    + intros [Hne H]. split; [done|]. left. intros ->. apply (i_calls _ Hi) in H as (z & Hz & Hzk & _). congruence.
    + intros [H [Hd|]]; [|done]. split; [congruence|done].
  - destruct (threads g !! p) as [[key c| |]|] eqn:Hp; [|done..]. destruct (heap g !! c) as [x|] eqn:Hx; cbn; [|done].
    destruct (decide (c_phase x = Unregistered)) as [Hph|]; [|done]. intros [= <-]. by apply inv_release.
  - destruct (threads g !! p) as [[|key c|]|] eqn:Hp; [done| |done..]. destruct (heap g !! c) as [x|] eqn:Hx; cbn; [|done].
    destruct (decide (c_phase x = Released)) as [Hph|]; [|done]. intros [= <-]. by apply inv_wake.
Qed.

Lemma inv_run es g g' : inv g -> run es g = Some g' -> inv g'.
Proof.
  revert g. induction es as [|e es IH]; intros g Hi; cbn; [by intros [= <-]|]. destruct (step e g) as [g1|] eqn:E; cbn; [|done].
  apply IH. by eapply inv_step.
Qed.

(** C35: concurrent calls share one execution.  In every interleaving: at most one function
    runs for a key at a time; every caller that returned got the stored result of a
    flight of its own key; and of the callers of one flight exactly one, the leader,
    is told that the result is fresh. *)
Theorem singleflight_shares (es : list event) (g : flightGroup) :
  run es NewSingleFlight = Some g ->
  (forall c d x y, heap g !! c = Some x -> heap g !! d = Some y -> c_phase x = Executing -> c_phase y = Executing -> c_key x = c_key y -> c = d) /\
  (forall p key c b res, threads g !! p = Some (Returned key c b res) ->
     exists x, heap g !! c = Some x /\ c_key x = key /\ c_phase x = Released /\ c_result x = res) /\
  (forall c x, heap g !! c = Some x -> c_phase x = Released -> exists! p, exists res, threads g !! p = Some (Returned (c_key x) c true res)).
Proof.
  intros Hr. pose proof (inv_run es _ g inv_new Hr) as Hi. split_and!.
  - intros c d x y Hx Hy Px Py Hk. assert (Hc : calls g !! c_key x = Some c) by (apply (i_calls _ Hi); exists x; by rewrite Px).
    assert (Hd : calls g !! c_key x = Some d) by (apply (i_calls _ Hi); exists y; by rewrite Py). congruence.
  - intros p key c b res. apply (i_returned _ Hi).
  - intros c x Hx Hp. destruct (i_leader _ Hi c x Hx) as (p & _ & L2 & L3). rewrite decide_True in L3 by done. exists p. split; [done|].
    intros q [res Hq]. symmetry. by eapply L2.
Qed.

(** The work left: steps of leaders and wake-ups. *)
Definition pending (g : flightGroup) (t : thread) : nat :=
  match t with
  | Leads _ c => match heap g !! c with Some x => match c_phase x with Executing => 3 | Stored => 2 | _ => 1 end | None => 0 end
  | Waits _ _ => 1
  | Returned _ _ _ _ => 0
  end.

(** Some goroutine can always move: the leader of a flight, or a waiter that was released. *)
Lemma singleflight_enabled g p t : inv g -> threads g !! p = Some t -> pending g t <> 0%nat ->
  exists e g', step e g = Some g' /\ match e with Do _ _ => False | _ => True end.
Proof.
  intros Hi Hp Hn. assert (Hlead : forall q key c, threads g !! q = Some (Leads key c) -> exists e g', step e g = Some g' /\ match e with Do _ _ => False | _ => True end).
  { intros q key c Hq. destruct (i_leads _ Hi _ _ _ Hq) as (x & Hx & _ & Hnr). destruct (c_phase x) eqn:Eph; [| | |done].
    - exists (FnReturns q None). eexists. split; [|done]. cbn. rewrite Hq, Hx. cbn. by rewrite decide_True.
    - exists (Unregister q). eexists. split; [|done]. cbn. rewrite Hq, Hx. cbn. by rewrite decide_True.
    - exists (Release q). eexists. split; [|done]. cbn. rewrite Hq, Hx. cbn. by rewrite decide_True. }
  destruct t as [key c|key c|]; [by eapply Hlead| |done].
  destruct (i_waits _ Hi _ _ _ Hp) as (x & Hx & _). destruct (i_leader _ Hi c x Hx) as (q & _ & _ & L3).
  destruct (decide (c_phase x = Released)) as [Hr|]; [|by eapply Hlead]. exists (Wake p). eexists. split; [|done]. cbn. rewrite Hp, Hx. cbn. by rewrite decide_True.
Qed.

End singleflight.
End SingleFlight.

Lemma singleflight_shares_witness :
  let es := [SingleFlight.Do 1 "k"; SingleFlight.Do 2 "k"; SingleFlight.FnReturns 1 (Some 7%nat); SingleFlight.Unregister 1;
             SingleFlight.Do 3 "k"; SingleFlight.Release 1; SingleFlight.Wake 2] in
  exists g, SingleFlight.run es SingleFlight.NewSingleFlight = Some g /\
    exists x, SingleFlight.heap g !! 0%nat = Some x /\ SingleFlight.c_key x = "k" /\ SingleFlight.c_phase x = SingleFlight.Released /\ SingleFlight.c_result x = Some 7%nat.
Proof.
  intros es. eexists. split; [vm_compute; reflexivity|].
  destruct (SingleFlight.singleflight_shares es _ ltac:(vm_compute; reflexivity)) as (_ & H & _).
  exact (H 2%nat "k" 0%nat false (Some 7%nat) ltac:(vm_compute; reflexivity)).
Defined.

(** ** LockedCalls (lockedcalls.go)

    A goroutine that finds its key taken waits for that call's wait group and then starts
    over; one that does not registers a wait group, runs, unregisters, and releases. *)

Module LockedCalls.

Inductive locked_thread := Running (key : string) (wg : nat) | Unregistered (key : string) (wg : nat) | Waiting (key : string) (wg : nat).

Record lockedGroup : Type := mkLocked { m : gmap string nat; next_wg : nat; done : gset nat; threads : gmap nat locked_thread }.
#[export] Instance eta_locked : Eta lockedGroup := fun g => mkLocked (m g) (next_wg g) (done g) (threads g).

Definition NewLockedCalls : lockedGroup := mkLocked ∅ 0 ∅ ∅.

Inductive locked_event :=
| Begin (p : nat) (key : string)       (* the critical section after begin: *)
| Finish (p : nat)                     (* fn() returned: delete(lg.m, key) *)
| Done (p : nat).                      (* wg.Done(), the call returns *)

(** [Begin] is also what a woken waiter does: it needs its wait group to be done. *)
Definition locked_step (e : locked_event) (g : lockedGroup) : option lockedGroup :=
  match e with
  | Begin p key =>
      let may := match threads g !! p with
                 | None => true
                 | Some (Waiting k wg) => bool_decide (k = key) && bool_decide (wg ∈ done g)
                 | _ => false
                 end in
      if may then
        match m g !! key with
        | Some wg => Some (g <| threads := <[p := Waiting key wg]> (threads g) |>)
        | None => Some (mkLocked (<[key := next_wg g]> (m g)) (S (next_wg g)) (done g) (<[p := Running key (next_wg g)]> (threads g)))
        end
      else None
  | Finish p =>
      match threads g !! p with
      | Some (Running key wg) => Some (g <| m := delete key (m g) |> <| threads := <[p := Unregistered key wg]> (threads g) |>)
      | _ => None
      end
  | Done p =>
      match threads g !! p with
      | Some (Unregistered key wg) => Some (g <| done := {[wg]} ∪ done g |> <| threads := delete p (threads g) |>)
      | _ => None
      end
  end.

Fixpoint locked_run (es : list locked_event) (g : lockedGroup) : option lockedGroup :=
  match es with [] => Some g | e :: es => g' ← locked_step e g; locked_run es g' end.

(** The table holds exactly the running calls. *)
Definition locked_inv (g : lockedGroup) : Prop :=
  (forall key wg, m g !! key = Some wg <-> exists p, threads g !! p = Some (Running key wg)) /\
  (forall p q key wg wg', threads g !! p = Some (Running key wg) -> threads g !! q = Some (Running key wg') -> p = q).

Lemma locked_inv_step e g g' : locked_inv g -> locked_step e g = Some g' -> locked_inv g'.
Proof.
  intros [H1 H2]. unfold locked_step. destruct e as [p key|p|p].
  - destruct (match threads g !! p with None => true | Some _ => _ end) eqn:Hmay; [|done].
    assert (Hp : forall k wg, threads g !! p <> Some (Running k wg)) by (intros k wg E; by rewrite E in Hmay). clear Hmay.
    destruct (m g !! key) as [wg|] eqn:Em; intros [= <-]; (split; cbn).
    + intros k w. rewrite H1. split; intros [q Hq]; exists q.
      * rewrite lookup_insert_ne; [done|]. intros ->. by apply Hp in Hq.
      * apply lookup_insert_Some in Hq as [[_ [=]]|[_ Hq]]. done.
    + intros q q' k w w'. rewrite !lookup_insert_Some. intros [[_ [=]]|[_ Hq]] [[_ [=]]|[_ Hq']]. by eapply H2.
    + intros k w. rewrite lookup_insert_Some, H1. split.
      * intros [[<- <-]|[Hne [q Hq]]]; [exists p; by rewrite lookup_insert_eq|]. exists q. rewrite lookup_insert_ne; [done|]. intros ->. by apply Hp in Hq.
      * intros [q [[<- [= <- <-]]|[Hne Hq]]%lookup_insert_Some]; [by left|]. right. split; [|eauto]. intros <-.
        assert (m g !! key = Some w) by (apply H1; eauto). congruence.
    + intros q q' k w w'. rewrite !lookup_insert_Some. intros [[<- [= <- <-]]|[Hne Hq]] [[<- Hw]|[Hne' Hq']]; [done|..|by eapply H2].
      * assert (m g !! key = Some w') by (apply H1; eauto). congruence.
      * injection Hw as <- <-. assert (m g !! key = Some w) by (apply H1; eauto). congruence.
  - destruct (threads g !! p) as [[key wg| |]|] eqn:Hp; [|done..]. intros [= <-]. split; cbn.
    + intros k w. rewrite lookup_delete_Some, H1. split.
      * intros [Hne [q Hq]]. exists q. rewrite lookup_insert_ne; [done|]. intros ->. congruence.
      * intros [q [[_ [=]]|[Hne Hq]]%lookup_insert_Some]. split; [|eauto]. intros <-. by apply Hne, (H2 _ _ key wg w).
    + intros q q' k w w'. rewrite !lookup_insert_Some. intros [[_ [=]]|[_ Hq]] [[_ [=]]|[_ Hq']]. by eapply H2.
  - destruct (threads g !! p) as [[|key wg|]|] eqn:Hp; [done| |done..]. intros [= <-]. split; cbn.
    + intros k w. rewrite H1. split; intros [q Hq]; exists q.
      * rewrite lookup_delete_ne; [done|]. intros ->. congruence.
      * by apply lookup_delete_Some in Hq as [_ Hq].
    + intros q q' k w w'. rewrite !lookup_delete_Some. intros [_ Hq] [_ Hq']. by eapply H2.
Qed.

(** Calls with the same key never overlap. *)
Lemma lockedcalls_exclusive es g p q key wg wg' :
  locked_run es NewLockedCalls = Some g -> threads g !! p = Some (Running key wg) -> threads g !! q = Some (Running key wg') -> p = q.
Proof.
  intros Hr. assert (Hi : locked_inv g).
  { revert Hr. assert (H0 : locked_inv NewLockedCalls) by (split; cbn; [intros; rewrite lookup_empty; split; [done|intros [? H]; by rewrite lookup_empty in H]|intros ?????; by rewrite lookup_empty]).
    revert H0. generalize NewLockedCalls. induction es as [|e es IH]; intros g0 H0; cbn; [by intros [= <-]|].
    destruct (locked_step e g0) as [g1|] eqn:E; cbn; [|done]. apply IH. by eapply locked_inv_step. }
  by apply Hi.
Qed.

End LockedCalls.

(** ** Pool (pool.go) *)

Module Pool.
Section pool.
Context {T : Type}.

Record Pool : Type := mkPool { limit : Z; created : Z; maxAge : Z; head : list (T * Z) }.

(** [NewPool] panics ([None]) when [n <= 0]. *)
Definition NewPool (n maxAge : Z) : option Pool := if n <=? 0 then None else Some (mkPool n 0 maxAge []).

Inductive get_result := GotIdle (x : T) | GotNew | MustWait.

(** The loop of [Get]: what it returns, the pool, and the resources it destroyed.  [now i]
    is the clock at the [i]th round. *)
Fixpoint get_loop (now : nat -> Z) (i : nat) (limit created maxAge : Z) (l : list (T * Z)) : get_result * Z * list (T * Z) * list T :=
  match l with
  | (x, lastUsed) :: l =>
      if (0 <? maxAge) && (lastUsed + maxAge <? now i) then
        let '(r, c, l, d) := get_loop now (S i) limit (created - 1) maxAge l in (r, c, l, x :: d)
      else (GotIdle x, created, l, [])
  | [] => if created <? limit then (GotNew, created + 1, [], []) else (MustWait, created, [], [])
  end.

Definition Get (now : nat -> Z) (p : Pool) : get_result * Pool * list T :=
  let '(r, c, l, d) := get_loop now 0 (limit p) (created p) (maxAge p) (head p) in
  (r, mkPool (limit p) c (maxAge p) l, d).

Definition Put (now : Z) (x : T) (p : Pool) : Pool := mkPool (limit p) (created p) (maxAge p) ((x, now) :: head p).

(** The pool with what its users hold. *)
Record system : Type := mkSystem { pool : Pool; held : list T; destroyed : list T }.

Inductive pool_event :=
| EvGet (now : nat -> Z) (new : T)     (* [new] is what create() returns, if it is called *)
| EvPut (now : Z) (i : nat).           (* the user puts back the [i]th resource it holds *)

Definition serve (e : pool_event) (s : system) : system :=
  match e with
  | EvGet now new =>
      let '(r, p, d) := Get now (pool s) in
      let held' := match r with GotIdle x => x :: held s | GotNew => new :: held s | MustWait => held s end in
      mkSystem p held' (d ++ destroyed s)
  | EvPut now i =>
      match held s !! i with
      | None => s
      | Some x => mkSystem (Put now x (pool s)) (take i (held s) ++ drop (S i) (held s)) (destroyed s)
      end
  end.

Lemma get_loop_spec now i lim c age l :
  let '(r, c', l', d) := get_loop now i lim c age l in
  exists k, d = (take k l).*1 /\ c' = c - Z.of_nat k + (match r with GotNew => 1 | _ => 0 end) /\ (k <= length l)%nat /\
    match r with
    | GotIdle x => exists t, l !! k = Some (x, t) /\ l' = drop (S k) l
    | GotNew => k = length l /\ l' = [] /\ c - Z.of_nat k < lim
    | MustWait => k = length l /\ l' = [] /\ lim <= c - Z.of_nat k
    end.
Proof.
  revert i c. induction l as [|[x t] l IH]; intros i c; cbn.
  - destruct (Z.ltb_spec c lim); exists 0%nat; (split; [done|]); (split; [lia|]); (split; [done|]); split_and!; try done; lia.
  - destruct (_ && _).
    + specialize (IH (S i) (c - 1)). destruct (get_loop now (S i) lim (c - 1) age l) as [[[r c'] l'] d]. destruct IH as (k & -> & -> & Hk & Hr).
      exists (S k). split; [done|]. split; [lia|]. split; [lia|]. destruct r as [y| |]; cbn.
      * exact Hr.
      * destruct Hr as (-> & -> & ?). split_and!; try done. lia.
      * destruct Hr as (-> & -> & ?). split_and!; try done. lia.
    + exists 0%nat. split; [done|]. split; [lia|]. split; [lia|]. by exists t.
Qed.

(** Everything that exists is idle or held, and counted. *)
Record pool_inv (s : system) : Prop := mk_pool_inv {
  i_count : created (pool s) = Z.of_nat (length (head (pool s))) + Z.of_nat (length (held s));
  i_limit : created (pool s) <= limit (pool s);
  i_once : NoDup ((head (pool s)).*1 ++ held s ++ destroyed s)
}.

Definition fresh_for (e : pool_event) (s : system) : Prop :=
  match e with EvGet _ new => new ∉ (head (pool s)).*1 ++ held s ++ destroyed s | EvPut _ _ => True end.

Lemma NoDup_perm (l k : list T) : l ≡ₚ k -> NoDup l -> NoDup k.
Proof. by intros ->. Qed.

Lemma pool_inv_serve e s : pool_inv s -> fresh_for e s -> pool_inv (serve e s) /\ limit (pool (serve e s)) = limit (pool s).
Proof.
  intros [H1 H2 H3] Hf. destruct e as [now new|now i]; cbn [serve fresh_for] in *.
  - unfold Get. destruct s as [[lim c age l] hs ds]. cbn [pool held destroyed limit created maxAge head] in *.
    pose proof (get_loop_spec now 0 lim c age l) as Hg. destruct (get_loop now 0 lim c age l) as [[[r c'] l'] d].
    destruct Hg as (k & -> & -> & Hk & Hr). split; [|done].
    assert (Hl : l.*1 = (take k l).*1 ++ (drop k l).*1) by (by rewrite <- fmap_app, take_drop).
    destruct r as [x| |]; cbn [pool held destroyed limit created maxAge head].
    + destruct Hr as (t & Hx & ->). rewrite (drop_S _ _ _ Hx) in Hl. apply lookup_lt_Some in Hx. constructor; cbn; [rewrite length_drop; lia|lia|].
      eapply NoDup_perm; [|exact H3]. rewrite Hl. cbn. solve_Permutation.
    + destruct Hr as (-> & -> & Hlt). constructor; cbn; [lia|lia|]. rewrite firstn_all.
      apply (NoDup_perm (new :: l.*1 ++ hs ++ ds)); [solve_Permutation|by constructor].
    + destruct Hr as (-> & -> & Hlt). constructor; cbn; [lia|lia|]. rewrite firstn_all. eapply NoDup_perm; [|exact H3]. solve_Permutation.
  - destruct (held s !! i) as [x|] eqn:Hx; [|done]. split; [|done]. apply lookup_lt_Some in Hx as Hlt.
    pose proof (take_drop_middle _ _ _ Hx) as Hm. constructor; cbn.
    + rewrite H1, length_app, length_take, length_drop. lia.
    + done.
    + eapply NoDup_perm; [|exact H3]. rewrite <- Hm at 1. solve_Permutation.
Qed.

Fixpoint serve_all (es : list pool_event) (s : system) : system :=
  match es with [] => s | e :: es => serve_all es (serve e s) end.

(** Every [create] of a history returns a resource that did not exist before. *)
Fixpoint fresh_all (es : list pool_event) (s : system) : Prop :=
  match es with [] => True | e :: es => fresh_for e s /\ fresh_all es (serve e s) end.

(** A pool never has more than [limit] live resources, counts them exactly, and never
    hands a resource to two users or hands out a destroyed one: whatever is idle, held or
    destroyed is so once. *)
Theorem pool_bounded (n age : Z) (p : Pool) (es : list pool_event) :
  NewPool n age = Some p -> fresh_all es (mkSystem p [] []) ->
  let s := serve_all es (mkSystem p [] []) in
  created (pool s) = Z.of_nat (length (head (pool s))) + Z.of_nat (length (held s)) /\
  0 <= created (pool s) <= n /\ NoDup ((head (pool s)).*1 ++ held s ++ destroyed s).
Proof.
  unfold NewPool. destruct (Z.leb_spec n 0) as [|Hn]; [done|]. intros [= <-].
  assert (H0 : pool_inv (mkSystem (mkPool n 0 age []) [] [])) by (constructor; cbn; [done|lia|constructor]).
  assert (Hl : limit (pool (mkSystem (mkPool n 0 age []) [] [])) = n) by done.
  revert H0 Hl. generalize (mkSystem (mkPool n 0 age []) [] []).
  induction es as [|e es IH]; intros s [H1 H2 H3] Hl; cbn; [intros _; split_and!; [done|lia|lia|done]|].
  intros [Hf Hfs]. destruct (pool_inv_serve e s) as [Hi Hl']; [by constructor|done|]. apply IH; [done|congruence|done].
Qed.

End pool.
End Pool.

Lemma pool_bounded_witness :
  let es := [Pool.EvGet (fun _ => 0) 1%nat; Pool.EvGet (fun _ => 0) 2%nat; Pool.EvPut 1 0; Pool.EvGet (fun _ => 99) 3%nat] in
  let s := Pool.serve_all es (Pool.mkSystem (Pool.mkPool 2 0 10 []) [] []) in
  Pool.held s = [3%nat; 1%nat] /\ Pool.destroyed s = [2%nat] /\ 0 <= Pool.created (Pool.pool s) <= 2.
Proof.
  intros es s. split; [vm_compute; reflexivity|]. split; [vm_compute; reflexivity|].
  apply (Pool.pool_bounded 2 10 (Pool.mkPool 2 0 10 []) es); [vm_compute; reflexivity|].
  cbn. split_and!; [apply not_elem_of_nil|..|done]; vm_compute; set_solver.
Defined.

(** ** Token limits (limit.go)

    A buffered channel of capacity [n] holding one token per borrower. *)

Record Limit : Type := mkLimit { cap : nat; tokens : nat }.

(** [make(chan, n)] panics for a negative [n]. *)
Definition NewLimit (n : Z) : option Limit := if n <? 0 then None else Some (mkLimit (Z.to_nat n) 0).

Definition TryBorrow (l : Limit) : bool * Limit :=
  if bool_decide (tokens l < cap l)%nat then (true, mkLimit (cap l) (S (tokens l))) else (false, l).

(** [false] is [ErrLimitReturn]. *)
Definition Return (l : Limit) : bool * Limit :=
  match tokens l with S t => (true, mkLimit (cap l) t) | O => (false, l) end.

(** ** Reference counting (refresource.go)

    [ref] is an int32; [Clean] reports whether it called [clean]. *)

Record RefResource : Type := mkRef { ref : Z; cleaned : bool }.

Definition NewRefResource : RefResource := mkRef 0 false.
Definition i32 (z : Z) : Z := (z + 2 ^ 31) mod 2 ^ 32 - 2 ^ 31.

Definition Use (r : RefResource) : bool * RefResource :=
  if cleaned r then (false, r) else (true, mkRef (i32 (ref r + 1)) false).

Definition Clean (r : RefResource) : bool * RefResource :=
  if cleaned r then (false, r)
  else let n := i32 (ref r - 1) in if n =? 0 then (true, mkRef n true) else (false, mkRef n false).

(** A history of uses ([true]) and cleans ([false]): the resource, and how often it was cleaned. *)
Fixpoint ref_run (ops : list bool) (r : RefResource) : RefResource * nat :=
  match ops with
  | [] => (r, 0%nat)
  | true :: ops => ref_run ops (Use r).2
  | false :: ops => let '(b, r') := Clean r in let '(r'', n) := ref_run ops r' in (r'', (if b then S n else n))
  end.

(** How far the uses of a history are ahead of its cleans. *)
Definition balance (ops : list bool) : Z := foldr (fun b n => if b : bool then n + 1 else n - 1) 0 ops.

Lemma i32_id z : - 2 ^ 31 <= z < 2 ^ 31 -> i32 z = z.
Proof. intros H. unfold i32. rewrite Z.mod_small; lia. Qed.

Lemma ref_run_cleaned ops r : cleaned r = true -> ref_run ops r = (r, 0%nat).
Proof.
  intros H. induction ops as [|[] ops IH]; cbn; [done|..].
  - unfold Use. by rewrite H.
  - unfold Clean. by rewrite H, IH.
Qed.

(** Users that pair each [Use] with one [Clean], the balance staying positive until the last
    one leaves: the resource is cleaned once, at that moment, and refuses use from then on. *)
Lemma ref_cleaned_once ops rest n :
  0 <= n < 2 ^ 30 -> Z.of_nat (length ops) < 2 ^ 30 -> n + balance ops = 0 ->
  (forall k, (k < length ops)%nat -> 0 < n + balance (take k ops)) -> ops <> [] ->
  ref_run (ops ++ rest) (mkRef n false) = (mkRef 0 true, 1%nat).
Proof.
  revert n. induction ops as [|b ops IH]; intros n Hn Hlen Hb Hpre Hne; [done|]. cbn [length] in *. cbn [balance foldr] in Hb. fold (balance ops) in Hb.
  assert (Hpre0 := Hpre 0%nat ltac:(lia)). cbn in Hpre0. destruct b; cbn [ref_run app].
  - unfold Use. cbn [cleaned ref snd]. rewrite i32_id by lia. destruct ops as [|b ops]; [cbn in Hb; lia|].
    assert (Hlim : n + 1 < 2 ^ 30 \/ n + 1 = 2 ^ 30) by lia. destruct Hlim as [Hlt|Heq].
    + apply IH; [lia|lia|lia| |done]. intros k Hk. specialize (Hpre (S k) ltac:(lia)). cbn [take balance foldr] in Hpre. fold (balance (take k (b :: ops))) in Hpre. lia.
    + exfalso. assert (Hge : forall l, - Z.of_nat (length l) <= balance l) by (induction l as [|[] l IHl]; cbn [balance foldr length]; [cbn; lia|..]; fold (balance l); lia).
      specialize (Hge (b :: ops)). lia.
  - unfold Clean. cbn [cleaned ref]. rewrite i32_id by lia. destruct ops as [|b ops].
    + cbn in Hb. replace (n - 1) with 0 by lia. rewrite Z.eqb_refl. cbn [app]. by rewrite ref_run_cleaned.
    + specialize (Hpre 1%nat ltac:(cbn; lia)) as H1. cbn in H1. rewrite (proj2 (Z.eqb_neq (n - 1) 0)) by lia.
      rewrite IH; [done|lia|lia|lia| |done]. intros k Hk. specialize (Hpre (S k) ltac:(lia)). cbn [take balance foldr] in Hpre. fold (balance (take k (b :: ops))) in Hpre. lia.
Qed.

(** From the first [Use] on. *)
Corollary ref_lifecycle ops rest :
  Z.of_nat (length ops) < 2 ^ 30 -> 1 + balance ops = 0 -> (forall k, (k < length ops)%nat -> 0 < 1 + balance (take k ops)) -> ops <> [] ->
  ref_run (true :: ops ++ rest) NewRefResource = (mkRef 0 true, 1%nat).
Proof. intros. cbn [ref_run]. by apply ref_cleaned_once. Qed.

(** A [Clean] without a [Use] leaves the count one behind: the resource is never cleaned by
    the users that come later. *)
Example clean_before_use : ref_run [false; true; false; true; false] NewRefResource = (mkRef (-1) false, 0%nat).
Proof. vm_compute. reflexivity. Qed.

(** ** Fetched resources (immutableresource.go)

    [Get] is one critical section; [now] is the clock when it decides and [now'] when the
    fetch has returned.  [fetch] is what the user's function would answer; the answer's
    last component says whether it was called. *)

Section immutable.
Context {V E : Type}.

Record ImmutableResource : Type := mkImm { resource : option V; err : option E; refreshInterval : Z; lastTime : Z }.

Definition defaultRefreshInterval : Z := 1000000000.
Definition NewImmutableResource (refresh : option Z) : ImmutableResource := mkImm None None (default defaultRefreshInterval refresh) 0.

Definition shouldRefresh (now : Z) (ir : ImmutableResource) : bool :=
  (lastTime ir =? 0) || (lastTime ir + refreshInterval ir <? now).

Definition imm_Get (now now' : Z) (fetch : option V * option E) (ir : ImmutableResource) : (option V * option E) * ImmutableResource * bool :=
  match resource ir, err ir with
  | Some v, _ => ((Some v, None), ir, false)
  | None, Some e =>
      if negb (shouldRefresh now ir) then ((None, Some e), ir, false)
      else match fetch with
           | (_, Some e) => ((None, Some e), mkImm None (Some e) (refreshInterval ir) now', true)
           | (v, None) => ((v, None), mkImm v None (refreshInterval ir) now', true)
           end
  | None, None =>
      match fetch with
      | (_, Some e) => ((None, Some e), mkImm None (Some e) (refreshInterval ir) now', true)
      | (v, None) => ((v, None), mkImm v None (refreshInterval ir) now', true)
      end
  end.

(** The calls of a history, each with its clocks and the answer a fetch would get; the
    clocks of the fetches made. *)
Fixpoint imm_run (calls : list (Z * Z * (option V * option E))) (ir : ImmutableResource) : ImmutableResource * list (Z * Z) :=
  match calls with
  | [] => (ir, [])
  | (now, now', f) :: calls =>
      let '(_, ir', b) := imm_Get now now' f ir in
      let '(ir'', l) := imm_run calls ir' in (ir'', if b : bool then (now, now') :: l else l)
  end.

(** No fetch starts within [d] of the end of the one before it. *)
Fixpoint spaced (d : Z) (last : Z) (l : list (Z * Z)) : Prop :=
  match l with [] => True | (a, b) :: l => last + d < a /\ spaced d b l end.

(** A loaded resource is never fetched again, and a fetch that fails is not repeated before
    the refresh interval is over. *)
Lemma imm_fetches calls ir ir' l :
  imm_run calls ir = (ir', l) -> refreshInterval ir' = refreshInterval ir /\
  (forall v, resource ir = Some v -> ir' = ir /\ l = []) /\
  (Forall (fun c => c.1.2 <> 0 /\ (c.2.1 = None -> is_Some c.2.2)) calls -> err ir <> None -> lastTime ir <> 0 ->
   spaced (refreshInterval ir) (lastTime ir) l).
Proof.
  revert ir ir' l. induction calls as [|[[now now'] f] calls IH]; intros ir ir' l; cbn; [by intros [= <- <-]|].
  unfold imm_Get. destruct ir as [r e d t]. cbn [resource err refreshInterval lastTime].
  destruct r as [v|].
  { destruct (imm_run calls _) as [i m] eqn:E0. intros [= <- <-]. destruct (IH _ _ _ E0) as (Hd & Hv & Hs). destruct (Hv v eq_refl) as [-> ->].
    split_and!; [done|done|done]. }
  destruct e as [e|].
  - destruct (shouldRefresh now _) eqn:Hsh; cbn [negb].
    + destruct f as [v [e'|]]; destruct (imm_run calls _) as [i m] eqn:E0; intros [= <- <-]; destruct (IH _ _ _ E0) as (Hd & Hv & Hs); split_and!; try done;
        intros [[Hnow Hf] Hall]%Forall_cons _ Ht; cbn in *; (split; [unfold shouldRefresh in Hsh; cbn in Hsh; lia|]).
      * by apply Hs.
      * destruct v as [v|]; [|by destruct (Hf eq_refl)]. destruct (Hv v eq_refl) as [_ ->]. done.
    + destruct (imm_run calls _) as [i m] eqn:E0; intros [= <- <-]; destruct (IH _ _ _ E0) as (Hd & Hv & Hs). split_and!; [done|done|].
      intros [_ Hall]%Forall_cons. by apply Hs.
  - destruct f as [v [e'|]]; destruct (imm_run calls _) as [i m] eqn:E0; intros [= <- <-]; destruct (IH _ _ _ E0) as (Hd & _); split_and!; done.
Qed.
End immutable.

(** ** Managed resources (managedresource.go) *)

Section managed.
Context {V : Type} (equals : option V -> option V -> bool).

Definition MarkBroken (broken : option V) (current : option V) : option V := if equals current broken then None else current.

(** [generate] is called, with what it returns, only when there is no resource. *)
Definition Take (generated : option V) (current : option V) : option V := match current with Some v => Some v | None => generated end.

(** A resource reported broken by a user that held an older one stays. *)
Lemma MarkBroken_stale (v w : V) g : (forall a b, equals a b = true <-> a = b) -> v <> w -> Take g (MarkBroken (Some w) (Some v)) = Some v.
Proof. intros Heq Hne. unfold MarkBroken. destruct (equals _ _) eqn:E; [|done]. apply Heq in E. congruence. Qed.
End managed.
