(* ===== verification/Executors.v ===== *)
(** * Executors (infra/executors)

    Tasks are collected in a container and executed in batches by a background goroutine that
    callers start when they need one and that ends when it is idle.  The machine interleaves
    the callers of [Add], [Flush] and [Wait] and the background goroutines, one access to
    shared state per step; what the lock protects is one step.  A rendezvous on the channel
    [confirmChan] moves both of its goroutines.  [Execute] runs on a batch in one step
    ([RunSafe] recovers its panics). *)

From S2P Require Import Prelude.

#[local] Open Scope Z_scope.

(** ** Containers *)

(** [TaskContainer]: [contents] is what [RemoveAll] would return. *)
Class TaskContainer (C T V : Type) := {
  contents : C -> list V;
  AddTask : T -> C -> bool * C;
  RemoveAll : C -> list V * C;
  value_of : T -> V }.

Class ContainerLaws (C T V : Type) `{TaskContainer C T V} : Prop := {
  AddTask_contents (t : T) (c : C) : contents (AddTask t c).2 = contents c ++ [value_of t];
  RemoveAll_contents (c : C) : RemoveAll c = (contents c, (RemoveAll c).2) /\ contents (RemoveAll c).2 = [] }.

(** bulkexecutor.go *)
Record bulkContainer (V : Type) : Type := mkBulk { bc_tasks : list V; bc_maxTasks : Z }.
Arguments mkBulk {V}. Arguments bc_tasks {V}. Arguments bc_maxTasks {V}.

Definition bulk_AddTask {V} (task : V) (bc : bulkContainer V) : bool * bulkContainer V :=
  let bc := mkBulk (bc_tasks bc ++ [task]) (bc_maxTasks bc) in (bc_maxTasks bc <=? Z.of_nat (length (bc_tasks bc)), bc).
Definition bulk_RemoveAll {V} (bc : bulkContainer V) : list V * bulkContainer V := (bc_tasks bc, mkBulk [] (bc_maxTasks bc)).

#[global] Instance bulk_container V : TaskContainer (bulkContainer V) V V :=
  { contents := bc_tasks; AddTask := bulk_AddTask; RemoveAll := bulk_RemoveAll; value_of := id }.
#[global] Instance bulk_laws V : ContainerLaws (bulkContainer V) V V.
Proof. split; [done|]. done. Qed.

(** chunkexecutor.go: a task comes with its size. *)
Record chunk (V : Type) : Type := mkChunk { ck_val : V; ck_size : Z }.
Arguments mkChunk {V}. Arguments ck_val {V}. Arguments ck_size {V}.
Record chunkContainer (V : Type) : Type := mkChunks { cc_tasks : list V; cc_size : Z; cc_maxChunkSize : Z }.
Arguments mkChunks {V}. Arguments cc_tasks {V}. Arguments cc_size {V}. Arguments cc_maxChunkSize {V}.

Definition chunk_AddTask {V} (task : chunk V) (bc : chunkContainer V) : bool * chunkContainer V :=
  let bc := mkChunks (cc_tasks bc ++ [ck_val task]) (wrap64 (cc_size bc + ck_size task)) (cc_maxChunkSize bc) in
  (cc_maxChunkSize bc <=? cc_size bc, bc).
Definition chunk_RemoveAll {V} (bc : chunkContainer V) : list V * chunkContainer V := (cc_tasks bc, mkChunks [] 0 (cc_maxChunkSize bc)).

#[global] Instance chunk_container V : TaskContainer (chunkContainer V) (chunk V) V :=
  { contents := cc_tasks; AddTask := chunk_AddTask; RemoveAll := chunk_RemoveAll; value_of := ck_val }.
#[global] Instance chunk_laws V : ContainerLaws (chunkContainer V) (chunk V) V.
Proof. split; [done|]. done. Qed.

(** ** The periodical executor *)

Section periodical.
Context {C T V : Type} `{HC : TaskContainer C T V} {HL : ContainerLaws C T V}.
Context (interval : Z).

(** What follows an execution: the loop after a batch that was sent ([AfterCommand]) or after a
    tick, the end of a background goroutine, [Flush] or [Wait] of a caller. *)
Inductive after := AfterCommand | AfterTick (last : Z) | AfterQuit | AfterFlush | AfterWait.

(** Goroutines: a caller of [Add] that has to start the background goroutine, that sends a batch,
    that waits for the confirmation; the loop, with its flag and the time of its last execution;
    the loop that received a batch, before and after it entered the execution; the loop that
    found nothing; a flush before [enterExecution], before taking the tasks, with them; [Wait]
    before the barrier, and at the wait group with the barrier. *)
Inductive gor :=
| GSpawn (vals : option (list V)) | GSend (vals : list V) | GConfirm
| BLoop (commanded : bool) (last : Z) | BEnter (vals : list V) | BConfirm (vals : list V) | BIdle (last : Z)
| GEnter (k : after) | GTake (k : after) | GRun (vals : list V) (k : after) | GWait | GHold | GEnd.

Record PeriodicalExecutor : Type := mkPE {
  pe_container : C; pe_commander : option (list V); pe_inflight : Z; pe_guarded : bool; pe_wg : Z; pe_barrier : bool;
  pe_gs : list gor; pe_executed : list V }.
#[global] Instance eta_PE : Eta PeriodicalExecutor := fun r =>
  mkPE (pe_container r) (pe_commander r) (pe_inflight r) (pe_guarded r) (pe_wg r) (pe_barrier r) (pe_gs r) (pe_executed r).

Definition NewPeriodicalExecutor (container : C) : PeriodicalExecutor := mkPE container None 0 false 0 false [] [].

Definition go_to (i : nat) (g : gor) (s : PeriodicalExecutor) : PeriodicalExecutor := s <| pe_gs := <[i := g]> (pe_gs s) |>.
Definition go (g : gor) (s : PeriodicalExecutor) : PeriodicalExecutor := s <| pe_gs := pe_gs s ++ [g] |>.

(** The locked part of [addAndCheck], by a new caller. *)
Definition addAndCheck (task : T) (s : PeriodicalExecutor) : PeriodicalExecutor :=
  let '(full, c) := AddTask task (pe_container s) in
  let '(vals, c) := if full then let '(vals, c) := RemoveAll c in (Some vals, c) else (None, c) in
  let g := if pe_guarded s then match vals with Some vals => GSend vals | None => GEnd end else GSpawn vals in
  go g (s <| pe_container := c |> <| pe_inflight := if full then pe_inflight s + 1 else pe_inflight s |> <| pe_guarded := true |>).

(** The barrier is held by at most one caller of [Wait], and for one step by who enters. *)
Definition enterExecution (s : PeriodicalExecutor) : option PeriodicalExecutor :=
  if pe_barrier s then None else Some (s <| pe_wg := pe_wg s + 1 |>).

Definition hasTasks (vals : list V) : bool := match vals with [] => false | _ => true end.

(** [executeTasks] with its deferred [doneExecution]. *)
Definition executeTasks (vals : list V) (s : PeriodicalExecutor) : PeriodicalExecutor :=
  s <| pe_executed := pe_executed s ++ vals |> <| pe_wg := pe_wg s - 1 |>.

Definition shallQuit (now last : Z) (s : PeriodicalExecutor) : bool * PeriodicalExecutor :=
  if now - last <=? interval * 10 then (false, s)
  else if pe_inflight s =? 0 then (true, s <| pe_guarded := false |>) else (false, s).

(** Where a goroutine goes after an execution at time [now]. *)
Definition continue_ (now : Z) (vals : list V) (k : after) : gor :=
  match k with
  | AfterCommand => BLoop true now
  | AfterTick last => if hasTasks vals then BLoop false now else BIdle last
  | AfterQuit | AfterFlush => GEnd
  | AfterWait => GWait
  end.

Inductive event :=
| EAdd (task : T) | EFlush | EWait                 (* new callers *)
| ERun (i : nat) (now : Z)                         (* goroutine i takes its next step *)
| EReceive (i : nat) | ETick (i : nat)             (* the loop selects *)
| EConfirm (i j : nat).                            (* loop i meets caller j *)

Definition step (ev : event) (s : PeriodicalExecutor) : option PeriodicalExecutor :=
  match ev with
  | EAdd task => Some (addAndCheck task s)
  | EFlush => Some (go (GEnter AfterFlush) s)
  | EWait => Some (go (GEnter AfterWait) s)
  | ERun i now =>
      match pe_gs s !! i with
      | Some (GSpawn vals) => Some (go (BLoop false now) (go_to i (match vals with Some vals => GSend vals | None => GEnd end) s))
      | Some (GSend vals) =>
          match pe_commander s with None => Some (go_to i GConfirm (s <| pe_commander := Some vals |>)) | Some _ => None end
      | Some (BEnter vals) => s ← enterExecution s; Some (go_to i (BConfirm vals) s)
      | Some (BIdle last) =>
          let '(quit, s) := shallQuit now last s in Some (go_to i (if quit then GEnter AfterQuit else BLoop false last) s)
      | Some (GEnter k) => s ← enterExecution s; Some (go_to i (GTake k) s)
      | Some (GTake k) => let '(vals, c) := RemoveAll (pe_container s) in Some (go_to i (GRun vals k) (s <| pe_container := c |>))
      | Some (GRun vals k) => Some (go_to i (continue_ now vals k) (executeTasks vals s))
      | Some GWait => if pe_barrier s then None else Some (go_to i GHold (s <| pe_barrier := true |>))
      | Some GHold => if pe_wg s =? 0 then Some (go_to i GEnd (s <| pe_barrier := false |>)) else None
      | _ => None
      end
  | EReceive i =>
      match pe_gs s !! i, pe_commander s with
      | Some (BLoop _ _), Some vals => Some (go_to i (BEnter vals) (s <| pe_commander := None |> <| pe_inflight := pe_inflight s - 1 |>))
      | _, _ => None
      end
  | ETick i =>
      match pe_gs s !! i with
      | Some (BLoop true last) => Some (go_to i (BLoop false last) s)
      | Some (BLoop false last) => Some (go_to i (GEnter (AfterTick last)) s)
      | _ => None
      end
  | EConfirm i j =>
      match pe_gs s !! i, pe_gs s !! j with
      | Some (BConfirm vals), Some GConfirm => Some (go_to j GEnd (go_to i (GRun vals AfterCommand) s))
      | _, _ => None
      end
  end.

Fixpoint run (evs : list event) (s : PeriodicalExecutor) : option PeriodicalExecutor :=
  match evs with [] => Some s | ev :: evs => s ← step ev s; run evs s end.

(** ** The invariant *)

Definition b2n (b : bool) : nat := if b then 1%nat else 0%nat.
Definition is_some {A} (o : option A) : nat := match o with Some _ => 1%nat | None => 0%nat end.

(** Who will send a batch, who runs the loop, who waits for a confirmation and who owes one, who
    is between [enterExecution] and [doneExecution], who will still take the tasks, who holds
    the barrier. *)
Definition sending (g : gor) : nat := match g with GSpawn (Some _) | GSend _ => 1 | _ => 0 end.
Definition serving (g : gor) : nat :=
  match g with
  | GSpawn _ | BLoop _ _ | BEnter _ | BConfirm _ | BIdle _ | GRun _ AfterCommand | GRun _ (AfterTick _)
  | GEnter (AfterTick _) | GTake (AfterTick _) => 1
  | _ => 0
  end.
Definition confirming (g : gor) : nat := match g with GConfirm => 1 | _ => 0 end.
Definition owing (g : gor) : nat := match g with BEnter _ | BConfirm _ => 1 | _ => 0 end.
Definition executing (g : gor) : nat := match g with GTake _ | GRun _ _ | BConfirm _ => 1 | _ => 0 end.
Definition flushing (g : gor) : nat := match g with GEnter _ | GTake _ => 1 | _ => 0 end.
Definition holding (g : gor) : nat := match g with GHold => 1 | _ => 0 end.
(** A flush for a command does not exist. *)
Definition odd_flush (g : gor) : nat := match g with GEnter AfterCommand | GTake AfterCommand => 1 | _ => 0 end.

Definition count (f : gor -> nat) (s : PeriodicalExecutor) : nat := sum_list_with f (pe_gs s).

Record pe_inv (s : PeriodicalExecutor) : Prop := mkPEInv {
  pi_inflight : pe_inflight s = Z.of_nat (count sending s + is_some (pe_commander s));
  pi_one_loop : count serving s = b2n (pe_guarded s);
  pi_confirm : count confirming s = (count owing s + is_some (pe_commander s))%nat;
  pi_wg : pe_wg s = Z.of_nat (count executing s);
  pi_contents : (b2n (hasTasks (contents (pe_container s))) <= b2n (pe_guarded s) + count flushing s)%nat;
  pi_idle : pe_guarded s = false -> pe_inflight s = 0;
  pi_barrier : count holding s = b2n (pe_barrier s);
  pi_odd : count odd_flush s = 0%nat }.

Ltac counts E b :=
  pose proof (sum_insert sending _ _ _ b E); pose proof (sum_insert serving _ _ _ b E);
  pose proof (sum_insert confirming _ _ _ b E); pose proof (sum_insert owing _ _ _ b E);
  pose proof (sum_insert executing _ _ _ b E); pose proof (sum_insert flushing _ _ _ b E);
  pose proof (sum_insert holding _ _ _ b E); pose proof (sum_insert odd_flush _ _ _ b E).
Ltac counts_all := repeat match goal with E : ?l !! ?i = Some ?a |- context [<[?i := ?b]> ?l] =>
  lazymatch goal with H : (sum_list_with sending (<[i := b]> l) + _ = _)%nat |- _ => fail | _ => counts E b end end.
Lemma b2n_bound b : (b2n b <= 1)%nat.
Proof. destruct b; cbn; lia. Qed.
Ltac pe_solve := split; unfold count; cbn; rewrite ?sum_list_with_app; counts_all; cbn in *;
  try match goal with R : contents ?c = [] |- context [contents ?c] => rewrite R; cbn end;
  try match goal with |- context [hasTasks ?v] => pose proof (b2n_bound (hasTasks v)) end;
  try lia; try (intros; lia).

Lemma pe_inv_new c : contents c = [] -> pe_inv (NewPeriodicalExecutor c).
Proof. intros E. split; cbn; rewrite ?E; auto. Qed.

Lemma addAndCheck_inv t s : pe_inv s -> pe_inv (addAndCheck t s).
Proof.
  destruct s as [c cm inf gd wg br gs ex]. intros []. unfold addAndCheck. unfold count in *. cbn in *.
  destruct (AddTask t c) as [full c1]. destruct full; [destruct (RemoveAll c1) as [vals c2] eqn:R|]; destruct gd; cbn in *; pe_solve.
Qed.

Lemma ERun_inv i now s s' : pe_inv s -> step (ERun i now) s = Some s' -> pe_inv s'.
Proof.
  destruct s as [c cm inf gd wg br gs ex]. intros [] H. unfold count in *. cbn in *.
  destruct (gs !! i) as [[vals|vals| |cmd l|vals|vals|l|k|k|vals k| | |]|] eqn:E; try done.
  - injection H as <-. destruct vals; pe_solve.
  - destruct cm; [done|]. injection H as <-. pe_solve.
  - destruct br; [done|]. injection H as <-. pe_solve.
  - unfold shallQuit in H. cbn in H. destruct (_ <=? _); [|destruct (inf =? 0) eqn:Q]; injection H as <-; pose proof (b2n_bound gd); pe_solve.
  - destruct br; [done|]. injection H as <-. destruct k; pe_solve.
  - destruct (RemoveAll c) as [vals c2] eqn:R. injection H as <-. pose proof (RemoveAll_contents c) as [_ R2]. rewrite R in R2. cbn in R2.
    destruct k; pe_solve.
  - injection H as <-. unfold continue_. destruct k; [..|]; try destruct (hasTasks vals) eqn:Hv; pe_solve.
  - destruct br; [done|]. injection H as <-. pe_solve.
  - destruct (wg =? 0); [|done]. injection H as <-. pose proof (b2n_bound br). pe_solve.
Qed.

Lemma step_pe_inv ev s s' : pe_inv s -> step ev s = Some s' -> pe_inv s'.
Proof.
  destruct ev as [t| | |i now|i|i|i j]; [intros I H; injection H as <-; by apply addAndCheck_inv|..|by apply ERun_inv| | |];
    destruct s as [c cm inf gd wg br gs ex]; intros [] H; unfold count in *; cbn in *.
  - injection H as <-. pe_solve.
  - injection H as <-. pe_solve.
  - destruct (gs !! i) as [[]|] eqn:E; try done. destruct cm; [|done]. injection H as <-. pe_solve.
  - destruct (gs !! i) as [[| | |[] l| | | | | | | | |]|] eqn:E; try done; injection H as <-; pe_solve.
  - destruct (gs !! i) as [[]|] eqn:E; try done. destruct (gs !! j) as [[]|] eqn:F; try done. injection H as <-.
    assert (F' : <[i:=GRun vals AfterCommand]> gs !! j = Some GConfirm) by (rewrite list_lookup_insert_ne; [done|congruence]).
    unfold go_to. cbn. counts E (GRun vals AfterCommand). pe_solve.
Qed.

(** ** Conservation: what was added is in the container, in the channel, in the hands of a
    goroutine or executed. *)

Definition held (g : gor) : list V :=
  match g with GSpawn (Some vals) | GSend vals | BEnter vals | BConfirm vals | GRun vals _ => vals | _ => [] end.
Definition added (ev : event) : list V := match ev with EAdd t => [value_of t] | _ => [] end.
Definition in_channel (s : PeriodicalExecutor) : list V := match pe_commander s with Some vals => vals | None => [] end.
Definition places (s : PeriodicalExecutor) : list V :=
  contents (pe_container s) ++ in_channel s ++ (pe_gs s ≫= held) ++ pe_executed s.

(** The number of tasks of each kind in a place. *)
Definition total (f : V -> nat) (s : PeriodicalExecutor) : nat :=
  (sum_list_with f (contents (pe_container s)) + sum_list_with f (in_channel s)
   + sum_list_with (fun g => sum_list_with f (held g)) (pe_gs s) + sum_list_with f (pe_executed s))%nat.

Lemma total_places f s : total f s = sum_list_with f (places s).
Proof.
  unfold total, places. rewrite !sum_list_with_app.
  assert (E : sum_list_with f (pe_gs s ≫= held) = sum_list_with (fun g => sum_list_with f (held g)) (pe_gs s)).
  { induction (pe_gs s) as [|g gs IH]; cbn; [done|]. by rewrite sum_list_with_app, IH. }
  rewrite E. lia.
Qed.

Lemma addAndCheck_total f t s : total f (addAndCheck t s) = (total f s + f (value_of t))%nat.
Proof.
  destruct s as [c cm inf gd wg br gs ex]. unfold addAndCheck, total, in_channel. cbn.
  pose proof (AddTask_contents t c) as A. destruct (AddTask t c) as [full c1]. cbn in A.
  destruct full; [destruct (RemoveAll_contents c1) as [R1 R2]; rewrite R1|]; destruct gd; cbn;
    rewrite ?R2, ?A, ?sum_list_with_app; cbn; rewrite ?A, ?sum_list_with_app; cbn; lia.
Qed.

Ltac moved E f := match type of E with ?gs !! ?i = Some ?a =>
  match goal with |- context [<[i := ?b]> gs] => pose proof (sum_insert (fun g => sum_list_with f (held g)) _ _ _ b E) end end.

Lemma step_total f ev s s' : step ev s = Some s' -> total f s' = (total f s + sum_list_with f (added ev))%nat.
Proof.
  destruct ev as [t| | |i now|i|i|i j]; cbn [added]; intros H; [injection H as <-; rewrite addAndCheck_total; cbn; lia|..];
    destruct s as [c cm inf gd wg br gs ex]; unfold total, in_channel; cbn in *.
  - injection H as <-. cbn. rewrite sum_list_with_app. cbn. lia.
  - injection H as <-. cbn. rewrite sum_list_with_app. cbn. lia.
  - destruct (gs !! i) as [[vals|vals| |cmd l|vals|vals|l|k|k|vals k| | |]|] eqn:E; try done.
    + injection H as <-. cbn. rewrite sum_list_with_app. moved E f. destruct vals; cbn in *; lia.
    + destruct cm; [done|]. injection H as <-. cbn. moved E f. cbn in *. lia.
    + destruct br; [done|]. injection H as <-. cbn. moved E f. cbn in *. lia.
    + unfold shallQuit in H. cbn in H. destruct (_ <=? _); [|destruct (inf =? 0)]; injection H as <-; cbn; moved E f; cbn in *; lia.
    + destruct br; [done|]. injection H as <-. cbn. moved E f. cbn in *. lia.
    + destruct (RemoveAll_contents c) as [R1 R2]. rewrite R1 in H. injection H as <-. cbn. rewrite R2. moved E f. cbn in *. lia.
    + injection H as <-. cbn. rewrite sum_list_with_app. moved E f. unfold continue_ in *. destruct k; cbn in *; try destruct (hasTasks vals); cbn in *; lia.
    + destruct br; [done|]. injection H as <-. cbn. moved E f. cbn in *. lia.
    + destruct (wg =? 0); [|done]. injection H as <-. cbn. moved E f. cbn in *. lia.
  - destruct (gs !! i) as [[]|] eqn:E; try done. destruct cm; [|done]. injection H as <-. cbn. moved E f. cbn in *. lia.
  - destruct (gs !! i) as [[| | |[] l| | | | | | | | |]|] eqn:E; try done; injection H as <-; cbn; moved E f; cbn in *; lia.
  - destruct (gs !! i) as [[]|] eqn:E; try done. destruct (gs !! j) as [[]|] eqn:F; try done. injection H as <-. cbn.
    assert (F' : <[i:=GRun vals AfterCommand]> gs !! j = Some GConfirm) by (rewrite list_lookup_insert_ne; [done|congruence]).
    moved E f. moved F' f. cbn in *. lia.
Qed.

Lemma run_app evs1 evs2 s : run (evs1 ++ evs2) s = s' ← run evs1 s; run evs2 s'.
Proof. revert s. induction evs1 as [|ev evs IH]; intros s; cbn; [done|]. destruct (step ev s); cbn; auto. Qed.

Lemma run_pe_inv evs s s' : pe_inv s -> run evs s = Some s' -> pe_inv s'.
Proof.
  revert s. induction evs as [|ev evs IH]; intros s I H; cbn in H; [by simplify_eq|]. apply bind_Some in H as (s1 & H1 & H2).
  exact (IH _ (step_pe_inv _ _ _ I H1) H2).
Qed.

Lemma run_total f evs s s' : run evs s = Some s' -> total f s' = (total f s + sum_list_with f (evs ≫= added))%nat.
Proof.
  revert s. induction evs as [|ev evs IH]; intros s H; cbn in H; [simplify_eq; cbn; lia|]. apply bind_Some in H as (s1 & H1 & H2).
  rewrite (IH _ H2), (step_total f _ _ _ H1). cbn. rewrite sum_list_with_app. lia.
Qed.

(** Two lists with the same sums are permutations of each other. *)
Lemma sums_permutation `{EqDecision V} (l1 l2 : list V) : (forall f, sum_list_with f l1 = sum_list_with f l2) -> l1 ≡ₚ l2.
Proof.
  intros H. apply (Permutation_count_occ (decide_rel (=))). intros v.
  assert (E : forall l, count_occ (decide_rel (=)) l v = sum_list_with (fun w => if decide_rel (=) w v then 1%nat else 0%nat) l).
  { induction l as [|w l IH]; cbn; [done|]. destruct (decide_rel _ _ _); by rewrite IH. }
  by rewrite !E.
Qed.

Lemma pe_run_places `{EqDecision V} evs s s' : run evs s = Some s' -> places s' ≡ₚ places s ++ (evs ≫= added).
Proof. intros H. apply sums_permutation. intros f. rewrite sum_list_with_app, <- !total_places. by apply run_total. Qed.

Lemma places_new c : contents c = [] -> places (NewPeriodicalExecutor c) = [].
Proof. intros E. unfold places. cbn. by rewrite E. Qed.

(** ** The tasks drain *)

(** How far a goroutine is from its rest: the end, or the loop with nothing to do. *)
Definition distance (g : gor) : nat :=
  match g with
  | GSpawn _ => 8 | GSend _ => 7 | BEnter _ | GEnter _ => 5 | BConfirm _ | GTake _ => 4 | GRun _ _ => 3
  | GWait => 2 | GHold | BIdle _ | BLoop true _ => 1 | GConfirm | BLoop false _ | GEnd => 0
  end.
Definition remaining (s : PeriodicalExecutor) : nat :=
  (count distance s + 6 * is_some (pe_commander s) + 10 * b2n (hasTasks (contents (pe_container s))))%nat.

Definition internal (ev : event) : bool := match ev with EAdd _ | EFlush | EWait => false | _ => true end.

(** The next step of a goroutine, and the time at which it is taken so that the loop goes on. *)
Definition can_move (s : PeriodicalExecutor) (g : gor) : bool :=
  match g with
  | GSpawn _ | BConfirm _ | BIdle _ | GTake _ | GRun _ _ | BLoop true _ => true
  | GSend _ => match pe_commander s with None => true | Some _ => false end
  | BEnter _ | GEnter _ | GWait => negb (pe_barrier s)
  | GHold => pe_wg s =? 0
  | GConfirm | GEnd => false
  | BLoop false _ => match pe_commander s with None => false | Some _ => true end
  end.

Definition some_step (s : PeriodicalExecutor) : Prop :=
  exists evs s', forallb internal evs = true /\ run evs s = Some s' /\ (remaining s' < remaining s)%nat.

Lemma one_step ev s s' : internal ev = true -> step ev s = Some s' -> (remaining s' < remaining s)%nat -> some_step s.
Proof. intros I E L. exists [ev], s'. cbn. by rewrite I, E. Qed.

Ltac closer E := unfold remaining, count; cbn; rewrite ?sum_list_with_app;
  match type of E with ?gs !! ?i = Some ?a => match goal with |- context [<[i := ?b]> gs] => pose proof (sum_insert distance _ _ _ b E) end end; cbn in *; lia.

Lemma move s i g : pe_inv s -> pe_gs s !! i = Some g -> can_move s g = true -> some_step s.
Proof.
  destruct s as [c cm inf gd wg br gs ex]. intros [] E M. unfold count in *. cbn in *.
  destruct g as [vals|vals| |[] l|vals|vals|l|k|k|vals k| | |]; try done; cbn in M.
  - eapply (one_step (ERun i 0)); [done|cbn; by rewrite E|]. destruct vals; closer E.
  - destruct cm; [done|]. eapply (one_step (ERun i 0)); [done|cbn; by rewrite E|]. closer E.
  - eapply (one_step (ETick i)); [done|cbn; by rewrite E|]. closer E.
  - destruct cm as [vals|]; [|done]. eapply (one_step (EReceive i)); [done|cbn; by rewrite E|]. closer E.
  - destruct br; [done|]. eapply (one_step (ERun i 0)); [done|cbn; by rewrite E|]. closer E.
  - destruct (sum_positive confirming gs) as (j & g & F & P). { pose proof (sum_lookup owing _ _ _ E). cbn in *. lia. }
    destruct g; cbn in P; try lia. eapply (one_step (EConfirm i j)); [done|cbn; by rewrite E, F|].
    assert (F' : <[i:=GRun vals AfterCommand]> gs !! j = Some GConfirm) by (rewrite list_lookup_insert_ne; [done|congruence]).
    pose proof (sum_insert distance _ _ _ GEnd F'). closer E.
  - eapply (one_step (ERun i (l + interval * 10))); [done|cbn; rewrite E; unfold shallQuit|].
    { replace (_ <=? _) with true by (symmetry; apply Z.leb_le; lia). done. } closer E.
  - destruct br; [done|]. eapply (one_step (ERun i 0)); [done|cbn; by rewrite E|]. closer E.
  - destruct (RemoveAll_contents c) as [R1 R2]. eapply (one_step (ERun i 0)); [done|cbn; rewrite E, R1; done|].
    pose proof (b2n_bound (hasTasks (contents c))). unfold remaining. cbn. rewrite R2. closer E.
  - eapply (one_step (ERun i 0)); [done|cbn; by rewrite E|]. unfold continue_. destruct k; try destruct (hasTasks vals); closer E.
  - destruct br; [done|]. eapply (one_step (ERun i 0)); [done|cbn; by rewrite E|]. closer E.
  - eapply (one_step (ERun i 0)); [done|cbn; by rewrite E, M|]. closer E.
Qed.

(** With nobody left who can move, the loop takes what is in the container at its next tick. *)
Lemma tick_takes s i l : pe_gs s !! i = Some (BLoop false l) -> pe_barrier s = false -> contents (pe_container s) <> [] -> some_step s.
Proof.
  destruct s as [c cm inf gd wg br gs ex]. cbn. intros E -> N.
  assert (L : (i < length gs)%nat) by (by eapply lookup_lt_Some).
  destruct (RemoveAll_contents c) as [R1 R2].
  eexists [ETick i; ERun i 0; ERun i 0], _. split; [done|]. split.
  - cbn. rewrite E. cbn. rewrite list_lookup_insert_eq by done. cbn. rewrite list_lookup_insert_eq by (by rewrite length_insert). rewrite R1. done.
  - unfold remaining, count. cbn. rewrite !list_insert_insert_eq, R2. pose proof (sum_insert distance _ _ _ (GRun (contents c) (AfterTick l)) E).
    destruct (contents c) eqn:Ec; [done|]. cbn in *. lia.
Qed.

Definition at_rest (s : PeriodicalExecutor) : Prop :=
  (forall i g, pe_gs s !! i = Some g -> g = GEnd \/ exists l, g = BLoop false l)
  /\ pe_commander s = None /\ contents (pe_container s) = [].

Lemma count_zero f s : (forall i g, pe_gs s !! i = Some g -> f g = 0%nat) -> count f s = 0%nat.
Proof.
  intros H. destruct (decide (0 < count f s)%nat) as [P|]; [|lia]. destruct (sum_positive _ _ P) as (i & g & E & L). specialize (H _ _ E). lia.
Qed.

(** Somebody can move, or everything is at rest. *)
Lemma progress s : pe_inv s -> some_step s \/ at_rest s.
Proof.
  intros I. destruct (decide (0 < count (fun g => b2n (can_move s g)) s)%nat) as [P|N].
  { left. destruct (sum_positive _ _ P) as (i & g & E & L). apply (move s i g); auto. destruct (can_move s g); [done|]. cbn in L. lia. }
  assert (S : forall i g, pe_gs s !! i = Some g -> can_move s g = false).
  { intros i g E. pose proof (sum_lookup (fun g => b2n (can_move s g)) _ _ _ E). unfold count in N. cbn in H. destruct (can_move s g); [cbn in H; lia|done]. }
  destruct I as [If Il Ic Iw It Ii Ib Io].
  assert (W : count executing s = 0%nat). { apply count_zero. intros i g E. specialize (S _ _ E). by destruct g. }
  assert (B : pe_barrier s = false).
  { assert (H : count holding s = 0%nat). { apply count_zero. intros i g E. specialize (S _ _ E). destruct g; try done. cbn in S. by rewrite Iw, W in S. }
    destruct (pe_barrier s); cbn in *; [lia|done]. }
  assert (O : count owing s = 0%nat). { apply count_zero. intros i g E. specialize (S _ _ E). destruct g; try done; cbn in S; by rewrite B in S. }
  assert (Cm : pe_commander s = None).
  { destruct (pe_commander s) as [vals|] eqn:Ec; [|done]. exfalso.
    assert (H : count serving s = 0%nat).
    { apply count_zero. intros i g E. specialize (S _ _ E). destruct g as [| | |[]| | | |[]|[]|? []| | |]; try done; cbn in S; rewrite ?B, ?Ec in S; done. }
    destruct (pe_guarded s); cbn in *; [lia|]. specialize (Ii eq_refl). lia. }
  assert (R : forall i g, pe_gs s !! i = Some g -> g = GEnd \/ exists l, g = BLoop false l).
  { intros i g E. pose proof (S _ _ E) as M. destruct g as [| | |[]| | | | | | | | |]; cbn in M; rewrite ?B, ?Cm in M; eauto; try done.
    - pose proof (sum_lookup confirming _ _ _ E). unfold count in *. rewrite Cm in Ic. cbn in *. lia.
    - exfalso. unfold count in *. pose proof (sum_lookup holding _ _ _ E). rewrite B in Ib. cbn in *. lia. }
  destruct (contents (pe_container s)) as [|v vs] eqn:Ev; [right; done|]. left.
  assert (F : count flushing s = 0%nat). { apply count_zero. intros i g E. destruct (R _ _ E) as [->|[l ->]]; done. }
  destruct (sum_positive serving (pe_gs s)) as (i & g & E & L). { unfold count in *. cbn in *. lia. }
  destruct (R _ _ E) as [->|[l ->]]; [cbn in L; lia|]. apply (tick_takes s i l E B). by rewrite Ev.
Qed.

Lemma pe_drain s : pe_inv s -> exists evs s', forallb internal evs = true /\ run evs s = Some s' /\ at_rest s'.
Proof.
  remember (remaining s) as n eqn:En. revert s En. induction (lt_wf n) as [n _ IH]. intros s -> I.
  destruct (progress s I) as [(evs1 & s1 & J1 & R1 & L)|R]; [|by exists [], s].
  destruct (IH _ L s1 eq_refl (run_pe_inv _ _ _ I R1)) as (evs2 & s2 & J2 & R2 & Q). exists (evs1 ++ evs2), s2.
  split; [by rewrite forallb_app, J1, J2|]. split; [|done]. by rewrite run_app, R1.
Qed.

Lemma internal_adds evs : forallb internal evs = true -> (evs ≫= added) = [].
Proof. induction evs as [|ev evs IH]; cbn; [done|]. rewrite andb_true_iff. intros [H1 H2]. rewrite (IH H2). by destruct ev. Qed.

Lemma rest_places s : at_rest s -> places s = pe_executed s.
Proof.
  intros (R & Cm & E). unfold places, in_channel. rewrite Cm, E. cbn.
  assert (H : (pe_gs s ≫= held) = []); [|by rewrite H].
  revert R. induction (pe_gs s) as [|g gs IH]; intros R; cbn; [done|]. destruct (R 0%nat g eq_refl) as [->|[l ->]]; cbn; apply IH; intros i g'; apply (R (S i)).
Qed.

(** ** What [Wait] covers *)

(** The tasks executed and those in the hands of who is executing: these only grow. *)
Definition executing_tasks (f : V -> nat) (g : gor) : nat := match executing g with O => 0%nat | S _ => sum_list_with f (held g) end.
Definition covered (f : V -> nat) (s : PeriodicalExecutor) : nat := (count (executing_tasks f) s + sum_list_with f (pe_executed s))%nat.

Ltac covers E f := unfold covered, count; cbn; rewrite ?sum_list_with_app;
  match type of E with ?gs !! ?i = Some ?a => match goal with |- context [<[i := ?b]> gs] => pose proof (sum_insert (executing_tasks f) _ _ _ b E) end end; cbn in *; lia.

Lemma step_covered f ev s s' : step ev s = Some s' -> (covered f s <= covered f s')%nat.
Proof.
  destruct s as [c cm inf gd wg br gs ex]. destruct ev as [t| | |i now|i|i|i j]; cbn; intros H.
  - injection H as <-. unfold addAndCheck. cbn. destruct (AddTask t c) as [full c1]. destruct full; [destruct (RemoveAll c1)|]; destruct gd;
      unfold covered, count; cbn; rewrite sum_list_with_app; cbn; lia.
  - injection H as <-. unfold covered, count. cbn. rewrite sum_list_with_app. lia.
  - injection H as <-. unfold covered, count. cbn. rewrite sum_list_with_app. lia.
  - destruct (gs !! i) as [[vals|vals| |cmd l|vals|vals|l|k|k|vals k| | |]|] eqn:E; try done.
    + injection H as <-. destruct vals; covers E f.
    + destruct cm; [done|]. injection H as <-. covers E f.
    + destruct br; [done|]. injection H as <-. covers E f.
    + unfold shallQuit in H. cbn in H. destruct (_ <=? _); [|destruct (inf =? 0)]; injection H as <-; covers E f.
    + destruct br; [done|]. injection H as <-. covers E f.
    + destruct (RemoveAll c). injection H as <-. covers E f.
    + injection H as <-. unfold continue_. destruct k; try destruct (hasTasks vals); covers E f.
    + destruct br; [done|]. injection H as <-. covers E f.
    + destruct (wg =? 0); [|done]. injection H as <-. covers E f.
  - destruct (gs !! i) as [[]|] eqn:E; try done. destruct cm; [|done]. injection H as <-. covers E f.
  - destruct (gs !! i) as [[| | |[] l| | | | | | | | |]|] eqn:E; try done; injection H as <-; covers E f.
  - destruct (gs !! i) as [[]|] eqn:E; try done. destruct (gs !! j) as [[]|] eqn:F; try done. injection H as <-.
    assert (F' : <[i:=GRun vals AfterCommand]> gs !! j = Some GConfirm) by (rewrite list_lookup_insert_ne; [done|congruence]).
    pose proof (sum_insert (executing_tasks f) _ _ _ GEnd F'). covers E f.
Qed.

Lemma run_covered f evs s s' : run evs s = Some s' -> (covered f s <= covered f s')%nat.
Proof.
  revert s. induction evs as [|ev evs IH]; intros s H; cbn in H; [by simplify_eq|]. apply bind_Some in H as (s1 & H1 & H2).
  pose proof (step_covered f _ _ _ H1). specialize (IH _ H2). lia.
Qed.

Lemma step_executed f ev s s' : step ev s = Some s' -> (sum_list_with f (pe_executed s) <= sum_list_with f (pe_executed s'))%nat.
Proof.
  destruct ev as [t| | |i now|i|i|i j]; cbn; unfold addAndCheck, shallQuit, enterExecution; intros H; repeat first [progress simplify_eq/= | case_match]; try done;
    cbn; rewrite ?sum_list_with_app; lia.
Qed.

Lemma run_executed f evs s s' : run evs s = Some s' -> (sum_list_with f (pe_executed s) <= sum_list_with f (pe_executed s'))%nat.
Proof.
  revert s. induction evs as [|ev evs IH]; intros s H; cbn in H; [by simplify_eq|]. apply bind_Some in H as (s1 & H1 & H2).
  pose proof (step_executed f _ _ _ H1). specialize (IH _ H2). lia.
Qed.

(** [Wait] past its flush. *)
Definition waiting (g : gor) : bool := match g with GRun _ AfterWait | GWait | GHold => true | _ => false end.

Lemma waiting_step f ev i s s' g : pe_inv s -> step ev s = Some s' -> pe_gs s !! i = Some g -> waiting g = true ->
  (exists g', pe_gs s' !! i = Some g' /\ waiting g' = true)
  \/ (pe_gs s' !! i = Some GEnd /\ (covered f s <= sum_list_with f (pe_executed s'))%nat).
Proof.
  destruct s as [c cm inf gd wg br gs ex]. intros [] H E W. unfold count in *. cbn in *.
  assert (L : (i < length gs)%nat) by (by eapply lookup_lt_Some).
  assert (K : forall j b, j <> i -> <[j := b]> gs !! i = Some g) by (intros; by rewrite list_lookup_insert_ne).
  assert (A : forall b, (gs ++ [b]) !! i = Some g) by (intros; by apply lookup_app_l_Some).
  destruct ev as [t| | |j now|j|j|j j']; cbn in H.
  - left. exists g. split; [|done]. injection H as <-. unfold addAndCheck. cbn. destruct (AddTask t c) as [full c1]. destruct full; [destruct (RemoveAll c1)|]; apply A.
  - left. exists g. injection H as <-. cbn. auto.
  - left. exists g. injection H as <-. cbn. auto.
  - destruct (decide (j = i)) as [->|Nj].
    + rewrite E in H. destruct g as [| | | | | | | | |vals []| | |]; try done.
      * injection H as <-. left. eexists. cbn. by rewrite list_lookup_insert_eq.
      * destruct br; [done|]. injection H as <-. left. eexists. cbn. by rewrite list_lookup_insert_eq.
      * destruct (wg =? 0) eqn:Z0; [|done]. injection H as <-. right. cbn. rewrite list_lookup_insert_eq by done. split; [done|].
        assert (count (executing_tasks f) (mkPE c cm inf gd wg br gs ex) = 0%nat); [|unfold covered; cbn in *; lia].
        apply count_zero. intros j g Ej. pose proof (sum_lookup executing _ _ _ Ej). unfold executing_tasks. apply Z.eqb_eq in Z0. destruct (executing g); [done|]. cbn in *. lia.
    + left. exists g. split; [|done]. destruct (gs !! j) as [[vals|vals| |cmd l|vals|vals|l|k|k|vals k| | |]|] eqn:Ej; try done.
      * injection H as <-. cbn. apply lookup_app_l_Some. auto.
      * destruct cm; [done|]. injection H as <-. cbn. auto.
      * destruct br; [done|]. injection H as <-. cbn. auto.
      * unfold shallQuit in H. cbn in H. destruct (_ <=? _); [|destruct (inf =? 0)]; injection H as <-; cbn; auto.
      * destruct br; [done|]. injection H as <-. cbn. auto.
      * destruct (RemoveAll c). injection H as <-. cbn. auto.
      * injection H as <-. cbn. auto.
      * destruct br; [done|]. injection H as <-. cbn. auto.
      * destruct (wg =? 0); [|done]. injection H as <-. cbn. auto.
  - left. exists g. split; [|done]. destruct (gs !! j) as [[]|] eqn:Ej; try done. destruct cm; [|done]. injection H as <-. cbn. apply K. intros ->. rewrite E in Ej. by simplify_eq.
  - left. exists g. split; [|done]. destruct (gs !! j) as [[| | |[] l| | | | | | | | |]|] eqn:Ej; try done; injection H as <-; cbn; apply K; intros ->; rewrite E in Ej; by simplify_eq.
  - left. exists g. split; [|done]. destruct (gs !! j) as [[]|] eqn:Ej; try done. destruct (gs !! j') as [[]|] eqn:Ej'; try done. injection H as <-. cbn.
    rewrite list_lookup_insert_ne by (intros ->; rewrite E in Ej'; by simplify_eq). apply K. intros ->. rewrite E in Ej. by simplify_eq.
Qed.

(** When a [Wait] past its flush has returned, all that was covered is executed. *)
Lemma waiting_run f evs i s s' g : pe_inv s -> run evs s = Some s' -> pe_gs s !! i = Some g -> waiting g = true -> pe_gs s' !! i = Some GEnd ->
  (covered f s <= sum_list_with f (pe_executed s'))%nat.
Proof.
  revert s g. induction evs as [|ev evs IH]; intros s g I H E W D; cbn in H; [simplify_eq; by rewrite D in E; simplify_eq|].
  apply bind_Some in H as (s1 & H1 & H2). pose proof (step_pe_inv _ _ _ I H1) as I1. pose proof (step_covered f _ _ _ H1).
  destruct (waiting_step f _ _ _ _ _ I H1 E W) as [(g' & E' & W')|[E' L]].
  - specialize (IH _ _ I1 H2 E' W' D). lia.
  - pose proof (run_executed f _ _ _ H2). lia.
Qed.
End periodical.
Arguments after : clear implicits.

(** C13: every task added is, at every moment of every interleaving, in exactly one place - the
    container, the channel, the hands of a goroutine, or executed - so none is lost or executed
    twice; and at most one goroutine runs the background loop, one exactly when the executor is
    guarded. *)
Theorem executor_conserves {C T V} `{HC : TaskContainer C T V} {HL : ContainerLaws C T V} `{DV : !EqDecision V} interval (c : C) evs s :
  contents c = [] -> run interval evs (NewPeriodicalExecutor c) = Some s ->
  places s ≡ₚ (evs ≫= added) /\ count serving s = b2n (pe_guarded s) /\ pe_wg s = Z.of_nat (count executing s).
Proof.
  intros E H. split; [by rewrite (pe_run_places _ _ _ _ H), (places_new _ E)|]. destruct (run_pe_inv _ _ _ _ (pe_inv_new c E) H). auto.
Qed.

(** From every state that calls of Add, Flush and Wait can reach the goroutines can go on,
    without a further call, until all of them have returned (but for a loop that waits), and then
    every task added has been executed exactly once: no deadlock on the channels, the barrier or
    the wait group, no task left behind. *)
Theorem executor_drains {C T V} `{HC : TaskContainer C T V} {HL : ContainerLaws C T V} `{DV : !EqDecision V} interval (c : C) evs s :
  contents c = [] -> run interval evs (NewPeriodicalExecutor c) = Some s ->
  exists evs' s', forallb internal evs' = true /\ run interval evs' s = Some s' /\ at_rest s' /\ pe_executed s' ≡ₚ (evs ≫= added).
Proof.
  intros E H. destruct (pe_drain interval s (run_pe_inv _ _ _ _ (pe_inv_new c E) H)) as (evs' & s' & J & R & Q). exists evs', s'.
  split; [done|]. split; [done|]. split; [done|]. rewrite <- (rest_places _ Q), (pe_run_places _ _ _ _ R), (internal_adds _ J), app_nil_r.
  by rewrite (pe_run_places _ _ _ _ H), (places_new _ E).
Qed.

(** When [Wait] has returned, every task is executed that was in the container when it
    flushed, or that some goroutine was executing then. *)
Theorem wait_covers {C T V} `{HC : TaskContainer C T V} {HL : ContainerLaws C T V} `{DV : !EqDecision V} interval (c : C) evs s evs' s' i now (v : V) :
  contents c = [] -> run interval evs (NewPeriodicalExecutor c) = Some s -> pe_gs s !! i = Some (GTake AfterWait) ->
  run interval (ERun i now :: evs') s = Some s' -> pe_gs s' !! i = Some GEnd ->
  (v ∈ contents (pe_container s) \/ exists j g, pe_gs s !! j = Some g /\ executing g = 1%nat /\ v ∈ held g) -> v ∈ pe_executed s'.
Proof.
  intros E H G R D M. pose proof (run_pe_inv _ _ _ _ (pe_inv_new c E) H) as I.
  set (f := fun w => if decide (w = v) then 1%nat else 0%nat).
  assert (P : forall l, (0 < sum_list_with f l)%nat <-> v ∈ l).
  { subst f. induction l as [|w l IH]; cbn; [split; [lia|by intros ?%elem_of_nil]|]. rewrite elem_of_cons, <- IH. destruct (decide (w = v)); [subst; split; [auto|lia]|].
    split; [auto|]. intros [?|?]; [congruence|lia]. }
  apply P. change (_ :: _) with ([ERun i now] ++ evs') in R. rewrite run_app in R. apply bind_Some in R as (s1 & R1 & R2).
  assert (W : (0 < covered f s1)%nat /\ exists g, pe_gs s1 !! i = Some g /\ waiting g = true).
  { cbn in R1. rewrite G in R1. destruct (RemoveAll_contents (pe_container s)) as [RA _]. rewrite RA in R1. cbn in R1. injection R1 as <-.
    assert (L : (i < length (pe_gs s))%nat) by (by eapply lookup_lt_Some). split; [|eexists; cbn; by rewrite list_lookup_insert_eq].
    pose proof (sum_insert (executing_tasks f) _ _ _ (GRun (contents (pe_container s)) AfterWait) G) as Su. unfold covered, count. cbn in *.
    destruct M as [M%P|(j & g & Ej & Xg & M%P)]; [lia|]. pose proof (sum_lookup (executing_tasks f) _ _ _ Ej) as Lj. unfold executing_tasks in Lj at 1. rewrite Xg in Lj. lia. }
  destruct W as (W1 & g & Eg & Wg). pose proof (run_pe_inv _ [ERun i now] _ _ I R1) as I1. pose proof (waiting_run _ f _ _ _ _ _ I1 R2 Eg Wg D). lia.
Qed.

(** ** Witnesses, on a bulk executor of two tasks *)

Definition demo : PeriodicalExecutor (C := bulkContainer nat) (V := nat) := NewPeriodicalExecutor (mkBulk [] 2).
(** One task added and its loop started; a second caller fills the container and holds the batch;
    a third calls [Wait] up to its flush. *)
Definition demo_calls : list (event (T := nat)) := [EAdd 1%nat; ERun 0 0; EAdd 2%nat; EWait; ERun 3 0].

Definition demo_state : option (PeriodicalExecutor (C := bulkContainer nat) (V := nat)) := Eval vm_compute in run 1 demo_calls demo.

Lemma executor_conserves_witness : exists s, run 1 demo_calls demo = Some s
  /\ places s ≡ₚ (demo_calls ≫= added) /\ count serving s = b2n (pe_guarded s) /\ pe_wg s = Z.of_nat (count executing s).
Proof.
  assert (E : run 1 demo_calls demo = demo_state) by reflexivity. destruct demo_state as [s|] eqn:D; [|discriminate D]. exists s. split; [exact E|].
  exact (executor_conserves 1 (mkBulk [] 2) demo_calls s eq_refl E).
Defined.

Lemma executor_drains_witness : exists s, run 1 demo_calls demo = Some s
  /\ exists evs' s', forallb internal evs' = true /\ run 1 evs' s = Some s' /\ at_rest s' /\ pe_executed s' ≡ₚ (demo_calls ≫= added).
Proof.
  assert (E : run 1 demo_calls demo = demo_state) by reflexivity. destruct demo_state as [s|] eqn:D; [|discriminate D]. exists s. split; [exact E|].
  exact (executor_drains 1 (mkBulk [] 2) demo_calls s eq_refl E).
Defined.

(** A task in the container when [Wait] flushes is executed when it returns. *)
Definition demo_wait : list (event (T := nat)) := [EAdd 1%nat; EWait; ERun 1 0].
Definition demo_return : list (event (T := nat)) := [ERun 1 0; ERun 1 0; ERun 1 0].

Lemma wait_covers_witness : match run 1 demo_wait demo with
  | Some s => match run 1 (ERun 1 0 :: demo_return) s with Some s' => 1%nat ∈ pe_executed s' | None => False end
  | None => False
  end.
Proof.
  destruct (run 1 demo_wait demo) as [s|] eqn:E; [|discriminate E].
  assert (G : pe_gs s !! 1%nat = Some (GTake AfterWait) /\ contents (pe_container s) = [1%nat]). { vm_compute in E. injection E as <-. split; reflexivity. }
  destruct (run 1 (ERun 1 0 :: demo_return) s) as [s'|] eqn:F; [|vm_compute in E; injection E as <-; discriminate F].
  assert (D : pe_gs s' !! 1%nat = Some GEnd). { vm_compute in E. injection E as <-. vm_compute in F. injection F as <-. reflexivity. }
  apply (wait_covers (HC := bulk_container nat) (HL := bulk_laws nat) 1 (mkBulk [] 2) demo_wait s demo_return s' 1%nat 0 1%nat eq_refl E (proj1 G) F D).
  left. rewrite (proj2 G). left.
Defined.

(** A task whose [Add] returned before [Wait] was called is not executed when [Wait] returns,
    when another caller's [Add] holds it in a batch that it has not yet handed over. *)
Lemma wait_misses : match run 1 demo_calls demo with
  | Some s => pe_gs s !! 0%nat = Some GEnd
      /\ match run 1 [ERun 3 0; ERun 3 0; ERun 3 0; ERun 3 0] s with
         | Some s' => pe_gs s' !! 3%nat = Some GEnd /\ pe_executed s' = []
         | None => False
         end
  | None => False
  end.
Proof. vm_compute. auto. Qed.

(** ** LessExecutor: at most one execution within the threshold *)

Record LessExecutor : Type := mkLess { le_threshold : Z; le_lastTime : Z }.
Definition NewLessExecutor (threshold : Z) : LessExecutor := mkLess threshold 0.
Definition DoOrDiscard (now : Z) (le : LessExecutor) : bool * LessExecutor :=
  let lastTime := le_lastTime le in
  if (lastTime =? 0) || (wrap64 (lastTime + le_threshold le) <? now) then (true, mkLess (le_threshold le) now) else (false, le).

(** The times of the calls that are executed. *)
Fixpoint executions (nows : list Z) (le : LessExecutor) : list Z :=
  match nows with
  | [] => []
  | now :: nows => let '(ok, le) := DoOrDiscard now le in (if ok then [now] else []) ++ executions nows le
  end.

(** ** DelayExecutor: a goroutine that waits clears the flag before it calls the function *)

Record DelayExecutor : Type := mkDelay { de_triggered : bool; de_waiting : nat; de_ready : nat; de_runs : nat }.
Definition NewDelayExecutor : DelayExecutor := mkDelay false 0 0 0.
Inductive delay_event := DTrigger | DTimer | DCall.
Definition delay_step (ev : delay_event) (de : DelayExecutor) : option DelayExecutor :=
  match ev with
  | DTrigger => Some (if de_triggered de then de else mkDelay true (S (de_waiting de)) (de_ready de) (de_runs de))
  | DTimer => match de_waiting de with S n => Some (mkDelay false n (S (de_ready de)) (de_runs de)) | O => None end
  | DCall => match de_ready de with S n => Some (mkDelay (de_triggered de) (de_waiting de) n (S (de_runs de))) | O => None end
  end.
Fixpoint delay_run (evs : list delay_event) (de : DelayExecutor) : option DelayExecutor :=
  match evs with [] => Some de | ev :: evs => de ← delay_step ev de; delay_run evs de end.

Fixpoint spaced (gap last : Z) (l : list Z) : Prop := match l with [] => True | x :: l => last + gap < x /\ spaced gap x l end.

Lemma executions_spaced nows th last : 0 <= th -> 0 < last -> Forall (fun n => 0 < n /\ n + th < 2^63) nows -> last + th < 2^63 ->
  spaced th last (executions nows (mkLess th last)).
Proof.
  revert last. induction nows as [|now nows IH]; intros last Ht Hl F B; cbn; [done|]. apply Forall_cons in F as [[F1 F2] F].
  unfold DoOrDiscard. cbn. replace (last =? 0) with false by (symmetry; apply Z.eqb_neq; lia). rewrite wrap64_small by lia. cbn.
  destruct (_ <? _) eqn:L; cbn; [|by apply IH]. apply Z.ltb_lt in L. split; [done|]. by apply IH.
Qed.

(** Sequential calls at positive times are executed more than the threshold apart, and the
    first one always is. *)
Theorem less_executor_spaces th now nows : 0 <= th -> Forall (fun n => 0 < n /\ n + th < 2^63) (now :: nows) ->
  exists l, executions (now :: nows) (NewLessExecutor th) = now :: l /\ spaced th now l.
Proof.
  intros Ht F. eexists. split; [reflexivity|]. apply Forall_cons in F as [[F1 F2] F]. by apply executions_spaced.
Qed.
Lemma less_executor_spaces_witness : exists l, executions [5; 7; 16; 30] (NewLessExecutor 10) = 5 :: l /\ spaced 10 5 l.
Proof. apply (less_executor_spaces 10 5 [7; 16; 30]); [lia|]. repeat constructor; lia. Defined.

Lemma delay_invariant evs de de' : delay_run evs de = Some de' -> de_waiting de = b2n (de_triggered de) -> de_waiting de' = b2n (de_triggered de').
Proof.
  revert de. induction evs as [|ev evs IH]; intros de H I; cbn in H; [by simplify_eq|]. apply bind_Some in H as (d1 & H1 & H2). apply (IH _ H2).
  destruct de as [t w r n], ev; cbn in *; [destruct t; by simplify_eq/=|destruct w; [done|]; simplify_eq/=; destruct t; cbn in *; [lia|done]|destruct r; by simplify_eq/=].
Qed.

(** After a trigger, whatever was triggered before, the timer and the call are due, so the
    function runs once more at least; and never two goroutines wait for the timer. *)
Theorem delay_no_trigger_missed evs de de1 : delay_run evs NewDelayExecutor = Some de -> delay_step DTrigger de = Some de1 ->
  de_waiting de1 = 1%nat /\ exists de2, delay_run [DTimer; DCall] de1 = Some de2 /\ de_runs de2 = S (de_runs de).
Proof.
  intros H T. pose proof (delay_invariant _ _ _ H eq_refl) as I. destruct de as [[] w r n]; cbn in *; subst; simplify_eq/=; (split; [done|]); eexists; by split.
Qed.
Lemma delay_no_trigger_missed_witness : de_waiting (mkDelay true 1 1 0) = 1%nat
  /\ exists de2, delay_run [DTimer; DCall] (mkDelay true 1 1 0) = Some de2 /\ de_runs de2 = 1%nat.
Proof. apply (delay_no_trigger_missed [DTrigger; DTimer] (mkDelay false 0 1 0)); reflexivity. Defined.
