(* ===== verification/Streams.v ===== *)
(** * Streams (infra/fx/stream.go, retry.go, infra/errorx/batcherror.go)

    A stream is what its channel delivers before it is closed: a list.  The operations with one
    goroutine behind them are functions on lists; their loops are those of the code.  [Walk],
    and with it [Map], [Filter] and [Concat], runs workers at the same time: an interleaving
    machine.  The consumer reads everything, so a full channel only delays a send.  A function
    given to [Walk] is the list of what it writes for an item, up to its panic if it panics. *)

From S2P Require Import Prelude Ring.
#[local] Open Scope Z_scope.

Section streams.
Context {A : Type} (nil_v : A) `{!EqDecision A}.
Notation stream := (list A).

Definition Just (items : list A) : stream := items.

(** ** Reading a stream *)

Fixpoint AllMatch (predicate : A -> bool) (s : stream) : bool :=
  match s with [] => true | item :: s => if negb (predicate item) then false else AllMatch predicate s end.
Fixpoint AnyMatch (predicate : A -> bool) (s : stream) : bool :=
  match s with [] => false | item :: s => if predicate item then true else AnyMatch predicate s end.
Fixpoint NoneMatch (predicate : A -> bool) (s : stream) : bool :=
  match s with [] => true | item :: s => if predicate item then false else NoneMatch predicate s end.

Fixpoint count_loop (count : Z) (s : stream) : Z := match s with [] => count | _ :: s => count_loop (count + 1) s end.
Definition Count (s : stream) : Z := count_loop 0 s.

Definition First (s : stream) : A := match s with item :: _ => item | [] => nil_v end.
Definition Last (s : stream) : A := foldl (fun _ item => item) nil_v s.

Definition Max (less : A -> A -> bool) (s : stream) : A := foldl (fun max item => if decide (max = nil_v) then item else if less max item then item else max) nil_v s.
Definition Min (less : A -> A -> bool) (s : stream) : A := foldl (fun min item => if decide (min = nil_v) then item else if less item min then item else min) nil_v s.

(** ** Streams from streams *)

Definition Buffer (n : Z) (s : stream) : stream := s.

Fixpoint distinct_loop {K} `{!EqDecision K} (fn : A -> K) (keys : list K) (s : stream) : stream :=
  match s with
  | [] => []
  | item :: s => if decide (fn item ∈ keys) then distinct_loop fn keys s else item :: distinct_loop fn (fn item :: keys) s
  end.
Definition Distinct {K} `{!EqDecision K} (fn : A -> K) (s : stream) : stream := distinct_loop fn [] s.

(** [groups[key] = append(groups[key], item)] *)
Fixpoint add_group {K} `{!EqDecision K} (key : K) (item : A) (groups : list (K * list A)) : list (K * list A) :=
  match groups with
  | [] => [(key, [item])]
  | (k, l) :: groups => if decide (k = key) then (k, l ++ [item]) :: groups else (k, l) :: add_group key item groups
  end.
(** The groups; a [range] over the map delivers them in any order. *)
Definition Group {K} `{!EqDecision K} (fn : A -> K) (s : stream) : list (K * list A) := foldl (fun groups item => add_group (fn item) item groups) [] s.

(** The counter goes on below 0 only while the rest is drained. *)
Fixpoint head_loop (n : Z) (s : stream) : stream :=
  match s with [] => [] | item :: s => if 0 <=? n - 1 then if n - 1 =? 0 then [item] else item :: head_loop (n - 1) s else head_loop (n - 1) s end.
(** [None] is a panic. *)
Definition Head (n : Z) (s : stream) : option stream := if n <? 1 then None else Some (head_loop n s).

Fixpoint skip_loop (n : Z) (s : stream) : stream :=
  match s with [] => [] | item :: s => if 0 <=? n - 1 then skip_loop (n - 1) s else item :: skip_loop (n - 1) s end.
Definition Skip (n : Z) (s : stream) : option stream := if n <? 0 then None else if n =? 0 then Some s else Some (skip_loop n s).

Definition Tail (n : Z) (s : stream) : option stream :=
  if n <? 1 then None else r ← NewRing nil_v n; Ring_Take (foldl (fun r item => Ring_Add item r) r s).

Fixpoint split_loop (n : Z) (chunk : list A) (s : stream) : list (list A) :=
  match s with
  | [] => match chunk with [] => [] | _ => [chunk] end
  | item :: s => let chunk := chunk ++ [item] in if Z.of_nat (length chunk) =? n then chunk :: split_loop n [] s else split_loop n chunk s
  end.
Definition Split (n : Z) (s : stream) : option (list (list A)) := if n <? 1 then None else Some (split_loop n [] s).

Definition Merge (s : stream) : list (list A) := [s].

(** [items[i], items[opp] = items[opp], items[i]] for [i] from the middle down to 0. *)
Definition swap (i j : nat) (l : list A) : list A :=
  match l !! i, l !! j with Some a, Some b => <[j := a]> (<[i := b]> l) | _, _ => l end.
Fixpoint reverse_loop (k : nat) (items : list A) : list A :=
  match k with O => items | S i => reverse_loop i (swap i (length items - 1 - i) items) end.
Definition Reverse (s : stream) : stream := Just (reverse_loop (length s / 2) s).

(** ** Lemmas *)

Lemma head_loop_take n s : 1 <= n -> head_loop n s = take (Z.to_nat n) s.
Proof.
  revert n. induction s as [|x s IH]; intros n Hn; cbn; [by destruct (Z.to_nat n)|]. destruct (Z.leb_spec 0 (n - 1)); [|lia].
  replace (Z.to_nat n) with (S (Z.to_nat (n - 1))) by lia. cbn. destruct (Z.eqb_spec (n - 1) 0) as [->|]; [done|]. by rewrite IH by lia.
Qed.

Lemma skip_loop_drop n s : skip_loop n s = drop (Z.to_nat n) s.
Proof.
  revert n. induction s as [|x s IH]; intros n; cbn; [by destruct (Z.to_nat n)|]. rewrite IH. destruct (Z.leb_spec 0 (n - 1)).
  - by replace (Z.to_nat n) with (S (Z.to_nat (n - 1))) by lia.
  - by replace (Z.to_nat n) with O by lia; replace (Z.to_nat (n - 1)) with O by lia.
Qed.

Lemma split_loop_spec n chunk s : 1 <= n -> Z.of_nat (length chunk) < n ->
  concat (split_loop n chunk s) = chunk ++ s /\ Forall (fun c => 1 <= Z.of_nat (length c) <= n) (split_loop n chunk s) /\
  forall c, c ∈ removelast (split_loop n chunk s) -> Z.of_nat (length c) = n.
Proof.
  intros Hn. revert chunk. induction s as [|x s IH]; intros chunk Hc; cbn [split_loop].
  - destruct chunk as [|y chunk]; [split_and!; [done|constructor|by intros c ?%elem_of_nil]|]. cbn [concat]. rewrite !app_nil_r. split_and!; [done|repeat constructor; cbn in *; lia|]. by intros c ?%elem_of_nil.
  - rewrite length_app. cbn [length]. destruct (Z.eqb_spec (Z.of_nat (length chunk + 1)) n) as [E|N].
    + destruct (IH [] ltac:(cbn; lia)) as (I1 & I2 & I3). cbn [concat]. rewrite I1, <- app_assoc. split_and!; [done|constructor; [rewrite length_app; cbn; lia|done]|].
      intros c. cbn [removelast]. destruct (split_loop n [] s) eqn:Es; [by intros ?%elem_of_nil|]. intros [->|Hc']%elem_of_cons; [rewrite length_app; cbn; lia|by apply I3].
    + destruct (IH (chunk ++ [x])) as (I1 & I2 & I3); [rewrite length_app; cbn; lia|]. rewrite I1, <- app_assoc. done.
Qed.

Lemma distinct_loop_spec {K} `{!EqDecision K} (fn : A -> K) keys s :
  NoDup (fn <$> distinct_loop fn keys s) /\ (forall x, x ∈ distinct_loop fn keys s -> fn x ∉ keys) /\
  distinct_loop fn keys s `sublist_of` s /\ forall x, x ∈ s -> fn x ∈ keys \/ fn x ∈ fn <$> distinct_loop fn keys s.
Proof.
  revert keys. induction s as [|x s IH]; intros keys; cbn [distinct_loop].
  - split_and!; [constructor|by intros x ?%elem_of_nil|constructor|by intros x ?%elem_of_nil].
  - destruct (decide _) as [I|I].
    + destruct (IH keys) as (I1 & I2 & I3 & I4). split_and!; [done|done|by constructor|]. intros y [->|Hy]%elem_of_cons; [by left|by apply I4].
    + destruct (IH (fn x :: keys)) as (I1 & I2 & I3 & I4). split_and!.
      * constructor; [|done]. intros (y & E & Hy)%list_elem_of_fmap. apply (I2 y Hy). rewrite <- E. left.
      * intros y [->|Hy]%elem_of_cons; [done|]. intros Hk. apply (I2 y Hy). by right.
      * by constructor.
      * intros y [->|Hy]%elem_of_cons; [right; left|]. destruct (I4 y Hy) as [[E|H]%elem_of_cons|H]; [rewrite E; right; left|by left|right; by right].
Qed.

Lemma Reverse_rev s : Reverse s = rev s.
Proof.
  unfold Reverse, Just.
  assert (H : forall k l, (2 * k <= length l)%nat -> forall i, (i < length l)%nat ->
    reverse_loop k l !! i = l !! (if decide (i < k \/ length l - 1 - i < k)%nat then length l - 1 - i else i)%nat).
  { induction k as [|k IH]; intros l Hk i Hi; cbn [reverse_loop].
    - rewrite decide_False by lia. done.
    - destruct (lookup_lt_is_Some_2 l k ltac:(lia)) as [a Ha]. destruct (lookup_lt_is_Some_2 l (length l - 1 - k) ltac:(lia)) as [b Hb].
      assert (HL : length (swap k (length l - 1 - k) l) = length l) by (unfold swap; rewrite Ha, Hb, !length_insert; done).
      rewrite IH by lia. rewrite HL. unfold swap. rewrite Ha, Hb.
      destruct (decide (i = k)) as [->|N1]; [|destruct (decide (i = length l - 1 - k)%nat) as [->|N2]].
      + rewrite decide_False by lia. rewrite decide_True by lia. rewrite list_lookup_insert_ne by lia. rewrite list_lookup_insert_eq by lia. done.
      + rewrite decide_False by lia. rewrite decide_True by lia. rewrite list_lookup_insert_eq by (rewrite length_insert; lia). by replace (length l - 1 - (length l - 1 - k))%nat with k by lia.
      + destruct (decide (i < k \/ length l - 1 - i < k)%nat) as [D|D].
        * rewrite decide_True by lia. rewrite !list_lookup_insert_ne by lia. done.
        * rewrite decide_False by lia. rewrite !list_lookup_insert_ne by lia. done. }
  assert (HL : forall k l, length (reverse_loop k l) = length l).
  { induction k as [|k IH]; intros l; [done|]. cbn. rewrite IH. unfold swap. destruct (l !! k); [|done]. destruct (l !! _); [|done]. by rewrite !length_insert. }
  assert (Hr : rev s = reverse s) by (unfold reverse; by rewrite rev_alt). rewrite Hr.
  apply list_eq_same_length with (length s); [by rewrite length_reverse|by rewrite HL|]. intros i x y Hi.
  pose proof (Nat.div_mod_eq (length s) 2) as HD. pose proof (Nat.mod_upper_bound (length s) 2 ltac:(lia)) as HM.
  rewrite H by lia. rewrite reverse_lookup by lia. destruct (decide _) as [D|D]; [|replace i with (length s - 1 - i)%nat at 1 by lia]; intros E1 E2; replace (length s - S i)%nat with (length s - 1 - i)%nat in E2 by lia; congruence.
Qed.

Section groups.
Context {K : Type} `{!EqDecision K} (fn : A -> K).

Lemma add_group_keys (key : K) item groups k : k ∈ (add_group key item groups).*1 <-> k = key \/ k ∈ groups.*1.
Proof.
  induction groups as [|[k' l'] groups IH]; cbn; [rewrite elem_of_cons; tauto|]. destruct (decide (k' = key)) as [->|N]; cbn; rewrite !elem_of_cons, ?IH; tauto.
Qed.

Lemma add_group_nodup (key : K) item groups : NoDup groups.*1 -> NoDup (add_group key item groups).*1.
Proof.
  induction groups as [|[k' l'] groups IH]; cbn; [intros _; apply NoDup_singleton|]. intros [N D]%NoDup_cons.
  destruct (decide (k' = key)) as [->|Ne]; cbn; apply NoDup_cons; (split; [|auto]); [done|]. by intros [-> |?]%add_group_keys.
Qed.

Lemma add_group_elem (key : K) item groups k l : NoDup groups.*1 -> (k, l) ∈ add_group key item groups ->
  if decide (k = key) then exists l', l = l' ++ [item] /\ ((k, l') ∈ groups \/ k ∉ groups.*1 /\ l' = []) else (k, l) ∈ groups.
Proof.
  induction groups as [|[k' l'] groups IH]; cbn; intros D.
  - intros [= -> ->]%list_elem_of_singleton. rewrite decide_True by done. exists []. split; [done|]. right. split; [apply not_elem_of_nil|done].
  - apply NoDup_cons in D as [N D]. destruct (decide (k' = key)) as [->|Ne]; cbn; intros [E|H]%elem_of_cons.
    + injection E as -> ->. rewrite decide_True by done. exists l'. split; [done|]. left. left.
    + rewrite decide_False; [by right|]. intros ->. apply N. apply list_elem_of_fmap. by exists (key, l).
    + injection E as -> ->. rewrite decide_False by done. left.
    + specialize (IH D H). destruct (decide (k = key)) as [->|]; [|by right]. destruct IH as (l'' & -> & I). exists l''. split; [done|].
      destruct I as [I|[I ->]]; [left; by right|right]. split; [|done]. by intros [?|?]%elem_of_cons.
Qed.

(** Each group has the items of its key in their order. *)
Lemma Group_spec s : NoDup (Group fn s).*1 /\ (forall k, k ∈ (Group fn s).*1 <-> k ∈ fn <$> s) /\ forall k l, (k, l) ∈ Group fn s -> l = filter (fun x => fn x = k) s.
Proof.
  unfold Group. induction s as [|x s (D & HK & HL)] using rev_ind; [split_and!; [constructor|done|by intros k l ?%elem_of_nil]|].
  rewrite foldl_app. cbn [foldl]. split_and!.
  - by apply add_group_nodup.
  - intros k. rewrite add_group_keys, HK, fmap_app, elem_of_app. cbn. rewrite list_elem_of_singleton. tauto.
  - intros k l H. rewrite filter_app. apply add_group_elem in H; [|done]. destruct (decide (k = fn x)) as [->|N].
    + rewrite filter_cons_True by done. cbn. destruct H as (l' & -> & [I|[I ->]]); [by rewrite (HL _ _ I)|]. f_equal. symmetry.
      apply filter_none, Forall_forall. intros y Hy E. apply I, HK, list_elem_of_fmap. by exists y.
    + rewrite filter_cons_False by congruence. rewrite filter_nil, app_nil_r. by apply HL.
Qed.
End groups.
End streams.

(** ** Workers *)

Record rxOptions : Type := mkRx { unlimitedWorkers : bool; workers : Z }.
Definition newOptions : rxOptions := mkRx false 16.
Definition UnlimitedWorkers (o : rxOptions) : rxOptions := mkRx true (workers o).
Definition WithWorkers (n : Z) (o : rxOptions) : rxOptions := mkRx (unlimitedWorkers o) (Z.max n 1).
Definition buildOptions (opts : list (rxOptions -> rxOptions)) : rxOptions := foldl (fun o f => f o) newOptions opts.

Section walk.
Context {A B : Type} (fn : A -> list B) (opt : rxOptions).

(** The items not yet read, what each running worker has still to write, what was written to the
    pipe, and whether it is closed. *)
Record walking : Type := mkWalking { w_source : list A; w_running : list (list B); w_pipe : list B; w_closed : bool }.

Inductive walk_event := WStart | WSend (i : nat) | WEnd (i : nat) | WClose.

(** [pool <- lang.Placeholder] waits while as many workers as the limit run. *)
Definition may_start (st : walking) : bool := unlimitedWorkers opt || (Z.of_nat (length (w_running st)) <? workers opt).

Definition walk_step (ev : walk_event) (st : walking) : option walking :=
  match ev with
  | WStart =>
      match w_source st with
      | item :: source => if may_start st then Some (mkWalking source (w_running st ++ [fn item]) (w_pipe st) false) else None
      | [] => None
      end
  | WSend i => match w_running st !! i with Some (b :: bs) => Some (mkWalking (w_source st) (<[i := bs]> (w_running st)) (w_pipe st ++ [b]) false) | _ => None end
  | WEnd i => match w_running st !! i with Some [] => Some (mkWalking (w_source st) (delete i (w_running st)) (w_pipe st) false) | _ => None end
  | WClose => match w_source st, w_running st with [], [] => if w_closed st then None else Some (mkWalking [] [] (w_pipe st) true) | _, _ => None end
  end.

Fixpoint walk_run (evs : list walk_event) (st : walking) : option walking :=
  match evs with [] => Some st | ev :: evs => st ← walk_step ev st; walk_run evs st end.

Definition Walk (s : list A) : walking := mkWalking s [] [] false.

(** What the pipe will have had. *)
Definition all_of (st : walking) : list B := w_pipe st ++ concat (w_running st) ++ concat (fn <$> w_source st).
Definition width (st : walking) : Prop := unlimitedWorkers opt = true \/ Z.of_nat (length (w_running st)) <= Z.max (workers opt) 0.

Lemma concat_send (l : list (list B)) i b bs : l !! i = Some (b :: bs) -> b :: concat (<[i := bs]> l) ≡ₚ concat l.
Proof.
  revert i. induction l as [|x l IH]; intros [|i]; cbn; [done..|by intros [= ->]|]. intros H. rewrite <- (IH i H). by rewrite Permutation_middle.
Qed.
Lemma concat_end (l : list (list B)) i : l !! i = Some [] -> concat (delete i l) = concat l.
Proof. revert i. induction l as [|x l IH]; intros [|i]; cbn; [done..|by intros [= ->]|]. intros H. by rewrite IH. Qed.

Lemma walk_step_all ev st st' : walk_step ev st = Some st' -> all_of st' ≡ₚ all_of st.
Proof.
  unfold all_of. destruct st as [src run pipe cl], ev as [|i|i|]; cbn [walk_step w_source w_running w_pipe w_closed].
  - destruct src as [|x src]; [done|]. destruct (may_start _); [|done]. intros [= <-]. cbn. rewrite concat_app. cbn. by rewrite app_nil_r, <- app_assoc.
  - destruct (run !! i) as [[|b bs]|] eqn:E; try done. intros [= <-]. cbn. rewrite <- app_assoc. cbn. by rewrite (app_comm_cons _ _ b), (concat_send _ _ _ _ E).
  - destruct (run !! i) as [[|b bs]|] eqn:E; try done. intros [= <-]. cbn. by rewrite concat_end.
  - destruct src, run, cl; try done. intros [= <-]. done.
Qed.

Lemma walk_step_width ev st st' : width st -> walk_step ev st = Some st' -> width st'.
Proof.
  unfold width. destruct st as [src run pipe cl], ev as [|i|i|]; cbn [walk_step w_source w_running w_pipe w_closed]; intros W.
  - destruct src as [|x src]; [done|]. unfold may_start. cbn [w_running]. destruct (unlimitedWorkers opt); cbn [orb]; [by left|]. destruct (Z.ltb_spec (Z.of_nat (length run)) (workers opt)); [|done].
    intros [= <-]. right. cbn. rewrite length_app. cbn. lia.
  - destruct (run !! i) as [[|b bs]|]; try done. intros [= <-]. cbn. by rewrite length_insert.
  - destruct (run !! i) as [[|b bs]|] eqn:E; try done. intros [= <-]. cbn. destruct W as [W|W]; [by left|right]. rewrite length_delete by done. lia.
  - destruct src, run, cl; try done. intros [= <-]. cbn. right. lia.
Qed.

(** With one worker the items are done one after the other. *)
Lemma walk_step_ordered ev st st' : (length (w_running st) <= 1)%nat -> walk_step ev st = Some st' -> (length (w_running st') <= 1)%nat -> all_of st' = all_of st.
Proof.
  unfold all_of. destruct st as [src run pipe cl], ev as [|i|i|]; cbn [walk_step w_source w_running w_pipe w_closed]; intros L.
  - destruct src as [|x src]; [done|]. destruct (may_start _); [|done]. intros [= <-]. cbn. rewrite length_app. cbn. intros L'. destruct run; [|cbn in L'; lia]. cbn. by rewrite app_nil_r.
  - destruct (run !! i) as [[|b bs]|] eqn:E; try done. intros [= <-] _. destruct run as [|x [|y run]]; [done| |cbn in L; lia]. destruct i; [|done]. injection E as ->. cbn. by rewrite <- !app_assoc.
  - destruct (run !! i) as [[|b bs]|] eqn:E; try done. intros [= <-] _. cbn. by rewrite concat_end.
  - destruct src, run, cl; try done. intros [= <-] _. done.
Qed.

Lemma walk_invariant evs st st' : walk_run evs st = Some st' -> width st -> all_of st' ≡ₚ all_of st /\ width st' /\
  (unlimitedWorkers opt = false -> workers opt = 1 -> (length (w_running st) <= 1)%nat -> all_of st' = all_of st).
Proof.
  revert st. induction evs as [|ev evs IH]; intros st; cbn; [by intros [= <-]|]. destruct (walk_step ev st) as [st1|] eqn:E; [|done]. cbn. intros R W.
  pose proof (walk_step_width _ _ _ W E) as W1. destruct (IH st1 R W1) as (I1 & I2 & I3). split_and!; [by rewrite I1, (walk_step_all _ _ _ E)|done|].
  intros U O L. assert (L1 : (length (w_running st1) <= 1)%nat) by (destruct W1 as [W1|W1]; [congruence|lia]). rewrite I3 by done. by apply (walk_step_ordered ev).
Qed.

(** What is left to do. *)
Definition walk_work (st : walking) : nat := (length (concat (w_running st)) + length (w_running st) + length (concat (fn <$> w_source st)) + 2 * length (w_source st))%nat.

Lemma walk_progress st : (unlimitedWorkers opt = true \/ 1 <= workers opt) -> w_closed st = false -> (w_source st <> [] \/ w_running st <> []) ->
  exists ev st', walk_step ev st = Some st' /\ (walk_work st' < walk_work st)%nat /\ w_closed st' = false.
Proof.
  intros O _ N. unfold walk_work. destruct st as [src run pipe cl]. cbn [w_source w_running] in *. destruct run as [|r run].
  - destruct src as [|x src]; [naive_solver|]. eexists WStart, _. cbn [walk_step w_source w_running]. assert (M : may_start (mkWalking (x :: src) [] pipe cl) = true).
    { unfold may_start. cbn [w_running length]. apply orb_true_iff. destruct O as [O|O]; [by left|right]. apply Z.ltb_lt. lia. }
    rewrite M. split; [done|]. cbn. rewrite !length_app. cbn. split; [lia|done].
  - destruct r as [|b r].
    + exists (WEnd 0). eexists. split; [done|]. cbn. split; [lia|done].
    + exists (WSend 0). eexists. split; [done|]. cbn. split; [lia|done].
Qed.

Lemma walk_finishes st : (unlimitedWorkers opt = true \/ 1 <= workers opt) -> w_closed st = false -> exists evs st', walk_run evs st = Some st' /\ w_closed st' = true.
Proof.
  intros O. remember (walk_work st) as n eqn:Hn. revert st Hn. induction (lt_wf n) as [n _ IH]. intros st -> C.
  assert (D : (w_source st = [] /\ w_running st = []) \/ (w_source st <> [] \/ w_running st <> [])) by (destruct (w_source st), (w_running st); auto).
  destruct D as [[D1 D2]|D].
  - exists [WClose]. eexists. cbn. rewrite D1, D2, C. by split.
  - destruct (walk_progress st O C D) as (ev & st1 & E & L & C1). destruct (IH _ L st1 eq_refl C1) as (evs & st' & R & C'). exists (ev :: evs), st'. split; [|done]. cbn. by rewrite E.
Qed.

Lemma closed_all evs st st' : walk_run evs st = Some st' -> w_closed st = false -> w_closed st' = true -> w_source st' = [] /\ w_running st' = [].
Proof.
  revert st. induction evs as [|ev evs IH]; intros st; cbn; [intros [= <-]; congruence|]. destruct (walk_step ev st) as [st1|] eqn:E; [|done]. cbn. intros R C C'.
  destruct (w_closed st1) eqn:C1; [|by apply (IH st1)].
  destruct st as [src run pipe cl], ev as [|i|i|]; cbn [walk_step w_source w_running w_pipe w_closed] in E; try (by destruct src; try done; destruct (may_start _); try done; injection E as <-); try (by destruct (run !! i) as [[|b bs]|]; try done; injection E as <-).
  destruct src, run, cl; try done. injection E as <-. destruct evs as [|ev evs]; [by injection R as <-|]. exfalso. revert R. clear. cbn. destruct ev; cbn; by rewrite ?lookup_nil.
Qed.
End walk.

(** What [Map], [Filter] and [Parallel] write for an item, and the workers of [Concat]. *)
Definition Map {A B} (fn : A -> B) (item : A) : list B := [fn item].
Definition Filter {A} (fn : A -> bool) (item : A) : list A := if fn item then [item] else [].
Definition Parallel {A B} (item : A) : list B := [].
Definition Concat {A} (s : list A) (others : list (list A)) : walking (A := A) (B := A) := mkWalking [] (s :: others) [] false.

(** ** Retries *)

Section retry.
Context {E : Type} (times : Z) (ignored : E -> bool) (ctxErr : E).

(** An attempt returns, or the context ends first. *)
Inductive attempt := Returned (e : option E) | Done.

(** [run i] is attempt [i]; [ends i] says whether the context ends while it is waited for the
    next one.  The errors ([BatchError]; none is success), and the number of calls. *)
Fixpoint retry_loop (n : nat) (i : Z) (run : Z -> attempt) (ends : Z -> bool) (berr : list E) : list E * Z :=
  match n with
  | O => (berr, i)
  | S n =>
      match run i with
      | Returned None => ([], i + 1)
      | Returned (Some e) =>
          if ignored e then ([], i + 1)
          else
            let berr := berr ++ [e] in
            if (i <? times - 1) && ends i then (berr ++ [ctxErr], i + 1) else retry_loop n (i + 1) run ends berr
      | Done => (berr ++ [ctxErr], i + 1)
      end
  end.
Definition retry (run : Z -> attempt) (ends : Z -> bool) : list E * Z := retry_loop (Z.to_nat times) 0 run ends [].

(** Attempt [i] succeeds, and the earlier ones failed in time. *)
Definition good (a : attempt) : Prop := match a with Returned None => True | Returned (Some e) => ignored e = true | Done => False end.
Definition failed (run : Z -> attempt) (ends : Z -> bool) (i : Z) : Prop := exists e, run i = Returned (Some e) /\ ignored e = false /\ ends i = false.

Lemma retry_loop_spec n i run ends berr : i + Z.of_nat n = times -> (berr <> [] \/ i = 0) ->
  let '(errs, calls) := retry_loop n i run ends berr in
  (errs = [] <-> (n = O /\ berr = []) \/ exists j, i <= j < times /\ good (run j) /\ forall k, i <= k < j -> failed run ends k) /\ i <= calls <= times.
Proof.
  revert i berr. induction n as [|n IH]; intros i berr Hn Hb; cbn [retry_loop].
  - split; [|lia]. split; [by left|]. intros [[_ ->]|(j & Hj & _)]; [done|lia].
  - destruct (run i) as [[e|]|] eqn:R.
    + destruct (ignored e) eqn:Ig.
      { split; [|lia]. split; [|done]. intros _. right. exists i. split; [lia|]. rewrite R. split; [done|]. lia. }
      destruct ((i <? times - 1) && ends i) eqn:W.
      * apply andb_true_iff in W as [W1%Z.ltb_lt W2]. split; [|lia]. split; [by intros [_ [=]]%app_nil|]. intros [[? _]|(j & Hj & G & F)]; [done|].
        destruct (decide (j = i)) as [->|N]; [rewrite R in G; cbn in G; congruence|]. destruct (F i ltac:(lia)) as (e' & _ & _ & ?). congruence.
      * specialize (IH (i + 1) (berr ++ [e]) ltac:(lia)). destruct (retry_loop n (i + 1) run ends (berr ++ [e])) as [errs calls].
        destruct IH as [I1 I2]; [left; by destruct berr|]. split; [|lia]. rewrite I1. split.
        -- intros [[_ ?%app_nil]|(j & Hj & G & F)]; [naive_solver|]. right. exists j. split; [lia|]. split; [done|]. intros k Hk. destruct (decide (k = i)) as [->|]; [|apply F; lia].
           exists e. split_and!; [done..|]. apply andb_false_iff in W as [W|W]; [apply Z.ltb_ge in W; lia|done].
        -- intros [[? _]|(j & Hj & G & F)]; [done|]. right. exists j. destruct (decide (j = i)) as [->|N]; [rewrite R in G; cbn in G; congruence|]. split; [lia|]. split; [done|]. intros k Hk. apply F. lia.
    + split; [|lia]. split; [|done]. intros _. right. exists i. split; [lia|]. rewrite R. split; [done|]. lia.
    + split; [|lia]. split; [by intros [_ [=]]%app_nil|]. intros [[? _]|(j & Hj & G & F)]; [done|].
      destruct (decide (j = i)) as [->|N]; [by rewrite R in G|]. destruct (F i ltac:(lia)) as (e' & E' & _). congruence.
Qed.
End retry.

(** ** Properties *)

(** The operations of a stream are the usual ones on lists: [Head] and [Skip] cut at a count,
    [Tail] keeps the last items through the ring, [Split] cuts into pieces of the given size with
    a shorter last one, [Distinct] keeps one item of each key in order, [Group] has the items of
    each key in order, [Reverse] swaps in place; the counts below 1 (0 for [Skip]) panic. *)
Theorem stream_operations (A K : Type) (nil_v : A) `{!EqDecision K} (fn : A -> K) (s : list A) (n : Z) :
  Head n s = (if n <? 1 then None else Some (take (Z.to_nat n) s)) /\ Skip n s = (if n <? 0 then None else Some (drop (Z.to_nat n) s)) /\
  Tail nil_v n s = (if n <? 1 then None else Some (drop (length s - Z.to_nat n) s)) /\
  match Split n s with
  | Some cs => concat cs = s /\ Forall (fun c => 1 <= Z.of_nat (length c) <= n) cs /\ forall c, c ∈ removelast cs -> Z.of_nat (length c) = n
  | None => n < 1
  end /\
  Distinct fn s `sublist_of` s /\ NoDup (fn <$> Distinct fn s) /\ (forall x, x ∈ s -> fn x ∈ fn <$> Distinct fn s) /\
  NoDup (Group fn s).*1 /\ (forall k, k ∈ (Group fn s).*1 <-> k ∈ fn <$> s) /\ (forall k l, (k, l) ∈ Group fn s -> l = filter (fun x => fn x = k) s) /\
  Reverse s = rev s /\ Count s = Z.of_nat (length s).
Proof.
  destruct (distinct_loop_spec fn [] s) as (D1 & _ & D3 & D4). destruct (Group_spec nil_v fn s) as (G1 & G2 & G3). split_and!; try done.
  - unfold Head. destruct (Z.ltb_spec n 1); [done|]. by rewrite head_loop_take.
  - unfold Skip. destruct (Z.ltb_spec n 0); [done|]. destruct (Z.eqb_spec n 0) as [->|]; [done|]. by rewrite skip_loop_drop.
  - unfold Tail. destruct (Z.ltb_spec n 1); [done|]. unfold NewRing. destruct (Z.ltb_spec n 1); [lia|]. cbn.
    refine (proj1 (Ring_Take_last A nil_v n _ s _)). unfold NewRing. by destruct (Z.ltb_spec n 1); [lia|].
  - unfold Split. destruct (Z.ltb_spec n 1); [done|]. apply split_loop_spec; cbn; lia.
  - intros x Hx. destruct (D4 x Hx) as [?%elem_of_nil|]; done.
  - apply Reverse_rev.
  - unfold Count. enough (H : forall c, count_loop c s = c + Z.of_nat (length s)) by by rewrite H. clear. induction s as [|x s IH]; intros c; cbn; [lia|]. rewrite IH. lia.
Qed.

(** C36: whatever the interleaving of its workers, [Walk] (so [Map], [Filter] and [Concat]) has no
    more workers than its option allows, closes the pipe only after everything was written, each
    output once, and can always go on to the close; with one worker the outputs are in the order
    of the items. *)
Theorem walk_delivers (A B : Type) (fn : A -> list B) (opts : list (rxOptions -> rxOptions)) (s : list A) evs st :
  Forall (fun f => f = UnlimitedWorkers \/ exists n, f = WithWorkers n) opts -> let opt := buildOptions opts in
  walk_run fn opt evs (Walk s) = Some st ->
  width opt st /\
  (w_closed st = true -> w_pipe st ≡ₚ concat (fn <$> s) /\ (unlimitedWorkers opt = false -> workers opt = 1 -> w_pipe st = concat (fn <$> s))) /\
  (w_closed st = false -> exists evs' st', walk_run fn opt evs' st = Some st' /\ w_closed st' = true).
Proof.
  intros Ho opt R. assert (O : 1 <= workers opt).
  { unfold opt, buildOptions. assert (I : 1 <= workers newOptions) by done. revert I. generalize newOptions as o. clear -Ho. induction Ho as [|f l [-> |[n ->]] _ IH]; intros o I; cbn; [done|by apply IH|]. apply IH. cbn. lia. }
  assert (W0 : width opt (Walk s : walking (B := B))) by (right; cbn; lia). destruct (walk_invariant _ _ _ _ _ R W0) as (I1 & I2 & I3). split_and!; [done| |].
  - intros C. destruct (closed_all _ _ _ _ _ R eq_refl C) as [E1 E2]. unfold all_of in I1, I3. rewrite E1, E2 in I1, I3. cbn in I1, I3. rewrite !app_nil_r in I1, I3.
    split; [done|]. intros U O1. apply I3; [done..|]. lia.
  - intros C. apply walk_finishes; [by right|done].
Qed.
Lemma walk_delivers_witness : let opts := [WithWorkers 2] in let fn := fun x : Z => [x; x * 10] in
  exists st, walk_run fn (buildOptions opts) [WStart; WStart; WSend 1; WSend 0; WSend 1; WSend 0; WEnd 0; WStart; WEnd 0; WSend 0; WSend 0; WEnd 0; WClose] (Walk [1; 2; 3]) = Some st /\
    w_pipe st ≡ₚ [1; 10; 2; 20; 3; 30] /\ w_pipe st <> [1; 10; 2; 20; 3; 30].
Proof.
  intros opts fn. destruct (walk_run fn (buildOptions opts) _ (Walk [1; 2; 3])) as [st|] eqn:R; [|vm_compute in R; discriminate R]. exists st. split; [reflexivity|].
  assert (Ho : Forall (fun f => f = UnlimitedWorkers \/ exists n, f = WithWorkers n) opts) by (constructor; [right; exists 2; reflexivity|constructor]).
  pose proof (walk_delivers Z Z fn opts [1; 2; 3] _ st Ho R) as (_ & H & _). assert (C : w_closed st = true) by (vm_compute in R; injection R as <-; reflexivity).
  split; [exact (proj1 (H C))|]. clear H. vm_compute in R. injection R as <-. discriminate.
Defined.

(** A retried function is called at most the given number of times, and the result is success
    exactly when no attempt was asked for or one succeeded (or failed with an ignored error) after
    attempts that failed in time. *)
Theorem retry_succeeds (E : Type) (times : Z) (ignored : E -> bool) (ctxErr : E) run ends :
  let '(errs, calls) := retry times ignored ctxErr run ends in
  (errs = [] <-> times <= 0 \/ exists j, 0 <= j < times /\ good ignored (run j) /\ forall k, 0 <= k < j -> failed ignored run ends k) /\ 0 <= calls <= Z.max times 0.
Proof.
  unfold retry. destruct (Z_lt_le_dec times 0) as [L|L].
  - replace (Z.to_nat times) with O by lia. cbn. split; [|lia]. split; [|done]. intros _. left. lia.
  - pose proof (retry_loop_spec times ignored ctxErr (Z.to_nat times) 0 run ends [] ltac:(lia) ltac:(auto)) as H. destruct (retry_loop _ _ _ _ _ _ _ _) as [errs calls].
    destruct H as [H1 H2]. split; [|lia]. rewrite H1. split; (intros [H|H]; [left|by right]); lia || (split; [lia|done]).
Qed.
