(* ===== verification/RollingWindow.v ===== *)
(** * infra/collection/rollingwindow.go: counters over a sliding time window

    The window keeps [size] buckets of one [interval] each in a ring.  Times are
    nanoseconds read from the monotonic process clock ([timex.Now]); every clock
    reading the code performs is an argument, so [Add], which reads the clock twice,
    takes two.  The interval is positive (a zero interval would be a division by
    zero in the source). *)

From S2P Require Import Prelude Interfaces.

(** One [Add]: the two clock readings and the value. *)
Notation timed_add T := (Z * Z * T)%type (only parsing).

Section window.
Context {T B : Type} `{!BucketInterface T B}.

Record window : Type := mkWindow { w_buckets : list B; w_size : nat }.

#[local] Instance eta_window : Eta window := fun w => mkWindow (w_buckets w) (w_size w).

Definition newWindow (size : nat) : window :=
  mkWindow (replicate size (newBucket (T:=T))) size.

Definition window_add (offset : nat) (v : T) (w : window) : window :=
  w <| w_buckets := alter (bucket_Add v) (offset mod w_size w)%nat (w_buckets w) |>.

Definition window_reduce {S} (start count : nat) (fn : B -> S -> S) (w : window) (s : S) : S :=
  foldl (fun s i => match w_buckets w !! ((start + i) mod w_size w)%nat with
                    | Some b => fn b s
                    | None => s
                    end) s (seq 0 count).

Definition window_resetBucket (offset : nat) (w : window) : window :=
  w <| w_buckets := alter (bucket_Reset (T:=T)) (offset mod w_size w)%nat (w_buckets w) |>.

Record RollingWindow : Type := mkRollingWindow {
  rw_size : nat;
  rw_win : window;
  rw_interval : Z;
  rw_offset : nat;
  rw_ignoreCurrent : bool;
  rw_lastTime : Z  (* start time of the last bucket *)
}.

#[local] Instance eta_RollingWindow : Eta RollingWindow := fun w =>
  mkRollingWindow (rw_size w) (rw_win w) (rw_interval w) (rw_offset w)
    (rw_ignoreCurrent w) (rw_lastTime w).

(** Panics ([None]) when [size < 1]. *)
Definition NewRollingWindow (size interval : Z) (opts : list (RollingWindow -> RollingWindow))
  (now : Z) : option RollingWindow :=
  if size <? 1 then None
  else Some (foldl (fun w opt => opt w)
    (mkRollingWindow (Z.to_nat size) (newWindow (Z.to_nat size)) interval 0 false now) opts).

Definition IgnoreCurrentBucket (w : RollingWindow) : RollingWindow :=
  w <| rw_ignoreCurrent := true |>.

(** How many buckets have expired at [now]; Go's [/] truncates. *)
Definition RollingWindow_span (now : Z) (rw : RollingWindow) : nat :=
  let offset := Z.quot (now - rw_lastTime rw) (rw_interval rw) in
  if (0 <=? offset) && (offset <? Z.of_nat (rw_size rw)) then Z.to_nat offset else rw_size rw.

Definition RollingWindow_updateOffset (now1 now2 : Z) (rw : RollingWindow) : RollingWindow :=
  let span := RollingWindow_span now1 rw in
  if decide (span <= 0)%nat then rw
  else
    let offset := rw_offset rw in
    (* reset expired buckets *)
    let win := foldl (fun w i => window_resetBucket ((offset + i + 1) mod rw_size rw)%nat w)
                 (rw_win rw) (seq 0 span) in
    let rw := rw <| rw_win := win |> <| rw_offset := ((offset + span) mod rw_size rw)%nat |> in
    (* align to interval time boundary *)
    rw <| rw_lastTime := now2 - Z.rem (now2 - rw_lastTime rw) (rw_interval rw) |>.

Definition RollingWindow_Add (now1 now2 : Z) (v : T) (rw : RollingWindow) : RollingWindow :=
  let rw := RollingWindow_updateOffset now1 now2 rw in
  rw <| rw_win := window_add (rw_offset rw) v (rw_win rw) |>.

Definition RollingWindow_Reduce {S} (fn : B -> S -> S) (now : Z) (rw : RollingWindow) (s : S) : S :=
  let span := RollingWindow_span now rw in
  (* ignore the current bucket, because of partial data *)
  let diff := if decide (span = 0%nat /\ rw_ignoreCurrent rw = true)
              then (rw_size rw - 1)%nat else (rw_size rw - span)%nat in
  if decide (0 < diff)%nat then
    window_reduce ((rw_offset rw + span + 1) mod rw_size rw)%nat diff fn (rw_win rw) s
  else s.

(** ** The abstract window: a log of (epoch, value) additions

    Epoch [j] is the [j]-th interval after the creation of the window. *)

Definition bucket_at (log : list (Z * T)) (j : Z) : B :=
  foldl (fun b e => bucket_Add e.2 b) (newBucket (T:=T)) (filter (fun e => e.1 = j) log).

Definition epoch (t0 interval t : Z) : Z := (t - t0) / interval.

(** The ring position of the bucket [d] intervals before the current one. *)
Definition back (offset size d : nat) : nat := ((offset + (size - d)) mod size)%nat.

Definition rw_rep (t0 : Z) (rw : RollingWindow) (log : list (Z * T)) (cur : Z) : Prop :=
  let n := rw_size rw in
  (0 < n)%nat /\ w_size (rw_win rw) = n /\ length (w_buckets (rw_win rw)) = n /\
  (rw_offset rw < n)%nat /\ 0 < rw_interval rw /\
  rw_lastTime rw = t0 + rw_interval rw * cur /\
  Forall (fun e => e.1 <= cur) log /\
  forall d, (d < n)%nat ->
    w_buckets (rw_win rw) !! back (rw_offset rw) n d = Some (bucket_at log (cur - Z.of_nat d)).

Lemma bucket_at_future (log : list (Z * T)) (cur j : Z) :
  Forall (fun e => e.1 <= cur) log -> cur < j -> bucket_at log j = newBucket (T:=T).
Proof.
  intros Hl Hj. unfold bucket_at. rewrite filter_none; [done|].
  eapply Forall_impl; [exact Hl|]. cbn. lia.
Qed.

Lemma bucket_at_snoc (log : list (Z * T)) (i j : Z) (v : T) :
  bucket_at (log ++ [(i, v)]) j =
    if decide (i = j) then bucket_Add v (bucket_at log j) else bucket_at log j.
Proof.
  unfold bucket_at. rewrite filter_app, foldl_app. cbn [filter].
  rewrite filter_cons, filter_nil. cbn. by case_decide.
Qed.

Lemma back_lookup (o n d : nat) :
  (o < n)%nat -> (d < n)%nat -> (back o n d = if decide (d <= o) then o - d else o + n - d)%nat.
Proof.
  intros. unfold back. rewrite mod_add_wrap by lia. repeat case_decide; lia.
Qed.

Context `{!BucketLaws T B}.

Lemma window_resets_lookup (w : window) (ks : list nat) (j : nat) :
  length (w_buckets w) = w_size w -> Forall (fun k => k < w_size w)%nat ks ->
  let w' := foldl (fun w k => window_resetBucket k w) w ks in
  w_size w' = w_size w /\ length (w_buckets w') = w_size w /\
  w_buckets w' !! j = if decide (j ∈ ks) then Some (newBucket (T:=T)) else w_buckets w !! j.
Proof.
  revert w. induction ks as [|k ks IH]; intros w Hw Hks; cbn.
  { rewrite decide_False by set_solver. done. }
  apply Forall_cons in Hks as [Hk Hks].
  destruct (IH (window_resetBucket k w)) as (-> & -> & ->); cbn.
  - by rewrite length_alter.
  - done.
  - split; [done|]. split; [done|].
    rewrite Nat.mod_small by done.
    destruct (decide (j ∈ ks)); [rewrite decide_True by set_solver; done|].
    destruct (decide (j = k)) as [->|].
    + rewrite decide_True by set_solver. rewrite list_lookup_alter_eq.
      destruct (lookup_lt_is_Some_2 (w_buckets w) k) as [b ->]; [lia|].
      cbn. by rewrite bucket_Reset_new.
    + rewrite decide_False by set_solver. by rewrite list_lookup_alter_ne.
Qed.

Lemma epoch_quot (t0 interval cur now : Z) :
  0 < interval -> t0 + interval * cur <= now ->
  Z.quot (now - (t0 + interval * cur)) interval = epoch t0 interval now - cur /\
  cur <= epoch t0 interval now.
Proof.
  intros Hi Hn. unfold epoch.
  replace (now - t0) with ((now - (t0 + interval * cur)) + cur * interval) by lia.
  rewrite Z.div_add by lia. rewrite Z.quot_div_nonneg by lia.
  pose proof (Z.div_pos (now - (t0 + interval * cur)) interval). lia.
Qed.

Lemma RollingWindow_span_rep (t0 now cur : Z) (rw : RollingWindow) (log : list (Z * T)) :
  rw_rep t0 rw log cur -> rw_lastTime rw <= now ->
  let i := epoch t0 (rw_interval rw) now in
  cur <= i /\
  Z.of_nat (RollingWindow_span now rw) = Z.min (i - cur) (Z.of_nat (rw_size rw)).
Proof.
  intros (Hn & _ & _ & _ & Hi & Hl & _) Hnow i.
  unfold RollingWindow_span. rewrite Hl in *.
  destruct (epoch_quot t0 (rw_interval rw) cur now Hi Hnow) as [-> ?]. fold i in H |- *.
  split; [done|].
  destruct (Z.leb_spec 0 (i - cur)), (Z.ltb_spec (i - cur) (Z.of_nat (rw_size rw))); cbn; lia.
Qed.

Lemma aligned_time (t0 interval cur now : Z) :
  0 < interval -> t0 + interval * cur <= now ->
  now - Z.rem (now - (t0 + interval * cur)) interval = t0 + interval * epoch t0 interval now.
Proof.
  intros Hi Hn. destruct (epoch_quot t0 interval cur now Hi Hn) as [Hq _].
  pose proof (Z.quot_rem' (now - (t0 + interval * cur)) interval). nia.
Qed.

Lemma RollingWindow_updateOffset_rep (t0 now1 now2 cur : Z) (rw : RollingWindow) log :
  rw_rep t0 rw log cur -> rw_lastTime rw <= now1 -> rw_lastTime rw <= now2 ->
  epoch t0 (rw_interval rw) now1 = epoch t0 (rw_interval rw) now2 ->
  rw_rep t0 (RollingWindow_updateOffset now1 now2 rw) log (epoch t0 (rw_interval rw) now1).
Proof.
  intros Hrep H1 H2 He.
  destruct (RollingWindow_span_rep t0 now1 cur rw log Hrep H1) as [Hcur Hspan].
  pose proof Hrep as (Hn & Hw & Hlen & Ho & Hi & Hl & Hlog & Hb).
  unfold RollingWindow_updateOffset. case_decide as Hs.
  { replace (epoch t0 (rw_interval rw) now1) with cur by lia. done. }
  set (span := RollingWindow_span now1 rw) in *. set (i := epoch _ _ now1) in *.
  assert (Hks : Forall (fun k => k < w_size (rw_win rw))%nat
    ((fun i => (rw_offset rw + i + 1) mod rw_size rw)%nat <$> seq 0 span)).
  { apply Forall_fmap, Forall_forall. intros k _. cbn. rewrite Hw.
    apply Nat.mod_upper_bound. lia. }
  unfold rw_rep. cbn -[Nat.modulo].
  rewrite <- (foldl_fmap (fun w k => window_resetBucket k w) _ _
    (fun i => (rw_offset rw + i + 1) mod rw_size rw)%nat).
  assert (Hlook := fun j => window_resets_lookup (rw_win rw) _ j (eq_trans Hlen (eq_sym Hw)) Hks).
  cbn -[Nat.modulo] in Hlook.
  destruct (Hlook 0%nat) as (-> & -> & _).
  do 3 (split; [done|]). split; [apply Nat.mod_upper_bound; lia|]. split; [done|].
  split; [rewrite Hl, He; apply aligned_time; lia|].
  split; [eapply Forall_impl; [exact Hlog|cbn; lia]|].
  intros d Hd. destruct (Hlook (back ((rw_offset rw + span) mod rw_size rw) (rw_size rw) d))
    as (_ & _ & ->).
  assert (Hspan' : (span <= rw_size rw)%nat) by lia.
  assert (Ho' : ((rw_offset rw + span) mod rw_size rw < rw_size rw)%nat)
    by (apply Nat.mod_upper_bound; lia).
  rewrite back_lookup by done.
  rewrite mod_add_wrap by lia. rewrite mod_add_wrap in Ho' by lia.
  destruct (decide (d < span)%nat) as [Hds|Hds].
  - rewrite decide_True.
    + f_equal. symmetry. eapply bucket_at_future; [exact Hlog|lia].
    + apply list_elem_of_fmap. exists (span - d - 1)%nat. split.
      * rewrite <- Nat.add_assoc. rewrite mod_add_wrap by lia. repeat case_decide; lia.
      * apply elem_of_seq. lia.
  - rewrite decide_False.
    + replace (i - Z.of_nat d) with (cur - Z.of_nat (d - span)) by lia.
      rewrite <- Hb by lia. rewrite back_lookup by lia. f_equal. repeat case_decide; lia.
    + intros (k & Hk & Hks')%list_elem_of_fmap. apply elem_of_seq in Hks'.
      rewrite <- Nat.add_assoc, mod_add_wrap in Hk by lia. repeat case_decide; lia.
Qed.

Lemma RollingWindow_Add_rep (t0 now1 now2 cur : Z) (rw : RollingWindow) log (v : T) :
  rw_rep t0 rw log cur -> rw_lastTime rw <= now1 -> rw_lastTime rw <= now2 ->
  epoch t0 (rw_interval rw) now1 = epoch t0 (rw_interval rw) now2 ->
  let i := epoch t0 (rw_interval rw) now1 in
  rw_rep t0 (RollingWindow_Add now1 now2 v rw) (log ++ [(i, v)]) i.
Proof.
  intros Hrep H1 H2 He i.
  apply (RollingWindow_updateOffset_rep t0 now1 now2) in Hrep; [|done..]. fold i in Hrep.
  unfold RollingWindow_Add.
  set (rw1 := RollingWindow_updateOffset now1 now2 rw) in *.
  destruct Hrep as (Hn & Hw & Hlen & Ho & Hi & Hl & Hlog & Hb).
  unfold rw_rep. cbn -[Nat.modulo]. rewrite length_alter.
  do 6 (split; [done|]).
  split; [apply Forall_app; split; [done|apply Forall_singleton; cbn; lia]|].
  intros d Hd. rewrite Hw, Nat.mod_small by done. rewrite bucket_at_snoc.
  destruct (decide (d = 0%nat)) as [->|].
  - rewrite decide_True by lia.
    specialize (Hb 0%nat Hd). rewrite back_lookup, decide_True, Nat.sub_0_r in Hb |- * by lia.
    by rewrite list_lookup_alter_eq, Hb.
  - rewrite decide_False by lia. rewrite list_lookup_alter_ne; [by apply Hb|].
    rewrite back_lookup by lia. case_decide; lia.
Qed.

(** The epochs a [Reduce] at epoch [i] visits, oldest first, when the last addition
    was in epoch [cur]. *)
Definition window_epochs (size : nat) (ignoreCurrent : bool) (cur i : Z) : list Z :=
  let last := if bool_decide (cur = i) && ignoreCurrent then cur - 1 else cur in
  seqZ (i - Z.of_nat size + 1) (last - (i - Z.of_nat size)).

Lemma RollingWindow_Reduce_rep {S} (fn : B -> S -> S) (t0 now cur : Z) (rw : RollingWindow) log s :
  rw_rep t0 rw log cur -> rw_lastTime rw <= now ->
  RollingWindow_Reduce fn now rw s =
  foldl (fun s j => fn (bucket_at log j) s) s
    (window_epochs (rw_size rw) (rw_ignoreCurrent rw) cur (epoch t0 (rw_interval rw) now)).
Proof.
  intros Hrep Hnow.
  destruct (RollingWindow_span_rep t0 now cur rw log Hrep Hnow) as [Hcur Hspan].
  destruct Hrep as (Hn & Hw & Hlen & Ho & Hi & Hl & Hlog & Hb).
  set (i := epoch _ _ _) in *.
  unfold RollingWindow_Reduce, window_epochs, window_reduce.
  set (span := RollingWindow_span now rw) in *.
  set (diff := if decide (span = 0%nat /\ _) then _ else _).
  set (cnt := (if bool_decide (cur = i) && _ then cur - 1 else cur) - _).
  assert (Hdiff : Z.of_nat diff = Z.max 0 cnt).
  { subst diff cnt. destruct (rw_ignoreCurrent rw); rewrite ?andb_true_r, ?andb_false_r;
      repeat case_bool_decide; repeat case_decide; try lia; naive_solver lia. }
  case_decide as Hd.
  - unfold seqZ. replace (Z.to_nat cnt) with diff by lia. rewrite foldl_fmap.
    assert (Hs1 : (span < rw_size rw)%nat) by (subst diff; case_decide; lia).
    assert (Hfold : forall ks s, (forall k, k ∈ ks -> (k < diff)%nat) ->
      foldl (fun s k => match w_buckets (rw_win rw) !!
          (((rw_offset rw + span + 1) mod rw_size rw + k) mod w_size (rw_win rw))%nat with
          | Some b => fn b s | None => s end) s ks =
      foldl (fun s k => fn (bucket_at log (Z.of_nat k + (i - Z.of_nat (rw_size rw) + 1))) s) s ks).
    { induction ks as [|k ks IH]; intros s' Hks; [done|]. cbn -[Nat.modulo].
      assert (Hk : (k < diff)%nat) by (apply Hks; set_solver).
      assert (Hdle : (diff <= rw_size rw - span)%nat) by (subst diff; case_decide; lia).
      rewrite Hw in IH |- *. pose proof (Hb (rw_size rw - span - 1 - k)%nat ltac:(lia)) as Hk'.
      rewrite back_lookup in Hk' by lia.
      replace (((rw_offset rw + span + 1) mod rw_size rw + k) mod rw_size rw)%nat
        with (if decide (rw_size rw - span - 1 - k <= rw_offset rw)
              then rw_offset rw - (rw_size rw - span - 1 - k)
              else rw_offset rw + rw_size rw - (rw_size rw - span - 1 - k))%nat.
      2:{ clear Hk'. rewrite <- (Nat.add_assoc _ span 1), (mod_add_wrap (rw_offset rw)) by lia.
          rewrite mod_add_wrap by (repeat case_decide; lia). repeat case_decide; lia. }
      rewrite Hk'. rewrite IH by set_solver. do 3 f_equal. lia. }
    apply Hfold. intros k Hk. apply elem_of_seq in Hk. lia.
  - rewrite seqZ_nil by lia. done.
Qed.

(** ** Runs *)

Fixpoint rw_run (adds : list (timed_add T)) (rw : RollingWindow) : RollingWindow :=
  match adds with
  | [] => rw
  | (n1, n2, v) :: adds => rw_run adds (RollingWindow_Add n1 n2 v rw)
  end.

(** The clock is monotonic and does not cross an interval boundary between the two
    readings of one [Add]. *)
Fixpoint clock_ok (t0 interval last : Z) (adds : list (timed_add T)) : Prop :=
  match adds with
  | [] => True
  | (n1, n2, _) :: adds =>
      last <= n1 /\ n1 <= n2 /\ epoch t0 interval n1 = epoch t0 interval n2 /\
      clock_ok t0 interval n2 adds
  end.

Definition log_of (t0 interval : Z) (adds : list (timed_add T)) : list (Z * T) :=
  (fun '(n1, _, v) => (epoch t0 interval n1, v)) <$> adds.

Definition last_clock (t0 : Z) (adds : list (timed_add T)) : Z :=
  default t0 ((fun '(_, n2, _) => n2) <$> last adds).

Lemma RollingWindow_Add_fields (n1 n2 : Z) (v : T) (rw : RollingWindow) :
  rw_size (RollingWindow_Add n1 n2 v rw) = rw_size rw /\
  rw_interval (RollingWindow_Add n1 n2 v rw) = rw_interval rw /\
  rw_ignoreCurrent (RollingWindow_Add n1 n2 v rw) = rw_ignoreCurrent rw.
Proof.
  unfold RollingWindow_Add, RollingWindow_updateOffset. case_decide; done.
Qed.

(** The state after a run represents the log of the run. *)
Lemma rw_run_rep (t0 lst : Z) (adds : list (timed_add T)) (rw : RollingWindow) log :
  rw_rep t0 rw log (epoch t0 (rw_interval rw) lst) -> t0 <= lst ->
  clock_ok t0 (rw_interval rw) lst adds ->
  let rw' := rw_run adds rw in
  let fin := last_clock lst adds in
  rw_rep t0 rw' (log ++ log_of t0 (rw_interval rw) adds) (epoch t0 (rw_interval rw) fin) /\
  lst <= fin /\ rw_size rw' = rw_size rw /\ rw_interval rw' = rw_interval rw /\
  rw_ignoreCurrent rw' = rw_ignoreCurrent rw.
Proof.
  revert lst rw log. induction adds as [|[[n1 n2] v] adds IH]; intros lst rw log Hrep Hlst Hck.
  { cbn. rewrite app_nil_r. split; [done|]. split; [lia|done]. }
  cbn in Hck. destruct Hck as (H1 & H2 & He & Hck).
  pose proof Hrep as (_ & _ & _ & _ & Hi & Hl & _).
  assert (Hle : rw_lastTime rw <= lst).
  { rewrite Hl. unfold epoch.
    pose proof (Z.mul_div_le (lst - t0) (rw_interval rw) Hi).
    generalize dependent ((lst - t0) / rw_interval rw). intros. lia. }
  pose proof (RollingWindow_Add_rep t0 n1 n2 _ rw log v Hrep ltac:(lia) ltac:(lia) He) as Hrep'.
  destruct (RollingWindow_Add_fields n1 n2 v rw) as (Es & Ei & Eg).
  cbn in Hrep'. rewrite He, <- Ei in Hrep'. rewrite <- Ei in Hck.
  destruct (IH n2 _ _ Hrep' ltac:(lia) Hck) as (IH1 & IH2 & IH3 & IH4 & IH5).
  assert (Hlast : last_clock lst ((n1, n2, v) :: adds) = last_clock n2 adds).
  { unfold last_clock. destruct adds as [|a adds]; [done|]. cbn.
    destruct (last (a :: adds)) eqn:E; [done|]. by apply last_None in E. }
  intros rw' fin. subst rw' fin. rewrite Hlast. rewrite Ei, <- app_assoc in IH1. cbn in IH1 |- *.
  rewrite He. split; [done|]. split; [lia|]. rewrite IH3, IH4, IH5. done.
Qed.

Lemma NewRollingWindow_rep (size interval t0 : Z) (ignore : bool) (rw : RollingWindow) :
  0 < interval ->
  NewRollingWindow size interval (if ignore then [IgnoreCurrentBucket] else []) t0 = Some rw ->
  rw_rep t0 rw [] 0 /\ rw_size rw = Z.to_nat size /\ rw_interval rw = interval /\
  rw_ignoreCurrent rw = ignore.
Proof.
  intros Hi. unfold NewRollingWindow. destruct (Z.ltb_spec size 1) as [|Hs]; [done|].
  intros [= <-].
  assert (Hrep : rw_rep t0 (mkRollingWindow (Z.to_nat size) (newWindow (Z.to_nat size)) interval
    0 ignore t0) [] 0).
  { unfold rw_rep. cbn. rewrite length_replicate.
    do 5 (split; [lia || done|]). split; [lia|]. split; [by apply Forall_nil|].
    intros d Hd. apply lookup_replicate_2. rewrite back_lookup by lia. case_decide; lia. }
  destruct ignore; done.
Qed.

End window.

Arguments window : clear implicits.
Arguments RollingWindow : clear implicits.

(** ** The bucket of rollingwindow.go *)

Record Bucket : Type := mkBucket { bkt_Sum : Z; bkt_Count : Z }.

#[export] Instance Bucket_iface : BucketInterface Z Bucket := {
  newBucket := mkBucket 0 0;
  bucket_Add v b := mkBucket (bkt_Sum b + v) (bkt_Count b + 1);
  bucket_Reset _ := mkBucket 0 0
}.

#[export] Instance Bucket_laws : BucketLaws Z Bucket.
Proof. done. Qed.

(** C38: At any time [now] after a run of [Add] calls, [Reduce] visits, oldest first, the
    buckets of those of the last [size] intervals that are not after the one of the last
    addition, without that one when it is still running and [ignoreCurrent] is set; the
    bucket of an interval holds exactly the values added during it, in order.  So nothing
    expired is still counted and nothing recent is lost, however long the gaps between
    calls.  The interval is positive, the clock does not go back, and the two readings of
    one [Add] are in the same interval. *)
Theorem RollingWindow_Reduce_window (T B S : Type) `{!BucketInterface T B} `{!BucketLaws T B}
  (size interval t0 now : Z) (ignore : bool) (rw : RollingWindow B)
  (adds : list (timed_add T)) (fn : B -> S -> S) (s : S)
  (Hint : 0 < interval)
  (Hnew : NewRollingWindow size interval (if ignore then [IgnoreCurrentBucket] else []) t0 = Some rw)
  (Hck : clock_ok t0 interval t0 adds)
  (Hnow : last_clock t0 adds <= now) :
  RollingWindow_Reduce fn now (rw_run adds rw) s =
  foldl (fun s j => fn (bucket_at (log_of t0 interval adds) j) s) s
    (window_epochs (Z.to_nat size) ignore (epoch t0 interval (last_clock t0 adds))
      (epoch t0 interval now)).
Proof.
  apply NewRollingWindow_rep in Hnew as (Hrep & <- & <- & <-); [|done].
  assert (H0 : epoch t0 (rw_interval rw) t0 = 0) by (unfold epoch; by rewrite Z.sub_diag).
  rewrite <- H0 in Hrep.
  destruct (rw_run_rep t0 t0 adds rw [] Hrep ltac:(lia) Hck) as (Hr & Hle & Es & Ei & Eg).
  rewrite <- Es, <- Eg.
  rewrite (RollingWindow_Reduce_rep fn t0 now _ _ _ s Hr); [by rewrite Ei|].
  destruct Hr as (_ & _ & _ & _ & Hi & Hl & _). rewrite Hl, Ei.
  unfold epoch. pose proof (Z.mul_div_le (last_clock t0 adds - t0) (rw_interval rw) ltac:(lia)).
  generalize dependent ((last_clock t0 adds - t0) / rw_interval rw). intros. lia.
Qed.

Lemma RollingWindow_Reduce_window_witness :
  exists rw : RollingWindow Bucket,
    NewRollingWindow (T:=Z) 3 10 [] 0 = Some rw /\
    RollingWindow_Reduce (fun b s => s + bkt_Sum b) 41
      (rw_run [(1, 1, 100); (12, 13, 7); (25, 25, 5); (26, 26, 6); (38, 39, 1)] rw) 0 = 12.
Proof.
  eexists. split; [reflexivity|].
  rewrite (RollingWindow_Reduce_window Z Bucket Z 3 10 0 41 false _
    [(1, 1, 100); (12, 13, 7); (25, 25, 5); (26, 26, 6); (38, 39, 1)]
    (fun b s => s + bkt_Sum b) 0); [reflexivity|lia|reflexivity| |].
  - cbn. repeat split; lia.
  - cbn. lia.
Defined.
