(* ===== verification/Float64.v ===== *)
(** * Go [float64]

    IEEE 754 binary64 with round to nearest even, through the executable reference
    semantics of the Standard Library ([SpecFloat]): 53 bits of precision, maximal
    exponent 1024.  The comparisons are those of Go: false on NaN. *)

From S2P Require Import Prelude.
From Stdlib Require Export SpecFloat.

Notation float64 := spec_float.

(** Conversion of an integer, and of [m * 2^e]. *)
Definition f64_scaled (m e : Z) : float64 := binary_normalize 53 1024 m e false.
Definition f64_of_Z (z : Z) : float64 := f64_scaled z 0.

Definition f64_add : float64 -> float64 -> float64 := SFadd 53 1024.
Definition f64_sub : float64 -> float64 -> float64 := SFsub 53 1024.
Definition f64_mul : float64 -> float64 -> float64 := SFmul 53 1024.
Definition f64_div : float64 -> float64 -> float64 := SFdiv 53 1024.
Definition f64_lt : float64 -> float64 -> bool := SFltb.
Definition f64_le : float64 -> float64 -> bool := SFleb.

(** [mathx.AtLeast] at [float64]. *)
Definition f64_AtLeast (x lower : float64) : float64 := if f64_lt x lower then lower else x.

(** The 64 random bits of [mathx] turned into a number of [0, 1):
    [float64(u) / float64(1<<64)]. *)
Definition f64_unit (u : Z) : float64 := f64_div (f64_of_Z u) (f64_scaled 1 64).

(** [mathx.Proba.TrueOnProba]; [None] is a failure of [rand.Read]. *)
Definition Proba_TrueOnProba (rnd : option Z) (proba : float64) : bool :=
  match rnd with
  | None => false
  | Some u => f64_lt (f64_unit u) proba
  end.

(** ** Facts

    Rounding keeps moderate numbers finite, and integers below [2^53] are exact. *)

Lemma digits2_pos_log (p : positive) : Zpos (digits2_pos p) = Z.log2 (Zpos p) + 1.
Proof.
  induction p as [p IH|p IH|]; cbn [digits2_pos]; [| |done].
  - rewrite Pos2Z.inj_succ, IH, Pos2Z.inj_xI, Z.log2_succ_double by lia. lia.
  - rewrite Pos2Z.inj_succ, IH, Pos2Z.inj_xO, Z.log2_double by lia. lia.
Qed.

Lemma Zdigits2_bound (m D : Z) : 0 <= D -> 0 <= m < 2^D -> 0 <= Zdigits2 m <= D.
Proof.
  intros HD [H0 H1]. destruct m as [|p|p]; cbn [Zdigits2]; [lia| |lia].
  rewrite digits2_pos_log. assert (Z.log2 (Zpos p) < D) by (apply Z.log2_lt_pow2; lia).
  pose proof (Z.log2_nonneg (Zpos p)). lia.
Qed.

Lemma shr_1_bound (r : shr_record) : 0 <= shr_m r -> 0 <= shr_m (shr_1 r) <= shr_m r.
Proof. destruct r as [[|[p|p|]|[p|p|]] b s]; cbn; lia. Qed.

Lemma shr_iter_bound (p : positive) : forall r, 0 <= shr_m r -> 0 <= shr_m (iter_pos shr_1 p r) <= shr_m r.
Proof.
  induction p as [p IH|p IH|]; intros r Hr; cbn [iter_pos]; [| |by apply shr_1_bound].
  - pose proof (shr_1_bound r Hr). pose proof (IH (shr_1 r)). pose proof (IH (iter_pos shr_1 p (shr_1 r))). lia.
  - pose proof (IH r Hr). pose proof (IH (iter_pos shr_1 p r)). lia.
Qed.

Lemma shr_fexp_bound (m e D : Z) l :
  53 <= D -> 0 <= m < 2^D -> -1074 <= e ->
  0 <= shr_m (shr_fexp 53 1024 m e l).1 <= m /\ e <= (shr_fexp 53 1024 m e l).2 <= e + (D - 53).
Proof.
  intros HD Hm He. pose proof (Zdigits2_bound m D ltac:(lia) Hm) as Hd.
  assert (Hr : shr_m (shr_record_of_loc m l) = m) by (by destruct l as [|[]]).
  unfold shr_fexp, fexp, emin, shr. cbn [Z.sub] in *.
  destruct (_ - e) as [|p|p] eqn:E; cbn [fst snd]; rewrite ?Hr; try lia.
  pose proof (shr_iter_bound p (shr_record_of_loc m l)) as H. rewrite Hr in H. lia.
Qed.

Lemma round_even_bound (m : Z) l : 0 <= m -> m <= round_nearest_even m l <= m + 1.
Proof. intros Hm. destruct l as [|[]]; cbn; try lia. destruct (Z.even m); lia. Qed.

(** A number with at most [D] bits of mantissa stays finite. *)
Definition f64_within (D lo hi : Z) (x : float64) : Prop :=
  match x with
  | S754_zero _ => True
  | S754_finite _ m e => Zpos m <= 2^D /\ lo <= e <= hi
  | _ => False
  end.

Lemma binary_round_aux_within s m e l D :
  53 <= D -> 0 <= m < 2^D -> -1074 <= e -> e + 2 * D <= 900 ->
  f64_within D e (e + 2 * (D - 53) + 1) (binary_round_aux 53 1024 s m e l).
Proof.
  intros HD Hm He Hhi. unfold binary_round_aux.
  pose proof (shr_fexp_bound m e D l HD Hm He) as [H1 H2].
  destruct (shr_fexp 53 1024 m e l) as [r1 e1]. cbn [fst snd] in *.
  pose proof (round_even_bound (shr_m r1) (loc_of_shr_record r1) ltac:(lia)) as Hr.
  set (m2 := round_nearest_even _ _) in *.
  pose proof (shr_fexp_bound m2 e1 (D + 1) loc_Exact ltac:(lia)) as H3.
  rewrite Z.pow_add_r in H3 by lia. specialize (H3 ltac:(lia) ltac:(lia)) as [H3 H4].
  destruct (shr_fexp 53 1024 m2 e1 loc_Exact) as [r2 e2]. cbn [fst snd] in *.
  destruct (shr_m r2) as [|p|p]; cbn [f64_within]; [done| |lia].
  destruct (Z.leb_spec e2 (1024 - 53)); cbn [f64_within]; lia.
Qed.

Lemma iter_xO (m d : positive) : Zpos (Pos.iter xO m d) = Zpos m * 2^(Zpos d).
Proof.
  revert m. induction d as [|d IH] using Pos.peano_ind; intros m; [cbn; lia|].
  rewrite Pos.iter_succ, Pos2Z.inj_xO, IH, Pos2Z.inj_succ, Z.pow_succ_r by lia. lia.
Qed.

(** An integer below [2^53] is represented exactly, with a mantissa of 53 bits. *)
Lemma f64_of_pos (p : positive) :
  Zpos p < 2^53 ->
  exists m, f64_of_Z (Zpos p) = S754_finite false m (Z.log2 (Zpos p) - 52) /\
    Zpos m = Zpos p * 2^(52 - Z.log2 (Zpos p)) /\ 2^52 <= Zpos m < 2^53.
Proof.
  intros Hp. pose proof (Z.log2_spec (Zpos p) ltac:(lia)) as [Hlo Hhi].
  assert (Hlog : 0 <= Z.log2 (Zpos p) <= 52).
  { split; [apply Z.log2_nonneg|]. enough (Z.log2 (Zpos p) < 53) by lia. apply Z.log2_lt_pow2; lia. }
  set (g := Z.log2 (Zpos p)) in *.
  assert (Hm : exists m, shl_align p 0 (fexp 53 1024 (Zpos (digits2_pos p) + 0)) = (m, g - 52) /\
    Zpos m = Zpos p * 2^(52 - g)).
  { rewrite digits2_pos_log. fold g. unfold fexp, emin, shl_align.
    replace (Z.max (g + 1 + 0 - 53) (3 - 1024 - 53) - 0) with (g - 52) by lia.
    replace (Z.max (g + 1 + 0 - 53) (3 - 1024 - 53)) with (g - 52) by lia.
    destruct (g - 52) as [|q|q] eqn:E; [|lia|].
    - exists p. replace (52 - g) with 0 by lia. split; [done|lia].
    - eexists. split; [done|]. rewrite iter_xO. f_equal. f_equal. lia. }
  destruct Hm as (m & Hm & Em). exists m.
  assert (Hb : 2^52 <= Zpos m < 2^53).
  { rewrite Em. assert (E1 : 2^52 = 2^g * 2^(52 - g)) by (rewrite <- Z.pow_add_r by lia; f_equal; lia).
    assert (E2 : 2^53 = 2^(Z.succ g) * 2^(52 - g)) by (rewrite <- Z.pow_add_r by lia; f_equal; lia).
    assert (0 < 2^(52 - g)) by (apply Z.pow_pos_nonneg; lia). rewrite E1, E2. nia. }
  split; [|by split]. unfold f64_of_Z, f64_scaled. cbn [binary_normalize]. unfold binary_round. rewrite Hm.
  assert (Hd : Zdigits2 (Zpos m) = 53).
  { cbn [Zdigits2]. rewrite digits2_pos_log. rewrite (Z.log2_unique (Zpos m) 52); lia. }
  assert (Hs : shr_fexp 53 1024 (Zpos m) (g - 52) loc_Exact = (Build_shr_record (Zpos m) false false, g - 52)).
  { unfold shr_fexp. rewrite Hd. unfold fexp, emin.
    replace (Z.max (53 + (g - 52) - 53) (3 - 1024 - 53) - (g - 52)) with 0 by lia. done. }
  unfold binary_round_aux. rewrite Hs. cbn [shr_m loc_of_shr_record round_nearest_even]. rewrite Hs. cbn [shr_m].
  destruct (Z.leb_spec (g - 52) (1024 - 53)); [done|lia].
Qed.

(** Comparing such integers compares the numbers. *)
Lemma f64_le_of_Z (a b : Z) : 0 <= a < 2^53 -> 0 <= b < 2^53 -> f64_le (f64_of_Z a) (f64_of_Z b) = (a <=? b).
Proof.
  intros Ha Hb. destruct a as [|a|a]; [|destruct b as [|b|b]; [| |lia]|lia].
  { destruct b as [|b|b]; [done| |lia]. destruct (f64_of_pos b) as (mb & -> & _); [lia|]. done. }
  { destruct (f64_of_pos a) as (ma & -> & _); [lia|]. done. }
  destruct (f64_of_pos a) as (ma & -> & Ea & Ra); [lia|]. destruct (f64_of_pos b) as (mb & -> & Eb & Rb); [lia|].
  pose proof (Z.log2_spec (Zpos a) ltac:(lia)). pose proof (Z.log2_spec (Zpos b) ltac:(lia)).
  pose proof (Z.log2_nonneg (Zpos a)). pose proof (Z.log2_nonneg (Zpos b)).
  unfold f64_le, SFleb. cbn [SFcompare].
  destruct (Z.compare_spec (Z.log2 (Zpos a) - 52) (Z.log2 (Zpos b) - 52)) as [E|E|E].
  - assert (El : Z.log2 (Zpos a) = Z.log2 (Zpos b)) by lia. rewrite El in Ea.
    assert (Hpow : 0 < 2^(52 - Z.log2 (Zpos b))) by (apply Z.pow_pos_nonneg; [lia|]; assert (Z.log2 (Zpos b) < 53) by (apply Z.log2_lt_pow2; lia); lia).
    change (Pos.compare_cont Eq ma mb) with (Pos.compare ma mb). rewrite Pos2Z.inj_compare, Ea, Eb.
    destruct (Z.leb_spec (Zpos a) (Zpos b)).
    + destruct (Z.compare_spec (Zpos a * 2^(52 - Z.log2 (Zpos b))) (Zpos b * 2^(52 - Z.log2 (Zpos b)))); [done..|nia].
    + destruct (Z.compare_spec (Zpos a * 2^(52 - Z.log2 (Zpos b))) (Zpos b * 2^(52 - Z.log2 (Zpos b)))); [nia..|done].
  - symmetry. apply Z.leb_le. assert (2^(Z.succ (Z.log2 (Zpos a))) <= 2^(Z.log2 (Zpos b))) by (apply Z.pow_le_mono_r; lia). lia.
  - symmetry. apply Z.leb_gt. assert (2^(Z.succ (Z.log2 (Zpos b))) <= 2^(Z.log2 (Zpos a))) by (apply Z.pow_le_mono_r; lia). lia.
Qed.

Lemma f64_div_within (a b : Z) :
  0 < a < 2^53 -> 0 < b < 2^53 -> f64_within 55 (-106) 10 (f64_div (f64_of_Z a) (f64_of_Z b)).
Proof.
  intros Ha Hb. destruct a as [|a|a]; [lia| |lia]. destruct b as [|b|b]; [lia| |lia].
  destruct (f64_of_pos a) as (ma & -> & _ & Ra); [lia|]. destruct (f64_of_pos b) as (mb & -> & _ & Rb); [lia|].
  assert (Hl : forall p, Zpos p < 2^53 -> 0 <= Z.log2 (Zpos p) <= 52).
  { intros p Hp. split; [apply Z.log2_nonneg|]. enough (Z.log2 (Zpos p) < 53) by lia. apply Z.log2_lt_pow2; lia. }
  pose proof (Hl a ltac:(lia)) as La. pose proof (Hl b ltac:(lia)) as Lb.
  set (k := Z.log2 (Zpos a) - Z.log2 (Zpos b)).
  assert (Hd : forall m, 2^52 <= Zpos m < 2^53 -> Zdigits2 (Zpos m) = 53).
  { intros m Hm. cbn [Zdigits2]. rewrite digits2_pos_log. rewrite (Z.log2_unique (Zpos m) 52); lia. }
  unfold f64_div, SFdiv, SFdiv_core_binary. rewrite !Hd by done. unfold fexp, emin.
  replace (Z.min (Z.max (53 + (Z.log2 (Zpos a) - 52) - (53 + (Z.log2 (Zpos b) - 52)) - 53) (3 - 1024 - 53))
    (Z.log2 (Zpos a) - 52 - (Z.log2 (Zpos b) - 52))) with (k - 53) by lia.
  replace (Z.log2 (Zpos a) - 52 - (Z.log2 (Zpos b) - 52) - (k - 53)) with 53 by lia.
  rewrite Z.shiftl_mul_pow2 by lia.
  pose proof (Z_div_mod (Zpos ma * 2^53) (Zpos mb) ltac:(lia)) as Hq.
  destruct (Z.div_eucl (Zpos ma * 2^53) (Zpos mb)) as [q r]. destruct Hq as [Eq Hr].
  assert (0 <= q < 2^55) by nia.
  pose proof (binary_round_aux_within (xorb false false) q (k - 53) (new_location (Zpos mb) r) 55
    ltac:(lia) ltac:(lia) ltac:(lia) ltac:(lia)) as H1.
  destruct (binary_round_aux _ _ _ _ _ _); cbn in *; lia.
Qed.

Definition f64_finite (x : float64) : Prop :=
  match x with S754_zero _ | S754_finite _ _ _ => True | _ => False end.

Lemma shl_align_value (m : positive) (e e' : Z) : e' <= e -> Zpos (shl_align m e e').1 = Zpos m * 2^(e - e').
Proof.
  intros He. unfold shl_align. destruct (e' - e) as [|d|d] eqn:E; cbn [fst]; [|lia|].
  - replace (e - e') with 0 by lia. lia.
  - rewrite iter_xO. do 2 f_equal. lia.
Qed.

Lemma binary_normalize_finite (m e : Z) :
  Z.abs m < 2^180 -> -1074 <= e <= 10 -> f64_finite (binary_normalize 53 1024 m e false).
Proof.
  intros Hm He.
  assert (Hround : forall s p, Zpos p < 2^180 -> f64_finite (binary_round 53 1024 s p e)).
  { intros s p Hp. unfold binary_round. set (e' := fexp 53 1024 (Zpos (digits2_pos p) + e)).
    assert (He' : -1074 <= e') by (unfold e', fexp, emin; lia).
    assert (Hz : 0 <= Zpos (shl_align p e e').1 < 2^180 /\ -1074 <= (shl_align p e e').2 <= 10).
    { destruct (decide (e' <= e)) as [Hle|Hle].
      - rewrite shl_align_value by done. split.
        + split; [lia|]. assert (Zpos p < 2^(Zpos (digits2_pos p))).
          { rewrite digits2_pos_log. pose proof (Z.log2_spec (Zpos p) ltac:(lia)) as [_ Hl]. by replace (Z.log2 (Zpos p) + 1) with (Z.succ (Z.log2 (Zpos p))) by lia. }
          assert (0 <= e - e' <= Z.max 0 (53 - Zpos (digits2_pos p))) by (unfold e', fexp, emin in *; lia).
          destruct (decide (Zpos (digits2_pos p) <= 53)).
          * assert (2^(e - e') <= 2^(53 - Zpos (digits2_pos p))) by (apply Z.pow_le_mono_r; lia).
            assert (E53 : 2^53 = 2^(Zpos (digits2_pos p)) * 2^(53 - Zpos (digits2_pos p)))
              by (rewrite <- Z.pow_add_r by lia; f_equal; lia).
            assert (0 < 2^(e - e')) by (apply Z.pow_pos_nonneg; lia).
            assert (2^53 < 2^180) by (apply Z.pow_lt_mono_r; lia). nia.
          * replace (e - e') with 0 by lia. lia.
        + unfold shl_align. destruct (e' - e) eqn:E; cbn [snd]; lia.
      - unfold shl_align. destruct (e' - e) eqn:E; cbn [fst snd]; lia. }
    destruct (shl_align p e e') as [mz ez]. cbn [fst snd] in Hz.
    pose proof (binary_round_aux_within s (Zpos mz) ez loc_Exact 180 ltac:(lia) ltac:(lia) ltac:(lia) ltac:(lia)) as H.
    by destruct (binary_round_aux _ _ _ _ _ _). }
  destruct m as [|p|p]; cbn [binary_normalize]; [done|apply Hround; lia|apply Hround; lia].
Qed.

(** [1 - x] does not overflow. *)
Lemma f64_one_minus_finite (x : float64) : f64_within 55 (-106) 10 x -> f64_finite (f64_sub (f64_of_Z 1) x).
Proof.
  intros Hx. destruct (f64_of_pos 1) as (m1 & E1 & _ & R1); [lia|]. change (f64_of_Z 1) with (f64_of_Z (Zpos 1)). rewrite E1.
  destruct x as [s|s| |s m e]; cbn [f64_within] in Hx; [done|done|done|].
  unfold f64_sub. cbn [SFsub]. change (Z.log2 1 - 52) with (-52).
  apply binary_normalize_finite; [|lia]. rewrite !shl_align_value by lia.
  assert (P1 : 0 < 2^(-52 - Z.min (-52) e) <= 2^54) by (split; [apply Z.pow_pos_nonneg; lia|apply Z.pow_le_mono_r; lia]).
  assert (P2 : 0 < 2^(e - Z.min (-52) e) <= 2^62) by (split; [apply Z.pow_pos_nonneg; lia|apply Z.pow_le_mono_r; lia]).
  assert (2^55 * 2^62 + 2^53 * 2^54 < 2^180) by (vm_compute; reflexivity).
  destruct s; cbn [cond_Zopp]; nia.
Qed.
