(* ===== verification/Breaker.v ===== *)
(** * infra/breaker: the adaptive circuit breaker

    [googleBreaker] (googlebreaker.go, bucket.go) throttles on the success ratio of a
    rolling window; [loggedThrottle] and [circuitBreaker] (breaker.go) wrap it with an
    error window.  The registry of breakers.go is not modelled.  Clock readings and
    random draws are inputs.  A request is what it returns: a panic or an error. *)

From S2P Require Import Prelude Interfaces Float64 RollingWindow.

(** ** Errors *)

Inductive berror := ErrServiceUnavailable | ErrOther (msg : string).

#[export] Instance berror_eq_dec : EqDecision berror.
Proof. solve_decision. Defined.

Definition berror_Error (e : berror) : string :=
  match e with ErrServiceUnavailable => "circuit breaker is open" | ErrOther m => m end.

(** ** bucket.go *)

Definition mark_success : Z := 0.
Definition mark_fail : Z := 1.
Definition mark_drop : Z := 2.

Record bucket : Type := mk_bucket {
  b_Sum : Z; b_Success : Z; b_Failure : Z; b_Drop : Z
}.

#[export] Instance eta_bucket : Eta bucket := fun b =>
  mk_bucket (b_Sum b) (b_Success b) (b_Failure b) (b_Drop b).

Definition bucket_drop (b : bucket) : bucket :=
  b <| b_Sum := b_Sum b + 1 |> <| b_Drop := b_Drop b + 1 |>.
Definition bucket_fail (b : bucket) : bucket :=
  b <| b_Sum := b_Sum b + 1 |> <| b_Failure := b_Failure b + 1 |>.
Definition bucket_succeed (b : bucket) : bucket :=
  b <| b_Sum := b_Sum b + 1 |> <| b_Success := b_Success b + 1 |>.

Definition bucket_add (v : Z) (b : bucket) : bucket :=
  if v =? mark_fail then bucket_fail b
  else if v =? mark_drop then bucket_drop b
  else bucket_succeed b.

Definition bucket_reset (b : bucket) : bucket :=
  b <| b_Sum := 0 |> <| b_Success := 0 |> <| b_Failure := 0 |> <| b_Drop := 0 |>.

#[export] Instance breaker_bucket_iface : BucketInterface Z bucket := {
  newBucket := mk_bucket 0 0 0 0;
  bucket_Add := bucket_add;
  bucket_Reset := bucket_reset
}.

#[export] Instance breaker_bucket_laws : BucketLaws Z bucket.
Proof. done. Qed.

(** ** googlebreaker.go *)

Definition breaker_window : Z := 10 * 10^9.      (* 10s in nanoseconds *)
Definition breaker_buckets : Z := 40.
Definition forcePassDuration : Z := 10^9.        (* 1s *)
Definition breaker_k : float64 := f64_scaled 3 (-1).                        (* 1.5 *)
Definition breaker_minK : float64 := f64_scaled 4953959590107546 (-52).     (* 1.1 *)
Definition protection : Z := 5.

Record googleBreaker : Type := mk_googleBreaker {
  gb_k : float64;
  gb_stat : RollingWindow bucket;
  gb_lastPass : Z;
  gb_manualOpen : bool
}.

#[export] Instance eta_googleBreaker : Eta googleBreaker := fun b =>
  mk_googleBreaker (gb_k b) (gb_stat b) (gb_lastPass b) (gb_manualOpen b).

Record windowResult : Type := mk_windowResult {
  wr_accepts : Z; wr_total : Z; wr_failingBuckets : Z; wr_workingBuckets : Z
}.

#[export] Instance eta_windowResult : Eta windowResult := fun r =>
  mk_windowResult (wr_accepts r) (wr_total r) (wr_failingBuckets r) (wr_workingBuckets r).

Definition newGoogleBreaker (now : Z) : option googleBreaker :=
  let bucketDuration := Z.quot breaker_window breaker_buckets in
  st ← NewRollingWindow (T:=Z) breaker_buckets bucketDuration [] now;
  Some (mk_googleBreaker breaker_k st 0 false).

Definition history_step (b : bucket) (r : windowResult) : windowResult :=
  let r := r <| wr_accepts := wr_accepts r + b_Success b |> in
  let r := r <| wr_total := wr_total r + b_Sum b |> in
  let r := if 0 <? b_Failure b
           then r <| wr_failingBuckets := wr_failingBuckets r + 1 |> else r in
  if 0 <? b_Success b then r <| wr_workingBuckets := wr_workingBuckets r + 1 |> else r.

Definition googleBreaker_history (now : Z) (b : googleBreaker) : windowResult :=
  RollingWindow_Reduce history_step now (gb_stat b) (mk_windowResult 0 0 0 0).

(** The readings [accept] makes: the clock for the history, for [timex.Since] and for
    [lastPass.Set], and the random draw. *)
Record accept_env : Type := mk_env {
  env_history : Z; env_since : Z; env_set : Z; env_rnd : option Z
}.

Definition drop_ratio (k : float64) (h : windowResult) : float64 :=
  let weightFactor :=
    f64_sub k (f64_div (f64_mul (f64_sub k breaker_minK) (f64_of_Z (wr_failingBuckets h)))
                       (f64_of_Z breaker_buckets)) in
  let weightedAccepts := f64_mul (f64_AtLeast weightFactor breaker_minK) (f64_of_Z (wr_accepts h)) in
  f64_div (f64_sub (f64_of_Z (wr_total h - protection)) weightedAccepts)
          (f64_of_Z (wr_total h + 1)).

Definition googleBreaker_accept (env : accept_env) (b : googleBreaker) : option berror * googleBreaker :=
  if gb_manualOpen b then (Some ErrServiceUnavailable, b)
  else
    let history := googleBreaker_history (env_history env) b in
    let dropRatio := drop_ratio (gb_k b) history in
    if f64_le dropRatio (f64_of_Z 0) then (None, b)
    else
      let lastPass := gb_lastPass b in
      if (0 <? lastPass) && (forcePassDuration <? env_since env - lastPass)
      then (None, b <| gb_lastPass := env_set env |>)
      else
        let dropRatio :=
          f64_mul dropRatio (f64_div (f64_of_Z (breaker_buckets - wr_workingBuckets history))
                                     (f64_of_Z breaker_buckets)) in
        if Proba_TrueOnProba (env_rnd env) dropRatio
        then (Some ErrServiceUnavailable, b)
        else (None, b <| gb_lastPass := env_set env |>).

(** The two clock readings of [stat.Add]. *)
Definition googleBreaker_mark (clk : Z * Z) (v : Z) (b : googleBreaker) : googleBreaker :=
  b <| gb_stat := RollingWindow_Add clk.1 clk.2 v (gb_stat b) |>.

Definition markDrop (clk : Z * Z) := googleBreaker_mark clk mark_drop.
Definition markFailure (clk : Z * Z) := googleBreaker_mark clk mark_fail.
Definition markSuccess (clk : Z * Z) := googleBreaker_mark clk mark_success.

(** [allow]: on success a promise, to be settled later with [Accept] or [Reject]. *)
Definition googleBreaker_allow (env : accept_env) (clk : Z * Z) (b : googleBreaker)
  : (bool * option berror) * googleBreaker :=
  match googleBreaker_accept env b with
  | (Some err, b) => ((false, Some err), markDrop clk b)
  | (None, b) => ((true, None), b)
  end.

Definition googlePromise_Accept := markSuccess.
Definition googlePromise_Reject := markFailure.

Definition googleBreaker_IsOpen (env : accept_env) (b : googleBreaker) : bool * googleBreaker :=
  let '(err, b) := googleBreaker_accept env b in
  (match err with Some _ => true | None => false end, b).

Definition googleBreaker_ForceOpen (b : googleBreaker) : googleBreaker := b <| gb_manualOpen := true |>.
Definition googleBreaker_ForceClose (b : googleBreaker) : googleBreaker := b <| gb_manualOpen := false |>.

(** What running a request does: it panics or returns an error (or nil). *)
Inductive req_outcome := ReqPanic | ReqReturn (err : option berror).

(** What the caller observes: a panic propagates. *)
Inductive call_result := CallPanic | CallReturn (err : option berror).

(** [doReq]; [acceptable] threads a state [S] because the wrapper's closure records
    errors.  The boolean of the result says whether [req] was run. *)
Definition googleBreaker_doReq {S} (env : accept_env) (clk : Z * Z) (req : req_outcome)
  (fallback : option (berror -> option berror))
  (acceptable : option berror -> S -> bool * S) (s : S) (b : googleBreaker)
  : (bool * call_result) * S * googleBreaker :=
  match googleBreaker_accept env b with
  | (Some err, b) =>
      let b := markDrop clk b in
      ((false, CallReturn (match fallback with Some f => f err | None => Some err end)), s, b)
  | (None, b) =>
      match req with
      | ReqPanic => ((true, CallPanic), s, markFailure clk b)
      | ReqReturn err =>
          let '(succ, s) := acceptable err s in
          ((true, CallReturn err), s, if succ then markSuccess clk b else markFailure clk b)
      end
  end.

(** ** breaker.go: the error window *)

Definition numHistoryReasons : nat := 5.

Record errorWindow : Type := mk_errorWindow {
  ew_reasons : list string; ew_index : nat; ew_count : nat
}.

#[export] Instance eta_errorWindow : Eta errorWindow := fun e =>
  mk_errorWindow (ew_reasons e) (ew_index e) (ew_count e).

Definition newErrorWindow : errorWindow :=
  mk_errorWindow (replicate numHistoryReasons EmptyString) 0 0.

(** [stamp] is [time.Now().Format(time.TimeOnly)]. *)
Definition errorWindow_add (stamp reason : string) (ew : errorWindow) : errorWindow :=
  let ew := ew <| ew_reasons := <[ew_index ew := (stamp +:+ " " +:+ reason)%string]> (ew_reasons ew) |> in
  let ew := ew <| ew_index := ((ew_index ew + 1) mod numHistoryReasons)%nat |> in
  ew <| ew_count := (ew_count ew + 1) `min` numHistoryReasons |>%nat.

(** The loop [for i := index-1; i >= index-count; i--], [n] iterations left. *)
Fixpoint errorWindow_collect (ew : errorWindow) (i : Z) (n : nat) : list string :=
  match n with
  | O => []
  | S n =>
      let k := Z.rem (i + Z.of_nat numHistoryReasons) (Z.of_nat numHistoryReasons) in
      default EmptyString (ew_reasons ew !! Z.to_nat k) :: errorWindow_collect ew (i - 1) n
  end.

Definition newline : string := String (Ascii.ascii_of_nat 10) EmptyString.

Definition errorWindow_String (ew : errorWindow) : string :=
  String.concat newline (errorWindow_collect ew (Z.of_nat (ew_index ew) - 1) (ew_count ew)).

(** ** breaker.go: the logged throttle *)

(** [lt_reports] records what [stat.Report] was given: the rendered error window. *)
Record loggedThrottle : Type := mk_loggedThrottle {
  lt_name : string; lt_gb : googleBreaker; lt_errWin : errorWindow; lt_reports : list string
}.

#[export] Instance eta_loggedThrottle : Eta loggedThrottle := fun t =>
  mk_loggedThrottle (lt_name t) (lt_gb t) (lt_errWin t) (lt_reports t).

Definition newLoggedThrottle (name : string) (gb : googleBreaker) : loggedThrottle :=
  mk_loggedThrottle name gb newErrorWindow [].

Definition loggedThrottle_logError (err : option berror) (lt : loggedThrottle) : loggedThrottle :=
  match err with
  | Some ErrServiceUnavailable =>
      lt <| lt_reports := lt_reports lt ++ [errorWindow_String (lt_errWin lt)] |>
  | _ => lt
  end.

Definition loggedThrottle_allow (env : accept_env) (clk : Z * Z) (lt : loggedThrottle)
  : (bool * option berror) * loggedThrottle :=
  let '((promise, err), gb) := googleBreaker_allow env clk (lt_gb lt) in
  ((promise, err), loggedThrottle_logError err (lt <| lt_gb := gb |>)).

Definition promiseWithReason_Accept (clk : Z * Z) (lt : loggedThrottle) : loggedThrottle :=
  lt <| lt_gb := googlePromise_Accept clk (lt_gb lt) |>.

Definition promiseWithReason_Reject (clk : Z * Z) (stamp reason : string) (lt : loggedThrottle)
  : loggedThrottle :=
  let lt := lt <| lt_errWin := errorWindow_add stamp reason (lt_errWin lt) |> in
  lt <| lt_gb := googlePromise_Reject clk (lt_gb lt) |>.

Definition loggedThrottle_doReq (env : accept_env) (clk : Z * Z) (stamp : string) (req : req_outcome)
  (fallback : option (berror -> option berror)) (acceptable : option berror -> bool)
  (lt : loggedThrottle) : call_result * loggedThrottle :=
  let wrapped err ew :=
    let accept := acceptable err in
    (accept, match err with
             | Some e => if negb accept then errorWindow_add stamp (berror_Error e) ew else ew
             | None => ew
             end) in
  let '(ran, res, ew, gb) := googleBreaker_doReq env clk req fallback wrapped (lt_errWin lt) (lt_gb lt) in
  let lt := lt <| lt_gb := gb |> <| lt_errWin := ew |> in
  match res with
  | CallPanic => (CallPanic, lt)
  | CallReturn err => (CallReturn err, loggedThrottle_logError err lt)
  end.

(** ** breaker.go: the public breaker *)

Definition defaultAcceptable (err : option berror) : bool :=
  match err with None => true | Some _ => false end.

Section circuit.
Variables (env : accept_env) (clk : Z * Z) (stamp : string).

Definition circuitBreaker_Allow := loggedThrottle_allow env clk.

(** [ctxErr] is [ctx.Err()] when the context is done. *)
Definition circuitBreaker_AllowCtx (ctxErr : option berror) (cb : loggedThrottle)
  : (bool * option berror) * loggedThrottle :=
  match ctxErr with
  | Some e => ((false, Some e), cb)
  | None => circuitBreaker_Allow cb
  end.

Definition circuitBreaker_Do (req : req_outcome) :=
  loggedThrottle_doReq env clk stamp req None defaultAcceptable.
Definition circuitBreaker_DoWithAcceptable (req : req_outcome) acceptable :=
  loggedThrottle_doReq env clk stamp req None acceptable.
Definition circuitBreaker_DoWithFallback (req : req_outcome) fallback :=
  loggedThrottle_doReq env clk stamp req (Some fallback) defaultAcceptable.
Definition circuitBreaker_DoWithFallbackAcceptable (req : req_outcome) fallback acceptable :=
  loggedThrottle_doReq env clk stamp req (Some fallback) acceptable.

(** The [...Ctx] variants: a done context returns its error and runs nothing. *)
Definition when_not_done (ctxErr : option berror)
  (m : loggedThrottle -> call_result * loggedThrottle) (cb : loggedThrottle)
  : call_result * loggedThrottle :=
  match ctxErr with
  | Some e => (CallReturn (Some e), cb)
  | None => m cb
  end.

Definition circuitBreaker_DoCtx ctxErr req := when_not_done ctxErr (circuitBreaker_Do req).
Definition circuitBreaker_DoWithAcceptableCtx ctxErr req acceptable :=
  when_not_done ctxErr (circuitBreaker_DoWithAcceptable req acceptable).
Definition circuitBreaker_DoWithFallbackCtx ctxErr req fallback :=
  when_not_done ctxErr (circuitBreaker_DoWithFallback req fallback).
Definition circuitBreaker_DoWithFallbackAcceptableCtx ctxErr req fallback acceptable :=
  when_not_done ctxErr (circuitBreaker_DoWithFallbackAcceptable req fallback acceptable).

Definition circuitBreaker_IsOpen (cb : loggedThrottle) : bool * loggedThrottle :=
  let '(open, gb) := googleBreaker_IsOpen env (lt_gb cb) in (open, cb <| lt_gb := gb |>).
Definition circuitBreaker_ForceOpen (cb : loggedThrottle) : loggedThrottle :=
  cb <| lt_gb := googleBreaker_ForceOpen (lt_gb cb) |>.
Definition circuitBreaker_ForceClose (cb : loggedThrottle) : loggedThrottle :=
  cb <| lt_gb := googleBreaker_ForceClose (lt_gb cb) |>.

End circuit.

(** [NewBreaker(WithName(name))]; [rand_name] is [stringx.Rand()]. *)
Definition NewBreaker (name rand_name : string) (now : Z) : option loggedThrottle :=
  gb ← newGoogleBreaker now;
  Some (newLoggedThrottle (if decide (name = EmptyString) then rand_name else name) gb).

(** ** Invariants *)

Definition bucket_wf (b : bucket) : Prop :=
  0 <= b_Success b /\ 0 <= b_Failure b /\ 0 <= b_Drop b /\
  b_Sum b = b_Success b + b_Failure b + b_Drop b.

Definition gb_wf (b : googleBreaker) : Prop :=
  Forall bucket_wf (w_buckets (rw_win (gb_stat b))).

Lemma bucket_add_wf (v : Z) (b : bucket) : bucket_wf b -> bucket_wf (bucket_add v b).
Proof.
  unfold bucket_wf, bucket_add. intros.
  repeat case_match; cbn; lia.
Qed.

Lemma Forall_alter_list {A} (P : A -> Prop) (f : A -> A) (l : list A) (i : nat) :
  Forall P l -> (forall x, P x -> P (f x)) -> Forall P (alter f i l).
Proof. intros Hl Hf. apply Forall_alter; eauto. Qed.

Lemma window_reset_wf (w : window bucket) (ks : list nat) (g : nat -> nat) :
  Forall bucket_wf (w_buckets w) ->
  Forall bucket_wf (w_buckets (foldl (fun w i => window_resetBucket (T:=Z) (g i) w) w ks)).
Proof.
  revert w. induction ks as [|k ks IH]; intros w Hw; cbn; [done|].
  apply IH. cbn. apply Forall_alter_list; [done|]. intros b _. unfold bucket_wf. cbn. lia.
Qed.

Lemma googleBreaker_mark_wf (clk : Z * Z) (v : Z) (b : googleBreaker) :
  gb_wf b -> gb_wf (googleBreaker_mark clk v b).
Proof.
  unfold gb_wf. intros Hb. cbn. unfold RollingWindow_updateOffset.
  case_decide; cbn; (apply Forall_alter_list; [|intros; by apply bucket_add_wf]);
    [done|by apply (window_reset_wf _ _ (fun i => ((_ + i + 1) mod _)%nat))].
Qed.

(** The counts of any history of well-formed buckets. *)
Definition wr_wf (r : windowResult) : Prop :=
  0 <= wr_accepts r <= wr_total r /\ 0 <= wr_failingBuckets r <= wr_total r.

Lemma history_step_wf (b : bucket) (r : windowResult) :
  bucket_wf b -> wr_wf r -> wr_wf (history_step b r).
Proof.
  unfold bucket_wf, wr_wf, history_step. intros (?&?&?&?) [??].
  cbn. destruct (Z.ltb_spec 0 (b_Failure b)), (Z.ltb_spec 0 (b_Success b)); cbn; lia.
Qed.

Lemma window_reduce_wf (start count : nat) (w : window bucket) (r : windowResult) :
  Forall bucket_wf (w_buckets w) -> wr_wf r -> wr_wf (window_reduce start count history_step w r).
Proof.
  intros Hw. unfold window_reduce. generalize (seq 0 count). intros ks. revert r.
  induction ks as [|k ks IH]; intros r Hr; cbn -[Nat.modulo]; [done|].
  apply IH. case_match eqn:E; [|done]. apply history_step_wf; [|done].
  rewrite Forall_lookup in Hw. by eapply Hw.
Qed.

Lemma googleBreaker_history_wf (now : Z) (b : googleBreaker) :
  gb_wf b -> wr_wf (googleBreaker_history now b).
Proof.
  intros Hb. unfold googleBreaker_history, RollingWindow_Reduce.
  assert (H0 : wr_wf (mk_windowResult 0 0 0 0)) by (unfold wr_wf; cbn; lia).
  repeat case_decide; try done; by apply window_reduce_wf.
Qed.

Lemma googleBreaker_accept_stat (env : accept_env) (b : googleBreaker) :
  gb_stat (googleBreaker_accept env b).2 = gb_stat b /\
  gb_manualOpen (googleBreaker_accept env b).2 = gb_manualOpen b /\
  gb_k (googleBreaker_accept env b).2 = gb_k b.
Proof. unfold googleBreaker_accept. repeat case_match; done. Qed.

(** ** Reachable breakers *)

(** One use of the breaker by one client. *)
Inductive breaker_event :=
| EvDoReq (env : accept_env) (clk : Z * Z) (req : req_outcome)
    (fallback : option (berror -> option berror)) (acceptable : option berror -> bool)
| EvAllow (env : accept_env) (clk : Z * Z)
| EvSettle (clk : Z * Z) (ok : bool)
| EvIsOpen (env : accept_env)
| EvForce (open : bool).

Definition breaker_step (e : breaker_event) (b : googleBreaker) : googleBreaker :=
  match e with
  | EvDoReq env clk req fb acc =>
      (googleBreaker_doReq env clk req fb (fun err (u : unit) => (acc err, u)) tt b).2
  | EvAllow env clk => (googleBreaker_allow env clk b).2
  | EvSettle clk ok => if ok then googlePromise_Accept clk b else googlePromise_Reject clk b
  | EvIsOpen env => (googleBreaker_IsOpen env b).2
  | EvForce open => if open then googleBreaker_ForceOpen b else googleBreaker_ForceClose b
  end.

Inductive breaker_reachable : googleBreaker -> Prop :=
| breaker_init now b : newGoogleBreaker now = Some b -> breaker_reachable b
| breaker_next e b : breaker_reachable b -> breaker_reachable (breaker_step e b).

Lemma accept_gb_wf (env : accept_env) (b : googleBreaker) :
  gb_wf b -> gb_wf (googleBreaker_accept env b).2.
Proof. unfold gb_wf. by destruct (googleBreaker_accept_stat env b) as [-> _]. Qed.

Lemma breaker_reachable_inv (b : googleBreaker) :
  breaker_reachable b -> gb_wf b /\ gb_k b = breaker_k.
Proof.
  induction 1 as [now b Hb|e b _ [Hw Hk]].
  - unfold newGoogleBreaker in Hb. cbn -[f64_scaled breaker_k] in Hb. injection Hb as <-.
    split; [|done]. unfold gb_wf. cbn. repeat constructor; cbn; lia.
  - assert (Hacc : forall env r, googleBreaker_accept env b = r -> gb_wf r.2 /\ gb_k r.2 = breaker_k).
    { intros env r <-. split; [by apply accept_gb_wf|].
      destruct (googleBreaker_accept_stat env b) as (_ & _ & ->). done. }
    destruct e; cbn; unfold googleBreaker_doReq, googleBreaker_allow, googleBreaker_IsOpen;
      repeat case_match; simplify_eq/=;
      repeat match goal with H : googleBreaker_accept _ _ = _ |- _ => apply Hacc in H as [??] end;
      try (split; [apply googleBreaker_mark_wf|]); done.
Qed.

(** The throttling formula at every history of at most [protection] requests:
    finitely many, evaluated. *)
Lemma drop_ratio_protected (h : windowResult) :
  wr_wf h -> wr_total h <= protection -> f64_le (drop_ratio breaker_k h) (f64_of_Z 0) = true.
Proof.
  intros [Ha Hf] Ht. unfold protection in Ht.
  set (fits := fun t a f => f64_le (drop_ratio breaker_k (mk_windowResult a t f 0)) (f64_of_Z 0)).
  assert (Hall : forallb (fun t => forallb (fun a => forallb (fun f => fits t a f) (seqZ 0 6))
    (seqZ 0 6)) (seqZ 0 6) = true) by (vm_compute; reflexivity).
  rewrite forallb_forall in Hall.
  specialize (Hall (wr_total h)). rewrite <- list_elem_of_In, elem_of_seqZ in Hall.
  specialize (Hall ltac:(lia)). rewrite forallb_forall in Hall.
  specialize (Hall (wr_accepts h)). rewrite <- list_elem_of_In, elem_of_seqZ in Hall.
  specialize (Hall ltac:(lia)). rewrite forallb_forall in Hall.
  specialize (Hall (wr_failingBuckets h)). rewrite <- list_elem_of_In, elem_of_seqZ in Hall.
  specialize (Hall ltac:(lia)). exact Hall.
Qed.

(** ** The error window as the list of the entries added to it *)

Definition ew_rep (ew : errorWindow) (es : list string) : Prop :=
  length (ew_reasons ew) = 5%nat /\ ew_index ew = (length es mod 5)%nat /\
  ew_count ew = (length es `min` 5)%nat /\
  forall j, (length es - 5 <= j < length es)%nat -> ew_reasons ew !! (j mod 5)%nat = es !! j.

Lemma errorWindow_add_rep (stamp reason : string) (ew : errorWindow) (es : list string) :
  ew_rep ew es -> ew_rep (errorWindow_add stamp reason ew) (es ++ [(stamp +:+ " " +:+ reason)%string]).
Proof.
  intros (Hl & Hi & Hc & He). unfold ew_rep, errorWindow_add. cbn -[Nat.modulo Nat.min String.append].
  rewrite length_insert, length_app. cbn -[Nat.modulo Nat.min String.append].
  split; [done|]. unfold numHistoryReasons.
  split; [rewrite Hi; mod_lia|]. split; [rewrite Hc; lia|].
  intros j Hj. rewrite Hi. destruct (decide (j = length es)) as [->|].
  - rewrite list_lookup_insert_eq by (rewrite Hl; mod_lia). by rewrite list_lookup_middle.
  - rewrite list_lookup_insert_ne by mod_lia. rewrite lookup_app_l by lia. apply He. lia.
Qed.

Lemma errorWindow_collect_rep (ew : errorWindow) (es : list string) (m n : nat) :
  ew_rep ew es -> (m + n <= length es `min` 5)%nat ->
  errorWindow_collect ew (Z.of_nat (ew_index ew) - 1 - Z.of_nat m) n = take n (drop m (reverse es)).
Proof.
  intros Hrep. pose proof Hrep as (Hl & Hi & Hc & He).
  revert m. induction n as [|n IH]; intros m Hm; cbn -[Z.rem]; [done|].
  replace (Z.of_nat (ew_index ew) - 1 - Z.of_nat m - 1)
    with (Z.of_nat (ew_index ew) - 1 - Z.of_nat (S m)) by lia.
  rewrite IH by lia.
  assert (Hx : reverse es !! m = es !! (length es - S m)%nat).
  { rewrite reverse_lookup by lia. done. }
  destruct (lookup_lt_is_Some_2 es (length es - S m)%nat) as [x Ex]; [lia|].
  rewrite Ex in Hx. rewrite (drop_S _ _ _ Hx). cbn [take]. f_equal.
  change (Z.of_nat numHistoryReasons) with 5. rewrite Z.rem_mod_nonneg by lia.
  replace (Z.to_nat ((Z.of_nat (ew_index ew) - 1 - Z.of_nat m + 5) mod 5))
    with ((length es - S m) mod 5)%nat by (rewrite Hi; mod_lia).
  rewrite He by lia. by rewrite Ex.
Qed.

(** ** Results *)

(** Below the protection threshold the breaker never rejects: in every reachable
    state that is not manually opened, if the window counts at most five requests,
    [accept] returns nil whatever the random draw and the share of failures. *)
Theorem breaker_protection (b : googleBreaker) (env : accept_env)
  (Hreach : breaker_reachable b) (Hman : gb_manualOpen b = false)
  (Hfew : wr_total (googleBreaker_history (env_history env) b) <= protection) :
  googleBreaker_accept env b = (None, b).
Proof.
  apply breaker_reachable_inv in Hreach as [Hw Hk].
  unfold googleBreaker_accept. rewrite Hman, Hk.
  rewrite drop_ratio_protected; [done| |done]. by apply googleBreaker_history_wf.
Qed.

(** Three failures within one interval, a state used by the witnesses. *)
Definition three_failures : googleBreaker :=
  foldl (fun b e => breaker_step e b) (default (mk_googleBreaker breaker_k
      (mkRollingWindow 0 (mkWindow [] 0) 0 0 false 0) 0 false) (newGoogleBreaker 0))
    [EvSettle (10, 10) false; EvSettle (20, 20) false; EvSettle (30, 30) false].

Lemma breaker_protection_witness :
  breaker_reachable three_failures /\
  wr_total (googleBreaker_history 40 three_failures) = 3 /\
  googleBreaker_accept (mk_env 40 41 42 (Some 0)) three_failures = (None, three_failures).
Proof.
  assert (Hr : breaker_reachable three_failures).
  { unfold three_failures. cbn [foldl]. do 3 apply breaker_next.
    apply (breaker_init 0). reflexivity. }
  split; [exact Hr|]. split; [vm_compute; reflexivity|].
  apply (breaker_protection three_failures (mk_env 40 41 42 (Some 0)) Hr);
    [reflexivity|vm_compute; discriminate].
Defined.

(** An open breaker keeps probing: once a throttled request was let through at
    time [gb_lastPass > 0], every request that comes more than one second later is
    accepted, whatever the history and the random draw (unless the breaker was
    opened by hand), and it renews the probe time if the ratio still asks to drop. *)
Theorem breaker_forced_pass (b : googleBreaker) (env : accept_env)
  (Hman : gb_manualOpen b = false) (Hpass : 0 < gb_lastPass b)
  (Hlate : forcePassDuration < env_since env - gb_lastPass b) :
  (googleBreaker_accept env b).1 = None /\
  (f64_le (drop_ratio (gb_k b) (googleBreaker_history (env_history env) b)) (f64_of_Z 0) = false ->
   gb_lastPass (googleBreaker_accept env b).2 = env_set env).
Proof.
  unfold googleBreaker_accept. rewrite Hman.
  destruct (f64_le _ _); cbn zeta; [done|].
  rewrite (proj2 (Z.ltb_lt _ _) Hpass), (proj2 (Z.ltb_lt _ _) Hlate). done.
Qed.

Lemma breaker_forced_pass_witness :
  (googleBreaker_accept (mk_env 40 2000000042 2000000043 (Some 0))
    (three_failures <| gb_lastPass := 41 |>)).1 = None.
Proof.
  apply (breaker_forced_pass (three_failures <| gb_lastPass := 41 |>)
    (mk_env 40 2000000042 2000000043 (Some 0))); [reflexivity|reflexivity|vm_compute; reflexivity].
Defined.

(** [doReq] accounts for every request exactly once.  When the breaker rejects,
    the request is not run, the caller gets the fallback's answer (or
    ErrServiceUnavailable without a fallback) and one drop is recorded; otherwise the
    request is run, its panic or error reaches the caller unchanged and exactly one
    mark is recorded: a success when [acceptable] says so, a failure when it does not
    or when the request panicked. *)
Theorem doReq_marks_once (t0 cur : Z) (b : googleBreaker) (log : list (Z * Z))
  (env : accept_env) (clk : Z * Z) (req : req_outcome)
  (fallback : option (berror -> option berror)) (acceptable : option berror -> bool)
  (Hrep : rw_rep (T:=Z) t0 (gb_stat b) log cur)
  (Hclk1 : rw_lastTime (gb_stat b) <= clk.1) (Hclk2 : rw_lastTime (gb_stat b) <= clk.2)
  (Hclk : epoch t0 (rw_interval (gb_stat b)) clk.1 = epoch t0 (rw_interval (gb_stat b)) clk.2) :
  let '((ran, res), _, b') :=
    googleBreaker_doReq env clk req fallback (fun err (u : unit) => (acceptable err, u)) tt b in
  let i := epoch t0 (rw_interval (gb_stat b)) clk.1 in
  let spec :=
    match (googleBreaker_accept env b).1, req with
    | Some err, _ => (false, CallReturn (from_option (fun f => f err) (Some err) fallback), mark_drop)
    | None, ReqPanic => (true, CallPanic, mark_fail)
    | None, ReqReturn err => (true, CallReturn err, if acceptable err then mark_success else mark_fail)
    end in
  (ran, res) = spec.1 /\ rw_rep t0 (gb_stat b') (log ++ [(i, spec.2)]) i.
Proof.
  assert (Hmark : forall b' m, gb_stat b' = gb_stat b ->
    rw_rep t0 (gb_stat (googleBreaker_mark clk m b'))
      (log ++ [(epoch t0 (rw_interval (gb_stat b)) clk.1, m)]) (epoch t0 (rw_interval (gb_stat b)) clk.1)).
  { intros b' m E. cbn [googleBreaker_mark upd gb_stat]. rewrite E.
    by apply (RollingWindow_Add_rep t0 clk.1 clk.2 cur). }
  destruct (googleBreaker_accept_stat env b) as [Hst _].
  unfold googleBreaker_doReq. destruct (googleBreaker_accept env b) as [[err|] b1] eqn:Ha; cbn in Hst |- *.
  - split; [by destruct fallback|]. by apply Hmark.
  - destruct req as [|err]; [by split; [|apply Hmark]|].
    destruct (acceptable err); (split; [done|by apply Hmark]).
Qed.

Lemma doReq_marks_once_witness :
  exists b, newGoogleBreaker 0 = Some b /\
  let '((ran, res), _, b') := googleBreaker_doReq (mk_env 1 2 3 None) (5, 6) ReqPanic None
    (fun err (u : unit) => (true, u)) tt b in
  (ran, res) = (true, CallPanic) /\ rw_rep (T:=Z) 0 (gb_stat b') [(0, mark_fail)] 0.
Proof.
  destruct (newGoogleBreaker 0) as [b|] eqn:Hb; [|discriminate].
  exists b. split; [reflexivity|]. injection Hb as <-.
  match goal with |- context [googleBreaker_doReq _ _ _ _ _ _ ?b] =>
    pose proof (doReq_marks_once 0 0 b [] (mk_env 1 2 3 None) (5, 6) ReqPanic None (fun _ => true)) as H;
    assert (Hacc : (googleBreaker_accept (mk_env 1 2 3 None) b).1 = None)
      by (vm_compute; reflexivity)
  end.
  rewrite Hacc in H. apply H; [|vm_compute; discriminate..|reflexivity].
  apply (NewRollingWindow_rep (T:=Z) 40 250000000 0 false); [lia|reflexivity].
Defined.

(** The error window reports the reasons of the last five failures, newest first,
    each prefixed by its time stamp, and fewer while fewer were recorded. *)
Theorem errorWindow_reports_last_five (adds : list (string * string)) :
  errorWindow_String (foldl (fun ew a => errorWindow_add a.1 a.2 ew) newErrorWindow adds) =
  String.concat newline
    (take 5 (reverse ((fun a => (a.1 +:+ " " +:+ a.2)%string) <$> adds))).
Proof.
  set (ew := foldl _ _ _). set (es := _ <$> adds).
  assert (Hrep : ew_rep ew es).
  { subst ew es. assert (Hg : forall ew0 es0, ew_rep ew0 es0 ->
      ew_rep (foldl (fun ew a => errorWindow_add a.1 a.2 ew) ew0 adds)
        (es0 ++ ((fun a => (a.1 +:+ " " +:+ a.2)%string) <$> adds))).
    { induction adds as [|a adds IH]; intros ew0 es0 H0; cbn [foldl fmap list_fmap].
      - by rewrite app_nil_r.
      - rewrite cons_middle, app_assoc. apply IH. by apply errorWindow_add_rep. }
    apply (Hg newErrorWindow []). repeat split; cbn; lia. }
  unfold errorWindow_String. f_equal.
  pose proof (errorWindow_collect_rep ew es 0 (ew_count ew) Hrep) as Hc.
  destruct Hrep as (_ & _ & Hcnt & _). rewrite Hcnt in Hc |- *.
  rewrite Z.sub_0_r in Hc. rewrite Hc by lia. rewrite drop_0.
  destruct (decide (length es <= 5)%nat).
  - rewrite Nat.min_l by done. rewrite !take_ge; rewrite ?length_reverse; done || lia.
  - by rewrite Nat.min_r by lia.
Qed.

(** [ForceClose] only clears the manual switch: there is a reachable breaker that
    still rejects a request right after [ForceClose], because the window still asks
    to drop.  (The interface documents it as forcing the breaker to accept all
    requests.) *)
Theorem ForceClose_may_still_reject :
  exists b env, breaker_reachable b /\ gb_manualOpen b = true /\
    (googleBreaker_accept env (googleBreaker_ForceClose b)).1 = Some ErrServiceUnavailable.
Proof.
  pose (b0 := foldl (fun b e => breaker_step e b) three_failures
    [EvSettle (40, 40) false; EvSettle (50, 50) false; EvSettle (60, 60) false;
     EvSettle (70, 70) false; EvSettle (80, 80) false; EvForce true]).
  exists b0, (mk_env 90 91 92 (Some 0)). split; [|split; [reflexivity|vm_compute; reflexivity]].
  subst b0. unfold three_failures. cbn [foldl]. do 9 apply breaker_next.
  apply (breaker_init 0). reflexivity.
Qed.
