(* ===== verification/Shedder.v ===== *)
(** * Load shedding (infra/load/adaptiveshedder.go)

    The shedder refuses requests while the processor is overloaded, or was within the last
    second, and more requests are in flight than the service has lately been able to serve.
    The processor's usage and the clock are inputs: [reading] has them in the order in which
    a call reads them. *)

From S2P Require Import Prelude RollingWindow Float64.
#[local] Open Scope Z_scope.

(** [mathx.Between] at [float64] *)
Definition f64_Between (x lower upper : float64) : float64 := if f64_lt x lower then lower else if f64_lt upper x then upper else x.

(** The integer part and the rest of a number below its unit, and what [math.Round] and
    [math.Ceil] make of them. *)
Definition f64_integral (up : bool -> Z -> Z -> Z -> Z) (x : float64) : float64 :=
  match x with
  | S754_finite s m e =>
      if 0 <=? e then x
      else let q := up s (Zpos m / 2 ^ (- e)) (Zpos m mod 2 ^ (- e)) (2 ^ (- e)) in if q =? 0 then S754_zero s else f64_of_Z (if s then - q else q)
  | _ => x
  end.
Definition math_Round : float64 -> float64 := f64_integral (fun _ q r d => if d <=? 2 * r then q + 1 else q).
Definition math_Ceil : float64 -> float64 := f64_integral (fun s q r _ => if negb s && (0 <? r) then q + 1 else q).

(** [int64(v)] of a number in the range. *)
Definition f64_trunc (x : float64) : Z :=
  match x with S754_finite s m e => let a := if 0 <=? e then Zpos m * 2 ^ e else Zpos m / 2 ^ (- e) in if s then - a else a | _ => 0 end.

(** ** The shedder *)

Definition second : Z := 10 ^ 9.
Definition millisecond : Z := 10 ^ 6.
Definition coolOffDuration : Z := second.
Definition cpuMax : Z := 1000.
Definition flyingBeta : float64 := f64_div (f64_of_Z 9) (f64_of_Z 10).
Definition one_minus_beta : float64 := f64_div (f64_of_Z 1) (f64_of_Z 10).
Definition overloadFactorLowerBound : float64 := f64_div (f64_of_Z 1) (f64_of_Z 10).
Definition defaultMinRt : float64 := f64_of_Z 1000.

Record shedderOptions : Type := mkShedderOptions { so_window : Z; so_buckets : Z; so_cpuThreshold : Z }.
Definition default_options : shedderOptions := mkShedderOptions (5 * second) 50 900.
Definition WithBuckets (buckets : Z) (o : shedderOptions) : shedderOptions := mkShedderOptions (so_window o) buckets (so_cpuThreshold o).
Definition WithCpuThreshold (threshold : Z) (o : shedderOptions) : shedderOptions := mkShedderOptions (so_window o) (so_buckets o) threshold.
Definition WithWindow (window : Z) (o : shedderOptions) : shedderOptions := mkShedderOptions window (so_buckets o) (so_cpuThreshold o).

Record adaptiveShedder : Type := mkShedder {
  cpuThreshold : Z; windowScale : float64; flying : Z; avgFlying : float64; overloadTime : Z; droppedRecently : bool;
  passCounter : RollingWindow Bucket; rtCounter : RollingWindow Bucket }.
#[export] Instance eta_shedder : Eta adaptiveShedder := fun s =>
  mkShedder (cpuThreshold s) (windowScale s) (flying s) (avgFlying s) (overloadTime s) (droppedRecently s) (passCounter s) (rtCounter s).

(** [None]: the number of buckets is zero (a division) or negative (the window panics). *)
Definition NewAdaptiveShedder (opts : list (shedderOptions -> shedderOptions)) (now1 now2 : Z) : option adaptiveShedder :=
  let o := foldl (fun o opt => opt o) default_options opts in
  if so_buckets o =? 0 then None
  else
    let bucketDuration := Z.quot (so_window o) (so_buckets o) in
    pass ← NewRollingWindow (so_buckets o) bucketDuration [IgnoreCurrentBucket] now1;
    rt ← NewRollingWindow (so_buckets o) bucketDuration [IgnoreCurrentBucket] now2;
    Some (mkShedder (so_cpuThreshold o) (f64_div (f64_div (f64_of_Z second) (f64_of_Z bucketDuration)) (f64_of_Z 1000)) 0 (S754_zero false) 0 false pass rt).

Definition addFlying (delta : Z) (s : adaptiveShedder) : adaptiveShedder :=
  let s := s <| flying := wrap64 (flying s + delta) |> in
  if delta <? 0 then s <| avgFlying := f64_add (f64_mul (avgFlying s) flyingBeta) (f64_mul (f64_of_Z (flying s)) one_minus_beta) |> else s.

(** What a call reads: the processor's usage twice, the clock where it is read. *)
Record reading : Type := mkReading { cpu_check : Z; now_overload : Z; now_hot : Z; now_pass : Z; now_rt : Z; cpu_factor : Z; now_hot_log : Z; now_start : Z }.

Definition maxPass (now : Z) (s : adaptiveShedder) : Z := RollingWindow_Reduce (fun b result => if result <? bkt_Sum b then bkt_Sum b else result) now (passCounter s) 1.

Definition minRt (now : Z) (s : adaptiveShedder) : float64 :=
  RollingWindow_Reduce (fun b result => if bkt_Count b <=? 0 then result
    else let avg := math_Round (f64_div (f64_of_Z (bkt_Sum b)) (f64_of_Z (bkt_Count b))) in if f64_lt avg result then avg else result) now (rtCounter s) defaultMinRt.

Definition maxFlight (r : reading) (s : adaptiveShedder) : float64 :=
  f64_AtLeast (f64_mul (f64_mul (f64_of_Z (maxPass (now_pass r) s)) (minRt (now_rt r) s)) (windowScale s)) (f64_of_Z 1).

Definition overloadFactor (r : reading) (s : adaptiveShedder) : float64 :=
  f64_Between (f64_div (f64_sub (f64_of_Z cpuMax) (f64_of_Z (cpu_factor r))) (f64_sub (f64_of_Z cpuMax) (f64_of_Z (cpuThreshold s)))) overloadFactorLowerBound (f64_of_Z 1).

Definition highThru (r : reading) (s : adaptiveShedder) : bool :=
  let maxFlight := f64_mul (maxFlight r s) (overloadFactor r s) in f64_lt maxFlight (avgFlying s) && f64_lt maxFlight (f64_of_Z (flying s)).

Definition stillHot (now : Z) (s : adaptiveShedder) : bool * adaptiveShedder :=
  if negb (droppedRecently s) then (false, s)
  else if overloadTime s =? 0 then (false, s)
  else if now - overloadTime s <? coolOffDuration then (true, s)
  else (false, s <| droppedRecently := false |>).

Definition systemOverloaded (r : reading) (s : adaptiveShedder) : bool * adaptiveShedder :=
  if negb (cpuThreshold s <=? cpu_check r) then (false, s) else (true, s <| overloadTime := now_overload r |>).

(** The text of the report asks once more whether it is still hot. *)
Definition shouldDrop (r : reading) (s : adaptiveShedder) : bool * adaptiveShedder :=
  let '(over, s) := systemOverloaded r s in
  let '(hot, s) := if over then (true, s) else stillHot (now_hot r) s in
  if hot && highThru r s then (true, (stillHot (now_hot_log r) s).2) else (false, s).

(** [None] is [ErrServiceOverloaded], otherwise the start of the promise. *)
Definition Allow (r : reading) (s : adaptiveShedder) : option Z * adaptiveShedder :=
  let '(drop, s) := shouldDrop r s in
  if drop then (None, s <| droppedRecently := true |>) else (Some (now_start r), addFlying 1 s).

Definition Fail (s : adaptiveShedder) : adaptiveShedder := addFlying (-1) s.

(** The clock is read for the time taken and twice by each counter. *)
Definition Pass (start now : Z) (rt1 rt2 pass1 pass2 : Z) (s : adaptiveShedder) : adaptiveShedder :=
  let rt := f64_div (f64_of_Z (now - start)) (f64_of_Z millisecond) in
  let s := addFlying (-1) s in
  let s := s <| rtCounter := RollingWindow_Add rt1 rt2 (f64_trunc (math_Ceil rt)) (rtCounter s) |> in
  s <| passCounter := RollingWindow_Add pass1 pass2 1 (passCounter s) |>.

(** ** Properties *)

(** Not below zero, or not a number. *)
Definition f64_nonneg (x : float64) : bool := match x with S754_finite true _ _ | S754_infinity true => false | _ => true end.

Lemma round_nonneg m e l : f64_nonneg (binary_round_aux 53 1024 false m e l) = true.
Proof.
  unfold binary_round_aux. destruct (shr_fexp _ _ m e l) as [mrs' e']. destruct (shr_fexp _ _ (round_nearest_even (shr_m mrs') (loc_of_shr_record mrs')) e' loc_Exact) as [mrs'' e''].
  destruct (shr_m mrs''); [done| |done]. by destruct (_ <=? _).
Qed.
Lemma mul_nonneg x y : f64_nonneg x = true -> f64_nonneg y = true -> f64_nonneg (f64_mul x y) = true.
Proof.
  unfold f64_mul, SFmul. destruct x as [[]|[]| |[] m e], y as [[]|[]| |[] m' e']; try done. intros _ _. apply round_nonneg.
Qed.
Lemma lt_zero x : f64_nonneg x = true -> f64_lt x (S754_zero false) = false.
Proof. by destruct x as [[]|[]| |[] m e]. Qed.

Lemma lt_neg x y : f64_nonneg x = false -> f64_nonneg y = true -> y <> S754_nan -> f64_lt x y = true.
Proof. by destruct x as [[]|[]| |[] m e], y as [[]|[]| |[] m' e']. Qed.

Lemma AtLeast_nonneg x l : f64_nonneg l = true -> l <> S754_nan -> f64_nonneg (f64_AtLeast x l) = true.
Proof. intros H N. unfold f64_AtLeast. destruct (f64_lt x l) eqn:E; [done|]. destruct (f64_nonneg x) eqn:P; [done|]. by rewrite lt_neg in E. Qed.

Lemma highThru_idle r s : flying s = 0 -> highThru r s = false.
Proof.
  intros F. unfold highThru. rewrite F. change (f64_of_Z 0) with (S754_zero false). rewrite (lt_zero (f64_mul _ _)); [apply andb_false_r|]. apply mul_nonneg.
  - apply AtLeast_nonneg; [reflexivity|discriminate].
  - unfold overloadFactor, f64_Between. destruct (f64_lt _ overloadFactorLowerBound) eqn:E; [reflexivity|]. destruct (f64_lt (f64_of_Z 1) _); [reflexivity|].
    destruct (f64_nonneg _) eqn:P; [done|]. rewrite lt_neg in E; [discriminate|done|reflexivity|discriminate].
Qed.

(** A request is refused only under load: if some request is in flight, and if the processor
    is at the threshold now or a request was refused lately and the processor was at the
    threshold less than a second ago.  So an idle service takes every request, and so does any
    service a second after the processor has recovered. *)
Theorem shedding_needs_load (r : reading) (s : adaptiveShedder) :
  (Allow r s).1 = None -> flying s <> 0 /\ (cpuThreshold s <= cpu_check r \/ (droppedRecently s = true /\ overloadTime s <> 0 /\ now_hot r - overloadTime s < coolOffDuration)).
Proof.
  unfold Allow, shouldDrop. destruct (systemOverloaded r s) as [over s1] eqn:O. intros H. assert (X : flying s1 = flying s /\ (over = true -> cpuThreshold s <= cpu_check r) /\ (over = false -> s1 = s)).
  { unfold systemOverloaded in O. destruct (Z.leb_spec (cpuThreshold s) (cpu_check r)); cbn in O; injection O as <- <-; split_and!; done. }
  destruct X as (X1 & X2 & X3). destruct over.
  - split; [|left; auto]. intros F. cbn [andb] in H. rewrite highThru_idle in H by congruence. done.
  - rewrite (X3 eq_refl) in *. unfold stillHot in H at 1. destruct (droppedRecently s) eqn:D; cbn [negb] in H; [|done].
    destruct (Z.eqb_spec (overloadTime s) 0); cbn in H; [done|]. destruct (Z.ltb_spec (now_hot r - overloadTime s) coolOffDuration); cbn in H; [|done].
    split; [|right; split_and!; done]. intros F. by rewrite highThru_idle in H.
Qed.

(** A shedder of a service with twenty requests in flight, of which the average was ten. *)
Definition busy : adaptiveShedder :=
  mkShedder 900 (f64_div (f64_of_Z 1) (f64_of_Z 1000)) 20 (f64_of_Z 10) 0 false
    (default (mkRollingWindow 1 (newWindow 1) 1 0 true 0) (NewRollingWindow 50 (second / 10) [IgnoreCurrentBucket] 0))
    (default (mkRollingWindow 1 (newWindow 1) 1 0 true 0) (NewRollingWindow 50 (second / 10) [IgnoreCurrentBucket] 0)).
Definition overload : reading := mkReading 950 7 8 8 8 950 8 9.

Lemma shedding_needs_load_witness : (Allow overload busy).1 = None /\ (flying busy <> 0 /\ (cpuThreshold busy <= cpu_check overload \/ (droppedRecently busy = true /\ overloadTime busy <> 0 /\ now_hot overload - overloadTime busy < coolOffDuration))).
Proof. assert (E : (Allow overload busy).1 = None) by (vm_compute; reflexivity). split; [exact E|exact (shedding_needs_load overload busy E)]. Defined.

(** *** Requests in flight *)

Inductive shed_event : Type := EAllow (r : reading) | EPass (start now rt1 rt2 pass1 pass2 : Z) | EFail.

Definition shed_step (st : adaptiveShedder * Z) (e : shed_event) : adaptiveShedder * Z :=
  let '(s, promises) := st in
  match e with
  | EAllow r => let '(p, s) := Allow r s in (s, if bool_decide (is_Some p) then promises + 1 else promises)
  | EPass start now a b c d => (Pass start now a b c d s, promises - 1)
  | EFail => (Fail s, promises - 1)
  end.

Lemma addFlying_flying d s : flying (addFlying d s) = wrap64 (flying s + d).
Proof. unfold addFlying. by destruct (d <? 0). Qed.

(** The counter is the number of promises that were given and not settled. *)
Lemma flying_counts (es : list shed_event) s : let st := foldl shed_step (s, flying s) es in flying s = wrap64 (flying s) -> flying st.1 = wrap64 st.2.
Proof.
  assert (G : forall es s p, flying s = wrap64 p -> let st := foldl shed_step (s, p) es in flying st.1 = wrap64 st.2).
  { clear. induction es as [|e es IH]; intros s p H; cbn -[wrap64]; [done|]. assert (W : forall z, wrap64 (wrap64 p + z) = wrap64 (p + z)).
    { intros z. unfold wrap64. replace ((p + 2 ^ 63) mod 2 ^ 64 - 2 ^ 63 + z + 2 ^ 63) with ((p + 2 ^ 63) mod 2 ^ 64 + z) by lia. rewrite Zplus_mod_idemp_l. f_equal. f_equal. lia. }
    destruct e as [r|start now a b c d|]; cbn -[wrap64 Allow Pass Fail].
    - destruct (Allow r s) as [q s'] eqn:E. assert (X : flying s' = if bool_decide (is_Some q) then wrap64 (p + 1) else wrap64 p).
      { unfold Allow in E. destruct (shouldDrop r s) as [drop s1] eqn:D. assert (F : flying s1 = flying s).
        { unfold shouldDrop, systemOverloaded, stillHot in D. repeat (case_match; simplify_eq; try done). }
        destruct drop; injection E as <- <-; [by rewrite <- H, <- F|]. rewrite addFlying_flying, F, H, W. done. }
      destruct (bool_decide (is_Some q)); by apply IH.
    - apply IH. transitivity (flying (addFlying (-1) s)); [reflexivity|]. by rewrite addFlying_flying, H, W.
    - apply IH. transitivity (flying (addFlying (-1) s)); [reflexivity|]. by rewrite addFlying_flying, H, W. }
  intros st H. by apply G.
Qed.

(** ** Statistics (infra/load/sheddingstat.go) *)

Record SheddingStat : Type := mkStat { st_total : Z; st_pass : Z; st_drop : Z }.
Definition IncrementTotal (s : SheddingStat) : SheddingStat := mkStat (wrap64 (st_total s + 1)) (st_pass s) (st_drop s).
Definition IncrementPass (s : SheddingStat) : SheddingStat := mkStat (st_total s) (wrap64 (st_pass s + 1)) (st_drop s).
Definition IncrementDrop (s : SheddingStat) : SheddingStat := mkStat (st_total s) (st_pass s) (wrap64 (st_drop s + 1)).
(** [reset]: the three counters are swapped one after the other. *)
Definition stat_reset (s : SheddingStat) : SheddingStat * SheddingStat := (s, mkStat 0 0 0).

Inductive stat_event : Type := STotal | SPass | SDrop | SReset.
Definition stat_step (st : SheddingStat * list SheddingStat) (e : stat_event) : SheddingStat * list SheddingStat :=
  match e with
  | STotal => (IncrementTotal st.1, st.2) | SPass => (IncrementPass st.1, st.2) | SDrop => (IncrementDrop st.1, st.2)
  | SReset => let '(snap, s) := stat_reset st.1 in (s, snap :: st.2)
  end.

Fixpoint drops (es : list stat_event) : Z := match es with [] => 0 | SDrop :: es => 1 + drops es | _ :: es => drops es end.

(** No count is lost between the snapshots: what they say and what is left add up to the calls. *)
Lemma stat_drops_counted (es : list stat_event) : Z.of_nat (length es) < 2 ^ 63 ->
  let '(s, snaps) := foldl stat_step (mkStat 0 0 0, []) es in st_drop s + foldr Z.add 0 (st_drop <$> snaps) = drops es.
Proof.
  intros H. assert (G : forall es s snaps, 0 <= st_drop s -> st_drop s + Z.of_nat (length es) < 2 ^ 63 ->
    let '(s', snaps') := foldl stat_step (s, snaps) es in st_drop s' + foldr Z.add 0 (st_drop <$> snaps') = st_drop s + foldr Z.add 0 (st_drop <$> snaps) + drops es).
  { clear. induction es as [|e es IH]; intros s snaps H0 H; cbn -[wrap64 Z.pow Z.of_nat]; [lia|]. cbn [length] in H.
    destruct e; [apply (IH (IncrementTotal s) snaps); cbn -[Z.pow]; lia|apply (IH (IncrementPass s) snaps); cbn -[Z.pow]; lia| |].
    - specialize (IH (IncrementDrop s) snaps). cbn -[wrap64 Z.pow Z.of_nat foldl] in IH. rewrite wrap64_small in IH by lia. specialize (IH ltac:(lia) ltac:(lia)). unfold IncrementDrop in IH.
      destruct (foldl stat_step _ es) as [s' snaps']. lia.
    - specialize (IH (mkStat 0 0 0) (s :: snaps) ltac:(cbn; lia) ltac:(cbn -[Z.pow]; lia)). cbn -[foldl]. destruct (foldl stat_step _ es) as [s' snaps']. cbn in IH. lia. }
  specialize (G es (mkStat 0 0 0) [] ltac:(cbn; lia) ltac:(cbn -[Z.pow]; lia)). destruct (foldl stat_step _ es) as [s' snaps']. cbn in G |- *. lia.
Qed.
