(* ===== verification/RateLimit.v ===== *)
(** * Rate limiting (server/middleware/rate_limit.go, limiter_sliding.go)

    A limiter is an object shared between requests: the store maps client keys to
    pointers, so limiters live in a heap ([rs_heap]) and the maps hold addresses.  Every
    clock reading is an argument, in nanoseconds since 1970; a handler that reads the clock
    several times takes the sequence [clk] of its readings.  A request enters (the
    handler up to [c.Next]) and, later, exits (what follows it).  The token bucket of
    golang.org/x/time/rate is a parameter, as it is a library; the Redis limiter is not
    modelled (the stores here have no Redis connection). *)

From S2P Require Import Prelude Float64.

(** ** The sliding window limiter *)

Record slidingWindowLimiter : Type := mkSliding {
  sl_prevHits : Z; sl_currHits : Z; sl_windowExp : Z; sl_max : Z; sl_expiration : Z
}.

#[export] Instance eta_sliding : Eta slidingWindowLimiter := fun l =>
  mkSliding (sl_prevHits l) (sl_currHits l) (sl_windowExp l) (sl_max l) (sl_expiration l).

Definition newSlidingWindowLimiter (max burst : Z) : slidingWindowLimiter :=
  let burst := if burst <=? 0 then max else burst in
  mkSliding 0 0 0 max burst.

(** [float64(l.prevHits)*(1-weight) + float64(l.currHits)] at second [now]. *)
Definition sl_rate (now : Z) (l : slidingWindowLimiter) : float64 :=
  let elapsed := sl_windowExp l - now in
  let weight := f64_div (f64_of_Z elapsed) (f64_of_Z (sl_expiration l)) in
  f64_add (f64_mul (f64_of_Z (sl_prevHits l)) (f64_sub (f64_of_Z 1) weight)) (f64_of_Z (sl_currHits l)).

(** The rotation of the window. *)
Definition sl_rotate (now : Z) (l : slidingWindowLimiter) : slidingWindowLimiter :=
  if sl_windowExp l <=? now then
    let elapsed := now - (sl_windowExp l - sl_expiration l) in
    if sl_expiration l <=? elapsed then
      l <| sl_prevHits := 0 |> <| sl_currHits := 0 |> <| sl_windowExp := now + sl_expiration l |>
    else
      l <| sl_prevHits := sl_currHits l |> <| sl_currHits := 0 |>
        <| sl_windowExp := sl_windowExp l + sl_expiration l |>
  else l.

(** [now] is in seconds. *)
Definition sl_Allow (now : Z) (l : slidingWindowLimiter) : bool * slidingWindowLimiter :=
  if sl_windowExp l =? 0 then
    (true, l <| sl_windowExp := now + sl_expiration l |> <| sl_currHits := 1 |>)
  else
    let l := sl_rotate now l in
    if f64_le (f64_of_Z (sl_max l)) (sl_rate now l) then (false, l)
    else (true, l <| sl_currHits := sl_currHits l + 1 |>).

(** [int(math.Ceil(x))]; the conversion of NaN and infinities is that of amd64. *)
Definition f64_ceil (x : float64) : Z :=
  match x with
  | S754_zero _ => 0
  | S754_finite s m e =>
      let v := if s then Zneg m else Zpos m in
      if 0 <=? e then v * 2^e else - ((- v) / 2^(- e))
  | _ => - 2^63
  end.

Definition sl_Remaining (now : Z) (l : slidingWindowLimiter) : Z :=
  if (sl_windowExp l =? 0) || (sl_windowExp l <=? now) then sl_max l
  else
    let remaining := sl_max l - f64_ceil (sl_rate now l) in
    if remaining <? 0 then 0 else remaining.

Definition sl_Cancel (l : slidingWindowLimiter) : slidingWindowLimiter :=
  if 0 <? sl_currHits l then l <| sl_currHits := sl_currHits l - 1 |> else l.

(** ** The store *)

Record RateLimitEntry : Type := mkRateLimitEntry {
  re_RequestsPerSecond : Z; re_Burst : Z; re_TTL : Z
}.

Inductive algorithm := SlidingWindow | TokenBucket.

Section store.
(** [xrate.Limiter]: its constructor, [Allow] and [int(Tokens())]. *)
Context {X : Type} (xNew : Z -> Z -> X) (xAllow : Z -> X -> bool * X) (xTokens : Z -> X -> Z).

Inductive limiter :=
| LSliding (l : slidingWindowLimiter)
| LBucket (x : X) (owed : Z).                          (* xrateLimiter *)

Definition seconds (now : Z) : Z := now / 10^9.

Definition limiter_Allow (now : Z) (l : limiter) : bool * limiter :=
  match l with
  | LSliding l => let '(ok, l) := sl_Allow (seconds now) l in (ok, LSliding l)
  | LBucket x owed =>
      if 0 <? owed then (true, LBucket x (owed - 1))
      else let '(ok, x) := xAllow now x in (ok, LBucket x owed)
  end.

Definition limiter_Remaining (now : Z) (l : limiter) : Z :=
  match l with
  | LSliding l => sl_Remaining (seconds now) l
  | LBucket x _ => Z.max 0 (xTokens now x)
  end.

Definition limiter_Cancel (l : limiter) : limiter :=
  match l with
  | LSliding l => LSliding (sl_Cancel l)
  | LBucket x owed => LBucket x (owed + 1)
  end.

Definition newLimiter (entry : RateLimitEntry) (alg : algorithm) : limiter :=
  match alg with
  | SlidingWindow => LSliding (newSlidingWindowLimiter (re_RequestsPerSecond entry) (re_Burst entry))
  | TokenBucket => LBucket (xNew (re_RequestsPerSecond entry) (re_Burst entry)) 0
  end.

(** [rateLimitEntryState]: a pointer to the limiter and its expiry. *)
Record entryState : Type := mkEntryState { es_limiter : nat; es_expiresAt : Z }.

Record rateLimiterStore : Type := mkStore {
  rs_global : option nat;
  rs_perIP : gmap string entryState; rs_perUser : gmap string entryState; rs_perKey : gmap string entryState;
  rs_alg : algorithm; rs_ttl : Z;
  rs_heap : gmap nat limiter; rs_next : nat
}.

#[local] Instance eta_store : Eta rateLimiterStore := fun s =>
  mkStore (rs_global s) (rs_perIP s) (rs_perUser s) (rs_perKey s) (rs_alg s) (rs_ttl s) (rs_heap s) (rs_next s).

Definition newRateLimiterStore (alg : algorithm) (ttl : Z) : rateLimiterStore :=
  mkStore None ∅ ∅ ∅ alg ttl ∅ 0.

Definition alloc (l : limiter) (s : rateLimiterStore) : nat * rateLimiterStore :=
  (rs_next s, s <| rs_heap := <[rs_next s := l]> (rs_heap s) |> <| rs_next := S (rs_next s) |>).

Definition live (now : Z) (es : entryState) : bool := negb ((0 <? es_expiresAt es) && (es_expiresAt es <=? now)).

Definition gc (now : Z) (s : rateLimiterStore) : rateLimiterStore :=
  let keep := filter (fun '(_, es) => live now es = true) in
  s <| rs_perIP := keep (rs_perIP s) |> <| rs_perUser := keep (rs_perUser s) |> <| rs_perKey := keep (rs_perKey s) |>.

(** The map a prefix selects. *)
Inductive table := TabIP | TabKey | TabUser.

Definition table_of (prefix : string) : table :=
  if String.eqb prefix "ip" then TabIP
  else if String.eqb prefix "key" || String.eqb prefix "entry_key" then TabKey
  else TabUser.

Definition get_table (t : table) (s : rateLimiterStore) : gmap string entryState :=
  match t with TabIP => rs_perIP s | TabKey => rs_perKey s | TabUser => rs_perUser s end.

Definition set_table (t : table) (m : gmap string entryState) (s : rateLimiterStore) : rateLimiterStore :=
  match t with
  | TabIP => s <| rs_perIP := m |>
  | TabKey => s <| rs_perKey := m |>
  | TabUser => s <| rs_perUser := m |>
  end.

Definition getOrCreateLimiter (now : Z) (prefix key : string) (entry : RateLimitEntry) (s : rateLimiterStore)
  : nat * rateLimiterStore :=
  let t := table_of prefix in
  let create s :=
    let '(a, s) := alloc (newLimiter entry (rs_alg s)) s in
    let ttl := if re_TTL entry <=? 0 then rs_ttl s else re_TTL entry in
    let expiresAt := if 0 <? ttl then now + ttl else 0 in
    (a, set_table t (<[key := mkEntryState a expiresAt]> (get_table t s)) s) in
  match get_table t s !! key with
  | Some es =>
      if (es_expiresAt es =? 0) || (now <? es_expiresAt es) then (es_limiter es, s)
      else create (set_table t (delete key (get_table t s)) s)
  | None => create s
  end.

(** [l.Allow()] and [l.Remaining()] through a pointer. *)
Definition allow_at (now : Z) (a : nat) (s : rateLimiterStore) : bool * rateLimiterStore :=
  match rs_heap s !! a with
  | Some l => let '(ok, l) := limiter_Allow now l in (ok, s <| rs_heap := <[a := l]> (rs_heap s) |>)
  | None => (true, s)
  end.

Definition remaining_at (now : Z) (a : nat) (s : rateLimiterStore) : Z :=
  match rs_heap s !! a with Some l => limiter_Remaining now l | None => 0 end.

(** ** RateLimit *)

Record RateLimitConfig : Type := mkRateLimitConfig {
  rc_Global : option RateLimitEntry; rc_PerIP : option RateLimitEntry;
  rc_Algorithm : option algorithm; rc_TTL : Z;
  rc_SkipFailed : bool; rc_SkipSuccessful : bool
}.

(** The middleware's store. *)
Definition RateLimit (cfg : RateLimitConfig) : rateLimiterStore :=
  let alg := default SlidingWindow (rc_Algorithm cfg) in
  let s := newRateLimiterStore alg (rc_TTL cfg) in
  match rc_Global cfg with
  | Some e =>
      if 0 <? re_RequestsPerSecond e then
        let '(a, s) := alloc (newLimiter e alg) s in s <| rs_global := Some a |>
      else s
  | None => s
  end.

(** 429 or [c.Next], with the limit and the remaining requests of the headers and the
    limiters to cancel. *)
Inductive decision := Blocked (limit remaining : Z) | Passed (limit remaining : Z) (used : list nat).

(** One limiter of the chain; [None] when it does not apply. *)
Definition check_limiter (now1 now2 : Z) (a : nat) (entry : RateLimitEntry) (d : decision) (s : rateLimiterStore)
  : decision * rateLimiterStore :=
  match d with
  | Blocked _ _ => (d, s)
  | Passed _ _ used =>
      let '(ok, s) := allow_at now1 a s in
      let r := remaining_at now2 a s in
      (if ok then Passed (re_RequestsPerSecond entry) r (used ++ [a]) else Blocked (re_RequestsPerSecond entry) r, s)
  end.

Definition RateLimit_enter (cfg : RateLimitConfig) (clk : nat -> Z) (ip : string) (s : rateLimiterStore)
  : decision * rateLimiterStore :=
  let d := Passed 0 0 [] in
  let '(d, s) := match rs_global s, rc_Global cfg with
                 | Some a, Some e => check_limiter (clk 0%nat) (clk 1%nat) a e d s
                 | _, _ => (d, s)
                 end in
  match d, rc_PerIP cfg with
  | Passed _ _ _, Some e =>
      if 0 <? re_RequestsPerSecond e then
        let '(a, s) := getOrCreateLimiter (clk 2%nat) "ip" ip e s in check_limiter (clk 3%nat) (clk 4%nat) a e d s
      else (d, s)
  | _, _ => (d, s)
  end.

Definition shouldSkipRequest (cfg : RateLimitConfig) (code : Z) : bool :=
  (rc_SkipFailed cfg && (400 <=? code)) || (rc_SkipSuccessful cfg && (code <? 400)).

Definition cancelUsed (used : list nat) (s : rateLimiterStore) : rateLimiterStore :=
  foldl (fun s a => s <| rs_heap := alter limiter_Cancel a (rs_heap s) |>) s used.

(** After [c.Next] returned [err] with the status [code]. *)
Definition RateLimit_exit (cfg : RateLimitConfig) (used : list nat) (err : bool) (code : Z) (s : rateLimiterStore)
  : rateLimiterStore :=
  if negb (bool_decide (used = [])) && negb err && shouldSkipRequest cfg code then cancelUsed used s else s.

(** ** RateLimitPost *)

Record RateLimitPostConfig : Type := mkPostConfig {
  pc_ServerPerUser : option RateLimitEntry; pc_ServerPerKey : option RateLimitEntry;
  pc_EntryPerUser : option RateLimitEntry; pc_EntryPerKey : option RateLimitEntry;
  pc_PerRoleLimits : gmap string RateLimitEntry
}.

(** What the handler reads of the request: user and key ids ("" for none), roles of the
    authenticated user and the value of [MaxFunc], when there is one. *)
Record request : Type := mkRequest {
  rq_user : string; rq_key : string; rq_roles : option (list string); rq_max : option Z
}.

Definition resolvePostEntry (entry : option RateLimitEntry) (rq : request) : option RateLimitEntry :=
  match entry, rq_max rq with
  | Some e, Some m => if 0 <? m then Some (mkRateLimitEntry m m (re_TTL e)) else Some e
  | _, _ => entry
  end.

(** Whether the request is blocked. *)
Definition checkPostLimitWithCancel (now1 now2 : Z) (entry : option RateLimitEntry) (prefix id : string) (rq : request)
    (s : rateLimiterStore) : bool * rateLimiterStore :=
  match resolvePostEntry entry rq with
  | None => (false, s)
  | Some e =>
      if re_RequestsPerSecond e <=? 0 then (false, s)
      else if String.eqb id "" then (false, s)
      else
        let '(a, s) := getOrCreateLimiter now1 prefix id e s in
        let '(ok, s) := allow_at now2 a s in (negb ok, s)
  end.

Fixpoint checkRoles (clk : nat -> Z) (limits : gmap string RateLimitEntry) (roles : list string) (s : rateLimiterStore)
  : bool * rateLimiterStore :=
  match roles with
  | [] => (false, s)
  | role :: roles =>
      match limits !! role with
      | Some e =>
          if 0 <? re_RequestsPerSecond e then
            let '(a, s) := getOrCreateLimiter (clk 0%nat) "role" role e s in
            let '(ok, s) := allow_at (clk 1%nat) a s in
            if ok then checkRoles (fun i => clk (2 + i)%nat) limits roles s else (true, s)
          else checkRoles clk limits roles s
      | None => checkRoles clk limits roles s
      end
  end.

Definition checkRoleLimitsWithCancel (clk : nat -> Z) (limits : gmap string RateLimitEntry) (rq : request) (s : rateLimiterStore)
  : bool * rateLimiterStore :=
  if bool_decide (limits = ∅) then (false, s)
  else match rq_roles rq with None => (false, s) | Some roles => checkRoles clk limits roles s end.

(** Checks in order, stopping at the first that blocks. *)
Fixpoint run_checks (cs : list (rateLimiterStore -> bool * rateLimiterStore)) (s : rateLimiterStore)
  : bool * rateLimiterStore :=
  match cs with
  | [] => (false, s)
  | c :: cs => match c s with (true, s) => (true, s) | (false, s) => run_checks cs s end
  end.

(** The readings 0 to 7 are those of the four checks of users and keys, the rest those of
    the roles. *)
Definition RateLimitPost (cfg : RateLimitPostConfig) (clk : nat -> Z) (rq : request) (s : rateLimiterStore)
  : bool * rateLimiterStore :=
  run_checks
    [checkPostLimitWithCancel (clk 0%nat) (clk 1%nat) (pc_ServerPerUser cfg) "user" (rq_user rq) rq;
     checkPostLimitWithCancel (clk 2%nat) (clk 3%nat) (pc_ServerPerKey cfg) "key" (rq_key rq) rq;
     checkRoleLimitsWithCancel (fun i => clk (8 + i)%nat) (pc_PerRoleLimits cfg) rq;
     checkPostLimitWithCancel (clk 4%nat) (clk 5%nat) (pc_EntryPerUser cfg) "entry_user" (rq_user rq) rq;
     checkPostLimitWithCancel (clk 6%nat) (clk 7%nat) (pc_EntryPerKey cfg) "entry_key" (rq_key rq) rq] s.

(** ** Facts about the store *)

Lemma get_set_table t m (s : rateLimiterStore) : get_table t (set_table t m s) = m.
Proof. by destruct t. Qed.

Lemma set_table_heap t m (s : rateLimiterStore) : rs_heap (set_table t m s) = rs_heap s.
Proof. by destruct t. Qed.

(** The limiter of a key depends on the table only: what was created or found once is
    found again until it expires, whatever the prefix and the limits asked for. *)
Lemma getOrCreate_again now1 now2 p1 p2 key e1 e2 (s : rateLimiterStore) :
  table_of p1 = table_of p2 -> now1 <= now2 ->
  let '(a, s1) := getOrCreateLimiter now1 p1 key e1 s in
  forall es, get_table (table_of p2) s1 !! key = Some es ->
  es_limiter es = a /\
  (es_expiresAt es = 0 \/ now2 < es_expiresAt es -> getOrCreateLimiter now2 p2 key e2 s1 = (a, s1)).
Proof.
  intros Ht Hle. unfold getOrCreateLimiter at 1. rewrite Ht. set (t := table_of p2).
  assert (Hfound : forall es (s1 : rateLimiterStore), get_table t s1 !! key = Some es ->
    es_expiresAt es = 0 \/ now2 < es_expiresAt es -> getOrCreateLimiter now2 p2 key e2 s1 = (es_limiter es, s1)).
  { intros es s1 Hes Hlive. unfold getOrCreateLimiter. fold t. rewrite Hes.
    destruct (Z.eqb_spec (es_expiresAt es) 0); [done|]. destruct (Z.ltb_spec now2 (es_expiresAt es)); [done|lia]. }
  assert (Hnew : forall s0 : rateLimiterStore,
    let '(a, s1) := alloc (newLimiter e1 (rs_alg s0)) s0 in
    let ttl := if re_TTL e1 <=? 0 then rs_ttl s1 else re_TTL e1 in
    let expiresAt := if 0 <? ttl then now1 + ttl else 0 in
    let s2 := set_table t (<[key := mkEntryState a expiresAt]> (get_table t s1)) s1 in
    forall es, get_table t s2 !! key = Some es ->
    es_limiter es = a /\
    (es_expiresAt es = 0 \/ now2 < es_expiresAt es -> getOrCreateLimiter now2 p2 key e2 s2 = (a, s2))).
  { intros s0. destruct (alloc _ s0) as [a s1]. cbn zeta. intros es Hes. pose proof Hes as Hes'.
    rewrite get_set_table, lookup_insert_eq in Hes'. injection Hes' as <-. split; [done|]. intros Hl.
    by apply (Hfound _ _ Hes). }
  destruct (get_table t s !! key) as [es0|] eqn:E; [|exact (Hnew s)].
  destruct ((es_expiresAt es0 =? 0) || (now1 <? es_expiresAt es0)).
  - intros es Hes. rewrite E in Hes. injection Hes as <-. split; [done|]. by apply Hfound.
  - apply (Hnew (set_table t (delete key (get_table t s)) s)).
Qed.

(** Under server-wide user limits [e1] without expiry: every limiter allows
    [e1]'s requests and no entry expires. *)
Record user_inv (e1 : RateLimitEntry) (s : rateLimiterStore) : Prop := mk_user_inv {
  ui_alg : rs_alg s = SlidingWindow; ui_ttl : rs_ttl s <= 0;
  ui_heap : forall a l, rs_heap s !! a = Some l -> exists sl, l = LSliding sl /\ sl_max sl = re_RequestsPerSecond e1;
  ui_live : forall k es, rs_perUser s !! k = Some es -> es_expiresAt es = 0
}.

Lemma sl_Allow_max now l : sl_max (sl_Allow now l).2 = sl_max l.
Proof.
  unfold sl_Allow. destruct (sl_windowExp l =? 0); [done|].
  assert (Hr : sl_max (sl_rotate now l) = sl_max l) by (unfold sl_rotate; by repeat case_match).
  destruct (f64_le _ _); [done|]. exact Hr.
Qed.

Lemma allow_at_inv e1 now a (s : rateLimiterStore) :
  user_inv e1 s -> user_inv e1 (allow_at now a s).2 /\ rs_perUser (allow_at now a s).2 = rs_perUser s.
Proof using xNew xAllow.
  clear xTokens.
  intros Hinv. pose proof Hinv as [H1 H2 H3 H4]. unfold allow_at. destruct (rs_heap s !! a) as [l|] eqn:Ha; [|done].
  destruct (H3 a l Ha) as (sl & -> & Hm). cbn [limiter_Allow].
  pose proof (sl_Allow_max (seconds now) sl) as Hm'. destruct (sl_Allow (seconds now) sl) as [ok sl']. cbn in *.
  split; [|done]. constructor; try done. intros b l. cbn. rewrite lookup_insert_Some.
  intros [[_ <-]|[_ Hb]]; [exists sl'; split; [done|congruence]|by eapply H3].
Qed.

Lemma server_check_inv e1 rq c1 c2 (s : rateLimiterStore) :
  re_TTL e1 <= 0 -> rq_max rq = None -> user_inv e1 s ->
  let s' := (checkPostLimitWithCancel c1 c2 (Some e1) "user" (rq_user rq) rq s).2 in
  user_inv e1 s' /\ (re_RequestsPerSecond e1 <= 0 \/ rq_user rq = "" \/ is_Some (rs_perUser s' !! rq_user rq)).
Proof using xNew xAllow.
  clear xTokens.
  intros Httl Hmax Hinv. unfold checkPostLimitWithCancel, resolvePostEntry. rewrite Hmax.
  destruct (Z.leb_spec (re_RequestsPerSecond e1) 0); [by split; [|left]|].
  destruct (String.eqb_spec (rq_user rq) ""); [by split; [|right; left]|].
  destruct (getOrCreateLimiter c1 "user" (rq_user rq) e1 s) as [a s1] eqn:E.
  assert (Hs1 : user_inv e1 s1 /\ is_Some (rs_perUser s1 !! rq_user rq)).
  { revert E. destruct Hinv as [H1 H2 H3 H4]. unfold getOrCreateLimiter. cbn [table_of get_table String.eqb Ascii.eqb Bool.eqb orb].
    change (table_of "user") with TabUser. cbn [get_table set_table].
    destruct (rs_perUser s !! rq_user rq) as [es|] eqn:Ees.
    - rewrite (H4 _ _ Ees). cbn. intros [= <- <-]. split; [done|]. by exists es.
    - rewrite H1. destruct (Z.leb_spec (re_TTL e1) 0); [|lia]. cbn. destruct (Z.ltb_spec 0 (rs_ttl s)); [lia|].
      intros [= <- <-]. cbn. rewrite lookup_insert_eq. split; [|by eexists]. constructor; try done.
      + intros b l. cbn. rewrite lookup_insert_Some. intros [[_ <-]|[_ Hb]]; [by eexists|by eapply H3].
      + intros k es. cbn. rewrite lookup_insert_Some. intros [[_ <-]|[_ Hb]]; [done|by eapply H4]. }
  destruct Hs1 as [Hi Hex]. destruct (allow_at_inv e1 c2 a s1 Hi) as [Hi2 Hu].
  destruct (allow_at c2 a s1) as [ok s2]. cbn [fst snd] in *. split; [done|]. right; right. by rewrite Hu.
Qed.

Lemma entry_check_inv e1 e2 rq c1 c2 (s : rateLimiterStore) :
  user_inv e1 s -> rq_max rq = None -> rq_user rq = "" \/ is_Some (rs_perUser s !! rq_user rq) ->
  user_inv e1 (checkPostLimitWithCancel c1 c2 (Some e2) "entry_user" (rq_user rq) rq s).2.
Proof using xNew xAllow.
  clear xTokens.
  intros Hinv Hmax Hu. unfold checkPostLimitWithCancel, resolvePostEntry. rewrite Hmax.
  destruct (re_RequestsPerSecond e2 <=? 0); [done|]. destruct (String.eqb_spec (rq_user rq) ""); [done|].
  destruct Hu as [?|[es Hes]]; [done|]. unfold getOrCreateLimiter. change (table_of "entry_user") with TabUser.
  cbn [get_table]. rewrite Hes, (ui_live e1 s Hinv _ _ Hes). cbn [Z.eqb orb].
  pose proof (allow_at_inv e1 c2 (es_limiter es) s Hinv) as [H _]. by destruct (allow_at _ _ _).
Qed.

Lemma RateLimitPost_inv e1 e2 clk rq (s : rateLimiterStore) :
  0 < re_RequestsPerSecond e1 -> re_TTL e1 <= 0 -> rq_max rq = None -> user_inv e1 s ->
  user_inv e1 (RateLimitPost (mkPostConfig (Some e1) None (Some e2) None ∅) clk rq s).2.
Proof using xNew xAllow.
  clear xTokens.
  intros Hrps Httl Hmax Hinv. unfold RateLimitPost. cbn [run_checks pc_ServerPerUser pc_ServerPerKey pc_EntryPerUser pc_EntryPerKey pc_PerRoleLimits].
  pose proof (server_check_inv e1 rq (clk 0%nat) (clk 1%nat) s Httl Hmax Hinv) as [Hi Hu].
  destruct (checkPostLimitWithCancel _ _ (Some e1) "user" _ rq s) as [[] s1]; [done|]. cbn [snd] in *.
  unfold checkPostLimitWithCancel at 1. cbn [resolvePostEntry]. unfold checkRoleLimitsWithCancel.
  rewrite bool_decide_eq_true_2 by done.
  pose proof (entry_check_inv e1 e2 rq (clk 4%nat) (clk 5%nat) s1 Hi Hmax ltac:(destruct Hu as [?|]; [lia|done])) as H.
  destruct (checkPostLimitWithCancel _ _ (Some e2) "entry_user" _ rq s1) as [[] s2]; done.
Qed.

(** An entry's own per-user limit never takes effect when the server has a per-user
    limit: both are looked up in one table under the user's id alone, so every limiter ever
    used allows the server's number of requests, whatever the entry asks for. *)
Theorem entry_limit_never_applies (e1 e2 : RateLimitEntry) (ttl : Z) (reqs : list ((nat -> Z) * request)) :
  0 < re_RequestsPerSecond e1 -> re_TTL e1 <= 0 -> ttl <= 0 -> Forall (fun p => rq_max p.2 = None) reqs ->
  let cfg := mkPostConfig (Some e1) None (Some e2) None ∅ in
  let s := foldl (fun s p => (RateLimitPost cfg p.1 p.2 s).2) (newRateLimiterStore SlidingWindow ttl) reqs in
  forall a l, rs_heap s !! a = Some l -> exists sl, l = LSliding sl /\ sl_max sl = re_RequestsPerSecond e1.
Proof using xNew xAllow.
  clear xTokens.
  intros Hrps Httl Ht Hreqs cfg s.
  enough (Hinv : user_inv e1 s) by exact (ui_heap e1 s Hinv).
  unfold s. assert (H0 : user_inv e1 (newRateLimiterStore SlidingWindow ttl)) by (constructor; cbn; try done; intros ? ?; by rewrite lookup_empty).
  revert H0. generalize (newRateLimiterStore SlidingWindow ttl). induction Hreqs as [|[clk rq] reqs Hm _ IH]; intros s0 H0; [done|].
  cbn [foldl]. apply IH. by apply RateLimitPost_inv.
Qed.

End store.

Arguments limiter X : clear implicits.
Arguments rateLimiterStore X : clear implicits.

(** ** The window is fixed

    The branch of [sl_rotate] that slides the window cannot be taken: a window that is
    over is always fully expired.  So the previous window never counts. *)

Record fixedWindow : Type := mkFixed { fw_end : option Z; fw_hits : Z }.

(** A counter that is reset at the first request after the end of its window. *)
Definition fw_Allow (max len now : Z) (f : fixedWindow) : bool * fixedWindow :=
  match fw_end f with
  | None => (true, mkFixed (Some (now + len)) 1)
  | Some e =>
      let f := if e <=? now then mkFixed (Some (now + len)) 0 else f in
      if max <=? fw_hits f then (false, f) else (true, mkFixed (fw_end f) (fw_hits f + 1))
  end.

Definition fw_Cancel (f : fixedWindow) : fixedWindow :=
  if 0 <? fw_hits f then mkFixed (fw_end f) (fw_hits f - 1) else f.

Inductive rl_op := OpAllow (now : Z) | OpCancel.

Fixpoint rl_run {L} (allow : Z -> L -> bool * L) (cancel : L -> L) (ops : list rl_op) (l : L) : list bool :=
  match ops with
  | [] => []
  | OpAllow now :: ops => let '(ok, l) := allow now l in ok :: rl_run allow cancel ops l
  | OpCancel :: ops => rl_run allow cancel ops (cancel l)
  end.

(** The clock does not go back. *)
Fixpoint rl_clock (last : Z) (ops : list rl_op) : Prop :=
  match ops with
  | [] => True
  | OpAllow now :: ops => last <= now /\ rl_clock now ops
  | OpCancel :: ops => rl_clock last ops
  end.

Record fixed_rel (max len now : Z) (l : slidingWindowLimiter) (f : fixedWindow) : Prop := mk_fixed_rel {
  fr_max : sl_max l = max; fr_len : sl_expiration l = len;
  fr_prev : sl_prevHits l = 0; fr_curr : sl_currHits l = fw_hits f;
  fr_hits : 0 <= fw_hits f <= max;
  fr_end : match fw_end f with
           | None => sl_windowExp l = 0 /\ fw_hits f = 0
           | Some e => sl_windowExp l = e /\ 0 < e <= now + len
           end
}.

Lemma sl_rate_fixed (now : Z) (l : slidingWindowLimiter) :
  sl_prevHits l = 0 -> 0 <= sl_currHits l < 2^53 -> 0 < sl_expiration l < 2^53 ->
  0 < sl_windowExp l - now <= sl_expiration l -> sl_rate now l = f64_of_Z (sl_currHits l).
Proof.
  intros Hp Hc He Hn. unfold sl_rate. rewrite Hp.
  pose proof (f64_one_minus_finite _ (f64_div_within (sl_windowExp l - now) (sl_expiration l) ltac:(lia) He)) as Hf.
  set (w := f64_sub _ _) in *. clearbody w. change (f64_of_Z 0) with (S754_zero false).
  assert (Hz : exists s, f64_mul (S754_zero false) w = S754_zero s) by (destruct w; try done; by eexists).
  destruct Hz as [s ->]. destruct (sl_currHits l) as [|p|p]; [|destruct (f64_of_pos p) as (m & -> & _); [lia|done]|lia].
  by destruct s.
Qed.

Lemma fixed_allow (max len last now : Z) l f :
  0 < max < 2^53 -> 0 < len < 2^53 -> 0 <= last <= now -> fixed_rel max len last l f ->
  (sl_Allow now l).1 = (fw_Allow max len now f).1 /\ fixed_rel max len now (sl_Allow now l).2 (fw_Allow max len now f).2.
Proof.
  intros Hm Hl Hn [H1 H2 H3 H4 H5 H6]. unfold sl_Allow, fw_Allow. destruct (fw_end f) as [e|] eqn:Ef.
  - destruct H6 as [H6 H7]. rewrite H6. destruct (Z.eqb_spec e 0); [lia|].
    assert (Hrot : sl_prevHits (sl_rotate now l) = 0 /\ sl_max (sl_rotate now l) = max /\ sl_expiration (sl_rotate now l) = len /\
      let f' := if e <=? now then mkFixed (Some (now + len)) 0 else f in
      sl_currHits (sl_rotate now l) = fw_hits f' /\ fw_end f' = Some (sl_windowExp (sl_rotate now l)) /\
      now < sl_windowExp (sl_rotate now l) <= now + len /\ 0 <= fw_hits f' <= max).
    { unfold sl_rotate. rewrite H6, H2. destruct (Z.leb_spec e now).
      - destruct (Z.leb_spec len (now - (e - len))); [|lia]. cbn. rewrite H2. repeat (split; [done || lia|]). lia.
      - cbn zeta. rewrite Ef, H6. repeat (split; [done || lia|]). lia. }
    destruct Hrot as (R1 & R2 & R3 & R4 & R5 & R6 & R7). cbn zeta in *.
    set (f' := if e <=? now then _ else f) in *. set (l' := sl_rotate now l) in *. clearbody f' l'.
    rewrite (sl_rate_fixed now l' R1) by lia. rewrite R2, R4, f64_le_of_Z by lia.
    destruct (Z.leb_spec max (fw_hits f')); cbn [fst snd].
    + split; [done|]. constructor; try done. rewrite R5. split; [done|lia].
    + split; [done|]. constructor; try done; cbn; try lia. rewrite R5. split; [done|lia].
  - destruct H6 as [H6 H7]. rewrite H6. cbn. split; [done|]. constructor; cbn; try done; lia.
Qed.

Lemma fixed_cancel (max len now : Z) l f :
  fixed_rel max len now l f -> fixed_rel max len now (sl_Cancel l) (fw_Cancel f).
Proof.
  intros [H1 H2 H3 H4 H5 H6]. unfold sl_Cancel, fw_Cancel. rewrite H4.
  destruct (Z.ltb_spec 0 (fw_hits f)); [|by constructor].
  constructor; cbn; try done; [lia|]. destruct (fw_end f); [done|lia].
Qed.

Lemma fixed_run (max len : Z) ops : 0 < max < 2^53 -> 0 < len < 2^53 ->
  forall last l f, 0 <= last -> rl_clock last ops -> fixed_rel max len last l f ->
  rl_run sl_Allow sl_Cancel ops l = rl_run (fw_Allow max len) fw_Cancel ops f.
Proof.
  intros Hm Hl. induction ops as [|[now|] ops IH]; intros last l f H0 Hck Hr; cbn in *; [done| |].
  - destruct Hck as [Hn Hck]. destruct (fixed_allow max len last now l f Hm Hl ltac:(lia) Hr) as [E Hr'].
    destruct (sl_Allow now l) as [ok l'], (fw_Allow max len now f) as [ok' f']. cbn in *. subst ok'. f_equal.
    by apply (IH now); [lia|..].
  - apply (IH last); [done..|]. by apply fixed_cancel.
Qed.

(** The sliding window limiter is a fixed window counter: it decides every request
    exactly as a counter that is reset at the first request after [burst] seconds (the
    limit when the burst is not positive) and refuses once [max] requests were counted.
    The hits of the previous window never count. *)
Theorem sliding_is_fixed_window (max burst : Z) (ops : list rl_op) :
  let len := if burst <=? 0 then max else burst in
  0 < max < 2^53 -> len < 2^53 -> rl_clock 0 ops ->
  rl_run sl_Allow sl_Cancel ops (newSlidingWindowLimiter max burst) =
  rl_run (fw_Allow max len) fw_Cancel ops (mkFixed None 0).
Proof.
  intros len Hm Hl Hck. assert (0 < len) by (unfold len; destruct (Z.leb_spec burst 0); lia).
  apply (fixed_run max len ops Hm ltac:(lia) 0); [lia|done|]. constructor; cbn; try done; lia.
Qed.

Lemma sliding_is_fixed_window_witness :
  rl_run sl_Allow sl_Cancel (replicate 3 (OpAllow 100) ++ [OpCancel; OpAllow 105; OpAllow 112]) (newSlidingWindowLimiter 2 10) =
  [true; true; false; true; true].
Proof.
  assert (Hck : rl_clock 0 (replicate 3 (OpAllow 100) ++ [OpCancel; OpAllow 105; OpAllow 112])) by (cbn; lia).
  exact (sliding_is_fixed_window 2 10 (replicate 3 (OpAllow 100) ++ [OpCancel; OpAllow 105; OpAllow 112]) ltac:(lia) ltac:(cbn; lia) Hck).
Defined.

(** A limit of 5 requests per second with a burst of 10 admits 5 requests in ten seconds,
    and 9 within two consecutive seconds. *)
Example window_lasts_burst_seconds :
  rl_run sl_Allow sl_Cancel ([OpAllow 100] ++ replicate 5 (OpAllow 109) ++ replicate 5 (OpAllow 110)) (newSlidingWindowLimiter 5 10) =
  [true; true; true; true; true; false; true; true; true; true; true].
Proof. vm_compute. reflexivity. Qed.

Definition no_bucket_new (rps burst : Z) : unit := tt.
Definition no_bucket_allow (now : Z) (x : unit) : bool * unit := (true, x).

Lemma entry_limit_never_applies_witness :
  let cfg := mkPostConfig (Some (mkRateLimitEntry 100 100 0)) None (Some (mkRateLimitEntry 2 2 0)) None ∅ in
  let rq := mkRequest "u" "" None None in
  let s := foldl (fun s p => (RateLimitPost no_bucket_new no_bucket_allow cfg p.1 p.2 s).2)
             (newRateLimiterStore SlidingWindow 0) (replicate 3 (fun _ => 10^9, rq)) in
  is_Some (rs_heap s !! 0%nat) /\
  forall a l, rs_heap s !! a = Some l -> exists sl, l = LSliding sl /\ sl_max sl = 100.
Proof.
  intros cfg rq s. split; [vm_compute; by eexists|].
  exact (entry_limit_never_applies no_bucket_new no_bucket_allow (mkRateLimitEntry 100 100 0) (mkRateLimitEntry 2 2 0) 0
    (replicate 3 (fun _ => 10^9, rq)) ltac:(cbn; lia) ltac:(cbn; lia) ltac:(lia) ltac:(by repeat constructor)).
Defined.
