(* ===== verification/TimingWheel.v ===== *)
(** * infra/collection/timingwheel.go: a hashed timing wheel

    One goroutine owns the wheel and serialises ticks and requests ([run]), so a
    behaviour is a sequence of events.  Slots hold pointers to [timingEntry] objects,
    the timers map holds pointers to [positionEntry] objects that point to entries in
    turn; both kinds of object are mutated through either path, so the model keeps
    them in heaps ([tw_entries], [tw_positions]) and stores addresses.  [None] is a
    panic (nil dereference or index out of range).  Positions are computed in 64-bit
    arithmetic as in the source. *)

From S2P Require Import Prelude Interfaces SafeMap.

Section wheel.
Context {K V M : Type} `{Countable K} `{!KVMapOps K nat M}.

Record timingEntry : Type := mkTimingEntry {
  te_delay : Z; te_key : K;              (* baseEntry *)
  te_value : V; te_circle : Z; te_diff : Z; te_removed : bool
}.

#[local] Instance eta_timingEntry : Eta timingEntry := fun e =>
  mkTimingEntry (te_delay e) (te_key e) (te_value e) (te_circle e) (te_diff e) (te_removed e).

Record positionEntry : Type := mkPositionEntry { pe_pos : Z; pe_item : nat }.

Record TimingWheel : Type := mkTimingWheel {
  tw_interval : Z;
  tw_slots : list (list nat);
  tw_timers : M;
  tw_tickedPos : Z;
  tw_numSlots : Z;
  tw_entries : gmap nat timingEntry;
  tw_positions : gmap nat positionEntry;
  tw_next : nat                           (* next free address *)
}.

#[local] Instance eta_TimingWheel : Eta TimingWheel := fun w =>
  mkTimingWheel (tw_interval w) (tw_slots w) (tw_timers w) (tw_tickedPos w) (tw_numSlots w)
    (tw_entries w) (tw_positions w) (tw_next w).

(** [NewTimingWheel]; [None] is the error for a bad argument. *)
Definition NewTimingWheel (interval numSlots : Z) : option TimingWheel :=
  if (interval <=? 0) || (numSlots <=? 0) then None
  else Some (mkTimingWheel interval (replicate (Z.to_nat numSlots) []) kv_new
    (numSlots - 1) (* at previous virtual circle *) numSlots ∅ ∅ 0).

Definition getPositionAndCircle (d : Z) (tw : TimingWheel) : Z * Z :=
  let steps := Z.quot d (tw_interval tw) in
  let pos := Z.rem (wrap64 (tw_tickedPos tw + steps)) (tw_numSlots tw) in
  let circle := Z.quot (wrap64 (steps - 1)) (tw_numSlots tw) in
  (pos, circle).

(** [tw.slots[pos].PushBack(item)] *)
Definition pushBack (pos : Z) (item : nat) (tw : TimingWheel) : option TimingWheel :=
  if (pos <? 0) then None
  else
    l ← tw_slots tw !! Z.to_nat pos;
    Some (tw <| tw_slots := <[Z.to_nat pos := l ++ [item]]> (tw_slots tw) |>).

(** [l.Remove(e)] for the element holding [item] in the slot at [pos]. *)
Definition slotRemove (pos : Z) (item : nat) (tw : TimingWheel) : TimingWheel :=
  tw <| tw_slots := alter (filter (fun i => i <> item)) (Z.to_nat pos) (tw_slots tw) |>.

Definition updEntry (item : nat) (f : timingEntry -> timingEntry) (tw : TimingWheel) : TimingWheel :=
  tw <| tw_entries := alter f item (tw_entries tw) |>.

Definition setTimerPosition (pos : Z) (task : nat) (tw : TimingWheel) : option TimingWheel :=
  e ← tw_entries tw !! task;
  match kv_get (te_key e) (tw_timers tw) with
  | Some timer =>
      Some (tw <| tw_positions := <[timer := mkPositionEntry pos task]> (tw_positions tw) |>)
  | None =>
      Some (tw <| tw_positions := <[tw_next tw := mkPositionEntry pos task]> (tw_positions tw) |>
               <| tw_timers := kv_set (te_key e) (tw_next tw) (tw_timers tw) |>
               <| tw_next := S (tw_next tw) |>)
  end.

(** [&timingEntry{...}] *)
Definition newEntry (e : timingEntry) (tw : TimingWheel) : nat * TimingWheel :=
  (tw_next tw, tw <| tw_entries := <[tw_next tw := e]> (tw_entries tw) |>
                  <| tw_next := S (tw_next tw) |>).

(** The second component is what is executed at once. *)
Definition moveTask (delay : Z) (key : K) (tw : TimingWheel) : option (TimingWheel * list (K * V)) :=
  match kv_get key (tw_timers tw) with
  | None => Some (tw, [])
  | Some pid =>
      timer ← tw_positions tw !! pid;
      item ← tw_entries tw !! pe_item timer;
      if delay <? tw_interval tw then Some (tw, [(te_key item, te_value item)])
      else
        let '(pos, circle) := getPositionAndCircle delay tw in
        if pe_pos timer <=? pos then
          Some (updEntry (pe_item timer)
            (fun e => e <| te_circle := circle |> <| te_diff := pos - pe_pos timer |>) tw, [])
        else if 0 <? circle then
          let circle := circle - 1 in
          Some (updEntry (pe_item timer)
            (fun e => e <| te_circle := circle |>
                        <| te_diff := tw_numSlots tw + pos - pe_pos timer |>) tw, [])
        else
          let tw := updEntry (pe_item timer) (fun e => e <| te_removed := true |>) tw in
          let '(newItem, tw) := newEntry (mkTimingEntry delay key (te_value item) 0 0 false) tw in
          tw ← pushBack pos newItem tw;
          tw ← setTimerPosition pos newItem tw;
          Some (tw, [])
  end.

Definition removeTask (key : K) (tw : TimingWheel) : option TimingWheel :=
  match kv_get key (tw_timers tw) with
  | None => Some tw
  | Some pid =>
      timer ← tw_positions tw !! pid;
      let tw := updEntry (pe_item timer) (fun e => e <| te_removed := true |>) tw in
      Some (tw <| tw_timers := kv_del key (tw_timers tw) |>)
  end.

Definition setTask (delay : Z) (key : K) (value : V) (tw : TimingWheel)
  : option (TimingWheel * list (K * V)) :=
  let delay := if delay <? tw_interval tw then tw_interval tw else delay in
  match kv_get key (tw_timers tw) with
  | Some pid =>
      entry ← tw_positions tw !! pid;
      moveTask delay key (updEntry (pe_item entry) (fun e => e <| te_value := value |>) tw)
  | None =>
      let '(pos, circle) := getPositionAndCircle delay tw in
      let '(task, tw) := newEntry (mkTimingEntry delay key value circle 0 false) tw in
      tw ← pushBack pos task tw;
      tw ← setTimerPosition pos task tw;
      Some (tw, [])
  end.

(** The loop of [scanAndRunTasks] over the elements of the ticked slot.  Items are only
    pushed to other slots (their [diff] is a proper offset), so the traversal is over
    the list as it was. *)
Fixpoint scanAndRunTasks (l : list nat) (tw : TimingWheel) (tasks : list (K * V))
  : option (TimingWheel * list (K * V)) :=
  match l with
  | [] => Some (tw, tasks)
  | task :: l =>
      e ← tw_entries tw !! task;
      if te_removed e then scanAndRunTasks l (slotRemove (tw_tickedPos tw) task tw) tasks
      else if 0 <? te_circle e then
        scanAndRunTasks l (updEntry task (fun e => e <| te_circle := te_circle e - 1 |>) tw) tasks
      else if 0 <? te_diff e then
        let tw := slotRemove (tw_tickedPos tw) task tw in
        let pos := Z.rem (tw_tickedPos tw + te_diff e) (tw_numSlots tw) in
        tw ← pushBack pos task tw;
        tw ← setTimerPosition pos task tw;
        scanAndRunTasks l (updEntry task (fun e => e <| te_diff := 0 |>) tw) tasks
      else
        let tw := slotRemove (tw_tickedPos tw) task tw in
        let tw := tw <| tw_timers := kv_del (te_key e) (tw_timers tw) |> in
        scanAndRunTasks l tw (tasks ++ [(te_key e, te_value e)])
  end.

Definition onTick (tw : TimingWheel) : option (TimingWheel * list (K * V)) :=
  let tw := tw <| tw_tickedPos := Z.rem (tw_tickedPos tw + 1) (tw_numSlots tw) |> in
  l ← tw_slots tw !! Z.to_nat (tw_tickedPos tw);
  scanAndRunTasks l tw [].

(** [drainAll]: every slot is emptied and the live tasks are handed to [fn]. *)
Definition drainAll (tw : TimingWheel) : option (TimingWheel * list (K * V)) :=
  tasks ← mapM (fun i => tw_entries tw !! i) (concat (tw_slots tw));
  Some (tw <| tw_slots := replicate (length (tw_slots tw)) [] |>,
        (fun e => (te_key e, te_value e)) <$> filter (fun e => te_removed e = false) tasks).

(** The events the [run] loop serialises. *)
Inductive tw_event :=
| EvTick
| EvSet (delay : Z) (key : K) (value : V)
| EvMove (delay : Z) (key : K)
| EvRemove (key : K)
| EvDrain.

Definition tw_step (ev : tw_event) (tw : TimingWheel) : option (TimingWheel * list (K * V)) :=
  match ev with
  | EvTick => onTick tw
  | EvSet delay key value => setTask delay key value tw
  | EvMove delay key => moveTask delay key tw
  | EvRemove key => tw ← removeTask key tw; Some (tw, [])
  | EvDrain => drainAll tw
  end.

(** What each event executed. *)
Fixpoint tw_run (evs : list tw_event) (tw : TimingWheel) : option (TimingWheel * list (list (K * V))) :=
  match evs with
  | [] => Some (tw, [])
  | ev :: evs =>
      '(tw, fired) ← tw_step ev tw;
      '(tw, rest) ← tw_run evs tw;
      Some (tw, fired :: rest)
  end.

(** *** The exported methods: argument checks in front of the channels *)

Inductive tw_error := ErrClosed | ErrArgument.

(** [stopped]: the stop channel is closed, nobody receives any more. *)
Definition tw_send (stopped : bool) (ev : tw_event) : tw_event + tw_error :=
  if stopped then inr ErrClosed else inl ev.

Definition TimingWheel_SetTimer (stopped : bool) (key : option K) (value : V) (delay : Z)
  : tw_event + tw_error :=
  match key with
  | Some key => if delay <=? 0 then inr ErrArgument else tw_send stopped (EvSet delay key value)
  | None => inr ErrArgument
  end.

Definition TimingWheel_MoveTimer (stopped : bool) (key : option K) (delay : Z) : tw_event + tw_error :=
  match key with
  | Some key => if delay <=? 0 then inr ErrArgument else tw_send stopped (EvMove delay key)
  | None => inr ErrArgument
  end.

Definition TimingWheel_RemoveTimer (stopped : bool) (key : option K) : tw_event + tw_error :=
  match key with
  | Some key => tw_send stopped (EvRemove key)
  | None => inr ErrArgument
  end.

Definition TimingWheel_Drain (stopped : bool) : tw_event + tw_error := tw_send stopped EvDrain.

(** ** Invariant

    [tw_inv x] is the structural invariant of the wheel, with the key [x] (if any) in
    the middle of being rescheduled. *)

Context `{!KVMapLaws K nat M}.

Definition tw_timer (tw : TimingWheel) : gmap K nat := kv_model (tw_timers tw).

(** The timer [pid] of [k] is placed: its item is live and sits in the slot it names. *)
Definition placed (tw : TimingWheel) (k : K) (pid : nat) : Prop :=
  exists pos item e l,
    tw_positions tw !! pid = Some (mkPositionEntry pos item) /\
    tw_entries tw !! item = Some e /\ te_key e = k /\ te_removed e = false /\
    0 <= pos < tw_numSlots tw /\
    tw_slots tw !! Z.to_nat pos = Some l /\ item ∈ l.

Record tw_inv (x : option K) (tw : TimingWheel) : Prop := mk_tw_inv {
  inv_interval : 0 < tw_interval tw;
  inv_num : 0 < tw_numSlots tw;
  inv_len : length (tw_slots tw) = Z.to_nat (tw_numSlots tw);
  inv_pos : 0 <= tw_tickedPos tw < tw_numSlots tw;
  inv_kv : kv_wf (tw_timers tw);
  inv_slots : forall p l i, tw_slots tw !! p = Some l -> i ∈ l -> is_Some (tw_entries tw !! i);
  inv_nodup : forall p l, tw_slots tw !! p = Some l -> NoDup l;
  inv_timer : forall k pid, tw_timer tw !! k = Some pid -> Some k <> x -> placed tw k pid;
  inv_live : forall p l i e, tw_slots tw !! p = Some l -> i ∈ l ->
    tw_entries tw !! i = Some e -> te_removed e = false ->
    Some (te_key e) <> x /\
    exists pid, tw_timer tw !! te_key e = Some pid /\
      tw_positions tw !! pid = Some (mkPositionEntry (Z.of_nat p) i);
  inv_bounds : forall i e, tw_entries tw !! i = Some e ->
    0 <= te_circle e /\ 0 <= te_diff e < tw_numSlots tw;
  inv_fresh_e : forall i e, tw_entries tw !! i = Some e -> (i < tw_next tw)%nat;
  inv_fresh_p : forall k pid, tw_timer tw !! k = Some pid -> (pid < tw_next tw)%nat;
  inv_inj : forall k1 k2 pid, tw_timer tw !! k1 = Some pid -> tw_timer tw !! k2 = Some pid -> k1 = k2
}.

(** What is scheduled for a key. *)
Definition tw_find (tw : TimingWheel) (k : K) : option (positionEntry * timingEntry) :=
  pid ← tw_timer tw !! k;
  pe ← tw_positions tw !! pid;
  e ← tw_entries tw !! pe_item pe;
  Some (pe, e).

(** Ticks until the slot [p] is scanned, the wheel standing at [t]. *)
Definition visits (t p n : Z) : Z := (p - t - 1) mod n + 1.

(** Ticks left for a key and its value; the items of [pending] still have to be
    scanned at the current tick. *)
Definition tw_left (pending : list nat) (tw : TimingWheel) (k : K) : option (Z * V) :=
  '(pe, e) ← tw_find tw k;
  Some ((if decide (pe_item pe ∈ pending) then 0
         else visits (tw_tickedPos tw) (pe_pos pe) (tw_numSlots tw))
        + te_circle e * tw_numSlots tw + te_diff e, te_value e).

(** The abstract wheel: ticks left and value of every scheduled key. *)
Definition tw_abs : TimingWheel -> K -> option (Z * V) := tw_left [].

Lemma tw_get (x : option K) (tw : TimingWheel) (k : K) :
  tw_inv x tw -> kv_get k (tw_timers tw) = tw_timer tw !! k.
Proof. intros Hi. apply kv_get_model, Hi. Qed.

Lemma placed_find (tw : TimingWheel) (k : K) (pid : nat) :
  tw_timer tw !! k = Some pid -> placed tw k pid ->
  exists pos item e l, tw_find tw k = Some (mkPositionEntry pos item, e) /\
    tw_positions tw !! pid = Some (mkPositionEntry pos item) /\
    tw_entries tw !! item = Some e /\ te_key e = k /\ te_removed e = false /\
    0 <= pos < tw_numSlots tw /\ tw_slots tw !! Z.to_nat pos = Some l /\ item ∈ l.
Proof.
  intros Ht (pos & item & e & l & Hp & He & Hk & Hr & Hb & Hl & Hin).
  exists pos, item, e, l. unfold tw_find. rewrite Ht. cbn. rewrite Hp. cbn. by rewrite He.
Qed.

(** The scheduled item of a key, under the invariant. *)
Lemma inv_find (x : option K) (tw : TimingWheel) (k : K) :
  tw_inv x tw -> Some k <> x ->
  match tw_timer tw !! k with
  | None => tw_find tw k = None
  | Some pid =>
      exists pos item e l, tw_find tw k = Some (mkPositionEntry pos item, e) /\
        tw_positions tw !! pid = Some (mkPositionEntry pos item) /\
        tw_entries tw !! item = Some e /\ te_key e = k /\ te_removed e = false /\
        0 <= pos < tw_numSlots tw /\ tw_slots tw !! Z.to_nat pos = Some l /\ item ∈ l
  end.
Proof.
  intros Hi Hx. destruct (tw_timer tw !! k) as [pid|] eqn:Et.
  - apply placed_find; [done|]. by eapply inv_timer.
  - unfold tw_find. by rewrite Et.
Qed.

(** A live item of a slot is the scheduled item of its key. *)
Lemma inv_live_find (x : option K) (tw : TimingWheel) p l i e :
  tw_inv x tw -> tw_slots tw !! p = Some l -> i ∈ l ->
  tw_entries tw !! i = Some e -> te_removed e = false ->
  Some (te_key e) <> x /\ tw_find tw (te_key e) = Some (mkPositionEntry (Z.of_nat p) i, e).
Proof.
  intros Hi Hl Hin He Hr.
  destruct (inv_live x tw Hi p l i e Hl Hin He Hr) as (Hx & pid & Ht & Hp).
  split; [done|]. unfold tw_find. rewrite Ht. cbn. rewrite Hp. cbn. by rewrite He.
Qed.

Lemma tw_find_key (x : option K) (tw : TimingWheel) k pe e :
  tw_inv x tw -> Some k <> x -> tw_find tw k = Some (pe, e) -> te_key e = k /\ te_removed e = false.
Proof.
  intros Hi Hx Hf. pose proof (inv_find x tw k Hi Hx) as Hk.
  destruct (tw_timer tw !! k); [|congruence].
  destruct Hk as (? & ? & ? & ? & Hf' & ? & ? & ? & ? & ?). rewrite Hf in Hf'. by simplify_eq.
Qed.

(** *** Elementary updates *)

(** Updating an entry without touching its key or removal mark. *)
Lemma updEntry_inv (x : option K) (tw : TimingWheel) (i : nat) (f : timingEntry -> timingEntry) :
  tw_inv x tw ->
  (forall e, tw_entries tw !! i = Some e ->
     te_key (f e) = te_key e /\ te_removed (f e) = te_removed e /\
     0 <= te_circle (f e) /\ 0 <= te_diff (f e) < tw_numSlots tw) ->
  tw_inv x (updEntry i f tw).
Proof.
  intros Hi Hf.
  assert (Hlook : forall j e', alter f i (tw_entries tw) !! j = Some e' ->
    exists e, tw_entries tw !! j = Some e /\ te_key e' = te_key e /\ te_removed e' = te_removed e /\
      0 <= te_circle e' /\ 0 <= te_diff e' < tw_numSlots tw).
  { intros j e' Hj. destruct (decide (j = i)) as [->|].
    - rewrite lookup_alter_eq in Hj. destruct (tw_entries tw !! i) as [e|] eqn:E; [|done].
      cbn in Hj. injection Hj as <-. exists e. split; [done|]. naive_solver.
    - rewrite lookup_alter_ne in Hj by done. exists e'.
      pose proof (inv_bounds x tw Hi j e' Hj). naive_solver. }
  assert (Hback : forall j e, tw_entries tw !! j = Some e ->
    exists e', alter f i (tw_entries tw) !! j = Some e' /\ te_key e' = te_key e /\ te_removed e' = te_removed e).
  { intros j e Hj. destruct (decide (j = i)) as [->|].
    - rewrite lookup_alter_eq, Hj. cbn. eexists. split; [done|]. naive_solver.
    - exists e. by rewrite lookup_alter_ne. }
  constructor; cbn; try apply Hi.
  - intros p l j Hl Hin. destruct (inv_slots x tw Hi p l j Hl Hin) as [e He].
    destruct (Hback j e He) as (e' & He' & _). eauto.
  - intros k pid Ht Hx. destruct (inv_timer x tw Hi k pid Ht Hx)
      as (pos & item & e & l & ? & He & Hk & Hr & ? & ? & ?).
    destruct (Hback item e He) as (e' & He' & Ek & Er).
    exists pos, item, e', l. cbn. rewrite He', Ek, Er. done.
  - intros p l j e' Hl Hin He' Hr'. destruct (Hlook j e' He') as (e & He & Ek & Er & _).
    rewrite Ek. eapply (inv_live x tw Hi); [done..|]. congruence.
  - intros j e' He'. destruct (Hlook j e' He') as (e & _ & _ & _ & ?). done.
  - intros j e' He'. destruct (Hlook j e' He') as (e & He & _). by eapply inv_fresh_e.
Qed.

Lemma updEntry_find (tw : TimingWheel) (i : nat) (f : timingEntry -> timingEntry) (k : K) :
  tw_find (updEntry i f tw) k =
  (fun '(pe, e) => (pe, if decide (pe_item pe = i) then f e else e)) <$> tw_find tw k.
Proof.
  unfold tw_find. change (tw_timer (updEntry i f tw)) with (tw_timer tw).
  destruct (tw_timer tw !! k) as [pid|]; [|done]. cbn.
  destruct (tw_positions tw !! pid) as [pe|]; [|done]. cbn.
  destruct (decide (pe_item pe = i)) as [E|E].
  - rewrite E, lookup_alter_eq. destruct (tw_entries tw !! i); cbn; [|done].
    by rewrite decide_True.
  - rewrite lookup_alter_ne by done. destruct (tw_entries tw !! pe_item pe); cbn; [|done].
    by rewrite decide_False.
Qed.

Lemma slotRemove_lookup (tw : TimingWheel) (t : Z) (i p : nat) (l : list nat) :
  tw_slots (slotRemove t i tw) !! p = Some l ->
  exists l0, tw_slots tw !! p = Some l0 /\
    (forall j, j ∈ l -> j ∈ l0 /\ (p = Z.to_nat t -> j <> i)) /\ (NoDup l0 -> NoDup l).
Proof.
  cbn. intros Hp. destruct (decide (Z.to_nat t = p)) as [<-|].
  - rewrite list_lookup_alter_eq in Hp. destruct (tw_slots tw !! Z.to_nat t) as [l0|]; [|done].
    cbn in Hp. injection Hp as <-. exists l0. split; [done|]. split.
    + intros j Hj. apply list_elem_of_filter in Hj. naive_solver.
    + apply NoDup_filter.
  - rewrite list_lookup_alter_ne in Hp by done. exists l. split; [done|]. split; [|done].
    intros j Hj. split; [done|]. intros E. congruence.
Qed.

(** A member of a slot survives the removal of another item. *)
Lemma slotRemove_keeps (tw : TimingWheel) (t : Z) (i p j : nat) (l : list nat) :
  tw_slots tw !! p = Some l -> j ∈ l -> j <> i \/ p <> Z.to_nat t ->
  exists l', tw_slots (slotRemove t i tw) !! p = Some l' /\ j ∈ l'.
Proof.
  cbn. intros Hl Hj Hne. destruct (decide (Z.to_nat t = p)) as [<-|].
  - rewrite list_lookup_alter_eq, Hl. cbn. eexists. split; [done|].
    apply list_elem_of_filter. naive_solver.
  - rewrite list_lookup_alter_ne by done. eauto.
Qed.

(** Taking an item out of its slot: it was already removed, or its key is now being
    rescheduled. *)
Lemma slotRemove_inv (x y : option K) (tw : TimingWheel) (i : nat) e :
  tw_inv x tw -> tw_entries tw !! i = Some e ->
  (te_removed e = true /\ y = x) \/
  (te_removed e = false /\ x = None /\ y = Some (te_key e) /\
   exists l, tw_slots tw !! Z.to_nat (tw_tickedPos tw) = Some l /\ i ∈ l) ->
  tw_inv y (slotRemove (tw_tickedPos tw) i tw).
Proof.
  intros Hi He Hcase.
  constructor; cbn [slotRemove upd tw_interval tw_slots tw_timers tw_tickedPos tw_numSlots
    tw_entries tw_positions tw_next]; try apply Hi.
  - rewrite length_alter. apply Hi.
  - intros p l j Hl Hj. destruct (slotRemove_lookup _ _ _ _ _ Hl) as (l0 & Hl0 & Hsub & _).
    eapply (inv_slots x tw Hi); [done|]. by apply Hsub.
  - intros p l Hl. destruct (slotRemove_lookup _ _ _ _ _ Hl) as (l0 & Hl0 & _ & Hnd).
    apply Hnd. by eapply inv_nodup.
  - intros k pid Ht Hk. change (tw_timer tw !! k = Some pid) in Ht.
    assert (Hkx : Some k <> x) by (destruct Hcase as [[_ ->]|(_ & -> & _)]; done).
    destruct (inv_timer x tw Hi k pid Ht Hkx)
      as (pos & item & e' & l & Hp & He' & Hk' & Hr' & Hb & Hl & Hin).
    assert (Hne : item <> i).
    { intros ->. destruct Hcase as [[Hr _]|(_ & _ & -> & _)]; congruence. }
    destruct (slotRemove_keeps tw (tw_tickedPos tw) i _ item l Hl Hin (or_introl Hne))
      as (l' & Hl' & Hin').
    exists pos, item, e', l'. done.
  - intros p l j e' Hl Hj He' Hr'.
    destruct (slotRemove_lookup _ _ _ _ _ Hl) as (l0 & Hl0 & Hsub & _).
    destruct (Hsub j Hj) as [Hj0 Hji].
    destruct (inv_live x tw Hi p l0 j e' Hl0 Hj0 He' Hr') as (Hx & pid & Ht & Hp).
    split; [|eauto].
    destruct Hcase as [[_ ->]|(Hr & -> & -> & lt & Hlt & Hit)]; [done|].
    intros [= E].
    destruct (inv_live None tw Hi _ lt i e Hlt Hit He Hr) as (_ & pid' & Ht' & Hp').
    rewrite E in Ht. rewrite Ht in Ht'. injection Ht' as <-.
    rewrite Hp in Hp'. injection Hp' as Epos Eij.
    apply Hji; [|done]. lia.
Qed.

Lemma tw_find_item_inj (x : option K) (tw : TimingWheel) k1 k2 pe1 pe2 e1 e2 :
  tw_inv x tw -> Some k1 <> x -> Some k2 <> x ->
  tw_find tw k1 = Some (pe1, e1) -> tw_find tw k2 = Some (pe2, e2) ->
  pe_item pe1 = pe_item pe2 -> k1 = k2.
Proof.
  intros Hi Hx1 Hx2 Hf1 Hf2 E.
  destruct (tw_find_key x tw k1 pe1 e1 Hi Hx1 Hf1) as [<- _].
  destruct (tw_find_key x tw k2 pe2 e2 Hi Hx2 Hf2) as [<- _].
  unfold tw_find in Hf1, Hf2. simplify_option_eq. congruence.
Qed.

(** Allocating an entry changes nothing that is scheduled. *)
Lemma newEntry_inv (x : option K) (tw : TimingWheel) (e : timingEntry) :
  tw_inv x tw -> 0 <= te_circle e -> 0 <= te_diff e < tw_numSlots tw ->
  tw_inv x (newEntry e tw).2 /\
  (forall k, Some k <> x -> tw_find (newEntry e tw).2 k = tw_find tw k) /\
  (forall p l, tw_slots tw !! p = Some l -> tw_next tw ∉ l).
Proof.
  intros Hi Hc Hd.
  assert (Hold : forall i e', tw_entries tw !! i = Some e' ->
    <[tw_next tw := e]> (tw_entries tw) !! i = Some e').
  { intros i e' He'. rewrite lookup_insert_ne; [done|].
    pose proof (inv_fresh_e x tw Hi i e' He'). lia. }
  assert (Hnot : forall p l, tw_slots tw !! p = Some l -> tw_next tw ∉ l).
  { intros p l Hl Hin. destruct (inv_slots x tw Hi p l _ Hl Hin) as [e' He'].
    pose proof (inv_fresh_e x tw Hi _ e' He'). lia. }
  split; [|split; [|done]].
  - constructor; cbn; try apply Hi.
    + intros p l i Hl Hin. destruct (inv_slots x tw Hi p l i Hl Hin) as [e' He']. eauto.
    + intros k pid Ht Hx. destruct (inv_timer x tw Hi k pid Ht Hx)
        as (pos & item & e' & l & ? & He' & ? & ? & ? & ? & ?).
      exists pos, item, e', l. cbn. rewrite (Hold item e' He'). done.
    + intros p l i e' Hl Hin He' Hr. rewrite lookup_insert_ne in He'.
      * by eapply (inv_live x tw Hi).
      * intros <-. by eapply Hnot.
    + intros i e' He'. apply lookup_insert_Some in He' as [[_ <-]|[_ He']]; [done|].
      by eapply inv_bounds.
    + intros i e' He'. apply lookup_insert_Some in He' as [[<- _]|[_ He']]; [lia|].
      pose proof (inv_fresh_e x tw Hi i e' He'). lia.
    + intros k pid Ht. pose proof (inv_fresh_p x tw Hi k pid Ht). lia.
  - intros k Hx. pose proof (inv_find x tw k Hi Hx) as Hk.
    destruct (tw_timer tw !! k) as [pid|] eqn:Et.
    + destruct Hk as (pos & item & e' & l & Hf & Hp & He' & _). rewrite Hf.
      unfold tw_find. change (tw_timer (newEntry e tw).2) with (tw_timer tw).
      rewrite Et. cbn. rewrite Hp. cbn. by rewrite (Hold item e' He').
    + unfold tw_find. change (tw_timer (newEntry e tw).2) with (tw_timer tw). by rewrite Et.
Qed.

(** The key [k] stops being scheduled. *)
Lemma unschedule_inv (k : K) (tw : TimingWheel) :
  tw_inv (Some k) tw ->
  let tw' := tw <| tw_timers := kv_del k (tw_timers tw) |> in
  tw_inv None tw' /\ tw_find tw' k = None /\ (forall k', k' <> k -> tw_find tw' k' = tw_find tw k').
Proof.
  intros Hi tw'.
  assert (Ht : tw_timer tw' = delete k (tw_timer tw))
    by (unfold tw_timer; cbn; apply kv_del_model, Hi).
  split; [|split].
  - constructor; try apply Hi.
    + cbn. apply kv_del_wf, Hi.
    + intros k' pid Hk' _. rewrite Ht in Hk'. apply lookup_delete_Some in Hk' as [? Hk'].
      apply (inv_timer _ tw Hi); [done|congruence].
    + intros p l i e Hl Hin He Hr.
      destruct (inv_live _ tw Hi p l i e Hl Hin He Hr) as (Hx & pid & Hpid & Hp).
      split; [done|]. exists pid. rewrite Ht, lookup_delete_ne by congruence. done.
    + intros k' pid Hk'. rewrite Ht in Hk'. apply lookup_delete_Some in Hk' as [? Hk'].
      by eapply (inv_fresh_p _ tw Hi).
    + intros k1 k2 pid H1 H2. rewrite Ht in H1, H2.
      apply lookup_delete_Some in H1 as [? H1]. apply lookup_delete_Some in H2 as [? H2].
      by eapply (inv_inj _ tw Hi).
  - unfold tw_find. by rewrite Ht, lookup_delete_eq.
  - intros k' Hne. unfold tw_find. by rewrite Ht, lookup_delete_ne by done.
Qed.

(** Marking the scheduled item of [k] as removed detaches it from the key. *)
Lemma markRemoved_inv (tw : TimingWheel) (k : K) (pid : nat) (pe : positionEntry) :
  tw_inv None tw -> tw_timer tw !! k = Some pid -> tw_positions tw !! pid = Some pe ->
  let tw' := updEntry (pe_item pe) (fun e => e <| te_removed := true |>) tw in
  tw_inv (Some k) tw' /\ (forall k', k' <> k -> tw_find tw' k' = tw_find tw k').
Proof.
  intros Hi Ht Hp tw'.
  pose proof (inv_find None tw k Hi ltac:(done)) as Hk. rewrite Ht in Hk.
  destruct Hk as (pos & item & e & l & Hf & Hp' & He & Hke & Hre & Hb & Hl & Hin).
  rewrite Hp in Hp'. injection Hp' as ->. cbn in tw'.
  assert (Hfind : forall k', k' <> k -> tw_find tw' k' = tw_find tw k').
  { intros k' Hne. subst tw'. rewrite updEntry_find.
    destruct (tw_find tw k') as [[pe' e']|] eqn:Hf'; [|done]. cbn.
    rewrite decide_False; [done|]. intros E. apply Hne.
    eapply (tw_find_item_inj None tw); eauto. }
  split; [|done]. subst tw'.
  assert (Hother : forall j e', alter (fun e => e <| te_removed := true |>) item (tw_entries tw) !! j = Some e' ->
    te_removed e' = false -> j <> item /\ tw_entries tw !! j = Some e').
  { intros j e' Hj Hr'. destruct (decide (j = item)) as [->|].
    - rewrite lookup_alter_eq, He in Hj. cbn in Hj. by simplify_eq.
    - by rewrite lookup_alter_ne in Hj. }
  constructor; cbn; try apply Hi.
  - intros p l' j Hl' Hj. destruct (inv_slots _ tw Hi p l' j Hl' Hj) as [e' He'].
    destruct (decide (j = item)) as [->|]; [rewrite lookup_alter_eq, He; eauto|].
    rewrite lookup_alter_ne by done. eauto.
  - intros k' pid' Ht' Hne.
    destruct (inv_timer _ tw Hi k' pid' Ht' ltac:(done))
      as (pos' & item' & e' & l' & Hp' & He' & Hke' & Hre' & ? & ? & ?).
    exists pos', item', e', l'. cbn. rewrite lookup_alter_ne by congruence. done.
  - intros p l' j e' Hl' Hj He' Hr'. destruct (Hother j e' He' Hr') as [Hji He''].
    destruct (inv_live _ tw Hi p l' j e' Hl' Hj He'' Hr') as (_ & pid' & Ht' & Hp').
    split; [|eauto]. intros [= E]. rewrite E, Ht in Ht'. injection Ht' as <-.
    rewrite Hp in Hp'. injection Hp' as _ ?. congruence.
  - intros j e' He'. destruct (decide (j = item)) as [->|].
    + rewrite lookup_alter_eq, He in He'. cbn in He'. injection He' as <-.
      by apply (inv_bounds _ tw Hi item e).
    + rewrite lookup_alter_ne in He' by done. by eapply (inv_bounds _ tw Hi).
  - intros j e' He'. destruct (decide (j = item)) as [->|]; [by eapply (inv_fresh_e _ tw Hi)|].
    rewrite lookup_alter_ne in He' by done. by eapply (inv_fresh_e _ tw Hi).
Qed.

(** What [PushBack] does to the slots. *)
Lemma pushBack_slots (x : option K) (tw : TimingWheel) (pos : Z) (i : nat) l :
  tw_inv x tw -> (forall p l, tw_slots tw !! p = Some l -> i ∉ l) ->
  tw_slots tw !! Z.to_nat pos = Some l ->
  let slots' := <[Z.to_nat pos := l ++ [i]]> (tw_slots tw) in
  (forall p l', slots' !! p = Some l' -> exists l0, tw_slots tw !! p = Some l0 /\
     (forall j, j ∈ l' -> (j = i /\ p = Z.to_nat pos) \/ j ∈ l0) /\ NoDup l') /\
  (forall p l0 j, tw_slots tw !! p = Some l0 -> j ∈ l0 -> exists l', slots' !! p = Some l' /\ j ∈ l') /\
  (exists l', slots' !! Z.to_nat pos = Some l' /\ i ∈ l').
Proof.
  intros Hi Hnot Hl slots'. subst slots'. pose proof (lookup_lt_Some _ _ _ Hl) as Hlt.
  split; [|split].
  - intros p l' Hl'. destruct (decide (p = Z.to_nat pos)) as [->|].
    + rewrite list_lookup_insert_eq in Hl' by done. injection Hl' as <-.
      exists l. split; [done|]. split; [set_solver|].
      apply NoDup_app. split; [by eapply (inv_nodup _ tw Hi)|].
      split; [|apply NoDup_singleton]. intros j Hj ->%list_elem_of_singleton. by eapply Hnot.
    + rewrite list_lookup_insert_ne in Hl' by done. exists l'. split; [done|]. split; [naive_solver|].
      by eapply (inv_nodup _ tw Hi).
  - intros p l0 j Hp Hj. destruct (decide (p = Z.to_nat pos)) as [->|].
    + rewrite list_lookup_insert_eq by done. eexists. split; [done|].
      rewrite Hl in Hp. injection Hp as <-. set_solver.
    + rewrite list_lookup_insert_ne by done. eauto.
  - rewrite list_lookup_insert_eq by done. eexists. split; [done|]. set_solver.
Qed.

(** The wheel after an item of the key being rescheduled was pushed to [pos] and the
    position [pid] of the key was set to it. *)
Definition placed_wheel (tw : TimingWheel) (pos : Z) (i : nat) (l : list nat) timers' next' (pid : nat) : TimingWheel :=
  mkTimingWheel (tw_interval tw) (<[Z.to_nat pos := l ++ [i]]> (tw_slots tw)) timers' (tw_tickedPos tw)
    (tw_numSlots tw) (tw_entries tw) (<[pid := mkPositionEntry pos i]> (tw_positions tw)) next'.

Section placed_wheel.
Variables (tw : TimingWheel) (pos : Z) (i : nat) (e : timingEntry) (l : list nat)
  (timers' : M) (next' pid : nat).
Hypothesis Hi : tw_inv (Some (te_key e)) tw.
Hypothesis He : tw_entries tw !! i = Some e.
Hypothesis Hr : te_removed e = false.
Hypothesis Hnot : forall p l, tw_slots tw !! p = Some l -> i ∉ l.
Hypothesis Hpos : 0 <= pos < tw_numSlots tw.
Hypothesis Hl : tw_slots tw !! Z.to_nat pos = Some l.
Hypothesis Hwf : kv_wf timers'.
Hypothesis Hmodel : kv_model timers' = <[te_key e := pid]> (tw_timer tw).
Hypothesis Hpid : (pid < next')%nat.
Hypothesis Hnext : (tw_next tw <= next')%nat.
Hypothesis Hown : forall k, tw_timer tw !! k = Some pid -> k = te_key e.

Let tw' := placed_wheel tw pos i l timers' next' pid.

Lemma placed_positions (k : K) (p' : nat) :
  k <> te_key e -> tw_timer tw !! k = Some p' -> tw_positions tw' !! p' = tw_positions tw !! p'.
Proof. intros Hne Hk. cbn. rewrite lookup_insert_ne; [done|]. intros ->. by apply Hne, Hown. Qed.

Lemma placed_timers (k : K) (p' : nat) :
  tw_timer tw' !! k = Some p' -> placed tw' k p'.
Proof.
  destruct (pushBack_slots _ tw pos i l Hi Hnot Hl) as (_ & Hsub & (l' & Hl' & Hil')).
  unfold tw_timer. cbn. rewrite Hmodel. intros Hk. destruct (decide (k = te_key e)) as [->|Hne].
  - rewrite lookup_insert_eq in Hk. injection Hk as <-. exists pos, i, e, l'. cbn.
    rewrite lookup_insert_eq. done.
  - rewrite lookup_insert_ne in Hk by done.
    destruct (inv_timer _ tw Hi k p' Hk ltac:(congruence))
      as (pos' & item & e' & l0 & Hp' & ? & ? & ? & ? & Hl0 & Hin0).
    destruct (Hsub _ _ _ Hl0 Hin0) as (l2 & Hl2 & Hin2).
    exists pos', item, e', l2. rewrite (placed_positions k p' Hne Hk). done.
Qed.

Lemma placed_live (p : nat) l' j e' :
  tw_slots tw' !! p = Some l' -> j ∈ l' -> tw_entries tw' !! j = Some e' -> te_removed e' = false ->
  exists q, tw_timer tw' !! te_key e' = Some q /\ tw_positions tw' !! q = Some (mkPositionEntry (Z.of_nat p) j).
Proof.
  intros Hl' Hj He' Hr'. destruct (pushBack_slots _ tw pos i l Hi Hnot Hl) as (Hslots & _ & _).
  destruct (Hslots p l' Hl') as (l0 & Hl0 & Hj' & _). unfold tw_timer. cbn in He' |- *. rewrite Hmodel.
  destruct (Hj' j Hj) as [[-> ->]|Hj0].
  - rewrite He in He'. injection He' as <-. exists pid. rewrite !lookup_insert_eq.
    split; [done|]. do 2 f_equal. lia.
  - destruct (inv_live _ tw Hi p l0 j e' Hl0 Hj0 He' Hr') as (Hne & p' & Hk & Hp').
    assert (Hne' : te_key e' <> te_key e) by congruence.
    exists p'. rewrite lookup_insert_ne by done. split; [done|].
    pose proof (placed_positions _ _ Hne' Hk) as Hpe. cbn in Hpe. by rewrite Hpe.
Qed.

Lemma placed_inv : tw_inv None tw'.
Proof.
  destruct (pushBack_slots _ tw pos i l Hi Hnot Hl) as (Hslots & _ & _).
  constructor; try apply Hi; try done.
  - cbn. rewrite length_insert. apply Hi.
  - intros p l' j Hl' Hj. destruct (Hslots p l' Hl') as (l0 & Hl0 & Hj' & _).
    destruct (Hj' j Hj) as [[-> _]|Hj0]; [cbn; eauto|]. by eapply (inv_slots _ tw Hi).
  - intros p l' Hl'. by destruct (Hslots p l' Hl') as (_ & _ & _ & ?).
  - intros k p' Hk _. by apply placed_timers.
  - intros p l' j e' Hl' Hj He' Hr'. split; [done|]. by eapply placed_live.
  - cbn. intros j e' He'. pose proof (inv_fresh_e _ tw Hi j e' He'). lia.
  - unfold tw_timer. cbn. rewrite Hmodel. intros k p' Hk.
    apply lookup_insert_Some in Hk as [[_ <-]|[_ Hk]]; [done|].
    pose proof (inv_fresh_p _ tw Hi k p' Hk). lia.
  - unfold tw_timer. cbn. rewrite Hmodel. intros k1 k2 p' H1 H2.
    apply lookup_insert_Some in H1 as [[<- <-]|[Hn1 H1]];
      apply lookup_insert_Some in H2 as [[<- ?]|[Hn2 H2]]; try done.
    + symmetry. by apply Hown.
    + subst p'. by apply Hown.
    + by eapply (inv_inj _ tw Hi).
Qed.

Lemma placed_find_self : tw_find tw' (te_key e) = Some (mkPositionEntry pos i, e).
Proof.
  unfold tw_find, tw_timer. cbn. rewrite Hmodel, lookup_insert_eq. cbn.
  rewrite lookup_insert_eq. cbn. by rewrite He.
Qed.

Lemma placed_find_other (k : K) : k <> te_key e -> tw_find tw' k = tw_find tw k.
Proof.
  intros Hne. unfold tw_find. assert (Ht : tw_timer tw' !! k = tw_timer tw !! k).
  { unfold tw_timer at 1. cbn. by rewrite Hmodel, lookup_insert_ne by done. }
  rewrite Ht. destruct (tw_timer tw !! k) as [p'|] eqn:Hk; [|done]. cbn [mbind option_bind].
  by rewrite (placed_positions k p' Hne Hk).
Qed.

End placed_wheel.

(** Placing a live item that is in no slot for the key being rescheduled. *)
Lemma place_inv (tw : TimingWheel) (pos : Z) (i : nat) (e : timingEntry) :
  tw_inv (Some (te_key e)) tw -> tw_entries tw !! i = Some e -> te_removed e = false ->
  (forall p l, tw_slots tw !! p = Some l -> i ∉ l) -> 0 <= pos < tw_numSlots tw ->
  exists tw1 tw', pushBack pos i tw = Some tw1 /\ setTimerPosition pos i tw1 = Some tw' /\
    tw_inv None tw' /\ tw_find tw' (te_key e) = Some (mkPositionEntry pos i, e) /\
    (forall k, k <> te_key e -> tw_find tw' k = tw_find tw k) /\
    (forall p l0 j, tw_slots tw !! p = Some l0 -> j ∈ l0 ->
       exists l', tw_slots tw' !! p = Some l' /\ j ∈ l') /\
    tw_interval tw' = tw_interval tw /\ tw_numSlots tw' = tw_numSlots tw /\
    tw_tickedPos tw' = tw_tickedPos tw /\ tw_entries tw' = tw_entries tw.
Proof.
  intros Hi He Hr Hnot Hpos.
  destruct (lookup_lt_is_Some_2 (tw_slots tw) (Z.to_nat pos)) as [l Hl].
  { rewrite (inv_len _ tw Hi). lia. }
  destruct (pushBack_slots _ tw pos i l Hi Hnot Hl) as (_ & Hsub & _).
  unfold pushBack. rewrite (proj2 (Z.ltb_ge pos 0)) by lia. rewrite Hl. cbn.
  exists (tw <| tw_slots := <[Z.to_nat pos := l ++ [i]]> (tw_slots tw) |>).
  unfold setTimerPosition. cbn. rewrite He. cbn. rewrite (tw_get _ tw _ Hi).
  destruct (tw_timer tw !! te_key e) as [pid|] eqn:Et.
  - assert (H1 : kv_model (tw_timers tw) = <[te_key e := pid]> (tw_timer tw)) by (by rewrite insert_id).
    assert (H2 : (pid < tw_next tw)%nat) by (by eapply (inv_fresh_p _ tw Hi)).
    assert (H3 : forall k, tw_timer tw !! k = Some pid -> k = te_key e) by (intros; by eapply (inv_inj _ tw Hi)).
    exists (placed_wheel tw pos i l (tw_timers tw) (tw_next tw) pid). split; [done|]. split; [done|].
    split; [by apply (placed_inv tw pos i e l); try done; apply Hi|].
    split; [by apply placed_find_self|]. split; [|done]. intros k Hk. by apply (placed_find_other tw pos i e l).
  - assert (H1 : kv_model (kv_set (te_key e) (tw_next tw) (tw_timers tw)) = <[te_key e := tw_next tw]> (tw_timer tw))
      by (apply kv_set_model, Hi).
    assert (H3 : forall k, tw_timer tw !! k = Some (tw_next tw) -> k = te_key e)
      by (intros k Hk; pose proof (inv_fresh_p _ tw Hi k _ Hk); lia).
    exists (placed_wheel tw pos i l (kv_set (te_key e) (tw_next tw) (tw_timers tw)) (S (tw_next tw)) (tw_next tw)).
    split; [done|]. split; [done|].
    split; [apply (placed_inv tw pos i e l); try done; try lia; apply kv_set_wf, Hi|].
    split; [by apply placed_find_self|]. split; [|done]. intros k Hk. apply (placed_find_other tw pos i e l); done || lia.
Qed.

(** ** Time *)

Lemma visits_cases (t p n : Z) :
  0 <= t < n -> 0 <= p < n -> visits t p n = if decide (t < p) then p - t else p - t + n.
Proof.
  intros. unfold visits. case_decide.
  - rewrite Z.mod_small; lia.
  - replace (p - t - 1) with ((p - t - 1 + n) + (-1) * n) by lia.
    rewrite Z.mod_add by lia. rewrite Z.mod_small; lia.
Qed.

Lemma visits_range (t p n : Z) : 0 < n -> 1 <= visits t p n <= n.
Proof. intros. unfold visits. pose proof (Z.mod_pos_bound (p - t - 1) n). lia. Qed.

Lemma rem_wrap (a b n : Z) :
  0 <= a < n -> 0 <= b <= n -> Z.rem (a + b) n = if decide (a + b < n) then a + b else a + b - n.
Proof.
  intros. rewrite Z.rem_mod_nonneg by lia. case_decide.
  - apply Z.mod_small. lia.
  - replace (a + b) with ((a + b - n) + 1 * n) at 1 by lia. rewrite Z.mod_add by lia.
    destruct (decide (a + b = n + n)) as [E|]; [lia|]. apply Z.mod_small. lia.
Qed.

Lemma visits_forward (t d n : Z) :
  0 <= t < n -> 0 < d < n -> 0 <= Z.rem (t + d) n < n /\ visits t (Z.rem (t + d) n) n = d.
Proof.
  intros. rewrite rem_wrap by lia.
  rewrite visits_cases by (repeat case_decide; lia). repeat case_decide; lia.
Qed.

Lemma visits_next (t p n : Z) :
  0 <= t < n -> 0 <= p < n ->
  let t' := Z.rem (t + 1) n in
  0 <= t' < n /\ visits t p n = if decide (p = t') then 1 else visits t' p n + 1.
Proof.
  intros Ht Hp t'.
  assert (Et : t' = if decide (t + 1 < n) then t + 1 else 0)
    by (subst t'; rewrite rem_wrap by lia; case_decide; lia).
  assert (0 <= t' < n) by (rewrite Et; case_decide; lia).
  split; [done|]. rewrite !visits_cases by lia. repeat case_decide; lia.
Qed.

(** ** Scanning the ticked slot *)

Definition drop0 (o : option (Z * V)) : option (Z * V) :=
  match o with
  | Some (r, v) => if r =? 0 then None else Some (r, v)
  | None => None
  end.

(** The clock part of two wheels is the same. *)
Definition same_clock (tw tw' : TimingWheel) : Prop :=
  tw_interval tw' = tw_interval tw /\ tw_numSlots tw' = tw_numSlots tw /\
  tw_tickedPos tw' = tw_tickedPos tw.

Lemma tw_left_frame (i : nat) (l : list nat) (tw tw' : TimingWheel) (k : K) :
  same_clock tw tw' -> tw_find tw' k = tw_find tw k ->
  (forall pe e, tw_find tw k = Some (pe, e) -> pe_item pe <> i) ->
  tw_left l tw' k = tw_left (i :: l) tw k.
Proof.
  intros (_ & En & Et) Hf Hi. unfold tw_left. rewrite Hf, En, Et.
  destruct (tw_find tw k) as [[pe e]|] eqn:E; [|done]. cbn.
  specialize (Hi pe e eq_refl).
  destruct (decide (pe_item pe ∈ l)), (decide (pe_item pe ∈ i :: l)); try done; set_solver.
Qed.

Lemma other_item (tw : TimingWheel) p l i e k :
  tw_inv None tw -> tw_slots tw !! p = Some l -> i ∈ l ->
  tw_entries tw !! i = Some e -> te_removed e = false -> k <> te_key e ->
  forall pe' e', tw_find tw k = Some (pe', e') -> pe_item pe' <> i.
Proof.
  intros Hi Hl Hin He Hr Hk pe' e' Hf' Ei. apply Hk.
  destruct (inv_live_find None tw p l i e Hi Hl Hin He Hr) as [_ Hf].
  eapply (tw_find_item_inj None tw); eauto.
Qed.

(** One iteration of the loop: the state it leaves and what it does to the clock of
    every key.  [None] in the last component means that nothing is executed. *)
Definition scan_iter (i : nat) (l : list nat) (tw tw' : TimingWheel) (run : option (K * V)) : Prop :=
  tw_inv None tw' /\ same_clock tw tw' /\
  (forall l0 j, tw_slots tw !! Z.to_nat (tw_tickedPos tw) = Some l0 -> j ∈ l0 -> j <> i ->
     exists l1, tw_slots tw' !! Z.to_nat (tw_tickedPos tw) = Some l1 /\ j ∈ l1) /\
  match run with
  | None => forall k, tw_left l tw' k = tw_left (i :: l) tw k
  | Some (k, v) => tw_left (i :: l) tw k = Some (0, v) /\ tw_left l tw' k = None /\
      forall k', k' <> k -> tw_left l tw' k' = tw_left (i :: l) tw k'
  end.

Section iteration.
Variables (tw : TimingWheel) (i : nat) (l l0 : list nat) (e : timingEntry).
Hypotheses (Hi : tw_inv None tw)
  (Hl0 : tw_slots tw !! Z.to_nat (tw_tickedPos tw) = Some l0)
  (Hin : i ∈ l0) (Hfresh : i ∉ l)
  (He : tw_entries tw !! i = Some e).

Lemma iter_removed :
  te_removed e = true -> scan_iter i l tw (slotRemove (tw_tickedPos tw) i tw) None.
Proof.
  intros Hr. split; [eapply slotRemove_inv; eauto|]. split; [done|]. split.
  - intros l' j Hl' Hj Hji. eapply slotRemove_keeps; eauto.
  - intros k. apply tw_left_frame; [done..|]. intros pe e' Hf <-.
    destruct (tw_find_key None tw k pe e' Hi ltac:(done) Hf) as [_ Hr'].
    unfold tw_find in Hf. simplify_option_eq. congruence.
Qed.

Hypothesis (Hr : te_removed e = false).

Lemma iter_find :
  tw_find tw (te_key e) = Some (mkPositionEntry (tw_tickedPos tw) i, e).
Proof.
  destruct (inv_live_find None tw _ l0 i e Hi Hl0 Hin He Hr) as [_ Hf].
  rewrite Hf. rewrite Z2Nat.id; [done|]. pose proof (inv_pos None tw Hi). lia.
Qed.

Lemma iter_left_key :
  tw_left (i :: l) tw (te_key e) = Some (te_circle e * tw_numSlots tw + te_diff e, te_value e).
Proof.
  unfold tw_left. rewrite iter_find. cbn. rewrite decide_True by set_solver. done.
Qed.

Lemma iter_circle :
  0 < te_circle e ->
  scan_iter i l tw (updEntry i (fun e => e <| te_circle := te_circle e - 1 |>) tw) None.
Proof.
  intros Hc. split.
  { apply updEntry_inv; [done|]. intros e' He'. rewrite He in He'. injection He' as <-.
    pose proof (inv_bounds None tw Hi i e He). cbn. repeat split; lia. }
  split; [done|]. split; [cbn; eauto|].
  intros k. destruct (decide (k = te_key e)) as [->|Hk].
  - rewrite iter_left_key. unfold tw_left. rewrite updEntry_find, iter_find. cbn.
    rewrite decide_False by done. rewrite decide_True by done. cbn.
    rewrite visits_cases, decide_False by (pose proof (inv_pos None tw Hi); lia).
    do 2 f_equal. lia.
  - apply tw_left_frame; [done| |by eapply other_item].
    rewrite updEntry_find. destruct (tw_find tw k) as [[pe e']|] eqn:Hf; [|done]. cbn.
    rewrite decide_False; [done|]. by eapply (other_item tw _ l0 i e k).
Qed.

Lemma iter_fire :
  te_circle e = 0 -> te_diff e = 0 ->
  let tw1 := slotRemove (tw_tickedPos tw) i tw in
  scan_iter i l tw (tw1 <| tw_timers := kv_del (te_key e) (tw_timers tw1) |>)
    (Some (te_key e, te_value e)).
Proof.
  intros Hc Hd tw1.
  assert (Hi1 : tw_inv (Some (te_key e)) tw1) by (eapply slotRemove_inv; eauto 10).
  destruct (unschedule_inv (te_key e) tw1 Hi1) as (Hi2 & Hnone & Hother).
  split; [done|]. split; [done|]. split.
  { intros l' j Hl' Hj Hji. eapply (slotRemove_keeps tw); eauto. }
  split; [rewrite iter_left_key, Hc, Hd; do 2 f_equal; lia|].
  split; [unfold tw_left; by rewrite Hnone|].
  intros k Hk. apply tw_left_frame; [done|by rewrite Hother|by eapply other_item].
Qed.

(** An item with a pending offset moves on to its final slot. *)
Lemma iter_move :
  te_circle e = 0 -> 0 < te_diff e ->
  let pos := Z.rem (tw_tickedPos tw + te_diff e) (tw_numSlots tw) in
  exists tw1 tw2,
    pushBack pos i (slotRemove (tw_tickedPos tw) i tw) = Some tw1 /\
    setTimerPosition pos i tw1 = Some tw2 /\
    scan_iter i l tw (updEntry i (fun e => e <| te_diff := 0 |>) tw2) None.
Proof.
  intros Hc Hd pos. pose proof (inv_pos None tw Hi) as Ht.
  destruct (inv_bounds None tw Hi i e He) as [_ Hb].
  destruct (visits_forward (tw_tickedPos tw) (te_diff e) (tw_numSlots tw) Ht ltac:(lia)) as [Hpos Hv].
  fold pos in Hpos, Hv.
  assert (Hi1 : tw_inv (Some (te_key e)) (slotRemove (tw_tickedPos tw) i tw))
    by (eapply slotRemove_inv; eauto 10).
  assert (Hnot : forall p l', tw_slots (slotRemove (tw_tickedPos tw) i tw) !! p = Some l' -> i ∉ l').
  { intros p l' Hl' Hil'. destruct (slotRemove_lookup _ _ _ _ _ Hl') as (l1 & Hl1 & Hsub & _).
    destruct (Hsub i Hil') as [Hi1' Hne]. apply Hne; [|done].
    destruct (inv_live_find None tw p l1 i e Hi Hl1 Hi1' He Hr) as [_ Hf].
    rewrite iter_find in Hf. injection Hf as Ep. lia. }
  destruct (place_inv (slotRemove (tw_tickedPos tw) i tw) pos i e Hi1 He Hr Hnot Hpos)
    as (tw1 & tw2 & H1 & H2 & Hi2 & Hfk & Hfo & Hkeep & E1 & E2 & E3 & E4).
  exists tw1, tw2. split; [done|]. split; [done|]. split.
  { apply updEntry_inv; [done|]. intros e' He'. rewrite E4 in He'. cbn in He'.
    rewrite He in He'. injection He' as <-. rewrite E2. cbn. repeat split; lia. }
  split; [done|]. split.
  { intros l' j Hl' Hj Hji.
    destruct (slotRemove_keeps tw (tw_tickedPos tw) i _ j l' Hl' Hj (or_introl Hji)) as (l2 & Hl2 & Hj2).
    by eapply Hkeep. }
  intros k. destruct (decide (k = te_key e)) as [->|Hk].
  - rewrite iter_left_key. unfold tw_left. rewrite updEntry_find, Hfk. cbn.
    rewrite decide_False by done. rewrite decide_True by done. cbn.
    rewrite E2, E3. cbn. rewrite Hv, Hc. do 2 f_equal. lia.
  - apply tw_left_frame; [done| |by eapply other_item].
    rewrite updEntry_find, Hfo by done. change (tw_find (slotRemove _ _ tw) k) with (tw_find tw k).
    destruct (tw_find tw k) as [[pe e']|] eqn:Hf; [|done]. cbn.
    rewrite decide_False; [done|]. by eapply (other_item tw _ l0 i e k).
Qed.

End iteration.

(** What the scan of the items [l] of the ticked slot has to return. *)
Definition scan_result (l : list nat) (tw : TimingWheel) (acc : list (K * V))
    (res : option (TimingWheel * list (K * V))) : Prop :=
  exists tw' tasks, res = Some (tw', acc ++ tasks) /\ tw_inv None tw' /\ same_clock tw tw' /\
    (forall k, tw_abs tw' k = drop0 (tw_left l tw k)) /\
    (forall k v, (k, v) ∈ tasks <-> tw_left l tw k = Some (0, v)) /\ NoDup tasks.*1.

Lemma scan_nil (tw : TimingWheel) (acc : list (K * V)) :
  tw_inv None tw -> scan_result [] tw acc (Some (tw, acc)).
Proof.
  intros Hi. exists tw, []. rewrite app_nil_r. split; [done|]. split; [done|]. split; [done|].
  assert (Hpos : forall k r v, tw_left [] tw k = Some (r, v) -> 1 <= r).
  { intros k r v Hk. unfold tw_left in Hk.
    destruct (tw_find tw k) as [[pe e]|] eqn:Hf; [|done]. cbn in Hk. injection Hk as <- _.
    unfold tw_find in Hf. simplify_option_eq.
    pose proof (inv_bounds None tw Hi _ _ ltac:(eassumption)).
    pose proof (visits_range (tw_tickedPos tw) (pe_pos pe) (tw_numSlots tw) (inv_num None tw Hi)).
    pose proof (inv_num None tw Hi). nia. }
  split; [|split; [|constructor]].
  - intros k. unfold tw_abs. destruct (tw_left [] tw k) as [[r v]|] eqn:E; [|done].
    cbn. apply Hpos in E. rewrite (proj2 (Z.eqb_neq r 0)); [done|lia].
  - intros k v. split; [set_solver|]. intros E%Hpos. lia.
Qed.

(** One iteration followed by the rest of the scan. *)
Lemma scan_cons (i : nat) (l : list nat) (tw tw1 : TimingWheel) run (acc : list (K * V)) res :
  scan_iter i l tw tw1 run -> scan_result l tw1 (acc ++ option_list run) res ->
  scan_result (i :: l) tw acc res.
Proof.
  intros (Hi1 & Hck & Hkeep & Hrun) (tw' & tasks & -> & Hi' & Hck' & Habs & Hmem & Hnd').
  exists tw', (option_list run ++ tasks). rewrite app_assoc. split; [done|]. split; [done|].
  split; [unfold same_clock in *; intuition congruence|].
  destruct run as [[k0 v0]|]; cbn.
  - destruct Hrun as (H0 & Hn & Hrest). split; [|split].
    + intros k. rewrite Habs. destruct (decide (k = k0)) as [->|Hk]; [by rewrite Hn, H0|].
      by rewrite Hrest.
    + intros k v. rewrite elem_of_cons, Hmem. destruct (decide (k = k0)) as [->|Hk].
      * rewrite Hn, H0. naive_solver.
      * rewrite Hrest by done. naive_solver.
    + apply NoDup_cons. split; [|done]. intros ([k v] & Hk & Hkv)%list_elem_of_fmap. cbn in Hk.
      subst k0. apply Hmem in Hkv. congruence.
  - split; [|split]; [| |done].
    + intros k. by rewrite Habs, Hrun.
    + intros k v. by rewrite Hmem, Hrun.
Qed.

Lemma scan_ok (l : list nat) (tw : TimingWheel) (acc : list (K * V)) :
  tw_inv None tw -> NoDup l ->
  (forall i, i ∈ l -> exists l0, tw_slots tw !! Z.to_nat (tw_tickedPos tw) = Some l0 /\ i ∈ l0) ->
  scan_result l tw acc (scanAndRunTasks l tw acc).
Proof.
  revert tw acc. induction l as [|i l IH]; intros tw acc Hi Hnd Hsub; [by apply scan_nil|].
  apply NoDup_cons in Hnd as [Hil Hnd].
  destruct (Hsub i ltac:(set_solver)) as (l0 & Hl0 & Hin).
  destruct (inv_slots None tw Hi _ l0 i Hl0 Hin) as [e He].
  assert (Hcont : forall tw1 run acc1, scan_iter i l tw tw1 run -> acc1 = acc ++ option_list run ->
    scan_result (i :: l) tw acc (scanAndRunTasks l tw1 acc1)).
  { intros tw1 run acc1 Hit ->. apply (scan_cons i l tw tw1 run acc); [done|].
    destruct Hit as (Hi1 & (_ & _ & Ht) & Hkeep & _). apply IH; [done|done|]. rewrite Ht.
    intros j Hj. destruct (Hsub j ltac:(set_solver)) as (l0' & Hl0' & Hj').
    apply (Hkeep l0' j); [done|done|]. intros ->. done. }
  cbn. rewrite He. cbn. destruct (te_removed e) eqn:Hr.
  { apply (Hcont _ None); [by eapply iter_removed|cbn; by rewrite app_nil_r]. }
  destruct (inv_bounds None tw Hi i e He) as [Hb1 Hb2].
  destruct (Z.ltb_spec 0 (te_circle e)).
  { apply (Hcont _ None); [by eapply iter_circle|cbn; by rewrite app_nil_r]. }
  destruct (Z.ltb_spec 0 (te_diff e)).
  { destruct (iter_move tw i l l0 e Hi Hl0 Hin Hil He Hr ltac:(lia) ltac:(lia))
      as (tw1 & tw2 & Hpush & Hset & Hit).
    rewrite Hpush. cbn. rewrite Hset. cbn.
    apply (Hcont _ None); [done|cbn; by rewrite app_nil_r]. }
  eapply (Hcont _ (Some _)); [eapply iter_fire; eauto; lia|done].
Qed.

(** *** The four operations on the abstract wheel *)

(** A tick brings every key one tick closer and executes exactly those whose time has
    come, once each. *)
Lemma onTick_ok (tw : TimingWheel) :
  tw_inv None tw ->
  exists tw' tasks, onTick tw = Some (tw', tasks) /\ tw_inv None tw' /\
    tw_interval tw' = tw_interval tw /\ tw_numSlots tw' = tw_numSlots tw /\
    (forall k, tw_abs tw' k = match tw_abs tw k with
                              | Some (r, v) => if r =? 1 then None else Some (r - 1, v)
                              | None => None
                              end) /\
    (forall k v, (k, v) ∈ tasks <-> tw_abs tw k = Some (1, v)) /\ NoDup tasks.*1.
Proof.
  intros Hi. unfold onTick.
  set (tw1 := tw <| tw_tickedPos := Z.rem (tw_tickedPos tw + 1) (tw_numSlots tw) |>).
  pose proof (inv_pos None tw Hi) as Ht. pose proof (inv_num None tw Hi) as Hn.
  destruct (visits_next (tw_tickedPos tw) 0 (tw_numSlots tw) Ht ltac:(lia)) as [Ht' _].
  assert (Hi1 : tw_inv None tw1) by (constructor; try apply Hi; done).
  destruct (lookup_lt_is_Some_2 (tw_slots tw1) (Z.to_nat (tw_tickedPos tw1))) as [l Hl].
  { rewrite (inv_len None tw1 Hi1). cbn. lia. }
  rewrite Hl. cbn [mbind option_bind].
  destruct (scan_ok l tw1 [] Hi1 (inv_nodup None tw1 Hi1 _ _ Hl)) as
    (tw' & tasks & Hs & Hi' & (Ei & En & _) & Habs & Hmem & Hnd); [eauto|].
  exists tw', tasks. split; [done|]. split; [done|]. split; [done|]. split; [done|].
  (* pending at the new position = one tick less *)
  assert (Hleft : forall k, tw_left l tw1 k =
    match tw_abs tw k with Some (r, v) => Some (r - 1, v) | None => None end).
  { intros k. unfold tw_abs, tw_left.
    change (tw_find tw1 k) with (tw_find tw k).
    pose proof (inv_find None tw k Hi ltac:(done)) as Hk.
    destruct (tw_timer tw !! k) as [pid|]; [|by rewrite Hk].
    destruct Hk as (pos & item & e & l' & -> & _ & He & _ & Hr & Hb & Hl' & Hin). cbn.
    destruct (visits_next (tw_tickedPos tw) pos (tw_numSlots tw) Ht Hb) as [_ Hv].
    rewrite (decide_False (P := item ∈ [])) by set_solver.
    assert (Hiff : item ∈ l <-> pos = tw_tickedPos tw1).
    { cbn in Hl. split.
      - intros Hit. destruct (inv_live_find None tw _ l item e Hi Hl Hit He Hr) as [_ Hf1].
        destruct (inv_live_find None tw _ l' item e Hi Hl' Hin He Hr) as [_ Hf2].
        rewrite Hf1 in Hf2. injection Hf2 as E. cbn. lia.
      - intros ->. cbn in Hl'. congruence. }
    rewrite Hv. cbn in Hiff. destruct (decide (item ∈ l)) as [Hit|Hit].
    - rewrite (decide_True (P := pos = _)) by (by apply Hiff). do 2 f_equal. lia.
    - rewrite (decide_False (P := pos = _)) by (by rewrite <- Hiff). do 2 f_equal. lia. }
  split; [|split; [|done]].
  - intros k. rewrite Habs, Hleft. destruct (tw_abs tw k) as [[r v]|]; [|done]. cbn.
    destruct (Z.eqb_spec (r - 1) 0), (Z.eqb_spec r 1); done || lia.
  - intros k v. rewrite Hmem, Hleft. destruct (tw_abs tw k) as [[r v']|]; [|naive_solver].
    split; intros [= ? ->]; do 2 f_equal; lia.
Qed.

(** The whole number of ticks in a delay, and that no position overflows. *)
Definition steps (tw : TimingWheel) (delay : Z) : Z := Z.quot delay (tw_interval tw).
Definition fits (tw : TimingWheel) (delay : Z) : Prop :=
  steps tw delay + tw_numSlots tw < 2^63.

Lemma getPositionAndCircle_spec (tw : TimingWheel) (delay : Z) :
  tw_inv None tw -> tw_interval tw <= delay -> fits tw delay ->
  let '(pos, circle) := getPositionAndCircle delay tw in
  1 <= steps tw delay /\ 0 <= pos < tw_numSlots tw /\ 0 <= circle /\
  visits (tw_tickedPos tw) pos (tw_numSlots tw) + circle * tw_numSlots tw = steps tw delay.
Proof.
  intros Hi Hd Hf. unfold getPositionAndCircle. fold (steps tw delay).
  pose proof (inv_pos None tw Hi) as Ht. pose proof (inv_interval None tw Hi) as Hint.
  assert (Hs : 1 <= steps tw delay).
  { unfold steps. rewrite Z.quot_div_nonneg by lia. apply Z.div_le_lower_bound; lia. }
  unfold fits in Hf. set (s := steps tw delay) in *. set (n := tw_numSlots tw) in *.
  rewrite !wrap64_small by lia. rewrite Z.rem_mod_nonneg, Z.quot_div_nonneg by lia.
  split; [done|]. split; [apply Z.mod_pos_bound; lia|]. split; [apply Z.div_pos; lia|].
  unfold visits.
  replace ((tw_tickedPos tw + s) mod n - tw_tickedPos tw - 1)
    with ((tw_tickedPos tw + s) mod n - (tw_tickedPos tw + 1)) by lia.
  rewrite Zminus_mod_idemp_l. replace (tw_tickedPos tw + s - (tw_tickedPos tw + 1)) with (s - 1) by lia.
  pose proof (Z.div_mod (s - 1) n). lia.
Qed.

Lemma tw_abs_find (tw : TimingWheel) (k : K) pe e :
  tw_find tw k = Some (pe, e) ->
  tw_abs tw k = Some (visits (tw_tickedPos tw) (pe_pos pe) (tw_numSlots tw)
                      + te_circle e * tw_numSlots tw + te_diff e, te_value e).
Proof.
  intros Hf. unfold tw_abs, tw_left. rewrite Hf. cbn.
  by rewrite (decide_False (P := pe_item pe ∈ [])) by set_solver.
Qed.

Lemma tw_abs_None (tw : TimingWheel) (k : K) : tw_abs tw k = None <-> tw_find tw k = None.
Proof. unfold tw_abs, tw_left. destruct (tw_find tw k) as [[]|]; naive_solver. Qed.

Lemma tw_abs_frame (tw tw' : TimingWheel) (k : K) :
  same_clock tw tw' -> tw_find tw' k = tw_find tw k -> tw_abs tw' k = tw_abs tw k.
Proof. intros (_ & En & Et) Hf. unfold tw_abs, tw_left. by rewrite Hf, En, Et. Qed.

(** A new item in the slot [pos] for the key being rescheduled. *)
Lemma place_new (tw : TimingWheel) (pos : Z) (e : timingEntry) :
  tw_inv (Some (te_key e)) tw -> te_removed e = false -> 0 <= te_circle e -> te_diff e = 0 ->
  0 <= pos < tw_numSlots tw ->
  exists tw1 tw', pushBack pos (newEntry e tw).1 (newEntry e tw).2 = Some tw1 /\
    setTimerPosition pos (newEntry e tw).1 tw1 = Some tw' /\
    tw_inv None tw' /\ same_clock tw tw' /\
    tw_abs tw' (te_key e) = Some (visits (tw_tickedPos tw) pos (tw_numSlots tw)
      + te_circle e * tw_numSlots tw, te_value e) /\
    (forall k, k <> te_key e -> tw_abs tw' k = tw_abs tw k).
Proof.
  intros Hi Hr Hc Hd Hpos.
  destruct (newEntry_inv _ tw e Hi Hc ltac:(lia)) as (Hi1 & Hf1 & Hnot).
  destruct (place_inv (newEntry e tw).2 pos (tw_next tw) e Hi1)
    as (tw1 & tw' & H1 & H2 & Hi' & Hfk & Hfo & _ & E1 & E2 & E3 & _); try done.
  { cbn. apply lookup_insert_eq. }
  exists tw1, tw'. split; [done|]. split; [done|]. split; [done|].
  assert (Hck : same_clock tw tw') by done.
  split; [done|]. split.
  - rewrite (tw_abs_find _ _ _ _ Hfk). cbn [pe_pos]. rewrite E2, E3. cbn. do 2 f_equal. lia.
  - intros k Hk. apply tw_abs_frame; [done|]. rewrite Hfo by done. apply Hf1. congruence.
Qed.

Definition eff_delay (tw : TimingWheel) (delay : Z) : Z :=
  if delay <? tw_interval tw then tw_interval tw else delay.

(** Setting a timer for a key that has none. *)
Lemma setTask_fresh (tw : TimingWheel) (delay : Z) (k : K) (v : V) :
  tw_inv None tw -> tw_abs tw k = None -> fits tw (eff_delay tw delay) ->
  exists tw', setTask delay k v tw = Some (tw', []) /\ tw_inv None tw' /\ same_clock tw tw' /\
    tw_abs tw' k = Some (steps tw (eff_delay tw delay), v) /\
    (forall k', k' <> k -> tw_abs tw' k' = tw_abs tw k').
Proof.
  intros Hi Hnone Hf. unfold setTask. fold (eff_delay tw delay).
  pose proof (inv_find None tw k Hi ltac:(done)) as Hk. rewrite (tw_get _ tw _ Hi).
  destruct (tw_timer tw !! k) as [pid|] eqn:Et.
  { destruct Hk as (? & ? & ? & ? & Hk & _). apply tw_abs_None in Hnone. congruence. }
  assert (Hd : tw_interval tw <= eff_delay tw delay)
    by (unfold eff_delay; destruct (Z.ltb_spec delay (tw_interval tw)); lia).
  pose proof (getPositionAndCircle_spec tw _ Hi Hd Hf) as Hpc.
  destruct (getPositionAndCircle (eff_delay tw delay) tw) as [pos circle].
  destruct Hpc as (Hs & Hpos & Hc & Hsum).
  assert (Hik : tw_inv (Some k) tw).
  { constructor; try apply Hi.
    - intros k' pid Hk' _. by apply (inv_timer None tw Hi).
    - intros p l i e Hl Hin He Hr.
      destruct (inv_live None tw Hi p l i e Hl Hin He Hr) as (_ & pid & Hpid & Hp).
      split; [|eauto]. intros [= E]. congruence. }
  destruct (place_new tw pos (mkTimingEntry (eff_delay tw delay) k v circle 0 false))
    as (tw1 & tw' & H1 & H2 & Hi' & Hck & Hk' & Hother); try done.
  cbn [newEntry fst snd] in H1, H2. cbn [newEntry]. rewrite H1. cbn [mbind option_bind].
  rewrite H2. cbn. exists tw'. split; [done|]. split; [done|]. split; [done|].
  split; [|exact Hother]. cbn in Hk'. by rewrite Hk', Hsum.
Qed.

(** Ticks left after [moveTask] put a key whose item sits in slot [p] to the slot [pos],
    [s] ticks away, the wheel of [n] slots standing at [t]. *)
Definition moved_left (t p pos n s : Z) : Z :=
  if bool_decide (p <= t < pos) then s + n
  else if bool_decide (pos <= t < p /\ n < s) then s - n
  else s.

Definition tw_slot (tw : TimingWheel) (k : K) : Z :=
  match tw_find tw k with Some (pe, _) => pe_pos pe | None => 0 end.

(** Rewriting the circle and offset of the scheduled item of [k]. *)
Lemma reoffset_ok (tw : TimingWheel) (k : K) (pos' c d : Z) item e :
  tw_inv None tw -> tw_find tw k = Some (mkPositionEntry pos' item, e) ->
  0 <= c -> 0 <= d < tw_numSlots tw ->
  let tw' := updEntry item (fun e => e <| te_circle := c |> <| te_diff := d |>) tw in
  tw_inv None tw' /\
  tw_abs tw' k = Some (visits (tw_tickedPos tw) pos' (tw_numSlots tw) + c * tw_numSlots tw + d, te_value e) /\
  (forall k', k' <> k -> tw_abs tw' k' = tw_abs tw k').
Proof.
  intros Hi Hf Hc Hd tw'. split; [|split].
  - apply updEntry_inv; [done|]. intros e' _. done.
  - assert (Hf' : tw_find tw' k = Some (mkPositionEntry pos' item,
      e <| te_circle := c |> <| te_diff := d |>)).
    { unfold tw'. rewrite updEntry_find, Hf. cbn. by rewrite decide_True by done. }
    by rewrite (tw_abs_find _ _ _ _ Hf').
  - intros k' Hk'. apply tw_abs_frame; [done|]. unfold tw'. rewrite updEntry_find.
    destruct (tw_find tw k') as [[pe' e']|] eqn:Hf'; [|done]. cbn.
    rewrite decide_False; [done|]. intros E. apply Hk'.
    by eapply (tw_find_item_inj None tw).
Qed.

Lemma moveTask_ok (tw : TimingWheel) (delay : Z) (k : K) r v :
  tw_inv None tw -> tw_abs tw k = Some (r, v) -> tw_interval tw <= delay -> fits tw delay ->
  exists tw', moveTask delay k tw = Some (tw', []) /\ tw_inv None tw' /\ same_clock tw tw' /\
    tw_abs tw' k = Some (moved_left (tw_tickedPos tw) (tw_slot tw k) (getPositionAndCircle delay tw).1
                           (tw_numSlots tw) (steps tw delay), v) /\
    (forall k', k' <> k -> tw_abs tw' k' = tw_abs tw k').
Proof.
  intros Hi Habs Hd Hf. unfold moveTask.
  pose proof (inv_find None tw k Hi ltac:(done)) as Hk. rewrite (tw_get _ tw _ Hi).
  destruct (tw_timer tw !! k) as [pid|] eqn:Et.
  2:{ unfold tw_abs, tw_left in Habs. by rewrite Hk in Habs. }
  destruct Hk as (p & item & e & l & Hfk & Hp & He & Hke & Hre & Hb & Hl & Hin).
  assert (Hve : te_value e = v).
  { unfold tw_abs, tw_left in Habs. rewrite Hfk in Habs. cbn in Habs. congruence. }
  unfold tw_slot. rewrite Hfk. cbn [pe_pos].
  rewrite Hp. cbn [mbind option_bind pe_item pe_pos]. rewrite He. cbn [mbind option_bind].
  rewrite (proj2 (Z.ltb_ge _ _)) by done.
  pose proof (getPositionAndCircle_spec tw _ Hi Hd Hf) as Hpc.
  destruct (getPositionAndCircle delay tw) as [pos circle].
  destruct Hpc as (Hs & Hpos & Hc & Hsum). cbn [fst].
  pose proof (inv_pos None tw Hi) as Ht.
  assert (Hvp : visits (tw_tickedPos tw) pos (tw_numSlots tw) =
    if decide (tw_tickedPos tw < pos) then pos - tw_tickedPos tw else pos - tw_tickedPos tw + tw_numSlots tw)
    by (by apply visits_cases).
  assert (Hvo : visits (tw_tickedPos tw) p (tw_numSlots tw) =
    if decide (tw_tickedPos tw < p) then p - tw_tickedPos tw else p - tw_tickedPos tw + tw_numSlots tw)
    by (by apply visits_cases).
  destruct (Z.leb_spec p pos) as [Hpp|Hpp]; [|destruct (Z.ltb_spec 0 circle) as [Hcc|Hcc]].
  - destruct (reoffset_ok tw k p circle (pos - p) item e Hi Hfk Hc ltac:(lia)) as (H1 & H2 & H3).
    eexists. split; [reflexivity|]. split; [exact H1|]. split; [done|]. split; [|exact H3].
    etransitivity; [exact H2|]. rewrite Hve. do 2 f_equal. rewrite Hvo. unfold moved_left.
    clear Habs. repeat case_bool_decide; repeat case_decide; nia.
  - destruct (reoffset_ok tw k p (circle - 1) (tw_numSlots tw + pos - p) item e Hi Hfk ltac:(lia) ltac:(lia))
      as (H1 & H2 & H3).
    eexists. split; [reflexivity|]. split; [exact H1|]. split; [done|]. split; [|exact H3].
    etransitivity; [exact H2|]. rewrite Hve. do 2 f_equal. rewrite Hvo. unfold moved_left.
    clear Habs. repeat case_bool_decide; repeat case_decide; nia.
  - destruct (markRemoved_inv tw k pid _ Hi Et Hp) as (Him & Hfm). cbn [pe_item] in Him, Hfm.
    destruct (place_new (updEntry item (fun e => e <| te_removed := true |>) tw) pos
      (mkTimingEntry delay k (te_value e) 0 0 false)) as (tw1 & tw' & H1 & H2 & Hi' & Hck & Hk' & Hother); try done.
    cbn [newEntry fst snd] in H1, H2. cbn [newEntry]. rewrite H1. cbn [mbind option_bind].
    rewrite H2. cbn. exists tw'. split; [done|]. split; [done|]. split; [done|]. split.
    + cbn in Hk'. rewrite Hk', Hve. do 2 f_equal. unfold moved_left.
      rewrite Hvp in Hsum |- *. repeat case_bool_decide; repeat case_decide; nia.
    + intros k' Hne. rewrite Hother by done. apply tw_abs_frame; [done|]. by apply Hfm.
Qed.

(** A move by less than one interval executes the task at once and leaves it scheduled. *)
Lemma moveTask_soon (tw : TimingWheel) (delay : Z) (k : K) r v :
  tw_inv None tw -> tw_abs tw k = Some (r, v) -> delay < tw_interval tw ->
  moveTask delay k tw = Some (tw, [(k, v)]).
Proof.
  intros Hi Habs Hd. unfold moveTask.
  pose proof (inv_find None tw k Hi ltac:(done)) as Hk. rewrite (tw_get _ tw _ Hi).
  destruct (tw_timer tw !! k) as [pid|] eqn:Et; unfold tw_abs, tw_left in Habs.
  2:{ by rewrite Hk in Habs. }
  destruct Hk as (p & item & e & l & Hfk & Hp & He & Hke & _). rewrite Hfk in Habs. cbn in Habs.
  rewrite Hp. cbn. rewrite He. cbn. rewrite (proj2 (Z.ltb_lt _ _)) by done.
  rewrite Hke. by simplify_eq.
Qed.

Lemma moveTask_absent (tw : TimingWheel) (delay : Z) (k : K) :
  tw_inv None tw -> tw_abs tw k = None -> moveTask delay k tw = Some (tw, []).
Proof.
  intros Hi Habs. unfold moveTask.
  pose proof (inv_find None tw k Hi ltac:(done)) as Hk. rewrite (tw_get _ tw _ Hi).
  destruct (tw_timer tw !! k) as [pid|]; [|done].
  destruct Hk as (? & ? & ? & ? & Hk & _). unfold tw_abs, tw_left in Habs. by rewrite Hk in Habs.
Qed.

Lemma removeTask_ok (tw : TimingWheel) (k : K) :
  tw_inv None tw ->
  exists tw', removeTask k tw = Some tw' /\ tw_inv None tw' /\ same_clock tw tw' /\
    tw_abs tw' k = None /\ (forall k', k' <> k -> tw_abs tw' k' = tw_abs tw k').
Proof.
  intros Hi. unfold removeTask.
  pose proof (inv_find None tw k Hi ltac:(done)) as Hk. rewrite (tw_get _ tw _ Hi).
  destruct (tw_timer tw !! k) as [pid|] eqn:Et.
  - destruct Hk as (p & item & e & l & Hfk & Hp & _). rewrite Hp. cbn.
    destruct (markRemoved_inv tw k pid _ Hi Et Hp) as (Him & Hfm). cbn [pe_item] in Him, Hfm.
    destruct (unschedule_inv k _ Him) as (Hi' & Hn & Hother).
    eexists. split; [reflexivity|]. split; [exact Hi'|]. split; [done|]. split.
    + by apply tw_abs_None.
    + intros k' Hne. apply tw_abs_frame; [done|].
      etransitivity; [exact (Hother k' Hne)|]. by apply Hfm.
  - exists tw. split; [done|]. split; [done|]. split; [done|]. split; [|done].
    by apply tw_abs_None.
Qed.

Lemma eff_delay_ge (tw : TimingWheel) (delay : Z) : tw_interval tw <= eff_delay tw delay.
Proof. unfold eff_delay. destruct (Z.ltb_spec delay (tw_interval tw)); lia. Qed.

Lemma steps_eff (tw : TimingWheel) (d : Z) :
  0 < tw_interval tw -> steps tw (eff_delay tw d) = Z.max 1 (Z.quot d (tw_interval tw)).
Proof.
  intros Hint. unfold steps, eff_delay. destruct (Z.ltb_spec d (tw_interval tw)) as [Hd|Hd].
  - rewrite Z.quot_same by lia. destruct (Z.le_gt_cases 0 d).
    + rewrite Z.quot_small by lia. lia.
    + pose proof (Z.quot_opp_l d (tw_interval tw) ltac:(lia)).
      pose proof (Z.quot_pos (- d) (tw_interval tw) ltac:(lia) ltac:(lia)). lia.
  - rewrite Z.quot_div_nonneg by lia.
    pose proof (Z.div_le_lower_bound d (tw_interval tw) 1 ltac:(lia) ltac:(lia)). lia.
Qed.

(** Setting a timer for a key that has one: new value, then moved. *)
Lemma setTask_existing (tw : TimingWheel) (delay : Z) (k : K) (v : V) r v0 :
  tw_inv None tw -> tw_abs tw k = Some (r, v0) -> fits tw (eff_delay tw delay) ->
  exists tw', setTask delay k v tw = Some (tw', []) /\ tw_inv None tw' /\ same_clock tw tw' /\
    tw_abs tw' k = Some (moved_left (tw_tickedPos tw) (tw_slot tw k)
      (getPositionAndCircle (eff_delay tw delay) tw).1 (tw_numSlots tw)
      (steps tw (eff_delay tw delay)), v) /\
    (forall k', k' <> k -> tw_abs tw' k' = tw_abs tw k').
Proof.
  intros Hi Habs Hf. unfold setTask. fold (eff_delay tw delay).
  pose proof (inv_find None tw k Hi ltac:(done)) as Hk. rewrite (tw_get _ tw _ Hi).
  destruct (tw_timer tw !! k) as [pid|] eqn:Et.
  2:{ apply tw_abs_None in Hk. congruence. }
  destruct Hk as (p & item & e & l & Hfk & Hp & He & Hke & _).
  rewrite Hp. cbn [mbind option_bind pe_item].
  set (twv := updEntry item (fun e => e <| te_value := v |>) tw).
  assert (Hiv : tw_inv None twv).
  { apply updEntry_inv; [done|]. intros e' He'. pose proof (inv_bounds _ tw Hi item e' He'). done. }
  assert (Hfv : tw_find twv k = Some (mkPositionEntry p item, e <| te_value := v |>)).
  { unfold twv. rewrite updEntry_find, Hfk. cbn. by rewrite decide_True. }
  destruct (moveTask_ok twv (eff_delay tw delay) k _ v Hiv (tw_abs_find _ _ _ _ Hfv)
    (eff_delay_ge tw delay) Hf) as (tw' & Hm & Hi' & Hck & Hk & Hother).
  exists tw'. split; [done|]. split; [done|]. split; [done|]. split.
  - rewrite Hk. unfold tw_slot. rewrite Hfk, Hfv. done.
  - intros k' Hne. rewrite Hother by done. apply tw_abs_frame; [done|]. unfold twv.
    rewrite updEntry_find. destruct (tw_find tw k') as [[pe' e']|] eqn:Hf'; [|done]. cbn.
    rewrite decide_False; [done|]. intros E. apply Hne. by eapply (tw_find_item_inj None tw).
Qed.

Lemma NewTimingWheel_inv (interval n : Z) (tw : TimingWheel) :
  NewTimingWheel interval n = Some tw ->
  tw_inv None tw /\ tw_interval tw = interval /\ tw_numSlots tw = n /\ forall k, tw_abs tw k = None.
Proof.
  unfold NewTimingWheel. destruct (Z.leb_spec interval 0), (Z.leb_spec n 0); try done.
  cbn. intros [= <-].
  assert (Hnone : forall k : K, kv_model (kv_new : M) !! k = None)
    by (intros k; by rewrite kv_new_model, lookup_empty).
  assert (Hempty : forall (p : nat) (l : list nat), replicate (Z.to_nat n) [] !! p = Some l -> l = [])
    by (intros p l Hl; by apply lookup_replicate in Hl as [-> _]).
  split; [|split; [done|split; [done|]]].
  - constructor; unfold tw_timer; cbn; try lia; try apply kv_new_wf;
      try (intros k pid Hk; by rewrite Hnone in Hk).
    + by rewrite length_replicate.
    + intros p l i Hl%Hempty. subst. set_solver.
    + intros p l Hl%Hempty. subst. constructor.
    + intros p l i e Hl%Hempty. subst. set_solver.
    + intros i e Hi. by rewrite lookup_empty in Hi.
    + intros i e Hi. by rewrite lookup_empty in Hi.
    + intros k1 k2 pid Hk. by rewrite Hnone in Hk.
  - intros k. apply tw_abs_None. unfold tw_find, tw_timer. cbn. by rewrite Hnone.
Qed.

(** ** Executions without [Drain] whose delays do not overflow the positions *)

Definition event_ok (interval n : Z) (ev : tw_event) : Prop :=
  match ev with
  | EvSet d _ _ | EvMove d _ => Z.max 1 (Z.quot d interval) + n < 2^63
  | EvDrain => False
  | EvTick | EvRemove _ => True
  end.

Definition event_key (ev : tw_event) : option K :=
  match ev with
  | EvSet _ k _ | EvMove _ k | EvRemove k => Some k
  | EvTick | EvDrain => None
  end.

Definition is_tick (ev : tw_event) : bool := match ev with EvTick => true | _ => false end.

(** What one event does to a key it does not name. *)
Definition other_key (ev : tw_event) (a : option (Z * V)) : option (Z * V) :=
  match ev, a with
  | EvTick, Some (r, v) => if r =? 1 then None else Some (r - 1, v)
  | _, _ => a
  end.

Lemma fits_ok (tw : TimingWheel) (d : Z) :
  0 < tw_interval tw -> Z.max 1 (Z.quot d (tw_interval tw)) + tw_numSlots tw < 2^63 ->
  fits tw (eff_delay tw d) /\ (tw_interval tw <= d -> fits tw d).
Proof.
  intros Hint Hd. unfold fits, steps, eff_delay.
  destruct (Z.ltb_spec d (tw_interval tw)); [rewrite Z.quot_same by lia|]; lia.
Qed.

Lemma tw_step_ok (tw : TimingWheel) (ev : tw_event) :
  tw_inv None tw -> event_ok (tw_interval tw) (tw_numSlots tw) ev ->
  exists tw' fired, tw_step ev tw = Some (tw', fired) /\ tw_inv None tw' /\
    tw_interval tw' = tw_interval tw /\ tw_numSlots tw' = tw_numSlots tw /\ NoDup fired.*1 /\
    forall k, event_key ev <> Some k ->
      tw_abs tw' k = other_key ev (tw_abs tw k) /\
      forall v, (k, v) ∈ fired <-> ev = EvTick /\ tw_abs tw k = Some (1, v).
Proof.
  intros Hi Hok. pose proof (inv_interval _ tw Hi) as Hint. destruct ev as [|d k v|d k|k|]; cbn in Hok |- *.
  - destruct (onTick_ok tw Hi) as (tw' & tasks & -> & Hi' & E1 & E2 & Habs & Hmem & Hnd).
    exists tw', tasks. do 5 (split; [done|]). intros k _. rewrite Habs. split; [by destruct (tw_abs tw k) as [[]|]|].
    intros v. rewrite Hmem. naive_solver.
  - destruct (fits_ok tw d Hint Hok) as [Hf _].
    destruct (tw_abs tw k) as [[r v0]|] eqn:Ha.
    + destruct (setTask_existing tw d k v r v0 Hi Ha Hf) as (tw' & -> & Hi' & (E1 & E2 & _) & _ & Ho).
      exists tw', []. do 4 (split; [done|]); split; [by repeat constructor; set_solver|]. intros k' Hk'. split; [apply Ho; congruence|set_solver].
    + destruct (setTask_fresh tw d k v Hi Ha Hf) as (tw' & -> & Hi' & (E1 & E2 & _) & _ & Ho).
      exists tw', []. do 4 (split; [done|]); split; [by repeat constructor; set_solver|]. intros k' Hk'. split; [apply Ho; congruence|set_solver].
  - destruct (fits_ok tw d Hint Hok) as [_ Hf].
    destruct (tw_abs tw k) as [[r v0]|] eqn:Ha.
    + destruct (Z.lt_ge_cases d (tw_interval tw)) as [Hd|Hd].
      * rewrite (moveTask_soon tw d k r v0 Hi Ha Hd). exists tw, [(k, v0)]. do 4 (split; [done|]); split; [by repeat constructor; set_solver|].
        intros k' Hk'. split; [done|]. intros v. rewrite list_elem_of_singleton. naive_solver.
      * destruct (moveTask_ok tw d k r v0 Hi Ha Hd (Hf Hd)) as (tw' & -> & Hi' & (E1 & E2 & _) & _ & Ho).
        exists tw', []. do 4 (split; [done|]); split; [by repeat constructor; set_solver|]. intros k' Hk'. split; [apply Ho; congruence|set_solver].
    + rewrite (moveTask_absent tw d k Hi Ha). exists tw, []. do 4 (split; [done|]); split; [by repeat constructor; set_solver|]. set_solver.
  - destruct (removeTask_ok tw k Hi) as (tw' & -> & Hi' & (E1 & E2 & _) & _ & Ho).
    exists tw', []. cbn. do 4 (split; [done|]); split; [by repeat constructor; set_solver|]. intros k' Hk'. split; [apply Ho; congruence|set_solver].
  - done.
Qed.

(** The wheel never panics and keeps its invariant. *)
Lemma tw_run_inv (evs : list tw_event) : forall tw : TimingWheel,
  tw_inv None tw -> Forall (event_ok (tw_interval tw) (tw_numSlots tw)) evs ->
  exists tw' fired, tw_run evs tw = Some (tw', fired) /\ tw_inv None tw' /\
    tw_interval tw' = tw_interval tw /\ tw_numSlots tw' = tw_numSlots tw /\
    length fired = length evs.
Proof.
  induction evs as [|ev evs IH]; intros tw Hi Hok; [by exists tw, []|].
  apply Forall_cons in Hok as [Hev Hok].
  destruct (tw_step_ok tw ev Hi Hev) as (tw1 & f & Hs & Hi1 & E1 & E2 & _ & _).
  destruct (IH tw1 Hi1) as (tw' & fired & Hr & Hi' & E3 & E4 & Hlen); [by rewrite E1, E2|].
  exists tw', (f :: fired). cbn. rewrite Hs. cbn. rewrite Hr. cbn. rewrite E3, E4, Hlen. done.
Qed.

Fixpoint ticks (evs : list tw_event) : Z :=
  match evs with
  | [] => 0
  | ev :: evs => (if is_tick ev then 1 else 0) + ticks evs
  end.

Lemma ticks_nonneg (evs : list tw_event) : 0 <= ticks evs.
Proof. induction evs as [|ev evs IH]; cbn; [lia|]. destruct (is_tick ev); lia. Qed.

Lemma ticks_pos (evs : list tw_event) (i : nat) : evs !! i = Some EvTick -> 1 <= ticks (take (S i) evs).
Proof.
  revert i. induction evs as [|e evs IH]; intros i Hi; [done|].
  rewrite firstn_cons. cbn [ticks]. pose proof (ticks_nonneg (take i evs)).
  destruct i; cbn in Hi; [injection Hi as ->; cbn; lia|].
  specialize (IH i Hi). destruct (is_tick e); lia.
Qed.

(** When a key that no event names is executed: at its last tick. *)
Lemma tw_run_fires (k : K) (evs : list tw_event) : forall tw : TimingWheel,
  tw_inv None tw -> Forall (event_ok (tw_interval tw) (tw_numSlots tw)) evs ->
  Forall (fun ev => event_key ev <> Some k) evs ->
  exists tw' fired, tw_run evs tw = Some (tw', fired) /\ Forall (fun f => NoDup f.*1) fired /\
    forall i f v, fired !! i = Some f ->
      (k, v) ∈ f <-> evs !! i = Some EvTick /\ tw_abs tw k = Some (ticks (take (S i) evs), v).
Proof.
  induction evs as [|ev evs IH]; intros tw Hi Hok Hk; [by exists tw, []|].
  apply Forall_cons in Hok as [Hev Hok]. apply Forall_cons in Hk as [Hkev Hk].
  destruct (tw_step_ok tw ev Hi Hev) as (tw1 & f0 & Hs & Hi1 & E1 & E2 & Hnd & Hother).
  destruct (Hother k Hkev) as [Habs Hfired].
  destruct (IH tw1 Hi1) as (tw' & fired & Hr & Hnds & Hspec); [by rewrite E1, E2|done|].
  exists tw', (f0 :: fired). cbn. rewrite Hs. cbn. rewrite Hr. cbn. split; [done|]. split; [by constructor|].
  intros [|i] f v Hf; cbn in Hf.
  - injection Hf as ->. rewrite Hfired. cbn. rewrite take_0. cbn.
    split; intros [E Ha]; simplify_eq; done.
  - rewrite (Hspec i f v Hf). cbn [lookup list_lookup]. rewrite Habs.
    pose proof (ticks_pos evs i) as Hpos.
    destruct ev as [|d' k' v'|d' k'|k'|]; cbn [is_tick other_key];
      try (split; intros [E ->]; (split; [done|do 2 f_equal; lia])).
    destruct (tw_abs tw k) as [[r v0]|]; [|naive_solver].
    destruct (Z.eqb_spec r 1) as [->|Hne].
    + split; [naive_solver|]. intros [E [= E' ->]]. specialize (Hpos E). lia.
    + split; intros [E [= ? ->]]; (split; [done|do 2 f_equal; lia]).
Qed.

(** A state the [run] loop reaches from a new wheel. *)
Definition tw_reaches (interval n : Z) (evs : list tw_event) (tw : TimingWheel) : Prop :=
  exists tw0 fired, NewTimingWheel interval n = Some tw0 /\
    Forall (event_ok interval n) evs /\ tw_run evs tw0 = Some (tw, fired).

Lemma tw_reaches_inv (interval n : Z) evs tw :
  tw_reaches interval n evs tw -> tw_inv None tw /\ tw_interval tw = interval /\ tw_numSlots tw = n.
Proof.
  intros (tw0 & fired & Hnew & Hok & Hrun).
  destruct (NewTimingWheel_inv interval n tw0 Hnew) as (Hi & <- & <- & _).
  destruct (tw_run_inv evs tw0 Hi Hok) as (tw' & fired' & Hrun' & Hi' & E1 & E2 & _).
  rewrite Hrun in Hrun'. by simplify_eq.
Qed.

Lemma tw_timer_abs (tw : TimingWheel) (k : K) :
  tw_inv None tw -> kv_get k (tw_timers tw) = None <-> tw_abs tw k = None.
Proof.
  intros Hi. rewrite (tw_get _ tw _ Hi), tw_abs_None.
  pose proof (inv_find None tw k Hi ltac:(done)) as Hk.
  destruct (tw_timer tw !! k); [|done]. destruct Hk as (? & ? & ? & ? & Hk & _).
  split; congruence.
Qed.

(** The ticks at which a key is executed in the events after [ev], when [ev] leaves [r]
    ticks to it and the events do not name it. *)
Lemma tw_step_then_fires (tw tw1 : TimingWheel) (ev : tw_event) post (k : K) r v :
  tw_step ev tw = Some (tw1, []) -> tw_inv None tw1 -> tw_abs tw1 k = Some (r, v) ->
  Forall (event_ok (tw_interval tw1) (tw_numSlots tw1)) post ->
  Forall (fun ev => event_key ev <> Some k) post ->
  exists tw' fired, tw_run (ev :: post) tw = Some (tw', [] :: fired) /\
    Forall (fun f => NoDup f.*1) fired /\
    forall i f v', fired !! i = Some f ->
      (k, v') ∈ f <-> v' = v /\ post !! i = Some EvTick /\ ticks (take (S i) post) = r.
Proof.
  intros Hs Hi1 Ha Hok Hk.
  destruct (tw_run_fires k post tw1 Hi1 Hok Hk) as (tw' & fired & Hr & Hnd & Hspec).
  exists tw', fired. cbn. rewrite Hs. cbn. rewrite Hr. cbn. split; [done|]. split; [done|].
  intros i f v' Hf. rewrite (Hspec i f v' Hf), Ha. naive_solver.
Qed.

(** C18: a timer set for a key that has none is executed with its value exactly once, at
    the tick that completes its delay (in whole intervals, at least one), whatever
    requests for other keys are interleaved, and at no other time; no request panics. *)
Theorem SetTimer_fires_on_time (interval n : Z) pre post (d : Z) (k : K) (v : V) (tw : TimingWheel) :
  tw_reaches interval n pre tw -> kv_get k (tw_timers tw) = None ->
  Forall (event_ok interval n) (EvSet d k v :: post) ->
  Forall (fun ev => event_key ev <> Some k) post ->
  exists tw' fired, tw_run (EvSet d k v :: post) tw = Some (tw', [] :: fired) /\
    Forall (fun f => NoDup f.*1) fired /\
    forall i f v', fired !! i = Some f ->
      (k, v') ∈ f <->
      v' = v /\ post !! i = Some EvTick /\ ticks (take (S i) post) = Z.max 1 (Z.quot d interval).
Proof.
  intros Hreach Hnone Hok Hk. destruct (tw_reaches_inv _ _ _ _ Hreach) as (Hi & <- & <-).
  apply Forall_cons in Hok as [Hset Hok]. pose proof (inv_interval _ tw Hi) as Hint.
  destruct (fits_ok tw d Hint Hset) as [Hf _].
  apply (tw_timer_abs tw k Hi) in Hnone.
  destruct (setTask_fresh tw d k v Hi Hnone Hf) as (tw1 & Hs & Hi1 & (E1 & E2 & _) & Ha & _).
  rewrite <- (steps_eff tw d Hint). apply (tw_step_then_fires tw tw1); try done. by rewrite E1, E2.
Qed.

(** Moving an existing timer by at least one interval keeps its value and schedules it
    for [moved_left] ticks later: the requested number of ticks [s], except that when the
    item's slot has been passed in this revolution and the new slot has not, it is one
    revolution late, and in the converse case, for more than one revolution, one
    revolution early. *)
Theorem MoveTimer_reschedules (interval n : Z) pre post (d : Z) (k : K) (tw : TimingWheel) pid p item e :
  tw_reaches interval n pre tw ->
  kv_get k (tw_timers tw) = Some pid -> tw_positions tw !! pid = Some (mkPositionEntry p item) ->
  tw_entries tw !! item = Some e ->
  interval <= d -> Forall (event_ok interval n) (EvMove d k :: post) ->
  Forall (fun ev => event_key ev <> Some k) post ->
  exists tw' fired, tw_run (EvMove d k :: post) tw = Some (tw', [] :: fired) /\
    Forall (fun f => NoDup f.*1) fired /\
    forall i f v', fired !! i = Some f ->
      (k, v') ∈ f <->
      v' = te_value e /\ post !! i = Some EvTick /\
      ticks (take (S i) post) =
        moved_left (tw_tickedPos tw) p (Z.rem (tw_tickedPos tw + Z.quot d interval) n) n (Z.quot d interval).
Proof.
  intros Hreach Hget Hp He Hd Hok Hk. destruct (tw_reaches_inv _ _ _ _ Hreach) as (Hi & <- & <-).
  apply Forall_cons in Hok as [Hmv Hok]. pose proof (inv_interval _ tw Hi) as Hint.
  destruct (fits_ok tw d Hint Hmv) as [_ Hf]. specialize (Hf Hd).
  rewrite (tw_get _ tw _ Hi) in Hget.
  assert (Hfind : tw_find tw k = Some (mkPositionEntry p item, e)).
  { unfold tw_find. rewrite Hget. cbn. rewrite Hp. cbn. by rewrite He. }
  destruct (moveTask_ok tw d k _ _ Hi (tw_abs_find _ _ _ _ Hfind) Hd Hf)
    as (tw1 & Hs & Hi1 & (E1 & E2 & _) & Ha & _).
  apply (tw_step_then_fires tw tw1); try done; [|by rewrite E1, E2].
  rewrite Ha. unfold tw_slot. rewrite Hfind. cbn. unfold fits, steps in Hf.
  pose proof (inv_pos _ tw Hi). rewrite wrap64_small; [done|].
  pose proof (Z.quot_pos d (tw_interval tw) ltac:(lia) ltac:(lia)). lia.
Qed.

(** A removed timer is never executed unless its key is set again. *)
Theorem RemoveTimer_cancels (interval n : Z) pre post (k : K) (tw : TimingWheel) :
  tw_reaches interval n pre tw ->
  Forall (event_ok interval n) post -> Forall (fun ev => event_key ev <> Some k) post ->
  exists tw' fired, tw_run (EvRemove k :: post) tw = Some (tw', fired) /\
    forall i f v, fired !! i = Some f -> (k, v) ∉ f.
Proof.
  intros Hreach Hok Hk. destruct (tw_reaches_inv _ _ _ _ Hreach) as (Hi & <- & <-).
  destruct (removeTask_ok tw k Hi) as (tw1 & Hs & Hi1 & (E1 & E2 & _) & Ha & _).
  destruct (tw_run_fires k post tw1 Hi1) as (tw' & fired & Hr & _ & Hspec); [by rewrite E1, E2|done|].
  exists tw', ([] :: fired). cbn. rewrite Hs. cbn. rewrite Hr. cbn. split; [done|].
  intros [|i] f v Hf; cbn in Hf; [injection Hf as <-; set_solver|].
  rewrite (Hspec i f v Hf), Ha. naive_solver.
Qed.

(** ** Drain *)

Lemma mapM_entries (tw : TimingWheel) (l : list nat) :
  (forall i, i ∈ l -> is_Some (tw_entries tw !! i)) ->
  exists es, mapM (fun i => tw_entries tw !! i) l = Some es /\
    (forall e, e ∈ es <-> exists i, i ∈ l /\ tw_entries tw !! i = Some e).
Proof.
  intros Hall. destruct (mapM_is_Some_2 (fun i => tw_entries tw !! i) l) as [es Hes].
  { by apply Forall_forall. }
  exists es. split; [done|]. intros e. apply mapM_Some in Hes. clear Hall.
  induction Hes as [|i e' l es Hi _ IH]; [set_solver|].
  setoid_rewrite elem_of_cons. rewrite IH. naive_solver.
Qed.

(** [Drain] hands exactly the timers that are scheduled, with their values, to the
    function and leaves no item in any slot. *)
Theorem Drain_returns_scheduled (interval n : Z) pre (tw : TimingWheel) :
  tw_reaches interval n pre tw ->
  exists tw' tasks, tw_step EvDrain tw = Some (tw', tasks) /\
    Forall (fun l => l = []) (tw_slots tw') /\
    forall k v, (k, v) ∈ tasks <->
      exists pid p item e, kv_get k (tw_timers tw) = Some pid /\
        tw_positions tw !! pid = Some (mkPositionEntry p item) /\
        tw_entries tw !! item = Some e /\ te_value e = v.
Proof.
  intros Hreach. destruct (tw_reaches_inv _ _ _ _ Hreach) as (Hi & _ & _).
  cbn. unfold drainAll.
  assert (Hin : forall i, i ∈ concat (tw_slots tw) <-> exists p l, tw_slots tw !! p = Some l /\ i ∈ l).
  { intros i. rewrite list_elem_of_In, in_concat. split.
    - intros (l & Hl & Hil). apply list_elem_of_In, list_elem_of_lookup in Hl as [p Hl].
      exists p, l. by rewrite list_elem_of_In.
    - intros (p & l & Hl & Hil). exists l. rewrite <- !list_elem_of_In. eauto using list_elem_of_lookup_2. }
  destruct (mapM_entries tw (concat (tw_slots tw))) as (es & -> & Hes).
  { intros i (p & l & Hl & Hil)%Hin. by eapply (inv_slots _ tw Hi). }
  cbn. eexists _, _. split; [done|]. split; [cbn; by apply Forall_replicate|].
  intros k v. rewrite list_elem_of_fmap. split.
  - intros (e & [= -> ->] & He). apply list_elem_of_filter in He as [Hr He].
    apply Hes in He as (i & (p & l & Hl & Hil)%Hin & He).
    destruct (inv_live _ tw Hi p l i e Hl Hil He Hr) as (_ & pid & Ht & Hp).
    exists pid, (Z.of_nat p), i, e. by rewrite (tw_get _ tw _ Hi).
  - intros (pid & p & item & e & Ht & Hp & He & <-). rewrite (tw_get _ tw _ Hi) in Ht.
    destruct (inv_timer _ tw Hi k pid Ht ltac:(done)) as (p' & i' & e' & l & Hp' & He' & Hk & Hr & _ & Hl & Hil).
    rewrite Hp in Hp'. injection Hp' as <- <-. rewrite He in He'. injection He' as <-.
    exists e. rewrite Hk. split; [done|]. apply list_elem_of_filter. split; [done|].
    apply Hes. exists item. split; [|done]. apply Hin. eauto.
Qed.

(** Ticks of a wheel with empty slots execute nothing. *)
Lemma empty_ticks (m : nat) : forall tw : TimingWheel,
  0 < tw_numSlots tw -> 0 <= tw_tickedPos tw -> length (tw_slots tw) = Z.to_nat (tw_numSlots tw) ->
  Forall (fun l => l = []) (tw_slots tw) ->
  exists tw', tw_run (replicate m EvTick) tw = Some (tw', replicate m []).
Proof.
  induction m as [|m IH]; intros tw Hn Ht Hlen Hempty; [by exists tw|].
  pose proof (Z.rem_bound_pos (tw_tickedPos tw + 1) (tw_numSlots tw) ltac:(lia) Hn) as Hb.
  destruct (lookup_lt_is_Some_2 (tw_slots tw) (Z.to_nat (Z.rem (tw_tickedPos tw + 1) (tw_numSlots tw))))
    as [l Hl]; [lia|].
  pose proof (Forall_lookup_1 _ _ _ _ Hempty Hl) as ->. cbn.
  unfold onTick. cbn. rewrite Hl. cbn.
  destruct (IH (tw <| tw_tickedPos := Z.rem (tw_tickedPos tw + 1) (tw_numSlots tw) |>)) as [tw' ->];
    cbn; [done|lia|done..|]. eauto.
Qed.

End wheel.

Arguments tw_event K V : clear implicits.
Arguments TimingWheel K V M : clear implicits.
Arguments timingEntry K V : clear implicits.

(** ** The wheel over the map the source uses *)

Definition wheel_map : Type := SafeMap nat nat.
Definition wheel : Type := TimingWheel nat nat wheel_map.

Definition no_wheel : wheel := mkTimingWheel 0 [] NewSafeMap 0 0 ∅ ∅ 0.
Definition wheel_after (interval n : Z) (evs : list (tw_event nat nat)) : wheel :=
  from_option fst no_wheel (NewTimingWheel interval n ≫= tw_run evs).
Definition wheel_fired (interval n : Z) (evs : list (tw_event nat nat)) : option (list (list (nat * nat))) :=
  snd <$> (NewTimingWheel (M := wheel_map) interval n ≫= tw_run evs).

Lemma tw_run_app {K V M} `{Countable K} `{!KVMapOps K nat M} (a b : list (tw_event K V)) :
  forall tw : TimingWheel K V M,
  tw_run (a ++ b) tw =
  ('(tw1, f1) ← tw_run a tw; '(tw2, f2) ← tw_run b tw1; Some (tw2, f1 ++ f2)).
Proof.
  induction a as [|ev a IH]; intros tw; cbn.
  - by destruct (tw_run b tw) as [[]|].
  - destruct (tw_step ev tw) as [[tw1 f1]|]; [|done]. cbn. rewrite IH.
    destruct (tw_run a tw1) as [[tw2 f2]|]; [|done]. cbn.
    by destruct (tw_run b tw2) as [[]|].
Qed.

Lemma wheel_reaches (interval n : Z) (evs : list (tw_event nat nat)) fired :
  Forall (event_ok interval n) evs -> wheel_fired interval n evs = Some fired ->
  tw_reaches interval n evs (wheel_after interval n evs).
Proof.
  unfold wheel_fired, wheel_after, tw_reaches. intros Hok Hf.
  destruct (NewTimingWheel interval n) as [tw0|]; [|done]. cbn in *.
  destruct (tw_run evs tw0) as [[tw f]|] eqn:E; [|done]. cbn. eauto.
Qed.

Ltac events_ok := repeat (constructor; [vm_compute; try done; congruence|]); by constructor.

Lemma SetTimer_fires_on_time_witness :
  exists tw' fired, tw_run [EvSet 2 1%nat 7%nat; EvTick; EvSet 1 2%nat 9%nat; EvTick]
      (wheel_after 1 4 [EvTick]) = Some (tw', [] :: fired) /\
    Forall (fun f => NoDup f.*1) fired /\
    forall i f v', fired !! i = Some f ->
      (1%nat, v') ∈ f <-> v' = 7%nat /\ [EvTick; EvSet 1 2%nat 9%nat; EvTick] !! i = Some EvTick /\
        ticks (take (S i) [EvTick; EvSet 1 2%nat 9%nat; EvTick]) = Z.max 1 (Z.quot 2 1).
Proof.
  apply (SetTimer_fires_on_time 1 4 [EvTick] [EvTick; EvSet 1 2%nat 9%nat; EvTick] 2 1%nat 7%nat).
  - eapply wheel_reaches; [events_ok|vm_compute; reflexivity].
  - vm_compute. reflexivity.
  - events_ok.
  - events_ok.
Defined.

Lemma MoveTimer_reschedules_witness :
  exists tw' fired, tw_run [EvMove 2 1%nat; EvTick; EvTick]
      (wheel_after 1 4 [EvSet 5 1%nat 7%nat; EvTick]) = Some (tw', [] :: fired) /\
    Forall (fun f => NoDup f.*1) fired /\
    forall i f v', fired !! i = Some f ->
      (1%nat, v') ∈ f <-> v' = te_value (mkTimingEntry 5 1%nat 7%nat 0 0 false) /\
        [EvTick; EvTick] !! i = Some (EvTick : tw_event nat nat) /\
        ticks (take (S i) [EvTick; EvTick : tw_event nat nat]) = moved_left 0 0 (Z.rem (0 + Z.quot 2 1) 4) 4 (Z.quot 2 1).
Proof.
  apply (MoveTimer_reschedules 1 4 [EvSet 5 1%nat 7%nat; EvTick] [EvTick; EvTick] 2 1%nat
    (wheel_after 1 4 [EvSet 5 1%nat 7%nat; EvTick]) 1 0 0).
  - eapply wheel_reaches; [events_ok|vm_compute; reflexivity].
  - vm_compute. reflexivity.
  - vm_compute. reflexivity.
  - vm_compute. reflexivity.
  - lia.
  - events_ok.
  - events_ok.
Defined.

Lemma RemoveTimer_cancels_witness :
  exists tw' fired, tw_run [EvRemove 1%nat; EvTick] (wheel_after 1 4 [EvSet 1 1%nat 7%nat]) = Some (tw', fired) /\
    forall i f v, fired !! i = Some f -> (1%nat, v) ∉ f.
Proof.
  apply (RemoveTimer_cancels 1 4 [EvSet 1 1%nat 7%nat] [EvTick] 1%nat).
  - eapply wheel_reaches; [events_ok|vm_compute; reflexivity].
  - events_ok.
  - events_ok.
Defined.

Lemma Drain_returns_scheduled_witness :
  let tw := wheel_after 1 4 [EvSet 1 1%nat 7%nat] in
  exists tw' tasks, tw_step EvDrain tw = Some (tw', tasks) /\
    Forall (fun l => l = []) (tw_slots tw') /\
    forall k v, (k, v) ∈ tasks <->
      exists pid p item e, kv_get k (tw_timers tw) = Some pid /\
        tw_positions tw !! pid = Some (mkPositionEntry p item) /\
        tw_entries tw !! item = Some e /\ te_value e = v.
Proof.
  intros tw. apply (Drain_returns_scheduled 1 4 [EvSet 1 1%nat 7%nat]).
  eapply wheel_reaches; [events_ok|vm_compute; reflexivity].
Defined.

(** Two moves that do not take the timer to the requested delay: asked for 2 ticks the
    first is executed after 6, asked for 8 ticks the second is executed after 4 (a wheel
    of four slots). *)
Theorem MoveTimer_one_revolution_off :
  wheel_fired 1 4 ([EvSet 5 1%nat 7%nat; EvTick; EvMove 2 1%nat] ++ replicate 6 EvTick) =
    Some (replicate 8 [] ++ [[(1%nat, 7%nat)]]) /\
  wheel_fired 1 4 ([EvTick; EvSet 2 1%nat 7%nat; EvMove 8 1%nat] ++ replicate 8 EvTick) =
    Some (replicate 6 [] ++ [[(1%nat, 7%nat)]] ++ replicate 4 []).
Proof. split; vm_compute; reflexivity. Qed.

(** A key set again after a [Drain] that took its timer can be lost: nothing is ever
    executed for it, however many ticks follow. *)
Theorem Drain_loses_next_timer (m : nat) :
  wheel_fired 1 4 ([EvSet 3 1%nat 7%nat; EvDrain; EvSet 3 1%nat 8%nat] ++ replicate m EvTick) =
    Some ([[]; [(1%nat, 7%nat)]; []] ++ replicate m []).
Proof.
  set (pre := [EvSet 3 1%nat 7%nat; EvDrain; EvSet 3 1%nat 8%nat]).
  destruct (empty_ticks m (wheel_after 1 4 pre)) as [tw' Hrun];
    [by vm_compute..|by vm_compute; repeat constructor|].
  assert (Hpre : NewTimingWheel 1 4 ≫= tw_run pre =
    Some (wheel_after 1 4 pre, [[]; [(1%nat, 7%nat)]; []])) by (vm_compute; reflexivity).
  unfold wheel_fired. destruct (NewTimingWheel 1 4) as [tw0|]; [|done]. cbn [mbind option_bind] in Hpre |- *.
  rewrite tw_run_app, Hpre. cbn [mbind option_bind]. rewrite Hrun. reflexivity.
Qed.
