(* ===== verification/Cache.v ===== *)
(** * infra/collection/cache.go: an in-memory cache with expiry and an LRU limit

    A [Cache] keeps its items in a map, its usage order in a [keyLru] and its expiry in
    a [TimingWheel] that calls [Del] when an item's time is over.  The cache talks to
    the wheel through requests; the model first gives every method as a function that
    appends the requests it makes, then the system of a cache and its wheel, in which
    the requests are served and the executed tasks call [Del].  The
    executions considered are sequential: a method, its requests to the wheel and the
    deletions of a tick are served to their end before the next begins.  In the source the
    wheel runs in a goroutine of its own and the expired tasks in another, so that between
    them items and timers can differ; those interleavings, the locking around the LRU list
    and the single flight of [Take] are not modelled. *)

From S2P Require Import Prelude Interfaces SafeMap TimingWheel.

(** ** keyLru

    [evicts] has the most recently used key in front; the element a key maps to in
    [elements] is its only one in the list, so the key stands for it. *)

Record keyLru : Type := mkKeyLru { kl_limit : Z; kl_evicts : list string; kl_elements : gset string }.

#[export] Instance eta_keyLru : Eta keyLru := fun l =>
  mkKeyLru (kl_limit l) (kl_evicts l) (kl_elements l).

Definition newKeyLru (limit : Z) : keyLru := mkKeyLru limit [] ∅.

(** The key returned is the one [onEvict] is called with. *)
Definition keyLru_removeElement (e : string) (l : keyLru) : keyLru * option string :=
  (l <| kl_evicts := filter (fun k => k <> e) (kl_evicts l) |>
     <| kl_elements := kl_elements l ∖ {[e]} |>, Some e).

Definition keyLru_removeOldest (l : keyLru) : keyLru * option string :=
  match last (kl_evicts l) with
  | Some e => keyLru_removeElement e l
  | None => (l, None)
  end.

Definition keyLru_add (key : string) (l : keyLru) : keyLru * option string :=
  if decide (key ∈ kl_elements l) then
    (l <| kl_evicts := key :: filter (fun k => k <> key) (kl_evicts l) |>, None) (* MoveToFront *)
  else
    let l := l <| kl_evicts := key :: kl_evicts l |> <| kl_elements := {[key]} ∪ kl_elements l |> in
    if kl_limit l <? Z.of_nat (length (kl_evicts l)) then keyLru_removeOldest l else (l, None).

Definition keyLru_remove (key : string) (l : keyLru) : keyLru * option string :=
  if decide (key ∈ kl_elements l) then keyLru_removeElement key l else (l, None).

Record keyLru_wf (l : keyLru) : Prop := mk_keyLru_wf {
  kl_limit_pos : 0 < kl_limit l;
  kl_nodup : NoDup (kl_evicts l);
  kl_elems : forall k, k ∈ kl_elements l <-> k ∈ kl_evicts l;
  kl_size : Z.of_nat (length (kl_evicts l)) <= kl_limit l
}.

(** Keys from the most to the least recently used. *)
Fixpoint recency (hist : list string) : list string :=
  match hist with
  | [] => []
  | k :: hist => k :: filter (fun k' => k' <> k) (recency hist)
  end.

(** [hist] lists the calls of [add], the last one first. *)
Definition keyLru_adds (limit : Z) (hist : list string) : keyLru :=
  foldr (fun k l => (keyLru_add k l).1) (newKeyLru limit) hist.

Lemma filter_ne_id (k : string) (l : list string) : k ∉ l -> filter (fun k' => k' <> k) l = l.
Proof. intros Hk. apply filter_all, Forall_forall. intros x Hx ->. done. Qed.

Lemma filter_ne_length (k : string) (l : list string) :
  NoDup l -> k ∈ l -> S (length (filter (fun k' => k' <> k) l)) = length l.
Proof.
  induction l as [|x l IH]; [set_solver|]. intros Hnd Hin. apply NoDup_cons in Hnd as [Hx Hnd].
  rewrite filter_cons. case_decide as Hk; cbn.
  - rewrite IH; [done|done|set_solver].
  - subst x. by rewrite filter_ne_id.
Qed.

Lemma removeElement_wf (e : string) (l : keyLru) :
  0 < kl_limit l -> NoDup (kl_evicts l) -> (forall k, k ∈ kl_elements l <-> k ∈ kl_evicts l) ->
  e ∈ kl_evicts l -> Z.of_nat (length (kl_evicts l)) <= kl_limit l + 1 ->
  keyLru_wf (keyLru_removeElement e l).1.
Proof.
  intros Hlim Hnd He Hin Hlen. constructor; cbn.
  - done.
  - by apply NoDup_filter.
  - intros k. rewrite list_elem_of_filter. set_solver.
  - pose proof (filter_ne_length e (kl_evicts l) Hnd Hin). lia.
Qed.

(** Removing the oldest of [limit + 1] keys. *)
Lemma keyLru_removeOldest_spec (key : string) (l : keyLru) evicts :
  kl_evicts l = key :: evicts -> 0 < kl_limit l -> NoDup (key :: evicts) ->
  (forall k, k ∈ kl_elements l <-> k ∈ key :: evicts) ->
  Z.of_nat (length evicts) = kl_limit l ->
  let '(l', ev) := keyLru_removeOldest l in
  keyLru_wf l' /\ kl_limit l' = kl_limit l /\
  kl_evicts l' = take (Z.to_nat (kl_limit l)) (key :: evicts) /\
  ev = evicts !! (Z.to_nat (kl_limit l) - 1)%nat.
Proof.
  intros E Hlim Hnd He Hlen. unfold keyLru_removeOldest. rewrite E.
  destruct (last (key :: evicts)) as [x|] eqn:Hlast; [|by apply last_None in Hlast].
  apply last_Some in Hlast as [l0 Hl0].
  assert (Hn : length l0 = Z.to_nat (kl_limit l)).
  { apply (f_equal length) in Hl0. rewrite length_app in Hl0. cbn in Hl0. lia. }
  assert (Hx : x ∉ l0 /\ NoDup l0).
  { rewrite Hl0 in Hnd. apply NoDup_app in Hnd as (? & Hd & _). split; [|done].
    intros Hx. apply (Hd x Hx). set_solver. }
  pose proof (removeElement_wf x l Hlim) as Hwf. rewrite E in Hwf.
  split; [apply Hwf; [done|done|rewrite Hl0; set_solver|cbn; lia]|]. split; [done|]. split.
  - cbn. rewrite E, Hl0, filter_app, (filter_ne_id x l0) by apply Hx.
    rewrite filter_none by (constructor; [naive_solver|constructor]).
    by rewrite app_nil_r, take_app_le, take_ge by lia.
  - assert (Hlk : (key :: evicts) !! Z.to_nat (kl_limit l) = Some x).
    { by rewrite Hl0, lookup_app_r, Hn, Nat.sub_diag by lia. }
    replace (Z.to_nat (kl_limit l)) with (S (Z.to_nat (kl_limit l) - 1)) in Hlk by lia.
    by rewrite <- Hlk.
Qed.

(** What [add] does to the usage order, and which key it evicts: the last one, when the
    key is new and the list full. *)
Lemma keyLru_add_spec (key : string) (l : keyLru) :
  keyLru_wf l ->
  let '(l', ev) := keyLru_add key l in
  keyLru_wf l' /\ kl_limit l' = kl_limit l /\
  kl_evicts l' = take (Z.to_nat (kl_limit l)) (key :: filter (fun k => k <> key) (kl_evicts l)) /\
  ev = (if decide (key ∈ kl_elements l) then None
        else kl_evicts l !! (Z.to_nat (kl_limit l) - 1)%nat).
Proof.
  intros [Hlim Hnd He Hsz]. unfold keyLru_add.
  destruct (decide (key ∈ kl_elements l)) as [Hin|Hin].
  - apply He in Hin. pose proof (filter_ne_length key _ Hnd Hin) as Hlen. cbn.
    split; [|split; [done|split; [|done]]].
    + constructor; cbn; [done| | |lia].
      2:{ intros k. rewrite elem_of_cons, list_elem_of_filter, He.
          destruct (decide (k = key)); naive_solver. }
      apply NoDup_cons. split; [|by apply NoDup_filter]. rewrite list_elem_of_filter. naive_solver.
    + rewrite take_ge; [done|]. cbn. lia.
  - assert (Hnk : key ∉ kl_evicts l) by (by rewrite <- He). rewrite (filter_ne_id _ _ Hnk).
    assert (Hnd' : NoDup (key :: kl_evicts l)) by (by constructor).
    cbn [upd kl_limit kl_evicts]. cbn.
    destruct (Z.ltb_spec (kl_limit l) (Z.of_nat (S (length (kl_evicts l))))) as [Hfull|Hfull].
    + refine (keyLru_removeOldest_spec key (l <| kl_evicts := key :: kl_evicts l |>
        <| kl_elements := {[key]} ∪ kl_elements l |>) (kl_evicts l) _ _ _ _ _);
        cbn; [done|done|done|set_solver|lia].
    + rewrite lookup_ge_None_2 by lia. split; [|split; [done|split; [|done]]].
      * constructor; cbn; [done|done|set_solver|lia].
      * rewrite take_ge; [done|]. cbn. lia.
Qed.

Lemma take_member {B} (L : list B) (n : nat) (k : B) :
  NoDup L -> (length L <= S n)%nat -> k ∈ take n L <-> k ∈ L /\ L !! n <> Some k.
Proof.
  intros Hnd Hlen. destruct (L !! n) as [x|] eqn:Ex.
  - assert (E : L = take n L ++ [x]).
    { rewrite <- (take_drop n L) at 1. f_equal. pose proof (drop_S L x n Ex) as ->.
      by rewrite drop_ge by lia. }
    rewrite E in Hnd. apply NoDup_app in Hnd as (_ & Hd & _). specialize (Hd k).
    rewrite E at 2. rewrite elem_of_app, list_elem_of_singleton in *. naive_solver.
  - apply lookup_ge_None in Ex. rewrite take_ge by lia. naive_solver.
Qed.

(** [add] keeps the key and everything but what it evicts. *)
Lemma keyLru_add_members (key : string) (l : keyLru) :
  keyLru_wf l ->
  (keyLru_add key l).2 <> Some key /\
  forall k, k ∈ kl_evicts (keyLru_add key l).1 <->
    (k ∈ kl_evicts l \/ k = key) /\ (keyLru_add key l).2 <> Some k.
Proof.
  intros Hw. pose proof Hw as [Hpos Hnd Hel Hsz]. pose proof (keyLru_add_spec key l Hw) as Hadd.
  destruct (keyLru_add key l) as [l' ev]. destruct Hadd as (_ & _ & He & Hev). cbn [fst snd].
  set (L := key :: filter (fun k => k <> key) (kl_evicts l)) in *.
  assert (HL : NoDup L).
  { apply NoDup_cons. rewrite list_elem_of_filter. split; [naive_solver|by apply NoDup_filter]. }
  assert (Hcase : ev = L !! Z.to_nat (kl_limit l) /\ (length L <= S (Z.to_nat (kl_limit l)))%nat).
  { rewrite Hev. subst L. case_decide as Hin; rewrite Hel in Hin.
    - pose proof (filter_ne_length key _ Hnd Hin). rewrite lookup_ge_None_2; cbn; [split; [done|]|]; lia.
    - rewrite filter_ne_id by done. split; [|cbn; lia].
      replace (Z.to_nat (kl_limit l)) with (S (Z.to_nat (kl_limit l) - 1)) at 2 by lia. done. }
  destruct Hcase as [-> Hlen].
  assert (Hmem : forall k, k ∈ L <-> k ∈ kl_evicts l \/ k = key).
  { intros k. subst L. rewrite elem_of_cons, list_elem_of_filter. destruct (decide (k = key)); naive_solver. }
  split.
  - intros E. subst L. destruct (Z.to_nat (kl_limit l)) as [|n] eqn:En; [lia|]. cbn in E.
    apply list_elem_of_lookup_2, list_elem_of_filter in E. naive_solver.
  - intros k. by rewrite He, take_member, Hmem.
Qed.

Lemma recency_nodup (hist : list string) : NoDup (recency hist).
Proof.
  induction hist as [|k hist IH]; cbn; constructor; [|by apply NoDup_filter].
  rewrite list_elem_of_filter. naive_solver.
Qed.

(** Dropping one key from a list without duplicates costs at most one place. *)
Lemma take_filter_ne (m : nat) (k : string) (R : list string) :
  NoDup R -> take m (filter (fun k' => k' <> k) (take (S m) R)) = take m (filter (fun k' => k' <> k) R).
Proof.
  intros Hnd. rewrite <- (take_drop (S m) R) at 2. rewrite filter_app.
  destruct (Nat.le_gt_cases (S m) (length R)) as [Hle|Hgt].
  2:{ rewrite (drop_ge R) by lia. by rewrite app_nil_r. }
  symmetry. apply take_app_le.
  assert (Hnd' : NoDup (take (S m) R)).
  { rewrite <- (take_drop (S m) R) in Hnd. by apply NoDup_app in Hnd as (? & _). }
  pose proof (length_take_le R (S m) Hle) as Hlen.
  destruct (decide (k ∈ take (S m) R)) as [Hin|Hin].
  - pose proof (filter_ne_length k _ Hnd' Hin). lia.
  - rewrite filter_ne_id by done. lia.
Qed.

(** After any sequence of [add]s the LRU list holds exactly the [limit] most recently
    used distinct keys, the most recent first. *)
Theorem keyLru_keeps_most_recent (limit : Z) (hist : list string) :
  0 < limit ->
  kl_evicts (keyLru_adds limit hist) = take (Z.to_nat limit) (recency hist) /\
  keyLru_wf (keyLru_adds limit hist).
Proof.
  intros Hlim. assert (Hall : kl_limit (keyLru_adds limit hist) = limit /\
    kl_evicts (keyLru_adds limit hist) = take (Z.to_nat limit) (recency hist) /\
    keyLru_wf (keyLru_adds limit hist)).
  { induction hist as [|k hist (IHl & IHe & IHw)]; cbn.
    - split; [done|]. split; [by rewrite take_nil|]. constructor; cbn; [done|constructor|set_solver|lia].
    - pose proof (keyLru_add_spec k _ IHw) as Hadd. fold (keyLru_adds limit hist).
      destruct (keyLru_add k (keyLru_adds limit hist)) as [l' ev].
      destruct Hadd as (Hw & Hl & He & _). cbn. rewrite He, Hl, IHl, IHe.
      split; [done|]. split; [|done].
      destruct (Z.to_nat limit) as [|m] eqn:Em; [lia|]. cbn. f_equal.
      apply take_filter_ne, recency_nodup. }
  by destruct Hall as (_ & ? & ?).
Qed.

Lemma keyLru_keeps_most_recent_witness :
  kl_evicts (keyLru_adds 2 ["a"; "b"; "a"; "c"]) = ["a"; "b"].
Proof.
  destruct (keyLru_keeps_most_recent 2 ["a"; "b"; "a"; "c"] ltac:(lia)) as [-> _].
  vm_compute. reflexivity.
Defined.

Lemma keyLru_remove_spec (key : string) (l : keyLru) :
  keyLru_wf l ->
  let '(l', ev) := keyLru_remove key l in
  keyLru_wf l' /\ (forall k, k ∈ kl_evicts l' <-> k ∈ kl_evicts l /\ k <> key) /\
  ev = (if decide (key ∈ kl_elements l) then Some key else None).
Proof.
  intros Hw. pose proof Hw as [Hlim Hnd He Hsz]. unfold keyLru_remove.
  case_decide as Hin.
  - split; [apply removeElement_wf; try done; [by apply He|lia]|]. split; [|done].
    intros k. cbn. rewrite list_elem_of_filter. naive_solver.
  - split; [done|]. split; [|done]. rewrite He in Hin. naive_solver.
Qed.

(** ** Cache *)

Section cache.
Context {A : Type}.

Record Cache : Type := mkCache {
  c_expire : Z;                            (* ns *)
  c_data : gmap string A;
  c_lru : option keyLru;                   (* [None] is emptyLru *)
  c_hit : Z; c_miss : Z;                   (* cacheStat *)
  c_requests : list (tw_event string A)    (* made to the timing wheel *)
}.

#[local] Instance eta_Cache : Eta Cache := fun c =>
  mkCache (c_expire c) (c_data c) (c_lru c) (c_hit c) (c_miss c) (c_requests c).

Definition slots : Z := 300.
Definition second : Z := 1000000000.

(** [NewCache] with [WithLimit limit] (0 for no option). *)
Definition NewCache (expire limit : Z) : Cache :=
  mkCache expire ∅ (if 0 <? limit then Some (newKeyLru limit) else None) 0 0 [].

(** A request to the wheel; its error is only logged. *)
Definition request (r : tw_event string A + tw_error) (c : Cache) : Cache :=
  match r with
  | inl ev => c <| c_requests := c_requests c ++ [ev] |>
  | inr _ => c
  end.

Definition Cache_onEvict (key : string) (c : Cache) : Cache :=
  request (TimingWheel_RemoveTimer false (Some key)) (c <| c_data := delete key (c_data c) |>).

Definition lru_call (f : keyLru -> keyLru * option string) (c : Cache) : Cache :=
  match c_lru c with
  | None => c
  | Some l =>
      let '(l, evicted) := f l in
      let c := c <| c_lru := Some l |> in
      match evicted with Some key => Cache_onEvict key c | None => c end
  end.

Definition Cache_Del (key : string) (c : Cache) : Cache :=
  let c := c <| c_data := delete key (c_data c) |> in
  let c := lru_call (keyLru_remove key) c in
  request (TimingWheel_RemoveTimer false (Some key)) c.

Definition u64_incr (n : Z) : Z := (n + 1) mod 2^64.

Definition Cache_doGet (key : string) (c : Cache) : option A * Cache :=
  match c_data c !! key with
  | Some value => (Some value, lru_call (keyLru_add key) c)
  | None => (None, c)
  end.

Definition Cache_Get (key : string) (c : Cache) : option A * Cache :=
  match Cache_doGet key c with
  | (Some value, c) => (Some value, c <| c_hit := u64_incr (c_hit c) |>)
  | (None, c) => (None, c <| c_miss := u64_incr (c_miss c) |>)
  end.

(** [expiry] is what [unstableExpiry.AroundDuration(expire)] returned. *)
Definition Cache_SetWithExpire (key : string) (value : A) (expiry : Z) (c : Cache) : Cache :=
  let loaded := bool_decide (is_Some (c_data c !! key)) in
  (* LoadOrStore *)
  let c := if loaded then c else c <| c_data := <[key := value]> (c_data c) |> in
  let c := lru_call (keyLru_add key) c in
  if loaded then request (TimingWheel_MoveTimer false (Some key) expiry) c
  else request (TimingWheel_SetTimer false (Some key) value expiry) c.

(** [AroundDuration] of the cache's own [expire]. *)
Definition Cache_Set (around : Z -> Z) (key : string) (value : A) (c : Cache) : Cache :=
  Cache_SetWithExpire key value (around (c_expire c)) c.

(** [Take] alone in its single flight; [fetch] is what the fetch function returns. *)
Definition Cache_Take {E : Type} (around : Z -> Z) (key : string) (fetch : A + E) (c : Cache)
  : (A + E) * Cache :=
  match Cache_doGet key c with
  | (Some val, c) => (inl val, c <| c_hit := u64_incr (c_hit c) |>)
  | (None, c) =>
      match Cache_doGet key c with
      | (Some val, c) => (inl val, c <| c_hit := u64_incr (c_hit c) |>)
      | (None, c) =>
          match fetch with
          | inr e => (inr e, c)
          | inl v =>
              let c := Cache_Set around key v c in
              (inl v, c <| c_miss := u64_incr (c_miss c) |>)
          end
      end
  end.

Definition Cache_size (c : Cache) : nat := size (c_data c).

(** *** The LRU list and the items agree *)

Definition cache_wf (c : Cache) : Prop :=
  match c_lru c with
  | None => True
  | Some l => keyLru_wf l /\ forall k, k ∈ kl_evicts l <-> is_Some (c_data c !! k)
  end.

Lemma data_onEvict (k key : string) (c : Cache) :
  c_data (Cache_onEvict key c) !! k = if decide (k = key) then None else c_data c !! k.
Proof.
  cbn. case_decide as E; [subst; apply lookup_delete_eq|by apply lookup_delete_ne].
Qed.

(** *** What the LRU calls do to items and requests *)

Lemma lru_add_ok (key : string) (c : Cache) :
  match c_lru c with
  | None => True
  | Some l => keyLru_wf l /\ forall k, k ∈ kl_evicts l \/ k = key <-> is_Some (c_data c !! k)
  end ->
  exists ev, ev <> Some key /\ (c_lru c = None -> ev = None) /\
    let c' := lru_call (keyLru_add key) c in
    cache_wf c' /\
    c_data c' = match ev with Some e => delete e (c_data c) | None => c_data c end /\
    c_requests c' = c_requests c ++ match ev with Some e => [EvRemove e] | None => [] end.
Proof.
  intros Hpre. unfold lru_call. destruct (c_lru c) as [l|] eqn:El.
  2:{ exists None. cbn. unfold cache_wf. by rewrite El, app_nil_r. }
  destruct Hpre as [Hw Hdata]. destruct (keyLru_add_members key l Hw) as [Hne Hkeys].
  pose proof (keyLru_add_spec key l Hw) as Hadd.
  destruct (keyLru_add key l) as [l' ev]. destruct Hadd as (Hw' & _). cbn [fst snd] in *.
  exists ev. split; [done|]. split; [done|]. unfold cache_wf. destruct ev as [e|]; cbn.
  - split; [|done]. split; [done|]. intros k. rewrite Hkeys, Hdata.
    destruct (decide (k = e)) as [->|]; [rewrite lookup_delete_eq|rewrite lookup_delete_ne by done];
      rewrite <- ?not_eq_None_Some; naive_solver.
  - split; [|by rewrite app_nil_r]. split; [done|]. intros k. rewrite Hkeys, Hdata. naive_solver.
Qed.

Lemma Cache_doGet_ok (key : string) (c : Cache) :
  cache_wf c ->
  let '(v, c') := Cache_doGet key c in
  v = c_data c !! key /\ cache_wf c' /\ c_data c' = c_data c /\ c_requests c' = c_requests c.
Proof.
  unfold Cache_doGet. intros Hw. destruct (c_data c !! key) as [v|] eqn:Ev; [|done].
  split; [done|]. unfold cache_wf, lru_call in *. destruct (c_lru c) as [l|] eqn:El; [|by rewrite El].
  destruct Hw as [Hw Hdata].
  assert (Hin : key ∈ kl_evicts l) by (apply Hdata; eauto).
  pose proof (keyLru_add_spec key l Hw) as Hadd. destruct (keyLru_add_members key l Hw) as [_ Hmem].
  destruct (keyLru_add key l) as [l' ev]. destruct Hadd as (Hw' & _ & _ & ->).
  rewrite decide_True by (by apply kl_elems). cbn. split; [|done]. split; [done|].
  intros k. rewrite <- Hdata. rewrite decide_True in Hmem by (by apply kl_elems). cbn in Hmem.
  rewrite Hmem. naive_solver.
Qed.

Lemma Cache_Del_ok (key : string) (c : Cache) :
  cache_wf c ->
  exists n, cache_wf (Cache_Del key c) /\ c_data (Cache_Del key c) = delete key (c_data c) /\
    c_requests (Cache_Del key c) = c_requests c ++ replicate (S n) (EvRemove key).
Proof.
  intros Hw. unfold Cache_Del, lru_call. unfold cache_wf in *.
  cbn [upd c_lru c_data c_requests]. destruct (c_lru c) as [l|] eqn:El.
  - destruct Hw as [Hw Hdata]. pose proof (keyLru_remove_spec key l Hw) as Hrem.
    destruct (keyLru_remove key l) as [l' ev]. destruct Hrem as (Hw' & Hmem & ->).
    assert (Hd : forall k, k ∈ kl_evicts l' <-> is_Some (delete key (c_data c) !! k)).
    { intros k. rewrite Hmem, Hdata. rewrite lookup_delete_is_Some. naive_solver. }
    case_decide as Hin; cbn; [exists 1%nat|exists 0%nat]; cbn.
    + rewrite <- app_assoc. split; [|by rewrite delete_delete_eq]. by rewrite delete_delete_eq.
    + done.
  - exists 0%nat. cbn. by rewrite El.
Qed.

Lemma Cache_Set_ok (key : string) (value : A) (expiry : Z) (c : Cache) :
  cache_wf c -> 0 < expiry ->
  let c' := Cache_SetWithExpire key value expiry c in
  exists ev, ev <> Some key /\ (c_lru c = None -> ev = None) /\ cache_wf c' /\
    c_data c' = (let d := match c_data c !! key with
                          | Some _ => c_data c | None => <[key := value]> (c_data c) end in
                 match ev with Some e => delete e d | None => d end) /\
    c_requests c' = c_requests c ++ match ev with Some e => [EvRemove e] | None => [] end ++
      match c_data c !! key with Some _ => [EvMove expiry key] | None => [EvSet expiry key value] end.
Proof.
  intros Hw Hexp c'. subst c'. unfold Cache_SetWithExpire.
  unfold TimingWheel_MoveTimer, TimingWheel_SetTimer. rewrite (proj2 (Z.leb_gt expiry 0)) by done. cbn [tw_send].
  set (c0 := if bool_decide (is_Some (c_data c !! key)) then c else c <| c_data := <[key := value]> (c_data c) |>).
  assert (Hd : c_data c0 = match c_data c !! key with Some _ => c_data c | None => <[key := value]> (c_data c) end).
  { subst c0. case_bool_decide as Hs; destruct (c_data c !! key); try done. exfalso. by apply Hs. }
  assert (Hr : c_requests c0 = c_requests c /\ c_lru c0 = c_lru c) by (subst c0; by case_bool_decide).
  destruct Hr as [Hr El]. clearbody c0.
  destruct (lru_add_ok key c0) as (ev & Hne & Hnone & Hw' & Hdata & Hreq).
  { rewrite El. unfold cache_wf in Hw. destruct (c_lru c) as [l|]; [|done]. destruct Hw as [Hw Hmem].
    split; [done|]. intros k. rewrite Hmem, Hd. destruct (c_data c !! key) eqn:E.
    - split; [|naive_solver]. intros [?| ->]; [done|]. rewrite E. eauto.
    - rewrite lookup_insert_is_Some. destruct (decide (k = key)); naive_solver. }
  exists ev. split; [done|]. split; [rewrite <- El; done|].
  case_bool_decide as Hs; destruct (c_data c !! key) as [v0|]; try (exfalso; by eauto || by destruct Hs);
    (split; [exact Hw'|]; split; [cbn; by rewrite Hdata, Hd|cbn; rewrite Hreq, Hr; by rewrite app_assoc]).
Qed.

(** ** A cache and its wheel *)

Context {M : Type} `{!KVMapOps string nat M}.

Record cache_sys : Type := mkCacheSys { cs_cache : Cache; cs_wheel : TimingWheel string A M }.

(** [NewCache] starts a wheel of [slots] slots that ticks every second. *)
Definition new_cache_sys (expire limit : Z) : option cache_sys :=
  w ← NewTimingWheel second slots;
  Some (mkCacheSys (NewCache expire limit) w).

(** The wheel serves the events [evs]; the tasks it executes call [Del], whose requests
    are [RemoveTimer]s, which execute nothing. *)
Definition serve (evs : list (tw_event string A)) (c : Cache) (w : TimingWheel string A M)
  : option cache_sys :=
  '(w, fired) ← tw_run evs w;
  let c := foldl (fun c kv => Cache_Del kv.1 c) (c <| c_requests := [] |>) (concat fired) in
  '(w, _) ← tw_run (c_requests c) w;
  Some (mkCacheSys (c <| c_requests := [] |>) w).

Inductive cache_op :=
| OpSet (key : string) (value : A) (expiry : Z)
| OpGet (key : string)
| OpDel (key : string)
| OpTake (key : string) (fetch : option A) (expiry : Z)
| OpTick.

Definition cache_step (op : cache_op) (s : cache_sys) : option cache_sys :=
  let c := cs_cache s in
  match op with
  | OpSet k v e => let c := Cache_SetWithExpire k v e c in serve (c_requests c) c (cs_wheel s)
  | OpGet k => let c := (Cache_Get k c).2 in serve (c_requests c) c (cs_wheel s)
  | OpDel k => let c := Cache_Del k c in serve (c_requests c) c (cs_wheel s)
  | OpTake k fetch e =>
      let c := (Cache_Take (fun _ => e) k (from_option inl (inr tt) fetch) c).2 in
      serve (c_requests c) c (cs_wheel s)
  | OpTick => serve [EvTick] c (cs_wheel s)
  end.

Fixpoint cache_run (ops : list cache_op) (s : cache_sys) : option cache_sys :=
  match ops with
  | [] => Some s
  | op :: ops => s ← cache_step op s; cache_run ops s
  end.

(** Expiries are positive and do not overflow the wheel's positions. *)
Definition op_ok (op : cache_op) : Prop :=
  match op with
  | OpSet _ _ e | OpTake _ _ e => 0 < e /\ e < 2^63
  | _ => True
  end.

Context `{!KVMapLaws string nat M}.

(** The wheel, its period and the keys it has timers for. *)
Definition wheel_for (D : string -> Prop) (w : TimingWheel string A M) : Prop :=
  tw_inv None w /\ tw_interval w = second /\ tw_numSlots w = slots /\
  forall k, D k <-> is_Some (tw_abs w k).

(** [evs] take the wheel to one with timers for exactly [D]. *)
Definition leads_to (evs : list (tw_event string A)) (w : TimingWheel string A M) (D : string -> Prop) : Prop :=
  exists w' fired, tw_run evs w = Some (w', fired) /\ wheel_for D w'.

Lemma leads_to_snoc evs (ev : tw_event string A) w (D D' : string -> Prop) :
  leads_to evs w D -> event_ok second slots ev ->
  (forall w1 w2 f, wheel_for D w1 -> tw_step ev w1 = Some (w2, f) -> forall k, D' k <-> is_Some (tw_abs w2 k)) ->
  leads_to (evs ++ [ev]) w D'.
Proof.
  intros (w1 & f1 & Hrun & HD) Hok Hstep. pose proof HD as (Hi & E1 & E2 & _).
  destruct (tw_step_ok w1 ev Hi) as (w2 & f2 & Hs & Hi2 & E3 & E4 & _ & _); [by rewrite E1, E2|].
  exists w2, (f1 ++ [f2]). rewrite tw_run_app, Hrun. cbn. rewrite Hs. cbn. split; [done|].
  split; [done|]. split; [congruence|]. split; [congruence|]. by eapply Hstep.
Qed.

Lemma leads_to_remove evs k w (D : string -> Prop) :
  leads_to evs w D -> leads_to (evs ++ [EvRemove k]) w (fun k' => D k' /\ k' <> k).
Proof.
  intros Hl. eapply leads_to_snoc; [done|done|]. intros w1 w2 f (Hi & _ & _ & HD) Hs k'. cbn in Hs.
  destruct (removeTask_ok w1 k Hi) as (w2' & Hr & _ & _ & Hk & Ho). rewrite Hr in Hs. cbn in Hs.
  injection Hs as <- <-. destruct (decide (k' = k)) as [->|Hne].
  - rewrite Hk. split; [naive_solver|by intros [? ?]].
  - rewrite (Ho k' Hne), <- HD. naive_solver.
Qed.

Lemma event_ok_expiry (e : Z) : 0 < e < 2^63 -> Z.max 1 (Z.quot e second) + slots < 2^63.
Proof.
  intros. unfold second, slots. rewrite Z.quot_div_nonneg by lia.
  pose proof (Z.div_le_upper_bound e 1000000000 (2^63 / 1000000000 + 1)). lia.
Qed.

Lemma leads_to_set evs e k v w (D : string -> Prop) :
  leads_to evs w D -> ~ D k -> 0 < e < 2^63 ->
  leads_to (evs ++ [EvSet e k v]) w (fun k' => D k' \/ k' = k).
Proof.
  intros Hl Hk He. eapply leads_to_snoc; [done|by apply event_ok_expiry|].
  intros w1 w2 f (Hi & E1 & E2 & HD) Hs k'. cbn in Hs.
  assert (Hnone : tw_abs w1 k = None) by (apply eq_None_not_Some; by rewrite <- HD).
  destruct (fits_ok w1 e) as [Hf _]; [apply Hi|rewrite E1, E2; by apply event_ok_expiry|].
  destruct (setTask_fresh w1 e k v Hi Hnone Hf) as (w2' & Hr & _ & _ & Hset & Ho).
  rewrite Hr in Hs. injection Hs as <- <-. destruct (decide (k' = k)) as [->|Hne].
  - rewrite Hset. naive_solver.
  - rewrite (Ho k' Hne), <- HD. naive_solver.
Qed.

Lemma leads_to_move evs e k w (D : string -> Prop) :
  leads_to evs w D -> D k -> 0 < e < 2^63 -> leads_to (evs ++ [EvMove e k]) w D.
Proof.
  intros Hl Hk He. eapply leads_to_snoc; [done|by apply event_ok_expiry|].
  intros w1 w2 f (Hi & E1 & E2 & HD) Hs k'. cbn in Hs.
  destruct (fits_ok w1 e) as [_ Hf]; [apply Hi|rewrite E1, E2; by apply event_ok_expiry|].
  apply HD in Hk as [[r v] Hk].
  destruct (Z.lt_ge_cases e (tw_interval w1)) as [Hd|Hd].
  - rewrite (moveTask_soon w1 e k r v Hi Hk Hd) in Hs. by injection Hs as <- <-.
  - destruct (moveTask_ok w1 e k r v Hi Hk Hd (Hf Hd)) as (w2' & Hr & _ & _ & Hset & Ho).
    rewrite Hr in Hs. injection Hs as <- <-. destruct (decide (k' = k)) as [->|Hne].
    + rewrite HD, Hset, Hk. naive_solver.
    + by rewrite (Ho k' Hne).
Qed.

Definition has (c : Cache) (k : string) : Prop := is_Some (c_data c !! k).

Lemma leads_to_ext evs w (D D' : string -> Prop) :
  leads_to evs w D -> (forall k, D k <-> D' k) -> leads_to evs w D'.
Proof.
  intros (w' & f & Hr & Hi & E1 & E2 & HD) Hext. exists w', f. split; [done|].
  split; [done|]. split; [done|]. split; [done|]. intros k. by rewrite <- Hext.
Qed.

Lemma leads_to_removes (n : nat) k w (D : string -> Prop) : forall evs,
  leads_to evs w D -> leads_to (evs ++ replicate (S n) (EvRemove k)) w (fun k' => D k' /\ k' <> k).
Proof.
  intros evs Hl. induction n as [|n IH]; [by apply leads_to_remove|].
  rewrite replicate_S_end, app_assoc. eapply leads_to_ext; [by apply leads_to_remove|]. naive_solver.
Qed.

(** Requests that name other keys leave a key's timer as it is. *)
Lemma tw_run_frame (k : string) (evs : list (tw_event string A)) : forall w w' f,
  tw_inv None w -> Forall (event_ok (tw_interval w) (tw_numSlots w)) evs ->
  Forall (fun ev => event_key ev <> Some k /\ is_tick ev = false) evs ->
  tw_run (M := M) evs w = Some (w', f) -> tw_abs w' k = tw_abs w k.
Proof.
  induction evs as [|ev evs IH]; intros w w' f Hi Hok Hk Hrun; [by injection Hrun as <- <-|].
  apply Forall_cons in Hok as [Hev Hok]. apply Forall_cons in Hk as [[Hkev Htick] Hk].
  destruct (tw_step_ok w ev Hi Hev) as (w1 & f1 & Hs & Hi1 & E1 & E2 & _ & Hother).
  cbn in Hrun. rewrite Hs in Hrun. cbn in Hrun.
  destruct (tw_run evs w1) as [[w2 f2]|] eqn:Hr; [|done]. injection Hrun as <- <-.
  rewrite (IH w1 w2 f2 Hi1) by (done || by rewrite E1, E2).
  rewrite (proj1 (Hother k Hkev)). by destruct ev.
Qed.

(** Any number of [Del]s. *)
Lemma Dels_ok (l : list (string * A)) : forall (c : Cache) w D,
  cache_wf c -> leads_to (c_requests c) w D ->
  let c' := foldl (fun c kv => Cache_Del kv.1 c) c l in
  cache_wf c' /\ leads_to (c_requests c') w (fun k => D k /\ k ∉ l.*1) /\
  (exists rs, c_requests c' = c_requests c ++ rs /\ Forall (fun ev => exists k, k ∈ l.*1 /\ ev = EvRemove k) rs) /\
  (forall k, c_data c' !! k = if decide (k ∈ l.*1) then None else c_data c !! k).
Proof.
  induction l as [|[k v] l IH]; intros c w D Hw Hl; cbn [foldl fmap list_fmap fst].
  - split; [done|]. split; [eapply leads_to_ext; [done|]; set_solver|].
    split; [exists []; by rewrite app_nil_r|]. intros k. by rewrite decide_False by set_solver.
  - destruct (Cache_Del_ok k c Hw) as (n & Hw' & Hd & Hreq).
    destruct (IH (Cache_Del k c) w (fun k' => D k' /\ k' <> k) Hw') as (Hw2 & Hl2 & (rs & Hrs & Hall) & Hd2).
    { rewrite Hreq. by apply leads_to_removes. }
    split; [done|]. split; [eapply leads_to_ext; [done|]; set_solver|]. split.
    { exists (replicate (S n) (EvRemove k) ++ rs). rewrite Hrs, Hreq, app_assoc. split; [done|].
      apply Forall_app. split; [apply Forall_replicate; exists k; set_solver|].
      eapply Forall_impl; [exact Hall|]. set_solver. }
    intros k'. rewrite Hd2, Hd. destruct (decide (k' = k)) as [->|Hne].
    + rewrite (decide_True (P := k ∈ k :: _)) by set_solver. rewrite lookup_delete_eq. by case_decide.
    + rewrite lookup_delete_ne by done. repeat case_decide; set_solver.
Qed.

(** A cache that has exactly the items its wheel has timers for. *)
Definition coherent (s : cache_sys) : Prop :=
  cache_wf (cs_cache s) /\ c_requests (cs_cache s) = [] /\ wheel_for (has (cs_cache s)) (cs_wheel s).

Lemma serve_ok (evs : list (tw_event string A)) (c : Cache) w w1 fired :
  cache_wf c -> tw_run evs w = Some (w1, fired) ->
  tw_inv None w1 -> tw_interval w1 = second -> tw_numSlots w1 = slots ->
  (forall k, k ∉ (concat fired).*1 -> has c k <-> is_Some (tw_abs w1 k)) ->
  exists s, serve evs c w = Some s /\ coherent s /\
    (forall k, c_data (cs_cache s) !! k = if decide (k ∈ (concat fired).*1) then None else c_data c !! k) /\
    (forall k, k ∉ (concat fired).*1 -> tw_abs (cs_wheel s) k = tw_abs w1 k).
Proof.
  intros Hw Hrun Hi E1 E2 HD. unfold serve. rewrite Hrun. cbn [mbind option_bind].
  destruct (Dels_ok (concat fired) (c <| c_requests := [] |>) w1 (fun k => is_Some (tw_abs w1 k)))
    as (Hw' & (w2 & f2 & Hr2 & Hi2 & E3 & E4 & HD2) & (rs & Hrs & Hall) & Hd).
  - done.
  - exists w1, []. done.
  - rewrite Hr2. cbn [mbind option_bind]. eexists. split; [reflexivity|]. split; [|split].
    + split; [done|]. split; [done|]. split; [done|]. split; [done|]. split; [done|].
      intros k. cbn. rewrite <- HD2. unfold has. cbn. rewrite Hd. case_decide as Hk.
      * split; [by intros [? ?]|naive_solver].
      * rewrite <- (HD k Hk). cbn. unfold has. naive_solver.
    + cbn. intros k. apply Hd.
    + cbn. intros k Hk. eapply tw_run_frame; [done| | |exact Hr2]; rewrite Hrs;
        eapply Forall_impl; try exact Hall; cbn; intros ev (k' & Hk' & ->); [done|].
      cbn. split; [|done]. intros [= ->]. done.
Qed.

Lemma leads_serve (c : Cache) w :
  cache_wf c -> leads_to (c_requests c) w (has c) ->
  exists s, serve (c_requests c) c w = Some s /\ coherent s.
Proof.
  intros Hw (w1 & fired & Hrun & Hi & E1 & E2 & HD).
  destruct (serve_ok _ c w w1 fired Hw Hrun Hi E1 E2) as (s & Hs & Hc & _); eauto.
Qed.

Lemma Set_leads (k : string) (v : A) (e : Z) (c : Cache) w :
  cache_wf c -> c_requests c = [] -> wheel_for (has c) w -> 0 < e < 2^63 ->
  let c' := Cache_SetWithExpire k v e c in cache_wf c' /\ leads_to (c_requests c') w (has c').
Proof.
  intros Hw Hreq HD He c'. destruct (Cache_Set_ok k v e c Hw ltac:(lia)) as (ev & Hne & _ & Hw' & Hd & Hr).
  fold c' in Hw', Hd, Hr. split; [done|]. rewrite Hr, Hreq. cbn [app].
  set (D1 := fun k' => has c k' /\ ev <> Some k').
  assert (H1 : leads_to (match ev with Some e => [EvRemove e] | None => [] end) w D1).
  { assert (H0 : leads_to [] w (has c)) by (by exists w, []).
    destruct ev as [x|]; [apply (leads_to_remove [] x) in H0|]; (eapply leads_to_ext; [exact H0|]);
      unfold D1; naive_solver. }
  destruct (c_data c !! k) as [v0|] eqn:Ek; cbn in Hd.
  - eapply leads_to_ext; [apply leads_to_move; [exact H1| |done]|].
    + split; [unfold has; rewrite Ek; eauto|done].
    + intros k'. unfold D1, has. rewrite Hd. destruct ev as [x|]; [|naive_solver].
      rewrite lookup_delete_is_Some. naive_solver.
  - eapply leads_to_ext; [apply leads_to_set; [exact H1| |done]|].
    + unfold D1, has. rewrite Ek. intros [[? ?] _]. done.
    + intros k'. unfold D1, has. rewrite Hd.
      destruct ev as [x|]; rewrite ?lookup_delete_is_Some, lookup_insert_is_Some;
        destruct (decide (k' = k)); naive_solver.
Qed.

Lemma new_cache_sys_coherent (expire limit : Z) :
  exists s, new_cache_sys expire limit = Some s /\ coherent s.
Proof.
  unfold new_cache_sys. destruct (NewTimingWheel second slots) as [w|] eqn:Hnew; [|done].
  destruct (NewTimingWheel_inv second slots w Hnew) as (Hi & E1 & E2 & Habs).
  eexists. split; [reflexivity|]. split; [|split; [done|]].
  - unfold cache_wf. cbn. destruct (Z.ltb_spec 0 limit); [|done]. split.
    + constructor; cbn; [done|constructor|set_solver|lia].
    + intros k. cbn. rewrite lookup_empty. split; [set_solver|by intros [? ?]].
  - split; [done|]. split; [done|]. split; [done|]. intros k. unfold has. cbn.
    rewrite lookup_empty, Habs. done.
Qed.

Lemma cache_step_ok (op : cache_op) (s : cache_sys) :
  coherent s -> op_ok op -> exists s', cache_step op s = Some s' /\ coherent s'.
Proof.
  intros (Hw & Hreq & HD) Hok. destruct s as [c w]. cbn [cs_cache cs_wheel] in *.
  destruct op as [k v e|k|k|k fetch e|]; cbn [cache_step cs_cache cs_wheel op_ok] in *.
  - destruct (Set_leads k v e c w) as [Hw' Hl]; try done. by apply leads_serve.
  - unfold Cache_Get. pose proof (Cache_doGet_ok k c Hw) as Hg.
    destruct (Cache_doGet k c) as [[v|] c1]; destruct Hg as (_ & Hw1 & Hd1 & Hr1); cbn [fst snd];
      (apply leads_serve; [done|]; cbn; rewrite Hr1, Hreq; exists w, [];
       split; [done|]; unfold has in *; cbn; by rewrite Hd1).
  - destruct (Cache_Del_ok k c Hw) as (n & Hw' & Hd & Hr). apply leads_serve; [done|].
    rewrite Hr, Hreq. apply (leads_to_ext _ _ (fun k' => has c k' /\ k' <> k)).
    + apply (leads_to_removes n k w (has c) []). by exists w, [].
    + intros k'. unfold has. rewrite Hd, lookup_delete_is_Some. naive_solver.
  - unfold Cache_Take. pose proof (Cache_doGet_ok k c Hw) as Hg.
    destruct (Cache_doGet k c) as [[v|] c1] eqn:Eg; destruct Hg as (Hv & Hw1 & Hd1 & Hr1).
    + apply leads_serve; [done|]. cbn. rewrite Hr1, Hreq. exists w, []. split; [done|].
      unfold has in *. cbn. by rewrite Hd1.
    + assert (c1 = c) as ->.
      { unfold Cache_doGet in Eg. destruct (c_data c !! k); by injection Eg. }
      rewrite Eg. destruct fetch as [v|]; cbn [from_option snd].
      * destruct (Set_leads k v e c w) as [Hw' Hl]; try done. by apply leads_serve.
      * apply leads_serve; [done|]. rewrite Hreq. by exists w, [].
  - destruct HD as (Hi & E1 & E2 & HD).
    destruct (onTick_ok w Hi) as (w1 & tasks & Ht & Hi1 & E3 & E4 & Habs & Hmem & _).
    destruct (serve_ok [EvTick] c w w1 [tasks] Hw) as (s' & Hs & Hc & _); try congruence; [cbn; by rewrite Ht| |by eauto].
    intros k Hk. rewrite HD, Habs. cbn in Hk. rewrite app_nil_r in Hk.
    destruct (tw_abs w k) as [[r v]|] eqn:Ek; [|done]. destruct (Z.eqb_spec r 1) as [->|]; [|by eauto].
    exfalso. apply Hk, list_elem_of_fmap. exists (k, v). by rewrite Hmem.
Qed.

Lemma cache_run_ok (ops : list cache_op) : forall s,
  coherent s -> Forall op_ok ops -> exists s', cache_run ops s = Some s' /\ coherent s'.
Proof.
  induction ops as [|op ops IH]; intros s Hc Hok; [by exists s|].
  apply Forall_cons in Hok as [Hop Hok]. destruct (cache_step_ok op s Hc Hop) as (s1 & Hs & Hc1).
  cbn. rewrite Hs. cbn. by apply IH.
Qed.

(** *** The limit never changes *)

Definition cache_limit (c : Cache) : option Z := kl_limit <$> c_lru c.

Lemma lru_call_limit (f : keyLru -> keyLru * option string) (c : Cache) :
  (forall l, kl_limit (f l).1 = kl_limit l) -> cache_limit (lru_call f c) = cache_limit c.
Proof.
  intros Hf. unfold lru_call, cache_limit. destruct (c_lru c) as [l|] eqn:El; [|by rewrite El].
  specialize (Hf l). destruct (f l) as [l' [key|]]; cbn in *; by rewrite Hf.
Qed.

Lemma keyLru_add_limit key (l : keyLru) : kl_limit (keyLru_add key l).1 = kl_limit l.
Proof.
  unfold keyLru_add, keyLru_removeOldest. case_decide; [done|]. destruct (_ <? _); [|done].
  by destruct (last _).
Qed.

Lemma keyLru_remove_limit key (l : keyLru) : kl_limit (keyLru_remove key l).1 = kl_limit l.
Proof. unfold keyLru_remove. by case_decide. Qed.

Lemma request_limit r (c : Cache) : cache_limit (request r c) = cache_limit c.
Proof. by destruct r. Qed.

Lemma Del_limit key (c : Cache) : cache_limit (Cache_Del key c) = cache_limit c.
Proof. unfold Cache_Del. rewrite request_limit, lru_call_limit by apply keyLru_remove_limit. done. Qed.

Lemma doGet_limit key (c : Cache) : cache_limit (Cache_doGet key c).2 = cache_limit c.
Proof. unfold Cache_doGet. destruct (c_data c !! key); [|done]. apply lru_call_limit, keyLru_add_limit. Qed.

Lemma Set_limit key v e (c : Cache) : cache_limit (Cache_SetWithExpire key v e c) = cache_limit c.
Proof.
  unfold Cache_SetWithExpire. case_bool_decide; rewrite request_limit, lru_call_limit by apply keyLru_add_limit; done.
Qed.

Lemma serve_limit evs c w s : serve evs c w = Some s -> cache_limit (cs_cache s) = cache_limit c.
Proof.
  unfold serve. destruct (tw_run evs w) as [[w1 f]|]; [|done]. cbn [mbind option_bind].
  destruct (tw_run _ w1) as [[w2 f2]|]; [|done]. cbn [mbind option_bind]. intros [= <-]. cbn [cs_cache].
  assert (Hall : forall l c, cache_limit (foldl (fun c (kv : string * A) => Cache_Del kv.1 c) c l) = cache_limit c).
  { induction l as [|kv l IH]; intros c'; [done|]. cbn [foldl]. by rewrite IH, Del_limit. }
  etransitivity; [exact (Hall (concat f) (c <| c_requests := [] |>))|]. done.
Qed.

Lemma cache_step_limit op s s' : cache_step op s = Some s' -> cache_limit (cs_cache s') = cache_limit (cs_cache s).
Proof.
  destruct op as [k v e|k|k|k fetch e|]; cbn [cache_step]; intros ->%serve_limit.
  - apply Set_limit.
  - unfold Cache_Get. rewrite <- (doGet_limit k (cs_cache s)).
    by destruct (Cache_doGet k (cs_cache s)) as [[]].
  - apply Del_limit.
  - unfold Cache_Take. rewrite <- (doGet_limit k (cs_cache s)).
    destruct (Cache_doGet k (cs_cache s)) as [[v|] c1]; [done|]. cbn [snd].
    rewrite <- (doGet_limit k c1). destruct (Cache_doGet k c1) as [[v|] c2]; [done|].
    destruct fetch; cbn; [apply Set_limit|done].
  - done.
Qed.

Lemma cache_run_limit ops : forall s s',
  cache_run ops s = Some s' -> cache_limit (cs_cache s') = cache_limit (cs_cache s).
Proof.
  induction ops as [|op ops IH]; intros s s' Hrun; [by injection Hrun as <-|]. cbn in Hrun.
  destruct (cache_step op s) as [s1|] eqn:Hs; [|done]. cbn in Hrun.
  rewrite (IH s1 s' Hrun). by eapply cache_step_limit.
Qed.

(** *** Expiry *)

Definition op_key (op : cache_op) : option string :=
  match op with
  | OpSet k _ _ | OpDel k | OpTake k _ _ => Some k
  | OpGet _ | OpTick => None
  end.

Definition op_ticks (op : cache_op) : Z := match op with OpTick => 1 | _ => 0 end.

(** Serving requests for other keys. *)
Lemma serve_other (k : string) (c : Cache) w s :
  cache_wf c -> leads_to (c_requests c) w (has c) -> tw_inv None w ->
  tw_interval w = second -> tw_numSlots w = slots ->
  Forall (event_ok second slots) (c_requests c) ->
  Forall (fun ev => event_key ev <> Some k /\ is_tick ev = false) (c_requests c) ->
  serve (c_requests c) c w = Some s ->
  c_data (cs_cache s) !! k = c_data c !! k /\ tw_abs (cs_wheel s) k = tw_abs w k.
Proof.
  intros Hw (w1 & fired & Hrun & Hi1 & E1 & E2 & HD) Hi E3 E4 Hok Hk Hs.
  destruct (serve_ok _ c w w1 fired Hw Hrun Hi1 E1 E2) as (s' & Hs' & _ & Hdata & Habs); [eauto|].
  rewrite Hs in Hs'. injection Hs' as <-.
  assert (Hnot : k ∉ (concat fired).*1).
  { intros ([k' v] & -> & Hin)%list_elem_of_fmap. cbn in *.
    destruct (tw_run_fires k' (c_requests c) w Hi) as (w2 & fired' & Hrun' & _ & Hspec).
    - by rewrite E3, E4.
    - eapply Forall_impl; [exact Hk|]. cbn. naive_solver.
    - rewrite Hrun in Hrun'. injection Hrun' as <- <-.
      apply list_elem_of_In, in_concat in Hin as (f & Hf & Hin).
      apply list_elem_of_In, list_elem_of_lookup in Hf as [i Hf]. apply list_elem_of_In in Hin.
      apply (Hspec i f v Hf) in Hin as [Htick _].
      pose proof (Forall_lookup_1 _ _ _ _ Hk Htick) as [_ ?]. done. }
  rewrite Hdata, decide_False by done. split; [done|]. rewrite (Habs k Hnot).
  eapply tw_run_frame; [done| |exact Hk|exact Hrun]. by rewrite E3, E4.
Qed.

Lemma no_lru (c : Cache) : cache_limit c = None -> c_lru c = None.
Proof. unfold cache_limit. by destruct (c_lru c). Qed.

(** A [Set] of another key, without a limit. *)
Lemma Set_other (k k' : string) (v : A) (e : Z) (c : Cache) :
  cache_wf c -> c_requests c = [] -> cache_limit c = None -> k' <> k -> 0 < e < 2^63 ->
  let c' := Cache_SetWithExpire k' v e c in
  c_data c' !! k = c_data c !! k /\ Forall (event_ok second slots) (c_requests c') /\
  Forall (fun ev => event_key ev <> Some k /\ is_tick ev = false) (c_requests c').
Proof.
  intros Hw Hreq Hlim Hne He c'.
  destruct (Cache_Set_ok k' v e c Hw ltac:(lia)) as (ev & _ & Hev & _ & Hd & Hr).
  rewrite (Hev (no_lru c Hlim)) in *. subst c'. cbn zeta in Hd. rewrite Hd, Hr, Hreq. cbn [app].
  pose proof (event_ok_expiry e He).
  destruct (c_data c !! k'); (split; [by rewrite ?lookup_insert_ne by done|]);
    (split; (constructor; [|constructor])); cbn; naive_solver.
Qed.

Lemma step_other (k : string) (op : cache_op) (s s' : cache_sys) :
  coherent s -> cache_limit (cs_cache s) = None -> op_ok op -> op_key op <> Some k ->
  op <> OpTick -> cache_step op s = Some s' ->
  c_data (cs_cache s') !! k = c_data (cs_cache s) !! k /\ tw_abs (cs_wheel s') k = tw_abs (cs_wheel s) k.
Proof.
  intros (Hw & Hreq & HD) Hlim Hok Hk Htick Hs. destruct s as [c w]. cbn [cs_cache cs_wheel] in *.
  pose proof HD as (Hi & E1 & E2 & _).
  assert (Hget : forall c1, cache_wf c1 -> c_data c1 = c_data c -> c_requests c1 = [] ->
    serve (c_requests c1) c1 w = Some s' ->
    c_data (cs_cache s') !! k = c_data c !! k /\ tw_abs (cs_wheel s') k = tw_abs w k).
  { intros c1 Hw1 Hd1 Hr1 Hs1. rewrite <- Hd1. apply serve_other; try done; rewrite Hr1; try constructor.
    exists w, []. split; [done|]. unfold has. rewrite Hd1. done. }
  assert (Hset : forall k' v e m, k' <> k -> 0 < e < 2^63 ->
    let c1 := (Cache_SetWithExpire k' v e c) <| c_miss := m |> in
    serve (c_requests c1) c1 w = Some s' ->
    c_data (cs_cache s') !! k = c_data c !! k /\ tw_abs (cs_wheel s') k = tw_abs w k).
  { intros k' v e m Hne He c1 Hs1. destruct (Set_leads k' v e c w Hw Hreq HD He) as [Hw' Hl].
    destruct (Set_other k k' v e c Hw Hreq Hlim Hne He) as (Hd & Hev1 & Hev2).
    rewrite <- Hd. subst c1. destruct (Cache_SetWithExpire k' v e c) as [ce cd cl ch cm cr].
    exact (serve_other k (mkCache ce cd cl ch m cr) w s' Hw' Hl Hi E1 E2 Hev1 Hev2 Hs1). }
  destruct op as [k' v e|k'|k'|k' fetch e|]; cbn [cache_step cs_cache cs_wheel op_ok op_key] in *.
  - apply (Hset k' v e (c_miss (Cache_SetWithExpire k' v e c))); [congruence|done|].
    by destruct (Cache_SetWithExpire k' v e c).
  - unfold Cache_Get in Hs. pose proof (Cache_doGet_ok k' c Hw) as Hg.
    destruct (Cache_doGet k' c) as [[v|] c1]; destruct Hg as (_ & Hw1 & Hd1 & Hr1); cbn [fst snd] in Hs;
      (eapply Hget; [| | |exact Hs]; [done|done|cbn; congruence]).
  - destruct (Cache_Del_ok k' c Hw) as (n & Hw' & Hd & Hr). assert (Hne : k' <> k) by congruence.
    assert (Hl : leads_to (c_requests (Cache_Del k' c)) w (has (Cache_Del k' c))).
    { rewrite Hr, Hreq. apply (leads_to_ext _ _ (fun k2 => has c k2 /\ k2 <> k')).
      - apply (leads_to_removes n k' w (has c) []). by exists w, [].
      - intros k2. unfold has. rewrite Hd, lookup_delete_is_Some. naive_solver. }
    rewrite <- (lookup_delete_ne (c_data c) k' k Hne), <- Hd.
    apply serve_other; try done; rewrite Hr, Hreq; cbn [app]; apply Forall_replicate; cbn; [done|].
    split; congruence.
  - unfold Cache_Take in Hs. pose proof (Cache_doGet_ok k' c Hw) as Hg.
    destruct (Cache_doGet k' c) as [[v|] c1] eqn:Eg; destruct Hg as (Hv & Hw1 & Hd1 & Hr1).
    + eapply Hget; [| | |exact Hs]; [done|done|cbn; congruence].
    + assert (c1 = c) as -> by (unfold Cache_doGet in Eg; destruct (c_data c !! k'); by injection Eg).
      rewrite Eg in Hs. destruct fetch as [v|]; cbn [from_option snd] in Hs.
      * eapply (Hset k' v e); [congruence|done|exact Hs].
      * by eapply Hget.
  - done.
Qed.

(** A key set with [r] ticks to live. *)
Definition lives (k : string) (v : A) (r : Z) (s : cache_sys) : Prop :=
  if 0 <? r then c_data (cs_cache s) !! k = Some v /\ exists v', tw_abs (cs_wheel s) k = Some (r, v')
  else c_data (cs_cache s) !! k = None /\ tw_abs (cs_wheel s) k = None.

Lemma tick_lives (k : string) (v : A) (r : Z) (s s' : cache_sys) :
  coherent s -> lives k v r s -> cache_step OpTick s = Some s' -> lives k v (r - 1) s'.
Proof.
  intros (Hw & _ & Hi & E1 & E2 & HD) Hlive Hs. destruct s as [c w]. cbn [cs_cache cs_wheel cache_step] in *.
  destruct (onTick_ok w Hi) as (w1 & tasks & Ht & Hi1 & E3 & E4 & Habs & Hmem & _).
  destruct (serve_ok [EvTick] c w w1 [tasks] Hw) as (s1 & Hs1 & (_ & _ & Hwf) & Hdata & Hkeep); try congruence.
  { cbn. by rewrite Ht. }
  { intros k' Hk'. cbn in Hk'. rewrite app_nil_r in Hk'. rewrite HD, Habs.
    destruct (tw_abs w k') as [[r' v']|] eqn:Ek; [|done].
    destruct (Z.eqb_spec r' 1) as [->|]; [|by eauto].
    exfalso. apply Hk', list_elem_of_fmap. exists (k', v'). by rewrite Hmem. }
  rewrite Hs in Hs1. injection Hs1 as <-. cbn [concat] in Hdata, Hkeep. rewrite app_nil_r in Hdata, Hkeep.
  unfold lives in *. specialize (Habs k). specialize (Hdata k). cbn [cs_cache cs_wheel] in *.
  assert (Hin : k ∈ tasks.*1 <-> exists v', tw_abs w k = Some (1, v')).
  { rewrite list_elem_of_fmap. setoid_rewrite <- Hmem. split; [|naive_solver].
    intros ([k' v'] & -> & ?). eauto. }
  destruct Hwf as (_ & _ & _ & HD').
  destruct (Z.ltb_spec 0 r) as [Hr|Hr]; destruct (Z.ltb_spec 0 (r - 1)) as [Hr1|Hr1]; try lia.
  - destruct Hlive as [Hd [v' Ha]]. rewrite Ha in Habs, Hin. rewrite (proj2 (Z.eqb_neq r 1)) in Habs by lia.
    rewrite decide_False in Hdata by (rewrite Hin; intros [? [=]]; lia).
    rewrite Hdata, Hkeep by (rewrite Hin; intros [? [=]]; lia). eauto.
  - destruct Hlive as [Hd [v' Ha]]. replace r with 1 in * by lia.
    rewrite decide_True in Hdata by (apply Hin; eauto). split; [done|].
    apply eq_None_not_Some. rewrite <- HD'. unfold has. rewrite Hdata. by intros [? ?].
  - destruct Hlive as [Hd Ha]. rewrite Ha in Habs, Hin.
    rewrite decide_False in Hdata by (rewrite Hin; naive_solver).
    rewrite Hdata, Hkeep by (rewrite Hin; naive_solver). done.
Qed.

Lemma set_lives (k : string) (v : A) (e : Z) (s s' : cache_sys) :
  coherent s -> cache_limit (cs_cache s) = None -> c_data (cs_cache s) !! k = None -> 0 < e < 2^63 ->
  cache_step (OpSet k v e) s = Some s' -> lives k v (Z.max 1 (Z.quot e second)) s'.
Proof.
  intros (Hw & Hreq & Hi & E1 & E2 & HD) Hlim Hnone He Hs. destruct s as [c w].
  cbn [cs_cache cs_wheel cache_step] in *.
  destruct (Cache_Set_ok k v e c Hw ltac:(lia)) as (ev & _ & Hev & Hw' & Hd & Hr).
  rewrite (Hev (no_lru c Hlim)) in *. rewrite Hnone in Hd, Hr. cbn zeta in Hd. rewrite Hreq in Hr. cbn [app] in Hr.
  assert (Habs : tw_abs w k = None).
  { apply eq_None_not_Some. rewrite <- HD. unfold has. rewrite Hnone. by intros [? ?]. }
  destruct (fits_ok w e) as [Hf _]; [apply Hi|rewrite E1, E2; by apply event_ok_expiry|].
  destruct (setTask_fresh w e k v Hi Habs Hf) as (w1 & Hset & Hi1 & (E3 & E4 & _) & Hk & Ho).
  rewrite Hr in Hs.
  destruct (serve_ok [EvSet e k v] (Cache_SetWithExpire k v e c) w w1 [[]] Hw')
    as (s1 & Hs1 & _ & Hdata & Hkeep); try congruence.
  { cbn. by rewrite Hset. }
  { intros k' _. unfold has. rewrite Hd. destruct (decide (k' = k)) as [->|Hne].
    - rewrite lookup_insert_eq, Hk. naive_solver.
    - rewrite lookup_insert_ne, (Ho k' Hne) by done. apply HD. }
  rewrite Hs in Hs1. injection Hs1 as <-. unfold lives. rewrite (proj2 (Z.ltb_lt _ _)) by lia.
  rewrite Hdata, Hkeep, decide_False by set_solver. rewrite Hd, lookup_insert_eq, Hk.
  split; [done|]. exists v. rewrite steps_eff, E1 by apply Hi. done.
Qed.

Lemma run_lives (k : string) (v : A) (ops : list cache_op) : forall s r,
  coherent s -> cache_limit (cs_cache s) = None -> Forall op_ok ops ->
  Forall (fun op => op_key op <> Some k) ops -> lives k v r s ->
  exists s', cache_run ops s = Some s' /\ lives k v (r - foldr (fun op n => op_ticks op + n) 0 ops) s'.
Proof.
  induction ops as [|op ops IH]; intros s r Hc Hlim Hok Hk Hl.
  { exists s. cbn. by rewrite Z.sub_0_r. }
  apply Forall_cons in Hok as [Hop Hok]. apply Forall_cons in Hk as [Hkop Hk].
  destruct (cache_step_ok op s Hc Hop) as (s1 & Hs & Hc1).
  assert (Hl1 : lives k v (r - op_ticks op) s1).
  { destruct (decide (op_ticks op = 1)) as [E|E].
    - rewrite E. destruct op; try discriminate. by apply (tick_lives k v r s s1).
    - destruct (step_other k op s s1) as [Hd Ha]; try done; [intros ->; by apply E|].
      unfold lives in *. rewrite Hd, Ha. replace (r - op_ticks op) with r; [done|]. destruct op; cbn in *; lia. }
  destruct (IH s1 (r - op_ticks op) Hc1) as (s' & Hr & Hl'); try done.
  { by rewrite (cache_step_limit op s s1 Hs). }
  exists s'. cbn [cache_run foldr]. rewrite Hs. cbn. split; [done|].
  by rewrite Z.sub_add_distr.
Qed.

(** ** Properties *)

Lemma Cache_Get_data (k : string) (c : Cache) : (Cache_Get k c).1 = c_data c !! k.
Proof. unfold Cache_Get, Cache_doGet. by destruct (c_data c !! k). Qed.

(** When the calls, the wheel requests each makes and the deletions a tick fires are served
    one after another (sets, gets, takes, deletions and ticks in any order, positive
    expiries), nothing panics, the LRU list, the items and
    the pending timers stay in agreement (an item is cached exactly when a timer will
    delete it), and a limited cache never holds more items than its limit. *)
Theorem cache_stays_coherent (expire limit : Z) (ops : list cache_op) :
  Forall op_ok ops ->
  exists s, new_cache_sys expire limit ≫= cache_run ops = Some s /\
    (forall k, is_Some (c_data (cs_cache s) !! k) <-> is_Some (kv_get k (tw_timers (cs_wheel s)))) /\
    (0 < limit -> Z.of_nat (Cache_size (cs_cache s)) <= limit).
Proof.
  intros Hok. destruct (new_cache_sys_coherent expire limit) as (s0 & Hnew & Hc0).
  rewrite Hnew. cbn. destruct (cache_run_ok ops s0 Hc0 Hok) as (s & Hr & Hw & _ & Hi & _ & _ & HD).
  exists s. split; [done|]. split.
  - intros k. specialize (HD k). unfold has in HD. rewrite HD.
    rewrite <- !not_eq_None_Some. by rewrite (tw_timer_abs _ _ Hi).
  - intros Hlim. pose proof (cache_run_limit ops s0 s Hr) as El.
    assert (El0 : cache_limit (cs_cache s0) = Some limit).
    { unfold new_cache_sys in Hnew. destruct (NewTimingWheel second slots); [|done].
      injection Hnew as <-. unfold cache_limit. cbn. by rewrite (proj2 (Z.ltb_lt _ _)). }
    rewrite El0 in El. unfold cache_limit, cache_wf in *. destruct (c_lru (cs_cache s)) as [l|]; [|done].
    cbn in El. injection El as El. destruct Hw as [[_ Hnd _ Hsz] Hmem]. rewrite <- El.
    unfold Cache_size. rewrite <- size_dom.
    replace (dom (c_data (cs_cache s))) with (list_to_set (C := gset string) (kl_evicts l)).
    + rewrite size_list_to_set by done. lia.
    + apply set_eq. intros k. rewrite elem_of_list_to_set, elem_of_dom. apply Hmem.
Qed.

(** In a cache without a limit an item stays readable with its value until the tick
    that completes its expiry (in whole seconds, at least one) and is gone from then
    on, whatever is done with other keys meanwhile. *)
Theorem item_expires_on_time (expire : Z) (pre post : list cache_op) (s : cache_sys)
    (k : string) (v : A) (e : Z) :
  new_cache_sys expire 0 ≫= cache_run pre = Some s -> Forall op_ok (pre ++ OpSet k v e :: post) ->
  c_data (cs_cache s) !! k = None -> Forall (fun op => op_key op <> Some k) post ->
  exists s', cache_run (OpSet k v e :: post) s = Some s' /\
    (Cache_Get k (cs_cache s')).1 =
      if foldr (fun op n => op_ticks op + n) 0 post <? Z.max 1 (Z.quot e second) then Some v else None.
Proof.
  intros Hpre Hok Hnone Hk. apply Forall_app in Hok as [Hok0 Hok].
  apply Forall_cons in Hok as [Hop Hok].
  destruct (new_cache_sys_coherent expire 0) as (s0 & Hnew & Hc0). rewrite Hnew in Hpre. cbn in Hpre.
  destruct (cache_run_ok pre s0 Hc0 Hok0) as (s1 & Hr & Hc). rewrite Hpre in Hr. injection Hr as <-.
  assert (Hlim : cache_limit (cs_cache s) = None).
  { rewrite (cache_run_limit pre s0 s Hpre). unfold new_cache_sys in Hnew.
    destruct (NewTimingWheel second slots); [|done]. by injection Hnew as <-. }
  destruct (cache_step_ok (OpSet k v e) s Hc Hop) as (s1 & Hs & Hc1).
  assert (Hl : lives k v (Z.max 1 (Z.quot e second)) s1).
  { by apply (set_lives k v e s s1). }
  destruct (run_lives k v post s1 _ Hc1 ltac:(by rewrite (cache_step_limit _ _ _ Hs)) Hok Hk Hl)
    as (s' & Hr' & Hl').
  exists s'. cbn [cache_run]. rewrite Hs. cbn [mbind option_bind]. split; [done|].
  set (t := foldr (fun op n => op_ticks op + n) 0 post) in *.
  rewrite Cache_Get_data. unfold lives in Hl'.
  destruct (Z.ltb_spec 0 (Z.max 1 (e ÷ second) - t)), (Z.ltb_spec t (Z.max 1 (e ÷ second)));
    (lia || apply Hl').
Qed.

(** Setting a key that is already cached keeps the old value (the new one is dropped,
    only the expiry is moved). *)
Theorem Set_keeps_old_value (c : Cache) (k : string) (v0 v : A) (e : Z) :
  cache_wf c -> 0 < e -> (Cache_Get k c).1 = Some v0 ->
  (Cache_Get k (Cache_SetWithExpire k v e c)).1 = Some v0.
Proof.
  rewrite !Cache_Get_data. intros Hw He Hk.
  destruct (Cache_Set_ok k v e c Hw He) as (ev & Hne & _ & _ & Hd & _). rewrite Hd, Hk. cbn.
  destruct ev as [x|]; [|done]. rewrite lookup_delete_ne; [done|]. congruence.
Qed.

(** [Take] returns the cached value without using the fetch function when there is
    one and counts a hit; otherwise it returns what the fetch function returned, caches
    it and counts a miss, or, when the fetch failed, returns its error and leaves the
    cache as it was. *)
Theorem Cache_Take_spec {E : Type} (around : Z -> Z) (k : string) (fetch : A + E) (c : Cache) :
  cache_wf c -> 0 < around (c_expire c) ->
  let '(res, c') := Cache_Take around k fetch c in
  match c_data c !! k, fetch with
  | Some v, _ => res = inl v /\ c_data c' = c_data c /\ c_requests c' = c_requests c /\
                 c_miss c' = c_miss c /\ exists h, c_hit c' = u64_incr h
  | None, inl v => res = inl v /\ (Cache_Get k c').1 = Some v /\
                   exists m, c_miss c' = u64_incr m
  | None, inr e => res = inr e /\ c' = c
  end.
Proof.
  intros Hw He. unfold Cache_Take. pose proof (Cache_doGet_ok k c Hw) as Hg.
  destruct (Cache_doGet k c) as [[v|] c1] eqn:Eg; destruct Hg as (<- & Hw1 & Hd1 & Hr1).
  - cbn. split; [done|]. split; [done|]. split; [done|]. split; [|eauto].
    unfold Cache_doGet in Eg. destruct (c_data c !! k); [|done]. injection Eg as _ <-.
    unfold lru_call. destruct (c_lru c); [|done]. destruct (keyLru_add _ _) as [? []]; done.
  - assert (c1 = c) as -> by (unfold Cache_doGet in Eg; destruct (c_data c !! k); by injection Eg).
    rewrite Eg. destruct fetch as [v|e]; [|done]. split; [done|]. split; [|cbn; eauto].
    rewrite Cache_Get_data. cbn.
    destruct (Cache_Set_ok k v (around (c_expire c)) c Hw He) as (ev & Hne & _ & _ & Hd & _).
    unfold Cache_Set. rewrite Hd. unfold Cache_doGet in Eg. destruct (c_data c !! k); [done|].
    destruct ev as [x|]; [rewrite lookup_delete_ne by congruence|]; apply lookup_insert_eq.
Qed.

End cache.

Arguments Cache A : clear implicits.
Arguments cache_sys A M : clear implicits.
Arguments cache_op A : clear implicits.

(** ** Witnesses *)

Definition str_wheel_map : Type := SafeMap string nat.

Lemma cache_stays_coherent_witness :
  exists s : cache_sys nat str_wheel_map,
    new_cache_sys 0 1 ≫= cache_run [OpSet "a" 1%nat second; OpSet "b" 2%nat second; OpTick] = Some s /\
    (forall k, is_Some (c_data (cs_cache s) !! k) <-> is_Some (kv_get k (tw_timers (cs_wheel s)))) /\
    (0 < 1 -> Z.of_nat (Cache_size (cs_cache s)) <= 1).
Proof. apply (cache_stays_coherent 0 1). repeat constructor; vm_compute; reflexivity. Defined.

Lemma item_expires_on_time_witness :
  exists s s' : cache_sys nat str_wheel_map,
    cache_run [OpSet "a" 1%nat (2 * second); OpTick; OpTick] s = Some s' /\
    (Cache_Get "a" (cs_cache s')).1 = None.
Proof.
  destruct (new_cache_sys (A := nat) (M := str_wheel_map) 0 0) as [s|] eqn:Hnew; [|by vm_compute in Hnew].
  exists s. apply (item_expires_on_time 0 [] [OpTick; OpTick] s "a" 1%nat (2 * second)).
  - rewrite Hnew. reflexivity.
  - repeat constructor; vm_compute; reflexivity.
  - unfold new_cache_sys in Hnew. destruct (NewTimingWheel second slots); [|done].
    injection Hnew as <-. vm_compute. reflexivity.
  - repeat constructor; discriminate.
Defined.

Lemma Set_keeps_old_value_witness :
  let c := Cache_SetWithExpire "a" 1%nat second (NewCache 0 0) in
  (Cache_Get "a" c).1 = Some 1%nat /\
  (Cache_Get "a" (Cache_SetWithExpire "a" 2%nat second c)).1 = Some 1%nat.
Proof.
  split; [vm_compute; reflexivity|]. apply Set_keeps_old_value; vm_compute; reflexivity || exact I.
Defined.

Lemma Cache_Take_spec_witness :
  let '(res, c') := Cache_Take (E := unit) (fun _ => second) "a" (inl 1%nat) (NewCache 0 0) in
  res = inl 1%nat /\ (Cache_Get "a" c').1 = Some 1%nat /\ exists m, c_miss c' = u64_incr m.
Proof.
  apply (Cache_Take_spec (fun _ => second) "a" (inl 1%nat) (NewCache 0 0)); vm_compute; reflexivity || exact I.
Defined.
