(* ===== verification/RedisScripts.v ===== *)
(** * Scripts on a Redis server (infra/limit, infra/stores/redis/redislock.go, infra/bloom)

    The limiters, the lock and the Bloom filter run Lua scripts on the server, each
    atomically.  The server is any type with the commands of [RedisCommands] that obey
    [RedisLaws], which state what the documentation of the commands says of a key at a
    time; [redis_map] is one.  Times of the server are milliseconds. *)

From S2P Require Import Prelude.
From Stdlib Require Import Ascii.

#[local] Open Scope Z_scope.

(** ** The server *)

Inductive rvalue := RString (s : string) | RInt (n : Z) | RBits (b : gset Z).
#[export] Instance rvalue_eq_dec : EqDecision rvalue. Proof. solve_decision. Defined.

(** A value with the time it expires. *)
Notation rentry := (rvalue * option Z)%type.

Definition alive (t : Z) (e : rentry) : option rentry :=
  match e.2 with Some d => if t <? d then Some e else None | None => Some e end.

(** The first argument is the clock of the server. *)
Class RedisCommands (R : Type) := {
  cmd_GET : Z -> string -> R -> option rvalue;
  cmd_SET : Z -> string -> rvalue -> option Z -> R -> R;             (* PX, in milliseconds *)
  cmd_DEL : Z -> string -> R -> R;
  cmd_INCRBY : Z -> string -> Z -> R -> option Z * R;                (* None: an error *)
  cmd_EXPIRE : Z -> string -> Z -> R -> R;                           (* seconds *)
  cmd_SETBIT : Z -> string -> Z -> R -> R;
  cmd_GETBIT : Z -> string -> Z -> R -> bool
}.

Definition int_entry (i : Z) (e : option rentry) : option rentry :=
  match e with None => Some (RInt i, None) | Some (RInt n, d) => Some (RInt (n + i), d) | Some _ => None end.
Definition bit_entry (b : Z) (e : option rentry) : option rentry :=
  match e with None => Some (RBits {[b]}, None) | Some (RBits s, d) => Some (RBits ({[b]} ∪ s), d) | Some _ => None end.

(** [live t r k]: what the server has under [k] at time [t].  Time only passes. *)
Class RedisLaws (R : Type) `{!RedisCommands R} := {
  live : Z -> R -> string -> option rentry;
  live_later t t' r k : t <= t' -> live t' r k = live t r k ≫= alive t';
  live_GET t r k : cmd_GET t k r = fst <$> live t r k;
  live_SET t t' r k v px k' : t <= t' ->
    live t' (cmd_SET t k v px r) k' = if decide (k = k') then alive t' (v, (fun ms => t + ms) <$> px) else live t' r k';
  live_DEL t t' r k k' : t <= t' -> live t' (cmd_DEL t k r) k' = if decide (k = k') then None else live t' r k';
  INCRBY_result t k i r : (cmd_INCRBY t k i r).1 = (e ← int_entry i (live t r k); match e.1 with RInt n => Some n | _ => None end);
  live_INCRBY t t' r k i k' : t <= t' ->
    live t' (cmd_INCRBY t k i r).2 k' = if decide (k = k') then (match int_entry i (live t r k) with Some e => alive t' e | None => live t' r k' end) else live t' r k';
  live_EXPIRE t t' r k s k' : t <= t' -> 0 < s ->
    live t' (cmd_EXPIRE t k s r) k' = if decide (k = k') then (e ← live t r k; alive t' (e.1, Some (t + s * 1000))) else live t' r k';
  live_SETBIT t t' r k b k' : t <= t' ->
    live t' (cmd_SETBIT t k b r) k' = if decide (k = k') then (match bit_entry b (live t r k) with Some e => alive t' e | None => live t' r k' end) else live t' r k';
  GETBIT_result t k b r : cmd_GETBIT t k b r = match live t r k with Some (RBits s, _) => bool_decide (b ∈ s) | _ => false end
}.

(** A server: a map with deadlines; expired keys are not removed. *)
Notation redis_map := (gmap string rentry).
Definition map_live (t : Z) (r : redis_map) (k : string) : option rentry := r !! k ≫= alive t.
Definition map_put (k : string) (e : option rentry) (r : redis_map) : redis_map := match e with Some e => <[k := e]> r | None => r end.

#[export] Instance redis_map_commands : RedisCommands redis_map := {|
  cmd_GET t k r := fst <$> map_live t r k;
  cmd_SET t k v px r := map_put k (Some (v, (fun ms => t + ms) <$> px)) r;
  cmd_DEL t k r := delete k r;
  cmd_INCRBY t k i r := (e ← int_entry i (map_live t r k); match e.1 with RInt n => Some n | _ => None end, map_put k (int_entry i (map_live t r k)) r);
  cmd_EXPIRE t k s r := map_put k (e ← map_live t r k; Some (e.1, Some (t + s * 1000))) r;
  cmd_SETBIT t k b r := map_put k (bit_entry b (map_live t r k)) r;
  cmd_GETBIT t k b r := match map_live t r k with Some (RBits s, _) => bool_decide (b ∈ s) | _ => false end
|}.

Lemma alive_later t t' e : t <= t' -> alive t e ≫= alive t' = alive t' e.
Proof. intros H. unfold alive. destruct e as [v [d|]]; cbn; [|done]. destruct (t <? d) eqn:E1; cbn; [done|]. destruct (t' <? d) eqn:E2; [lia|done]. Qed.

Lemma map_live_put t k e r k' : map_live t (map_put k e r) k' = if decide (k = k') then (match e with Some e => alive t e | None => map_live t r k' end) else map_live t r k'.
Proof.
  unfold map_live, map_put. case_decide as E; [subst|]; destruct e as [e|]; try done; [by rewrite lookup_insert_eq|by rewrite lookup_insert_ne].
Qed.

Lemma map_live_later t t' r k : t <= t' -> map_live t' r k = map_live t r k ≫= alive t'.
Proof. intros H. unfold map_live. destruct (r !! k) as [e|]; [|done]. cbn. by rewrite alive_later. Qed.

#[export] Instance redis_map_laws : RedisLaws redis_map.
Proof.
  refine {| live := map_live |}; intros; cbn [cmd_GET cmd_SET cmd_DEL cmd_INCRBY cmd_EXPIRE cmd_SETBIT cmd_GETBIT redis_map_commands fst snd]; rewrite ?map_live_put; try done.
  - by apply map_live_later.
  - unfold map_live. case_decide as E; [subst; by rewrite lookup_delete_eq|by rewrite lookup_delete_ne].
  - case_decide; [subst|done]. destruct (map_live t r k') as [e|] eqn:E; cbn; [done|]. by rewrite (map_live_later t t'), E.
Defined.

(** ** Period limits (infra/limit/periodlimit.go, periodscript.lua) *)

Inductive permit := Unknown | Allowed | HitQuota | OverQuota.
#[export] Instance permit_eq_dec : EqDecision permit. Proof. solve_decision. Defined.

Record PeriodLimit : Type := mkPeriodLimit { pl_period : Z; pl_quota : Z; pl_keyPrefix : string; pl_align : bool }.

(** [unix] is the clock of the client in seconds, [offset] that of its time zone. *)
Definition calcExpireSeconds (h : PeriodLimit) (unix offset : Z) : Z :=
  if pl_align h then pl_period h - Z.rem (unix + offset) (pl_period h) else pl_period h.

(** The reply of a script: an integer, nil, another value, or an error, which is one of the
    context or another. *)
Inductive reply := Reply (code : Z) | ReplyNil | ReplyOther | ReplyContext | ReplyError.

Section period.
Context {R : Type} `{!RedisCommands R}.

Definition periodScript (t : Z) (key : string) (limit window : Z) (r : R) : reply * R :=
  let '(current, r) := cmd_INCRBY t key 1 r in
  match current with
  | None => (ReplyError, r)
  | Some current =>
      let r := if current =? 1 then cmd_EXPIRE t key window r else r in
      (Reply (if current <? limit then 1 else if current =? limit then 2 else 0), r)
  end.

(** The state of the permit, and whether there is no error. *)
Definition take_reply (resp : reply) : permit * bool :=
  match resp with
  | Reply 0 => (OverQuota, true)
  | Reply 1 => (Allowed, true)
  | Reply 2 => (HitQuota, true)
  | _ => (Unknown, false)
  end.

Definition TakeCtx (h : PeriodLimit) (t unix offset : Z) (key : string) (r : R) : (permit * bool) * R :=
  let '(resp, r) := periodScript t (pl_keyPrefix h +:+ key) (pl_quota h) (calcExpireSeconds h unix offset) r in
  (take_reply resp, r).
End period.

(** A counter that starts again after each window: its deadline and its count. *)
Definition permit_of (quota n : Z) : permit := if n <? quota then Allowed else if n =? quota then HitQuota else OverQuota.
Definition granted (p : permit) : bool := match p with Allowed | HitQuota => true | _ => false end.

Definition window_take (quota window t : Z) (st : option (Z * Z)) : Z * Z :=
  match st with
  | Some (d, n) => if t <? d then (d, n + 1) else (t + window * 1000, 1)
  | None => (t + window * 1000, 1)
  end.

(** A call: the clocks of the server and the client. *)
Record take_at : Type := mkTake { ta_t : Z; ta_unix : Z; ta_offset : Z }.

Fixpoint window_run (h : PeriodLimit) (takes : list take_at) (st : option (Z * Z)) : list (Z * permit) :=
  match takes with
  | [] => []
  | a :: takes =>
      let '(d, n) := window_take (pl_quota h) (calcExpireSeconds h (ta_unix a) (ta_offset a)) (ta_t a) st in
      (d, permit_of (pl_quota h) n) :: window_run h takes (Some (d, n))
  end.

Fixpoint ordered_from (t : Z) (ts : list Z) : Prop := match ts with [] => True | t' :: ts => t <= t' /\ ordered_from t' ts end.

(** An aligned window ends at a multiple of the period of the local clock. *)
Lemma calcExpire_range h unix offset : 0 < pl_period h -> 0 <= unix + offset ->
  1 <= calcExpireSeconds h unix offset <= pl_period h /\
  (pl_align h = true -> (unix + offset + calcExpireSeconds h unix offset) mod pl_period h = 0).
Proof.
  intros Hp Hu. unfold calcExpireSeconds. destruct (pl_align h); [|split; [lia|done]].
  rewrite Z.rem_mod_nonneg by lia. pose proof (Z.mod_pos_bound (unix + offset) (pl_period h) Hp). split; [lia|]. intros _.
  apply Z.mod_divide; [lia|]. exists ((unix + offset) / pl_period h + 1).
  pose proof (Z.div_mod (unix + offset) (pl_period h) ltac:(lia)). lia.
Qed.

Section period_proofs.
Context {R : Type} `{!RedisCommands R, !RedisLaws R} (h : PeriodLimit) (key : string) (Hp : 0 < pl_period h).
Notation k := (pl_keyPrefix h +:+ key).

Definition counter_at (t : Z) (r : R) (st : option (Z * Z)) : Prop :=
  live t r k = match st with Some (d, n) => if t <? d then Some (RInt n, Some d) else None | None => None end /\
  match st with Some (_, n) => 1 <= n | None => True end.

Fixpoint take_run (takes : list take_at) (r : R) : list (permit * bool) * R :=
  match takes with
  | [] => ([], r)
  | a :: takes =>
      let '(p, r) := TakeCtx h (ta_t a) (ta_unix a) (ta_offset a) key r in
      let '(ps, r) := take_run takes r in (p :: ps, r)
  end.

Lemma counter_later t t' r st : t <= t' -> counter_at t r st -> counter_at t' r st.
Proof.
  intros Ht [H Hn]. split; [|done]. rewrite (live_later t t' r k Ht), H. destruct st as [[d n]|]; [|done].
  destruct (t <? d) eqn:E1; cbn; [done|]. destruct (t' <? d) eqn:E2; [lia|done].
Qed.

Lemma take_reply_permit quota n : 1 <= n ->
  take_reply (Reply (if n <? quota then 1 else if n =? quota then 2 else 0)) = (permit_of quota n, true).
Proof. intros _. unfold permit_of. destruct (n <? quota), (n =? quota); done. Qed.

Definition code_of (quota n : Z) : Z := if n <? quota then 1 else if n =? quota then 2 else 0.

Lemma script_fresh t q w r : 0 < w -> live t r k = None ->
  (periodScript t k q w r).1 = Reply (code_of q 1) /\ live t (periodScript t k q w r).2 k = Some (RInt 1, Some (t + w * 1000)).
Proof.
  intros Hw Hl. unfold periodScript. pose proof (INCRBY_result t k 1 r) as Hi. pose proof (live_INCRBY t t r k 1 k ltac:(lia)) as Hs.
  rewrite Hl in Hi, Hs. destruct (cmd_INCRBY t k 1 r) as [cur r1]. cbn in Hi, Hs |- *. rewrite decide_True in Hs by done. subst cur. split; [done|].
  cbn. rewrite live_EXPIRE by lia. rewrite decide_True, Hs by done. cbn. unfold alive. cbn. destruct (t <? t + w * 1000) eqn:E; [done|lia].
Qed.

Lemma script_count t q w r n d : 1 <= n -> live t r k = Some (RInt n, d) ->
  (periodScript t k q w r).1 = Reply (code_of q (n + 1)) /\ live t (periodScript t k q w r).2 k = alive t (RInt (n + 1), d).
Proof.
  intros Hn Hl. unfold periodScript. pose proof (INCRBY_result t k 1 r) as Hi. pose proof (live_INCRBY t t r k 1 k ltac:(lia)) as Hs.
  rewrite Hl in Hi, Hs. destruct (cmd_INCRBY t k 1 r) as [cur r1]. cbn in Hi, Hs |- *. rewrite decide_True in Hs by done. subst cur. split; [done|].
  cbn. destruct (n + 1 =? 1) eqn:E; [lia|done].
Qed.

Lemma TakeCtx_counter a r st : 0 <= ta_unix a + ta_offset a -> counter_at (ta_t a) r st ->
  let '(d, n) := window_take (pl_quota h) (calcExpireSeconds h (ta_unix a) (ta_offset a)) (ta_t a) st in
  (TakeCtx h (ta_t a) (ta_unix a) (ta_offset a) key r).1 = (permit_of (pl_quota h) n, true) /\
  counter_at (ta_t a) (TakeCtx h (ta_t a) (ta_unix a) (ta_offset a) key r).2 (Some (d, n)).
Proof.
  intros Hu [Hl Hn]. set (t := ta_t a) in *. set (w := calcExpireSeconds h (ta_unix a) (ta_offset a)).
  assert (Hw : 0 < w) by (pose proof (calcExpire_range h (ta_unix a) (ta_offset a) Hp Hu); lia).
  assert (Hnew : live t r k = None -> (TakeCtx h t (ta_unix a) (ta_offset a) key r).1 = (permit_of (pl_quota h) 1, true) /\
    counter_at t (TakeCtx h t (ta_unix a) (ta_offset a) key r).2 (Some (t + w * 1000, 1))).
  { intros E. destruct (script_fresh t (pl_quota h) w r Hw E) as [E1 E2]. unfold TakeCtx. fold w.
    destruct (periodScript _ _ _ _ r) as [resp r1]. cbn in *. subst resp. split; [by apply take_reply_permit|]. split; [|lia].
    rewrite E2. destruct (t <? t + w * 1000) eqn:?; [done|lia]. }
  destruct st as [[d n]|]; cbn [window_take]; [|by apply Hnew]. destruct (t <? d) eqn:E; [|by apply Hnew].
  destruct (script_count t (pl_quota h) w r n (Some d) Hn Hl) as [E1 E2]. unfold TakeCtx. fold w.
  destruct (periodScript _ _ _ _ r) as [resp r1]. cbn in *. subst resp. split; [apply take_reply_permit; lia|]. split; [|lia].
  rewrite E2. unfold alive. cbn. by rewrite E.
Qed.

Lemma take_run_counter takes : forall t r st, ordered_from t (ta_t <$> takes) -> Forall (fun a => 0 <= ta_unix a + ta_offset a) takes ->
  counter_at t r st -> (take_run takes r).1 = (fun dp => (dp.2, true)) <$> window_run h takes st.
Proof.
  induction takes as [|a takes IH]; intros t r st Ho Hu Hc; [done|]. cbn in Ho. destruct Ho as [Ht Ho]. apply Forall_cons in Hu as [Hu0 Hu].
  pose proof (TakeCtx_counter a r st Hu0 (counter_later _ _ _ _ Ht Hc)) as H. cbn [take_run window_run].
  destruct (window_take _ _ _ st) as [d n]. destruct (TakeCtx _ _ _ _ _ r) as [p r1]. cbn [fst snd] in H. destruct H as [-> Hc1].
  specialize (IH _ _ _ Ho Hu Hc1). destruct (take_run takes r1) as [ps r2]. cbn in *. by rewrite IH.
Qed.

Definition grants_in (d : Z) (run : list (Z * permit)) : Z := Z.of_nat (length (filter (fun dp => dp.1 = d /\ granted dp.2 = true) run)).

Definition grants_left (d0 : Z) (st : option (Z * Z)) : Z :=
  match st with
  | Some (d, n) => if d0 <? d then 0 else if d0 =? d then Z.max 0 (pl_quota h - n) else Z.max 0 (pl_quota h)
  | None => Z.max 0 (pl_quota h)
  end.

Lemma grants_cons d0 dp run : grants_in d0 (dp :: run) = (if bool_decide (dp.1 = d0) && granted dp.2 then 1 else 0) + grants_in d0 run.
Proof.
  unfold grants_in. rewrite filter_cons. case_bool_decide as E1; cbn; [|rewrite decide_False by naive_solver; lia].
  destruct (granted dp.2) eqn:E2; [rewrite decide_True by done; cbn [length]; lia|rewrite decide_False by naive_solver; lia].
Qed.

Lemma permit_granted q n : granted (permit_of q n) = (n <=? q).
Proof. unfold permit_of. destruct (n <? q) eqn:?, (n =? q) eqn:?, (n <=? q) eqn:?; cbn; lia. Qed.

Lemma window_bound d0 takes : forall t st, ordered_from t (ta_t <$> takes) -> Forall (fun a => 0 <= ta_unix a + ta_offset a) takes ->
  match st with Some (_, n) => 1 <= n | None => True end -> grants_in d0 (window_run h takes st) <= grants_left d0 st.
Proof.
  induction takes as [|a takes IH]; intros t st Ho Hu Hn.
  { change (0 <= grants_left d0 st). unfold grants_left. destruct st as [[d n]|]; [|lia]. destruct (d0 <? d), (d0 =? d); lia. }
  cbn in Ho. destruct Ho as [Ht Ho]. apply Forall_cons in Hu as [Hu0 Hu]. cbn [window_run].
  pose proof (calcExpire_range h (ta_unix a) (ta_offset a) Hp Hu0) as [Hw _]. set (w := calcExpireSeconds h (ta_unix a) (ta_offset a)) in *.
  destruct (window_take (pl_quota h) w (ta_t a) st) as [d' n'] eqn:E.
  assert (Hn' : 1 <= n') by (unfold window_take in E; destruct st as [[d n]|]; [destruct (ta_t a <? d)|]; simplify_eq; lia).
  specialize (IH _ (Some (d', n')) Ho Hu Hn'). rewrite grants_cons. cbn [fst snd] in *. rewrite permit_granted. unfold grants_left in *.
  revert IH. unfold window_take in E. destruct st as [[d n]|]; [destruct (ta_t a <? d) eqn:Et|]; simplify_eq; case_bool_decide;
    repeat match goal with
      | |- context [?x <? ?y] => destruct (x <? y) eqn:?
      | |- context [?x =? ?y] => destruct (x =? y) eqn:?
      | |- context [?x <=? ?y] => destruct (x <=? y) eqn:? end; cbn [andb]; lia.
Qed.

(** The period limiter, for one key and any calls in the order of the server's clock:
    every call answers as a counter does that starts when the first call after the end of
    the previous window comes and ends after [period] seconds, or, when aligned, at the next
    multiple of the period of the local clock; and at most [quota] calls of a window are
    permitted.  The script's expiry never loses or extends a window. *)
Theorem period_limit_windows takes t r :
  ordered_from t (ta_t <$> takes) -> Forall (fun a => 0 <= ta_unix a + ta_offset a) takes -> live t r k = None ->
  (take_run takes r).1 = (fun dp => (dp.2, true)) <$> window_run h takes None /\
  (forall d, grants_in d (window_run h takes None) <= Z.max 0 (pl_quota h)) /\
  forall a, a ∈ takes -> 1 <= calcExpireSeconds h (ta_unix a) (ta_offset a) <= pl_period h /\
    (pl_align h = true -> (ta_unix a + ta_offset a + calcExpireSeconds h (ta_unix a) (ta_offset a)) mod pl_period h = 0).
Proof.
  intros Ho Hu Hl. split; [by eapply take_run_counter|]. split; [intros d; by apply (window_bound d takes t None)|].
  intros a Ha. apply calcExpire_range; [done|]. rewrite Forall_forall in Hu. by apply Hu.
Qed.
End period_proofs.

Definition period_demo : PeriodLimit := mkPeriodLimit 10 2 "p:" false.
Definition demo_takes : list take_at := [mkTake 0 0 0; mkTake 1000 1 0; mkTake 9999 9 0; mkTake 10000 10 0].

Lemma period_limit_windows_witness :
  (take_run period_demo "a" demo_takes (∅ : redis_map)).1 = [(Allowed, true); (HitQuota, true); (OverQuota, true); (Allowed, true)] /\
  grants_in 10000 (window_run period_demo demo_takes None) <= 2.
Proof.
  destruct (period_limit_windows (R := redis_map) period_demo "a" ltac:(done) demo_takes 0 ∅) as (H1 & H2 & _).
  - cbn. lia.
  - repeat constructor; cbn; lia.
  - reflexivity.
  - split; [etrans; [exact H1|]; vm_compute; reflexivity|apply H2].
Defined.

(** ** Token limits (infra/limit/tokenlimit.go, tokenscript.lua) *)

Section token.
Context {R : Type} `{!RedisCommands R}.

Definition tonumber (v : option rvalue) : option Z := match v with Some (RInt n) => Some n | _ => None end.

(** Numbers are integers here; the script's division is exact below 2^52.  [SETEX] refuses an
    expiry of zero seconds, which ends the script before it writes. *)
Definition tokenScript (t : Z) (tokenKey timestampKey : string) (rate capacity now requested : Z) (r : R) : reply * R :=
  let ttl := capacity * 2 / rate in
  let last_tokens := default capacity (tonumber (cmd_GET t tokenKey r)) in
  let last_refreshed := default 0 (tonumber (cmd_GET t timestampKey r)) in
  let delta := Z.max 0 (now - last_refreshed) in
  let filled_tokens := Z.min capacity (last_tokens + delta * rate) in
  let allowed := requested <=? filled_tokens in
  let new_tokens := if allowed then filled_tokens - requested else filled_tokens in
  if ttl <=? 0 then (ReplyError, r)
  else (if allowed then Reply 1 else ReplyNil,
        cmd_SET t timestampKey (RInt now) (Some (ttl * 1000)) (cmd_SET t tokenKey (RInt new_tokens) (Some (ttl * 1000)) r)).
End token.

Definition tokenKey (key : string) : string := "{" +:+ key +:+ "}.tokens".
Definition timestampKey (key : string) : string := "{" +:+ key +:+ "}.ts".

(** The state of the fallback: whether Redis is used, whether a monitor was started, and the
    goroutine that pings. *)
Inductive monitor := MNone | MPinging | MEnding.
Record TokenLimiter : Type := mkTokenLimiter { tl_redisAlive : bool; tl_monitorStarted : bool; tl_monitor : monitor }.

Definition NewTokenLimiter : TokenLimiter := mkTokenLimiter true false MNone.

Definition startMonitor (l : TokenLimiter) : TokenLimiter := if tl_monitorStarted l then l else mkTokenLimiter false true MPinging.

(** Who decides, and the new state: the reply is that of the script, when it is run. *)
Inductive decision := Decided (ok : bool) | Rescue.
#[export] Instance decision_eq_dec : EqDecision decision. Proof. solve_decision. Defined.

Definition reserveN (resp : reply) (l : TokenLimiter) : decision * TokenLimiter :=
  if negb (tl_redisAlive l) then (Rescue, l)
  else match resp with
  | ReplyNil => (Decided false, l)
  | ReplyContext => (Decided false, l)
  | ReplyError | ReplyOther => (Rescue, startMonitor l)
  | Reply code => (Decided (code =? 1), l)
  end.

(** One tick of [waitForRedis], and its deferred function. *)
Definition waitForRedis (ping : bool) (l : TokenLimiter) : option TokenLimiter :=
  match tl_monitor l with
  | MPinging => Some (if ping then mkTokenLimiter true (tl_monitorStarted l) MEnding else l)
  | MEnding => Some (mkTokenLimiter (tl_redisAlive l) false MNone)
  | MNone => None
  end.

Inductive limiter_event := LReserve (resp : reply) | LMonitor (ping : bool).
Definition limiter_step (ev : limiter_event) (l : TokenLimiter) : option TokenLimiter :=
  match ev with LReserve resp => Some (reserveN resp l).2 | LMonitor ping => waitForRedis ping l end.

(** Redis is out of use only while a goroutine pings it, so that the limiter comes back. *)
Definition limiter_inv (l : TokenLimiter) : Prop :=
  (tl_monitorStarted l = true <-> tl_monitor l <> MNone) /\ (tl_redisAlive l = false -> tl_monitor l = MPinging).

Lemma limiter_step_inv ev l l' : limiter_inv l -> limiter_step ev l = Some l' -> limiter_inv l'.
Proof.
  unfold limiter_inv. destruct l as [al st [| |]], ev as [[]|[]]; cbn; unfold startMonitor; cbn; destruct al, st; cbn; naive_solver.
Qed.

(** Whatever the server answers and whenever it does, a token limiter that has given up
    Redis has a goroutine that pings it, at most one, and the next successful ping puts Redis
    back in use. *)
Theorem token_limiter_recovers evs l :
  foldl (fun l ev => l ≫= limiter_step ev) (Some NewTokenLimiter) evs = Some l ->
  limiter_inv l /\ (tl_redisAlive l = false -> exists l', waitForRedis true l = Some l' /\ tl_redisAlive l' = true).
Proof.
  intros H. assert (Hi : limiter_inv l).
  { revert H. assert (H0 : limiter_inv NewTokenLimiter) by (split; cbn; naive_solver). revert H0. generalize NewTokenLimiter.
    induction evs as [|ev evs IH]; intros l0 H0 H; cbn in H; [by simplify_eq|].
    destruct (limiter_step ev l0) as [l1|] eqn:E; [by apply (IH l1); [eapply limiter_step_inv|]|]. exfalso. clear -H. by induction evs. }
  split; [done|]. intros Ha. destruct Hi as [_ Hi]. specialize (Hi Ha). unfold waitForRedis. rewrite Hi. eexists. by split.
Qed.

Lemma token_limiter_recovers_witness :
  exists l, foldl (fun l ev => l ≫= limiter_step ev) (Some NewTokenLimiter) [LReserve ReplyError; LReserve (Reply 1); LMonitor false] = Some l /\ tl_redisAlive l = false /\
  exists l', waitForRedis true l = Some l' /\ tl_redisAlive l' = true.
Proof.
  eexists. split; [reflexivity|]. split; [reflexivity|].
  apply (token_limiter_recovers [LReserve ReplyError; LReserve (Reply 1); LMonitor false]); reflexivity.
Defined.

(** *** The bucket *)

(** A bucket of [capacity] tokens that gains [rate] of them per second and never forgets. *)
Definition bucket_fill (rate capacity now : Z) (st : option (Z * Z)) : Z :=
  let '(tokens, last) := default (capacity, 0) st in Z.min capacity (tokens + Z.max 0 (now - last) * rate).
Definition bucket_take (rate capacity now n : Z) (st : option (Z * Z)) : bool * option (Z * Z) :=
  let filled := bucket_fill rate capacity now st in
  (n <=? filled, Some (if n <=? filled then filled - n else filled, now)).

(** A request: the server's clock in milliseconds when the script runs, the time in seconds
    that the client gives, and the tokens asked for. *)
Record token_request : Type := mkRequest { tr_server : Z; tr_now : Z; tr_n : Z }.

Fixpoint bucket_run (rate capacity : Z) (reqs : list token_request) (st : option (Z * Z)) : list bool :=
  match reqs with
  | [] => []
  | q :: reqs => let '(ok, st) := bucket_take rate capacity (tr_now q) (tr_n q) st in ok :: bucket_run rate capacity reqs st
  end.

Section token_proofs.
Context {R : Type} `{!RedisCommands R, !RedisLaws R} (rate capacity : Z) (key : string).
Context (Hrate : 0 < rate) (Hcap : rate <= capacity * 2).
Notation ttl := (capacity * 2 / rate).
Notation kt := (tokenKey key). Notation ks := (timestampKey key).

Fixpoint token_run (reqs : list token_request) (r : R) : list bool :=
  match reqs with
  | [] => []
  | q :: reqs =>
      let '(resp, r) := tokenScript (tr_server q) kt ks rate capacity (tr_now q) (tr_n q) r in
      bool_decide ((reserveN resp NewTokenLimiter).1 = Decided true) :: token_run reqs r
  end.

(** The times the clients give do not go back and, when the keys have expired since the request
    before, have advanced by what fills the bucket. *)
Definition keeps_pace (q q' : token_request) : Prop :=
  tr_now q <= tr_now q' /\ (tr_server q + ttl * 1000 <= tr_server q' -> capacity <= (tr_now q' - tr_now q) * rate).
Fixpoint in_step (q : token_request) (reqs : list token_request) : Prop :=
  match reqs with [] => True | q' :: reqs => keeps_pace q q' /\ in_step q' reqs end.
Definition all_in_step (reqs : list token_request) : Prop := match reqs with [] => True | q :: reqs => in_step q reqs end.

Lemma token_keys : kt <> ks.
Proof.
  unfold tokenKey, timestampKey. intros E. apply (inj (String.app "{")) in E. apply (inj (String.app key)) in E. done.
Qed.

Lemma ttl_pos : 0 < ttl.
Proof. apply Z.div_str_pos. lia. Qed.

(** An entry that has expired would have filled its bucket. *)
Lemma ttl_fills : capacity <= ttl * rate.
Proof. pose proof (Z.div_mod (capacity * 2) rate ltac:(lia)). pose proof (Z.mod_pos_bound (capacity * 2) rate Hrate). pose proof ttl_pos. nia. Qed.

(** Clients whose clock is the server's are in step. *)
Lemma synchronous_in_step reqs : forall q, Forall (fun q => tr_now q = tr_server q / 1000) (q :: reqs) -> ordered_from (tr_server q) (tr_server <$> reqs) -> in_step q reqs.
Proof.
  induction reqs as [|q' reqs IH]; intros q F Ho; [done|]. cbn in Ho. destruct Ho as [H Ho]. apply Forall_cons in F as [E F]. split; [|by apply IH].
  pose proof (Forall_inv F) as E'. cbn in E'. unfold keeps_pace. rewrite E, E'. split; [apply Z.div_le_mono; lia|]. intros Hl.
  pose proof ttl_fills. assert (tr_server q / 1000 + ttl <= tr_server q' / 1000) by (rewrite <- Z.div_add by lia; apply Z.div_le_mono; lia). nia.
Qed.

(** The server holds the content of the bucket since the request [q], unless it has expired. *)
Definition bucket_at (t : Z) (r : R) (q : option token_request) (st : option (Z * Z)) : Prop :=
  match st with
  | None => live t r kt = None /\ live t r ks = None
  | Some (tokens, last) => exists q0, q = Some q0 /\ tr_server q0 <= t /\ last = tr_now q0 /\ 0 <= tokens <= capacity /\
      live t r kt = alive t (RInt tokens, Some (tr_server q0 + ttl * 1000)) /\ live t r ks = alive t (RInt last, Some (tr_server q0 + ttl * 1000))
  end.

Lemma bucket_later t t' r q st : t <= t' -> bucket_at t r q st -> bucket_at t' r q st.
Proof.
  intros Ht. destruct st as [[tokens last]|]; unfold bucket_at.
  - intros (q0 & H0 & H1 & H2 & H3 & H4 & H5). exists q0. rewrite !(live_later t t' r _ Ht), H4, H5, !alive_later by done. split_and!; try done; lia.
  - intros [H1 H2]. by rewrite !(live_later t t' r _ Ht), H1, H2.
Qed.

(** What the script reads is a bucket's content, even after its keys expired. *)
Lemma script_fill r p q st : match p with Some p => keeps_pace p q | None => True end -> bucket_at (tr_server q) r p st ->
  Z.min capacity (default capacity (tonumber (cmd_GET (tr_server q) kt r)) + Z.max 0 (tr_now q - default 0 (tonumber (cmd_GET (tr_server q) ks r))) * rate) =
  bucket_fill rate capacity (tr_now q) st.
Proof.
  intros Hp H. rewrite !live_GET. destruct st as [[tokens last]|]; cbn.
  - destruct H as (q0 & -> & H1 & -> & H3 & -> & ->). destruct Hp as [Hp1 Hp2]. unfold alive. cbn. destruct (Z.ltb_spec (tr_server q) (tr_server q0 + ttl * 1000)) as [E|E]; cbn; [done|].
    specialize (Hp2 E). rewrite (Z.max_r 0 (tr_now q - tr_now q0)) by lia. nia.
  - destruct H as [-> ->]. cbn. nia.
Qed.

Lemma fill_range now st : match st with Some (tokens, _) => 0 <= tokens <= capacity | None => True end -> 0 <= bucket_fill rate capacity now st <= capacity.
Proof. unfold bucket_fill. destruct st as [[tokens last]|]; cbn; nia. Qed.

Lemma script_bucket p q r st : match p with Some p => keeps_pace p q | None => True end -> 0 <= tr_n q -> bucket_at (tr_server q) r p st ->
  let '(ok, st') := bucket_take rate capacity (tr_now q) (tr_n q) st in
  (tokenScript (tr_server q) kt ks rate capacity (tr_now q) (tr_n q) r).1 = (if ok then Reply 1 else ReplyNil) /\
  bucket_at (tr_server q) (tokenScript (tr_server q) kt ks rate capacity (tr_now q) (tr_n q) r).2 (Some q) st'.
Proof.
  intros Hp Hn H. unfold bucket_take, tokenScript. rewrite (script_fill r p q st Hp H). pose proof ttl_pos.
  destruct (ttl <=? 0) eqn:E; [lia|]. cbn [fst snd]. split; [done|]. cbn. exists q. split; [done|]. split; [lia|]. split; [done|].
  assert (Hr : 0 <= bucket_fill rate capacity (tr_now q) st <= capacity).
  { apply fill_range. destruct st as [[tokens last]|]; [|done]. by destruct H as (? & ? & ? & ? & ? & ?). }
  split; [destruct (tr_n q <=? _) eqn:?; lia|]. rewrite !live_SET by lia.
  rewrite decide_False by (apply not_eq_sym, token_keys). by rewrite !decide_True.
Qed.

Lemma token_run_bucket reqs : forall t r p st, match p with Some p => in_step p reqs | None => all_in_step reqs end ->
  ordered_from t (tr_server <$> reqs) -> Forall (fun q => 0 <= tr_n q) reqs -> bucket_at t r p st ->
  token_run reqs r = bucket_run rate capacity reqs st.
Proof.
  induction reqs as [|q reqs IH]; intros t r p st Hp Ho Hn H; [done|]. cbn in Ho. destruct Ho as [Ht Ho]. apply Forall_cons in Hn as [Hn0 Hn].
  assert (Hp1 : match p with Some p => keeps_pace p q | None => True end) by (destruct p; [apply Hp|done]). assert (Hp2 : in_step q reqs) by (destruct p; apply Hp).
  pose proof (script_bucket p q r st Hp1 Hn0 (bucket_later _ _ _ _ _ Ht H)) as Hs. cbn [token_run bucket_run].
  destruct (bucket_take rate capacity (tr_now q) (tr_n q) st) as [ok st1]. destruct (tokenScript _ _ _ _ _ _ _ r) as [resp r1]. cbn in Hs. destruct Hs as [-> Hb].
  rewrite (IH (tr_server q) r1 (Some q) st1) by done. f_equal. by destruct ok.
Qed.

(** The tokens a run grants. *)
Definition granted_tokens (reqs : list token_request) (oks : list bool) : Z := foldr Z.add 0 (zip_with (fun q (ok : bool) => if ok then tr_n q else 0) reqs oks).

Lemma bucket_bound reqs : forall q tokens, in_step q reqs -> Forall (fun q => 0 <= tr_n q) reqs -> 0 <= tokens ->
  forall q', last (q :: reqs) = Some q' ->
  granted_tokens reqs (bucket_run rate capacity reqs (Some (tokens, tr_now q))) <= tokens + rate * (tr_now q' - tr_now q).
Proof.
  induction reqs as [|q1 reqs IH]; intros q tokens Hs Hn Hk q' Hl; [cbn in Hl; simplify_eq; unfold granted_tokens; cbn; lia|].
  destruct Hs as [[Hd _] Hs]. apply Forall_cons in Hn as [Hn0 Hn].
  cbn [bucket_run bucket_take]. set (f := bucket_fill rate capacity (tr_now q1) (Some (tokens, tr_now q))).
  assert (Ef : f = Z.min capacity (tokens + Z.max 0 (tr_now q1 - tr_now q) * rate)) by reflexivity.
  assert (Hf : f <= tokens + rate * (tr_now q1 - tr_now q)) by (rewrite Ef, Z.max_r; nia).
  assert (Hf0 : 0 <= f) by (rewrite Ef, Z.max_r; nia).
  unfold granted_tokens. cbn [zip_with foldr].
  specialize (IH q1 (if tr_n q1 <=? f then f - tr_n q1 else f) Hs Hn). unfold granted_tokens in IH. clearbody f.
  assert (Hk' : 0 <= (if tr_n q1 <=? f then f - tr_n q1 else f)) by (destruct (tr_n q1 <=? f) eqn:?; lia).
  specialize (IH Hk' q' Hl). destruct (tr_n q1 <=? f); lia.
Qed.

Fixpoint bucket_after (reqs : list token_request) (st : option (Z * Z)) : option (Z * Z) :=
  match reqs with [] => st | q :: reqs => bucket_after reqs (bucket_take rate capacity (tr_now q) (tr_n q) st).2 end.

Lemma bucket_run_app l1 l2 : forall st, bucket_run rate capacity (l1 ++ l2) st = bucket_run rate capacity l1 st ++ bucket_run rate capacity l2 (bucket_after l1 st).
Proof. induction l1 as [|q l1 IH]; intros st; [done|]. cbn. by rewrite IH. Qed.

Lemma bucket_run_length l : forall st, length (bucket_run rate capacity l st) = length l.
Proof. induction l as [|q l IH]; intros st; cbn; [done|]. by rewrite IH. Qed.

Definition in_range (st : option (Z * Z)) : Prop := match st with Some (tokens, _) => 0 <= tokens <= capacity | None => True end.

Lemma bucket_after_range l : Forall (fun q => 0 <= tr_n q) l -> forall st, in_range st -> in_range (bucket_after l st).
Proof.
  induction 1 as [|q l Hn _ IH]; intros st H; [done|]. cbn in Hn |- *. apply IH. pose proof (fill_range (tr_now q) st H). cbn. destruct (tr_n q <=? _) eqn:?; lia.
Qed.

Lemma segment_bound q1 rest st q2 : in_range st -> in_step q1 rest -> Forall (fun q => 0 <= tr_n q) (q1 :: rest) ->
  last (q1 :: rest) = Some q2 ->
  granted_tokens (q1 :: rest) (bucket_run rate capacity (q1 :: rest) st) <= capacity + rate * (tr_now q2 - tr_now q1).
Proof.
  intros Hr Ho Hn Hl. apply Forall_cons in Hn as [Hn0 Hn]. cbn in Hn0. pose proof (fill_range (tr_now q1) st Hr) as Hf.
  cbn [bucket_run bucket_take]. set (f := bucket_fill rate capacity (tr_now q1) st) in *.
  pose proof (bucket_bound rest q1 (if tr_n q1 <=? f then f - tr_n q1 else f) Ho Hn ltac:(destruct (tr_n q1 <=? f) eqn:?; lia) q2 Hl) as H.
  unfold granted_tokens in *. cbn [zip_with foldr] in *. destruct (tr_n q1 <=? f); lia.
Qed.

Lemma in_step_suffix l1 : forall p q l2, in_step p (l1 ++ q :: l2) -> in_step q l2.
Proof. induction l1 as [|x l1 IH]; intros p q l2 [_ H]; [done|]. by eapply IH. Qed.

Lemma in_step_prefix l1 l2 : forall q, in_step q (l1 ++ l2) -> in_step q l1.
Proof. induction l1 as [|x l1 IH]; intros q H; [done|]. destruct H as [H1 H2]. split; [done|by apply IH]. Qed.

(** C29: The token limiter while Redis answers, with a rate that is positive and at most twice
    the burst, for requests that reach the server in the order of its clock and whose clients'
    clocks, which the script computes with, do not go back and advance by what fills the bucket
    while the keys expire (as they do when they are the server's, [synchronous_in_step]): the
    script, whose keys expire, grants exactly what a bucket of [burst] tokens does that gains
    [rate] tokens per second and never forgets; and from any request on, the tokens granted
    up to another are at most [burst] plus [rate] per second between them. *)
Theorem token_limiter_is_bucket reqs t r :
  all_in_step reqs -> ordered_from t (tr_server <$> reqs) -> Forall (fun q => 0 <= tr_n q) reqs -> live t r kt = None -> live t r ks = None ->
  token_run reqs r = bucket_run rate capacity reqs None /\
  forall pre q1 rest post q2, reqs = pre ++ (q1 :: rest) ++ post -> last (q1 :: rest) = Some q2 ->
    granted_tokens (q1 :: rest) (take (S (length rest)) (drop (length pre) (token_run reqs r))) <= capacity + rate * (tr_now q2 - tr_now q1).
Proof.
  intros Hs Ho Hn H1 H2. assert (E := token_run_bucket reqs t r None None Hs Ho Hn (conj H1 H2)). split; [exact E|]. rewrite E.
  intros pre q1 rest post q2 -> Hl. rewrite bucket_run_app, drop_app_length' by (by rewrite bucket_run_length).
  rewrite bucket_run_app, take_app_length' by (by rewrite bucket_run_length).
  apply Forall_app in Hn as [Hp Hn]. apply Forall_app in Hn as [Hn _].
  apply segment_bound; [by apply bucket_after_range| |done|done]. apply (in_step_prefix _ post).
  destruct pre as [|p pre]; [exact Hs|]. cbn [app all_in_step] in Hs. by apply in_step_suffix in Hs.
Qed.
End token_proofs.

(** A client whose clock is an hour ahead fills the bucket for the others: after its request a
    client with the right clock, whose time goes back, finds it full again. *)
Example skewed_clients_refill :
  token_run 1 2 "k" [mkRequest 0 0 2; mkRequest 0 3600 2; mkRequest 0 0 0; mkRequest 0 3600 2] (∅ : redis_map) = [true; true; true; true].
Proof. vm_compute. reflexivity. Qed.

(** With a burst below half the rate the script asks for an expiry of zero, which fails: the
    limit is then that of each process, never that of Redis. *)
Theorem token_limiter_small_burst {R} `{!RedisCommands R} t key rate capacity now n (r : R) :
  0 < rate -> 0 <= capacity -> capacity * 2 < rate ->
  tokenScript t (tokenKey key) (timestampKey key) rate capacity now n r = (ReplyError, r) /\
  (reserveN ReplyError NewTokenLimiter).1 = Rescue.
Proof.
  intros Hr Hc Hs. unfold tokenScript. rewrite Z.div_small by lia. done.
Qed.

Definition demo_reqs : list token_request := [mkRequest 100 0 1; mkRequest 200 0 1; mkRequest 300 0 1; mkRequest 1100 1 1].

Lemma token_limiter_is_bucket_witness :
  token_run 1 2 "k" demo_reqs (∅ : redis_map) = [true; true; false; true] /\
  granted_tokens (take 3 demo_reqs) (take 3 (drop 0 (token_run 1 2 "k" demo_reqs (∅ : redis_map)))) <= 2 + 1 * (0 - 0).
Proof.
  destruct (token_limiter_is_bucket (R := redis_map) 1 2 "k" ltac:(lia) ltac:(lia) demo_reqs 0 ∅) as [H1 H2].
  - apply synchronous_in_step; [lia|lia|repeat constructor|cbn; lia].
  - cbn. lia.
  - repeat constructor; cbn; lia.
  - reflexivity.
  - reflexivity.
  - split; [etrans; [exact H1|]; vm_compute; reflexivity|].
    exact (H2 [] (mkRequest 100 0 1) [mkRequest 200 0 1; mkRequest 300 0 1] [mkRequest 1100 1 1] (mkRequest 300 0 1) eq_refl eq_refl).
Defined.

(** ** The lock (infra/stores/redis/redislock.go, lockscript.lua, delscript.lua) *)

Definition tolerance : Z := 500.
Definition millisPerSecond : Z := 1000.
Definition MaxUint32 : Z := 2^32 - 1.

Record RedisLock : Type := mkRedisLock { rl_key : string; rl_id : string; rl_seconds : Z }.

Definition NewRedisLock (key id : string) : RedisLock := mkRedisLock key id 0.

Definition SetExpire (seconds : Z) (rl : RedisLock) : RedisLock :=
  if seconds <? 0 then rl else if MaxUint32 <? seconds then rl else mkRedisLock (rl_key rl) (rl_id rl) seconds.

Section lock.
Context {R : Type} `{!RedisCommands R}.

(** [SET NX] answers nil when the key exists. *)
Definition lockScript (t : Z) (key id : string) (px : Z) (r : R) : bool * R :=
  if bool_decide (cmd_GET t key r = Some (RString id)) then (true, cmd_SET t key (RString id) (Some px) r)
  else match cmd_GET t key r with
       | Some _ => (false, r)
       | None => (true, cmd_SET t key (RString id) (Some px) r)
       end.

Definition delScript (t : Z) (key id : string) (r : R) : bool * R :=
  if bool_decide (cmd_GET t key r = Some (RString id)) then (true, cmd_DEL t key r) else (false, r).

(** Without faults of the connection. *)
Definition AcquireCtx (t : Z) (rl : RedisLock) (r : R) : bool * R := lockScript t (rl_key rl) (rl_id rl) (rl_seconds rl * millisPerSecond + tolerance) r.
Definition ReleaseCtx (t : Z) (rl : RedisLock) (r : R) : bool * R := delScript t (rl_key rl) (rl_id rl) r.
End lock.

Section lock_proofs.
Context {R : Type} `{!RedisCommands R, !RedisLaws R} (key : string).

(** What clients do to the key: the lock they use, and whether they acquire. *)
Record lock_op : Type := mkLockOp { lo_t : Z; lo_lock : RedisLock; lo_acquire : bool }.

Definition lock_exec (op : lock_op) (r : R) : bool * R := if lo_acquire op then AcquireCtx (lo_t op) (lo_lock op) r else ReleaseCtx (lo_t op) (lo_lock op) r.

Fixpoint lock_run (ops : list lock_op) (r : R) : list bool * R :=
  match ops with [] => ([], r) | op :: ops => let '(b, r) := lock_exec op r in let '(bs, r) := lock_run ops r in (b :: bs, r) end.

(** [id] has the lock until [d]. *)
Definition held (t : Z) (r : R) (id : string) (d : Z) : Prop := live t r key = alive t (RString id, Some d).

Lemma held_later t t' r id d : t <= t' -> held t r id d -> held t' r id d.
Proof. intros Ht H. unfold held in *. by rewrite (live_later t t' r key Ht), H, alive_later. Qed.

Lemma acquire_holds t rl r : rl_key rl = key -> (AcquireCtx t rl r).1 = true ->
  held t (AcquireCtx t rl r).2 (rl_id rl) (t + (rl_seconds rl * millisPerSecond + tolerance)).
Proof.
  intros Hk. unfold AcquireCtx, lockScript, held. rewrite Hk. case_bool_decide; [|destruct (cmd_GET t key r); [done|]]; intros _; cbn;
    rewrite live_SET by lia; by rewrite decide_True.
Qed.

(** Others neither take nor remove a lock that has not expired. *)
Lemma others_fail t op r id d : lo_t op = t -> rl_key (lo_lock op) = key -> rl_id (lo_lock op) <> id -> t < d -> held t r id d -> lock_exec op r = (false, r).
Proof.
  intros Ht Hk Hi Hd H. unfold held, alive in H. cbn in H. assert (E : (t <? d) = true) by lia. rewrite E in H.
  assert (G : cmd_GET t key r = Some (RString id)) by by rewrite live_GET, H.
  unfold lock_exec, AcquireCtx, ReleaseCtx, lockScript, delScript. rewrite Ht, Hk, G. rewrite bool_decide_false by congruence. by destruct (lo_acquire op).
Qed.

Lemma others_run d r id ops : forall t, ordered_from t (lo_t <$> ops) ->
  Forall (fun op => rl_key (lo_lock op) = key /\ rl_id (lo_lock op) <> id /\ lo_t op < d) ops -> held t r id d ->
  lock_run ops r = (replicate (length ops) false, r).
Proof.
  induction ops as [|op ops IH]; intros t Ho Hf Hh; [done|]. apply Forall_cons in Hf as [(H1 & H2 & H3) Hf]. cbn in Ho. destruct Ho as [Ht Ho].
  apply (held_later _ _ _ _ _ Ht) in Hh. cbn [lock_run]. rewrite (others_fail (lo_t op) op r id d eq_refl H1 H2 H3 Hh).
  by rewrite (IH (lo_t op) Ho Hf Hh).
Qed.

(** C30: A lock that was acquired is exclusive: until its expiry, of its seconds and half a second
    more, every attempt of other clients to acquire it fails and every release of theirs does
    nothing, whatever they do and in whatever order, and it is still held by the one who
    acquired it. *)
Theorem lock_is_exclusive t rl r ops :
  let d := t + (rl_seconds rl * millisPerSecond + tolerance) in
  rl_key rl = key -> (AcquireCtx t rl r).1 = true -> ordered_from t (lo_t <$> ops) ->
  Forall (fun op => rl_key (lo_lock op) = key /\ rl_id (lo_lock op) <> rl_id rl /\ lo_t op < d) ops ->
  lock_run ops (AcquireCtx t rl r).2 = (replicate (length ops) false, (AcquireCtx t rl r).2) /\
  forall t', t <= t' < d -> live t' (AcquireCtx t rl r).2 key = Some (RString (rl_id rl), Some d).
Proof.
  intros d Hk Ha Ho Hf. pose proof (acquire_holds t rl r Hk Ha) as Hh. set (r1 := (AcquireCtx t rl r).2) in *.
  split; [|intros t' Ht; rewrite (held_later t t' r1 _ _ ltac:(lia) Hh); unfold alive; cbn; fold d; destruct (t' <? d) eqn:?; [done|lia]].
  by apply (others_run d r1 (rl_id rl) ops t).
Qed.

(** The holder can renew and release; after a release or the expiry anyone can acquire. *)
Theorem lock_is_available t rl r : rl_key rl = key ->
  (live t r key = None -> (AcquireCtx t rl r).1 = true) /\
  (forall d, t < d -> held t r (rl_id rl) d -> (AcquireCtx t rl r).1 = true /\ (ReleaseCtx t rl r).1 = true /\ live t (ReleaseCtx t rl r).2 key = None).
Proof.
  intros Hk. unfold AcquireCtx, ReleaseCtx, lockScript, delScript. rewrite Hk, live_GET. split.
  - intros ->. done.
  - intros d Hd H. unfold held, alive in H. cbn in H. assert (E : (t <? d) = true) by lia. rewrite E in H. rewrite H. cbn.
    rewrite bool_decide_true by done. cbn. split; [done|]. split; [done|]. rewrite live_DEL by lia. by rewrite decide_True.
Qed.
End lock_proofs.

Lemma lock_is_exclusive_witness :
  let rl := SetExpire 1 (NewRedisLock "k" "me") in
  lock_run [mkLockOp 100 (NewRedisLock "k" "you") true; mkLockOp 1400 (NewRedisLock "k" "you") false] (AcquireCtx 0 rl (∅ : redis_map)).2 =
  ([false; false], (AcquireCtx 0 rl (∅ : redis_map)).2).
Proof.
  apply (lock_is_exclusive (R := redis_map) "k" 0 (SetExpire 1 (NewRedisLock "k" "me")) ∅
    [mkLockOp 100 (NewRedisLock "k" "you") true; mkLockOp 1400 (NewRedisLock "k" "you") false]); [done|vm_compute; reflexivity|cbn; lia|].
  repeat constructor; cbn; done || lia.
Defined.

(** ** The Bloom filter (infra/bloom/bloom.go, setscript.lua, testscript.lua) *)

Definition maps : nat := 14.

(** A byte slice: an array and how much of it the slice has; the rest is its capacity. *)
Record slice : Type := mkSlice { sl_array : list Z; sl_len : nat }.
Definition sl_bytes (s : slice) : list Z := take (sl_len s) (sl_array s).

(** [append(data, b)]: what is hashed, and the array after it, which is written when the
    slice has capacity left. *)
Definition append_byte (b : Z) (s : slice) : list Z * slice :=
  (sl_bytes s ++ [b], mkSlice (<[sl_len s := b]> (sl_array s)) (sl_len s)).

Section bloom.
Context {R : Type} `{!RedisCommands R} (Hash : list Z -> Z) (bits : Z).

Fixpoint locations_loop (n : nat) (i : Z) (data : slice) : list Z * slice :=
  match n with
  | O => ([], data)
  | S n =>
      let '(bytes, data) := append_byte i data in
      let '(ls, data) := locations_loop n (i + 1) data in
      (Hash bytes mod bits :: ls, data)
  end.

(** [None]: a division by zero. *)
Definition getLocations (data : slice) : option (list Z * slice) := if bits =? 0 then None else Some (locations_loop maps 0 data).

(** [None] is [ErrTooLargeOffset]. *)
Definition buildOffsetArgs (offsets : list Z) : option (list Z) := if forallb (fun o => o <? bits) offsets then Some offsets else None.

Definition setScript (t : Z) (key : string) (offsets : list Z) (r : R) : R := foldl (fun r o => cmd_SETBIT t key o r) r offsets.
Definition testScript (t : Z) (key : string) (offsets : list Z) (r : R) : bool := forallb (fun o => cmd_GETBIT t key o r) offsets.

Definition AddCtx (t : Z) (key : string) (data : slice) (r : R) : option (slice * R) :=
  '(ls, data) ← getLocations data; args ← buildOffsetArgs ls; Some (data, setScript t key args r).

Definition ExistsCtx (t : Z) (key : string) (data : slice) (r : R) : option (bool * slice) :=
  '(ls, data) ← getLocations data; args ← buildOffsetArgs ls; Some (testScript t key args r, data).
End bloom.

Section bloom_proofs.
Context {R : Type} `{!RedisCommands R, !RedisLaws R} (Hash : list Z -> Z) (bits : Z) (Hb : 0 < bits) (key : string).

Definition locations (bytes : list Z) : list Z := (fun i => Hash (bytes ++ [Z.of_nat i]) mod bits) <$> seq 0 maps.
#[local] Arguments locations : simpl never.
#[local] Arguments buildOffsetArgs : simpl never.

Lemma append_bytes b s : (append_byte b s).1 = sl_bytes s ++ [b] /\ sl_bytes (append_byte b s).2 = sl_bytes s.
Proof.
  split; [done|]. unfold sl_bytes. cbn. apply take_insert_ge. lia.
Qed.

Lemma locations_loop_spec n : forall i s, (locations_loop Hash bits n (Z.of_nat i) s).1 = (fun i => Hash (sl_bytes s ++ [Z.of_nat i]) mod bits) <$> seq i n /\
  sl_bytes (locations_loop Hash bits n (Z.of_nat i) s).2 = sl_bytes s.
Proof.
  induction n as [|n IH]; intros i s; [done|]. cbn [locations_loop]. destruct (append_bytes (Z.of_nat i) s) as [E1 E2].
  destruct (append_byte (Z.of_nat i) s) as [bytes s1]. cbn [fst snd] in *. subst bytes.
  destruct (IH (S i) s1) as [F1 F2]. replace (Z.of_nat i + 1) with (Z.of_nat (S i)) by lia.
  destruct (locations_loop Hash bits n (Z.of_nat (S i)) s1) as [ls s2]. cbn in *. split; [|congruence]. by rewrite F1, E2.
Qed.

Lemma getLocations_spec s : exists s', getLocations Hash bits s = Some (locations (sl_bytes s), s') /\ sl_bytes s' = sl_bytes s.
Proof.
  unfold getLocations. destruct (bits =? 0) eqn:E; [lia|]. destruct (locations_loop_spec maps 0 s) as [E1 E2].
  change (Z.of_nat 0) with 0 in *. destruct (locations_loop Hash bits maps 0 s) as [ls s']. cbn in E1, E2. exists s'. split; [|done]. by rewrite E1.
Qed.

Lemma locations_ok bytes : buildOffsetArgs bits (locations bytes) = Some (locations bytes).
Proof.
  unfold buildOffsetArgs. replace (forallb _ _) with true; [done|]. symmetry. apply forallb_forall. intros o Ho.
  apply list_elem_of_In, list_elem_of_fmap in Ho as (i & -> & _). pose proof (Z.mod_pos_bound (Hash (bytes ++ [Z.of_nat i])) bits Hb). lia.
Qed.

(** The bits of the filter are [s]. *)
Definition has_bits (t : Z) (r : R) (s : gset Z) : Prop :=
  match live t r key with Some (RBits s', None) => s' = s | None => s = ∅ | _ => False end.

Lemma set_bits t os : forall r s, has_bits t r s -> has_bits t (setScript t key os r) (s ∪ list_to_set os).
Proof.
  induction os as [|o os IH]; intros r s H; cbn; [by replace (s ∪ ∅) with s by set_solver|].
  replace (s ∪ ({[o]} ∪ list_to_set os)) with (({[o]} ∪ s) ∪ list_to_set os) by set_solver. apply IH.
  unfold has_bits in *. rewrite live_SETBIT by lia. rewrite decide_True by done.
  destruct (live t r key) as [[[| |s'] [d|]]|]; cbn; try done; subst; [done|]. set_solver.
Qed.

Lemma bits_later t t' r s : t <= t' -> has_bits t r s -> has_bits t' r s.
Proof. intros Ht H. unfold has_bits in *. rewrite (live_later t t' r key Ht). destruct (live t r key) as [[[| |s'] [d|]]|]; done. Qed.

Lemma test_bits t r s os : has_bits t r s -> testScript t key os r = bool_decide (Forall (fun o => o ∈ s) os).
Proof.
  intros H. unfold testScript. apply Bool.eq_true_iff_eq. rewrite bool_decide_eq_true, forallb_forall, Forall_forall. setoid_rewrite list_elem_of_In.
  assert (E : forall o, cmd_GETBIT t key o r = bool_decide (o ∈ s)).
  { intros o. rewrite GETBIT_result. unfold has_bits in H. destruct (live t r key) as [[[| |s'] [d|]]|]; try done; subst; done. }
  setoid_rewrite E. by setoid_rewrite bool_decide_eq_true.
Qed.

Fixpoint add_run (xs : list (Z * slice)) (r : R) : option R :=
  match xs with [] => Some r | (t, x) :: xs => '(_, r) ← AddCtx Hash bits t key x r; add_run xs r end.

Definition added (xs : list (Z * slice)) : gset Z := list_to_set (xs ≫= (fun tx => locations (sl_bytes tx.2))).

Lemma add_run_bits xs : forall t r s t', ordered_from t xs.*1 -> (forall x, x ∈ xs.*1 -> x <= t') -> t <= t' -> has_bits t r s ->
  exists r', add_run xs r = Some r' /\ has_bits t' r' (s ∪ added xs).
Proof.
  induction xs as [|[t1 x] xs IH]; intros t r s t' Ho Hx Ht H; cbn [add_run].
  { exists r. split; [done|]. apply (bits_later t); [done|]. unfold added. cbn. by replace (s ∪ ∅) with s by set_solver. }
  cbn in Ho. destruct Ho as [Ht1 Ho]. unfold AddCtx. destruct (getLocations_spec x) as (x' & -> & _). cbn. rewrite locations_ok. cbn.
  destruct (IH t1 (setScript t1 key (locations (sl_bytes x)) r) (s ∪ list_to_set (locations (sl_bytes x))) t' Ho) as (r' & E & Hr').
  - intros y Hy. apply Hx. cbn. set_solver.
  - apply Hx. cbn. set_solver.
  - apply set_bits. by apply (bits_later t).
  - exists r'. split; [done|]. unfold added in *. cbn. rewrite list_to_set_app_L. by rewrite (assoc_L (∪)) in *.
Qed.

(** The Bloom filter: after adding any data in any order, [Exists] answers true exactly for
    data whose fourteen locations are all locations of something added; in particular for
    all that was added. *)
Theorem bloom_membership xs t r t' y :
  ordered_from t xs.*1 -> (forall x, x ∈ xs.*1 -> x <= t') -> t <= t' -> live t r key = None ->
  exists r' y', add_run xs r = Some r' /\
    ExistsCtx Hash bits t' key y r' = Some (bool_decide (Forall (fun l => l ∈ added xs) (locations (sl_bytes y))), y') /\ sl_bytes y' = sl_bytes y /\
    (forall tx, tx ∈ xs -> sl_bytes tx.2 = sl_bytes y -> ExistsCtx Hash bits t' key y r' = Some (true, y')).
Proof.
  intros Ho Hx Ht Hl. assert (H0 : has_bits t r ∅) by (unfold has_bits; by rewrite Hl).
  destruct (add_run_bits xs t r ∅ t' Ho Hx Ht H0) as (r' & E & Hr'). replace (∅ ∪ added xs) with (added xs) in Hr' by set_solver.
  destruct (getLocations_spec y) as (y' & Ey & By). exists r', y'.
  assert (Ex : ExistsCtx Hash bits t' key y r' = Some (bool_decide (Forall (fun l => l ∈ added xs) (locations (sl_bytes y))), y')).
  { unfold ExistsCtx. rewrite Ey. cbn. rewrite locations_ok. cbn. by rewrite (test_bits t' r' (added xs)). }
  split; [done|]. split; [done|]. split; [done|]. intros tx Htx Hbytes. rewrite Ex. f_equal. f_equal. apply bool_decide_eq_true.
  apply Forall_forall. intros l Hin. unfold added. apply elem_of_list_to_set, list_elem_of_bind. exists tx. rewrite Hbytes. done.
Qed.

Lemma locations_loop_array n : forall i s, (locations_loop Hash bits (S n) i s).2 = mkSlice (<[sl_len s := i + Z.of_nat n]> (sl_array s)) (sl_len s).
Proof.
  induction n as [|n IH]; intros i s; [cbn; by rewrite Z.add_0_r|]. specialize (IH (i + 1) (append_byte i s).2). cbn [append_byte snd sl_len sl_array] in IH.
  cbn [append_byte snd]. remember (S n) as m. cbn [locations_loop append_byte]. destruct (locations_loop Hash bits m (i + 1) _) as [ls s']. cbn in IH |- *.
  rewrite IH, list_insert_insert_eq. do 2 f_equal. lia.
Qed.

(** Hashing writes its counter behind the data when the slice has capacity left: the byte
    that follows the data in the caller's array becomes 13. *)
Theorem bloom_clobbers s ls s' : (sl_len s < length (sl_array s))%nat -> getLocations Hash bits s = Some (ls, s') -> sl_array s' !! sl_len s = Some 13.
Proof.
  intros Hl. unfold getLocations, maps. pose proof (locations_loop_array 13 0 s) as E. destruct (bits =? 0); [done|].
  destruct (locations_loop Hash bits 14 0 s) as [ls0 s0]. cbn in E. subst s0. intros [= _ <-]. cbn. by apply list_lookup_insert_eq.
Qed.
End bloom_proofs.

Lemma bloom_membership_witness :
  exists r' y', add_run (fun l => foldr Z.add 0 l) 64 "f" [(0, mkSlice [1; 2] 1); (5, mkSlice [7] 1)] (∅ : redis_map) = Some r' /\
    ExistsCtx (fun l => foldr Z.add 0 l) 64 9 "f" (mkSlice [1] 1) r' = Some (true, y').
Proof.
  destruct (bloom_membership (R := redis_map) (fun l => foldr Z.add 0 l) 64 ltac:(lia) "f" [(0, mkSlice [1; 2] 1); (5, mkSlice [7] 1)] 0 ∅ 9 (mkSlice [1] 1))
    as (r' & y' & H1 & _ & _ & H2).
  - cbn. lia.
  - cbn. intros x. rewrite !elem_of_cons, elem_of_nil. lia.
  - lia.
  - reflexivity.
  - exists r', y'. split; [exact H1|]. apply (H2 (0, mkSlice [1; 2] 1)); [left|reflexivity].
Defined.
