(* ===== verification/CacheNode.v ===== *)
(** * Caching over Redis (infra/stores/cache: cachenode.go, cache.go, cacheopt.go,
    cachestat.go, cleaner.go)

    [cacheNode] keeps JSON text, and a placeholder for what the database does not have, under
    keys of a Redis server; [cacheCluster] spreads keys over nodes.  The server is that of
    [RedisScripts]; the codec, the jitter of expiries and the failures of single commands are
    parameters.  The single flight around a query is verified in [Syncx]; here is what its
    leader does and what the callers that join it get. *)

From S2P Require Import Prelude RedisScripts.

#[local] Open Scope Z_scope.

Definition notFoundPlaceholder : string := "*".

Record Options : Type := mkOptions { o_Expiry : Z; o_NotFoundExpiry : Z }.
Definition newOptions (o : Options) : Options :=
  mkOptions (if o_Expiry o <=? 0 then 7 * 24 * 3600 * 10^9 else o_Expiry o) (if o_NotFoundExpiry o <=? 0 then 60 * 10^9 else o_NotFoundExpiry o).

(** [int(math.Ceil(d.Seconds()))] *)
Definition ceil_seconds (d : Z) : Z := - (- d / 10^9).

Record Stat : Type := mkStat { st_Total : Z; st_Hit : Z; st_Miss : Z; st_DbFails : Z }.
Definition IncrementTotal (s : Stat) : Stat := mkStat (st_Total s + 1) (st_Hit s) (st_Miss s) (st_DbFails s).
Definition IncrementHit (s : Stat) : Stat := mkStat (st_Total s) (st_Hit s + 1) (st_Miss s) (st_DbFails s).
Definition IncrementMiss (s : Stat) : Stat := mkStat (st_Total s) (st_Hit s) (st_Miss s + 1) (st_DbFails s).
Definition IncrementDbFails (s : Stat) : Stat := mkStat (st_Total s) (st_Hit s) (st_Miss s) (st_DbFails s + 1).

(** Commands that fail during one call. *)
Record io_faults : Type := mkIO { io_get : bool; io_set : bool; io_setnx : bool; io_del : bool }.
Definition no_io : io_faults := mkIO false false false false.

Section node.
Context {R V : Type} `{!RedisCommands R} (marshal : V -> option string) (unmarshal : string -> option V).

(** [aroundDuration] of a base for the call at hand. *)
Context (opts : Options) (around : Z -> Z).

(** What a cached read says. *)
Inductive cached := Hit (v : V) | Placeholder | NotFound | RedisErr.

(** [GetCtx] of the client gives the empty string for a missing key. *)
Definition rds_get (t : Z) (key : string) (r : R) : string := match cmd_GET t key r with Some (RString s) => s | _ => "" end.

Definition processCache (io : io_faults) (t : Z) (key data : string) (r : R) : cached * R :=
  match unmarshal data with
  | Some v => (Hit v, r)
  | None => (NotFound, if io_del io then r else cmd_DEL t key r)
  end.

Definition doGetCache (io : io_faults) (t : Z) (key : string) (r : R) (st : Stat) : cached * R * Stat :=
  let st := IncrementTotal st in
  if io_get io then (RedisErr, r, IncrementMiss st)
  else
    let data := rds_get t key r in
    if String.eqb data "" then (NotFound, r, IncrementMiss st)
    else
      let st := IncrementHit st in
      if String.eqb data notFoundPlaceholder then (Placeholder, r, st)
      else let '(c, r) := processCache io t key data r in (c, r, st).

(** The errors a caller sees: [errNotFound], that of Redis, of the query, of JSON. *)
Inductive cache_error := ErrNotFound | ErrRedis | ErrQuery | ErrJSON.

Definition GetCtx (io : io_faults) (t : Z) (key : string) (r : R) (st : Stat) : (cache_error + V) * R * Stat :=
  let '(c, r, st) := doGetCache io t key r st in
  (match c with Hit v => inr v | Placeholder | NotFound => inl ErrNotFound | RedisErr => inl ErrRedis end, r, st).

Definition SetWithExpireCtx (io : io_faults) (t : Z) (key : string) (v : V) (expire : Z) (r : R) : option cache_error * R :=
  match marshal v with
  | None => (Some ErrJSON, r)
  | Some data => if io_set io then (Some ErrRedis, r) else (None, cmd_SET t key (RString data) (Some (ceil_seconds expire * 1000)) r)
  end.

Definition SetCtx (io : io_faults) (t : Z) (key : string) (v : V) (r : R) : option cache_error * R :=
  SetWithExpireCtx io t key v (around (o_Expiry opts)) r.

Definition setCacheWithNotFound (io : io_faults) (t : Z) (key : string) (r : R) : R :=
  if io_setnx io then r
  else match cmd_GET t key r with
       | Some _ => r                                            (* SET NX *)
       | None => cmd_SET t key (RString notFoundPlaceholder) (Some (ceil_seconds (around (o_NotFoundExpiry opts)) * 1000)) r
       end.

(** A query of the database: an error, nothing, or a value. *)
Inductive query_result := QueryErr | QueryNone | QueryOk (v : V).

(** [return jsonx.Marshal(v)] *)
Definition finish (v : V) (q : option query_result) (r : R) (st : Stat) : (cache_error + V) * option query_result * R * Stat :=
  (match marshal v with Some _ => inr v | None => inl ErrJSON end, q, r, st).

(** The cache has nothing: query, and cache the outcome. *)
Definition take_miss (io : io_faults) (t : Z) (key : string) (query : query_result) (r : R) (st : Stat) :
    (cache_error + V) * option query_result * R * Stat :=
  match query with
  | QueryNone => (inl ErrNotFound, Some query, setCacheWithNotFound io t key r, st)
  | QueryErr => (inl ErrQuery, Some query, r, IncrementDbFails st)
  | QueryOk v => finish v (Some query) (SetCtx io t key v r).2 st
  end.

(** The function the flight runs: at [t] it reads the cache, [t'] is after its query.  The
    query, when it is made, is [Some]. *)
Definition doTake (io : io_faults) (t t' : Z) (key : string) (query : query_result) (r : R) (st : Stat) :
    (cache_error + V) * option query_result * R * Stat :=
  let '(c, r, st) := doGetCache io t key r st in
  match c with
  | Hit v => finish v None r st
  | Placeholder => (inl ErrNotFound, None, r, st)
  | RedisErr => (inl ErrRedis, None, r, st)
  | NotFound => take_miss io t' key query r st
  end.

(** A caller that joined the flight gets its result, decoded. *)
Definition joinTake (res : cache_error + V) (st : Stat) : (cache_error + V) * Stat :=
  match res with
  | inl e => (inl e, st)
  | inr v => (match marshal v ≫= unmarshal with Some v' => inr v' | None => inl ErrJSON end, IncrementHit (IncrementTotal st))
  end.

(** The keys whose deletion failed are retried later. *)
Definition DelCtx (io : io_faults) (t : Z) (keys : list string) (r : R) : list string * R :=
  match keys with
  | [] => ([], r)
  | _ => if io_del io then (keys, r) else ([], foldl (fun r k => cmd_DEL t k r) r keys)
  end.
End node.
Arguments cached V : clear implicits.
Arguments query_result V : clear implicits.

(** ** Retries of deletions (cleaner.go), delays in seconds *)

Definition nextDelay (delay : Z) : option Z :=
  if delay =? 1 then Some 5 else if delay =? 5 then Some 60 else if delay =? 60 then Some 300 else if delay =? 300 then Some 3600 else None.

(** The runs of a task that was added with a delay, until one succeeds: how long after
    [AddCleanTask] each comes, and whether the last succeeded.  [fuel] bounds the runs. *)
Fixpoint clean_runs (fuel : nat) (task : nat -> bool) (n : nat) (since delay : Z) : list Z * bool :=
  match fuel with
  | O => ([], false)
  | S fuel =>
      let at_ := since + delay in
      if task n then ([at_], true)
      else match nextDelay delay with
           | None => ([at_], false)
           | Some next => let '(l, ok) := clean_runs fuel task (S n) at_ next in (at_ :: l, ok)
           end
  end.
Definition AddCleanTask (task : nat -> bool) : list Z * bool := clean_runs 5 task 0 0 1.

(** Five runs are enough fuel: the fifth delay has no successor. *)
Theorem clean_task_schedule task :
  let '(runs, ok) := AddCleanTask task in
  runs = take (length runs) [1; 6; 66; 366; 3966] /\ ok = existsb task (seq 0 5) /\
  (ok = false -> length runs = 5%nat) /\ (ok = true -> task (pred (length runs)) = true /\ forall i, (i < pred (length runs))%nat -> task i = false).
Proof.
  unfold AddCleanTask. cbn.
  destruct (task 0%nat) eqn:E0, (task 1%nat) eqn:E1, (task 2%nat) eqn:E2, (task 3%nat) eqn:E3, (task 4%nat) eqn:E4; cbn;
    (split_and!; try done; try (intros _; split; [done|]; intros i Hi; do 5 (destruct i as [|i]; [done || lia|]); lia)).
Qed.

(** ** Coherence *)

Section coherence.
Context {R V : Type} `{!RedisCommands R, !RedisLaws R} (marshal : V -> option string) (unmarshal : string -> option V) (opts : Options).

(** What is read back is what was written, and JSON is neither empty nor the placeholder. *)
Definition json_ok : Prop := forall v s, marshal v = Some s -> unmarshal s = Some v /\ s <> "" /\ s <> notFoundPlaceholder.

(** What a text under a key says of the database. *)
Definition says (s : string) (x : option V) : Prop := if String.eqb s notFoundPlaceholder then x = None else s <> "" /\ exists v, x = Some v /\ unmarshal s = Some v.

Lemma rds_get_live t k (r : R) : rds_get t k r = match live t r k with Some (RString s, _) => s | _ => "" end.
Proof. unfold rds_get. rewrite live_GET. by destruct (live t r k) as [[[] ?]|]. Qed.

Definition coherent (t : Z) (r : R) (db : gmap string V) : Prop :=
  forall k, match live t r k with Some (RString s, _) => says s (db !! k) | Some _ => False | None => True end.

Lemma coherent_later t t' r db : t <= t' -> coherent t r db -> coherent t' r db.
Proof.
  intros Ht H k. specialize (H k). rewrite (live_later t t' r k Ht). destruct (live t r k) as [[v d]|]; [|done]. cbn.
  unfold alive. destruct d as [d|]; cbn; [destruct (t' <? d)|]; done.
Qed.

(** A text that agrees with the database under one key keeps the cache coherent. *)
Lemma coherent_set t r db k s px : coherent t r db -> says s (db !! k) -> coherent t (cmd_SET t k (RString s) px r) db.
Proof.
  intros H Hs k'. rewrite live_SET by lia. case_decide as E; [subst|apply H]. unfold alive. destruct px as [ms|]; cbn; [destruct (t <? t + ms)|]; done.
Qed.

Lemma coherent_del t r db k x : coherent t r db -> coherent t (cmd_DEL t k r) (partial_alter (fun _ => x) k db).
Proof.
  intros H k'. rewrite live_DEL by lia. case_decide; [done|]. rewrite lookup_partial_alter_ne by done. apply H.
Qed.

(** The database's answer. *)
Definition query_of (db : gmap string V) (key : string) : query_result V := match db !! key with Some v => QueryOk v | None => QueryNone end.
Definition answer (x : option V) : cache_error + V := match x with Some v => inr v | None => inl ErrNotFound end.

Lemma miss_coherent around t key db r st : json_ok -> map_Forall (fun _ v => is_Some (marshal v)) db -> coherent t r db ->
  let '(res, _, r', _) := take_miss marshal opts around no_io t key (query_of db key) r st in res = answer (db !! key) /\ coherent t r' db.
Proof.
  intros Hj Hm H. unfold take_miss, finish, query_of, answer. destruct (db !! key) as [v|] eqn:Ed.
  - destruct (Hm key v Ed) as [s Es]. rewrite Es. split; [done|]. unfold SetCtx, SetWithExpireCtx. rewrite Es. cbn. apply coherent_set; [done|].
    rewrite Ed. destruct (Hj v s Es) as (? & ? & ?). unfold says. destruct (String.eqb_spec s notFoundPlaceholder); [done|]. eauto.
  - split; [done|]. unfold setCacheWithNotFound. cbn. destruct (cmd_GET t key r); [done|]. apply coherent_set; [done|]. by rewrite Ed.
Qed.

Lemma take_coherent around t t' key db r st : json_ok -> t <= t' -> map_Forall (fun _ v => is_Some (marshal v)) db -> coherent t r db ->
  let '(res, _, r', _) := doTake marshal unmarshal opts around no_io t t' key (query_of db key) r st in
  res = answer (db !! key) /\ coherent t' r' db.
Proof.
  intros Hj Ht Hm H. pose proof (coherent_later t t' r db Ht H) as H'. unfold doTake, doGetCache. cbn [io_get no_io]. rewrite rds_get_live.
  pose proof (H key) as Hk. destruct (live t r key) as [[[s|n|b] d]|]; cbn in Hk; try done; [|by apply miss_coherent].
  unfold says in Hk. destruct (String.eqb_spec s "") as [->|Hne]; [cbn in Hk; naive_solver|].
  destruct (String.eqb s notFoundPlaceholder) eqn:Ep; [by rewrite Hk|].
  destruct Hk as (_ & v & Hdb & Hu). unfold processCache, finish. rewrite Hu. cbn. destruct (Hm key v Hdb) as [s' ->]. by rewrite Hdb.
Qed.

(** Clients one after the other: a read through the cache, or a write to the database followed
    by a deletion. *)
Inductive client_op := CTake (t t' : Z) (key : string) (around : Z -> Z) | CWrite (t : Z) (key : string) (v : option V).

Fixpoint client_run (ops : list client_op) (r : R) (db : gmap string V) (st : Stat) : list (cache_error + V) * list (cache_error + V) :=
  match ops with
  | [] => ([], [])
  | CTake t t' key around :: ops =>
      let '(res, _, r, st) := doTake marshal unmarshal opts around no_io t t' key (query_of db key) r st in
      let '(l1, l2) := client_run ops r db st in (res :: l1, answer (db !! key) :: l2)
  | CWrite t key v :: ops => client_run ops (DelCtx no_io t [key] r).2 (partial_alter (fun _ => v) key db) st
  end.

Fixpoint ops_ordered (t : Z) (ops : list client_op) : Prop :=
  match ops with
  | [] => True
  | CTake t1 t2 _ _ :: ops => t <= t1 <= t2 /\ ops_ordered t2 ops
  | CWrite t1 _ v :: ops => t <= t1 /\ (forall x, v = Some x -> is_Some (marshal x)) /\ ops_ordered t1 ops
  end.

(** C10: Reads through the cache are reads of the database: clients that one after the other take
    values through the cache, or write to the database and then delete the key, get from every
    take what the database has at that moment, found or not, whatever has expired meanwhile. *)
Theorem cache_reads_database ops : forall t r db st, json_ok -> ops_ordered t ops -> map_Forall (fun _ v => is_Some (marshal v)) db -> coherent t r db ->
  (client_run ops r db st).1 = (client_run ops r db st).2.
Proof.
  induction ops as [|[t1 t2 key around|t1 key v] ops IH]; intros t r db st Hj Ho Hm H; [done| |]; cbn [client_run ops_ordered] in *.
  - destruct Ho as [Ht Ho]. pose proof (take_coherent around t1 t2 key db r st Hj ltac:(lia) Hm (coherent_later _ _ _ _ (proj1 Ht) H)) as Hs.
    destruct (doTake _ _ _ _ _ _ _ _ _ r st) as [[[res q] r1] st1]. destruct Hs as [-> H1]. specialize (IH t2 r1 db st1 Hj Ho Hm H1).
    destruct (client_run ops r1 db st1) as [l1 l2]. cbn in *. by rewrite IH.
  - destruct Ho as (Ht & Hv & Ho). apply (IH t1); [done|done| |].
    + intros k x Hk. destruct (decide (key = k)) as [->|]; [rewrite lookup_partial_alter_eq in Hk; by apply Hv|].
      rewrite lookup_partial_alter_ne in Hk by done. by eapply Hm.
    + apply coherent_del. by apply (coherent_later t).
Qed.
End coherence.

(** ** Interleaved clients *)

Section stale.
Context {R V : Type} `{!RedisCommands R, !RedisLaws R} (marshal : V -> option string) (unmarshal : string -> option V) (opts : Options).
Context (Hj : json_ok marshal unmarshal).

(** Readers between their steps: the cache had nothing, or the database answered. *)
Inductive reader := RMissed (key : string) | RQueried (key : string) (q : option V).

(** The server, the database and the readers. *)
Record cstate : Type := mkC { c_redis : R; c_db : gmap string V; c_readers : gmap nat reader }.

(** Deletions may be lost, so they are events of their own. *)
Inductive cache_event :=
| EvRead (i : nat) (t : Z) (key : string) | EvQuery (i : nat) (t : Z) | EvStore (i : nat) (t : Z) (around : Z -> Z)
| EvWrite (t : Z) (key : string) (v : option V) | EvDelete (t : Z) (key : string).

Definition event_time (ev : cache_event) : Z := match ev with EvRead _ t _ | EvQuery _ t | EvStore _ t _ | EvWrite t _ _ | EvDelete t _ => t end.

Definition cache_step (ev : cache_event) (c : cstate) : option cstate :=
  match ev with
  | EvRead i t key =>
      let '(x, r, _) := doGetCache unmarshal no_io t key (c_redis c) (mkStat 0 0 0 0) in
      Some (mkC r (c_db c) (match x with NotFound => <[i := RMissed key]> (c_readers c) | _ => c_readers c end))
  | EvQuery i t =>
      match c_readers c !! i with
      | Some (RMissed key) => Some (mkC (c_redis c) (c_db c) (<[i := RQueried key (c_db c !! key)]> (c_readers c)))
      | _ => None
      end
  | EvStore i t around =>
      match c_readers c !! i with
      | Some (RQueried key (Some v)) => Some (mkC (SetCtx marshal opts around no_io t key v (c_redis c)).2 (c_db c) (delete i (c_readers c)))
      | Some (RQueried key None) => Some (mkC (setCacheWithNotFound opts around no_io t key (c_redis c)) (c_db c) (delete i (c_readers c)))
      | _ => None
      end
  | EvWrite t key v => Some (mkC (c_redis c) (partial_alter (fun _ => v) key (c_db c)) (c_readers c))
  | EvDelete t key => Some (mkC (DelCtx no_io t [key] (c_redis c)).2 (c_db c) (c_readers c))
  end.

Fixpoint cache_run (evs : list cache_event) (c : cstate) : option cstate :=
  match evs with [] => Some c | ev :: evs => c ← cache_step ev c; cache_run evs c end.

Lemma cache_run_snoc evs ev c : cache_run (evs ++ [ev]) c = cache_run evs c ≫= cache_step ev.
Proof.
  revert c. induction evs as [|e evs IH]; intros c; cbn; [by destruct (cache_step ev c)|].
  destruct (cache_step e c); cbn; [apply IH|done].
Qed.

(** The longest an entry lives and the longest a reader takes from its query to its store, in
    milliseconds. *)
Context (bound lag : Z).
Definition jitter_ok (ev : cache_event) : Prop :=
  match ev with EvStore _ _ around => ceil_seconds (around (o_Expiry opts)) * 1000 <= bound /\ ceil_seconds (around (o_NotFoundExpiry opts)) * 1000 <= bound | _ => True end.

(** The time of each reader's last query, and that every store comes at most [lag] after it. *)
Definition asked_by (evs : list cache_event) : gmap nat Z :=
  foldl (fun m ev => match ev with EvQuery i t => <[i := t]> m | _ => m end) ∅ evs.
Fixpoint prompt (asked : gmap nat Z) (evs : list cache_event) : bool :=
  match evs with
  | [] => true
  | EvQuery i t :: evs => prompt (<[i := t]> asked) evs
  | EvStore i t _ :: evs => match asked !! i with Some tq => t <=? tq + lag | None => false end && prompt asked evs
  | _ :: evs => prompt asked evs
  end.

(** A query of the run, made at [tq], found that the database had [x] under [k]. *)
Definition answered (c0 : cstate) (evs : list cache_event) (tq : Z) (k : string) (x : option V) : Prop :=
  exists pre i post cq, evs = pre ++ EvQuery i tq :: post /\ cache_run pre c0 = Some cq /\
    c_readers cq !! i = Some (RMissed k) /\ c_db cq !! k = x.

Lemma answered_snoc c0 evs ev tq k x : answered c0 evs tq k x -> answered c0 (evs ++ [ev]) tq k x.
Proof. intros (pre & i & post & cq & -> & H). exists pre, i, (post ++ [ev]), cq. by rewrite <- app_assoc. Qed.

(** The text [s] that lives until [d] is an answer the database gave less than [lag + bound]
    before [d]. *)
Definition stale_entry (c0 : cstate) (t : Z) (evs : list cache_event) (k : string) (e : rentry) : Prop :=
  exists s d tq x, e = (RString s, Some d) /\ d <= tq + lag + bound /\ answered c0 evs tq k x /\ says unmarshal s x /\ tq <= t.

Definition stale_inv (c0 : cstate) (t : Z) (evs : list cache_event) (c : cstate) : Prop :=
  (forall k e, live t (c_redis c) k = Some e -> stale_entry c0 t evs k e) /\
  (forall i k q, c_readers c !! i = Some (RQueried k q) -> exists tq, asked_by evs !! i = Some tq /\ answered c0 evs tq k q /\ tq <= t).

Lemma stale_entry_later c0 t t' evs ev k e : t <= t' -> stale_entry c0 t evs k e -> stale_entry c0 t' (evs ++ [ev]) k e.
Proof. intros Ht (s & d & tq & x & ? & ? & ? & ? & ?). exists s, d, tq, x. split_and!; [done|lia|by apply answered_snoc|done|lia]. Qed.

Lemma live_earlier t t' (r : R) k e : t <= t' -> live t' r k = Some e -> live t r k = Some e.
Proof.
  intros Ht He. rewrite (live_later t t' _ k Ht) in He. apply bind_Some in He as (e0 & He0 & Ha).
  unfold alive in Ha. destruct (e0.2); [destruct (t' <? z)|]; by simplify_eq.
Qed.

(** A store puts the answer of its reader's query in the cache. *)
Lemma stale_set c0 t evs c k s ms tq x : (forall k e, live t (c_redis c) k = Some e -> stale_entry c0 t evs k e) ->
  answered c0 evs tq k x -> says unmarshal s x -> tq <= t <= tq + lag -> ms <= bound ->
  forall k' e, live t (cmd_SET t k (RString s) (Some ms) (c_redis c)) k' = Some e -> stale_entry c0 t evs k' e.
Proof.
  intros H1 Hs Hx Ht Hb k' e. rewrite live_SET by lia. case_decide as E; [subst|apply H1].
  unfold alive. cbn. destruct (t <? t + ms); [|done]. intros [= <-]. exists s, (t + ms), tq, x. split_and!; [done|lia|done|done|lia].
Qed.

(** The event's own effect on the entries and on the readers. *)
Lemma stale_redis c0 evs ev c c' :
  jitter_ok ev -> prompt (asked_by evs) [ev] -> stale_inv c0 (event_time ev) evs c -> cache_step ev c = Some c' ->
  forall k e, live (event_time ev) (c_redis c') k = Some e -> stale_entry c0 (event_time ev) evs k e.
Proof.
  intros Hb Hp [H1 H2] Hs. assert (Hdel : forall t k, t = event_time ev -> forall k' e, live t (cmd_DEL t k (c_redis c)) k' = Some e -> live t (c_redis c) k' = Some e).
  { intros t k _ k' e. rewrite live_DEL by lia. by case_decide. }
  destruct ev as [i t key|i t|i t around|t key v|t key]; cbn [event_time cache_step jitter_ok] in *.
  - unfold doGetCache in Hs. cbn in Hs. destruct (String.eqb _ ""); [injection Hs as <-; done|]. destruct (String.eqb _ _); [injection Hs as <-; done|].
    unfold processCache in Hs. destruct (unmarshal _); cbn in Hs; injection Hs as <-; [done|]. cbn. intros k e He. by eapply H1, Hdel.
  - destruct (c_readers c !! i) as [[key|]|] eqn:E; try done. by injection Hs as <-.
  - destruct (c_readers c !! i) as [[|key q]|] eqn:E; try done. destruct (H2 _ _ _ E) as (tq & Ha & Hq & Htq).
    cbn in Hp. rewrite Ha in Hp. assert (Ht : tq <= t <= tq + lag) by (destruct (Z.leb_spec t (tq + lag)); [lia|done]).
    destruct q as [v|]; injection Hs as <-; cbn; unfold SetCtx, SetWithExpireCtx, setCacheWithNotFound; cbn.
    + destruct (marshal v) as [s|] eqn:Es; cbn; [|exact H1]. destruct (Hj v s Es) as (Hu & Hne & Hnp).
      eapply stale_set; [done|done| |done|apply Hb]. unfold says. destruct (String.eqb_spec s notFoundPlaceholder); [done|]. eauto.
    + destruct (cmd_GET t key (c_redis c)); [exact H1|]. by eapply stale_set; [done|done| |done|apply Hb].
  - by injection Hs as <-.
  - injection Hs as <-. cbn. intros k e He. by eapply H1, (Hdel t key).
Qed.

Lemma asked_by_snoc evs ev : asked_by (evs ++ [ev]) = match ev with EvQuery i t => <[i := t]> (asked_by evs) | _ => asked_by evs end.
Proof. unfold asked_by. by rewrite foldl_app. Qed.

Lemma stale_readers c0 evs ev c c' : cache_run evs c0 = Some c -> stale_inv c0 (event_time ev) evs c -> cache_step ev c = Some c' ->
  forall i k q, c_readers c' !! i = Some (RQueried k q) -> exists tq, asked_by (evs ++ [ev]) !! i = Some tq /\ answered c0 (evs ++ [ev]) tq k q /\ tq <= event_time ev.
Proof.
  intros Hrun [_ H2] Hs i k q Hi. rewrite asked_by_snoc.
  assert (Hold : c_readers c !! i = Some (RQueried k q) -> exists tq, asked_by evs !! i = Some tq /\ answered c0 (evs ++ [ev]) tq k q /\ tq <= event_time ev).
  { intros Hc. destruct (H2 i k q Hc) as (tq & ? & ? & ?). exists tq. split_and!; [done|by apply answered_snoc|done]. }
  destruct ev as [j t key|j t|j t around|t key v|t key]; cbn [event_time cache_step] in *.
  - apply Hold. destruct (doGetCache _ _ _ _ _ _) as [[x r] st]. injection Hs as <-. cbn in Hi.
    destruct x; try done. apply lookup_insert_Some in Hi. naive_solver.
  - destruct (c_readers c !! j) as [[key|]|] eqn:E; try done. injection Hs as <-. cbn in Hi.
    apply lookup_insert_Some in Hi as [[-> [= <- <-]]|[Hne Hi]]; [|rewrite lookup_insert_ne by done; by apply Hold].
    exists t. rewrite lookup_insert. case_decide; [|done]. split_and!; [done| |lia]. exists evs, i, [], c. done.
  - apply Hold. destruct (c_readers c !! j) as [[|? [v|]]|]; try done; injection Hs as <-; cbn in Hi; by apply lookup_delete_Some in Hi as [_ Hi].
  - apply Hold. by injection Hs as <-.
  - apply Hold. by injection Hs as <-.
Qed.

Lemma prompt_app asked evs evs' : prompt asked (evs ++ evs') -> prompt asked evs /\
  prompt (foldl (fun m ev => match ev with EvQuery i t => <[i := t]> m | _ => m end) asked evs) evs'.
Proof.
  revert asked. induction evs as [|ev evs IH]; intros asked H; [by split|].
  destruct ev; cbn in *; try by apply IH. apply andb_prop_elim in H as [H1 H2]. apply IH in H2 as [? ?].
  split; [apply andb_prop_intro; by split|done].
Qed.

Lemma ordered_snoc t l x : ordered_from t (l ++ [x]) -> ordered_from t l /\ forall y, y ∈ t :: l -> y <= x.
Proof.
  revert t. induction l as [|z l IH]; intros t; cbn.
  - intros [? _]. split; [done|]. intros y. rewrite list_elem_of_singleton. by intros ->.
  - intros [? H]. destruct (IH z H) as [? Hx]. split; [done|]. intros y. rewrite elem_of_cons. intros [->|Hy]; [|by apply Hx].
    specialize (Hx z ltac:(set_solver)). lia.
Qed.

Lemma stale_run evs : forall t0 c c', ordered_from t0 (event_time <$> evs) -> Forall jitter_ok evs -> prompt ∅ evs ->
  (forall k, live t0 (c_redis c) k = None) -> c_readers c = ∅ -> cache_run evs c = Some c' ->
  forall t, (forall x, x ∈ t0 :: (event_time <$> evs) -> x <= t) -> stale_inv c t evs c'.
Proof.
  induction evs as [|ev evs IH] using rev_ind; intros t0 c c' Ho Hb Hp Hl Hre Hr t Ht.
  { cbn in Hr. simplify_eq. split; [|intros i k q; by rewrite Hre, lookup_empty].
    intros k e He. apply (live_earlier t0) in He; [by rewrite Hl in He|apply Ht; set_solver]. }
  rewrite cache_run_snoc in Hr. apply bind_Some in Hr as (c1 & Hr & Hs). rewrite fmap_app in Ho. apply ordered_snoc in Ho as [Ho Hev].
  apply Forall_app in Hb as [Hb Hb1]. apply Forall_cons_1 in Hb1 as [Hb1 _]. apply prompt_app in Hp as [Hp Hp1].
  assert (Hi : stale_inv c (event_time ev) evs c1) by (eapply IH; eauto).
  assert (Hle : event_time ev <= t) by (apply Ht; rewrite fmap_app; set_solver). split.
  - intros k e He. apply (stale_entry_later c (event_time ev)); [done|]. apply (stale_redis c evs ev c1 c' Hb1 Hp1 Hi Hs). by apply (live_earlier _ t).
  - intros i k q Hq. destruct (stale_readers c evs ev c1 c' Hr Hi Hs i k q Hq) as (tq & ? & ? & ?). exists tq. split_and!; [done|done|lia].
Qed.

(** C11: Bounded staleness: with readers and writers interleaved in any way and deletions lost,
    what a read finds in the cache at [t], a value or the absence of one, is what the database
    had under the key at a query of the run, made at [tq], and [t] is less than [lag + bound]
    after [tq]: [bound] is the longest expiry of the run's stores, [lag] the longest a reader
    of the run took from its query to its store.  The cache is empty at the start, no command
    fails, and values that are marshalled are read back. *)
Theorem cache_staleness_bounded evs t0 c c' t key st :
  ordered_from t0 (event_time <$> evs) -> Forall jitter_ok evs -> prompt ∅ evs ->
  (forall k, live t0 (c_redis c) k = None) -> c_readers c = ∅ -> cache_run evs c = Some c' ->
  (forall x, x ∈ t0 :: (event_time <$> evs) -> x <= t) ->
  match (doGetCache unmarshal no_io t key (c_redis c') st).1.1 with
  | Hit v => exists tq, answered c evs tq key (Some v) /\ tq <= t < tq + lag + bound
  | Placeholder => exists tq, answered c evs tq key None /\ tq <= t < tq + lag + bound
  | NotFound => live t (c_redis c') key = None
  | RedisErr => False
  end.
Proof.
  intros Ho Hb Hp Hl Hre Hr Ht. destruct (stale_run evs t0 c c' Ho Hb Hp Hl Hre Hr t Ht) as [H _]. unfold doGetCache. cbn [io_get no_io]. rewrite rds_get_live.
  destruct (live t (c_redis c') key) as [e|] eqn:E; [|done]. destruct (H key e E) as (s & d & tq & x & -> & Hd & Ha & Hx & Htq).
  cbn [fst snd]. assert (Hlt : t < d).
  { pose proof (live_later t t (c_redis c') key ltac:(lia)) as Hl'. rewrite E in Hl'. cbn in Hl'. unfold alive in Hl'. cbn in Hl'. destruct (t <? d) eqn:?; [lia|done]. }
  unfold says in Hx. destruct (String.eqb_spec s "") as [->|Hne]; [cbn in Hx; naive_solver|].
  destruct (String.eqb s notFoundPlaceholder) eqn:Ep; [subst x; cbn; rewrite ?Ep; exists tq; split; [done|lia]|].
  destruct Hx as (_ & w & -> & Hu). cbn. unfold processCache. rewrite ?Ep, Hu. cbn. exists tq. split; [done|lia].
Qed.
End stale.

(** ** A cluster of nodes (cache.go) *)

Section cluster.
Context {R V N : Type} `{!RedisCommands R, !RedisLaws R, EqDecision N} (owner : string -> option N).

(** The servers of the nodes. *)
Notation servers := (N -> R).
Definition on (n : N) (f : R -> R) (s : servers) : servers := fun n' => if decide (n = n') then f (s n') else s n'.

(** [nodes[c] = append(nodes[c], key)]: the groups in the order of their first key, one of the
    orders in which Go may iterate. *)
Fixpoint add_to (n : N) (key : string) (groups : list (N * list string)) : list (N * list string) :=
  match groups with
  | [] => [(n, [key])]
  | (n', ks) :: groups => if decide (n = n') then (n', ks ++ [key]) :: groups else (n', ks) :: add_to n key groups
  end.

Definition group_keys (keys : list string) : list (N * list string) :=
  foldl (fun g k => match owner k with Some n => add_to n k g | None => g end) [] keys.

(** The new servers, and whether there is no error; [order] is the iteration. *)
Definition cluster_DelCtx (order : list (N * list string) -> list (N * list string)) (t : Z) (keys : list string) (s : servers) : servers * bool :=
  match keys with
  | [] => (s, true)
  | [key] => match owner key with None => (s, false) | Some n => (on n (fun r => (DelCtx no_io t [key] r).2) s, true) end
  | _ => (foldl (fun s g => on g.1 (fun r => (DelCtx no_io t g.2 r).2) s) s (order (group_keys keys)), forallb (fun k => if owner k then true else false) keys)
  end.

Definition cluster_GetCtx (unmarshal : string -> option V) (t : Z) (key : string) (s : servers) (st : Stat) : (cache_error + V) * Stat :=
  match owner key with
  | None => (inl ErrNotFound, st)
  | Some n => let '(res, _, st) := GetCtx unmarshal no_io t key (s n) st in (res, st)
  end.

Definition cluster_SetCtx (marshal : V -> option string) (opts : Options) (around : Z -> Z) (t : Z) (key : string) (v : V) (s : servers) : servers :=
  match owner key with None => s | Some n => on n (fun r => (SetCtx marshal opts around no_io t key v r).2) s end.

(** What the cluster has under a key. *)
Definition cluster_live (t : Z) (s : servers) (key : string) : option rentry := n ← owner key; live t (s n) key.

Lemma del_keys_live t t' ks : t <= t' -> forall (r : R) k, live t' (foldl (fun r k => cmd_DEL t k r) r ks) k = if decide (k ∈ ks) then None else live t' r k.
Proof.
  intros Ht. induction ks as [|k0 ks IH]; intros r k; cbn; [by rewrite decide_False by apply not_elem_of_nil|]. rewrite IH, live_DEL by done.
  destruct (decide (k ∈ ks)); [by rewrite decide_True by set_solver|]. destruct (decide (k0 = k)) as [->|]; [by rewrite decide_True by set_solver|].
  by rewrite decide_False by set_solver.
Qed.

Lemma DelCtx_live t t' ks (r : R) k : t <= t' -> live t' (DelCtx no_io t ks r).2 k = if decide (k ∈ ks) then None else live t' r k.
Proof. intros Ht. destruct ks as [|k0 ks]; [cbn; by rewrite decide_False by apply not_elem_of_nil|]. unfold DelCtx. cbn [io_del no_io snd]. by apply del_keys_live. Qed.

Lemma add_to_mem n key g n' k : (exists ks, (n', ks) ∈ add_to n key g /\ k ∈ ks) <-> (n' = n /\ k = key) \/ exists ks, (n', ks) ∈ g /\ k ∈ ks.
Proof.
  induction g as [|[m ks0] g IH]; cbn.
  - split; [intros (ks & [= -> ->]%list_elem_of_singleton & ->%list_elem_of_singleton); by left|].
    intros [[-> ->]|(ks & []%elem_of_nil & _)]. exists [key]. set_solver.
  - case_decide as E; [subst m|].
    + split.
      * intros (ks & [[= -> ->]|Hi]%elem_of_cons & Hk); [|right; exists ks; set_solver].
        apply elem_of_app in Hk as [Hk| ->%list_elem_of_singleton]; [right; exists ks0; set_solver|by left].
      * intros [[-> ->]|(ks & [[= -> ->]|Hi]%elem_of_cons & Hk)]; [exists (ks0 ++ [key]); set_solver|exists (ks0 ++ [key]); set_solver|exists ks; set_solver].
    + split.
      * intros (ks & [[= -> ->]|Hi]%elem_of_cons & Hk); [right; exists ks0; set_solver|].
        destruct (proj1 IH (ex_intro _ ks (conj Hi Hk))) as [?|(ks' & ? & ?)]; [by left|right; exists ks'; set_solver].
      * intros [Hn|(ks & [[= -> ->]|Hi]%elem_of_cons & Hk)]; [|exists ks0; set_solver|].
        -- destruct (proj2 IH (or_introl Hn)) as (ks & ? & ?). exists ks. set_solver.
        -- destruct (proj2 IH (or_intror (ex_intro _ ks (conj Hi Hk)))) as (ks' & ? & ?). exists ks'. set_solver.
Qed.

Lemma group_keys_mem keys n k : (exists ks, (n, ks) ∈ group_keys keys /\ k ∈ ks) <-> k ∈ keys /\ owner k = Some n.
Proof.
  unfold group_keys. assert (H : forall g, (exists ks, (n, ks) ∈ foldl (fun g k => match owner k with Some n => add_to n k g | None => g end) g keys /\ k ∈ ks) <->
    (k ∈ keys /\ owner k = Some n) \/ exists ks, (n, ks) ∈ g /\ k ∈ ks).
  { induction keys as [|k0 keys IH]; intros g; cbn; [set_solver|]. rewrite IH. destruct (owner k0) as [n0|] eqn:E.
    - rewrite add_to_mem, elem_of_cons. naive_solver.
    - rewrite elem_of_cons. naive_solver. }
  rewrite H. split; [intros [?|(ks & []%elem_of_nil & _)]; done|by left].
Qed.

Definition in_groups (groups : list (N * list string)) (n : N) (k : string) : bool := existsb (fun g => bool_decide (g.1 = n) && bool_decide (k ∈ g.2)) groups.

Lemma in_groups_spec groups n k : in_groups groups n k = true <-> exists ks, (n, ks) ∈ groups /\ k ∈ ks.
Proof.
  unfold in_groups. rewrite existsb_exists. setoid_rewrite <- list_elem_of_In. setoid_rewrite andb_true_iff. setoid_rewrite bool_decide_eq_true. split.
  - intros ([n' ks] & Hi & <- & Hk). eauto.
  - intros (ks & Hi & Hk). by exists (n, ks).
Qed.

Lemma groups_fold_live t t' groups : t <= t' -> forall (s : servers) n k,
  live t' (foldl (fun s g => on g.1 (fun r => (DelCtx no_io t g.2 r).2) s) s groups n) k = if in_groups groups n k then None else live t' (s n) k.
Proof.
  intros Ht. induction groups as [|[m ks] groups IH]; intros s n k; cbn [foldl]; [done|]. rewrite IH. unfold in_groups. cbn [existsb fst snd].
  destruct (existsb _ groups); [by rewrite orb_true_r|]. rewrite orb_false_r. unfold on. case_decide as E.
  - subst m. rewrite DelCtx_live by done. rewrite bool_decide_true by done. cbn. case_decide; case_bool_decide; done.
  - by rewrite bool_decide_false.
Qed.

(** A cluster behaves as one server: deleting keys, grouped by the node that owns each and in
    whatever order the groups come, removes exactly those keys; setting a key changes that key
    only; and what a read finds is what its owner has. *)
Theorem cluster_is_one_server order t t' keys (s : servers) :
  (forall g, order g ≡ₚ g) -> t <= t' -> (forall k, is_Some (owner k)) ->
  (forall k, cluster_live t' (cluster_DelCtx order t keys s).1 k = if decide (k ∈ keys) then None else cluster_live t' s k) /\
  (cluster_DelCtx order t keys s).2 = true /\
  (forall marshal opts around key v data k, marshal v = Some data ->
     cluster_live t' (cluster_SetCtx marshal opts around t key v s) k =
     if decide (key = k) then alive t' (RString data, Some (t + ceil_seconds (around (o_Expiry opts)) * 1000)) else cluster_live t' s k) /\
  forall unmarshal key st, exists n, owner key = Some n /\
    cluster_GetCtx unmarshal t key s st = ((GetCtx unmarshal no_io t key (s n) st).1.1, (GetCtx unmarshal no_io t key (s n) st).2).
Proof.
  intros Hord Ht Hown. split_and!.
  - intros k. destruct (Hown k) as [n Hn]. unfold cluster_live. rewrite Hn. cbn. unfold cluster_DelCtx.
    destruct keys as [|k1 [|k2 keys]]; [done| |].
    + destruct (Hown k1) as [n1 Hn1]. rewrite Hn1. cbn [fst]. unfold on. case_decide as E.
      * subst n1. rewrite DelCtx_live by done. destruct (decide (k ∈ [k1])); done.
      * rewrite decide_False; [done|]. intros ->%list_elem_of_singleton. congruence.
    + cbn [fst]. rewrite groups_fold_live by done. destruct (in_groups _ n k) eqn:E.
      * apply in_groups_spec in E as (ks & Hi & Hk). rewrite Hord in Hi. destruct (proj1 (group_keys_mem (k1 :: k2 :: keys) n k) ltac:(eauto)) as [Hi' _].
        by rewrite decide_True.
      * case_decide as Hi; [|done]. destruct (proj2 (group_keys_mem (k1 :: k2 :: keys) n k) (conj Hi Hn)) as (ks & Hg & Hk).
        assert (X : in_groups (order (group_keys (k1 :: k2 :: keys))) n k = true); [|congruence].
        apply in_groups_spec. exists ks. by rewrite Hord.
  - unfold cluster_DelCtx. destruct keys as [|k1 [|k2 keys]]; [done| |].
    + destruct (Hown k1) as [n1 ->]. done.
    + cbn [snd]. apply forallb_forall. intros k _. by destruct (Hown k) as [n ->].
  - intros marshal opts around key v data k Hm. unfold cluster_SetCtx, cluster_live. destruct (Hown key) as [n Hn], (Hown k) as [m Hk]. rewrite Hn, Hk. cbn.
    unfold on. destruct (decide (n = m)) as [->|Hne].
    + unfold SetCtx, SetWithExpireCtx. rewrite Hm. cbn. rewrite live_SET by done. done.
    + rewrite decide_False; [done|]. intros ->. congruence.
  - intros unmarshal key st. destruct (Hown key) as [n Hn]. exists n. split; [done|]. unfold cluster_GetCtx. rewrite Hn. by destruct (GetCtx _ _ _ _ _ _) as [[]].
Qed.
End cluster.

(** Hits and misses add up to the reads, however they end. *)
Theorem stats_add_up {R V} `{!RedisCommands R} (marshal : V -> option string) unmarshal opts around io t t' key q (r : R) st :
  let '(res, _, _, st') := doTake marshal unmarshal opts around io t t' key q r st in
  st_Total st' - st_Hit st' - st_Miss st' = st_Total st - st_Hit st - st_Miss st /\
  let st2 := (joinTake marshal unmarshal res st').2 in st_Total st2 - st_Hit st2 - st_Miss st2 = st_Total st - st_Hit st - st_Miss st.
Proof.
  unfold doTake, doGetCache, take_miss, finish, processCache. repeat case_match; simplify_eq; cbn; unfold joinTake; repeat case_match; simplify_eq; cbn; lia.
Qed.

(** ** Witnesses, and a stale value *)

Definition bool_json (b : bool) : option string := Some (if b then "true" else "false").
Definition bool_unjson (s : string) : option bool := if String.eqb s "true" then Some true else if String.eqb s "false" then Some false else None.
Lemma bool_json_ok : json_ok bool_json bool_unjson.
Proof. intros [] s [= <-]; done. Qed.

Definition demo_opts : Options := newOptions (mkOptions (10 * 10^9) (5 * 10^9)).
Definition same (d : Z) : Z := d.

Lemma cache_reads_database_witness :
  let ops := [CWrite 0 "k" (Some true); CTake 1 2 "k" same; CWrite 3 "k" None; CTake 4 5 "k" same; CTake 6 7 "k" same] in
  (client_run bool_json bool_unjson demo_opts ops (∅ : redis_map) ∅ (mkStat 0 0 0 0)).1 = [inr true; inl ErrNotFound; inl ErrNotFound].
Proof.
  intros ops. etrans; [eapply (cache_reads_database (R := redis_map) bool_json bool_unjson demo_opts ops 0 ∅ ∅ (mkStat 0 0 0 0) bool_json_ok)|vm_compute; reflexivity].
  - cbn. split_and!; try lia; naive_solver.
  - apply map_Forall_empty.
  - intros k. cbn. unfold map_live. by rewrite lookup_empty.
Defined.

(** A reader that queried before a write and stores after the deletion. *)
Definition demo_race : list (cache_event (V := bool)) :=
  [EvRead 0 0 "k"; EvQuery 0 1; EvWrite 2 "k" (Some false); EvDelete 3 "k"; EvStore 0 4 same].
Definition demo_cstate : cstate (R := redis_map) (V := bool) := mkC ∅ {["k" := true]} ∅.

Definition demo_stale : cstate (R := redis_map) (V := bool) := default demo_cstate (cache_run bool_json bool_unjson demo_opts demo_race demo_cstate).

Lemma cache_staleness_bounded_witness :
  exists tq, answered bool_json bool_unjson demo_opts demo_cstate demo_race tq "k" (Some true) /\ tq <= 10003 < tq + 3 + 10000.
Proof.
  pose proof (cache_staleness_bounded (R := redis_map) bool_json bool_unjson demo_opts bool_json_ok 10000 3 demo_race 0 demo_cstate demo_stale 10003 "k" (mkStat 0 0 0 0)) as H.
  assert (E : (doGetCache bool_unjson no_io 10003 "k" (c_redis demo_stale) (mkStat 0 0 0 0)).1.1 = Hit true) by (vm_compute; reflexivity).
  rewrite E in H. apply H.
  - cbn. lia.
  - repeat constructor; vm_compute; done.
  - vm_compute. exact I.
  - intros k. cbn. unfold map_live. by rewrite lookup_empty.
  - reflexivity.
  - vm_compute. reflexivity.
  - cbn. intros x. rewrite !elem_of_cons, elem_of_nil. lia.
Defined.

(** The bound is met: a write and its deletion can come between a reader's query and its
    store, after which the cache has the old value until it expires. *)
Theorem cache_race_leaves_stale_value : exists c', cache_run bool_json bool_unjson demo_opts demo_race demo_cstate = Some c' /\
  c_db c' !! "k" = Some false /\ (GetCtx bool_unjson no_io 10003 "k" (c_redis c') (mkStat 0 0 0 0)).1.1 = inr true.
Proof. eexists. split; [vm_compute; reflexivity|]. split; vm_compute; reflexivity. Qed.

Definition demo_owner (k : string) : option bool := Some (String.eqb k "a").

Lemma cluster_is_one_server_witness :
  let s0 : bool -> redis_map := fun _ => {["a" := (RString "1", None); "b" := (RString "2", None); "c" := (RString "3", None)]} in
  cluster_live demo_owner 5 (cluster_DelCtx demo_owner (fun g => reverse g) 5 ["a"; "b"] s0).1 "b" = None /\
  cluster_live demo_owner 5 (cluster_DelCtx demo_owner (fun g => reverse g) 5 ["a"; "b"] s0).1 "c" = Some (RString "3", None).
Proof.
  intros s0. destruct (cluster_is_one_server (V := bool) demo_owner (fun g => reverse g) 5 5 ["a"; "b"] s0) as [H _].
  - intros g. apply reverse_Permutation.
  - lia.
  - intros k. by eexists.
  - rewrite !H. split; vm_compute; reflexivity.
Defined.
