(* ===== verification/CachedCrud.v ===== *)
(** * Cached CRUD providers (runtime/service.go: [CachedCRUD], [MySQLCachedCRUD], [cachedCRUD],
    [mysqlCachedCRUD])

    A row is looked up in a cache in memory (L1), then through a [cacheNode] of Redis (L2),
    then in the table.  The table is a map from ids to rows; L1 is a map that may drop an
    entry at any time, which is what the cache of [Cache] promises; L2 is [CacheNode]. *)

From S2P Require Import Prelude RedisScripts CacheNode.
From Stdlib Require Import Ascii.

#[local] Open Scope Z_scope.

Section cached.
Context {R V : Type} `{!RedisCommands R} (marshal : V -> option string) (unmarshal : string -> option V) (opts : Options).

(** The primary key of a row. *)
Context (ID : V -> string).

(** What L1 holds: rows, and the bytes [warmCache] puts there. *)
Inductive l1_value := L1Row (v : V) | L1Bytes (data : string).

Inductive crud_reply := Row (status : Z) (v : V) | Bytes (data : string) | Status (code : Z) | NilPointer.

(** [cc_l1] is [None] without an L1 ([l1TTL] zero), [cc_l2] whether there is an L2 ([kvName]). *)
Record cachedCRUD : Type := mkCached { cc_table : gmap string V; cc_l2 : bool; cc_redis : R; cc_l1 : option (gmap string l1_value); cc_stat : Stat }.

Section prefix.
Context (keyPrefix : string).
Notation key id := (keyPrefix +:+ id)%string.

(** An error of the table's query, if any; [around] is the jitter of this call. *)
Definition Get (io : io_faults) (around : Z -> Z) (table_fails : bool) (t t' : Z) (id : string) (c : cachedCRUD) : crud_reply * cachedCRUD :=
  match l1 ← cc_l1 c; l1 !! key id with
  | Some (L1Row v) => (Row 200 v, c)
  | Some (L1Bytes data) => (Bytes data, c)
  | None =>
      if negb (cc_l2 c) then (NilPointer, c)
      else
        let query := if table_fails then QueryErr else query_of (cc_table c) id in
        let '(res, _, r, st) := doTake marshal unmarshal opts around io t t' (key id) query (cc_redis c) (cc_stat c) in
        match res with
        | inl ErrNotFound => (Status 404, mkCached (cc_table c) (cc_l2 c) r (cc_l1 c) st)
        | inl _ => (Status 500, mkCached (cc_table c) (cc_l2 c) r (cc_l1 c) st)
        | inr v => (Row 200 v, mkCached (cc_table c) (cc_l2 c) r ((<[key id := L1Row v]> : gmap string l1_value -> _) <$> cc_l1 c) st)
        end
  end.

Definition List (c : cachedCRUD) : crud_reply * cachedCRUD := (Status 405, c).

(** The rows the warm-up read. *)
Definition warmCache (items : list V) (c : cachedCRUD) : cachedCRUD :=
  match cc_l1 c with
  | None => c
  | Some l1 =>
      mkCached (cc_table c) (cc_l2 c) (cc_redis c)
        (Some (foldl (fun l1 item => if (ID item =? "")%string then l1 else <[ID item := L1Bytes (default "" (marshal item))]> l1) l1 items)) (cc_stat c)
  end.

Definition delCache (io : io_faults) (t : Z) (keys : list string) (c : cachedCRUD) : cachedCRUD :=
  foldl (fun c k =>
    mkCached (cc_table c) (cc_l2 c) (if cc_l2 c then (DelCtx io t [key k] (cc_redis c)).2 else cc_redis c) (delete (key k) <$> cc_l1 c) (cc_stat c)) c keys.

(** The decoded body is [None] when it is no JSON; a row with the key of another is refused. *)
Definition Create (body : option V) (c : cachedCRUD) : crud_reply * cachedCRUD :=
  match body with
  | None => (Status 400, c)
  | Some v =>
      match cc_table c !! ID v with
      | Some _ => (Status 500, c)
      | None => (Row 201 v, mkCached (<[ID v := v]> (cc_table c)) (cc_l2 c) (cc_redis c) (cc_l1 c) (cc_stat c))
      end
  end.

(** [patch] is what the table makes of a row, [None] an error of the statement. *)
Definition Update (io : io_faults) (t : Z) (id : string) (body : option (V -> option V)) (c : cachedCRUD) : crud_reply * cachedCRUD :=
  match body with
  | None => (Status 400, c)
  | Some patch =>
      match cc_table c !! id with
      | None => (Status 404, c)
      | Some v =>
          match patch v with
          | None => (Status 500, c)
          | Some v' => (Row 200 v', delCache io t [id] (mkCached (<[id := v']> (cc_table c)) (cc_l2 c) (cc_redis c) (cc_l1 c) (cc_stat c)))
          end
      end
  end.

Definition Delete (io : io_faults) (t : Z) (id : string) (c : cachedCRUD) : crud_reply * cachedCRUD :=
  match cc_table c !! id with
  | None => (Status 404, c)
  | Some _ => (Status 204, delCache io t [id] (mkCached (delete id (cc_table c)) (cc_l2 c) (cc_redis c) (cc_l1 c) (cc_stat c)))
  end.

(** [mysqlCachedCRUD]: the same operations, its cache entries deleted in place. *)
Definition mysql_cached_Get := Get.
Definition mysql_cached_List := List.
Definition mysql_cached_Create := Create.
Definition mysql_cached_Update := Update.
Definition mysql_cached_Delete := Delete.
End prefix.
End cached.
Arguments l1_value V : clear implicits.
Arguments crud_reply V : clear implicits.
Arguments cachedCRUD R V : clear implicits.

(** ** Coherence *)

Section coherence.
Context {R V : Type} `{!RedisCommands R, !RedisLaws R} (marshal : V -> option string) (unmarshal : string -> option V) (opts : Options) (ID : V -> string) (keyPrefix : string).
Notation key := (String.app keyPrefix).

(** Requests of one process, one after the other, and evictions from L1. *)
Inductive request_ :=
| QGet (t t' : Z) (id : string) (around : Z -> Z)
| QUpdate (t : Z) (id : string) (body : option (V -> option V))
| QDelete (t : Z) (id : string)
| QEvict (k : string).

Definition serve (q : request_) (c : cachedCRUD R V) : crud_reply V * cachedCRUD R V :=
  match q with
  | QGet t t' id around => Get marshal unmarshal opts keyPrefix no_io around false t t' id c
  | QUpdate t id body => Update keyPrefix no_io t id body c
  | QDelete t id => Delete keyPrefix no_io t id c
  | QEvict k => (Status 0, mkCached (cc_table c) (cc_l2 c) (cc_redis c) (delete k <$> cc_l1 c) (cc_stat c))
  end.

(** What the table alone answers. *)
Definition table_serve (q : request_) (tbl : gmap string V) : crud_reply V * gmap string V :=
  match q with
  | QGet _ _ id _ => (match tbl !! id with Some v => Row 200 v | None => Status 404 end, tbl)
  | QUpdate _ id None => (Status 400, tbl)
  | QUpdate _ id (Some patch) =>
      match tbl !! id with
      | None => (Status 404, tbl)
      | Some v => match patch v with None => (Status 500, tbl) | Some v' => (Row 200 v', <[id := v']> tbl) end
      end
  | QDelete _ id => match tbl !! id with None => (Status 404, tbl) | Some _ => (Status 204, delete id tbl) end
  | QEvict _ => (Status 0, tbl)
  end.

Fixpoint serve_all (qs : list request_) (c : cachedCRUD R V) : list (crud_reply V) :=
  match qs with [] => [] | q :: qs => let '(a, c) := serve q c in a :: serve_all qs c end.
Fixpoint table_all (qs : list request_) (tbl : gmap string V) : list (crud_reply V) :=
  match qs with [] => [] | q :: qs => let '(a, tbl) := table_serve q tbl in a :: table_all qs tbl end.

Fixpoint requests_ordered (t : Z) (qs : list request_) : Prop :=
  match qs with
  | [] => True
  | QGet t1 t2 _ _ :: qs => t <= t1 <= t2 /\ requests_ordered t2 qs
  | (QUpdate t1 _ _ | QDelete t1 _) :: qs => t <= t1 /\ requests_ordered t1 qs
  | QEvict _ :: qs => requests_ordered t qs
  end.

(** All rows can be encoded, also those a patch makes. *)
Definition encodable : Prop := forall v, is_Some (marshal v).

(** The table under the keys of the cache. *)
Definition rekey (tbl : gmap string V) : gmap string V := kmap key tbl.

Lemma rekey_lookup id tbl : rekey tbl !! key id = tbl !! id.
Proof. apply lookup_kmap. apply _. Qed.

Lemma rekey_set id x tbl : rekey (partial_alter (fun _ => x) id tbl) = partial_alter (fun _ => x) (key id) (rekey tbl).
Proof. apply kmap_partial_alter. apply _. Qed.

Record cached_inv (t : Z) (c : cachedCRUD R V) : Prop := mkCachedInv {
  ci_l2 : cc_l2 c = true;
  ci_coherent : coherent unmarshal t (cc_redis c) (rekey (cc_table c));
  ci_l1 : forall l1 k x, cc_l1 c = Some l1 -> l1 !! k = Some x -> exists id v, k = key id /\ x = L1Row v /\ cc_table c !! id = Some v
}.

Lemma cached_later t t' c : t <= t' -> cached_inv t c -> cached_inv t' c.
Proof. intros Ht [H1 H2 H3]. split; [done|by apply (coherent_later unmarshal t)|done]. Qed.

Lemma get_inv t t' id around c : json_ok marshal unmarshal -> encodable -> t <= t' -> cached_inv t c ->
  let '(a, c') := Get marshal unmarshal opts keyPrefix no_io around false t t' id c in
  a = (match cc_table c !! id with Some v => Row 200 v | None => Status 404 end) /\ cc_table c' = cc_table c /\ cached_inv t' c'.
Proof.
  intros Hj He Ht [H1 H2 H3]. unfold Get. destruct (l1 ← cc_l1 c; l1 !! (keyPrefix +:+ id)) as [x|] eqn:E.
  { apply bind_Some in E as (l1 & E1 & E2). destruct (H3 l1 _ x E1 E2) as (id' & v & Hk & -> & Hv).
    apply (inj key) in Hk as <-. rewrite Hv. split; [done|]. split; [done|]. by apply (cached_later t). }
  rewrite H1. cbn [negb].
  pose proof (take_coherent marshal unmarshal opts around t t' (key id) (rekey (cc_table c)) (cc_redis c) (cc_stat c) Hj Ht) as Hc.
  assert (Hq : query_of (rekey (cc_table c)) (key id) = query_of (cc_table c) id) by (unfold query_of; by rewrite rekey_lookup).
  rewrite Hq, rekey_lookup in Hc. destruct (doTake _ _ _ _ _ _ _ _ _ _ _) as [[[res q] r] st].
  destruct Hc as [-> Hr]; [by intros k v _|done|]. unfold answer. destruct (cc_table c !! id) as [v|] eqn:Ev; (split; [done|]; split; [done|]); split; cbn; try done.
  intros l1 k x Hl Hx. apply fmap_Some in Hl as (l0 & Hl0 & ->). rewrite lookup_insert_Some in Hx. destruct Hx as [[<- <-]|[_ Hx]]; [eauto|by eapply H3].
Qed.

(** A write to the table followed by the deletion of its key. *)
Lemma write_inv t id x c : cached_inv t c ->
  let c1 := mkCached (partial_alter (fun _ => x) id (cc_table c)) (cc_l2 c) (cc_redis c) (cc_l1 c) (cc_stat c) in
  cached_inv t (delCache keyPrefix no_io t [id] c1).
Proof.
  intros [H1 H2 H3] c1. unfold delCache. cbn [foldl c1 cc_table cc_l2 cc_redis cc_l1 cc_stat]. rewrite H1. split; cbn; [done| |].
  - rewrite rekey_set. by apply coherent_del.
  - intros l1 k y Hl Hy. apply fmap_Some in Hl as (l0 & Hl0 & ->). apply lookup_delete_Some in Hy as [Hne Hy].
    destruct (H3 l0 k y Hl0 Hy) as (id' & v & -> & -> & Hv). exists id', v. split_and!; [done|done|]. rewrite lookup_partial_alter_ne; [done|congruence].
Qed.

Lemma serve_inv t q qs c : json_ok marshal unmarshal -> encodable -> requests_ordered t (q :: qs) -> cached_inv t c ->
  (serve q c).1 = (table_serve q (cc_table c)).1 /\ cc_table (serve q c).2 = (table_serve q (cc_table c)).2 /\
  exists t', requests_ordered t' qs /\ cached_inv t' (serve q c).2.
Proof.
  intros Hj He Ho Hc. destruct q as [t1 t2 id around|t1 id body|t1 id|k]; cbn [requests_ordered serve table_serve] in *.
  - destruct Ho as [Ht Ho]. pose proof (get_inv t1 t2 id around c Hj He (proj2 Ht) (cached_later _ _ _ (proj1 Ht) Hc)) as H.
    destruct (Get _ _ _ _ _ _ _ _ _ _ _) as [a c']. destruct H as (-> & E & Hi). split; [done|]. split; [done|]. eauto.
  - destruct Ho as [Ht Ho]. apply (cached_later _ _ _ Ht) in Hc. unfold Update. destruct body as [patch|]; [|eauto].
    destruct (cc_table c !! id) as [v|] eqn:Ev; [|eauto]. destruct (patch v) as [v'|]; [|eauto].
    split; [done|]. split; [done|]. exists t1. split; [done|]. exact (write_inv t1 id (Some v') c Hc).
  - destruct Ho as [Ht Ho]. apply (cached_later _ _ _ Ht) in Hc. unfold Delete. destruct (cc_table c !! id) as [v|] eqn:Ev; [|eauto].
    split; [done|]. split; [done|]. exists t1. split; [done|]. exact (write_inv t1 id None c Hc).
  - split; [done|]. split; [done|]. exists t. split; [done|]. destruct Hc as [H1 H2 H3]. split; cbn; [done|done|].
    intros l1 k' x Hl Hx. apply fmap_Some in Hl as (l0 & Hl0 & ->). apply lookup_delete_Some in Hx as [_ Hx]. by eapply H3.
Qed.

(** A cached provider answers as its table does: for one process that serves reads, updates
    and deletions one after the other, with both caches and whatever they evict or expire,
    every answer is the one of the table at that moment. *)
Theorem cached_crud_is_table qs : forall t c, json_ok marshal unmarshal -> encodable -> requests_ordered t qs -> cached_inv t c ->
  serve_all qs c = table_all qs (cc_table c).
Proof.
  induction qs as [|q qs IH]; intros t c Hj He Ho Hc; [done|]. cbn [serve_all table_all].
  destruct (serve_inv t q qs c Hj He Ho Hc) as (E1 & E2 & t' & Ho' & Hc'). destruct (serve q c) as [a c1], (table_serve q (cc_table c)) as [a' tbl]. cbn in *.
  subst. f_equal. by apply (IH t').
Qed.
End coherence.

(** ** What the cache does not know *)

(** A creation does not reach the cache.  After a read of an id that does not exist, a row
    created under it is answered with 404 until the placeholder expires.  A warmed entry has
    the key without prefix and the bytes of the row, so that with an empty prefix a read
    answers with bytes and not with the row.  Without a second level a read that L1 does not
    answer dereferences nil. *)
Theorem cached_crud_gaps {R V : Type} `{!RedisCommands R, !RedisLaws R} (marshal : V -> option string) unmarshal opts (ID : V -> string) keyPrefix (c : cachedCRUD R V) :
  (forall v around t1 t1' t2 t2', cc_l1 c = None -> cc_l2 c = true -> cc_table c !! ID v = None -> (forall t, live t (cc_redis c) (keyPrefix +:+ ID v) = None) ->
     t1 <= t1' <= t2 -> t2 < t1' + ceil_seconds (around (o_NotFoundExpiry opts)) * 1000 ->
     let '(a1, c1) := Get marshal unmarshal opts keyPrefix no_io around false t1 t1' (ID v) c in
     let '(a2, c2) := Create ID (Some v) c1 in
     let '(a3, _) := Get marshal unmarshal opts keyPrefix no_io around false t2 t2' (ID v) c2 in
     a1 = Status 404 /\ a2 = Row 201 v /\ a3 = Status 404) /\
  (forall v data io around t t', marshal v = Some data -> ID v <> "" -> is_Some (cc_l1 c) ->
     (Get marshal unmarshal opts "" io around false t t' (ID v) (warmCache marshal ID [v] c)).1 = Bytes data) /\
  (forall id io around t t', (l1 ← cc_l1 c; l1 !! (keyPrefix +:+ id)) = None -> cc_l2 c = false ->
     (Get marshal unmarshal opts keyPrefix io around false t t' id c).1 = NilPointer).
Proof.
  split_and!.
  - intros v around t1 t1' t2 t2' H1 H2 Hv Hl Ht He.
    assert (Hg : forall t (r : R), live t r (keyPrefix +:+ ID v) = Some (RString notFoundPlaceholder, Some (t1' + ceil_seconds (around (o_NotFoundExpiry opts)) * 1000)) ->
      rds_get t (keyPrefix +:+ ID v) r = notFoundPlaceholder) by (intros t r Hr; by rewrite rds_get_live, Hr).
    unfold Get at 1. rewrite H1, H2. cbn [mbind option_bind negb]. unfold doTake, doGetCache. cbn [io_get no_io]. rewrite rds_get_live, Hl. cbn.
    unfold query_of, take_miss. rewrite Hv. cbn. unfold setCacheWithNotFound. cbn [io_setnx no_io]. rewrite live_GET, Hl. cbn. rewrite Hv.
    unfold Get, doTake, doGetCache. cbn [cc_l1 cc_l2 cc_table cc_redis cc_stat mbind option_bind negb io_get no_io]. rewrite ?H1, ?H2. cbn [mbind option_bind negb].
    rewrite Hg; [done|]. rewrite live_SET by lia. rewrite decide_True by done. unfold alive. cbn. destruct (t2 <? _) eqn:E; [done|lia].
  - intros v data io around t t' Hm Hi [l1 Hl]. unfold warmCache. rewrite Hl. cbn [foldl]. destruct (String.eqb_spec (ID v) ""); [done|].
    unfold Get. cbn [cc_l1]. cbn [mbind option_bind]. change ("" +:+ ID v)%string with (ID v). rewrite lookup_insert_eq, Hm. done.
  - intros id io around t t' H1 H2. unfold Get. by rewrite H1, H2.
Qed.

Definition demo_cached : cachedCRUD redis_map bool := mkCached {["a" := true]} true ∅ (Some ∅) (mkStat 0 0 0 0).
Definition demo_requests : list (request_ (V := bool)) :=
  [QGet 0 1 "a" same; QGet 2 3 "b" same; QUpdate 4 "a" (Some (fun v => Some (negb v))); QGet 5 6 "a" same; QEvict "p:a"; QGet 7 8 "a" same; QDelete 9 "a"; QGet 10 11 "a" same].

Lemma cached_crud_is_table_witness :
  serve_all bool_json bool_unjson demo_opts "p:" demo_requests demo_cached =
  [Row 200 true; Status 404; Row 200 false; Row 200 false; Status 0; Row 200 false; Status 204; Status 404].
Proof.
  etrans; [eapply (cached_crud_is_table (R := redis_map) bool_json bool_unjson demo_opts "p:" demo_requests 0 demo_cached bool_json_ok)|vm_compute; reflexivity].
  - intros v. by eexists.
  - cbn. lia.
  - split; [done| |].
    + intros k. cbn. unfold map_live. by rewrite lookup_empty.
    + cbn. intros l1 k x [= <-]. by rewrite lookup_empty.
Defined.

Lemma cached_crud_gaps_witness :
  let c : cachedCRUD redis_map bool := mkCached ∅ true ∅ None (mkStat 0 0 0 0) in
  let name (b : bool) := if b then "yes" else "no" in
  let '(a1, c1) := Get bool_json bool_unjson demo_opts "p:" no_io same false 0 1 "yes" c in
  let '(a2, c2) := Create name (Some true) c1 in
  let '(a3, _) := Get bool_json bool_unjson demo_opts "p:" no_io same false 3000 3001 "yes" c2 in
  a1 = Status 404 /\ a2 = Row 201 true /\ a3 = Status 404.
Proof.
  intros c name. refine (proj1 (cached_crud_gaps (R := redis_map) bool_json bool_unjson demo_opts name "p:" c) true same 0 1 3000 3001 _ _ _ _ _ _); try done.
Defined.
