(* ===== verification/GoStrings.v ===== *)
(** * Go strings

    A Go string is a sequence of bytes; [String.string] is one of 8-bit characters.
    This file gives what the modelled code uses of package [strings] and of the
    language's conversions. *)

From S2P Require Import Prelude.
From Stdlib Require Import Ascii String.

Open Scope string_scope.

(** [s[n:]] and [s[:n]] for [n] in range. *)
Fixpoint str_drop (n : nat) (s : string) : string :=
  match n, s with
  | O, _ => s
  | S n, String _ s => str_drop n s
  | S _, EmptyString => EmptyString
  end.

Fixpoint str_take (n : nat) (s : string) : string :=
  match n, s with
  | O, _ => EmptyString
  | S n, String c s => String c (str_take n s)
  | S _, EmptyString => EmptyString
  end.

(** [strings.HasPrefix], [HasSuffix], [TrimPrefix], [TrimSuffix] *)
Definition HasPrefix (s p : string) : bool := String.prefix p s.

(** [strings.Contains] *)
Fixpoint Contains (s sub : string) : bool :=
  HasPrefix s sub || match s with EmptyString => false | String _ s => Contains s sub end.

Definition HasSuffix (s p : string) : bool :=
  Nat.leb (String.length p) (String.length s) &&
  String.eqb (str_drop (String.length s - String.length p) s) p.

Definition TrimPrefix (s p : string) : string :=
  if HasPrefix s p then str_drop (String.length p) s else s.

Definition TrimSuffix (s p : string) : string :=
  if HasSuffix s p then str_take (String.length s - String.length p) s else s.

(** [strings.IndexByte] *)
Fixpoint IndexByte (s : string) (c : ascii) : option nat :=
  match s with
  | EmptyString => None
  | String c' s => if Ascii.eqb c' c then Some 0%nat else S <$> IndexByte s c
  end.

(** [strings.SplitN(s, c, 2)] for a one-byte separator: the part before the first one
    and, if there is one, the part after it. *)
Definition SplitN2 (s : string) (c : ascii) : string * option string :=
  match IndexByte s c with
  | Some i => (str_take i s, Some (str_drop (S i) s))
  | None => (s, None)
  end.

(** [string(b)] for a byte [b]: the UTF-8 encoding of the code point [b]. *)
Definition string_of_byte (b : ascii) : string :=
  let n := N_of_ascii b in
  if N.ltb n 128 then String b EmptyString
  else String (ascii_of_N (192 + N.shiftr n 6))
         (String (ascii_of_N (128 + N.land n 63)) EmptyString).

(** Byte classes *)
Definition byte_le (lo c hi : ascii) : bool :=
  N.leb (N_of_ascii lo) (N_of_ascii c) && N.leb (N_of_ascii c) (N_of_ascii hi).
Definition is_upper (c : ascii) : bool := byte_le "A"%char c "Z"%char.
Definition is_lower (c : ascii) : bool := byte_le "a"%char c "z"%char.
(** [c + 32], a byte addition *)
Definition add32 (c : ascii) : ascii := ascii_of_N ((N_of_ascii c + 32) mod 256).

(** ** Lemmas *)

Lemma str_app_cons (c : ascii) (a b : string) : String c a ++ b = String c (a ++ b).
Proof. reflexivity. Qed.

Lemma str_app_nil_l (b : string) : "" ++ b = b.
Proof. reflexivity. Qed.

#[export] Hint Rewrite str_app_cons str_app_nil_l : go.

Lemma str_app_nil_r (s : string) : s ++ "" = s.
Proof. induction s as [|c s IH]; [done|]. by rewrite str_app_cons, IH. Qed.

Lemma str_app_assoc (a b c : string) : (a ++ b) ++ c = a ++ (b ++ c).
Proof. induction a as [|x a IH]; [done|]. rewrite !str_app_cons. cbn. by rewrite IH. Qed.

Lemma str_length_app (a b : string) : String.length (a ++ b) = (String.length a + String.length b)%nat.
Proof. induction a as [|x a IH]; [done|]. rewrite !str_app_cons. cbn. by rewrite IH. Qed.

Lemma HasPrefix_byte (c d : ascii) (s : string) : HasPrefix (String c s) (String d "") = Ascii.eqb c d.
Proof.
  unfold HasPrefix. cbn. destruct (ascii_dec d c) as [->|Hne].
  - rewrite Ascii.eqb_refl. by destruct s.
  - symmetry. apply Ascii.eqb_neq. congruence.
Qed.

Lemma str_take_app (a b : string) : str_take (String.length a) (a ++ b) = a.
Proof. induction a as [|x a IH]; [done|]. rewrite !str_app_cons. cbn. by rewrite IH. Qed.

Lemma str_drop_app (a b : string) : str_drop (String.length a) (a ++ b) = b.
Proof. induction a as [|x a IH]; [done|]. rewrite str_app_cons. exact IH. Qed.

Lemma str_drop_length (n : nat) (s : string) : (String.length (str_drop n s) <= String.length s)%nat.
Proof. revert s. induction n as [|n IH]; intros [|c s]; cbn; try lia. pose proof (IH s). lia. Qed.

(** Every byte of a string satisfies a predicate. *)
Fixpoint str_all (P : ascii -> bool) (s : string) : bool :=
  match s with EmptyString => true | String c s => P c && str_all P s end.

Lemma str_all_app (P : ascii -> bool) (a b : string) : str_all P (a ++ b) = str_all P a && str_all P b.
Proof. induction a as [|c a IH]; [done|]. rewrite str_app_cons. cbn [str_all]. by rewrite IH, andb_assoc. Qed.

Lemma HasPrefix_app (a b : string) : HasPrefix (a ++ b) a = true.
Proof. unfold HasPrefix. induction a as [|c a IH]; [by destruct b|]. rewrite str_app_cons. cbn. by destruct (ascii_dec c c). Qed.

Lemma HasSuffix_app (a b : string) : HasSuffix (a ++ b) b = true.
Proof. unfold HasSuffix. apply andb_true_iff. rewrite str_length_app. split; [apply Nat.leb_le; lia|]. rewrite Nat.add_sub, str_drop_app. apply String.eqb_refl. Qed.

Lemma TrimSuffix_app (a b : string) : TrimSuffix (a ++ b) b = a.
Proof. unfold TrimSuffix. by rewrite HasSuffix_app, str_length_app, Nat.add_sub, str_take_app. Qed.

Lemma IndexByte_app_None (a b : string) (c : ascii) :
  str_all (fun x => negb (Ascii.eqb x c)) a = true ->
  IndexByte (a ++ String c b) c = Some (String.length a).
Proof.
  induction a as [|x a IH]; [intros _; rewrite str_app_nil_l; cbn; by rewrite Ascii.eqb_refl|]. rewrite str_app_cons. cbn.
  intros [Hx Ha]%andb_true_iff. apply negb_true_iff in Hx. rewrite Hx, IH by done. done.
Qed.

Lemma IndexByte_None (a : string) (c : ascii) :
  str_all (fun x => negb (Ascii.eqb x c)) a = true -> IndexByte a c = None.
Proof.
  induction a as [|x a IH]; cbn; [done|].
  intros [Hx Ha]%andb_true_iff. apply negb_true_iff in Hx. by rewrite Hx, IH.
Qed.

Lemma SplitN2_absent (a : string) (c : ascii) :
  str_all (fun x => negb (Ascii.eqb x c)) a = true -> SplitN2 a c = (a, None).
Proof. intros Ha. unfold SplitN2. by rewrite IndexByte_None. Qed.

Lemma SplitN2_app (a b : string) (c : ascii) :
  str_all (fun x => negb (Ascii.eqb x c)) a = true -> SplitN2 (a ++ String c b) c = (a, Some b).
Proof.
  intros Ha. unfold SplitN2. rewrite IndexByte_app_None by done. f_equal; [by rewrite str_take_app|].
  f_equal. clear Ha. induction a as [|x a IH]; [done|]. exact IH.
Qed.

Lemma HasPrefix_cut (s p : string) : HasPrefix s p = true -> s = (p ++ str_drop (String.length p) s)%string.
Proof.
  unfold HasPrefix. revert s. induction p as [|c p IH]; intros s H; [done|]. destruct s as [|d s]; [done|]. cbn in H.
  destruct (ascii_dec c d) as [->|]; [|done]. rewrite str_app_cons. f_equal. by apply IH.
Qed.

Lemma prefix_first (s p q : string) : String.length p = String.length q -> HasPrefix s p = true -> HasPrefix s q = true -> p = q.
Proof.
  intros Hl H1%HasPrefix_cut H2%HasPrefix_cut. revert H1 H2. generalize (str_drop (String.length p) s) (str_drop (String.length q) s). intros a b -> H.
  revert q Hl H. induction p as [|c p IH]; intros [|d q] Hl H; cbn in *; try done. injection H as -> H. f_equal. apply IH; [lia|exact H].
Qed.

Lemma SplitN2_cut s c a b : SplitN2 s c = (a, Some b) -> str_all (fun x => negb (Ascii.eqb x c)) a = true /\ s = (a ++ String c b)%string.
Proof.
  unfold SplitN2. revert a b. induction s as [|d s IH]; intros a b; cbn; [done|]. destruct (Ascii.eqb_spec d c) as [->|N]; [by intros [= <- <-]|].
  destruct (IndexByte s c) as [i|]; [|done]. intros [= <- <-]. destruct (IH (str_take i s) _ eq_refl) as [I1 I2]. split; [|cbn; rewrite I2 at 1; done].
  cbn. rewrite I1. by destruct (Ascii.eqb_spec d c).
Qed.

(** [strings.Split] for a separator of one byte. *)
Fixpoint Split (s : string) (c : ascii) : list string :=
  match s with
  | EmptyString => [""]
  | String d s =>
      if Ascii.eqb d c then "" :: Split s c
      else match Split s c with
           | t :: ts => String d t :: ts
           | [] => [String d ""]
           end
  end.

Lemma Split_SplitN2 (s : string) (c : ascii) :
  Split s c = match SplitN2 s c with (t, Some rest) => t :: Split rest c | (t, None) => [t] end.
Proof.
  unfold SplitN2. induction s as [|d s IH]; [done|]. cbn [Split IndexByte]. destruct (Ascii.eqb_spec d c) as [->|Hne]; [by destruct s|].
  rewrite IH. destruct (IndexByte s c) as [i|] eqn:E; [|done]. done.
Qed.

Lemma Split_nil (s : string) (c : ascii) : Split s c <> [].
Proof. destruct s as [|d s]; cbn; [done|]. destruct (Ascii.eqb d c); [done|]. by destruct (Split s c). Qed.
