(* ===== verification/GoStrconv.v ===== *)
(** * Number conversions (package strconv)

    [ParseInt] in base 10 with its error; [pretty] of the library stdpp prints a number in
    decimal, as [Itoa] and [FormatInt] do. *)

From S2P Require Import Prelude GoStrings.
From stdpp Require Export pretty.
From Stdlib Require Import Ascii.

#[local] Open Scope string_scope.
#[local] Open Scope Z_scope.

Inductive num_error := ErrSyntax | ErrRange.

Definition digit_val (c : ascii) : option Z :=
  let n := Z.of_N (N_of_ascii c) in
  if (48 <=? n) && (n <=? 57) then Some (n - 48) else None.

Definition maxUint64 : Z := 2^64 - 1.

(** The loop of [ParseUint]: [n] is the value of the digits read. *)
Fixpoint parse_digits (n : Z) (s : string) : Z * option num_error :=
  match s with
  | EmptyString => (n, None)
  | String c s =>
      match digit_val c with
      | None => (0, Some ErrSyntax)
      | Some d =>
          if maxUint64 / 10 + 1 <=? n then (maxUint64, Some ErrRange)
          else if maxUint64 <? n * 10 + d then (maxUint64, Some ErrRange)
          else parse_digits (n * 10 + d) s
      end
  end.

Definition ParseUint (s : string) : Z * option num_error :=
  match s with EmptyString => (0, Some ErrSyntax) | _ => parse_digits 0 s end.

(** [strconv.ParseInt(s, 10, 64)]: on a range error the value is the nearest bound. *)
Definition ParseInt (s : string) : Z * option num_error :=
  match s with
  | EmptyString => (0, Some ErrSyntax)
  | String c s' =>
      let '(neg, digits) :=
        if Ascii.eqb c "+"%char then (false, s') else if Ascii.eqb c "-"%char then (true, s') else (false, s) in
      match ParseUint digits with
      | (_, Some ErrSyntax) => (0, Some ErrSyntax)
      | (un, _) =>
          if negb neg && (2^63 <=? un) then (2^63 - 1, Some ErrRange)
          else if neg && (2^63 <? un) then (- 2^63, Some ErrRange)
          else (if neg then - un else un, None)
      end
  end.

(** ** Printing and parsing *)

Definition is_digit (c : ascii) : bool := match digit_val c with Some _ => true | None => false end.

Lemma digit_val_pretty (x : N) : (x < 10)%N -> digit_val (pretty_N_char x) = Some (Z.of_N x).
Proof.
  intros Hx. assert (x = 0 \/ x = 1 \/ x = 2 \/ x = 3 \/ x = 4 \/ x = 5 \/ x = 6 \/ x = 7 \/ x = 8 \/ x = 9)%N as H by lia.
  repeat (destruct H as [->|H]; [done|]). by subst x.
Qed.

Lemma parse_pretty_go (x : N) (s : string) : Z.of_N x <= maxUint64 -> parse_digits 0 (pretty_N_go x s) = parse_digits (Z.of_N x) s.
Proof.
  revert s. induction (N.lt_wf_0 x) as [x _ IH]; intros s Hx. destruct (decide (x = 0)%N) as [->|Hne]; [done|].
  rewrite pretty_N_go_step by lia. pose proof (N.div_mod x 10 ltac:(lia)) as Hdm. pose proof (N.mod_lt x 10 ltac:(lia)) as Hm.
  rewrite IH by (try apply N.div_lt; lia). cbn [parse_digits]. rewrite digit_val_pretty by done. unfold maxUint64 in *.
  destruct (Z.leb_spec ((2^64 - 1) / 10 + 1) (Z.of_N (x `div` 10))); [exfalso|].
  { change ((2^64 - 1) / 10) with 1844674407370955161 in *. lia. }
  destruct (Z.ltb_spec (2^64 - 1) (Z.of_N (x `div` 10) * 10 + Z.of_N (x `mod` 10))); [lia|]. f_equal. lia.
Qed.

Lemma pretty_N_digits (x : N) : str_all is_digit (pretty x) = true /\ pretty x <> "".
Proof.
  unfold pretty, pretty_N. destruct (decide (x = 0)%N) as [->|Hne]; [done|].
  assert (Hgo : forall x s, str_all is_digit s = true -> (0 < x)%N \/ s <> "" -> str_all is_digit (pretty_N_go x s) = true /\ pretty_N_go x s <> "").
  { clear. intros x. induction (N.lt_wf_0 x) as [x _ IH]; intros s Hs Hor. destruct (decide (x = 0)%N) as [->|Hne].
    { rewrite pretty_N_go_0. split; [done|]. destruct Hor; [lia|done]. }
    rewrite pretty_N_go_step by lia. apply IH; [apply N.div_lt; lia| |by right]. cbn [str_all]. unfold is_digit at 1.
    by rewrite digit_val_pretty by (apply N.mod_lt; lia). }
  apply Hgo; [done|]. left. lia.
Qed.

Lemma is_digit_sign c : is_digit c = true -> Ascii.eqb c "+"%char = false /\ Ascii.eqb c "-"%char = false.
Proof.
  intros H. split; (match goal with |- Ascii.eqb _ ?d = _ => destruct (Ascii.eqb_spec c d) as [->|] end); done.
Qed.

(** What is printed is read back. *)
Lemma ParseUint_pretty (x : N) : Z.of_N x <= maxUint64 -> ParseUint (pretty x) = (Z.of_N x, None).
Proof.
  intros Hx. destruct (pretty_N_digits x) as [_ Hne]. unfold ParseUint. destruct (pretty x) as [|c s] eqn:E; [done|]. rewrite <- E.
  unfold pretty, pretty_N. destruct (decide (x = 0)%N) as [->|]; [done|]. by rewrite parse_pretty_go.
Qed.

Lemma ParseInt_pretty (x : N) : Z.of_N x < 2^63 -> ParseInt (pretty x) = (Z.of_N x, None).
Proof.
  intros Hx. destruct (pretty_N_digits x) as [Hd Hne]. destruct (pretty x) as [|c s] eqn:E; [done|]. cbn [str_all] in Hd.
  apply andb_true_iff in Hd as [Hc _]. destruct (is_digit_sign c Hc) as [H1 H2]. unfold ParseInt. rewrite H1, H2, <- E, ParseUint_pretty by (unfold maxUint64; lia).
  cbn [negb andb]. destruct (Z.leb_spec (2^63) (Z.of_N x)); [lia|]. done.
Qed.

Definition int64 (z : Z) : Prop := -2^63 <= z < 2^63.

Lemma pretty_Z_nonempty (z : Z) : pretty z <> "".
Proof. destruct z as [|p|p]; [done| |done]. apply (pretty_N_digits (N.pos p)). Qed.

Lemma ParseInt_pretty_Z (z : Z) : int64 z -> ParseInt (pretty z) = (z, None).
Proof.
  unfold int64. intros Hz. destruct z as [|p|p]; [done|apply (ParseInt_pretty (N.pos p)); lia|].
  change (pretty (Z.neg p)) with (String "-" (pretty (N.pos p))). unfold ParseInt. change (Ascii.eqb "-" "+") with false. change (Ascii.eqb "-" "-") with true. cbv iota beta.
  rewrite ParseUint_pretty by (unfold maxUint64; lia). cbn [negb andb]. destruct (Z.ltb_spec (2^63) (Z.of_N (N.pos p))); [lia|]. done.
Qed.
