(* ===== verification/Utf8.v ===== *)
(** * UTF-8: the conversions between strings and runes

    [[]rune(s)] decodes a string; a byte that is not part of a valid encoding becomes
    U+FFFD.  [string(rs)] encodes runes; a value that is not a code point is encoded as
    U+FFFD.  A rune is a [Z]. *)

From S2P Require Import Prelude.
From Stdlib Require Import Ascii.

Definition RuneError : Z := 65533.

Definition byte_val (c : ascii) : Z := Z.of_N (N_of_ascii c).
Definition val_byte (z : Z) : ascii := ascii_of_N (Z.to_N z).

Definition in_range (lo x hi : Z) : bool := (lo <=? x) && (x <=? hi).

(** The range of the second byte after a leading byte, and the length of the encoding
    ([first] and [acceptRanges] of package unicode/utf8); [None] for a byte that does not
    lead. *)
Definition lead (b : Z) : option (nat * Z * Z) :=
  if in_range 194 b 223 then Some (1%nat, 128, 191)
  else if b =? 224 then Some (2%nat, 160, 191)
  else if in_range 225 b 236 then Some (2%nat, 128, 191)
  else if b =? 237 then Some (2%nat, 128, 159)
  else if in_range 238 b 239 then Some (2%nat, 128, 191)
  else if b =? 240 then Some (3%nat, 144, 191)
  else if in_range 241 b 243 then Some (3%nat, 128, 191)
  else if b =? 244 then Some (3%nat, 128, 143)
  else None.

Definition cont (b : Z) : bool := in_range 128 b 191.

(** [utf8.DecodeRune]: the rune and the number of bytes after the first it takes. *)
Definition decode_rune (b0 : Z) (rest : list Z) : Z * nat :=
  if b0 <? 128 then (b0, 0%nat)
  else
    match lead b0, rest with
    | Some (1%nat, lo, hi), b1 :: _ =>
        if in_range lo b1 hi then ((b0 - 192) * 64 + (b1 - 128), 1%nat) else (RuneError, 0%nat)
    | Some (2%nat, lo, hi), b1 :: b2 :: _ =>
        if in_range lo b1 hi && cont b2 then ((b0 - 224) * 4096 + (b1 - 128) * 64 + (b2 - 128), 2%nat) else (RuneError, 0%nat)
    | Some (3%nat, lo, hi), b1 :: b2 :: b3 :: _ =>
        if in_range lo b1 hi && cont b2 && cont b3
        then ((b0 - 240) * 262144 + (b1 - 128) * 4096 + (b2 - 128) * 64 + (b3 - 128), 3%nat) else (RuneError, 0%nat)
    | _, _ => (RuneError, 0%nat)
    end.

(** [skip] bytes of [bs] belong to the rune that was just decoded. *)
Fixpoint decode_from (skip : nat) (bs : list Z) : list Z :=
  match bs with
  | [] => []
  | b :: bs =>
      match skip with
      | S skip => decode_from skip bs
      | O => let '(r, n) := decode_rune b bs in r :: decode_from n bs
      end
  end.

Definition encode_rune (r : Z) : list Z :=
  if in_range 0 r 127 then [r]
  else if in_range 128 r 2047 then [192 + r / 64; 128 + r mod 64]
  else if (r <? 0) || (1114111 <? r) || in_range 55296 r 57343 then [239; 191; 189]
  else if r <=? 65535 then [224 + r / 4096; 128 + r / 64 mod 64; 128 + r mod 64]
  else [240 + r / 262144; 128 + r / 4096 mod 64; 128 + r / 64 mod 64; 128 + r mod 64].

Fixpoint bytes_of (s : string) : list Z :=
  match s with EmptyString => [] | String c s => byte_val c :: bytes_of s end.
Fixpoint string_of_bytes (bs : list Z) : string :=
  match bs with [] => EmptyString | b :: bs => String (val_byte b) (string_of_bytes bs) end.

(** [[]rune(s)] and [string(rs)] *)
Definition runes_of (s : string) : list Z := decode_from 0 (bytes_of s).
Definition string_of_runes (rs : list Z) : string := string_of_bytes (flat_map encode_rune rs).

(** ** Facts *)

(** A code point: not a surrogate and not above U+10FFFF. *)
Definition code_point (r : Z) : Prop := 0 <= r <= 1114111 /\ ~ (55296 <= r <= 57343).

Lemma in_range_spec lo x hi : reflect (lo <= x <= hi) (in_range lo x hi).
Proof. apply iff_reflect. unfold in_range. rewrite andb_true_iff, !Z.leb_le. lia. Qed.

Lemma byte_val_range c : 0 <= byte_val c < 256.
Proof. unfold byte_val. pose proof (N_ascii_bounded c). lia. Qed.

Lemma byte_val_byte b : 0 <= b < 256 -> byte_val (val_byte b) = b.
Proof. intros Hb. unfold byte_val, val_byte. rewrite N_ascii_embedding by lia. lia. Qed.

Lemma val_byte_val c : val_byte (byte_val c) = c.
Proof. unfold byte_val, val_byte. by rewrite N2Z.id, ascii_N_embedding. Qed.

Lemma bytes_of_string bs : Forall (fun b => 0 <= b < 256) bs -> bytes_of (string_of_bytes bs) = bs.
Proof. induction 1 as [|b bs Hb _ IH]; [done|]. cbn [string_of_bytes bytes_of]. by rewrite byte_val_byte, IH. Qed.

Lemma string_of_bytes_of s : string_of_bytes (bytes_of s) = s.
Proof. induction s as [|c s IH]; [done|]. cbn [string_of_bytes bytes_of]. by rewrite val_byte_val, IH. Qed.

Lemma decode_skip (a bs : list Z) : decode_from (length a) (a ++ bs) = decode_from 0 bs.
Proof. induction a as [|x a IH]; [done|]. exact IH. Qed.

#[local] Ltac range_case :=
  match goal with
  | |- context [in_range ?a ?b ?c] => destruct (in_range_spec a b c); try lia
  | |- context [?a <? ?b] => destruct (Z.ltb_spec a b); try lia
  | |- context [?a =? ?b] => destruct (Z.eqb_spec a b); try lia
  end.

Lemma lead_3 x : 224 <= x <= 239 -> exists lo hi, lead x = Some (2%nat, lo, hi) /\
  forall b1, 128 <= b1 <= 191 -> (x = 224 -> 160 <= b1) -> (x = 237 -> b1 <= 159) -> lo <= b1 <= hi.
Proof.
  intros Hx. unfold lead. repeat (range_case; try (eexists _, _; split; [done|]; lia)).
Qed.

Lemma lead_4 x : 240 <= x <= 244 -> exists lo hi, lead x = Some (3%nat, lo, hi) /\
  forall b1, 128 <= b1 <= 191 -> (x = 240 -> 144 <= b1) -> (x = 244 -> b1 <= 143) -> lo <= b1 <= hi.
Proof.
  intros Hx. unfold lead. repeat (range_case; try (eexists _, _; split; [done|]; lia)).
Qed.

Lemma lead_2 x : 194 <= x <= 223 -> lead x = Some (1%nat, 128, 191).
Proof. intros Hx. unfold lead. by range_case. Qed.

Lemma decode_encode_rune r rest : code_point r ->
  exists b0 bs, encode_rune r = b0 :: bs /\ decode_rune b0 (bs ++ rest) = (r, length bs) /\
    Forall (fun b => 0 <= b < 256) (b0 :: bs).
Proof.
  intros [Hr Hs]. unfold encode_rune. destruct (in_range_spec 0 r 127).
  { exists r, []. split; [done|]. unfold decode_rune. destruct (Z.ltb_spec r 128); [|lia]. split; [done|]. repeat constructor; lia. }
  pose proof (Z.div_mod r 64 ltac:(lia)). pose proof (Z.mod_pos_bound r 64 ltac:(lia)).
  destruct (in_range_spec 128 r 2047).
  { eexists _, [_]. split; [done|]. unfold decode_rune. destruct (Z.ltb_spec (192 + r / 64) 128); [lia|]. rewrite lead_2 by lia. cbn [app].
    destruct (in_range_spec 128 (128 + r mod 64) 191); [|lia]. split; [f_equal; lia|]. repeat constructor; lia. }
  destruct (Z.ltb_spec r 0); [lia|]. destruct (Z.ltb_spec 1114111 r); [lia|]. destruct (in_range_spec 55296 r 57343); [lia|]. cbn [orb].
  pose proof (Z.div_mod (r / 64) 64 ltac:(lia)). pose proof (Z.mod_pos_bound (r / 64) 64 ltac:(lia)).
  assert (E1 : r / 64 / 64 = r / 4096) by (rewrite Z.div_div by lia; done).
  destruct (Z.leb_spec r 65535).
  { eexists _, [_; _]. split; [done|]. unfold decode_rune. destruct (Z.ltb_spec (224 + r / 4096) 128); [lia|].
    destruct (lead_3 (224 + r / 4096)) as (lo & hi & -> & Hb1); [lia|]. cbn [app]. unfold cont.
    destruct (in_range_spec lo (128 + (r / 64) mod 64) hi); [|exfalso; apply n2, Hb1; lia].
    destruct (in_range_spec 128 (128 + r mod 64) 191); [|lia]. split; [cbn; f_equal; lia|]. repeat constructor; lia. }
  pose proof (Z.div_mod (r / 4096) 64 ltac:(lia)). pose proof (Z.mod_pos_bound (r / 4096) 64 ltac:(lia)).
  assert (E2 : r / 4096 / 64 = r / 262144) by (rewrite Z.div_div by lia; done).
  eexists _, [_; _; _]. split; [done|]. unfold decode_rune. destruct (Z.ltb_spec (240 + r / 262144) 128); [lia|].
  destruct (lead_4 (240 + r / 262144)) as (lo & hi & -> & Hb1); [lia|]. cbn [app]. unfold cont.
  destruct (in_range_spec lo (128 + (r / 4096) mod 64) hi); [|exfalso; apply n2, Hb1; lia].
  destruct (in_range_spec 128 (128 + (r / 64) mod 64) 191); [|lia]. destruct (in_range_spec 128 (128 + r mod 64) 191); [|lia].
  split; [cbn; f_equal; lia|]. repeat constructor; lia.
Qed.

(** Encoding code points and decoding them again. *)
Lemma runes_of_string rs : Forall code_point rs -> runes_of (string_of_runes rs) = rs.
Proof.
  intros H. unfold runes_of, string_of_runes.
  assert (Hb : Forall (fun b => 0 <= b < 256) (flat_map encode_rune rs) /\ decode_from 0 (flat_map encode_rune rs) = rs).
  { induction H as [|r rs Hr _ [IH1 IH2]]; [done|]. cbn [flat_map].
    destruct (decode_encode_rune r (flat_map encode_rune rs) Hr) as (b0 & bs & -> & E & Hb). split; [by apply Forall_app|].
    cbn [app decode_from]. rewrite E, decode_skip. by rewrite IH2. }
  destruct Hb as [Hb Hd]. by rewrite bytes_of_string.
Qed.

(** Decoded runes are code points. *)
Lemma runes_of_code_points s : Forall code_point (runes_of s).
Proof.
  unfold runes_of. assert (Hb : Forall (fun b => 0 <= b < 256) (bytes_of s)).
  { induction s as [|c s IH]; constructor; [apply byte_val_range|done]. }
  generalize 0%nat. induction Hb as [|b bs Hb Hbs IH]; intros k; [constructor|]. destruct k as [|k]; [|apply IH].
  cbn [decode_from]. destruct (decode_rune b bs) as [r n] eqn:E. constructor; [|apply IH].
  assert (Herr : code_point RuneError) by (unfold code_point, RuneError; lia).
  revert E. unfold decode_rune. destruct (Z.ltb_spec b 128); [intros [= <- _]; unfold code_point; lia|].
  unfold lead. repeat (match goal with
    | |- context [in_range ?x b ?y] => destruct (in_range_spec x b y)
    | |- context [b =? ?y] => destruct (Z.eqb_spec b y) end);
    try (intros [= <- _]; exact Herr); destruct bs as [|b1 [|b2 [|b3 bs']]]; try (intros [= <- _]; exact Herr); unfold cont;
    repeat match goal with |- context [in_range ?x ?z ?y] => destruct (in_range_spec x z y) end; cbn [andb];
    (intros [= <- _]; first [exact Herr|unfold code_point; lia]).
Qed.
