(* ===== verification/GoSort.v ===== *)
(** * Sorting and searching (packages sort and slices)

    [sort.Search] is the binary search of the Go library; the algorithm of [slices.Sort]
    and [sort.Slice] is not specified, so it is represented by stdpp's [merge_sort],
    which agrees with any other on orders without distinct equivalent elements. *)

From S2P Require Import Prelude.
From stdpp Require Export sorting.

(** The loop of [sort.Search]: [i] and [j] enclose the answer. *)
Fixpoint search_loop (fuel i j : nat) (f : nat -> bool) : nat :=
  match fuel with
  | O => i
  | S fuel =>
      if (i <? j)%nat then
        let h := ((i + j) / 2)%nat in
        if f h then search_loop fuel i h f else search_loop fuel (S h) j f
      else i
  end.

(** Every round halves [j - i], so [n] rounds are enough. *)
Definition sort_Search (n : nat) (f : nat -> bool) : nat := search_loop n 0 n f.

Lemma search_loop_spec fuel i j f :
  (i <= j <= i + fuel)%nat ->
  (forall a b, (a <= b)%nat -> f a = true -> f b = true) ->
  (forall k, (k < i)%nat -> f k = false) -> (forall k, (j <= k)%nat -> f k = true \/ (j = k)%nat) ->
  let r := search_loop fuel i j f in
  (i <= r <= j)%nat /\ (forall k, (k < r)%nat -> f k = false) /\ (forall k, (r <= k < j)%nat -> f k = true).
Proof.
  intros Hfuel Hmono. revert i j Hfuel. induction fuel as [|fuel IH]; intros i j Hfuel Hlo Hhi.
  { cbn. split; [lia|]. split; [done|]. intros; lia. }
  cbn [search_loop]. destruct (Nat.ltb_spec i j); [|split; [lia|]; split; [done|intros; lia]].
  pose proof (Nat.div_mod_eq (i + j) 2). pose proof (Nat.mod_upper_bound (i + j) 2).
  set (h := ((i + j) / 2)%nat) in *. clearbody h. destruct (f h) eqn:Hf.
  - destruct (IH i h) as (R1 & R2 & R3); [lia|done| |].
    { intros k Hk. left. by apply (Hmono h). }
    split; [lia|]. split; [done|]. intros k Hk. destruct (decide (k < h)%nat); [apply R3; lia|].
    apply (Hmono h); [lia|done].
  - destruct (IH (S h) j) as (R1 & R2 & R3); [lia| |done|].
    { intros k Hk. destruct (f k) eqn:Hk'; [|done]. rewrite (Hmono k h) in Hf; [done|lia|done]. }
    split; [lia|]. done.
Qed.

(** The search for a lower bound in a sorted list of numbers. *)
Definition lower_bound (l : list N) (x : N) : nat :=
  sort_Search (length l) (fun i => match l !! i with Some k => (x <=? k)%N | None => true end).

Lemma lower_bound_spec (l : list N) (x : N) :
  StronglySorted N.le l ->
  exists a b, l = a ++ b /\ length a = lower_bound l x /\
    Forall (fun k => (k < x)%N) a /\ Forall (fun k => (x <= k)%N) b.
Proof.
  intros Hs. unfold lower_bound, sort_Search. set (f := fun i : nat => match l !! i with Some k => (x <=? k)%N | None => true end).
  assert (Hmono : forall a b, (a <= b)%nat -> f a = true -> f b = true).
  { intros a b Hab. unfold f. destruct (l !! b) as [kb|] eqn:Hb; [|done].
    destruct (lookup_lt_is_Some_2 l a) as [ka Ha]; [apply lookup_lt_Some in Hb; lia|]. rewrite Ha.
    intros H%N.leb_le. apply N.leb_le. destruct (decide (a = b)) as [->|]; [congruence|].
    pose proof (StronglySorted_app_1_elem_of N.le (take b l) (drop b l) ka kb) as HS.
    rewrite take_drop in HS. specialize (HS Hs).
    etrans; [exact H|]. apply HS; apply list_elem_of_lookup.
    - exists a. rewrite lookup_take_lt by lia. done.
    - exists 0%nat. by rewrite lookup_drop, Nat.add_0_r. }
  pose proof (search_loop_spec (length l) 0 (length l) f) as Hsp. cbn zeta in Hsp.
  destruct Hsp as (H1 & H2 & H3); [lia|done|intros; lia| |].
  { intros k Hk. left. unfold f. by rewrite lookup_ge_None_2. }
  set (r := search_loop _ _ _ _) in *. clearbody r.
  exists (take r l), (drop r l). rewrite take_drop, length_take. split; [done|]. split; [lia|].
  split; apply Forall_lookup_2; intros i k.
  - intros Hi. apply lookup_take_Some in Hi as [Hi Hir]. specialize (H2 i Hir). unfold f in H2. rewrite Hi in H2.
    by apply N.leb_gt.
  - rewrite lookup_drop. intros Hi. specialize (H3 (r + i)%nat). apply lookup_lt_Some in Hi as Hlt.
    specialize (H3 ltac:(lia)). unfold f in H3. rewrite Hi in H3. by apply N.leb_le.
Qed.

(** [slices.Sort] on unsigned integers. *)
Definition slices_Sort (l : list N) : list N := merge_sort N.le l.

Lemma slices_Sort_sorted l : StronglySorted N.le (slices_Sort l).
Proof. apply StronglySorted_merge_sort; apply _. Qed.

Lemma slices_Sort_perm l : slices_Sort l ≡ₚ l.
Proof. apply merge_sort_Permutation. Qed.
