(* ===== verification/StringTrie.v ===== *)
(** * Keyword search (infra/stringx: node.go, trie.go, replacer.go)

    The Aho-Corasick automaton behind [Trie] and [Replacer].  Nodes point to each other
    (children, failure links) and are mutated while the automaton is built, so they live
    in a heap; the root is address 0.  A dereference of nil is [None].  Go ranges over maps
    in an order it leaves open: [order] gives the order of a node's children, and the
    theorems hold for every order. *)

From S2P Require Import Prelude Utf8 GoSort.

#[local] Open Scope Z_scope.

Record node : Type := mkNode {
  children : gmap Z nat;
  fail : option nat;
  depth : nat;
  end_ : bool
}.

#[export] Instance eta_tnode : Eta node := fun n => mkNode (children n) (fail n) (depth n) (end_ n).

Record heap : Type := mkHeap { nodes : gmap nat node; fresh : nat }.
#[export] Instance eta_theap : Eta heap := fun h => mkHeap (nodes h) (fresh h).

Definition new_node : node := mkNode ∅ None 0 false.
Definition get (h : heap) (a : nat) : node := default new_node (nodes h !! a).
Definition put (h : heap) (a : nat) (n : node) : heap := h <| nodes := <[a := n]> (nodes h) |>.
Definition child (h : heap) (a : nat) (c : Z) : option nat := children (get h a) !! c.

Definition root : nat := 0%nat.
Definition new_heap : heap := mkHeap {[ root := new_node ]} 1.

(** ** Adding a word *)

(** The body of the loop of [add]: the node for [char] below [nd], created if missing. *)
Definition add_char (h : heap) (nd : nat) (i : nat) (char : Z) : heap * nat :=
  match child h nd char with
  | Some b => (h, b)
  | None =>
      let b := fresh h in
      let h := (put h b (new_node <| depth := (i + 1)%nat |>)) <| fresh := S (fresh h) |> in
      (put h nd ((get h nd) <| children := <[char := b]> (children (get h nd)) |>), b)
  end.

Fixpoint add_loop (h : heap) (nd : nat) (i : nat) (chars : list Z) : heap * nat :=
  match chars with
  | [] => (h, nd)
  | c :: chars => let '(h, nd) := add_char h nd i c in add_loop h nd (S i) chars
  end.

Definition add (h : heap) (word : list Z) : heap :=
  match word with
  | [] => h
  | _ => let '(h, nd) := add_loop h root 0 word in put h nd ((get h nd) <| end_ := true |>)
  end.

(** ** Failure links *)

Definition set_fail (h : heap) (a f : nat) : heap := put h a ((get h a) <| fail := Some f |>).

(** The inner loop of [build]: every failure link leads to a node of smaller depth, so the
    depth bounds the rounds. *)
Fixpoint fail_loop (fuel : nat) (h : heap) (key : Z) (cur : nat) : option nat :=
  match fuel with
  | O => None
  | S fuel =>
      match fail (get h cur) with
      | None => Some root
      | Some f =>
          match child h f key with
          | Some g => Some g
          | None => fail_loop fuel h key f
          end
      end
  end.

Section automaton.
Context (order : gmap Z nat -> list (Z * nat)).

(** The links of the children of [nd]; [None] is a loop that does not end. *)
Definition build_node (h : heap) (nd : nat) : option heap :=
  foldl (fun oh '(key, c) =>
      h ← oh; f ← fail_loop (S (depth (get h nd))) h key nd; Some (set_fail h c f))
    (Some h) (order (children (get h nd))).

(** The queue; every node enters it once. *)
Fixpoint build_loop (fuel : nat) (h : heap) (queue : list nat) : option heap :=
  match queue with
  | [] => Some h
  | nd :: queue =>
      match fuel with
      | O => None
      | S fuel => h' ← build_node h nd; build_loop fuel h' (queue ++ (order (children (get h nd))).*2)
      end
  end.

Definition build (h : heap) : option heap :=
  let cs := (order (children (get h root))).*2 in
  build_loop (fresh h) (foldl (fun h c => set_fail h c root) h cs) cs.

(** ** Searching *)

Record scope : Type := mkScope { start : nat; stop : nat }.

(** From [cur], the next node for [c]: [Some None] when there is none. *)
Fixpoint goto_loop (fuel : nat) (h : heap) (cur : nat) (c : Z) : option (nat * option nat) :=
  match fuel with
  | O => None
  | S fuel =>
      if (cur =? root)%nat then Some (cur, None)
      else
        match fail (get h cur) with
        | None => None                                       (* cur.children of a nil cur *)
        | Some f =>
            match child h f c with
            | Some b => Some (b, Some b)
            | None => goto_loop fuel h f c
            end
        end
  end.

(** The scopes that end at [i+1], following the failure links from [a]. *)
Fixpoint emit_loop (fuel : nat) (h : heap) (a : nat) (i : nat) : option (list scope) :=
  match fuel with
  | O => None
  | S fuel =>
      if (a =? root)%nat then Some []
      else
        match fail (get h a) with
        | None => None                                       (* child.end of a nil child *)
        | Some f =>
            rest ← emit_loop fuel h f i;
            Some ((if end_ (get h a) then [mkScope (i + 1 - depth (get h a)) (i + 1)] else []) ++ rest)
        end
  end.

Fixpoint find_loop (h : heap) (cur : nat) (i : nat) (chars : list Z) : option (list scope) :=
  match chars with
  | [] => Some []
  | c :: chars =>
      step ← match child h cur c with
             | Some b => Some (b, Some b)
             | None => goto_loop (S (depth (get h cur))) h cur c
             end;
      let '(cur, ch) := step in
      here ← match ch with
             | None => Some []
             | Some b => emit_loop (S (depth (get h b))) h b i
             end;
      rest ← find_loop h cur (S i) chars;
      Some (here ++ rest)
  end.

Definition find (h : heap) (chars : list Z) : option (list scope) := find_loop h root 0 chars.

(** [rep.add] for every word, then [rep.build]. *)
Definition automaton (words : list (list Z)) : option heap := build (foldl add new_heap words).

(** ** Trie *)

Definition slice (chars : list Z) (sc : scope) : list Z := take (stop sc - start sc) (drop (start sc) chars).

Definition defaultMask : Z := 42.

Record trieNode : Type := mkTrie { tn_heap : heap; tn_mask : Z }.

(** The mask option sets [mask]; 0 stands for no option. *)
Definition NewTrie (words : list string) (mask : Z) : option trieNode :=
  h ← automaton (runes_of <$> words); Some (mkTrie h (if mask =? 0 then defaultMask else mask)).

(** The keys of a map from strings; their order is left open. *)
Definition collectKeywords (chars : list Z) (scopes : list scope) : gset string :=
  list_to_set ((fun sc => string_of_runes (slice chars sc)) <$> scopes).

Fixpoint replaceWithAsterisk (mask : Z) (n i : nat) (chars : list Z) : list Z :=
  match n with
  | O => chars
  | S n => replaceWithAsterisk mask n (S i) (<[i := mask]> chars)
  end.

Definition Filter (t : trieNode) (text : string) : option (string * gset string * bool) :=
  let chars := runes_of text in
  match chars with
  | [] => Some (text, ∅, false)
  | _ =>
      scopes ← find (tn_heap t) chars;
      let keywords := collectKeywords chars scopes in
      let chars := foldl (fun cs sc => replaceWithAsterisk (tn_mask t) (stop sc - start sc) (start sc) cs) chars scopes in
      Some (string_of_runes chars, keywords, bool_decide (0 < size keywords)%nat)
  end.

Definition FindKeywords (t : trieNode) (text : string) : option (gset string) :=
  let chars := runes_of text in
  match chars with
  | [] => Some ∅
  | _ => scopes ← find (tn_heap t) chars; Some (collectKeywords chars scopes)
  end.

End automaton.

(** ** The trie: a node per prefix of a word *)

Fixpoint walk (h : heap) (a : nat) (p : list Z) : option nat :=
  match p with
  | [] => Some a
  | c :: p => b ← child h a c; walk h b p
  end.

Definition loc (h : heap) (p : list Z) : option nat := walk h root p.

Lemma walk_app h a p q : walk h a (p ++ q) = (b ← walk h a p; walk h b q).
Proof. revert a. induction p as [|c p IH]; intros a; [done|]. cbn. destruct (child h a c); [apply IH|done]. Qed.

Lemma loc_snoc h p c : loc h (p ++ [c]) = (a ← loc h p; child h a c).
Proof. unfold loc. rewrite walk_app. destruct (walk h root p); [|done]. cbn. by destruct (child h n c). Qed.

Lemma loc_prefix h p q : is_Some (loc h (p ++ q)) -> is_Some (loc h p).
Proof. unfold loc. rewrite walk_app. destruct (walk h root p); [done|]. by intros []. Qed.

(** [W] are the words added so far. *)
Record trie_ok (W : list Z -> Prop) (h : heap) : Prop := mk_trie_ok {
  tk_inj p q a : loc h p = Some a -> loc h q = Some a -> p = q;
  tk_depth p a : loc h p = Some a -> depth (get h a) = length p;
  tk_end p a : loc h p = Some a -> end_ (get h a) = true <-> W p;
  tk_word p : W p -> is_Some (loc h p);
  tk_fresh a : (fresh h <= a)%nat -> nodes h !! a = None;
  tk_root : (0 < fresh h)%nat
}.

Lemma get_put h a b n : get (put h a n) b = if decide (b = a) then n else get h b.
Proof.
  unfold get, put. cbn. destruct (decide (b = a)) as [->|]; [by rewrite lookup_insert_eq|by rewrite lookup_insert_ne].
Qed.

Lemma tk_bound W h p a : trie_ok W h -> loc h p = Some a -> (a < fresh h)%nat.
Proof.
  intros Hok Hp. destruct (decide (a < fresh h)%nat) as [|Hge]; [done|]. exfalso.
  pose proof (tk_fresh _ _ Hok a ltac:(lia)) as Hnone. destruct p as [|c p _] using rev_ind.
  - injection Hp as <-. pose proof (tk_root _ _ Hok). unfold root in *. lia.
  - pose proof (tk_depth _ _ Hok _ _ Hp) as Hd. unfold get in Hd. rewrite Hnone, length_app in Hd. cbn in Hd. lia.
Qed.

Lemma add_char_child h nd i c a x :
  (nd < fresh h)%nat -> (forall a, (fresh h <= a)%nat -> nodes h !! a = None) -> child h nd c = None ->
  let h' := (add_char h nd i c).1 in
  child h' a x = (if decide (a = nd /\ x = c) then Some (fresh h) else child h a x) /\
  depth (get h' a) = (if decide (a = fresh h) then (i + 1)%nat else depth (get h a)) /\
  end_ (get h' a) = end_ (get h a).
Proof.
  intros Hnd Hfresh Hc. cbn zeta. unfold add_char. rewrite Hc. cbn [fst]. set (h1 := (put h (fresh h) _) <| fresh := _ |>).
  assert (Hnew : get h (fresh h) = new_node) by (unfold get; by rewrite Hfresh by lia).
  assert (H1 : forall a, get h1 a = if decide (a = fresh h) then new_node <| depth := (i + 1)%nat |> else get h a)
    by (intros; unfold h1; exact (get_put h (fresh h) a0 _)).
  unfold child. rewrite get_put, !H1. clearbody h1.
  destruct (decide (a = nd)) as [->|Hne].
  - destruct (decide (nd = fresh h)); [lia|]. cbn. split; [|done]. destruct (decide (x = c)) as [->|].
    + by rewrite decide_True, lookup_insert_eq.
    + rewrite decide_False, lookup_insert_ne by naive_solver. done.
  - rewrite (decide_False (P := a = nd /\ x = c)) by naive_solver. destruct (decide (a = fresh h)) as [->|]; [|done].
    rewrite Hnew. done.
Qed.

Lemma add_char_loc W h p nd i c q :
  trie_ok W h -> loc h p = Some nd -> child h nd c = None ->
  loc (add_char h nd i c).1 q = if decide (q = p ++ [c]) then Some (fresh h) else loc h q.
Proof.
  intros Hok Hp Hc. pose proof (tk_bound _ _ _ _ Hok Hp) as Hnd.
  pose proof (fun a x => proj1 (add_char_child h nd i c a x Hnd (tk_fresh _ _ Hok) Hc)) as Hch.
  assert (Hnone : loc h (p ++ [c]) = None) by (by rewrite loc_snoc, Hp).
  induction q as [|x q IH] using rev_ind; [by destruct p|]. rewrite loc_snoc, IH, loc_snoc. clear IH.
  destruct (decide (q = p ++ [c])) as [->|Hq].
  - rewrite Hnone. cbn. rewrite Hch, decide_False by (intros [? _]; lia). rewrite decide_False.
    + unfold child, get. by rewrite (tk_fresh _ _ Hok) by lia.
    + intros E%(f_equal length). rewrite !length_app in E. cbn in E. lia.
  - destruct (loc h q) as [a|] eqn:Ea; cbn.
    + rewrite Hch. destruct (decide (q ++ [x] = p ++ [c])) as [[-> ->]%app_inj_tail|Hne].
      * rewrite decide_True; [done|]. split; [congruence|done].
      * rewrite decide_False; [done|]. intros [-> ->]. apply Hne. by rewrite (tk_inj _ _ Hok q p nd).
    + rewrite decide_False; [done|]. intros [-> ->]%app_inj_tail. congruence.
Qed.

Lemma add_char_ok W h p nd c :
  trie_ok W h -> loc h p = Some nd ->
  let r := add_char h nd (length p) c in
  trie_ok W r.1 /\ loc r.1 (p ++ [c]) = Some r.2 /\ forall q, is_Some (loc h q) -> loc r.1 q = loc h q.
Proof.
  intros Hok Hp r. pose proof (tk_bound _ _ _ _ Hok Hp) as Hnd. destruct (child h nd c) as [b|] eqn:Hc.
  { unfold r, add_char. rewrite Hc. cbn. split; [done|]. split; [by rewrite loc_snoc, Hp|done]. }
  pose proof (fun q => add_char_loc W h p nd (length p) c q Hok Hp Hc) as Hl. fold r in Hl.
  assert (Hnone : loc h (p ++ [c]) = None) by (by rewrite loc_snoc, Hp).
  assert (Hr2 : r.2 = fresh h /\ fresh r.1 = S (fresh h) /\ forall a, (S (fresh h) <= a)%nat -> nodes r.1 !! a = None).
  { unfold r, add_char. rewrite Hc. cbn. split_and!; [done..|]. intros a Ha.
    rewrite !lookup_insert_ne by lia. apply (tk_fresh _ _ Hok). lia. }
  destruct Hr2 as (Hr2 & Hfr & Hfresh). split; [|split].
  - pose proof (fun a => proj2 (add_char_child h nd (length p) c a 0 Hnd (tk_fresh _ _ Hok) Hc)) as Hg. fold r in Hg.
    constructor.
    + intros q q' a. rewrite !Hl. destruct (decide (q = p ++ [c])) as [->|], (decide (q' = p ++ [c])) as [->|]; [done|..].
      * intros [= <-] H. apply (tk_bound _ _ _ _ Hok) in H. lia.
      * intros H [= <-]. apply (tk_bound _ _ _ _ Hok) in H. lia.
      * apply (tk_inj _ _ Hok).
    + intros q a. rewrite Hl, (proj1 (Hg a)). destruct (decide (q = p ++ [c])) as [->|].
      * intros [= <-]. rewrite decide_True by done. rewrite length_app. cbn. lia.
      * intros H. rewrite decide_False; [by apply (tk_depth _ _ Hok)|]. apply (tk_bound _ _ _ _ Hok) in H. lia.
    + intros q a. rewrite Hl, (proj2 (Hg a)). destruct (decide (q = p ++ [c])) as [->|]; [|apply (tk_end _ _ Hok)].
      intros [= <-]. unfold get. rewrite (tk_fresh _ _ Hok) by lia. cbn. split; [done|].
      intros H%(tk_word _ _ Hok). rewrite Hnone in H. by destruct H.
    + intros q Hq%(tk_word _ _ Hok). rewrite Hl. by destruct (decide _).
    + rewrite Hfr. exact Hfresh.
    + lia.
  - rewrite Hl, decide_True by done. congruence.
  - intros q [a Ha]. rewrite Hl. destruct (decide (q = p ++ [c])) as [->|]; [congruence|done].
Qed.

Lemma add_loop_ok W chars h p nd :
  trie_ok W h -> loc h p = Some nd ->
  let r := add_loop h nd (length p) chars in
  trie_ok W r.1 /\ loc r.1 (p ++ chars) = Some r.2 /\ forall q, is_Some (loc h q) -> loc r.1 q = loc h q.
Proof.
  revert h p nd. induction chars as [|c chars IH]; intros h p nd Hok Hp; cbn.
  { by rewrite app_nil_r. }
  pose proof (add_char_ok W h p nd c Hok Hp) as (H1 & H2 & H3). destruct (add_char h nd (length p) c) as [h1 b]. cbn in *.
  destruct (IH h1 (p ++ [c]) b H1 H2) as (I1 & I2 & I3). rewrite length_app in *. cbn in *. rewrite Nat.add_1_r in *.
  rewrite <- (assoc_L app) in I2. split_and!; [done..|]. intros q Hq. rewrite I3; [by apply H3|]. by rewrite H3.
Qed.

(** Changing the other fields of nodes keeps the paths. *)
Lemma loc_same h h' p : (forall a, children (get h' a) = children (get h a)) -> loc h' p = loc h p.
Proof.
  intros E. unfold loc. generalize root. induction p as [|c p IH]; intros a; [done|]. cbn. unfold child. rewrite E.
  destruct (children (get h a) !! c); [apply IH|done].
Qed.

Lemma add_ok W h word : trie_ok W h -> trie_ok (fun p => W p \/ (p = word /\ word <> [])) (add h word).
Proof.
  intros Hok. unfold add. destruct word as [|c word].
  { destruct Hok as [H1 H2 H3 H4 H5 H6]. constructor; try done; [|naive_solver]. intros p a Hp. rewrite H3; naive_solver. }
  set (w := c :: word). pose proof (add_loop_ok W w h [] root Hok eq_refl) as (H1 & H2 & _). cbn [length app] in *.
  destruct (add_loop h root 0 w) as [h1 nd]. cbn [fst snd] in *.
  set (h2 := put h1 nd _). assert (Hg : forall a, children (get h2 a) = children (get h1 a) /\ depth (get h2 a) = depth (get h1 a) /\
    end_ (get h2 a) = if decide (a = nd) then true else end_ (get h1 a)).
  { intros a. unfold h2. rewrite get_put. by destruct (decide (a = nd)) as [->|]. }
  assert (Hl : forall p, loc h2 p = loc h1 p) by (intros; apply loc_same; intros a; by destruct (Hg a)).
  assert (Hnd := tk_bound _ _ _ _ H1 H2).
  constructor.
  - intros p q a. rewrite !Hl. apply (tk_inj _ _ H1).
  - intros p a. rewrite Hl. destruct (Hg a) as (_ & -> & _). apply (tk_depth _ _ H1).
  - intros p a. rewrite Hl. destruct (Hg a) as (_ & _ & ->). intros Hp. destruct (decide (a = nd)) as [->|Hne].
    + split; [|done]. intros _. right. split; [|done]. by apply (tk_inj _ _ H1 _ _ nd).
    + rewrite (tk_end _ _ H1 _ _ Hp). split; [tauto|]. intros [|[-> _]]; [done|]. congruence.
  - intros p [Hp|[-> _]]; rewrite Hl; [by apply (tk_word _ _ H1)|by rewrite H2].
  - intros a Ha. unfold h2, put. cbn. rewrite lookup_insert_ne by (cbn in *; lia). by apply (tk_fresh _ _ H1).
  - exact (tk_root _ _ H1).
Qed.

(** ** Failure links *)

(** Same paths, depths and ends; only failure links may differ. *)
Definition shape (h h' : heap) : Prop :=
  fresh h' = fresh h /\
  forall a, children (get h' a) = children (get h a) /\ depth (get h' a) = depth (get h a) /\ end_ (get h' a) = end_ (get h a).

#[export] Instance shape_preorder : PreOrder shape.
Proof.
  split; [done|]. intros h1 h2 h3 [F1 H1] [F2 H2]. split; [congruence|]. intros a.
  destruct (H1 a) as (? & ? & ?), (H2 a) as (? & ? & ?). split_and!; congruence.
Qed.

Lemma shape_loc h h' p : shape h h' -> loc h' p = loc h p.
Proof. intros [_ H]. apply loc_same. intros a. by destruct (H a). Qed.

Lemma shape_child h h' a c : shape h h' -> child h' a c = child h a c.
Proof. intros [_ H]. unfold child. by destruct (H a) as [-> _]. Qed.

Lemma shape_set_fail h a f : shape h (set_fail h a f).
Proof. split; [done|]. intros b. unfold set_fail. rewrite get_put. by destruct (decide (b = a)) as [->|]. Qed.

Lemma fail_set_fail h a f b : fail (get (set_fail h a f) b) = if decide (b = a) then Some f else fail (get h b).
Proof. unfold set_fail. rewrite get_put. by destruct (decide (b = a)). Qed.

(** [s] is the longest suffix of [p] in the trie among those [Q] accepts. *)
Record longest (h : heap) (Q : list Z -> Prop) (p s : list Z) : Prop := mk_longest {
  lg_suffix : s `suffix_of` p; lg_ok : Q s; lg_loc : is_Some (loc h s);
  lg_max t : t `suffix_of` p -> Q t -> is_Some (loc h t) -> (length t <= length s)%nat
}.

Definition lps (h : heap) (p : list Z) : list Z -> Prop := longest h (fun s => s <> p) p.

Lemma suffix_lt (s p : list Z) : s `suffix_of` p -> s <> p -> (length s < length p)%nat.
Proof.
  intros [x ->] Hne. rewrite length_app. destruct x; [done|]. cbn. lia.
Qed.

Lemma suffix_of_length_eq (s p : list Z) : s `suffix_of` p -> length s = length p -> s = p.
Proof. intros [x ->] E. rewrite length_app in E. destruct x; [done|]. cbn in E. lia. Qed.

Lemma suffix_comparable (s t p : list Z) : s `suffix_of` p -> t `suffix_of` p -> (length s <= length t)%nat -> s `suffix_of` t.
Proof.
  intros Hs Ht Hl. apply suffix_prefix_reverse. apply suffix_prefix_reverse in Hs, Ht.
  destruct (prefix_weak_total (reverse s) (reverse t) (reverse p) Hs Ht) as [|[x E]]; [done|].
  apply (f_equal length) in E as E'. rewrite length_app, !length_reverse in E'. destruct x; [|cbn in E'; lia].
  exists []. rewrite E. by rewrite !app_nil_r.
Qed.

Lemma suffix_snoc_inv (t p : list Z) c : t `suffix_of` p ++ [c] -> t = [] \/ exists t', t = t' ++ [c] /\ t' `suffix_of` p.
Proof.
  intros [x E]. destruct t as [|d t _] using rev_ind; [by left|]. right. rewrite (assoc_L app) in E.
  apply app_inj_tail in E as [-> ->]. exists t. split; [done|]. by exists x.
Qed.

(** The failure link of the node [p] leads to its longest proper suffix. *)
Definition fail_ok (h : heap) (p : list Z) : Prop :=
  forall a, loc h p = Some a -> exists s f, lps h p s /\ loc h s = Some f /\ fail (get h a) = Some f.

Lemma lps_shape h h' p s : shape h h' -> lps h p s -> lps h' p s.
Proof.
  intros Hs [H1 H2 H3 H4]. constructor; [done..|by rewrite (shape_loc _ _ _ Hs)|]. intros t. rewrite (shape_loc _ _ _ Hs). apply H4.
Qed.

Lemma fail_ok_shape h h' p : shape h h' -> (forall a, loc h p = Some a -> fail (get h' a) = fail (get h a)) -> fail_ok h p -> fail_ok h' p.
Proof.
  intros Hs Hf Hok a. rewrite (shape_loc _ _ _ Hs). intros Ha. destruct (Hok a Ha) as (s & f & H1 & H2 & H3).
  exists s, f. split; [by eapply lps_shape|]. rewrite (shape_loc _ _ _ Hs), (Hf a Ha). done.
Qed.

(** No suffix of [p] of length [n] or more, other than those [Q] refuses, continues with [c]. *)
Definition none_from (h : heap) (Q : list Z -> Prop) (p : list Z) (c : Z) (n : nat) : Prop :=
  forall t, t `suffix_of` p -> Q t -> is_Some (loc h (t ++ [c])) -> (length t < n)%nat.

(** One step along a failure link, for [fail_loop] and [goto_loop]. *)
Lemma fail_step h Q p c q s :
  q `suffix_of` p -> none_from h Q p c (length q) -> lps h q s -> Q s ->
  s `suffix_of` p /\ (length s < length q)%nat /\
  match loc h (s ++ [c]) with
  | Some _ => forall t, t `suffix_of` p -> Q t -> is_Some (loc h (t ++ [c])) -> (length t <= length s)%nat
  | None => none_from h Q p c (length s)
  end.
Proof.
  intros Hq Hnone Hs HQ. destruct Hs as [S1 S2 S3 S4].
  assert (Hle : forall t, t `suffix_of` p -> Q t -> is_Some (loc h (t ++ [c])) -> (length t <= length s)%nat).
  { intros t Ht HQt Hl. pose proof (Hnone t Ht HQt Hl) as Hlt. apply S4; [|intros ->; lia|by eapply loc_prefix].
    apply (suffix_comparable t q p); [done..|lia]. }
  split; [by transitivity q|]. split; [by apply suffix_lt|]. destruct (loc h (s ++ [c])) eqn:E; [done|].
  intros t Ht HQt Hl. specialize (Hle t Ht HQt Hl). destruct (decide (length t = length s)) as [El|]; [|lia].
  apply (suffix_comparable t s p) in Ht; [|by transitivity q|lia].
  apply suffix_of_length_eq in Ht; [|done]. subst t. rewrite E in Hl. by destruct Hl.
Qed.

Lemma longest_snoc h (Q Q' : list Z -> Prop) p c s :
  s `suffix_of` p -> (forall t, Q' (t ++ [c]) <-> Q t) -> Q s -> is_Some (loc h (s ++ [c])) ->
  (forall t, t `suffix_of` p -> Q t -> is_Some (loc h (t ++ [c])) -> (length t <= length s)%nat) ->
  longest h Q' (p ++ [c]) (s ++ [c]).
Proof.
  intros Hs HQ HQs Hl Hmax. constructor; [by apply suffix_app|by apply HQ|done|].
  intros t Ht HQt Hlt. apply suffix_snoc_inv in Ht as [->|(t' & -> & Ht)]; [cbn; lia|].
  rewrite !length_app. specialize (Hmax t' Ht ltac:(by apply HQ) Hlt). lia.
Qed.

Lemma longest_nil h (Q Q' : list Z -> Prop) p c :
  (forall t, Q' (t ++ [c]) <-> Q t) -> Q' [] -> none_from h Q p c 0 -> longest h Q' (p ++ [c]) [].
Proof.
  intros HQ HQ0 Hnone. constructor; [apply suffix_nil|done|by eexists|]. intros t Ht HQt Hlt.
  apply suffix_snoc_inv in Ht as [->|(t' & -> & Ht)]; [done|]. specialize (Hnone t' Ht ltac:(by apply HQ) Hlt). lia.
Qed.

Lemma proper_snoc (p t : list Z) c : t ++ [c] <> p ++ [c] <-> t <> p.
Proof. split; [congruence|]. intros Hne [E _]%app_inj_tail. done. Qed.

Lemma fail_loop_ok h p c fuel q cur :
  fail (get h root) = None -> (forall r, r <> [] -> (length r <= length p)%nat -> fail_ok h r) ->
  q `suffix_of` p -> loc h q = Some cur -> none_from h (fun t => t <> p) p c (length q) -> (length q < fuel)%nat ->
  exists s g, fail_loop fuel h c cur = Some g /\ loc h s = Some g /\ lps h (p ++ [c]) s.
Proof.
  intros Hroot Hok. revert q cur. induction fuel as [|fuel IH]; intros q cur Hq Hcur Hnone Hf; [lia|]. cbn [fail_loop].
  destruct (decide (q = [])) as [->|Hq0].
  { injection Hcur as <-. fold root. rewrite Hroot. exists [], root. split_and!; [done..|].
    apply (longest_nil _ (fun t => t <> p)); [intros ?; apply proper_snoc| |done]. intros E%(f_equal length). rewrite length_app in E. cbn in E. lia. }
  destruct (Hok q Hq0 (suffix_length _ _ Hq) cur Hcur) as (s & f & Hs & Hsf & ->).
  assert (Hsp : s <> p) by (intros ->; pose proof (suffix_lt _ _ (lg_suffix _ _ _ _ Hs) (lg_ok _ _ _ _ Hs)); pose proof (suffix_length _ _ Hq); lia).
  destruct (fail_step _ _ _ _ _ _ Hq Hnone Hs Hsp) as (Hs1 & Hs2 & Hs3). rewrite loc_snoc, Hsf in Hs3. cbn in Hs3.
  destruct (child h f c) as [g|] eqn:Eg.
  - assert (Hg : loc h (s ++ [c]) = Some g) by (by rewrite loc_snoc, Hsf). exists (s ++ [c]), g. split_and!; [done..|].
    apply (longest_snoc _ (fun t => t <> p)); [done|intros ?; apply proper_snoc|done|by rewrite Hg|done].
  - apply (IH s f); [done..|lia].
Qed.

Lemma trie_ok_shape W h h' : shape h h' -> (forall a, (fresh h <= a)%nat -> nodes h' !! a = None) -> trie_ok W h -> trie_ok W h'.
Proof.
  intros Hs Hn [H1 H2 H3 H4 H5 H6]. pose proof Hs as [Hf Hg]. constructor.
  - intros p q a. rewrite !(shape_loc _ _ _ Hs). apply H1.
  - intros p a. rewrite (shape_loc _ _ _ Hs). destruct (Hg a) as (_ & -> & _). apply H2.
  - intros p a. rewrite (shape_loc _ _ _ Hs). destruct (Hg a) as (_ & _ & ->). apply H3.
  - intros p. rewrite (shape_loc _ _ _ Hs). apply H4.
  - by rewrite Hf.
  - by rewrite Hf.
Qed.

Section build.
Context (order : gmap Z nat -> list (Z * nat)) (order_perm : forall m, order m ≡ₚ map_to_list m).
Context (W : list Z -> Prop) (h0 : heap) (Hok0 : trie_ok W h0).

Lemma order_elem m k a : (k, a) ∈ order m <-> m !! k = Some a.
Proof using order_perm. rewrite order_perm. apply elem_of_map_to_list. Qed.

(** What building below the node [q] changes. *)
Definition only_below (q : list Z) (h h' : heap) : Prop :=
  shape h h' /\ forall a, (forall c, loc h (q ++ [c]) <> Some a) -> fail (get h' a) = fail (get h a).

Lemma loc_root_nil h p : shape h0 h -> loc h p = Some root -> p = [].
Proof using Hok0. intros Hs. rewrite (shape_loc _ _ _ Hs). intros H. by apply (tk_inj _ _ Hok0 _ _ root). Qed.

Lemma loc_inj h p q a : shape h0 h -> loc h p = Some a -> loc h q = Some a -> p = q.
Proof using Hok0. intros Hs. rewrite !(shape_loc _ _ _ Hs). apply (tk_inj _ _ Hok0). Qed.

Lemma build_node_ok h q nd :
  shape h0 h -> loc h q = Some nd -> fail (get h root) = None ->
  (forall r, r <> [] -> (length r <= length q)%nat -> fail_ok h r) ->
  exists h', build_node order h nd = Some h' /\ only_below q h h' /\ forall c, fail_ok h' (q ++ [c]).
Proof using order_perm Hok0.
  intros Hs0 Hq Hroot Hok. unfold build_node.
  assert (Hgo : forall l h1, (forall k c, (k, c) ∈ l -> loc h (q ++ [k]) = Some c) -> only_below q h h1 ->
    exists h', foldl (fun oh '(key, c) => h ← oh; f ← fail_loop (S (depth (get h nd))) h key nd; Some (set_fail h c f)) (Some h1) l = Some h' /\
      only_below q h h' /\ (forall k, fail_ok h1 (q ++ [k]) \/ (exists c, (k, c) ∈ l) -> fail_ok h' (q ++ [k]))).
  { induction l as [|[k c] l IH]; intros h1 Hl [Hs1 Hout]; [exists h1; split_and!; [done..|]; intros k [H|[c H]]; [done|set_solver]|].
    cbn [foldl mbind option_bind]. assert (Hkc : loc h (q ++ [k]) = Some c) by (apply Hl; set_solver).
    assert (Hd : depth (get h1 nd) = length q).
    { destruct (transitivity Hs0 Hs1) as [_ Hg]. destruct (Hg nd) as (_ & -> & _). apply (tk_depth _ _ Hok0).
      by rewrite <- (shape_loc _ _ _ Hs0). }
    destruct (fail_loop_ok h1 q k (S (depth (get h1 nd))) q nd) as (s & g & -> & Hg & Hlps).
    + rewrite Hout; [done|]. intros x Hx%loc_root_nil; [by destruct q|done].
    + intros r Hr Hlen. eapply fail_ok_shape, Hok; [done| |done..]. intros a Ha. apply Hout. intros x Hx.
      pose proof (loc_inj _ _ _ _ Hs0 Ha Hx) as ->. rewrite length_app in Hlen. cbn in Hlen. lia.
    + done.
    + by rewrite (shape_loc _ _ _ Hs1).
    + intros t Ht Hne _. by apply suffix_lt.
    + lia.
    + cbn [mbind option_bind]. set (h2 := set_fail h1 c g). pose proof (shape_set_fail h1 c g) as Hs2. fold h2 in Hs2.
      assert (Hk : fail_ok h2 (q ++ [k])).
      { intros a. rewrite (shape_loc _ _ _ Hs2), (shape_loc _ _ _ Hs1), Hkc. intros [= <-]. exists s, g.
        split; [by eapply lps_shape|]. rewrite (shape_loc _ _ _ Hs2). split; [done|]. unfold h2. by rewrite fail_set_fail, decide_True. }
      destruct (IH h2) as (h' & E & Hb & Hdone).
      * intros k' c' H. apply Hl. set_solver.
      * split; [by transitivity h1|]. intros a Ha. unfold h2. rewrite fail_set_fail, decide_False; [by apply Hout|].
        intros ->. by apply (Ha k).
      * exists h'. split_and!; [done..|]. intros k' [H|[c' Hc']]; apply Hdone.
        -- left. destruct (decide (k' = k)) as [->|Hne]; [done|]. eapply fail_ok_shape, H; [done|]. intros a.
           rewrite (shape_loc _ _ _ Hs1). intros Ha. unfold h2. rewrite fail_set_fail, decide_False; [done|]. intros ->. apply Hne.
           pose proof (loc_inj _ _ _ _ Hs0 Ha Hkc) as [_ ?]%app_inj_tail. done.
        -- apply elem_of_cons in Hc' as [[= -> ->]|Hc']; [by left|right; eauto]. }
  destruct (Hgo (order (children (get h nd))) h) as (h' & E & Hb & Hdone).
  - intros k c H%order_elem. by rewrite loc_snoc, Hq.
  - done.
  - exists h'. split_and!; [done..|]. intros c. destruct (loc h (q ++ [c])) as [a|] eqn:Ea.
    + apply Hdone. right. exists a. apply order_elem. by rewrite loc_snoc, Hq in Ea.
    + destruct Hb as [Hsb _]. intros a. rewrite (shape_loc _ _ _ Hsb), Ea. done.
Qed.

(** The queue holds the frontier: [P] are the nodes already served. *)
Record queue_ok (h : heap) (P : gset nat) (queue : list nat) (qs : list (list Z)) (d : nat) : Prop := mk_queue_ok {
  q_shape : shape h0 h;
  q_root : fail (get h root) = None;
  q_names : Forall2 (fun q a => loc h q = Some a) qs queue;
  q_sorted : StronglySorted le (length <$> qs);
  q_depth q : q ∈ qs -> q <> [] /\ (d <= length q <= S d)%nat;
  q_nodup : NoDup queue;
  q_disj a : a ∈ queue -> a ∉ P;
  q_served a : a ∈ P -> (a < fresh h0)%nat;
  q_frontier p c a : loc h (p ++ [c]) = Some a ->
    (a ∈ P \/ a ∈ queue) <-> (p = [] \/ exists b, loc h p = Some b /\ b ∈ P);
  q_ok p a : p <> [] -> loc h p = Some a -> (a ∈ P \/ a ∈ queue) -> fail_ok h p
}.

Lemma q_covered h P queue qs d p a : queue_ok h P queue qs d -> p <> [] -> loc h p = Some a ->
  (a ∈ P \/ a ∈ queue) \/ exists q, q ∈ qs /\ (length q < length p)%nat.
Proof.
  intros Hq. revert a. induction p as [|c p IH] using rev_ind; intros a Hne Ha; [done|]. clear Hne.
  destruct (decide (p = [])) as [->|Hp]; [left; apply (q_frontier _ _ _ _ _ Hq [] c a Ha); by left|].
  pose proof Ha as Hb. rewrite loc_snoc in Hb. destruct (loc h p) as [b|] eqn:Eb; [|done]. clear Hb.
  rewrite length_app. cbn. destruct (IH b Hp eq_refl) as [[Hb|Hb]|(q & Hin & Hlt)].
  - left. apply (q_frontier _ _ _ _ _ Hq p c a Ha). eauto.
  - right. exists p. split; [|lia]. destruct (list_elem_of_lookup_1 _ _ Hb) as [i Hi].
    destruct (Forall2_lookup_r _ _ _ _ _ (q_names _ _ _ _ _ Hq) Hi) as (q & Hqi & Hl). apply list_elem_of_lookup.
    exists i. rewrite Hqi. f_equal. by eapply loc_inj; [apply (q_shape _ _ _ _ _ Hq)|..].
  - right. exists q. split; [done|lia].
Qed.

Lemma queue_step h P nd queue q qs d h' :
  queue_ok h P (nd :: queue) (q :: qs) d -> only_below q h h' -> (forall c, fail_ok h' (q ++ [c])) ->
  let cs := order (children (get h nd)) in
  queue_ok h' ({[nd]} ∪ P) (queue ++ cs.*2) (qs ++ ((fun kc : Z * nat => q ++ [kc.1]) <$> cs)) (length q).
Proof using order_perm Hok0.
  intros Hq [Hs Hout] Hnew cs. pose proof Hq as [Q1 Q2 Q3 Q4 Q5 Q6 Q7 Q8 Q9 Q10].
  apply Forall2_cons_1 in Q3 as [Hnd Q3]. apply StronglySorted_cons in Q4 as [Q4a Q4]. apply NoDup_cons in Q6 as [Q6a Q6].
  destruct (Q5 q ltac:(set_solver)) as [Hqne Hqd].
  assert (Hcs : forall k a, (k, a) ∈ cs <-> loc h (q ++ [k]) = Some a) by (intros; unfold cs; rewrite order_elem, loc_snoc, Hnd; done).
  assert (Hcs2 : forall a, a ∈ cs.*2 <-> exists k, loc h (q ++ [k]) = Some a).
  { intros a. rewrite list_elem_of_fmap. split; [intros ([k b] & -> & H%Hcs); eauto|]. intros [k H%Hcs]. by exists (k, a). }
  assert (Hnd_new : forall a, a ∈ cs.*2 -> a ∉ P /\ a ∉ nd :: queue).
  { intros a [k Ha]%Hcs2. pose proof (Q9 q k a Ha) as Hf. assert (~ (a ∈ P \/ a ∈ nd :: queue)); [|tauto]. rewrite Hf.
    intros [?|(b & Hb & HbP)]; [done|]. assert (b = nd) as -> by congruence. by apply (Q7 nd); [left|]. }
  assert (Hqs : forall x, x ∈ qs -> (length q <= length x <= S (length q))%nat).
  { intros x Hx. rewrite Forall_forall in Q4a. split; [apply Q4a, list_elem_of_fmap; eauto|]. destruct (Q5 x); [set_solver|lia]. }
  constructor.
  - by transitivity h.
  - rewrite Hout; [done|]. intros c Hc%loc_root_nil; [by destruct q|done].
  - apply Forall2_app; [eapply Forall2_impl; [done|]; intros x a Hx; by rewrite (shape_loc _ _ _ Hs)|].
    apply Forall2_fmap_2, Forall_Forall2_diag. apply Forall_forall. intros [k a] H%Hcs. by rewrite (shape_loc _ _ _ Hs).
  - rewrite fmap_app. apply StronglySorted_app. split_and!; [|done|].
    + intros x y (x' & -> & Hx)%list_elem_of_fmap (y' & -> & Hy)%list_elem_of_fmap. apply list_elem_of_fmap in Hy as (kc & -> & _).
      rewrite length_app. cbn. destruct (Hqs x' Hx). lia.
    + clear. induction cs as [|kc cs IH]; cbn; constructor; [done|]. apply Forall_forall. intros x (y & -> & (kc' & -> & _)%list_elem_of_fmap)%list_elem_of_fmap.
      rewrite !length_app. cbn. lia.
  - intros x [Hx|(kc & -> & _)%list_elem_of_fmap]%elem_of_app; [split; [by apply Q5; right|by apply Hqs]|].
    split; [by destruct q|]. rewrite length_app. cbn. lia.
  - apply NoDup_app. split_and!; [done| |].
    + intros a Ha Ha'. destruct (Hnd_new a Ha') as [_ Hn]. set_solver.
    + apply NoDup_fmap_2_strong.
      * intros [k a] [k' a'] H1%Hcs H2%Hcs. cbn. intros <-. pose proof (loc_inj _ _ _ _ Q1 H1 H2) as [_ ->]%app_inj_tail. done.
      * unfold cs. rewrite order_perm. apply NoDup_map_to_list.
  - intros a [Ha|Ha]%elem_of_app; rewrite not_elem_of_union, not_elem_of_singleton.
    + split; [congruence|apply Q7; by right].
    + destruct (Hnd_new a Ha). set_solver.
  - intros a [->%elem_of_singleton|Ha]%elem_of_union; [|by apply Q8]. rewrite (shape_loc _ _ _ Q1) in Hnd. by eapply tk_bound.
  - intros p c a. rewrite !(shape_loc _ _ _ Hs). intros Ha. rewrite elem_of_union, elem_of_singleton, elem_of_app, Hcs2. specialize (Q9 p c a Ha).
    setoid_rewrite elem_of_union. setoid_rewrite elem_of_singleton. split.
    + intros [[Ea|Ha']|[Ha'|[k Hk]]].
      * destruct (proj1 Q9) as [|(b & ? & ?)]; [right; rewrite Ea; by left|by left|right; eauto].
      * destruct (proj1 Q9) as [|(b & ? & ?)]; [by left|by left|right; eauto].
      * destruct (proj1 Q9) as [|(b & ? & ?)]; [by right; right|by left|right; eauto].
      * pose proof (loc_inj _ _ _ _ Q1 Ha Hk) as [-> ->]%app_inj_tail. right. exists nd. auto.
    + intros Hp. destruct Hp as [->|(b & Hb & [->|HbP])].
      * destruct (proj2 Q9) as [|[ |]%elem_of_cons]; auto.
      * assert (p = q) as -> by (by eapply loc_inj). right; right; eauto.
      * destruct (proj2 Q9) as [|[ |]%elem_of_cons]; [right; eauto|auto..].
  - intros p a Hp. rewrite (shape_loc _ _ _ Hs). rewrite elem_of_union, elem_of_singleton, elem_of_app, Hcs2. intros Ha Hin.
    assert (Hc : (exists k, p = q ++ [k]) \/ forall k, loc h (q ++ [k]) <> Some a).
    { destruct (decide (p = q ++ [default 0 (last p)])) as [E|Hne]; [left; eauto|]. right. intros k Hk.
      pose proof (loc_inj _ _ _ _ Q1 Ha Hk) as ->. apply Hne. by rewrite last_snoc. }
    destruct Hc as [[k ->]|Hc]; [apply Hnew|]. eapply fail_ok_shape; [done| |].
    { intros b. rewrite Ha. intros [= <-]. by apply Hout. }
    apply (Q10 p a Hp Ha). destruct Hin as [[->|?]|[?|[k Hk]]]; [right; by left|by left|right; by right|]. by apply Hc in Hk.
Qed.

Lemma build_loop_ok fuel h P queue qs d :
  queue_ok h P queue qs d -> (fresh h0 <= size P + fuel)%nat ->
  exists h', build_loop order fuel h queue = Some h' /\ shape h0 h' /\ forall p, p <> [] -> fail_ok h' p.
Proof using order_perm Hok0.
  revert h P queue qs d. induction fuel as [|fuel IH]; intros h P queue qs d Hq Hf.
  all: destruct queue as [|nd queue]; cbn [build_loop].
  1, 3: exists h; split_and!; [done|apply (q_shape _ _ _ _ _ Hq)|]; intros p Hp a Ha;
    destruct (q_covered _ _ _ _ _ p a Hq Hp Ha) as [[H|H]|(q & H & _)];
    [by apply (q_ok _ _ _ _ _ Hq p a Hp Ha); [left|..]|set_solver|].
  1, 2: pose proof (q_names _ _ _ _ _ Hq) as Hn; apply Forall2_nil_inv_r in Hn; subst qs; set_solver.
  - exfalso. assert (Hsub : {[nd]} ∪ P ⊆ set_seq 0 (fresh h0)).
    { intros a [->%elem_of_singleton|Ha]%elem_of_union; apply elem_of_set_seq; [|apply (q_served _ _ _ _ _ Hq) in Ha; lia].
      pose proof (q_names _ _ _ _ _ Hq) as Hn. apply Forall2_cons_inv_r in Hn as (q & qs' & Hnd & _). 
      rewrite (shape_loc _ _ _ (q_shape _ _ _ _ _ Hq)) in Hnd. apply (tk_bound _ _ _ _ Hok0) in Hnd. lia. }
    apply subseteq_size in Hsub. rewrite size_set_seq, size_union, size_singleton in Hsub; [lia|].
    pose proof (q_disj _ _ _ _ _ Hq nd). set_solver.
  - pose proof (q_names _ _ _ _ _ Hq) as Hn. apply Forall2_cons_inv_r in Hn as (q & qs' & Hnd & _ & ->).
    destruct (build_node_ok h q nd (q_shape _ _ _ _ _ Hq) Hnd (q_root _ _ _ _ _ Hq)) as (h' & -> & Hb & Hnew).
    + intros r Hr Hlen a Ha. destruct (q_covered _ _ _ _ _ r a Hq Hr Ha) as [Hin|(x & Hx & Hlt)].
      { by apply (q_ok _ _ _ _ _ Hq r a Hr Ha Hin). }
      exfalso. pose proof (q_sorted _ _ _ _ _ Hq) as Hs. cbn in Hs. apply StronglySorted_cons in Hs as [Hs _]. rewrite Forall_forall in Hs.
      apply elem_of_cons in Hx as [->|Hx]; [lia|]. specialize (Hs (length x) ltac:(apply list_elem_of_fmap; eauto)). lia.
    + cbn [mbind option_bind]. eapply (IH _ _ _ _ (length q)); [by eapply queue_step|].
      rewrite size_union, size_singleton; [lia|]. pose proof (q_disj _ _ _ _ _ Hq nd). set_solver.
Qed.

Lemma build_ok : fail (get h0 root) = None ->
  exists h', build order h0 = Some h' /\ shape h0 h' /\ forall p, p <> [] -> fail_ok h' p.
Proof using order_perm Hok0.
  intros Hroot. unfold build. set (cs := order (children (get h0 root))).
  assert (Hcs : forall k a, (k, a) ∈ cs <-> loc h0 [k] = Some a).
  { intros k a. unfold cs. rewrite order_elem. unfold loc. cbn. unfold child. by destruct (children (get h0 root) !! k). }
  assert (Hcs2 : forall a, a ∈ cs.*2 <-> exists k, loc h0 [k] = Some a).
  { intros a. rewrite list_elem_of_fmap. split; [intros ([k b] & -> & H%Hcs); eauto|]. intros [k H%Hcs]. by exists (k, a). }
  set (h1 := foldl _ h0 _).
  assert (H1 : shape h0 h1 /\ forall a, fail (get h1 a) = if decide (a ∈ cs.*2) then Some root else fail (get h0 a)).
  { unfold h1. clear. generalize (cs.*2) as l. intros l. induction l as [|c l [IH1 IH2]] using rev_ind.
    - split; [done|]. intros a. rewrite decide_False by set_solver. done.
    - rewrite foldl_app. cbn [foldl]. split; [etrans; [exact IH1|apply shape_set_fail]|]. intros a. rewrite fail_set_fail, IH2.
      destruct (decide (a = c)) as [->|]; [rewrite decide_True by set_solver; done|].
      destruct (decide (a ∈ l)); [rewrite decide_True by set_solver; done|rewrite decide_False by set_solver; done]. }
  clearbody h1. destruct H1 as [Hs Hf].
  apply (build_loop_ok (fresh h0) h1 ∅ cs.*2 ((fun kc : Z * nat => [kc.1]) <$> cs) 0); [|lia].
  constructor.
  - done.
  - rewrite Hf, decide_False; [done|]. intros [k Hk]%Hcs2. by apply loc_root_nil in Hk.
  - apply Forall2_fmap_2, Forall_Forall2_diag. apply Forall_forall. intros [k a] H%Hcs. by rewrite (shape_loc _ _ _ Hs).
  - rewrite <- list_fmap_compose. clear. induction cs as [|kc cs IH]; cbn; constructor; [done|].
    apply Forall_forall. intros x (y & -> & _)%list_elem_of_fmap. done.
  - intros q (kc & -> & _)%list_elem_of_fmap. cbn. split; [done|lia].
  - apply NoDup_fmap_2_strong.
    + intros [k a] [k' a'] H1%Hcs H2%Hcs. cbn. intros <-. by pose proof (tk_inj _ _ Hok0 _ _ _ H1 H2) as [= ->].
    + unfold cs. rewrite order_perm. apply NoDup_map_to_list.
  - set_solver.
  - set_solver.
  - intros p c a. rewrite !(shape_loc _ _ _ Hs), Hcs2. intros Ha. split.
    + intros [?|[k Hk]]; [set_solver|]. left. pose proof (tk_inj _ _ Hok0 _ _ _ Ha Hk) as E. by destruct p as [|? [|? ?]].
    + intros [->|(b & _ & ?)]; [right; eauto|set_solver].
  - intros p a _. rewrite (shape_loc _ _ _ Hs). intros Ha [?|[k Hk]%Hcs2]; [set_solver|].
    assert (p = [k]) as -> by (by apply (tk_inj _ _ Hok0 _ _ a)). intros b. rewrite (shape_loc _ _ _ Hs), Ha. intros [= <-].
    exists [], root. split_and!; [|done|rewrite Hf, decide_True; [done|]; apply Hcs2; eauto].
    constructor; [apply suffix_nil|done|by eexists|]. intros t Ht Hne _. pose proof (suffix_lt _ _ Ht Hne). cbn in *. lia.
Qed.

End build.

(** ** All occurrences *)

(** The scopes of the words among the suffixes of [s], which ends at [i + 1], longest first. *)
Fixpoint ends (words : list (list Z)) (i : nat) (s : list Z) : list scope :=
  match s with
  | [] => []
  | _ :: s' => (if decide (s ∈ words) then [mkScope (i + 1 - length s) (i + 1)] else []) ++ ends words i s'
  end.

(** Every position of the text, with what ends there; [u] is the text before. *)
Fixpoint occurrences_from (words : list (list Z)) (u chars : list Z) : list scope :=
  match chars with
  | [] => []
  | c :: chars => ends words (length u) (u ++ [c]) ++ occurrences_from words (u ++ [c]) chars
  end.

Definition occurrences (words : list (list Z)) (chars : list Z) : list scope := occurrences_from words [] chars.

(** What [find] relies on: a trie of the words with correct failure links. *)
Record automaton_ok (words : list (list Z)) (h : heap) : Prop := mk_automaton_ok {
  ak_inj p q a : loc h p = Some a -> loc h q = Some a -> p = q;
  ak_depth p a : loc h p = Some a -> depth (get h a) = length p;
  ak_end p a : loc h p = Some a -> end_ (get h a) = true <-> p ∈ words /\ p <> [];
  ak_word p : p ∈ words -> is_Some (loc h p);
  ak_fail p : p <> [] -> fail_ok h p
}.

Lemma ends_skip words i (x r : list Z) :
  (forall t, t `suffix_of` x ++ r -> (length r < length t)%nat -> t ∉ words) -> ends words i (x ++ r) = ends words i r.
Proof.
  induction x as [|c x IH]; intros H; [done|]. cbn [app ends]. rewrite decide_False.
  - apply IH. intros t Ht Hl. apply H; [|done]. by apply suffix_cons_r.
  - apply H; [done|]. cbn. rewrite length_app. lia.
Qed.

(** Suffixes that are not in the trie are not words. *)
Lemma ends_longest words h i (Q : list Z -> Prop) p s :
  automaton_ok words h -> longest h Q p s -> (forall t, t `suffix_of` p -> (length s < length t)%nat -> Q t) -> ends words i p = ends words i s.
Proof.
  intros Hok [[x ->] Hs2 Hs3 Hs4] HQ. apply ends_skip. intros t Ht Hl Hw. specialize (Hs4 t Ht (HQ t Ht Hl) (ak_word _ _ Hok t Hw)). lia.
Qed.

Lemma emit_loop_ok words h i fuel s a :
  automaton_ok words h -> loc h s = Some a -> (length s < fuel)%nat -> emit_loop fuel h a i = Some (ends words i s).
Proof.
  intros Hok. revert s a. induction fuel as [|fuel IH]; intros s a Ha Hf; [lia|]. cbn [emit_loop].
  destruct (Nat.eqb_spec a root) as [->|Hne].
  { by rewrite (ak_inj _ _ Hok s [] root). }
  assert (Hs : s <> []) by (intros ->; by injection Ha as <-).
  destruct (ak_fail _ _ Hok s Hs a Ha) as (r & f & Hr & Hrf & ->). pose proof (suffix_lt _ _ (lg_suffix _ _ _ _ Hr) (lg_ok _ _ _ _ Hr)) as Hlt.
  rewrite (IH r f Hrf) by lia. cbn [mbind option_bind]. rewrite (ak_depth _ _ Hok s a Ha). pose proof (ak_end _ _ Hok s a Ha) as He.
  destruct s as [|c s]; [done|]. cbn [ends]. f_equal. f_equal.
  - destruct (end_ (get h a)), (decide (c :: s ∈ words)); try done; naive_solver.
  - destruct Hr as [[x E] Hr2 Hr3 Hr4]. destruct x as [|d x]; [by cbn in E; subst r|]. injection E as <- ->.
    symmetry. apply ends_skip. intros t Ht Hl Hw. specialize (Hr4 t (suffix_cons_r _ _ _ Ht)).
    assert (t <> c :: x ++ r) by (intros ->; apply suffix_length in Ht; cbn in Ht; lia).
    specialize (Hr4 ltac:(done) (ak_word _ _ Hok t Hw)). lia.
Qed.

(** The state of the search: the longest suffix of the text that is in the trie. *)
Definition at_suffix (h : heap) (u v : list Z) : Prop := longest h (fun _ => True) u v.

Lemma at_suffix_nil h : at_suffix h [] [].
Proof. constructor; [done|done|by eexists|]. intros t Ht _ _. by apply suffix_length in Ht. Qed.

Lemma goto_loop_ok words h u c fuel q cur :
  automaton_ok words h -> q `suffix_of` u -> loc h q = Some cur -> none_from h (fun _ => True) u c (length q) -> (length q < fuel)%nat ->
  exists v b, goto_loop fuel h cur c = Some (b, if decide (v = []) then None else Some b) /\ loc h v = Some b /\ at_suffix h (u ++ [c]) v.
Proof.
  intros Hok. revert q cur. induction fuel as [|fuel IH]; intros q cur Hq Hcur Hnone Hf; [lia|]. cbn [goto_loop].
  destruct (Nat.eqb_spec cur root) as [->|Hne].
  { assert (q = []) as -> by (by apply (ak_inj _ _ Hok q [] root)). exists [], root. split_and!; [done..|].
    by apply (longest_nil _ (fun _ => True)). }
  assert (Hq0 : q <> []) by (intros ->; by injection Hcur as <-).
  destruct (ak_fail _ _ Hok q Hq0 cur Hcur) as (s & f & Hs & Hsf & ->).
  destruct (fail_step _ _ _ _ _ _ Hq Hnone Hs I) as (Hs1 & Hs2 & Hs3). rewrite loc_snoc, Hsf in Hs3. cbn in Hs3.
  destruct (child h f c) as [b|] eqn:Eb; [|by apply (IH s f); [..|lia]].
  assert (Hb : loc h (s ++ [c]) = Some b) by (by rewrite loc_snoc, Hsf). exists (s ++ [c]), b.
  rewrite decide_False by (by destruct s). split_and!; [done..|]. apply (longest_snoc _ (fun _ => True)); [done..|by rewrite Hb|done].
Qed.

Lemma find_loop_ok words h chars u v cur :
  automaton_ok words h -> at_suffix h u v -> loc h v = Some cur ->
  find_loop h cur (length u) chars = Some (occurrences_from words u chars).
Proof.
  intros Hok. revert u v cur. induction chars as [|c chars IH]; intros u v cur Hv Hcur; [done|]. cbn [find_loop occurrences_from].
  assert (Hstep : exists w b, match child h cur c with Some b => Some (b, Some b) | None => goto_loop (S (depth (get h cur))) h cur c end =
      Some (b, if decide (w = []) then None else Some b) /\ loc h w = Some b /\ at_suffix h (u ++ [c]) w).
  { destruct Hv as [V1 _ V3 V4].
    assert (Hle : forall t, t `suffix_of` u -> True -> is_Some (loc h (t ++ [c])) -> (length t <= length v)%nat)
      by (intros t Ht _ Hl; apply V4; [done..|by eapply loc_prefix]).
    assert (Hvc : loc h (v ++ [c]) = child h cur c) by (by rewrite loc_snoc, Hcur).
    destruct (child h cur c) as [b|] eqn:Eb.
    - exists (v ++ [c]), b. rewrite decide_False by (by destruct v). split_and!; [done..|].
      apply (longest_snoc _ (fun _ => True)); [done..|by rewrite Hvc|done].
    - apply (goto_loop_ok words h u c _ v cur Hok V1 Hcur); [|rewrite (ak_depth _ _ Hok _ _ Hcur); lia].
      intros t Ht _ Hl. pose proof (Hle t Ht I Hl). destruct (decide (length t = length v)) as [E|]; [|lia].
      pose proof (suffix_comparable t v u Ht V1 ltac:(lia)) as Htv. apply suffix_of_length_eq in Htv; [|done]. subst t.
      rewrite Hvc in Hl. by destruct Hl. }
  destruct Hstep as (w & b & -> & Hb & Hw). cbn [mbind option_bind].
  assert (Hemit : ends words (length u) (u ++ [c]) = ends words (length u) w) by (apply (ends_longest words h _ (fun _ => True)); done).
  rewrite Hemit.
  assert (Hlen : S (length u) = length (u ++ [c])) by (rewrite length_app; cbn; lia). rewrite Hlen.
  destruct (decide (w = [])) as [->|Hne]; cbn [mbind option_bind].
  - by rewrite (IH (u ++ [c]) [] b Hw Hb).
  - rewrite (emit_loop_ok words h (length u) _ w b Hok Hb) by (rewrite (ak_depth _ _ Hok _ _ Hb); lia). cbn [mbind option_bind].
    by rewrite (IH (u ++ [c]) w b Hw Hb).
Qed.

Lemma find_ok words h chars : automaton_ok words h -> find h chars = Some (occurrences words chars).
Proof. intros Hok. by apply (find_loop_ok words h chars [] [] root Hok (at_suffix_nil h)). Qed.

Lemma add_fail_root h word : fail (get h root) = None -> (0 < fresh h)%nat -> fail (get (add h word) root) = None /\ (0 < fresh (add h word))%nat.
Proof.
  intros Hr Hf. assert (Hloop : forall chars h nd i, fail (get h root) = None -> (0 < fresh h)%nat ->
    let h' := (add_loop h nd i chars).1 in fail (get h' root) = None /\ (0 < fresh h')%nat).
  { clear. induction chars as [|c chars IH]; intros h nd i Hr Hf; [done|]. cbn. destruct (add_char h nd i c) as [h1 b] eqn:E.
    apply IH; revert E; unfold add_char; destruct (child h nd c); intros [= <- <-]; try done; [|cbn; lia].
    rewrite !get_put. cbn. unfold root in *. destruct (decide (0%nat = nd)) as [<-|].
    - cbn. change (fail (get (put h (fresh h) (new_node <| depth := (i + 1)%nat |>)) 0%nat) = None). rewrite get_put, decide_False by lia. done.
    - change (fail (get (put h (fresh h) (new_node <| depth := (i + 1)%nat |>)) 0%nat) = None). rewrite get_put, decide_False by lia. done. }
  unfold add. destruct word as [|c word]; [done|]. destruct (Hloop (c :: word) h root 0%nat Hr Hf) as [H1 H2].
  destruct (add_loop h root 0 (c :: word)) as [h1 nd]. cbn [fst] in *. split; [|done]. rewrite get_put. destruct (decide (root = nd)) as [<-|]; done.
Qed.

Lemma adds_ok words W h : trie_ok W h -> fail (get h root) = None ->
  let h' := foldl add h words in trie_ok (fun p => W p \/ (p ∈ words /\ p <> [])) h' /\ fail (get h' root) = None.
Proof.
  revert W h. induction words as [|w words IH]; intros W h Hok Hr; cbn.
  { split; [|done]. destruct Hok as [H1 H2 H3 H4 H5 H6]. constructor; try done; [|set_solver]. intros p a Hp. rewrite H3 by done. set_solver. }
  destruct (IH _ _ (add_ok W h w Hok) (proj1 (add_fail_root h w Hr (tk_root _ _ Hok)))) as [[H1 H2 H3 H4 H5 H6] Hf]. split; [|done].
  constructor; try done.
  - intros p a Hp. rewrite (H3 p a Hp). set_solver.
  - intros p Hp. apply H4. set_solver.
Qed.

Lemma trie_ok_new : trie_ok (fun _ => False) new_heap.
Proof.
  assert (Hl : forall p a, loc new_heap p = Some a -> p = [] /\ a = root).
  { intros [|c p] a; [by intros [= <-]|]. unfold loc. cbn. done. }
  constructor; try done.
  - intros p q a [-> _]%Hl [-> _]%Hl. done.
  - intros p a [-> ->]%Hl. done.
  - intros p a [-> ->]%Hl. done.
  - intros a Ha. cbn in Ha |- *. rewrite lookup_insert_ne by (unfold root; lia). done.
  - cbn. lia.
Qed.

Lemma automaton_builds order words : (forall m, order m ≡ₚ map_to_list m) ->
  exists h, automaton order words = Some h /\ automaton_ok words h.
Proof.
  intros Hord. unfold automaton. destruct (adds_ok words _ _ trie_ok_new eq_refl) as [Hok Hr].
  destruct (build_ok order Hord _ _ Hok Hr) as (h & E & Hs & Hf). exists h. split; [done|].
  destruct Hok as [H1 H2 H3 H4 _ _]. pose proof Hs as [_ Hg]. constructor.
  - intros p q a. rewrite !(shape_loc _ _ _ Hs). apply H1.
  - intros p a. rewrite (shape_loc _ _ _ Hs). destruct (Hg a) as (_ & -> & _). apply H2.
  - intros p a. rewrite (shape_loc _ _ _ Hs). destruct (Hg a) as (_ & _ & ->). intros Hp. rewrite (H3 p a Hp). naive_solver.
  - intros p Hp. rewrite (shape_loc _ _ _ Hs). destruct (decide (p = [])) as [->|]; [by eexists|]. apply H4. naive_solver.
  - done.
Qed.

(** C24: the automaton terminates without a nil dereference and finds exactly the
    occurrences of the words in the text: for every word and order of the words and of
    Go's map iteration, the scopes are those of the definition that looks at every
    position for every word ending there, longest first. *)
Theorem find_is_occurrences (order : gmap Z nat -> list (Z * nat)) (words : list (list Z)) (chars : list Z) :
  (forall m, order m ≡ₚ map_to_list m) ->
  (h ← automaton order words; find h chars) = Some (occurrences words chars).
Proof.
  intros Hord. destruct (automaton_builds order words Hord) as (h & -> & Hok). cbn [mbind option_bind].
  by apply find_ok.
Qed.

(** ** What an occurrence is *)

Lemma elem_ends words i s sc :
  sc ∈ ends words i s <-> exists t, t `suffix_of` s /\ t <> [] /\ t ∈ words /\ sc = mkScope (i + 1 - length t) (i + 1).
Proof.
  induction s as [|c s IH]; cbn [ends].
  { split; [set_solver|]. intros (t & Ht & Hne & _). by apply suffix_nil_inv in Ht. }
  rewrite elem_of_app, IH. split.
  - intros [H|(t & Ht & H)]; [|exists t; split; [by apply suffix_cons_r|done]].
    destruct (decide (c :: s ∈ words)); [|set_solver]. apply list_elem_of_singleton in H as ->. exists (c :: s). done.
  - intros (t & Ht & Hne & Hw & ->). destruct (decide (t = c :: s)) as [->|Hn].
    + left. rewrite decide_True by done. by apply list_elem_of_singleton.
    + right. exists t. split_and!; try done. destruct Ht as [x E]. destruct x as [|d x]; [done|]. injection E as _ ->. by exists x.
Qed.

Lemma elem_occurrences_from words u chars sc :
  sc ∈ occurrences_from words u chars <->
  exists n, (n < length chars)%nat /\ sc ∈ ends words (length u + n) (u ++ take (S n) chars).
Proof.
  revert u. induction chars as [|c chars IH]; intros u; cbn [occurrences_from].
  { cbn. split; [set_solver|intros (n & ? & _); lia]. }
  rewrite elem_of_app, IH. rewrite length_app. cbn [length]. split.
  - intros [H|(n & Hn & H)].
    + exists 0%nat. rewrite Nat.add_0_r. split; [lia|]. by rewrite firstn_cons, take_0.
    + exists (S n). split; [lia|]. rewrite <- (assoc_L app) in H. cbn in H |- *.
      by replace (length u + S n)%nat with (length u + 1 + n)%nat by lia.
  - intros ([|n] & Hn & H).
    + left. rewrite Nat.add_0_r in H. by rewrite firstn_cons, take_0 in H.
    + right. exists n. split; [lia|]. rewrite <- (assoc_L app). cbn in H |- *.
      by replace (length u + 1 + n)%nat with (length u + S n)%nat by lia.
Qed.

Lemma elem_occurrences words chars sc :
  sc ∈ occurrences words chars <-> (start sc < stop sc <= length chars)%nat /\ slice chars sc ∈ words.
Proof.
  unfold occurrences. rewrite elem_occurrences_from. cbn [length app]. setoid_rewrite elem_ends. split.
  - intros (n & Hn & t & [x E] & Hne & Hw & ->). cbn [start stop]. apply (f_equal length) in E as El.
    rewrite length_app, length_take in El. assert (length t <> 0%nat) by (destruct t; cbn; [done|lia]). unfold slice. cbn [start stop].
    split; [lia|]. replace (0 + n + 1 - (0 + n + 1 - length t))%nat with (length t) by lia.
    replace (drop (0 + n + 1 - length t) chars) with (t ++ drop (S n) chars); [by rewrite take_app_length|].
    rewrite <- (take_drop (S n) chars) at 2. rewrite E, <- (assoc_L app).
    replace (0 + n + 1 - length t)%nat with (length x) by lia. by rewrite drop_app_length.
  - destruct sc as [a b]. unfold slice. cbn [start stop]. intros [Hab Hw]. exists (b - 1)%nat. split; [lia|].
    exists (take (b - a) (drop a chars)). assert (Hl : length (take (b - a) (drop a chars)) = (b - a)%nat) by (rewrite length_take, length_drop; lia).
    split_and!.
    + replace (S (b - 1)) with b by lia. exists (take a chars). rewrite take_drop_commute. replace (a + (b - a))%nat with b by lia.
      rewrite <- (take_drop a (take b chars)) at 1. f_equal. rewrite take_take. f_equal. lia.
    + intros E. rewrite E in Hl. cbn in Hl. lia.
    + done.
    + rewrite Hl. f_equal; lia.
Qed.

(** ** The filter *)

Definition covers (i : nat) (sc : scope) : Prop := (start sc <= i < stop sc)%nat.
#[export] Instance covers_dec i sc : Decision (covers i sc).
Proof. unfold covers. apply _. Defined.

(** The text with every rune of an occurrence masked. *)
Definition masked (mask : Z) (scopes : list scope) (chars : list Z) : list Z :=
  imap (fun i c => if decide (Exists (covers i) scopes) then mask else c) chars.

Lemma replaceWithAsterisk_lookup mask n i chars j :
  replaceWithAsterisk mask n i chars !! j =
  if decide (i <= j < i + n)%nat then (fun _ => mask) <$> chars !! j else chars !! j.
Proof.
  revert i chars. induction n as [|n IH]; intros i chars; cbn [replaceWithAsterisk]; [rewrite decide_False by lia; done|].
  rewrite IH. destruct (decide (j = i)) as [->|Hne].
  - rewrite (decide_False (P := (S i <= i < S i + n)%nat)) by lia. rewrite (decide_True (P := (i <= i < i + S n)%nat)) by lia.
    destruct (chars !! i) as [x|] eqn:E; cbn.
    + apply list_lookup_insert_eq. by eapply lookup_lt_Some.
    + by rewrite list_insert_ge by (by apply lookup_ge_None).
  - rewrite list_lookup_insert_ne by done. destruct (decide (S i <= j < S i + n)%nat), (decide (i <= j < i + S n)%nat); try lia; done.
Qed.

Lemma foldl_mask mask scopes chars :
  foldl (fun cs sc => replaceWithAsterisk mask (stop sc - start sc) (start sc) cs) chars scopes = masked mask scopes chars.
Proof.
  apply list_eq. intros j. unfold masked. rewrite list_lookup_imap.
  induction scopes as [|sc scopes IH] using rev_ind.
  { cbn. destruct (chars !! j); [|done]. cbn. rewrite decide_False; [done|]. by inversion 1. }
  rewrite foldl_app. cbn [foldl]. rewrite replaceWithAsterisk_lookup, IH.
  assert (Hex : Exists (covers j) (scopes ++ [sc]) <-> Exists (covers j) scopes \/ covers j sc) by (rewrite Exists_app, Exists_cons, Exists_nil; tauto).
  destruct (chars !! j) as [x|]; cbn [fmap option_fmap option_map]; [|match goal with |- (if ?d then _ else _) = _ => by destruct d end].
  destruct (decide (start sc <= j < start sc + (stop sc - start sc))%nat).
  - rewrite decide_True; [done|]. apply Hex. right. unfold covers. lia.
  - destruct (decide (Exists (covers j) scopes)); [rewrite decide_True; [done|]; by apply Hex; left|].
    rewrite decide_False; [done|]. rewrite Hex. unfold covers. intros [|]; [done|lia].
Qed.

(** The words that occur in the text. *)
Definition occurring (words : list (list Z)) (chars : list Z) (w : list Z) : Prop :=
  w ∈ words /\ w <> [] /\ exists a b, chars = a ++ w ++ b.

Lemma collectKeywords_spec words chars k :
  k ∈ collectKeywords chars (occurrences words chars) <-> exists w, occurring words chars w /\ k = string_of_runes w.
Proof.
  unfold collectKeywords. rewrite elem_of_list_to_set, list_elem_of_fmap. split.
  - intros (sc & -> & [Hr Hw]%elem_occurrences). exists (slice chars sc). split; [|done]. split; [done|]. unfold slice.
    split; [intros E%(f_equal length); rewrite length_take, length_drop in E; cbn in E; lia|].
    exists (take (start sc) chars), (drop (stop sc) chars). rewrite <- (take_drop (start sc) chars) at 1. f_equal.
    rewrite <- (take_drop (stop sc - start sc) (drop (start sc) chars)) at 1. f_equal. rewrite drop_drop. f_equal. lia.
  - intros (w & (Hw & Hne & a & b & ->) & ->). exists (mkScope (length a) (length a + length w)).
    assert (Hs : slice (a ++ w ++ b) (mkScope (length a) (length a + length w)) = w).
    { unfold slice. cbn. rewrite drop_app_length, Nat.add_sub_swap, Nat.sub_diag by lia. apply take_app_length. }
    rewrite Hs. split; [done|]. apply elem_occurrences. rewrite Hs. cbn. rewrite !length_app. split; [|done]. destruct w; [done|cbn; lia].
Qed.

(** [Filter] of a trie built from any words (and mask) returns the text in which
    exactly the runes of occurrences of the words are replaced by the mask, the set of the
    words that occur in it, and whether there is one; [FindKeywords] returns the same set.
    Neither loops nor dereferences nil. *)
Theorem Filter_masks_keywords (order : gmap Z nat -> list (Z * nat)) (words : list string) (mask : Z) (text : string) :
  (forall m, order m ≡ₚ map_to_list m) ->
  let ws := runes_of <$> words in let chars := runes_of text in
  exists t kws, NewTrie order words mask = Some t /\
    Filter t text = Some (string_of_runes (masked (if mask =? 0 then 42 else mask) (occurrences ws chars) chars), kws, bool_decide (kws <> ∅)) /\
    FindKeywords t text = Some kws /\
    forall k, k ∈ kws <-> exists w, occurring ws chars w /\ k = string_of_runes w.
Proof.
  intros Hord ws chars. destruct (automaton_builds order ws Hord) as (h & Hh & Hok).
  exists (mkTrie h (if mask =? 0 then defaultMask else mask)), (collectKeywords chars (occurrences ws chars)).
  unfold NewTrie. fold ws. rewrite Hh. split; [done|]. unfold Filter, FindKeywords. fold chars.
  pose proof (collectKeywords_spec ws chars) as Hk. destruct chars as [|c chars'] eqn:Ec.
  - split_and!; [|done|done]. cbn. rewrite bool_decide_eq_false_2 by (intros H; by apply H).
    assert (text = "") as -> by (destruct text as [|a s]; [done|]; exfalso; unfold runes_of in Ec; cbn in Ec; by destruct (decode_rune _ _)).
    done.
  - cbn [tn_heap tn_mask]. rewrite <- Ec in *. rewrite (find_ok ws h _ Hok). cbn [mbind option_bind]. rewrite foldl_mask. split_and!; [|done|done].
    do 2 f_equal. apply bool_decide_ext. rewrite <- (leibniz_equiv_iff (_ : gset string) ∅). rewrite <- size_empty_iff. lia.
Qed.

(** *** Instances *)

Lemma find_is_occurrences_witness :
  (h ← automaton map_to_list (runes_of <$> ["he"; "she"; "hers"]); find h (runes_of "ushers")) =
  Some [mkScope 1 4; mkScope 2 4; mkScope 2 6].
Proof.
  rewrite (find_is_occurrences map_to_list (runes_of <$> ["he"; "she"; "hers"]) (runes_of "ushers") (fun m => reflexivity _)).
  vm_compute. reflexivity.
Defined.

Lemma Filter_masks_keywords_witness :
  exists t kws, NewTrie map_to_list ["he"; "she"] 0 = Some t /\ Filter t "ushers" = Some ("u***rs", kws, true) /\ "he" ∈ kws.
Proof.
  destruct (Filter_masks_keywords map_to_list ["he"; "she"] 0 "ushers" (fun m => reflexivity _)) as (t & kws & H1 & H2 & H3 & H4).
  exists t, kws. assert (Hin : "he" ∈ kws).
  { apply H4. exists [104; 101]. split; [|vm_compute; reflexivity]. split; [apply (list_elem_of_lookup_2 _ 0%nat); vm_compute; reflexivity|]. split; [done|].
    exists [117; 115], [114; 115]. vm_compute. reflexivity. }
  split; [exact H1|]. split; [|exact Hin]. rewrite H2. rewrite bool_decide_eq_true_2; [|intros ->; by apply (not_elem_of_empty (C:=gset string) "he")].
  do 3 f_equal.
Defined.
