(* ===== verification/Replacer.v ===== *)
(** * Replacing keywords and comparing versions (infra/stringx/replacer.go,
      infra/utils/version.go)

    [Replace] on top of the automaton of [StringTrie], and the version comparison that
    normalises its arguments with it.  A replacer is its mapping and the automaton of
    the mapping's keys, added in the order [keys]. *)

From S2P Require Import Prelude GoStrings GoStrconv Utf8 GoSort StringTrie.
From Stdlib Require Import Ascii.

#[local] Open Scope string_scope.
#[local] Open Scope list_scope.
#[local] Open Scope Z_scope.

Record replacer : Type := mkReplacer { rp_heap : heap; rp_mapping : gmap string string }.

Definition NewReplacer (order : gmap Z nat -> list (Z * nat)) (keys : list string) (mapping : gmap string string) : option replacer :=
  h ← automaton order (runes_of <$> keys); Some (mkReplacer h mapping).

(** The order of [sort.Slice]: leftmost first, longest first. *)
Definition scope_le (a b : scope) : Prop := (start a < start b)%nat \/ (start a = start b /\ (stop b <= stop a)%nat).
#[export] Instance scope_le_dec : RelDecision scope_le.
Proof. intros a b. unfold scope_le. apply _. Defined.

(** The loop over the sorted scopes, [index] being the end of what was written. *)
Fixpoint replace_loop (mapping : gmap string string) (chars : list Z) (index : nat) (scopes : list scope) : string :=
  match scopes with
  | [] => if (index <? length chars)%nat then string_of_runes (drop index chars) else ""
  | sc :: scopes =>
      if (start sc <? index)%nat then replace_loop mapping chars index scopes
      else (string_of_runes (slice chars (mkScope index (start sc))) ++
            default "" (mapping !! string_of_runes (slice chars sc)) ++
            replace_loop mapping chars (stop sc) scopes)%string
  end.

Definition doReplace (r : replacer) (text : string) : option (string * bool) :=
  let chars := runes_of text in
  scopes ← find (rp_heap r) chars;
  Some (match scopes with
        | [] => (text, false)
        | _ => (replace_loop (rp_mapping r) chars 0 (merge_sort scope_le scopes), true)
        end).

(** [replaceTimes] is 2. *)
Fixpoint replace_times (n : nat) (r : replacer) (text : string) : option string :=
  match n with
  | O => Some text
  | S n =>
      match doReplace r text with
      | None => None
      | Some (text, replaced) => if replaced then replace_times n r text else Some text
      end
  end.

Definition Replace (r : replacer) (text : string) : option string := replace_times 2 r text.

(** ** Replacing is scanning from the left and taking the longest keyword *)

(** The length of the longest word the text starts with, or 0. *)
Fixpoint longest_word (words : list (list Z)) (chars : list Z) : nat :=
  match words with
  | [] => 0
  | w :: words => if decide (w `prefix_of` chars) then Nat.max (length w) (longest_word words chars) else longest_word words chars
  end.

(** Every round consumes a rune, so the length of the text is enough fuel. *)
Fixpoint scan (words : list (list Z)) (mapping : gmap string string) (fuel : nat) (chars : list Z) : string :=
  match fuel, chars with
  | S fuel, c :: chars' =>
      let n := longest_word words chars in
      if (n =? 0)%nat then (string_of_runes [c] ++ scan words mapping fuel chars')%string
      else (default "" (mapping !! string_of_runes (take n chars)) ++ scan words mapping fuel (drop n chars))%string
  | _, _ => ""
  end.

Lemma longest_word_spec words chars :
  (longest_word words chars <= length chars)%nat /\
  (longest_word words chars <> 0%nat -> take (longest_word words chars) chars ∈ words) /\
  (forall w, w ∈ words -> w `prefix_of` chars -> (length w <= longest_word words chars)%nat).
Proof.
  induction words as [|w words (IH1 & IH2 & IH3)]; cbn; [split_and!; [lia|done|set_solver]|].
  destruct (decide (w `prefix_of` chars)) as [Hw|Hw].
  - pose proof (prefix_length _ _ Hw). split_and!; [lia| |].
    + intros Hne. destruct (decide (longest_word words chars <= length w)%nat).
      * rewrite Nat.max_l by done. destruct Hw as [x ->]. rewrite take_app_length. by left.
      * rewrite Nat.max_r by lia. right. apply IH2. lia.
    + intros w' [->|Hw']%elem_of_cons Hp; [lia|]. specialize (IH3 w' Hw' Hp). lia.
  - split_and!; [done|right; by apply IH2|]. intros w' [->|Hw']%elem_of_cons Hp; [done|by apply IH3].
Qed.

Lemma string_of_bytes_app a b : string_of_bytes (a ++ b) = (string_of_bytes a ++ string_of_bytes b)%string.
Proof. induction a as [|x a IH]; [done|]. cbn [app string_of_bytes]. by rewrite IH. Qed.

Lemma string_of_runes_app a b : string_of_runes (a ++ b) = (string_of_runes a ++ string_of_runes b)%string.
Proof. unfold string_of_runes. by rewrite flat_map_app, string_of_bytes_app. Qed.

Lemma string_of_runes_cons c a : string_of_runes (c :: a) = (string_of_runes [c] ++ string_of_runes a)%string.
Proof. apply (string_of_runes_app [c] a). Qed.

(** Where no word starts, scanning copies. *)
Lemma scan_copies words mapping a b fuel :
  (length a + length b <= fuel)%nat -> (forall i, (i < length a)%nat -> longest_word words (drop i (a ++ b)) = 0%nat) ->
  exists fuel', (length b <= fuel')%nat /\ scan words mapping fuel (a ++ b) = (string_of_runes a ++ scan words mapping fuel' b)%string.
Proof.
  revert fuel. induction a as [|c a IH]; intros fuel Hf H; [by exists fuel|]. cbn in Hf. destruct fuel as [|fuel]; [lia|].
  destruct (IH fuel) as (fuel' & Hf' & E); [lia|intros i Hi; apply (H (S i)); cbn; lia|]. exists fuel'. split; [done|].
  pose proof (H 0%nat ltac:(cbn; lia)) as H0. rewrite drop_0 in H0. cbn [app scan] in H0 |- *. rewrite H0. cbn [Nat.eqb].
  by rewrite E, (string_of_runes_cons c a), <- str_app_assoc.
Qed.

Lemma scan_fuel words mapping chars fuel fuel' :
  (length chars <= fuel)%nat -> (length chars <= fuel')%nat -> scan words mapping fuel chars = scan words mapping fuel' chars.
Proof.
  revert chars fuel'. induction fuel as [|fuel IH]; intros [|c chars] fuel' H1 H2; destruct fuel' as [|fuel']; cbn in H1, H2 |- *; try done; try lia.
  destruct (Nat.eqb_spec (longest_word words (c :: chars)) 0) as [|Hn]; [f_equal; apply IH; lia|].
  f_equal. apply IH; rewrite length_drop; cbn; lia.
Qed.

#[export] Instance scope_le_trans : Transitive scope_le.
Proof. intros a b c. unfold scope_le. lia. Qed.
#[export] Instance scope_le_total : Total scope_le.
Proof. intros a b. unfold scope_le. lia. Qed.

Section replacing.
Context (words : list (list Z)) (mapping : gmap string string) (chars : list Z).

(** An occurrence that starts at [i], in terms of the text from there. *)
Lemma occurrence_at i n : (i + n <= length chars)%nat -> (0 < n)%nat ->
  mkScope i (i + n) ∈ occurrences words chars <-> take n (drop i chars) ∈ words.
Proof.
  intros Hi Hn. rewrite elem_occurrences. unfold slice. cbn. replace (i + n - i)%nat with n by lia. split; [tauto|]. intros H. split; [lia|done].
Qed.

Lemma longest_word_none i :
  (forall sc, sc ∈ occurrences words chars -> start sc <> i) -> longest_word words (drop i chars) = 0%nat.
Proof.
  intros H. destruct (longest_word_spec words (drop i chars)) as (L1 & L2 & _). rewrite length_drop in L1.
  destruct (decide (longest_word words (drop i chars) = 0%nat)) as [|Hne]; [done|]. exfalso.
  apply (H (mkScope i (i + longest_word words (drop i chars)))); [|done]. apply occurrence_at; [lia|lia|by apply L2].
Qed.

(** The longest word at the start of the first scope in the order is that scope. *)
Lemma longest_word_first sc :
  sc ∈ occurrences words chars -> (forall sc', sc' ∈ occurrences words chars -> start sc' = start sc -> (stop sc' <= stop sc)%nat) ->
  longest_word words (drop (start sc) chars) = (stop sc - start sc)%nat.
Proof.
  intros Hsc Hmax. pose proof Hsc as [Hr Hw]%elem_occurrences.
  destruct (longest_word_spec words (drop (start sc) chars)) as (L1 & L2 & L3). rewrite length_drop in L1. unfold slice in Hw.
  specialize (L3 _ Hw (prefix_take _ _)) as L3'. rewrite length_take, length_drop in L3'.
  specialize (Hmax (mkScope (start sc) (start sc + longest_word words (drop (start sc) chars)))). cbn in Hmax.
  assert (start sc + longest_word words (drop (start sc) chars) <= stop sc)%nat; [|lia]. apply Hmax; [|done].
  apply occurrence_at; [lia|lia|]. apply L2. lia.
Qed.

Lemma replace_loop_scan l index :
  StronglySorted scope_le l -> (forall sc, sc ∈ l -> sc ∈ occurrences words chars) ->
  (forall sc, sc ∈ occurrences words chars -> (index <= start sc)%nat -> sc ∈ l) -> (index <= length chars)%nat ->
  replace_loop mapping chars index l = scan words mapping (length chars) (drop index chars).
Proof.
  revert index. induction l as [|sc l IH]; intros index Hs Hsub Hall Hi; cbn [replace_loop].
  - destruct (scan_copies words mapping (drop index chars) [] (length chars)) as (f & _ & E).
    + rewrite length_drop. cbn. lia.
    + intros i _. rewrite app_nil_r, drop_drop. apply longest_word_none. intros sc Hsc E. specialize (Hall sc Hsc ltac:(lia)). set_solver.
    + rewrite app_nil_r in E. rewrite E. replace (scan words mapping f []) with "" by (by destruct f). rewrite str_app_nil_r.
      destruct (Nat.ltb_spec index (length chars)); [done|]. by rewrite drop_ge.
  - apply StronglySorted_cons in Hs as [Hle Hs]. rewrite Forall_forall in Hle. pose proof (Hsub sc ltac:(set_solver)) as Hocc.
    pose proof Hocc as [Hr Hw]%elem_occurrences. destruct (Nat.ltb_spec (start sc) index) as [Hlt|Hge].
    + apply IH; [done|set_solver| |done]. intros sc' Hsc' Hst. specialize (Hall sc' Hsc' Hst). apply elem_of_cons in Hall as [->|]; [lia|done].
    + assert (Hfirst : forall sc', sc' ∈ occurrences words chars -> (index <= start sc')%nat -> scope_le sc sc').
      { intros sc' Hsc' Hst. specialize (Hall sc' Hsc' Hst). apply elem_of_cons in Hall as [->|Hin]; [right; lia|by apply Hle]. }
      set (a := slice chars (mkScope index (start sc))).
      assert (Ha : length a = (start sc - index)%nat) by (unfold a, slice; cbn; rewrite length_take, length_drop; lia).
      assert (Esplit : drop index chars = a ++ drop (start sc) chars).
      { unfold a, slice. cbn. rewrite <- (take_drop (start sc - index) (drop index chars)) at 1. f_equal. rewrite drop_drop. f_equal. lia. }
      destruct (scan_copies words mapping a (drop (start sc) chars) (length chars)) as (f & Hf & E).
      { rewrite Ha, length_drop. lia. }
      { intros i Hi'. rewrite <- Esplit, drop_drop. apply longest_word_none. intros sc' Hsc' Est.
        destruct (Hfirst sc' Hsc' ltac:(lia)) as [?|[? _]]; lia. }
      rewrite Esplit, E. f_equal. rewrite length_drop in Hf.
      rewrite (scan_fuel words mapping _ f (S (length chars))) by (rewrite length_drop; lia).
      assert (Hlw : longest_word words (drop (start sc) chars) = (stop sc - start sc)%nat).
      { apply longest_word_first; [done|]. intros sc' Hsc' Est. destruct (Hfirst sc' Hsc' ltac:(lia)) as [?|[_ ?]]; lia. }
      destruct (drop (start sc) chars) as [|c rest] eqn:Ed.
      { apply (f_equal length) in Ed. rewrite length_drop in Ed. cbn in Ed. lia. }
      cbn [scan]. rewrite Hlw. destruct (Nat.eqb_spec (stop sc - start sc) 0); [lia|]. rewrite <- Ed, drop_drop.
      replace (start sc + (stop sc - start sc))%nat with (stop sc) by lia. f_equal. apply IH; [done|set_solver| |lia].
      intros sc' Hsc' Hst. specialize (Hall sc' Hsc' ltac:(lia)). apply elem_of_cons in Hall as [->|]; [lia|done].
Qed.

End replacing.

(** C37: One pass of [Replace] is the left-to-right scan that replaces, at each position,
    the longest keyword starting there and goes on behind it; a text without keywords is
    returned as it is.  The pass always ends. *)
Theorem doReplace_leftmost_longest (order : gmap Z nat -> list (Z * nat)) (keys : list string) (mapping : gmap string string) (text : string) :
  (forall m, order m ≡ₚ map_to_list m) ->
  let ws := runes_of <$> keys in let chars := runes_of text in
  (r ← NewReplacer order keys mapping; doReplace r text) =
  Some (if bool_decide (occurrences ws chars = []) then (text, false)
        else (scan ws mapping (length chars) chars, true)).
Proof.
  intros Hord ws chars. destruct (automaton_builds order ws Hord) as (h & Hh & Hok). unfold NewReplacer. fold ws. rewrite Hh.
  cbn [mbind option_bind]. unfold doReplace. fold chars. cbn [rp_heap rp_mapping].
  rewrite (find_ok ws h _ Hok). cbn [mbind option_bind]. f_equal.
  set (l := occurrences ws chars).
  assert (Hloop : replace_loop mapping chars 0 (merge_sort scope_le l) = scan ws mapping (length chars) chars).
  { pose proof (replace_loop_scan ws mapping chars (merge_sort scope_le l) 0) as H. rewrite drop_0 in H. apply H; [|..|lia].
    - apply StronglySorted_merge_sort; apply _.
    - intros sc. by rewrite merge_sort_Permutation.
    - intros sc Hsc _. by rewrite merge_sort_Permutation. }
  destruct l as [|sc l']; [by rewrite bool_decide_eq_true_2|]. rewrite bool_decide_eq_false_2 by done. by rewrite Hloop.
Qed.

(** ** Versions (infra/utils/version.go) *)

(** The map of the package's [replacer], and its keys. *)
Definition version_mapping : gmap string string := <["V" := ""]> (<["v" := ""]> {["-" := "."]}).
Definition version_keys : list string := ["V"; "v"; "-"].

Definition strsToInts (strs : list string) : list Z := (fun s => (ParseInt s).1) <$> strs.

(** The loop over the common fields: the result it returns, if any. *)
Fixpoint compare_fields (a b : list Z) : option Z :=
  match a, b with
  | x :: a, y :: b => if x =? y then compare_fields a b else Some (if x <? y then -1 else 1)
  | _, _ => None
  end.

Definition cmp_Compare (x y : Z) : Z := if x <? y then -1 else if y <? x then 1 else 0.

(** [None] is a panic of [Replace]. *)
Definition compare (r : replacer) (v1 v2 : string) : option Z :=
  v1 ← Replace r v1; v2 ← Replace r v2;
  let ver1 := strsToInts (Split v1 "."%char) in
  let ver2 := strsToInts (Split v2 "."%char) in
  Some (default (cmp_Compare (Z.of_nat (length ver1)) (Z.of_nat (length ver2))) (compare_fields ver1 ver2)).

Definition CompareVersions (r : replacer) (v1 op v2 : string) : option bool :=
  result ← compare r v1 v2;
  Some (if (op =? "=")%string || (op =? "==")%string then result =? 0
        else if (op =? "<")%string then result =? -1
        else if (op =? ">")%string then result =? 1
        else if (op =? "<=")%string then (result =? -1) || (result =? 0)
        else if (op =? ">=")%string then (result =? 0) || (result =? 1)
        else false).

(** *** What the replacer does to a version *)

Fixpoint norm (s : string) : string :=
  match s with
  | EmptyString => EmptyString
  | String c s =>
      if Ascii.eqb c "V"%char || Ascii.eqb c "v"%char then norm s
      else if Ascii.eqb c "-"%char then String "."%char (norm s)
      else String c (norm s)
  end.

Definition is_ascii (c : ascii) : bool := byte_val c <? 128.

Lemma runes_of_ascii s : str_all is_ascii s = true -> runes_of s = bytes_of s.
Proof.
  unfold runes_of. induction s as [|c s IH]; [done|]. cbn [str_all bytes_of decode_from]. intros [Hc Hs]%andb_true_iff.
  unfold is_ascii in Hc. unfold decode_rune. rewrite Hc. cbn [decode_from]. by rewrite IH.
Qed.

Lemma string_of_rune_ascii c : is_ascii c = true -> string_of_runes [byte_val c] = String c "".
Proof.
  unfold is_ascii. intros H%Z.ltb_lt. pose proof (byte_val_range c). unfold string_of_runes. cbn [flat_map app]. unfold encode_rune.
  destruct (in_range_spec 0 (byte_val c) 127); [|lia]. cbn. by rewrite val_byte_val.
Qed.

Lemma norm_ascii s : str_all is_ascii s = true -> str_all is_ascii (norm s) = true.
Proof.
  induction s as [|c s IH]; [done|]. cbn [str_all norm]. intros [Hc Hs]%andb_true_iff. specialize (IH Hs).
  destruct (_ || _); [done|]. destruct (Ascii.eqb c "-"%char); cbn [str_all]; rewrite IH; [done|by rewrite Hc].
Qed.

Lemma norm_norm s : norm (norm s) = norm s.
Proof.
  induction s as [|c s IH]; [done|]. cbn [norm]. destruct (Ascii.eqb c "V"%char || Ascii.eqb c "v"%char) eqn:E; [done|].
  destruct (Ascii.eqb c "-"%char) eqn:E2; cbn [norm]; [by rewrite IH|]. by rewrite E, E2, IH.
Qed.

Lemma norm_app a b : norm (a ++ b)%string = (norm a ++ norm b)%string.
Proof.
  induction a as [|c a IH]; [done|]. rewrite str_app_cons. cbn [norm]. rewrite IH. destruct (_ || _); [done|].
  by destruct (Ascii.eqb c "-"%char).
Qed.

Section versions.
Context (order : gmap Z nat -> list (Z * nat)) (order_perm : forall m, order m ≡ₚ map_to_list m).
Context (keys : list string) (keys_perm : keys ≡ₚ version_keys).

Lemma version_word w : w ∈ runes_of <$> keys <-> w = [86] \/ w = [118] \/ w = [45].
Proof using keys_perm.
  clear order_perm order.
  rewrite keys_perm. change (runes_of <$> version_keys) with [[86]; [118]; [45]]. set_solver.
Qed.

Definition special (x : Z) : bool := (x =? 86) || (x =? 118) || (x =? 45).

Lemma special_elem x : special x = true <-> [x] ∈ runes_of <$> keys.
Proof using keys_perm.
  clear order_perm order.
  rewrite version_word. unfold special. rewrite !orb_true_iff, !Z.eqb_eq. split; [intros [[->| ->]| ->]; auto|].
  intros [[= ->]|[[= ->]|[= ->]]]; auto.
Qed.

Lemma longest_version_word c chars : longest_word (runes_of <$> keys) (c :: chars) = if special c then 1%nat else 0%nat.
Proof using keys_perm.
  clear order_perm order.
  destruct (longest_word_spec (runes_of <$> keys) (c :: chars)) as (L1 & L2 & L3).
  set (n := longest_word _ _) in *. assert (Hn : n <> 0%nat -> n = 1%nat /\ special c = true).
  { intros Hne. specialize (L2 Hne). destruct n as [|[|n]]; [done|split; [done|]; by apply special_elem|exfalso].
    apply version_word in L2. cbn in L1. destruct chars; [cbn in L1; lia|]. cbn in L2. destruct L2 as [|[|]]; done. }
  destruct (special c) eqn:E.
  - apply special_elem in E. specialize (L3 _ E). assert ([c] `prefix_of` c :: chars) as Hp by (by exists chars).
    specialize (L3 Hp). cbn in L3. destruct (decide (n = 0%nat)); [lia|]. by destruct Hn.
  - destruct (decide (n = 0%nat)); [done|]. by destruct Hn.
Qed.

Lemma byte_val_eqb (c d : ascii) : (byte_val c =? byte_val d) = Ascii.eqb c d.
Proof.
  destruct (Ascii.eqb_spec c d) as [->|Hne]; [apply Z.eqb_refl|]. apply Z.eqb_neq. intros E. apply Hne.
  by rewrite <- (val_byte_val c), <- (val_byte_val d), E.
Qed.

Lemma special_byte c : special (byte_val c) = (Ascii.eqb c "V"%char || Ascii.eqb c "v"%char) || Ascii.eqb c "-"%char.
Proof.
  unfold special. change 86 with (byte_val "V"%char). change 118 with (byte_val "v"%char). change 45 with (byte_val "-"%char).
  by rewrite !byte_val_eqb.
Qed.

Lemma scan_norm s fuel : str_all is_ascii s = true -> (String.length s <= fuel)%nat ->
  scan (runes_of <$> keys) version_mapping fuel (bytes_of s) = norm s.
Proof using keys_perm.
  clear order_perm order.
  revert s. induction fuel as [|fuel IH]; intros [|c s] Hs Hf; cbn in Hf; try done; [lia|].
  cbn [str_all] in Hs. apply andb_true_iff in Hs as [Hc Hs]. cbn [bytes_of scan norm]. rewrite longest_version_word, special_byte.
  destruct (Ascii.eqb_spec c "V"%char) as [->|HV]; [cbn; rewrite drop_0; apply IH; [done|lia]|].
  destruct (Ascii.eqb_spec c "v"%char) as [->|Hv]; [cbn; rewrite drop_0; apply IH; [done|lia]|].
  destruct (Ascii.eqb_spec c "-"%char) as [->|Hd]; cbn [orb Nat.eqb].
  - rewrite firstn_cons, take_0, skipn_cons, drop_0, (string_of_rune_ascii "-"%char) by done.
    change (version_mapping !! String "-" "") with (Some "."). cbn [default]. rewrite IH by (done || lia). done.
  - rewrite string_of_rune_ascii by done. rewrite IH by (done || lia). done.
Qed.

Lemma length_bytes_of s : length (bytes_of s) = String.length s.
Proof. induction s as [|c s IH]; cbn; [done|]. by rewrite IH. Qed.

Lemma no_special_norm s : Forall (fun x => special x = false) (bytes_of s) -> norm s = s.
Proof.
  induction s as [|c s IH]; [done|]. cbn [bytes_of norm]. intros [Hc Hs]%Forall_cons. rewrite special_byte in Hc.
  apply orb_false_iff in Hc as [-> ->]. by rewrite IH.
Qed.

Lemma doReplace_norm r s : NewReplacer order keys version_mapping = Some r -> str_all is_ascii s = true ->
  exists b, doReplace r s = Some (norm s, b).
Proof using order_perm keys_perm.
  intros Hr Hs. destruct (automaton_builds order (runes_of <$> keys) order_perm) as (h & Hh & Hok).
  unfold NewReplacer in Hr. rewrite Hh in Hr. injection Hr as <-. unfold doReplace. cbn [rp_heap rp_mapping].
  rewrite (find_ok _ _ _ Hok), runes_of_ascii by done. cbn [mbind option_bind]. set (l := occurrences _ _).
  assert (Hl : l = occurrences (runes_of <$> keys) (bytes_of s)) by done. destruct l as [|sc l'].
  - exists false. do 2 f_equal. symmetry. apply no_special_norm. apply Forall_forall. intros x Hx. destruct (special x) eqn:E; [|done].
    exfalso. apply list_elem_of_lookup in Hx as [i Hi]. assert (Hin : mkScope i (i + 1) ∈ occurrences (runes_of <$> keys) (bytes_of s)).
    { pose proof (lookup_lt_Some _ _ _ Hi). apply occurrence_at; [lia|lia|]. apply special_elem in E.
      rewrite <- (take_drop_middle _ _ _ Hi), drop_app_ge, length_take_le, Nat.sub_diag by (rewrite ?length_take; lia). exact E. }
    rewrite <- Hl in Hin. set_solver.
  - exists true. do 2 f_equal. rewrite Hl.
    pose proof (replace_loop_scan (runes_of <$> keys) version_mapping (bytes_of s) (merge_sort scope_le (occurrences (runes_of <$> keys) (bytes_of s))) 0) as H.
    rewrite drop_0 in H. rewrite H; [apply scan_norm; [done|by rewrite length_bytes_of]|apply StronglySorted_merge_sort; apply _|..|lia].
    + intros sc'. by rewrite merge_sort_Permutation.
    + intros sc' Hsc _. by rewrite merge_sort_Permutation.
Qed.

Lemma Replace_norm r s : NewReplacer order keys version_mapping = Some r -> str_all is_ascii s = true -> Replace r s = Some (norm s).
Proof using order_perm keys_perm.
  intros Hr Hs. unfold Replace. cbn [replace_times]. destruct (doReplace_norm r s Hr Hs) as [b ->]. destruct b; [|done].
  destruct (doReplace_norm r (norm s) Hr (norm_ascii s Hs)) as [b ->]. rewrite norm_norm. by destruct b.
Qed.

End versions.

(** A version as it is written: an optional v, numbers separated by dots or dashes. *)
Definition version_text (prefix : string) (n : N) (rest : list (bool * N)) : string :=
  (prefix ++ pretty n ++ foldr (fun p t => (if p.1 : bool then "-" else ".") ++ pretty p.2 ++ t) "" rest)%string.

(** The lexicographic order of the numbers; a proper prefix is smaller. *)
Fixpoint lex (a b : list N) : Z :=
  match a, b with
  | [], [] => 0
  | [], _ => -1
  | _, [] => 1
  | x :: a, y :: b => if (x <? y)%N then -1 else if (y <? x)%N then 1 else lex a b
  end.

Lemma str_all_mono (P Q : ascii -> bool) s : (forall c, P c = true -> Q c = true) -> str_all P s = true -> str_all Q s = true.
Proof. intros H. induction s as [|c s IH]; [done|]. cbn. intros [Hc Hs]%andb_true_iff. by rewrite (H c Hc), IH. Qed.

Lemma digit_byte c : is_digit c = true -> 48 <= byte_val c <= 57.
Proof. unfold is_digit, digit_val, byte_val. destruct (Z.leb_spec 48 (Z.of_N (N_of_ascii c))), (Z.leb_spec (Z.of_N (N_of_ascii c)) 57); done. Qed.

Lemma digit_neq c d : is_digit c = true -> is_digit d = false -> Ascii.eqb c d = false.
Proof. intros Hc Hd. destruct (Ascii.eqb_spec c d) as [->|]; [congruence|done]. Qed.

Lemma norm_digits s : str_all is_digit s = true -> norm s = s.
Proof.
  induction s as [|c s IH]; [done|]. cbn [str_all norm]. intros [Hc Hs]%andb_true_iff.
  rewrite !(digit_neq c) by done. cbn [orb]. by rewrite IH.
Qed.

Lemma digits_ascii s : str_all is_digit s = true -> str_all is_ascii s = true.
Proof. apply str_all_mono. intros c Hc%digit_byte. unfold is_ascii. lia. Qed.

Lemma Split_digits s rest :
  str_all is_digit s = true -> Split s "."%char = [s] /\ Split (s ++ String "."%char rest)%string "."%char = s :: Split rest "."%char.
Proof.
  intros Hs. assert (Hno : str_all (fun x => negb (Ascii.eqb x "."%char)) s = true).
  { revert Hs. apply str_all_mono. intros c Hc. by rewrite digit_neq. }
  split; rewrite Split_SplitN2; [by rewrite SplitN2_absent|by rewrite SplitN2_app].
Qed.

Lemma version_text_fields prefix n rest : prefix ∈ ["" ; "v"; "V"] ->
  str_all is_ascii (version_text prefix n rest) = true /\
  Split (norm (version_text prefix n rest)) "."%char = pretty <$> n :: rest.*2.
Proof.
  intros Hp. unfold version_text.
  assert (Hpre : str_all is_ascii prefix = true /\ norm prefix = "").
  { repeat (apply elem_of_cons in Hp as [->|Hp]; [done|]). set_solver. }
  destruct Hpre as [Hp1 Hp2]. rewrite norm_app, Hp2, str_app_nil_l, str_all_app, Hp1. cbn [andb]. clear.
  revert n. induction rest as [|[dash m] rest IH]; intros n; destruct (pretty_N_digits n) as [Hd _]; cbn [foldr fmap list_fmap fst snd].
  - rewrite str_app_nil_r, norm_digits by done. split; [by apply digits_ascii|]. by apply (Split_digits (pretty n) "").
  - destruct (IH m) as [IH1 IH2]. rewrite str_all_app, (digits_ascii _ Hd). cbn [andb].
    split; [rewrite str_all_app, IH1; by destruct dash|].
    rewrite norm_app, norm_digits by done.
    set (tail := (pretty m ++ _)%string) in *.
    replace (norm ((if dash then "-" else ".") ++ tail)%string) with (String "."%char (norm tail)) by (by destruct dash).
    rewrite (proj2 (Split_digits _ _ Hd)), IH2. done.
Qed.

Lemma compare_fields_lex (a b : list N) :
  default (cmp_Compare (Z.of_nat (length (Z.of_N <$> a))) (Z.of_nat (length (Z.of_N <$> b)))) (compare_fields (Z.of_N <$> a) (Z.of_N <$> b)) = lex a b.
Proof.
  revert b. induction a as [|x a IH]; intros [|y b]; cbn [fmap list_fmap compare_fields lex default]; try done.
  destruct (Z.eqb_spec (Z.of_N x) (Z.of_N y)) as [E|Hne].
  - destruct (N.ltb_spec x y); [lia|]. destruct (N.ltb_spec y x); [lia|]. rewrite <- IH. cbn [length]. f_equal. unfold cmp_Compare.
    rewrite !Nat2Z.inj_succ. generalize (Z.of_nat (length (Z.of_N <$> a))) (Z.of_nat (length (Z.of_N <$> b))). intros u v.
    destruct (Z.ltb_spec (Z.succ u) (Z.succ v)), (Z.ltb_spec u v); try lia.
    destruct (Z.ltb_spec (Z.succ v) (Z.succ u)), (Z.ltb_spec v u); lia || done.
  - cbn. destruct (Z.ltb_spec (Z.of_N x) (Z.of_N y)), (N.ltb_spec x y); try lia. destruct (N.ltb_spec y x); lia.
Qed.

(** Versions compare as the lists of their numbers, lexicographically, whatever mix of
    dots, dashes and a leading v they are written with; a version that another one
    extends is the smaller one, also when the extension is all zeros. *)
Theorem compare_is_lexicographic (order : gmap Z nat -> list (Z * nat)) (keys : list string)
    (p1 p2 : string) (n1 n2 : N) (r1 r2 : list (bool * N)) :
  (forall m, order m ≡ₚ map_to_list m) -> keys ≡ₚ version_keys ->
  p1 ∈ [""; "v"; "V"] -> p2 ∈ [""; "v"; "V"] ->
  Forall (fun n => Z.of_N n < 2^63) (n1 :: r1.*2) -> Forall (fun n => Z.of_N n < 2^63) (n2 :: r2.*2) ->
  (r ← NewReplacer order keys version_mapping; compare r (version_text p1 n1 r1) (version_text p2 n2 r2)) =
  Some (lex (n1 :: r1.*2) (n2 :: r2.*2)).
Proof.
  intros Hord Hkeys Hp1 Hp2 Hr1 Hr2. destruct (automaton_builds order (runes_of <$> keys) Hord) as (h & Hh & _).
  assert (Hr : NewReplacer order keys version_mapping = Some (mkReplacer h version_mapping)) by (unfold NewReplacer; by rewrite Hh).
  rewrite Hr. cbn [mbind option_bind]. destruct (version_text_fields p1 n1 r1 Hp1) as [A1 B1]. destruct (version_text_fields p2 n2 r2 Hp2) as [A2 B2].
  unfold compare. rewrite !(Replace_norm order Hord keys Hkeys _ _ Hr) by done. cbn [mbind option_bind]. rewrite B1, B2.
  assert (Hints : forall l, Forall (fun n => Z.of_N n < 2^63) l -> strsToInts (pretty <$> l) = Z.of_N <$> l).
  { intros l. induction 1 as [|n l Hn _ IH]; [done|]. unfold strsToInts in *. rewrite !fmap_cons, IH. by rewrite ParseInt_pretty. }
  rewrite !Hints by done. f_equal. apply compare_fields_lex.
Qed.

(** *** Instances *)

Definition by_key (m : gmap Z nat) : list (Z * nat) := map_to_list m.

Lemma compare_is_lexicographic_witness :
  (r ← NewReplacer by_key version_keys version_mapping; compare r "v1.10-3" "V1.9.20") = Some 1.
Proof.
  exact (compare_is_lexicographic by_key version_keys "v" "V" 1 1 [(false, 10%N); (true, 3%N)] [(false, 9%N); (false, 20%N)]
    (fun m => reflexivity _) (reflexivity _) ltac:(set_solver) ltac:(set_solver) ltac:(repeat constructor) ltac:(repeat constructor)).
Defined.

Lemma doReplace_leftmost_longest_witness :
  (r ← NewReplacer by_key ["ab"; "abc"; "bcd"] {["ab" := "1"; "abc" := "2"; "bcd" := "3"]}; doReplace r "xabcdab") = Some ("x2d1", true).
Proof.
  pose proof (doReplace_leftmost_longest by_key ["ab"; "abc"; "bcd"] {["ab" := "1"; "abc" := "2"; "bcd" := "3"]} "xabcdab" (fun m => reflexivity _)) as H.
  cbn zeta in H. rewrite H. vm_compute. reflexivity.
Defined.
