(* ===== verification/Codec.v ===== *)
(** * AES in ECB mode with PKCS5 padding (infra/codec/aesecb.go)

    The block cipher is a parameter: the code only relies on [aes.NewCipher] (which
    rejects a key of the wrong length) and on [Encrypt] and [Decrypt] of one block.  A
    byte is a [Z]; a byte slice that a function may write through is the array behind it
    (from the slice's start to its capacity) with its length ([bslice]), because [append]
    writes into that array when it has room.  A panic is [None]. *)

From S2P Require Import Prelude Utf8 GoStrings.
From Stdlib Require Import Ascii.

#[local] Open Scope list_scope.
#[local] Open Scope Z_scope.

Notation bytes := (list Z).

(** ** Slices and append *)

Record bslice : Type := mkSlice { array : bytes; len : nat }.

Definition contents (s : bslice) : bytes := take (len s) (array s).

(** [append(s, xs...)]: the caller's array afterwards, and the contents of the result. *)
Definition append (s : bslice) (xs : bytes) : bytes * bytes :=
  let res := contents s ++ xs in
  if (length res <=? length (array s))%nat then (res ++ drop (length res) (array s), res) else (array s, res).

(** ** Base64 (encoding/base64, StdEncoding) *)

Definition b64_char (n : Z) : Z :=
  if n <? 26 then 65 + n else if n <? 52 then 97 + (n - 26) else if n <? 62 then 48 + (n - 52) else if n =? 62 then 43 else 47.

Definition b64_val (c : Z) : option Z :=
  if in_range 65 c 90 then Some (c - 65)
  else if in_range 97 c 122 then Some (c - 97 + 26)
  else if in_range 48 c 57 then Some (c - 48 + 52)
  else if c =? 43 then Some 62
  else if c =? 47 then Some 63
  else None.

Fixpoint b64_encode (bs : bytes) : bytes :=
  match bs with
  | [] => []
  | [a] => [b64_char (a / 4); b64_char (a mod 4 * 16); 61; 61]
  | [a; b] => [b64_char (a / 4); b64_char (a mod 4 * 16 + b / 16); b64_char (b mod 16 * 4); 61]
  | a :: b :: c :: bs =>
      b64_char (a / 4) :: b64_char (a mod 4 * 16 + b / 16) :: b64_char (b mod 16 * 4 + c / 64) :: b64_char (c mod 64) :: b64_encode bs
  end.

(** Quantum by quantum; padding ends the text. *)
Fixpoint b64_quanta (cs : bytes) : option bytes :=
  match cs with
  | [] => Some []
  | c1 :: c2 :: c3 :: c4 :: rest =>
      v1 ← b64_val c1; v2 ← b64_val c2;
      if (c3 =? 61) && (c4 =? 61) then
        match rest with [] => Some [v1 * 4 + v2 / 16] | _ => None end
      else
        v3 ← b64_val c3;
        if c4 =? 61 then
          match rest with [] => Some [v1 * 4 + v2 / 16; v2 mod 16 * 16 + v3 / 4] | _ => None end
        else
          v4 ← b64_val c4; bs ← b64_quanta rest;
          Some (v1 * 4 + v2 / 16 :: v2 mod 16 * 16 + v3 / 4 :: v3 mod 4 * 64 + v4 :: bs)
  | _ => None
  end.

(** [DecodeString] ignores line breaks; [None] is a [CorruptInputError]. *)
Definition DecodeString (s : string) : option bytes :=
  b64_quanta (filter (fun c => c <> 10 /\ c <> 13) (bytes_of s)).
Definition EncodeToString (bs : bytes) : string := string_of_bytes (b64_encode bs).

Definition is_byte (b : Z) : Prop := 0 <= b < 256.

Lemma b64_char_spec n : 0 <= n < 64 ->
  b64_val (b64_char n) = Some n /\ is_byte (b64_char n) /\ b64_char n <> 61 /\ b64_char n <> 10 /\ b64_char n <> 13.
Proof.
  intros Hn. unfold b64_char, is_byte. destruct (Z.ltb_spec n 26); [|destruct (Z.ltb_spec n 52); [|destruct (Z.ltb_spec n 62); [|destruct (Z.eqb_spec n 62)]]].
  all: (split; [|lia]); unfold b64_val.
  all: repeat match goal with |- context [in_range ?a ?b ?c] => destruct (in_range_spec a b c); try lia end.
  all: repeat match goal with |- context [?a =? ?b] => destruct (Z.eqb_spec a b); try lia end.
  all: f_equal; lia.
Qed.

(** Groups of three bytes. *)
Lemma triple_ind (P : bytes -> Prop) :
  P [] -> (forall a, P [a]) -> (forall a b, P [a; b]) -> (forall a b c l, P l -> P (a :: b :: c :: l)) -> forall l, P l.
Proof.
  intros H0 H1 H2 H3 l. enough (P l /\ (forall a, P (a :: l)) /\ forall a b, P (a :: b :: l)) by tauto.
  induction l as [|x l (IH1 & IH2 & IH3)]; [done|]. split; [done|]. split; [done|]. intros a b. by apply H3.
Qed.

Lemma byte_parts a : is_byte a -> 0 <= a / 4 < 64 /\ 0 <= a mod 4 < 4 /\ 0 <= a / 16 < 16 /\ 0 <= a mod 16 < 16 /\ 0 <= a / 64 < 4 /\ 0 <= a mod 64 < 64 /\
  a = 4 * (a / 4) + a mod 4 /\ a = 16 * (a / 16) + a mod 16 /\ a = 64 * (a / 64) + a mod 64.
Proof. unfold is_byte. intros Ha. Z.to_euclidean_division_equations. lia. Qed.

Lemma b64_join n : forall u v, 0 <= v < n -> 0 < n -> (u * n + v) / n = u /\ (u * n + v) mod n = v.
Proof.
  intros u v Hv Hn. split; [rewrite Z.div_add_l by lia; rewrite Z.div_small; lia|].
  rewrite Z.add_comm, Z.mod_add by lia. by apply Z.mod_small.
Qed.

(** Replaces the parts of a byte in the goal by variables with their bounds. *)
#[local] Ltac parts a H :=
  let P := fresh "P" in
  pose proof (byte_parts a H) as P; revert P;
  generalize (a / 4) (a mod 4) (a / 16) (a mod 16) (a / 64) (a mod 64); intros ? ? ? ? ? ? P; destruct P as (? & ? & ? & ? & ? & ? & ? & ? & ?).

#[local] Ltac sextet :=
  match goal with
  | |- context [b64_val (b64_char ?n)] =>
      let E := fresh "E" in let R := fresh "R" in destruct (b64_char_spec n) as (E & R); [lia|rewrite E; cbn [mbind option_bind]]
  end.

#[local] Ltac unjoin :=
  repeat match goal with
  | |- context [(?u * ?n + ?v) / ?n] => rewrite (proj1 (b64_join n u v ltac:(lia) ltac:(lia)))
  | |- context [(?u * ?n + ?v) mod ?n] => rewrite (proj2 (b64_join n u v ltac:(lia) ltac:(lia)))
  end.

Lemma b64_roundtrip bs : Forall is_byte bs ->
  b64_quanta (b64_encode bs) = Some bs /\ Forall (fun c => is_byte c /\ c <> 10 /\ c <> 13) (b64_encode bs).
Proof.
  assert (Hpad : is_byte 61 /\ 61 <> 10 /\ 61 <> 13) by (unfold is_byte; lia).
  induction bs as [|a|a b|a b c bs IH] using triple_ind; [done|..].
  - intros [Ha _]%Forall_cons. cbn [b64_encode b64_quanta]. rewrite <- (Z.add_0_r (a mod 4 * 16)). parts a Ha. do 2 sextet.
    unjoin. split; [cbn; do 2 f_equal; lia|]. rewrite !Forall_cons; split_and!; tauto || constructor.
  - intros [Ha [Hb _]%Forall_cons]%Forall_cons. cbn [b64_encode b64_quanta]. rewrite <- (Z.add_0_r (b mod 16 * 4)). parts a Ha. parts b Hb.
    do 2 sextet. destruct (Z.eqb_spec (b64_char (z8 * 4 + 0)) 61) as [E61|_]; [destruct (b64_char_spec (z8 * 4 + 0)); [lia|tauto]|]. cbn [andb].
    sextet. unjoin. change (61 =? 61) with true. cbn iota. split; [do 2 f_equal; [lia|f_equal; lia]|].
    rewrite !Forall_cons; split_and!; tauto || constructor.
  - intros [Ha [Hb [Hc Hbs]%Forall_cons]%Forall_cons]%Forall_cons. destruct (IH Hbs) as [IH1 IH2]. cbn [b64_encode b64_quanta].
    parts a Ha. parts b Hb. parts c Hc. do 2 sextet.
    destruct (Z.eqb_spec (b64_char (z8 * 4 + z15)) 61) as [E61|_]; [destruct (b64_char_spec (z8 * 4 + z15)); [lia|tauto]|]. cbn [andb].
    sextet. destruct (Z.eqb_spec (b64_char z16) 61) as [E61|_]; [destruct (b64_char_spec z16); [lia|tauto]|]. sextet. rewrite IH1. cbn [mbind option_bind].
    unjoin. split; [do 2 f_equal; [lia|f_equal; [lia|f_equal; lia]]|]. rewrite !Forall_cons; split_and!; tauto || done.
Qed.

Lemma DecodeString_EncodeToString bs : Forall is_byte bs -> DecodeString (EncodeToString bs) = Some bs.
Proof.
  intros H. destruct (b64_roundtrip bs H) as [E Hc]. unfold DecodeString, EncodeToString.
  rewrite bytes_of_string by (eapply Forall_impl; [exact Hc|]; by intros c [? _]).
  rewrite filter_all; [done|]. eapply Forall_impl; [exact Hc|]. by intros c [_ ?].
Qed.

(** ** Padding *)

Inductive codec_error := ErrPaddingSize | ErrKeySize | ErrBase64.

(** [None] in the place of the result is the nil slice of an impossible padding. *)
Definition pkcs5Padding (ciphertext : bslice) (blockSize : Z) : bytes * option bytes :=
  let padding := blockSize - Z.of_nat (len ciphertext) mod blockSize in
  if (padding <? 0) || (255 <? padding) then (array ciphertext, None)
  else let '(arr, res) := append ciphertext (replicate (Z.to_nat padding) padding) in (arr, Some res).

Definition pkcs5Unpadding (src : bytes) (blockSize : Z) : bytes + codec_error :=
  match last src with
  | None => inr ErrPaddingSize
  | Some unpadding =>
      let length_ := Z.of_nat (length src) in
      if (unpadding <? 1) || (blockSize <? unpadding) || (length_ <? unpadding) then inr ErrPaddingSize
      else
        let cut := Z.to_nat (length_ - unpadding) in
        if forallb (fun b => b =? unpadding) (drop cut src) then inl (take cut src) else inr ErrPaddingSize
  end.

Section ecb.
(** [aes.NewCipher] and the methods of [cipher.Block]. *)
Context {Block : Type} (NewCipher : bytes -> option Block) (BlockSize : Block -> Z).
Context (Encrypt Decrypt : Block -> bytes -> bytes).

(** The loop of both [CryptBlocks]; every round consumes a block, so the length of the
    text is enough fuel. *)
Fixpoint crypt_loop (f : bytes -> bytes) (bs fuel : nat) (src : bytes) : bytes :=
  match fuel with
  | O => []
  | S fuel => match src with [] => [] | _ => f (take bs src) ++ crypt_loop f bs fuel (drop bs src) end
  end.

(** [CryptBlocks] into a destination of the length of the source. *)
Definition CryptBlocks (f : bytes -> bytes) (blockSize : Z) (src : bytes) : option bytes :=
  if negb (Z.of_nat (length src) mod blockSize =? 0) then None
  else Some (crypt_loop f (Z.to_nat blockSize) (length src) src).

Definition encrypter_CryptBlocks (b : Block) := CryptBlocks (Encrypt b) (BlockSize b).
Definition decrypter_CryptBlocks (b : Block) := CryptBlocks (Decrypt b) (BlockSize b).

Definition EcbDecrypt (key src : bytes) : option (bytes + codec_error) :=
  match NewCipher key with
  | None => Some (inr ErrKeySize)
  | Some block =>
      if negb (Z.of_nat (length src) mod BlockSize block =? 0) then Some (inr ErrPaddingSize)
      else decrypted ← decrypter_CryptBlocks block src; Some (pkcs5Unpadding decrypted (BlockSize block))
  end.

(** The array behind the source slice afterwards, and the result. *)
Definition EcbEncrypt (key : bytes) (src : bslice) : bytes * option (bytes + codec_error) :=
  match NewCipher key with
  | None => (array src, Some (inr ErrKeySize))
  | Some block =>
      let '(arr, padded) := pkcs5Padding src (BlockSize block) in
      (arr, crypted ← encrypter_CryptBlocks block (default [] padded); Some (inl crypted))
  end.

Definition getKeyBytes (key : string) : bytes + codec_error :=
  if (String.length key <=? 32)%nat then inl (bytes_of key)
  else match DecodeString key with Some k => inl k | None => inr ErrBase64 end.

Definition exact_slice (bs : bytes) : bslice := mkSlice bs (length bs).

Definition EcbDecryptBase64 (key src : string) : option (string + codec_error) :=
  match getKeyBytes key with
  | inr e => Some (inr e)
  | inl keyBytes =>
      match DecodeString src with
      | None => Some (inr ErrBase64)
      | Some encryptedBytes =>
          res ← EcbDecrypt keyBytes encryptedBytes;
          Some (match res with inl d => inl (EncodeToString d) | inr e => inr e end)
      end
  end.

(** The slice [DecodeString] returns has the length of its array up to a few bytes no
    one else sees; what [append] does to it does not matter. *)
Definition EcbEncryptBase64 (key src : string) : option (string + codec_error) :=
  match getKeyBytes key with
  | inr e => Some (inr e)
  | inl keyBytes =>
      match DecodeString src with
      | None => Some (inr ErrBase64)
      | Some srcBytes =>
          res ← (EcbEncrypt keyBytes (exact_slice srcBytes)).2;
          Some (match res with inl d => inl (EncodeToString d) | inr e => inr e end)
      end
  end.

(** ** Padding and blocks *)

(** What [pkcs5Unpadding] accepts: [n] bytes of value [n], with [1 <= n <= blockSize]. *)
Lemma pkcs5Unpadding_iff src blockSize x :
  pkcs5Unpadding src blockSize = inl x <->
  exists n, 1 <= n <= blockSize /\ src = x ++ replicate (Z.to_nat n) n.
Proof.
  unfold pkcs5Unpadding. split.
  - destruct (last src) as [n|] eqn:El; [|done]. destruct (Z.ltb_spec n 1); [done|]. destruct (Z.ltb_spec blockSize n); [done|].
    destruct (Z.ltb_spec (Z.of_nat (length src)) n); [done|]. cbn [orb]. set (cut := Z.to_nat _).
    destruct (forallb _ _) eqn:Ef; [|done]. intros [= <-]. exists n. split; [lia|]. rewrite <- (take_drop cut src) at 1. f_equal.
    assert (Hlen : length (drop cut src) = Z.to_nat n) by (rewrite length_drop; lia). rewrite <- Hlen. symmetry. apply replicate_as_Forall_2; [done|].
    apply Is_true_true_2, forallb_True in Ef. eapply Forall_impl; [exact Ef|]. cbn. intros b Hb%Is_true_true_1%Z.eqb_eq. done.
  - intros (n & Hn & ->). rewrite last_app. destruct (Z.to_nat n) as [|m] eqn:Em; [lia|].
    assert (Hl : last (replicate (S m) n) = Some n) by (clear; induction m as [|m IH]; [done|exact IH]). rewrite Hl.
    rewrite length_app, length_replicate. destruct (Z.ltb_spec n 1); [lia|]. destruct (Z.ltb_spec blockSize n); [lia|].
    destruct (Z.ltb_spec (Z.of_nat (length x + S m)) n); [lia|]. cbn [orb].
    replace (Z.to_nat (Z.of_nat (length x + S m) - n)) with (length x) by lia. rewrite drop_app_length, take_app_length.
    assert (Hall : forallb (fun b => b =? n) (replicate (S m) n) = true) by (clear; induction (S m); cbn; [done|by rewrite Z.eqb_refl]).
    by rewrite Hall.
Qed.

Lemma pkcs5Padding_spec (src : bslice) blockSize :
  0 < blockSize <= 255 -> (len src <= length (array src))%nat ->
  exists n, 1 <= n <= blockSize /\ (pkcs5Padding src blockSize).2 = Some (contents src ++ replicate (Z.to_nat n) n) /\
    (Z.of_nat (len src) + n) mod blockSize = 0.
Proof.
  intros Hb Hl. unfold pkcs5Padding. pose proof (Z.mod_pos_bound (Z.of_nat (len src)) blockSize ltac:(lia)) as Hm.
  set (n := blockSize - _). exists n. unfold n in *. split; [lia|]. split.
  - destruct (Z.ltb_spec (blockSize - Z.of_nat (len src) mod blockSize) 0); [lia|].
    destruct (Z.ltb_spec 255 (blockSize - Z.of_nat (len src) mod blockSize)); [lia|]. cbn [orb]. unfold append. by destruct (_ <=? _)%nat.
  - rewrite Z.add_sub_assoc, <- Zminus_mod_idemp_r, Z.mod_mod, Zminus_mod_idemp_r by lia.
    replace (Z.of_nat (len src) + blockSize - Z.of_nat (len src)) with (1 * blockSize) by lia. apply Z.mod_mul. lia.
Qed.

Context (cipher_size : forall key b, NewCipher key = Some b -> 0 < BlockSize b <= 255).
Context (encrypt_size : forall b x, Z.of_nat (length x) = BlockSize b -> Z.of_nat (length (Encrypt b x)) = BlockSize b).
Context (decrypt_encrypt : forall b x, Z.of_nat (length x) = BlockSize b -> Decrypt b (Encrypt b x) = x).

(** Decrypting the blocks of an encrypted text. *)
Lemma crypt_loop_inverse b k fuel fuel' src : let bs := Z.to_nat (BlockSize b) in
  0 < BlockSize b -> length src = (k * bs)%nat -> (length src <= fuel)%nat -> (length src <= fuel')%nat ->
  length (crypt_loop (Encrypt b) bs fuel src) = length src /\
  crypt_loop (Decrypt b) bs fuel' (crypt_loop (Encrypt b) bs fuel src) = src.
Proof using encrypt_size decrypt_encrypt.
  intros bs Hb. revert fuel fuel' src. induction k as [|k IH]; intros fuel fuel' src Hl Hf Hf'.
  { apply nil_length_inv in Hl as ->. split; [by destruct fuel|]. by destruct fuel, fuel'. }
  assert (Hbs : (0 < bs)%nat) by lia. assert (Hlen : (bs <= length src)%nat) by (rewrite Hl; lia).
  destruct fuel as [|fuel]; [lia|]. destruct fuel' as [|fuel']; [lia|]. cbn [crypt_loop].
  destruct src as [|c src']; [cbn in Hlen; lia|]. set (src := c :: src') in *.
  assert (Ht : Z.of_nat (length (take bs src)) = BlockSize b) by (rewrite length_take; lia).
  destruct (IH fuel fuel' (drop bs src)) as [E1 E2]; [rewrite length_drop; lia..|].
  pose proof (encrypt_size b _ Ht) as Hel. assert (Hel' : length (Encrypt b (take bs src)) = bs) by lia.
  split; [rewrite length_app, E1, Hel', length_drop; lia|].
  destruct (Encrypt b (take bs src) ++ _) as [|c0 l0] eqn:El; [apply (f_equal length) in El; rewrite length_app in El; cbn in El; lia|].
  rewrite <- El, take_app_length', drop_app_length' by done.
  rewrite decrypt_encrypt, E2 by done. apply take_drop.
Qed.

Lemma EcbEncrypt_spec key b src : NewCipher key = Some b -> (len src <= length (array src))%nat ->
  exists c, (EcbEncrypt key src).2 = Some (inl c) /\ EcbDecrypt key c = Some (inl (contents src)).
Proof using cipher_size encrypt_size decrypt_encrypt.
  intros Hk Hl. pose proof (cipher_size key b Hk) as Hb. unfold EcbEncrypt, EcbDecrypt. rewrite Hk.
  destruct (pkcs5Padding_spec src (BlockSize b) Hb Hl) as (n & Hn & Hp & Hmod).
  destruct (pkcs5Padding src (BlockSize b)) as [arr padded]. cbn [snd] in *. subst padded. cbn [default from_option id].
  set (p := contents src ++ _). assert (Hpl : Z.of_nat (length p) = Z.of_nat (len src) + n).
  { unfold p, contents. rewrite length_app, length_take, length_replicate. lia. }
  unfold encrypter_CryptBlocks, decrypter_CryptBlocks, CryptBlocks. rewrite Hpl, Hmod. cbn [negb Z.eqb mbind option_bind].
  destruct (Z.mod_divide (Z.of_nat (length p)) (BlockSize b) ltac:(lia)) as [Hdiv _]. rewrite Hpl in Hdiv. destruct (Hdiv Hmod) as [q Hq].
  assert (Hq0 : 0 <= q) by nia.
  destruct (crypt_loop_inverse b (Z.to_nat q) (length p) (length p) p ltac:(lia) ltac:(lia) ltac:(lia) ltac:(lia)) as [E1 E2].
  eexists. split; [done|]. rewrite E1, Hpl, Hmod, E2. cbn [negb Z.eqb mbind option_bind]. f_equal.
  apply pkcs5Unpadding_iff. exists n. split; [done|done].
Qed.

(** Encryption round-trips: with any key the cipher accepts, decrypting the encryption
    of any byte slice gives its contents back; neither call panics. *)
Theorem ecb_roundtrip (key : bytes) (src : bslice) :
  is_Some (NewCipher key) -> (len src <= length (array src))%nat ->
  exists c, (EcbEncrypt key src).2 = Some (inl c) /\ EcbDecrypt key c = Some (inl (contents src)).
Proof using cipher_size encrypt_size decrypt_encrypt. intros [b Hb]. by apply (EcbEncrypt_spec key b). Qed.

Context (encrypt_bytes : forall b x, Forall is_byte x -> Forall is_byte (Encrypt b x)).

Lemma crypt_loop_bytes b bs fuel src : Forall is_byte src -> Forall is_byte (crypt_loop (Encrypt b) bs fuel src).
Proof using encrypt_bytes.
  revert src. induction fuel as [|fuel IH]; intros src H; [constructor|]. cbn. destruct src as [|c src']; [constructor|].
  apply Forall_app. split; [by apply encrypt_bytes, Forall_take|by apply IH, Forall_drop].
Qed.

Lemma bytes_of_bytes s : Forall is_byte (bytes_of s).
Proof. induction s as [|c s IH]; constructor; [apply byte_val_range|done]. Qed.

(** The same for the calls on base64 text: whatever base64 text is encrypted with an
    acceptable key, decrypting gives the (canonical) base64 text of the same bytes. *)
Theorem ecb_base64_roundtrip (key src : string) (k bs : bytes) :
  getKeyBytes key = inl k -> is_Some (NewCipher k) -> DecodeString src = Some bs -> Forall is_byte bs ->
  exists c, EcbEncryptBase64 key src = Some (inl c) /\ EcbDecryptBase64 key c = Some (inl (EncodeToString bs)).
Proof using cipher_size encrypt_size decrypt_encrypt encrypt_bytes.
  intros Hk [b Hb] Hsrc Hbs. unfold EcbEncryptBase64, EcbDecryptBase64. rewrite Hk, Hsrc.
  destruct (EcbEncrypt_spec k b (exact_slice bs) Hb ltac:(done)) as (c & Ec & Dc). rewrite Ec. cbn [mbind option_bind].
  assert (Hc : Forall is_byte c).
  { revert Ec. unfold EcbEncrypt. rewrite Hb. destruct (pkcs5Padding_spec (exact_slice bs) (BlockSize b) (cipher_size k b Hb) ltac:(done)) as (n & Hn & Hp & _).
    pose proof (cipher_size k b Hb) as Hsz. destruct (pkcs5Padding (exact_slice bs) (BlockSize b)) as [arr padded]. cbn [snd] in *. subst padded. cbn [default from_option id].
    unfold encrypter_CryptBlocks, CryptBlocks. destruct (negb _); [done|]. intros [= <-]. apply crypt_loop_bytes.
    apply Forall_app. split; [by apply Forall_take|]. apply Forall_replicate. unfold is_byte. lia. }
  exists (EncodeToString c). split; [done|]. rewrite DecodeString_EncodeToString by done. rewrite Dc. cbn [mbind option_bind].
  do 2 f_equal. unfold contents, exact_slice. cbn. by rewrite firstn_all.
Qed.

(** Encryption writes its padding into the caller's memory: when the slice to encrypt
    is the front of a longer array with room for the padding, the bytes behind it are
    overwritten.  Whatever was there is lost. *)
Theorem EcbEncrypt_overwrites_tail (key : bytes) (b : Block) (front tail : bytes) :
  NewCipher key = Some b ->
  let n := BlockSize b - Z.of_nat (length front) mod BlockSize b in
  n <= Z.of_nat (length tail) ->
  (EcbEncrypt key (mkSlice (front ++ tail) (length front))).1 = front ++ replicate (Z.to_nat n) n ++ drop (Z.to_nat n) tail.
Proof using cipher_size.
  intros Hk n Hn. pose proof (cipher_size key b Hk) as Hb. unfold EcbEncrypt, pkcs5Padding. rewrite Hk. cbn [len array].
  pose proof (Z.mod_pos_bound (Z.of_nat (length front)) (BlockSize b) ltac:(lia)) as Hm. fold n.
  destruct (Z.ltb_spec n 0); [lia|]. destruct (Z.ltb_spec 255 n); [lia|]. cbn [orb]. unfold append, contents. cbn [len array].
  rewrite take_app_length. rewrite !length_app, length_replicate. destruct (Nat.leb_spec (length front + Z.to_nat n) (length front + length tail)); [|lia].
  cbn [fst]. rewrite <- (assoc_L app). do 2 f_equal. by rewrite <- drop_drop, drop_app_length.
Qed.

End ecb.

(** ** An instance: a byte-wise cipher on blocks of 16 bytes *)

Definition toy_NewCipher (key : bytes) : option Z :=
  if bool_decide (length key = 16%nat \/ length key = 24%nat \/ length key = 32%nat) then Some (foldr Z.add 0 key mod 256) else None.
Definition toy_Encrypt (k : Z) (x : bytes) : bytes := (fun b => 255 - b) <$> x.

Lemma toy_involution k x : toy_Encrypt k (toy_Encrypt k x) = x.
Proof. unfold toy_Encrypt. rewrite <- list_fmap_compose. rewrite <- (list_fmap_id x) at 2. apply list_fmap_ext. intros i b _. cbn. lia. Qed.

Lemma toy_size (k : Z) (x : bytes) : Z.of_nat (length x) = 16 -> Z.of_nat (length (toy_Encrypt k x)) = 16.
Proof. unfold toy_Encrypt. by rewrite length_fmap. Qed.

Lemma toy_bytes (k : Z) x : Forall is_byte x -> Forall is_byte (toy_Encrypt k x).
Proof. intros H. apply Forall_fmap. eapply Forall_impl; [exact H|]. cbn. unfold is_byte. lia. Qed.

Definition toy_key : bytes := replicate 16 7.

Lemma ecb_roundtrip_witness :
  exists c, (EcbEncrypt toy_NewCipher (fun _ => 16) toy_Encrypt toy_key (mkSlice [1; 2; 3; 4] 3)).2 = Some (inl c) /\
    EcbDecrypt toy_NewCipher (fun _ => 16) toy_Encrypt toy_key c = Some (inl [1; 2; 3]).
Proof.
  exact (ecb_roundtrip toy_NewCipher (fun _ => 16) toy_Encrypt toy_Encrypt ltac:(intros; lia) toy_size (fun k x _ => toy_involution k x)
    toy_key (mkSlice [1; 2; 3; 4] 3) ltac:(vm_compute; by eexists) ltac:(cbn; lia)).
Defined.

Lemma ecb_base64_roundtrip_witness :
  exists c, EcbEncryptBase64 toy_NewCipher (fun _ => 16) toy_Encrypt "0123456789abcdef" "aGVsbG8=" = Some (inl c) /\
    EcbDecryptBase64 toy_NewCipher (fun _ => 16) toy_Encrypt "0123456789abcdef" c = Some (inl (EncodeToString (bytes_of "hello"))).
Proof.
  exact (ecb_base64_roundtrip toy_NewCipher (fun _ => 16) toy_Encrypt toy_Encrypt ltac:(intros; lia) toy_size (fun k x _ => toy_involution k x) toy_bytes
    "0123456789abcdef" "aGVsbG8=" (bytes_of "0123456789abcdef") (bytes_of "hello") ltac:(vm_compute; reflexivity) ltac:(vm_compute; by eexists)
    ltac:(vm_compute; reflexivity) (bytes_of_bytes "hello")).
Defined.

Lemma EcbEncrypt_overwrites_tail_witness :
  (EcbEncrypt toy_NewCipher (fun _ => 16) toy_Encrypt toy_key (mkSlice (replicate 14 1 ++ replicate 4 9) 14)).1 =
  replicate 14 1 ++ [2; 2] ++ [9; 9].
Proof.
  exact (EcbEncrypt_overwrites_tail toy_NewCipher (fun _ => 16) toy_Encrypt ltac:(intros; lia)
    toy_key 112 (replicate 14 1) (replicate 4 9) ltac:(vm_compute; reflexivity) ltac:(vm_compute; discriminate)).
Defined.
