(* ===== verification/Ssrf.v ===== *)
(** * Outbound request checks (server/middleware/ssrf.go)

    An address is a number: an IPv4 address in its 16-byte form, as package net keeps it.
    Parsing of IPv6 text and name resolution are parameters; parsing of IPv4 text and of
    networks is modelled, because the checker's tables are texts that are parsed when it
    is built.  A nil pointer in a table is [None]; using it is a panic. *)

From S2P Require Import Prelude GoStrings GoStrconv.
From Stdlib Require Import Ascii.

#[local] Open Scope string_scope.
#[local] Open Scope list_scope.
#[local] Open Scope Z_scope.

(** ** Addresses and networks (package net) *)

Definition IPv4 (x : Z) : Z := 65535 * 2^32 + x.
Definition To4 (ip : Z) : option Z := if ip / 2^32 =? 65535 then Some (ip mod 2^32) else None.

(** [net.IPNet]: the network number and the length of the mask, for addresses of [bits]
    bits. *)
Record IPNet : Type := mkIPNet { net_ip : Z; net_ones : Z; net_bits : Z }.

Definition Contains (n : IPNet) (ip : Z) : bool :=
  let '(ip, bits) := match To4 ip with Some x => (x, 32) | None => (ip, 128) end in
  (bits =? net_bits n) && (Z.shiftr ip (bits - net_ones n) =? Z.shiftr (net_ip n) (bits - net_ones n)).

(** One decimal field of an IPv4 address. *)
Definition octet (s : string) : option Z :=
  if (s =? "")%string || (3 <? Z.of_nat (String.length s)) then None
  else
    match s with
    | String "0" (String _ _) => None
    | _ => match parse_digits 0 s with (n, None) => if n <=? 255 then Some n else None | _ => None end
    end.

Definition parseIPv4 (s : string) : option Z :=
  match Split s "."%char with
  | [a; b; c; d] => a ← octet a; b ← octet b; c ← octet c; d ← octet d; Some (((a * 256 + b) * 256 + c) * 256 + d)
  | _ => None
  end.

Inductive addr_kind := KindV4 | KindV6 | KindNone.

(** [netip.ParseAddr] decides by the first of these characters. *)
Fixpoint addr_kind_of (s : string) : addr_kind :=
  match s with
  | EmptyString => KindNone
  | String c s =>
      if Ascii.eqb c "."%char then KindV4
      else if Ascii.eqb c ":"%char then KindV6
      else if Ascii.eqb c "%"%char then KindNone
      else addr_kind_of s
  end.

Inductive ssrf_result :=
| Allowed
| CannotResolve
| BlockedPrivate | BlockedLoopback | BlockedMetadata
| Panic.

Section ssrf.
Context (parseIPv6 : string -> option Z).

Definition ParseIP (s : string) : option Z :=
  match addr_kind_of s with
  | KindV4 => IPv4 <$> parseIPv4 s
  | KindV6 => parseIPv6 s
  | KindNone => None
  end.

(** [net.ParseCIDR], as far as its network: [None] is an error and a nil network. *)
Definition ParseCIDR (s : string) : option IPNet :=
  match SplitN2 s "/"%char with
  | (_, None) => None
  | (addr, Some mask) =>
      ip ← ParseIP addr;
      let '(ip, bits) := match addr_kind_of addr with KindV4 => (ip mod 2^32, 32) | _ => (ip, 128) end in
      match ParseUint mask with
      | (n, None) => if n <=? bits then Some (mkIPNet (Z.shiftl (Z.shiftr ip (bits - n)) (bits - n)) n bits) else None
      | _ => None
      end
  end.

(** ** The checker *)

Definition privateRanges : list string := ["10.0.0.0/8"; "172.16.0.0/12"; "192.168.0.0/16"; "100.64.0.0/10"].
Definition loopbackRanges : list string := ["127.0.0.0/8"; "::1"].
Definition metadataRanges : list string := ["169.254.169.254/32"].

Record SSRFConfig : Type := mkSSRFConfig {
  sc_Enabled : bool; sc_BlockPrivate : bool; sc_BlockLoopback : bool; sc_BlockMetadata : bool;
  sc_AllowedHosts : list string; sc_AllowAll : bool
}.

Record ssrfChecker : Type := mkChecker {
  ck_private : list (option IPNet); ck_loopback : list (option IPNet); ck_metadata : list (option IPNet);
  ck_allowedHosts : gset string; ck_allowAll : bool
}.

(** [strings.ToLower] on ASCII text. *)
Fixpoint ToLower (s : string) : string :=
  match s with EmptyString => EmptyString | String c s => String (if is_upper c then add32 c else c) (ToLower s) end.

Definition NewSafeHTTPClient (cfg : SSRFConfig) : ssrfChecker :=
  mkChecker (if sc_BlockPrivate cfg then ParseCIDR <$> privateRanges else [])
            (if sc_BlockLoopback cfg then ParseCIDR <$> loopbackRanges else [])
            (if sc_BlockMetadata cfg then ParseCIDR <$> metadataRanges else [])
            (list_to_set (ToLower <$> sc_AllowedHosts cfg)) (sc_AllowAll cfg).

(** A loop over one table: [None] is a panic, [Some true] a match. *)
Fixpoint any_contains (l : list (option IPNet)) (ip : Z) : option bool :=
  match l with
  | [] => Some false
  | None :: _ => None
  | Some n :: l => if Contains n ip then Some true else any_contains l ip
  end.

(** [r.LookupIPAddr]: [None] is an error. *)
Context (LookupIPAddr : string -> option (list Z)).

Definition check_ranges (c : ssrfChecker) (ip : Z) : ssrf_result :=
  match any_contains (ck_private c) ip with
  | None => Panic
  | Some true => BlockedPrivate
  | Some false =>
      match any_contains (ck_loopback c) ip with
      | None => Panic
      | Some true => BlockedLoopback
      | Some false =>
          match any_contains (ck_metadata c) ip with
          | None => Panic
          | Some true => BlockedMetadata
          | Some false => Allowed
          end
      end
  end.

Definition validate (c : ssrfChecker) (host : string) : ssrf_result :=
  if ck_allowAll c then Allowed
  else if bool_decide (ToLower host ∈ ck_allowedHosts c) then Allowed
  else
    match ParseIP host with
    | Some ip => check_ranges c ip
    | None =>
        match LookupIPAddr host with
        | None => CannotResolve
        | Some [] => Allowed
        | Some (ip :: _) => check_ranges c ip
        end
    end.

(** ** What is blocked *)

(** [lo] to [hi] as IPv4 addresses. *)
Definition v4_between (lo hi ip : Z) : bool :=
  match To4 ip with Some x => (lo <=? x) && (x <=? hi) | None => false end.

Definition dotted (a b c d : Z) : Z := ((a * 256 + b) * 256 + c) * 256 + d.

Definition is_private (ip : Z) : bool :=
  v4_between (dotted 10 0 0 0) (dotted 10 255 255 255) ip ||
  v4_between (dotted 172 16 0 0) (dotted 172 31 255 255) ip ||
  v4_between (dotted 192 168 0 0) (dotted 192 168 255 255) ip ||
  v4_between (dotted 100 64 0 0) (dotted 100 127 255 255) ip.
Definition is_loopback4 (ip : Z) : bool := v4_between (dotted 127 0 0 0) (dotted 127 255 255 255) ip.
Definition is_metadata (ip : Z) : bool := v4_between (dotted 169 254 169 254) (dotted 169 254 169 254) ip.

Lemma Contains_between (n k : Z) (bits := 32) (ip : Z) :
  0 <= k <= 32 ->
  Contains (mkIPNet (Z.shiftl (Z.shiftr n k) k) (32 - k) 32) ip = v4_between (n / 2^k * 2^k) (n / 2^k * 2^k + 2^k - 1) ip.
Proof.
  intros Hk. unfold Contains, v4_between. cbn [net_bits net_ones net_ip]. destruct (To4 ip) as [x|]; [|done].
  replace (32 - (32 - k)) with k by lia. cbn [Z.eqb Pos.eqb andb].
  rewrite Z.shiftr_shiftl_l, Z.sub_diag, Z.shiftl_0_r by lia. rewrite !Z.shiftr_div_pow2 by lia.
  assert (Hp : 0 < 2^k) by lia. pose proof (Z.div_mod x (2^k) ltac:(lia)). pose proof (Z.mod_pos_bound x (2^k) Hp).
  set (q := n / 2^k). destruct (Z.eqb_spec (x / 2^k) q) as [E|E].
  - symmetry. apply andb_true_iff. rewrite !Z.leb_le. nia.
  - symmetry. apply andb_false_iff. rewrite !Z.leb_gt. destruct (Z.lt_total (x / 2^k) q) as [|[|]]; [left; nia|done|right; nia].
Qed.

Lemma private_contains ip : any_contains (ParseCIDR <$> privateRanges) ip = Some (is_private ip).
Proof.
  assert (E : ParseCIDR <$> privateRanges =
    Some <$> [mkIPNet (Z.shiftl (Z.shiftr (dotted 10 0 0 0) 24) 24) (32 - 24) 32; mkIPNet (Z.shiftl (Z.shiftr (dotted 172 16 0 0) 20) 20) (32 - 20) 32;
              mkIPNet (Z.shiftl (Z.shiftr (dotted 192 168 0 0) 16) 16) (32 - 16) 32; mkIPNet (Z.shiftl (Z.shiftr (dotted 100 64 0 0) 22) 22) (32 - 22) 32])
    by (vm_compute; reflexivity).
  rewrite E. cbn [fmap list_fmap any_contains]. rewrite !Contains_between by lia. unfold is_private.
  change (dotted 10 0 0 0 / 2^24 * 2^24) with (dotted 10 0 0 0). change (dotted 10 0 0 0 + 2^24 - 1) with (dotted 10 255 255 255).
  change (dotted 172 16 0 0 / 2^20 * 2^20) with (dotted 172 16 0 0). change (dotted 172 16 0 0 + 2^20 - 1) with (dotted 172 31 255 255).
  change (dotted 192 168 0 0 / 2^16 * 2^16) with (dotted 192 168 0 0). change (dotted 192 168 0 0 + 2^16 - 1) with (dotted 192 168 255 255).
  change (dotted 100 64 0 0 / 2^22 * 2^22) with (dotted 100 64 0 0). change (dotted 100 64 0 0 + 2^22 - 1) with (dotted 100 127 255 255).
  by do 4 destruct (v4_between _ _ ip).
Qed.

(** The second loopback range is not a CIDR text: its network is nil. *)
Lemma loopback_contains ip : any_contains (ParseCIDR <$> loopbackRanges) ip = if is_loopback4 ip then Some true else None.
Proof.
  assert (E : ParseCIDR <$> loopbackRanges = [Some (mkIPNet (Z.shiftl (Z.shiftr (dotted 127 0 0 0) 24) 24) (32 - 24) 32); None])
    by (vm_compute; reflexivity).
  rewrite E. cbn [any_contains]. rewrite Contains_between by lia. unfold is_loopback4.
  change (dotted 127 0 0 0 / 2^24 * 2^24) with (dotted 127 0 0 0). change (dotted 127 0 0 0 + 2^24 - 1) with (dotted 127 255 255 255). done.
Qed.

Lemma metadata_contains ip : any_contains (ParseCIDR <$> metadataRanges) ip = Some (is_metadata ip).
Proof.
  assert (E : ParseCIDR <$> metadataRanges = [Some (mkIPNet (Z.shiftl (Z.shiftr (dotted 169 254 169 254) 0) 0) (32 - 0) 32)])
    by (vm_compute; reflexivity).
  rewrite E. cbn [any_contains]. rewrite Contains_between by lia. unfold is_metadata.
  change (dotted 169 254 169 254 / 2^0 * 2^0) with (dotted 169 254 169 254). change (dotted 169 254 169 254 + 2^0 - 1) with (dotted 169 254 169 254).
  by destruct (v4_between _ _ ip).
Qed.

(** The address a host stands for, as [validate] finds it. *)
Definition host_addr (host : string) : option Z :=
  match ParseIP host with Some ip => Some ip | None => LookupIPAddr host ≫= head end.

(** With [block_loopback] the checker blocks 127.0.0.0/8 and panics on every other
    host that is not allowed by name and not already blocked as private: the table
    entry for ::1 has no prefix length, does not parse, and is dereferenced as a nil
    pointer.  So no public host can be reached. *)
Theorem block_loopback_panics (cfg : SSRFConfig) (host : string) (ip : Z) :
  sc_BlockLoopback cfg = true -> sc_AllowAll cfg = false -> ToLower host ∉ ToLower <$> sc_AllowedHosts cfg ->
  host_addr host = Some ip ->
  validate (NewSafeHTTPClient cfg) host =
  if sc_BlockPrivate cfg && is_private ip then BlockedPrivate else if is_loopback4 ip then BlockedLoopback else Panic.
Proof.
  intros Hl Ha Hh Hip. unfold validate, NewSafeHTTPClient. cbn [ck_allowAll ck_allowedHosts ck_private ck_loopback ck_metadata].
  rewrite Ha, bool_decide_eq_false_2 by (by rewrite elem_of_list_to_set).
  assert (Hc : check_ranges (NewSafeHTTPClient cfg) ip =
    if sc_BlockPrivate cfg && is_private ip then BlockedPrivate else if is_loopback4 ip then BlockedLoopback else Panic).
  { unfold check_ranges, NewSafeHTTPClient. cbn [ck_private ck_loopback ck_metadata]. rewrite Hl, loopback_contains.
    destruct (sc_BlockPrivate cfg); [rewrite private_contains; destruct (is_private ip); [done|]|]; by destruct (is_loopback4 ip). }
  unfold host_addr in Hip. destruct (ParseIP host) as [ip'|]; [by injection Hip as ->|].
  destruct (LookupIPAddr host) as [[|ip' l]|]; [done| |done]. cbn in Hip. by injection Hip as ->.
Qed.

(** Without [block_loopback] the checker decides exactly: a host allowed by name or
    [allow_all] passes; a host that does not resolve is refused; otherwise the first
    address is blocked if it is in the private ranges or is the metadata address and
    the respective block is on, and passes if not.  It never panics. *)
Theorem validate_decides (cfg : SSRFConfig) (host : string) :
  sc_BlockLoopback cfg = false ->
  validate (NewSafeHTTPClient cfg) host =
  if sc_AllowAll cfg || bool_decide (ToLower host ∈ ToLower <$> sc_AllowedHosts cfg) then Allowed
  else
    match ParseIP host, LookupIPAddr host with
    | None, None => CannotResolve
    | _, _ =>
        match host_addr host with
        | None => Allowed
        | Some ip =>
            if sc_BlockPrivate cfg && is_private ip then BlockedPrivate
            else if sc_BlockMetadata cfg && is_metadata ip then BlockedMetadata else Allowed
        end
    end.
Proof.
  intros Hl. unfold validate, NewSafeHTTPClient. cbn [ck_allowAll ck_allowedHosts ck_private ck_loopback ck_metadata].
  destruct (sc_AllowAll cfg); [done|]. cbn [orb].
  rewrite (bool_decide_ext (ToLower host ∈ _) (ToLower host ∈ ToLower <$> sc_AllowedHosts cfg)) by apply elem_of_list_to_set.
  case_bool_decide; [done|].
  assert (Hc : forall ip, check_ranges (NewSafeHTTPClient cfg) ip =
    if sc_BlockPrivate cfg && is_private ip then BlockedPrivate else if sc_BlockMetadata cfg && is_metadata ip then BlockedMetadata else Allowed).
  { intros ip. unfold check_ranges, NewSafeHTTPClient. cbn [ck_private ck_loopback ck_metadata]. rewrite Hl. cbn [any_contains].
    destruct (sc_BlockPrivate cfg); [rewrite private_contains; destruct (is_private ip); [done|]|];
      (destruct (sc_BlockMetadata cfg); [rewrite metadata_contains; by destruct (is_metadata ip)|done]). }
  unfold NewSafeHTTPClient in Hc. rewrite Hl in Hc. unfold host_addr. rewrite Hl.
  destruct (ParseIP host) as [ip|]; [apply Hc|]. destruct (LookupIPAddr host) as [[|ip l]|]; [done| |done]. apply Hc.
Qed.

End ssrf.

(** *** Instances: no IPv6 parsing, a one-name resolver *)

Definition no_ipv6 (s : string) : option Z := None.
Definition one_name (s : string) : option (list Z) := if (s =? "example.org")%string then Some [IPv4 (dotted 93 184 216 34)] else None.

Lemma block_loopback_panics_witness :
  validate no_ipv6 one_name (NewSafeHTTPClient no_ipv6 (mkSSRFConfig true true true true [] false)) "example.org" = Panic.
Proof.
  exact (block_loopback_panics no_ipv6 one_name (mkSSRFConfig true true true true [] false) "example.org" (IPv4 (dotted 93 184 216 34))
    eq_refl eq_refl ltac:(apply not_elem_of_nil) eq_refl).
Defined.

Lemma validate_decides_witness :
  validate no_ipv6 one_name (NewSafeHTTPClient no_ipv6 (mkSSRFConfig true true false true ["Trusted"] false)) "172.20.1.9" = BlockedPrivate.
Proof.
  exact (validate_decides no_ipv6 one_name (mkSSRFConfig true true false true ["Trusted"] false) "172.20.1.9" eq_refl).
Defined.
