(* ===== verification/Http.v ===== *)
(** * What a middleware sees and does

    A Fiber handler reads the request and the values earlier handlers left ("locals"),
    and then answers, fails, or calls the next handler.  The request is its accessors
    (a missing header, cookie or parameter is the empty string, as the accessors
    return it); what the handler does is an [outcome]. *)

From S2P Require Import Prelude.

(** JSON values as token claims carry them. *)
Inductive json :=
| JNull
| JBool (b : bool)
| JNum (z : Z)
| JStr (s : string)
| JArr (l : list json).

Notation claims := (gmap string json).

Record AuthContext : Type := mkAuth {
  UserID : string; OrgID : string; Roles : list string; Permissions : list string; RawToken : string; Claims : claims
}.

Record request : Type := mkRequest {
  rq_method : string; rq_path : string;
  rq_header : string -> string; rq_cookie : string -> string; rq_query : string -> string; rq_param : string -> string;
  rq_routeName : string; rq_body : string;
  rq_auth : option AuthContext;                  (* c.Locals("auth") *)
  rq_local : string -> option claims;            (* locals that hold claims *)
  rq_csrfSkip : bool                             (* c.Locals("csrf_skip") == true *)
}.

(** What is left on the context before the next handler runs. *)
Inductive effect :=
| SetHeader (k v : string)
| SetCookie (name value : string)
| SetLocal (k v : string)
| SetClaims (k : string) (v : claims)
| SetAuth (a : AuthContext).

Inductive outcome :=
| ReplyWith (effects : list effect) (status : Z) (message : string)  (* a response, the chain ends *)
| Fail (status : Z)                              (* an error for the error handler *)
| Next (effects : list effect).                  (* c.Next *)

Notation Reply := (ReplyWith []).

Definition passes (o : outcome) : bool := match o with Next _ => true | _ => false end.
