(* ===== verification/Auth.v ===== *)
(** * Authentication and authorization (server/middleware: jwt.go, auth_context.go,
      basic.go, apikey.go, openfga.go, mfa.go, session.go)

    Parameters: the JWT library (parsing with a key function, claim accessors), key
    parsing, JWKS, the OpenFGA check, the user's resolvers and the session store.  Each
    handler is a function from the request to an [outcome]. *)

From S2P Require Import Prelude GoStrings Utf8 Codec Http.
From Stdlib Require Import Ascii.

#[local] Open Scope string_scope.
#[local] Open Scope list_scope.
#[local] Open Scope Z_scope.

(** ** The auth context *)

Definition stringOr (c : claims) (key : string) : string :=
  match c !! key with Some (JStr s) => s | _ => "" end.

Definition strings_of (j : option json) : list string :=
  match j with
  | Some (JArr l) => omap (fun x => match x with JStr s => Some s | _ => None end) l
  | _ => []
  end.

Definition buildAuthContext (c : claims) (rawToken : string) : AuthContext :=
  mkAuth (stringOr c "sub") (stringOr c "org_id") (strings_of (c !! "roles")) (strings_of (c !! "permissions")) rawToken c.

(** ** JWT *)

Record JWTConfig : Type := mkJWTConfig {
  jc_Secret : string; jc_PrevSecret : string; jc_ContextKey : string; jc_TokenLookup : string;
  jc_Algorithm : string; jc_Issuer : string; jc_Audience : string;
  jc_TokenBlacklist : option (string -> bool); jc_JWKSURL : string
}.

Inductive family := HMAC | RSA | ECDSA | OtherFamily.
Record method : Type := mkMethod { m_Alg : string; m_family : family }.

(** What a key function sees of a token: its method and the [kid] of its header. *)
Record tokenHeader : Type := mkHeader { h_method : method; h_kid : option json }.

Definition orElse (s d : string) : string := if (s =? "")%string then d else s.

(** [strings.CutPrefix] *)
Definition CutPrefix (s p : string) : option string := if HasPrefix s p then Some (str_drop (String.length p) s) else None.

(** The token and the raw header value it came from. *)
Definition extractToken (rq : request) (lookup : string) : string * string :=
  match SplitN2 lookup ":"%char with
  | (_, None) => ("", "")
  | (source, Some key) =>
      let value :=
        if (source =? "header")%string then Some (rq_header rq key)
        else if (source =? "cookie")%string then Some (rq_cookie rq key)
        else if (source =? "query")%string then Some (rq_query rq key)
        else None in
      match value with
      | None => ("", "")
      | Some value => match CutPrefix value "Bearer " with Some after => (after, value) | None => (value, value) end
      end
  end.

(** The value [raw] in which a request carries a token, where the configuration looks for it. *)
Definition carries (rq : request) (lookup raw token : string) : Prop :=
  exists source key, lookup = (source ++ ":" ++ key)%string /\ str_all (fun x => negb (Ascii.eqb x ":")) source = true /\
    ((source = "header" /\ raw = rq_header rq key) \/ (source = "cookie" /\ raw = rq_cookie rq key) \/ (source = "query" /\ raw = rq_query rq key)) /\
    (raw = ("Bearer " ++ token)%string \/ HasPrefix raw "Bearer " = false /\ token = raw).

Lemma extractToken_carries rq lookup token : token <> "" -> forall raw, extractToken rq lookup = (token, raw) <-> carries rq lookup raw token.
Proof.
  intros Hne raw. unfold extractToken, carries. split.
  - destruct (SplitN2 lookup ":"%char) as [source [key|]] eqn:E; [|by intros [= <- _]]. apply SplitN2_cut in E as [Hs ->]. intros H. exists source, key. split; [done|]. split; [done|].
    assert (V : forall value, (match CutPrefix value "Bearer " with Some after => (after, value) | None => (value, value) end = (token, raw)) ->
      raw = value /\ (raw = ("Bearer " ++ token)%string \/ HasPrefix raw "Bearer " = false /\ token = raw)).
    { intros value. unfold CutPrefix. destruct (HasPrefix value "Bearer ") eqn:P; intros [= <- <-]; [|auto]. split; [done|]. left. by apply HasPrefix_cut in P. }
    destruct (String.eqb_spec source "header") as [->|]; [apply V in H; naive_solver|]. destruct (String.eqb_spec source "cookie") as [->|]; [apply V in H; naive_solver|].
    destruct (String.eqb_spec source "query") as [->|]; [apply V in H; naive_solver|by injection H as <- _].
  - intros (source & key & -> & Hs & Hv & Ht). change (source ++ ":" ++ key)%string with (source ++ String ":" key)%string. rewrite SplitN2_app by done.
    assert (V : match CutPrefix raw "Bearer " with Some after => (after, raw) | None => (raw, raw) end = (token, raw)).
    { unfold CutPrefix. destruct Ht as [-> |[-> ->]]; [|done]. by rewrite HasPrefix_app, str_drop_app. }
    destruct Hv as [[-> ->]|[[-> ->]|[-> ->]]]; exact V.
Qed.

Section jwt.
Context {RSAKey ECKey : Type} (parseRSAPublicKey : string -> option RSAKey) (parseECDSAPublicKey : string -> option ECKey).

Inductive key := KSecret (s : string) | KRSA (k : RSAKey) | KECDSA (k : ECKey).

(** The [KeyFunc] of the resolver that the parser of a configuration has (Jwks models it; the
    parsers for the current and for the previous secret have one each), and [Parse] of a
    [jwt.Parser] at a time in nanoseconds, with the algorithms it is restricted to, if any, and
    a key function. *)
Context (jwksKeyFunc : JWTConfig -> tokenHeader -> option key).
Context (jwtParse : Z -> list string -> (tokenHeader -> option key) -> string -> option claims).
(** [GetIssuer], [GetAudience] and [GetExpirationTime], in nanoseconds ([None] is an error; no
    expiration is [Some None]). *)
Context (GetIssuer : claims -> option string) (GetAudience : claims -> option (list string)) (GetExpirationTime : claims -> option (option Z)).

Record jwtParser : Type := mkParser {
  p_secret : string; p_rsaPub : option RSAKey; p_ecdsaPub : option ECKey; p_algorithm : string;
  p_keyFunc : option (tokenHeader -> option key)
}.

Definition newParser (cfg : JWTConfig) : jwtParser :=
  if negb (jc_JWKSURL cfg =? "")%string then mkParser "" None None (jc_Algorithm cfg) (Some (jwksKeyFunc cfg))
  else if HasPrefix (jc_Algorithm cfg) "HS" then mkParser (jc_Secret cfg) None None (jc_Algorithm cfg) None
  else if HasPrefix (jc_Algorithm cfg) "RS" then mkParser "" (parseRSAPublicKey (jc_Secret cfg)) None (jc_Algorithm cfg) None
  else if HasPrefix (jc_Algorithm cfg) "ES" then mkParser "" None (parseECDSAPublicKey (jc_Secret cfg)) (jc_Algorithm cfg) None
  else mkParser "" None None (jc_Algorithm cfg) None.

(** The key function of [parseWithStaticKey]: [None] is [ErrSignatureInvalid]. *)
Definition static_keyFunc (p : jwtParser) (h : tokenHeader) : option key :=
  let m := h_method h in
  if negb (m_Alg m =? p_algorithm p)%string then None
  else if HasPrefix (p_algorithm p) "HS" then match m_family m with HMAC => Some (KSecret (p_secret p)) | _ => None end
  else if HasPrefix (p_algorithm p) "RS" then match m_family m with RSA => KRSA <$> p_rsaPub p | _ => None end
  else if HasPrefix (p_algorithm p) "ES" then match m_family m with ECDSA => KECDSA <$> p_ecdsaPub p | _ => None end
  else None.

Definition parseWithJWKS (now : Z) (p : jwtParser) (kf : tokenHeader -> option key) (token : string) : option claims :=
  jwtParse now ["RS256"; "RS384"; "RS512"] kf token.
Definition parseWithStaticKey (now : Z) (p : jwtParser) (token : string) : option claims := jwtParse now [] (static_keyFunc p) token.

Definition parse (now : Z) (p : jwtParser) (token : string) : option claims :=
  match p_keyFunc p with
  | Some kf => parseWithJWKS now p kf token
  | None => parseWithStaticKey now p token
  end.

(** [None] when the claims are accepted at time [now], in nanoseconds. *)
Definition validateClaims (now : Z) (c : claims) (cfg : JWTConfig) : option string :=
  if negb (jc_Issuer cfg =? "")%string && negb (bool_decide (GetIssuer c = Some (jc_Issuer cfg))) then Some "invalid issuer"
  else if negb (jc_Audience cfg =? "")%string &&
          negb (match GetAudience c with Some aud => bool_decide (jc_Audience cfg ∈ aud) | None => false end) then Some "invalid audience"
  else match GetExpirationTime c with
       | Some (Some exp) => if exp <? now then Some "token expired" else None
       | _ => None
       end.

(** The configuration with the defaults [JWT] fills in. *)
Definition jwt_defaults (cfg : JWTConfig) : JWTConfig :=
  mkJWTConfig (jc_Secret cfg) (jc_PrevSecret cfg) (orElse (jc_ContextKey cfg) "claims") (orElse (jc_TokenLookup cfg) "header:Authorization")
    (orElse (jc_Algorithm cfg) "HS256") (jc_Issuer cfg) (jc_Audience cfg) (jc_TokenBlacklist cfg) (jc_JWKSURL cfg).

Definition with_secret (s : string) (cfg : JWTConfig) : JWTConfig :=
  mkJWTConfig s (jc_PrevSecret cfg) (jc_ContextKey cfg) (jc_TokenLookup cfg) (jc_Algorithm cfg) (jc_Issuer cfg) (jc_Audience cfg)
    (jc_TokenBlacklist cfg) (jc_JWKSURL cfg).

(** The claims of a token: with the current secret, else with the previous one. *)
Definition parse_either (now : Z) (cfg : JWTConfig) (token : string) : option claims :=
  match parse now (newParser cfg) token with
  | Some c => Some c
  | None => if (jc_PrevSecret cfg =? "")%string then None else parse now (newParser (with_secret (jc_PrevSecret cfg) cfg)) token
  end.

(** The clock is read once for a request. *)
Definition JWT (cfg0 : JWTConfig) (now : Z) (rq : request) : outcome :=
  let cfg := jwt_defaults cfg0 in
  let '(token, rawToken) := extractToken rq (jc_TokenLookup cfg) in
  if (token =? "")%string then Reply 401 "missing or malformed token"
  else
    match parse_either now cfg token with
    | None => Reply 401 "invalid or expired token"
    | Some c =>
        match validateClaims now c cfg with
        | Some err => Reply 401 err
        | None =>
            let effects := [SetClaims (jc_ContextKey cfg) c; SetAuth (buildAuthContext c rawToken)] in
            if match jc_TokenBlacklist cfg with Some revoked => revoked rawToken | None => false end then ReplyWith effects 401 "token revoked"
            else Next effects
        end
    end.

(** [MFARequired] reads the claims under the fixed key "claims". *)
Definition MFARequired (rq : request) : outcome :=
  match rq_local rq "claims" with
  | None => Reply 401 "authentication required"
  | Some c => match c !! "mfa" with Some (JBool true) => Next [] | _ => Reply 401 "MFA verification required" end
  end.

Lemma keyFunc_ok (cfg : JWTConfig) (h : tokenHeader) (k : key) :
  jc_JWKSURL cfg = "" -> static_keyFunc (newParser cfg) h = Some k ->
  let m := h_method h in
  m_Alg m = jc_Algorithm cfg /\
  match k with
  | KSecret s => m_family m = HMAC /\ s = jc_Secret cfg /\ HasPrefix (jc_Algorithm cfg) "HS" = true
  | KRSA r => m_family m = RSA /\ parseRSAPublicKey (jc_Secret cfg) = Some r /\ HasPrefix (jc_Algorithm cfg) "RS" = true
  | KECDSA e => m_family m = ECDSA /\ parseECDSAPublicKey (jc_Secret cfg) = Some e /\ HasPrefix (jc_Algorithm cfg) "ES" = true
  end.
Proof using Type.
  intros Hu. unfold static_keyFunc, newParser. rewrite Hu. cbn [String.eqb negb]. generalize (h_method h) as m. intros m.
  destruct (HasPrefix (jc_Algorithm cfg) "HS") eqn:E1; [|destruct (HasPrefix (jc_Algorithm cfg) "RS") eqn:E2; [|destruct (HasPrefix (jc_Algorithm cfg) "ES") eqn:E3]];
    cbn [p_algorithm p_secret p_rsaPub p_ecdsaPub]; rewrite ?E1, ?E2, ?E3;
    (destruct (String.eqb_spec (m_Alg m) (jc_Algorithm cfg)) as [->|]; [|done]); cbn [negb]; destruct (m_family m); try done.
  - by intros [= <-].
  - destruct (parseRSAPublicKey (jc_Secret cfg)) as [r|] eqn:Ek; [|done]. by intros [= <-].
  - destruct (parseECDSAPublicKey (jc_Secret cfg)) as [e|] eqn:Ek; [|done]. by intros [= <-].
Qed.

(** No algorithm confusion.  A key configured for one family of algorithms is only ever
    handed to the verification of a token of the same algorithm and family: in particular
    an RSA or ECDSA key never verifies a token that says it is HMAC-signed, and a token with
    another algorithm than the configured one gets no key at all. *)
Theorem keyFunc_no_confusion (cfg : JWTConfig) (h : tokenHeader) (k : key) :
  jc_JWKSURL cfg = "" -> static_keyFunc (newParser cfg) h = Some k ->
  let m := h_method h in
  m_Alg m = jc_Algorithm cfg /\
  match k with
  | KSecret s => m_family m = HMAC /\ s = jc_Secret cfg /\ HasPrefix (jc_Algorithm cfg) "HS" = true
  | KRSA r => m_family m = RSA /\ parseRSAPublicKey (jc_Secret cfg) = Some r /\ HasPrefix (jc_Algorithm cfg) "RS" = true
  | KECDSA e => m_family m = ECDSA /\ parseECDSAPublicKey (jc_Secret cfg) = Some e /\ HasPrefix (jc_Algorithm cfg) "ES" = true
  end.
Proof. apply keyFunc_ok. Qed.

(** Accepted claims. *)
Definition claims_ok (now : Z) (c : claims) (cfg : JWTConfig) : Prop :=
  (jc_Issuer cfg <> "" -> GetIssuer c = Some (jc_Issuer cfg)) /\
  (jc_Audience cfg <> "" -> exists aud, GetAudience c = Some aud /\ jc_Audience cfg ∈ aud) /\
  (forall exp, GetExpirationTime c = Some (Some exp) -> now <= exp).

Lemma validateClaims_ok now c cfg : validateClaims now c cfg = None <-> claims_ok now c cfg.
Proof using Type.
  clear jwksKeyFunc jwtParse.
  unfold validateClaims, claims_ok. split.
  - intros H. repeat split.
    + intros Hi. destruct (String.eqb_spec (jc_Issuer cfg) ""); [done|]. cbn [negb andb] in H. case_bool_decide; [done|done].
    + intros Ha. destruct (_ && negb (bool_decide _)); [done|]. destruct (String.eqb_spec (jc_Audience cfg) ""); [done|]. cbn [negb andb] in H.
      destruct (GetAudience c) as [aud|]; [|done]. case_bool_decide; [by exists aud|done].
    + intros exp He. destruct (_ && negb (bool_decide _)); [done|]. destruct (_ && negb _); [done|]. rewrite He in H.
      destruct (Z.ltb_spec exp now); [done|lia].
  - intros (Hi & Ha & He).
    assert (E1 : negb (jc_Issuer cfg =? "")%string && negb (bool_decide (GetIssuer c = Some (jc_Issuer cfg))) = false).
    { destruct (String.eqb_spec (jc_Issuer cfg) ""); [done|]. by rewrite bool_decide_eq_true_2 by (by apply Hi). }
    rewrite E1.
    assert (E2 : negb (jc_Audience cfg =? "")%string && negb (match GetAudience c with Some aud => bool_decide (jc_Audience cfg ∈ aud) | None => false end) = false).
    { destruct (String.eqb_spec (jc_Audience cfg) ""); [done|]. destruct Ha as (aud & -> & Hin); [done|]. by rewrite bool_decide_eq_true_2. }
    rewrite E2. destruct (GetExpirationTime c) as [[exp|]|]; [|done..]. destruct (Z.ltb_spec exp now); [|done]. specialize (He exp eq_refl). lia.
Qed.

(** *** The library

    What a token says before it is verified, and whether its signature verifies under a key;
    [GetNotBefore] as the other accessors. *)
Context (unverified : string -> option (tokenHeader * claims)) (verified : method -> key -> string -> bool) (GetNotBefore : claims -> option (option Z)).

(** The times in the claims, where there are any: before [exp], not before [nbf]. *)
Definition in_time (now : Z) (c : claims) : Prop :=
  (GetExpirationTime c = Some None \/ exists exp, GetExpirationTime c = Some (Some exp) /\ now < exp) /\
  (GetNotBefore c = Some None \/ exists nbf, GetNotBefore c = Some (Some nbf) /\ nbf <= now).

(** [Parse] as the library documents it: the token is decoded, its algorithm is one of the
    accepted ones, the key function gives a key for it, its signature verifies under that key,
    and the times in its claims are valid. *)
Definition parse_documented : Prop := forall now algs kf token c,
  jwtParse now algs kf token = Some c <->
  exists h k, unverified token = Some (h, c) /\ (algs = [] \/ m_Alg (h_method h) ∈ algs) /\ kf h = Some k /\
    verified (h_method h) k token = true /\ in_time now c.

(** The key a configuration has for a token: that of its own algorithm, which is the token's,
    or one of the resolver's for an RSA token. *)
Definition key_for (cfg : JWTConfig) (h : tokenHeader) (k : key) : Prop :=
  let m := h_method h in
  if (jc_JWKSURL cfg =? "")%string then
    m_Alg m = jc_Algorithm cfg /\
    match k with
    | KSecret s => HasPrefix (jc_Algorithm cfg) "HS" = true /\ m_family m = HMAC /\ s = jc_Secret cfg
    | KRSA r => HasPrefix (jc_Algorithm cfg) "RS" = true /\ m_family m = RSA /\ parseRSAPublicKey (jc_Secret cfg) = Some r
    | KECDSA e => HasPrefix (jc_Algorithm cfg) "ES" = true /\ m_family m = ECDSA /\ parseECDSAPublicKey (jc_Secret cfg) = Some e
    end
  else m_Alg m ∈ ["RS256"; "RS384"; "RS512"] /\ jwksKeyFunc cfg h = Some k.

(** A token verifies under a configuration. *)
Definition verifies (now : Z) (cfg : JWTConfig) (token : string) (c : claims) : Prop :=
  exists h k, unverified token = Some (h, c) /\ key_for cfg h k /\ verified (h_method h) k token = true /\ in_time now c.

Lemma static_key_for cfg h k : jc_JWKSURL cfg = "" -> static_keyFunc (newParser cfg) h = Some k <-> key_for cfg h k.
Proof using Type.
  intros Hu. split.
  - intros H. pose proof (keyFunc_ok cfg h k Hu H) as [E K]. unfold key_for. rewrite Hu. cbn [String.eqb]. split; [exact E|]. destruct k; destruct K as (K1 & K2 & K3); done.
  - unfold key_for, static_keyFunc, newParser. rewrite Hu. cbn [String.eqb negb]. intros [E K]. generalize dependent (h_method h). intros m E K.
    assert (X : forall p q, String.length p = String.length q -> p <> q -> HasPrefix (jc_Algorithm cfg) p = true -> HasPrefix (jc_Algorithm cfg) q = false).
    { intros p q Hl Hne Hp. destruct (HasPrefix (jc_Algorithm cfg) q) eqn:Hq; [|done]. by destruct Hne, (prefix_first (jc_Algorithm cfg) p q). }
    destruct k as [s|r|e]; destruct K as (P & F & K).
    + rewrite P. cbn [p_algorithm p_secret]. rewrite E, String.eqb_refl, P, F, K. done.
    + rewrite (X "RS" "HS" eq_refl ltac:(discriminate) P), P. cbn [p_algorithm p_rsaPub]. rewrite E, String.eqb_refl, (X "RS" "HS" eq_refl ltac:(discriminate) P), P, F, K. done.
    + rewrite (X "ES" "HS" eq_refl ltac:(discriminate) P), (X "ES" "RS" eq_refl ltac:(discriminate) P), P. cbn [p_algorithm p_ecdsaPub].
      rewrite E, String.eqb_refl, (X "ES" "HS" eq_refl ltac:(discriminate) P), (X "ES" "RS" eq_refl ltac:(discriminate) P), P, F, K. done.
Qed.

(** Parsing with the parser of a configuration is verification under it. *)
Lemma parse_verifies now cfg token c : parse_documented -> parse now (newParser cfg) token = Some c <-> verifies now cfg token c.
Proof using Type.
  unfold parse_documented. intros L. unfold parse, verifies. destruct (String.eqb_spec (jc_JWKSURL cfg) "") as [Hu|Hu].
  - assert (p_keyFunc (newParser cfg) = None) as ->. { unfold newParser. rewrite Hu. cbn [String.eqb negb]. by repeat destruct (HasPrefix _ _). }
    unfold parseWithStaticKey. rewrite L. setoid_rewrite (static_key_for cfg _ _ Hu). split.
    + intros (h & k & H1 & _ & H2). by exists h, k.
    + intros (h & k & H1 & H2). exists h, k. split; [done|]. split; [by left|done].
  - assert (p_keyFunc (newParser cfg) = Some (jwksKeyFunc cfg)) as ->. { unfold newParser. by destruct (String.eqb_spec (jc_JWKSURL cfg) ""). }
    unfold parseWithJWKS. rewrite L. unfold key_for. destruct (String.eqb_spec (jc_JWKSURL cfg) ""); [done|]. split.
    + intros (h & k & H1 & [?|Ha] & Hk & H2); [done|]. by exists h, k.
    + intros (h & k & H1 & [Ha Hk] & H2). exists h, k. split; [done|]. split; [by right|done].
Qed.

Lemma verifies_claims now cfg cfg' token c c' : verifies now cfg token c -> verifies now cfg' token c' -> c = c'.
Proof using Type. intros (h & k & H & _) (h' & k' & H' & _). congruence. Qed.

(** C31: the JWT middleware lets a request through exactly when a token is where the configuration
    looks for it; the token is signed, with the configured algorithm and no other, under the
    current secret or, if one is configured, the previous one (with a JWKS URL: with an RSA
    algorithm under the resolver's key for its header); it is before its expiry and not before
    its start; it has the required issuer and audience; and it is not revoked.  The next
    handler then sees the claims and the identity they describe. *)
Theorem JWT_passes_iff (cfg0 : JWTConfig) (now : Z) (rq : request) (effs : list effect) :
  parse_documented ->
  let cfg := jwt_defaults cfg0 in
  JWT cfg0 now rq = Next effs <->
    exists raw token c, carries rq (jc_TokenLookup cfg) raw token /\ token <> "" /\
      (verifies now cfg token c \/ jc_PrevSecret cfg <> "" /\ verifies now (with_secret (jc_PrevSecret cfg) cfg) token c) /\
      (jc_Issuer cfg <> "" -> GetIssuer c = Some (jc_Issuer cfg)) /\
      (jc_Audience cfg <> "" -> exists aud, GetAudience c = Some aud /\ jc_Audience cfg ∈ aud) /\
      (forall revoked, jc_TokenBlacklist cfg = Some revoked -> revoked raw = false) /\
      effs = [SetClaims (jc_ContextKey cfg) c; SetAuth (buildAuthContext c raw)].
Proof using Type.
  intros L cfg. assert (Hp : forall token c, parse_either now cfg token = Some c <-> (verifies now cfg token c \/ jc_PrevSecret cfg <> "" /\ verifies now (with_secret (jc_PrevSecret cfg) cfg) token c)).
  { intros token c. unfold parse_either. rewrite <- !(parse_verifies now _ token c L). destruct (parse now (newParser cfg) token) as [c'|] eqn:E.
    - split; [auto|]. intros [H|[_ H]]; [done|]. apply (parse_verifies _ _ _ _ L) in E, H. f_equal. by eapply verifies_claims.
    - destruct (String.eqb_spec (jc_PrevSecret cfg) ""); naive_solver. }
  assert (Ht : forall token c, parse_either now cfg token = Some c -> in_time now c) by (intros token c [(h & k & H)|(_ & h & k & H)]%Hp; apply H).
  unfold JWT. fold cfg. clearbody cfg. split.
  - destruct (extractToken rq (jc_TokenLookup cfg)) as [token raw] eqn:Ex. destruct (String.eqb_spec token ""); [done|]. destruct (parse_either now cfg token) as [c|] eqn:E; [|done].
    destruct (validateClaims now c cfg) eqn:Ev; [done|]. apply validateClaims_ok in Ev as (Ei & Ea & _). destruct (match jc_TokenBlacklist cfg with Some _ => _ | None => _ end) eqn:Eb; [done|].
    intros [= <-]. exists raw, token, c. split_and!; [by apply extractToken_carries|done|by apply Hp|done|done| |done]. intros revoked Hr. by rewrite Hr in Eb.
  - intros (raw & token & c & Hc & Hne & Hv & Hi & Ha & Hb & ->). apply extractToken_carries in Hc; [|done]. rewrite Hc. destruct (String.eqb_spec token ""); [done|]. apply Hp in Hv. rewrite Hv.
    assert (Hok : claims_ok now c cfg). { split_and!; [done|done|]. intros exp He. destruct (Ht _ _ Hv) as [[X|(e & X & ?)] _]; rewrite He in X; simplify_eq. lia. }
    apply validateClaims_ok in Hok. rewrite Hok. destruct (jc_TokenBlacklist cfg) as [revoked|]; [|done]. by rewrite (Hb revoked eq_refl).
Qed.

End jwt.

(** ** HTTP Basic *)

(** [strings.Cut(s, ":")] *)
Definition CutByte (s : string) (c : ascii) : string * string * bool :=
  match SplitN2 s c with (a, Some b) => (a, b, true) | (a, None) => (a, "", false) end.

Definition parseBasicAuth (raw : string) : string * string * bool :=
  if negb (HasPrefix raw "Basic ") then ("", "", false)
  else
    match DecodeString (TrimPrefix raw "Basic ") with
    | None => ("", "", false)
    | Some decoded =>
        let '(user, pass, ok) := CutByte (string_of_bytes decoded) ":"%char in
        (user, pass, ok && negb (user =? "")%string)
    end.

(** What a validator or resolver returns: an error, no context, or a context. *)
Inductive resolved := ResolveError (msg : string) | ResolveNil | ResolveAuth (a : AuthContext).

Definition Basic (validator : option (string -> string -> resolved)) (realm : string) (rq : request) : outcome :=
  let realm := orElse realm "restricted" in
  let '(user, pass, ok) := parseBasicAuth (rq_header rq "Authorization") in
  if negb ok then ReplyWith [SetHeader "WWW-Authenticate" ("Basic realm=" ++ String "034" realm ++ String "034" "")%string] 401 "missing basic credentials"
  else
    match validator with
    | None => Reply 500 "basic validator not configured"
    | Some validate =>
        match validate user pass with
        | ResolveError msg => Reply 401 msg
        | ResolveNil => Reply 403 "basic credentials not authorized"
        | ResolveAuth a => Next [SetAuth a]
        end
    end.

Definition basic_header (user pass : string) : string :=
  ("Basic " ++ EncodeToString (bytes_of (user ++ String ":" pass)))%string.

(** The header a client builds from credentials (base64 of user:password, for a
    nonempty user without a colon) is parsed back to exactly these credentials, also
    when the password contains colons. *)
Theorem parseBasicAuth_roundtrip (user pass : string) :
  user <> "" -> str_all (fun x => negb (Ascii.eqb x ":"%char)) user = true ->
  parseBasicAuth (basic_header user pass) = (user, pass, true).
Proof.
  intros Hne Hu. unfold parseBasicAuth, basic_header, TrimPrefix. rewrite HasPrefix_app. cbn [negb]. rewrite str_drop_app.
  rewrite DecodeString_EncodeToString by apply bytes_of_bytes. rewrite string_of_bytes_of. unfold CutByte. rewrite SplitN2_app by done.
  destruct (String.eqb_spec user ""); done.
Qed.

(** ** API keys *)

Record APIKeyConfig : Type := mkAPIKeyConfig { ak_Prefix : string; ak_Relation : string; ak_Object : string; ak_Header : string }.

(** The alphanumeric runes of the first twelve bytes. *)
Definition deriveKeyID (k : string) : string :=
  let k := if 12 <? Z.of_nat (String.length k) then str_take 12 k else k in
  string_of_runes (filter (fun c => in_range 97 c 122 || in_range 65 c 90 || in_range 48 c 57 = true) (runes_of k)).

Section apikey.
(** The resolver and the OpenFGA check ([None] is an error), where configured. *)
Context (AuthResolver : option (string -> resolved)) (Check : option (string -> string -> string -> option bool)).

Definition APIKey (cfg : APIKeyConfig) (rq : request) : outcome :=
  let header := orElse (ak_Header cfg) "Authorization" in
  let relation := orElse (ak_Relation cfg) "can_access" in
  let raw := rq_header rq header in
  if (raw =? "")%string then Reply 401 "missing API key"
  else
    let k := TrimPrefix raw "Bearer " in
    if negb (ak_Prefix cfg =? "")%string && negb (HasPrefix k (ak_Prefix cfg)) then Reply 401 "invalid API key format"
    else
      match AuthResolver with
      | Some resolve =>
          match resolve k with
          | ResolveError msg => Reply 401 msg
          | ResolveNil => Reply 403 "API key not authorized"
          | ResolveAuth a => Next [SetAuth a]
          end
      | None =>
          match Check with
          | Some check =>
              match check ("apikey:" ++ deriveKeyID k)%string relation (ak_Object cfg) with
              | None => Reply 500 "authorization check failed"
              | Some false => Reply 403 "API key not authorized"
              | Some true => Next []
              end
          | None => Next []
          end
      end.
End apikey.

Lemma str_take_prefix (a b : string) n : (String.length a = n)%nat -> str_take n (a ++ b) = a.
Proof. intros <-. apply str_take_app. Qed.

Definition with_header (h : string -> string) (rq : request) : request :=
  mkRequest (rq_method rq) (rq_path rq) h (rq_cookie rq) (rq_query rq) (rq_param rq) (rq_routeName rq) (rq_body rq) (rq_auth rq) (rq_local rq) (rq_csrfSkip rq).

Lemma deriveKeyID_take (start rest : string) : String.length start = 12%nat -> deriveKeyID (start ++ rest) = deriveKeyID start.
Proof.
  intros Hl. unfold deriveKeyID. rewrite str_length_app, Hl. destruct rest as [|c rest]; [by rewrite str_app_nil_r|].
  cbn [String.length]. destruct (Z.ltb_spec 12 (Z.of_nat (12 + S (String.length rest)))); [|lia].
  destruct (Z.ltb_spec 12 (Z.of_nat 12)); [lia|]. by rewrite str_take_prefix.
Qed.

Lemma HasPrefix_long (p a b : string) : (String.length p <= String.length a)%nat -> HasPrefix (a ++ b) p = HasPrefix a p.
Proof.
  unfold HasPrefix. revert a. induction p as [|c p IH]; intros [|d a] Hl; cbn in Hl; try lia; [by destruct b|done|].
  rewrite str_app_cons. cbn. destruct (ascii_dec c d); [apply IH; lia|done].
Qed.

(** With OpenFGA and no resolver, only the first twelve bytes of an API key decide: a
    key that starts like an authorized one is authorized, whatever follows.  (For keys
    sent as a Bearer token and a configured prefix of at most twelve bytes.) *)
Theorem APIKey_ignores_rest_of_key (check : string -> string -> string -> option bool) (cfg : APIKeyConfig) (rq : request)
    (start secret other : string) :
  String.length start = 12%nat -> (String.length (ak_Prefix cfg) <= 12)%nat ->
  APIKey None (Some check) cfg (with_header (fun _ => "Bearer " ++ start ++ secret)%string rq) =
  APIKey None (Some check) cfg (with_header (fun _ => "Bearer " ++ start ++ other)%string rq).
Proof.
  intros Hl Hp. unfold APIKey, with_header. cbn [rq_header].
  assert (Ht : forall s, TrimPrefix ("Bearer " ++ start ++ s)%string "Bearer " = (start ++ s)%string).
  { intros s. unfold TrimPrefix. rewrite HasPrefix_app. apply str_drop_app. }
  assert (Hnil : forall s, ("Bearer " ++ s =? "")%string = false) by done.
  rewrite !Ht, !Hnil, !HasPrefix_long by lia. by rewrite !deriveKeyID_take.
Qed.

(** ** OpenFGA *)

Record OpenFGAConfig : Type := mkFGA { fga_Relation : string; fga_Object : string; fga_Roles : list string; fga_Permissions : list string }.

Definition buildUserIdentifier (a : AuthContext) : string :=
  if negb (OrgID a =? "")%string then ("user:" ++ OrgID a ++ ":" ++ UserID a)%string else ("user:" ++ UserID a)%string.

Definition hasAnyRole (a : AuthContext) (required : list string) : bool := existsb (fun r => bool_decide (r ∈ Roles a)) required.

Section openfga.
(** [client.Check]: user, relation, object. *)
Context (Check : string -> string -> string -> option bool).

Fixpoint checkRolesViaFGA (user : string) (roles : list string) : option bool :=
  match roles with
  | [] => Some false
  | role :: roles =>
      match Check user "member" ("role:" ++ role)%string with
      | None => None
      | Some true => Some true
      | Some false => checkRolesViaFGA user roles
      end
  end.

(** A permission without a colon is skipped. *)
Fixpoint checkPermissionsViaFGA (user : string) (perms : list string) : option bool :=
  match perms with
  | [] => Some false
  | perm :: perms =>
      match SplitN2 perm ":"%char with
      | (_, None) => checkPermissionsViaFGA user perms
      | (kind, Some action) =>
          match Check user ("can_" ++ action)%string (kind ++ ":" ++ action)%string with
          | None => None
          | Some true => Some true
          | Some false => checkPermissionsViaFGA user perms
          end
      end
  end.

Definition checkOpenFGARoles (user : string) (a : AuthContext) (roles : list string) : option bool :=
  match roles with
  | [] => Some true
  | _ => if hasAnyRole a roles then Some true else checkRolesViaFGA user roles
  end.

Definition checkOpenFGAPermissions (user : string) (perms : list string) : option bool :=
  match perms with [] => Some true | _ => checkPermissionsViaFGA user perms end.

(** [None] when the relation holds or nothing is to be checked; else the error's status. *)
Definition checkOpenFGARelation (rq : request) (cfg : OpenFGAConfig) (user : string) : option Z :=
  if (fga_Object cfg =? "")%string && (fga_Relation cfg =? "")%string then None
  else
    let object :=
      if (fga_Object cfg =? "")%string then
        if negb (rq_param rq "id" =? "")%string then (rq_routeName rq ++ ":" ++ rq_param rq "id")%string else ""
      else fga_Object cfg in
    if (object =? "")%string || (fga_Relation cfg =? "")%string then None
    else
      match Check user (fga_Relation cfg) object with
      | None => Some 500
      | Some true => None
      | Some false => Some 403
      end.

Definition OpenFGA (cfg : OpenFGAConfig) (rq : request) : outcome :=
  match rq_auth rq with
  | None => Reply 401 "auth context required"
  | Some a =>
      let user := buildUserIdentifier a in
      match checkOpenFGARoles user a (fga_Roles cfg) with
      | Some true =>
          match checkOpenFGAPermissions user (fga_Permissions cfg) with
          | Some true => match checkOpenFGARelation rq cfg user with Some st => Fail st | None => Next [] end
          | _ => Reply 403 "insufficient permissions"
          end
      | _ => Reply 403 "insufficient roles"
      end
  end.

(** The first answer other than "no" is "yes". *)
Inductive granted : list (option bool) -> Prop :=
| granted_here l : granted (Some true :: l)
| granted_later l : granted l -> granted (Some false :: l).

Definition role_answers (user : string) (roles : list string) : list (option bool) :=
  (fun role => Check user "member" ("role:" ++ role)%string) <$> roles.

Definition perm_answers (user : string) (perms : list string) : list (option bool) :=
  omap (fun perm => match SplitN2 perm ":"%char with
                    | (kind, Some action) => Some (Check user ("can_" ++ action)%string (kind ++ ":" ++ action)%string)
                    | (_, None) => None
                    end) perms.

Lemma roles_granted user roles : checkRolesViaFGA user roles = Some true <-> granted (role_answers user roles).
Proof.
  induction roles as [|r roles IH]; [split; [done|inversion 1]|]. cbn.
  destruct (Check user "member" ("role:" ++ r)) as [[]|].
  - split; [constructor|done].
  - rewrite IH. split; [by constructor|by inversion 1].
  - split; [done|inversion 1].
Qed.

Lemma perms_granted user perms : checkPermissionsViaFGA user perms = Some true <-> granted (perm_answers user perms).
Proof.
  induction perms as [|p perms IH]; [split; [done|inversion 1]|]. cbn. destruct (SplitN2 p ":"%char) as [kind [action|]]; [|done].
  cbn. destruct (Check user ("can_" ++ action) (kind ++ ":" ++ action)) as [[]|].
  - split; [constructor|done].
  - rewrite IH. split; [by constructor|by inversion 1].
  - split; [done|inversion 1].
Qed.

(** The object of the relation check, if there is one. *)
Definition relation_query (rq : request) (cfg : OpenFGAConfig) : option string :=
  let object := if (fga_Object cfg =? "")%string
                then if (rq_param rq "id" =? "")%string then "" else (rq_routeName rq ++ ":" ++ rq_param rq "id")%string
                else fga_Object cfg in
  if (object =? "")%string || (fga_Relation cfg =? "")%string then None else Some object.

(** Authorization is exact and fails closed.  A request passes only with an identity;
    and, where roles are required, the identity has one of them or OpenFGA grants one
    before any query fails; where permissions are required, OpenFGA grants one; and
    where a relation is required and an object is known, OpenFGA grants it.  An error of
    OpenFGA never lets a request pass. *)
Theorem OpenFGA_passes_iff (cfg : OpenFGAConfig) (rq : request) :
  passes (OpenFGA cfg rq) = true <->
  exists a, rq_auth rq = Some a /\
    (fga_Roles cfg = [] \/ (exists r, r ∈ fga_Roles cfg /\ r ∈ Roles a) \/ granted (role_answers (buildUserIdentifier a) (fga_Roles cfg))) /\
    (fga_Permissions cfg = [] \/ granted (perm_answers (buildUserIdentifier a) (fga_Permissions cfg))) /\
    (forall object, relation_query rq cfg = Some object -> Check (buildUserIdentifier a) (fga_Relation cfg) object = Some true).
Proof.
  assert (Hrel : forall user, checkOpenFGARelation rq cfg user = None <->
    forall object, relation_query rq cfg = Some object -> Check user (fga_Relation cfg) object = Some true).
  { intros user. unfold checkOpenFGARelation, relation_query. destruct (String.eqb_spec (fga_Object cfg) "") as [Eo|Eo], (String.eqb_spec (fga_Relation cfg) "") as [Er|Er]; cbn [andb].
    1: rewrite orb_true_r; naive_solver.
    all: set (object := if (rq_param rq "id" =? "")%string then "" else _) || idtac.
    1: replace (if negb _ then _ else "") with object by (unfold object; by destruct (rq_param rq "id" =? "")%string).
    all: destruct (_ || _); [naive_solver|].
    all: split; [intros H o [= <-]; destruct (Check _ _ _) as [[]|]; done|intros H; by rewrite (H _ eq_refl)]. }
  assert (Hroles : forall a, checkOpenFGARoles (buildUserIdentifier a) a (fga_Roles cfg) = Some true <->
    (fga_Roles cfg = [] \/ (exists r, r ∈ fga_Roles cfg /\ r ∈ Roles a) \/ granted (role_answers (buildUserIdentifier a) (fga_Roles cfg)))).
  { intros a. unfold checkOpenFGARoles. destruct (fga_Roles cfg) as [|r0 rs] eqn:Er; [naive_solver|]. rewrite <- Er.
    assert (Hany : hasAnyRole a (fga_Roles cfg) = true <-> exists r, r ∈ fga_Roles cfg /\ r ∈ Roles a).
    { unfold hasAnyRole. rewrite existsb_exists. setoid_rewrite <- list_elem_of_In. setoid_rewrite bool_decide_eq_true. done. }
    rewrite <- Hany, <- roles_granted, Er. destruct (hasAnyRole a (r0 :: rs)); [naive_solver|]. naive_solver. }
  assert (Hperms : forall user, checkOpenFGAPermissions user (fga_Permissions cfg) = Some true <->
    (fga_Permissions cfg = [] \/ granted (perm_answers user (fga_Permissions cfg)))).
  { intros user. unfold checkOpenFGAPermissions. destruct (fga_Permissions cfg) as [|p0 ps] eqn:Ep; [naive_solver|]. rewrite perms_granted. naive_solver. }
  unfold OpenFGA. destruct (rq_auth rq) as [a|]; [|naive_solver]. split.
  - destruct (checkOpenFGARoles _ a _) as [[]|] eqn:E1; [|done..]. destruct (checkOpenFGAPermissions _ _) as [[]|] eqn:E2; [|done..].
    destruct (checkOpenFGARelation _ _ _) eqn:E3; [done|]. intros _. exists a. split_and!; [done|by apply Hroles|by apply Hperms|by apply Hrel].
  - intros (a' & [= <-] & H1%Hroles & H2%Hperms & H3%Hrel). by rewrite H1, H2, H3.
Qed.

End openfga.

(** ** Sessions *)

Record sessionData : Type := mkSession { sd_UserID : string; sd_Roles : list string }.
Definition sessionKey (id : string) : string := ("sess:" ++ id)%string.

Section session.
(** The store: texts under keys with a time to live in seconds, and the JSON codec. *)
Context (marshal : sessionData -> string) (unmarshal : string -> option sessionData).

Record store_entry : Type := mkEntry { se_text : string; se_expires : Z }.
Notation store := (gmap string store_entry).

(** [CreateSession] with the random identifier [id] at second [now]; [ttl] in
    nanoseconds. *)
Definition CreateSession (id : string) (now ttl : Z) (user : string) (roles : list string) (st : store) : store :=
  let secs := ttl / 10^9 in
  let secs := if secs <=? 0 then 86400 else secs in
  <[sessionKey id := mkEntry (marshal (mkSession user roles)) (now + secs)]> st.

Definition DestroySession (id : string) (st : store) : store :=
  if (id =? "")%string then st else delete (sessionKey id) st.

(** [store.GetCtx]: a missing or expired key reads as the empty text. *)
Definition store_Get (k : string) (now : Z) (st : store) : string :=
  match st !! k with Some e => if now <? se_expires e then se_text e else "" | None => "" end.

Definition Session (cookie : string) (now : Z) (st : store) (rq : request) : outcome :=
  let id := rq_cookie rq (orElse cookie "sid") in
  if (id =? "")%string then Reply 401 "missing session"
  else
    match unmarshal (store_Get (sessionKey id) now st) with
    | None => Reply 401 "invalid session"
    | Some data =>
        if (sd_UserID data =? "")%string then Reply 401 "invalid session"
        else Next [SetAuth (mkAuth (sd_UserID data) "" (sd_Roles data) [] "" ∅)]
    end.

Context (unmarshal_marshal : forall d, unmarshal (marshal d) = Some d) (unmarshal_empty : unmarshal "" = None).

(** A session is valid from its creation until it expires or is destroyed: its cookie
    gives exactly the identity it was created with, other sessions created or destroyed in
    between do not matter, and after expiry or logout the request is refused. *)
Theorem session_lifetime (id cookie user : string) (roles : list string) (created ttl now : Z) (others : list (string * option (string * list string))) (st : store) (rq : request) :
  id <> "" -> user <> "" -> rq_cookie rq (orElse cookie "sid") = id -> Forall (fun o => o.1 <> id) others ->
  let secs := if ttl / 10^9 <=? 0 then 86400 else ttl / 10^9 in
  let st' := foldl (fun s o => match o.2 with Some (u, rs) => CreateSession o.1 created ttl u rs s | None => DestroySession o.1 s end)
               (CreateSession id created ttl user roles st) others in
  Session cookie now st' rq =
    (if now <? created + secs then Next [SetAuth (mkAuth user "" roles [] "" ∅)] else Reply 401 "invalid session") /\
  Session cookie now (DestroySession id st') rq = Reply 401 "invalid session".
Proof.
  intros Hid Hu Hck Hoth secs st'.
  assert (Hinj : forall x, x <> id -> sessionKey x <> sessionKey id) by (intros x Hx [= ?]; done).
  assert (Hst : st' !! sessionKey id = Some (mkEntry (marshal (mkSession user roles)) (created + secs))).
  { unfold st'. assert (H0 : CreateSession id created ttl user roles st !! sessionKey id = Some (mkEntry (marshal (mkSession user roles)) (created + secs)))
      by (apply lookup_insert_eq). revert H0. generalize (CreateSession id created ttl user roles st). clear st'.
    induction Hoth as [|[x [[u rs]|]] others Hx _ IH]; intros s H0; [done|..]; cbn [foldl fst snd] in *; apply IH.
    - unfold CreateSession. rewrite lookup_insert_ne; [done|by apply Hinj].
    - unfold DestroySession. destruct (x =? "")%string; [done|]. rewrite lookup_delete_ne; [done|by apply Hinj]. }
  unfold Session. rewrite Hck. destruct (String.eqb_spec id "") as [|_]; [done|]. split.
  - unfold store_Get. rewrite Hst. cbn [se_expires se_text]. destruct (now <? created + secs); [|by rewrite unmarshal_empty].
    rewrite unmarshal_marshal. cbn [sd_UserID sd_Roles]. by destruct (String.eqb_spec user "").
  - unfold store_Get, DestroySession. destruct (String.eqb_spec id "") as [|_]; [done|]. by rewrite lookup_delete_eq, unmarshal_empty.
Qed.

End session.

(** ** Instances *)

Definition no_request : request := mkRequest "GET" "/" (fun _ => "") (fun _ => "") (fun _ => "") (fun _ => "") "" "" None (fun _ => None) false.

(** A library made of its parts. *)
Section library.
Context {RSAKey ECKey : Type} (unverified : string -> option (tokenHeader * claims)) (verified : method -> @key RSAKey ECKey -> string -> bool).
Context (GetExpirationTime GetNotBefore : claims -> option (option Z)).

Definition in_time_b (now : Z) (c : claims) : bool :=
  match GetExpirationTime c with Some None => true | Some (Some exp) => now <? exp | None => false end &&
  match GetNotBefore c with Some None => true | Some (Some nbf) => nbf <=? now | None => false end.

Definition library_parse (now : Z) (algs : list string) (kf : tokenHeader -> option (@key RSAKey ECKey)) (token : string) : option claims :=
  '(h, c) ← unverified token;
  if bool_decide (algs = [] \/ m_Alg (h_method h) ∈ algs) then
    k ← kf h; if verified (h_method h) k token && in_time_b now c then Some c else None
  else None.

Lemma in_time_reflect now c : in_time_b now c = true <-> in_time GetExpirationTime GetNotBefore now c.
Proof.
  unfold in_time_b, in_time. rewrite andb_true_iff.
  assert (H : forall (o : option (option Z)) (P : Z -> Prop) (b : Z -> bool), (forall z, b z = true <-> P z) ->
    match o with Some None => true | Some (Some z) => b z | None => false end = true <-> o = Some None \/ exists z, o = Some (Some z) /\ P z).
  { intros o P b Hb. destruct o as [[z|]|]; [rewrite Hb; split; [eauto|intros [?|(z' & [= <-] & ?)]; done]|split; auto|split; [done|intros [?|(z & ? & _)]; done]]. }
  rewrite (H _ (fun z => now < z)), (H _ (fun z => z <= now)); [done| |]; intros z; [apply Z.leb_le|apply Z.ltb_lt].
Qed.

Lemma library_documented : parse_documented library_parse GetExpirationTime unverified verified GetNotBefore.
Proof.
  intros now algs kf token c. unfold library_parse. split.
  - intros ([h c0] & E & H)%bind_Some. case_bool_decide as Ha; [|done]. apply bind_Some in H as (k & Ek & H).
    destruct (verified (h_method h) k token && in_time_b now c0) eqn:Ev; [|done]. injection H as <-. apply andb_true_iff in Ev as [Ev Et]. apply in_time_reflect in Et. eauto 8.
  - intros (h & k & E & Ha & Ek & Ev & Et). rewrite E. cbn. rewrite bool_decide_true by done. rewrite Ek. cbn. apply in_time_reflect in Et. by rewrite Ev, Et.
Qed.
End library.

(** The token "t" and a secret are signed with HS256 under that secret. *)
Definition demo_unverified (c : claims) (tok : string) : option (tokenHeader * claims) :=
  match tok with String "t" _ => Some (mkHeader (mkMethod "HS256" HMAC) None, c) | _ => None end.
Definition demo_verified (m : method) (k : @key unit unit) (tok : string) : bool :=
  match tok, k with String "t" s, KSecret s' => (s' =? s)%string | _, _ => false end.
Definition demo_expiration (c : claims) : option (option Z) := match c !! "exp" with Some (JNum z) => Some (Some (z * 10^9)) | _ => Some None end.
Definition bearer_request (tok : string) : request :=
  mkRequest "GET" "/" (fun k => if (k =? "Authorization")%string then ("Bearer " ++ tok)%string else "") (fun _ => "") (fun _ => "") (fun _ => "") "" "" None (fun _ => None) false.

Lemma JWT_passes_iff_witness :
  let c : claims := {["sub" := JStr "ann"; "exp" := JNum 60]} in
  let cfg := mkJWTConfig "secret" "" "" "" "" "" "" None "" in
  let raw := "Bearer tsecret" in
  JWT (fun _ => None) (fun _ => None) (fun _ _ => None) (library_parse (demo_unverified c) demo_verified demo_expiration (fun _ => Some None))
    (fun _ => Some "") (fun _ => Some []) demo_expiration cfg (60 * 10^9 - 1) (bearer_request "tsecret")
  = Next [SetClaims "claims" c; SetAuth (buildAuthContext c raw)].
Proof.
  intros c cfg raw. apply (JWT_passes_iff (fun _ => None) (fun _ => None) (fun _ _ => None) _ (fun _ => Some "") (fun _ => Some []) demo_expiration (demo_unverified c) demo_verified (fun _ => Some None)
    cfg _ (bearer_request "tsecret") _ (library_documented _ _ _ _)).
  exists raw, "tsecret", c. split_and!; try done.
  - exists "header", "Authorization". split_and!; [done|done|by left|by left].
  - left. exists (mkHeader (mkMethod "HS256" HMAC) None), (KSecret "secret"). split_and!; try done. split; [|by left].
    right. exists (60 * 10^9). split; vm_compute; reflexivity.
Defined.

Lemma keyFunc_no_confusion_witness :
  static_keyFunc (RSAKey := nat) (ECKey := nat)
    (newParser (fun _ => Some 1%nat) (fun _ => Some 2%nat) (fun _ _ => None) (mkJWTConfig "pem" "" "" "" "RS256" "" "" None "")) (mkHeader (mkMethod "RS256" RSA) None) = Some (KRSA 1%nat) /\
  "RS256" = "RS256" /\ RSA = RSA /\ Some 1%nat = Some 1%nat /\ HasPrefix "RS256" "RS" = true.
Proof.
  split; [reflexivity|].
  exact (keyFunc_no_confusion (fun _ => Some 1%nat) (fun _ => Some 2%nat) (fun _ _ => None) (mkJWTConfig "pem" "" "" "" "RS256" "" "" None "")
    (mkHeader (mkMethod "RS256" RSA) None) (KRSA 1%nat) eq_refl eq_refl).
Defined.

Lemma parseBasicAuth_roundtrip_witness : parseBasicAuth (basic_header "ann" "a:b") = ("ann", "a:b", true).
Proof. exact (parseBasicAuth_roundtrip "ann" "a:b" ltac:(discriminate) eq_refl). Defined.

Lemma APIKey_ignores_rest_of_key_witness :
  let check user _ _ := Some (user =? "apikey:skabc123456")%string in
  APIKey None (Some check) (mkAPIKeyConfig "sk-" "" "webhook:x" "") (with_header (fun _ => "Bearer sk-abc123456-guess")%string no_request) = Next [].
Proof.
  intros check. change "Bearer sk-abc123456-guess" with ("Bearer " ++ "sk-abc123456" ++ "-guess")%string.
  rewrite (APIKey_ignores_rest_of_key check (mkAPIKeyConfig "sk-" "" "webhook:x" "") no_request "sk-abc123456" "-guess" "-secret" eq_refl ltac:(cbn; lia)).
  vm_compute. reflexivity.
Defined.

(** A codec for session data: every character is preceded by 1, every text ends with 0. *)
Fixpoint enc_text (s : string) : string :=
  match s with EmptyString => "0" | String c s => String "1" (String c (enc_text s)) end.
Fixpoint dec_texts (cur s : string) : list string :=
  match s with
  | String "0" s => cur :: dec_texts "" s
  | String "1" (String c s) => dec_texts (cur ++ String c "") s
  | _ => []
  end.
Definition enc_session (d : sessionData) : string := foldr (fun t r => enc_text t ++ r)%string "" (sd_UserID d :: sd_Roles d).
Definition dec_session (s : string) : option sessionData := match dec_texts "" s with u :: rs => Some (mkSession u rs) | [] => None end.

Lemma dec_enc_text x cur rest : dec_texts cur (enc_text x ++ rest) = (cur ++ x)%string :: dec_texts "" rest.
Proof.
  revert cur. induction x as [|c x IH]; intros cur; [cbn; by rewrite str_app_nil_r|]. cbn [enc_text]. rewrite !str_app_cons. cbn [dec_texts].
  rewrite IH. by rewrite str_app_assoc.
Qed.

Lemma dec_enc_session d : dec_session (enc_session d) = Some d.
Proof.
  unfold dec_session, enc_session. assert (H : forall l, dec_texts "" (foldr (fun t r => enc_text t ++ r)%string "" l) = l).
  { induction l as [|t l IH]; [done|]. cbn [foldr]. by rewrite dec_enc_text, IH. }
  rewrite H. by destruct d.
Qed.

Lemma session_lifetime_witness :
  let rq := mkRequest "GET" "/" (fun _ => "") (fun _ => "s1") (fun _ => "") (fun _ => "") "" "" None (fun _ => None) false in
  let st := CreateSession enc_session "s2" 100 (3600 * 10^9) "bob" [] (CreateSession enc_session "s1" 100 (3600 * 10^9) "ann" ["admin"] ∅) in
  Session dec_session "" 200 st rq = Next [SetAuth (mkAuth "ann" "" ["admin"] [] "" ∅)] /\
  Session dec_session "" 200 (DestroySession "s1" st) rq = Reply 401 "invalid session".
Proof.
  exact (session_lifetime enc_session dec_session dec_enc_session eq_refl "s1" "" "ann" ["admin"] 100 (3600 * 10^9) 200
    [("s2", Some ("bob", []))] ∅ (mkRequest "GET" "/" (fun _ => "") (fun _ => "s1") (fun _ => "") (fun _ => "") "" "" None (fun _ => None) false)
    ltac:(discriminate) ltac:(discriminate) eq_refl ltac:(by repeat constructor)).
Defined.
