(* ===== verification/Guards.v ===== *)
(** * Request guards and response helpers (server/middleware: csrf.go, csp.go,
      security_headers.go, correlation.go, header_sanitize.go, maxbytes.go, maxconns.go,
      deprecation.go, timeout.go, response_cache.go, fallback.go, breaker.go)

    Handlers on the [request] and [outcome] of [Http]; random tokens, clocks and what the
    next handler did are arguments. *)

From S2P Require Import Prelude GoStrings GoStrconv Utf8 Ssrf Http Auth.
From Stdlib Require Import Ascii.

#[local] Open Scope string_scope.
#[local] Open Scope list_scope.
#[local] Open Scope Z_scope.

(** ** CSRF *)

Record CSRFConfig : Type := mkCSRF {
  cs_Enabled : bool; cs_CookieName : string; cs_HeaderName : string; cs_SameSite : string; cs_Secure : bool;
  cs_ExcludePaths : list string; cs_JSONCheck : bool
}.

Definition CutSuffix (s p : string) : option string :=
  if HasSuffix s p then Some (str_take (String.length s - String.length p) s) else None.

Fixpoint isExcludedPath (path : string) (excludePaths : list string) : bool :=
  match excludePaths with
  | [] => false
  | ep :: eps =>
      if (ep =? "")%string then isExcludedPath path eps
      else
        match CutSuffix ep "/*" with
        | Some prefix => if HasPrefix path prefix then true else isExcludedPath path eps
        | None => if (ep =? path)%string then true else isExcludedPath path eps
        end
  end.

Definition isJSONContentType (rq : request) : bool := HasPrefix (rq_header rq "Content-Type") "application/json".

Definition safe_method (m : string) : bool := (m =? "GET")%string || (m =? "HEAD")%string || (m =? "OPTIONS")%string.

(** [token] is what [generateCSRFToken] returned. *)
Definition CSRF (cfg : CSRFConfig) (token : option string) (rq : request) : outcome :=
  let cookieName := orElse (cs_CookieName cfg) "csrf_token" in
  let headerName := orElse (cs_HeaderName cfg) "X-CSRF-Token" in
  if isExcludedPath (rq_path rq) (cs_ExcludePaths cfg) then Next []
  else if rq_csrfSkip rq then Next []
  else if safe_method (rq_method rq) then
    match token with
    | None => Reply 500 "csrf token generation failed"
    | Some t => Next [SetCookie cookieName t; SetLocal cookieName t]
    end
  else if cs_JSONCheck cfg && isJSONContentType rq then Next []
  else
    let headerToken := rq_header rq headerName in
    let cookieToken := rq_cookie rq cookieName in
    if (headerToken =? "")%string || (cookieToken =? "")%string || negb (headerToken =? cookieToken)%string
    then Reply 403 "csrf token mismatch" else Next [].

Definition parseSameSite (s : string) : string :=
  let s := Ssrf.ToLower s in
  if (s =? "strict")%string then "Strict" else if (s =? "lax")%string then "Lax" else if (s =? "none")%string then "None" else "Lax".

(** A path the configuration excludes: named exactly, or starting with the part of a
    pattern before its final slash and star. *)
Lemma isExcludedPath_iff path eps :
  isExcludedPath path eps = true <->
  exists ep, ep ∈ eps /\ ep <> "" /\
    match CutSuffix ep "/*" with Some prefix => HasPrefix path prefix = true | None => ep = path end.
Proof.
  induction eps as [|ep eps IH]; cbn [isExcludedPath]; [split; [done|]; intros (ep & H & _); by apply not_elem_of_nil in H|].
  destruct (String.eqb_spec ep "") as [->|Hne].
  { rewrite IH. split; intros (x & Hx & Hr); exists x; (split; [|done]); [by right|]. apply elem_of_cons in Hx as [->|]; [by destruct Hr|done]. }
  assert (Hstep : (exists x, x ∈ ep :: eps /\ x <> "" /\ match CutSuffix x "/*" with Some prefix => HasPrefix path prefix = true | None => x = path end) <->
    match CutSuffix ep "/*" with Some prefix => HasPrefix path prefix = true | None => ep = path end \/
    exists x, x ∈ eps /\ x <> "" /\ match CutSuffix x "/*" with Some prefix => HasPrefix path prefix = true | None => x = path end).
  { split; [intros (x & [->|Hx]%elem_of_cons & Hr); [left; by destruct Hr|right; by exists x]|].
    intros [H|(x & Hx & Hr)]; [exists ep; split_and!; [by left|done..]|exists x; split; [by right|done]]. }
  rewrite Hstep, <- IH. destruct (CutSuffix ep "/*") as [prefix|].
  - destruct (HasPrefix path prefix); naive_solver.
  - destruct (String.eqb_spec ep path); naive_solver.
Qed.

(** A state-changing request passes the CSRF check only with a double-submitted token:
    outside excluded paths, explicit skips and (if so configured) JSON bodies, header and
    cookie must carry the same nonempty token; and a request that has it passes. *)
Theorem CSRF_requires_token (cfg : CSRFConfig) (token : option string) (rq : request) :
  isExcludedPath (rq_path rq) (cs_ExcludePaths cfg) = false -> rq_csrfSkip rq = false -> safe_method (rq_method rq) = false ->
  cs_JSONCheck cfg && isJSONContentType rq = false ->
  passes (CSRF cfg token rq) = true <->
  exists t, t <> "" /\ rq_header rq (orElse (cs_HeaderName cfg) "X-CSRF-Token") = t /\ rq_cookie rq (orElse (cs_CookieName cfg) "csrf_token") = t.
Proof.
  intros H1 H2 H3 H4. unfold CSRF. rewrite H1, H2, H3, H4. set (h := rq_header rq _). set (c := rq_cookie rq _). clearbody h c.
  destruct (String.eqb_spec h "") as [->|Hh]; [cbn; split; [done|naive_solver]|].
  destruct (String.eqb_spec c "") as [->|Hc]; [cbn; split; [done|naive_solver]|].
  destruct (String.eqb_spec h c) as [->|Hne]; cbn; [split; [naive_solver|done]|]. split; [done|]. intros (t & _ & -> & ->). done.
Qed.

Lemma CSRF_requires_token_witness :
  passes (CSRF (mkCSRF true "" "" "" false ["/hooks/*"] false) None
    (mkRequest "POST" "/orders" (fun _ => "t1") (fun _ => "t1") (fun _ => "") (fun _ => "") "" "" None (fun _ => None) false)) = true.
Proof.
  apply (CSRF_requires_token (mkCSRF true "" "" "" false ["/hooks/*"] false) None
    (mkRequest "POST" "/orders" (fun _ => "t1") (fun _ => "t1") (fun _ => "") (fun _ => "") "" "" None (fun _ => None) false) eq_refl eq_refl eq_refl eq_refl).
  exists "t1". split; [discriminate|]. split; reflexivity.
Defined.

(** The pattern for everything under /api also excludes paths that only start alike. *)
Example exclude_pattern_too_wide : isExcludedPath "/apikeys/rotate" ["/api/*"] = true.
Proof. vm_compute. reflexivity. Qed.

(** ** Content security policy *)

Record CSPConfig : Type := mkCSP {
  csp_Level : string; csp_DefaultSrc : list string; csp_ScriptSrc : list string; csp_StyleSrc : list string; csp_ImgSrc : list string;
  csp_ConnectSrc : list string; csp_FontSrc : list string; csp_FrameSrc : list string; csp_FrameAncestors : list string;
  csp_ObjectSrc : list string; csp_BaseURI : list string; csp_FormAction : list string; csp_UpgradeInsecureReq : bool
}.

Definition joinDirective (name : string) (values : list string) (defaults : string) : string :=
  match values with
  | [] => if (defaults =? "")%string then "" else (name ++ " " ++ defaults ++ "; ")%string
  | _ => (foldl (fun acc v => acc ++ (" " ++ v)) name values ++ "; ")%string
  end.

Definition buildStrictCSP : string :=
  "default-src 'none'; script-src 'strict-dynamic' 'unsafe-inline' https:; style-src 'self' 'unsafe-inline'; img-src 'self' data: https:; font-src 'self'; connect-src 'self'; base-uri 'self'; form-action 'self'; frame-ancestors 'none'; upgrade-insecure-requests".

Definition buildCustomCSP (cfg : CSPConfig) : string :=
  let policy :=
    (joinDirective "default-src" (csp_DefaultSrc cfg) "'self'" ++ joinDirective "script-src" (csp_ScriptSrc cfg) "'self'" ++
     joinDirective "style-src" (csp_StyleSrc cfg) "'self' 'unsafe-inline'" ++ joinDirective "img-src" (csp_ImgSrc cfg) "'self' data: https:" ++
     joinDirective "connect-src" (csp_ConnectSrc cfg) "'self'" ++ joinDirective "font-src" (csp_FontSrc cfg) "'self'" ++
     joinDirective "frame-src" (csp_FrameSrc cfg) "'none'" ++ joinDirective "frame-ancestors" (csp_FrameAncestors cfg) "'none'" ++
     joinDirective "object-src" (csp_ObjectSrc cfg) "'none'" ++ joinDirective "base-uri" (csp_BaseURI cfg) "'self'" ++
     joinDirective "form-action" (csp_FormAction cfg) "'self'" ++
     (if csp_UpgradeInsecureReq cfg then "upgrade-insecure-requests; " else ""))%string in
  if (2 <? String.length policy)%nat then str_take (String.length policy - 2) policy else policy.

Definition BuildCSP (cfg : CSPConfig) : string := if (csp_Level cfg =? "strict")%string then buildStrictCSP else buildCustomCSP cfg.

(** ** Security headers *)

(** The digits, least significant first; a 64-bit number has at most 19. *)
Fixpoint itoa_digits (fuel : nat) (n : Z) : list ascii :=
  match fuel with
  | O => []
  | S fuel => if 0 <? n then ascii_of_N (Z.to_N (48 + n mod 10)) :: itoa_digits fuel (n / 10) else []
  end.

Fixpoint string_of_list (l : list ascii) : string := match l with [] => "" | c :: l => String c (string_of_list l) end.

(** Negation wraps around on the smallest integer. *)
Definition itoa (n : Z) : string :=
  if n =? 0 then "0"
  else
    let neg := n <? 0 in
    let n := if neg then wrap64 (- n) else n in
    let digits := itoa_digits 20 n in
    let digits := if neg then digits ++ ["-"%char] else digits in
    string_of_list (reverse digits).

Definition hstsValue (maxAge : Z) (includeSubs : bool) : string :=
  ("max-age=" ++ itoa maxAge ++ (if includeSubs then "; includeSubDomains" else ""))%string.

Record SecurityHeadersConfig : Type := mkSecurityHeaders {
  sh_FrameOptions : string; sh_ReferrerPolicy : string; sh_PermissionsPolicy : string; sh_HSTS : bool; sh_HSTSMaxAge : Z;
  sh_HSTSIncludeSubs : bool; sh_CSP : string; sh_COOP : string; sh_COEP : string; sh_CORP : string; sh_CacheControl : string
}.

Definition header_if (k v : string) : list effect := if (v =? "")%string then [] else [SetHeader k v].

(** [skip] is what [Next] of the configuration returned. *)
Definition SecurityHeaders (cfg : SecurityHeadersConfig) (skip : bool) : outcome :=
  if skip then Next []
  else Next ([SetHeader "X-Content-Type-Options" "nosniff"] ++ header_if "X-Frame-Options" (sh_FrameOptions cfg) ++
             header_if "Referrer-Policy" (sh_ReferrerPolicy cfg) ++ header_if "Permissions-Policy" (sh_PermissionsPolicy cfg) ++
             header_if "Content-Security-Policy" (sh_CSP cfg) ++
             (if sh_HSTS cfg then [SetHeader "Strict-Transport-Security" (hstsValue (sh_HSTSMaxAge cfg) (sh_HSTSIncludeSubs cfg))] else []) ++
             header_if "Cross-Origin-Opener-Policy" (sh_COOP cfg) ++ header_if "Cross-Origin-Embedder-Policy" (sh_COEP cfg) ++
             header_if "Cross-Origin-Resource-Policy" (sh_CORP cfg) ++ header_if "Cache-Control" (sh_CacheControl cfg)).

(** ** Correlation, headers, sizes, deprecation, timeouts *)

Record CorrelationConfig : Type := mkCorrelation { co_RequestHeader : string; co_ResponseHeader : string; co_ContextKey : string; co_SkipPaths : list string }.

(** [uuid] is a fresh identifier. *)
Definition Correlation (cfg : CorrelationConfig) (uuid : string) (rq : request) : outcome :=
  if bool_decide (rq_path rq ∈ co_SkipPaths cfg) then Next []
  else
    let id := orElse (rq_header rq (orElse (co_RequestHeader cfg) "X-Correlation-ID")) uuid in
    Next [SetHeader (orElse (co_ResponseHeader cfg) "X-Correlation-ID") id; SetLocal (orElse (co_ContextKey cfg) "correlation_id") id].

Definition GetCorrelationID (locals : gmap string string) : string := default "" (locals !! "correlation_id").

Definition containsCRLF (b : string) : bool :=
  match IndexByte b "013"%char, IndexByte b "010"%char with None, None => false | _, _ => true end.

Definition HeaderSanitize (headers : list string) : outcome :=
  if existsb containsCRLF headers then Reply 400 "invalid header value" else Next [].

Definition MaxBytes (limit : Z) (rq : request) : outcome :=
  if limit <? Z.of_nat (String.length (rq_body rq)) then Reply 413 "request body too large" else Next [].

(** [sunset] is the formatted date, if there is one. *)
Definition Deprecation (status : string) (sunset : option string) (message : string) : outcome :=
  let effects := [SetHeader "Deprecation" "true"] ++ match sunset with Some d => [SetHeader "Sunset" d] | None => [] end ++ header_if "Deprecation-Message" message in
  if (status =? "deprecated")%string then Next effects
  else if (status =? "removed")%string then ReplyWith effects 410 "this endpoint has been removed"
  else Next [].

(** What a handler left behind: an error, or a response with a status. *)
Inductive handled := HandlerError | HandlerDone (status : Z) (body : string).

Inductive timed := TimedOut | TimedResult (h : handled).

(** After the next handler returned; [expired] is whether the deadline has passed. *)
Definition Timeout_after (expired : bool) (h : handled) : timed := if expired then TimedOut else TimedResult h.

Definition isClientError (code : Z) : bool := (400 <=? code) && (code <? 500).

(** The [acceptable] callback of the breaker middleware: an error's own status, if it has
    one, and the status of the response. *)
Definition breaker_acceptable (err : option (option Z)) (responseStatus : Z) : bool :=
  match err with
  | None => true
  | Some (Some code) => if isClientError code then true else isClientError responseStatus
  | Some None => isClientError responseStatus
  end.

(** The semaphore of [MaxConns]: a request that finds a free slot holds it until it is done. *)
Definition MaxConns_enter (limit inFlight : Z) : option Z := if inFlight <? limit then Some (inFlight + 1) else None.
Definition MaxConns_exit (inFlight : Z) : Z := inFlight - 1.

(** ** The response cache *)

Record responseCacheWriter : Type := mkWriter { w_body : string; w_status : Z; w_cached : bool }.

Definition writer_Send (w : responseCacheWriter) (body : string) : responseCacheWriter :=
  if w_cached w then w else mkWriter (w_body w ++ body) (w_status w) (w_cached w).
Definition writer_Status (w : responseCacheWriter) (status : Z) : responseCacheWriter :=
  if w_cached w then w else mkWriter (w_body w) status (w_cached w).

Inductive answered := FromCache (body : string) | FromHandler (h : handled).

(** The writer wraps the context, but the next handler runs on the context itself
    ([c.Next()]): what it sends and the status it sets do not reach the writer. *)
Definition CacheResponse (rq : request) (cache : gmap string string) (next : handled) : gmap string string * answered :=
  if negb (rq_method rq =? "GET")%string then (cache, FromHandler next)
  else
    let key := ("rest:" ++ rq_method rq ++ ":" ++ rq_path rq)%string in
    match cache !! key with
    | Some body => (cache, FromCache body)
    | None =>
        let w := mkWriter "" 0 false in
        match next with
        | HandlerError => (cache, FromHandler HandlerError)
        | HandlerDone _ _ =>
            ((if (200 <=? w_status w) && (w_status w <? 300) then <[key := w_body w]> cache else cache), FromHandler next)
        end
    end.

(** The response cache never caches: whatever requests are served and whatever their
    handlers answer, the store is not written, so starting from an empty store every
    response comes from the handler. *)
Theorem CacheResponse_never_stores (reqs : list (request * handled)) :
  let run := foldl (fun s p => let '(cache, res) := CacheResponse p.1 s.1 p.2 in (cache, s.2 ++ [res])) (∅, []) reqs in
  run.1 = ∅ /\ run.2 = FromHandler <$> reqs.*2.
Proof.
  cbn zeta. induction reqs as [|[rq h] reqs [IH1 IH2]] using rev_ind; [done|]. rewrite foldl_app, !fmap_app. cbn [foldl fst snd].
  rewrite IH1. assert (E : CacheResponse rq ∅ h = (∅, FromHandler h)).
  { unfold CacheResponse. destruct (negb _); [done|]. rewrite lookup_empty. by destruct h. }
  rewrite E. cbn. by rewrite IH2.
Qed.

(** ** Fallback responses *)

Record staleEntry : Type := mkStale { st_body : string; st_status : Z; st_timestamp : Z }.
Definition staleTTL : Z := 30 * 10^9.

Inductive fallback_outcome :=
| FbDegraded (message : string)          (* 503 *)
| FbStale (e : staleEntry)
| FbPass (h : handled).

(** [now] is the clock after the next handler returned, in nanoseconds. *)
Definition Fallback (mode message : string) (now : Z) (rq : request) (h : handled) (cache : gmap string staleEntry) : gmap string staleEntry * fallback_outcome :=
  let key := (rq_method rq ++ ":" ++ rq_path rq)%string in
  match h with
  | HandlerError =>
      if (mode =? "degraded")%string then (cache, FbDegraded (orElse message "service temporarily unavailable"))
      else if (mode =? "stale")%string then
        match cache !! key with
        | Some e => if now - st_timestamp e <? staleTTL then (cache, FbStale e) else (cache, FbPass h)
        | None => (cache, FbPass h)
        end
      else (cache, FbPass h)
  | HandlerDone status body =>
      if (mode =? "stale")%string && (status =? 200) then (<[key := mkStale body status now]> cache, FbPass h) else (cache, FbPass h)
  end.

(** An earlier request that a stale answer repeats. *)
Definition recorded (hist : list (request * Z * handled)) (key : string) (e : staleEntry) : Prop :=
  exists rq now, (rq, now, HandlerDone (st_status e) (st_body e)) ∈ hist /\ (rq_method rq ++ ":" ++ rq_path rq)%string = key /\ st_timestamp e = now /\ st_status e = 200.

Lemma Fallback_recorded mode message hist : 
  let cache := foldl (fun c p => (Fallback mode message p.1.2 p.1.1 p.2 c).1) ∅ hist in
  forall key e, cache !! key = Some e -> recorded hist key e.
Proof.
  cbn zeta. induction hist as [|[[rq now] h] hist IH] using rev_ind; intros key e; [cbn; by rewrite lookup_empty|].
  rewrite foldl_app. cbn [foldl fst snd]. set (cache := foldl _ ∅ hist) in *.
  assert (Hold : cache !! key = Some e -> recorded (hist ++ [(rq, now, h)]) key e).
  { intros H. destruct (IH key e H) as (rq' & now' & Hin & ?). exists rq', now'. split; [apply elem_of_app; by left|done]. }
  unfold Fallback. destruct h as [|status body].
  - destruct (mode =? "degraded")%string; [done|]. destruct (mode =? "stale")%string; [|done].
    destruct (cache !! (rq_method rq ++ ":" ++ rq_path rq)%string); [|done]. by destruct (_ <? _).
  - destruct (mode =? "stale")%string; [|done]. destruct (Z.eqb_spec status 200) as [->|]; [|done]. cbn [andb fst]. rewrite lookup_insert_Some.
    intros [[<- <-]|[_ H]]; [|by apply Hold]. exists rq, now. split; [apply elem_of_app; right; by left|done].
Qed.

(** A stale answer is a recent success of the same route: when the fallback answers a
    failed request from its memory, the answer is the body of an earlier successful
    response to the same method and path, less than thirty seconds old. *)
Theorem stale_answer_is_recent (message : string) (hist : list (request * Z * handled)) (rq : request) (now : Z) (e : staleEntry) :
  let cache := foldl (fun c p => (Fallback "stale" message p.1.2 p.1.1 p.2 c).1) ∅ hist in
  (Fallback "stale" message now rq HandlerError cache).2 = FbStale e ->
  recorded hist (rq_method rq ++ ":" ++ rq_path rq)%string e /\ now - st_timestamp e < 30 * 10^9.
Proof.
  cbn zeta. unfold Fallback at 1. cbn [String.eqb]. set (cache := foldl _ ∅ hist).
  change (("stale" =? "degraded")%string) with false. change (("stale" =? "stale")%string) with true. cbn iota.
  destruct (cache !! (rq_method rq ++ ":" ++ rq_path rq)%string) as [e'|] eqn:E; [|done].
  destruct (Z.ltb_spec (now - st_timestamp e') staleTTL) as [Hlt|]; [|done]. intros [= <-]. split; [|exact Hlt].
  by apply (Fallback_recorded "stale" message hist).
Qed.

Lemma stale_answer_is_recent_witness :
  let rq := mkRequest "GET" "/a" (fun _ => "") (fun _ => "") (fun _ => "") (fun _ => "") "" "" None (fun _ => None) false in
  recorded [(rq, 5, HandlerDone 200 "ok")] "GET:/a" (mkStale "ok" 200 5) /\ 1000 - 5 < 30 * 10^9.
Proof.
  exact (stale_answer_is_recent "" [(mkRequest "GET" "/a" (fun _ => "") (fun _ => "") (fun _ => "") (fun _ => "") "" "" None (fun _ => None) false, 5, HandlerDone 200 "ok")]
    (mkRequest "GET" "/a" (fun _ => "") (fun _ => "") (fun _ => "") (fun _ => "") "" "" None (fun _ => None) false) 1000 (mkStale "ok" 200 5) ltac:(vm_compute; reflexivity)).
Defined.

(** ** Numbers in headers *)

Lemma string_of_list_app a b : string_of_list (a ++ b) = (string_of_list a ++ string_of_list b)%string.
Proof. induction a as [|c a IH]; [done|]. cbn [app string_of_list]. by rewrite IH. Qed.

Lemma pretty_digit (d : N) : (d < 10)%N -> ascii_of_N (48 + d) = pretty_N_char d.
Proof.
  intros Hx. assert (d = 0 \/ d = 1 \/ d = 2 \/ d = 3 \/ d = 4 \/ d = 5 \/ d = 6 \/ d = 7 \/ d = 8 \/ d = 9)%N as H by lia.
  repeat (destruct H as [->|H]; [done|]). by subst d.
Qed.

Lemma itoa_digits_pretty fuel (n : N) s : (Z.of_N n < 10^(Z.of_nat fuel)) -> 
  pretty_N_go n s = (string_of_list (reverse (itoa_digits fuel (Z.of_N n))) ++ s)%string.
Proof.
  revert n s. induction fuel as [|fuel IH]; intros n s Hn.
  { assert (n = 0%N) as -> by (cbn in Hn; lia). by rewrite pretty_N_go_0. }
  cbn [itoa_digits]. destruct (Z.ltb_spec 0 (Z.of_N n)) as [Hp|]; [|assert (n = 0%N) as -> by lia; by rewrite pretty_N_go_0].
  rewrite pretty_N_go_step by lia. replace (Z.of_N n / 10) with (Z.of_N (n / 10)%N) by lia.
  rewrite IH; [|rewrite Nat2Z.inj_succ, Z.pow_succ_r in Hn by lia; lia]. rewrite reverse_cons, string_of_list_app. cbn [string_of_list].
  replace (Z.to_N (48 + Z.of_N n mod 10)) with (48 + n mod 10)%N by lia. rewrite pretty_digit by (apply N.mod_lt; lia).
  by rewrite str_app_assoc.
Qed.

(** The hand-written integer formatting of the HSTS header is decimal notation for
    every 64-bit integer but the smallest, for which it is a lone minus sign. *)
Theorem itoa_is_decimal (n : Z) : -2^63 <= n < 2^63 ->
  itoa n = if n =? -2^63 then "-" else pretty n.
Proof.
  intros Hn. unfold itoa. destruct (Z.eqb_spec n 0) as [->|Hne]; [done|].
  assert (Hgo : forall m, (0 < m)%N -> Z.of_N m < 10^20 -> string_of_list (reverse (itoa_digits 20 (Z.of_N m))) = pretty m).
  { intros m Hm Hb. pose proof (itoa_digits_pretty 20 m "" Hb) as H. rewrite str_app_nil_r in H. rewrite <- H.
    unfold pretty, pretty_N. by rewrite decide_False by lia. }
  destruct (Z.ltb_spec n 0) as [Hneg|Hpos].
  - destruct (Z.eqb_spec n (-2^63)) as [->|Hmin]; [vm_compute; reflexivity|]. rewrite wrap64_small by lia. rewrite reverse_snoc. cbn [string_of_list].
    replace (- n) with (Z.of_N (Z.to_N (- n))) by lia. rewrite Hgo by lia. destruct n as [|p|p]; [done|done|]. done.
  - destruct (Z.eqb_spec n (-2^63)); [lia|]. replace n with (Z.of_N (Z.to_N n)) at 1 by lia. rewrite Hgo by lia. by destruct n.
Qed.

Lemma itoa_is_decimal_witness : itoa (-31536000) = "-31536000".
Proof. exact (itoa_is_decimal (-31536000) ltac:(lia)). Defined.
