(* ===== verification/Jwks.v ===== *)
(** * Verification keys (server/auth/jwks/jwks.go)

    The resolver fetches the keys that tokens are verified with from a JWKS document and caches
    them for a time.  The web is a parameter: what a URL answers at a time; so is what the
    JSON decoder reads in a document. *)

From S2P Require Import Prelude GoStrings.
From Stdlib Require Import Ascii String.
#[local] Open Scope string_scope.
#[local] Open Scope list_scope.
#[local] Open Scope Z_scope.

(** ** Keys *)

(** [rsa.PublicKey] *)
Record PublicKey : Type := mkKey { key_N : Z; key_E : Z }.

(** An entry of the document. *)
Record jwk : Type := mkJwk { Kid : string; Kty : string; jwk_N : string; jwk_E : string }.

(** [base64.RawURLEncoding.DecodeString]: new lines are skipped, there is no padding, and the
    unused bits of the last character are not looked at. *)
Definition url_value (c : ascii) : option Z :=
  let n := Z.of_N (N_of_ascii c) in
  if (65 <=? n) && (n <=? 90) then Some (n - 65) else if (97 <=? n) && (n <=? 122) then Some (n - 71)
  else if (48 <=? n) && (n <=? 57) then Some (n + 4) else if n =? 45 then Some 62 else if n =? 95 then Some 63 else None.

Fixpoint sextets (l : list Z) : option (list Z) :=
  match l with
  | [] => Some []
  | [_] => None
  | [a; b] => Some [a * 4 + b / 16]
  | [a; b; c] => Some [a * 4 + b / 16; b mod 16 * 16 + c / 4]
  | a :: b :: c :: d :: l => bs ← sextets l; Some (a * 4 + b / 16 :: b mod 16 * 16 + c / 4 :: c mod 4 * 64 + d :: bs)
  end.

Definition RawURL_DecodeString (s : string) : option (list Z) :=
  mapM url_value (filter (fun c => c <> "010"%char /\ c <> "013"%char) (list_ascii_of_string s)) ≫= sextets.

(** [new(big.Int).SetBytes] *)
Definition SetBytes (bs : list Z) : Z := foldl (fun n b => n * 256 + b) 0 bs.

Definition parse_key (keys : gmap string PublicKey) (key : jwk) : gmap string PublicKey :=
  if negb (String.eqb (Kty key) "RSA") then keys
  else match RawURL_DecodeString (jwk_N key) with
       | None => keys
       | Some nBytes => match RawURL_DecodeString (jwk_E key) with
                        | None => keys
                        | Some eBytes => <[Kid key := mkKey (SetBytes nBytes) (wrap64 (SetBytes eBytes))]> keys
                        end
       end.

(** ** The resolver *)

Record Resolver : Type := mkResolver { jwksURL : string; keys : gmap string PublicKey; keysExp : Z; ttl : Z }.
#[export] Instance eta_resolver : Eta Resolver := fun r => mkResolver (jwksURL r) (keys r) (keysExp r) (ttl r).

Definition WithTTL (t : Z) (r : Resolver) : Resolver := r <| ttl := t |>.
Definition newResolver (url : string) (opts : list (Resolver -> Resolver)) : Resolver := foldl (fun r opt => opt r) (mkResolver url ∅ 0 (3600 * 10 ^ 9)) opts.
Definition New (url : string) (opts : list (Resolver -> Resolver)) : Resolver := newResolver url opts.
Definition NewWithDiscovery (issuer : string) (opts : list (Resolver -> Resolver)) : Resolver := newResolver (issuer ++ "/.well-known/openid-configuration") opts.

Section web.
(** The status and the body a URL answers at a time; the [jwks_uri] and the [keys] of a body. *)
Context (web : Z -> string -> option (Z * option string)) (read_uri : string -> option string) (read_keys : string -> option (list jwk)).

Definition fetch (now : Z) (url : string) : option string :=
  match web now url with Some (status, body) => if status =? 200 then body else None | None => None end.

Definition ParseJWKS (body : string) : option (gmap string PublicKey) := foldl parse_key ∅ <$> read_keys body.

(** The first request is at [t1], the second one, if there is one, at [t2]. *)
Definition fetchJWKS (t1 t2 : Z) (r : Resolver) : option (gmap string PublicKey) :=
  body ← fetch t1 (jwksURL r);
  uri ← read_uri body;
  if String.eqb uri "" then ParseJWKS body else fetch t2 uri ≫= ParseJWKS.

Definition fresh (now : Z) (r : Resolver) : bool := (now <? keysExp r) && negb (bool_decide (keys r = ∅)).

Definition keysFromCache (now : Z) (r : Resolver) : option (gmap string PublicKey) := if fresh now r then Some (keys r) else None.

(** The part of [getKeys] under the lock: the clock is read at [now] and, after the requests, at
    [done]. *)
Definition getKeys (now t1 t2 done : Z) (r : Resolver) : option (gmap string PublicKey) * Resolver :=
  if fresh now r then (Some (keys r), r)
  else match fetchJWKS t1 t2 r with None => (None, r) | Some ks => (Some ks, r <| keys := ks |> <| keysExp := done + ttl r |>) end.

(** [KeyFunc] for a token with a [kid], in the two steps in which it takes the lock; between
    them other calls may take it. *)
Inductive key_step : Type := FromCache (kid : string) (now : Z) | Locked (kid : string) (now t1 t2 done : Z).

Definition KeyFunc (s : key_step) (r : Resolver) : option PublicKey * Resolver :=
  match s with
  | FromCache kid now => (keysFromCache now r ≫= (fun ks => ks !! kid), r)
  | Locked kid now t1 t2 done => let '(ks, r) := getKeys now t1 t2 done r in (ks ≫= (fun ks => ks !! kid), r)
  end.

Fixpoint key_run (l : list key_step) (r : Resolver) : Resolver := match l with [] => r | s :: l => key_run l (KeyFunc s r).2 end.

(** ** Properties *)

Definition step_kid (s : key_step) : string := match s with FromCache kid _ | Locked kid _ _ _ _ => kid end.
Definition step_now (s : key_step) : Z := match s with FromCache _ now | Locked _ now _ _ _ => now end.

(** The requests of a step follow the clock's first reading, and are over at the second, at
    most [D] after the first of them. *)
Definition timely (D : Z) (s : key_step) : Prop := match s with FromCache _ _ => True | Locked _ now t1 t2 done => now <= t1 <= t2 /\ t2 <= done <= t1 + D end.

(** The document with the keys [ks] was received at [t]: from the resolver's URL itself when
    that names no other, else from the URL it names. *)
Definition received (r : Resolver) (t1 t2 t : Z) (ks : gmap string PublicKey) : Prop :=
  exists body uri, fetch t1 (jwksURL r) = Some body /\ read_uri body = Some uri /\
    if String.eqb uri "" then t = t1 /\ ParseJWKS body = Some ks
    else t = t2 /\ exists body', fetch t2 uri = Some body' /\ ParseJWKS body' = Some ks.

(** A call of the run that found no fresh keys received the document at [t]. *)
Definition fetched (r0 : Resolver) (l : list key_step) (t : Z) (ks : gmap string PublicKey) : Prop :=
  exists l1 kid now t1 t2 fin l2, l = l1 ++ Locked kid now t1 t2 fin :: l2 /\ fresh now (key_run l1 r0) = false /\ received r0 t1 t2 t ks.

(** What is in the cache was received at a time from which its expiry is the period and the
    requests away. *)
Definition cache_ok (D : Z) (r0 : Resolver) (l : list key_step) (r : Resolver) : Prop :=
  jwksURL r = jwksURL r0 /\ ttl r = ttl r0 /\ (keys r = ∅ \/ exists t, fetched r0 l t (keys r) /\ keysExp r <= t + D + ttl r0).

Lemma fetchJWKS_received t1 t2 r r0 ks : jwksURL r = jwksURL r0 -> t1 <= t2 -> fetchJWKS t1 t2 r = Some ks -> exists t, received r0 t1 t2 t ks /\ t1 <= t.
Proof.
  unfold fetchJWKS, received. intros ->. destruct (fetch t1 (jwksURL r0)) as [body|]; [|done]. cbn. destruct (read_uri body) as [uri|] eqn:U; [|done]. cbn. intros Ht H.
  destruct (String.eqb uri "") eqn:E.
  - exists t1. split; [|lia]. exists body, uri. by rewrite E.
  - exists t2. split; [|lia]. exists body, uri. rewrite E. apply bind_Some in H as (body' & ? & ?). eauto 6.
Qed.

Lemma fetched_snoc r0 l s t ks : fetched r0 l t ks -> fetched r0 (l ++ [s]) t ks.
Proof. intros (l1 & kid & now & t1 & t2 & fin & l2 & -> & H). exists l1, kid, now, t1, t2, fin, (l2 ++ [s]). by rewrite <- app_assoc. Qed.

Lemma key_run_snoc l s r : key_run (l ++ [s]) r = (KeyFunc s (key_run l r)).2.
Proof. revert r. induction l as [|x l IH]; intros r; cbn; [done|apply IH]. Qed.

Lemma KeyFunc_ok D r0 l s : cache_ok D r0 l (key_run l r0) -> timely D s ->
  cache_ok D r0 (l ++ [s]) (key_run (l ++ [s]) r0) /\
  forall k, (KeyFunc s (key_run l r0)).1 = Some k ->
    exists t ks, fetched r0 (l ++ [s]) t ks /\ ks !! step_kid s = Some k /\ (step_now s < t + D + ttl r0 \/ step_now s <= t).
Proof.
  rewrite key_run_snoc. remember (key_run l r0) as r eqn:Er. intros (U & T & C) Ht.
  assert (Hold : cache_ok D r0 (l ++ [s]) r).
  { split_and!; [done..|]. destruct C as [?|(t & ? & ?)]; [by left|right]. exists t. split; [by apply fetched_snoc|done]. }
  assert (Hit : forall k, fresh (step_now s) r = true -> keys r !! step_kid s = Some k ->
    exists t ks, fetched r0 (l ++ [s]) t ks /\ ks !! step_kid s = Some k /\ (step_now s < t + D + ttl r0 \/ step_now s <= t)).
  { intros k [H1%Z.ltb_lt H2]%andb_true_iff Hk. destruct C as [C|(t & F & E)]; [by rewrite C in Hk|]. exists t, (keys r). split_and!; [by apply fetched_snoc|done|lia]. }
  destruct s as [kid now|kid now t1 t2 fin]; cbn [KeyFunc step_kid step_now] in *.
  - split; [done|]. unfold keysFromCache. intros k. destruct (fresh now r) eqn:Fr; [|done]. cbn. intros Hk. by apply Hit.
  - unfold getKeys. destruct (fresh now r) eqn:Fr; [split; [done|]; cbn; intros k Hk; by apply Hit|].
    destruct (fetchJWKS t1 t2 r) as [ks|] eqn:F; cbn; [|done]. destruct Ht as [? ?].
    destruct (fetchJWKS_received t1 t2 r r0 ks U ltac:(lia) F) as (t & Hr & Htt).
    assert (Hf : fetched r0 (l ++ [Locked kid now t1 t2 fin]) t ks) by (exists l, kid, now, t1, t2, fin, []; by rewrite <- Er).
    split; [split_and!; [done|done|]; right; exists t; cbn; split; [done|lia]|].
    intros k Hk. exists t, ks. split_and!; [done|done|lia].
Qed.
End web.

Lemma New_keys url ttls : keys (New url (WithTTL <$> ttls)) = ∅.
Proof.
  unfold New, newResolver. generalize (3600 * 10 ^ 9). induction ttls as [|t ttls IH]; intros z; cbn; [done|]. apply IH.
Qed.

(** C17: no key outlives its publication by more than the cache's period.  Whatever calls come in
    whatever order, a key that verifies a token was, under the token's [kid], in a document
    that a call of the run which found no fresh keys received from the endpoint (its JWKS URL,
    or the one that its discovery document named) at a time [t], and the clock of the call that
    uses the key is less than the cache's period and the duration of a call's requests after
    [t], or not after [t] at all (the call fetched the document itself).  So a key that was
    withdrawn verifies nothing from then on. *)
Theorem keys_fresh web read_uri read_keys (D : Z) (url : string) (ttls : list Z) (l : list key_step) (s : key_step) (k : PublicKey) :
  let r := New url (WithTTL <$> ttls) in
  Forall (timely D) (l ++ [s]) -> (KeyFunc web read_uri read_keys s (key_run web read_uri read_keys l r)).1 = Some k ->
  exists t ks, fetched web read_uri read_keys r (l ++ [s]) t ks /\ ks !! step_kid s = Some k /\ (step_now s < t + D + ttl r \/ step_now s <= t).
Proof.
  intros r [F Hs%Forall_cons_1]%Forall_app E. assert (H : cache_ok web read_uri read_keys D r l (key_run web read_uri read_keys l r)).
  { clear E. induction l as [|x l IH] using rev_ind; [split_and!; [done|done|left; apply New_keys]|].
    apply Forall_app in F as [F Hx%Forall_cons_1]. apply KeyFunc_ok; [by apply IH|apply Hx]. }
  eapply KeyFunc_ok; [exact H|apply Hs|exact E].
Qed.

(** A document with the key "b" from time 100 on, and with "a" before. *)
Definition rotating (now : Z) (url : string) : option (Z * option string) := Some (200, Some (if now <? 100 then "a" else "b")).
Definition plain_keys (body : string) : option (list jwk) := Some [mkJwk body "RSA" "AQ" "AQAB"].

Lemma keys_fresh_witness :
  exists t ks, fetched rotating (fun _ => Some "") plain_keys (New "https://host/jwks.json" [WithTTL 60]) [Locked "a" 12 12 12 15; FromCache "a" 74] t ks /\
    ks !! "a" = Some (mkKey 1 65537) /\ (74 < t + 3 + 60 \/ 74 <= t).
Proof.
  apply (keys_fresh rotating (fun _ => Some "") plain_keys 3 "https://host/jwks.json" [60] [Locked "a" 12 12 12 15] (FromCache "a" 74) (mkKey 1 65537)); [|reflexivity].
  repeat constructor; cbn; lia.
Defined.

(** A new key is not found before the cache expires: its [kid] is unknown, and that does not
    cause a request. *)
Lemma rotated_key_waits :
  let r := key_run rotating (fun _ => Some "") plain_keys [Locked "a" 99 99 99 99] (New "https://host/jwks.json" []) in
  (KeyFunc rotating (fun _ => Some "") plain_keys (Locked "b" 3600000000000 3600000000000 3600000000000 3600000000001) r).1 = None /\
  (KeyFunc rotating (fun _ => Some "") plain_keys (Locked "b" 3600000000099 3600000000099 3600000000099 3600000000100) r).1 = Some (mkKey 1 65537).
Proof. vm_compute. split; reflexivity. Qed.
