(* ===== verification/ConsistentHash.v ===== *)
(** * Consistent hashing (infra/hash/consistenthash.go, infra/lang/lang.go)

    The ring with virtual nodes.  The hash function is an argument, as in
    [NewCustomConsistentHash]; so is the formatting verb [%v] that [innerRepr] uses.
    [Get] may panic: the inner option of its result is the pair of the source, the outer
    one is [None] on a division by zero. *)

From S2P Require Import Prelude GoStrings GoSort.
From stdpp Require Import pretty.
From Stdlib Require Import Ascii.

#[local] Open Scope string_scope.
#[local] Open Scope Z_scope.

(** ** Interface values, as far as [lang.Repr] tells them apart

    Floats and values of other types carry their formatted text. *)

Inductive any :=
| ANil
| AStringer (s : string)
| APtr (target : any)
| APtrNil
| ABool (b : bool)
| AError (s : string)
| AString (s : string)
| ABytes (s : string)
| AFloat (formatted : string)
| AInt (z : Z)
| AUint (n : N)
| AOther (formatted : string).

Fixpoint reprOfValue (v : any) : string :=
  match v with
  | ANil => ""
  | APtr v => reprOfValue v
  | APtrNil => "<nil>"
  | ABool b => if b then "true" else "false"
  | AError s | AStringer s | AString s | ABytes s => s
  | AFloat s | AOther s => s
  | AInt z => pretty z
  | AUint n => pretty n
  end.

Definition Repr (v : any) : string := reprOfValue v.

Definition TopWeight : Z := 100.
Definition minReplicas : Z := 100.

Record ConsistentHash : Type := mkCH {
  ch_replicas : Z;
  ch_keys : list N;
  ch_ring : gmap N (list any);
  ch_nodes : gset string
}.

#[export] Instance eta_ch : Eta ConsistentHash := fun h => mkCH (ch_replicas h) (ch_keys h) (ch_ring h) (ch_nodes h).

Section ring.
Context (hashFunc : string -> N) (sprintV : any -> string).

Definition NewCustomConsistentHash (replicas : Z) : ConsistentHash :=
  mkCH (if replicas <? minReplicas then minReplicas else replicas) [] ∅ ∅.

Definition NewConsistentHash : ConsistentHash := NewCustomConsistentHash minReplicas.

(** The position of the [i]th replica of a node. *)
Definition point (nodeRepr : string) (i : nat) : N := hashFunc (nodeRepr ++ pretty i).

Definition containsNode (r : string) (h : ConsistentHash) : bool := bool_decide (r ∈ ch_nodes h).
Definition addNode (r : string) (h : ConsistentHash) : ConsistentHash := h <| ch_nodes := {[ r ]} ∪ ch_nodes h |>.
Definition removeNode (r : string) (h : ConsistentHash) : ConsistentHash := h <| ch_nodes := ch_nodes h ∖ {[ r ]} |>.

Definition removeRingNode (p : N) (r : string) (h : ConsistentHash) : ConsistentHash :=
  match ch_ring h !! p with
  | None => h
  | Some nodes =>
      match filter (fun x => Repr x <> r) nodes with
      | [] => h <| ch_ring := delete p (ch_ring h) |>
      | newNodes => h <| ch_ring := <[p := newNodes]> (ch_ring h) |>
      end
  end.

(** One round of the loop of [Remove]. *)
Definition remove_replica (r : string) (h : ConsistentHash) (i : nat) : ConsistentHash :=
  let p := point r i in
  let index := lower_bound (ch_keys h) p in
  let h :=
    if bool_decide (ch_keys h !! index = Some p) then
      h <| ch_keys := (take index (ch_keys h) ++ drop (S index) (ch_keys h))%list |>
    else h in
  removeRingNode p r h.

Definition Remove (node : any) (h : ConsistentHash) : ConsistentHash :=
  let nodeRepr := Repr node in
  if containsNode nodeRepr h then
    removeNode nodeRepr (foldl (remove_replica nodeRepr) h (seq 0 (Z.to_nat (ch_replicas h))))
  else h.

(** One round of the loop of [AddWithReplicas]. *)
Definition add_replica (node : any) (h : ConsistentHash) (i : nat) : ConsistentHash :=
  let p := point (Repr node) i in
  h <| ch_keys := (ch_keys h ++ [p])%list |>
    <| ch_ring := <[p := (default [] (ch_ring h !! p) ++ [node])%list]> (ch_ring h) |>.

Definition AddWithReplicas (node : any) (replicas : Z) (h : ConsistentHash) : ConsistentHash :=
  let h := Remove node h in
  let replicas := if ch_replicas h <? replicas then ch_replicas h else replicas in
  let h := addNode (Repr node) h in
  let h := foldl (add_replica node) h (seq 0 (Z.to_nat replicas)) in
  h <| ch_keys := slices_Sort (ch_keys h) |>.

Definition Add (node : any) (h : ConsistentHash) : ConsistentHash := AddWithReplicas node (ch_replicas h) h.

Definition AddWithWeight (node : any) (weight : Z) (h : ConsistentHash) : ConsistentHash :=
  AddWithReplicas node (Z.quot (wrap64 (ch_replicas h * weight)) TopWeight) h.

Definition innerRepr (v : any) : string := "16777619:" ++ sprintV v.

Definition Get (v : any) (h : ConsistentHash) : option (option any) :=
  if (size (ch_ring h) =? 0)%nat then Some None
  else
    let n := length (ch_keys h) in
    if (n =? 0)%nat then None                              (* % len(h.keys) *)
    else
      let index := (lower_bound (ch_keys h) (hashFunc (Repr v)) mod n)%nat in
      let nodes := default [] (ch_keys h !! index ≫= fun p => ch_ring h !! p) in
      match nodes with
      | [] => Some None
      | [x] => Some (Some x)
      | _ =>
          let n := N.of_nat (length nodes) in
          let idx := (hashFunc (innerRepr v) mod n)%N in
          let idx := if (n <? idx)%N then 0%N else idx in
          match nodes !! N.to_nat idx with Some x => Some (Some x) | None => None end
      end.

(** ** The ring as a set of points

    [ring_rel R P h]: the points of the ring are those [P] relates to a node, each with
    one node, the keys are the points in order, and the nodes are [R]. *)

Record ring_rel (R : gset string) (P : N -> any -> Prop) (h : ConsistentHash) : Prop := mk_ring_rel {
  rr_sorted : StronglySorted N.le (ch_keys h);
  rr_nodup : NoDup (ch_keys h);
  rr_keys p : p ∈ ch_keys h <-> exists n, P p n;
  rr_ring p ns : ch_ring h !! p = Some ns <-> exists n, P p n /\ ns = [n];
  rr_nodes : ch_nodes h = R
}.

Lemma rr_fun R P h p n n' : ring_rel R P h -> P p n -> P p n' -> n = n'.
Proof.
  intros Hr H1 H2. assert (E1 : ch_ring h !! p = Some [n]) by (apply (rr_ring _ _ _ Hr); eauto).
  assert (E2 : ch_ring h !! p = Some [n']) by (apply (rr_ring _ _ _ Hr); eauto). congruence.
Qed.

Lemma rr_ext R P Q h : (forall p n, P p n <-> Q p n) -> ring_rel R P h -> ring_rel R Q h.
Proof. intros E [H1 H2 H3 H4 H5]. constructor; [done..| | |done]; intros; [rewrite H3|rewrite H4]; by setoid_rewrite E. Qed.

(** Removing the key at the lower bound removes exactly that key. *)
Lemma delete_key (l : list N) (p : N) :
  StronglySorted N.le l -> NoDup l ->
  let l' := if bool_decide (l !! lower_bound l p = Some p)
            then (take (lower_bound l p) l ++ drop (S (lower_bound l p)) l)%list else l in
  StronglySorted N.le l' /\ NoDup l' /\ (forall q, q ∈ l' <-> q ∈ l /\ q <> p).
Proof.
  intros Hs Hn. destruct (lower_bound_spec l p Hs) as (a & b & -> & Hlen & Ha & Hb). cbn zeta. rewrite <- Hlen.
  rewrite lookup_app_r, Nat.sub_diag by lia. rewrite take_app_length.
  assert (Hpa : p ∉ a) by (rewrite Forall_forall in Ha; intros H; specialize (Ha p H); lia).
  apply StronglySorted_app in Hs as (Hab & Hsa & Hsb). apply NoDup_app in Hn as (Hna & Hnab & Hnb).
  destruct b as [|k b]; cbn [lookup list_lookup].
  { rewrite bool_decide_eq_false_2 by done. rewrite app_nil_r. split; [done|]. split; [done|]. set_solver. }
  case_bool_decide as Hk.
  - injection Hk as ->. replace (drop (S (length a)) (a ++ p :: b)) with b
      by (rewrite drop_app, drop_ge, Nat.sub_succ_l, Nat.sub_diag by lia; done).
    apply StronglySorted_cons in Hsb as [_ Hsb]. apply NoDup_cons in Hnb as [Hpb Hnb].
    split; [apply StronglySorted_app; split_and!; [|done..]; intros ????; apply Hab; set_solver|].
    split; [apply NoDup_app; split_and!; [done| |done]; set_solver|].
    intros q. rewrite !elem_of_app, elem_of_cons. split; [|naive_solver]. intros [H|H]; split; [by left|congruence|by right; right|congruence].
  - assert (Hpb : p ∉ b). { apply StronglySorted_cons in Hsb as [Hf _]. rewrite Forall_forall in Hf. apply Forall_cons in Hb as [Hb _].
      intros H. specialize (Hf p H). assert (k = p) by lia. congruence. }
    split; [by apply StronglySorted_app|]. split; [by apply NoDup_app|]. set_solver.
Qed.

Lemma remove_replica_rel R P h r i :
  ring_rel R P h -> (forall n, P (point r i) n -> Repr n = r) ->
  ring_rel R (fun q n => P q n /\ q <> point r i) (remove_replica r h i).
Proof.
  intros Hr Hown. unfold remove_replica. set (p := point r i) in *.
  pose proof (delete_key (ch_keys h) p (rr_sorted _ _ _ Hr) (rr_nodup _ _ _ Hr)) as Hdel. cbn zeta in Hdel.
  set (h1 := if bool_decide _ then _ else h).
  assert (Hh1 : ch_ring h1 = ch_ring h /\ ch_nodes h1 = ch_nodes h /\
    StronglySorted N.le (ch_keys h1) /\ NoDup (ch_keys h1) /\ (forall q, q ∈ ch_keys h1 <-> q ∈ ch_keys h /\ q <> p)).
  { unfold h1. split; [by case_bool_decide|]. split; [by case_bool_decide|]. revert Hdel. by case_bool_decide. }
  clearbody h1. clear Hdel. destruct Hh1 as (E1 & E2 & Hs & Hn & Hk). destruct Hr as [_ _ H3 H4 H5].
  assert (Hkeys : forall q, q ∈ ch_keys h1 <-> exists n, P q n /\ q <> p) by (intros q; rewrite Hk, H3; naive_solver).
  unfold removeRingNode. rewrite E1. destruct (ch_ring h !! p) as [ns|] eqn:Hp.
  - apply H4 in Hp as (n & Hpn & ->). rewrite filter_cons_False, filter_nil by (intros H; apply H, Hown, Hpn).
    constructor; cbn; [done..| |congruence]. intros q ns. rewrite lookup_delete_Some, H4. naive_solver.
  - constructor; [done..| |congruence]. rewrite E1. intros q ns. rewrite H4. split; [|naive_solver].
    intros (n & Hq & ->). exists n. split_and!; try done. intros ->.
    assert (ch_ring h !! p = Some [n]) by (apply H4; eauto). congruence.
Qed.

Lemma remove_replicas_rel R P h r m :
  ring_rel R P h -> (forall i n, (i < m)%nat -> P (point r i) n -> Repr n = r) ->
  ring_rel R (fun q n => P q n /\ forall i, (i < m)%nat -> q <> point r i) (foldl (remove_replica r) h (seq 0 m)).
Proof.
  intros Hr Hown. induction m as [|m IH]; [eapply rr_ext, Hr; naive_solver lia|].
  rewrite seq_S, foldl_app. cbn. eapply rr_ext, remove_replica_rel; [|apply IH; eauto|].
  - intros q n. cbn. split; [intros [[H1 H2] H3]; split; [done|]; intros i Hi; destruct (decide (i = m)) as [->|]; [done|apply H2; lia]|].
    intros [H1 H2]. split_and!; [done| |]; intros; apply H2; lia.
  - cbn. intros n [H _]. by apply (Hown m n); [lia|].
Qed.

(** Adding at fresh positions: the keys are appended, each new position has the node. *)
Lemma add_replicas_spec h node m :
  (forall i j, (i < m)%nat -> (j < m)%nat -> point (Repr node) i = point (Repr node) j -> i = j) ->
  (forall i, (i < m)%nat -> ch_ring h !! point (Repr node) i = None) ->
  let h' := foldl (add_replica node) h (seq 0 m) in
  ch_replicas h' = ch_replicas h /\ ch_nodes h' = ch_nodes h /\
  ch_keys h' = (ch_keys h ++ (point (Repr node) <$> seq 0 m))%list /\
  forall p ns, ch_ring h' !! p = Some ns <->
    ch_ring h !! p = Some ns \/ exists i, (i < m)%nat /\ p = point (Repr node) i /\ ns = [node].
Proof.
  intros Hinj Hfresh. induction m as [|m IH].
  { cbn. rewrite app_nil_r. split_and!; [done..|]. naive_solver lia. }
  destruct IH as (H1 & H2 & H3 & H4); [naive_solver lia..|]. rewrite seq_S, foldl_app. cbn in *.
  set (h' := foldl _ _ _) in *. clearbody h'. split_and!; [done..| |].
  { by rewrite H3, fmap_app, (assoc_L app). }
  assert (Hm : ch_ring h' !! point (Repr node) m = None).
  { destruct (ch_ring h' !! _) as [ns|] eqn:E; [|done]. apply H4 in E as [E|(i & Hi & E & _)]; [by rewrite Hfresh in E by lia|].
    apply Hinj in E; lia. }
  intros p ns. rewrite Hm. cbn. rewrite lookup_insert_Some, H4. split.
  - intros [[<- <-]|[Hne [H|(i & Hi & -> & ->)]]]; [right; exists m; split; [lia|done]|by left|].
    right. exists i. split; [lia|done].
  - intros [H|(i & Hi & -> & ->)].
    + right. split; [|by left]. intros <-. rewrite Hfresh in H by lia. done.
    + destruct (decide (i = m)) as [->|]; [by left|]. right. split; [intros E; apply Hinj in E; lia|].
      right. exists i. split; [lia|done].
Qed.

(** ** The contract: a map from node names to nodes with their number of replicas *)

Notation plan := (gmap string (any * nat)).

Definition pts (M : plan) (p : N) (n : any) : Prop :=
  exists r k i, M !! r = Some (n, k) /\ (i < k)%nat /\ p = point r i.

(** No two virtual nodes of [U] hash to the same position. *)
Definition collision_free (U : gset string) (K : nat) : Prop :=
  forall r1 r2 i1 i2, r1 ∈ U -> r2 ∈ U -> (i1 < K)%nat -> (i2 < K)%nat ->
  point r1 i1 = point r2 i2 -> r1 = r2 /\ i1 = i2.

Inductive ch_op :=
| OpAdd (node : any)
| OpAddWithReplicas (node : any) (replicas : Z)
| OpAddWithWeight (node : any) (weight : Z)
| OpRemove (node : any).

Definition op_node (o : ch_op) : any :=
  match o with OpAdd n | OpAddWithReplicas n _ | OpAddWithWeight n _ | OpRemove n => n end.

Definition ch_apply (h : ConsistentHash) (o : ch_op) : ConsistentHash :=
  match o with
  | OpAdd n => Add n h
  | OpAddWithReplicas n k => AddWithReplicas n k h
  | OpAddWithWeight n w => AddWithWeight n w h
  | OpRemove n => Remove n h
  end.

(** What an operation means: [K] is the number of replicas of a full node. *)
Definition plan_apply (K : Z) (M : plan) (o : ch_op) : plan :=
  match o with
  | OpAdd n => <[Repr n := (n, Z.to_nat K)]> M
  | OpAddWithReplicas n k => <[Repr n := (n, Z.to_nat (Z.min k K))]> M
  | OpAddWithWeight n w => <[Repr n := (n, Z.to_nat (Z.min (Z.quot (wrap64 (K * w)) 100) K))]> M
  | OpRemove n => delete (Repr n) M
  end.

Record ring_ok (U : gset string) (K : Z) (M : plan) (h : ConsistentHash) : Prop := mk_ring_ok {
  ro_rel : ring_rel (dom M) (pts M) h;
  ro_replicas : ch_replicas h = K;
  ro_plan r n k : M !! r = Some (n, k) -> Repr n = r /\ r ∈ U /\ (k <= Z.to_nat K)%nat
}.

Lemma pts_delete U K M r p n :
  collision_free U (Z.to_nat K) -> (forall r n k, M !! r = Some (n, k) -> Repr n = r /\ r ∈ U /\ (k <= Z.to_nat K)%nat) -> r ∈ U ->
  pts (delete r M) p n <-> pts M p n /\ forall i, (i < Z.to_nat K)%nat -> p <> point r i.
Proof.
  intros Hcf Hwf Hr. split.
  - intros (r' & k & i & Hl & Hi & ->). apply lookup_delete_Some in Hl as [Hne Hl]. split; [by exists r', k, i|].
    intros j Hj E. destruct (Hwf _ _ _ Hl) as (_ & HU & Hk). apply Hcf in E; [by destruct E|done..|lia|done].
  - intros [(r' & k & i & Hl & Hi & ->) Hne]. exists r', k, i. split; [|done]. apply lookup_delete_Some. split; [|done].
    intros <-. destruct (Hwf _ _ _ Hl) as (_ & _ & Hk). apply (Hne i); [lia|done].
Qed.

Lemma remove_replicas_same r h l : ch_replicas (foldl (remove_replica r) h l) = ch_replicas h.
Proof.
  revert h. induction l as [|i l IH]; intros h; [done|]. cbn [foldl]. rewrite IH.
  unfold remove_replica, removeRingNode. by repeat case_match.
Qed.

Lemma Remove_ok U K M h node :
  collision_free U (Z.to_nat K) -> Repr node ∈ U -> ring_ok U K M h -> ring_ok U K (delete (Repr node) M) (Remove node h).
Proof.
  intros Hcf HU [Hrel Hrep Hwf].
  assert (Hwf' : forall r n k, delete (Repr node) M !! r = Some (n, k) -> Repr n = r /\ r ∈ U /\ (k <= Z.to_nat K)%nat)
    by (intros r n k [_ H]%lookup_delete_Some; by apply Hwf).
  unfold Remove, containsNode. case_bool_decide as Hc; rewrite (rr_nodes _ _ _ Hrel) in Hc.
  - constructor; [|exact (eq_trans (remove_replicas_same _ _ _) Hrep)|done].
    rewrite Hrep. pose proof (remove_replicas_rel (dom M) (pts M) h (Repr node) (Z.to_nat K) Hrel) as H.
    assert (H' := H ltac:(intros i n Hi (r & k & j & Hl & Hj & E);
      destruct (Hwf _ _ _ Hl) as (? & ? & ?); apply Hcf in E; [destruct E; congruence|done|done|done|lia])).
    apply (rr_ext _ _ (pts (delete (Repr node) M))) in H'; [|intros; symmetry; by apply (pts_delete U K)].
    destruct H' as [A1 A2 A3 A4 A5]. constructor; [done..|].
    rewrite dom_delete_L, <- A5. done.
  - rewrite delete_id; [done|]. by apply not_elem_of_dom.
Qed.

Lemma AddWithReplicas_ok U K M h node k :
  collision_free U (Z.to_nat K) -> Repr node ∈ U -> ring_ok U K M h ->
  ring_ok U K (<[Repr node := (node, Z.to_nat (Z.min k K))]> M) (AddWithReplicas node k h).
Proof.
  intros Hcf HU Hok. pose proof (Remove_ok U K M h node Hcf HU Hok) as [Hrel Hrep Hwf].
  unfold AddWithReplicas. set (h1 := Remove node h) in *. clearbody h1. rewrite Hrep.
  replace (if K <? k then K else k) with (Z.min k K) by (destruct (Z.ltb_spec K k); lia).
  set (m := Z.to_nat (Z.min k K)). assert (Hm : (m <= Z.to_nat K)%nat) by lia. clearbody m.
  set (M1 := delete (Repr node) M) in *.
  assert (HM : <[Repr node := (node, m)]> M = <[Repr node := (node, m)]> M1) by (unfold M1; by rewrite insert_delete_eq).
  assert (Hno : M1 !! Repr node = None) by apply lookup_delete_eq. rewrite HM. clear HM Hok. clearbody M1.
  assert (Hfresh : forall i, (i < m)%nat -> forall n, ~ pts M1 (point (Repr node) i) n).
  { intros i Hi n (r & k' & j & Hl & Hj & E). destruct (Hwf _ _ _ Hl) as (? & ? & ?).
    apply Hcf in E; [destruct E as [<- _]; congruence|done|done|lia|lia]. }
  assert (Hinj : forall i j, (i < m)%nat -> (j < m)%nat -> point (Repr node) i = point (Repr node) j -> i = j)
    by (intros i j Hi Hj E; apply Hcf in E; [by destruct E|done|done|lia|lia]).
  destruct Hrel as [A1 A2 A3 A4 A5].
  destruct (add_replicas_spec (addNode (Repr node) h1) node m) as (B1 & B2 & B3 & B4); [done| |].
  { intros i Hi. cbn. destruct (ch_ring h1 !! _) eqn:E; [|done]. apply A4 in E as (n & Hn & _). by apply Hfresh in Hn. }
  cbn [ch_ring addNode] in B4. set (h2 := foldl _ _ _) in *. clearbody h2.
  assert (Hpts : forall p n, pts (<[Repr node := (node, m)]> M1) p n <->
                   pts M1 p n \/ exists i, (i < m)%nat /\ p = point (Repr node) i /\ n = node).
  { intros p n. split.
    - intros (r & k' & j & Hl & Hj & ->). apply lookup_insert_Some in Hl as [[<- [= <- <-]]|[_ Hl]]; [right; eauto|].
      left. by exists r, k', j.
    - intros [(r & k' & j & Hl & Hj & ->)|(i & Hi & -> & ->)].
      + exists r, k', j. split; [|done]. rewrite lookup_insert_ne; [done|congruence].
      + exists (Repr node), m, i. by rewrite lookup_insert_eq. }
  assert (Hkeys : forall p, p ∈ slices_Sort (ch_keys h2) <-> exists n, pts (<[Repr node := (node, m)]> M1) p n).
  { intros p. rewrite slices_Sort_perm, B3. cbn. rewrite elem_of_app, A3, list_elem_of_fmap. setoid_rewrite Hpts.
    setoid_rewrite elem_of_seq. split; [intros [[n H]|(i & -> & Hi)]; [eauto|exists node; right; exists i; split; [lia|done]]|].
    intros [n [H|(i & Hi & -> & ->)]]; [eauto|]. right. exists i. split; [done|lia]. }
  constructor.
  - constructor; cbn [ch_keys ch_ring ch_nodes upd]; [apply slices_Sort_sorted| |exact Hkeys| |].
    + unfold upd. cbn. rewrite slices_Sort_perm, B3. cbn. apply NoDup_app. split; [done|]. split.
      * intros p Hp (i & -> & [_ Hi]%elem_of_seq)%list_elem_of_fmap. apply A3 in Hp as [n Hn]. by eapply (Hfresh i); [lia|].
      * apply NoDup_fmap_2_strong; [|apply NoDup_seq]. intros i j [_ Hi]%elem_of_seq [_ Hj]%elem_of_seq. apply Hinj; lia.
    + intros p ns. change (ch_ring h2 !! p = Some ns <-> exists n, pts (<[Repr node := (node, m)]> M1) p n /\ ns = [n]).
      rewrite B4. setoid_rewrite Hpts. unfold addNode. cbn. rewrite A4. naive_solver.
    + change (ch_nodes h2 = dom (<[Repr node := (node, m)]> M1)). rewrite B2. cbn. by rewrite A5, dom_insert_L.
  - cbn. by rewrite B1.
  - intros r n k' [[<- [= <- <-]]|[_ Hl]]%lookup_insert_Some; [done|by apply Hwf].
Qed.

Lemma ch_apply_ok U K M h o :
  collision_free U (Z.to_nat K) -> Repr (op_node o) ∈ U -> ring_ok U K M h -> ring_ok U K (plan_apply K M o) (ch_apply h o).
Proof.
  intros Hcf HU Hok. pose proof (ro_replicas _ _ _ _ Hok) as Hrep. destruct o as [n|n k|n w|n]; cbn in *.
  - unfold Add. rewrite Hrep, <- (Z.min_id K) at 1. rewrite Z.min_id at 1. rewrite <- (Z.min_id K) at 2. by apply AddWithReplicas_ok.
  - by apply AddWithReplicas_ok.
  - unfold AddWithWeight. rewrite Hrep. by apply AddWithReplicas_ok.
  - by apply Remove_ok.
Qed.

Lemma ring_ok_run U K ops M h :
  collision_free U (Z.to_nat K) -> Forall (fun o => Repr (op_node o) ∈ U) ops -> ring_ok U K M h ->
  ring_ok U K (foldl (plan_apply K) M ops) (foldl ch_apply h ops).
Proof.
  intros Hcf Hops. revert M h. induction Hops as [|o ops Ho _ IH]; intros M h Hok; [done|].
  cbn [foldl]. by apply IH, ch_apply_ok.
Qed.

Lemma ring_ok_new U replicas : ring_ok U (Z.max replicas minReplicas) ∅ (NewCustomConsistentHash replicas).
Proof.
  constructor; [constructor; cbn|cbn; unfold minReplicas; destruct (Z.ltb_spec replicas 100); lia|intros ???; by rewrite lookup_empty].
  - constructor.
  - constructor.
  - intros p. split; [set_solver|]. intros (n & r & k & i & H & _). by rewrite lookup_empty in H.
  - intros p ns. rewrite lookup_empty. split; [done|]. intros (n & (r & k & i & H & _) & _). by rewrite lookup_empty in H.
  - by rewrite dom_empty_L.
Qed.

(** ** Looking a key up *)

(** [p] is the first point at or after [x] around the ring. *)
Definition owns (P : N -> any -> Prop) (x : N) (n : any) : Prop :=
  exists p, P p n /\
    (((x <= p)%N /\ forall q m, P q m -> (x <= q)%N -> (p <= q)%N) \/
     ((forall q m, P q m -> (q < x)%N) /\ forall q m, P q m -> (p <= q)%N)).

Lemma Get_rel R P h v :
  ring_rel R P h ->
  match Get v h with
  | None => False
  | Some None => forall p n, ~ P p n
  | Some (Some n) => owns P (hashFunc (Repr v)) n
  end.
Proof.
  intros Hr. pose proof Hr as [A1 A2 A3 A4 A5]. unfold Get. destruct (Nat.eqb_spec (size (ch_ring h)) 0) as [Hz|Hz].
  { apply map_size_empty_inv in Hz. intros p n Hp. assert (H : ch_ring h !! p = Some [n]) by (apply A4; eauto).
    by rewrite Hz, lookup_empty in H. }
  destruct (map_choose (ch_ring h)) as (p0 & ns0 & H0); [by intros E; apply map_size_empty_iff in E|].
  apply A4 in H0 as (n0 & H0 & ->). assert (Hin : p0 ∈ ch_keys h) by (apply A3; eauto).
  assert (Hlen : length (ch_keys h) <> 0%nat) by (intros E; apply nil_length_inv in E; rewrite E in Hin; set_solver).
  destruct (Nat.eqb_spec (length (ch_keys h)) 0) as [|_]; [done|].
  set (x := hashFunc (Repr v)). destruct (lower_bound_spec (ch_keys h) x A1) as (a & b & E & Hla & Ha & Hb).
  rewrite Forall_forall in Ha, Hb.
  assert (Hk : exists p, ch_keys h !! (lower_bound (ch_keys h) x mod length (ch_keys h))%nat = Some p /\
    (((x <= p)%N /\ forall q, q ∈ ch_keys h -> (x <= q)%N -> (p <= q)%N) \/
     ((forall q, q ∈ ch_keys h -> (q < x)%N) /\ forall q, q ∈ ch_keys h -> (p <= q)%N))).
  { rewrite <- Hla, E, length_app in *. destruct b as [|p b].
    - rewrite app_nil_r in *. cbn [length] in *. rewrite Nat.add_0_r, Nat.Div0.mod_same. destruct a as [|p a]; [set_solver|].
      exists p. split; [done|]. right. split; [done|]. apply StronglySorted_cons in A1 as [Hf _]. rewrite Forall_forall in Hf.
      intros q [->|Hq]%elem_of_cons; [lia|by apply Hf].
    - exists p. split; [rewrite Nat.mod_small by (cbn; lia); by rewrite lookup_app_r, Nat.sub_diag by lia|].
      left. split; [apply Hb; set_solver|]. apply StronglySorted_app in A1 as (_ & _ & Hsb). apply StronglySorted_cons in Hsb as [Hf _].
      rewrite Forall_forall in Hf. intros q [Hq|[->|Hq]%elem_of_cons]%elem_of_app Hx; [specialize (Ha q Hq); lia|lia|by apply Hf]. }
  destruct Hk as (p & Hl & Hp). apply list_elem_of_lookup_2 in Hl as Hpk. rewrite Hl. cbn [mbind option_bind].
  pose proof Hpk as [n Hn]%A3. assert (H : ch_ring h !! p = Some [n]) by (apply A4; eauto). rewrite H. cbn.
  exists p. split; [done|]. destruct Hp as [[Hx Hmin]|[Hall Hmin]]; [left|right]; split; try done; intros q m Hq;
    [apply Hmin|apply Hall|apply Hmin]; apply A3; eauto.
Qed.

(** Two rings that differ only in the points of one node. *)
Lemma owns_unless P Q r x n m :
  (forall p n, Repr n <> r -> P p n <-> Q p n) -> (forall p a b, P p a -> P p b -> a = b) ->
  owns P x n -> owns Q x m -> n = m \/ Repr n = r \/ Repr m = r.
Proof.
  intros E Hfun (p & Hp & Hpx) (q & Hq & Hqx).
  destruct (decide (Repr n = r)) as [|Hn]; [tauto|]. destruct (decide (Repr m = r)) as [|Hm]; [tauto|].
  left. assert (Hp' := proj1 (E p n Hn) Hp). assert (Hq' := proj2 (E q m Hm) Hq).
  enough (p = q) as <- by eauto.
  destruct Hpx as [[Hp1 Hp2]|[Hp1 Hp2]], Hqx as [[Hq1 Hq2]|[Hq1 Hq2]].
  - specialize (Hp2 _ _ Hq' Hq1). specialize (Hq2 _ _ Hp' Hp1). lia.
  - specialize (Hq1 _ _ Hp'). lia.
  - specialize (Hp1 _ _ Hq'). lia.
  - specialize (Hp2 _ _ Hq'). specialize (Hq2 _ _ Hp'). lia.
Qed.

Lemma plan_apply_ne K M o r : r <> Repr (op_node o) -> plan_apply K M o !! r = M !! r.
Proof. destruct o; cbn; intros; by rewrite ?lookup_insert_ne, ?lookup_delete_ne. Qed.

Lemma pts_unless U K M h o p n : ring_ok U K M h -> ring_ok U K (plan_apply K M o) (ch_apply h o) ->
  Repr n <> Repr (op_node o) -> pts M p n <-> pts (plan_apply K M o) p n.
Proof.
  intros H1 H2 Hn. split; intros (r & k & i & Hl & Hi & ->); exists r, k, i.
  - destruct (ro_plan _ _ _ _ H1 _ _ _ Hl) as (<- & _). by rewrite plan_apply_ne.
  - destruct (ro_plan _ _ _ _ H2 _ _ _ Hl) as (<- & _). by rewrite plan_apply_ne in Hl.
Qed.

(** The ring implements consistent hashing.  After any sequence of additions and
    removals of nodes whose virtual nodes do not collide, [Get] does not panic and returns
    the node that owns the first virtual node at or after the key's hash around the ring
    of the nodes added and not removed since, with the replicas of their last addition;
    it finds nothing only if no node has a replica. *)
Theorem Get_returns_owner (U : gset string) (replicas : Z) (ops : list ch_op) (v : any) :
  let K := Z.max replicas minReplicas in
  collision_free U (Z.to_nat K) -> Forall (fun o => Repr (op_node o) ∈ U) ops ->
  let h := foldl ch_apply (NewCustomConsistentHash replicas) ops in
  let P := pts (foldl (plan_apply K) ∅ ops) in
  match Get v h with
  | None => False
  | Some None => forall p n, ~ P p n
  | Some (Some n) => owns P (hashFunc (Repr v)) n
  end.
Proof.
  intros K Hcf Hops h P. eapply Get_rel, ro_rel. apply (ring_ok_run U K ops _ _ Hcf Hops), ring_ok_new.
Qed.

(** Minimal disruption.  One more operation on a node moves only keys from or to that
    node: every other key keeps the node it had. *)
Theorem only_the_node_s_keys_move (U : gset string) (replicas : Z) (ops : list ch_op) (o : ch_op) (v : any) (a b : option any) :
  collision_free U (Z.to_nat (Z.max replicas minReplicas)) -> Forall (fun o => Repr (op_node o) ∈ U) (ops ++ [o])%list ->
  let h := foldl ch_apply (NewCustomConsistentHash replicas) ops in
  Get v h = Some a -> Get v (ch_apply h o) = Some b ->
  a = b \/ Repr <$> a = Some (Repr (op_node o)) \/ Repr <$> b = Some (Repr (op_node o)).
Proof.
  intros Hcf [Hops [Ho _]%Forall_cons]%Forall_app h Ha Hb. set (K := Z.max replicas minReplicas) in *.
  pose proof (ring_ok_run U K ops _ _ Hcf Hops (ring_ok_new U replicas)) as H1. fold h in H1.
  pose proof (ch_apply_ok U K _ _ o Hcf Ho H1) as H2. set (M := foldl (plan_apply K) ∅ ops) in *.
  pose proof (Get_rel _ _ _ v (ro_rel _ _ _ _ H1)) as Ga. pose proof (Get_rel _ _ _ v (ro_rel _ _ _ _ H2)) as Gb.
  rewrite Ha in Ga. rewrite Hb in Gb. pose proof (fun p n => pts_unless U K M h o p n H1 H2) as E.
  destruct a as [a|], b as [b|].
  - destruct (owns_unless _ _ _ _ a b E (fun p n m => rr_fun _ _ _ p n m (ro_rel _ _ _ _ H1)) Ga Gb) as [->|[<-|<-]]; auto.
  - destruct (decide (Repr a = Repr (op_node o))) as [<-|Hn]; [auto|]. destruct Ga as (p & Hp & _). exfalso. eapply Gb. by apply E in Hp.
  - destruct (decide (Repr b = Repr (op_node o))) as [<-|Hn]; [auto|]. destruct Gb as (p & Hp & _). exfalso. eapply Ga. by apply E in Hp.
  - by left.
Qed.

(** ** Without the hypothesis on collisions *)

(** Every node in the ring is a current one, at one of its positions. *)
Record ring_sound (M : plan) (h : ConsistentHash) : Prop := mk_ring_sound {
  rs_ring p ns x : ch_ring h !! p = Some ns -> x ∈ ns ->
    (exists k, M !! Repr x = Some (x, k)) /\ exists i, (i < Z.to_nat (ch_replicas h))%nat /\ p = point (Repr x) i;
  rs_nodes : ch_nodes h = dom M
}.

Lemma removeRingNode_lookup p r h q ns x :
  ch_ring (removeRingNode p r h) !! q = Some ns -> x ∈ ns ->
  exists ns', ch_ring h !! q = Some ns' /\ x ∈ ns' /\ (q = p -> Repr x <> r).
Proof.
  unfold removeRingNode. destruct (ch_ring h !! p) as [nodes|] eqn:Hp; [|intros Hq Hx; exists ns; split_and!; [done..|intros ->; congruence]].
  destruct (filter _ nodes) as [|y l] eqn:Hf; cbn.
  - rewrite lookup_delete_Some. intros [Hne Hq] Hx. exists ns. split_and!; [done..|congruence].
  - rewrite lookup_insert_Some. intros [[<- <-]|[Hne Hq]] Hx; [|exists ns; split_and!; [done..|congruence]].
    exists nodes. rewrite <- Hf in Hx. apply list_elem_of_filter in Hx as [H1 H2]. done.
Qed.

Lemma remove_replicas_lookup r m h q ns x :
  ch_ring (foldl (remove_replica r) h (seq 0 m)) !! q = Some ns -> x ∈ ns ->
  exists ns', ch_ring h !! q = Some ns' /\ x ∈ ns' /\ (Repr x = r -> forall i, (i < m)%nat -> q <> point r i).
Proof.
  revert ns. induction m as [|m IH]; intros ns.
  { cbn. intros H Hx. exists ns. split_and!; [done..|]. lia. }
  rewrite seq_S, foldl_app. cbn [foldl]. unfold remove_replica at 1. intros H Hx. destruct (removeRingNode_lookup _ _ _ _ _ _ H Hx) as (ns1 & H1 & Hx1 & Hne).
  replace (ch_ring _) with (ch_ring (foldl (remove_replica r) h (seq 0 m))) in H1 by by case_bool_decide.
  destruct (IH ns1 H1 Hx1) as (ns' & H2 & Hx2 & Hne2). exists ns'. split_and!; [done..|].
  intros Hr i Hi. destruct (decide (i = m)) as [->|]; [by intros E; apply Hne|apply Hne2; [done|lia]].
Qed.

Lemma Remove_sound M h node : ring_sound M h -> ring_sound (delete (Repr node) M) (Remove node h) /\ ch_replicas (Remove node h) = ch_replicas h.
Proof.
  intros [H1 H2]. unfold Remove, containsNode. case_bool_decide as Hc; rewrite H2 in Hc.
  - assert (Hrep := remove_replicas_same (Repr node) h (seq 0 (Z.to_nat (ch_replicas h)))).
    split; [|exact Hrep]. constructor.
    + intros p ns x Hp Hx. destruct (remove_replicas_lookup _ _ h p ns x Hp Hx) as (ns' & Hp' & Hx' & Hne).
      destruct (H1 p ns' x Hp' Hx') as [[k Hk] (i & Hi & ->)].
      change (ch_replicas (removeNode _ _)) with (ch_replicas (foldl (remove_replica (Repr node)) h (seq 0 (Z.to_nat (ch_replicas h))))).
      rewrite Hrep. split; [|eauto]. exists k. rewrite lookup_delete_ne; [done|]. intros E. symmetry in E.
      apply (Hne E i Hi). by rewrite E.
    + assert (Hn : forall l h, ch_nodes (foldl (remove_replica (Repr node)) h l) = ch_nodes h).
      { induction l as [|i l IH]; intros h'; [done|]. cbn [foldl]. rewrite IH. unfold remove_replica, removeRingNode. by repeat case_match. }
      rewrite dom_delete_L, <- H2. cbn. by rewrite Hn.
  - rewrite delete_id by (by apply not_elem_of_dom). by split; [constructor|].
Qed.

Lemma AddWithReplicas_sound M h node k :
  ring_sound M h -> ring_sound (<[Repr node := (node, Z.to_nat (Z.min k (ch_replicas h)))]> M) (AddWithReplicas node k h) /\
  ch_replicas (AddWithReplicas node k h) = ch_replicas h.
Proof.
  intros Hs. destruct (Remove_sound M h node Hs) as [[H1 H2] Hrep]. unfold AddWithReplicas. rewrite Hrep.
  replace (if ch_replicas h <? k then ch_replicas h else k) with (Z.min k (ch_replicas h)) by (destruct (Z.ltb_spec (ch_replicas h) k); lia).
  set (m := Z.to_nat (Z.min k (ch_replicas h))). assert (Hm : (m <= Z.to_nat (ch_replicas h))%nat) by lia. clearbody m.
  set (h1 := Remove node h) in *. clearbody h1.
  assert (Hloop : forall j, (j <= m)%nat -> let h' := foldl (add_replica node) (addNode (Repr node) h1) (seq 0 j) in
    ch_replicas h' = ch_replicas h /\ ch_nodes h' = {[Repr node]} ∪ ch_nodes h1 /\
    forall p ns x, ch_ring h' !! p = Some ns -> x ∈ ns ->
      (exists ns', ch_ring h1 !! p = Some ns' /\ x ∈ ns') \/ (x = node /\ exists i, (i < m)%nat /\ p = point (Repr node) i)).
  { induction j as [|j IH]; intros Hj; [cbn; split_and!; [done..|]; naive_solver|]. cbn zeta in *. rewrite seq_S, foldl_app. cbn [foldl].
    destruct IH as (A1 & A2 & A3); [lia|]. set (h' := foldl _ _ _) in *. clearbody h'. split; [exact A1|]. split; [exact A2|].
    intros p ns x. cbn. rewrite lookup_insert_Some. intros [[<- <-]|[_ Hp]] Hx; [|by eapply A3].
    apply elem_of_app in Hx as [Hx|Hx%list_elem_of_singleton]; [|right; split; [done|]; exists j; split; [lia|done]].
    destruct (ch_ring h' !! _) as [ns|] eqn:E; [by eapply A3|set_solver]. }
  destruct (Hloop m ltac:(lia)) as (A1 & A2 & A3). set (h2 := foldl _ _ _) in *. clearbody h2. split; [|exact A1]. constructor.
  - intros p ns x Hp Hx. cbn. rewrite A1. destruct (A3 p ns x Hp Hx) as [(ns' & Hp' & Hx')|[-> (i & Hi & ->)]].
    + destruct (H1 p ns' x Hp' Hx') as [[k' Hk] Hi]. rewrite Hrep in Hi. split; [|done]. exists k'.
      apply lookup_delete_Some in Hk as [Hne Hk]. by rewrite lookup_insert_ne.
    + rewrite lookup_insert_eq. split; [by eexists|]. exists i. split; [lia|done].
  - cbn. rewrite A2, H2, dom_insert_L, dom_delete_L. apply set_eq. intros r. destruct (decide (r = Repr node)); set_solver.
Qed.

Lemma ch_apply_sound M h o : ring_sound M h -> ring_sound (plan_apply (ch_replicas h) M o) (ch_apply h o) /\ ch_replicas (ch_apply h o) = ch_replicas h.
Proof.
  intros Hs. destruct o as [n|n k|n w|n]; cbn.
  - unfold Add. pose proof (AddWithReplicas_sound M h n (ch_replicas h) Hs) as H. by rewrite Z.min_id in H.
  - by apply AddWithReplicas_sound.
  - by apply AddWithReplicas_sound.
  - by apply Remove_sound.
Qed.

(** Whatever the hash function, [Get] only ever returns a node that was added and has
    not been removed or replaced since. *)
Theorem Get_returns_current_node (replicas : Z) (ops : list ch_op) (v x : any) :
  let h := foldl ch_apply (NewCustomConsistentHash replicas) ops in
  Get v h = Some (Some x) ->
  exists k, foldl (plan_apply (Z.max replicas minReplicas)) ∅ ops !! Repr x = Some (x, k).
Proof.
  intros h. set (K := Z.max replicas minReplicas). unfold h.
  assert (H : forall M h, ring_sound M h -> ch_replicas h = K -> ring_sound (foldl (plan_apply K) M ops) (foldl ch_apply h ops)).
  { induction ops as [|o ops IH]; intros M h' Hs Hk; [done|]. cbn [foldl]. destruct (ch_apply_sound M h' o Hs) as [H1 H2].
    rewrite Hk in *. by apply IH. }
  assert (H0 : ring_sound (foldl (plan_apply K) ∅ ops) (foldl ch_apply (NewCustomConsistentHash replicas) ops)).
  { apply H; [|apply (ro_replicas _ _ _ _ (ring_ok_new ∅ replicas))]. constructor; cbn; [intros ???; by rewrite lookup_empty|by rewrite dom_empty_L]. }
  clear H. fold h in H0 |- *. clearbody h. unfold Get. destruct (_ =? 0)%nat; [done|]. destruct (_ =? 0)%nat; [done|].
  destruct (ch_keys h !! _) as [p|]; cbn; [|done]. destruct (ch_ring h !! p) as [ns|] eqn:E; cbn; [|done].
  destruct ns as [|y [|z l]]; [done|intros [= <-]; by apply (rs_ring _ _ H0 _ _ _ E); left|].
  destruct ((y :: z :: l) !! _) as [w|] eqn:Hw; [|done]. intros [= <-]. by apply (rs_ring _ _ H0 _ _ _ E), (list_elem_of_lookup_2 _ _ _ Hw).
Qed.

End ring.

(** ** Concrete rings *)

(** The text itself as a number: no two texts without leading zero bytes collide. *)
Fixpoint text_hash_from (acc : N) (s : string) : N :=
  match s with
  | EmptyString => acc
  | String c s => text_hash_from (256 * acc + N_of_ascii c) s
  end.
Definition text_hash : string -> N := text_hash_from 0.

Definition plain_text (v : any) : string := Repr v.

Lemma collision_free_NoDup hashFunc (l : list string) K :
  NoDup l -> NoDup (r ← l; point hashFunc r <$> seq 0 K) -> collision_free hashFunc (list_to_set l) K.
Proof.
  intros Hl Hn r1 r2 i1 i2 H1 H2 Hi1 Hi2 E. rewrite elem_of_list_to_set in H1, H2.
  induction l as [|r l IH]; [set_solver|]. cbn in Hn. apply NoDup_app in Hn as (N1 & N2 & N3). apply NoDup_cons in Hl as [Hr Hl].
  assert (Hin : forall r i, r ∈ l -> (i < K)%nat -> point hashFunc r i ∈ (r ← l; point hashFunc r <$> seq 0 K)).
  { intros r' i Hr' Hi. apply list_elem_of_bind. exists r'. split; [|done]. apply list_elem_of_fmap. exists i. split; [done|].
    apply elem_of_seq. lia. }
  assert (Hhd : forall i, (i < K)%nat -> point hashFunc r i ∈ (point hashFunc r <$> seq 0 K)).
  { intros i Hi. apply list_elem_of_fmap. exists i. split; [done|]. apply elem_of_seq. lia. }
  apply elem_of_cons in H1 as [->|H1]; apply elem_of_cons in H2 as [->|H2].
  - split; [done|]. apply (NoDup_lookup _ i1 i2 (point hashFunc r i1)) in N1; [done|..];
      rewrite list_lookup_fmap, lookup_seq_lt by done; cbn; congruence.
  - exfalso. apply (N2 (point hashFunc r i1)); [by apply Hhd|]. rewrite E. by apply Hin.
  - exfalso. apply (N2 (point hashFunc r i2)); [by apply Hhd|]. rewrite <- E. by apply Hin.
  - by apply IH.
Qed.

Definition two_nodes : list ch_op := [OpAdd (AString "a"); OpAddWithWeight (AString "b") 50].

Lemma two_nodes_free : collision_free text_hash (list_to_set ["a"; "b"]) (Z.to_nat (Z.max 100 minReplicas)).
Proof.
  apply collision_free_NoDup; [apply (bool_decide_unpack _); vm_compute; exact I|].
  apply (bool_decide_unpack _). vm_compute. exact I.
Qed.

Lemma Get_returns_owner_witness :
  exists n, Get text_hash plain_text (AString "a5") (foldl (ch_apply text_hash) (NewCustomConsistentHash 100) two_nodes) = Some (Some n) /\
  owns (pts text_hash (foldl (plan_apply 100) ∅ two_nodes)) (text_hash "a5") n.
Proof.
  assert (Hops : Forall (fun o => Repr (op_node o) ∈ (list_to_set ["a"; "b"] : gset string)) two_nodes)
    by (repeat constructor; set_solver).
  pose proof (Get_returns_owner text_hash plain_text (list_to_set ["a"; "b"]) 100 two_nodes (AString "a5") two_nodes_free Hops) as H.
  exists (AString "a"). assert (E : Get text_hash plain_text (AString "a5") (foldl (ch_apply text_hash) (NewCustomConsistentHash 100) two_nodes) =
    Some (Some (AString "a"))) by (vm_compute; reflexivity).
  cbn zeta in H. rewrite E in H. split; [exact E|exact H].
Defined.

Lemma only_the_node_s_keys_move_witness :
  Some (AString "b") = Some (AString "a") \/ Repr <$> Some (AString "b") = Some "b" \/ Repr <$> Some (AString "a") = Some "b".
Proof.
  assert (Hops : Forall (fun o => Repr (op_node o) ∈ (list_to_set ["a"; "b"] : gset string)) (two_nodes ++ [OpRemove (AString "b")])%list)
    by (repeat constructor; set_solver).
  exact (only_the_node_s_keys_move text_hash plain_text (list_to_set ["a"; "b"]) 100 two_nodes (OpRemove (AString "b")) (AString "b7")
    (Some (AString "b")) (Some (AString "a")) two_nodes_free Hops ltac:(vm_compute; reflexivity) ltac:(vm_compute; reflexivity)).
Defined.

Lemma Get_returns_current_node_witness :
  exists k, foldl (plan_apply 100) ∅ two_nodes !! "b" = Some (AString "b", k).
Proof.
  exact (Get_returns_current_node text_hash plain_text 100 two_nodes (AString "b7") (AString "b") ltac:(vm_compute; reflexivity)).
Defined.

(** The names of nodes and the numbers of their replicas are concatenated without a
    separator, and [Remove] also looks for replicas the node never had.  Two nodes with
    a tenth of the replicas each, one of whose names extends the other's by a digit:
    removing the shorter one takes every key of the longer one off the ring, and the
    next [Get] divides by zero. *)
Theorem Remove_empties_other_node :
  let h := foldl (ch_apply text_hash) NewConsistentHash
             [OpAddWithWeight (AString "node1") 10; OpAddWithWeight (AString "node11") 10; OpRemove (AString "node1")] in
  ch_nodes h = {["node11"]} /\ ch_keys h = [] /\ size (ch_ring h) = 10%nat /\
  forall v, Get text_hash plain_text v h = None.
Proof.
  set (h := foldl _ _ _). assert (Hn : ch_nodes h = {["node11"]}) by (vm_compute; reflexivity).
  assert (Hk : ch_keys h = []) by (vm_compute; reflexivity). assert (Hr : size (ch_ring h) = 10%nat) by (vm_compute; reflexivity).
  cbn zeta. split_and!; [done..|]. intros v. unfold Get. by rewrite Hr, Hk.
Qed.
