(* ===== verification/SearchTree.v ===== *)
(** * The route tree (infra/search/tree.go)

    A node has an item and two maps of children: the literal tokens and the named ones
    (":name").  [Search] ranges over these maps, in an order Go leaves open: [order] gives
    it for every node (identified by its path), and the theorems hold for every order.  A
    route is cut at its slashes; ['/'] is one byte, so cutting bytes is cutting runes.
    A [panic] is the outer [None] of a result; [Add] mutates the tree also when it fails,
    so it returns the tree and the error. *)

From S2P Require Import Prelude GoStrings.
From Stdlib Require Import Ascii.

#[local] Open Scope string_scope.
#[local] Open Scope list_scope.

Definition slash : ascii := "/"%char.
Definition colon : ascii := ":"%char.

Inductive tree_error :=
| errDupItem | errDupSlash | errEmptyItem | errInvalidState | errNotFromRoot
| duplicatedItem (route : string) | duplicatedSlash (route : string).

Definition head_is (c : ascii) (s : string) : bool :=
  match s with String d _ => Ascii.eqb d c | EmptyString => false end.

Section tree.
Context {I : Type}.

Inductive node := Node (item : option I) (children0 children1 : gmap string node).

Definition item (n : node) : option I := let 'Node i _ _ := n in i.
Definition children (i : bool) (n : node) : gmap string node :=
  let 'Node _ c0 c1 := n in if i then c1 else c0.

Definition newNode (i : option I) : node := Node i ∅ ∅.

(** Which of the two maps a token belongs to ([getChildren]). *)
Definition getChildren (token : string) : bool := head_is colon token.

(** [children[token] = child] in the map [getChildren] selects. *)
Definition set_child (n : node) (token : string) (child : node) : node :=
  let 'Node i c0 c1 := n in
  if getChildren token then Node i c0 (<[token := child]> c1) else Node i (<[token := child]> c0) c1.

Definition get_child (n : node) (token : string) : option node := children (getChildren token) n !! token.

(** ** Adding *)

(** Every call consumes a slash, so the length of the route bounds the calls. *)
Fixpoint add_fuel (fuel : nat) (nd : node) (route : string) (it : I) : node * option tree_error :=
  match fuel with
  | O => (nd, None)
  | S fuel =>
      if (route =? "")%string then
        match item nd with
        | Some _ => (nd, Some errDupItem)
        | None => let 'Node _ c0 c1 := nd in (Node (Some it) c0 c1, None)
        end
      else if head_is slash route then (nd, Some errDupSlash)
      else
        match SplitN2 route slash with
        | (token, Some rest) =>
            match get_child nd token with
            | Some child => let '(child, err) := add_fuel fuel child rest it in (set_child nd token child, err)
            | None => let '(child, err) := add_fuel fuel (newNode None) rest it in (set_child nd token child, err)
            end
        | (token, None) =>
            match get_child nd token with
            | Some (Node (Some _) _ _) => (nd, Some errDupItem)
            | Some (Node None c0 c1) => (set_child nd token (Node (Some it) c0 c1), None)
            | None => (set_child nd token (newNode (Some it)), None)
            end
        end
  end.

Definition add (nd : node) (route : string) (it : I) : node * option tree_error :=
  add_fuel (S (String.length route)) nd route it.

Definition NewTree : node := newNode None.

(** An item is [None] when the caller passes nil. *)
Definition Add (t : node) (route : string) (it : option I) : node * option tree_error :=
  if (route =? "")%string || negb (head_is slash route) then (t, Some errNotFromRoot)
  else
    match it with
    | None => (t, Some errEmptyItem)
    | Some it =>
        let '(t, err) := add t (str_drop 1 route) it in
        (t, match err with
            | Some errDupItem => Some (duplicatedItem route)
            | Some errDupSlash => Some (duplicatedSlash route)
            | err => err
            end)
    end.

(** ** Searching *)

Record innerResult : Type := mkInner { r_key : string; r_value : string; r_named : bool; r_found : bool }.

(** Panics on an empty pattern ([pat[0]]). *)
Definition match_ (pat token : string) : option innerResult :=
  match pat with
  | EmptyString => None
  | String c key =>
      if Ascii.eqb c colon then Some (mkInner key token true true)
      else Some (mkInner "" "" false (pat =? token)%string)
  end.

Record Result : Type := mkResult { Item : I; Params : option (gmap string string) }.

Definition addParam (res : Result) (k v : string) : Result :=
  mkResult (Item res) (Some (<[k := v]> (default ∅ (Params res)))).

Context (order : list string -> list (string * node) -> list (string * node)).

(** [forEach] with a callback that returns a result: it stops at the first one. *)
Fixpoint first_result (fn : string -> node -> option (option Result)) (l : list (string * node)) : option (option Result) :=
  match l with
  | [] => Some None
  | (k, v) :: l =>
      match fn k v with
      | None => None
      | Some (Some r) => Some (Some r)
      | Some None => first_result fn l
      end
  end.

Definition forEach (path : list string) (n : node) (fn : string -> node -> option (option Result)) : option (option Result) :=
  match first_result fn (order path (map_to_list (children false n))) with
  | Some None => first_result fn (order path (map_to_list (children true n)))
  | r => r
  end.

Definition with_param (r : innerResult) (res : Result) : Result :=
  if r_named r then addParam res (r_key r) (r_value r) else res.

Fixpoint next_fuel (fuel : nat) (path : list string) (n : node) (route : string) : option (option Result) :=
  match fuel with
  | O => None
  | S fuel =>
      match (route =? "")%string, item n with
      | true, Some it => Some (Some (mkResult it None))
      | _, _ =>
          match SplitN2 route slash with
          | (token, Some rest) =>
              forEach path n (fun k v =>
                match match_ k token with
                | None => None
                | Some r =>
                    if negb (r_found r) then Some None
                    else
                      match next_fuel fuel (path ++ [k]) v rest with
                      | None => None
                      | Some None => Some None
                      | Some (Some res) => Some (Some (with_param r res))
                      end
                end)
          | (token, None) =>
              forEach path n (fun k v =>
                match match_ k token with
                | None => None
                | Some r =>
                    match r_found r, item v with
                    | true, Some it => Some (Some (with_param r (mkResult it None)))
                    | _, _ => Some None
                    end
                end)
          end
      end
  end.

Definition next (n : node) (route : string) : option (option Result) :=
  next_fuel (S (String.length route)) [] n route.

Definition Search (t : node) (route : string) : option (option Result) :=
  if (route =? "")%string || negb (head_is slash route) then Some None
  else next t (str_drop 1 route).

(** ** What a tree means: a table from patterns to items

    A pattern is a list of nonempty tokens; a trailing slash is ignored. *)

Fixpoint pattern_of (ts : list string) : option (list string) :=
  match ts with
  | [] => Some []
  | t :: ts' =>
      if (t =? "")%string then match ts' with [] => Some [] | _ => None end
      else match ts' with [] => Some [t] | _ => cons t <$> pattern_of ts' end
  end.

Fixpoint item_at (n : node) (ts : list string) : option I :=
  match ts with
  | [] => item n
  | t :: ts => get_child n t ≫= fun c => item_at c ts
  end.

(** Tokens are nonempty and in the map [getChildren] selects. *)
Inductive wf : node -> Prop :=
| wf_Node i c0 c1 :
    (forall k c, c0 !! k = Some c -> k <> "" /\ getChildren k = false /\ wf c) ->
    (forall k c, c1 !! k = Some c -> k <> "" /\ getChildren k = true /\ wf c) ->
    wf (Node i c0 c1).

Lemma wf_new i : wf (newNode i).
Proof. constructor; intros k c; by rewrite lookup_empty. Qed.

Lemma wf_children n b k c : wf n -> children b n !! k = Some c -> k <> "" /\ getChildren k = b /\ wf c.
Proof. intros [i c0 c1 H0 H1]. destruct b; cbn; eauto. Qed.

Lemma wf_get_child n t c : wf n -> get_child n t = Some c -> wf c.
Proof. intros Hn Hc. by destruct (wf_children _ _ _ _ Hn Hc) as (_ & _ & ?). Qed.

Lemma wf_set_child n t c : wf n -> wf c -> t <> "" -> wf (set_child n t c).
Proof.
  intros [i c0 c1 H0 H1] Hc Ht. cbn. destruct (getChildren t) eqn:E; constructor; try done;
    intros k c'; rewrite lookup_insert_Some; intros [[<- <-]|[_ H]]; eauto.
Qed.

Lemma wf_set_item n i : wf n -> wf (let 'Node _ c0 c1 := n in Node i c0 c1).
Proof. intros [j c0 c1 H0 H1]. by constructor. Qed.

Lemma get_set_child n t c u : get_child (set_child n t c) u = if decide (u = t) then Some c else get_child n u.
Proof.
  destruct n as [i c0 c1]. unfold get_child, set_child. destruct (decide (u = t)) as [->|Hne].
  - destruct (getChildren t) eqn:E; cbn; by rewrite lookup_insert_eq.
  - destruct (getChildren t), (getChildren u); cbn; by rewrite ?lookup_insert_ne.
Qed.

Lemma item_set_child n t c : item (set_child n t c) = item n.
Proof. destruct n. cbn. by destruct (getChildren t). Qed.

Lemma item_at_set_child n t c ts :
  item_at (set_child n t c) ts =
  match ts with u :: us => if decide (u = t) then item_at c us else item_at n ts | [] => item n end.
Proof.
  destruct ts as [|u us]; cbn; [apply item_set_child|]. rewrite get_set_child. by destruct (decide (u = t)).
Qed.

Lemma item_at_new ts : item_at (newNode None) ts = None.
Proof. destruct ts as [|t ts]; [done|]. cbn. unfold get_child, children, newNode. destruct (getChildren t); by rewrite lookup_empty. Qed.

(** What [add] does to the table. *)
Definition add_effect (n n' : node) (err : option tree_error) (pat : option (list string)) (it : I) : Prop :=
  match pat with
  | None => err = Some errDupSlash /\ forall ts, item_at n' ts = item_at n ts
  | Some p =>
      match item_at n p with
      | Some _ => err = Some errDupItem /\ forall ts, item_at n' ts = item_at n ts
      | None => err = None /\ forall ts, item_at n' ts = if decide (ts = p) then Some it else item_at n ts
      end
  end.

Lemma add_effect_child n c c' t err pat it :
  item_at c = item_at (default (newNode None) (get_child n t)) ->
  add_effect c c' err pat it -> add_effect n (set_child n t c') err (cons t <$> pat) it.
Proof.
  intros Hc He. assert (Hat : forall us, item_at n (t :: us) = item_at c us).
  { intros us. rewrite Hc. cbn. destruct (get_child n t); [done|]. cbn. by rewrite item_at_new. }
  destruct pat as [p|]; cbn [fmap option_fmap option_map add_effect] in *.
  - rewrite Hat. destruct (item_at c p) as [i|]; destruct He as [-> He]; (split; [done|]); intros [|u us]; rewrite item_at_set_child; try done.
    + destruct (decide (u = t)) as [->|]; [|done]. by rewrite He.
    + destruct (decide (u = t)) as [->|Hne]; [|rewrite decide_False by congruence; done].
      rewrite He, Hat. destruct (decide (us = p)) as [->|]; [by rewrite decide_True|]. by rewrite decide_False by congruence.
  - destruct He as [-> He]. split; [done|]. intros [|u us]; rewrite item_at_set_child; [done|].
    destruct (decide (u = t)) as [->|]; [|done]. by rewrite He.
Qed.

Lemma SplitN2_rest s c t rest : SplitN2 s c = (t, Some rest) -> (String.length rest < String.length s)%nat.
Proof.
  unfold SplitN2. destruct (IndexByte s c) as [i|] eqn:E; [|done]. intros [= _ <-].
  destruct s as [|d s]; [done|]. cbn [str_drop String.length]. pose proof (str_drop_length i s). lia.
Qed.

Lemma head_is_split route t rest : head_is slash route = false -> route <> "" -> SplitN2 route slash = (t, rest) -> t <> "".
Proof.
  destruct route as [|c s]; [done|]. cbn [head_is]. intros Hc _. unfold SplitN2. cbn [IndexByte]. rewrite Hc.
  destruct (IndexByte s slash); cbn; by intros [= <- _].
Qed.

Lemma add_fuel_spec fuel n route it :
  (String.length route < fuel)%nat -> wf n ->
  let '(n', err) := add_fuel fuel n route it in
  wf n' /\ add_effect n n' err (pattern_of (Split route slash)) it.
Proof.
  revert n route. induction fuel as [|fuel IH]; intros n route Hf Hn; [lia|]. cbn [add_fuel].
  destruct (String.eqb_spec route "") as [->|Hne].
  { cbn. destruct n as [[i|] c0 c1]; cbn; [done|]. split; [exact (wf_set_item (Node None c0 c1) (Some it) Hn)|]. split; [done|].
    intros [|t ts]; [done|]. by rewrite decide_False. }
  destruct (head_is slash route) eqn:Hh.
  { split; [done|]. destruct route as [|c s]; [done|]. cbn in Hh |- *. rewrite Hh. cbn. destruct (Split s slash) eqn:E; [by apply Split_nil in E|done]. }
  rewrite Split_SplitN2. destruct (SplitN2 route slash) as [t [rest|]] eqn:E; pose proof (head_is_split _ _ _ Hh Hne E) as Ht.
  - apply SplitN2_rest in E as Hlen. cbn [pattern_of]. destruct (String.eqb_spec t "") as [|_]; [done|].
    pose proof (IH (default (newNode None) (get_child n t)) rest ltac:(lia)) as H.
    assert (Hwfc : wf (default (newNode None) (get_child n t))).
    { destruct (get_child n t) eqn:Ec; [by eapply wf_get_child|apply wf_new]. }
    specialize (H Hwfc). destruct (Split rest slash) as [|u us] eqn:Es; [by apply Split_nil in Es|]. rewrite <- Es in *.
    destruct (get_child n t) as [c|] eqn:Ec; cbn [default] in *; destruct (add_fuel fuel _ rest it) as [c' err];
      (destruct H as [H1 H2]; split; [by apply wf_set_child|]; eapply add_effect_child, H2; by rewrite Ec).
  - cbn [pattern_of]. destruct (String.eqb_spec t "") as [|_]; [done|].
    assert (Hone : forall c, item_at c = item_at (default (newNode None) (get_child n t)) -> item c = None ->
      forall c', (forall ts, item_at c' ts = match ts with [] => Some it | _ => item_at c ts end) ->
      add_effect n (set_child n t c') None (Some [t]) it).
    { intros c Hc Hi c' Hc'. apply (add_effect_child n c c' t None (Some []) it Hc). cbn. rewrite Hi. split; [done|]. intros ts. rewrite Hc'. by destruct ts. }
    destruct (get_child n t) as [[[i|] c0 c1]|] eqn:Ec; cbn [default] in *.
    + split; [done|]. cbn. rewrite Ec. done.
    + apply wf_get_child in Ec as Hwfc; [|done]. split; [apply wf_set_child; [done|exact (wf_set_item (Node None c0 c1) (Some it) Hwfc)|done]|].
      apply (Hone (Node None c0 c1)); [done..|]. by intros [|? ?].
    + split; [apply wf_set_child; [done|apply wf_new|done]|]. apply (Hone (newNode None)); [done..|]. by intros [|? ?].
Qed.

(** ** Which routes a pattern matches *)

Definition tok_match (t s : string) : Prop := getChildren t = true \/ t = s.

(** The tokens [ts] of a pattern against the tokens [ss] of a route: one to one, except
    that an empty last token may be left over (a trailing slash). *)
Fixpoint matches (ts ss : list string) : Prop :=
  match ts, ss with
  | [], [s] => s = ""
  | t :: ts, s :: ss => tok_match t s /\ match ss with [] => ts = [] | _ => matches ts ss end
  | _, _ => False
  end.

(** The parameters: the outermost of two with the same name wins. *)
Fixpoint params (ts ss : list string) : option (gmap string string) :=
  match ts, ss with
  | t :: ts, s :: ss =>
      let ps := params ts ss in
      if getChildren t then Some (<[str_drop 1 t := s]> (default ∅ ps)) else ps
  | _, _ => None
  end.

Definition literal_first (ts : list string) : Prop := match ts with t :: _ => getChildren t = false | [] => True end.

(** [ts] is a match for [ss] in the table [T] that takes literal tokens when it can. *)
Record best_match (T : list string -> option I) (ss ts : list string) (res : Result) : Prop := mk_best {
  bm_item : T ts = Some (Item res);
  bm_matches : matches ts ss;
  bm_params : Params res = params ts ss;
  bm_literal pre t post us : ts = pre ++ t :: post -> getChildren t = true -> literal_first us ->
    matches (pre ++ us) ss -> T (pre ++ us) = None
}.

Definition search_spec (T : list string -> option I) (ss : list string) (r : option (option Result)) : Prop :=
  match r with
  | None => False
  | Some None => forall ts, matches ts ss -> T ts = None
  | Some (Some res) => exists ts, best_match T ss ts res
  end.

Context (order_perm : forall path l, order path l ≡ₚ l).

Lemma first_result_spec fn l :
  match first_result fn l with
  | None => exists k v, (k, v) ∈ l /\ fn k v = None
  | Some None => forall k v, (k, v) ∈ l -> fn k v = Some None
  | Some (Some r) => exists k v, (k, v) ∈ l /\ fn k v = Some (Some r)
  end.
Proof.
  induction l as [|[k v] l IH]; cbn; [set_solver|]. destruct (fn k v) as [[r|]|] eqn:E.
  - exists k, v. split; [set_solver|done].
  - destruct (first_result fn l) as [[r|]|].
    + destruct IH as (k' & v' & ? & ?). exists k', v'. split; [set_solver|done].
    + intros k' v' [[= -> ->]|H]%elem_of_cons; [done|by apply IH].
    + destruct IH as (k' & v' & ? & ?). exists k', v'. split; [set_solver|done].
  - exists k, v. split; [set_solver|done].
Qed.

Lemma forEach_spec path n fn :
  match forEach path n fn with
  | None => exists b k v, children b n !! k = Some v /\ fn k v = None
  | Some None => forall b k v, children b n !! k = Some v -> fn k v = Some None
  | Some (Some r) => exists b k v, children b n !! k = Some v /\ fn k v = Some (Some r) /\
      (b = true -> forall k v, children false n !! k = Some v -> fn k v = Some None)
  end.
Proof.
  unfold forEach. pose proof (first_result_spec fn (order path (map_to_list (children false n)))) as H0.
  pose proof (first_result_spec fn (order path (map_to_list (children true n)))) as H1.
  set (r1 := first_result fn (order path (map_to_list (children true n)))) in *. clearbody r1.
  set (r0 := first_result fn (order path (map_to_list (children false n)))) in *. clearbody r0.
  assert (Hin : forall b k v, (k, v) ∈ order path (map_to_list (children b n)) <-> children b n !! k = Some v)
    by (intros; rewrite order_perm; apply elem_of_map_to_list).
  destruct r0 as [[r|]|]; [|destruct r1 as [[r|]|]|].
  - destruct H0 as (k & v & H%Hin & E). by exists false, k, v.
  - destruct H1 as (k & v & H%Hin & E). exists true, k, v. split_and!; [done..|]. intros _ k' v' H'. by apply H0, Hin.
  - intros [] k v H; [apply H1|apply H0]; by apply Hin.
  - destruct H1 as (k & v & H%Hin & E). by exists true, k, v.
  - destruct H0 as (k & v & H%Hin & E). by exists false, k, v.
Qed.

Lemma match_spec k s : k <> "" ->
  exists r, match_ k s = Some r /\ (r_found r = true <-> tok_match k s) /\ r_named r = getChildren k /\
    (getChildren k = true -> r_key r = str_drop 1 k /\ r_value r = s).
Proof.
  destruct k as [|c key]; [done|]. intros _. unfold match_, tok_match, getChildren. cbn [head_is].
  destruct (Ascii.eqb_spec c colon) as [->|Hc].
  - eexists. split; [done|]. cbn. split; [tauto|]. split; [done|]. intros _. by destruct key.
  - eexists. split; [done|]. cbn [r_found r_named r_key r_value]. split; [|done].
    rewrite String.eqb_eq. naive_solver.
Qed.

Lemma with_param_spec r res k s ts ss :
  r_named r = getChildren k -> (getChildren k = true -> r_key r = str_drop 1 k /\ r_value r = s) ->
  Params res = params ts ss -> Params (with_param r res) = params (k :: ts) (s :: ss).
Proof. intros H1 H2 H3. unfold with_param. cbn [params]. rewrite H1. destruct (getChildren k); [|done]. destruct H2 as [-> ->]; [done|]. cbn. by rewrite H3. Qed.

Lemma with_param_item r res : Item (with_param r res) = Item res.
Proof. unfold with_param. by destruct (r_named r). Qed.

(** One level of the search: the answers of the children that match the first token. *)
Lemma search_level n s ss path fn :
  wf n -> (ss = [] -> s = "" -> item n = None) ->
  (forall b k v, children b n !! k = Some v ->
     match fn k v with
     | None => False
     | Some None => ~ tok_match k s \/ forall ts, match ss with [] => ts = [] | _ => matches ts ss end -> item_at v ts = None
     | Some (Some res) => tok_match k s /\ exists ts res',
         match ss with [] => ts = [] /\ item v = Some (Item res') /\ Params res' = None | _ => best_match (item_at v) ss ts res' end /\
         Item res = Item res' /\ Params res = params (k :: ts) (s :: ss)
     end) ->
  search_spec (item_at n) (s :: ss) (forEach path n fn).
Proof.
  intros Hn Hhere Hfn. pose proof (forEach_spec path n fn) as He. unfold search_spec.
  assert (Hno : forall us, (forall b k v, children b n !! k = Some v -> head us = Some k -> fn k v = Some None) ->
    matches us (s :: ss) -> item_at n us = None).
  { intros us Hall Hm. destruct us as [|u us]; [cbn in *; destruct ss; [by apply Hhere|done]|]. destruct Hm as [Ht Hm]. cbn.
    destruct (get_child n u) as [v|] eqn:Ec; [|done]. cbn. specialize (Hall _ _ _ Ec eq_refl).
    specialize (Hfn _ _ _ Ec). rewrite Hall in Hfn. destruct Hfn as [|Hv]; [done|]. by apply Hv. }
  destruct (forEach path n fn) as [[res|]|].
  - destruct He as (b & k & v & Hk & E & Hlit). pose proof (wf_children _ _ _ _ Hn Hk) as (Hne & Hb & Hv).
    specialize (Hfn _ _ _ Hk) as Hfk. rewrite E in Hfk. destruct Hfk as (Ht & ts & res' & Hts & Hi & Hp).
    assert (Hck : get_child n k = Some v) by (unfold get_child; by rewrite Hb).
    exists (k :: ts). constructor.
    + cbn. rewrite Hck. cbn. rewrite Hi. destruct ss; [by destruct Hts as (-> & ? & _)|by destruct Hts].
    + cbn. split; [done|]. destruct ss; [by destruct Hts|by destruct Hts].
    + done.
    + intros [|u pre] t post us Eq Hnamed Hus Hm; injection Eq as <- Eq.
      * cbn in Hm |- *. apply Hno; [|done]. intros b' k' v' Hk' Hhd. destruct us as [|u us]; [done|].
        injection Hhd as ->. cbn in Hus. pose proof (wf_children _ _ _ _ Hn Hk') as (_ & Hb' & _). subst b' b.
        apply Hlit; [done|]. by rewrite Hus in Hk'.
      * cbn. rewrite Hck. cbn. destruct Hm as [_ Hm]. destruct ss as [|s' ss].
        -- destruct Hts as (-> & _). by destruct pre.
        -- by eapply (bm_literal _ _ _ _ Hts).
  - intros ts Hm. apply Hno; [|done]. intros b k v Hk _. by eapply He.
  - destruct He as (b & k & v & Hk & E). specialize (Hfn _ _ _ Hk). by rewrite E in Hfn.
Qed.

(** The callbacks of [next]: below a slash, and at the last token. *)
Lemma search_child r k s v rest (o : option (option Result)) (ss := Split rest slash) :
  (r_found r = true <-> tok_match k s) -> r_named r = getChildren k ->
  (getChildren k = true -> r_key r = str_drop 1 k /\ r_value r = s) ->
  search_spec (item_at v) ss o ->
  match (if negb (r_found r) then Some None
         else match o with None => None | Some None => Some None | Some (Some res) => Some (Some (with_param r res)) end) with
  | None => False
  | Some None => ~ tok_match k s \/ forall ts, match ss with [] => ts = [] | _ => matches ts ss end -> item_at v ts = None
  | Some (Some res) => tok_match k s /\ exists ts res',
      match ss with [] => ts = [] /\ item v = Some (Item res') /\ Params res' = None | _ => best_match (item_at v) ss ts res' end /\
      Item res = Item res' /\ Params res = params (k :: ts) (s :: ss)
  end.
Proof.
  intros Hfound Hnamed Hkey Ho. destruct (r_found r) eqn:Ef; cbn [negb]; [|left; intros H%Hfound; congruence].
  assert (Hss : ss <> []) by apply Split_nil. destruct ss as [|s' ss']; [done|]. clear Hss.
  destruct o as [[res|]|]; cbn in Ho; [|by right|done]. destruct Ho as [ts Hb].
  split; [by apply Hfound|]. exists ts, res. split; [done|]. split; [apply with_param_item|].
  apply with_param_spec; [done..|]. by apply (bm_params _ _ _ _ Hb).
Qed.

Lemma search_leaf r k s v :
  (r_found r = true <-> tok_match k s) -> r_named r = getChildren k ->
  (getChildren k = true -> r_key r = str_drop 1 k /\ r_value r = s) ->
  match (match r_found r, item v with true, Some it => Some (Some (with_param r (mkResult it None))) | _, _ => Some None end) with
  | None => False
  | Some None => ~ tok_match k s \/ forall ts, ts = [] -> item_at v ts = None
  | Some (Some res) => tok_match k s /\ exists ts res',
      (ts = [] /\ item v = Some (Item res') /\ Params res' = None) /\
      Item res = Item res' /\ Params res = params (k :: ts) [s]
  end.
Proof.
  intros Hfound Hnamed Hkey. destruct (r_found r); [|left; intros H%Hfound; congruence].
  destruct (item v) as [it|] eqn:Ei; [|right; by intros ts ->]. split; [by apply Hfound|]. exists [], (mkResult it None).
  split; [done|]. split; [apply with_param_item|]. by apply (with_param_spec r _ k s [] []).
Qed.

Lemma next_fuel_spec fuel path n route :
  (String.length route < fuel)%nat -> wf n ->
  search_spec (item_at n) (Split route slash) (next_fuel fuel path n route).
Proof.
  revert path n route. induction fuel as [|fuel IH]; intros path n route Hf Hn; [lia|]. cbn [next_fuel].
  destruct (String.eqb_spec route "") as [E0|E0]; [destruct (item n) as [i|] eqn:Hi|].
  { subst route. exists []. constructor; [done..|]. intros [|? ?] ? ? ?; discriminate. }
  all: assert (Hhere : route = "" -> item n = None) by done; clear E0.
  all: rewrite Split_SplitN2; destruct (SplitN2 route slash) as [s [rest|]] eqn:E.
  all: apply search_level; [done|try (intros Hnil; by apply Split_nil in Hnil)|].
  all: try (intros _ ->; apply Hhere; revert E; unfold SplitN2; destruct (IndexByte route slash); congruence).
  all: intros b k v Hk; destruct (wf_children _ _ _ _ Hn Hk) as (Hne & _ & Hv);
    destruct (match_spec k s Hne) as (r & -> & Hfound & Hnamed & Hkey).
  2, 4: by apply search_leaf.
  all: apply SplitN2_rest in E; apply search_child; [done..|]; apply IH; [lia|done].
Qed.

(** ** Refinement of a table *)

Definition tbl_Add (T : gmap (list string) I) (route : string) (it : option I) : gmap (list string) I * option tree_error :=
  if negb (head_is slash route) then (T, Some errNotFromRoot)
  else
    match it, pattern_of (Split (str_drop 1 route) slash) with
    | None, _ => (T, Some errEmptyItem)
    | Some _, None => (T, Some (duplicatedSlash route))
    | Some it, Some p =>
        match T !! p with
        | Some _ => (T, Some (duplicatedItem route))
        | None => (<[p := it]> T, None)
        end
    end.

Definition tree_table (t : node) (T : gmap (list string) I) : Prop := wf t /\ forall ts, item_at t ts = T !! ts.

Lemma Add_refines t T route it :
  tree_table t T -> (Add t route it).2 = (tbl_Add T route it).2 /\ tree_table (Add t route it).1 (tbl_Add T route it).1.
Proof.
  intros [Hwf HT]. unfold Add, tbl_Add.
  replace ((route =? "")%string || negb (head_is slash route)) with (negb (head_is slash route)) by (by destruct route).
  destruct (negb (head_is slash route)); [done|]. destruct it as [it|]; [|done].
  set (r := str_drop 1 route). pose proof (add_fuel_spec (S (String.length r)) t r it ltac:(lia) Hwf) as H.
  unfold add. destruct (add_fuel _ t r it) as [t' err]. destruct H as [Hwf' He]. unfold add_effect in He. cbn [fst snd].
  destruct (pattern_of (Split r slash)) as [p|]; [|destruct He as [-> He]; split; [done|]; split; [done|]; intros; by rewrite He].
  rewrite <- HT. destruct (item_at t p); destruct He as [-> He]; (split; [done|]); (split; [done|]); intros ts; rewrite He; [done|]. cbn [fst].
  destruct (decide (ts = p)) as [->|]; [by rewrite lookup_insert_eq|by rewrite lookup_insert_ne].
Qed.

Definition tree_adds (adds : list (string * option I)) : node := foldl (fun t a => (Add t a.1 a.2).1) NewTree adds.
Definition table_adds (adds : list (string * option I)) : gmap (list string) I := foldl (fun T a => (tbl_Add T a.1 a.2).1) ∅ adds.

Lemma tree_table_adds adds : tree_table (tree_adds adds) (table_adds adds).
Proof.
  unfold tree_adds, table_adds. assert (H : tree_table NewTree ∅) by (split; [apply wf_new|intros; by rewrite item_at_new]).
  revert H. generalize NewTree (∅ : gmap (list string) I). induction adds as [|a adds IH]; intros t T H; [done|]. cbn [foldl].
  by apply IH, Add_refines.
Qed.

Lemma search_spec_ext (T U : list string -> option I) ss r : (forall ts, T ts = U ts) -> search_spec T ss r -> search_spec U ss r.
Proof.
  intros E. destruct r as [[res|]|]; cbn; [|by intros H ts Hm; rewrite <- E; apply H|done].
  intros [ts [H1 H2 H3 H4]]. exists ts. constructor; [by rewrite <- E|done..|]. intros. rewrite <- E. eauto.
Qed.

Lemma Search_table t T route : tree_table t T -> head_is slash route = true ->
  search_spec (fun ts => T !! ts) (Split (str_drop 1 route) slash) (Search t route).
Proof.
  intros [Hwf HT] Hh. unfold Search. replace ((route =? "")%string || negb (head_is slash route)) with false by (destruct route; [done|by rewrite Hh]).
  eapply search_spec_ext; [exact HT|]. apply next_fuel_spec; [lia|done].
Qed.

(** C25: the tree implements a table from patterns to items.  After any sequence of
    additions, failed ones included, the next addition fails exactly when the table
    refuses it (not from the root, nil item, an empty token, a taken pattern), with the
    same error; and a search, whatever the order in which Go ranges over the maps, does
    not panic, finds an item iff some pattern in the table matches, and then returns one
    that takes literal tokens wherever it can, with the parameters read off the route. *)
Theorem tree_refines_table (adds : list (string * option I)) (route : string) (it : option I) :
  (Add (tree_adds adds) route it).2 = (tbl_Add (table_adds adds) route it).2 /\
  if head_is slash route
  then search_spec (fun ts => table_adds adds !! ts) (Split (str_drop 1 route) slash) (Search (tree_adds adds) route)
  else Search (tree_adds adds) route = Some None.
Proof.
  pose proof (tree_table_adds adds) as H. split; [by apply Add_refines|]. destruct (head_is slash route) eqn:Hh.
  - by apply Search_table.
  - unfold Search. rewrite Hh. by rewrite orb_true_r.
Qed.

Lemma item_at_tokens n ts i : wf n -> item_at n ts = Some i -> Forall (fun t => t <> "") ts.
Proof.
  revert n. induction ts as [|t ts IH]; intros n Hn; [constructor|]. cbn. destruct (get_child n t) as [c|] eqn:E; [|done]. cbn. intros H.
  destruct (wf_children _ _ _ _ Hn E) as (Hne & _ & Hc). constructor; [done|by eapply IH].
Qed.

(** A pattern of literal tokens is the best match for its own tokens. *)
Lemma literal_is_best (T : list string -> option I) ss p it ts :
  Forall (fun t => getChildren t = false) p -> Forall (fun t => t <> "") p -> Forall (fun t => t <> "") ts ->
  matches p ss -> matches ts ss -> T p = Some it ->
  (forall pre t post us, ts = pre ++ t :: post -> getChildren t = true -> literal_first us -> matches (pre ++ us) ss -> T (pre ++ us) = None) ->
  ts = p.
Proof.
  revert T p ts. induction ss as [|s ss IH]; intros T p ts Hlit Hpne Htne Hm Hts Hp Hbest; [by destruct p|].
  assert (Hp1 : literal_first p) by (by destruct Hlit).
  destruct Htne as [|t ts Ht0 Htne].
  { destruct Hlit as [|u p Hu _]; [done|]. apply Forall_cons in Hpne as [Hne _]. cbn in Hts. destruct ss; [|done].
    subst s. destruct Hm as [[Hu'|Hu'] _]; congruence. }
  destruct (getChildren t) eqn:Ht; [by rewrite <- (app_nil_l p), (Hbest [] t ts p) in Hp|].
  destruct Hts as [[Ht'|<-] Hts]; [congruence|]. destruct Hlit as [|u p Hu Hlit].
  { cbn in Hm. by destruct ss. }
  destruct Hm as [[Hu'| ->] Hm]; [congruence|]. apply Forall_cons in Hpne as [_ Hpne]. f_equal. destruct ss as [|s' ss]; [congruence|].
  apply (IH (fun us => T (t :: us))); try done. intros pre t' post us -> Ht' Hus Hm'. apply (Hbest (t :: pre) t' post us); try done.
  split; [by right|done].
Qed.

Lemma params_literal ts ss : Forall (fun t => getChildren t = false) ts -> params ts ss = None.
Proof. intros H. revert ss. induction H as [|t ts Ht _ IH]; intros [|s ss]; [done..|]. cbn. by rewrite Ht, IH. Qed.

Lemma pattern_matches ss p : pattern_of ss = Some p -> ss <> [] -> matches p ss /\ Forall (fun t => t <> "") p.
Proof.
  revert p. induction ss as [|s ss IH]; intros p; [done|]. cbn [pattern_of]. destruct (String.eqb_spec s "") as [->|Hs].
  - destruct ss; [|done]. intros [= <-] _. by repeat constructor.
  - destruct ss as [|s' ss]; [intros [= <-] _; split; [by split; [right|]|by repeat constructor]|].
    destruct (pattern_of (s' :: ss)) as [q|]; [|done]. intros [= <-] _. destruct (IH q eq_refl ltac:(done)) as [H1 H2].
    split; [by split; [right|]|by constructor].
Qed.

Lemma table_adds_grows adds adds' p it : table_adds adds !! p = Some it -> table_adds (adds ++ adds') !! p = Some it.
Proof.
  unfold table_adds. rewrite foldl_app. generalize (foldl (fun T a => (tbl_Add T a.1 a.2).1) ∅ adds).
  induction adds' as [|a adds' IH]; intros T H; [done|]. cbn [foldl]. apply IH. unfold tbl_Add.
  destruct (negb _); [done|]. destruct a.2 as [i|]; [|done]. destruct (pattern_of _) as [q|]; [|done].
  destruct (T !! q) eqn:E; [done|]. cbn. rewrite lookup_insert_ne; [done|congruence].
Qed.

(** Adding and searching round-trip.  A route without parameters that was added without
    an error is found again under the same text, with its item and no parameters,
    whatever was added before and after it, and in every iteration order. *)
Theorem literal_route_found (before after : list (string * option I)) (route : string) (it : I) :
  (Add (tree_adds before) route (Some it)).2 = None ->
  Forall (fun t => getChildren t = false) (Split (str_drop 1 route) slash) ->
  Search (tree_adds (before ++ (route, Some it) :: after)) route = Some (Some (mkResult it None)).
Proof.
  intros Hok Hlit. set (adds := before ++ _). pose proof (tree_table_adds before) as H1.
  destruct (Add_refines _ _ route (Some it) H1) as [E _]. rewrite Hok in E. unfold tbl_Add in E.
  destruct (head_is slash route) eqn:Hh; [|done]. cbn [negb] in E. destruct (pattern_of _) as [p|] eqn:Ep; [|done].
  destruct (table_adds before !! p) as [?|] eqn:Eb; [done|]. clear E.
  assert (Hp : table_adds adds !! p = Some it).
  { unfold adds. replace (before ++ (route, Some it) :: after) with ((before ++ [(route, Some it)]) ++ after) by by rewrite <- (assoc_L app).
    apply table_adds_grows. unfold table_adds. rewrite foldl_app. cbn [foldl fst snd]. fold (table_adds before). unfold tbl_Add. rewrite Hh, Ep, Eb.
    apply lookup_insert_eq. }
  destruct (pattern_matches _ _ Ep (Split_nil _ _)) as [Hm Hne].
  pose proof (tree_table_adds adds) as [Hwf HT]. pose proof (Search_table _ _ route (conj Hwf HT) Hh) as HS.
  assert (Hlitp : Forall (fun t => getChildren t = false) p).
  { clear -Ep Hlit. revert p Ep. induction Hlit as [|s ss Hs _ IH]; intros p; [by intros [= <-]|]. cbn [pattern_of].
    destruct (s =? "")%string; [destruct ss; [by intros [= <-]|done]|]. destruct ss; [intros [= <-]; by repeat constructor|].
    destruct (pattern_of _) as [q|]; [|done]. intros [= <-]. constructor; [done|by apply IH]. }
  destruct (Search (tree_adds adds) route) as [[res|]|]; [|by rewrite HS in Hp|done]. destruct HS as [ts Hbest].
  assert (ts = p) as ->.
  { destruct Hbest as [B1 B2 B3 B4]. eapply (literal_is_best (fun ts => table_adds adds !! ts)); try done. eapply item_at_tokens; [done|]. by rewrite HT. }
  destruct Hbest as [B1 _ B3 _]. rewrite params_literal in B3 by done. destruct res as [i ps]. cbn in *. congruence.
Qed.

End tree.

(** ** A concrete table, searched in the order of the maps *)

Definition some_routes : list (string * option nat) :=
  [("/users/:id", Some 1%nat); ("/users/me", Some 2%nat); ("/users//x", Some 3%nat); ("/:kind/list/", Some 4%nat); ("/users/me/", Some 5%nat)].

Definition map_order (path : list string) (l : list (string * node (I:=nat))) : list (string * node) := l.

Lemma tree_refines_table_witness :
  (Add (tree_adds some_routes) "/users/me" (Some 6%nat)).2 = Some (duplicatedItem "/users/me") /\
  search_spec (fun ts => table_adds some_routes !! ts) ["users"; "7"] (Search map_order (tree_adds some_routes) "/users/7") /\
  Search map_order (tree_adds some_routes) "/users/7" = Some (Some (mkResult 1%nat (Some {["id" := "7"]}))).
Proof.
  assert (Hp : forall path l, map_order path l ≡ₚ l) by (intros; reflexivity).
  split; [|split; [|vm_compute; reflexivity]].
  - rewrite (proj1 (tree_refines_table map_order Hp some_routes "/users/me" (Some 6%nat))). vm_compute. reflexivity.
  - exact (proj2 (tree_refines_table map_order Hp some_routes "/users/7" None)).
Defined.

Lemma literal_route_found_witness :
  Search map_order (tree_adds some_routes) "/users/me" = Some (Some (mkResult 2%nat None)).
Proof.
  exact (literal_route_found map_order (fun _ _ => reflexivity _) (take 1 some_routes) (drop 2 some_routes) "/users/me" 2%nat
    ltac:(vm_compute; reflexivity) ltac:(by repeat constructor)).
Defined.
