(* ===== verification/ConfigTypes.v ===== *)
(** * Configuration data (runtime/config.go, infra/logx/config.go)

    The structs a service configuration is decoded into, one record per struct with
    the source's field names behind the struct's name.  A pointer is an [option], a
    slice a [list], a map a [gmap]; [int], [int32], [int64] and [uint32] are integers,
    since the configuration code only compares and copies them.  Every struct has its
    zero value ([zero]), the value of [var cfg ServiceConfig] before decoding. *)

From S2P Require Import Prelude Float64.

(** Go zero values. *)
Class Zero (A : Type) := zero : A.
#[export] Instance zero_string : Zero string := EmptyString.
#[export] Instance zero_bool : Zero bool := false.
#[export] Instance zero_Z : Zero Z := 0.
#[export] Instance zero_float64 : Zero float64 := S754_zero false.
#[export] Instance zero_option {A} : Zero (option A) := None.
#[export] Instance zero_list {A} : Zero (list A) := [].
#[export] Instance zero_gmap {A} : Zero (gmap string A) := (∅ : gmap string A).

(** infra/logx/config.go: [fieldKeyConf] *)
Record fieldKeyConf : Type := mkfieldKeyConf {
  fieldKeyConf_CallerKey : string;
  fieldKeyConf_ContentKey : string;
  fieldKeyConf_DurationKey : string;
  fieldKeyConf_LevelKey : string;
  fieldKeyConf_SpanKey : string;
  fieldKeyConf_TimestampKey : string;
  fieldKeyConf_TraceKey : string;
  fieldKeyConf_TruncatedKey : string
}.
#[export] Instance zero_fieldKeyConf : Zero fieldKeyConf :=
  mkfieldKeyConf zero zero zero zero zero zero zero zero.

(** infra/logx/config.go: [LogConf] *)
Record LogConf : Type := mkLogConf {
  LogConf_ServiceName : string;
  LogConf_Mode : string;
  LogConf_Encoding : string;
  LogConf_TimeFormat : string;
  LogConf_Path : string;
  LogConf_Level : string;
  LogConf_MaxContentLength : Z;
  LogConf_Compress : bool;
  LogConf_Stat : bool;
  LogConf_KeepDays : Z;
  LogConf_StackCooldownMillis : Z;
  LogConf_MaxBackups : Z;
  LogConf_MaxSize : Z;
  LogConf_Rotation : string;
  LogConf_FileTimeFormat : string;
  LogConf_FieldKeys : fieldKeyConf
}.
#[export] Instance zero_LogConf : Zero LogConf :=
  mkLogConf zero zero zero zero zero zero zero zero zero zero zero zero zero zero zero zero.

(** runtime/config.go: [DeployConfig] *)
Record DeployConfig : Type := mkDeployConfig {
  DeployConfig_Target : string
}.
#[export] Instance zero_DeployConfig : Zero DeployConfig :=
  mkDeployConfig zero.

(** runtime/config.go: [PrometheusConfig] *)
Record PrometheusConfig : Type := mkPrometheusConfig {
  PrometheusConfig_Enabled : bool;
  PrometheusConfig_Host : string;
  PrometheusConfig_Port : Z;
  PrometheusConfig_Path : string
}.
#[export] Instance zero_PrometheusConfig : Zero PrometheusConfig :=
  mkPrometheusConfig zero zero zero zero.

(** runtime/config.go: [OryConf] *)
Record OryConf : Type := mkOryConf {
  OryConf_RoleNamespace : string;
  OryConf_RoleRelation : string;
  OryConf_PermissionRelation : string
}.
#[export] Instance zero_OryConf : Zero OryConf :=
  mkOryConf zero zero zero.

(** runtime/config.go: [OAuthConf] *)
Record OAuthConf : Type := mkOAuthConf {
  OAuthConf_IntrospectionURL : string;
  OAuthConf_ClientID : string;
  OAuthConf_ClientSecret : string;
  OAuthConf_CacheTTL : string
}.
#[export] Instance zero_OAuthConf : Zero OAuthConf :=
  mkOAuthConf zero zero zero zero.

(** runtime/config.go: [SessionConf] *)
Record SessionConf : Type := mkSessionConf {
  SessionConf_Cookie : string;
  SessionConf_Store : string;
  SessionConf_TTL : string
}.
#[export] Instance zero_SessionConf : Zero SessionConf :=
  mkSessionConf zero zero zero.

(** runtime/config.go: [RefreshConfig] *)
Record RefreshConfig : Type := mkRefreshConfig {
  RefreshConfig_Enabled : bool;
  RefreshConfig_TTL : Z;
  RefreshConfig_Endpoint : string;
  RefreshConfig_Secret : string;
  RefreshConfig_ZitadelTokenURL : string;
  RefreshConfig_ZitadelClientID : string;
  RefreshConfig_KratosRefreshURL : string
}.
#[export] Instance zero_RefreshConfig : Zero RefreshConfig :=
  mkRefreshConfig zero zero zero zero zero zero zero.

(** runtime/config.go: [AuthCookieConfig] *)
Record AuthCookieConfig : Type := mkAuthCookieConfig {
  AuthCookieConfig_AccessTokenName : string;
  AuthCookieConfig_RefreshTokenName : string;
  AuthCookieConfig_Domain : string;
  AuthCookieConfig_Path : string;
  AuthCookieConfig_HTTPOnly : bool;
  AuthCookieConfig_Secure : bool;
  AuthCookieConfig_SameSite : string
}.
#[export] Instance zero_AuthCookieConfig : Zero AuthCookieConfig :=
  mkAuthCookieConfig zero zero zero zero zero zero zero.

(** runtime/config.go: [AuthConfig] *)
Record AuthConfig : Type := mkAuthConfig {
  AuthConfig_Enabled : bool;
  AuthConfig_Driver : string;
  AuthConfig_Secret : string;
  AuthConfig_PrevSecret : string;
  AuthConfig_Algorithm : string;
  AuthConfig_JWKSURL : string;
  AuthConfig_ContextKey : string;
  AuthConfig_Issuer : string;
  AuthConfig_Audience : string;
  AuthConfig_Expiry : Z;
  AuthConfig_ZitadelURL : string;
  AuthConfig_OpenFGAURL : string;
  AuthConfig_OpenFGAStore : string;
  AuthConfig_RolePermissions : gmap string (list string);
  AuthConfig_KratosURL : string;
  AuthConfig_KratosAdminURL : string;
  AuthConfig_KetoURL : string;
  AuthConfig_KetoReadURL : string;
  AuthConfig_KetoWriteURL : string;
  AuthConfig_Ory : option OryConf;
  AuthConfig_Refresh : option RefreshConfig;
  AuthConfig_Cookie : option AuthCookieConfig;
  AuthConfig_OAuth : option OAuthConf;
  AuthConfig_Session : option SessionConf
}.
#[export] Instance zero_AuthConfig : Zero AuthConfig :=
  mkAuthConfig zero zero zero zero zero zero zero zero zero zero zero zero zero zero zero zero zero
    zero zero zero zero zero zero zero.

(** runtime/config.go: [GrpcServerConf] *)
Record GrpcServerConf : Type := mkGrpcServerConf {
  GrpcServerConf_ListenOn : string;
  GrpcServerConf_Timeout : Z;
  GrpcServerConf_CpuThreshold : Z;
  GrpcServerConf_Health : bool;
  GrpcServerConf_EtcdEndpoints : list string;
  GrpcServerConf_EtcdKey : string
}.
#[export] Instance zero_GrpcServerConf : Zero GrpcServerConf :=
  mkGrpcServerConf zero zero zero zero zero zero.

(** runtime/config.go: [GrpcClientConf] *)
Record GrpcClientConf : Type := mkGrpcClientConf {
  GrpcClientConf_Name : string;
  GrpcClientConf_Target : string;
  GrpcClientConf_Secure : bool;
  GrpcClientConf_Endpoints : list string;
  GrpcClientConf_Timeout : Z;
  GrpcClientConf_NonBlock : bool
}.
#[export] Instance zero_GrpcClientConf : Zero GrpcClientConf :=
  mkGrpcClientConf zero zero zero zero zero zero.

(** runtime/config.go: [CorrelationConf] *)
Record CorrelationConf : Type := mkCorrelationConf {
  CorrelationConf_Enabled : bool;
  CorrelationConf_RequestHeader : string;
  CorrelationConf_ResponseHeader : string;
  CorrelationConf_SkipPaths : list string
}.
#[export] Instance zero_CorrelationConf : Zero CorrelationConf :=
  mkCorrelationConf zero zero zero zero.

(** runtime/config.go: [TelemetryConf] *)
Record TelemetryConf : Type := mkTelemetryConf {
  TelemetryConf_Enabled : bool;
  TelemetryConf_Name : string;
  TelemetryConf_Endpoint : string;
  TelemetryConf_Sampler : float64;
  TelemetryConf_Batcher : string;
  TelemetryConf_OtlpHeaders : gmap string string;
  TelemetryConf_OtlpHttpPath : string;
  TelemetryConf_OtlpHttpSecure : bool;
  TelemetryConf_TraceResponseHeader : string;
  TelemetryConf_SkipPaths : list string
}.
#[export] Instance zero_TelemetryConf : Zero TelemetryConf :=
  mkTelemetryConf zero zero zero zero zero zero zero zero zero zero.

(** runtime/config.go: [ContentSecurityDef] *)
Record ContentSecurityDef : Type := mkContentSecurityDef {
  ContentSecurityDef_Enabled : bool;
  ContentSecurityDef_Strict : bool;
  ContentSecurityDef_PublicKey : string
}.
#[export] Instance zero_ContentSecurityDef : Zero ContentSecurityDef :=
  mkContentSecurityDef zero zero zero.

(** runtime/config.go: [CryptionDef] *)
Record CryptionDef : Type := mkCryptionDef {
  CryptionDef_Enabled : bool;
  CryptionDef_Key : string
}.
#[export] Instance zero_CryptionDef : Zero CryptionDef :=
  mkCryptionDef zero zero.

(** runtime/config.go: [EncryptCookieDef] *)
Record EncryptCookieDef : Type := mkEncryptCookieDef {
  EncryptCookieDef_Enabled : bool;
  EncryptCookieDef_Key : string;
  EncryptCookieDef_Except : list string
}.
#[export] Instance zero_EncryptCookieDef : Zero EncryptCookieDef :=
  mkEncryptCookieDef zero zero zero.

(** runtime/config.go: [SecurityDef] *)
Record SecurityDef : Type := mkSecurityDef {
  SecurityDef_ContentSecurity : option ContentSecurityDef;
  SecurityDef_Cryption : option CryptionDef;
  SecurityDef_EncryptCookie : option EncryptCookieDef
}.
#[export] Instance zero_SecurityDef : Zero SecurityDef :=
  mkSecurityDef zero zero zero.

(** runtime/config.go: [CookieConf] *)
Record CookieConf : Type := mkCookieConf {
  CookieConf_SameSite : string;
  CookieConf_Secure : bool
}.
#[export] Instance zero_CookieConf : Zero CookieConf :=
  mkCookieConf zero zero.

(** runtime/config.go: [RateLimitDef] *)
Record RateLimitDef : Type := mkRateLimitDef {
  RateLimitDef_RequestsPerSecond : Z;
  RateLimitDef_Burst : Z;
  RateLimitDef_TTL : string
}.
#[export] Instance zero_RateLimitDef : Zero RateLimitDef :=
  mkRateLimitDef zero zero zero.

(** runtime/config.go: [RateLimitConf] *)
Record RateLimitConf : Type := mkRateLimitConf {
  RateLimitConf_Enabled : bool;
  RateLimitConf_KV : string;
  RateLimitConf_Algorithm : string;
  RateLimitConf_TTL : string;
  RateLimitConf_Global : option RateLimitDef;
  RateLimitConf_PerIP : option RateLimitDef;
  RateLimitConf_PerUser : option RateLimitDef;
  RateLimitConf_PerKey : option RateLimitDef;
  RateLimitConf_SkipFailedRequests : bool;
  RateLimitConf_SkipSuccessfulRequests : bool
}.
#[export] Instance zero_RateLimitConf : Zero RateLimitConf :=
  mkRateLimitConf zero zero zero zero zero zero zero zero zero zero.
#[export] Instance eta_RateLimitConf : Eta RateLimitConf := fun c =>
  mkRateLimitConf (RateLimitConf_Enabled c) (RateLimitConf_KV c) (RateLimitConf_Algorithm c)
    (RateLimitConf_TTL c) (RateLimitConf_Global c) (RateLimitConf_PerIP c) (RateLimitConf_PerUser c)
    (RateLimitConf_PerKey c) (RateLimitConf_SkipFailedRequests c)
    (RateLimitConf_SkipSuccessfulRequests c).

(** runtime/config.go: [SSRFConf] *)
Record SSRFConf : Type := mkSSRFConf {
  SSRFConf_Enabled : bool;
  SSRFConf_BlockPrivate : bool;
  SSRFConf_BlockLoopback : bool;
  SSRFConf_BlockMetadata : bool;
  SSRFConf_AllowedHosts : list string
}.
#[export] Instance zero_SSRFConf : Zero SSRFConf :=
  mkSSRFConf zero zero zero zero zero.

(** runtime/config.go: [ManualTLS] *)
Record ManualTLS : Type := mkManualTLS {
  ManualTLS_CertFile : string;
  ManualTLS_KeyFile : string
}.
#[export] Instance zero_ManualTLS : Zero ManualTLS :=
  mkManualTLS zero zero.

(** runtime/config.go: [AutocertTLS] *)
Record AutocertTLS : Type := mkAutocertTLS {
  AutocertTLS_Domains : list string;
  AutocertTLS_Email : string;
  AutocertTLS_CacheDir : string
}.
#[export] Instance zero_AutocertTLS : Zero AutocertTLS :=
  mkAutocertTLS zero zero zero.

(** runtime/config.go: [TLSConf] *)
Record TLSConf : Type := mkTLSConf {
  TLSConf_Enabled : bool;
  TLSConf_Manual : option ManualTLS;
  TLSConf_Autocert : option AutocertTLS;
  TLSConf_MinVersion : string;
  TLSConf_MaxVersion : string;
  TLSConf_CurvePrefs : list string;
  TLSConf_CipherSuites : list string;
  TLSConf_RedirectHTTP : bool;
  TLSConf_RedirectPort : Z
}.
#[export] Instance zero_TLSConf : Zero TLSConf :=
  mkTLSConf zero zero zero zero zero zero zero zero zero.

(** runtime/config.go: [CSPConf] *)
Record CSPConf : Type := mkCSPConf {
  CSPConf_Level : string;
  CSPConf_DefaultSrc : list string;
  CSPConf_ScriptSrc : list string;
  CSPConf_StyleSrc : list string;
  CSPConf_ImgSrc : list string;
  CSPConf_ConnectSrc : list string;
  CSPConf_FontSrc : list string;
  CSPConf_FrameSrc : list string;
  CSPConf_FrameAncestors : list string;
  CSPConf_ObjectSrc : list string;
  CSPConf_BaseURI : list string;
  CSPConf_FormAction : list string;
  CSPConf_UpgradeInsecureReq : bool
}.
#[export] Instance zero_CSPConf : Zero CSPConf :=
  mkCSPConf zero zero zero zero zero zero zero zero zero zero zero zero zero.

(** runtime/config.go: [SecurityHeadersConf] *)
Record SecurityHeadersConf : Type := mkSecurityHeadersConf {
  SecurityHeadersConf_FrameOptions : string;
  SecurityHeadersConf_ReferrerPolicy : string;
  SecurityHeadersConf_PermissionsPolicy : string;
  SecurityHeadersConf_HSTS : bool;
  SecurityHeadersConf_HSTSMaxAge : Z;
  SecurityHeadersConf_HSTSIncludeSubs : bool;
  SecurityHeadersConf_CSP : string;
  SecurityHeadersConf_CSPConfig : option CSPConf;
  SecurityHeadersConf_COOP : string;
  SecurityHeadersConf_COEP : string;
  SecurityHeadersConf_CORP : string;
  SecurityHeadersConf_CacheControl : string;
  SecurityHeadersConf_CSPReportPath : string
}.
#[export] Instance zero_SecurityHeadersConf : Zero SecurityHeadersConf :=
  mkSecurityHeadersConf zero zero zero zero zero zero zero zero zero zero zero zero zero.

(** runtime/config.go: [CSRFConf] *)
Record CSRFConf : Type := mkCSRFConf {
  CSRFConf_Enabled : bool;
  CSRFConf_CookieName : string;
  CSRFConf_HeaderName : string;
  CSRFConf_SameSite : string;
  CSRFConf_Secure : bool;
  CSRFConf_ExcludePaths : list string;
  CSRFConf_JSONCheck : bool
}.
#[export] Instance zero_CSRFConf : Zero CSRFConf :=
  mkCSRFConf zero zero zero zero zero zero zero.

(** runtime/config.go: [RouteMW] *)
Record RouteMW : Type := mkRouteMW {
  RouteMW_Path : string;
  RouteMW_Apply : list string
}.
#[export] Instance zero_RouteMW : Zero RouteMW :=
  mkRouteMW zero zero.

(** runtime/config.go: [CORSConf] *)
Record CORSConf : Type := mkCORSConf {
  CORSConf_Origins : list string;
  CORSConf_Methods : list string;
  CORSConf_Headers : list string;
  CORSConf_Credentials : bool;
  CORSConf_MaxAge : Z;
  CORSConf_ExposeHeaders : list string;
  CORSConf_AllowPrivateNetwork : bool
}.
#[export] Instance zero_CORSConf : Zero CORSConf :=
  mkCORSConf zero zero zero zero zero zero zero.

(** runtime/config.go: [CORSGroupConf] *)
Record CORSGroupConf : Type := mkCORSGroupConf {
  CORSGroupConf_Name : string;
  CORSGroupConf_Origins : list string;
  CORSGroupConf_Methods : list string;
  CORSGroupConf_Headers : list string;
  CORSGroupConf_Credentials : bool;
  CORSGroupConf_MaxAge : Z;
  CORSGroupConf_ExposeHeaders : list string;
  CORSGroupConf_AllowPrivateNetwork : bool
}.
#[export] Instance zero_CORSGroupConf : Zero CORSGroupConf :=
  mkCORSGroupConf zero zero zero zero zero zero zero zero.

(** runtime/config.go: [CSPGroupConf] *)
Record CSPGroupConf : Type := mkCSPGroupConf {
  CSPGroupConf_Name : string;
  CSPGroupConf_CSPConfig : option CSPConf
}.
#[export] Instance zero_CSPGroupConf : Zero CSPGroupConf :=
  mkCSPGroupConf zero zero.

(** runtime/config.go: [StaticDef] *)
Record StaticDef : Type := mkStaticDef {
  StaticDef_Prefix : string;
  StaticDef_Dir : string;
  StaticDef_FS : string;
  StaticDef_FSName : string;
  StaticDef_Compress : bool;
  StaticDef_ByteRange : bool;
  StaticDef_Browse : bool;
  StaticDef_Download : bool;
  StaticDef_MaxAge : Z;
  StaticDef_IndexNames : list string;
  StaticDef_SPA : bool;
  StaticDef_Methods : list string
}.
#[export] Instance zero_StaticDef : Zero StaticDef :=
  mkStaticDef zero zero zero zero zero zero zero zero zero zero zero zero.

(** runtime/config.go: [RedirectDef] *)
Record RedirectDef : Type := mkRedirectDef {
  RedirectDef_From : string;
  RedirectDef_To : string;
  RedirectDef_Status : Z;
  RedirectDef_Methods : list string;
  RedirectDef_PreserveQuery : option bool
}.
#[export] Instance zero_RedirectDef : Zero RedirectDef :=
  mkRedirectDef zero zero zero zero zero.

(** runtime/config.go: [HTTPClientDef] *)
Record HTTPClientDef : Type := mkHTTPClientDef {
  HTTPClientDef_Target : string;
  HTTPClientDef_Client : string
}.
#[export] Instance zero_HTTPClientDef : Zero HTTPClientDef :=
  mkHTTPClientDef zero zero.

(** runtime/config.go: [ServerOverrideDef] *)
Record ServerOverrideDef : Type := mkServerOverrideDef {
  ServerOverrideDef_URL : string;
  ServerOverrideDef_Description : string
}.
#[export] Instance zero_ServerOverrideDef : Zero ServerOverrideDef :=
  mkServerOverrideDef zero zero.

(** runtime/config.go: [SourceDef] *)
Record SourceDef : Type := mkSourceDef {
  SourceDef_Title : string;
  SourceDef_Slug : string;
  SourceDef_URL : string;
  SourceDef_Default : bool
}.
#[export] Instance zero_SourceDef : Zero SourceDef :=
  mkSourceDef zero zero zero zero.

(** runtime/config.go: [APIKeyPrefillDef] *)
Record APIKeyPrefillDef : Type := mkAPIKeyPrefillDef {
  APIKeyPrefillDef_Name : string;
  APIKeyPrefillDef_In : string;
  APIKeyPrefillDef_Token : string
}.
#[export] Instance zero_APIKeyPrefillDef : Zero APIKeyPrefillDef :=
  mkAPIKeyPrefillDef zero zero zero.

(** runtime/config.go: [AuthPrefillDef] *)
Record AuthPrefillDef : Type := mkAuthPrefillDef {
  AuthPrefillDef_PreferredScheme : string;
  AuthPrefillDef_BearerToken : string;
  AuthPrefillDef_APIKey : option APIKeyPrefillDef
}.
#[export] Instance zero_AuthPrefillDef : Zero AuthPrefillDef :=
  mkAuthPrefillDef zero zero zero.

(** runtime/config.go: [OpenAPIConf] *)
Record OpenAPIConf : Type := mkOpenAPIConf {
  OpenAPIConf_Enabled : bool;
  OpenAPIConf_Version : string;
  OpenAPIConf_SpecPath : string;
  OpenAPIConf_DocsPath : string;
  OpenAPIConf_Theme : string;
  OpenAPIConf_DarkMode : bool;
  OpenAPIConf_SpecCacheTTL : string;
  OpenAPIConf_FaviconURL : string;
  OpenAPIConf_FaviconRefresh : string;
  OpenAPIConf_Title : string;
  OpenAPIConf_Description : string;
  OpenAPIConf_Layout : string;
  OpenAPIConf_ForceDarkMode : bool;
  OpenAPIConf_HideDarkModeToggle : bool;
  OpenAPIConf_CustomCSS : string;
  OpenAPIConf_CustomHeadJS : string;
  OpenAPIConf_CustomBodyJS : string;
  OpenAPIConf_HideDownload : bool;
  OpenAPIConf_HideModels : bool;
  OpenAPIConf_HideSearch : bool;
  OpenAPIConf_Sidebar : option bool;
  OpenAPIConf_ShowToolbar : string;
  OpenAPIConf_SearchHotKey : string;
  OpenAPIConf_Editable : bool;
  OpenAPIConf_TagsSorter : string;
  OpenAPIConf_OperationsSorter : string;
  OpenAPIConf_OperationTitleSource : string;
  OpenAPIConf_OrderSchemaPropertiesBy : string;
  OpenAPIConf_PersistAuth : bool;
  OpenAPIConf_DefaultHTTPClient : option HTTPClientDef;
  OpenAPIConf_HiddenClients : list string;
  OpenAPIConf_CDN : string;
  OpenAPIConf_Proxy : string;
  OpenAPIConf_BaseServerURL : string;
  OpenAPIConf_ServersOverride : list ServerOverrideDef;
  OpenAPIConf_ExcludePaths : list string;
  OpenAPIConf_ExcludeTags : list string;
  OpenAPIConf_Sources : list SourceDef;
  OpenAPIConf_Auth : option AuthPrefillDef;
  OpenAPIConf_CSPConnect : list string
}.
#[export] Instance zero_OpenAPIConf : Zero OpenAPIConf :=
  mkOpenAPIConf zero zero zero zero zero zero zero zero zero zero zero zero zero zero zero zero zero
    zero zero zero zero zero zero zero zero zero zero zero zero zero zero zero zero zero zero zero
    zero zero zero zero.

(** runtime/config.go: [GCConfig] *)
Record GCConfig : Type := mkGCConfig {
  GCConfig_GOGC : Z;
  GCConfig_MemoryLimit : string
}.
#[export] Instance zero_GCConfig : Zero GCConfig :=
  mkGCConfig zero zero.

(** runtime/config.go: [ServerConf] *)
Record ServerConf : Type := mkServerConf {
  ServerConf_Mode : string;
  ServerConf_Host : string;
  ServerConf_Prefork : bool;
  ServerConf_BodyLimit : Z;
  ServerConf_Timeout : string;
  ServerConf_ReadTimeout : string;
  ServerConf_WriteTimeout : string;
  ServerConf_IdleTimeout : string;
  ServerConf_Compression : bool;
  ServerConf_StreamRequestBody : bool;
  ServerConf_ReduceMemoryUsage : bool;
  ServerConf_MaxConns : Z;
  ServerConf_MaxBytes : Z;
  ServerConf_MetricsPath : string;
  ServerConf_HealthPath : string;
  ServerConf_HealthEnabled : bool;
  ServerConf_StartupPath : string;
  ServerConf_StartupEnabled : bool;
  ServerConf_ReadinessPath : string;
  ServerConf_ReadinessEnabled : bool;
  ServerConf_LivenessPath : string;
  ServerConf_LivenessEnabled : bool;
  ServerConf_ShutdownTimeout : string;
  ServerConf_RecoverStack : bool;
  ServerConf_ProblemTypeBase : string;
  ServerConf_APIPrefix : string;
  ServerConf_TrustedProxies : list string;
  ServerConf_CORS : option CORSConf;
  ServerConf_CORSGroups : list CORSGroupConf;
  ServerConf_Middleware : list RouteMW;
  ServerConf_Static : list StaticDef;
  ServerConf_Redirects : list RedirectDef;
  ServerConf_OpenAPI : option OpenAPIConf;
  ServerConf_SecurityHeaders : option SecurityHeadersConf;
  ServerConf_CSPGroups : list CSPGroupConf;
  ServerConf_CSRF : option CSRFConf;
  ServerConf_RateLimit : option RateLimitConf;
  ServerConf_TLS : option TLSConf;
  ServerConf_SSRF : option SSRFConf;
  ServerConf_Cookies : option CookieConf;
  ServerConf_Security : option SecurityDef;
  ServerConf_SlowQueryThreshold : string;
  ServerConf_GC : option GCConfig;
  ServerConf_Logger : bool;
  ServerConf_LoadShedding : bool;
  ServerConf_Breaker : bool;
  ServerConf_Telemetry : option TelemetryConf;
  ServerConf_Correlation : option CorrelationConf;
  ServerConf_LogSkipPaths : list string;
  ServerConf_LogSampleRate : float64;
  ServerConf_GrpcServer : option GrpcServerConf;
  ServerConf_GrpcClients : list GrpcClientConf
}.
#[export] Instance zero_ServerConf : Zero ServerConf :=
  mkServerConf zero zero zero zero zero zero zero zero zero zero zero zero zero zero zero zero zero
    zero zero zero zero zero zero zero zero zero zero zero zero zero zero zero zero zero zero zero
    zero zero zero zero zero zero zero zero zero zero zero zero zero zero zero zero.
#[export] Instance eta_ServerConf : Eta ServerConf := fun c =>
  mkServerConf (ServerConf_Mode c) (ServerConf_Host c) (ServerConf_Prefork c)
    (ServerConf_BodyLimit c) (ServerConf_Timeout c) (ServerConf_ReadTimeout c)
    (ServerConf_WriteTimeout c) (ServerConf_IdleTimeout c) (ServerConf_Compression c)
    (ServerConf_StreamRequestBody c) (ServerConf_ReduceMemoryUsage c) (ServerConf_MaxConns c)
    (ServerConf_MaxBytes c) (ServerConf_MetricsPath c) (ServerConf_HealthPath c)
    (ServerConf_HealthEnabled c) (ServerConf_StartupPath c) (ServerConf_StartupEnabled c)
    (ServerConf_ReadinessPath c) (ServerConf_ReadinessEnabled c) (ServerConf_LivenessPath c)
    (ServerConf_LivenessEnabled c) (ServerConf_ShutdownTimeout c) (ServerConf_RecoverStack c)
    (ServerConf_ProblemTypeBase c) (ServerConf_APIPrefix c) (ServerConf_TrustedProxies c)
    (ServerConf_CORS c) (ServerConf_CORSGroups c) (ServerConf_Middleware c) (ServerConf_Static c)
    (ServerConf_Redirects c) (ServerConf_OpenAPI c) (ServerConf_SecurityHeaders c)
    (ServerConf_CSPGroups c) (ServerConf_CSRF c) (ServerConf_RateLimit c) (ServerConf_TLS c)
    (ServerConf_SSRF c) (ServerConf_Cookies c) (ServerConf_Security c)
    (ServerConf_SlowQueryThreshold c) (ServerConf_GC c) (ServerConf_Logger c)
    (ServerConf_LoadShedding c) (ServerConf_Breaker c) (ServerConf_Telemetry c)
    (ServerConf_Correlation c) (ServerConf_LogSkipPaths c) (ServerConf_LogSampleRate c)
    (ServerConf_GrpcServer c) (ServerConf_GrpcClients c).

(** runtime/config.go: [KVConfig] *)
Record KVConfig : Type := mkKVConfig {
  KVConfig_Name : string;
  KVConfig_Driver : string;
  KVConfig_URL : string;
  KVConfig_PoolSize : Z
}.
#[export] Instance zero_KVConfig : Zero KVConfig :=
  mkKVConfig zero zero zero zero.
#[export] Instance eta_KVConfig : Eta KVConfig := fun c =>
  mkKVConfig (KVConfig_Name c) (KVConfig_Driver c) (KVConfig_URL c) (KVConfig_PoolSize c).

(** runtime/config.go: [StreamDef] *)
Record StreamDef : Type := mkStreamDef {
  StreamDef_Name : string;
  StreamDef_MaxAge : string;
  StreamDef_MaxBytes : Z;
  StreamDef_Storage : string;
  StreamDef_Compression : string
}.
#[export] Instance zero_StreamDef : Zero StreamDef :=
  mkStreamDef zero zero zero zero zero.

(** runtime/config.go: [StreamConfig] *)
Record StreamConfig : Type := mkStreamConfig {
  StreamConfig_Name : string;
  StreamConfig_Driver : string;
  StreamConfig_URL : string;
  StreamConfig_Brokers : list string;
  StreamConfig_ConsumerGroup : string;
  StreamConfig_MaxReconnects : Z;
  StreamConfig_ReconnectWait : string;
  StreamConfig_Timeout : string;
  StreamConfig_RetryOnFail : bool;
  StreamConfig_User : string;
  StreamConfig_Password : string;
  StreamConfig_Token : string;
  StreamConfig_NKeySeed : string;
  StreamConfig_NKeySeedFile : string;
  StreamConfig_CredsFile : string;
  StreamConfig_CAFile : string;
  StreamConfig_CertFile : string;
  StreamConfig_KeyFile : string;
  StreamConfig_Streams : list StreamDef
}.
#[export] Instance zero_StreamConfig : Zero StreamConfig :=
  mkStreamConfig zero zero zero zero zero zero zero zero zero zero zero zero zero zero zero zero
    zero zero zero.

(** runtime/config.go: [SlowQueryConf] *)
Record SlowQueryConf : Type := mkSlowQueryConf {
  SlowQueryConf_Enabled : bool;
  SlowQueryConf_Threshold : string
}.
#[export] Instance zero_SlowQueryConf : Zero SlowQueryConf :=
  mkSlowQueryConf zero zero.

(** runtime/config.go: [TursoConf] *)
Record TursoConf : Type := mkTursoConf {
  TursoConf_Mode : string;
  TursoConf_BusyTimeout : Z
}.
#[export] Instance zero_TursoConf : Zero TursoConf :=
  mkTursoConf zero zero.
#[export] Instance eta_TursoConf : Eta TursoConf := fun c =>
  mkTursoConf (TursoConf_Mode c) (TursoConf_BusyTimeout c).

(** runtime/config.go: [PoolConf] *)
Record PoolConf : Type := mkPoolConf {
  PoolConf_MaxConns : Z;
  PoolConf_MinConns : Z;
  PoolConf_MaxConnLifetime : string;
  PoolConf_MaxConnIdleTime : string;
  PoolConf_HealthCheckPeriod : string;
  PoolConf_ReservedConns : Z;
  PoolConf_StatementTimeout : string
}.
#[export] Instance zero_PoolConf : Zero PoolConf :=
  mkPoolConf zero zero zero zero zero zero zero.
#[export] Instance eta_PoolConf : Eta PoolConf := fun c =>
  mkPoolConf (PoolConf_MaxConns c) (PoolConf_MinConns c) (PoolConf_MaxConnLifetime c)
    (PoolConf_MaxConnIdleTime c) (PoolConf_HealthCheckPeriod c) (PoolConf_ReservedConns c)
    (PoolConf_StatementTimeout c).

(** runtime/config.go: [DBConfig] *)
Record DBConfig : Type := mkDBConfig {
  DBConfig_Name : string;
  DBConfig_Driver : string;
  DBConfig_URL : string;
  DBConfig_AuthToken : string;
  DBConfig_ReadURL : string;
  DBConfig_Database : string;
  DBConfig_Pool : option PoolConf;
  DBConfig_Turso : option TursoConf;
  DBConfig_SlowQuery : option SlowQueryConf
}.
#[export] Instance zero_DBConfig : Zero DBConfig :=
  mkDBConfig zero zero zero zero zero zero zero zero zero.
#[export] Instance eta_DBConfig : Eta DBConfig := fun c =>
  mkDBConfig (DBConfig_Name c) (DBConfig_Driver c) (DBConfig_URL c) (DBConfig_AuthToken c)
    (DBConfig_ReadURL c) (DBConfig_Database c) (DBConfig_Pool c) (DBConfig_Turso c)
    (DBConfig_SlowQuery c).

(** runtime/config.go: [RetryConf] *)
Record RetryConf : Type := mkRetryConf {
  RetryConf_MaxRetries : Z;
  RetryConf_InitialInterval : string;
  RetryConf_MaxBackoff : string;
  RetryConf_Multiplier : float64
}.
#[export] Instance zero_RetryConf : Zero RetryConf :=
  mkRetryConf zero zero zero zero.

(** runtime/config.go: [AsyncReassignConf] *)
Record AsyncReassignConf : Type := mkAsyncReassignConf {
  AsyncReassignConf_Enabled : bool;
  AsyncReassignConf_ProcessingTimeout : string;
  AsyncReassignConf_ReapInterval : string;
  AsyncReassignConf_MaxRetries : Z
}.
#[export] Instance zero_AsyncReassignConf : Zero AsyncReassignConf :=
  mkAsyncReassignConf zero zero zero zero.

(** runtime/config.go: [AsyncCallbackConf] *)
Record AsyncCallbackConf : Type := mkAsyncCallbackConf {
  AsyncCallbackConf_URL : string;
  AsyncCallbackConf_Secret : string;
  AsyncCallbackConf_Retry : Z;
  AsyncCallbackConf_RetryDelay : string
}.
#[export] Instance zero_AsyncCallbackConf : Zero AsyncCallbackConf :=
  mkAsyncCallbackConf zero zero zero zero.

(** runtime/config.go: [AsyncStoreConf] *)
Record AsyncStoreConf : Type := mkAsyncStoreConf {
  AsyncStoreConf_Driver : string;
  AsyncStoreConf_DB : string;
  AsyncStoreConf_KV : string;
  AsyncStoreConf_Stream : string;
  AsyncStoreConf_Bucket : string;
  AsyncStoreConf_Table : string;
  AsyncStoreConf_Reassign : option AsyncReassignConf;
  AsyncStoreConf_Callback : option AsyncCallbackConf;
  AsyncStoreConf_ResultTTL : string;
  AsyncStoreConf_MaxConcurrent : Z
}.
#[export] Instance zero_AsyncStoreConf : Zero AsyncStoreConf :=
  mkAsyncStoreConf zero zero zero zero zero zero zero zero zero zero.

(** runtime/config.go: [CRUDOverrides] *)
Record CRUDOverrides : Type := mkCRUDOverrides {
  CRUDOverrides_List : string;
  CRUDOverrides_Get : string;
  CRUDOverrides_Create : string;
  CRUDOverrides_Update : string;
  CRUDOverrides_Delete : string
}.
#[export] Instance zero_CRUDOverrides : Zero CRUDOverrides :=
  mkCRUDOverrides zero zero zero zero zero.

(** runtime/config.go: [EventPublishTarget] *)
Record EventPublishTarget : Type := mkEventPublishTarget {
  EventPublishTarget_Stream : string;
  EventPublishTarget_Subject : string;
  EventPublishTarget_EventStream : string
}.
#[export] Instance zero_EventPublishTarget : Zero EventPublishTarget :=
  mkEventPublishTarget zero zero zero.

(** runtime/config.go: [PoolConfig] *)
Record PoolConfig : Type := mkPoolConfig {
  PoolConfig_MaxIdleConns : Z;
  PoolConfig_MaxIdlePerHost : Z;
  PoolConfig_MaxConnsPerHost : Z;
  PoolConfig_IdleTimeout : string
}.
#[export] Instance zero_PoolConfig : Zero PoolConfig :=
  mkPoolConfig zero zero zero zero.

(** runtime/config.go: [SpoolDef] *)
Record SpoolDef : Type := mkSpoolDef {
  SpoolDef_Mode : string;
  SpoolDef_MemoryLimit : string;
  SpoolDef_Dir : string;
  SpoolDef_PartSize : string;
  SpoolDef_Concurrency : Z;
  SpoolDef_Async : bool
}.
#[export] Instance zero_SpoolDef : Zero SpoolDef :=
  mkSpoolDef zero zero zero zero zero zero.

(** runtime/config.go: [CacheConfig] *)
Record CacheConfig : Type := mkCacheConfig {
  CacheConfig_L1 : string;
  CacheConfig_L1TTL : string;
  CacheConfig_L1Size : Z;
  CacheConfig_L2 : string;
  CacheConfig_L2Path : string
}.
#[export] Instance zero_CacheConfig : Zero CacheConfig :=
  mkCacheConfig zero zero zero zero zero.

(** runtime/config.go: [StorageDef] *)
Record StorageDef : Type := mkStorageDef {
  StorageDef_Mode : string;
  StorageDef_Bucket : string;
  StorageDef_Path : string;
  StorageDef_Region : string;
  StorageDef_Endpoint : string;
  StorageDef_AccessKey : string;
  StorageDef_SecretKey : string;
  StorageDef_Presign : bool;
  StorageDef_PresignTTL : string;
  StorageDef_Pool : option PoolConfig;
  StorageDef_Spool : option SpoolDef;
  StorageDef_Cache : option CacheConfig
}.
#[export] Instance zero_StorageDef : Zero StorageDef :=
  mkStorageDef zero zero zero zero zero zero zero zero zero zero zero zero.

(** runtime/config.go: [EntryDef] *)
Record EntryDef : Type := mkEntryDef {
  EntryDef_Type : string;
  EntryDef_Method : string;
  EntryDef_Path : string;
  EntryDef_Handler : string;
  EntryDef_Summary : string;
  EntryDef_Description : string;
  EntryDef_RequestModel : string;
  EntryDef_ResponseModel : string;
  EntryDef_ErrorModel : string;
  EntryDef_Responses : gmap string string;
  EntryDef_Tags : list string;
  EntryDef_Hidden : bool;
  EntryDef_AuthModes : list string;
  EntryDef_JWTFrom : string;
  EntryDef_Roles : list string;
  EntryDef_Permissions : list string;
  EntryDef_DB : string;
  EntryDef_CORS : string;
  EntryDef_CSP : string;
  EntryDef_TenantScope : string;
  EntryDef_TenantField : string;
  EntryDef_ServiceName : string;
  EntryDef_Model : string;
  EntryDef_Table : string;
  EntryDef_Resource : string;
  EntryDef_Overrides : option CRUDOverrides;
  EntryDef_EventStream : string;
  EntryDef_EventPublish : list EventPublishTarget;
  EntryDef_AllowedTypes : list string;
  EntryDef_MaxSize : string;
  EntryDef_MaxFiles : Z;
  EntryDef_MagicBytes : bool;
  EntryDef_Storage : option StorageDef;
  EntryDef_CSRF : option bool;
  EntryDef_RequiresMFA : bool;
  EntryDef_RateLimit : option RateLimitDef;
  EntryDef_RateLimitPerUser : option RateLimitDef;
  EntryDef_RateLimitPerKey : option RateLimitDef;
  EntryDef_PerRoleLimits : gmap string (option RateLimitDef);
  EntryDef_Cache : string;
  EntryDef_ValidationModel : string;
  EntryDef_APIVersion : string;
  EntryDef_APIStatus : string;
  EntryDef_SunsetDate : string;
  EntryDef_Timeout : string;
  EntryDef_Retry : option RetryConf;
  EntryDef_Fallback : string;
  EntryDef_Bulkhead : gmap string Z;
  EntryDef_APIPrefix : string;
  EntryDef_PageSize : Z;
  EntryDef_MaxPageSize : Z;
  EntryDef_Pagination : string;
  EntryDef_Sortable : list string;
  EntryDef_AsyncStore : option AsyncStoreConf
}.
#[export] Instance zero_EntryDef : Zero EntryDef :=
  mkEntryDef zero zero zero zero zero zero zero zero zero zero zero zero zero zero zero zero zero
    zero zero zero zero zero zero zero zero zero zero zero zero zero zero zero zero zero zero zero
    zero zero zero zero zero zero zero zero zero zero zero zero zero zero zero zero zero zero.
#[export] Instance eta_EntryDef : Eta EntryDef := fun c =>
  mkEntryDef (EntryDef_Type c) (EntryDef_Method c) (EntryDef_Path c) (EntryDef_Handler c)
    (EntryDef_Summary c) (EntryDef_Description c) (EntryDef_RequestModel c)
    (EntryDef_ResponseModel c) (EntryDef_ErrorModel c) (EntryDef_Responses c) (EntryDef_Tags c)
    (EntryDef_Hidden c) (EntryDef_AuthModes c) (EntryDef_JWTFrom c) (EntryDef_Roles c)
    (EntryDef_Permissions c) (EntryDef_DB c) (EntryDef_CORS c) (EntryDef_CSP c)
    (EntryDef_TenantScope c) (EntryDef_TenantField c) (EntryDef_ServiceName c) (EntryDef_Model c)
    (EntryDef_Table c) (EntryDef_Resource c) (EntryDef_Overrides c) (EntryDef_EventStream c)
    (EntryDef_EventPublish c) (EntryDef_AllowedTypes c) (EntryDef_MaxSize c) (EntryDef_MaxFiles c)
    (EntryDef_MagicBytes c) (EntryDef_Storage c) (EntryDef_CSRF c) (EntryDef_RequiresMFA c)
    (EntryDef_RateLimit c) (EntryDef_RateLimitPerUser c) (EntryDef_RateLimitPerKey c)
    (EntryDef_PerRoleLimits c) (EntryDef_Cache c) (EntryDef_ValidationModel c)
    (EntryDef_APIVersion c) (EntryDef_APIStatus c) (EntryDef_SunsetDate c) (EntryDef_Timeout c)
    (EntryDef_Retry c) (EntryDef_Fallback c) (EntryDef_Bulkhead c) (EntryDef_APIPrefix c)
    (EntryDef_PageSize c) (EntryDef_MaxPageSize c) (EntryDef_Pagination c) (EntryDef_Sortable c)
    (EntryDef_AsyncStore c).

(** runtime/config.go: [SubscribeDef] *)
Record SubscribeDef : Type := mkSubscribeDef {
  SubscribeDef_Stream : string;
  SubscribeDef_Subject : string;
  SubscribeDef_Durable : string
}.
#[export] Instance zero_SubscribeDef : Zero SubscribeDef :=
  mkSubscribeDef zero zero zero.
#[export] Instance eta_SubscribeDef : Eta SubscribeDef := fun c =>
  mkSubscribeDef (SubscribeDef_Stream c) (SubscribeDef_Subject c) (SubscribeDef_Durable c).

(** runtime/config.go: [ExitWorker] *)
Record ExitWorker : Type := mkExitWorker {
  ExitWorker_Name : string;
  ExitWorker_Subscribe : SubscribeDef;
  ExitWorker_Handler : string;
  ExitWorker_MaxConcurrent : Z;
  ExitWorker_DB : string;
  ExitWorker_Reply : bool;
  ExitWorker_ReplyTimeout : string;
  ExitWorker_PullBatch : Z;
  ExitWorker_PullMaxWait : string;
  ExitWorker_ConsumerMode : string;
  ExitWorker_EventStream : string;
  ExitWorker_TermOnFailure : bool
}.
#[export] Instance zero_ExitWorker : Zero ExitWorker :=
  mkExitWorker zero zero zero zero zero zero zero zero zero zero zero zero.
#[export] Instance eta_ExitWorker : Eta ExitWorker := fun c =>
  mkExitWorker (ExitWorker_Name c) (ExitWorker_Subscribe c) (ExitWorker_Handler c)
    (ExitWorker_MaxConcurrent c) (ExitWorker_DB c) (ExitWorker_Reply c) (ExitWorker_ReplyTimeout c)
    (ExitWorker_PullBatch c) (ExitWorker_PullMaxWait c) (ExitWorker_ConsumerMode c)
    (ExitWorker_EventStream c) (ExitWorker_TermOnFailure c).

(** runtime/config.go: [CronPublish] *)
Record CronPublish : Type := mkCronPublish {
  CronPublish_Stream : string;
  CronPublish_Subject : string
}.
#[export] Instance zero_CronPublish : Zero CronPublish :=
  mkCronPublish zero zero.
#[export] Instance eta_CronPublish : Eta CronPublish := fun c =>
  mkCronPublish (CronPublish_Stream c) (CronPublish_Subject c).

(** runtime/config.go: [CronJob] *)
Record CronJob : Type := mkCronJob {
  CronJob_Name : string;
  CronJob_Schedule : string;
  CronJob_Mode : string;
  CronJob_Publish : option CronPublish;
  CronJob_Handler : string
}.
#[export] Instance zero_CronJob : Zero CronJob :=
  mkCronJob zero zero zero zero zero.
#[export] Instance eta_CronJob : Eta CronJob := fun c =>
  mkCronJob (CronJob_Name c) (CronJob_Schedule c) (CronJob_Mode c) (CronJob_Publish c)
    (CronJob_Handler c).

(** runtime/config.go: [ServiceConfig] *)
Record ServiceConfig : Type := mkServiceConfig {
  ServiceConfig_Name : string;
  ServiceConfig_Port : Z;
  ServiceConfig_Deploy : option DeployConfig;
  ServiceConfig_Server : ServerConf;
  ServiceConfig_Databases : list DBConfig;
  ServiceConfig_KV : list KVConfig;
  ServiceConfig_Stream : list StreamConfig;
  ServiceConfig_Entry : list EntryDef;
  ServiceConfig_Exit : list ExitWorker;
  ServiceConfig_Cron : list CronJob;
  ServiceConfig_Auth : option AuthConfig;
  ServiceConfig_Log : option LogConf;
  ServiceConfig_Prometheus : option PrometheusConfig
}.
#[export] Instance zero_ServiceConfig : Zero ServiceConfig :=
  mkServiceConfig zero zero zero zero zero zero zero zero zero zero zero zero zero.
#[export] Instance eta_ServiceConfig : Eta ServiceConfig := fun c =>
  mkServiceConfig (ServiceConfig_Name c) (ServiceConfig_Port c) (ServiceConfig_Deploy c)
    (ServiceConfig_Server c) (ServiceConfig_Databases c) (ServiceConfig_KV c)
    (ServiceConfig_Stream c) (ServiceConfig_Entry c) (ServiceConfig_Exit c) (ServiceConfig_Cron c)
    (ServiceConfig_Auth c) (ServiceConfig_Log c) (ServiceConfig_Prometheus c).

(** runtime/config.go: [EventStreamConnConf] *)
Record EventStreamConnConf : Type := mkEventStreamConnConf {
  EventStreamConnConf_Name : string;
  EventStreamConnConf_Driver : string;
  EventStreamConnConf_URL : string;
  EventStreamConnConf_Brokers : list string;
  EventStreamConnConf_ConsumerGroup : string;
  EventStreamConnConf_MaxReconnects : Z;
  EventStreamConnConf_ReconnectWait : string;
  EventStreamConnConf_Timeout : string;
  EventStreamConnConf_RetryOnFail : bool;
  EventStreamConnConf_Streams : list StreamDef
}.
#[export] Instance zero_EventStreamConnConf : Zero EventStreamConnConf :=
  mkEventStreamConnConf zero zero zero zero zero zero zero zero zero zero.
#[export] Instance eta_EventStreamConnConf : Eta EventStreamConnConf := fun c =>
  mkEventStreamConnConf (EventStreamConnConf_Name c) (EventStreamConnConf_Driver c)
    (EventStreamConnConf_URL c) (EventStreamConnConf_Brokers c)
    (EventStreamConnConf_ConsumerGroup c) (EventStreamConnConf_MaxReconnects c)
    (EventStreamConnConf_ReconnectWait c) (EventStreamConnConf_Timeout c)
    (EventStreamConnConf_RetryOnFail c) (EventStreamConnConf_Streams c).
