(* ===== verification/ConfigText.v ===== *)
(** * Text processing of the configuration (runtime/config.go)

    Expansion of [${VAR}] and [${VAR:default}] in the configuration file
    ([expandEnvDefaults]) and the names derived for CRUD entries ([toSnake],
    [shouldInsertUnderscore], [plural]). *)

From S2P Require Import Prelude GoStrings.
From Stdlib Require Import Ascii String.

Open Scope string_scope.

Section expand.
(** [os.Getenv]: the empty string for a variable that is not set. *)
Context (getenv : string -> string).

(** One pass of the loop over [content[i:]]; [fuel] bounds the number of iterations,
    each of which consumes a byte. *)
Fixpoint expand_loop (fuel : nat) (content result : string) (missing : list string)
  : string * list string :=
  match fuel, content with
  | O, _ | _, EmptyString => (result, missing)
  | S fuel, String c rest =>
      if Ascii.eqb c "$" && Nat.ltb 2 (String.length content) && HasPrefix rest "{" then
        match IndexByte content "}" with
        | None => expand_loop fuel rest (result ++ string_of_byte c) missing
        | Some end_ =>
            let expr := str_drop 2 (str_take end_ content) in
            let '(envName, dflt) := SplitN2 expr ":" in
            let envVal := getenv envName in
            let content := str_drop (S end_) content in
            if negb (String.eqb envVal "") then expand_loop fuel content (result ++ envVal) missing
            else match dflt with
                 | Some d => expand_loop fuel content (result ++ d) missing
                 | None => expand_loop fuel content (result ++ "${" ++ envName ++ "}")
                             (missing ++ [envName])%list
                 end
        end
      else expand_loop fuel rest (result ++ string_of_byte c) missing
  end.

(** The expanded text and, in the error, the names of the missing variables. *)
Definition expandEnvDefaults (content : string) : string * option (list string) :=
  let '(result, missing) := expand_loop (String.length content) content "" [] in
  (result, match missing with [] => None | _ => Some missing end).

(** ** What a template means *)

Inductive segment :=
| SLit (text : string)
| SRef (name : string)                       (* ${name} *)
| SRefDef (name dflt : string).              (* ${name:dflt} *)

Definition seg_print (s : segment) : string :=
  match s with
  | SLit t => t
  | SRef n => "${" ++ n ++ "}"
  | SRefDef n d => "${" ++ n ++ ":" ++ d ++ "}"
  end.

Definition without (c : ascii) (s : string) : bool := str_all (fun x => negb (Ascii.eqb x c)) s.

(** Literal text is ASCII without [$]; names have no [:] and nothing has a [}]. *)
Definition seg_ok (s : segment) : bool :=
  match s with
  | SLit t => str_all (fun x => N.ltb (N_of_ascii x) 128) t && without "$" t
  | SRef n => without ":" n && without "}" n
  | SRefDef n d => without ":" n && without "}" n && without "}" d
  end.

Definition seg_eval (s : segment) : string :=
  match s with
  | SLit t => t
  | SRef n => if String.eqb (getenv n) "" then "${" ++ n ++ "}" else getenv n
  | SRefDef n d => if String.eqb (getenv n) "" then d else getenv n
  end.

Definition seg_missing (s : segment) : list string :=
  match s with
  | SRef n => if String.eqb (getenv n) "" then [n] else []
  | _ => []
  end.

Definition template_print (t : list segment) : string := foldr (fun s r => seg_print s ++ r) "" t.
Definition template_eval (t : list segment) : string := foldr (fun s r => seg_eval s ++ r) "" t.
Definition template_missing (t : list segment) : list string := mjoin (seg_missing <$> t).

Lemma expand_lit (t rest : string) : forall fuel result missing,
  seg_ok (SLit t) = true -> (String.length (t ++ rest) <= fuel)%nat ->
  exists fuel', (String.length rest <= fuel')%nat /\
    expand_loop fuel (t ++ rest) result missing = expand_loop fuel' rest (result ++ t) missing.
Proof.
  induction t as [|c t IH]; intros fuel result missing Hok Hf.
  - exists fuel. by rewrite str_app_nil_r.
  - cbn in Hok. apply andb_true_iff in Hok as [Ha Hd].
    apply andb_true_iff in Ha as [Hc Ha]. apply andb_true_iff in Hd as [Hcd Hd].
    rewrite str_app_cons in Hf |- *. destruct fuel as [|fuel]; [cbn in Hf; lia|].
    cbn [String.length] in Hf. apply negb_true_iff in Hcd.
    destruct (IH fuel (result ++ String c "") missing) as (f' & Hf' & E);
      [cbn; unfold without; by rewrite Ha, Hd|lia|].
    exists f'. split; [done|]. cbn [expand_loop]. rewrite Hcd. cbn [andb].
    unfold string_of_byte. rewrite Hc, E. by rewrite str_app_assoc.
Qed.

(** A reference with the expression [expr] between the braces. *)
Lemma expand_ref (expr rest result : string) (missing : list string) (fuel : nat) :
  without "}" expr = true -> (String.length ("${" ++ expr ++ "}" ++ rest) <= fuel)%nat ->
  exists fuel', (String.length rest <= fuel')%nat /\
    expand_loop fuel ("${" ++ expr ++ "}" ++ rest) result missing =
    (let '(envName, dflt) := SplitN2 expr ":" in
     if negb (String.eqb (getenv envName) "") then expand_loop fuel' rest (result ++ getenv envName) missing
     else match dflt with
          | Some d => expand_loop fuel' rest (result ++ d) missing
          | None => expand_loop fuel' rest (result ++ "${" ++ envName ++ "}") (missing ++ [envName])%list
          end).
Proof.
  intros Hex Hf. rewrite !str_length_app in Hf. cbn in Hf.
  destruct fuel as [|fuel]; [lia|]. exists fuel. split; [lia|].
  change ("${" ++ expr ++ "}" ++ rest) with (String "$" (String "{" (expr ++ String "}" rest))).
  assert (Hidx : IndexByte (String "$" (String "{" (expr ++ String "}" rest))) "}" =
    Some (S (S (String.length expr)))).
  { pose proof (IndexByte_app_None (String "$" (String "{" expr)) rest "}") as H.
    rewrite !str_app_cons in H. rewrite H; [done|]. done. }
  cbn [expand_loop]. rewrite Hidx.
  assert (Hlen : Nat.ltb 2 (String.length (String "$" (String "{" (expr ++ String "}" rest)))) = true).
  { apply Nat.ltb_lt. cbn. rewrite str_length_app. cbn. lia. }
  rewrite Hlen. cbn [Ascii.eqb Bool.eqb andb].
  rewrite HasPrefix_byte. cbn [Ascii.eqb Bool.eqb].
  assert (Hexpr : str_drop 2 (str_take (S (S (String.length expr)))
    (String "$" (String "{" (expr ++ String "}" rest)))) = expr) by (cbn; apply str_take_app).
  assert (Hrest : str_drop (S (S (S (String.length expr))))
    (String "$" (String "{" (expr ++ String "}" rest))) = rest).
  { change (str_drop (S (String.length expr)) (expr ++ String "}" rest) = rest).
    clear. induction expr as [|c e IH]; [done|]. rewrite str_app_cons. exact IH. }
  by rewrite Hexpr, Hrest.
Qed.

Lemma expand_template (t : list segment) : forall fuel result missing,
  forallb seg_ok t = true -> (String.length (template_print t) <= fuel)%nat ->
  expand_loop fuel (template_print t) result missing =
  (result ++ template_eval t, (missing ++ template_missing t)%list).
Proof.
  induction t as [|s t IH]; intros fuel result missing Hok Hf; cbn in Hok.
  - cbn. rewrite str_app_nil_r, app_nil_r. by destruct fuel.
  - apply andb_true_iff in Hok as [Hs Hok]. cbn [template_print foldr seg_print] in *.
    fold (template_print t) in *. unfold template_missing. cbn [fmap list_fmap mjoin list_join].
    fold (template_missing t). cbn [template_eval foldr]. fold (template_eval t).
    destruct s as [l|n|n d]; cbn [seg_print seg_eval seg_missing seg_ok] in *.
    + destruct (expand_lit l (template_print t) fuel result missing Hs Hf) as (f & Hf' & ->).
      rewrite IH by done. by rewrite str_app_assoc.
    + apply andb_true_iff in Hs as [H1 H2].
      rewrite !str_app_assoc in Hf |- *.
      destruct (expand_ref n (template_print t) result missing fuel H2 Hf) as (f & Hf' & ->).
      rewrite SplitN2_absent by done. destruct (String.eqb (getenv n) "") eqn:E; cbn [negb];
        rewrite IH by done; by rewrite !str_app_assoc, <- ?app_assoc.
    + apply andb_true_iff in Hs as [Hs H3]. apply andb_true_iff in Hs as [H1 H2].
      assert (Hex : without "}" (n ++ ":" ++ d) = true).
      { clear -H2 H3. induction n as [|c n IH]; [exact H3|]. cbn in H2. apply andb_true_iff in H2 as [Hc H2].
        rewrite str_app_cons. cbn [without str_all]. rewrite Hc. by apply IH. }
      replace (("${" ++ n ++ ":" ++ d ++ "}") ++ template_print t)
        with ("${" ++ (n ++ ":" ++ d) ++ "}" ++ template_print t) in Hf |- *
        by (by rewrite !str_app_assoc).
      destruct (expand_ref _ (template_print t) result missing fuel Hex Hf) as (f & Hf' & ->).
      change (":" ++ d) with (String ":" d). rewrite SplitN2_app by done.
      destruct (String.eqb (getenv n) "") eqn:E; cbn [negb]; rewrite IH by done; by rewrite str_app_assoc.
Qed.

(** On a template of ASCII text without [$] and of references [${NAME}] and
    [${NAME:default}], expansion replaces every reference by the variable's value, by
    the default when the variable is empty, and reports exactly the variables that have
    neither, in order; the text is kept. *)
Theorem expandEnvDefaults_template (t : list segment) :
  forallb seg_ok t = true ->
  expandEnvDefaults (template_print t) =
  (template_eval t, match template_missing t with [] => None | m => Some m end).
Proof.
  intros Hok. unfold expandEnvDefaults.
  rewrite (expand_template t _ "" [] Hok) by lia. cbn.
  rewrite str_app_nil_l. by destruct (template_missing t).
Qed.

End expand.

Definition demo_env (n : string) : string := if String.eqb n "PORT" then "8080" else "".

Lemma expandEnvDefaults_template_witness :
  expandEnvDefaults demo_env "p: ${PORT} h: ${HOST:localhost} k: ${KEY}" =
  ("p: 8080 h: localhost k: ${KEY}", Some ["KEY"]).
Proof.
  exact (expandEnvDefaults_template demo_env
    [SLit "p: "; SRef "PORT"; SLit " h: "; SRefDef "HOST" "localhost"; SLit " k: "; SRef "KEY"] eq_refl).
Defined.

(** Text outside references is not kept when it is not ASCII: the two bytes of an
    e-acute come out as four (every byte is re-encoded on its own). *)
Theorem expandEnvDefaults_breaks_utf8 (getenv : string -> string) :
  let e_acute := String (ascii_of_N 195) (String (ascii_of_N 169) "") in
  expandEnvDefaults getenv e_acute =
  (String (ascii_of_N 195) (String (ascii_of_N 131)
     (String (ascii_of_N 194) (String (ascii_of_N 169) ""))), None).
Proof. vm_compute. reflexivity. Qed.

(** ** Names *)

Definition specialToSnake : gmap string string := list_to_map
  [("ID", "id"); ("URL", "url"); ("API", "api"); ("JSON", "json"); ("XML", "xml");
   ("HTML", "html"); ("SQL", "sql"); ("SSH", "ssh"); ("UUID", "uuid"); ("JWT", "jwt");
   ("NATS", "nats"); ("HTTP", "http"); ("DB", "db"); ("WS", "ws"); ("SSE", "sse")].

(** [prev] and [next] are [s[i-1]] and [s[i+1]], [None] when out of range ([i = 0], and
    at the end, where [next] is the zero byte). *)
Definition shouldInsertUnderscore (prev : option ascii) (c : ascii) (next : option ascii) : bool :=
  match prev with
  | None => false
  | Some prev =>
      if negb (is_upper c) then false
      else is_lower prev || (is_upper prev && match next with Some n => is_lower n | None => false end)
  end.

Definition str_head (s : string) : option ascii :=
  match s with String c _ => Some c | EmptyString => None end.

Fixpoint toSnake_loop (prev : option ascii) (s : string) : string :=
  match s with
  | EmptyString => EmptyString
  | String c s =>
      let lowered := String (if is_upper c then add32 c else c) (toSnake_loop (Some c) s) in
      if shouldInsertUnderscore prev c (str_head s) then String "_" lowered else lowered
  end.

Definition toSnake (s : string) : string :=
  match specialToSnake !! s with
  | Some mapped => mapped
  | None => if Nat.leb (String.length s) 1 then s else toSnake_loop None s
  end.

(** [s[len(s)-1-k]] *)
Definition str_from_end (k : nat) (s : string) : option ascii :=
  if Nat.ltb k (String.length s) then String.get (String.length s - 1 - k) s else None.

Definition is_vowel (c : ascii) : bool :=
  Ascii.eqb c "a" || Ascii.eqb c "e" || Ascii.eqb c "i" || Ascii.eqb c "o" || Ascii.eqb c "u".

Definition plural (s : string) : string :=
  match str_from_end 0 s with
  | None => ""
  | Some l =>
      if Ascii.eqb l "s" then s
      else if Ascii.eqb l "y" && match str_from_end 1 s with Some p => negb (is_vowel p) | None => false end
      then str_take (String.length s - 1) s ++ "ies"
      else s ++ "s"
  end.

Lemma add32_not_upper (c : ascii) : is_upper c = true -> is_upper (add32 c) = false.
Proof. destruct c as [[] [] [] [] [] [] [] []]; vm_compute; congruence. Qed.

Definition no_upper (s : string) : bool := str_all (fun c => negb (is_upper c)) s.

Lemma toSnake_loop_no_upper (s : string) : forall prev, no_upper (toSnake_loop prev s) = true.
Proof.
  induction s as [|c s IH]; intros prev; [done|]. cbn [toSnake_loop].
  assert (Hl : no_upper (String (if is_upper c then add32 c else c) (toSnake_loop (Some c) s)) = true).
  { unfold no_upper. cbn [str_all]. fold (no_upper (toSnake_loop (Some c) s)). rewrite IH, andb_true_r.
    destruct (is_upper c) eqn:E; [by rewrite add32_not_upper|by rewrite E]. }
  destruct (shouldInsertUnderscore prev c (str_head s)); [|exact Hl].
  unfold no_upper in *. cbn [str_all] in *. rewrite Hl. reflexivity.
Qed.

Lemma toSnake_loop_id (s : string) : forall prev, no_upper s = true -> toSnake_loop prev s = s.
Proof.
  induction s as [|c s IH]; intros prev Hs; [done|]. unfold no_upper in Hs. cbn [str_all] in Hs.
  apply andb_true_iff in Hs as [Hc Hs]. cbn [toSnake_loop]. rewrite IH by exact Hs.
  apply negb_true_iff in Hc. rewrite Hc. unfold shouldInsertUnderscore. rewrite Hc. by destruct prev.
Qed.

(** The special names are upper case and map to lower case. *)
Lemma specialToSnake_no_upper (s m : string) :
  specialToSnake !! s = Some m -> no_upper m = true.
Proof.
  intros Hm. assert (Hall : map_Forall (fun _ m => no_upper m = true) specialToSnake).
  { apply (bool_decide_unpack _). vm_compute. exact I. }
  by apply (Hall s m).
Qed.

Lemma specialToSnake_upper (s : string) : no_upper s = true -> specialToSnake !! s = None.
Proof.
  intros Hs. destruct (specialToSnake !! s) as [m|] eqn:E; [|done].
  assert (Hall : map_Forall (fun k _ => no_upper k = false) specialToSnake).
  { apply (bool_decide_unpack _). vm_compute. exact I. }
  specialize (Hall s m E). cbn in Hall. congruence.
Qed.

Lemma toSnake_fixed (s : string) : no_upper s = true -> toSnake s = s.
Proof.
  intros Hs. unfold toSnake. rewrite specialToSnake_upper by done.
  destruct (Nat.leb (String.length s) 1); [done|]. by apply toSnake_loop_id.
Qed.

(** Deriving a table name again changes nothing. *)
Lemma toSnake_stable (s : string) :
  toSnake (toSnake s) = toSnake s /\ (no_upper (toSnake s) = true \/ (String.length s <= 1)%nat).
Proof.
  unfold toSnake at 2 3 4. destruct (specialToSnake !! s) as [m|] eqn:E.
  - apply specialToSnake_no_upper in E. split; [by apply toSnake_fixed|by left].
  - destruct (Nat.leb (String.length s) 1) eqn:El.
    + unfold toSnake. rewrite E, El. split; [done|]. right. by apply Nat.leb_le.
    + pose proof (toSnake_loop_no_upper s None) as Hn. split; [by apply toSnake_fixed|by left].
Qed.

Lemma str_get_app_last (s : string) (c : ascii) : str_from_end 0 (s ++ String c "") = Some c.
Proof.
  unfold str_from_end. rewrite str_length_app. cbn [String.length].
  rewrite (proj2 (Nat.ltb_lt 0 _)) by lia.
  replace (String.length s + 1 - 1 - 0)%nat with (String.length s) by lia.
  induction s as [|x s IH]; [done|]. rewrite str_app_cons. exact IH.
Qed.

Lemma str_from_end_nonempty (s : string) : str_from_end 0 s = None -> s = "".
Proof.
  unfold str_from_end. destruct s as [|c s]; [done|].
  cbn [String.length]. rewrite (proj2 (Nat.ltb_lt 0 _)) by lia.
  intros El. exfalso. revert El. generalize c.
  replace (S (String.length s) - 1 - 0)%nat with (String.length s) by lia.
  induction s as [|x s IH]; intros c'; [done|]. apply IH.
Qed.

Lemma plural_ends (s : string) : s = "" \/ str_from_end 0 (plural s) = Some "s"%char.
Proof.
  unfold plural. destruct (str_from_end 0 s) as [l|] eqn:El; [|left; by apply str_from_end_nonempty].
  right. destruct (Ascii.eqb_spec l "s"%char) as [->|]; [done|].
  destruct (Ascii.eqb l "y" && _); [|apply str_get_app_last].
  change "ies" with ("ie" ++ "s"). rewrite <- str_app_assoc. apply str_get_app_last.
Qed.

Lemma plural_stable (s : string) : plural (plural s) = plural s.
Proof. destruct (plural_ends s) as [->|H]; [done|]. unfold plural at 1. by rewrite H. Qed.

(** The names derived from a model name are stable.  Table names are in lower case
    (unless the name is a single letter) and deriving again changes nothing; resource
    names end in [s] and pluralising again changes nothing. *)
Theorem derived_names_stable (s : string) :
  toSnake (toSnake s) = toSnake s /\ (no_upper (toSnake s) = true \/ (String.length s <= 1)%nat) /\
  plural (plural (toSnake s)) = plural (toSnake s) /\
  (toSnake s = "" \/ str_from_end 0 (plural (toSnake s)) = Some "s"%char).
Proof.
  destruct (toSnake_stable s) as [H1 H2]. split; [done|]. split; [done|].
  split; [apply plural_stable|apply plural_ends].
Qed.
