(* ===== verification/ConfigValidate.v ===== *)
(** * Validation of the configuration (runtime/config.go, runtime/validate.go)

    Every [Validate] method assigns defaults to its receiver and returns the first
    error it finds; [ParseConfig] decodes the file and runs the validators over the
    sections in a fixed order.  Log output is not modelled.  The environment is a
    function from names to values, fixed during the call. *)

From S2P Require Import Prelude GoStrings ConfigTypes ConfigText.
From Stdlib Require Import String.

Open Scope string_scope.

(** Errors, one constructor per message shape. *)
Inductive cfg_error : Type :=
| ErrRequired (what : string)                                (* what is required *)
| ErrUnknown (what got : string)                             (* unknown or invalid value *)
| ErrAt (section : string) (i : nat) (err : cfg_error)       (* section[i] (...): err *)
| ErrDuplicate (name : string)                               (* duplicate name *)
| ErrNotFound (what ref : string)                            (* what ref not found *)
| ErrVercel (what : string)
| ErrDecrypt
| ErrMissingEnv (names : list string)
| ErrDecode.

Definition is_empty (s : string) : bool := String.eqb s "".
Definition str_in (s : string) (l : list string) : bool := existsb (String.eqb s) l.

Section validate.
(** [os.Getenv] *)
Context (getenv : string -> string).

(** ** Databases *)

Definition TursoConf_Validate : method TursoConf cfg_error :=
  m_check (fun t => negb (String.eqb (TursoConf_Mode t) "local") && negb (String.eqb (TursoConf_Mode t) "remote"))
    (fun t => ErrUnknown "turso mode" (TursoConf_Mode t)) ;;;
  m_assign_if (fun t => (TursoConf_BusyTimeout t <? 0)%Z) (fun t => t <| TursoConf_BusyTimeout := 30000 |>).

Definition DBConfig_resolveAuthToken (d : DBConfig) : DBConfig :=
  if is_empty (DBConfig_AuthToken d) || negb (HasPrefix (DBConfig_AuthToken d) "${") then d
  else
    let name := TrimSuffix (TrimPrefix (DBConfig_AuthToken d) "${") "}" in
    let v := getenv name in
    if negb (is_empty v) then d <| DBConfig_AuthToken := v |> else d.

Definition DBConfig_normalizeDriver : method DBConfig cfg_error := fun d =>
  if str_in (DBConfig_Driver d) ["postgres"; "pg"] then (d <| DBConfig_Driver := "postgres" |>, None)
  else if String.eqb (DBConfig_Driver d) "turso" then
    let t := match DBConfig_Turso d with Some t => t | None => mkTursoConf "local" 30000 end in
    let '(t, err) := TursoConf_Validate t in
    (d <| DBConfig_Turso := Some t |>, err)
  else if str_in (DBConfig_Driver d) ["turso-serverless"; "libsql"; "go-libsql"] then
    match DBConfig_Turso d with
    | None => (d <| DBConfig_Turso := Some (mkTursoConf "remote" 0) |>, None)
    | Some _ => (d, None)
    end
  else if str_in (DBConfig_Driver d) ["mysql"; "mongo"] then (d, None)
  else (d, Some (ErrUnknown "driver" (DBConfig_Driver d))).

Definition PoolConf_defaults (p : PoolConf) : PoolConf :=
  let p := if (PoolConf_MaxConns p <? 1)%Z then p <| PoolConf_MaxConns := 10 |> else p in
  let p := if (PoolConf_MinConns p <? 1)%Z then p <| PoolConf_MinConns := 2 |> else p in
  if (PoolConf_ReservedConns p <? 1)%Z then p <| PoolConf_ReservedConns := 10 |> else p.

Definition DBConfig_Validate : method DBConfig cfg_error :=
  m_check (fun d => is_empty (DBConfig_Name d)) (fun _ => ErrRequired "name") ;;;
  m_check (fun d => is_empty (DBConfig_URL d)) (fun _ => ErrRequired "url") ;;;
  m_check (fun d => is_empty (DBConfig_Driver d)) (fun _ => ErrRequired "driver") ;;;
  m_assign_if (fun _ => true) DBConfig_resolveAuthToken ;;;
  DBConfig_normalizeDriver ;;;
  m_assign_if (fun d => negb (String.eqb (DBConfig_Driver d) "mongo"))
    (fun d => d <| DBConfig_Pool := Some (PoolConf_defaults
       (match DBConfig_Pool d with Some p => p | None => mkPoolConf 10 2 "" "" "" 10 "" end)) |>).

(** ** Event streams *)

Definition EventStreamConnConf_Validate : method EventStreamConnConf cfg_error :=
  m_check (fun e => is_empty (EventStreamConnConf_Name e)) (fun _ => ErrRequired "name") ;;;
  m_assign_if (fun e => is_empty (EventStreamConnConf_Driver e))
    (fun e => e <| EventStreamConnConf_Driver := "nats" |>) ;;;
  fun e =>
  if String.eqb (EventStreamConnConf_Driver e) "nats" then
    (m_check (fun e => is_empty (EventStreamConnConf_URL e)) (fun _ => ErrRequired "nats driver: url") ;;;
     m_assign_if (fun e => (EventStreamConnConf_MaxReconnects e <=? 0)%Z)
       (fun e => e <| EventStreamConnConf_MaxReconnects := 10 |>) ;;;
     m_assign_if (fun e => is_empty (EventStreamConnConf_ReconnectWait e))
       (fun e => e <| EventStreamConnConf_ReconnectWait := "2s" |>) ;;;
     m_assign_if (fun e => is_empty (EventStreamConnConf_Timeout e))
       (fun e => e <| EventStreamConnConf_Timeout := "5s" |>)) e
  else if String.eqb (EventStreamConnConf_Driver e) "kafka" then
    (m_check (fun e => match EventStreamConnConf_Brokers e with [] => true | _ => false end)
       (fun _ => ErrRequired "kafka driver: brokers") ;;;
     m_assign_if (fun e => is_empty (EventStreamConnConf_ConsumerGroup e))
       (fun e => e <| EventStreamConnConf_ConsumerGroup := EventStreamConnConf_Name e ++ "-group" |>)) e
  else (e, Some (ErrUnknown "event stream driver" (EventStreamConnConf_Driver e))).

(** ** Entries *)

Definition need (what : string) (f : EntryDef -> string) : method EntryDef cfg_error :=
  m_check (fun e => is_empty (f e)) (fun _ => ErrRequired what).

Definition EntryDef_validateCRUD : method EntryDef cfg_error :=
  need "crud: model" EntryDef_Model ;;;
  need "crud: db" EntryDef_DB ;;;
  m_assign_if (fun e => is_empty (EntryDef_Table e)) (fun e => e <| EntryDef_Table := toSnake (EntryDef_Model e) |>) ;;;
  m_assign_if (fun e => is_empty (EntryDef_Resource e)) (fun e => e <| EntryDef_Resource := plural (EntryDef_Table e) |>) ;;;
  m_assign_if (fun e => is_empty (EntryDef_Path e)) (fun e => e <| EntryDef_Path := "/" ++ EntryDef_Resource e |>).

Definition EntryDef_validateREST : method EntryDef cfg_error :=
  need "rest: method" EntryDef_Method ;;; need "rest: path" EntryDef_Path ;;; need "rest: handler" EntryDef_Handler.

Definition EntryDef_validateWebhook : method EntryDef cfg_error :=
  m_assign_if (fun e => is_empty (EntryDef_Method e)) (fun e => e <| EntryDef_Method := "POST" |>) ;;;
  need "webhook: path" EntryDef_Path ;;; need "webhook: handler" EntryDef_Handler.

Definition EntryDef_validateWebSocket : method EntryDef cfg_error :=
  need "websocket: path" EntryDef_Path ;;; need "websocket: handler" EntryDef_Handler.

Definition EntryDef_validateSSE : method EntryDef cfg_error :=
  need "sse: path" EntryDef_Path ;;; need "sse: handler" EntryDef_Handler.

Definition EntryDef_validateFile : method EntryDef cfg_error :=
  need "file: method" EntryDef_Method ;;; need "file: path" EntryDef_Path ;;; need "file: handler" EntryDef_Handler ;;;
  fun e =>
  match EntryDef_Storage e with
  | None => (e, Some (ErrRequired "file: storage"))
  | Some st =>
      if negb (str_in (StorageDef_Mode st) ["s3"; "local"])
      then (e, Some (ErrUnknown "file: storage.mode" (StorageDef_Mode st)))
      else if String.eqb (StorageDef_Mode st) "local" && is_empty (StorageDef_Path st)
      then (e, Some (ErrRequired "file: storage.path"))
      else (e, None)
  end.

Definition EntryDef_validateAsync : method EntryDef cfg_error :=
  m_check (fun e => is_empty (EntryDef_Path e) && is_empty (EntryDef_Resource e))
    (fun _ => ErrRequired "async: path or resource") ;;;
  m_assign_if (fun e => is_empty (EntryDef_Path e))
    (fun e => e <| EntryDef_Path := "/" ++ TrimPrefix (EntryDef_Resource e) "/" |>) ;;;
  need "async: handler" EntryDef_Handler.

Definition EntryDef_validateGRPC : method EntryDef cfg_error := need "grpc: service name" EntryDef_ServiceName.
Definition EntryDef_validateGraphQL : method EntryDef cfg_error := need "graphql: path" EntryDef_Path.

Definition EntryDef_Validate : method EntryDef cfg_error := fun e =>
  if is_empty (EntryDef_Type e) then (e, Some (ErrRequired "type"))
  else if String.eqb (EntryDef_Type e) "crud" then EntryDef_validateCRUD e
  else if String.eqb (EntryDef_Type e) "rest" then EntryDef_validateREST e
  else if String.eqb (EntryDef_Type e) "webhook" then EntryDef_validateWebhook e
  else if String.eqb (EntryDef_Type e) "websocket" then EntryDef_validateWebSocket e
  else if String.eqb (EntryDef_Type e) "sse" then EntryDef_validateSSE e
  else if String.eqb (EntryDef_Type e) "file" then EntryDef_validateFile e
  else if String.eqb (EntryDef_Type e) "async" then EntryDef_validateAsync e
  else if String.eqb (EntryDef_Type e) "graphql" then EntryDef_validateGraphQL e
  else if String.eqb (EntryDef_Type e) "grpc" then EntryDef_validateGRPC e
  else (e, Some (ErrUnknown "entry type" (EntryDef_Type e))).

Definition hasAuth (entry : EntryDef) (mode : string) : bool := str_in mode (EntryDef_AuthModes entry).

(** ** Exit workers and cron jobs *)

Definition ExitWorker_Validate : method ExitWorker cfg_error :=
  m_check (fun e => is_empty (ExitWorker_Name e)) (fun _ => ErrRequired "name") ;;;
  m_check (fun e => is_empty (SubscribeDef_Stream (ExitWorker_Subscribe e))) (fun _ => ErrRequired "subscribe.stream") ;;;
  m_check (fun e => is_empty (ExitWorker_Handler e)) (fun _ => ErrRequired "handler") ;;;
  m_assign_if (fun e => is_empty (SubscribeDef_Subject (ExitWorker_Subscribe e)))
    (fun e => e <| ExitWorker_Subscribe := (ExitWorker_Subscribe e)
                     <| SubscribeDef_Subject := SubscribeDef_Stream (ExitWorker_Subscribe e) |> |>) ;;;
  m_assign_if (fun e => is_empty (SubscribeDef_Durable (ExitWorker_Subscribe e)))
    (fun e => e <| ExitWorker_Subscribe := (ExitWorker_Subscribe e)
                     <| SubscribeDef_Durable := ExitWorker_Name e ++ "-worker" |> |>) ;;;
  m_assign_if (fun e => (ExitWorker_MaxConcurrent e <? 1)%Z) (fun e => e <| ExitWorker_MaxConcurrent := 1 |>) ;;;
  m_assign_if (fun e => is_empty (ExitWorker_ReplyTimeout e)) (fun e => e <| ExitWorker_ReplyTimeout := "30s" |>).

Definition CronJob_Validate : method CronJob cfg_error :=
  m_check (fun c => is_empty (CronJob_Name c)) (fun _ => ErrRequired "name") ;;;
  m_check (fun c => is_empty (CronJob_Schedule c)) (fun _ => ErrRequired "schedule") ;;;
  m_assign_if (fun c => is_empty (CronJob_Mode c)) (fun c => c <| CronJob_Mode := "nats" |>) ;;;
  fun c =>
  if String.eqb (CronJob_Mode c) "nats" then
    match CronJob_Publish c with
    | None => (c, Some (ErrRequired "mode=nats: publish.stream"))
    | Some p =>
        if is_empty (CronPublish_Stream p) then (c, Some (ErrRequired "mode=nats: publish.stream"))
        else if is_empty (CronPublish_Subject p)
        then (c <| CronJob_Publish := Some (p <| CronPublish_Subject := CronPublish_Stream p |>) |>, None)
        else (c, None)
    end
  else if String.eqb (CronJob_Mode c) "handler" then
    if is_empty (CronJob_Handler c) then (c, Some (ErrRequired "mode=handler: handler")) else (c, None)
  else if String.eqb (CronJob_Mode c) "internal" then (c, None)
  else (c, Some (ErrUnknown "cron mode" (CronJob_Mode c))).

(** ** Loops over a section

    [for i := range xs { ... }] with a body that may change [xs[i]], accumulates a state
    and may return an error. *)

Fixpoint for_range {A St} (body : nat -> A -> St -> A * (St + cfg_error)) (i : nat) (xs : list A) (st : St)
  : list A * (St + cfg_error) :=
  match xs with
  | [] => ([], inl st)
  | x :: xs =>
      match body i x st with
      | (x, inr err) => (x :: xs, inr err)
      | (x, inl st) => let '(xs', r) := for_range body (S i) xs st in (x :: xs', r)
      end
  end.

Definition loop_err {St} (r : St + cfg_error) : option cfg_error :=
  match r with inl _ => None | inr e => Some e end.

(** ** Sections *)

Definition validateServerMode : method ServiceConfig cfg_error :=
  m_assign_if (fun cfg => is_empty (ServerConf_Mode (ServiceConfig_Server cfg)))
    (fun cfg => cfg <| ServiceConfig_Server := (ServiceConfig_Server cfg) <| ServerConf_Mode := "monolith" |> |>) ;;;
  m_check (fun cfg => negb (str_in (ServerConf_Mode (ServiceConfig_Server cfg)) ["monolith"; "micro"]))
    (fun cfg => ErrUnknown "server.mode" (ServerConf_Mode (ServiceConfig_Server cfg))).

Definition validTargets : list string := ["auto"; "vercel"; "docker"; "kube"; "bare-metal"].

Definition validateConfigDeploy : method ServiceConfig cfg_error := fun cfg =>
  match ServiceConfig_Deploy cfg with
  | None => (cfg, None)
  | Some dep =>
      let target := DeployConfig_Target dep in
      let server := ServiceConfig_Server cfg in
      if is_empty target || String.eqb target "auto" then (cfg, None)
      else if negb (str_in target validTargets) then (cfg, Some (ErrUnknown "deploy.target" target))
      else if ServerConf_Prefork server && String.eqb target "vercel" then (cfg, Some (ErrVercel "server.prefork"))
      else if match ServerConf_TLS server with Some t => TLSConf_Enabled t | None => false end
              && String.eqb target "vercel" then (cfg, Some (ErrVercel "server.tls.enabled"))
      else (cfg, None)
  end.

Definition validateConfigDatabases : method ServiceConfig cfg_error := fun cfg =>
  let '(dbs, r) := for_range (fun i d (seen : gset string) =>
    match DBConfig_Validate d with
    | (d, Some err) => (d, inr (ErrAt "databases" i err))
    | (d, None) =>
        if bool_decide (DBConfig_Name d ∈ seen) then (d, inr (ErrAt "databases" i (ErrDuplicate (DBConfig_Name d))))
        else (d, inl ({[DBConfig_Name d]} ∪ seen))
    end) 0 (ServiceConfig_Databases cfg) ∅ in
  (cfg <| ServiceConfig_Databases := dbs |>, loop_err r).

(** Names of a section: non-empty and without duplicates. *)
Definition check_names {A} (section : string) (name : A -> string) (extra : A -> option cfg_error)
    (xs : list A) : gset string + cfg_error :=
  (for_range (fun i x (seen : gset string) =>
    if is_empty (name x) then (x, inr (ErrAt section i (ErrRequired "name")))
    else if bool_decide (name x ∈ seen) then (x, inr (ErrAt section i (ErrDuplicate (name x))))
    else match extra x with
         | Some err => (x, inr (ErrAt section i err))
         | None => (x, inl ({[name x]} ∪ seen))
         end) 0 xs ∅).2.

(** References of the entries: empty or in [seen]. *)
Definition check_refs (what : string) (ref : EntryDef -> string) (seen : gset string) (es : list EntryDef)
  : option cfg_error :=
  loop_err (for_range (fun i e (_ : unit) =>
    if is_empty (ref e) then (e, inl tt)
    else if negb (bool_decide (ref e ∈ seen)) then (e, inr (ErrAt "entry" i (ErrNotFound what (ref e))))
    else (e, inl tt)) 0 es tt).2.

Definition validateConfigCORSGroups : method ServiceConfig cfg_error := fun cfg =>
  match check_names "cors_groups" CORSGroupConf_Name (fun _ => None) (ServerConf_CORSGroups (ServiceConfig_Server cfg)) with
  | inr err => (cfg, Some err)
  | inl seen => (cfg, check_refs "cors" EntryDef_CORS seen (ServiceConfig_Entry cfg))
  end.

Definition validateConfigCSPGroups : method ServiceConfig cfg_error := fun cfg =>
  match check_names "csp_groups" CSPGroupConf_Name (fun _ => None) (ServerConf_CSPGroups (ServiceConfig_Server cfg)) with
  | inr err => (cfg, Some err)
  | inl seen => (cfg, check_refs "csp" EntryDef_CSP seen (ServiceConfig_Entry cfg))
  end.

Definition validateConfigStream : method ServiceConfig cfg_error := fun cfg =>
  (cfg, loop_err (check_names "stream" StreamConfig_Name
    (fun st => if negb (String.eqb (StreamConfig_Driver st) "nats") && negb (String.eqb (StreamConfig_Driver st) "kafka")
               then Some (ErrUnknown "driver" (StreamConfig_Driver st)) else None)
    (ServiceConfig_Stream cfg))).

Definition seenDB (cfg : ServiceConfig) : gset string :=
  list_to_set (DBConfig_Name <$> ServiceConfig_Databases cfg).

(** [ref != "" && !seenDB[ref] && len(cfg.Databases) > 0] *)
Definition db_missing (cfg : ServiceConfig) (ref : string) : bool :=
  negb (is_empty ref) && negb (bool_decide (ref ∈ seenDB cfg)) &&
  match ServiceConfig_Databases cfg with [] => false | _ => true end.

Definition validateConfigEntries : method ServiceConfig cfg_error := fun cfg =>
  let '(es, r) := for_range (fun i e (_ : unit) =>
    match EntryDef_Validate e with
    | (e, Some err) => (e, inr (ErrAt "entry" i err))
    | (e, None) =>
        if db_missing cfg (EntryDef_DB e) then (e, inr (ErrAt "entry" i (ErrNotFound "db" (EntryDef_DB e))))
        else (e, inl tt)
    end) 0 (ServiceConfig_Entry cfg) tt in
  (cfg <| ServiceConfig_Entry := es |>, loop_err r).

Definition validateConfigExits : method ServiceConfig cfg_error := fun cfg =>
  let '(es, r) := for_range (fun i e (_ : unit) =>
    match ExitWorker_Validate e with
    | (e, Some err) => (e, inr (ErrAt "exit" i err))
    | (e, None) =>
        if db_missing cfg (ExitWorker_DB e) then (e, inr (ErrAt "exit" i (ErrNotFound "db" (ExitWorker_DB e))))
        else (e, inl tt)
    end) 0 (ServiceConfig_Exit cfg) tt in
  (cfg <| ServiceConfig_Exit := es |>, loop_err r).

Definition validateConfigCron : method ServiceConfig cfg_error := fun cfg =>
  let '(cs, r) := for_range (fun i c (_ : unit) =>
    match CronJob_Validate c with
    | (c, Some err) => (c, inr (ErrAt "cron" i err))
    | (c, None) => (c, inl tt)
    end) 0 (ServiceConfig_Cron cfg) tt in
  (cfg <| ServiceConfig_Cron := cs |>, loop_err r).

Definition validateConfigKV : method ServiceConfig cfg_error := fun cfg =>
  (cfg, loop_err (check_names "kv" KVConfig_Name
    (fun kv => if is_empty (KVConfig_URL kv) then Some (ErrRequired "url") else None) (ServiceConfig_KV cfg))).

Definition validateConfigRateLimit : method ServiceConfig cfg_error := fun cfg =>
  match ServerConf_RateLimit (ServiceConfig_Server cfg) with
  | None => (cfg, None)
  | Some rl =>
      if negb (RateLimitConf_Enabled rl) then (cfg, None)
      else if negb (is_empty (RateLimitConf_KV rl)) &&
              negb (existsb (fun kv => String.eqb (KVConfig_Name kv) (RateLimitConf_KV rl)) (ServiceConfig_KV cfg))
      then (cfg, Some (ErrNotFound "server.rate_limit.kv" (RateLimitConf_KV rl)))
      else match ServiceConfig_KV cfg with
           | [] => (cfg, None)
           | _ => (cfg, check_refs "cache" EntryDef_Cache
                          (list_to_set (KVConfig_Name <$> ServiceConfig_KV cfg)) (ServiceConfig_Entry cfg))
           end
  end.

(** [applyEnvOverrides]; [atoi] is [strconv.Atoi]. *)
Definition applyEnvOverrides (atoi : string -> option Z) (cfg : ServiceConfig) : ServiceConfig :=
  let v := getenv "PORT" in
  if is_empty v then cfg
  else match atoi v with
       | Some p => if (0 <? p)%Z then cfg <| ServiceConfig_Port := p |> else cfg
       | None => cfg
       end.

(** The validators in the order of [ParseConfig]. *)
Definition validate_all : method ServiceConfig cfg_error :=
  validateServerMode ;;; validateConfigDeploy ;;; validateConfigDatabases ;;;
  validateConfigCORSGroups ;;; validateConfigCSPGroups ;;; validateConfigStream ;;;
  validateConfigEntries ;;; validateConfigExits ;;; validateConfigCron ;;;
  validateConfigKV ;;; validateConfigRateLimit.

(** [ParseConfig], given the SOPS decryption and the YAML decoder. *)
Definition ParseConfig (trySOPSDecrypt : string -> option string)
    (loadYaml : string -> option ServiceConfig) (atoi : string -> option Z) (content : string)
  : ServiceConfig + cfg_error :=
  match trySOPSDecrypt content with
  | None => inr ErrDecrypt
  | Some decrypted =>
      match expandEnvDefaults getenv decrypted with
      | (_, Some missing) => inr (ErrMissingEnv missing)
      | (expanded, None) =>
          match loadYaml expanded with
          | None => inr ErrDecode
          | Some cfg =>
              match validate_all (applyEnvOverrides atoi cfg) with
              | (_, Some err) => inr err
              | (cfg, None) => inl cfg
              end
          end
      end
  end.

(** ** What a valid configuration is *)

Definition nonempty (s : string) : Prop := s <> "".

(** No variable holds a reference in turn. *)
Definition env_flat : Prop := forall n, HasPrefix (getenv n) "${" = false.

(** The token is not a reference to a variable that has a value. *)
Definition token_resolved (d : DBConfig) : Prop :=
  HasPrefix (DBConfig_AuthToken d) "${" = true ->
  getenv (TrimSuffix (TrimPrefix (DBConfig_AuthToken d) "${") "}") = "".

Record valid_db (d : DBConfig) : Prop := {
  vdb_name : nonempty (DBConfig_Name d);
  vdb_url : nonempty (DBConfig_URL d);
  vdb_driver : DBConfig_Driver d ∈
    ["postgres"; "turso"; "turso-serverless"; "libsql"; "go-libsql"; "mysql"; "mongo"];
  vdb_token : env_flat -> token_resolved d;
  vdb_turso : DBConfig_Driver d = "turso" -> exists t, DBConfig_Turso d = Some t /\
    (TursoConf_Mode t = "local" \/ TursoConf_Mode t = "remote") /\ (0 <= TursoConf_BusyTimeout t)%Z;
  vdb_remote : DBConfig_Driver d ∈ ["turso-serverless"; "libsql"; "go-libsql"] -> is_Some (DBConfig_Turso d);
  vdb_pool : DBConfig_Driver d <> "mongo" -> exists p, DBConfig_Pool d = Some p /\
    (1 <= PoolConf_MaxConns p)%Z /\ (1 <= PoolConf_MinConns p)%Z /\ (1 <= PoolConf_ReservedConns p)%Z
}.

Definition storage_ok (st : option StorageDef) : Prop :=
  exists s, st = Some s /\
    (StorageDef_Mode s = "s3" \/ StorageDef_Mode s = "local" /\ nonempty (StorageDef_Path s)).

(** What the fields of an entry must satisfy before defaults are filled in. *)
Inductive entry_accepted (e : EntryDef) : Prop :=
| acc_crud : EntryDef_Type e = "crud" -> nonempty (EntryDef_Model e) -> nonempty (EntryDef_DB e) -> entry_accepted e
| acc_rest : EntryDef_Type e = "rest" -> nonempty (EntryDef_Method e) -> nonempty (EntryDef_Path e) ->
    nonempty (EntryDef_Handler e) -> entry_accepted e
| acc_hook : EntryDef_Type e ∈ ["webhook"; "websocket"; "sse"] -> nonempty (EntryDef_Path e) ->
    nonempty (EntryDef_Handler e) -> entry_accepted e
| acc_file : EntryDef_Type e = "file" -> nonempty (EntryDef_Method e) -> nonempty (EntryDef_Path e) ->
    nonempty (EntryDef_Handler e) -> storage_ok (EntryDef_Storage e) -> entry_accepted e
| acc_async : EntryDef_Type e = "async" -> nonempty (EntryDef_Path e) \/ nonempty (EntryDef_Resource e) ->
    nonempty (EntryDef_Handler e) -> entry_accepted e
| acc_graphql : EntryDef_Type e = "graphql" -> nonempty (EntryDef_Path e) -> entry_accepted e
| acc_grpc : EntryDef_Type e = "grpc" -> nonempty (EntryDef_ServiceName e) -> entry_accepted e.

(** ... and after. *)
Record valid_entry (e : EntryDef) : Prop := {
  ve_accepted : entry_accepted e;
  ve_path : EntryDef_Type e <> "grpc" -> nonempty (EntryDef_Path e);
  ve_method : EntryDef_Type e = "webhook" -> nonempty (EntryDef_Method e);
  ve_crud : EntryDef_Type e = "crud" -> nonempty (EntryDef_Table e) /\ nonempty (EntryDef_Resource e)
}.

Lemma is_empty_false (s : string) : is_empty s = false <-> nonempty s.
Proof. unfold is_empty, nonempty. destruct (String.eqb_spec s ""); naive_solver. Qed.

Lemma is_empty_true (s : string) : is_empty s = true <-> s = "".
Proof. unfold is_empty. destruct (String.eqb_spec s ""); naive_solver. Qed.

Lemma str_in_spec (s : string) (l : list string) : str_in s l = true <-> s ∈ l.
Proof.
  unfold str_in. rewrite existsb_exists. setoid_rewrite <- list_elem_of_In. split.
  - intros (x & Hx & ->%String.eqb_eq). done.
  - intros Hs. exists s. by rewrite String.eqb_refl.
Qed.

Lemma m_need_ok {S} (c : S -> string) (e : S -> cfg_error) (s s' : S) :
  m_check (fun x => is_empty (c x)) e s = (s', None) <-> nonempty (c s) /\ s' = s.
Proof. rewrite m_check_ok, is_empty_false. done. Qed.

Lemma toSnake_nonempty (s : string) : nonempty s -> nonempty (toSnake s).
Proof.
  intros Hs. unfold toSnake. destruct (specialToSnake !! s) as [m|] eqn:E.
  - assert (Hall : map_Forall (fun _ m => m <> "") specialToSnake).
    { apply (bool_decide_unpack _). vm_compute. exact I. }
    by apply (Hall s m).
  - destruct (Nat.leb _ 1); [done|]. destruct s as [|c s]; [done|]. cbn [toSnake_loop].
    by destruct (shouldInsertUnderscore None c (str_head s)).
Qed.

Lemma plural_nonempty (s : string) : nonempty s -> nonempty (plural s).
Proof.
  intros Hs Hp. destruct (plural_ends s) as [H|H]; [done|]. by rewrite Hp in H.
Qed.

(** What validation never changes in an entry. *)
Definition entry_frame (e e' : EntryDef) : Prop :=
  EntryDef_Type e' = EntryDef_Type e /\ EntryDef_DB e' = EntryDef_DB e /\
  EntryDef_CORS e' = EntryDef_CORS e /\ EntryDef_CSP e' = EntryDef_CSP e /\
  EntryDef_Cache e' = EntryDef_Cache e.

(** Turns emptiness tests into propositions. *)
Ltac empties :=
  rewrite ?andb_false_iff in *;
  repeat match goal with
  | H : is_empty _ = false |- _ => apply is_empty_false in H
  | H : is_empty _ = true |- _ => apply is_empty_true in H
  end.

(** Case analysis on the tests of the type. *)
Ltac entry_cases e :=
  unfold EntryDef_Validate;
  repeat match goal with
  | |- context [String.eqb (EntryDef_Type e) ?t] =>
      destruct (String.eqb_spec (EntryDef_Type e) t) as [?|?]; cbv iota
  end.

Lemma validateCRUD_ok (e e' : EntryDef) :
  EntryDef_Type e = "crud" -> EntryDef_validateCRUD e = (e', None) -> entry_accepted e /\ valid_entry e' /\ entry_frame e e'.
Proof.
  intros Ht H. unfold EntryDef_validateCRUD, need in H. m_inv.
  set (e1 := if is_empty (EntryDef_Table e) then _ else e).
  assert (Hs1 : entry_frame e e1 /\ EntryDef_Model e1 = EntryDef_Model e /\ nonempty (EntryDef_Table e1)).
  { subst e1. destruct (is_empty (EntryDef_Table e)) eqn:E; empties; unfold entry_frame; [|done].
    repeat split. by apply toSnake_nonempty. }
  clearbody e1. set (e2 := if is_empty (EntryDef_Resource e1) then _ else e1).
  assert (Hs2 : entry_frame e e2 /\ EntryDef_Model e2 = EntryDef_Model e /\
    nonempty (EntryDef_Table e2) /\ nonempty (EntryDef_Resource e2)).
  { subst e2. destruct Hs1 as (Hf1 & Hm1 & Ht1).
    destruct (is_empty (EntryDef_Resource e1)) eqn:E; empties; [|done].
    split; [exact Hf1|]. split; [exact Hm1|]. split; [exact Ht1|]. by apply plural_nonempty. }
  clearbody e2. empties. split; [by apply acc_crud|].
  destruct Hs2 as (Hfr & Hm & Htab & Hres).
  destruct (is_empty (EntryDef_Path e2)) eqn:E; empties; (split; [|exact Hfr]);
    destruct Hfr as (Ety & Edb & _); rewrite Ht in Ety; constructor; cbn; try done; try congruence;
    apply acc_crud; cbn; congruence.
Qed.

(** Splits the conclusion about an accepted entry, [acc] being its rule. *)
Ltac entry_done acc :=
  split; [apply acc; set_solver|]; split; [|done];
  constructor; cbn; [apply acc; cbn; set_solver|..]; (done || congruence).

Lemma EntryDef_Validate_ok (e e' : EntryDef) :
  EntryDef_Validate e = (e', None) -> entry_accepted e /\ valid_entry e' /\ entry_frame e e'.
Proof.
  entry_cases e; destruct (is_empty (EntryDef_Type e)); try (intros [=]; congruence); try done; intros H.
  - by apply validateCRUD_ok.
  - unfold EntryDef_validateREST, need in H. m_inv. empties. entry_done acc_rest.
  - unfold EntryDef_validateWebhook, need in H. m_inv.
    destruct (is_empty (EntryDef_Method e)) eqn:E; empties; cbn in *; entry_done acc_hook.
  - unfold EntryDef_validateWebSocket, need in H. m_inv. empties. entry_done acc_hook.
  - unfold EntryDef_validateSSE, need in H. m_inv. empties. entry_done acc_hook.
  - unfold EntryDef_validateFile, need in H. m_inv.
    destruct (EntryDef_Storage e) as [st|] eqn:Est; [|done].
    destruct (str_in (StorageDef_Mode st) ["s3"; "local"]) eqn:Em; [|done]. cbn in H.
    apply str_in_spec in Em.
    assert (Hst : storage_ok (EntryDef_Storage e)).
    { exists st. split; [done|]. destruct (String.eqb_spec (StorageDef_Mode st) "local") as [El|El].
      - right. split; [done|]. cbn in H. destruct (is_empty (StorageDef_Path st)) eqn:Ep; [done|].
        by apply is_empty_false.
      - left. set_solver. }
    assert (e' = e) as -> by (destruct (String.eqb _ "local" && _); by simplify_eq).
    empties. entry_done acc_file.
  - unfold EntryDef_validateAsync, need in H. m_inv.
    destruct (is_empty (EntryDef_Path e)) eqn:E; empties; cbn in *.
    + assert (nonempty (EntryDef_Resource e)) by (destruct H0; empties; done || congruence).
      entry_done acc_async.
    + entry_done acc_async.
  - unfold EntryDef_validateGraphQL, need in H. m_inv. empties. entry_done acc_graphql.
  - unfold EntryDef_validateGRPC, need in H. m_inv. empties. entry_done acc_grpc.
Qed.

(** Success of the elementary steps. *)
Lemma m_seq_none {S E} (m1 m2 : method S E) (s s1 : S) :
  m1 s = (s1, None) -> (m1 ;;; m2) s = m2 s1.
Proof. intros H. unfold m_seq. by rewrite H. Qed.

Lemma need_ok (what : string) (f : EntryDef -> string) (e : EntryDef) :
  nonempty (f e) -> need what f e = (e, None).
Proof. intros H. unfold need, m_check. by rewrite (proj2 (is_empty_false _) H). Qed.

Lemma m_skip {S E} (c : S -> bool) (f : S -> S) (s : S) :
  c s = false -> m_assign_if (E := E) c f s = (s, None).
Proof. intros H. unfold m_assign_if. by rewrite H. Qed.

Ltac needs := repeat first
  [ erewrite m_seq_none by (apply need_ok; assumption)
  | erewrite need_ok by assumption ].

Lemma entry_accepted_ok (e : EntryDef) :
  entry_accepted e -> exists e', EntryDef_Validate e = (e', None).
Proof.
  unfold EntryDef_Validate. intros [Ht Hm Hd|Ht Hm Hp Hh|Ht Hp Hh|Ht Hm Hp Hh (st & Est & Hst)|Ht Hpr Hh|Ht Hp|Ht Hp].
  - rewrite Ht. cbn. unfold EntryDef_validateCRUD. needs.
    unfold m_seq, m_assign_if. repeat case_match; simplify_eq; eauto.
  - rewrite Ht. cbn. unfold EntryDef_validateREST. needs. eauto.
  - rewrite !elem_of_cons in Ht. destruct Ht as [Ht|[Ht|[Ht|Ht]]]; [rewrite Ht; cbn..|by apply not_elem_of_nil in Ht].
    + unfold EntryDef_validateWebhook. destruct (is_empty (EntryDef_Method e)) eqn:Em.
      * rewrite (m_seq_none _ _ e (e <| EntryDef_Method := "POST" |>)) by (unfold m_assign_if; by rewrite Em).
        needs. eauto.
      * rewrite (m_seq_none _ _ e e) by (by apply m_skip). needs. eauto.
    + unfold EntryDef_validateWebSocket. needs. eauto.
    + unfold EntryDef_validateSSE. needs. eauto.
  - rewrite Ht. cbn. unfold EntryDef_validateFile. needs. rewrite Est.
    destruct Hst as [Hs|[Hs Hpath]]; rewrite Hs; cbn; [eauto|].
    rewrite (proj2 (is_empty_false _) Hpath). eauto.
  - rewrite Ht. cbn. unfold EntryDef_validateAsync.
    rewrite (m_seq_none _ _ e e).
    2:{ apply m_check_ok. split; [|done]. rewrite andb_false_iff, !is_empty_false. done. }
    destruct (is_empty (EntryDef_Path e)) eqn:Ep.
    + erewrite m_seq_none by (unfold m_assign_if; rewrite Ep; reflexivity). needs. eauto.
    + rewrite (m_seq_none _ _ e e) by (by apply m_skip). needs. eauto.
  - rewrite Ht. cbn. unfold EntryDef_validateGraphQL. needs. eauto.
  - rewrite Ht. cbn. unfold EntryDef_validateGRPC. needs. eauto.
Qed.

(** A valid entry is left as it is. *)
Lemma valid_entry_fixed (e : EntryDef) : valid_entry e -> EntryDef_Validate e = (e, None).
Proof.
  unfold EntryDef_Validate.
  intros [[Ht Hm Hd|Ht Hm Hp Hh|Ht Hp Hh|Ht Hm Hp Hh (st & Est & Hst)|Ht Hpr Hh|Ht Hp|Ht Hp] Hpath Hmeth Hcrud].
  - rewrite Ht in *. cbn. unfold EntryDef_validateCRUD. needs.
    destruct (Hcrud eq_refl) as [Htab Hres]. specialize (Hpath ltac:(done)).
    apply is_empty_false in Hpath, Htab, Hres.
    unfold m_seq, m_assign_if. by rewrite Htab, Hres, Hpath.
  - rewrite Ht. cbn. unfold EntryDef_validateREST. by needs.
  - rewrite !elem_of_cons in Ht. destruct Ht as [Ht|[Ht|[Ht|Ht]]]; [rewrite Ht in *; cbn..|by apply not_elem_of_nil in Ht].
    + unfold EntryDef_validateWebhook. rewrite (m_seq_none _ _ e e); [by needs|].
      apply m_skip. apply is_empty_false. by apply Hmeth.
    + unfold EntryDef_validateWebSocket. by needs.
    + unfold EntryDef_validateSSE. by needs.
  - rewrite Ht. cbn. unfold EntryDef_validateFile. needs. rewrite Est.
    destruct Hst as [Hs|[Hs Hpt]]; rewrite Hs; cbn; [done|].
    by rewrite (proj2 (is_empty_false _) Hpt).
  - rewrite Ht in *. cbn. unfold EntryDef_validateAsync.
    specialize (Hpath ltac:(done)). apply is_empty_false in Hpath.
    rewrite (m_seq_none _ _ e e) by (apply m_check_ok; by rewrite Hpath).
    rewrite (m_seq_none _ _ e e) by (by apply m_skip). by needs.
  - rewrite Ht. cbn. unfold EntryDef_validateGraphQL. by needs.
  - rewrite Ht. cbn. unfold EntryDef_validateGRPC. by needs.
Qed.
(** *** Databases *)

Lemma resolveAuthToken_resolved (d : DBConfig) : env_flat -> token_resolved (DBConfig_resolveAuthToken d).
Proof.
  intros Henv. unfold DBConfig_resolveAuthToken.
  destruct (is_empty (DBConfig_AuthToken d)) eqn:E1; cbn [orb].
  { apply is_empty_true in E1. intros Hp. by rewrite E1 in Hp. }
  destruct (HasPrefix (DBConfig_AuthToken d) "${") eqn:E2; cbn [negb].
  2:{ intros Hp. congruence. }
  destruct (is_empty (getenv (TrimSuffix (TrimPrefix (DBConfig_AuthToken d) "${") "}"))) eqn:E3; cbn [negb].
  - intros _. by apply is_empty_true.
  - intros Hp. exfalso. pose proof (eq_trans (eq_sym Hp) (Henv _)). discriminate.
Qed.

Lemma resolveAuthToken_fixed (d : DBConfig) : token_resolved d -> DBConfig_resolveAuthToken d = d.
Proof.
  intros Ht. unfold DBConfig_resolveAuthToken, token_resolved in *.
  destruct (is_empty (DBConfig_AuthToken d)); cbn [orb]; [done|].
  destruct (HasPrefix (DBConfig_AuthToken d) "${"); cbn [negb]; [|done].
  by rewrite (Ht eq_refl).
Qed.

Lemma resolveAuthToken_frame (d : DBConfig) :
  let d' := DBConfig_resolveAuthToken d in
  DBConfig_Name d' = DBConfig_Name d /\ DBConfig_URL d' = DBConfig_URL d /\ DBConfig_Driver d' = DBConfig_Driver d.
Proof. cbn. unfold DBConfig_resolveAuthToken. destruct (_ || _); [done|]. by destruct (negb _). Qed.

Lemma PoolConf_defaults_ok (p : PoolConf) :
  let p' := PoolConf_defaults p in
  (1 <= PoolConf_MaxConns p')%Z /\ (1 <= PoolConf_MinConns p')%Z /\ (1 <= PoolConf_ReservedConns p')%Z.
Proof.
  destruct p as [mx mn l it hc rs sto]. unfold PoolConf_defaults. cbn.
  destruct (Z.ltb_spec mx 1); cbn; destruct (Z.ltb_spec mn 1); cbn; destruct (Z.ltb_spec rs 1); cbn; lia.
Qed.

Lemma PoolConf_defaults_fixed (p : PoolConf) :
  (1 <= PoolConf_MaxConns p)%Z -> (1 <= PoolConf_MinConns p)%Z -> (1 <= PoolConf_ReservedConns p)%Z ->
  PoolConf_defaults p = p.
Proof.
  intros H1 H2 H3. unfold PoolConf_defaults.
  rewrite (proj2 (Z.ltb_ge _ _) H1), (proj2 (Z.ltb_ge _ _) H2), (proj2 (Z.ltb_ge _ _) H3). done.
Qed.

Lemma TursoConf_Validate_ok (t t' : TursoConf) :
  TursoConf_Validate t = (t', None) ->
  (TursoConf_Mode t' = "local" \/ TursoConf_Mode t' = "remote") /\ (0 <= TursoConf_BusyTimeout t')%Z.
Proof.
  intros H. unfold TursoConf_Validate in H. m_inv.
  destruct (String.eqb_spec (TursoConf_Mode t) "local"); cbn in *;
    destruct (String.eqb_spec (TursoConf_Mode t) "remote"); cbn in *; try done;
    destruct (Z.ltb_spec (TursoConf_BusyTimeout t) 0); cbn; auto with lia.
Qed.

Lemma TursoConf_Validate_fixed (t : TursoConf) :
  TursoConf_Mode t = "local" \/ TursoConf_Mode t = "remote" -> (0 <= TursoConf_BusyTimeout t)%Z ->
  TursoConf_Validate t = (t, None).
Proof.
  intros Hm Hb. unfold TursoConf_Validate. rewrite (m_seq_none _ _ t t).
  - apply m_skip. by apply Z.ltb_ge.
  - apply m_check_ok. split; [|done]. by destruct Hm as [->| ->].
Qed.

Lemma normalizeDriver_ok (d d' : DBConfig) :
  DBConfig_normalizeDriver d = (d', None) ->
  DBConfig_Name d' = DBConfig_Name d /\ DBConfig_URL d' = DBConfig_URL d /\
  DBConfig_AuthToken d' = DBConfig_AuthToken d /\
  DBConfig_Driver d' ∈ ["postgres"; "turso"; "turso-serverless"; "libsql"; "go-libsql"; "mysql"; "mongo"] /\
  (DBConfig_Driver d' = "turso" -> exists t, DBConfig_Turso d' = Some t /\
    (TursoConf_Mode t = "local" \/ TursoConf_Mode t = "remote") /\ (0 <= TursoConf_BusyTimeout t)%Z) /\
  (DBConfig_Driver d' ∈ ["turso-serverless"; "libsql"; "go-libsql"] -> is_Some (DBConfig_Turso d')).
Proof.
  unfold DBConfig_normalizeDriver.
  destruct (str_in (DBConfig_Driver d) ["postgres"; "pg"]) eqn:E1.
  { intros [= <-]. cbn. repeat split; [set_solver|done|]. intros H. set_solver. }
  destruct (String.eqb_spec (DBConfig_Driver d) "turso") as [E2|E2].
  { destruct (TursoConf_Validate _) as [t' err] eqn:Et. intros [= <- ->].
    apply TursoConf_Validate_ok in Et. cbn. rewrite E2. repeat split; [set_solver|eauto..]. }
  destruct (str_in (DBConfig_Driver d) ["turso-serverless"; "libsql"; "go-libsql"]) eqn:E3.
  { apply str_in_spec in E3. destruct (DBConfig_Turso d) eqn:Et; intros [= <-]; cbn;
      (repeat split; [set_solver|set_solver|]); rewrite ?Et; eauto. }
  destruct (str_in (DBConfig_Driver d) ["mysql"; "mongo"]) eqn:E4; [|done].
  apply str_in_spec in E4. intros [= <-]. repeat split; [set_solver|done|]. intros H%str_in_spec. congruence.
Qed.

Lemma DBConfig_Validate_ok (d d' : DBConfig) :
  DBConfig_Validate d = (d', None) -> valid_db d'.
Proof.
  intros H. unfold DBConfig_Validate in H. m_inv. empties.
  destruct (resolveAuthToken_frame d) as (En & Eu & _).
  pose proof (resolveAuthToken_resolved d) as Htok.
  match goal with H : DBConfig_normalizeDriver _ = (?d1, None) |- _ =>
    destruct (normalizeDriver_ok _ _ H) as (En' & Eu' & Et' & Hdrv & Hturso & Hrem); clear H; rename d1 into dn end.
  assert (Htok' : env_flat -> token_resolved dn) by (unfold token_resolved in *; by rewrite Et').
  destruct (String.eqb_spec (DBConfig_Driver dn) "mongo") as [Em|Em]; cbn [negb].
  - constructor; try done; unfold nonempty in *; congruence.
  - constructor; try done; cbn; try (unfold nonempty in *; congruence).
    intros _. eexists. split; [reflexivity|]. apply PoolConf_defaults_ok.
Qed.

Lemma normalizeDriver_fixed (d : DBConfig) : valid_db d -> DBConfig_normalizeDriver d = (d, None).
Proof.
  intros [Hn Hu Hdrv Htok Hturso Hrem Hpool]. unfold DBConfig_normalizeDriver.
  rewrite !elem_of_cons in Hdrv.
  destruct Hdrv as [E|[E|[E|[E|[E|[E|[E|E]]]]]]]; [rewrite E in *; cbn -[TursoConf_Validate]..|by apply not_elem_of_nil in E].
  - destruct d; cbn in *. by subst.
  - destruct (Hturso eq_refl) as (t & Et & Hm & Hb). rewrite Et, (TursoConf_Validate_fixed t Hm Hb).
    destruct d; cbn in *. by subst.
  - destruct (Hrem ltac:(set_solver)) as [t ->]. done.
  - destruct (Hrem ltac:(set_solver)) as [t ->]. done.
  - destruct (Hrem ltac:(set_solver)) as [t ->]. done.
  - done.
  - done.
Qed.

Lemma valid_db_fixed (d : DBConfig) : env_flat -> valid_db d -> DBConfig_Validate d = (d, None).
Proof.
  intros Henv Hv. pose proof Hv as [Hn Hu Hdrv Htok Hturso Hrem Hpool].
  assert (Hd : nonempty (DBConfig_Driver d)) by (intros E; rewrite E in Hdrv; set_solver).
  unfold DBConfig_Validate.
  rewrite (m_seq_none _ _ d d) by (by apply m_need_ok).
  rewrite (m_seq_none _ _ d d) by (by apply m_need_ok).
  rewrite (m_seq_none _ _ d d) by (by apply m_need_ok).
  rewrite (m_seq_none _ _ d d) by (unfold m_assign_if; rewrite resolveAuthToken_fixed; auto).
  rewrite (m_seq_none _ _ d d) by (by apply normalizeDriver_fixed).
  unfold m_assign_if. destruct (String.eqb_spec (DBConfig_Driver d) "mongo") as [|Hm]; cbn [negb]; [done|].
  destruct (Hpool Hm) as (p & Ep & H1 & H2 & H3). rewrite Ep, PoolConf_defaults_fixed by done.
  f_equal. destruct d; cbn in *. by subst.
Qed.
(** *** Exit workers and cron jobs *)

Record valid_exit (e : ExitWorker) : Prop := {
  vx_name : nonempty (ExitWorker_Name e);
  vx_stream : nonempty (SubscribeDef_Stream (ExitWorker_Subscribe e));
  vx_handler : nonempty (ExitWorker_Handler e);
  vx_subject : nonempty (SubscribeDef_Subject (ExitWorker_Subscribe e));
  vx_durable : nonempty (SubscribeDef_Durable (ExitWorker_Subscribe e));
  vx_conc : (1 <= ExitWorker_MaxConcurrent e)%Z;
  vx_timeout : nonempty (ExitWorker_ReplyTimeout e)
}.

Lemma ExitWorker_Validate_ok (e e' : ExitWorker) :
  ExitWorker_Validate e = (e', None) -> valid_exit e' /\ ExitWorker_DB e' = ExitWorker_DB e.
Proof.
  destruct e as [nm [st sub dur] h mc db rp rt pb pw cm es tf].
  intros H. unfold ExitWorker_Validate in H. m_inv. cbn -[is_empty Z.ltb] in *.
  destruct (is_empty sub) eqn:E1; cbn -[is_empty Z.ltb];
  destruct (is_empty dur) eqn:E2; cbn -[is_empty Z.ltb];
  destruct (Z.ltb_spec mc 1); cbn -[is_empty Z.ltb];
  destruct (is_empty rt) eqn:E3; cbn -[is_empty Z.ltb]; empties;
    (split; [|done]); (constructor; cbn; first [done | lia | by destruct nm]).
Qed.

Lemma valid_exit_fixed (e : ExitWorker) : valid_exit e -> ExitWorker_Validate e = (e, None).
Proof.
  intros [Hn Hs Hh Hsu Hd Hc Ht]. unfold ExitWorker_Validate.
  do 3 (rewrite (m_seq_none _ _ e e) by (by apply m_need_ok)).
  do 2 (rewrite (m_seq_none _ _ e e) by (apply m_skip; by apply is_empty_false)).
  rewrite (m_seq_none _ _ e e) by (apply m_skip; by apply Z.ltb_ge).
  apply m_skip. by apply is_empty_false.
Qed.

Definition valid_cron (c : CronJob) : Prop :=
  nonempty (CronJob_Name c) /\ nonempty (CronJob_Schedule c) /\
  (CronJob_Mode c = "nats" /\ (exists p, CronJob_Publish c = Some p /\ nonempty (CronPublish_Stream p) /\
     nonempty (CronPublish_Subject p)) \/
   CronJob_Mode c = "handler" /\ nonempty (CronJob_Handler c) \/
   CronJob_Mode c = "internal").

Lemma CronJob_Validate_ok (c c' : CronJob) : CronJob_Validate c = (c', None) -> valid_cron c'.
Proof.
  destruct c as [nm sch md pub h]. intros H. unfold CronJob_Validate in H. m_inv. cbn -[is_empty String.eqb] in *.
  empties. set (m := if is_empty md then _ else _) in H.
  assert (Em : CronJob_Name m = nm /\ CronJob_Schedule m = sch /\ CronJob_Publish m = pub /\ CronJob_Handler m = h)
    by (subst m; by destruct (is_empty md)).
  destruct Em as (En & Es & Ep & Eh). rewrite Ep, Eh in H. clearbody m. unfold valid_cron.
  destruct (String.eqb_spec (CronJob_Mode m) "nats") as [E|_].
  { destruct pub as [p|]; [|done]. destruct (is_empty (CronPublish_Stream p)) eqn:E1; [done|].
    destruct (is_empty (CronPublish_Subject p)) eqn:E2; injection H as <-; empties; cbn; rewrite ?En, ?Es, ?Ep;
      (split; [done|]; split; [done|]; left; split; [done|]; eexists; split; [reflexivity|]; done). }
  destruct (String.eqb_spec (CronJob_Mode m) "handler") as [E|_].
  { destruct (is_empty h) eqn:E1; [done|]. injection H as <-. empties. rewrite En, Es, Eh. naive_solver. }
  destruct (String.eqb_spec (CronJob_Mode m) "internal") as [E|_]; [|done].
  injection H as <-. rewrite En, Es. naive_solver.
Qed.

Lemma valid_cron_fixed (c : CronJob) : valid_cron c -> CronJob_Validate c = (c, None).
Proof.
  intros (Hn & Hs & Hcase). unfold CronJob_Validate.
  assert (Hm : nonempty (CronJob_Mode c)) by (unfold nonempty; destruct Hcase as [[-> _]|[[-> _]| ->]]; done).
  do 2 (rewrite (m_seq_none _ _ c c) by (by apply m_need_ok)).
  rewrite (m_seq_none _ _ c c) by (apply m_skip; by apply is_empty_false).
  destruct Hcase as [[-> (p & -> & H1 & H2)]|[[-> H1]| ->]]; cbn -[is_empty].
  - by rewrite (proj2 (is_empty_false _) H1), (proj2 (is_empty_false _) H2).
  - by rewrite (proj2 (is_empty_false _) H1).
  - done.
Qed.

(** *** Loops *)

(** A loop that validates each element and applies a check to it. *)
Lemma for_range_validate {A} (V : method A cfg_error) (bad : A -> bool) err1 err2 xs xs' : forall i,
  for_range (fun i x (_ : unit) =>
    match V x with
    | (x, Some err) => (x, inr (err1 i err))
    | (x, None) => if bad x then (x, inr (err2 i x)) else (x, inl tt)
    end) i xs tt = (xs', inl tt) <->
  Forall2 (fun x x' => V x = (x', None) /\ bad x' = false) xs xs'.
Proof.
  revert xs'. induction xs as [|x xs IH]; intros xs' i; cbn.
  - split; [intros [= <-]; constructor|]. intros H. by inversion H.
  - destruct (V x) as [y [e|]] eqn:Ev.
    { split; [done|]. intros H. inversion H; subst. destruct H2 as [H2 _]. congruence. }
    destruct (bad y) eqn:Eb.
    { split; [done|]. intros H. inversion H; subst. destruct H2 as [H2 H2']. congruence. }
    destruct (for_range _ (S i) xs tt) as [ys r] eqn:Er. split.
    + intros [= <- ->]. constructor; [by split; [rewrite Ev|]|]. by eapply IH.
    + intros H. inversion H; subst. destruct H2 as [H2 _]. rewrite Ev in H2. simplify_eq.
      apply (IH l' (S i)) in H4. rewrite Er in H4. by simplify_eq.
Qed.

Lemma check_names_ok {A} (section : string) (name : A -> string) (extra : A -> option cfg_error) (xs : list A) seen :
  check_names section name extra xs = inl seen <->
  Forall (fun x => nonempty (name x) /\ extra x = None) xs /\ NoDup (name <$> xs) /\
  seen = list_to_set (name <$> xs).
Proof.
  unfold check_names.
  assert (H : forall i acc r,
    (for_range (fun i x (seen : gset string) =>
      if is_empty (name x) then (x, inr (ErrAt section i (ErrRequired "name")))
      else if bool_decide (name x ∈ seen) then (x, inr (ErrAt section i (ErrDuplicate (name x))))
      else match extra x with
           | Some err => (x, inr (ErrAt section i err))
           | None => (x, inl ({[name x]} ∪ seen))
           end) i xs acc).2 = inl r <->
    Forall (fun x => nonempty (name x) /\ extra x = None) xs /\ NoDup (name <$> xs) /\
    (forall x, x ∈ name <$> xs -> x ∉ acc) /\ r = list_to_set (name <$> xs) ∪ acc).
  { induction xs as [|x xs IH]; intros i acc r; cbn.
    - split; [intros [= <-]; split; [constructor|]; split; [constructor|]; split; set_solver|].
      intros (_ & _ & _ & ->). f_equal. set_solver.
    - destruct (is_empty (name x)) eqn:E1; cbn.
      { split; [done|]. intros (H & _). apply Forall_cons in H as [[Hn _] _]. empties. done. }
      case_bool_decide as E2; cbn.
      { split; [done|]. intros (_ & _ & H & _). exfalso. apply (H (name x)); [set_solver|done]. }
      destruct (extra x) as [err|] eqn:E3; cbn.
      { split; [done|]. intros (H & _). apply Forall_cons in H as [[_ Hn] _]. congruence. }
      specialize (IH (S i) ({[name x]} ∪ acc) r).
      destruct (for_range _ (S i) xs _) as [ys q] eqn:Er. cbn in IH |- *. rewrite IH.
      rewrite Forall_cons, NoDup_cons. empties.
      split.
      + intros (H1 & H2 & H3 & ->). split; [done|]. split; [split; [|done]|split].
        * intros Hin. apply (H3 (name x)); [done|set_solver].
        * intros y [->|Hy]%elem_of_cons; [done|]. specialize (H3 y Hy). set_solver.
        * set_solver.
      + intros ([_ H1] & [H2 H2'] & H3 & ->). split; [done|]. split; [done|]. split; [|set_solver].
        intros y Hy. specialize (H3 y). set_solver. }
  rewrite H. split; [intros (? & ? & _ & ->)|intros (? & ? & ->)]; (split; [done|]; split; [done|]); [|split]; set_solver.
Qed.

Lemma check_refs_ok (what : string) (ref : EntryDef -> string) (seen : gset string) (es : list EntryDef) :
  check_refs what ref seen es = None <-> Forall (fun e => ref e = "" \/ ref e ∈ seen) es.
Proof.
  unfold check_refs. generalize 0%nat as i.
  induction es as [|e es IH]; intros i; cbn; [by split; [constructor|]|].
  rewrite Forall_cons, <- (IH (S i)). destruct (is_empty (ref e)) eqn:E; cbn.
  - empties. destruct (for_range _ (S i) es tt) as [? []]; cbn; naive_solver.
  - empties. case_bool_decide as E2; cbn; [|split; [done|]; by intros [[?|?] _]].
    destruct (for_range _ (S i) es tt) as [? []]; cbn; (split; [intros ?|intros [_ ?]]); auto.
Qed.
Lemma for_range_databases (dbs dbs' : list DBConfig) err1 err2 : forall i (seen : gset string),
  (exists r, for_range (fun i d (seen : gset string) =>
    match DBConfig_Validate d with
    | (d, Some err) => (d, inr (err1 i err))
    | (d, None) =>
        if bool_decide (DBConfig_Name d ∈ seen) then (d, inr (err2 i d))
        else (d, inl ({[DBConfig_Name d]} ∪ seen))
    end) i dbs seen = (dbs', inl r)) <->
  Forall2 (fun d d' => DBConfig_Validate d = (d', None)) dbs dbs' /\ NoDup (DBConfig_Name <$> dbs') /\
  (forall x, x ∈ DBConfig_Name <$> dbs' -> x ∉ seen).
Proof.
  revert dbs'. induction dbs as [|d dbs IH]; intros dbs' i seen; cbn -[DBConfig_Validate].
  - split.
    + intros [r [= <- _]]. split; [constructor|]. split; [constructor|set_solver].
    + intros (H & _). inversion H. eauto.
  - destruct (DBConfig_Validate d) as [d1 [e|]] eqn:Ev.
    { split; [by intros [? ?]|]. intros (H & _). inversion H; subst. congruence. }
    case_bool_decide as Es.
    { split; [by intros [? ?]|]. intros (H & _ & Hd). inversion H; subst.
      exfalso. apply (Hd (DBConfig_Name d1)); [|done]. rewrite Ev in H2. simplify_eq. set_solver. }
    destruct (for_range _ (S i) dbs _) as [ys q] eqn:Er. split.
    + intros [r [= <- ->]]. specialize (IH ys (S i) ({[DBConfig_Name d1]} ∪ seen)). rewrite Er in IH.
      destruct (proj1 IH ltac:(eauto)) as (H1 & H2 & H3). split; [by constructor|]. cbn.
      split; [apply NoDup_cons; split; [|done]; intros Hin; apply (H3 _ Hin); set_solver|].
      intros x [->|Hx]%elem_of_cons; [done|]. specialize (H3 x Hx). set_solver.
    + intros (H & Hnd & Hd). inversion H as [|? y ? l' Hy Hl]; subst. rewrite Ev in Hy. injection Hy as <-.
      cbn in Hnd. apply NoDup_cons in Hnd as [Hn Hnd].
      destruct (proj2 (IH l' (S i) ({[DBConfig_Name d1]} ∪ seen))) as [r Hr].
      { split; [done|]. split; [done|]. intros x Hx. specialize (Hd x). set_solver. }
      rewrite Er in Hr. injection Hr as -> ->. eauto.
Qed.

(** ** Valid configurations *)

Definition deploy_ok (cfg : ServiceConfig) : Prop :=
  forall dep, ServiceConfig_Deploy cfg = Some dep -> nonempty (DeployConfig_Target dep) ->
  DeployConfig_Target dep ∈ validTargets /\
  (DeployConfig_Target dep = "vercel" ->
     ServerConf_Prefork (ServiceConfig_Server cfg) = false /\
     forall t, ServerConf_TLS (ServiceConfig_Server cfg) = Some t -> TLSConf_Enabled t = false).

(** A reference to a database is empty, or resolves, or there are no databases. *)
Definition db_ref_ok (cfg : ServiceConfig) (ref : string) : Prop :=
  ref = "" \/ ref ∈ DBConfig_Name <$> ServiceConfig_Databases cfg \/ ServiceConfig_Databases cfg = [].

Definition names_ok {A} (name : A -> string) (xs : list A) : Prop :=
  Forall (fun x => nonempty (name x)) xs /\ NoDup (name <$> xs).

Definition rate_limit_ok (cfg : ServiceConfig) (rl : RateLimitConf) : Prop :=
  (RateLimitConf_KV rl = "" \/ RateLimitConf_KV rl ∈ KVConfig_Name <$> ServiceConfig_KV cfg) /\
  (ServiceConfig_KV cfg = [] \/ Forall (fun e => EntryDef_Cache e = "" \/
     EntryDef_Cache e ∈ KVConfig_Name <$> ServiceConfig_KV cfg) (ServiceConfig_Entry cfg)).

Record valid_config (cfg : ServiceConfig) : Prop := {
  vc_mode : ServerConf_Mode (ServiceConfig_Server cfg) ∈ ["monolith"; "micro"];
  vc_deploy : deploy_ok cfg;
  vc_dbs : Forall valid_db (ServiceConfig_Databases cfg);
  vc_db_names : NoDup (DBConfig_Name <$> ServiceConfig_Databases cfg);
  vc_cors_names : names_ok CORSGroupConf_Name (ServerConf_CORSGroups (ServiceConfig_Server cfg));
  vc_cors_refs : Forall (fun e => EntryDef_CORS e = "" \/
    EntryDef_CORS e ∈ CORSGroupConf_Name <$> ServerConf_CORSGroups (ServiceConfig_Server cfg)) (ServiceConfig_Entry cfg);
  vc_csp_names : names_ok CSPGroupConf_Name (ServerConf_CSPGroups (ServiceConfig_Server cfg));
  vc_csp_refs : Forall (fun e => EntryDef_CSP e = "" \/
    EntryDef_CSP e ∈ CSPGroupConf_Name <$> ServerConf_CSPGroups (ServiceConfig_Server cfg)) (ServiceConfig_Entry cfg);
  vc_stream_names : names_ok StreamConfig_Name (ServiceConfig_Stream cfg);
  vc_stream_drivers : Forall (fun st => StreamConfig_Driver st ∈ ["nats"; "kafka"]) (ServiceConfig_Stream cfg);
  vc_entries : Forall valid_entry (ServiceConfig_Entry cfg);
  vc_entry_dbs : Forall (fun e => db_ref_ok cfg (EntryDef_DB e)) (ServiceConfig_Entry cfg);
  vc_exits : Forall valid_exit (ServiceConfig_Exit cfg);
  vc_exit_dbs : Forall (fun e => db_ref_ok cfg (ExitWorker_DB e)) (ServiceConfig_Exit cfg);
  vc_crons : Forall valid_cron (ServiceConfig_Cron cfg);
  vc_kv_names : names_ok KVConfig_Name (ServiceConfig_KV cfg);
  vc_kv_urls : Forall (fun kv => nonempty (KVConfig_URL kv)) (ServiceConfig_KV cfg);
  vc_rate_limit : forall rl, ServerConf_RateLimit (ServiceConfig_Server cfg) = Some rl ->
    RateLimitConf_Enabled rl = true -> rate_limit_ok cfg rl
}.

Lemma check_names_None {A} (section : string) (name : A -> string) extra (xs : list A) :
  loop_err (check_names section name extra xs) = None <->
  names_ok name xs /\ Forall (fun x => extra x = None) xs.
Proof.
  assert (H : loop_err (check_names section name extra xs) = None <->
    exists seen, check_names section name extra xs = inl seen)
    by (destruct (check_names section name extra xs); cbn; naive_solver).
  rewrite H. setoid_rewrite check_names_ok. unfold names_ok. split.
  - intros (_ & H1 & H2 & _). apply Forall_and in H1. naive_solver.
  - intros [[H1 H2] H3]. exists (list_to_set (name <$> xs)). rewrite Forall_and. naive_solver.
Qed.

Lemma db_missing_false (cfg : ServiceConfig) (ref : string) : db_missing cfg ref = false <-> db_ref_ok cfg ref.
Proof.
  unfold db_missing, db_ref_ok, seenDB.
  destruct (is_empty ref) eqn:E; cbn [negb andb]; empties; [by split; [left|]|].
  case_bool_decide as E2; rewrite elem_of_list_to_set in E2; cbn [negb andb]; [split; [by right; left|by left]|].
  destruct (ServiceConfig_Databases cfg); [split; [by right; right|by right]|].
  split; [by intros [?|?]|by intros [?|[?|?]]].
Qed.

Lemma groups_ok {A} section what (name : A -> string) (ref : EntryDef -> string) (xs : list A) (cfg cfg' : ServiceConfig) :
  match check_names section name (fun _ => None) xs with
  | inr err => (cfg, Some err)
  | inl seen => (cfg, check_refs what ref seen (ServiceConfig_Entry cfg))
  end = (cfg', None) <->
  cfg' = cfg /\ names_ok name xs /\
  Forall (fun e => ref e = "" \/ ref e ∈ name <$> xs) (ServiceConfig_Entry cfg).
Proof.
  destruct (check_names section name (fun _ => None) xs) as [seen|err] eqn:E.
  - apply check_names_ok in E as (H1 & H2 & ->).
    assert (Hn : names_ok name xs) by (split; [eapply Forall_impl; [exact H1|]; naive_solver|done]).
    rewrite pair_equal_spec, check_refs_ok. setoid_rewrite elem_of_list_to_set. naive_solver.
  - split; [done|]. intros (_ & [H1 H2] & _).
    rewrite (proj2 (check_names_ok section name (fun _ => None) xs (list_to_set (name <$> xs)))) in E; [done|].
    split; [|by split]. eapply Forall_impl; [exact H1|]. naive_solver.
Qed.
(** *** Each section validator *)

Lemma serverMode_ok (cfg cfg' : ServiceConfig) :
  validateServerMode cfg = (cfg', None) ->
  ServerConf_Mode (ServiceConfig_Server cfg') ∈ ["monolith"; "micro"].
Proof.
  unfold validateServerMode. intros H. m_inv.
  match goal with H : negb _ = false |- _ => apply negb_false_iff, str_in_spec in H; exact H end.
Qed.

Lemma deploy_check (cfg cfg' : ServiceConfig) :
  validateConfigDeploy cfg = (cfg', None) <-> cfg' = cfg /\ deploy_ok cfg.
Proof.
  unfold validateConfigDeploy, deploy_ok. destruct (ServiceConfig_Deploy cfg) as [dep|]; [|naive_solver].
  destruct (is_empty (DeployConfig_Target dep)) eqn:E1; cbn [orb].
  { empties. split; [intros [= <-]; split; [done|]|by intros [-> _]]. intros ? [= <-] Hn. done. }
  destruct (String.eqb_spec (DeployConfig_Target dep) "auto") as [E2|E2].
  { split; [intros [= <-]; split; [done|]|by intros [-> _]]. intros ? [= <-] _. rewrite E2.
    split; [set_solver|done]. }
  apply is_empty_false in E1.
  destruct (str_in (DeployConfig_Target dep) validTargets) eqn:E3; cbn [negb].
  2:{ split; [done|]. intros [_ H]. destruct (H dep eq_refl E1) as [Hin _].
      apply str_in_spec in Hin. congruence. }
  apply str_in_spec in E3.
  destruct (String.eqb_spec (DeployConfig_Target dep) "vercel") as [E4|E4].
  - rewrite !andb_true_r. destruct (ServerConf_Prefork (ServiceConfig_Server cfg)) eqn:Ep.
    { split; [done|]. intros [_ H]. destruct (H dep eq_refl E1) as [_ Hv]. destruct (Hv E4). done. }
    destruct (ServerConf_TLS (ServiceConfig_Server cfg)) as [t|] eqn:Et.
    + destruct (TLSConf_Enabled t) eqn:Ee.
      * split; [done|]. intros [_ H]. destruct (H dep eq_refl E1) as [_ Hv]. destruct (Hv E4) as [_ Hv'].
        specialize (Hv' t eq_refl). congruence.
      * split; [intros [= <-]; split; [done|]|by intros [-> _]].
        intros ? [= <-] _. split; [done|]. intros _. split; [done|]. by intros ? [= <-].
    + split; [intros [= <-]; split; [done|]|by intros [-> _]].
      intros ? [= <-] _. split; [done|]. intros _. by split.
  - rewrite !andb_false_r. split; [intros [= <-]; split; [done|]|by intros [-> _]].
    intros ? [= <-] _. by split.
Qed.

Lemma databases_ok (cfg cfg' : ServiceConfig) :
  validateConfigDatabases cfg = (cfg', None) <->
  exists dbs, cfg' = cfg <| ServiceConfig_Databases := dbs |> /\
    Forall2 (fun d d' => DBConfig_Validate d = (d', None)) (ServiceConfig_Databases cfg) dbs /\
    NoDup (DBConfig_Name <$> dbs).
Proof.
  unfold validateConfigDatabases.
  pose proof (fun dbs' => for_range_databases (ServiceConfig_Databases cfg) dbs' (fun i e => ErrAt "databases" i e)
      (fun i d => ErrAt "databases" i (ErrDuplicate (DBConfig_Name d))) 0%nat ∅) as Hfr.
  destruct (for_range _ _ _ _) as [dbs r] eqn:Er. split.
  - intros [= <- Hr]. exists dbs. split; [done|]. destruct r as [r|]; [|done].
    destruct (proj1 (Hfr dbs) ltac:(eauto)) as (? & ? & _). done.
  - intros (dbs' & -> & H1 & H2). destruct (proj2 (Hfr dbs')) as [q Hq]; [set_solver|].
    by injection Hq as -> ->.
Qed.

Lemma section_ok {A} (V : method A cfg_error) (bad : A -> bool) err1 err2 (xs : list A)
    (setf : list A -> ServiceConfig) (cfg' : ServiceConfig) :
  (let '(ys, r) := for_range (fun i x (_ : unit) =>
    match V x with
    | (x, Some err) => (x, inr (err1 i err))
    | (x, None) => if bad x then (x, inr (err2 i x)) else (x, inl tt)
    end) 0 xs tt in (setf ys, loop_err r)) = (cfg', None) <->
  exists ys, cfg' = setf ys /\ Forall2 (fun x x' => V x = (x', None) /\ bad x' = false) xs ys.
Proof.
  destruct (for_range _ _ _ _) as [ys r] eqn:Er. split.
  - intros [= <- Hr]. exists ys. split; [done|]. destruct r as [[]|]; [|done].
    by eapply for_range_validate.
  - intros (ys' & -> & H). apply (for_range_validate V bad err1 err2 xs ys' 0%nat) in H.
    rewrite Er in H. by injection H as -> ->.
Qed.

Lemma rate_limit_check (cfg cfg' : ServiceConfig) :
  validateConfigRateLimit cfg = (cfg', None) <-> cfg' = cfg /\
  forall rl, ServerConf_RateLimit (ServiceConfig_Server cfg) = Some rl ->
    RateLimitConf_Enabled rl = true -> rate_limit_ok cfg rl.
Proof.
  unfold validateConfigRateLimit.
  destruct (ServerConf_RateLimit (ServiceConfig_Server cfg)) as [rl|]; [|naive_solver].
  destruct (RateLimitConf_Enabled rl) eqn:Ee; cbn [negb].
  2:{ split; [intros [= <-]; split; [done|]|by intros [-> _]]. intros ? [= <-] ?. congruence. }
  assert (Hfound : existsb (fun kv => String.eqb (KVConfig_Name kv) (RateLimitConf_KV rl)) (ServiceConfig_KV cfg) = true
    <-> RateLimitConf_KV rl ∈ KVConfig_Name <$> ServiceConfig_KV cfg).
  { rewrite existsb_exists, list_elem_of_fmap. setoid_rewrite <- list_elem_of_In.
    setoid_rewrite String.eqb_eq. naive_solver. }
  transitivity (cfg' = cfg /\ rate_limit_ok cfg rl).
  2:{ split; [intros [-> H]; split; [done|]; by intros ? [= <-]|].
      intros [-> H]. split; [done|]. by apply (H rl). }
  unfold rate_limit_ok.
  assert (HP : negb (is_empty (RateLimitConf_KV rl)) &&
    negb (existsb (fun kv => String.eqb (KVConfig_Name kv) (RateLimitConf_KV rl)) (ServiceConfig_KV cfg)) = false <->
    RateLimitConf_KV rl = "" \/ RateLimitConf_KV rl ∈ KVConfig_Name <$> ServiceConfig_KV cfg).
  { rewrite andb_false_iff, !negb_false_iff, is_empty_true, Hfound. done. }
  destruct (negb _ && negb _).
  { split; [done|]. intros (_ & Hp & _). by apply HP in Hp. }
  pose proof (proj1 HP eq_refl) as Hp.
  destruct (ServiceConfig_KV cfg) as [|kv kvs]; [split; [intros [= <-]; auto|by intros (-> & _)]|].
  rewrite pair_equal_spec, check_refs_ok. setoid_rewrite elem_of_list_to_set. naive_solver.
Qed.
Lemma Forall2_right {A B} (P : A -> B -> Prop) (Q : B -> Prop) (l : list A) (l' : list B) :
  Forall2 P l l' -> (forall x y, P x y -> Q y) -> Forall Q l'.
Proof. intros H Hi. induction H; constructor; eauto. Qed.

Lemma Forall2_transport {A B} (P : A -> B -> Prop) (Q : A -> Prop) (R : B -> Prop) (l : list A) (l' : list B) :
  Forall2 P l l' -> Forall Q l -> (forall x y, P x y -> Q x -> R y) -> Forall R l'.
Proof. intros H HQ Hi. induction H; inversion HQ; subst; constructor; eauto. Qed.

Lemma Forall2_same {A} (P : A -> A -> Prop) (l : list A) : Forall (fun x => P x x) l -> Forall2 P l l.
Proof. induction 1; by constructor. Qed.

Lemma stream_driver_ok (sts : list StreamConfig) :
  Forall (fun st => (if negb (String.eqb (StreamConfig_Driver st) "nats") && negb (String.eqb (StreamConfig_Driver st) "kafka")
               then Some (ErrUnknown "driver" (StreamConfig_Driver st)) else None) = None) sts <->
  Forall (fun st => StreamConfig_Driver st ∈ ["nats"; "kafka"]) sts.
Proof.
  apply Forall_iff. intros st. rewrite !elem_of_cons.
  destruct (String.eqb_spec (StreamConfig_Driver st) "nats"), (String.eqb_spec (StreamConfig_Driver st) "kafka");
    cbn; set_solver.
Qed.

Lemma kv_url_ok (kvs : list KVConfig) :
  Forall (fun kv => (if is_empty (KVConfig_URL kv) then Some (ErrRequired "url") else None) = None) kvs <->
  Forall (fun kv => nonempty (KVConfig_URL kv)) kvs.
Proof.
  apply Forall_iff. intros kv. rewrite <- is_empty_false. by destruct (is_empty (KVConfig_URL kv)).
Qed.

Lemma validate_all_ok (cfg cfg' : ServiceConfig) :
  validate_all cfg = (cfg', None) -> valid_config cfg'.
Proof.
  intros H. unfold validate_all in H.
  apply m_seq_ok in H as (c1 & H1 & H). apply serverMode_ok in H1 as Hmode. clear H1.
  apply m_seq_ok in H as (? & H1 & H). apply deploy_check in H1 as [-> Hdep].
  apply m_seq_ok in H as (? & H1 & H). apply databases_ok in H1 as (dbs & -> & Hdbs & Hnd).
  apply m_seq_ok in H as (? & H1 & H). apply groups_ok in H1 as (-> & Hcors & Hcors2).
  apply m_seq_ok in H as (? & H1 & H). apply groups_ok in H1 as (-> & Hcsp & Hcsp2).
  apply m_seq_ok in H as (? & H1 & H). injection H1 as <- [Hst Hst2]%check_names_None.
  apply m_seq_ok in H as (? & H1 & H). apply section_ok in H1 as (es & -> & Hes).
  apply m_seq_ok in H as (? & H1 & H). apply section_ok in H1 as (xs & -> & Hxs).
  apply m_seq_ok in H as (? & H1 & H). 
  apply (section_ok CronJob_Validate (fun _ => false) _ (fun _ _ => ErrDecode)) in H1 as (cs & -> & Hcs).
  apply m_seq_ok in H as (? & H1 & H). injection H1 as <- [Hkv Hkv2]%check_names_None.
  apply rate_limit_check in H as [-> Hrl].
  apply stream_driver_ok in Hst2. apply kv_url_ok in Hkv2.
  constructor; try done.
  - eapply Forall2_right; [exact Hdbs|]. intros d d' Hd. by apply (DBConfig_Validate_ok d d').
  - eapply Forall2_transport; [exact Hes|exact Hcors2|]. intros e e' [He _] Hr.
    destruct (EntryDef_Validate_ok e e' He) as (_ & _ & (_ & _ & -> & _)). exact Hr.
  - eapply Forall2_transport; [exact Hes|exact Hcsp2|]. intros e e' [He _] Hr.
    destruct (EntryDef_Validate_ok e e' He) as (_ & _ & (_ & _ & _ & -> & _)). exact Hr.
  - eapply Forall2_right; [exact Hes|]. intros e e' [He _]. by apply EntryDef_Validate_ok in He as (_ & ? & _).
  - eapply Forall2_right; [exact Hes|]. intros e e' [_ Hb]. by apply db_missing_false in Hb.
  - eapply Forall2_right; [exact Hxs|]. intros e e' [He _]. by apply ExitWorker_Validate_ok in He as [? _].
  - eapply Forall2_right; [exact Hxs|]. intros e e' [_ Hb]. by apply db_missing_false in Hb.
  - eapply Forall2_right; [exact Hcs|]. intros c c' [Hc _]. by apply (CronJob_Validate_ok c c').
Qed.
Lemma valid_config_fixed (cfg : ServiceConfig) : env_flat -> valid_config cfg -> validate_all cfg = (cfg, None).
Proof.
  intros Henv [Hmode Hdep Hdbs Hnd Hcors Hcors2 Hcsp Hcsp2 Hst Hst2 Hes Hedb Hxs Hxdb Hcs Hkv Hkv2 Hrl].
  apply stream_driver_ok in Hst2. apply kv_url_ok in Hkv2. unfold validate_all.
  assert (Hm : nonempty (ServerConf_Mode (ServiceConfig_Server cfg)))
    by (intros E; rewrite E in Hmode; set_solver).
  rewrite (m_seq_none _ _ cfg cfg).
  2:{ unfold validateServerMode. rewrite (m_seq_none _ _ cfg cfg) by (apply m_skip; by apply is_empty_false).
      apply m_check_ok. split; [|done]. by apply negb_false_iff, str_in_spec. }
  rewrite (m_seq_none _ _ cfg cfg) by (by apply deploy_check).
  rewrite (m_seq_none _ _ cfg cfg).
  2:{ apply databases_ok. exists (ServiceConfig_Databases cfg). split; [by destruct cfg|]. split; [|done].
      apply Forall2_same. eapply Forall_impl; [exact Hdbs|]. intros d. by apply valid_db_fixed. }
  rewrite (m_seq_none _ _ cfg cfg) by (by apply groups_ok).
  rewrite (m_seq_none _ _ cfg cfg) by (by apply groups_ok).
  rewrite (m_seq_none _ _ cfg cfg) by (unfold validateConfigStream; f_equal; by apply check_names_None).
  rewrite (m_seq_none _ _ cfg cfg).
  2:{ apply (section_ok EntryDef_Validate (fun e => db_missing cfg (EntryDef_DB e)) (fun i e => ErrAt "entry" i e)
        (fun i e => ErrAt "entry" i (ErrNotFound "db" (EntryDef_DB e))) (ServiceConfig_Entry cfg)
        (fun es => cfg <| ServiceConfig_Entry := es |>)).
      exists (ServiceConfig_Entry cfg). split; [by destruct cfg|].
      apply Forall2_same, Forall_and. split.
      - by apply (Forall_impl _ _ _ Hes), valid_entry_fixed.
      - apply (Forall_impl _ _ _ Hedb). intros e. apply db_missing_false. }
  rewrite (m_seq_none _ _ cfg cfg).
  2:{ apply (section_ok ExitWorker_Validate (fun e => db_missing cfg (ExitWorker_DB e)) (fun i e => ErrAt "exit" i e)
        (fun i e => ErrAt "exit" i (ErrNotFound "db" (ExitWorker_DB e))) (ServiceConfig_Exit cfg)
        (fun es => cfg <| ServiceConfig_Exit := es |>)).
      exists (ServiceConfig_Exit cfg). split; [by destruct cfg|].
      apply Forall2_same, Forall_and. split.
      - by apply (Forall_impl _ _ _ Hxs), valid_exit_fixed.
      - apply (Forall_impl _ _ _ Hxdb). intros e. apply db_missing_false. }
  rewrite (m_seq_none _ _ cfg cfg).
  2:{ apply (section_ok CronJob_Validate (fun _ => false) (fun i e => ErrAt "cron" i e) (fun _ _ => ErrDecode)
        (ServiceConfig_Cron cfg) (fun cs => cfg <| ServiceConfig_Cron := cs |>)).
      exists (ServiceConfig_Cron cfg). split; [by destruct cfg|].
      apply Forall2_same, (Forall_impl _ _ _ Hcs). intros c Hc. by rewrite valid_cron_fixed. }
  rewrite (m_seq_none _ _ cfg cfg) by (unfold validateConfigKV; f_equal; by apply check_names_None).
  by apply rate_limit_check.
Qed.

(** ** Properties *)

(** C9: a configuration [ParseConfig] returns is well formed: names of databases, streams,
    key-value stores and CORS/CSP groups are non-empty and unique, every required field
    is present, every default is filled in, references from entries to CORS and CSP groups
    resolve, references from entries and workers to databases resolve as soon as one database
    is configured (with none the code checks none), and the deploy target admits the server
    settings. *)
Theorem ParseConfig_valid trySOPSDecrypt loadYaml atoi (content : string) (cfg : ServiceConfig) :
  ParseConfig trySOPSDecrypt loadYaml atoi content = inl cfg -> valid_config cfg.
Proof.
  intros H. unfold ParseConfig in H. destruct (trySOPSDecrypt content) as [dec|]; [|done].
  destruct (expandEnvDefaults getenv dec) as [ex [m|]]; [done|].
  destruct (loadYaml ex) as [c|]; [|done].
  destruct (validate_all (applyEnvOverrides atoi c)) as [c' [e|]] eqn:Ev; [done|].
  injection H as <-. by eapply validate_all_ok.
Qed.

(** Validation is idempotent: a configuration it accepted is accepted again and left
    exactly as it is. *)
Theorem validate_all_idempotent (cfg cfg' : ServiceConfig) :
  env_flat -> validate_all cfg = (cfg', None) -> validate_all cfg' = (cfg', None).
Proof. intros Henv H. by eapply valid_config_fixed, validate_all_ok. Qed.

(** An entry is accepted exactly when its type is known and the fields that type
    requires are present; acceptance fills in what is missing and leaves the type, the
    database, the CORS/CSP groups and the cache as they were. *)
Theorem EntryDef_Validate_iff (e : EntryDef) :
  ((exists e', EntryDef_Validate e = (e', None)) <-> entry_accepted e) /\
  (forall e', EntryDef_Validate e = (e', None) -> valid_entry e' /\ entry_frame e e').
Proof.
  split; [split|].
  - intros [e' H]. by apply EntryDef_Validate_ok in H as [? _].
  - apply entry_accepted_ok.
  - intros e' H. by apply EntryDef_Validate_ok in H as [_ ?].
Qed.

End validate.

(** ** Witnesses *)

Definition no_env (_ : string) : string := "".

Definition demo_entry : EntryDef :=
  (zero : EntryDef) <| EntryDef_Type := "crud" |> <| EntryDef_Model := "UserAccount" |> <| EntryDef_DB := "main" |>.

Definition demo_cfg : ServiceConfig :=
  (zero : ServiceConfig)
    <| ServiceConfig_Databases := [(zero : DBConfig) <| DBConfig_Name := "main" |>
         <| DBConfig_Driver := "pg" |> <| DBConfig_URL := "postgres://h/db" |>] |>
    <| ServiceConfig_Entry := [demo_entry] |>.

Definition demo_valid : ServiceConfig := (validate_all no_env demo_cfg).1.

Example demo_defaults :
  (DBConfig_Driver <$> ServiceConfig_Databases demo_valid) = ["postgres"] /\
  (EntryDef_Table <$> ServiceConfig_Entry demo_valid) = ["user_account"] /\
  (EntryDef_Path <$> ServiceConfig_Entry demo_valid) = ["/user_accounts"].
Proof. vm_compute. done. Qed.

Lemma ParseConfig_valid_witness :
  ParseConfig no_env Some (fun _ => Some demo_cfg) (fun _ => None) "name: demo" = inl demo_valid /\
  valid_config no_env demo_valid.
Proof.
  split; [vm_compute; reflexivity|].
  apply (ParseConfig_valid no_env Some (fun _ => Some demo_cfg) (fun _ => None) "name: demo").
  vm_compute. reflexivity.
Defined.

Lemma validate_all_idempotent_witness : validate_all no_env demo_valid = (demo_valid, None).
Proof.
  apply (validate_all_idempotent no_env demo_cfg).
  - intros n. reflexivity.
  - vm_compute. reflexivity.
Defined.

(** Without a rate limiter the cache reference of an entry is not checked: a
    configuration whose entry names a key-value store that does not exist is
    accepted, while the same configuration with the limiter enabled is rejected. *)
Theorem cache_reference_unchecked :
  let cfg rl := demo_cfg
    <| ServiceConfig_KV := [(zero : KVConfig) <| KVConfig_Name := "redis" |> <| KVConfig_URL := "redis://h" |>] |>
    <| ServiceConfig_Entry := [demo_entry <| EntryDef_Cache := "nowhere" |>] |>
    <| ServiceConfig_Server := (zero : ServerConf) <| ServerConf_RateLimit := rl |> |> in
  (validate_all no_env (cfg None)).2 = None /\
  (validate_all no_env (cfg (Some ((zero : RateLimitConf) <| RateLimitConf_Enabled := true |>)))).2 =
    Some (ErrAt "entry" 0 (ErrNotFound "cache" "nowhere")).
Proof. vm_compute. done. Qed.
