(* ===== verification/TokenRefresh.v ===== *)
(** * Signing and refreshing tokens (server/middleware: jwt.go [SignToken], tokenrefresh.go;
    runtime/service.go [buildJWTCfg], [registerAuthRefresh])

    The endpoint that is registered for [auth.refresh] is the JWT middleware of [Auth]
    followed by a handler that signs new claims for the identity it found.  The JWT library
    is a parameter: what is needed of it is in [jwt_library]. *)

From S2P Require Import Prelude GoStrings Http Auth ConfigTypes.
From Stdlib Require Import Ascii.

#[local] Open Scope string_scope.
#[local] Open Scope list_scope.
#[local] Open Scope Z_scope.

Definition buildJWTCfg (auth : option AuthConfig) : option JWTConfig :=
  auth ← auth;
  Some (mkJWTConfig (AuthConfig_Secret auth) (AuthConfig_PrevSecret auth) "" "" (AuthConfig_Algorithm auth) (AuthConfig_Issuer auth)
          (AuthConfig_Audience auth) None (AuthConfig_JWKSURL auth)).

Section refresh.
Context {RSAKey ECKey RSAPriv ECPriv : Type}.
Context (parseRSAPublicKey : string -> option RSAKey) (parseECDSAPublicKey : string -> option ECKey).
Context (parseRSAPrivateKey : string -> option RSAPriv) (parseECDSAPrivateKey : string -> option ECPriv).
Notation key := (@key RSAKey ECKey).
Context (jwksKeyFunc : JWTConfig -> tokenHeader -> option key) (jwtParse : Z -> list string -> (tokenHeader -> option key) -> string -> option claims).
Context (GetIssuer : claims -> option string) (GetAudience : claims -> option (list string)) (GetExpirationTime : claims -> option (option Z)).
Context (unverified : string -> option (tokenHeader * claims)) (verified : method -> key -> string -> bool) (GetNotBefore : claims -> option (option Z)).

Inductive signing_key := SkSecret (s : string) | SkRSA (k : RSAPriv) | SkECDSA (k : ECPriv).

(** [token.SignedString]: [None] is an error. *)
Context (SignedString : string -> signing_key -> claims -> option string).

Definition signing_methods : list string := ["HS384"; "HS512"; "RS256"; "RS384"; "RS512"; "ES256"; "ES384"; "ES512"].
Definition signing_method (algorithm : string) : string := if bool_decide (algorithm ∈ signing_methods) then algorithm else "HS256".

Definition signingKey (algorithm secret : string) : option signing_key :=
  if HasPrefix algorithm "HS" || (algorithm =? "")%string then Some (SkSecret secret)
  else if HasPrefix algorithm "RS" then SkRSA <$> parseRSAPrivateKey secret
  else if HasPrefix algorithm "ES" then SkECDSA <$> parseECDSAPrivateKey secret
  else None.

Definition SignToken (secret algorithm : string) (c : claims) : option string :=
  k ← signingKey algorithm secret; SignedString (signing_method algorithm) k c.

Definition strings_json (l : list string) : json := JArr (JStr <$> l).

(** The claims of a new token; [now] is in nanoseconds, [ttl] in seconds. *)
Definition refresh_claims (now ttl : Z) (a : AuthContext) : claims :=
  {["sub" := JStr (UserID a); "org_id" := JStr (OrgID a); "roles" := strings_json (Roles a); "permissions" := strings_json (Permissions a);
    "iat" := JNum (now / 10^9); "exp" := JNum ((now + wrap64 (ttl * 10^9)) / 10^9)]}.

Definition default_cookie : AuthCookieConfig := mkAuthCookieConfig "token" "refresh_token" "" "/" true true "Strict".

Record refresh_route : Type := mkRoute { rr_path : string; rr_secret : string; rr_ttl : Z; rr_cookie : AuthCookieConfig }.

(** Where the endpoint is registered, if it is: [paths] are the paths of the entries. *)
Definition registerAuthRefresh (auth : AuthConfig) (prefix : string) (paths : list string) : option refresh_route :=
  match AuthConfig_Refresh auth with
  | None => None
  | Some rf =>
      if negb (RefreshConfig_Enabled rf) then None
      else
        let secret := if (RefreshConfig_Secret rf =? "")%string then AuthConfig_Secret auth else RefreshConfig_Secret rf in
        if (secret =? "")%string then None
        else
          let path := if (RefreshConfig_Endpoint rf =? "")%string then "/auth/refresh" else RefreshConfig_Endpoint rf in
          let path := if negb (prefix =? "")%string && negb (HasPrefix path prefix) then (prefix ++ path)%string else path in
          if bool_decide (path ∈ paths) then None
          else
            let ttl := if RefreshConfig_TTL rf <=? 0 then 604800 else RefreshConfig_TTL rf in
            Some (mkRoute path secret ttl (default default_cookie (AuthConfig_Cookie auth)))
  end.

Inductive refreshed := Refused (status : Z) (message : string) | Issued (token : string) (cookie : AuthCookieConfig) (expires_in : Z).

(** The handler behind the JWT middleware. *)
Definition refresh_handler (auth : AuthConfig) (rt : refresh_route) (now : Z) (a : option AuthContext) : refreshed :=
  match a with
  | None => Refused 401 "authentication required"
  | Some a =>
      match SignToken (rr_secret rt) (AuthConfig_Algorithm auth) (refresh_claims now (rr_ttl rt) a) with
      | None => Refused 500 "token signing failed"
      | Some signed => Issued signed (rr_cookie rt) (rr_ttl rt)
      end
  end.

Definition auth_of (effs : list effect) : option AuthContext :=
  foldl (fun a e => match e with SetAuth a' => Some a' | _ => a end) None effs.

Notation JWT := (JWT parseRSAPublicKey parseECDSAPublicKey jwksKeyFunc jwtParse GetIssuer GetAudience GetExpirationTime).

Definition refresh_endpoint (auth : AuthConfig) (cfg : JWTConfig) (rt : refresh_route) (now : Z) (rq : request) : refreshed :=
  match JWT cfg now rq with
  | Next effs => refresh_handler auth rt now (auth_of effs)
  | ReplyWith _ status msg => Refused status msg
  | Fail status => Refused status ""
  end.

(** *** What is relied on

    [Parse] is as documented (see Auth); what was signed with a secret is decoded to what it was
    signed for, when JSON keeps that, and verifies under the secrets that HMAC does not tell
    apart from it; claims are read from their fields, times as whole seconds. *)
Context (kept : claims -> Prop) (same_key : string -> string -> bool).

Record jwt_library : Prop := mkLibrary {
  jl_parse : parse_documented jwtParse GetExpirationTime unverified verified GetNotBefore;
  jl_decode m s c tok : kept c -> SignedString m (SkSecret s) c = Some tok -> unverified tok = Some (mkHeader (mkMethod m HMAC) None, c);
  jl_verify m s c tok s' : SignedString m (SkSecret s) c = Some tok -> verified (mkMethod m HMAC) (KSecret s') tok = same_key s s';
  jl_same s : same_key s s = true;
  jl_nonempty m k c tok : SignedString m k c = Some tok -> tok <> "";
  jl_issuer (c : claims) : c !! "iss" = None -> GetIssuer c = Some "";
  jl_audience (c : claims) : c !! "aud" = None -> GetAudience c = Some [];
  jl_notbefore (c : claims) : c !! "nbf" = None -> GetNotBefore c = Some None;
  jl_expiration (c : claims) z : c !! "exp" = Some (JNum z) -> 0 < z < 2^53 -> GetExpirationTime c = Some (Some (z * 10^9))
}.

Context (lib : jwt_library).

Definition hmac_algorithm (alg : string) : Prop := alg ∈ [""; "HS256"; "HS384"; "HS512"].

Lemma hmac_key alg secret m : hmac_algorithm alg -> signingKey alg secret = Some (SkSecret secret) /\
  forall cfg, jc_JWKSURL cfg = "" -> jc_Algorithm cfg = orElse alg "HS256" -> m = mkMethod (signing_method alg) HMAC ->
    forall k, key_for parseRSAPublicKey parseECDSAPublicKey jwksKeyFunc cfg (mkHeader m None) k <-> k = KSecret (jc_Secret cfg).
Proof.
  unfold hmac_algorithm. rewrite !elem_of_cons, elem_of_nil. intros Ha.
  split; [by repeat destruct Ha as [->|Ha]|]. intros cfg Hu Hc -> k. unfold key_for. rewrite Hu, Hc. cbn [String.eqb].
  repeat destruct Ha as [->|Ha]; [..|done]; destruct k; cbn; naive_solver.
Qed.

Notation parse := (parse parseRSAPublicKey parseECDSAPublicKey jwksKeyFunc jwtParse).
Notation newParser := (newParser parseRSAPublicKey parseECDSAPublicKey jwksKeyFunc).

Lemma parse_signed now alg secret c tok cfg : hmac_algorithm alg -> kept c -> SignToken secret alg c = Some tok -> jc_JWKSURL cfg = "" -> jc_Algorithm cfg = orElse alg "HS256" ->
  forall c', Auth.parse jwtParse now (newParser cfg) tok = Some c' <-> c' = c /\ same_key secret (jc_Secret cfg) = true /\ in_time GetExpirationTime GetNotBefore now c.
Proof.
  intros Ha Hk Hs Hu Hc c'. unfold SignToken in Hs. destruct (hmac_key alg secret (mkMethod (signing_method alg) HMAC) Ha) as [Hsk Hf]. rewrite Hsk in Hs. cbn in Hs.
  rewrite (parse_verifies _ _ _ _ _ _ _ _ now cfg tok c' (jl_parse lib)). unfold verifies. rewrite (jl_decode lib _ _ _ _ Hk Hs). split.
  - intros (h & k & [= <- <-] & Hk2 & Hv & Ht). apply (Hf cfg Hu Hc eq_refl) in Hk2. subst k. cbn in Hv. by rewrite (jl_verify lib _ _ _ _ _ Hs) in Hv.
  - intros (-> & Hv & Ht). eexists _, (KSecret (jc_Secret cfg)). split; [done|]. split; [by apply (Hf cfg Hu Hc eq_refl)|]. split; [|done]. cbn. by rewrite (jl_verify lib _ _ _ _ _ Hs).
Qed.

Lemma strings_of_json l : strings_of (Some (strings_json l)) = l.
Proof. cbn. induction l as [|x l IH]; [done|]. cbn in *. by rewrite IH. Qed.

Lemma refresh_lookup now ttl a : let c := refresh_claims now ttl a in
  c !! "sub" = Some (JStr (UserID a)) /\ c !! "org_id" = Some (JStr (OrgID a)) /\ c !! "roles" = Some (strings_json (Roles a)) /\
  c !! "permissions" = Some (strings_json (Permissions a)) /\ c !! "exp" = Some (JNum ((now + wrap64 (ttl * 10^9)) / 10^9)) /\
  c !! "iss" = None /\ c !! "aud" = None /\ c !! "nbf" = None.
Proof. intros c. unfold c, refresh_claims. split_and!; by simplify_map_eq. Qed.

Lemma refresh_identity now ttl a raw : let a' := buildAuthContext (refresh_claims now ttl a) raw in
  UserID a' = UserID a /\ OrgID a' = OrgID a /\ Roles a' = Roles a /\ Permissions a' = Permissions a.
Proof.
  destruct (refresh_lookup now ttl a) as (H1 & H2 & H3 & H4 & _). cbn -[strings_of refresh_claims]. unfold stringOr. by rewrite H1, H2, H3, H4, !strings_of_json.
Qed.

Lemma refresh_expiry auth prefix paths rt now : registerAuthRefresh auth prefix paths = Some rt -> rr_ttl rt < 2^33 -> 0 <= now < 2^63 ->
  (now + wrap64 (rr_ttl rt * 10^9)) / 10^9 = now / 10^9 + rr_ttl rt /\ 0 < now / 10^9 + rr_ttl rt < 2^53.
Proof.
  intros Hrt Httl Hnow. assert (0 < rr_ttl rt) by (unfold registerAuthRefresh in Hrt; repeat case_match; simplify_eq; cbn; lia).
  rewrite wrap64_small by lia. split; [apply Z.div_add; lia|].
  assert (0 <= now / 10^9 < 2^34) by (split; [apply Z.div_pos; lia|apply Z.div_lt_upper_bound; lia]). lia.
Qed.

Lemma bearer_token rq tok : tok <> "" -> rq_header rq "Authorization" = ("Bearer " ++ tok)%string ->
  extractToken rq "header:Authorization" = (tok, ("Bearer " ++ tok)%string).
Proof.
  intros Hn Hh. unfold extractToken. cbn -[CutPrefix]. rewrite Hh. unfold CutPrefix. rewrite HasPrefix_app, str_drop_app. done.
Qed.

(** C33: The token that the refresh endpoint issues, for an HMAC algorithm and without a JWKS URL,
    carries the identity it was issued for, and the service accepts it exactly when the secret
    for refreshing is, for HMAC, the same key as the current or the previous secret of the
    service, no issuer and no audience are required, and the time is before its expiry.  In
    particular a separate secret for refreshing, or a required issuer, makes every refreshed
    token useless. *)
Theorem refreshed_token_accepted auth cfg rt prefix paths now a tok cookie expires rq now2 :
  registerAuthRefresh auth prefix paths = Some rt -> buildJWTCfg (Some auth) = Some cfg ->
  hmac_algorithm (AuthConfig_Algorithm auth) -> AuthConfig_JWKSURL auth = "" -> rr_ttl rt < 2^33 -> 0 <= now < 2^63 -> kept (refresh_claims now (rr_ttl rt) a) ->
  refresh_handler auth rt now (Some a) = Issued tok cookie expires -> rq_header rq "Authorization" = ("Bearer " ++ tok)%string ->
  (passes (JWT cfg now2 rq) = true <->
     (same_key (rr_secret rt) (AuthConfig_Secret auth) = true \/ AuthConfig_PrevSecret auth <> "" /\ same_key (rr_secret rt) (AuthConfig_PrevSecret auth) = true) /\
     AuthConfig_Issuer auth = "" /\ AuthConfig_Audience auth = "" /\ now2 < (now / 10^9 + rr_ttl rt) * 10^9) /\
  (forall effs, JWT cfg now2 rq = Next effs -> exists a', auth_of effs = Some a' /\
     UserID a' = UserID a /\ OrgID a' = OrgID a /\ Roles a' = Roles a /\ Permissions a' = Permissions a).
Proof.
  intros Hrt Hcfg Ha Hu Httl Hnow Hkept Hi Hh. injection Hcfg as <-. unfold refresh_handler in Hi.
  set (c := refresh_claims now (rr_ttl rt) a) in *. destruct (SignToken (rr_secret rt) (AuthConfig_Algorithm auth) c) as [tok'|] eqn:Hs; [|done].
  injection Hi as -> _ _.
  assert (Hne : tok <> "").
  { unfold SignToken in Hs. destruct (signingKey _ _); [|done]. by eapply (jl_nonempty lib). }
  unfold JWT, jwt_defaults. cbn [jc_TokenLookup orElse String.eqb]. change (orElse "" "header:Authorization") with "header:Authorization".
  rewrite (bearer_token rq tok Hne Hh). destruct (String.eqb_spec tok ""); [done|].
  set (cfg := mkJWTConfig _ _ _ _ _ _ _ _ _). destruct (refresh_lookup now (rr_ttl rt) a) as (_ & _ & _ & _ & He & Hiss & Haud & Hnbf). fold c in He, Hiss, Haud, Hnbf.
  destruct (refresh_expiry auth prefix paths rt now Hrt Httl Hnow) as [Hexp Hpos]. rewrite Hexp in He.
  pose proof (jl_expiration lib c _ He Hpos) as Hge.
  assert (Hit : in_time GetExpirationTime GetNotBefore now2 c <-> now2 < (now / 10^9 + rr_ttl rt) * 10^9).
  { unfold in_time. rewrite (jl_notbefore lib c Hnbf), Hge. naive_solver. }
  assert (Hok : now2 < (now / 10^9 + rr_ttl rt) * 10^9 -> claims_ok GetIssuer GetAudience GetExpirationTime now2 c cfg <-> AuthConfig_Issuer auth = "" /\ AuthConfig_Audience auth = "").
  { intros Hlt. unfold claims_ok. rewrite (jl_issuer lib c Hiss), (jl_audience lib c Haud), Hge. cbn. split.
    - intros (H1 & H2 & H3). split; [destruct (decide (AuthConfig_Issuer auth = "")); [done|by injection (H1 ltac:(done))]|].
      destruct (decide (AuthConfig_Audience auth = "")) as [|Hx]; [done|]. destruct (H2 Hx) as (aud & [= <-] & []%elem_of_nil).
    - intros (-> & ->). split; [done|]. split; [done|]. intros exp [= <-]. lia. }
  set (good := (same_key (rr_secret rt) (AuthConfig_Secret auth) = true \/ AuthConfig_PrevSecret auth <> "" /\ same_key (rr_secret rt) (AuthConfig_PrevSecret auth) = true)).
  assert (Hpe : forall c', parse_either parseRSAPublicKey parseECDSAPublicKey jwksKeyFunc jwtParse now2 cfg tok = Some c' <-> c' = c /\ good /\ now2 < (now / 10^9 + rr_ttl rt) * 10^9).
  { intros c'. unfold parse_either. rewrite <- Hit. pose proof (parse_signed now2 _ _ c tok cfg Ha Hkept Hs Hu eq_refl) as P1.
    pose proof (parse_signed now2 _ _ c tok (with_secret (AuthConfig_PrevSecret auth) cfg) Ha Hkept Hs Hu eq_refl c') as P2. cbn in P1, P2 |- *.
    destruct (Auth.parse _ _ (newParser cfg) tok) as [c1|] eqn:E1.
    - destruct (proj1 (P1 c1) eq_refl) as (-> & ? & ?). unfold good. split; [intros [= <-]; auto|by intros (-> & _)].
    - assert (N : ~ (same_key (rr_secret rt) (AuthConfig_Secret auth) = true /\ in_time GetExpirationTime GetNotBefore now2 c)) by (intros [X Y]; specialize (P1 c); naive_solver).
      unfold good. destruct (String.eqb_spec (AuthConfig_PrevSecret auth) ""); [naive_solver|]. rewrite P2. naive_solver. }
  destruct (parse_either _ _ _ _ now2 cfg tok) as [c1|] eqn:E.
  - destruct (proj1 (Hpe c1) eq_refl) as (-> & Hg & Hlt). pose proof (validateClaims_ok GetIssuer GetAudience GetExpirationTime now2 c cfg) as Hv. specialize (Hok Hlt).
    destruct (validateClaims _ _ _ now2 c cfg) as [err|]; cbn.
    { split; [|done]. split; [done|]. intros (_ & H1 & H2 & _). assert (Some err = None) by (apply Hv, Hok; by split). done. }
    split; [split; [|done]; intros _; destruct (proj1 Hok (proj1 Hv eq_refl)); by split_and!|].
    intros effs [= <-]. eexists. split; [reflexivity|]. apply refresh_identity.
  - split; [|done]. cbn. split; [done|]. intros (Hg & _ & _ & Hlt). specialize (Hpe c). naive_solver.
Qed.
End refresh.

(** ** The handler for other providers (tokenrefresh.go) *)

(** The form sent to the token endpoint of Zitadel. *)
Definition zitadel_body (refreshToken clientID : string) : string :=
  ("grant_type=refresh_token&refresh_token=" ++ refreshToken ++ "&client_id=" ++ clientID)%string.

(** The answer of a provider: none, one whose body cannot be read, or a status and, when it
    is JSON, a body. *)
Inductive provider_answer := NoAnswer | Unreadable | Answer (status : Z) (body : option string).

Definition proxy_answer (r : provider_answer) : Z * string :=
  match r with
  | NoAnswer => (502, "token refresh failed")
  | Unreadable => (502, "read failed")
  | Answer _ None => (502, "parse failed")
  | Answer status (Some body) => (status, body)
  end.

Record TokenRefreshConfig : Type := mkTokenRefreshConfig {
  tr_RefreshTokenTTL : Z; tr_JWTSecret : string; tr_ZitadelTokenURL : string; tr_ZitadelClientID : string; tr_KratosRefreshURL : string
}.

Inductive refresh_reply := RefreshReply (status : Z) (body : string) | RefreshToken (token : string) (expires_in : Z).

Section handler.
Context {RSAPriv ECPriv : Type} (SignedString : string -> @signing_key RSAPriv ECPriv -> claims -> option string).

Definition manualTokenRefresh (cfg : TokenRefreshConfig) (now : Z) (a : option AuthContext) : refresh_reply :=
  match a with
  | None => RefreshReply 401 "authentication required"
  | Some a =>
      let ttl := if tr_RefreshTokenTTL cfg <=? 0 then 24 * 3600 * 10^9 else tr_RefreshTokenTTL cfg in
      let c := <["exp" := JNum ((now + ttl) / 10^9)]> (refresh_claims now 0 a) in
      match SignedString "HS256" (SkSecret (tr_JWTSecret cfg)) c with
      | None => RefreshReply 500 "signing failed"
      | Some signed => RefreshToken signed (ttl / 10^9)
      end
  end.

(** [body] is the decoded request, [post] what the provider answers to a URL and a body. *)
Definition TokenRefreshHandler (post : string -> string -> provider_answer) (session_json : string -> string) (cfg : TokenRefreshConfig) (now : Z)
    (body : option string) (a : option AuthContext) : refresh_reply :=
  match body with
  | None => RefreshReply 400 "invalid request body"
  | Some tok =>
      if (tok =? "")%string then RefreshReply 400 "refresh_token is required"
      else if negb (tr_ZitadelTokenURL cfg =? "")%string then
        let '(s, b) := proxy_answer (post (tr_ZitadelTokenURL cfg) (zitadel_body tok (tr_ZitadelClientID cfg))) in RefreshReply s b
      else if negb (tr_KratosRefreshURL cfg =? "")%string then
        let '(s, b) := proxy_answer (post (tr_KratosRefreshURL cfg) (session_json tok)) in RefreshReply s b
      else manualTokenRefresh cfg now a
  end.
End handler.

(** The fields of a form, in order, as a server reads them. *)
Definition form_fields (body : string) : list (string * string) :=
  (fun f => let '(k, v) := SplitN2 f "="%char in (k, default "" v)) <$> Split body "&"%char.
(** The refresh token goes into the form as it is: one with an ampersand adds fields of the
    caller's choice before the client's own. *)
Theorem zitadel_form_injection cid :
  take 3 (form_fields (zitadel_body "x&client_id=other" cid)) = [("grant_type", "refresh_token"); ("refresh_token", "x"); ("client_id", "other")].
Proof. reflexivity. Qed.

(** ** Witness *)

Definition json_dec : forall a b : json, {a = b} + {a <> b}.
Proof.
  fix json_dec 1. intros [|x|x|x|l] [|y|y|y|l'];
    first [by left | by right | destruct (decide (x = y)) as [->|]; [by left|right; congruence] | idtac].
  destruct (List.list_eq_dec json_dec l l') as [->|]; [by left|right; congruence].
Defined.
#[export] Instance json_eq_dec : EqDecision json := json_dec.

(** A library that signs one set of claims with HS256. *)
Definition demo_auth : AuthConfig :=
  mkAuthConfig true "manual" "secret" "" "HS256" "" "" "" "" 0 "" "" "" ∅ "" "" "" "" "" None (Some (mkRefreshConfig true 60 "" "" "" "" "")) None None None.
Definition demo_user : AuthContext := mkAuth "ann" "acme" ["admin"] [] "" ∅.
Definition demo_claims : claims := refresh_claims 0 60 demo_user.
Definition demo_sign (m : string) (k : @signing_key unit unit) (c : claims) : option string :=
  match k with SkSecret s => if bool_decide (m = "HS256" /\ c = demo_claims) then Some (String "t" s) else None | _ => None end.
Definition demo_parse : Z -> list string -> (tokenHeader -> option (@key unit unit)) -> string -> option claims :=
  library_parse (demo_unverified demo_claims) demo_verified demo_expiration (fun _ => Some None).

Lemma demo_library : jwt_library (RSAKey := unit) (ECKey := unit) demo_parse (fun _ => Some "") (fun _ => Some []) demo_expiration
  (demo_unverified demo_claims) demo_verified (fun _ => Some None) demo_sign (fun c => c = demo_claims) (fun s s' => (s' =? s)%string).
Proof.
  assert (Hs : forall m s c tok, demo_sign m (SkSecret s) c = Some tok -> m = "HS256" /\ c = demo_claims /\ tok = String "t" s).
  { intros m s c tok. unfold demo_sign. case_bool_decide as H; [|done]. destruct H as [-> ->]. by intros [= <-]. }
  split; try done.
  - apply library_documented.
  - intros m s c tok _ (-> & -> & ->)%Hs. done.
  - intros m s c tok s' (-> & -> & ->)%Hs. done.
  - intros s. apply String.eqb_refl.
  - intros m [s| |] c tok H; [|done..]. apply Hs in H as (_ & _ & ->). done.
  - intros c z Hz _. unfold demo_expiration. by rewrite Hz.
Qed.

(** A nanosecond before the expiry. *)
Lemma refreshed_token_accepted_witness : exists cfg, buildJWTCfg (Some demo_auth) = Some cfg /\
  passes (JWT (RSAKey := unit) (ECKey := unit) (fun _ => None) (fun _ => None) (fun _ _ => None) demo_parse (fun _ => Some "") (fun _ => Some []) demo_expiration
    cfg (60 * 10^9 - 1) (bearer_request "tsecret")) = true.
Proof.
  eexists. split; [reflexivity|].
  eapply (refreshed_token_accepted (RSAKey := unit) (ECKey := unit) (RSAPriv := unit) (ECPriv := unit) (fun _ => None) (fun _ => None) (fun _ => None) (fun _ => None)
    (fun _ _ => None) demo_parse (fun _ => Some "") (fun _ => Some []) demo_expiration (demo_unverified demo_claims) demo_verified (fun _ => Some None) demo_sign
    (fun c => c = demo_claims) (fun s s' => (s' =? s)%string) demo_library demo_auth _
    (mkRoute "/auth/refresh" "secret" 60 default_cookie) "" [] 0 demo_user "tsecret" default_cookie 60 (bearer_request "tsecret") (60 * 10^9 - 1));
    try reflexivity; try (unfold hmac_algorithm; set_solver); try lia; try (vm_compute; reflexivity).
Defined.
