(* ===== verification/RuntimeAuth.v ===== *)
(** * Authentication helpers of applications (runtime/auth: role.go, totp.go, password.go)

    Role hierarchies, permissions with wildcards, one-time passwords and the strength of
    passwords.  HMAC-SHA256 and bcrypt are parameters; base32 is that of encoding/base32
    ([StdEncoding]).  A byte is a [Z]. *)

From S2P Require Import Prelude GoStrings Utf8.
From Stdlib Require Import Ascii.

#[local] Open Scope string_scope.
#[local] Open Scope list_scope.
#[local] Open Scope Z_scope.

(** ** Roles (role.go) *)

Notation RoleHierarchy := (gmap string (list string)).

(** The loop over the inherited roles, with the recursive call. *)
Fixpoint any_role (f : string -> gset string -> option (bool * gset string)) (rs : list string) (seen : gset string) : option (bool * gset string) :=
  match rs with
  | [] => Some (false, seen)
  | r :: rs =>
      match f r seen with
      | Some (true, seen) => Some (true, seen)
      | Some (false, seen) => any_role f rs seen
      | None => None
      end
  end.

(** [seen] is the shared map of the source; [None] when the fuel, the depth of the recursion, is
    used up. *)
Fixpoint inherits (fuel : nat) (h : RoleHierarchy) (userRole requiredRole : string) (seen : gset string) : option (bool * gset string) :=
  match fuel with
  | O => None
  | S fuel =>
      if decide (userRole = requiredRole) then Some (true, seen)
      else if decide (userRole ∈ seen) then Some (false, seen)
      else any_role (fun r => inherits fuel h r requiredRole) (default [] (h !! userRole)) ({[userRole]} ∪ seen)
  end.

Definition Inherits (h : RoleHierarchy) (userRole requiredRole : string) : option bool :=
  fst <$> inherits (S (S (size h))) h userRole requiredRole ∅.

Fixpoint Satisfies (h : RoleHierarchy) (userRoles : list string) (requiredRole : string) : option bool :=
  match userRoles with
  | [] => Some false
  | r :: rs => match Inherits h r requiredRole with Some true => Some true | Some false => Satisfies h rs requiredRole | None => None end
  end.

(** [granted[:i]] up to the first asterisk. *)
Definition MatchPermission (granted required : string) : bool :=
  if (granted =? required)%string then true
  else match IndexByte granted "*" with Some i => HasPrefix required (str_take i granted) | None => false end.

Definition MatchAnyPermission (granted : list string) (required : string) : bool := existsb (fun g => MatchPermission g required) granted.

(** ** What a role reaches *)

Section roles.
Context (h : RoleHierarchy).

Definition inherits_from (a b : string) : Prop := b ∈ default [] (h !! a).

Context (req : string).

(** The roles seen by a call that did not find the required one are closed under inheritance,
    up to the ones seen before. *)
Definition explored (seen seen' : gset string) : Prop :=
  seen ⊆ seen' /\ forall x, x ∈ seen' -> x ∉ seen -> x <> req /\ forall y, inherits_from x y -> y ∈ seen'.

Lemma explored_trans s1 s2 s3 : explored s1 s2 -> explored s2 s3 -> explored s1 s3.
Proof.
  intros [H1 H1'] [H2 H2']. split; [by etrans|]. intros x Hx Hn. destruct (decide (x ∈ s2)) as [Hs|Hs].
  - destruct (H1' x Hs Hn) as [Hr Hy]. split; [done|]. intros y Hxy. apply H2. by apply Hy.
  - apply H2'; done.
Qed.

(** What a call returns: [true] only for an inherited role, and after [false] the closed set. *)
Definition call_ok (u : string) (seen : gset string) (r : option (bool * gset string)) : Prop :=
  match r with
  | Some (true, _) => rtc inherits_from u req
  | Some (false, seen') => explored seen seen' /\ u ∈ seen' /\ u <> req
  | None => False
  end.

Lemma any_role_ok f rs : forall seen bound,
  (forall r s, r ∈ rs -> bound ⊆ s -> req ∉ s -> call_ok r s (f r s)) -> bound ⊆ seen -> req ∉ seen ->
  match any_role f rs seen with
  | Some (true, _) => exists r, r ∈ rs /\ rtc inherits_from r req
  | Some (false, seen') => explored seen seen' /\ (forall r, r ∈ rs -> r ∈ seen') /\ req ∉ seen'
  | None => False
  end.
Proof.
  induction rs as [|r rs IH]; intros seen bound Hf Hb Hreq; cbn [any_role].
  - split; [split; [done|]; intros x Hx Hn; done|]. split; [intros r []%not_elem_of_nil|done].
  - pose proof (Hf r seen ltac:(left) Hb Hreq) as Hc. unfold call_ok in Hc. destruct (f r seen) as [[[] s1]|]; [|destruct Hc as (He & Hr & Hne)|done].
    + exists r. split; [left|done].
    + assert (Hreq1 : req ∉ s1). { intros Hin. destruct He as [_ He]. by destruct (He req Hin Hreq). }
      specialize (IH s1 bound). destruct (any_role f rs s1) as [[[] s2]|].
      * destruct IH as (x & Hx & Hp); [intros x s Hx; apply Hf; by right|destruct He; set_solver|done|]. exists x. split; [by right|done].
      * destruct IH as (He2 & Hall & Hn); [intros x s Hx; apply Hf; by right|destruct He; set_solver|done|].
        split; [by eapply explored_trans|]. split; [|done]. intros x [->|Hx]%elem_of_cons; [apply He2, Hr|by apply Hall].
      * apply IH; [intros x s Hx; apply Hf; by right|destruct He; set_solver|done].
Qed.

(** Enough fuel: one more than the roles of the hierarchy that were not seen. *)
Lemma inherits_ok fuel : forall u seen, (S (size (dom h ∖ seen)) < fuel)%nat -> req ∉ seen -> call_ok u seen (inherits fuel h u req seen).
Proof.
  induction fuel as [|fuel IH]; intros u seen Hfuel Hreq; [lia|]. cbn [inherits].
  destruct (decide (u = req)) as [->|Hne]; [apply rtc_refl|].
  destruct (decide (u ∈ seen)) as [Hs|Hs]; [split; [split; [done|by intros x Hx Hn]|by split]|].
  destruct (h !! u) as [rs|] eqn:Hu; [change (default [] (Some rs)) with rs|].
  2:{ cbn. split; [|set_solver]. split; [set_solver|]. intros x Hx Hn. assert (x = u) as -> by set_solver. split; [done|].
      intros y Hy. unfold inherits_from in Hy. rewrite Hu in Hy. by apply not_elem_of_nil in Hy. }
  assert (Hdom : u ∈ dom h ∖ seen) by (apply elem_of_difference; split; [by eapply elem_of_dom_2|done]).
  pose proof (any_role_ok (fun r => inherits fuel h r req) rs ({[u]} ∪ seen) ({[u]} ∪ seen)) as Hany.
  assert (Hstep : forall s, {[u]} ∪ seen ⊆ s -> (S (size (dom h ∖ s)) < fuel)%nat).
  { intros s Hsub. assert (size (dom h ∖ s) < size (dom h ∖ seen))%nat; [|lia]. apply subset_size. set_solver. }
  destruct (any_role _ rs ({[u]} ∪ seen)) as [[[] s']|]; cbn [call_ok].
  - destruct Hany as (r & Hr & Hp); [intros r s _ Hsub Hn; apply IH; [by apply Hstep|done]|done|set_solver|].
    eapply rtc_l; [|exact Hp]. unfold inherits_from. by rewrite Hu.
  - destruct Hany as ([Hsub He] & Hall & Hn); [intros r s _ Hsub Hn; apply IH; [by apply Hstep|done]|done|set_solver|].
    split; [|split; [set_solver|done]]. split; [set_solver|]. intros x Hx Hnx. destruct (decide (x = u)) as [->|Hxu].
    + split; [done|]. intros y Hy. unfold inherits_from in Hy. rewrite Hu in Hy. by apply Hall.
    + apply He; [done|set_solver].
  - apply Hany; [intros r s _ Hsub Hn; apply IH; [by apply Hstep|done]|done|set_solver].
Qed.

Lemma explored_closed u s : explored ∅ s -> u ∈ s -> ~ rtc inherits_from u req.
Proof.
  intros [_ He] Hu Hp. induction Hp as [u|u v w Huv Hp IH] in He, Hu |- *.
  - by destruct (He u Hu (not_elem_of_empty u)).
  - apply IH; [done|]. by destruct (He u Hu (not_elem_of_empty u)) as [_ Hc]; apply Hc.
Qed.

(** Searching a role ends and finds exactly the inherited roles. *)
Lemma Inherits_reaches u : exists b, Inherits h u req = Some b /\ (b = true <-> rtc inherits_from u req).
Proof.
  unfold Inherits. pose proof (inherits_ok (S (S (size h))) u ∅) as H.
  assert (Hs : (S (size (dom h ∖ ∅)) < S (S (size h)))%nat) by (rewrite difference_empty_L, size_dom; lia).
  specialize (H Hs (not_elem_of_empty req)). unfold call_ok in H. destruct (inherits _ h u req ∅) as [[[] s]|]; [|destruct H as (He & Hu & _)|done].
  - exists true. by split.
  - exists false. split; [done|]. split; [done|]. intros Hp. by destruct (explored_closed u s He Hu).
Qed.
End roles.

(** Role hierarchies.  Whatever the hierarchy, cycles included, [Inherits] and [Satisfies]
    return, and they answer exactly whether the required role is the user's or one it
    transitively inherits (for [Satisfies], one of the user's). *)
Theorem roles_satisfied (h : RoleHierarchy) (userRoles : list string) (u req : string) :
  (exists b, Inherits h u req = Some b /\ (b = true <-> rtc (inherits_from h) u req)) /\
  exists b, Satisfies h userRoles req = Some b /\ (b = true <-> exists r, r ∈ userRoles /\ rtc (inherits_from h) r req).
Proof.
  split; [apply Inherits_reaches|]. induction userRoles as [|r rs (b & Hb & Hiff)]; cbn [Satisfies].
  - exists false. split; [done|]. split; [done|]. by intros (r & []%not_elem_of_nil & _).
  - destruct (Inherits_reaches h req r) as (b1 & H1 & Hiff1). rewrite H1. destruct b1.
    + exists true. split; [done|]. split; [|done]. intros _. exists r. split; [left|by apply Hiff1].
    + exists b. split; [done|]. rewrite Hiff. split; [intros (x & Hx & Hp); exists x; split; [by right|done]|].
      intros (x & [->|Hx]%elem_of_cons & Hp); [by apply Hiff1 in Hp|by exists x].
Qed.

(** ** Permissions *)

Definition no_star (s : string) : bool := str_all (fun c => negb (Ascii.eqb c "*")) s.

(** Permissions with wildcards.  A granted permission without an asterisk covers itself only;
    one with an asterisk covers itself and everything that begins as it does up to the first
    asterisk.  What follows that asterisk is not looked at: "read:*:own" covers
    "read:all:foreign". *)
Theorem permissions_matched (granted required : string) :
  (no_star granted = true -> MatchPermission granted required = true <-> granted = required) /\
  (forall p rest, no_star p = true -> granted = (p ++ String "*" rest)%string ->
     MatchPermission granted required = true <-> granted = required \/ HasPrefix required p = true) /\
  (forall gs, MatchAnyPermission gs required = true <-> exists g, g ∈ gs /\ MatchPermission g required = true).
Proof.
  unfold MatchPermission. split_and!.
  - intros Hn. rewrite (IndexByte_None granted "*" Hn). destruct (String.eqb_spec granted required); naive_solver.
  - intros p rest Hp ->. rewrite IndexByte_app_None, str_take_app by done. destruct (String.eqb_spec (p ++ String "*" rest) required); naive_solver.
  - intros gs. unfold MatchAnyPermission. rewrite existsb_exists. by setoid_rewrite list_elem_of_In.
Qed.

Lemma permissions_matched_witness : MatchPermission "read:*:own" "read:all:foreign" = true /\ MatchPermission "read" "read:all" = false.
Proof.
  split.
  - apply (proj1 (proj2 (permissions_matched "read:*:own" "read:all:foreign")) "read:" ":own" eq_refl eq_refl). right. reflexivity.
  - apply not_true_is_false. intros H. by apply (proj1 (permissions_matched "read" "read:all") eq_refl) in H.
Defined.

(** ** Base 32 (encoding/base32) *)

Notation bytes := (list Z).

(** The digits of a number, most significant first, and the number of digits. *)
Fixpoint to_digits (b : Z) (k : nat) (n : Z) : list Z :=
  match k with O => [] | S k => (n / b ^ Z.of_nat k) mod b :: to_digits b k n end.
Definition of_digits (b : Z) (ds : list Z) : Z := foldl (fun n d => n * b + d) 0 ds.

Definition pad : Z := 61.
Definition b32_char (n : Z) : Z := if n <? 26 then 65 + n else 24 + n.
Definition b32_val (c : Z) : option Z :=
  if in_range 65 c 90 then Some (c - 65) else if in_range 50 c 55 then Some (c - 24) else None.

(** The characters of up to five bytes: [2, 4, 5, 7, 8] of them are not padding. *)
Definition chars_of (n : nat) : nat := (8 * n + 4) / 5.
Definition enc_block (bs : bytes) : bytes :=
  let k := chars_of (length bs) in
  (b32_char <$> take k (to_digits 32 8 (of_digits 256 (bs ++ replicate (5 - length bs) 0)))) ++ replicate (8 - k) pad.

Fixpoint EncodeToString (bs : bytes) : bytes :=
  match bs with
  | b0 :: b1 :: b2 :: b3 :: b4 :: rest => enc_block [b0; b1; b2; b3; b4] ++ EncodeToString rest
  | [] => []
  | bs => enc_block bs
  end.

(** Eight characters are read; a padding character ends the text. *)
Inductive quantum := QBad | QFull (ds rest : list Z) | QEnd (ds : list Z).

Fixpoint read_quantum (k : nat) (ds : list Z) (src : bytes) : quantum :=
  match k with
  | O => QFull ds src
  | S k =>
      match src with
      | [] => QBad
      | c :: src =>
          let j := length ds in
          if (c =? pad) && (2 <=? j)%nat && (length src <? 8)%nat then
            if (length src + j <? 7)%nat then QBad
            else if negb (forallb (Z.eqb pad) (take (7 - j) src)) then QBad
            else if bool_decide (j ∈ [1; 3; 6]%nat) then QBad
            else QEnd ds
          else match b32_val c with Some d => read_quantum k (ds ++ [d]) src | None => QBad end
      end
  end.

Definition dec_block (ds : list Z) : bytes :=
  take (5 * length ds / 8) (to_digits 256 5 (of_digits 32 (ds ++ replicate (8 - length ds) 0))).

Fixpoint decode_loop (fuel : nat) (src : bytes) : option bytes :=
  match src, fuel with
  | [], _ => Some []
  | _, O => None
  | _, S fuel =>
      match read_quantum 8 [] src with
      | QBad => None
      | QEnd ds => Some (dec_block ds)
      | QFull ds rest => app (dec_block ds) <$> decode_loop fuel rest
      end
  end.

(** Line breaks are dropped first. *)
Definition DecodeString (s : bytes) : option bytes :=
  let s := filter (fun c => c <> 10 /\ c <> 13) s in decode_loop (length s) s.

(** ** One-time passwords (totp.go) *)

Fixpoint TrimRight_pad (s : bytes) : bytes :=
  match s with [] => [] | c :: s => match TrimRight_pad s with [] => if c =? pad then [] else [c] | t => c :: t end end.

(** [secret] is what the random source gave. *)
Definition GenerateTOTPSecret (secret : bytes) : bytes := TrimRight_pad (EncodeToString secret).

Definition padBase32 (s : bytes) : bytes :=
  match (length s mod 8)%nat with
  | 2%nat => s ++ replicate 6 pad
  | 4%nat => s ++ replicate 4 pad
  | 5%nat => s ++ replicate 3 pad
  | 7%nat => s ++ replicate 1 pad
  | _ => s
  end.

Section totp.
Context (hmac : bytes -> bytes -> bytes).

(** The result is text: the digits as bytes. *)
Definition hotp (key : bytes) (counter : Z) : bytes :=
  let counter := if counter <? 0 then 0 else counter in
  let hash := hmac key (to_digits 256 8 counter) in
  let offset := Z.to_nat (Z.land (List.last hash 0) 15) in
  let truncated := Z.land (of_digits 256 (take 4 (drop offset hash))) (2^31 - 1) in
  let code := truncated mod 1000000 in
  Z.add 48 <$> to_digits 10 6 code.

Definition ValidateTOTP (secret code : bytes) (now : Z) : bool :=
  match DecodeString (padBase32 secret) with
  | None | Some [] => false
  | Some key => existsb (fun offset => bool_decide (hotp key (Z.quot now 30 + offset) = code)) [-1; 0; 1]
  end.

Definition GenerateTOTPCode (secret : bytes) (now : Z) : bytes :=
  match DecodeString (padBase32 secret) with None | Some [] => [] | Some key => hotp key (Z.quot now 30) end.
End totp.

(** ** Digits *)

Section digits.
Context (b : Z) (Hb : 1 < b).

Lemma of_digits_acc ds n : foldl (fun n d => n * b + d) n ds = n * b ^ Z.of_nat (length ds) + of_digits b ds.
Proof.
  unfold of_digits. revert n. induction ds as [|d ds IH]; intros n; cbn [foldl length]; [cbn; lia|].
  rewrite IH, (IH (0 * b + d)). rewrite Nat2Z.inj_succ, Z.pow_succ_r by lia. ring.
Qed.

Lemma of_digits_cons d ds : of_digits b (d :: ds) = d * b ^ Z.of_nat (length ds) + of_digits b ds.
Proof. unfold of_digits at 1. cbn [foldl]. rewrite of_digits_acc. ring. Qed.

Lemma of_digits_app xs ys : of_digits b (xs ++ ys) = of_digits b xs * b ^ Z.of_nat (length ys) + of_digits b ys.
Proof. unfold of_digits at 1. rewrite foldl_app. apply of_digits_acc. Qed.

Lemma of_digits_zeros k : of_digits b (replicate k 0) = 0.
Proof. induction k as [|k IH]; [done|]. cbn [replicate]. rewrite of_digits_cons, IH. lia. Qed.

Lemma of_digits_range ds : Forall (fun d => 0 <= d < b) ds -> 0 <= of_digits b ds < b ^ Z.of_nat (length ds).
Proof.
  induction 1 as [|d ds Hd _ IH]; [cbn; lia|]. rewrite of_digits_cons. cbn [length]. rewrite Nat2Z.inj_succ, Z.pow_succ_r by lia. nia.
Qed.

Lemma to_digits_length k n : length (to_digits b k n) = k.
Proof. revert n. induction k as [|k IH]; intros n; [done|]. cbn. by rewrite IH. Qed.

Lemma to_digits_range k n : Forall (fun d => 0 <= d < b) (to_digits b k n).
Proof. induction k as [|k IH]; constructor; [apply Z.mod_pos_bound; lia|done]. Qed.

Lemma of_to_digits k n : of_digits b (to_digits b k n) = n mod b ^ Z.of_nat k.
Proof.
  induction k as [|k IH]; [cbn; by rewrite Z.mod_1_r|]. cbn [to_digits]. rewrite of_digits_cons, to_digits_length, IH.
  rewrite Nat2Z.inj_succ, Z.pow_succ_r, (Z.mul_comm b) by lia. rewrite Z.rem_mul_r by (try apply Z.pow_nonzero; lia). ring.
Qed.

Lemma to_digits_low k n c : to_digits b k (n + c * b ^ Z.of_nat k) = to_digits b k n.
Proof.
  revert c. induction k as [|k IH]; intros c; [done|]. cbn [to_digits]. rewrite Nat2Z.inj_succ, Z.pow_succ_r by lia.
  replace (c * (b * b ^ Z.of_nat k)) with ((c * b) * b ^ Z.of_nat k) by ring. rewrite IH. f_equal.
  rewrite Z.div_add by (apply Z.pow_nonzero; lia). by rewrite Z.mod_add by lia.
Qed.

Lemma to_of_digits ds : Forall (fun d => 0 <= d < b) ds -> to_digits b (length ds) (of_digits b ds) = ds.
Proof.
  induction 1 as [|d ds Hd Hds IH]; [done|]. cbn [length to_digits]. rewrite of_digits_cons. pose proof (of_digits_range ds Hds) as Hr. f_equal.
  - rewrite Z.add_comm, Z.div_add by lia. rewrite Z.div_small by done. by rewrite Z.mod_small.
  - rewrite Z.add_comm, to_digits_low. exact IH.
Qed.

Lemma take_to_digits k j n : take k (to_digits b (k + j) n) = to_digits b k (n / b ^ Z.of_nat j).
Proof.
  induction k as [|k IH]; [done|]. cbn [Nat.add to_digits take]. rewrite IH. f_equal. rewrite Z.div_div by (try apply Z.pow_nonzero; try apply Z.pow_pos_nonneg; lia).
  rewrite <- Z.pow_add_r by lia. by rewrite Nat2Z.inj_add, (Z.add_comm (Z.of_nat j)).
Qed.
End digits.

(** ** Base 32 is decoded back *)

Notation is_bytes := (Forall (fun x => 0 <= x < 256)).

Lemma b32_val_char d : 0 <= d < 32 -> b32_val (b32_char d) = Some d /\ b32_char d <> pad /\ b32_char d <> 10 /\ b32_char d <> 13.
Proof.
  intros Hd. unfold b32_char, b32_val, pad. destruct (Z.ltb_spec d 26).
  - destruct (in_range_spec 65 (65 + d) 90); [|lia]. split; [f_equal; lia|lia].
  - destruct (in_range_spec 65 (24 + d) 90); [lia|]. destruct (in_range_spec 50 (24 + d) 55); [|lia]. split; [f_equal; lia|lia].
Qed.

Lemma read_chars ds : forall m acc src, Forall (fun d => 0 <= d < 32) ds ->
  read_quantum (length ds + m) acc ((b32_char <$> ds) ++ src) = read_quantum m (acc ++ ds) src.
Proof.
  induction ds as [|d ds IH]; intros m acc src Hds; [by rewrite app_nil_r|]. apply Forall_cons in Hds as [Hd Hds].
  destruct (b32_val_char d Hd) as (Hv & Hp & _). cbn [length Nat.add fmap list_fmap app read_quantum].
  destruct (Z.eqb_spec (b32_char d) pad); [done|]. cbn [andb]. rewrite Hv, IH by done. by rewrite <- (assoc_L (++)).
Qed.

(** Powers with a known exponent, as numerals. *)
#[local] Ltac eval_pow :=
  repeat match goal with
  | |- context [?b ^ Z.of_nat ?k] => let v := eval vm_compute in (b ^ Z.of_nat k) in change (b ^ Z.of_nat k) with v
  | H : context [?b ^ Z.of_nat ?k] |- _ => let v := eval vm_compute in (b ^ Z.of_nat k) in change (b ^ Z.of_nat k) with v in H
  end.

(** The digits of a block. *)
Definition block_digits (bs : bytes) : list Z := take (chars_of (length bs)) (to_digits 32 8 (of_digits 256 (bs ++ replicate (5 - length bs) 0))).

Lemma block_digits_ok bs : (1 <= length bs <= 5)%nat -> is_bytes bs ->
  length (block_digits bs) = chars_of (length bs) /\ Forall (fun d => 0 <= d < 32) (block_digits bs) /\ dec_block (block_digits bs) = bs.
Proof.
  intros Hl Hb. unfold block_digits, dec_block.
  set (n := length bs) in *. set (N := of_digits 256 (bs ++ replicate (5 - n) 0)).
  assert (HN : N = of_digits 256 bs * 256 ^ Z.of_nat (5 - n)) by (unfold N; rewrite of_digits_app, of_digits_zeros, length_replicate by lia; lia).
  pose proof (of_digits_range 256 ltac:(lia) bs Hb) as Hr. fold n in Hr. set (m := of_digits 256 bs) in *.
  assert (Hk : (chars_of n <= 8)%nat) by (destruct Hl; assert (n = 1 \/ n = 2 \/ n = 3 \/ n = 4 \/ n = 5)%nat as [->|[->|[->|[->| ->]]]] by lia; cbn; lia).
  assert (Hlen : length (take (chars_of n) (to_digits 32 8 N)) = chars_of n) by (rewrite length_take, to_digits_length; lia).
  split; [done|]. split; [apply Forall_take, to_digits_range; lia|]. rewrite Hlen.
  replace (to_digits 32 8 N) with (to_digits 32 (chars_of n + (8 - chars_of n)) N) by (f_equal; lia). rewrite take_to_digits by lia.
  rewrite of_digits_app, of_digits_zeros, length_replicate, of_to_digits, Z.add_0_r by lia.
  assert (HN2 : (N / 32 ^ Z.of_nat (8 - chars_of n)) mod 32 ^ Z.of_nat (chars_of n) * 32 ^ Z.of_nat (8 - chars_of n) = N).
  { clear Hlen. rewrite HN. clear HN N. assert (n = 1 \/ n = 2 \/ n = 3 \/ n = 4 \/ n = 5)%nat as [E|[E|[E|[E|E]]]] by lia; rewrite E in Hr |- *; clear E;
      change (chars_of 1) with 2%nat; change (chars_of 2) with 4%nat; change (chars_of 3) with 5%nat; change (chars_of 4) with 7%nat; change (chars_of 5) with 8%nat;
      eval_pow; rewrite ?Z.mul_1_r, ?Z.div_1_r.
    - replace (m * 4294967296) with (m * 4 * 1073741824) by ring. rewrite Z.div_mul by lia. rewrite Z.mod_small by lia. ring.
    - replace (m * 16777216) with (m * 16 * 1048576) by ring. rewrite Z.div_mul by lia. rewrite Z.mod_small by lia. ring.
    - replace (m * 65536) with (m * 2 * 32768) by ring. rewrite Z.div_mul by lia. rewrite Z.mod_small by lia. ring.
    - replace (m * 256) with (m * 8 * 32) by ring. rewrite Z.div_mul by lia. rewrite Z.mod_small by lia. ring.
    - rewrite Z.mod_small by lia. ring. }
  rewrite HN2. assert (Hq : (5 * chars_of n / 8)%nat = n) by (assert (n = 1 \/ n = 2 \/ n = 3 \/ n = 4 \/ n = 5)%nat as [->|[->|[->|[->| ->]]]] by lia; done).
  rewrite Hq. replace 5%nat with (n + (5 - n))%nat at 1 by lia. rewrite take_to_digits by lia. rewrite HN, Z.div_mul by (apply Z.pow_nonzero; lia).
  apply to_of_digits; [lia|done].
Qed.

(** A byte of a text that is no padding and no line break. *)
Definition plain_char (c : Z) : Prop := c <> pad /\ c <> 10 /\ c <> 13.

Lemma chars_plain ds : Forall (fun d => 0 <= d < 32) ds -> Forall plain_char (b32_char <$> ds).
Proof. intros H. apply Forall_fmap. eapply Forall_impl; [exact H|]. intros d Hd. apply (b32_val_char d Hd). Qed.

(** How many characters pad a block. *)
Definition pads_of (n : nat) : nat := 8 - chars_of n.

Lemma enc_block_eq bs : enc_block bs = (b32_char <$> block_digits bs) ++ replicate (pads_of (length bs)) pad.
Proof. done. Qed.

Lemma decode_loop_read fuel src r : src <> [] -> read_quantum 8 [] src = r ->
  decode_loop (S fuel) src =
  match r with QBad => None | QEnd ds => Some (dec_block ds) | QFull ds rest => app (dec_block ds) <$> decode_loop fuel rest end.
Proof. by intros Hne <-; destruct src. Qed.

Lemma block_nonempty bs rest : (1 <= length bs <= 5)%nat -> is_bytes bs -> (b32_char <$> block_digits bs) ++ rest <> [].
Proof.
  intros Hl Hb H. destruct (block_digits_ok bs Hl Hb) as (Hlen & _). apply (f_equal length) in H. rewrite length_app, length_fmap, Hlen in H.
  assert (2 <= chars_of (length bs))%nat; [|change (length (@nil Z)) with 0%nat in H; lia]. by assert (length bs = 1 \/ length bs = 2 \/ length bs = 3 \/ length bs = 4 \/ length bs = 5)%nat as [->|[->|[->|[->| ->]]]] by lia; vm_compute; lia.
Qed.

Lemma decode_full bs rest fuel : length bs = 5%nat -> is_bytes bs ->
  decode_loop (S fuel) (enc_block bs ++ rest) = app bs <$> decode_loop fuel rest.
Proof.
  intros Hl Hb. destruct (block_digits_ok bs) as (Hlen & Hds & Hdec); [lia|done|]. rewrite enc_block_eq, Hl.
  change (pads_of 5) with 0%nat. rewrite Hl in Hlen. change (chars_of 5) with 8%nat in Hlen.
  cbn [replicate]. rewrite app_nil_r. pose proof (read_chars (block_digits bs) 0 [] rest Hds) as Hr. rewrite Hlen in Hr.
  rewrite (decode_loop_read _ _ _ (block_nonempty bs rest ltac:(lia) Hb) Hr). cbn [read_quantum app]. by rewrite Hdec.
Qed.

Lemma read_pads ds n : length ds = chars_of n -> (1 <= n <= 4)%nat -> read_quantum (pads_of n) ds (replicate (pads_of n) pad) = QEnd ds.
Proof.
  intros Hd Hn. assert (n = 1 \/ n = 2 \/ n = 3 \/ n = 4)%nat as [->|[->|[->| ->]]] by lia; vm_compute in Hd;
    destruct ds as [|? [|? [|? [|? [|? [|? [|? [|? ?]]]]]]]]; try discriminate Hd; reflexivity.
Qed.

Lemma decode_last bs fuel : (1 <= length bs <= 4)%nat -> is_bytes bs -> decode_loop (S fuel) (enc_block bs) = Some bs.
Proof.
  intros Hl Hb. destruct (block_digits_ok bs) as (Hlen & Hds & Hdec); [lia|done|]. rewrite enc_block_eq.
  assert (Hr : read_quantum 8 [] ((b32_char <$> block_digits bs) ++ replicate (pads_of (length bs)) pad) = QEnd (block_digits bs)).
  { pose proof (read_chars (block_digits bs) (pads_of (length bs)) [] (replicate (pads_of (length bs)) pad) Hds) as Hr.
    rewrite app_nil_l in Hr. rewrite <- (read_pads (block_digits bs) (length bs) Hlen Hl), <- Hr. f_equal. rewrite Hlen. unfold pads_of.
    by assert (length bs = 1 \/ length bs = 2 \/ length bs = 3 \/ length bs = 4)%nat as [->|[->|[->| ->]]] by lia. }
  rewrite (decode_loop_read _ _ _ (block_nonempty bs _ ltac:(lia) Hb) Hr). by rewrite Hdec.
Qed.

(** The text of an encoding, its padding, and that it is decoded back. *)
Definition shape (bs text : bytes) (m : nat) : Prop :=
  EncodeToString bs = text ++ replicate m pad /\ Forall plain_char text /\
  ((length text + m) mod 8 = 0)%nat /\ (m < 7)%nat /\ (m ∈ [0; 1; 3; 4; 6]%nat) /\ (length bs <= length text + m)%nat /\
  forall fuel, (length bs <= 5 * fuel)%nat -> decode_loop fuel (text ++ replicate m pad) = Some bs.

Lemma encode_last bs : (1 <= length bs <= 4)%nat -> is_bytes bs -> shape bs (b32_char <$> block_digits bs) (pads_of (length bs)).
Proof.
  intros Hl Hb. destruct (block_digits_ok bs) as (Hlen & Hds & _); [lia|done|]. split_and!.
  - rewrite <- enc_block_eq. by destruct bs as [|? [|? [|? [|? [|]]]]]; cbn in Hl; try lia.
  - by apply chars_plain.
  - rewrite length_fmap, Hlen. by assert (length bs = 1 \/ length bs = 2 \/ length bs = 3 \/ length bs = 4)%nat as [->|[->|[->| ->]]] by lia.
  - assert (length bs = 1 \/ length bs = 2 \/ length bs = 3 \/ length bs = 4)%nat as [->|[->|[->| ->]]] by lia; vm_compute; lia.
  - assert (length bs = 1 \/ length bs = 2 \/ length bs = 3 \/ length bs = 4)%nat as [->|[->|[->| ->]]] by lia;
      (change (pads_of 1) with 6%nat || change (pads_of 2) with 4%nat || change (pads_of 3) with 3%nat || change (pads_of 4) with 1%nat); set_solver.
  - rewrite length_fmap, Hlen. unfold pads_of. lia.
  - intros [|fuel] Hf; [lia|]. rewrite <- enc_block_eq. by apply decode_last.
Qed.

Lemma encode_shape bs : is_bytes bs -> exists text m, shape bs text m.
Proof.
  remember (length bs) as n eqn:Hn. revert bs Hn. induction (lt_wf n) as [n _ IH]; intros bs -> Hb.
  destruct (decide (bs = [])) as [->|Hne]; [exists [], 0%nat; split_and!; [done|constructor|done|lia|left|done|by intros [|fuel]]|].
  destruct (decide (length bs <= 4)%nat) as [Hs|Hs].
  { exists (b32_char <$> block_digits bs), (pads_of (length bs)). apply encode_last; [|done]. destruct bs; [done|cbn in *; lia]. }
  destruct bs as [|b0 [|b1 [|b2 [|b3 [|b4 rest]]]]]; try (cbn in Hs; lia).
  change (b0 :: b1 :: b2 :: b3 :: b4 :: rest) with ([b0; b1; b2; b3; b4] ++ rest) in Hb. apply Forall_app in Hb as [H5 Hrest].
  destruct (IH (length rest) ltac:(cbn; lia) rest eq_refl Hrest) as (text & m & He & Hp & Hm & Hlt & Hin & Hlong & Hd).
  destruct (block_digits_ok [b0; b1; b2; b3; b4]) as (Hlen & Hds & _); [cbn; lia|done|].
  assert (E5 : enc_block [b0; b1; b2; b3; b4] = b32_char <$> block_digits [b0; b1; b2; b3; b4]) by (rewrite enc_block_eq; change (pads_of (length [b0; b1; b2; b3; b4])) with 0%nat; cbn [replicate]; apply app_nil_r).
  exists ((b32_char <$> block_digits [b0; b1; b2; b3; b4]) ++ text), m. split_and!.
  - change (EncodeToString (b0 :: b1 :: b2 :: b3 :: b4 :: rest)) with (enc_block [b0; b1; b2; b3; b4] ++ EncodeToString rest). by rewrite He, E5, (assoc_L (++)).
  - apply Forall_app_2; [by apply chars_plain|done].
  - rewrite length_app, length_fmap, Hlen. change (chars_of (length [b0; b1; b2; b3; b4])) with 8%nat. rewrite <- Nat.add_assoc, Nat.Div0.add_mod, Hm. done.
  - done.
  - done.
  - rewrite length_app, length_fmap, Hlen. change (chars_of (length [b0; b1; b2; b3; b4])) with 8%nat. cbn [length] in *. lia.
  - intros [|fuel] Hf; [cbn in Hf; lia|]. rewrite <- (assoc_L (++)), <- E5, decode_full by done. rewrite Hd by (cbn in Hf; lia). done.
Qed.

Lemma TrimRight_plain text m : Forall plain_char text -> TrimRight_pad (text ++ replicate m pad) = text.
Proof.
  induction 1 as [|c text [Hc _] _ IH]; cbn [app].
  - induction m as [|m IHm]; [done|]. cbn. by rewrite IHm.
  - cbn [TrimRight_pad]. rewrite IH. destruct text; [|done]. by destruct (Z.eqb_spec c pad).
Qed.

Lemma padBase32_text text m : ((length text + m) mod 8 = 0)%nat -> m ∈ [0; 1; 3; 4; 6]%nat -> padBase32 text = text ++ replicate m pad.
Proof.
  intros Hm Hin. unfold padBase32. pose proof (Nat.mod_upper_bound (length text) 8 ltac:(lia)) as Hu.
  rewrite Nat.Div0.add_mod in Hm. repeat (apply elem_of_cons in Hin as [->|Hin]); [| | | | |by apply not_elem_of_nil in Hin];
    destruct (length text mod 8)%nat as [|[|[|[|[|[|[|[|]]]]]]]]; cbn in Hm; try discriminate Hm; try lia; try done; cbn; by rewrite app_nil_r.
Qed.

(** A secret is read back from its text, however long it is. *)
Lemma secret_decoded (secret : bytes) : is_bytes secret -> DecodeString (padBase32 (GenerateTOTPSecret secret)) = Some secret.
Proof.
  intros Hb. destruct (encode_shape secret Hb) as (text & m & He & Hp & Hm & _ & Hin & Hlong & Hd). unfold GenerateTOTPSecret. rewrite He, TrimRight_plain by done.
  rewrite (padBase32_text text m Hm Hin). unfold DecodeString. rewrite filter_all.
  - apply Hd. rewrite length_app, length_replicate. lia.
  - apply Forall_app_2; [eapply Forall_impl; [exact Hp|]; by intros c (_ & H1 & H2)|]. apply Forall_replicate. done.
Qed.

(** One-time passwords.  The text of a generated secret is decoded to the secret it was made
    from, whatever its length.  A code generated from it has six digits and is accepted for
    thirty seconds before and after; and at any time exactly the codes of the current step,
    the one before and the one after are. *)
Theorem totp_accepted (hmac : bytes -> bytes -> bytes) (secret : bytes) (t t' : Z) :
  is_bytes secret -> secret <> [] -> 0 <= t -> 0 <= t' ->
  let text := GenerateTOTPSecret secret in
  let code := GenerateTOTPCode hmac text t in
  length code = 6%nat /\ Forall (fun c => 48 <= c <= 57) code /\
  (Z.abs (t' - t) <= 30 -> ValidateTOTP hmac text code t' = true) /\
  (forall c, ValidateTOTP hmac text c t' = true <-> exists k, -1 <= k <= 1 /\ c = hotp hmac secret (t' / 30 + k)).
Proof.
  intros Hb Hne Ht Ht'. cbn zeta. unfold GenerateTOTPCode, ValidateTOTP. rewrite secret_decoded by done.
  rewrite !Z.quot_div_nonneg by lia. destruct secret as [|b bs]; [done|].
  assert (Hval : forall c, existsb (fun offset => bool_decide (hotp hmac (b :: bs) (t' / 30 + offset) = c)) [-1; 0; 1] = true <->
    exists k, -1 <= k <= 1 /\ c = hotp hmac (b :: bs) (t' / 30 + k)).
  { intros c. rewrite existsb_exists. split.
    - intros (k & Hk & Hc%bool_decide_eq_true). exists k. split; [|done]. cbn in Hk. lia.
    - intros (k & Hk & ->). exists k. split; [cbn; lia|]. by apply bool_decide_eq_true. }
  split_and!; [unfold hotp; by rewrite length_fmap, to_digits_length| |intros Hd; apply Hval|exact Hval].
  - unfold hotp. apply Forall_fmap. eapply Forall_impl; [apply (to_digits_range 10 ltac:(lia))|]. cbn. intros d Hd. lia.
  - exists (t / 30 - t' / 30). split; [|f_equal; lia]. pose proof (Z.div_mod t 30 ltac:(lia)). pose proof (Z.div_mod t' 30 ltac:(lia)).
    pose proof (Z.mod_pos_bound t 30 ltac:(lia)). pose proof (Z.mod_pos_bound t' 30 ltac:(lia)). lia.
Qed.

Lemma totp_accepted_witness :
  let hmac key msg := replicate 31 7 ++ [of_digits 256 msg mod 256] in
  ValidateTOTP hmac (GenerateTOTPSecret [72; 105; 33]) (GenerateTOTPCode hmac (GenerateTOTPSecret [72; 105; 33]) 1000) 1030 = true.
Proof.
  cbn zeta. destruct (totp_accepted (fun _ msg => replicate 31 7 ++ [of_digits 256 msg mod 256]) [72; 105; 33] 1000 1030) as (_ & _ & H & _);
    [repeat constructor; lia|done|lia|lia|]. apply H. lia.
Defined.

(** ** Passwords (password.go) *)

Inductive password_error := TooShort | NoUpper | NoLower | NoDigit.

(** The loop ranges over the runes. *)
Definition CheckPasswordStrength (password : string) : option password_error :=
  if (String.length password <? 8)%nat then Some TooShort
  else
    let rs := runes_of password in
    if negb (existsb (fun ch => in_range 65 ch 90) rs) then Some NoUpper
    else if negb (existsb (fun ch => in_range 97 ch 122) rs) then Some NoLower
    else if negb (existsb (fun ch => in_range 48 ch 57) rs) then Some NoDigit
    else None.

Lemma decode_rune_high b bs r n : 128 <= b < 256 -> is_bytes bs -> decode_rune b bs = (r, n) -> 128 <= r /\ Forall (fun x => 128 <= x) (take n bs).
Proof.
  intros Hb Hbs. unfold decode_rune. destruct (Z.ltb_spec b 128); [lia|].
  assert (Herr : 128 <= RuneError /\ Forall (fun x => 128 <= x) (take 0 bs)) by (split; [unfold RuneError; lia|constructor]).
  unfold lead. repeat (match goal with
    | |- context [in_range ?x b ?y] => destruct (in_range_spec x b y)
    | |- context [b =? ?y] => destruct (Z.eqb_spec b y) end);
    try (intros [= <- <-]; exact Herr); destruct bs as [|b1 [|b2 [|b3 bs']]]; try (intros [= <- <-]; exact Herr); unfold cont;
    repeat match goal with |- context [in_range ?x ?z ?y] => destruct (in_range_spec x z y) end; cbn [andb];
    (intros [= <- <-]; first [exact Herr|split; [lia|repeat constructor; lia]]).
Qed.

(** The runes below 128 are the bytes below 128. *)
Lemma ascii_runes bs : forall k r, is_bytes bs -> Forall (fun x => 128 <= x) (take k bs) -> r < 128 -> r ∈ decode_from k bs <-> r ∈ bs.
Proof.
  induction bs as [|b bs IH]; intros k r Hb Hk Hr; [done|]. apply Forall_cons in Hb as [Hb Hbs]. cbn [decode_from]. destruct k as [|k].
  - destruct (decode_rune b bs) as [r0 n] eqn:E. rewrite !elem_of_cons. destruct (Z.lt_ge_cases b 128) as [Hlt|Hge].
    + unfold decode_rune in E. destruct (Z.ltb_spec b 128); [|lia]. injection E as <- <-. by rewrite (IH 0%nat r Hbs (Forall_nil_2 _) Hr).
    + destruct (decode_rune_high b bs r0 n) as [Hr0 Hn]; [lia|done|done|]. rewrite (IH n r Hbs Hn Hr). split; intros [->|H]; try lia; by right.
  - cbn in Hk. apply Forall_cons in Hk as [Hge Hk]. rewrite (IH k r Hbs Hk Hr), elem_of_cons. split; [by right|]. intros [->|H]; [lia|done].
Qed.

Lemma bytes_of_range s : is_bytes (bytes_of s).
Proof. induction s as [|c s IH]; constructor; [apply byte_val_range|done]. Qed.

Lemma ascii_in lo hi s : hi < 128 -> existsb (fun ch => in_range lo ch hi) (runes_of s) = true <-> exists b, b ∈ bytes_of s /\ lo <= b <= hi.
Proof.
  intros Hh. rewrite existsb_exists. split.
  - intros (r & Hr%list_elem_of_In & Hin). destruct (in_range_spec lo r hi); [|done]. exists r. split; [|done].
    apply (ascii_runes (bytes_of s) 0 r); [apply bytes_of_range|constructor|lia|done].
  - intros (b & Hb & Hr). exists b. split; [apply list_elem_of_In, (ascii_runes (bytes_of s) 0 b); [apply bytes_of_range|constructor|lia|done]|].
    by destruct (in_range_spec lo b hi).
Qed.

(** A password is strong enough exactly when it has at least eight bytes and among them a
    capital letter, a small letter and a digit of ASCII: letters of other alphabets count for
    its length only, by their bytes. *)
Theorem password_strength (password : string) :
  CheckPasswordStrength password = None <->
  (8 <= String.length password)%nat /\ (exists b, b ∈ bytes_of password /\ 65 <= b <= 90) /\
  (exists b, b ∈ bytes_of password /\ 97 <= b <= 122) /\ (exists b, b ∈ bytes_of password /\ 48 <= b <= 57).
Proof.
  unfold CheckPasswordStrength. rewrite <- !ascii_in by lia. destruct (Nat.ltb_spec (String.length password) 8); [split; [done|lia]|].
  destruct (existsb (fun ch => in_range 65 ch 90) _), (existsb (fun ch => in_range 97 ch 122) _), (existsb (fun ch => in_range 48 ch 57) _); cbn; naive_solver.
Qed.
