(* ===== verification/JobStore.v ===== *)
(** * The in-memory job store (runtime/async_store.go)

    [memoryJobStore] maps ids to pointers.  [Create] and [Get] hand the pointer out, and
    the caller reads and writes through it, so jobs live in a heap ([ms_heap]) and the
    store maps ids to addresses; [Snapshot] copies.  Every method runs under the store's
    lock and is one atomic function of the clock it read. *)

From S2P Require Import Prelude.

Inductive JobStatus := JobPending | JobProcessing | JobCompleted | JobFailed.

#[export] Instance JobStatus_eq_dec : EqDecision JobStatus.
Proof. solve_decision. Defined.

(** [A] is the type of results; times are nanoseconds. *)
Record JobState (A : Type) : Type := mkJobState {
  js_ID : string;
  js_Status : JobStatus;
  js_Result : option A;
  js_Error : string;
  js_CreatedAt : Z; js_UpdatedAt : Z;
  js_RetryCount : Z; js_MaxRetries : Z;
  js_ProcessingDeadline : option Z;
  js_CallbackURL : string
}.
Arguments mkJobState {A}.
Arguments js_ID {A}. Arguments js_Status {A}. Arguments js_Result {A}. Arguments js_Error {A}.
Arguments js_CreatedAt {A}. Arguments js_UpdatedAt {A}. Arguments js_RetryCount {A}.
Arguments js_MaxRetries {A}. Arguments js_ProcessingDeadline {A}. Arguments js_CallbackURL {A}.

#[export] Instance eta_JobState {A} : Eta (JobState A) := fun j =>
  mkJobState (js_ID j) (js_Status j) (js_Result j) (js_Error j) (js_CreatedAt j) (js_UpdatedAt j)
    (js_RetryCount j) (js_MaxRetries j) (js_ProcessingDeadline j) (js_CallbackURL j).

Section store.
Context {A : Type}.

Record memoryJobStore : Type := mkMemoryJobStore {
  ms_jobs : gmap string nat;
  ms_processingTimeout : Z;
  ms_heap : gmap nat (JobState A);
  ms_next : nat
}.

#[local] Instance eta_memoryJobStore : Eta memoryJobStore := fun s =>
  mkMemoryJobStore (ms_jobs s) (ms_processingTimeout s) (ms_heap s) (ms_next s).

Definition newMemoryJobStore : memoryJobStore := mkMemoryJobStore ∅ (5 * 60 * 10^9) ∅ 0.

(** Writes through a pointer. *)
Definition ms_write (a : nat) (f : JobState A -> JobState A) (s : memoryJobStore) : memoryJobStore :=
  s <| ms_heap := alter f a (ms_heap s) |>.

Definition ms_Create (now : Z) (id : string) (s : memoryJobStore) : nat * memoryJobStore :=
  let js := mkJobState id JobPending None "" now now 0 0 None "" in
  (ms_next s, s <| ms_heap := <[ms_next s := js]> (ms_heap s) |>
                <| ms_jobs := <[id := ms_next s]> (ms_jobs s) |>
                <| ms_next := S (ms_next s) |>).

(** The pointer. *)
Definition ms_Get (id : string) (s : memoryJobStore) : option nat := ms_jobs s !! id.

(** The value behind the pointer. *)
Definition ms_Snapshot (id : string) (s : memoryJobStore) : option (JobState A) :=
  a ← ms_jobs s !! id; ms_heap s !! a.

(** [now1] and [now2] are the two clock readings. *)
Definition ms_Update (now1 now2 : Z) (id : string) (status : JobStatus) (result : option A) (errMsg : string)
    (s : memoryJobStore) : memoryJobStore :=
  match ms_jobs s !! id with
  | None => s
  | Some a =>
      ms_write a (fun js =>
        let js := js <| js_Status := status |> <| js_Result := result |> <| js_Error := errMsg |>
                     <| js_UpdatedAt := now1 |> in
        if decide (status = JobProcessing)
        then js <| js_ProcessingDeadline := Some (now2 + ms_processingTimeout s) |>
        else js <| js_ProcessingDeadline := None |>) s
  end.

Definition ms_List (s : memoryJobStore) : list nat := (map_to_list (ms_jobs s)).*2.

Definition ms_Delete (id : string) (s : memoryJobStore) : memoryJobStore :=
  s <| ms_jobs := delete id (ms_jobs s) |>.

(** The body of the loop of [ReapStale]. *)
Definition is_stale (now : Z) (js : JobState A) : bool :=
  bool_decide (js_Status js = JobProcessing) &&
  match js_ProcessingDeadline js with Some dl => negb (now <? dl) | None => false end.

Definition reap_job (now maxRetries : Z) (js : JobState A) : JobState A :=
  if negb (is_stale now js) then js
  else if maxRetries <=? js_RetryCount js then
    js <| js_Status := JobFailed |> <| js_Error := "max retries exceeded" |>
       <| js_ProcessingDeadline := None |> <| js_UpdatedAt := now |>
  else
    js <| js_Status := JobPending |> <| js_RetryCount := js_RetryCount js + 1 |>
       <| js_ProcessingDeadline := None |> <| js_UpdatedAt := now |>.

(** The loop over the pointers in the map, with the count. *)
Fixpoint reap_loop (now maxRetries : Z) (as_ : list nat) (count : nat) (s : memoryJobStore) : nat * memoryJobStore :=
  match as_ with
  | [] => (count, s)
  | a :: as_ =>
      let count := match ms_heap s !! a with
                   | Some js => if is_stale now js then S count else count
                   | None => count
                   end in
      reap_loop now maxRetries as_ count (ms_write a (reap_job now maxRetries) s)
  end.

Definition ms_ReapStale (now maxRetries : Z) (s : memoryJobStore) : nat * memoryJobStore :=
  reap_loop now maxRetries (ms_List s) 0 s.

Definition is_terminal (st : JobStatus) : bool :=
  match st with JobCompleted | JobFailed => true | _ => false end.

(** Whether [Cleanup] removes the entry. *)
Definition expired (cutoff : Z) (s : memoryJobStore) (a : nat) : bool :=
  match ms_heap s !! a with
  | Some js => is_terminal (js_Status js) && (js_UpdatedAt js <? cutoff)
  | None => false
  end.

Definition ms_Cleanup (now ttl : Z) (s : memoryJobStore) : nat * memoryJobStore :=
  let cutoff := now - ttl in
  let old := filter (fun '(_, a) => expired cutoff s a = true) (ms_jobs s) in
  (size old, s <| ms_jobs := ms_jobs s ∖ old |>).

(** ** Invariant *)

Definition job_wf (js : JobState A) : Prop :=
  (is_Some (js_ProcessingDeadline js) <-> js_Status js = JobProcessing) /\ 0 <= js_RetryCount js.

Record store_wf (s : memoryJobStore) : Prop := mk_store_wf {
  sw_alloc : forall id a, ms_jobs s !! id = Some a -> is_Some (ms_heap s !! a);
  sw_inj : forall id1 id2 a, ms_jobs s !! id1 = Some a -> ms_jobs s !! id2 = Some a -> id1 = id2;
  sw_fresh : forall a js, ms_heap s !! a = Some js -> (a < ms_next s)%nat;
  sw_jobs : forall a js, ms_heap s !! a = Some js -> job_wf js
}.

Lemma new_wf : store_wf newMemoryJobStore.
Proof. constructor; cbn; intros *; by rewrite lookup_empty. Qed.

Lemma ms_write_lookup (a b : nat) f (s : memoryJobStore) :
  ms_heap (ms_write a f s) !! b = (if decide (a = b) then f <$> ms_heap s !! b else ms_heap s !! b).
Proof.
  cbn. case_decide as E; [subst; by rewrite lookup_alter_eq|by rewrite lookup_alter_ne].
Qed.

Lemma ms_write_wf (a : nat) f (s : memoryJobStore) :
  store_wf s -> (forall js, ms_heap s !! a = Some js -> job_wf (f js)) -> store_wf (ms_write a f s).
Proof.
  intros [H1 H2 H3 H4] Hf.
  assert (Hlook : forall b js', ms_heap (ms_write a f s) !! b = Some js' ->
    exists js, ms_heap s !! b = Some js /\ (js' = js \/ a = b /\ js' = f js)).
  { intros b js'. rewrite ms_write_lookup. case_decide as E; [|eauto].
    destruct (ms_heap s !! b) as [js|]; [|done]. cbn. intros [= <-]. eauto. }
  constructor.
  - intros id b Hid. destruct (H1 id b Hid) as [js Hjs]. rewrite ms_write_lookup, Hjs. case_decide; eauto.
  - exact H2.
  - intros b js' Hb. destruct (Hlook b js' Hb) as (js & Hjs & _). by eapply H3.
  - intros b js' Hb. destruct (Hlook b js' Hb) as (js & Hjs & [->|[<- ->]]); [by eapply H4|by apply Hf].
Qed.

Lemma Create_wf now id (s : memoryJobStore) : store_wf s -> store_wf (ms_Create now id s).2.
Proof.
  intros [H1 H2 H3 H4].
  assert (Hne : forall id' a, ms_jobs s !! id' = Some a -> a <> ms_next s).
  { intros id' a Ha. destruct (H1 id' a Ha) as [js Hjs]. apply H3 in Hjs. lia. }
  constructor; cbn.
  - intros id' a. rewrite lookup_insert_Some. intros [[_ <-]|[_ Ha]]; [rewrite lookup_insert_eq; eauto|].
    destruct (H1 id' a Ha) as [js Hjs]. rewrite lookup_insert_ne by (apply not_eq_sym; by eapply Hne). eauto.
  - intros id1 id2 a. rewrite !lookup_insert_Some.
    intros [[<- <-]|[_ Ha]] [[<- E]|[_ Hb]]; try done; subst; [by apply Hne in Hb|by apply Hne in Ha|by eapply H2].
  - intros a js. rewrite lookup_insert_Some. intros [[<- _]|[_ Ha]]; [lia|]. apply H3 in Ha. lia.
  - intros a js. rewrite lookup_insert_Some. intros [[_ <-]|[_ Ha]]; [|by eapply H4].
    split; cbn; [|lia]. split; [by intros [? ?]|done].
Qed.

Lemma Update_wf n1 n2 id st res err (s : memoryJobStore) : store_wf s -> store_wf (ms_Update n1 n2 id st res err s).
Proof.
  intros Hw. unfold ms_Update. destruct (ms_jobs s !! id) as [a|]; [|done].
  apply ms_write_wf; [done|]. intros js Hjs. destruct (sw_jobs s Hw a js Hjs) as [_ Hrc].
  case_decide as E; split; cbn; try done; split; eauto; by intros [? ?].
Qed.

Lemma reap_job_wf now mr js : job_wf js -> job_wf (reap_job now mr js).
Proof.
  intros [Hd Hr]. unfold reap_job. destruct (is_stale now js); cbn [negb]; [|done].
  destruct (mr <=? js_RetryCount js); split; cbn; try lia; split; try done; by intros [? ?].
Qed.

(** The loop applies its body once to every job of the store. *)
Lemma reap_loop_spec now mr (l : list nat) : forall n (s : memoryJobStore),
  NoDup l -> (forall a, a ∈ l -> is_Some (ms_heap s !! a)) -> store_wf s ->
  let '(n', s') := reap_loop now mr l n s in
  store_wf s' /\ ms_jobs s' = ms_jobs s /\ ms_processingTimeout s' = ms_processingTimeout s /\
  (forall a, ms_heap s' !! a = if decide (a ∈ l) then reap_job now mr <$> ms_heap s !! a else ms_heap s !! a) /\
  n' = (n + length (filter (fun a => from_option (is_stale now) false (ms_heap s !! a) = true) l))%nat.
Proof.
  induction l as [|a l IH]; intros n s Hnd Hall Hw.
  { cbn. split; [done|]. split; [done|]. split; [done|]. split; [|lia]. intros a.
    by rewrite decide_False by set_solver. }
  apply NoDup_cons in Hnd as [Ha Hnd]. destruct (Hall a ltac:(set_solver)) as [js Hjs].
  cbn [reap_loop]. rewrite Hjs.
  specialize (IH (if is_stale now js then S n else n) (ms_write a (reap_job now mr) s) Hnd).
  destruct (reap_loop now mr l _ _) as [n' s']. destruct IH as (Hw' & Hj & Ht & Hh & Hn).
  - intros b Hb. rewrite ms_write_lookup. destruct (Hall b ltac:(set_solver)) as [jb ->]. case_decide; eauto.
  - apply ms_write_wf; [done|]. intros js' Hjs'. apply reap_job_wf. by eapply (sw_jobs s Hw).
  - split; [done|]. split; [done|]. split; [done|]. split.
    + intros b. rewrite Hh, ms_write_lookup. destruct (decide (a = b)) as [<-|Hne].
      * rewrite decide_False by done. by rewrite decide_True by set_solver.
      * destruct (decide (b ∈ l)); [by rewrite decide_True by set_solver|].
        by rewrite decide_False by set_solver.
    + rewrite Hn, filter_cons, Hjs. cbn [from_option].
      assert (Hext : filter (fun b => from_option (is_stale now) false
          (ms_heap (ms_write a (reap_job now mr) s) !! b) = true) l =
        filter (fun b => from_option (is_stale now) false (ms_heap s !! b) = true) l).
      { apply filter_ext_in. intros b Hb. rewrite ms_write_lookup. rewrite decide_False; [done|]. by intros ->. }
      rewrite Hext. case_decide as E; [rewrite E; cbn; lia|].
      destruct (is_stale now js); [done|]. lia.
Qed.

(** ** Refinement to a map of values

    What a client sees of the store is a finite map from ids to job values. *)

Inductive store_op :=
| SCreate (now : Z) (id : string)
| SPoke (id : string) (callbackURL : string) (maxRetries : Z)   (* writes through the pointer of [Create] *)
| SUpdate (now1 now2 : Z) (id : string) (status : JobStatus) (result : option A) (errMsg : string)
| SDelete (id : string)
| SReap (now maxRetries : Z)
| SCleanup (now ttl : Z).

Definition poke (callbackURL : string) (maxRetries : Z) (js : JobState A) : JobState A :=
  js <| js_CallbackURL := callbackURL |> <| js_MaxRetries := maxRetries |>.

(** The count is that of [ReapStale] and [Cleanup]. *)
Definition store_exec (op : store_op) (s : memoryJobStore) : nat * memoryJobStore :=
  match op with
  | SCreate now id => (0%nat, (ms_Create now id s).2)
  | SPoke id cb mr => (0%nat, match ms_Get id s with Some a => ms_write a (poke cb mr) s | None => s end)
  | SUpdate n1 n2 id st res err => (0%nat, ms_Update n1 n2 id st res err s)
  | SDelete id => (0%nat, ms_Delete id s)
  | SReap now mr => ms_ReapStale now mr s
  | SCleanup now ttl => ms_Cleanup now ttl s
  end.

Definition update_job (timeout n1 n2 : Z) (st : JobStatus) (res : option A) (err : string) (js : JobState A) : JobState A :=
  let js := js <| js_Status := st |> <| js_Result := res |> <| js_Error := err |> <| js_UpdatedAt := n1 |> in
  js <| js_ProcessingDeadline := if decide (st = JobProcessing) then Some (n2 + timeout) else None |>.

Definition job_old (cutoff : Z) (js : JobState A) : bool :=
  is_terminal (js_Status js) && (js_UpdatedAt js <? cutoff).

Definition map_exec (timeout : Z) (op : store_op) (m : gmap string (JobState A)) : nat * gmap string (JobState A) :=
  match op with
  | SCreate now id => (0%nat, <[id := mkJobState id JobPending None "" now now 0 0 None ""]> m)
  | SPoke id cb mr => (0%nat, alter (poke cb mr) id m)
  | SUpdate n1 n2 id st res err => (0%nat, alter (update_job timeout n1 n2 st res err) id m)
  | SDelete id => (0%nat, delete id m)
  | SReap now mr => (size (filter (fun '(_, js) => is_stale now js = true) m), reap_job now mr <$> m)
  | SCleanup now ttl =>
      (size (filter (fun '(_, js) => job_old (now - ttl) js = true) m),
       filter (fun '(_, js) => job_old (now - ttl) js = false) m)
  end.

Definition ms_model (s : memoryJobStore) : gmap string (JobState A) :=
  omap (fun a => ms_heap s !! a) (ms_jobs s).

Lemma ms_model_lookup (s : memoryJobStore) id : ms_model s !! id = ms_Snapshot id s.
Proof. apply lookup_omap. Qed.

(** Writing through the pointer of an id changes that id only. *)
Lemma ms_write_model (s : memoryJobStore) id a f :
  store_wf s -> ms_jobs s !! id = Some a -> ms_model (ms_write a f s) = alter f id (ms_model s).
Proof.
  intros Hw Ha. apply map_eq. intros id'.
  destruct (decide (id = id')) as [<-|Hne].
  - rewrite lookup_alter_eq, !ms_model_lookup. unfold ms_Snapshot. cbn. rewrite Ha. cbn.
    by rewrite lookup_alter_eq.
  - rewrite lookup_alter_ne, !ms_model_lookup by done. unfold ms_Snapshot. cbn.
    destruct (ms_jobs s !! id') as [a'|] eqn:Ha'; [|done]. cbn. rewrite lookup_alter_ne; [done|].
    intros ->. apply Hne. by eapply (sw_inj s Hw).
Qed.

Lemma ms_model_None (s : memoryJobStore) id : store_wf s -> ms_jobs s !! id = None <-> ms_model s !! id = None.
Proof.
  intros Hw. rewrite ms_model_lookup. unfold ms_Snapshot. destruct (ms_jobs s !! id) as [a|] eqn:E; [|done].
  cbn. destruct (sw_alloc s Hw id a E) as [js ->]. done.
Qed.

Lemma alter_absent (m : gmap string (JobState A)) id f : m !! id = None -> alter f id m = m.
Proof.
  intros Hm. apply map_eq. intros id'. destruct (decide (id = id')) as [<-|].
  - by rewrite lookup_alter_eq, Hm.
  - by rewrite lookup_alter_ne.
Qed.

Lemma map_size_list {B C} (P : C -> bool) (m : gmap string B) (f : B -> option C) :
  (forall id b, m !! id = Some b -> is_Some (f b)) ->
  length (filter (fun b => from_option P false (f b) = true) (map_to_list m).*2) =
  size (filter (fun '(_, js) => P js = true) (omap f m)).
Proof.
  revert m. apply (map_ind (fun m => (forall id b, m !! id = Some b -> is_Some (f b)) -> _)).
  { intros _. rewrite map_to_list_empty, omap_empty, map_filter_empty, map_size_empty. done. }
  intros id b m Hid IH Hall.
  assert (Hb : is_Some (f b)) by (apply (Hall id); by rewrite lookup_insert_eq).
  destruct Hb as [js Hjs].
  rewrite (Permutation_length (filter_Permutation _ _ _ (fmap_Permutation snd _ _ (map_to_list_insert m id b Hid)))).
  cbn [fmap list_fmap snd]. rewrite filter_cons.
  rewrite (omap_insert_Some f m id b js) by done.
  assert (Hno : omap f m !! id = None) by (rewrite lookup_omap, Hid; done).
  rewrite Hjs. cbn [from_option].
  assert (IH' := IH ltac:(intros id' b' Hb'; apply (Hall id'); rewrite lookup_insert_ne; [done|congruence])).
  destruct (P js) eqn:EP.
  - rewrite decide_True by done. rewrite map_filter_insert_True by done. cbn [length].
    rewrite map_size_insert_None; [by rewrite IH'|]. apply map_lookup_filter_None. left. done.
  - rewrite decide_False by done. rewrite map_filter_insert_False by (by rewrite EP).
    rewrite delete_id by done. exact IH'.
Qed.

Definition sim (s : memoryJobStore) (r : nat * memoryJobStore) (q : nat * gmap string (JobState A)) : Prop :=
  store_wf r.2 /\ ms_processingTimeout r.2 = ms_processingTimeout s /\ r.1 = q.1 /\ ms_model r.2 = q.2.

Lemma sim_create (s : memoryJobStore) now id :
  store_wf s -> sim s (store_exec (SCreate now id) s) (map_exec (ms_processingTimeout s) (SCreate now id) (ms_model s)).
Proof.
  intros Hw. split; [by apply Create_wf|]. split; [done|]. split; [done|].
  apply map_eq. intros id'. cbn [snd store_exec map_exec]. rewrite ms_model_lookup. unfold ms_Snapshot. cbn.
  destruct (decide (id = id')) as [<-|Hne].
  - rewrite !lookup_insert_eq. cbn. by rewrite lookup_insert_eq.
  - rewrite !lookup_insert_ne by done. rewrite ms_model_lookup. unfold ms_Snapshot.
    destruct (ms_jobs s !! id') as [a|] eqn:Ha; [|done]. cbn. rewrite lookup_insert_ne; [done|].
    destruct (sw_alloc s Hw id' a Ha) as [js Hjs]. apply (sw_fresh s Hw) in Hjs. lia.
Qed.

Lemma sim_poke (s : memoryJobStore) id cb mr :
  store_wf s -> sim s (store_exec (SPoke id cb mr) s) (map_exec (ms_processingTimeout s) (SPoke id cb mr) (ms_model s)).
Proof.
  intros Hw. unfold sim, store_exec, ms_Get. destruct (ms_jobs s !! id) as [a|] eqn:Ha; cbn [fst snd map_exec].
  - split; [|split; [done|split; [done|by apply ms_write_model]]].
    apply ms_write_wf; [done|]. intros js Hjs. exact (sw_jobs s Hw a js Hjs).
  - apply (ms_model_None s id Hw) in Ha. by rewrite alter_absent.
Qed.

Lemma sim_update (s : memoryJobStore) n1 n2 id st res err :
  store_wf s -> sim s (store_exec (SUpdate n1 n2 id st res err) s)
    (map_exec (ms_processingTimeout s) (SUpdate n1 n2 id st res err) (ms_model s)).
Proof.
  intros Hw. split; [by apply Update_wf|]. cbn [store_exec map_exec fst snd]. unfold ms_Update.
  destruct (ms_jobs s !! id) as [a|] eqn:Ha.
  - split; [done|]. split; [done|]. rewrite (ms_write_model s id a _ Hw Ha). apply map_eq. intros id'.
    destruct (decide (id = id')) as [<-|]; [rewrite !lookup_alter_eq|by rewrite !lookup_alter_ne].
    destruct (ms_model s !! id); cbn; [|done]. unfold update_job. by case_decide.
  - apply (ms_model_None s id Hw) in Ha. by rewrite alter_absent.
Qed.

Lemma sim_delete (s : memoryJobStore) id :
  store_wf s -> sim s (store_exec (SDelete id) s) (map_exec (ms_processingTimeout s) (SDelete id) (ms_model s)).
Proof.
  intros [H1 H2 H3 H4]. split; [|split; [done|split; [done|apply omap_delete]]].
  constructor; cbn; try done.
  - intros id' a [_ Ha]%lookup_delete_Some. by eapply H1.
  - intros id1 id2 a [_ Ha]%lookup_delete_Some [_ Hb]%lookup_delete_Some. by eapply H2.
Qed.

Lemma ms_List_nodup (s : memoryJobStore) : store_wf s -> NoDup (ms_List s).
Proof.
  intros Hw. unfold ms_List. apply NoDup_fmap_2_strong; [|apply NoDup_map_to_list].
  intros [id1 a1] [id2 a2] H1%elem_of_map_to_list H2%elem_of_map_to_list. cbn. intros ->.
  f_equal. by eapply (sw_inj s Hw).
Qed.

Lemma ms_List_elem (s : memoryJobStore) a : a ∈ ms_List s <-> exists id, ms_jobs s !! id = Some a.
Proof.
  unfold ms_List. rewrite list_elem_of_fmap. split.
  - intros ([id a'] & -> & H%elem_of_map_to_list). eauto.
  - intros [id H]. exists (id, a). by rewrite elem_of_map_to_list.
Qed.

Lemma sim_reap (s : memoryJobStore) now mr :
  store_wf s -> sim s (store_exec (SReap now mr) s) (map_exec (ms_processingTimeout s) (SReap now mr) (ms_model s)).
Proof.
  intros Hw. unfold sim. cbn [store_exec]. unfold ms_ReapStale.
  pose proof (reap_loop_spec now mr (ms_List s) 0 s (ms_List_nodup s Hw)) as H.
  destruct (reap_loop now mr (ms_List s) 0 s) as [n s'].
  destruct H as (Hw' & Hj & Ht & Hh & Hn); [|done|].
  { intros a [id Ha]%ms_List_elem. by eapply (sw_alloc s Hw). }
  cbn [fst snd map_exec]. split; [done|]. split; [done|]. split.
  - rewrite Hn. cbn. apply map_size_list. apply (sw_alloc s Hw).
  - apply map_eq. intros id. rewrite lookup_fmap, !ms_model_lookup. unfold ms_Snapshot. rewrite Hj.
    destruct (ms_jobs s !! id) as [a|] eqn:Ha; [|done]. cbn. rewrite Hh.
    rewrite decide_True; [done|]. apply ms_List_elem. eauto.
Qed.

Lemma sim_cleanup (s : memoryJobStore) now ttl :
  store_wf s -> sim s (store_exec (SCleanup now ttl) s) (map_exec (ms_processingTimeout s) (SCleanup now ttl) (ms_model s)).
Proof.
  intros Hw. pose proof Hw as [H1 H2 H3 H4].
  assert (Hkeep : forall id a, (ms_jobs s ∖ filter (fun '(_, a) => expired (now - ttl) s a = true) (ms_jobs s)) !! id = Some a <->
    ms_jobs s !! id = Some a /\ expired (now - ttl) s a = false).
  { intros id a. rewrite lookup_difference_Some, map_lookup_filter_None. split.
    - intros [Ha [Hn|Hf]]; [congruence|]. split; [done|]. specialize (Hf a Ha). cbn in Hf. by destruct (expired _ s a).
    - intros [Ha He]. split; [done|]. right. intros a' Ha'. rewrite Ha in Ha'. injection Ha' as <-. cbn. by rewrite He. }
  split; [|split; [done|split]].
  - constructor; cbn; try done.
    + intros id a [Ha _]%Hkeep. by eapply H1.
    + intros id1 id2 a [Ha _]%Hkeep [Hb _]%Hkeep. by eapply H2.
  - cbn [fst store_exec map_exec ms_Cleanup]. unfold ms_model. rewrite <- map_size_list by exact H1.
    pose proof (map_size_list (expired (now - ttl) s) (ms_jobs s) Some ltac:(eauto)) as Hsz.
    assert (Hid : omap Some (ms_jobs s) = ms_jobs s)
      by (apply map_eq; intros id; rewrite lookup_omap; by destruct (ms_jobs s !! id)).
    rewrite Hid in Hsz. by rewrite <- Hsz.
  - apply map_eq. intros id. apply option_eq. intros js. cbn [snd store_exec map_exec ms_Cleanup].
    rewrite map_lookup_filter_Some, !ms_model_lookup. unfold ms_Snapshot. rewrite !bind_Some. cbn. split.
    + intros (a & [Ha He]%Hkeep & Hjs). split; [eauto|]. unfold expired in He. by rewrite Hjs in He.
    + intros [(a & Ha & Hjs) He]. exists a. split; [|done]. apply Hkeep. split; [done|].
      unfold expired. by rewrite Hjs.
Qed.

Lemma exec_sim (op : store_op) (s : memoryJobStore) :
  store_wf s -> sim s (store_exec op s) (map_exec (ms_processingTimeout s) op (ms_model s)).
Proof.
  intros Hw. destruct op; [by apply sim_create|by apply sim_poke|by apply sim_update|by apply sim_delete
    |by apply sim_reap|by apply sim_cleanup].
Qed.

(** All counts returned and the final state. *)
Fixpoint run_ops {St} (exec : store_op -> St -> nat * St) (ops : list store_op) (s : St) : list nat * St :=
  match ops with
  | [] => ([], s)
  | op :: ops => let '(n, s) := exec op s in let '(ns, s) := run_ops exec ops s in (n :: ns, s)
  end.

Lemma run_sim (ops : list store_op) : forall (s : memoryJobStore), store_wf s ->
  let r := run_ops store_exec ops s in
  let q := run_ops (map_exec (ms_processingTimeout s)) ops (ms_model s) in
  r.1 = q.1 /\ ms_model r.2 = q.2 /\ store_wf r.2.
Proof.
  induction ops as [|op ops IH]; intros s Hw; [done|].
  destruct (exec_sim op s Hw) as (Hw1 & Ht & Hn & Hm).
  cbn [run_ops]. destruct (store_exec op s) as [n s1]. destruct (map_exec _ op (ms_model s)) as [n' m1].
  cbn [fst snd] in *. specialize (IH s1 Hw1). rewrite Ht, Hm in IH.
  destruct (run_ops store_exec ops s1) as [ns s2]. destruct (run_ops _ ops m1) as [ns' m2].
  destruct IH as (E1 & E2 & E3). cbn in *. split; [congruence|]. done.
Qed.

(** ** Properties *)

(** The jobs that [List] returns pointers to. *)
Lemma ms_List_model (s : memoryJobStore) : store_wf s -> omap (fun a => ms_heap s !! a) (ms_List s) ≡ₚ (map_to_list (ms_model s)).*2.
Proof.
  intros Hw. unfold ms_List, ms_model. assert (Ha := sw_alloc s Hw). clear Hw. revert Ha. generalize (ms_jobs s) (ms_heap s). clear s. intros m h.
  induction m as [|id a m Hid IH] using map_ind; intros Ha; [by rewrite omap_empty, !map_to_list_empty|].
  destruct (Ha id a ltac:(apply lookup_insert_eq)) as [js Hjs]. rewrite map_to_list_insert by done. rewrite (omap_insert_Some _ _ _ _ js) by done.
  rewrite map_to_list_insert by (by rewrite lookup_omap, Hid). cbn. rewrite Hjs, IH; [done|].
  intros id' a' H. apply (Ha id' a'). rewrite lookup_insert_ne; [done|]. intros <-. congruence.
Qed.

(** C8: The in-memory store, with its shared pointers, behaves as a map from ids to job
    values: after any sequence of creations, writes through the pointer of a job that is in
    the store, updates, deletions, reaps and cleanups the snapshots are those of the map, the
    jobs listed are its values, and the reported counts are the numbers of stale and of
    expired jobs. *)
Theorem memoryJobStore_refines_map (ops : list store_op) :
  let r := run_ops store_exec ops newMemoryJobStore in
  let q := run_ops (map_exec (5 * 60 * 10^9)) ops ∅ in
  r.1 = q.1 /\ (forall id, ms_Snapshot id r.2 = q.2 !! id) /\ omap (fun a => ms_heap r.2 !! a) (ms_List r.2) ≡ₚ (map_to_list q.2).*2.
Proof.
  pose proof (run_sim ops newMemoryJobStore new_wf) as H.
  replace (ms_model newMemoryJobStore) with (∅ : gmap string (JobState A)) in H
    by (unfold ms_model; cbn; by rewrite omap_empty).
  destruct H as (H1 & H2 & H3). split; [exact H1|]. split; [|by rewrite ms_List_model, H2 by done].
  intros id. rewrite <- ms_model_lookup. by rewrite H2.
Qed.

(** In every state a job has a processing deadline exactly while it is processing,
    and its retry counter never goes below zero. *)
Theorem deadline_iff_processing (ops : list store_op) (id : string) (js : JobState A) :
  ms_Snapshot id (run_ops store_exec ops newMemoryJobStore).2 = Some js ->
  (is_Some (js_ProcessingDeadline js) <-> js_Status js = JobProcessing) /\ 0 <= js_RetryCount js.
Proof.
  intros Hjs. destruct (run_sim ops newMemoryJobStore new_wf) as (_ & _ & Hw).
  unfold ms_Snapshot in Hjs. apply bind_Some in Hjs as (a & _ & Ha). exact (sw_jobs _ Hw a js Ha).
Qed.

End store.

Arguments memoryJobStore A : clear implicits.
Arguments store_op A : clear implicits.

Lemma deadline_iff_processing_witness :
  exists js : JobState nat,
    ms_Snapshot "j" (run_ops store_exec [SCreate 0 "j"; SUpdate 1 1 "j" JobProcessing None ""] newMemoryJobStore).2 = Some js /\
    (is_Some (js_ProcessingDeadline js) <-> js_Status js = JobProcessing) /\ 0 <= js_RetryCount js.
Proof.
  eexists. split; [vm_compute; reflexivity|].
  apply (deadline_iff_processing [SCreate 0 "j"; SUpdate 1 1 "j" JobProcessing None ""] "j").
  vm_compute. reflexivity.
Defined.
