(* ===== verification/AsyncJob.v ===== *)
(** * Asynchronous jobs (runtime/async_job.go, runtime/entry_async.go)

    [AsyncJobManager] accepts jobs over HTTP, runs each in a goroutine of its own,
    notifies subscribers and a callback, while a reaper and cancellations work on the
    same store.  The goroutines and request handlers interleave, so the manager is a
    transition system: [am_step] performs one atomic action (the code between two
    accesses to shared state) of one goroutine or handler, and a behaviour is a list of
    events.  The processor, the clock, the job ids and the HTTP responses of the
    callback are inputs of the events.  A panic of a goroutine kills the process
    ([Crashed]). *)

From S2P Require Import Prelude JobStore ConfigTypes.

(** ** notifyCallback *)

(** The outcome of one attempt: [NewRequestWithContext] refuses the URL, the client
    returns an error, or a status. *)
Inductive response := RespRefused | RespError | RespStatus (code : Z).

Definition resp_ok (r : response) : bool :=
  match r with RespStatus code => (200 <=? code) && (code <? 300) | _ => false end.

(** The loop's [return]s. *)
Definition resp_stops (r : response) : bool :=
  match r with RespRefused => true | _ => resp_ok r end.

(** The attempts [from], [from + 1], ... of the retry loop, [tries] of them at most: how
    many are made and whether one succeeded. *)
Fixpoint callback_attempts (resp : nat -> response) (from tries : nat) : nat * bool :=
  match tries with
  | O => (0%nat, false)
  | S tries =>
      if resp_stops (resp from) then (1%nat, resp_ok (resp from))
      else let '(n, ok) := callback_attempts resp (S from) tries in (S n, ok)
  end.

Inductive notification :=
| NotifyNone                                                   (* nothing to call *)
| NotifyPanic                                                  (* nil dereference *)
| NotifyPosted (url secret : string) (attempts : nat) (ok : bool).

Definition callback_retries (cb : AsyncCallbackConf) : Z :=
  if AsyncCallbackConf_Retry cb <=? 0 then 3 else AsyncCallbackConf_Retry cb.

Definition notifyCallback {A} (callback : option AsyncCallbackConf) (job : option (JobState A))
    (resp : nat -> response) : notification :=
  match job with
  | None => NotifyNone
  | Some js =>
      let post url secret :=
        match callback with
        | None => NotifyPanic                                  (* m.callback.Retry *)
        | Some cb =>
            let '(n, ok) := callback_attempts resp 0 (Z.to_nat (callback_retries cb + 1)) in
            NotifyPosted url secret n ok
        end in
      if String.eqb (js_CallbackURL js) "" then
        match callback with
        | None => NotifyNone
        | Some cb =>
            if String.eqb (AsyncCallbackConf_URL cb) "" then NotifyNone
            else post (AsyncCallbackConf_URL cb) (AsyncCallbackConf_Secret cb)
        end
      else post (js_CallbackURL js) ""
  end.

(** ** The manager *)

Section manager.
Context {A : Type}.

(** A goroutine started by [HandleSubmit]: about to mark the job processing, about to
    broadcast that, running the processor, about to broadcast the result, about to call
    the callback. *)
Inductive phase := PStart | PStarted | PRun | PFinished | PNotify.

Record worker : Type := mkWorker { wk_id : string; wk_ptr : nat; wk_phase : phase }.

Record AsyncJobManager : Type := mkManager {
  am_store : memoryJobStore A;
  am_processor : bool;                                 (* processor != nil *)
  am_maxRetry : Z;
  am_callback : option AsyncCallbackConf;
  am_sem : option nat;                                 (* capacity of the semaphore *)
  am_inUse : nat;                                      (* goroutines running; the tokens in it *)
  am_subs : gmap string (gmap nat (list (JobState A)));(* subscribers' channels, buffered *)
  am_nextChan : nat;
  am_waiting : list (string * nat);                    (* submissions before the go statement *)
  am_workers : list worker;
  am_cancels : list string;                            (* cancellations past their check *)
  am_streams : list string;                            (* SSE handlers between snapshot and subscribe *)
  am_ran : list nat                                    (* jobs handed to the processor *)
}.

#[local] Instance eta_AsyncJobManager : Eta AsyncJobManager := fun m =>
  mkManager (am_store m) (am_processor m) (am_maxRetry m) (am_callback m) (am_sem m) (am_inUse m)
    (am_subs m) (am_nextChan m) (am_waiting m) (am_workers m) (am_cancels m) (am_streams m) (am_ran m).

(** The manager of [registerAsync]: the callback and the semaphore are assigned after
    construction. *)
Definition NewAsyncJobManagerWithRetry (store : memoryJobStore A) (processor : bool) (maxRetries : Z)
    (callback : option AsyncCallbackConf) (sem : option nat) : AsyncJobManager :=
  mkManager store processor maxRetries callback sem 0 ∅ 0 [] [] [] [] [].

Definition with_store (f : memoryJobStore A -> memoryJobStore A) (m : AsyncJobManager) : AsyncJobManager :=
  m <| am_store := f (am_store m) |>.

(** Non-blocking sends of the job's state to every subscriber, buffers of 8. *)
Definition am_broadcast (id : string) (m : AsyncJobManager) : AsyncJobManager :=
  match am_subs m !! id, ms_Snapshot id (am_store m) with
  | Some subs, Some js =>
      m <| am_subs := <[id := (fun buf => if (length buf <? 8)%nat then buf ++ [js] else buf) <$> subs]> (am_subs m) |>
  | _, _ => m
  end.

Definition am_subscribe (id : string) (m : AsyncJobManager) : AsyncJobManager :=
  let subs := default ∅ (am_subs m !! id) in
  m <| am_subs := <[id := <[am_nextChan m := []]> subs]> (am_subs m) |>
    <| am_nextChan := S (am_nextChan m) |>.

Definition am_unsubscribe (id : string) (ch : nat) (m : AsyncJobManager) : AsyncJobManager :=
  match am_subs m !! id with
  | None => m
  | Some subs =>
      let subs := delete ch subs in
      if decide (subs = ∅) then m <| am_subs := delete id (am_subs m) |>
      else m <| am_subs := <[id := subs]> (am_subs m) |>
  end.

Inductive am_event :=
| EvSubmit (now : Z) (id : string) (callbackURL : option string)
| EvSpawn (k : nat)
| EvStart (k : nat) (now1 now2 : Z)
| EvBroadcast (k : nat)
| EvFinish (k : nat) (now1 now2 : Z) (outcome : option A + string)
| EvNotify (k : nat) (resp : nat -> response)
| EvCancel (id : string)
| EvCancelDelete (k : nat)
| EvReap (now maxRetries : Z)
| EvCleanup (now ttl : Z)
| EvStream (id : string)
| EvSubscribe (k : nat)
| EvReceive (id : string) (ch : nat) (writeOk : bool).

Inductive am_result := Next (m : AsyncJobManager) | Crashed | Disabled.

(** [HandleSubmit] up to the go statement: the job is created and the fields of the shared
    object are assigned. *)
Definition am_submit (now : Z) (id : string) (cb : option string) (m : AsyncJobManager) : AsyncJobManager :=
  let '(js, store) := ms_Create now id (am_store m) in
  let store := match cb with
               | Some url => ms_write js (fun j => j <| js_CallbackURL := url |>) store
               | None => store
               end in
  if am_processor m then
    m <| am_store := ms_write js (fun j => j <| js_MaxRetries := am_maxRetry m |>) store |>
      <| am_waiting := am_waiting m ++ [(id, js)] |>
  else m <| am_store := store |>.

Definition set_worker (k : nat) (w : worker) (m : AsyncJobManager) : AsyncJobManager :=
  m <| am_workers := <[k := w]> (am_workers m) |>.

(** [HandleStatus] and [HandleList] only read: [None] is the 404. *)
Definition HandleStatus (id : string) (m : AsyncJobManager) : option (JobState A) := ms_Snapshot id (am_store m).

Definition HandleList (m : AsyncJobManager) : list (JobState A) * nat :=
  let jobs := omap (fun a => ms_heap (am_store m) !! a) (ms_List (am_store m)) in (jobs, length jobs).

(** [HandleCancel] up to its check, and its deletion. *)
Definition HandleCancel (id : string) (m : AsyncJobManager) : am_result :=
  match ms_Snapshot id (am_store m) with
  | None => Next m                                            (* 404 *)
  | Some js =>
      if decide (js_Status js = JobProcessing) then Next m    (* 409 *)
      else Next (m <| am_cancels := am_cancels m ++ [id] |>)
  end.

Definition HandleCancel_delete (k : nat) (m : AsyncJobManager) : am_result :=
  match am_cancels m !! k with
  | None => Disabled
  | Some id => Next (with_store (ms_Delete id) (m <| am_cancels := delete k (am_cancels m) |>))
  end.

(** [HandleStatusSSE]: the snapshot and the test, the subscription, and one turn of the
    loop over the channel. *)
Definition HandleStatusSSE (id : string) (m : AsyncJobManager) : am_result :=
  match ms_Snapshot id (am_store m) with
  | None => Next m
  | Some js => if is_terminal (js_Status js) then Next m
               else Next (m <| am_streams := am_streams m ++ [id] |>)
  end.

Definition HandleStatusSSE_subscribe (k : nat) (m : AsyncJobManager) : am_result :=
  match am_streams m !! k with
  | None => Disabled
  | Some id => Next (am_subscribe id (m <| am_streams := delete k (am_streams m) |>))
  end.

Definition HandleStatusSSE_receive (id : string) (ch : nat) (writeOk : bool) (m : AsyncJobManager) : am_result :=
  match am_subs m !! id ≫= (.!! ch) with
  | Some (js :: buf) =>
      let m := m <| am_subs := alter (insert ch buf) id (am_subs m) |> in
      if writeOk && negb (is_terminal (js_Status js)) then Next m
      else Next (am_unsubscribe id ch m)
  | _ => Disabled                                             (* the handler waits *)
  end.

Definition am_step (ev : am_event) (m : AsyncJobManager) : am_result :=
  match ev with
  | EvSubmit now id cb => Next (am_submit now id cb m)
  | EvSpawn k =>
      match am_waiting m !! k with
      | None => Disabled
      | Some (id, js) =>
          (* m.sem <- struct{}{} blocks when the channel is full *)
          if match am_sem m with Some cap => (am_inUse m <? cap)%nat | None => true end then
            Next (m <| am_waiting := delete k (am_waiting m) |>
                    <| am_workers := am_workers m ++ [mkWorker id js PStart] |>
                    <| am_inUse := S (am_inUse m) |>)
          else Disabled
      end
  | EvStart k now1 now2 =>
      match am_workers m !! k with
      | Some (mkWorker id js PStart) =>
          Next (set_worker k (mkWorker id js PStarted)
                 (with_store (ms_Update now1 now2 id JobProcessing None "") m))
      | _ => Disabled
      end
  | EvBroadcast k =>
      match am_workers m !! k with
      | Some (mkWorker id js PStarted) =>
          let m := am_broadcast id m in
          Next (set_worker k (mkWorker id js PRun) (m <| am_ran := am_ran m ++ [js] |>))
      | Some (mkWorker id js PFinished) =>
          Next (set_worker k (mkWorker id js PNotify) (am_broadcast id m))
      | _ => Disabled
      end
  | EvFinish k now1 now2 outcome =>
      match am_workers m !! k with
      | Some (mkWorker id js PRun) =>
          let m := match outcome with
                   | inl result => with_store (ms_Update now1 now2 id JobCompleted result "") m
                   | inr err => with_store (ms_Update now1 now2 id JobFailed None err) m
                   end in
          Next (set_worker k (mkWorker id js PFinished) m)
      | _ => Disabled
      end
  | EvNotify k resp =>
      match am_workers m !! k with
      | Some (mkWorker id js PNotify) =>
          match notifyCallback (am_callback m) (ms_Snapshot id (am_store m)) resp with
          | NotifyPanic => Crashed
          | _ => Next (m <| am_workers := delete k (am_workers m) |> <| am_inUse := pred (am_inUse m) |>)
          end
      | _ => Disabled
      end
  | EvCancel id => HandleCancel id m
  | EvCancelDelete k => HandleCancel_delete k m
  | EvReap now maxRetries => Next (with_store (fun s => (ms_ReapStale now maxRetries s).2) m)
  | EvCleanup now ttl => Next (with_store (fun s => (ms_Cleanup now ttl s).2) m)
  | EvStream id => HandleStatusSSE id m
  | EvSubscribe k => HandleStatusSSE_subscribe k m
  | EvReceive id ch writeOk => HandleStatusSSE_receive id ch writeOk m
  end.

Fixpoint am_run (evs : list am_event) (m : AsyncJobManager) : am_result :=
  match evs with
  | [] => Next m
  | ev :: evs => match am_step ev m with
                 | Next m => am_run evs m
                 | r => r
                 end
  end.

(** Unfolds a step to the body of its handler. *)
Ltac am_unfold :=
  cbn [am_step] in *; unfold HandleCancel, HandleCancel_delete, HandleStatusSSE, HandleStatusSSE_subscribe,
    HandleStatusSSE_receive in *.

(** ** Invariant *)

(** The workers that have yet to call the processor, and those yet to record its result. *)
Definition is_starting (w : worker) : bool :=
  match wk_phase w with PStart | PStarted => true | _ => false end.
Definition is_unfinished (w : worker) : bool :=
  match wk_phase w with PStart | PStarted | PRun => true | _ => false end.

Definition ptrs_of (P : worker -> bool) (ws : list worker) : list nat := wk_ptr <$> filter (fun w => P w = true) ws.
Definition ids_of (P : worker -> bool) (ws : list worker) : list string := wk_id <$> filter (fun w => P w = true) ws.

(** The jobs that were or will be handed to the processor. *)
Definition tokens (m : AsyncJobManager) : list nat :=
  am_ran m ++ ptrs_of is_starting (am_workers m) ++ (am_waiting m).*2.

(** The ids whose result is still to be recorded. *)
Definition unfinished (m : AsyncJobManager) : list string :=
  ids_of is_unfinished (am_workers m) ++ (am_waiting m).*1.

Definition active (id : string) (s : memoryJobStore A) : Prop :=
  exists js, ms_Snapshot id s = Some js /\ is_terminal (js_Status js) = false.

Record am_inv (m : AsyncJobManager) : Prop := mk_am_inv {
  ai_store : store_wf (am_store m);
  ai_tokens : NoDup (tokens m);
  ai_fresh : forall a, a ∈ tokens m -> (a < ms_next (am_store m))%nat;
  ai_count : am_inUse m = length (am_workers m);
  ai_sem : forall cap, am_sem m = Some cap -> (am_inUse m <= cap)%nat;
  ai_live : forall id, am_processor m = true -> active id (am_store m) -> id ∈ unfinished m
}.

(** How the workers change. *)
Lemma insert_Permutation {B} (l : list B) k x y : l !! k = Some x -> <[k := y]> l ≡ₚ y :: delete k l.
Proof.
  revert k. induction l as [|z l IH]; intros [|k] Hk; cbn in *; try done.
  rewrite (IH k Hk). by rewrite Permutation_swap.
Qed.

Section worker_lists.
Context {B : Type} (g : worker -> B) (P : worker -> bool) (ws : list worker) (k : nat) (w : worker).
Hypothesis Hk : ws !! k = Some w.
Let sel (l : list worker) : list B := g <$> filter (fun w => P w = true) l.

Lemma workers_keep w' : P w' = P w -> g w' = g w -> sel (<[k := w']> ws) ≡ₚ sel ws.
Proof using Hk.
  intros HP Hg. unfold sel. rewrite (insert_Permutation ws k w w' Hk). rewrite (delete_Permutation ws k w Hk) at 2.
  rewrite !filter_cons, HP. case_decide; cbn; by rewrite ?Hg.
Qed.

Lemma workers_lose w' : P w = true -> P w' = false -> g w :: sel (<[k := w']> ws) ≡ₚ sel ws.
Proof using Hk.
  intros HP HP'. unfold sel. rewrite (insert_Permutation ws k w w' Hk). rewrite (delete_Permutation ws k w Hk) at 2.
  rewrite !filter_cons, HP, HP'. done.
Qed.

Lemma workers_drop : P w = false -> sel (delete k ws) ≡ₚ sel ws.
Proof using Hk. intros HP. unfold sel. rewrite (delete_Permutation ws k w Hk) at 2. by rewrite filter_cons, HP. Qed.
End worker_lists.

(** What the store operations do to the snapshots. *)
Lemma Snapshot_Update n1 n2 id st res err (s : memoryJobStore A) id' :
  store_wf s ->
  ms_Snapshot id' (ms_Update n1 n2 id st res err s) =
  if decide (id = id') then update_job (ms_processingTimeout s) n1 n2 st res err <$> ms_Snapshot id' s
  else ms_Snapshot id' s.
Proof.
  intros Hw. destruct (sim_update s n1 n2 id st res err Hw) as (_ & _ & _ & Hm). cbn in Hm.
  rewrite <- !ms_model_lookup, Hm. case_decide as E; [subst; by rewrite lookup_alter_eq|by rewrite lookup_alter_ne].
Qed.

Lemma Update_next n1 n2 id st res err (s : memoryJobStore A) : ms_next (ms_Update n1 n2 id st res err s) = ms_next s.
Proof. unfold ms_Update. by destruct (ms_jobs s !! id). Qed.

Lemma active_Update n1 n2 id st res err (s : memoryJobStore A) id' :
  store_wf s -> active id' (ms_Update n1 n2 id st res err s) ->
  (id' = id /\ is_terminal st = false) \/ (id' <> id /\ active id' s).
Proof.
  intros Hw (js & Hjs & Ht). rewrite Snapshot_Update in Hjs by done.
  case_decide as E; [|by right; split; [|exists js]].
  subst id'. destruct (ms_Snapshot id s) as [js0|]; [|done]. injection Hjs as <-. by left.
Qed.

Lemma ReapStale_next now mr (s : memoryJobStore A) : ms_next (ms_ReapStale now mr s).2 = ms_next s.
Proof.
  unfold ms_ReapStale. generalize (ms_List s) 0%nat. intros l. revert s.
  induction l as [|a l IH]; intros s n; [done|]. cbn [reap_loop]. by rewrite IH.
Qed.

Lemma active_ReapStale now mr (s : memoryJobStore A) id :
  store_wf s -> active id (ms_ReapStale now mr s).2 -> active id s.
Proof.
  intros Hw (js & Hjs & Ht). destruct (sim_reap s now mr Hw) as (_ & _ & _ & Hm). cbn [store_exec map_exec snd] in Hm.
  rewrite <- ms_model_lookup, Hm, lookup_fmap, ms_model_lookup in Hjs.
  destruct (ms_Snapshot id s) as [js0|] eqn:E; [|done]. injection Hjs as <-. exists js0. split; [done|].
  revert Ht. unfold reap_job, is_stale. case_bool_decide as Ep; [by rewrite Ep|by cbn].
Qed.

Lemma active_Cleanup now ttl (s : memoryJobStore A) id :
  store_wf s -> active id (ms_Cleanup now ttl s).2 -> active id s.
Proof.
  intros Hw (js & Hjs & Ht). destruct (sim_cleanup s now ttl Hw) as (_ & _ & _ & Hm). cbn [store_exec map_exec snd] in Hm.
  rewrite <- ms_model_lookup, Hm, map_lookup_filter_Some, ms_model_lookup in Hjs. exists js. tauto.
Qed.

Lemma active_Delete id (s : memoryJobStore A) id' : active id' (ms_Delete id s) -> active id' s.
Proof.
  intros (js & Hjs & Ht). exists js. split; [|done]. revert Hjs. unfold ms_Snapshot. cbn.
  destruct (decide (id = id')) as [->|]; [by rewrite lookup_delete_eq|by rewrite lookup_delete_ne].
Qed.

(** Submitting changes the job of its id only. *)
Lemma write_wf_status (s : memoryJobStore A) a f :
  store_wf s -> (forall j, job_wf j -> job_wf (f j)) -> store_wf (ms_write a f s).
Proof. intros Hw Hf. apply ms_write_wf; [done|]. intros js Hjs. apply Hf. by eapply (sw_jobs s Hw). Qed.

Lemma submit_store now id cb (m : AsyncJobManager) :
  store_wf (am_store m) ->
  let s' := am_store (am_submit now id cb m) in
  store_wf s' /\ ms_next s' = S (ms_next (am_store m)) /\
  (forall id', id' <> id -> ms_Snapshot id' s' = ms_Snapshot id' (am_store m)).
Proof.
  intros Hw. unfold am_submit.
  destruct (sim_create (am_store m) now id Hw) as (Hwc & _ & _ & Hm). cbn [store_exec map_exec snd] in Hwc, Hm.
  assert (Ha : ms_jobs (ms_Create now id (am_store m)).2 !! id = Some (ms_next (am_store m)))
    by (cbn; by rewrite lookup_insert_eq).
  destruct (ms_Create now id (am_store m)) as [js s1] eqn:E.
  assert (ms_next s1 = S (ms_next (am_store m)) /\ js = ms_next (am_store m)) as [En ->] by (by injection E as <- <-).
  cbn [snd] in *.
  assert (Hgen : forall s' : memoryJobStore A, store_wf s' -> ms_jobs s' !! id = Some (ms_next (am_store m)) ->
    forall f id', id' <> id -> ms_Snapshot id' (ms_write (ms_next (am_store m)) f s') = ms_Snapshot id' s').
  { intros s' Hs' Ha' f id' Hne. rewrite <- !ms_model_lookup, (ms_write_model s' id _ f Hs' Ha').
    by rewrite lookup_alter_ne. }
  assert (H1 : forall id', id' <> id -> ms_Snapshot id' s1 = ms_Snapshot id' (am_store m)).
  { intros id' Hne. rewrite <- !ms_model_lookup, Hm. by rewrite lookup_insert_ne. }
  set (s2 := match cb with Some url => _ | None => s1 end).
  assert (Hw2 : store_wf s2) by (unfold s2; destruct cb; [by apply write_wf_status|done]).
  assert (En2 : ms_next s2 = ms_next s1) by (unfold s2; by destruct cb).
  assert (Ha2 : ms_jobs s2 !! id = Some (ms_next (am_store m))) by (unfold s2; by destruct cb).
  assert (H2 : forall id', id' <> id -> ms_Snapshot id' s2 = ms_Snapshot id' (am_store m)).
  { intros id' Hne. rewrite <- H1 by done. unfold s2. destruct cb; [by apply Hgen|done]. }
  clearbody s2. destruct (am_processor m).
  - split; [by apply write_wf_status|]. split; [exact (eq_trans En2 En)|].
    intros id' Hne. rewrite <- H2 by done. by apply Hgen.
  - split; [done|]. split; [exact (eq_trans En2 En)|done].
Qed.

Lemma submit_frame now id cb (m : AsyncJobManager) :
  let m' := am_submit now id cb m in
  am_ran m' = am_ran m /\ am_workers m' = am_workers m /\ am_inUse m' = am_inUse m /\ am_sem m' = am_sem m /\
  am_processor m' = am_processor m /\ am_subs m' = am_subs m /\ am_nextChan m' = am_nextChan m /\
  am_waiting m' = (if am_processor m then am_waiting m ++ [(id, ms_next (am_store m))] else am_waiting m).
Proof. unfold am_submit. cbn [ms_Create]. destruct (am_processor m) eqn:E; by destruct cb. Qed.

Lemma broadcast_frame id (m : AsyncJobManager) :
  let m' := am_broadcast id m in
  am_store m' = am_store m /\ am_ran m' = am_ran m /\ am_workers m' = am_workers m /\
  am_waiting m' = am_waiting m /\ am_inUse m' = am_inUse m /\ am_sem m' = am_sem m /\ am_processor m' = am_processor m /\
  am_nextChan m' = am_nextChan m /\ (forall id', id' <> id -> am_subs m' !! id' = am_subs m !! id').
Proof.
  unfold am_broadcast. destruct (am_subs m !! id), (ms_Snapshot id (am_store m)); try done.
  cbn. repeat (split; [done|]). intros id' Hne. by rewrite lookup_insert_ne.
Qed.

Lemma unsubscribe_frame id ch (m : AsyncJobManager) :
  let m' := am_unsubscribe id ch m in
  am_store m' = am_store m /\ am_ran m' = am_ran m /\ am_workers m' = am_workers m /\
  am_waiting m' = am_waiting m /\ am_inUse m' = am_inUse m /\ am_sem m' = am_sem m /\ am_processor m' = am_processor m.
Proof. unfold am_unsubscribe. destruct (am_subs m !! id); [|done]. by case_decide. Qed.

(** Two states that agree on what the invariant reads, up to the order of the lists. *)
Lemma inv_frame (m m' : AsyncJobManager) :
  am_inv m -> store_wf (am_store m') -> ms_next (am_store m') = ms_next (am_store m) ->
  tokens m' ≡ₚ tokens m -> am_inUse m' = length (am_workers m') ->
  (forall cap, am_sem m' = Some cap -> (am_inUse m' <= cap)%nat) ->
  (forall id, am_processor m' = true -> active id (am_store m') -> id ∈ unfinished m') -> am_inv m'.
Proof.
  intros [H1 H2 H3 H4 H5 H6] Hw Hn Ht Hc Hs Hl. constructor; try done.
  - by rewrite Ht.
  - intros a. rewrite Ht, Hn. apply H3.
Qed.

Ltac am_frame m := apply (inv_frame m); [assumption|try done..].

Lemma step_submit_inv now id cb (m : AsyncJobManager) : am_inv m -> am_inv (am_submit now id cb m).
Proof.
  intros [H1 H2 H3 H4 H5 H6]. destruct (submit_store now id cb m H1) as (Hw & Hn & Hs).
  destruct (submit_frame now id cb m) as (Er & Ew & Eu & Es & Ep & _ & _ & Eq).
  assert (Ht : tokens (am_submit now id cb m) =
    tokens m ++ (if am_processor m then [ms_next (am_store m)] else [])).
  { unfold tokens. rewrite Er, Ew, Eq. destruct (am_processor m); [|by rewrite app_nil_r].
    by rewrite fmap_app, <- !(assoc_L (++)). }
  constructor; [done| | |by rewrite Eu, Ew|rewrite Es, Eu; exact H5|].
  - rewrite Ht. apply NoDup_app. split; [done|]. split; [|by destruct (am_processor m); repeat constructor; set_solver].
    intros a Ha Hb. apply H3 in Ha. destruct (am_processor m); [|set_solver].
    apply list_elem_of_singleton in Hb. lia.
  - intros a. rewrite Ht, elem_of_app, Hn. intros [Ha%H3|Ha]; [lia|].
    destruct (am_processor m); [|set_solver]. apply list_elem_of_singleton in Ha. lia.
  - intros id'. unfold unfinished. rewrite Ep, Ew, Eq. intros Hp Hact. rewrite Hp, fmap_app, (assoc_L (++)).
    destruct (decide (id' = id)) as [->|Hne]; [set_solver|]. apply elem_of_app. left. apply H6; [done|].
    destruct Hact as (js & Hjs & Ht'). exists js. by rewrite <- Hs.
Qed.

Lemma step_spawn_inv k (m m' : AsyncJobManager) : am_inv m -> am_step (EvSpawn k) m = Next m' -> am_inv m'.
Proof.
  intros Hinv. pose proof Hinv as [H1 H2 H3 H4 H5 H6]. am_unfold.
  destruct (am_waiting m !! k) as [[id js]|] eqn:Hk; [|done].
  destruct (match am_sem m with Some cap => _ | None => _ end) eqn:Hcap; [|done]. intros [= <-].
  pose proof (delete_Permutation _ _ _ Hk) as Hperm.
  am_frame m.
  - unfold tokens. cbn. unfold ptrs_of. rewrite filter_app, fmap_app. cbn. rewrite Hperm at 2. cbn. solve_Permutation.
  - cbn. rewrite length_app. cbn. lia.
  - cbn. intros cap Hc. rewrite Hc in Hcap. apply Nat.ltb_lt in Hcap. lia.
  - intros id' Hp Hact. specialize (H6 id' Hp Hact). revert H6. unfold unfinished. cbn. unfold ids_of.
    rewrite Hperm at 1. rewrite filter_app, fmap_app. cbn. set_solver.
Qed.

Lemma step_start_inv k n1 n2 (m m' : AsyncJobManager) : am_inv m -> am_step (EvStart k n1 n2) m = Next m' -> am_inv m'.
Proof.
  intros Hinv. pose proof Hinv as [H1 H2 H3 H4 H5 H6]. am_unfold.
  destruct (am_workers m !! k) as [[id js []]|] eqn:Hk; try done. intros [= <-].
  assert (Hu : unfinished (set_worker k (mkWorker id js PStarted)
    (with_store (ms_Update n1 n2 id JobProcessing None "") m)) ≡ₚ unfinished m).
  { unfold unfinished. cbn. apply Permutation_app_tail. by apply (workers_keep wk_id is_unfinished _ _ _ Hk). }
  am_frame m.
  - by apply Update_wf.
  - apply Update_next.
  - unfold tokens. cbn. apply Permutation_app_head, Permutation_app_tail.
    by apply (workers_keep wk_ptr is_starting _ _ _ Hk).
  - cbn. by rewrite length_insert.
  - intros id' Hp Hact. rewrite Hu. cbn in Hact. apply active_Update in Hact as [[-> _]|[_ Hact]]; [|by apply H6|done].
    apply elem_of_app. left. unfold ids_of. apply list_elem_of_fmap. exists (mkWorker id js PStart).
    split; [done|]. apply list_elem_of_filter. split; [done|]. by eapply list_elem_of_lookup_2.
Qed.

Lemma step_broadcast_inv k (m m' : AsyncJobManager) : am_inv m -> am_step (EvBroadcast k) m = Next m' -> am_inv m'.
Proof.
  intros Hinv. pose proof Hinv as [H1 H2 H3 H4 H5 H6]. am_unfold.
  destruct (am_workers m !! k) as [[id js []]|] eqn:Hk; try done; intros [= <-];
    destruct (broadcast_frame id m) as (Es & Er & Ew & Eq & Eu & Ec & Ep & _);
    (apply (inv_frame m); [done|unfold tokens, unfinished; cbn; rewrite ?Es, ?Er, ?Ew, ?Eq, ?Eu, ?Ec, ?Ep; try done..]).
  - rewrite <- (workers_lose wk_ptr is_starting _ _ _ Hk (mkWorker id js PRun)) by done. cbn.
    unfold ptrs_of. solve_Permutation.
  - by rewrite length_insert.
  - intros id' Hp Hact. unfold ids_of. rewrite (workers_keep wk_id is_unfinished _ _ _ Hk) by done. by apply H6.
  - apply Permutation_app_head, Permutation_app_tail. by apply (workers_keep wk_ptr is_starting _ _ _ Hk).
  - by rewrite length_insert.
  - intros id' Hp Hact. unfold ids_of. rewrite (workers_keep wk_id is_unfinished _ _ _ Hk) by done. by apply H6.
Qed.

Lemma step_finish_inv k n1 n2 out (m m' : AsyncJobManager) :
  am_inv m -> am_step (EvFinish k n1 n2 out) m = Next m' -> am_inv m'.
Proof.
  intros Hinv. pose proof Hinv as [H1 H2 H3 H4 H5 H6]. am_unfold.
  destruct (am_workers m !! k) as [[id js []]|] eqn:Hk; try done. intros [= <-].
  set (m1 := match out with inl _ => _ | inr _ => _ end).
  assert (exists st res err, is_terminal st = true /\ m1 = with_store (ms_Update n1 n2 id st res err) m)
    as (st & res & err & Hst & ->) by (subst m1; destruct out; do 3 eexists; (split; [|reflexivity]); done).
  am_frame m.
  - by apply Update_wf.
  - apply Update_next.
  - unfold tokens. cbn. apply Permutation_app_head, Permutation_app_tail.
    by apply (workers_keep wk_ptr is_starting _ _ _ Hk).
  - cbn. by rewrite length_insert.
  - intros id' Hp Hact. cbn in Hact. apply active_Update in Hact as [[_ ?]|[Hne Hact]]; [congruence| |done].
    specialize (H6 id' Hp Hact). revert H6. unfold unfinished, ids_of. cbn.
    rewrite <- (workers_lose wk_id is_unfinished _ _ _ Hk (mkWorker id js PFinished)) by done. cbn. set_solver.
Qed.

Lemma step_notify_inv k resp (m m' : AsyncJobManager) :
  am_inv m -> am_step (EvNotify k resp) m = Next m' -> am_inv m'.
Proof.
  intros Hinv. pose proof Hinv as [H1 H2 H3 H4 H5 H6]. am_unfold.
  destruct (am_workers m !! k) as [[id js []]|] eqn:Hk; try done.
  assert (Hm : am_inv (m <| am_workers := delete k (am_workers m) |> <| am_inUse := pred (am_inUse m) |>)).
  { am_frame m.
    - unfold tokens. cbn. apply Permutation_app_head, Permutation_app_tail.
      by apply (workers_drop wk_ptr is_starting _ _ _ Hk).
    - cbn. rewrite length_delete by eauto. lia.
    - cbn. intros cap Hc%H5. lia.
    - intros id' Hp Hact. specialize (H6 id' Hp Hact). revert H6. unfold unfinished, ids_of. cbn.
      by rewrite (workers_drop wk_id is_unfinished _ _ _ Hk). }
  by destruct (notifyCallback _ _ _); [intros [= <-]|..|intros [= <-]].
Qed.

Lemma am_step_inv (ev : am_event) (m m' : AsyncJobManager) :
  am_inv m -> am_step ev m = Next m' -> am_inv m'.
Proof.
  intros Hinv Hs. pose proof Hinv as [H1 H2 H3 H4 H5 H6].
  destruct ev as [now id cb|k|k n1 n2|k|k n1 n2 out|k resp|id|k|now mr|now ttl|id|k|id ch wok].
  - injection Hs as <-. by apply step_submit_inv.
  - by eapply step_spawn_inv.
  - by eapply step_start_inv.
  - by eapply step_broadcast_inv.
  - by eapply step_finish_inv.
  - by eapply step_notify_inv.
  - am_unfold. destruct (ms_Snapshot id (am_store m)) as [js|]; [case_decide|]; injection Hs as <-; done.
  - am_unfold. destruct (am_cancels m !! k) as [id|]; [|done]. injection Hs as <-.
    am_frame m; [exact (proj1 (sim_delete (am_store m) id H1))|].
    intros id' Hp Hact%active_Delete. by apply H6.
  - injection Hs as <-. am_frame m; [exact (proj1 (sim_reap (am_store m) now mr H1))|apply ReapStale_next|].
    intros id' Hp Hact%active_ReapStale; [by apply H6|done].
  - injection Hs as <-. am_frame m; [exact (proj1 (sim_cleanup (am_store m) now ttl H1))|].
    intros id' Hp Hact%active_Cleanup; [by apply H6|done].
  - am_unfold. destruct (ms_Snapshot id (am_store m)) as [js|]; [destruct (is_terminal _)|]; by injection Hs as <-.
  - am_unfold. destruct (am_streams m !! k) as [id|]; [|done]. by injection Hs as <-.
  - am_unfold. destruct (am_subs m !! id ≫= (.!! ch)) as [[|js buf]|]; try done.
    destruct (wok && _); injection Hs as <-; [done|].
    set (m1 := m <| am_subs := _ |>). destruct (unsubscribe_frame id ch m1) as (Es & Er & Ew & Eq & Eu & Ec & Ep).
    apply (inv_frame m); [done|unfold tokens, unfinished; rewrite ?Es, ?Er, ?Ew, ?Eq, ?Eu, ?Ec, ?Ep; done..].
Qed.

Lemma am_run_inv (evs : list am_event) : forall m m', am_inv m -> am_run evs m = Next m' -> am_inv m'.
Proof.
  induction evs as [|ev evs IH]; intros m m' Hm; cbn [am_run]; [by intros [= <-]|].
  destruct (am_step ev m) as [m1| |] eqn:E; try done. apply IH. by eapply am_step_inv.
Qed.

Lemma New_inv proc mr cb sem : am_inv (NewAsyncJobManagerWithRetry newMemoryJobStore proc mr cb sem).
Proof.
  constructor; cbn; [apply new_wf|constructor|set_solver|done|intros; lia|].
  intros id _ (js & Hjs & _). done.
Qed.

(** ** Draining *)

Definition rank (p : phase) : nat :=
  match p with PStart => 5 | PStarted => 4 | PRun => 3 | PFinished => 2 | PNotify => 1 end.

(** The goroutines' remaining actions. *)
Definition work (m : AsyncJobManager) : nat :=
  6 * length (am_waiting m) + sum_list (rank ∘ wk_phase <$> am_workers m).

Lemma notify_no_panic cb (job : option (JobState A)) resp : notifyCallback (Some cb) job resp <> NotifyPanic.
Proof.
  unfold notifyCallback. destruct job as [js|]; [|done].
  destruct (callback_attempts _ _ _), (String.eqb (js_CallbackURL js) ""), (String.eqb (AsyncCallbackConf_URL cb) ""); done.
Qed.

(** While anything is left to do, some action is enabled and decreases it. *)
Lemma drain_step (m : AsyncJobManager) cb :
  am_inv m -> am_callback m = Some cb -> am_sem m <> Some 0%nat -> (0 < work m)%nat ->
  exists ev m', am_step ev m = Next m' /\ (work m' < work m)%nat /\
    am_callback m' = Some cb /\ am_sem m' = am_sem m /\ am_processor m' = am_processor m.
Proof.
  intros Hinv Hcb Hsem Hw. destruct (am_workers m) as [|[id js ph] ws] eqn:Ew.
  - destruct (am_waiting m) as [|[id js] q] eqn:Eq; [unfold work in Hw; rewrite Ew, Eq in Hw; cbn in Hw; lia|].
    exists (EvSpawn 0). am_unfold. rewrite Eq. cbn [lookup list_lookup]. rewrite (ai_count _ Hinv), Ew. cbn [length].
    assert (Hc : match am_sem m with Some cap => (0 <? cap)%nat | None => true end = true)
      by (destruct (am_sem m) as [[|cap]|]; done).
    rewrite Hc. eexists. split; [reflexivity|]. split; [|done]. unfold work. rewrite Eq. cbn. rewrite Ew. cbn. lia.
  - assert (Hwork : work m = (6 * length (am_waiting m) + (rank ph + sum_list (rank ∘ wk_phase <$> ws)))%nat)
      by (unfold work; by rewrite Ew).
    destruct (broadcast_frame id m) as (Es & Er & Ew' & Eq & Eu & Ec & Ep & _).
    assert (Ecb : am_callback (am_broadcast id m) = am_callback m)
      by (unfold am_broadcast; by destruct (am_subs m !! id), (ms_Snapshot id (am_store m))).
    rewrite Hwork. destruct ph.
    + exists (EvStart 0 0 0). am_unfold. rewrite Ew. eexists. split; [reflexivity|].
      unfold work. cbn. rewrite Ew. cbn. split; [lia|done].
    + exists (EvBroadcast 0). am_unfold. rewrite Ew. eexists. split; [reflexivity|].
      unfold work. cbn. rewrite Ew', Eq, Ecb, Ec, Ep, Ew. cbn. split; [lia|done].
    + exists (EvFinish 0 0 0 (inl None)). am_unfold. rewrite Ew. eexists. split; [reflexivity|].
      unfold work. cbn. rewrite Ew. cbn. split; [lia|done].
    + exists (EvBroadcast 0). am_unfold. rewrite Ew. eexists. split; [reflexivity|].
      unfold work. cbn. rewrite Ew', Eq, Ecb, Ec, Ep, Ew. cbn. split; [lia|done].
    + exists (EvNotify 0 (fun _ => RespError)). am_unfold. rewrite Ew. cbn [lookup list_lookup].
      pose proof (notify_no_panic cb (ms_Snapshot id (am_store m)) (fun _ => RespError)) as Hn. rewrite Hcb.
      destruct (notifyCallback _ _ _); [| done |]; (eexists; split; [reflexivity|];
        unfold work; cbn; split; [lia|done]).
Qed.

Lemma drain (n : nat) : forall (m : AsyncJobManager) cb,
  (work m <= n)%nat -> am_inv m -> am_callback m = Some cb -> am_sem m <> Some 0%nat ->
  exists evs m', am_run evs m = Next m' /\ work m' = 0%nat /\ am_inv m' /\ am_processor m' = am_processor m.
Proof.
  induction n as [|n IH]; intros m cb Hn Hinv Hcb Hsem.
  { exists [], m. split; [done|]. split; [lia|done]. }
  destruct (decide (work m = 0%nat)) as [|Hw]; [by exists [], m|].
  destruct (drain_step m cb Hinv Hcb Hsem ltac:(lia)) as (ev & m1 & Hs & Hlt & Ecb & Esem & Ep).
  destruct (IH m1 cb ltac:(lia) (am_step_inv ev m m1 Hinv Hs) Ecb ltac:(by rewrite Esem)) as (evs & m' & Hr & Hw' & Hi & Ep').
  exists (ev :: evs), m'. cbn [am_run]. rewrite Hs. split; [done|]. split; [done|]. split; [done|congruence].
Qed.

Lemma work_zero (m : AsyncJobManager) : work m = 0%nat -> am_waiting m = [] /\ am_workers m = [].
Proof.
  unfold work. destruct (am_waiting m), (am_workers m) as [|[id js []] ws]; cbn; intros; try lia; done.
Qed.

(** ** Jobs nobody works on *)

Definition not_submit (id : string) (ev : am_event) : Prop :=
  match ev with EvSubmit _ id' _ => id' <> id | _ => True end.

Lemma Snapshot_gone_Update n1 n2 id st res err (s : memoryJobStore A) id' :
  store_wf s -> ms_Snapshot id' s = None -> ms_Snapshot id' (ms_Update n1 n2 id st res err s) = None.
Proof. intros Hw Hs. rewrite Snapshot_Update, Hs by done. by case_decide. Qed.

Lemma gone_step (ev : am_event) (m m' : AsyncJobManager) id :
  am_inv m -> not_submit id ev -> am_step ev m = Next m' ->
  ms_Snapshot id (am_store m) = None -> ms_Snapshot id (am_store m') = None.
Proof.
  intros Hinv Hns Hs Hnone. pose proof (ai_store m Hinv) as Hw.
  destruct ev as [now id' cb|k|k n1 n2|k|k n1 n2 out|k resp|id'|k|now mr|now ttl|id'|k|id' ch wok]; am_unfold; cbn [not_submit] in *.
  - injection Hs as <-. destruct (submit_store now id' cb m Hw) as (_ & _ & H). by rewrite H.
  - destruct (am_waiting m !! k) as [[]|]; [|done]. destruct (match am_sem m with Some cap => _ | None => _ end); [by injection Hs as <-|done].
  - destruct (am_workers m !! k) as [[? ? []]|]; try done. injection Hs as <-. by apply Snapshot_gone_Update.
  - destruct (am_workers m !! k) as [[wid ? []]|]; try done; injection Hs as <-; cbn;
      destruct (broadcast_frame wid m) as (-> & _); done.
  - destruct (am_workers m !! k) as [[? ? []]|]; try done. injection Hs as <-.
    destruct out; by apply Snapshot_gone_Update.
  - destruct (am_workers m !! k) as [[? ? []]|]; try done. destruct (notifyCallback _ _ _); try done; by injection Hs as <-.
  - destruct (ms_Snapshot id' (am_store m)) as [js|]; [case_decide|]; by injection Hs as <-.
  - destruct (am_cancels m !! k) as [id'|]; [|done]. injection Hs as <-.
    rewrite <- ms_model_lookup in Hnone |- *. unfold ms_model in *. cbn. rewrite omap_delete, lookup_delete_None. by right.
  - injection Hs as <-. destruct (sim_reap (am_store m) now mr Hw) as (_ & _ & _ & Hm). cbn [store_exec map_exec snd] in Hm.
    cbn. by rewrite <- ms_model_lookup, Hm, lookup_fmap, ms_model_lookup, Hnone.
  - injection Hs as <-. destruct (sim_cleanup (am_store m) now ttl Hw) as (_ & _ & _ & Hm). cbn [store_exec map_exec snd] in Hm.
    change (ms_Snapshot id (ms_Cleanup now ttl (am_store m)).2 = None).
    rewrite <- ms_model_lookup, Hm, map_lookup_filter_None, ms_model_lookup. by left.
  - destruct (ms_Snapshot id' (am_store m)) as [js|]; [destruct (is_terminal _)|]; by injection Hs as <-.
  - destruct (am_streams m !! k) as [id'|]; [|done]. by injection Hs as <-.
  - destruct (am_subs m !! id' ≫= (.!! ch)) as [[|js buf]|]; try done.
    destruct (wok && _); injection Hs as <-; [done|].
    set (m1 := m <| am_subs := _ |>). by destruct (unsubscribe_frame id' ch m1) as (-> & _).
Qed.

(** Nothing will broadcast the job any more, and the stream's buffer is empty. *)
Record starved (id : string) (ch : nat) (m : AsyncJobManager) : Prop := mk_starved {
  st_workers : Forall (fun w => wk_id w <> id) (am_workers m);
  st_waiting : Forall (fun p => p.1 <> id) (am_waiting m);
  st_chan : (ch < am_nextChan m)%nat;
  st_empty : am_subs m !! id ≫= (.!! ch) = Some []
}.

Lemma starved_frame id ch (m m' : AsyncJobManager) :
  starved id ch m -> Forall (fun w => wk_id w <> id) (am_workers m') -> Forall (fun p => p.1 <> id) (am_waiting m') ->
  am_nextChan m' = am_nextChan m -> am_subs m' !! id = am_subs m !! id -> starved id ch m'.
Proof. intros [H1 H2 H3 H4] Hw Hq Hn Hs. constructor; try done; [by rewrite Hn|by rewrite Hs]. Qed.

Lemma starved_worker id ch (m : AsyncJobManager) k w :
  starved id ch m -> am_workers m !! k = Some w -> wk_id w <> id.
Proof. intros [H _ _ _] Hk. exact (Forall_lookup_1 _ _ _ _ H Hk). Qed.

Lemma starved_receive id ch id' ch' js buf (wok : bool) (m : AsyncJobManager) :
  starved id ch m -> am_subs m !! id' ≫= (.!! ch') = Some (js :: buf) ->
  let m1 := m <| am_subs := alter (insert ch' buf) id' (am_subs m) |> in
  starved id ch m1 /\ starved id ch (am_unsubscribe id' ch' m1).
Proof.
  intros Hst Hr m1. pose proof Hst as [H1 H2 H3 H4].
  assert (Hm1 : starved id ch m1).
  { constructor; try done. cbn. destruct (decide (id' = id)) as [->|]; [|by rewrite lookup_alter_ne].
    rewrite lookup_alter_eq. destruct (am_subs m !! id) as [subs|]; [|done]. cbn in *.
    rewrite lookup_insert_ne; [done|]. congruence. }
  split; [done|]. destruct Hm1 as [_ _ _ H4']. unfold am_unsubscribe.
  destruct (am_subs m1 !! id') as [subs|] eqn:Es; [|done].
  destruct (decide (id' = id)) as [->|Hne].
  - rewrite Es in H4'. cbn in H4'.
    assert (Hch : delete ch' subs !! ch = Some []) by (rewrite lookup_delete_ne; [done|]; cbn in Hr; congruence).
    case_decide as E; [by rewrite E in Hch|]. constructor; try done. cbn. by rewrite lookup_insert_eq.
  - case_decide; constructor; try done; cbn; [by rewrite lookup_delete_ne|by rewrite lookup_insert_ne].
Qed.

Lemma starved_step id ch (ev : am_event) (m m' : AsyncJobManager) :
  not_submit id ev -> am_step ev m = Next m' -> starved id ch m -> starved id ch m'.
Proof.
  intros Hns Hs Hst. pose proof Hst as [H1 H2 H3 H4].
  destruct ev as [now id' cb|k|k n1 n2|k|k n1 n2 out|k resp|id'|k|now mr|now ttl|id'|k|id' ch' wok]; am_unfold; cbn [not_submit] in *.
  - injection Hs as <-. destruct (submit_frame now id' cb m) as (_ & Ew & _ & _ & _ & Eb & En & Eq).
    apply (starved_frame id ch m); [done|by rewrite Ew| |by rewrite En|by rewrite Eb].
    rewrite Eq. destruct (am_processor m); [|done]. apply Forall_app. by repeat constructor.
  - destruct (am_waiting m !! k) as [[id' js]|] eqn:Hk; [|done]. destruct (match am_sem m with Some cap => _ | None => _ end); [|done].
    injection Hs as <-. apply (starved_frame id ch m); try done; cbn.
    + apply Forall_app. repeat constructor; [done|]. exact (Forall_lookup_1 _ _ _ _ H2 Hk).
    + by apply Forall_delete.
  - destruct (am_workers m !! k) as [[id' js []]|] eqn:Hk; try done. injection Hs as <-.
    apply (starved_frame id ch m); try done. apply Forall_insert; [done|]. exact (starved_worker _ _ _ _ _ Hst Hk).
  - destruct (am_workers m !! k) as [[id' js []]|] eqn:Hk; try done; injection Hs as <-;
      pose proof (starved_worker _ _ _ _ _ Hst Hk) as Hne; cbn in Hne;
      destruct (broadcast_frame id' m) as (_ & _ & Ew & Eq & _ & _ & _ & En & Eb);
      (apply (starved_frame id ch m); [done|cbn; rewrite Ew; by apply Forall_insert|cbn; by rewrite Eq|done|by apply Eb]).
  - destruct (am_workers m !! k) as [[id' js []]|] eqn:Hk; try done. injection Hs as <-.
    pose proof (starved_worker _ _ _ _ _ Hst Hk). destruct out; (apply (starved_frame id ch m); try done; by apply Forall_insert).
  - destruct (am_workers m !! k) as [[? ? []]|]; try done.
    destruct (notifyCallback _ _ _); try done; injection Hs as <-; (apply (starved_frame id ch m); try done; by apply Forall_delete).
  - destruct (ms_Snapshot id' (am_store m)) as [js|]; [case_decide|]; by injection Hs as <-.
  - destruct (am_cancels m !! k) as [id'|]; [|done]. by injection Hs as <-.
  - by injection Hs as <-.
  - by injection Hs as <-.
  - destruct (ms_Snapshot id' (am_store m)) as [js|]; [destruct (is_terminal _)|]; by injection Hs as <-.
  - destruct (am_streams m !! k) as [id'|]; [|done]. injection Hs as <-. constructor; try done; cbn; [lia|].
    destruct (decide (id' = id)) as [->|]; [rewrite lookup_insert_eq|by rewrite lookup_insert_ne]. cbn.
    rewrite lookup_insert_ne by lia. destruct (am_subs m !! id); done.
  - destruct (am_subs m !! id' ≫= (.!! ch')) as [[|js buf]|] eqn:Hr; try done.
    destruct (starved_receive id ch id' ch' js buf wok m Hst Hr) as [Ha Hb].
    destruct (wok && _); by injection Hs as <-.
Qed.

Lemma am_run_ind (P : AsyncJobManager -> Prop) (ok : am_event -> Prop) :
  (forall ev m m', ok ev -> am_step ev m = Next m' -> P m -> P m') ->
  forall evs m m', Forall ok evs -> am_run evs m = Next m' -> P m -> P m'.
Proof.
  intros Hstep evs. induction evs as [|ev evs IH]; intros m m' Hok; cbn [am_run]; [by intros [= <-]|].
  inversion Hok; subst. destruct (am_step ev m) as [m1| |] eqn:E; try done. intros Hr HP. eapply IH; eauto.
Qed.

(** The configuration never changes. *)
Lemma step_config (ev : am_event) (m m' : AsyncJobManager) :
  am_step ev m = Next m' ->
  am_sem m' = am_sem m /\ am_callback m' = am_callback m /\ am_processor m' = am_processor m.
Proof.
  assert (Hb : forall id m, am_sem (am_broadcast id m) = am_sem m /\
    am_callback (am_broadcast id m) = am_callback m /\ am_processor (am_broadcast id m) = am_processor m)
    by (intros id m0; unfold am_broadcast; by destruct (am_subs m0 !! id), (ms_Snapshot id (am_store m0))).
  assert (Hu : forall id ch m, am_sem (am_unsubscribe id ch m) = am_sem m /\
    am_callback (am_unsubscribe id ch m) = am_callback m /\ am_processor (am_unsubscribe id ch m) = am_processor m)
    by (intros id ch m0; unfold am_unsubscribe; destruct (am_subs m0 !! id); [by case_decide|done]).
  destruct ev as [now id cb|k|k n1 n2|k|k n1 n2 out|k resp|id|k|now mr|now ttl|id|k|id ch wok]; am_unfold.
  all: repeat (case_match; try discriminate); intros [= <-]; try done.
  all: try (by apply Hb).
  - unfold am_submit. cbn [ms_Create]. destruct (am_processor m) eqn:E; by destruct cb.
  - match goal with |- am_sem (am_unsubscribe _ _ ?m1) = _ /\ _ => exact (Hu id ch m1) end.
Qed.

Lemma run_config (evs : list am_event) : forall m m', am_run evs m = Next m' ->
  am_sem m' = am_sem m /\ am_callback m' = am_callback m /\ am_processor m' = am_processor m.
Proof.
  induction evs as [|ev evs IH]; intros m m'; cbn [am_run]; [by intros [= <-]|].
  destruct (am_step ev m) as [m1| |] eqn:E; try done. intros Hr.
  destruct (step_config ev m m1 E) as (E1 & E2 & E3). destruct (IH m1 m' Hr) as (E4 & E5 & E6).
  split; [congruence|]. split; congruence.
Qed.

(** ** Properties *)

(** With [max_concurrent] set, never more than that many job goroutines are alive,
    under any interleaving of submissions, workers, cancellations and reaps. *)
Theorem concurrency_bounded (evs : list am_event) proc mr cb (cap : nat) (m : AsyncJobManager) :
  am_run evs (NewAsyncJobManagerWithRetry newMemoryJobStore proc mr cb (Some cap)) = Next m ->
  (length (am_workers m) <= cap)%nat.
Proof.
  intros Hr. destruct (run_config evs _ m Hr) as (Hc & _). pose proof (am_run_inv evs _ m (New_inv proc mr cb (Some cap)) Hr) as Hinv.
  rewrite <- (ai_count m Hinv). by apply (ai_sem m Hinv).
Qed.

(** A submission is handed to the processor at most once, whatever the reaper does:
    resetting a stale job to pending does not run it again. *)
Theorem processor_runs_once (evs : list am_event) proc mr cb sem (m : AsyncJobManager) :
  am_run evs (NewAsyncJobManagerWithRetry newMemoryJobStore proc mr cb sem) = Next m -> NoDup (am_ran m).
Proof.
  intros Hr. pose proof (ai_tokens m (am_run_inv evs _ m (New_inv proc mr cb sem) Hr)) as H.
  by apply NoDup_app in H as [H _].
Qed.

(** C12: for a manager with the in-memory store, a processor, a callback configuration and a
    semaphore with room (or none): from every state it can reach, whatever was submitted,
    cancelled, reaped or streamed before, the goroutines have a schedule that runs them all to
    their end, and after it every job still in the store is completed or failed.  The
    configuration is needed: without it a job submitted with a callback URL of its own takes
    the process down ([callback_url_crashes]). *)
Theorem jobs_can_finish (evs : list am_event) mr cb sem (m : AsyncJobManager) :
  am_run evs (NewAsyncJobManagerWithRetry newMemoryJobStore true mr (Some cb) sem) = Next m ->
  sem <> Some 0%nat ->
  exists evs' m', am_run evs' m = Next m' /\ am_waiting m' = [] /\ am_workers m' = [] /\
    forall id js, ms_Snapshot id (am_store m') = Some js -> js_Status js = JobCompleted \/ js_Status js = JobFailed.
Proof.
  intros Hr Hs. destruct (run_config evs _ m Hr) as (Hc & Hcb & Hp). cbn in Hc, Hcb, Hp. rewrite <- Hc in Hs.
  pose proof (am_run_inv evs _ m (New_inv true mr (Some cb) sem) Hr) as Hinv.
  destruct (drain (work m) m cb ltac:(lia) Hinv Hcb Hs) as (evs' & m' & Hr' & Hw & Hi & Ep).
  apply work_zero in Hw as [Eq Ew]. exists evs', m'. split; [done|]. split; [done|]. split; [done|].
  intros id js Hjs. destruct (is_terminal (js_Status js)) eqn:E; [destruct (js_Status js); auto; done|].
  pose proof (ai_live m' Hi id ltac:(congruence) ltac:(by exists js)) as H.
  unfold unfinished in H. rewrite Eq, Ew in H. set_solver.
Qed.

(** A job removed by a cancellation or by the cleanup stays removed: nothing but a
    submission under the same id brings it back, not even its own goroutine. *)
Theorem removed_job_stays_removed (evs evs' : list am_event) proc mr cb sem id (m m' : AsyncJobManager) :
  am_run evs (NewAsyncJobManagerWithRetry newMemoryJobStore proc mr cb sem) = Next m ->
  ms_Snapshot id (am_store m) = None -> Forall (not_submit id) evs' -> am_run evs' m = Next m' ->
  ms_Snapshot id (am_store m') = None.
Proof.
  intros Hr Hnone Hns Hr'. pose proof (am_run_inv evs _ m (New_inv proc mr cb sem) Hr) as Hinv.
  apply (am_run_ind (fun m => am_inv m /\ ms_Snapshot id (am_store m) = None) (not_submit id)) in Hr'; [tauto| |done|done].
  intros ev m1 m2 Hok Hs [Hi Hn]. split; [by eapply am_step_inv|by eapply gone_step].
Qed.

End manager.

Arguments AsyncJobManager A : clear implicits.
Arguments am_event A : clear implicits.
Arguments am_result A : clear implicits.

Lemma notify_posted {A} (cb : option AsyncCallbackConf) (job : option (JobState A)) resp url sec n ok :
  notifyCallback cb job resp = NotifyPosted url sec n ok ->
  exists c, cb = Some c /\ callback_attempts resp 0 (Z.to_nat (callback_retries c + 1)) = (n, ok).
Proof.
  unfold notifyCallback. destruct job as [js|]; [|done].
  destruct (String.eqb (js_CallbackURL js) ""), cb as [c|]; try done;
    [destruct (String.eqb (AsyncCallbackConf_URL c) ""); [done|]|];
    (destruct (callback_attempts _ _ _) as [n' ok'] eqn:E; intros [= <- <- <- <-]; by exists c).
Qed.

Lemma attempts_spec resp : forall tries from n ok,
  callback_attempts resp from tries = (n, ok) ->
  (n <= tries)%nat /\
  (forall i, (S i < n)%nat -> resp_stops (resp (from + i)%nat) = false) /\
  (n = tries \/ (0 < n)%nat /\ resp_stops (resp (from + (n - 1))%nat) = true) /\
  (ok = true <-> (0 < n)%nat /\ resp_ok (resp (from + (n - 1))%nat) = true).
Proof.
  induction tries as [|tries IH]; intros from n ok; cbn [callback_attempts].
  { intros [= <- <-]. split; [done|]. split; [lia|]. split; [by left|]. split; [done|lia]. }
  destruct (resp_stops (resp from)) eqn:Es.
  - intros [= <- <-]. rewrite Nat.add_0_r. split; [lia|]. split; [lia|]. split; [right; split; [lia|done]|].
    split; [intros; split; [lia|done]|tauto].
  - destruct (callback_attempts resp (S from) tries) as [n' ok'] eqn:E. intros [= <- <-].
    destruct (IH _ _ _ E) as (Hle & Hfail & Hend & Hok). replace (S n' - 1)%nat with n' by lia.
    split; [lia|]. split.
    { intros [|i] Hi; [by rewrite Nat.add_0_r|]. rewrite <- Nat.add_succ_comm. apply Hfail. lia. }
    destruct n' as [|n'].
    + rewrite Nat.add_0_r. split; [left; lia|]. split; [intros [? _]%Hok; lia|].
      intros [_ H]. unfold resp_stops in Es. destruct (resp from); cbn in *; congruence.
    + replace (S n' - 1)%nat with n' in * by lia. rewrite <- Nat.add_succ_comm in *. split.
      * destruct Hend as [<-|[_ ?]]; [by left|right; split; [lia|done]].
      * rewrite Hok. split; intros [_ H]; (split; [lia|done]).
Qed.

(** The callback is posted at most [retry + 1] times, three retries when the
    setting is not positive; the attempts stop at the first success or refused request and
    only there, and success is reported exactly when the last attempt got a 2xx status. *)
Theorem callback_retry_bound {A} (c : AsyncCallbackConf) (job : option (JobState A)) resp url sec n ok :
  notifyCallback (Some c) job resp = NotifyPosted url sec n ok ->
  (1 <= n)%nat /\ Z.of_nat n <= callback_retries c + 1 /\
  (forall i, (S i < n)%nat -> resp_stops (resp i) = false) /\
  (Z.of_nat n < callback_retries c + 1 -> resp_stops (resp (n - 1)%nat) = true) /\
  (ok = true <-> resp_ok (resp (n - 1)%nat) = true).
Proof.
  intros H. apply notify_posted in H as (c' & [= <-] & H).
  destruct (attempts_spec resp _ _ _ _ H) as (Hle & Hf & He & Hok). cbn [Nat.add] in *.
  assert (0 < callback_retries c) by (unfold callback_retries; destruct (Z.leb_spec (AsyncCallbackConf_Retry c) 0); lia).
  assert (1 <= n)%nat by (destruct He as [->|[? _]]; lia).
  split; [done|]. split; [lia|]. split; [exact Hf|]. split; [|rewrite Hok; naive_solver].
  intros Hlt. destruct He as [->|[_ He]]; [lia|done].
Qed.

(** A manager without [callback] and [max_concurrent]. *)
Definition plain_manager (A : Type) : AsyncJobManager A :=
  NewAsyncJobManagerWithRetry newMemoryJobStore true 0 None None.

Definition one_job {A} (cb : option string) (result : option A) : list (am_event A) :=
  [EvSubmit 0 "j" cb; EvSpawn 0; EvStart 0 1 1; EvBroadcast 0; EvFinish 0 2 2 (inl result); EvBroadcast 0].

(** A submission with a [_callback_url] to an entry without a callback configuration
    kills the process: its goroutine runs to the callback and dereferences the nil
    configuration. *)
Theorem callback_url_crashes {A} (url : string) (result : option A) (resp : nat -> response) :
  url <> "" -> am_run (one_job (Some url) result ++ [EvNotify 0 resp]) (plain_manager A) = Crashed.
Proof.
  intros Hurl. destruct url as [|c url]; [done|]. vm_compute. reflexivity.
Qed.

Lemma callback_url_crashes_witness :
  "http://cb" <> "" /\
  am_run (one_job (Some "http://cb") (Some 1%nat) ++ [EvNotify 0 (fun _ => RespStatus 200)]) (plain_manager nat) = Crashed.
Proof. split; [done|]. by apply (callback_url_crashes "http://cb" (Some 1%nat) (fun _ => RespStatus 200)). Defined.

(** An SSE client can wait for ever.  The handler reads the job's state before it
    subscribes; when the job completes in between, its completion is broadcast to nobody,
    and whatever happens later (short of a submission under the same id) the client's
    channel stays empty although the job is completed. *)
Theorem sse_lost_wakeup {A} (result : option A) :
  exists evs (m : AsyncJobManager A) js,
    am_run evs (plain_manager A) = Next m /\ ms_Snapshot "j" (am_store m) = Some js /\ js_Status js = JobCompleted /\
    forall evs' m', Forall (not_submit "j") evs' -> am_run evs' m = Next m' ->
      am_subs m' !! "j" ≫= (.!! 0%nat) = Some [] /\ forall ok, am_step (EvReceive "j" 0 ok) m' = Disabled.
Proof.
  exists (take 4 (one_job None result) ++ [EvStream "j"] ++ drop 4 (one_job None result) ++
    [EvNotify 0 (fun _ => RespError); EvSubscribe 0]).
  eexists _, _. split; [vm_compute; reflexivity|]. split; [vm_compute; reflexivity|]. split; [reflexivity|].
  intros evs' m' Hns Hr.
  assert (Hst : starved "j" 0 m').
  { eapply (am_run_ind (starved "j" 0) (not_submit "j")); [|exact Hns|exact Hr|].
    - intros ev m1 m2 Hok Hs. by eapply starved_step.
    - constructor; try apply Forall_nil_2; [cbn; lia|reflexivity]. }
  destruct Hst as [_ _ _ He]. split; [exact He|]. intros ok. cbn [am_step]; unfold HandleStatusSSE_receive. by rewrite He.
Qed.

(** ** Registration (runtime/entry_async.go) *)

Section register.
(** [time.ParseDuration], in nanoseconds. *)
Context (ParseDuration : string -> option Z).

Definition parseDurationDef (s : string) : Z :=
  if String.eqb s "" then 0 else default 0 (ParseDuration s).

Definition resolveAsyncPath (prefix : string) (entry : EntryDef) : string :=
  let rsc := if String.eqb (EntryDef_Path entry) "" then EntryDef_Resource entry else EntryDef_Path entry in
  if String.eqb rsc "" then "" else (prefix +:+ rsc)%string.

Record Reaper : Type := mkReaper {
  Reaper_timeout : Z; Reaper_interval : Z; Reaper_maxRetry : Z; Reaper_cleanupTTL : Z
}.

(** [max_retries], [result_ttl] and the reaper that was started. *)
Definition setupAsyncReaper (entry : EntryDef) : Z * Z * option Reaper :=
  match EntryDef_AsyncStore entry with
  | None => (0, 0, None)
  | Some st =>
      let ttl := parseDurationDef (AsyncStoreConf_ResultTTL st) in
      match AsyncStoreConf_Reassign st with
      | None => (0, ttl, None)
      | Some re =>
          if negb (AsyncReassignConf_Enabled re) then (0, ttl, None)
          else
            let maxRetries := if AsyncReassignConf_MaxRetries re <=? 0 then 3 else AsyncReassignConf_MaxRetries re in
            let timeout := parseDurationDef (AsyncReassignConf_ProcessingTimeout re) in
            let timeout := if timeout <=? 0 then 5 * 60 * 10^9 else timeout in
            let interval := parseDurationDef (AsyncReassignConf_ReapInterval re) in
            let interval := if interval <=? 0 then 30 * 10^9 else interval in
            (maxRetries, ttl, Some (mkReaper timeout interval maxRetries ttl))
      end
  end.

Definition resolveAsyncHandler {H} (handlers : gmap string H) (name : string) : option H := handlers !! name.

Inductive registration (A : Type) :=
| RegError (msg : string)
| RegPanic
| RegOk (mgr : AsyncJobManager A) (reaper : option Reaper).
Arguments RegError {A}. Arguments RegPanic {A}. Arguments RegOk {A}.

(** [registerAsync] without the Fiber routes and the event publication. *)
Definition registerAsync {A H} (prefix : string) (entry : EntryDef) (handlers : gmap string H)
    (store : memoryJobStore A) : registration A :=
  if String.eqb (resolveAsyncPath prefix entry) "" then RegError "async entry requires path or resource"
  else
    let processor := resolveAsyncHandler handlers (EntryDef_Handler entry) in
    if negb (String.eqb (EntryDef_Handler entry) "") && bool_decide (processor = None)
    then RegError "async handler not found"
    else
      let '(maxRetries, ttl, reaper) := setupAsyncReaper entry in
      let mgr callback sem := NewAsyncJobManagerWithRetry store (bool_decide (is_Some processor)) maxRetries callback sem in
      match EntryDef_AsyncStore entry with
      | None => RegOk (mgr None None) reaper
      | Some st =>
          match AsyncStoreConf_Reassign st with
          | None => RegPanic                       (* entry.AsyncStore.Reassign.ProcessingTimeout *)
          | Some re =>
              let sem := if 0 <? AsyncStoreConf_MaxConcurrent st
                         then Some (Z.to_nat (AsyncStoreConf_MaxConcurrent st)) else None in
              RegOk (mgr (AsyncStoreConf_Callback st) sem) reaper
          end
      end.
End register.

(** Registration panics exactly when the path and the handler are valid and the entry
    has an [async_store] without [reassign], an optional section: the processing timeout is
    read through the nil pointer. *)
Theorem registerAsync_panics_iff ParseDuration {A H} prefix (entry : EntryDef) (handlers : gmap string H)
    (store : memoryJobStore A) :
  registerAsync ParseDuration prefix entry handlers store = RegPanic A <->
  resolveAsyncPath prefix entry <> "" /\
  (EntryDef_Handler entry = "" \/ is_Some (handlers !! EntryDef_Handler entry)) /\
  exists st, EntryDef_AsyncStore entry = Some st /\ AsyncStoreConf_Reassign st = None.
Proof.
  unfold registerAsync, resolveAsyncHandler.
  destruct (String.eqb_spec (resolveAsyncPath prefix entry) "") as [Ep|Ep]; [split; [done|tauto]|].
  destruct (setupAsyncReaper ParseDuration entry) as [[mr ttl] reaper].
  destruct (String.eqb_spec (EntryDef_Handler entry) "") as [Eh|Eh];
    destruct (handlers !! EntryDef_Handler entry) as [h|] eqn:E; cbn [negb andb].
  4: rewrite bool_decide_eq_true_2 by done; split; [done|intros (_ & [?|[? ?]] & _); done].
  3: rewrite bool_decide_eq_false_2 by done.
  all: destruct (EntryDef_AsyncStore entry) as [st|]; [destruct (AsyncStoreConf_Reassign st) eqn:Er|].
  all: first [split; [done|intros (_ & _ & st' & [= <-] & ?); congruence]
             |split; [done|by intros (_ & _ & st' & [=] & _)]
             |split; [intros _; split; [done|]; split; [eauto|by exists st]|done]].
Qed.

(** The reaper, which also runs the cleanup, is started exactly when [reassign] is
    present and enabled, [result_ttl] notwithstanding; its interval and timeout are then
    positive (the ticker does not panic), as is its retry limit. *)
Theorem setupAsyncReaper_spec ParseDuration (entry : EntryDef) :
  let '(maxRetries, ttl, reaper) := setupAsyncReaper ParseDuration entry in
  match reaper with
  | Some r =>
      (exists st re, EntryDef_AsyncStore entry = Some st /\ AsyncStoreConf_Reassign st = Some re /\
        AsyncReassignConf_Enabled re = true) /\
      0 < Reaper_interval r /\ 0 < Reaper_timeout r /\ 0 < Reaper_maxRetry r /\
      Reaper_maxRetry r = maxRetries /\ Reaper_cleanupTTL r = ttl
  | None =>
      maxRetries = 0 /\
      forall st re, EntryDef_AsyncStore entry = Some st -> AsyncStoreConf_Reassign st = Some re ->
        AsyncReassignConf_Enabled re = false
  end.
Proof.
  unfold setupAsyncReaper. destruct (EntryDef_AsyncStore entry) as [st|]; [|done].
  destruct (AsyncStoreConf_Reassign st) as [re|] eqn:Er; [|split; [done|congruence]].
  destruct (AsyncReassignConf_Enabled re) eqn:Ee; cbn [negb]; [|split; [done|congruence]].
  split; [by exists st, re|]. cbn.
  repeat match goal with |- context [?a <=? 0] => destruct (Z.leb_spec a 0) end; lia.
Qed.

(** ** Witnesses *)

Definition cb_conf : AsyncCallbackConf := mkAsyncCallbackConf "http://cb" "s" 1 "".

Definition two_jobs : list (am_event nat) :=
  [EvSubmit 0 "a" None; EvSubmit 0 "b" None; EvSpawn 0; EvStart 0 1 1; EvBroadcast 0; EvReap (10^15) 3].

Lemma concurrency_bounded_witness :
  exists m, am_run two_jobs (NewAsyncJobManagerWithRetry newMemoryJobStore true 3 None (Some 1%nat)) = Next m /\
    (length (am_workers m) <= 1)%nat.
Proof.
  eexists. split; [vm_compute; reflexivity|].
  apply (concurrency_bounded two_jobs true 3 None 1). vm_compute. reflexivity.
Defined.

Lemma processor_runs_once_witness :
  exists m, am_run two_jobs (NewAsyncJobManagerWithRetry newMemoryJobStore true 3 None (Some 1%nat)) = Next m /\
    NoDup (am_ran m).
Proof.
  eexists. split; [vm_compute; reflexivity|].
  apply (processor_runs_once two_jobs true 3 None (Some 1%nat)). vm_compute. reflexivity.
Defined.

Lemma jobs_can_finish_witness :
  exists m, am_run two_jobs (NewAsyncJobManagerWithRetry newMemoryJobStore true 3 (Some cb_conf) (Some 1%nat)) = Next m /\
    exists evs' m', am_run evs' m = Next m' /\ am_waiting m' = [] /\ am_workers m' = [] /\
      forall id js, ms_Snapshot id (am_store m') = Some js -> js_Status js = JobCompleted \/ js_Status js = JobFailed.
Proof.
  eexists. split; [vm_compute; reflexivity|].
  apply (jobs_can_finish two_jobs 3 cb_conf (Some 1%nat)); [vm_compute; reflexivity|done].
Defined.

Lemma removed_job_stays_removed_witness :
  exists m m',
    am_run (two_jobs ++ [EvCancel "a"; EvCancelDelete 0])
      (NewAsyncJobManagerWithRetry newMemoryJobStore true 3 None None) = Next m /\
    am_run [EvFinish 0 5 5 (inl (Some 1%nat)); EvBroadcast 0] m = Next m' /\
    ms_Snapshot "a" (am_store m') = None.
Proof.
  eexists _, _. split; [vm_compute; reflexivity|]. split; [vm_compute; reflexivity|].
  eapply (removed_job_stays_removed (two_jobs ++ [EvCancel "a"; EvCancelDelete 0])
    [EvFinish 0 5 5 (inl (Some 1%nat)); EvBroadcast 0] true 3 None None "a").
  - vm_compute. reflexivity.
  - vm_compute. reflexivity.
  - repeat constructor.
  - vm_compute. reflexivity.
Defined.

Lemma callback_retry_bound_witness :
  exists n ok,
    notifyCallback (Some cb_conf) (Some (mkJobState "j" JobFailed (None : option nat) "e" 0 0 0 0 None ""))
      (fun i => if decide (i = 0%nat) then RespError else RespStatus 200) = NotifyPosted "http://cb" "s" n ok /\
    (1 <= n)%nat.
Proof.
  exists 2%nat, true. split; [reflexivity|].
  exact (proj1 (callback_retry_bound cb_conf (Some (mkJobState "j" JobFailed (None : option nat) "e" 0 0 0 0 None ""))
    (fun i => if decide (i = 0%nat) then RespError else RespStatus 200) "http://cb" "s" 2 true eq_refl)).
Defined.
