(* ===== verification/JobStores.v ===== *)
(** * The job stores of Redis, NATS and PostgreSQL (runtime/async_store_redis.go,
    async_store_nats.go, async_store_pg.go, async_store_factory.go)

    The first two keep a job as JSON text under a key of a server, the third as a row of a
    table.  The servers are maps; which calls to them fail is a parameter ([faults]).  The JSON
    codec is a parameter too, since the results of jobs have any type.  The abstract store
    they are compared with is the map of [JobStore], less what a store that copies its jobs
    cannot do. *)

From S2P Require Import Prelude ConfigTypes JobStore AsyncJob.

(** The calls of a server that fail, by key. *)
Record faults : Type := mkFaults { f_get : string -> bool; f_set : string -> bool; f_del : string -> bool }.
Definition no_faults : faults := mkFaults (fun _ => false) (fun _ => false) (fun _ => false).

Notation db := (gmap string string).

Definition new_job {A} (now : Z) (id : string) : JobState A := mkJobState id JobPending None "" now now 0 0 None "".

Section kv.
Context {A : Type} (marshal : JobState A -> option string) (unmarshal : string -> option (JobState A)).

(** [data, _ := json.Marshal(js)]: no bytes when it fails. *)
Definition to_json (js : JobState A) : string := default "" (marshal js).

(** ** Redis *)

(** [Redis.GetCtx] turns a missing key into the empty string. *)
Definition redis_get (fl : faults) (k : string) (d : db) : option string := if f_get fl k then None else Some (default "" (d !! k)).
Definition kv_set (fl : faults) (k v : string) (d : db) : db := if f_set fl k then d else <[k := v]> d.
Definition kv_del (fl : faults) (k : string) (d : db) : db := if f_del fl k then d else delete k d.

Definition redis_key (prefix id : string) : string := (prefix ++ id)%string.

Definition redis_Create (prefix : string) (fl : faults) (now : Z) (id : string) (d : db) : JobState A * db :=
  let js := new_job now id in (js, kv_set fl (redis_key prefix id) (to_json js) d).

Definition redis_Get (prefix : string) (fl : faults) (id : string) (d : db) : option (JobState A) :=
  data ← redis_get fl (redis_key prefix id) d; unmarshal data.

Definition redis_Update (prefix : string) (fl : faults) (timeout n1 n2 : Z) (id : string) (st : JobStatus) (res : option A) (err : string) (d : db) : db :=
  match redis_Get prefix fl id d with
  | None => d
  | Some js => kv_set fl (redis_key prefix id) (to_json (update_job timeout n1 n2 st res err js)) d
  end.

Definition redis_Delete (prefix : string) (fl : faults) (id : string) (d : db) : db := kv_del fl (redis_key prefix id) d.

(** The keys of one page, with either client's read. *)
Definition list_keys (get : string -> db -> option string) (keys : list string) (d : db) : list (JobState A) :=
  omap (fun k => data ← get k d; unmarshal data) keys.

(** What [ReapStale] makes of the data it read: nothing, or a job to write. *)
Definition reap_decide (now maxRetries : Z) (data : option string) : option (JobState A) :=
  data ← data; js ← unmarshal data; if is_stale now js then Some (reap_job now maxRetries js) else None.

Definition reap_visit (get : string -> db -> option string) (fl : faults) (now maxRetries : Z) (nd : nat * db) (k : string) : nat * db :=
  match reap_decide now maxRetries (get k nd.2) with
  | None => nd
  | Some js => if f_set fl k then nd else (S nd.1, kv_set fl k (to_json js) nd.2)
  end.

(** A delete that fails is counted all the same. *)
Definition cleanup_visit (get : string -> db -> option string) (fl : faults) (cutoff : Z) (nd : nat * db) (k : string) : nat * db :=
  match get k nd.2 ≫= unmarshal with
  | None => nd
  | Some js => if job_old cutoff js then (S nd.1, kv_del fl k nd.2) else nd
  end.

(** A scan is its pages, with the clock read after each, and whether it fails at the end. *)
Record scan : Type := mkScan { sc_pages : list (Z * list string); sc_failed : bool }.

Definition redis_List (fl : faults) (sc : scan) (d : db) : list (JobState A) * bool :=
  ((sc_pages sc) ≫= (fun p => list_keys (redis_get fl) p.2 d), sc_failed sc).

Definition redis_ReapStale (fl : faults) (maxRetries : Z) (sc : scan) (d : db) : nat * db * bool :=
  (foldl (fun nd p => foldl (reap_visit (redis_get fl) fl p.1 maxRetries) nd p.2) (0%nat, d) (sc_pages sc), sc_failed sc).

Definition redis_Cleanup (fl : faults) (now ttl : Z) (sc : scan) (d : db) : nat * db * bool :=
  (foldl (fun nd p => foldl (cleanup_visit (redis_get fl) fl (now - ttl)) nd p.2) (0%nat, d) (sc_pages sc), sc_failed sc).

(** ** NATS: the same under the plain id, in a bucket that lists its keys *)

Definition nats_get (fl : faults) (k : string) (d : db) : option string := if f_get fl k then None else d !! k.

Definition nats_Create (fl : faults) (now : Z) (id : string) (d : db) : JobState A * db :=
  let js := new_job now id in (js, kv_set fl id (to_json js) d).

Definition nats_Get (fl : faults) (id : string) (d : db) : option (JobState A) := data ← nats_get fl id d; unmarshal data.

Definition nats_Update (fl : faults) (timeout n1 n2 : Z) (id : string) (st : JobStatus) (res : option A) (err : string) (d : db) : db :=
  match nats_Get fl id d with
  | None => d
  | Some js => kv_set fl id (to_json (update_job timeout n1 n2 st res err js)) d
  end.

Definition nats_Delete (fl : faults) (id : string) (d : db) : db := kv_del fl id d.

(** [keys] is [None] when [KVKeys] fails. *)
Definition nats_List (fl : faults) (keys : option (list string)) (d : db) : option (list (JobState A)) :=
  keys ← keys; Some (list_keys (nats_get fl) keys d).

Definition nats_ReapStale (fl : faults) (now maxRetries : Z) (keys : option (list string)) (d : db) : nat * db * bool :=
  match keys with
  | None => (0%nat, d, true)
  | Some keys => (foldl (reap_visit (nats_get fl) fl now maxRetries) (0%nat, d) keys, false)
  end.

Definition nats_Cleanup (fl : faults) (now ttl : Z) (keys : option (list string)) (d : db) : nat * db * bool :=
  match keys with
  | None => (0%nat, d, true)
  | Some keys => (foldl (cleanup_visit (nats_get fl) fl (now - ttl)) (0%nat, d) keys, false)
  end.

(** ** The abstract store *)

(** A job as it is read back after it was written. *)
Definition stored (js : JobState A) : option (JobState A) := unmarshal (to_json js).

Definition put (id : string) (js : JobState A) (m : gmap string (JobState A)) : gmap string (JobState A) :=
  match stored js with Some js' => <[id := js']> m | None => delete id m end.

(** As [map_exec] of [JobStore], with jobs read back from JSON; a write through the pointer
    that [Create] returned does not reach the store. *)
Definition copy_exec (timeout : Z) (op : store_op A) (m : gmap string (JobState A)) : nat * gmap string (JobState A) :=
  match op with
  | SCreate now id => (0%nat, put id (new_job now id) m)
  | SPoke _ _ _ => (0%nat, m)
  | SUpdate n1 n2 id st res err =>
      (0%nat, match m !! id with Some js => put id (update_job timeout n1 n2 st res err js) m | None => m end)
  | SDelete id => (0%nat, delete id m)
  | SReap now mr =>
      (size (filter (fun '(_, js) => is_stale now js = true) m),
       omap (fun js => if is_stale now js then stored (reap_job now mr js) else Some js) m)
  | SCleanup now ttl =>
      (size (filter (fun '(_, js) => job_old (now - ttl) js = true) m),
       filter (fun '(_, js) => job_old (now - ttl) js = false) m)
  end.

End kv.

(** ** Visiting every key of a map, some more than once *)

Section visits.
Context {B : Type} (p : B -> bool) (f : B -> option B) (Hf : forall b b', p b = true -> f b = Some b' -> p b' = false).

Definition treat (b : B) : option B := if p b then f b else Some b.
Definition write_back (id : string) (b : option B) (m : gmap string B) : gmap string B := match b with Some b => <[id := b]> m | None => delete id m end.
Definition visit (nm : nat * gmap string B) (id : string) : nat * gmap string B :=
  match nm.2 !! id with
  | Some b => if p b then (S nm.1, write_back id (f b) nm.2) else nm
  | None => nm
  end.
Notation pending m := (size (filter (fun '(_, b) => p b = true) m)).

Lemma treat_treated b b' : treat b = Some b' -> treat b' = Some b'.
Proof. unfold treat. destruct (p b) eqn:E; [intros H%Hf; [by rewrite H|done]|intros [= <-]; by rewrite E]. Qed.

Lemma write_back_lookup id b m id' : write_back id b m !! id' = if decide (id = id') then b else m !! id'.
Proof. unfold write_back. case_decide as E; [subst|]; destruct b; by simplify_map_eq. Qed.

Lemma pending_write id b m : m !! id = Some b -> p b = true -> S (pending (write_back id (f b) m)) = pending m.
Proof.
  intros Hm Hp. assert (E : filter (fun '(_, b) => p b = true) (write_back id (f b) m) = delete id (filter (fun '(_, b) => p b = true) m)).
  { unfold write_back. destruct (f b) as [b'|] eqn:Hb; [|by rewrite map_filter_delete].
    rewrite map_filter_insert_False by (rewrite (Hf _ _ Hp Hb); done). by rewrite map_filter_delete. }
  assert (Hin : filter (fun '(_, b) => p b = true) m !! id = Some b) by by apply map_lookup_filter_Some.
  rewrite E, map_size_delete_Some by (by eexists).
  assert (pending m <> 0%nat) by (intros Z; apply map_size_empty_inv in Z; by rewrite Z, lookup_empty in Hin). lia.
Qed.

Lemma visit_lookup nm id id' : (visit nm id).2 !! id' = if decide (id = id') then nm.2 !! id' ≫= treat else nm.2 !! id'.
Proof.
  unfold visit, treat. destruct (nm.2 !! id) as [b|] eqn:E; [destruct (p b) eqn:Hp|]; cbn.
  - rewrite write_back_lookup. case_decide as Ei; [subst|done]. rewrite E. cbn. by rewrite Hp.
  - case_decide; [subst|done]. rewrite E. cbn. by rewrite Hp.
  - case_decide; [subst|done]. by rewrite E.
Qed.

Lemma visit_count nm id : ((visit nm id).1 + pending (visit nm id).2 = nm.1 + pending nm.2)%nat.
Proof.
  unfold visit. destruct (nm.2 !! id) as [b|] eqn:E; [|done]. destruct (p b) eqn:Hp; [|done]. cbn [fst snd].
  pose proof (pending_write id b nm.2 E Hp). lia.
Qed.

Lemma visits_lookup ids : forall nm id, (foldl visit nm ids).2 !! id = if decide (id ∈ ids) then nm.2 !! id ≫= treat else nm.2 !! id.
Proof.
  induction ids as [|i ids IH]; intros nm id; cbn; [by rewrite decide_False by apply not_elem_of_nil|].
  rewrite IH, visit_lookup. destruct (decide (i = id)) as [->|Hne].
  - rewrite (decide_True (P := id ∈ id :: ids)) by set_solver. case_decide; [|done].
    destruct (nm.2 !! id) as [b|]; [|done]. cbn. destruct (treat b) eqn:E; [|done]. cbn. by eapply treat_treated.
  - destruct (decide (id ∈ ids)); [by rewrite decide_True by set_solver|by rewrite decide_False by set_solver].
Qed.

Lemma visits_count ids : forall nm, ((foldl visit nm ids).1 + pending (foldl visit nm ids).2 = nm.1 + pending nm.2)%nat.
Proof. induction ids as [|i ids IH]; intros nm; cbn; [done|]. rewrite IH. apply visit_count. Qed.

(** Whatever the order and the repetitions, every entry is treated once. *)
Lemma visits_all ids m : (forall id, is_Some (m !! id) -> id ∈ ids) -> foldl visit (0%nat, m) ids = (pending m, omap treat m).
Proof.
  intros Hc. assert (E : (foldl visit (0%nat, m) ids).2 = omap treat m).
  { apply map_eq. intros id. rewrite visits_lookup, lookup_omap. cbn. case_decide as Hi; [done|].
    destruct (m !! id) eqn:Hm; [|done]. by destruct Hi; apply Hc. }
  pose proof (visits_count ids (0%nat, m)) as Hn. rewrite E in Hn. cbn in Hn.
  assert (Z : pending (omap treat m) = 0%nat).
  { apply map_size_empty_iff, map_empty. intros id. apply eq_None_not_Some. intros [b Hb]. apply map_lookup_filter_Some in Hb as [Hb Hp'].
    rewrite lookup_omap in Hb. apply bind_Some in Hb as (b0 & _ & Ht). apply treat_treated in Ht. unfold treat in Ht. rewrite Hp' in Ht. apply Hf in Ht; congruence. }
  destruct (foldl visit _ ids) as [n m']. cbn in *. f_equal; [lia|done].
Qed.
End visits.

(** ** Refinement *)

Section refine.
Context {A : Type} (marshal : JobState A -> option string) (unmarshal : string -> option (JobState A)).
Notation stored := (stored marshal unmarshal).
Notation to_json := (to_json marshal).

(** What the stores need of the codec: no JSON text is empty, and a status is read back. *)
Context (Hempty : unmarshal "" = None) (Hstatus : forall js js', stored js = Some js' -> js_Status js' = js_Status js).

Context (key : string -> string) `{!Inj (=) (=) key} (get : string -> db -> option string)
  (Hget : forall k d, get k d ≫= unmarshal = d !! k ≫= unmarshal).

Definition holds (d : db) (m : gmap string (JobState A)) : Prop := forall id, m !! id = d !! key id ≫= unmarshal.

(** Keys that are not those of jobs. *)
Definition same_others (d d' : db) : Prop := forall k, (forall id, k <> key id) -> d' !! k = d !! k.

Lemma holds_set d m id js : holds d m -> holds (<[key id := to_json js]> d) (write_back id (stored js) m).
Proof.
  intros H id'. rewrite write_back_lookup. case_decide as E; [subst; by rewrite lookup_insert_eq|].
  rewrite lookup_insert_ne by (by intros ?%(inj key)). apply H.
Qed.

Lemma holds_del d m id : holds d m -> holds (delete (key id) d) (delete id m).
Proof.
  intros H id'. destruct (decide (id = id')) as [->|]; [by rewrite !lookup_delete_eq|].
  rewrite !lookup_delete_ne by (done || by intros ?%(inj key)). apply H.
Qed.

Lemma others_set d id v : same_others d (<[key id := v]> d).
Proof. intros k Hk. apply lookup_insert_ne, not_eq_sym, Hk. Qed.
Lemma others_del d id : same_others d (delete (key id) d).
Proof. intros k Hk. apply lookup_delete_ne, not_eq_sym, Hk. Qed.
Lemma others_trans d d1 d2 : same_others d d1 -> same_others d1 d2 -> same_others d d2.
Proof. intros H1 H2 k Hk. by rewrite H2, H1. Qed.

Definition tracks (nd : nat * db) (nm : nat * gmap string (JobState A)) (d0 : db) : Prop := nd.1 = nm.1 /\ holds nd.2 nm.2 /\ same_others d0 nd.2.

Lemma reap_visit_tracks now mr d0 nd nm id : tracks nd nm d0 ->
  tracks (reap_visit marshal unmarshal get no_faults now mr nd (key id)) (visit (is_stale now) (fun js => stored (reap_job now mr js)) nm id) d0.
Proof.
  intros (E1 & E2 & E3). unfold reap_visit, reap_decide, visit. rewrite (E2 id), <- Hget. destruct (get (key id) nd.2) as [data|]; cbn; [|done].
  destruct (unmarshal data) as [js|]; cbn; [|done]. destruct (is_stale now js); [|done]. unfold kv_set. cbn.
  split; [by rewrite <- E1|]. split; [by apply holds_set|]. eapply others_trans; [done|apply others_set].
Qed.

Lemma cleanup_visit_tracks cutoff d0 nd nm id : tracks nd nm d0 ->
  tracks (cleanup_visit unmarshal get no_faults cutoff nd (key id)) (visit (job_old cutoff) (fun _ => None) nm id) d0.
Proof.
  intros (E1 & E2 & E3). unfold cleanup_visit, visit. rewrite (E2 id), <- Hget. destruct (get (key id) nd.2 ≫= unmarshal) as [js|]; cbn; [|done].
  destruct (job_old cutoff js); [|done]. unfold kv_del. cbn.
  split; [by rewrite <- E1|]. split; [by apply holds_del|]. eapply others_trans; [done|apply others_del].
Qed.

Lemma fold_tracks (f : nat * db -> string -> nat * db) g d0 ids : (forall nd nm id, tracks nd nm d0 -> tracks (f nd (key id)) (g nm id) d0) ->
  forall nd nm, tracks nd nm d0 -> tracks (foldl f nd (key <$> ids)) (foldl g nm ids) d0.
Proof. intros Hs. induction ids as [|i ids IH]; intros nd nm H; cbn; [done|]. by apply IH, Hs. Qed.

Lemma treat_filter cutoff (m : gmap string (JobState A)) :
  omap (treat (job_old cutoff) (fun _ => None)) m = filter (fun '(_, js) => job_old cutoff js = false) m.
Proof.
  apply map_eq. intros id. apply option_eq. intros js. rewrite lookup_omap, bind_Some, map_lookup_filter_Some. unfold treat. split.
  - intros (js0 & Hm & E). destruct (job_old cutoff js0) eqn:Ho; [done|]. by simplify_eq.
  - intros [Hm E]. exists js. by rewrite E.
Qed.

(** A list of keys that covers the jobs. *)
Definition covers (d : db) (ids : list string) : Prop := forall id, is_Some (d !! key id) -> id ∈ ids.

Lemma reap_fold_refines now mr d m ids : holds d m -> covers d ids ->
  tracks (foldl (reap_visit marshal unmarshal get no_faults now mr) (0%nat, d) (key <$> ids)) (copy_exec marshal unmarshal 0 (SReap now mr) m) d.
Proof.
  intros H Hc. pose proof (fold_tracks _ _ d ids (fun nd nm id => reap_visit_tracks now mr d nd nm id) (0%nat, d) (0%nat, m)) as T.
  rewrite visits_all in T; [by apply T| |].
  - intros js js' S E%Hstatus. unfold is_stale. rewrite E. unfold reap_job. rewrite S. cbn. by destruct (mr <=? js_RetryCount js).
  - intros id [js Hm]. apply Hc. rewrite (H id) in Hm. destruct (d !! key id); [by eexists|done].
Qed.

Lemma cleanup_fold_refines now ttl d m ids : holds d m -> covers d ids ->
  tracks (foldl (cleanup_visit unmarshal get no_faults (now - ttl)) (0%nat, d) (key <$> ids)) (copy_exec marshal unmarshal 0 (SCleanup now ttl) m) d.
Proof.
  intros H Hc. pose proof (fold_tracks _ _ d ids (fun nd nm id => cleanup_visit_tracks (now - ttl) d nd nm id) (0%nat, d) (0%nat, m)) as T.
  rewrite visits_all, treat_filter in T; [by apply T|done|].
  intros id [js Hm]. apply Hc. rewrite (H id) in Hm. destruct (d !! key id); [by eexists|done].
Qed.

(** One operation of a client of such a store.  [reap] and [cleanup] give the keys visited. *)
Lemma update_refines timeout n1 n2 id st res err d m : holds d m ->
  tracks (0%nat, match get (key id) d ≫= unmarshal with
                 | None => d
                 | Some js => <[key id := to_json (update_job timeout n1 n2 st res err js)]> d end)
    (copy_exec marshal unmarshal timeout (SUpdate n1 n2 id st res err) m) d.
Proof.
  intros H. cbn. rewrite Hget, <- (H id). destruct (m !! id) as [js|]; [|done]. split; [done|]. split; [by apply holds_set|apply others_set].
Qed.
End refine.

Lemma run_tracks {A} (marshal : JobState A -> option string) unmarshal key timeout (exec : store_op A -> db -> nat * db) :
  (forall op d m, holds unmarshal key d m -> tracks unmarshal key (exec op d) (copy_exec marshal unmarshal timeout op m) d) ->
  forall ops d m, holds unmarshal key d m ->
  let r := run_ops exec ops d in let q := run_ops (copy_exec marshal unmarshal timeout) ops m in
  r.1 = q.1 /\ holds unmarshal key r.2 q.2 /\ same_others key d r.2.
Proof.
  intros Hx. induction ops as [|op ops IH]; intros d m H; [done|]. cbn [run_ops].
  destruct (Hx op d m H) as (E1 & E2 & E3). destruct (exec op d) as [n d1], (copy_exec _ _ _ op m) as [n' m1]. cbn [fst snd] in *.
  destruct (IH d1 m1 E2) as (F1 & F2 & F3). destruct (run_ops exec ops d1), (run_ops _ ops m1). cbn in *.
  split; [congruence|]. split; [done|]. by eapply others_trans.
Qed.

Section stores.
Context {A : Type} (marshal : JobState A -> option string) (unmarshal : string -> option (JobState A)).

(** The codec: no JSON text is empty, and a status that was written is read back, as is the
    absence of a callback URL. *)
Record codec_ok : Prop := mkCodec {
  co_empty : unmarshal "" = None;
  co_status : forall js js', stored marshal unmarshal js = Some js' -> js_Status js' = js_Status js;
  co_callback : forall js js', stored marshal unmarshal js = Some js' -> js_CallbackURL js = "" -> js_CallbackURL js' = ""
}.

(** The clients of the servers: the pages of a scan, the keys of a bucket. *)
Context (prefix : string) (timeout : Z) (scan_of : Z -> db -> scan) (keys_of : db -> list string).

(** A scan returns every key that stays in the database, some possibly more than once. *)
Definition scan_ok : Prop := forall now d, sc_failed (scan_of now d) = false /\ Forall (fun p => p.1 = now) (sc_pages (scan_of now d)) /\
  exists ids, (sc_pages (scan_of now d) ≫= snd) = redis_key prefix <$> ids /\ covers (redis_key prefix) d ids.

Definition keys_ok : Prop := forall d k, is_Some (d !! k) -> k ∈ keys_of d.

Definition redis_exec (op : store_op A) (d : db) : nat * db :=
  match op with
  | SCreate now id => (0%nat, (redis_Create marshal prefix no_faults now id d).2)
  | SPoke _ _ _ => (0%nat, d)
  | SUpdate n1 n2 id st res err => (0%nat, redis_Update marshal unmarshal prefix no_faults timeout n1 n2 id st res err d)
  | SDelete id => (0%nat, redis_Delete prefix no_faults id d)
  | SReap now mr => (redis_ReapStale marshal unmarshal no_faults mr (scan_of now d) d).1
  | SCleanup now ttl => (redis_Cleanup unmarshal no_faults now ttl (scan_of now d) d).1
  end.

Definition nats_exec (op : store_op A) (d : db) : nat * db :=
  match op with
  | SCreate now id => (0%nat, (nats_Create marshal no_faults now id d).2)
  | SPoke _ _ _ => (0%nat, d)
  | SUpdate n1 n2 id st res err => (0%nat, nats_Update marshal unmarshal no_faults timeout n1 n2 id st res err d)
  | SDelete id => (0%nat, nats_Delete no_faults id d)
  | SReap now mr => (nats_ReapStale marshal unmarshal no_faults now mr (Some (keys_of d)) d).1
  | SCleanup now ttl => (nats_Cleanup unmarshal no_faults now ttl (Some (keys_of d)) d).1
  end.

Lemma fold_pages {X} (f : Z -> X -> string -> X) now (pages : list (Z * list string)) : Forall (fun p => p.1 = now) pages ->
  forall x, foldl (fun x p => foldl (f p.1) x p.2) x pages = foldl (f now) x (pages ≫= snd).
Proof. induction 1 as [|p pages Hp _ IH]; intros x; cbn; [done|]. by rewrite IH, foldl_app, Hp. Qed.

Lemma redis_get_ok : codec_ok -> forall k d, redis_get no_faults k d ≫= unmarshal = d !! k ≫= unmarshal.
Proof. intros [He _ _] k d. cbn. by destruct (d !! k). Qed.

Lemma redis_exec_tracks : codec_ok -> scan_ok -> forall op d m, holds unmarshal (redis_key prefix) d m ->
  tracks unmarshal (redis_key prefix) (redis_exec op d) (copy_exec marshal unmarshal timeout op m) d.
Proof.
  intros Hco Hsc op d m H. pose proof (redis_get_ok Hco) as Hg. assert (Hi : Inj (=) (=) (redis_key prefix)) by apply _.
  destruct op as [now id|id cb mr|n1 n2 id st res err|id|now mr|now ttl].
  - split; [done|]. split; [by apply (holds_set marshal unmarshal (redis_key prefix))|apply others_set].
  - by split.
  - exact (update_refines marshal unmarshal (redis_key prefix) _ Hg timeout n1 n2 id st res err d m H).
  - split; [done|]. split; [by apply holds_del|apply others_del].
  - destruct (Hsc now d) as (_ & Ht & ids & Hk & Hc). cbn [redis_exec]. unfold redis_ReapStale. cbn [fst].
    rewrite (fold_pages (fun t => reap_visit marshal unmarshal (redis_get no_faults) no_faults t mr) now) by done. rewrite Hk.
    by apply (reap_fold_refines marshal unmarshal (co_status Hco) (redis_key prefix) _ Hg now mr d m ids).
  - destruct (Hsc now d) as (_ & Ht & ids & Hk & Hc). cbn [redis_exec]. unfold redis_Cleanup. cbn [fst].
    rewrite (fold_pages (fun _ => cleanup_visit unmarshal (redis_get no_faults) no_faults (now - ttl)) now) by done. rewrite Hk.
    by apply (cleanup_fold_refines marshal unmarshal (redis_key prefix) _ Hg now ttl d m ids).
Qed.

Lemma nats_exec_tracks : codec_ok -> keys_ok -> forall op d m, holds unmarshal id d m ->
  tracks unmarshal id (nats_exec op d) (copy_exec marshal unmarshal timeout op m) d.
Proof.
  intros Hco Hks op d m H. assert (Hg : forall k d, nats_get no_faults k d ≫= unmarshal = d !! k ≫= unmarshal) by done.
  destruct op as [now i|i cb mr|n1 n2 i st res err|i|now mr|now ttl].
  - split; [done|]. split; [by apply (holds_set marshal unmarshal id)|apply (others_set id)].
  - by split.
  - exact (update_refines marshal unmarshal id _ Hg timeout n1 n2 i st res err d m H).
  - split; [done|]. split; [by apply (holds_del unmarshal id)|apply (others_del id)].
  - pose proof (reap_fold_refines marshal unmarshal (co_status Hco) id _ Hg now mr d m (keys_of d) H (Hks d)) as T. by rewrite list_fmap_id in T.
  - pose proof (cleanup_fold_refines marshal unmarshal id _ Hg now ttl d m (keys_of d) H (Hks d)) as T. by rewrite list_fmap_id in T.
Qed.

Definition is_poke (op : store_op A) : bool := match op with SPoke _ _ _ => true | _ => false end.

(** Over a codec that keeps jobs as they are, the abstract store is that of [JobStore]. *)
Lemma copy_exec_exact ops : (forall js, stored marshal unmarshal js = Some js) -> Forall (fun op => is_poke op = false) ops ->
  forall m, run_ops (copy_exec marshal unmarshal timeout) ops m = run_ops (map_exec timeout) ops m.
Proof.
  intros Hx. induction 1 as [|op ops Hp _ IH]; intros m; [done|]. cbn [run_ops].
  assert (E : copy_exec marshal unmarshal timeout op m = map_exec timeout op m).
  { destruct op as [now i|i cb mr|n1 n2 i st res err|i|now mr|now ttl]; cbn in *; unfold put; rewrite ?Hx; try done.
    - destruct (m !! i) as [js|] eqn:Hm; [|by rewrite alter_absent]. rewrite Hx. f_equal. apply map_eq. intros j.
      destruct (decide (i = j)) as [<-|]; [by rewrite lookup_insert_eq, lookup_alter_eq, Hm|by rewrite lookup_insert_ne, lookup_alter_ne].
    - f_equal. apply map_eq. intros j. rewrite lookup_omap, lookup_fmap. destruct (m !! j) as [js|]; [|done]. cbn. rewrite Hx.
      unfold reap_job. by destruct (is_stale now js). }
  rewrite E. destruct (map_exec timeout op m) as [n m1]. by rewrite IH.
Qed.

(** The Redis and the NATS store implement the same map from ids to jobs.  When no call
    fails and the clock reads the same during a scan, after any operations of a client that
    change the store, from stores without jobs, both return the same counts from
    [ReapStale] and [Cleanup] and the same jobs from [Get], those of the map; a Redis database
    keeps all keys that are not those of jobs, whatever pages a scan returns and however
    often it repeats a key.  When JSON keeps the jobs as they are and the client does not
    write through the pointers it gets, that map is the one the in-memory store implements. *)
Theorem kv_stores_refine_map (ops : list (store_op A)) (d : db) :
  codec_ok -> scan_ok -> keys_ok -> (forall id, d !! redis_key prefix id = None) ->
  let q := run_ops (copy_exec marshal unmarshal timeout) ops ∅ in
  let r := run_ops redis_exec ops d in
  let n := run_ops nats_exec ops ∅ in
  r.1 = q.1 /\ n.1 = q.1 /\
  (forall id, redis_Get unmarshal prefix no_faults id r.2 = q.2 !! id /\ nats_Get unmarshal no_faults id n.2 = q.2 !! id) /\
  (forall k, (forall id, k <> redis_key prefix id) -> r.2 !! k = d !! k) /\
  ((forall js, stored marshal unmarshal js = Some js) -> Forall (fun op => is_poke op = false) ops -> q = run_ops (map_exec timeout) ops ∅).
Proof.
  intros Hco Hsc Hks Hd q r n.
  destruct (run_tracks marshal unmarshal _ timeout redis_exec (redis_exec_tracks Hco Hsc) ops d ∅) as (R1 & R2 & R3).
  { intros id. by rewrite Hd, lookup_empty. }
  destruct (run_tracks marshal unmarshal _ timeout nats_exec (nats_exec_tracks Hco Hks) ops ∅ ∅) as (N1 & N2 & N3).
  { intros id'. by rewrite !lookup_empty. }
  split; [exact R1|]. split; [exact N1|]. split; [|split; [exact R3|intros Hx Hp; by apply copy_exec_exact]].
  intros i. split; [|exact (eq_sym (N2 i))]. etrans; [apply (redis_get_ok Hco)|exact (eq_sym (R2 i))].
Qed.

(** Whatever fails, a visit of [ReapStale] writes the key it visits or nothing, and counts
    exactly its writes. *)
Theorem reap_visit_faults get fl now mr nd k :
  reap_visit marshal unmarshal get fl now mr nd k = nd \/
  exists js, reap_decide unmarshal now mr (get k nd.2) = Some js /\ f_set fl k = false /\
    reap_visit marshal unmarshal get fl now mr nd k = (S nd.1, <[k := to_json marshal js]> nd.2).
Proof.
  unfold reap_visit, kv_set. destruct (reap_decide _ _ _ _) as [js|]; [|by left]. destruct (f_set fl k) eqn:E; [by left|right]. eauto.
Qed.

Lemma copy_no_callback (Hco : codec_ok) ops : forall m id js, map_Forall (fun _ js => js_CallbackURL js = "") m ->
  (run_ops (copy_exec marshal unmarshal timeout) ops m).2 !! id = Some js -> js_CallbackURL js = "".
Proof.
  induction ops as [|op ops IH]; intros m i js Hm H; cbn [run_ops] in H; [by eapply Hm|].
  assert (Hput : forall j js, js_CallbackURL js = "" -> map_Forall (fun _ js => js_CallbackURL js = "") (put marshal unmarshal j js m)).
  { intros j js0 E. unfold put. destruct (stored marshal unmarshal js0) as [js'|] eqn:Es; [|by apply map_Forall_delete].
    apply map_Forall_insert_2; [by eapply (co_callback Hco)|done]. }
  assert (Hall : map_Forall (fun _ js => js_CallbackURL js = "") (copy_exec marshal unmarshal timeout op m).2).
  { destruct op as [now j|j cb mr|n1 n2 j st res err|j|now mr|now ttl]; cbn.
    - by apply Hput.
    - done.
    - destruct (m !! j) as [js0|] eqn:Ej; [|done]. apply Hput. exact (Hm _ _ Ej).
    - by apply map_Forall_delete.
    - intros j js' Hj. rewrite lookup_omap in Hj. apply bind_Some in Hj as (js0 & Hj & E). destruct (is_stale now js0) eqn:S; [|simplify_eq; by eapply Hm].
      eapply (co_callback Hco); [exact E|]. unfold reap_job. rewrite S. cbn. destruct (mr <=? js_RetryCount js0); exact (Hm _ _ Hj).
    - intros j js' [Hj _]%map_lookup_filter_Some. by eapply Hm. }
  destruct (copy_exec _ _ _ op m) as [c m1]. specialize (IH m1 i js Hall). destruct (run_ops _ ops m1) as [ns m2]. by apply IH.
Qed.

(** Differences between these stores and the in-memory one.  A callback URL sent with a
    request is written through the pointer [Create] returned: of a job in Redis or NATS it is
    forgotten, and only a URL of the
    configuration is ever called.  A result that JSON cannot represent replaces
    the job by an empty text, after which it does not exist.  A job that is completed between
    the read and the write of [ReapStale] loses its result. *)
Theorem kv_stores_gaps (Hco : codec_ok) (d : db) :
  (forall ops id callback resp url secret n ok,
     notifyCallback callback ((run_ops (copy_exec marshal unmarshal timeout) ops ∅).2 !! id) resp = NotifyPosted url secret n ok ->
     exists conf, callback = Some conf /\ url = AsyncCallbackConf_URL conf) /\
  (forall n1 n2 id st res err js, redis_Get unmarshal prefix no_faults id d = Some js ->
     marshal (update_job timeout n1 n2 st res err js) = None ->
     redis_Get unmarshal prefix no_faults id (redis_Update marshal unmarshal prefix no_faults timeout n1 n2 id st res err d) = None) /\
  (forall now mr n1 n2 id res js new,
     redis_Get unmarshal prefix no_faults id d = Some js -> reap_decide unmarshal now mr (redis_get no_faults (redis_key prefix id) d) = Some new ->
     let d1 := redis_Update marshal unmarshal prefix no_faults timeout n1 n2 id JobCompleted res "" d in
     let d2 := kv_set no_faults (redis_key prefix id) (to_json marshal new) d1 in
     redis_Get unmarshal prefix no_faults id d2 = stored marshal unmarshal new /\ js_Status new <> JobCompleted /\ js_Result new = js_Result js).
Proof.
  split_and!.
  - intros ops i callback resp url secret n ok. destruct (_ !! i) as [js|] eqn:E; [|done]. cbn.
    rewrite (copy_no_callback Hco ops ∅ i js (map_Forall_empty _) E). cbn. destruct callback as [conf|]; [|done].
    destruct (_ =? "")%string; [done|]. destruct (callback_attempts _ _ _). intros [= <- _ _ _]. eauto.
  - intros n1 n2 id st res err js Hj Hm. unfold redis_Update. rewrite Hj. unfold kv_set, redis_Get, to_json. rewrite Hm. cbn.
    rewrite lookup_insert_eq. cbn. apply (co_empty Hco).
  - intros now mr n1 n2 id res js new Hj Hr d1 d2. unfold redis_Get in Hj. unfold reap_decide in Hr.
    destruct (redis_get no_faults (redis_key prefix id) d) as [data|]; [|done]. cbn in Hj, Hr. rewrite Hj in Hr. cbn in Hr.
    destruct (is_stale now js) eqn:S; [|done]. injection Hr as <-. split; [|unfold reap_job; rewrite S; cbn; by destruct (mr <=? js_RetryCount js)].
    unfold d2, kv_set, redis_Get. cbn. by rewrite lookup_insert_eq.
Qed.
End stores.

(** ** PostgreSQL *)

(** A row; [None] is NULL. *)
Record pg_row : Type := mkRow {
  pr_status : JobStatus; pr_result : option string; pr_error : option string; pr_created : Z; pr_updated : Z;
  pr_retry_count : Z; pr_max_retries : Z; pr_deadline : option Z
}.
#[export] Instance eta_pg_row : Eta pg_row := fun r =>
  mkRow (pr_status r) (pr_result r) (pr_error r) (pr_created r) (pr_updated r) (pr_retry_count r) (pr_max_retries r) (pr_deadline r).

Notation pg_table := (gmap string pg_row).

Section pg.
Context {A : Type} (marshalR : A -> option string) (unmarshalR : string -> option A).

(** The time a TIMESTAMPTZ column keeps of one it is given; the rows a [LIMIT 100] without an
    order selects. *)
Context (micros : Z -> Z) (limit : gset string -> gset string).

(** [fail]s are failing statements, [dbnow] is the clock of the server. *)
Definition pg_Create (fail : bool) (now : Z) (id : string) (t : pg_table) : JobState A * pg_table :=
  (new_job now id,
   if fail then t
   else match t !! id with
        | Some _ => t                                          (* ON CONFLICT DO NOTHING *)
        | None => <[id := mkRow JobPending None None (micros now) (micros now) 0 0 None]> t
        end).

Definition pg_job (id : string) (r : pg_row) : JobState A :=
  mkJobState id (pr_status r) (data ← pr_result r; if String.eqb data "" then None else unmarshalR data) (default "" (pr_error r))
    (pr_created r) (pr_updated r) (pr_retry_count r) (pr_max_retries r) (pr_deadline r) "".

Definition pg_Get (fail : bool) (id : string) (t : pg_table) : option (JobState A) := if fail then None else pg_job id <$> t !! id.

Definition pg_set (timeout now dbnow : Z) (st : JobStatus) (res : option A) (err : string) (r : pg_row) : pg_row :=
  r <| pr_status := st |> <| pr_result := res ≫= marshalR |> <| pr_error := Some err |> <| pr_updated := dbnow |>
    <| pr_deadline := if decide (st = JobProcessing) then Some (micros (now + timeout)) else None |>.

Definition pg_Update (fail : bool) (timeout now dbnow : Z) (id : string) (st : JobStatus) (res : option A) (err : string) (t : pg_table) : pg_table :=
  if fail then t else alter (pg_set timeout now dbnow st res err) id t.

Definition pg_Delete (fail : bool) (id : string) (t : pg_table) : pg_table := if fail then t else delete id t.

Definition pg_expired (dbnow : Z) (r : pg_row) : bool :=
  bool_decide (pr_status r = JobProcessing) && match pr_deadline r with Some dl => dl <? dbnow | None => false end.

Definition pg_requeue (dbnow : Z) (r : pg_row) : pg_row :=
  r <| pr_status := JobPending |> <| pr_retry_count := pr_retry_count r + 1 |> <| pr_deadline := None |> <| pr_updated := dbnow |>.
Definition pg_exhaust (dbnow : Z) (r : pg_row) : pg_row :=
  r <| pr_status := JobFailed |> <| pr_error := Some "max retries exceeded" |> <| pr_deadline := None |> <| pr_updated := dbnow |>.

(** [WITH expired AS (SELECT id ... LIMIT 100) UPDATE ... FROM expired ...] *)
Definition pg_update_some (sel : pg_row -> bool) (f : pg_row -> pg_row) (t : pg_table) : nat * pg_table :=
  let ids := limit (dom (filter (fun '(_, r) => sel r = true) t)) in
  (size ids, map_imap (fun id r => Some (if bool_decide (id ∈ ids) then f r else r)) t).

Definition pg_ReapStale (fail1 fail2 : bool) (dbnow maxRetries : Z) (t : pg_table) : nat * pg_table * bool :=
  if fail1 then (0%nat, t, true)
  else
    let '(n1, t1) := pg_update_some (fun r => pg_expired dbnow r && (pr_retry_count r <? maxRetries)) (pg_requeue dbnow) t in
    if fail2 then (n1, t1, true)
    else
      let '(n2, t2) := pg_update_some (fun r => pg_expired dbnow r && (maxRetries <=? pr_retry_count r)) (pg_exhaust dbnow) t1 in
      ((n1 + n2)%nat, t2, false).

Definition pg_old (cutoff : Z) (r : pg_row) : bool := is_terminal (pr_status r) && (pr_updated r <? cutoff).

Definition pg_Cleanup (fail : bool) (dbnow ttl : Z) (t : pg_table) : nat * pg_table * bool :=
  if fail then (0%nat, t, true)
  else (size (filter (fun '(_, r) => pg_old (dbnow - ttl) r = true) t), filter (fun '(_, r) => pg_old (dbnow - ttl) r = false) t, false).

(** The rows in some order of descending creation. *)
Definition pg_List (fail : bool) (order : list (string * pg_row) -> list (string * pg_row)) (t : pg_table) : option (list (JobState A)) :=
  if fail then None else Some ((fun '(id, r) => pg_job id r) <$> take 100 (order (map_to_list t))).

(** *** Refinement *)

Definition limit_ok : Prop := forall X, limit X ⊆ X /\ size (limit X) = Nat.min 100 (size X).

Definition pg_model (t : pg_table) : gmap string (JobState A) := map_imap (fun id r => Some (pg_job id r)) t.

Lemma pg_model_lookup t id : pg_model t !! id = pg_job id <$> t !! id.
Proof. unfold pg_model. rewrite map_lookup_imap. by destruct (t !! id). Qed.

Lemma update_some_lookup sel f t id : limit_ok ->
  (pg_update_some sel f t).2 !! id = t !! id \/ exists r, t !! id = Some r /\ sel r = true /\ (pg_update_some sel f t).2 !! id = Some (f r).
Proof.
  intros Hl. cbn. rewrite map_lookup_imap. destruct (t !! id) as [r|] eqn:E; [|by left]. cbn. case_bool_decide as Hi; [right|by left].
  apply (proj1 (Hl _)) in Hi. apply elem_of_dom in Hi as [r' Hi]. apply map_lookup_filter_Some in Hi as [Hi Hs]. simplify_eq. eauto.
Qed.

Lemma limit_all X : limit_ok -> (size X <= 100)%nat -> limit X = X.
Proof.
  intros Hl Hs. destruct (Hl X) as [Hi Hn]. apply set_subseteq_size_eq; [done|]. rewrite Hn. lia.
Qed.

Lemma update_some_all sel f t : limit_ok -> (size (filter (fun '(_, r) => sel r = true) t) <= 100)%nat ->
  pg_update_some sel f t = (size (filter (fun '(_, r) => sel r = true) t), (fun r => if sel r then f r else r) <$> t).
Proof.
  intros Hl Hs. unfold pg_update_some. rewrite limit_all by (done || by rewrite size_dom). rewrite size_dom. f_equal.
  apply map_eq. intros id. rewrite map_lookup_imap, lookup_fmap. destruct (t !! id) as [r|] eqn:E; [|done]. cbn.
  case_bool_decide as Hi; rewrite elem_of_dom in Hi.
  - destruct Hi as [r' Hi]. apply map_lookup_filter_Some in Hi as [Hi Hr]. simplify_eq. by rewrite Hr.
  - destruct (sel r) eqn:Hr; [|done]. destruct Hi. exists r. by apply map_lookup_filter_Some.
Qed.

Definition sel_requeue (dbnow mr : Z) (r : pg_row) : bool := pg_expired dbnow r && (pr_retry_count r <? mr).
Definition sel_exhaust (dbnow mr : Z) (r : pg_row) : bool := pg_expired dbnow r && (mr <=? pr_retry_count r).
Notation count_rows sel t := (size (filter (fun '(_, r) => sel r = true) t)).

Lemma filter_after_requeue dbnow mr t : limit_ok ->
  filter (fun '(_, r) => sel_exhaust dbnow mr r = true) (pg_update_some (sel_requeue dbnow mr) (pg_requeue dbnow) t).2 =
  filter (fun '(_, r) => sel_exhaust dbnow mr r = true) t.
Proof.
  intros Hl. apply map_eq. intros id. apply option_eq. intros r. rewrite !map_lookup_filter_Some.
  destruct (update_some_lookup (sel_requeue dbnow mr) (pg_requeue dbnow) t id Hl) as [->|(r0 & E & Hs & ->)]; [done|].
  rewrite E. unfold sel_requeue, sel_exhaust in *. split; intros [[= <-] H]; [done|]. rewrite andb_true_iff in *. lia.
Qed.

(** Away from the instant of its deadline, a row is expired when its job is stale. *)
Lemma expired_stale dbnow id r : pr_deadline r <> Some dbnow -> pg_expired dbnow r = is_stale dbnow (pg_job id r).
Proof.
  intros Hd. unfold pg_expired, is_stale. cbn. destruct (pr_deadline r) as [dl|]; [|done]. f_equal.
  assert (dl <> dbnow) by congruence. destruct (dl <? dbnow) eqn:?, (dbnow <? dl) eqn:?; cbn; lia.
Qed.

Lemma expired_is_stale dbnow id r : pg_expired dbnow r = true -> is_stale dbnow (pg_job id r) = true.
Proof. unfold pg_expired, is_stale. cbn. destruct (bool_decide _), (pr_deadline r) as [dl|]; cbn; intros; lia || done. Qed.

Lemma requeue_job dbnow mr id r : sel_requeue dbnow mr r = true -> pg_job id (pg_requeue dbnow r) = reap_job dbnow mr (pg_job id r).
Proof.
  intros [He Hr]%andb_true_iff. unfold reap_job. rewrite (expired_is_stale dbnow id r He). cbn. destruct (mr <=? pr_retry_count r) eqn:?; [lia|done].
Qed.
Lemma exhaust_job dbnow mr id r : sel_exhaust dbnow mr r = true -> pg_job id (pg_exhaust dbnow r) = reap_job dbnow mr (pg_job id r).
Proof. intros [He Hr]%andb_true_iff. unfold reap_job. rewrite (expired_is_stale dbnow id r He). cbn. by rewrite Hr. Qed.

(** [ReapStale] of the PostgreSQL store, however many jobs have expired: it reaps at most a
    hundred of those that may be retried and a hundred of those that may not, returns their
    number, turns each into the job the in-memory store would, and leaves every other job
    as it was. *)
Theorem pg_ReapStale_batches dbnow mr t : limit_ok ->
  let '(n, t', err) := pg_ReapStale false false dbnow mr t in
  err = false /\ n = (Nat.min 100 (count_rows (sel_requeue dbnow mr) t) + Nat.min 100 (count_rows (sel_exhaust dbnow mr) t))%nat /\
  forall id, t' !! id = t !! id \/
    exists r, t !! id = Some r /\ pg_expired dbnow r = true /\ pg_model t' !! id = Some (reap_job dbnow mr (pg_job id r)).
Proof.
  intros Hl. unfold pg_ReapStale.
  pose proof (filter_after_requeue dbnow mr t Hl) as Hf.
  pose proof (update_some_lookup (sel_requeue dbnow mr) (pg_requeue dbnow) t) as L1.
  pose proof (proj2 (Hl (dom (filter (fun '(_, r) => sel_requeue dbnow mr r = true) t)))) as N1.
  change (pg_update_some (fun r => pg_expired dbnow r && (pr_retry_count r <? mr)) (pg_requeue dbnow) t)
    with (pg_update_some (sel_requeue dbnow mr) (pg_requeue dbnow) t).
  change (fun r => pg_expired dbnow r && (mr <=? pr_retry_count r)) with (sel_exhaust dbnow mr).
  destruct (pg_update_some (sel_requeue dbnow mr) (pg_requeue dbnow) t) as [n1 t1] eqn:E1.
  pose proof (update_some_lookup (sel_exhaust dbnow mr) (pg_exhaust dbnow) t1) as L2.
  pose proof (proj2 (Hl (dom (filter (fun '(_, r) => sel_exhaust dbnow mr r = true) t1)))) as N2.
  destruct (pg_update_some (sel_exhaust dbnow mr) (pg_exhaust dbnow) t1) as [n2 t2] eqn:E2. cbn [snd] in *.
  apply (f_equal fst) in E1, E2. cbn in E1, E2. rewrite Hf in N2, E2. split; [done|].
  split; [rewrite <- E1, <- E2, N1, N2, !size_dom; done|].
  intros id. rewrite pg_model_lookup. destruct (L1 id Hl) as [H1|(r & Hr & Hs & H1)], (L2 id Hl) as [H2|(r2 & Hr2 & Hs2 & H2)]; rewrite H2.
  - by left.
  - right. exists r2. rewrite <- H1, <- (exhaust_job dbnow mr id r2 Hs2). apply andb_true_iff in Hs2 as [He _]. done.
  - right. exists r. rewrite H1, <- (requeue_job dbnow mr id r Hs). apply andb_true_iff in Hs as [He _]. done.
  - rewrite H1 in Hr2. by simplify_eq.
Qed.

(** One operation of a client, with the conditions under which times, results and counts are
    those of the in-memory store. *)
Definition pg_exec (timeout : Z) (op : store_op A) (t : pg_table) : nat * pg_table :=
  match op with
  | SCreate now id => (0%nat, (pg_Create false now id t).2)
  | SPoke _ _ _ => (0%nat, t)
  | SUpdate dbnow now id st res err => (0%nat, pg_Update false timeout now dbnow id st res err t)
  | SDelete id => (0%nat, pg_Delete false id t)
  | SReap dbnow mr => (pg_ReapStale false false dbnow mr t).1
  | SCleanup dbnow ttl => (pg_Cleanup false dbnow ttl t).1
  end.

Definition result_kept (res : option A) : Prop := (data ← res ≫= marshalR; if String.eqb data "" then None else unmarshalR data) = res.

Definition pg_exact (timeout : Z) (op : store_op A) (t : pg_table) : Prop :=
  match op with
  | SCreate now id => t !! id = None /\ micros now = now
  | SPoke _ _ _ => False
  | SUpdate _ now _ _ res _ => micros (now + timeout) = now + timeout /\ result_kept res
  | SReap dbnow mr =>
      (count_rows (sel_requeue dbnow mr) t <= 100)%nat /\ (count_rows (sel_exhaust dbnow mr) t <= 100)%nat /\
      map_Forall (fun _ r => pr_deadline r <> Some dbnow) t
  | _ => True
  end.

Fixpoint pg_exact_run (timeout : Z) (ops : list (store_op A)) (t : pg_table) : Prop :=
  match ops with [] => True | op :: ops => pg_exact timeout op t /\ pg_exact_run timeout ops (pg_exec timeout op t).2 end.

Lemma model_filter (P : pg_row -> bool) (Q : JobState A -> bool) (b : bool) t : (forall id r, t !! id = Some r -> P r = Q (pg_job id r)) ->
  filter (fun '(_, js) => Q js = b) (pg_model t) = pg_model (filter (fun '(_, r) => P r = b) t).
Proof.
  intros H. apply map_eq. intros id. apply option_eq. intros js. rewrite pg_model_lookup, map_lookup_filter_Some, pg_model_lookup, !fmap_Some.
  setoid_rewrite map_lookup_filter_Some. split.
  - intros [(r & Hr & ->) Hq]. exists r. split; [|done]. split; [done|]. by rewrite (H id r Hr).
  - intros (r & [Hr Hp] & ->). split; [eauto|]. by rewrite <- (H id r Hr).
Qed.

Lemma model_size t : size (pg_model t) = size t.
Proof.
  rewrite <- !size_dom. f_equal. apply set_eq. intros id. by rewrite !elem_of_dom, pg_model_lookup, fmap_is_Some.
Qed.

Lemma count_split dbnow mr (t : pg_table) : (count_rows (sel_requeue dbnow mr) t + count_rows (sel_exhaust dbnow mr) t)%nat = count_rows (pg_expired dbnow) t.
Proof.
  rewrite <- map_size_disj_union.
  - f_equal. apply map_eq. intros id. apply option_eq. intros r. rewrite lookup_union_Some_raw, map_lookup_filter_None, !map_lookup_filter_Some.
    unfold sel_requeue, sel_exhaust. split.
    + intros [[Hr H]|[_ [Hr H]]]; apply andb_true_iff in H as [H _]; done.
    + intros [Hr H]. destruct (pr_retry_count r <? mr) eqn:E; [left; by rewrite H|right]. split; [right|split; [done|rewrite H; cbn; lia]].
      intros r' Hr' X. simplify_eq. by rewrite E, andb_false_r in X.
  - apply map_disjoint_spec. intros id r r' [Hr H]%map_lookup_filter_Some [Hr' H']%map_lookup_filter_Some. simplify_eq.
    unfold sel_requeue, sel_exhaust in *. rewrite andb_true_iff in *. lia.
Qed.

Definition pg_reap (dbnow mr : Z) (r : pg_row) : pg_row :=
  if sel_requeue dbnow mr r then pg_requeue dbnow r else if sel_exhaust dbnow mr r then pg_exhaust dbnow r else r.

Lemma reap_exact dbnow mr t : limit_ok -> (count_rows (sel_requeue dbnow mr) t <= 100)%nat -> (count_rows (sel_exhaust dbnow mr) t <= 100)%nat ->
  (pg_ReapStale false false dbnow mr t).1 = (count_rows (pg_expired dbnow) t, pg_reap dbnow mr <$> t).
Proof.
  intros Hl C1 C2. unfold pg_ReapStale. pose proof (filter_after_requeue dbnow mr t Hl) as Hf.
  change (pg_update_some (fun r => pg_expired dbnow r && (pr_retry_count r <? mr)) (pg_requeue dbnow) t)
    with (pg_update_some (sel_requeue dbnow mr) (pg_requeue dbnow) t).
  change (fun r => pg_expired dbnow r && (mr <=? pr_retry_count r)) with (sel_exhaust dbnow mr).
  rewrite (update_some_all (sel_requeue dbnow mr)) in Hf |- * by done. cbn [snd] in Hf.
  rewrite update_some_all by (done || by rewrite Hf). cbn [fst]. rewrite Hf, count_split. f_equal.
  rewrite <- map_fmap_compose. apply map_fmap_ext. intros id r _. cbn. unfold pg_reap. by destruct (sel_requeue dbnow mr r).
Qed.

Lemma reap_job_model dbnow mr id r : pr_deadline r <> Some dbnow -> pg_job id (pg_reap dbnow mr r) = reap_job dbnow mr (pg_job id r).
Proof.
  intros Hd. unfold pg_reap. destruct (sel_requeue dbnow mr r) eqn:E1; [by apply requeue_job|].
  destruct (sel_exhaust dbnow mr r) eqn:E2; [by apply exhaust_job|]. unfold reap_job. rewrite <- (expired_stale dbnow id r Hd).
  unfold sel_requeue, sel_exhaust in *. destruct (pg_expired dbnow r); [cbn in *; lia|done].
Qed.

Lemma pg_step_refines timeout op t : limit_ok -> pg_exact timeout op t ->
  (pg_exec timeout op t).1 = (map_exec timeout op (pg_model t)).1 /\ pg_model (pg_exec timeout op t).2 = (map_exec timeout op (pg_model t)).2.
Proof.
  intros Hl Hx. destruct op as [now id|id cb mr|dbnow now id st res err|id|now mr|now ttl]; cbn [pg_exec map_exec fst snd] in *; [| done | | | |].
  - destruct Hx as [Hn Hm]. split; [done|]. cbn. rewrite Hn, Hm. apply map_eq. intros id'. rewrite pg_model_lookup.
    destruct (decide (id = id')) as [<-|]; [by rewrite !lookup_insert_eq|by rewrite !lookup_insert_ne, pg_model_lookup].
  - destruct Hx as [Hm Hr]. split; [done|]. cbn. apply map_eq. intros id'. rewrite pg_model_lookup.
    destruct (decide (id = id')) as [<-|]; [rewrite !lookup_alter_eq|by rewrite !lookup_alter_ne, pg_model_lookup].
    rewrite pg_model_lookup. destruct (t !! id) as [r|]; [|done]. cbn. unfold pg_job, update_job. cbn. by rewrite Hm, Hr.
  - split; [done|]. cbn. apply map_eq. intros id'. rewrite pg_model_lookup.
    destruct (decide (id = id')) as [<-|]; [by rewrite !lookup_delete_eq|by rewrite !lookup_delete_ne, pg_model_lookup].
  - destruct Hx as (C1 & C2 & Hd). rewrite reap_exact by done. cbn [fst snd]. split.
    + rewrite (model_filter (pg_expired now)), model_size; [done|]. intros id r Hr. apply expired_stale. by eapply Hd.
    + apply map_eq. intros id. rewrite pg_model_lookup, !lookup_fmap, pg_model_lookup. destruct (t !! id) as [r|] eqn:Hr; [|done]. cbn.
      f_equal. apply reap_job_model. by eapply Hd.
  - cbn. rewrite !(model_filter (pg_old (now - ttl))), model_size by done. done.
Qed.

(** The PostgreSQL store implements the map of the in-memory store: along any operations
    of a client that creates jobs under new ids, whose results JSON keeps, with times at the
    resolution of the server, no deadline at the very instant of a reap and at most a hundred
    expired jobs of each kind at a time, it returns the same counts and the same jobs. *)
Theorem pg_store_refines_map timeout ops : limit_ok -> forall t, pg_exact_run timeout ops t ->
  let r := run_ops (pg_exec timeout) ops t in
  let q := run_ops (map_exec timeout) ops (pg_model t) in
  r.1 = q.1 /\ forall id, pg_Get false id r.2 = q.2 !! id.
Proof.
  intros Hl. induction ops as [|op ops IH]; intros t Hx; cbn [run_ops]; [split; [done|intros id; symmetry; apply pg_model_lookup]|].
  destruct Hx as [Ho Hx]. destruct (pg_step_refines timeout op t Hl Ho) as [E1 E2]. specialize (IH _ Hx). rewrite E2 in IH.
  destruct (pg_exec timeout op t) as [n t1], (map_exec timeout op (pg_model t)) as [n' m1]. cbn [fst snd] in *.
  destruct (run_ops (pg_exec timeout) ops t1), (run_ops (map_exec timeout) ops m1). cbn in *. destruct IH as [-> H]. by rewrite E1.
Qed.

(** Creating a job under an id that exists keeps the row in PostgreSQL, while the caller is
    given a new pending job, and replaces the job in memory. *)
Theorem pg_Create_existing now id r t : t !! id = Some r ->
  pg_Get false id (pg_Create false now id t).2 = Some (pg_job id r) /\ js_Status (pg_Create false now id t).1 = JobPending /\
  (map_exec 0 (SCreate now id) (pg_model t)).2 !! id = Some (new_job now id).
Proof. intros H. cbn. rewrite H. cbn. rewrite H. split; [done|]. split; [done|]. apply lookup_insert_eq. Qed.
End pg.

(** ** Choosing a store *)

Definition default_timeout : Z := 5 * 60 * 10^9.

Definition getProcessingTimeout (ParseDuration : string -> option Z) (entry : EntryDef) : Z :=
  match EntryDef_AsyncStore entry with
  | Some st =>
      match AsyncStoreConf_Reassign st with
      | Some re =>
          let timeout := parseDurationDef ParseDuration (AsyncReassignConf_ProcessingTimeout re) in
          if timeout <=? 0 then default_timeout else timeout
      | None => default_timeout
      end
  | None => default_timeout
  end.

Inductive job_store :=
| StoreMemory (timeout : Z)
| StorePG (pool table : string) (timeout : Z)
| StoreRedis (kv prefix : string) (timeout : Z)
| StoreNATS (stream bucket : string) (timeout : Z).

(** The connections a service has: PostgreSQL pools, Redis clients, brokers (with whether
    they are NATS connections); whether the table and the bucket can be created. *)
Record connections : Type := mkConns {
  cn_pools : gset string; cn_kv : gset string; cn_brokers : gmap string bool; cn_table : string -> bool; cn_bucket : string -> bool
}.

Definition resolvePGStore (st : AsyncStoreConf) (cn : connections) (timeout : Z) : string + job_store :=
  if String.eqb (AsyncStoreConf_DB st) "" then inl "async_store: db is required for driver postgres"
  else if negb (bool_decide (AsyncStoreConf_DB st ∈ cn_pools cn)) then inl ("async_store: pool " +:+ AsyncStoreConf_DB st +:+ " not found")
  else
    let table := if String.eqb (AsyncStoreConf_Table st) "" then "async_jobs" else AsyncStoreConf_Table st in
    if negb (cn_table cn table) then inl "async_store: create pg table" else inr (StorePG (AsyncStoreConf_DB st) table timeout).

Definition resolveRedisStore (st : AsyncStoreConf) (cn : connections) (timeout : Z) : string + job_store :=
  if String.eqb (AsyncStoreConf_KV st) "" then inl "async_store: kv is required for driver redis"
  else if negb (bool_decide (AsyncStoreConf_KV st ∈ cn_kv cn)) then inl ("async_store: kv store " +:+ AsyncStoreConf_KV st +:+ " not found")
  else inr (StoreRedis (AsyncStoreConf_KV st) "job:" timeout).

Definition resolveNATSKVStore (st : AsyncStoreConf) (cn : connections) (timeout : Z) : string + job_store :=
  if String.eqb (AsyncStoreConf_Stream st) "" then inl "async_store: stream is required for driver nats_kv"
  else match cn_brokers cn !! AsyncStoreConf_Stream st with
  | None => inl ("async_store: stream " +:+ AsyncStoreConf_Stream st +:+ " not found")
  | Some false => inl ("async_store: stream " +:+ AsyncStoreConf_Stream st +:+ " is not a NATS connection")
  | Some true =>
      let bucket := if String.eqb (AsyncStoreConf_Bucket st) "" then "async-jobs" else AsyncStoreConf_Bucket st in
      if negb (cn_bucket cn bucket) then inl "async_store: ensure kv bucket" else inr (StoreNATS (AsyncStoreConf_Stream st) bucket timeout)
  end.

Definition resolveAsyncStore (ParseDuration : string -> option Z) (entry : EntryDef) (cn : connections) : string + job_store :=
  let timeout := getProcessingTimeout ParseDuration entry in
  match EntryDef_AsyncStore entry with
  | None => inr (StoreMemory timeout)
  | Some st =>
      let driver := AsyncStoreConf_Driver st in
      if String.eqb driver "" || String.eqb driver "memory" then inr (StoreMemory timeout)
      else if String.eqb driver "postgres" then resolvePGStore st cn timeout
      else if String.eqb driver "redis" then resolveRedisStore st cn timeout
      else if String.eqb driver "nats_kv" then resolveNATSKVStore st cn timeout
      else inl ("async_store: unknown driver " +:+ driver)
  end.

Definition store_timeout (s : job_store) : Z :=
  match s with StoreMemory t | StorePG _ _ t | StoreRedis _ _ t | StoreNATS _ _ t => t end.

(** Two asynchronous entries that name the same server share one store of jobs there: with
    Redis the prefix of the keys is always the same, with the others the default table and
    bucket are; the reaper of one entry then applies its deadline and its number of retries
    to the jobs of the other.  A resolved store always has a positive timeout. *)
Theorem stores_shared_between_entries ParseDuration cn e1 e2 st1 st2 s1 s2 :
  EntryDef_AsyncStore e1 = Some st1 -> EntryDef_AsyncStore e2 = Some st2 ->
  AsyncStoreConf_Driver st1 = "redis" -> AsyncStoreConf_Driver st2 = "redis" -> AsyncStoreConf_KV st1 = AsyncStoreConf_KV st2 ->
  resolveAsyncStore ParseDuration e1 cn = inr s1 -> resolveAsyncStore ParseDuration e2 cn = inr s2 ->
  exists kv, s1 = StoreRedis kv "job:" (store_timeout s1) /\ s2 = StoreRedis kv "job:" (store_timeout s2) /\ 0 < store_timeout s1 /\ 0 < store_timeout s2.
Proof.
  intros E1 E2 D1 D2 K. unfold resolveAsyncStore. rewrite E1, E2, D1, D2. cbn. unfold resolveRedisStore. rewrite K.
  assert (Hp : forall e, 0 < getProcessingTimeout ParseDuration e).
  { intros e. unfold getProcessingTimeout. destruct (EntryDef_AsyncStore e) as [st|]; [|done]. destruct (AsyncStoreConf_Reassign st) as [re|]; [|done].
    destruct (_ <=? 0) eqn:?; [done|lia]. }
  destruct (_ =? "")%string; [done|]. destruct (negb _); [done|]. intros [= <-] [= <-]. eexists. cbn. eauto.
Qed.

(** ** Witnesses *)

Definition demo_marshal (js : JobState nat) : option string :=
  Some (match js_Status js with JobPending => "pending" | JobProcessing => "processing" | JobCompleted => "completed" | JobFailed => "failed" end).
Definition demo_unmarshal (s : string) : option (JobState nat) :=
  st ← (if String.eqb s "pending" then Some JobPending else if String.eqb s "processing" then Some JobProcessing
        else if String.eqb s "completed" then Some JobCompleted else if String.eqb s "failed" then Some JobFailed else None);
  Some ((new_job 0 "j") <| js_Status := st |> <| js_ProcessingDeadline := Some 0 |>).

Lemma demo_codec : codec_ok demo_marshal demo_unmarshal.
Proof.
  split; [done| |].
  - intros js js'. unfold stored, to_json. cbn. destruct (js_Status js) eqn:E; vm_compute; by intros [= <-].
  - intros js js'. unfold stored, to_json. cbn. destruct (js_Status js) eqn:E; vm_compute; by intros [= <-].
Qed.

(** A scan that repeats every key. *)
Definition demo_scan (now : Z) (d : db) : scan :=
  let keys := (map_to_list d).*1 in mkScan [(now, redis_key "" <$> keys); (now, redis_key "" <$> keys)] false.

Lemma demo_scan_ok : scan_ok "" demo_scan.
Proof.
  intros now d. split; [done|]. split; [by repeat constructor|]. exists ((map_to_list d).*1 ++ (map_to_list d).*1). cbn.
  rewrite app_nil_r, fmap_app. split; [done|]. intros id [v Hv]. apply elem_of_app. left. apply list_elem_of_fmap. exists (id, v).
  by rewrite elem_of_map_to_list.
Qed.

Lemma demo_keys_ok : keys_ok (fun d => (map_to_list d).*1).
Proof. intros d k [v Hv]. apply list_elem_of_fmap. exists (k, v). by rewrite elem_of_map_to_list. Qed.

Definition demo_ops : list (store_op nat) := [SCreate 1 "j"; SUpdate 2 2 "j" JobProcessing None ""; SReap 3 1; SReap 4 1].

Lemma kv_stores_refine_map_witness :
  (run_ops (redis_exec demo_marshal demo_unmarshal "" 5 demo_scan) demo_ops ∅).1 = [0; 0; 1; 0]%nat /\
  (run_ops (nats_exec demo_marshal demo_unmarshal 5 (fun d => (map_to_list d).*1)) demo_ops ∅).1 = [0; 0; 1; 0]%nat.
Proof.
  destruct (kv_stores_refine_map demo_marshal demo_unmarshal "" 5 demo_scan (fun d => (map_to_list d).*1) demo_ops ∅
    demo_codec demo_scan_ok demo_keys_ok (fun id => lookup_empty _)) as (H1 & H2 & _).
  split; [etrans; [exact H1|]|etrans; [exact H2|]]; vm_compute; reflexivity.
Defined.

Lemma kv_stores_gaps_witness :
  (forall ops id callback resp url secret n ok,
     notifyCallback callback ((run_ops (copy_exec demo_marshal demo_unmarshal 5) ops ∅).2 !! id) resp = NotifyPosted url secret n ok ->
     exists conf, callback = Some conf /\ url = AsyncCallbackConf_URL conf).
Proof. apply (kv_stores_gaps demo_marshal demo_unmarshal "" 5 demo_codec ∅). Defined.

Definition demo_limit (X : gset string) : gset string := list_to_set (take 100 (elements X)).

Lemma demo_limit_ok : limit_ok demo_limit.
Proof.
  intros X. unfold demo_limit. split.
  - intros x Hx. apply elem_of_list_to_set, (subseteq_take 100) in Hx. by apply elem_of_elements.
  - rewrite size_list_to_set, length_take; [done|]. pose proof (NoDup_elements X) as H. rewrite <- (take_drop 100 (elements X)) in H. by apply NoDup_app in H as [H _].
Qed.

Definition demo_rows : pg_table := {["a" := mkRow JobProcessing None None 0 0 0 0 (Some 5); "b" := mkRow JobProcessing None None 0 0 2 0 (Some 5)]}.

Lemma pg_ReapStale_batches_witness :
  (pg_ReapStale demo_limit false false 9 2 demo_rows).1.1 = 2%nat /\
  forall id, (pg_ReapStale demo_limit false false 9 2 demo_rows).1.2 !! id = demo_rows !! id \/
    exists r, demo_rows !! id = Some r /\ pg_expired 9 r = true.
Proof.
  pose proof (pg_ReapStale_batches (A := nat) (fun _ => None) (fun z => z) demo_limit 9 2 demo_rows demo_limit_ok) as H.
  destruct (pg_ReapStale demo_limit false false 9 2 demo_rows) as [[n t'] err]. destruct H as (_ & -> & H).
  split; [vm_compute; reflexivity|]. intros id. destruct (H id) as [|(r & ? & ? & _)]; eauto.
Defined.

Definition demo_marshalR (n : nat) : option string := Some "1".
Definition demo_unmarshalR (s : string) : option nat := if String.eqb s "1" then Some 1%nat else None.

Definition demo_pg_ops : list (store_op nat) :=
  [SCreate 1 "j"; SUpdate 2 2 "j" JobProcessing None ""; SReap 9 3; SUpdate 10 10 "j" JobCompleted (Some 1%nat) ""; SCleanup 20 5].

Lemma pg_store_refines_map_witness :
  (run_ops (pg_exec demo_marshalR (fun z => z) demo_limit 5) demo_pg_ops ∅).1 = [0; 0; 1; 0; 1]%nat.
Proof.
  destruct (pg_store_refines_map demo_marshalR demo_unmarshalR (fun z => z) demo_limit 5 demo_pg_ops demo_limit_ok ∅) as [H _].
  - cbn [pg_exact_run demo_pg_ops pg_exact pg_exec]. split_and!; try done; try (vm_compute; lia).
    apply (bool_decide_unpack _). vm_compute. exact I.
  - etrans; [exact H|]. vm_compute. reflexivity.
Defined.
