(* ===== verification/SqlRewrite.v ===== *)
(** * Query translation between SQL dialects (db/query.go)

    Queries are written in PostgreSQL syntax and translated for MySQL and SQLite.  A
    query is a list of bytes; the source scans it with an index and only ever looks
    ahead, so the functions here take the bytes from that index on and return what is left
    after the part they consumed.  Changing case is that of ASCII, as the queries are. *)

From S2P Require Import Prelude GoStrings.
From Stdlib Require Import Ascii String.
From stdpp Require Import pretty.
#[local] Open Scope Z_scope.

Open Scope list_scope.

Definition bytes : Type := list ascii.
Definition lit (s : string) : bytes := list_ascii_of_string s.

(** ** What is used of package strings *)

Definition to_lower (c : ascii) : ascii := if is_upper c then add32 c else c.
Definition to_upper (c : ascii) : ascii :=
  if is_lower c then ascii_of_N (N_of_ascii c - 32) else c.
Definition ToLower (s : bytes) : bytes := to_lower <$> s.
Definition ToUpper (s : bytes) : bytes := to_upper <$> s.

(** The longest prefix of bytes that satisfy [p], and the rest. *)
Fixpoint span (p : ascii -> bool) (s : bytes) : bytes * bytes :=
  match s with
  | [] => ([], [])
  | c :: s' => if p c then let '(a, b) := span p s' in (c :: a, b) else ([], s)
  end.

Fixpoint has_prefix (p s : bytes) : bool :=
  match p, s with
  | [], _ => true
  | c :: p, d :: s => Ascii.eqb c d && has_prefix p s
  | _ :: _, [] => false
  end.

(** [strings.Index] *)
Fixpoint index (p s : bytes) : option nat :=
  if has_prefix p s then Some 0%nat
  else match s with [] => None | _ :: s => S <$> index p s end.

Definition is_space (c : ascii) : bool :=
  Ascii.eqb c " " || (N.leb 9 (N_of_ascii c) && N.leb (N_of_ascii c) 13).

Definition trim_right (p : ascii -> bool) (s : bytes) : bytes := reverse (span p (reverse s)).2.
Definition trim (p : ascii -> bool) (s : bytes) : bytes := trim_right p (span p s).2.
Definition TrimSpace (s : bytes) : bytes := trim is_space s.

(** [strings.Join] *)
Fixpoint join (sep : bytes) (l : list bytes) : bytes :=
  match l with
  | [] => []
  | [x] => x
  | x :: l => x ++ sep ++ join sep l
  end.

(** [strings.Fields]; the fuel is the length. *)
Fixpoint fields_loop (fuel : nat) (s : bytes) : list bytes :=
  match fuel, (span is_space s).2 with
  | S fuel, c :: s' => let '(w, rest) := span (negb ∘ is_space) (c :: s') in w :: fields_loop fuel rest
  | _, _ => []
  end.
Definition Fields (s : bytes) : list bytes := fields_loop (length s) s.

Definition trim_suffix_s (s : bytes) : bytes :=
  match reverse s with c :: r => if Ascii.eqb c "s" then reverse r else s | [] => s end.

(** ** Dialects *)

Inductive SQLDialect := DialectPostgres | DialectMySQL | DialectSQLite.

#[export] Instance SQLDialect_eq_dec : EqDecision SQLDialect.
Proof. solve_decision. Defined.

Definition DialectForDriver (driver : string) : SQLDialect :=
  if bool_decide (driver ∈ ["mysql"; "mariadb"]%string) then DialectMySQL
  else if bool_decide (driver ∈ ["turso"; "turso-serverless"; "libsql"; "go-libsql"; "sqlite"]%string) then DialectSQLite
  else DialectPostgres.

Definition Placeholder (d : SQLDialect) (i : nat) : bytes :=
  match d with DialectPostgres => lit "$" ++ lit (pretty i) | _ => lit "?" end.

Definition RandomUUIDExpr (d : SQLDialect) : bytes :=
  lit match d with
      | DialectMySQL => "(UUID())"
      | DialectSQLite => "(lower(hex(randomblob(16))))"
      | DialectPostgres => "gen_random_uuid()"
      end.

Definition Now (d : SQLDialect) : bytes :=
  lit match d with
      | DialectMySQL => "NOW()"
      | DialectSQLite => "CURRENT_TIMESTAMP"
      | DialectPostgres => "now()"
      end.

Definition isDigit (c : ascii) : bool := byte_le "0" c "9".
Definition isIdentStart (c : ascii) : bool := Ascii.eqb c "_" || is_lower c || is_upper c.
Definition isIdentPart (c : ascii) : bool := isIdentStart c || isDigit c.

(** [strconv.Atoi] on digits (a value too large for [int] is larger than any argument
    count in the source too). *)
Definition digits_value (ds : bytes) : Z :=
  foldl (fun (n : Z) c => n * 10 + Z.of_N (N_of_ascii c - 48))%Z 0%Z ds.

(** [strconv.Atoi] on any field: optional sign, then digits, within 64 bits. *)
Definition Atoi (s : bytes) : option Z :=
  let '(neg, ds) := match s with
                    | "-"%char :: ds => (true, ds)
                    | "+"%char :: ds => (false, ds)
                    | _ => (false, s)
                    end in
  if negb (bool_decide (ds = [])) && forallb isDigit ds then
    let n := if neg : bool then - digits_value ds else digits_value ds in
    if (-2^63 <=? n) && (n <? 2^63) then Some n else None
  else None.

Definition parseInterval (interval : bytes) : Z * bytes :=
  match Fields (TrimSpace interval) with
  | [] | [_] => (1, trim_suffix_s (ToLower interval))
  | f :: fs =>
      let unit := trim_suffix_s (ToLower (List.last fs [])) in
      match Atoi f with Some n => (n, unit) | None => (1, unit) end
  end.

Definition AddInterval (d : SQLDialect) (base interval : bytes) : bytes :=
  let '(amount, unit) := parseInterval interval in
  let amount := lit (pretty amount) in
  match d with
  | DialectMySQL => lit "DATE_ADD(" ++ base ++ lit ", INTERVAL " ++ amount ++ lit " " ++ ToUpper unit ++ lit ")"
  | DialectSQLite => lit "datetime(" ++ base ++ lit ", '+" ++ amount ++ lit " " ++ unit ++ lit "')"
  | DialectPostgres => lit "(" ++ base ++ lit " + interval '" ++ amount ++ lit " " ++ unit ++ lit "')"
  end.

(** ** The scanner *)

Definition skipSpace (s : bytes) : bytes := (span (fun c => Ascii.eqb c " ") s).2.

(** [s[i] == c], and the bytes after it. *)
Definition expect (c : ascii) (s : bytes) : option bytes :=
  match s with x :: r => if Ascii.eqb x c then Some r else None | [] => None end.

(** The argument number and the bytes after its last digit. *)
Definition takePlaceholder (query : bytes) (nargs : nat) : option (Z * bytes) :=
  rest ← expect "$" query;
  let '(ds, rest) := span isDigit rest in
  if bool_decide (ds = []) then None
  else
    let n := digits_value ds in
    if (n <? 1) || (Z.of_nat nargs <? n) then None else Some (n, rest).

(** The bytes after the closing parenthesis. *)
Definition matchCall (from : bytes) : option bytes :=
  r ← expect "(" (skipSpace from); expect ")" (skipSpace r).

Definition takeQuoted (q : bytes) : option (bytes * bytes) :=
  r ← expect "'" q;
  match span (fun c => negb (Ascii.eqb c "'")) r with
  | (l, _ :: rest) => Some (l, rest)
  | (_, []) => None
  end.

Definition takeInterval (from : bytes) (d : SQLDialect) : option (bytes * bytes) :=
  r ← expect "+" (skipSpace from);
  let r := skipSpace r in
  if has_prefix (lit "interval") (ToLower r) then
    '(l, rest) ← takeQuoted (skipSpace (drop 8 r));
    Some (AddInterval d (Now d) l, rest)
  else None.

Definition takeFunction (query : bytes) (d : SQLDialect) : option (bytes * bytes) :=
  match query with
  | c :: s =>
      if negb (isIdentStart c) then None
      else
        let '(w, r) := span isIdentPart s in
        rest ← matchCall r;
        if bool_decide (ToLower (c :: w) = lit "now") then
          match takeInterval rest d with
          | Some e => Some e
          | None => Some (Now d, rest)
          end
        else if bool_decide (ToLower (c :: w) = lit "gen_random_uuid") then Some (RandomUUIDExpr d, rest)
        else None
  | [] => None
  end.

(** ** Upsert clauses *)

(** The bytes up to the parenthesis that closes [depth] open ones, and the rest. *)
Fixpoint close_paren (depth : nat) (s : bytes) : bytes * bytes :=
  match depth, s with
  | O, _ | _, [] => ([], s)
  | S d, c :: s =>
      let depth := if Ascii.eqb c "(" then S depth else if Ascii.eqb c ")" then d else depth in
      let '(a, b) := close_paren depth s in (c :: a, b)
  end.

Definition firstColumn (s : bytes) : bytes :=
  match (span (fun c => negb (Ascii.eqb c "(")) s).2 with
  | [] => []
  | _ :: rest =>
      trim (fun c => Ascii.eqb c "`" || Ascii.eqb c "034")
        (TrimSpace (span (fun c => negb (Ascii.eqb c "," || Ascii.eqb c ")")) rest).1)
  end.

(** [excludedRe.ReplaceAllString(s, "VALUES($1)")]; the fuel is the length. *)
Fixpoint replace_excluded (fuel : nat) (s : bytes) : bytes :=
  match fuel, s with
  | O, _ | _, [] => []
  | S fuel, c :: s' =>
      let '(col, rest) := span isIdentPart (drop 9 s) in
      if has_prefix (lit "EXCLUDED.") s && negb (bool_decide (col = []))
      then lit "VALUES(" ++ col ++ lit ")" ++ replace_excluded fuel rest
      else c :: replace_excluded fuel s'
  end.

Definition translateMySQLUpsert (query : bytes) : bytes :=
  match index (lit "on conflict") (ToLower query) with
  | None => query
  | Some idx =>
      let head := take idx query in
      let rest := skipSpace (drop (idx + 11) query) in
      let '(col, rest) :=
        match expect "(" rest with
        | Some r =>
            let '(a, b) := close_paren 1 r in
            let c := firstColumn ("("%char :: a) in
            (if bool_decide (c = []) then firstColumn head else c, skipSpace b)
        | None => (firstColumn head, rest)
        end in
      let upper := ToUpper rest in
      if has_prefix (lit "DO NOTHING") upper then
        if bool_decide (col = []) then query
        else head ++ lit "ON DUPLICATE KEY UPDATE " ++ col ++ lit " = " ++ col
      else if has_prefix (lit "DO UPDATE SET") upper then
        let sets := TrimSpace (drop 13 rest) in
        head ++ lit "ON DUPLICATE KEY UPDATE " ++ replace_excluded (length sets) sets
      else query
  end.

(** [None] is the panic of [conflict[0]]. *)
Definition UpsertClause (d : SQLDialect) (conflict updates : list bytes) : option bytes :=
  match d with
  | DialectMySQL =>
      match updates with
      | [] => match conflict with
              | [] => None
              | col :: _ => Some (lit "ON DUPLICATE KEY UPDATE " ++ col ++ lit " = " ++ col)
              end
      | _ => Some (lit "ON DUPLICATE KEY UPDATE " ++
                   join (lit ", ") ((fun c => c ++ lit " = VALUES(" ++ c ++ lit ")") <$> updates))
      end
  | _ =>
      match updates with
      | [] => Some (lit "ON CONFLICT (" ++ join (lit ", ") conflict ++ lit ") DO NOTHING")
      | _ => Some (lit "ON CONFLICT (" ++ join (lit ", ") conflict ++ lit ") DO UPDATE SET " ++
                   join (lit ", ") ((fun c => c ++ lit " = EXCLUDED." ++ c) <$> updates))
      end
  end.

Definition ReturningClause (d : SQLDialect) (cols : bytes) : bytes :=
  match d with DialectMySQL => [] | _ => lit "RETURNING " ++ cols end.

Definition InList {A} (d : SQLDialect) (column : bytes) (values : list A) : bytes * list A :=
  match values with
  | [] => (lit "1 = 0", [])
  | _ => (column ++ lit " IN (" ++ join (lit ", ") (imap (fun i _ => Placeholder d (i + 1)) values) ++ lit ")", values)
  end.

(** ** Rewrite *)

Section rewrite.
Context {A : Type} (d : SQLDialect) (args : list A).

(** The loop from the current byte on: what it appends to the builder and to [out], and
    whether a placeholder was used.  Every iteration consumes a byte of the query, whose
    length is the fuel.  [args[n-1]] is in range by the test of [takePlaceholder]. *)
Fixpoint rewrite_loop (fuel : nat) (inQuote : bool) (nout : nat) (query : bytes) : bytes * list A * bool :=
  match fuel, query with
  | O, _ | _, [] => ([], [], false)
  | S fuel, c :: rest =>
      let emit b q := let '(text, out, used) := rewrite_loop fuel q nout rest in (b ++ text, out, used) in
      if Ascii.eqb c "'" then
        match inQuote, expect "'" rest with
        | true, Some rest' =>
            let '(text, out, used) := rewrite_loop fuel inQuote nout rest' in (lit "''" ++ text, out, used)
        | _, _ => emit [c] (negb inQuote)
        end
      else if inQuote then emit [c] inQuote
      else
        match takePlaceholder query (length args) with
        | Some (n, rest') =>
            let '(text, out, _) := rewrite_loop fuel inQuote (S nout) rest' in
            (Placeholder d (nout + 1) ++ text, take 1 (drop (Z.to_nat (n - 1)) args) ++ out, true)
        | None =>
            match takeFunction query d with
            | Some (expr, rest') =>
                let '(text, out, used) := rewrite_loop fuel inQuote nout rest' in (expr ++ text, out, used)
            | None => emit [c] inQuote
            end
        end
  end.

Definition Rewrite (query : bytes) : bytes * list A :=
  match d with
  | DialectPostgres => (query, args)
  | _ =>
      let query := match d with DialectMySQL => translateMySQLUpsert query | _ => query end in
      let '(text, out, usedDollar) := rewrite_loop (length query) false 0 query in
      if usedDollar : bool then (text, out) else (text, args)
  end.
End rewrite.

(** ** What a query means

    A query as a sequence of tokens, how it is written, and what it becomes in another
    dialect. *)

Inductive sql_token :=
| TChar (c : ascii)                             (* neither quote, dollar nor letter *)
| TIdent (w : bytes)                            (* an identifier or keyword *)
| TLit (s : bytes)                              (* a string literal with contents [s] *)
| TParam (ds : bytes)                           (* [$ds] *)
| TNow (name : bytes) (sp1 sp2 : nat)           (* [now()], in any case and with spaces *)
| TUuid (name : bytes) (sp1 sp2 : nat)          (* [gen_random_uuid()] *)
| TNowPlus (name : bytes) (sp1 sp2 sp3 sp4 : nat) (kw : bytes) (sp5 : nat) (l : bytes).
                                                (* [now() + interval 'l'] *)

Definition spaces (n : nat) : bytes := replicate n " "%char.

Definition call_print (name : bytes) (sp1 sp2 : nat) : bytes :=
  name ++ spaces sp1 ++ ["("%char] ++ spaces sp2 ++ [")"%char].

(** Quotes inside a literal are doubled. *)
Definition escape (s : bytes) : bytes :=
  s ≫= fun c => if Ascii.eqb c "'" then lit "''" else [c].

Definition tok_print (t : sql_token) : bytes :=
  match t with
  | TChar c => [c]
  | TIdent w => w
  | TLit s => ["'"%char] ++ escape s ++ ["'"%char]
  | TParam ds => ["$"%char] ++ ds
  | TNow name a b | TUuid name a b => call_print name a b
  | TNowPlus name a b e f kw g l =>
      call_print name a b ++ spaces e ++ ["+"%char] ++ spaces f ++ kw ++ spaces g ++ ["'"%char] ++ l ++ ["'"%char]
  end.

Definition sql_print (ts : list sql_token) : bytes := ts ≫= tok_print.

Definition starts (p : ascii -> bool) (s : bytes) : bool :=
  match s with c :: _ => p c | [] => false end.

(** No suffix of the word is the name of a translated function. *)
Fixpoint no_function (w : bytes) : bool :=
  match w with
  | [] => true
  | _ :: w' => negb (bool_decide (ToLower w = lit "now")) &&
               negb (bool_decide (ToLower w = lit "gen_random_uuid")) && no_function w'
  end.

(** When the token is read back as itself in front of [rest]. *)
Definition tok_ok (nargs : nat) (t : sql_token) (rest : bytes) : bool :=
  match t with
  | TChar c => negb (Ascii.eqb c "'") && negb (Ascii.eqb c "$") && negb (isIdentStart c)
  | TIdent w => forallb isIdentPart w && negb (starts isIdentPart rest) &&
                (no_function w || bool_decide (matchCall rest = None))
  | TLit s => negb (starts (fun c => Ascii.eqb c "'") rest)
  | TParam ds => negb (bool_decide (ds = [])) && forallb isDigit ds && negb (starts isDigit rest) &&
                 (1 <=? digits_value ds) && (digits_value ds <=? Z.of_nat nargs)
  | TNow name _ _ => bool_decide (ToLower name = lit "now") && bool_decide (takeInterval rest DialectPostgres = None)
  | TUuid name _ _ => bool_decide (ToLower name = lit "gen_random_uuid")
  | TNowPlus name _ _ _ _ kw _ l =>
      bool_decide (ToLower name = lit "now") && bool_decide (ToLower kw = lit "interval") &&
      forallb (fun c => negb (Ascii.eqb c "'")) l
  end.

Fixpoint toks_ok (nargs : nat) (ts : list sql_token) : bool :=
  match ts with
  | [] => true
  | t :: ts => tok_ok nargs t (sql_print ts) && toks_ok nargs ts
  end.

Definition tok_translate (d : SQLDialect) (t : sql_token) : bytes :=
  match t with
  | TParam _ => lit "?"
  | TNow _ _ _ => Now d
  | TUuid _ _ _ => RandomUUIDExpr d
  | TNowPlus _ _ _ _ _ _ _ l => AddInterval d (Now d) l
  | _ => tok_print t
  end.

Definition tok_arg {A} (args : list A) (t : sql_token) : list A :=
  match t with
  | TParam ds => match args !! Z.to_nat (digits_value ds - 1) with Some a => [a] | None => [] end
  | _ => []
  end.

Definition is_param (t : sql_token) : bool := match t with TParam _ => true | _ => false end.

(** ** Scanning what was written *)

Lemma span_app (p : ascii -> bool) (a b : bytes) :
  forallb p a = true -> starts p b = false -> span p (a ++ b) = (a, b).
Proof.
  intros Ha Hb. induction a as [|c a IH]; cbn in *.
  - destruct b as [|c b]; [done|]. cbn in *. by rewrite Hb.
  - apply andb_true_iff in Ha as [-> Ha]. by rewrite IH.
Qed.

Lemma skipSpace_spaces (n : nat) (s : bytes) :
  starts (fun c => Ascii.eqb c " ") s = false -> skipSpace (spaces n ++ s) = s.
Proof.
  intros Hs. unfold skipSpace. rewrite span_app; [done| |done].
  induction n as [|n IH]; [done|exact IH].
Qed.

Lemma expect_cons (c : ascii) (s : bytes) : expect c (c :: s) = Some s.
Proof. cbn. by rewrite Ascii.eqb_refl. Qed.

Lemma matchCall_print (a b : nat) (rest : bytes) :
  matchCall (spaces a ++ ["("%char] ++ spaces b ++ [")"%char] ++ rest) = Some rest.
Proof.
  unfold matchCall. rewrite skipSpace_spaces by done. cbn [app]. rewrite expect_cons. cbn [mbind option_bind].
  rewrite skipSpace_spaces by done. by rewrite expect_cons.
Qed.

Lemma takeQuoted_print (l rest : bytes) :
  forallb (fun c => negb (Ascii.eqb c "'")) l = true ->
  takeQuoted (["'"%char] ++ l ++ ["'"%char] ++ rest) = Some (l, rest).
Proof.
  intros Hl. unfold takeQuoted. cbn [app]. rewrite expect_cons. cbn [mbind option_bind].
  by rewrite span_app by done.
Qed.

Lemma ToLower_length (s : bytes) : length (ToLower s) = length s.
Proof. apply length_fmap. Qed.

Lemma has_prefix_app (p s : bytes) : has_prefix p (p ++ s) = true.
Proof. induction p as [|c p IH]; [done|]. cbn. by rewrite Ascii.eqb_refl. Qed.

Lemma takeInterval_print d (e f g : nat) (kw l rest : bytes) :
  ToLower kw = lit "interval" -> forallb (fun c => negb (Ascii.eqb c "'")) l = true ->
  takeInterval (spaces e ++ ["+"%char] ++ spaces f ++ kw ++ spaces g ++ ["'"%char] ++ l ++ ["'"%char] ++ rest) d =
  Some (AddInterval d (Now d) l, rest).
Proof.
  intros Hkw Hl. unfold takeInterval. rewrite skipSpace_spaces by done. cbn [app]. rewrite expect_cons.
  cbn [mbind option_bind].
  assert (Hlen : length kw = 8%nat) by (by rewrite <- (ToLower_length kw), Hkw).
  assert (Hsp : starts (fun c => Ascii.eqb c " ") (kw ++ spaces g ++ "'"%char :: l ++ "'"%char :: rest) = false).
  { destruct kw as [|c kw]; [done|]. cbn. destruct (Ascii.eqb_spec c " ") as [->|]; [done|done]. }
  rewrite skipSpace_spaces by exact Hsp.
  unfold ToLower. rewrite fmap_app. change (to_lower <$> kw) with (ToLower kw). rewrite Hkw, has_prefix_app.
  rewrite <- Hlen, drop_app_length, skipSpace_spaces by done.
  pose proof (takeQuoted_print l rest Hl) as H. cbn [app] in H. by rewrite H.
Qed.

Lemma takeInterval_any d d' (s : bytes) : takeInterval s d = None -> takeInterval s d' = None.
Proof.
  unfold takeInterval. destruct (expect "+" (skipSpace s)); [|done]. cbn [mbind option_bind].
  destruct (has_prefix _ _); [|done]. by destruct (takeQuoted _) as [[]|].
Qed.

(** A byte that is part of an identifier has no other meaning. *)
Lemma identPart_plain (c : ascii) : isIdentPart c = true -> Ascii.eqb c "'" = false /\ Ascii.eqb c "$" = false.
Proof.
  intros Hc. split; apply Ascii.eqb_neq; intros ->; done.
Qed.

Lemma takePlaceholder_other (c : ascii) (s : bytes) n : Ascii.eqb c "$" = false -> takePlaceholder (c :: s) n = None.
Proof. intros Hc. unfold takePlaceholder. cbn [expect]. by rewrite Hc. Qed.

Lemma takeFunction_word d (c : ascii) (w rest : bytes) :
  isIdentStart c = true -> forallb isIdentPart w = true -> starts isIdentPart rest = false ->
  takeFunction (c :: w ++ rest) d =
  match matchCall rest with
  | None => None
  | Some rest' =>
      if bool_decide (ToLower (c :: w) = lit "now") then
        match takeInterval rest' d with Some e => Some e | None => Some (Now d, rest') end
      else if bool_decide (ToLower (c :: w) = lit "gen_random_uuid") then Some (RandomUUIDExpr d, rest')
      else None
  end.
Proof.
  intros Hc Hw Hr. unfold takeFunction. rewrite Hc. cbn [negb]. rewrite span_app by done.
  by destruct (matchCall rest).
Qed.

(** The words that name a translated function are identifiers. *)
Lemma word_lower_ident (f : string) (w : bytes) :
  forallb (fun c => is_lower c || Ascii.eqb c "_") (lit f) = true -> ToLower w = lit f ->
  forallb isIdentStart w = true.
Proof.
  intros Hf Hw. rewrite <- Hw in Hf. clear Hw. induction w as [|c w IH]; [done|]. cbn in *. apply andb_true_iff in Hf as [Hc Hf].
  rewrite IH by done. rewrite andb_true_r. unfold isIdentStart. unfold to_lower in Hc.
  destruct (is_upper c); [by rewrite !orb_true_r|]. rewrite orb_false_r. by rewrite orb_comm.
Qed.

(** ** The loop on a token *)

Section loop.
Context {A : Type} (d : SQLDialect) (args : list A).
Hypothesis Hd : d <> DialectPostgres.

Definition prepend (text : bytes) (out : list A) (used : bool) (r : bytes * list A * bool) : bytes * list A * bool :=
  (text ++ r.1.1, out ++ r.1.2, used || r.2).

(** Reading [pre] in front of [rest] emits [text] and [out], with fuel for the rest. *)
Definition reads (q q' : bool) (pre rest text : bytes) (out : list A) (used : bool) : Prop :=
  forall fuel nout, (length (pre ++ rest) <= fuel)%nat ->
  exists fuel' nout', (length rest <= fuel')%nat /\
    rewrite_loop d args fuel q nout (pre ++ rest) = prepend text out used (rewrite_loop d args fuel' q' nout' rest).

Lemma reads_app q q1 q2 a b rest t1 t2 o1 o2 u1 u2 :
  reads q q1 a (b ++ rest) t1 o1 u1 -> reads q1 q2 b rest t2 o2 u2 ->
  reads q q2 (a ++ b) rest (t1 ++ t2) (o1 ++ o2) (u1 || u2).
Proof.
  intros H1 H2 fuel nout Hf. rewrite <- (assoc_L (++)) in Hf |- *.
  destruct (H1 fuel nout Hf) as (f1 & n1 & Hf1 & ->). destruct (H2 f1 n1 Hf1) as (f2 & n2 & Hf2 & ->).
  exists f2, n2. split; [done|]. unfold prepend. cbn. by rewrite !(assoc_L (++)), orb_assoc.
Qed.

Lemma reads_nil q rest : reads q q [] rest [] [] false.
Proof. intros fuel nout Hf. exists fuel, nout. split; [done|]. by destruct (rewrite_loop _ _ _ _ _ _) as [[]]. Qed.

(** One byte copied. *)
Lemma reads_copy q c rest :
  Ascii.eqb c "'" = false ->
  (q = false -> takePlaceholder (c :: rest) (length args) = None /\ takeFunction (c :: rest) d = None) ->
  reads q q [c] rest [c] [] false.
Proof.
  intros Hc Hq fuel nout Hf. destruct fuel as [|fuel]; [cbn in Hf; lia|]. exists fuel, nout. cbn in Hf.
  split; [lia|]. cbn [rewrite_loop app]. rewrite Hc.
  destruct q; [by destruct (rewrite_loop _ _ fuel _ _ _) as [[]]|].
  destruct (Hq eq_refl) as [-> ->]. by destruct (rewrite_loop _ _ fuel _ _ _) as [[]].
Qed.

Lemma reads_word rest : starts isIdentPart rest = false -> forall w,
  forallb isIdentPart w = true -> no_function w || bool_decide (matchCall rest = None) = true ->
  reads false false w rest w [] false.
Proof.
  intros Hr w. induction w as [|c w IH]; intros Hw Hn; [apply reads_nil|].
  cbn in Hw. apply andb_true_iff in Hw as [Hc Hw]. destruct (identPart_plain c Hc) as [Hq Hdl].
  change (c :: w) with ([c] ++ w). apply (reads_app false false false [c] w rest [c] w [] [] false false).
  - apply reads_copy; [done|]. intros _. split; [by apply takePlaceholder_other|].
    destruct (isIdentStart c) eqn:Es; [|unfold takeFunction; by rewrite Es].
    rewrite takeFunction_word by done. destruct (matchCall rest) eqn:Em; [|done].
    rewrite (bool_decide_eq_false_2 (Some b = None)), orb_false_r in Hn by done. cbn [no_function] in Hn.
    apply andb_true_iff in Hn as [Hn _]. apply andb_true_iff in Hn as [H1 H2].
    apply negb_true_iff in H1, H2. by rewrite H1, H2.
  - apply IH; [done|]. apply orb_true_iff in Hn as [Hn|Hn]; apply orb_true_iff; [left|by right].
    cbn [no_function] in Hn. by apply andb_true_iff in Hn as [_ Hn].
Qed.

(** A quote changes the mode; inside a literal everything is copied. *)
Lemma reads_open rest : reads false true ["'"%char] rest ["'"%char] [] false.
Proof.
  intros fuel nout Hf. destruct fuel as [|fuel]; [cbn in Hf; lia|]. exists fuel, nout. cbn in Hf.
  split; [lia|]. cbn [rewrite_loop app]. by destruct (rewrite_loop _ _ fuel _ _ _) as [[]].
Qed.

Lemma reads_close rest : starts (fun c => Ascii.eqb c "'") rest = false ->
  reads true false ["'"%char] rest ["'"%char] [] false.
Proof.
  intros Hr fuel nout Hf. destruct fuel as [|fuel]; [cbn in Hf; lia|]. exists fuel, nout. cbn in Hf.
  split; [lia|]. cbn [rewrite_loop app].
  assert (He : expect "'" rest = None) by (destruct rest as [|x r]; [done|]; cbn in *; by rewrite Hr).
  rewrite He. by destruct (rewrite_loop _ _ fuel _ _ _) as [[]].
Qed.

Lemma reads_escaped rest : reads true true (lit "''") rest (lit "''") [] false.
Proof.
  intros fuel nout Hf. destruct fuel as [|fuel]; [cbn in Hf; lia|]. exists fuel, nout. cbn in Hf.
  split; [lia|]. cbn [rewrite_loop app lit list_ascii_of_string]. rewrite expect_cons.
  by destruct (rewrite_loop _ _ fuel _ _ _) as [[]].
Qed.

Lemma reads_contents (s rest : bytes) : reads true true (escape s) rest (escape s) [] false.
Proof.
  induction s as [|c s IH]; [apply reads_nil|].
  change (escape (c :: s)) with ((if Ascii.eqb c "'" then lit "''" else [c]) ++ escape s).
  eapply (reads_app true true true _ _ _ _ _ [] [] false false); [|exact IH].
  destruct (Ascii.eqb c "'") eqn:Hc; [apply reads_escaped|by apply reads_copy].
Qed.

(** A call to a translated function. *)
Lemma reads_function (f : string) (name tail rest expr : bytes) :
  forallb (fun c => is_lower c || Ascii.eqb c "_") (lit f) = true -> lit f <> [] -> ToLower name = lit f ->
  takeFunction (name ++ tail ++ rest) d = Some (expr, rest) ->
  reads false false (name ++ tail) rest expr [] false.
Proof.
  intros Hf Hne Hn Ht fuel nout Hfl. pose proof (word_lower_ident f name Hf Hn) as Hid.
  rewrite <- (assoc_L (++)) in Hfl |- *. destruct name as [|c name]; [by rewrite <- Hn in Hne|].
  destruct fuel as [|fuel]; [cbn in Hfl; lia|]. exists fuel, nout. cbn in Hid. apply andb_true_iff in Hid as [Hc _].
  destruct (identPart_plain c) as [Hq Hdl]; [unfold isIdentPart; by rewrite Hc|].
  split; [cbn in Hfl; rewrite !length_app in Hfl; lia|].
  cbn [app] in Ht |- *. cbn [rewrite_loop]. rewrite Hq, takePlaceholder_other, Ht by done.
  by destruct (rewrite_loop _ _ fuel _ _ _) as [[]].
Qed.

Lemma takeFunction_call (f : string) (name rest : bytes) (a b : nat) :
  forallb (fun c => is_lower c || Ascii.eqb c "_") (lit f) = true -> lit f <> [] -> ToLower name = lit f ->
  takeFunction (call_print name a b ++ rest) d =
  if bool_decide (lit f = lit "now") then
    match takeInterval rest d with Some e => Some e | None => Some (Now d, rest) end
  else if bool_decide (lit f = lit "gen_random_uuid") then Some (RandomUUIDExpr d, rest) else None.
Proof.
  intros Hf Hne Hn. pose proof (word_lower_ident f name Hf Hn) as Hid.
  destruct name as [|c name]; [by rewrite <- Hn in Hne|]. cbn in Hid. apply andb_true_iff in Hid as [Hc Hid].
  unfold call_print. rewrite <- !(assoc_L (++)). cbn [app].
  rewrite takeFunction_word; [|done| |].
  - rewrite <- Hn. pose proof (matchCall_print a b rest) as H. cbn [app] in H. by rewrite H.
  - clear -Hid. induction name as [|x n IH]; [done|]. cbn in *. apply andb_true_iff in Hid as [Hx Hid].
    unfold isIdentPart at 1. by rewrite Hx, IH.
  - by destruct a.
Qed.

Lemma reads_param (ds rest : bytes) :
  tok_ok (length args) (TParam ds) rest = true ->
  reads false false (["$"%char] ++ ds) rest (lit "?") (tok_arg args (TParam ds)) true.
Proof.
  intros Hok fuel nout Hf. cbn [tok_ok] in Hok.
  apply andb_true_iff in Hok as [Hok H5]. apply andb_true_iff in Hok as [Hok H4].
  apply andb_true_iff in Hok as [Hok H3]. apply andb_true_iff in Hok as [H1 H2].
  apply negb_true_iff in H1, H3. apply Z.leb_le in H4, H5.
  destruct fuel as [|fuel]; [cbn in Hf; lia|]. exists fuel, (S nout).
  split; [cbn in Hf; rewrite length_app in Hf; lia|].
  cbn [app rewrite_loop]. assert (Htp : takePlaceholder ("$"%char :: ds ++ rest) (length args) = Some (digits_value ds, rest)).
  { unfold takePlaceholder. rewrite expect_cons. cbn [mbind option_bind]. rewrite span_app, H1 by done.
    destruct (Z.ltb_spec (digits_value ds) 1); [lia|].
    destruct (Z.ltb_spec (Z.of_nat (length args)) (digits_value ds)); [lia|]. done. }
  rewrite Htp. cbn [Ascii.eqb Bool.eqb].
  assert (Hph : Placeholder d (nout + 1) = lit "?") by (by destruct d). rewrite Hph.
  destruct (lookup_lt_is_Some_2 args (Z.to_nat (digits_value ds - 1)) ltac:(lia)) as [x Hx].
  cbn [tok_arg]. rewrite Hx, (drop_S _ _ _ Hx). cbn [take].
  by destruct (rewrite_loop _ _ fuel _ _ _) as [[]].
Qed.

Lemma reads_token (t : sql_token) (rest : bytes) :
  tok_ok (length args) t rest = true ->
  reads false false (tok_print t) rest (tok_translate d t) (tok_arg args t) (is_param t).
Proof.
  intros Hok. destruct t as [c|w|s|ds|name a b|name a b|name a b e f kw g l]; cbn [tok_print tok_translate tok_arg is_param].
  - cbn in Hok. apply andb_true_iff in Hok as [Hok H3]. apply andb_true_iff in Hok as [H1 H2].
    apply negb_true_iff in H1, H2, H3. apply reads_copy; [done|]. intros _. split; [by apply takePlaceholder_other|].
    unfold takeFunction. by rewrite H3.
  - cbn in Hok. apply andb_true_iff in Hok as [Hok H3]. apply andb_true_iff in Hok as [H1 H2].
    apply negb_true_iff in H2. by apply reads_word.
  - cbn in Hok. apply negb_true_iff in Hok.
    apply (reads_app false true false _ _ _ _ _ [] [] false false); [apply reads_open|].
    apply (reads_app true true false _ _ _ _ _ [] [] false false); [apply reads_contents|by apply reads_close].
  - by apply reads_param.
  - cbn in Hok. apply andb_true_iff in Hok as [H1 H2]. apply bool_decide_eq_true in H1, H2.
    apply (reads_function "now"); [done|done|done|].
    pose proof (takeFunction_call "now" name rest a b eq_refl ltac:(done) H1) as H.
    unfold call_print in H. rewrite <- (assoc_L (++)) in H. rewrite H.
    by rewrite (takeInterval_any _ d _ H2).
  - cbn in Hok. apply bool_decide_eq_true in Hok. apply (reads_function "gen_random_uuid"); [done|done|done|].
    pose proof (takeFunction_call "gen_random_uuid" name rest a b eq_refl ltac:(done) Hok) as H.
    unfold call_print in H. rewrite <- (assoc_L (++)) in H. by rewrite H.
  - cbn in Hok. apply andb_true_iff in Hok as [Hok H3]. apply andb_true_iff in Hok as [H1 H2].
    apply bool_decide_eq_true in H1, H2. unfold call_print. rewrite <- (assoc_L (++)).
    apply (reads_function "now"); [done|done|done|].
    pose proof (takeFunction_call "now" name (spaces e ++ ["+"%char] ++ spaces f ++ kw ++ spaces g ++ ["'"%char] ++ l ++ ["'"%char] ++ rest)
      a b eq_refl ltac:(done) H1) as H.
    rewrite takeInterval_print in H by done. rewrite bool_decide_eq_true_2 in H by done. rewrite <- H.
    f_equal. unfold call_print. by rewrite <- !(assoc_L (++)).
Qed.

Lemma reads_tokens (ts : list sql_token) :
  toks_ok (length args) ts = true ->
  reads false false (sql_print ts) [] (ts ≫= tok_translate d) (ts ≫= tok_arg args) (existsb is_param ts).
Proof.
  induction ts as [|t ts IH]; intros Hok; [apply reads_nil|]. cbn [toks_ok] in Hok. apply andb_true_iff in Hok as [Ht Hok].
  cbn [mbind list_bind existsb]. unfold sql_print. cbn [mbind list_bind].
  apply (reads_app false false false); [|by apply IH]. rewrite app_nil_r. by apply reads_token.
Qed.

Lemma rewrite_loop_tokens (ts : list sql_token) :
  toks_ok (length args) ts = true ->
  rewrite_loop d args (length (sql_print ts)) false 0 (sql_print ts) =
  (ts ≫= tok_translate d, ts ≫= tok_arg args, existsb is_param ts).
Proof.
  intros Hok. destruct (reads_tokens ts Hok (length (sql_print ts)) 0%nat) as (f & n & _ & E); [by rewrite app_nil_r|].
  rewrite app_nil_r in E. rewrite E. unfold prepend. destruct f; cbn; by rewrite !app_nil_r, orb_false_r.
Qed.
End loop.

(** ** Conflict clauses *)

Definition col_ok (c : bytes) : bool := negb (bool_decide (c = [])) && forallb isIdentPart c.

Lemma has_prefix_sep (p w r : bytes) (c : ascii) : c ∉ p -> has_prefix p (w ++ c :: r) = has_prefix p w.
Proof.
  revert w. induction p as [|x p IH]; intros w Hc; [by destruct w|].
  apply not_elem_of_cons in Hc as [Hx Hc]. destruct w as [|y w]; cbn.
  - by rewrite (proj2 (Ascii.eqb_neq x c)) by congruence.
  - by rewrite IH.
Qed.

Lemma has_prefix_true (p w : bytes) : has_prefix p w = true -> exists r, w = p ++ r.
Proof.
  revert w. induction p as [|x p IH]; intros w Hp; [by exists w|]. destruct w as [|y w]; [done|]. cbn in Hp.
  apply andb_true_iff in Hp as [Hx Hp]. apply Ascii.eqb_eq in Hx as ->. destruct (IH w Hp) as [r ->]. by exists r.
Qed.

(** No proper prefix of [on conflict] is also a suffix. *)
Lemma conflict_borderless (n : nat) :
  (0 < n < 11)%nat -> drop n (lit "on conflict") <> take (11 - n) (lit "on conflict").
Proof.
  intros Hn. do 11 (destruct n as [|n]; [lia || (cbn; discriminate)|]). lia.
Qed.

Lemma conflict_not_earlier (h r : bytes) (c : ascii) :
  has_prefix (lit "on conflict") (c :: h) = false ->
  has_prefix (lit "on conflict") ((c :: h) ++ lit "on conflict" ++ r) = false.
Proof.
  intros Hh. apply not_true_is_false. intros [t Ht]%has_prefix_true.
  destruct (decide (11 <= length (c :: h))%nat) as [Hlen|Hlen].
  - assert (Hp : take 11 (c :: h) = lit "on conflict").
    { rewrite <- (take_app_le (c :: h) (lit "on conflict" ++ r)), Ht by lia. done. }
    rewrite <- (take_drop 11 (c :: h)), Hp, has_prefix_app in Hh. done.
  - set (n := length (c :: h)) in *. assert (Hn : (0 < n < 11)%nat) by (cbn in *; lia).
    apply (conflict_borderless n Hn).
    assert (E : take 11 ((c :: h) ++ lit "on conflict" ++ r) = take 11 (lit "on conflict" ++ t)) by (by rewrite Ht).
    rewrite take_app_ge in E by lia. rewrite (take_app_le (lit "on conflict") r) in E by (cbn; lia).
    change (take 11 (lit "on conflict" ++ t)) with (lit "on conflict") in E.
    rewrite <- E at 1. exact (drop_app_length (c :: h) _).
Qed.

Lemma index_conflict (h r : bytes) :
  index (lit "on conflict") h = None -> index (lit "on conflict") (h ++ lit "on conflict" ++ r) = Some (length h).
Proof.
  induction h as [|c h IH]; intros Hh.
  - done.
  - cbn [index] in Hh. destruct (has_prefix (lit "on conflict") (c :: h)) eqn:Hp; [done|].
    pose proof (conflict_not_earlier h r c Hp) as Hn. cbn [app index]. cbn [app] in Hn. rewrite Hn.
    destruct (index (lit "on conflict") h) eqn:E; [done|]. by rewrite IH.
Qed.

Lemma ident_not (x : ascii) (w : bytes) : forallb isIdentPart w = true -> isIdentPart x = false -> x ∉ w.
Proof.
  intros Hw Hx Hin. rewrite forallb_forall in Hw. apply list_elem_of_In in Hin. specialize (Hw x Hin). congruence.
Qed.

Lemma trim_id (p : ascii -> bool) (w : bytes) : forallb (negb ∘ p) w = true -> trim p w = w.
Proof.
  intros Hw. assert (Hs : forall l : bytes, forallb (negb ∘ p) l = true -> (span p l).2 = l).
  { intros [|c l] Hl; [done|]. cbn in Hl |- *. apply andb_true_iff in Hl as [Hc _]. apply negb_true_iff in Hc. by rewrite Hc. }
  unfold trim, trim_right. rewrite (Hs w Hw), Hs; [apply reverse_involutive|].
  rewrite forallb_forall in Hw |- *. intros x Hx. apply Hw. apply list_elem_of_In in Hx. apply list_elem_of_In.
  by apply elem_of_reverse.
Qed.

Lemma forallb_impl (p q : ascii -> bool) (w : bytes) :
  (forall c, p c = true -> q c = true) -> forallb p w = true -> forallb q w = true.
Proof. intros H. rewrite !forallb_forall. auto. Qed.

Lemma col_ok_inv (c : bytes) : col_ok c = true -> forallb isIdentPart c = true /\ exists x w, c = x :: w.
Proof.
  unfold col_ok. intros [H1 H2]%andb_true_iff. split; [done|]. destruct c as [|x w]; [done|eauto].
Qed.

(** Neither parentheses, commas, quotes nor spaces. *)
Lemma ident_plain (x : ascii) : isIdentPart x = true ->
  negb (Ascii.eqb x "," || Ascii.eqb x ")") = true /\ negb (is_space x) = true /\
  negb (Ascii.eqb x "`" || Ascii.eqb x "034") = true /\ Ascii.eqb x "(" = false /\ Ascii.eqb x ")" = false.
Proof. destruct x as [[] [] [] [] [] [] [] []]; vm_compute; intros [=]; done. Qed.

Lemma close_paren_cols (cs : list bytes) (r : bytes) :
  forallb col_ok cs = true -> close_paren 1 (join (lit ", ") cs ++ ")"%char :: r) = (join (lit ", ") cs ++ [")"%char], r).
Proof.
  assert (Hskip : forall w s : bytes, forallb (fun x => negb (Ascii.eqb x "(") && negb (Ascii.eqb x ")")) w = true ->
    close_paren 1 (w ++ s) = (w ++ (close_paren 1 s).1, (close_paren 1 s).2)).
  { intros w s0. induction w as [|x w IH]; intros Hw; [apply surjective_pairing|]. cbn in Hw.
    apply andb_true_iff in Hw as [Hx Hw]. apply andb_true_iff in Hx as [H1 H2]. apply negb_true_iff in H1, H2.
    cbn [app close_paren]. rewrite H1, H2, IH by done. done. }
  assert (Hcol : forall c, col_ok c = true -> forallb (fun x => negb (Ascii.eqb x "(") && negb (Ascii.eqb x ")")) c = true).
  { intros c [Hc _]%col_ok_inv. revert Hc. apply forallb_impl. intros x (_ & _ & _ & H1 & H2)%ident_plain. by rewrite H1, H2. }
  assert (Hend : close_paren 1 (")"%char :: r) = ([")"%char], r)) by (by destruct r).
  induction cs as [|c cs IH]; intros Hok; [done|]. cbn [forallb] in Hok. apply andb_true_iff in Hok as [Hc Hok].
  destruct cs as [|c' cs].
  - cbn [join]. by rewrite Hskip, Hend by auto.
  - change (join (lit ", ") (c :: c' :: cs)) with (c ++ lit ", " ++ join (lit ", ") (c' :: cs)).
    rewrite <- !(assoc_L (++)), Hskip by auto. rewrite (Hskip (lit ", ")), IH by done. done.
Qed.

Lemma firstColumn_cols (c : bytes) (cs : list bytes) :
  col_ok c = true -> firstColumn ("("%char :: join (lit ", ") (c :: cs) ++ [")"%char]) = c.
Proof.
  intros [Hc _]%col_ok_inv. unfold firstColumn. cbn [span Ascii.eqb Bool.eqb negb snd].
  assert (Hj : exists r, join (lit ", ") (c :: cs) ++ [")"%char] = c ++ r /\
    starts (fun x => negb (Ascii.eqb x "," || Ascii.eqb x ")")) r = false).
  { destruct cs; cbn [join]; [by exists [")"%char]|]. eexists. by rewrite <- !(assoc_L (++)). }
  destruct Hj as (r & -> & Hr).
  rewrite span_app; [|by revert Hc; apply forallb_impl; intros x (? & _)%ident_plain|done]. cbn [fst].
  unfold TrimSpace. rewrite (trim_id is_space c) by (revert Hc; apply forallb_impl; by intros x (_ & ? & _)%ident_plain).
  apply trim_id. revert Hc. apply forallb_impl. by intros x (_ & _ & ? & _)%ident_plain.
Qed.

(** The replacement on a list of assignments. *)
Lemma replace_copy (w : bytes) : forall fuel rest,
  (forall v x u, w = v ++ x :: u -> has_prefix (lit "EXCLUDED.") (x :: u ++ rest) = false) ->
  (length (w ++ rest) <= fuel)%nat ->
  exists fuel', (length rest <= fuel')%nat /\ replace_excluded fuel (w ++ rest) = w ++ replace_excluded fuel' rest.
Proof.
  induction w as [|x w IH]; intros fuel rest Hno Hf; [by exists fuel|].
  destruct fuel as [|fuel]; [cbn in Hf; lia|]. cbn in Hf.
  destruct (IH fuel rest) as (f & Hf' & E); [|lia|].
  { intros v y u ->. apply (Hno (x :: v)). done. }
  exists f. split; [done|]. cbn [app replace_excluded]. rewrite (Hno [] x w) by done.
  destruct (span _ _). cbn [andb]. by rewrite E.
Qed.

Lemma excluded_no_ident (w r : bytes) : forallb isIdentPart w = true ->
  has_prefix (lit "EXCLUDED.") (w ++ " "%char :: r) = false.
Proof.
  intros Hw. rewrite has_prefix_sep by (vm_compute; set_solver). apply not_true_is_false. intros [t ->]%has_prefix_true.
  by vm_compute in Hw.
Qed.

Lemma replace_assign (c : bytes) (fuel : nat) (rest : bytes) :
  col_ok c = true -> starts isIdentPart rest = false ->
  (length ((c ++ lit " = EXCLUDED." ++ c) ++ rest) <= fuel)%nat ->
  exists fuel', (length rest <= fuel')%nat /\
    replace_excluded fuel ((c ++ lit " = EXCLUDED." ++ c) ++ rest) =
    (c ++ lit " = VALUES(" ++ c ++ lit ")") ++ replace_excluded fuel' rest.
Proof.
  intros Hok Hr Hf. destruct (col_ok_inv c Hok) as [Hc (x & w & Ec)].
  replace ((c ++ lit " = EXCLUDED." ++ c) ++ rest) with (c ++ lit " = " ++ lit "EXCLUDED." ++ c ++ rest) in Hf |- *
    by (rewrite <- !(assoc_L (++)); done).
  destruct (replace_copy c fuel (lit " = " ++ lit "EXCLUDED." ++ c ++ rest)) as (f1 & Hf1 & ->); [|done|].
  { intros v y u E. apply (excluded_no_ident (y :: u)). rewrite E, forallb_app in Hc. by apply andb_true_iff in Hc as [_ Hc]. }
  destruct (replace_copy (lit " = ") f1 (lit "EXCLUDED." ++ c ++ rest)) as (f2 & Hf2 & ->); [|done|].
  { intros v y u E. destruct v as [|? [|? [|? [|]]]]; cbn in E; simplify_eq; done. }
  destruct f2 as [|f2]; [cbn in Hf2; lia|]. exists f2. split; [rewrite !length_app in Hf2; cbn in Hf2; lia|].
  change (lit "EXCLUDED." ++ c ++ rest) with ("E"%char :: lit "XCLUDED." ++ c ++ rest). cbn [replace_excluded].
  change ("E"%char :: lit "XCLUDED." ++ c ++ rest) with (lit "EXCLUDED." ++ c ++ rest).
  change (drop 9 (lit "EXCLUDED." ++ c ++ rest)) with (c ++ rest).
  rewrite span_app, has_prefix_app by done. rewrite bool_decide_eq_false_2 by (by rewrite Ec).
  cbn [negb andb]. by rewrite <- !(assoc_L (++)).
Qed.

Lemma replace_assigns (cs : list bytes) : forall fuel,
  forallb col_ok cs = true ->
  let sets := join (lit ", ") ((fun c => c ++ lit " = EXCLUDED." ++ c) <$> cs) in
  (length sets <= fuel)%nat ->
  replace_excluded fuel sets = join (lit ", ") ((fun c => c ++ lit " = VALUES(" ++ c ++ lit ")") <$> cs).
Proof.
  induction cs as [|c cs IH]; intros fuel Hok sets Hf; [by destruct fuel|].
  cbn [forallb] in Hok. apply andb_true_iff in Hok as [Hc Hok]. subst sets. destruct cs as [|c' cs].
  - cbn [fmap list_fmap join] in *. rewrite <- (app_nil_r (c ++ _ ++ c)) in Hf |- *.
    destruct (replace_assign c fuel [] Hc eq_refl Hf) as (f & _ & ->). destruct f; cbn; by rewrite !app_nil_r.
  - change (join (lit ", ") ((fun c => c ++ lit " = EXCLUDED." ++ c) <$> c :: c' :: cs)) with
      ((c ++ lit " = EXCLUDED." ++ c) ++ lit ", " ++ join (lit ", ") ((fun c => c ++ lit " = EXCLUDED." ++ c) <$> c' :: cs)) in Hf |- *.
    destruct (replace_assign c fuel (lit ", " ++ join (lit ", ") ((fun c => c ++ lit " = EXCLUDED." ++ c) <$> c' :: cs))
      Hc eq_refl Hf) as (f1 & Hf1 & ->).
    destruct (replace_copy (lit ", ") f1 (join (lit ", ") ((fun c => c ++ lit " = EXCLUDED." ++ c) <$> c' :: cs)))
      as (f2 & Hf2 & ->); [|done|].
    { intros v y u E. destruct v as [|? [|? [|]]]; cbn in E; simplify_eq; done. }
    by rewrite IH.
Qed.

(** Assignments have no space at either end. *)
Lemma assigns_trim (cs : list bytes) :
  cs <> [] -> forallb col_ok cs = true ->
  let sets := join (lit ", ") ((fun c => c ++ lit " = EXCLUDED." ++ c) <$> cs) in
  TrimSpace (" "%char :: sets) = sets.
Proof.
  intros Hne Hok sets.
  assert (Hends : exists x a y b, sets = x :: a /\ sets = b ++ [y] /\ is_space x = false /\ is_space y = false).
  { subst sets. induction cs as [|c cs IH]; [done|]. cbn [forallb] in Hok. apply andb_true_iff in Hok as [Hc Hok].
    destruct (col_ok_inv c Hc) as [Hid (x & w & ->)].
    assert (Hx : is_space x = false).
    { cbn in Hid. apply andb_true_iff in Hid as [Hx _]. apply ident_plain in Hx as (_ & Hx & _). by apply negb_true_iff in Hx. }
    destruct cs as [|c' cs].
    - assert (exists b y, x :: w = b ++ [y] /\ is_space y = false) as (b & y & Eb & Hy).
      { destruct (exists_last (l:=x :: w)) as (b & y & E); [done|]. exists b, y. split; [done|]. rewrite E, forallb_app in Hid.
        apply andb_true_iff in Hid as [_ Hy]. cbn in Hy. rewrite andb_true_r in Hy.
        apply ident_plain in Hy as (_ & Hy & _). by apply negb_true_iff in Hy. }
      eexists x, _, y, ((x :: w) ++ lit " = EXCLUDED." ++ b). split; [reflexivity|]. split; [|done].
      cbn [fmap list_fmap join]. rewrite Eb at 2. by rewrite <- !(assoc_L (++)).
    - destruct (IH ltac:(done) Hok) as (_ & _ & y & b & _ & E & _ & Hy).
      change (join (lit ", ") ((fun c => c ++ lit " = EXCLUDED." ++ c) <$> (x :: w) :: c' :: cs)) with
        (((x :: w) ++ lit " = EXCLUDED." ++ (x :: w)) ++ lit ", " ++ join (lit ", ") ((fun c => c ++ lit " = EXCLUDED." ++ c) <$> c' :: cs)).
      eexists x, _, y, (((x :: w) ++ lit " = EXCLUDED." ++ (x :: w)) ++ lit ", " ++ b). split; [reflexivity|]. split; [|done].
      by rewrite E, <- !(assoc_L (++)). }
  destruct Hends as (x & a & y & b & E1 & E2 & Hx & Hy). unfold TrimSpace, trim, trim_right.
  assert (Hs : (span is_space (" "%char :: sets)).2 = sets) by (rewrite E1; cbn; by rewrite Hx).
  rewrite Hs, E2, reverse_app. cbn [reverse rev_append app]. cbn [span]. rewrite Hy. cbn [snd].
  change (y :: reverse b) with (reverse [y] ++ reverse b). by rewrite <- reverse_app, reverse_involutive.
Qed.

Lemma upsert_prefix (head tail : bytes) (cs : list bytes) (c : bytes) :
  col_ok c = true -> forallb col_ok cs = true -> index (lit "on conflict") (ToLower head) = None ->
  starts (fun x => Ascii.eqb x " ") tail = false ->
  let query := head ++ lit "ON CONFLICT (" ++ join (lit ", ") (c :: cs) ++ lit ") " ++ tail in
  translateMySQLUpsert query =
  if has_prefix (lit "DO NOTHING") (ToUpper tail) then head ++ lit "ON DUPLICATE KEY UPDATE " ++ c ++ lit " = " ++ c
  else if has_prefix (lit "DO UPDATE SET") (ToUpper tail) then
    let sets := TrimSpace (drop 13 tail) in
    head ++ lit "ON DUPLICATE KEY UPDATE " ++ replace_excluded (length sets) sets
  else query.
Proof.
  intros Hc Hcs Hi Ht query. unfold translateMySQLUpsert.
  set (after := lit " (" ++ join (lit ", ") (c :: cs) ++ lit ") " ++ tail).
  assert (Eq : query = head ++ lit "ON CONFLICT" ++ after) by reflexivity.
  assert (Ei : index (lit "on conflict") (ToLower query) = Some (length head)).
  { rewrite Eq. unfold ToLower. rewrite !fmap_app. change (to_lower <$> lit "ON CONFLICT") with (lit "on conflict").
    change (to_lower <$> head) with (ToLower head). rewrite index_conflict by done. by rewrite ToLower_length. }
  rewrite Ei.
  assert (Eh : take (length head) query = head) by (rewrite Eq; apply take_app_length).
  assert (Ea : drop (length head + 11) query = after).
  { rewrite Eq, <- drop_drop, drop_app_length. apply (drop_app_length (lit "ON CONFLICT")). }
  assert (Es : expect "(" (skipSpace after) = Some (join (lit ", ") (c :: cs) ++ ")"%char :: " "%char :: tail)) by done.
  rewrite Eh, Ea, Es. rewrite close_paren_cols by (cbn [forallb]; by rewrite Hc).
  rewrite firstColumn_cols by done.
  assert (Hsp : skipSpace (" "%char :: tail) = tail) by exact (skipSpace_spaces 1 tail Ht).
  rewrite Hsp. destruct (col_ok_inv c Hc) as [_ (x & w & Ex)].
  rewrite !(bool_decide_eq_false_2 (c = [])) by (by rewrite Ex). done.
Qed.

(** Translating the PostgreSQL conflict clause of an insert gives the clause
    [UpsertClause] builds for MySQL, for any identifiers as conflict and updated columns
    and any head that does not itself contain [on conflict]. *)
Theorem upsert_translation (head : bytes) (conflict updates : list bytes) :
  conflict <> [] -> forallb col_ok conflict = true -> forallb col_ok updates = true ->
  index (lit "on conflict") (ToLower head) = None ->
  exists pg my, UpsertClause DialectPostgres conflict updates = Some pg /\
    UpsertClause DialectMySQL conflict updates = Some my /\
    translateMySQLUpsert (head ++ pg) = head ++ my.
Proof.
  intros Hne Hc Hu Hi. destruct conflict as [|c cs]; [done|]. cbn [forallb] in Hc. apply andb_true_iff in Hc as [Hc Hcs].
  destruct updates as [|u us].
  - eexists _, _. split; [reflexivity|]. split; [reflexivity|].
    exact (upsert_prefix head (lit "DO NOTHING") cs c Hc Hcs Hi eq_refl).
  - eexists _, _. split; [reflexivity|]. split; [reflexivity|].
    set (sets := join (lit ", ") ((fun c => c ++ lit " = EXCLUDED." ++ c) <$> u :: us)).
    pose proof (upsert_prefix head (lit "DO UPDATE SET " ++ sets) cs c Hc Hcs Hi eq_refl) as H.
    change (drop 13 (lit "DO UPDATE SET " ++ sets)) with (" "%char :: sets) in H.
    unfold sets in H at 3 4. rewrite (assigns_trim (u :: us) ltac:(done) Hu) in H.
    rewrite replace_assigns in H by done. exact H.
Qed.

(** C34: on a query made of plain text, identifiers, string literals, placeholders in range
    and calls to [now()] (also plus an interval) and [gen_random_uuid()], [Rewrite] puts
    a positional placeholder for every [$n], the dialect's expression for every call,
    keeps everything else (literals in particular, whatever they contain), and returns
    for each placeholder, in order, the argument it names; without placeholders the
    arguments are returned as they are.  For MySQL the query has no conflict clause. *)
Theorem Rewrite_translates_tokens {A} (d : SQLDialect) (args : list A) (ts : list sql_token) :
  d <> DialectPostgres -> toks_ok (length args) ts = true ->
  (d = DialectMySQL -> index (lit "on conflict") (ToLower (sql_print ts)) = None) ->
  Rewrite d args (sql_print ts) =
  (ts ≫= tok_translate d, if existsb is_param ts then ts ≫= tok_arg args else args).
Proof.
  intros Hd Hok Hmy. unfold Rewrite.
  assert (Hq : match d with DialectMySQL => translateMySQLUpsert (sql_print ts) | _ => sql_print ts end = sql_print ts).
  { destruct d; [done| |done]. unfold translateMySQLUpsert. by rewrite Hmy. }
  rewrite Hq, rewrite_loop_tokens by done. destruct d; [done| |]; by destruct (existsb is_param ts).
Qed.

(** ** Witnesses *)

Definition demo_tokens : list sql_token :=
  [TIdent (lit "SELECT"); TChar " "; TLit (lit "it's now() $1"); TChar ","; TParam (lit "2"); TChar ",";
   TParam (lit "1"); TChar ","; TNow (lit "now") 0 1; TChar ",";
   TNowPlus (lit "Now") 0 0 1 1 (lit "INTERVAL") 1 (lit "15 minutes"); TChar ","; TUuid (lit "gen_random_uuid") 0 0].

Lemma Rewrite_translates_tokens_witness :
  Rewrite DialectMySQL [10; 20] (lit "SELECT 'it''s now() $1',$2,$1,now( ),Now() + INTERVAL '15 minutes',gen_random_uuid()") =
  (lit "SELECT 'it''s now() $1',?,?,NOW(),DATE_ADD(NOW(), INTERVAL 15 MINUTE),(UUID())", [20; 10]).
Proof.
  pose proof (Rewrite_translates_tokens DialectMySQL [10; 20] demo_tokens ltac:(done) ltac:(vm_compute; reflexivity)
    ltac:(intros _; vm_compute; reflexivity)) as H.
  vm_compute in H |- *. exact H.
Defined.

Lemma upsert_translation_witness :
  exists pg my, UpsertClause DialectPostgres [lit "id"; lit "org"] [lit "name"; lit "age"] = Some pg /\
    UpsertClause DialectMySQL [lit "id"; lit "org"] [lit "name"; lit "age"] = Some my /\
    translateMySQLUpsert (lit "INSERT INTO t (id, org) VALUES (1, 2) " ++ pg) =
    lit "INSERT INTO t (id, org) VALUES (1, 2) " ++ my.
Proof.
  apply (upsert_translation (lit "INSERT INTO t (id, org) VALUES (1, 2) ") [lit "id"; lit "org"] [lit "name"; lit "age"]);
    [done|reflexivity|reflexivity|vm_compute; reflexivity].
Defined.

(** Two queries outside the token language: the end of an identifier is taken for a call,
    and the conflict clause is looked for inside literals too. *)
Example Rewrite_inside_identifier :
  Rewrite DialectSQLite [1] (lit "SELECT unknow(), $1") = (lit "SELECT unkCURRENT_TIMESTAMP, ?", [1]).
Proof. vm_compute. reflexivity. Qed.

Example Rewrite_inside_literal :
  Rewrite DialectMySQL [1] (lit "INSERT INTO t (a) VALUES ('see on conflict do nothing', $1)") =
  (lit "INSERT INTO t (a) VALUES ('see ON DUPLICATE KEY UPDATE a = a", [1]).
Proof. vm_compute. reflexivity. Qed.
