(* ===== verification/OAuthStore.v ===== *)
(** * The store of OAuth sessions (server/auth/oauthstore/store.go)

    The store sends statements to a database: their texts are here, with the conflict clauses
    and the translation to the dialect of SqlRewrite.  The database is a parameter, a state with
    what executing a text with arguments and querying a row do to it; a call may fail at any
    time.  What is relied on ([understands]) is that a text of the store means to the tables what
    SQL says it does: inserts with a conflict clause, updates and deletions of the rows of a
    condition, where an update that would give two rows the same signature and type fails (the
    conflict clause needs that constraint), and the queries.  Sessions and forms are stored as
    JSON; the codecs and the check of secrets are parameters.  A slice is [None] when it is nil,
    a column when it is NULL. *)

From S2P Require Import Prelude GoStrings SqlRewrite.
From Stdlib Require Import Ascii.

#[local] Open Scope string_scope.
#[local] Open Scope list_scope.
#[local] Open Scope Z_scope.

(** ** Scopes in one column *)

Definition with_byte (c : ascii) (w : string) : string := (w ++ String c "")%string.

(** The loop over the bytes: [word] is [s[start:i]]. *)
Fixpoint split_words (word : string) (s : string) : list string :=
  match s with
  | EmptyString => if (word =? "")%string then [] else [word]
  | String c s =>
      if Ascii.eqb c " " then (if (word =? "")%string then [] else [word]) ++ split_words "" s
      else split_words (with_byte c word) s
  end.
Definition splitSpace (s : string) : list string := split_words "" s.

(** ** Rows *)

Record Requester (S F : Type) : Type := mkRequester {
  rq_ID : string; rq_Client : string; rq_RequestedScopes : option (list string); rq_GrantedScopes : option (list string);
  rq_RequestedAudience : option (list string); rq_GrantedAudience : option (list string); rq_Session : S; rq_Form : F }.
Arguments mkRequester {S F}. Arguments rq_ID {S F}. Arguments rq_Client {S F}. Arguments rq_RequestedScopes {S F}. Arguments rq_GrantedScopes {S F}.
Arguments rq_RequestedAudience {S F}. Arguments rq_GrantedAudience {S F}. Arguments rq_Session {S F}. Arguments rq_Form {S F}.

Record session_row : Type := mkRow {
  sr_request_id : string; sr_client_id : string; sr_requested_scopes : option string; sr_granted_scopes : option string;
  sr_requested_audience : option string; sr_granted_audience : option string; sr_session_data : string; sr_form : option string;
  sr_active : bool; sr_expires_at : string; sr_created_at : string }.

Record client_row : Type := mkClientRow {
  cl_hashed_secret : string; cl_redirect_uris : option string; cl_grant_types : option string; cl_response_types : option string;
  cl_scopes : string; cl_audience : option string; cl_is_public : bool }.

Record Client : Type := mkClient {
  c_ID : string; c_Secret : string; c_RedirectURIs : option (list string); c_GrantTypes : option (list string);
  c_ResponseTypes : option (list string); c_Scopes : list string; c_Audience : option (list string); c_Public : bool }.

Inductive oauth_error := ErrNotFound | ErrInactiveToken | ErrJTIKnown | ErrInvalidClient.

#[local] Arguments lit _ : simpl never.

(** Arguments of a statement and values of a row. *)
Notation sqlarg := (option string).
Inductive sqlval := VNull | VText (s : string) | VBool (b : bool).

(** A query of one row: an error, no row, or its values. *)
Inductive query_answer := QErr | QNone | QRow (vs : list sqlval).

Section store.
Context {S F : Type} (marshal_strings : list string -> string) (unmarshal_strings : string -> option (list string)).
Context (marshal_session : S -> string) (unmarshal_session : string -> option S) (zero_session : S).
Context (marshal_form : F -> string) (unmarshal_form : string -> option F) (zero_form : F).
(** [VerifyPassword]: bcrypt. *)
Context (VerifyPassword : string -> string -> bool).

(** The database: [ExecContext] says whether it succeeded, and the state after it. *)
Context {D : Type} (ExecContext : bytes -> list sqlarg -> D -> bool * D) (QueryRowContext : bytes -> list sqlarg -> D -> query_answer).
Context (dialect : SQLDialect).

Definition exec (query : bytes) (args : list sqlarg) (d : D) : bool * D := let '(q, a) := Rewrite dialect args query in ExecContext q a d.
Definition queryRow (query : bytes) (args : list sqlarg) (d : D) : query_answer := let '(q, a) := Rewrite dialect args query in QueryRowContext q a d.

(** A statement whose conflict clause panics while it is built is not sent; it does not here. *)
Definition exec_upsert (query : string) (conflict updates : list string) (args : list sqlarg) (d : D) : bool * D :=
  match UpsertClause dialect (lit <$> conflict) (lit <$> updates) with
  | Some clause => exec (lit query ++ clause) args d
  | None => (false, d)
  end.

Definition StringSlice_Value (s : option (list string)) : sqlarg := marshal_strings <$> s.

(** [None] is an error of [Scan]. *)
Definition StringSlice_Scan (v : sqlval) : option (option (list string)) :=
  match v with
  | VNull => Some None
  | VText data => if (data =? "")%string then Some None else Some <$> unmarshal_strings data
  | VBool _ => None
  end.

(** [Scan] into a string, a slice of bytes (a NULL is the nil slice) and a boolean. *)
Definition scan_string (v : sqlval) : option string := match v with VText s => Some s | _ => None end.
Definition scan_bytes (v : sqlval) : option string := match v with VText s => Some s | VNull => Some "" | VBool _ => None end.
Definition scan_bool (v : sqlval) : option bool := match v with VBool b => Some b | _ => None end.

Definition getClient (id : string) (d : D) : option Client :=
  match queryRow (lit "SELECT hashed_secret, redirect_uris, grant_types, response_types, scopes, audience, is_public
		 FROM oauth_clients WHERE id = $1") [Some id] d with
  | QRow [hashed; redirectURIs; grantTypes; responseTypes; scopes; audience; isPublic] =>
      hashed ← scan_bytes hashed;
      uris ← StringSlice_Scan redirectURIs; grants ← StringSlice_Scan grantTypes; responses ← StringSlice_Scan responseTypes;
      scopes ← scan_string scopes; audience ← StringSlice_Scan audience; isPublic ← scan_bool isPublic;
      Some (mkClient id hashed uris grants responses (splitSpace scopes) audience isPublic)
  | _ => None
  end.

Definition saveSession (now expires signature stype : string) (req : Requester S F) : D -> bool * D :=
  exec_upsert "INSERT INTO oauth_sessions
		 (signature, type, request_id, client_id, requested_scopes, granted_scopes,
		  requested_audience, granted_audience, session_data, form, lang, active, expires_at, created_at)
		 VALUES ($1,$2,$3,$4,$5,$6,$7,$8,$9,$10,$11,true,$12,$13) " ["signature"; "type"] ["session_data"; "active"]
    [Some signature; Some stype; Some (rq_ID req); Some (rq_Client req);
     StringSlice_Value (rq_RequestedScopes req); StringSlice_Value (rq_GrantedScopes req);
     StringSlice_Value (rq_RequestedAudience req); StringSlice_Value (rq_GrantedAudience req);
     Some (marshal_session (rq_Session req)); Some (marshal_form (rq_Form req)); Some ""; Some expires; Some now].

Definition read_session (data : string) : S := if (data =? "")%string then zero_session else default zero_session (unmarshal_session data).
Definition read_form (data : string) : F := if (data =? "")%string then zero_form else default zero_form (unmarshal_form data).

Definition loadSession (signature stype : string) (d : D) : Requester S F * Client + oauth_error :=
  let row :=
    match queryRow (lit "SELECT request_id, client_id, requested_scopes, granted_scopes,
		        requested_audience, granted_audience, session_data, form, active
		 FROM oauth_sessions WHERE signature = $1 AND type = $2") [Some signature; Some stype] d with
    | QRow [requestID; clientID; rs; gs; ra; ga; sessData; formData; active] =>
        requestID ← scan_string requestID; clientID ← scan_string clientID;
        rs ← StringSlice_Scan rs; gs ← StringSlice_Scan gs; ra ← StringSlice_Scan ra; ga ← StringSlice_Scan ga;
        sessData ← scan_bytes sessData; formData ← scan_bytes formData; active ← scan_bool active;
        Some (mkRequester requestID clientID rs gs ra ga sessData formData, active)
    | _ => None
    end in
  match row with
  | None => inr ErrNotFound
  | Some (r, active) =>
      if negb active then inr ErrInactiveToken
      else match getClient (rq_Client r) d with
           | None => inr ErrNotFound
           | Some client =>
               inl (mkRequester (rq_ID r) (rq_Client r) (rq_RequestedScopes r) (rq_GrantedScopes r) (rq_RequestedAudience r) (rq_GrantedAudience r)
                      (read_session (rq_Session r)) (read_form (rq_Form r)), client)
           end
  end.

Definition CreateAuthorizeCodeSession (now expires code : string) (req : Requester S F) := saveSession now expires code "authorize_code" req.
Definition GetAuthorizeCodeSession (code : string) := loadSession code "authorize_code".
Definition InvalidateAuthorizeCodeSession (code : string) : D -> bool * D :=
  exec (lit "UPDATE oauth_sessions SET active = false WHERE signature = $1 AND type = 'authorize_code'") [Some code].
Definition CreateAccessTokenSession (now expires signature : string) (req : Requester S F) := saveSession now expires signature "access_token" req.
Definition GetAccessTokenSession (signature : string) := loadSession signature "access_token".
Definition DeleteAccessTokenSession (signature : string) : D -> bool * D :=
  exec (lit "DELETE FROM oauth_sessions WHERE signature = $1 AND type = 'access_token'") [Some signature].
Definition CreateRefreshTokenSession (now expires signature : string) (req : Requester S F) := saveSession now expires signature "refresh_token" req.
Definition GetRefreshTokenSession (signature : string) := loadSession signature "refresh_token".
Definition DeleteRefreshTokenSession (signature : string) : D -> bool * D :=
  exec (lit "DELETE FROM oauth_sessions WHERE signature = $1 AND type = 'refresh_token'") [Some signature].
Definition RevokeRefreshToken (requestID : string) : D -> bool * D :=
  exec (lit "UPDATE oauth_sessions SET active = false WHERE request_id = $1 AND type = 'refresh_token'") [Some requestID].
Definition RevokeAccessToken (requestID : string) : D -> bool * D :=
  exec (lit "UPDATE oauth_sessions SET active = false WHERE request_id = $1 AND type = 'access_token'") [Some requestID].
Definition CreatePKCERequestSession (now expires signature : string) (req : Requester S F) := saveSession now expires signature "pkce" req.
Definition GetPKCERequestSession (signature : string) := loadSession signature "pkce".
Definition DeletePKCERequestSession (signature : string) : D -> bool * D :=
  exec (lit "DELETE FROM oauth_sessions WHERE signature = $1 AND type = 'pkce'") [Some signature].

(** The errors of the first two calls are ignored. *)
Definition RotateRefreshToken (requestID refreshTokenSignature : string) (d : D) : bool * D :=
  let oldSig :=
    match queryRow (lit "SELECT signature FROM oauth_sessions WHERE request_id = $1 AND type = 'refresh_token' AND active = true ORDER BY created_at DESC LIMIT 1") [Some requestID] d with
    | QRow [v] => default "" (scan_string v)
    | _ => ""
    end in
  let d := if (oldSig =? "")%string then d else (exec (lit "UPDATE oauth_sessions SET active = false WHERE signature = $1") [Some oldSig] d).2 in
  exec (lit "UPDATE oauth_sessions SET signature = $1 WHERE request_id = $2 AND type = 'refresh_token'") [Some refreshTokenSignature; Some requestID] d.

Definition CreateOpenIDConnectSession (now expires authorizeCode : string) (req : Requester S F) : D -> bool * D :=
  exec_upsert "INSERT INTO oauth_sessions (signature, type, request_id, client_id, session_data, active, expires_at, created_at)
		 VALUES ($1, 'oidc', $2, $3, $4, true, $5, $6) " ["signature"; "type"] ["session_data"]
    [Some authorizeCode; Some (rq_ID req); Some (rq_Client req); Some (marshal_session (rq_Session req)); Some expires; Some now].

Definition GetOpenIDConnectSession (authorizeCode : string) (d : D) : string * S * Client + oauth_error :=
  let row :=
    match queryRow (lit "SELECT request_id, client_id, session_data FROM oauth_sessions WHERE signature = $1 AND type = 'oidc' AND active = true") [Some authorizeCode] d with
    | QRow [requestID; clientID; sessData] =>
        requestID ← scan_string requestID; clientID ← scan_string clientID; sessData ← scan_bytes sessData; Some (requestID, clientID, sessData)
    | _ => None
    end in
  match row with
  | Some (requestID, clientID, sessData) =>
      match getClient clientID d with
      | Some client => inl (requestID, default zero_session (unmarshal_session sessData), client)
      | None => inr ErrNotFound
      end
  | None => inr ErrNotFound
  end.
Definition DeleteOpenIDConnectSession (authorizeCode : string) : D -> bool * D :=
  exec (lit "DELETE FROM oauth_sessions WHERE signature = $1 AND type = 'oidc'") [Some authorizeCode].

Definition Authenticate (clientID secret : string) (d : D) : string + oauth_error :=
  match getClient clientID d with
  | None => inr ErrNotFound
  | Some client => if VerifyPassword (c_Secret client) secret then inl clientID else inr ErrInvalidClient
  end.

Definition ClientAssertionJWTValid (now jti : string) (d : D) : option oauth_error :=
  let exists_ :=
    match queryRow (lit "SELECT EXISTS(SELECT 1 FROM oauth_jti_blacklist WHERE jti = $1 AND expires_at > $2)") [Some jti; Some now] d with
    | QRow [v] => default false (scan_bool v)
    | _ => false
    end in
  if exists_ then Some ErrJTIKnown else None.

Definition SetClientAssertionJWT (jti exp : string) : D -> bool * D :=
  exec_upsert "INSERT INTO oauth_jti_blacklist (jti, expires_at) VALUES ($1, $2) " ["jti"] [] [Some jti; Some exp].

(** ** What the statements mean *)

(** The tables: sessions by signature and type, clients by id, assertions by identifier. *)
Notation sessions := (gmap (string * string) session_row).
Record tables : Type := mkTables { tb_sessions : sessions; tb_clients : gmap string client_row; tb_jti : gmap string string }.
Definition with_sessions (t : tables) (s : sessions) : tables := mkTables s (tb_clients t) (tb_jti t).

Definition set_active (b : bool) (r : session_row) : session_row :=
  mkRow (sr_request_id r) (sr_client_id r) (sr_requested_scopes r) (sr_granted_scopes r) (sr_requested_audience r) (sr_granted_audience r)
    (sr_session_data r) (sr_form r) b (sr_expires_at r) (sr_created_at r).
Definition set_session (data : string) (r : session_row) : session_row :=
  mkRow (sr_request_id r) (sr_client_id r) (sr_requested_scopes r) (sr_granted_scopes r) (sr_requested_audience r) (sr_granted_audience r)
    data (sr_form r) (sr_active r) (sr_expires_at r) (sr_created_at r).

(** The types of the rows. *)
Inductive row_type := TAuthorize | TAccess | TRefresh | TPkce | TOidc.
Definition type_text (ty : row_type) : string :=
  match ty with TAuthorize => "authorize_code" | TAccess => "access_token" | TRefresh => "refresh_token" | TPkce => "pkce" | TOidc => "oidc" end.

Inductive stmt :=
| SSave (signature stype : string) (row : session_row)
| SSaveOIDC (signature : string) (row : session_row)
| SDeactivateSigType (signature : string)
| SDeactivateSig (signature : string)
| SDeactivateRequest (request : string) (access : bool)
| SDelete (signature : string) (ty : row_type)
| SRename (signature request : string)
| SSetJti (jti exp : string).

Definition access_type (access : bool) : string := if access then "access_token" else "refresh_token".

(** The text of each with its arguments, before the translation to the dialect. *)
Definition stmt_text (s : stmt) : option bytes :=
  match s with
  | SSave _ _ _ => app (lit "INSERT INTO oauth_sessions
		 (signature, type, request_id, client_id, requested_scopes, granted_scopes,
		  requested_audience, granted_audience, session_data, form, lang, active, expires_at, created_at)
		 VALUES ($1,$2,$3,$4,$5,$6,$7,$8,$9,$10,$11,true,$12,$13) ") <$> UpsertClause dialect [lit "signature"; lit "type"] [lit "session_data"; lit "active"]
  | SSaveOIDC _ _ => app (lit "INSERT INTO oauth_sessions (signature, type, request_id, client_id, session_data, active, expires_at, created_at)
		 VALUES ($1, 'oidc', $2, $3, $4, true, $5, $6) ") <$> UpsertClause dialect [lit "signature"; lit "type"] [lit "session_data"]
  | SDeactivateSigType _ => Some (lit "UPDATE oauth_sessions SET active = false WHERE signature = $1 AND type = 'authorize_code'")
  | SDeactivateSig _ => Some (lit "UPDATE oauth_sessions SET active = false WHERE signature = $1")
  | SDeactivateRequest _ access => Some (lit ("UPDATE oauth_sessions SET active = false WHERE request_id = $1 AND type = '" ++ access_type access ++ "'"))
  | SDelete _ ty => Some (lit ("DELETE FROM oauth_sessions WHERE signature = $1 AND type = '" ++ type_text ty ++ "'"))
  | SRename _ _ => Some (lit "UPDATE oauth_sessions SET signature = $1 WHERE request_id = $2 AND type = 'refresh_token'")
  | SSetJti _ _ => app (lit "INSERT INTO oauth_jti_blacklist (jti, expires_at) VALUES ($1, $2) ") <$> UpsertClause dialect [lit "jti"] []
  end.

Definition stmt_args (s : stmt) : list sqlarg :=
  match s with
  | SSave sig ty r => [Some sig; Some ty; Some (sr_request_id r); Some (sr_client_id r); sr_requested_scopes r; sr_granted_scopes r; sr_requested_audience r; sr_granted_audience r;
                       Some (sr_session_data r); sr_form r; Some ""; Some (sr_expires_at r); Some (sr_created_at r)]
  | SSaveOIDC sig r => [Some sig; Some (sr_request_id r); Some (sr_client_id r); Some (sr_session_data r); Some (sr_expires_at r); Some (sr_created_at r)]
  | SDeactivateSigType sig | SDeactivateSig sig | SDelete sig _ => [Some sig]
  | SDeactivateRequest id _ => [Some id]
  | SRename sig id => [Some sig; Some id]
  | SSetJti jti exp => [Some jti; Some exp]
  end.

(** [INSERT ... ON CONFLICT (signature, type) DO UPDATE SET ...] *)
Definition insert_row (key : string * string) (row : session_row) (update : session_row -> session_row) (t : sessions) : sessions :=
  match t !! key with None => <[key := row]> t | Some old => <[key := update old]> t end.

(** [UPDATE ... WHERE P]: an error if two rows would have the same signature and type. *)
Definition update_rows (P : string * string -> session_row -> bool) (f : string * string * session_row -> string * string * session_row) (t : sessions) : option sessions :=
  let rows := (fun kr => if P kr.1 kr.2 then f kr else kr) <$> map_to_list t in
  if decide (NoDup rows.*1) then Some (list_to_map rows) else None.

Definition deactivate (P : string * string -> session_row -> bool) : sessions -> option sessions := update_rows P (fun kr => (kr.1, set_active false kr.2)).

(** Columns an insert does not name are NULL; [active] is true in both. *)
Definition denote (s : stmt) (t : tables) : option tables :=
  match s with
  | SSave sig ty r => Some (with_sessions t (insert_row (sig, ty) (set_active true r) (fun old => set_active true (set_session (sr_session_data r) old)) (tb_sessions t)))
  | SSaveOIDC sig r =>
      Some (with_sessions t (insert_row (sig, "oidc")
        (mkRow (sr_request_id r) (sr_client_id r) None None None None (sr_session_data r) None true (sr_expires_at r) (sr_created_at r))
        (set_session (sr_session_data r)) (tb_sessions t)))
  | SDeactivateSigType sig => with_sessions t <$> deactivate (fun k _ => bool_decide (k = (sig, "authorize_code"))) (tb_sessions t)
  | SDeactivateSig sig => with_sessions t <$> deactivate (fun k _ => bool_decide (k.1 = sig)) (tb_sessions t)
  | SDeactivateRequest id access => with_sessions t <$> deactivate (fun k r => bool_decide (sr_request_id r = id /\ k.2 = access_type access)) (tb_sessions t)
  | SDelete sig ty => Some (with_sessions t (delete (sig, type_text ty) (tb_sessions t)))
  | SRename sig id => with_sessions t <$> update_rows (fun k r => bool_decide (sr_request_id r = id /\ k.2 = "refresh_token")) (fun kr => ((sig, kr.1.2), kr.2)) (tb_sessions t)
  | SSetJti jti exp => Some (mkTables (tb_sessions t) (tb_clients t) (match tb_jti t !! jti with None => <[jti := exp]> (tb_jti t) | Some _ => tb_jti t end))
  end.

Inductive query := QSession (signature stype : string) | QOidc (signature : string) | QClient (id : string) | QLatest (request : string) | QJti (jti now : string).

Definition query_text (q : query) : bytes :=
  match q with
  | QSession _ _ => lit "SELECT request_id, client_id, requested_scopes, granted_scopes,
		        requested_audience, granted_audience, session_data, form, active
		 FROM oauth_sessions WHERE signature = $1 AND type = $2"
  | QOidc _ => lit "SELECT request_id, client_id, session_data FROM oauth_sessions WHERE signature = $1 AND type = 'oidc' AND active = true"
  | QClient _ => lit "SELECT hashed_secret, redirect_uris, grant_types, response_types, scopes, audience, is_public
		 FROM oauth_clients WHERE id = $1"
  | QLatest _ => lit "SELECT signature FROM oauth_sessions WHERE request_id = $1 AND type = 'refresh_token' AND active = true ORDER BY created_at DESC LIMIT 1"
  | QJti _ _ => lit "SELECT EXISTS(SELECT 1 FROM oauth_jti_blacklist WHERE jti = $1 AND expires_at > $2)"
  end.
Definition query_args (q : query) : list sqlarg :=
  match q with QSession sig ty => [Some sig; Some ty] | QOidc sig => [Some sig] | QClient id => [Some id] | QLatest id => [Some id] | QJti jti now => [Some jti; Some now] end.

Definition column (c : sqlarg) : sqlval := match c with Some s => VText s | None => VNull end.

(** The rows a query may return first; [text_lt] is the order of the columns of times. *)
Context (text_lt : string -> string -> bool).
Definition answers (q : query) (t : tables) (a : option (list sqlval)) : Prop :=
  match q with
  | QSession sig ty => a = (fun r => [VText (sr_request_id r); VText (sr_client_id r); column (sr_requested_scopes r); column (sr_granted_scopes r);
      column (sr_requested_audience r); column (sr_granted_audience r); VText (sr_session_data r); column (sr_form r); VBool (sr_active r)]) <$> tb_sessions t !! (sig, ty)
  | QOidc sig => a = (r ← tb_sessions t !! (sig, "oidc"); if sr_active r then Some [VText (sr_request_id r); VText (sr_client_id r); VText (sr_session_data r)] else None)
  | QClient id => a = (fun r => [VText (cl_hashed_secret r); column (cl_redirect_uris r); column (cl_grant_types r); column (cl_response_types r);
      VText (cl_scopes r); column (cl_audience r); VBool (cl_is_public r)]) <$> tb_clients t !! id
  | QLatest id =>
      let candidate key r := tb_sessions t !! key = Some r /\ sr_request_id r = id /\ key.2 = "refresh_token" /\ sr_active r = true in
      match a with
      | Some vs => exists key r, candidate key r /\ vs = [VText key.1] /\ forall key' r', candidate key' r' -> text_lt (sr_created_at r) (sr_created_at r') = false
      | None => forall key r, ~ candidate key r
      end
  | QJti jti now => a = Some [VBool (match tb_jti t !! jti with Some exp => text_lt now exp | None => false end)]
  end.

(** The database reads the texts of the store as SQL: a statement that succeeds has done what
    it says, one that fails has done nothing, and a query that does not fail is answered from
    the tables. *)
Context (tables_of : D -> tables).
Record understands : Prop := mkUnderstands {
  ud_exec s text d : stmt_text s = Some text ->
    let '(ok, d') := exec text (stmt_args s) d in if ok : bool then denote s (tables_of d) = Some (tables_of d') else tables_of d' = tables_of d;
  ud_query q d : match queryRow (query_text q) (query_args q) d with QErr => True | QNone => answers q (tables_of d) None | QRow vs => answers q (tables_of d) (Some vs) end
}.

(** A database that fails only where it must. *)
Definition reliable : Prop :=
  (forall s text d, stmt_text s = Some text -> is_Some (denote s (tables_of d)) -> (exec text (stmt_args s) d).1 = true) /\
  (forall q d, queryRow (query_text q) (query_args q) d <> QErr).
Definition no_query_fails (d : D) : Prop := forall q, queryRow (query_text q) (query_args q) d <> QErr.

(** ** The store as a map *)

(** The kinds of sessions with create and get operations of one shape; an OpenID Connect
    session is created and read by statements of its own. *)
Inductive kind := AuthorizeCode | AccessToken | RefreshToken | PKCE.
Definition type_of (k : kind) : string :=
  match k with AuthorizeCode => "authorize_code" | AccessToken => "access_token" | RefreshToken => "refresh_token" | PKCE => "pkce" end.

Definition CreateSession (k : kind) : string -> string -> string -> Requester S F -> D -> bool * D :=
  match k with
  | AuthorizeCode => CreateAuthorizeCodeSession | AccessToken => CreateAccessTokenSession
  | RefreshToken => CreateRefreshTokenSession | PKCE => CreatePKCERequestSession
  end.
Definition GetSession (k : kind) : string -> D -> Requester S F * Client + oauth_error :=
  match k with
  | AuthorizeCode => GetAuthorizeCodeSession | AccessToken => GetAccessTokenSession
  | RefreshToken => GetRefreshTokenSession | PKCE => GetPKCERequestSession
  end.

Inductive oauth_op :=
| OCreate (k : kind) (now expires signature : string) (req : Requester S F)
| ODeleteAccess (signature : string) | ODeleteRefresh (signature : string) | ODeletePKCE (signature : string)
| OInvalidate (code : string)
| ORevokeRefresh (requestID : string) | ORevokeAccess (requestID : string)
| OCreateOIDC (now expires code : string) (req : Requester S F) | ODeleteOIDC (code : string).

Definition exec_op (o : oauth_op) : D -> bool * D :=
  match o with
  | OCreate k now expires sig req => CreateSession k now expires sig req
  | ODeleteAccess sig => DeleteAccessTokenSession sig
  | ODeleteRefresh sig => DeleteRefreshTokenSession sig
  | ODeletePKCE sig => DeletePKCERequestSession sig
  | OInvalidate code => InvalidateAuthorizeCodeSession code
  | ORevokeRefresh id => RevokeRefreshToken id
  | ORevokeAccess id => RevokeAccessToken id
  | OCreateOIDC now expires code req => CreateOpenIDConnectSession now expires code req
  | ODeleteOIDC code => DeleteOpenIDConnectSession code
  end.

(** The operations with their results. *)
Fixpoint run (ops : list oauth_op) (d : D) : list (oauth_op * bool) * D :=
  match ops with
  | [] => ([], d)
  | o :: ops => let '(ok, d) := exec_op o d in let '(l, d) := run ops d in ((o, ok) :: l, d)
  end.

(** What is kept of a session: the request as it was first created, with the session data
    of the last creation, and whether it is active. *)
Notation model := (kind -> string -> option (Requester S F * bool)).

Definition resession (s : S) (q : Requester S F) : Requester S F :=
  mkRequester (rq_ID q) (rq_Client q) (rq_RequestedScopes q) (rq_GrantedScopes q) (rq_RequestedAudience q) (rq_GrantedAudience q) s (rq_Form q).

#[global] Instance kind_eq_dec : EqDecision kind.
Proof. solve_decision. Defined.

Definition spec_deactivate (P : kind -> string -> Requester S F -> Prop) `{forall k sig q, Decision (P k sig q)} (m : model) : model := fun k sig =>
  match m k sig with Some (q, b) => Some (q, if decide (P k sig q) then false else b) | None => None end.

Definition spec_delete (k' : kind) (sig' : string) (m : model) : model := fun k sig => if decide (k = k' /\ sig = sig') then None else m k sig.

(** An operation that failed changes nothing. *)
Definition spec_step (m : model) (x : oauth_op * bool) : model :=
  if x.2 then
    match x.1 with
    | OCreate k' _ _ sig' req => fun k sig =>
        if decide (k = k' /\ sig = sig') then Some (match m k sig with Some (q, _) => resession (rq_Session req) q | None => req end, true) else m k sig
    | ODeleteAccess sig => spec_delete AccessToken sig m
    | ODeleteRefresh sig => spec_delete RefreshToken sig m
    | ODeletePKCE sig => spec_delete PKCE sig m
    | OInvalidate code => spec_deactivate (fun k sig _ => k = AuthorizeCode /\ sig = code) m
    | ORevokeRefresh id => spec_deactivate (fun k _ q => k = RefreshToken /\ rq_ID q = id) m
    | ORevokeAccess id => spec_deactivate (fun k _ q => k = AccessToken /\ rq_ID q = id) m
    | OCreateOIDC _ _ _ _ | ODeleteOIDC _ => m
    end
  else m.

Definition spec_get (m : model) (clients : string -> option Client) (k : kind) (sig : string) : Requester S F * Client + oauth_error :=
  match m k sig with
  | None => inr ErrNotFound
  | Some (_, false) => inr ErrInactiveToken
  | Some (q, true) => match clients (rq_Client q) with Some c => inl (q, c) | None => inr ErrNotFound end
  end.

(** The client in the table of clients. *)
Definition client_of (t : tables) (id : string) : option Client :=
  r ← tb_clients t !! id;
  uris ← StringSlice_Scan (column (cl_redirect_uris r)); grants ← StringSlice_Scan (column (cl_grant_types r));
  responses ← StringSlice_Scan (column (cl_response_types r)); audience ← StringSlice_Scan (column (cl_audience r));
  Some (mkClient id (cl_hashed_secret r) uris grants responses (splitSpace (cl_scopes r)) audience (cl_is_public r)).

(** What JSON must do: give back what was written, as a text that is not empty. *)
Definition codecs_ok : Prop :=
  (forall l, unmarshal_strings (marshal_strings l) = Some l /\ marshal_strings l <> "") /\
  (forall s, unmarshal_session (marshal_session s) = Some s /\ marshal_session s <> "") /\
  (forall f, unmarshal_form (marshal_form f) = Some f /\ marshal_form f <> "").

Definition represents (q : Requester S F) (b : bool) (r : session_row) : Prop :=
  sr_request_id r = rq_ID q /\ sr_client_id r = rq_Client q /\
  sr_requested_scopes r = StringSlice_Value (rq_RequestedScopes q) /\ sr_granted_scopes r = StringSlice_Value (rq_GrantedScopes q) /\
  sr_requested_audience r = StringSlice_Value (rq_RequestedAudience q) /\ sr_granted_audience r = StringSlice_Value (rq_GrantedAudience q) /\
  sr_session_data r = marshal_session (rq_Session q) /\ sr_form r = Some (marshal_form (rq_Form q)) /\ sr_active r = b.

Definition refines (m : model) (t : tables) : Prop := forall k sig,
  match m k sig, tb_sessions t !! (sig, type_of k) with
  | None, None => True
  | Some (q, b), Some r => represents q b r
  | _, _ => False
  end.

(** The statement an operation sends. *)
Definition session_of (req : Requester S F) (expires now : string) : session_row :=
  mkRow (rq_ID req) (rq_Client req) (StringSlice_Value (rq_RequestedScopes req)) (StringSlice_Value (rq_GrantedScopes req))
    (StringSlice_Value (rq_RequestedAudience req)) (StringSlice_Value (rq_GrantedAudience req))
    (marshal_session (rq_Session req)) (Some (marshal_form (rq_Form req))) true expires now.

Definition stmt_of (o : oauth_op) : stmt :=
  match o with
  | OCreate k now expires sig req => SSave sig (type_of k) (session_of req expires now)
  | ODeleteAccess sig => SDelete sig TAccess
  | ODeleteRefresh sig => SDelete sig TRefresh
  | ODeletePKCE sig => SDelete sig TPkce
  | OInvalidate code => SDeactivateSigType code
  | ORevokeRefresh id => SDeactivateRequest id false
  | ORevokeAccess id => SDeactivateRequest id true
  | OCreateOIDC now expires code req => SSaveOIDC code (session_of req expires now)
  | ODeleteOIDC code => SDelete code TOidc
  end.

Lemma upsert_some conflict updates : conflict <> [] -> exists c, UpsertClause dialect conflict updates = Some c.
Proof using Type. unfold UpsertClause. destruct dialect, updates, conflict; eauto; done. Qed.

Lemma exec_op_stmt o : exists text, stmt_text (stmt_of o) = Some text /\ forall d, exec_op o d = exec text (stmt_args (stmt_of o)) d.
Proof.
  destruct o as [k now expires sig req|sig|sig|sig|code|id|id|now expires code req|code]; cbn [stmt_of stmt_text stmt_args exec_op].
  - destruct (upsert_some [lit "signature"; lit "type"] [lit "session_data"; lit "active"]) as [c Hc]; [done|]. eexists. rewrite Hc. split; [reflexivity|].
    intros d. assert (CreateSession k now expires sig req d = saveSession now expires sig (type_of k) req d) as -> by (by destruct k).
    unfold saveSession, exec_upsert. cbn [fmap list_fmap]. rewrite Hc. reflexivity.
  - eexists. split; reflexivity.
  - eexists. split; reflexivity.
  - eexists. split; reflexivity.
  - eexists. split; reflexivity.
  - eexists. split; reflexivity.
  - eexists. split; reflexivity.
  - destruct (upsert_some [lit "signature"; lit "type"] [lit "session_data"]) as [c Hc]; [done|]. eexists. rewrite Hc. split; [reflexivity|].
    intros d. unfold CreateOpenIDConnectSession, exec_upsert. cbn [fmap list_fmap]. rewrite Hc. reflexivity.
  - eexists. split; reflexivity.
Qed.

Lemma exec_op_denote o d : understands -> let '(ok, d') := exec_op o d in if ok : bool then denote (stmt_of o) (tables_of d) = Some (tables_of d') else tables_of d' = tables_of d.
Proof. intros U. destruct (exec_op_stmt o) as (text & Ht & ->). by apply (ud_exec U). Qed.

Lemma deactivate_spec P t : deactivate P t = Some (map_imap (fun k r => Some (if P k r then set_active false r else r)) t).
Proof using Type.
  unfold deactivate, update_rows. set (rows := _ <$> map_to_list t).
  assert (Hk : rows.*1 = (map_to_list t).*1).
  { unfold rows. rewrite <- list_fmap_compose. apply list_fmap_ext. intros i [k r] _. cbn. by destruct (P k r). }
  rewrite decide_True by (rewrite Hk; apply NoDup_fst_map_to_list). f_equal. apply map_eq. intros key. apply option_eq. intros r.
  rewrite <- elem_of_list_to_map by (rewrite Hk; apply NoDup_fst_map_to_list). rewrite map_lookup_imap. unfold rows. rewrite list_elem_of_fmap. split.
  - intros ([k r0] & E & Hin%elem_of_map_to_list). cbn in E. destruct (P k r0) eqn:EP; injection E as -> ->; rewrite Hin; cbn; by rewrite EP.
  - intros H. apply bind_Some in H as (r0 & H0 & [= <-]). exists (key, r0). cbn. split; [by destruct (P key r0)|by apply elem_of_map_to_list].
Qed.

Lemma type_of_inj k k' : type_of k = type_of k' -> k = k'.
Proof. by destruct k, k'. Qed.

Lemma key_ne k k' (sig sig' : string) : ~ (k = k' /\ sig = sig') -> (sig', type_of k') <> (sig, type_of k).
Proof. intros H [= -> E]. apply H. split; [symmetry; by apply type_of_inj|done]. Qed.

Lemma scan_value l : codecs_ok -> StringSlice_Scan (column (StringSlice_Value l)) = Some l.
Proof. intros [H _]. destruct l as [l|]; [|done]. cbn. destruct (H l) as [-> Hne]. by destruct (String.eqb_spec (marshal_strings l) ""). Qed.

(** Every statement that sets rows inactive. *)
Lemma deactivate_refines m t t' (P : string * string -> session_row -> bool) (Q : kind -> string -> Requester S F -> Prop) `{forall k sig q, Decision (Q k sig q)} :
  refines m t -> with_sessions t <$> deactivate P (tb_sessions t) = Some t' ->
  (forall k sig q b r, represents q b r -> P (sig, type_of k) r = bool_decide (Q k sig q)) -> refines (spec_deactivate Q m) t'.
Proof.
  rewrite deactivate_spec. intros Hr [= <-] HP k sig. specialize (Hr k sig). cbn. rewrite map_lookup_imap. unfold spec_deactivate.
  destruct (m k sig) as [[q b]|], (tb_sessions t !! (sig, type_of k)) as [r|]; cbn; try done.
  rewrite (HP _ _ _ _ _ Hr). destruct Hr as (? & ? & ? & ? & ? & ? & ? & ? & Hb). case_bool_decide; rewrite ?decide_True, ?decide_False by done; by repeat split.
Qed.

Lemma delete_refines m t k' sig' : refines m t -> refines (spec_delete k' sig' m) (with_sessions t (delete (sig', type_of k') (tb_sessions t))).
Proof.
  intros Hr k sig. specialize (Hr k sig). cbn. unfold spec_delete. destruct (decide (k = k' /\ sig = sig')) as [[-> ->]|Hne]; [by rewrite lookup_delete_eq|].
  by rewrite lookup_delete_ne by (by apply key_ne).
Qed.

(** Rows of a type that no kind has are not seen. *)
Lemma other_type_refines m t s (code : string) : refines m t -> (forall key, key <> (code, "oidc") -> s !! key = tb_sessions t !! key) -> refines m (with_sessions t s).
Proof. intros Hr Hf k sig. specialize (Hr k sig). cbn. rewrite Hf; [done|]. intros [= _ E]. by destruct k. Qed.

Lemma stmt_refines o m t t' : refines m t -> denote (stmt_of o) t = Some t' -> refines (spec_step m (o, true)) t'.
Proof.
  intros Hr. destruct o as [k now expires sig req|sig|sig|sig|code|id|id|now expires code req|code]; cbn [stmt_of denote spec_step fst snd].
  - intros [= <-] k' sig'. specialize (Hr k' sig'). cbn. unfold insert_row. destruct (decide (k' = k /\ sig' = sig)) as [[-> ->]|Hne].
    + destruct (m k sig) as [[q b]|], (tb_sessions t !! (sig, type_of k)) as [r|]; try done; cbn; rewrite lookup_insert_eq; [|by repeat split].
      destruct Hr as (? & ? & ? & ? & ? & ? & ? & ? & _). by repeat split.
    + destruct (tb_sessions t !! (sig, type_of k)); cbn; by rewrite lookup_insert_ne by (by apply key_ne).
  - intros [= <-]. by apply (delete_refines m t AccessToken).
  - intros [= <-]. by apply (delete_refines m t RefreshToken).
  - intros [= <-]. by apply (delete_refines m t PKCE).
  - intros H. eapply deactivate_refines; [exact Hr|exact H|]. intros k sig q b r _. apply bool_decide_ext. split; [|by intros [-> ->]].
    intros [= -> E]. split; [|done]. by apply (type_of_inj k AuthorizeCode).
  - intros H. eapply deactivate_refines; [exact Hr|exact H|]. intros k sig q b r (-> & _). apply bool_decide_ext. split; [|by intros [-> ->]].
    intros [-> E]. split; [|done]. by apply (type_of_inj k RefreshToken).
  - intros H. eapply deactivate_refines; [exact Hr|exact H|]. intros k sig q b r (-> & _). apply bool_decide_ext. split; [|by intros [-> ->]].
    intros [-> E]. split; [|done]. by apply (type_of_inj k AccessToken).
  - intros [= <-]. apply (other_type_refines m t _ code Hr). intros key Hk. unfold insert_row. destruct (tb_sessions t !! (code, "oidc")); by rewrite lookup_insert_ne by congruence.
  - intros [= <-]. apply (other_type_refines m t _ code Hr). intros key Hk. by rewrite lookup_delete_ne by congruence.
Qed.

(** The clients are not written. *)
Lemma stmt_clients o t t' : denote (stmt_of o) t = Some t' -> tb_clients t' = tb_clients t.
Proof. destruct o; cbn; rewrite ?deactivate_spec; by intros [= <-]. Qed.

Lemma run_refines ops : understands -> forall m d, refines m (tables_of d) ->
  let '(l, d') := run ops d in refines (foldl spec_step m l) (tables_of d') /\ tb_clients (tables_of d') = tb_clients (tables_of d).
Proof.
  intros U. induction ops as [|o ops IH]; intros m d Hr; cbn [run]; [done|].
  pose proof (exec_op_denote o d U) as Hd. destruct (exec_op o d) as [ok d1].
  assert (Hr1 : refines (spec_step m (o, ok)) (tables_of d1) /\ tb_clients (tables_of d1) = tb_clients (tables_of d)).
  { destruct ok; [|cbn; by rewrite Hd]. split; [by eapply stmt_refines|by eapply stmt_clients]. }
  destruct Hr1 as [Hr1 Hc]. specialize (IH _ d1 Hr1). destruct (run ops d1) as [l d']. cbn [foldl]. by rewrite <- Hc.
Qed.

Lemma getClient_table id d : understands -> no_query_fails d -> getClient id d = client_of (tables_of d) id.
Proof.
  intros U N. unfold getClient, client_of. pose proof (ud_query U (QClient id) d) as H. pose proof (N (QClient id)) as Hn. cbn [query_text query_args answers] in H, Hn.
  destruct (queryRow _ _ d) as [| |vs]; [done|by destruct (tb_clients (tables_of d) !! id)|]. destruct (tb_clients (tables_of d) !! id) as [r|]; cbn in H; [|done]. injection H as ->. cbn. done.
Qed.

Lemma get_refines m d k sig : understands -> codecs_ok -> no_query_fails d -> refines m (tables_of d) -> GetSession k sig d = spec_get m (client_of (tables_of d)) k sig.
Proof.
  intros U Hc N Hr. specialize (Hr k sig). assert (GetSession k sig d = loadSession sig (type_of k) d) as -> by (by destruct k). unfold loadSession, spec_get.
  pose proof (ud_query U (QSession sig (type_of k)) d) as H. pose proof (N (QSession sig (type_of k))) as Hn. cbn [query_text query_args answers] in H, Hn.
  destruct (queryRow _ _ d) as [| |vs]; [done| |].
  - destruct (m k sig) as [[q b]|], (tb_sessions (tables_of d) !! (sig, type_of k)) as [r|]; done.
  - destruct (m k sig) as [[q b]|], (tb_sessions (tables_of d) !! (sig, type_of k)) as [r|]; try done. cbn in H. injection H as ->.
    destruct Hr as (H1 & H2 & H3 & H4 & H5 & H6 & H7 & H8 & H9). rewrite H3, H4, H5, H6, H8. cbn [scan_string mbind option_bind]. rewrite !scan_value by done. cbn.
    rewrite H9. destruct b; [|done]. cbn. rewrite H2, (getClient_table _ d U N). destruct (client_of (tables_of d) (rq_Client q)); [|done].
    destruct Hc as (_ & Hs & Hf). unfold read_session, read_form. rewrite H1, H7.
    destruct (Hs (rq_Session q)) as [-> Hse]. destruct (Hf (rq_Form q)) as [-> Hfe].
    destruct (String.eqb_spec (marshal_session (rq_Session q)) ""); [done|]. destruct (String.eqb_spec (marshal_form (rq_Form q)) ""); [done|]. by destruct q.
Qed.

(** C15: The store of OAuth sessions is a map.  With a database that reads the texts of the store
    as SQL: after any creations, deletions, invalidations and revocations, any of which may
    fail, from a table without sessions, the session of a kind and signature is found exactly
    when the map of the specification has it active and its client is in the table of clients:
    with the request as it was first created and the session data of the last creation. *)
Theorem oauth_sessions_are_map (ops : list oauth_op) (d : D) (k : kind) (sig : string) :
  understands -> codecs_ok -> tb_sessions (tables_of d) = ∅ ->
  let '(l, d') := run ops d in no_query_fails d' ->
  GetSession k sig d' = spec_get (foldl spec_step (fun _ _ => None) l) (client_of (tables_of d)) k sig.
Proof using Type.
  intros U Hc Hd. pose proof (run_refines ops U (fun _ _ => None) d) as R. destruct (run ops d) as [l d']. intros N.
  destruct R as [R C]; [intros k' sig'; by rewrite Hd, lookup_empty|]. rewrite (get_refines (foldl spec_step (fun _ _ => None) l)) by done.
  unfold spec_get, client_of. by rewrite C.
Qed.

(** ** Rotation *)

Definition refresh_rows (id : string) (t : sessions) : sessions := filter (fun kr => sr_request_id kr.2 = id /\ kr.1.2 = "refresh_token") t.

Lemma refresh_rows_some id t key r : refresh_rows id t !! key = Some r <-> t !! key = Some r /\ sr_request_id r = id /\ key.2 = "refresh_token".
Proof using Type. apply map_lookup_filter_Some. Qed.

(** Setting rows inactive keeps which rows a request has. *)
Lemma deactivate_rows P id t t' key : deactivate P t = Some t' -> refresh_rows id t' !! key = (fun r => if P key r then set_active false r else r) <$> refresh_rows id t !! key.
Proof using Type.
  rewrite deactivate_spec. intros [= <-]. apply option_eq. intros r. rewrite refresh_rows_some, map_lookup_imap, fmap_Some. setoid_rewrite refresh_rows_some. split.
  - intros ((r0 & H0 & [= <-])%bind_Some & Hid & Hk). exists r0. split; [|done]. split; [done|]. split; [|done]. by destruct (P key r0).
  - intros (r0 & (H0 & Hid & Hk) & ->). rewrite H0. cbn. split; [done|]. split; [by destruct (P key r0)|done].
Qed.

(** One signature on two rows of a request breaks the constraint. *)
Lemma rename_fails sig id t k1 k2 r1 r2 : k1 <> k2 -> refresh_rows id t !! k1 = Some r1 -> refresh_rows id t !! k2 = Some r2 ->
  update_rows (fun k r => bool_decide (sr_request_id r = id /\ k.2 = "refresh_token")) (fun kr => ((sig, kr.1.2), kr.2)) t = None.
Proof using Type.
  intros Hne (H1 & Hid1 & Ht1)%refresh_rows_some (H2 & Hid2 & Ht2)%refresh_rows_some. unfold update_rows. apply decide_False. intros Hnd.
  apply elem_of_map_to_list, list_elem_of_lookup in H1 as [i1 H1]. apply elem_of_map_to_list, list_elem_of_lookup in H2 as [i2 H2].
  assert (Hi : i1 = i2); [|subst i2; congruence]. apply (NoDup_lookup _ i1 i2 (sig, "refresh_token") Hnd).
  - rewrite !list_lookup_fmap, H1. cbn. rewrite bool_decide_true by done. cbn. by rewrite Ht1.
  - rewrite !list_lookup_fmap, H2. cbn. rewrite bool_decide_true by done. cbn. by rewrite Ht2.
Qed.

(** The signature of the only row of a request is set to itself. *)
Lemma rename_same sig id t r : refresh_rows id t = {[ (sig, "refresh_token") := r ]} ->
  update_rows (fun k r => bool_decide (sr_request_id r = id /\ k.2 = "refresh_token")) (fun kr => ((sig, kr.1.2), kr.2)) t = Some t.
Proof using Type.
  intros Hrows. unfold update_rows. set (rows := _ <$> map_to_list t). assert (E : rows = map_to_list t).
  { unfold rows. rewrite <- (list_fmap_id (map_to_list t)) at 2. apply list_fmap_ext. intros i [k x] Hi. cbn. case_bool_decide as H; [|done].
    apply list_elem_of_lookup_2, elem_of_map_to_list in Hi. assert (Hk : refresh_rows id t !! k = Some x) by (apply refresh_rows_some; by split).
    rewrite Hrows, lookup_singleton_Some in Hk. destruct Hk as [<- _]. done. }
  rewrite E, decide_True by apply NoDup_fst_map_to_list. f_equal. apply list_to_map_to_list.
Qed.

(** The second statement of a rotation, whether it succeeds or not, keeps the rows of a request
    but for their being active. *)
Lemma rotate_rows id sig d : understands -> exists d1,
  (RotateRefreshToken id sig d) = exec (lit "UPDATE oauth_sessions SET signature = $1 WHERE request_id = $2 AND type = 'refresh_token'") [Some sig; Some id] d1 /\
  forall key, is_Some (refresh_rows id (tb_sessions (tables_of d)) !! key) -> is_Some (refresh_rows id (tb_sessions (tables_of d1)) !! key).
Proof using Type.
  intros U. unfold RotateRefreshToken. set (oldSig := match queryRow _ _ d with QRow [v] => _ | _ => _ end). eexists. split; [reflexivity|]. intros key Hk.
  destruct (oldSig =? "")%string; [done|]. pose proof (ud_exec U (SDeactivateSig oldSig) _ d eq_refl) as H. cbn [stmt_args denote] in H.
  destruct (exec _ [Some oldSig] d) as [ok d1]. cbn [snd]. destruct ok; [|by rewrite H].
  apply fmap_Some in H as (t' & Ht & ->). cbn. rewrite (deactivate_rows _ _ _ _ _ Ht). by apply fmap_is_Some.
Qed.

(** C16: A refresh token can be rotated while its request has one.  With a database that reads the
    texts of the store as SQL: as soon as a request has two rows, which is so when the next
    token was created under the same request, the statement that sets one signature on all of
    them breaks the constraint on signature and type, and every rotation fails, whatever it is
    given.  A request with a single active row is rotated, when nothing fails: the presented
    token's session becomes inactive and no session with another signature changes. *)
Theorem refresh_rotates_once (id sig : string) (d : D) :
  understands ->
  (forall key1 key2, key1 <> key2 -> is_Some (refresh_rows id (tb_sessions (tables_of d)) !! key1) -> is_Some (refresh_rows id (tb_sessions (tables_of d)) !! key2) ->
     (RotateRefreshToken id sig d).1 = false) /\
  (forall r, reliable -> refresh_rows id (tb_sessions (tables_of d)) = {[ (sig, "refresh_token") := r ]} -> sr_active r = true -> sig <> "" ->
     let '(ok, d') := RotateRefreshToken id sig d in
     ok = true /\ tb_sessions (tables_of d') !! (sig, "refresh_token") = Some (set_active false r) /\
     forall key, key.1 <> sig -> tb_sessions (tables_of d') !! key = tb_sessions (tables_of d) !! key).
Proof using Type.
  intros U. split.
  - intros key1 key2 Hne H1 H2. destruct (rotate_rows id sig d U) as (d1 & -> & Hrows). apply Hrows in H1 as [r1 H1]. apply Hrows in H2 as [r2 H2].
    pose proof (ud_exec U (SRename sig id) _ d1 eq_refl) as H. cbn [stmt_args denote] in H. rewrite (rename_fails sig id _ _ _ _ _ Hne H1 H2) in H.
    destruct (exec _ _ d1) as [[] d2]; done.
  - intros r [Rx Rq] Hrows Hact Hne. unfold RotateRefreshToken.
    assert (Hrow : tb_sessions (tables_of d) !! (sig, "refresh_token") = Some r /\ sr_request_id r = id /\ (sig, "refresh_token").2 = "refresh_token").
    { apply refresh_rows_some. by rewrite Hrows, lookup_singleton_eq. }
    assert (Hq : queryRow (query_text (QLatest id)) [Some id] d = QRow [VText sig]).
    { pose proof (ud_query U (QLatest id) d) as H. pose proof (Rq (QLatest id) d) as Hn. cbn [query_args answers] in H, Hn. destruct (queryRow _ _ d) as [| |vs]; [done|exfalso; apply (H (sig, "refresh_token") r); destruct Hrow as (? & ? & ?); done|].
      destruct H as (key & x & (Hx & Hid & Ht & _) & -> & _). assert (Hk : refresh_rows id (tb_sessions (tables_of d)) !! key = Some x) by by apply refresh_rows_some.
      rewrite Hrows, lookup_singleton_Some in Hk. destruct Hk as [<- _]. done. }
    cbn [query_text] in Hq. rewrite Hq. change (default "" (scan_string (VText sig))) with sig. apply String.eqb_neq in Hne as Hneb. rewrite Hneb.
    pose proof (ud_exec U (SDeactivateSig sig) _ d eq_refl) as H1. pose proof (Rx (SDeactivateSig sig) _ d eq_refl) as R1. cbn [stmt_args denote] in H1, R1. rewrite deactivate_spec in H1, R1.
    specialize (R1 ltac:(by eexists)). destruct (exec _ [Some sig] d) as [ok1 d1]. cbn in R1. subst ok1. cbn [snd]. injection H1 as H1.
    assert (Hrows1 : refresh_rows id (tb_sessions (tables_of d1)) = {[ (sig, "refresh_token") := set_active false r ]}).
    { apply map_eq. intros key. rewrite <- H1. cbn. erewrite deactivate_rows by apply deactivate_spec. rewrite Hrows. cbn. destruct (decide (key = (sig, "refresh_token"))) as [->|Hk].
      - rewrite !lookup_singleton_eq. cbn. by rewrite bool_decide_true.
      - by rewrite !lookup_singleton_ne by congruence. }
    pose proof (ud_exec U (SRename sig id) _ d1 eq_refl) as H2. pose proof (Rx (SRename sig id) _ d1 eq_refl) as R2. cbn [stmt_args denote] in H2, R2. rewrite (rename_same _ _ _ _ Hrows1) in H2, R2.
    specialize (R2 ltac:(by eexists)). destruct (exec _ [Some sig; Some id] d1) as [ok2 d2]. cbn in R2. subst ok2. cbn in H2. injection H2 as H2.
    cbn. rewrite <- H2. cbn. rewrite <- H1. cbn. split; [done|]. split.
    + rewrite map_lookup_imap, (proj1 Hrow). cbn. by rewrite bool_decide_true.
    + intros key Hkey. rewrite map_lookup_imap. destruct (tb_sessions (tables_of d) !! key) as [x|]; [|done]. cbn. by rewrite bool_decide_false.
Qed.

(** ** Client assertions *)

(** Replayed client assertions.  The first use of an assertion is refused until its expiry.
    The record of an identifier that was seen before is not renewed: when the old record has
    expired, an assertion with the same identifier and a later expiry can be used any number of
    times. *)
Theorem assertion_replay (jti exp exp' now : string) (d : D) :
  understands -> let '(ok, d') := SetClientAssertionJWT jti exp d in ok = true -> no_query_fails d' ->
  (tb_jti (tables_of d) !! jti = None -> ClientAssertionJWTValid now jti d' = if text_lt now exp then Some ErrJTIKnown else None) /\
  (tb_jti (tables_of d) !! jti = Some exp' -> text_lt now exp' = false -> ClientAssertionJWTValid now jti d' = None).
Proof using Type.
  intros U. assert (H : exists text, stmt_text (SSetJti jti exp) = Some text /\ SetClientAssertionJWT jti exp d = exec text (stmt_args (SSetJti jti exp)) d).
  { destruct (upsert_some [lit "jti"] []) as [c Hc]; [done|]. cbn [stmt_text]. eexists. rewrite Hc. split; [reflexivity|]. unfold SetClientAssertionJWT, exec_upsert. cbn [fmap list_fmap]. rewrite Hc. reflexivity. }
  destruct H as (text & Ht & ->). pose proof (ud_exec U _ text d Ht) as H. destruct (exec text _ d) as [ok d']. intros -> N. cbn in H. injection H as H.
  pose proof (ud_query U (QJti jti now) d') as Hq. pose proof (N (QJti jti now)) as Hn. unfold ClientAssertionJWTValid. cbn [query_text query_args answers] in Hq, Hn.
  destruct (queryRow _ _ d') as [| |vs]; [done|done|]. injection Hq as ->. rewrite <- H. cbn. split.
  - intros ->. by rewrite lookup_insert_eq.
  - intros E Hlt. rewrite E. by rewrite E, Hlt.
Qed.
End store.

(** ** Scopes are split at spaces *)

Lemma with_byte_app w c x : (with_byte c w ++ x)%string = (w ++ String c x)%string.
Proof. unfold with_byte. by rewrite str_app_assoc. Qed.

Lemma split_words_spec s : forall w, split_words w s = filter (fun x => x <> "") (match Split s " " with x :: xs => (w ++ x)%string :: xs | [] => [] end).
Proof.
  induction s as [|c s IH]; intros w; cbn [split_words Split].
  - rewrite str_app_nil_r, filter_cons. destruct (String.eqb_spec w "") as [->|Hne], (decide _) as [H|H]; try done; by destruct H.
  - destruct (Ascii.eqb c " ").
    + rewrite IH, str_app_nil_r, filter_cons. assert (E : match Split s " " with x :: xs => ("" ++ x)%string :: xs | [] => [] end = Split s " ") by (by destruct (Split s " ")).
      rewrite E. destruct (String.eqb_spec w "") as [->|Hne], (decide _) as [H|H]; try done; by destruct H.
    + rewrite IH. pose proof (Split_nil s " ") as Hn. destruct (Split s " ") as [|x xs]; [done|]. by rewrite with_byte_app.
Qed.

(** The scopes of a client are the words of its column: the parts between spaces that are
    not empty, in order, and none has a space in it. *)
Theorem scopes_are_words (s : string) :
  splitSpace s = filter (fun x => x <> "") (Split s " ") /\ Forall (fun w => str_all (fun c => negb (Ascii.eqb c " ")) w = true) (splitSpace s).
Proof.
  assert (H : splitSpace s = filter (fun x => x <> "") (Split s " ")).
  { unfold splitSpace. rewrite split_words_spec. by destruct (Split s " "). }
  split; [exact H|]. rewrite H. apply Forall_forall. intros w [_ Hw]%list_elem_of_filter. revert w Hw. apply Forall_forall. clear H. induction s as [|c s IH]; [by repeat constructor|]. cbn [Split].
  destruct (Ascii.eqb c " ") eqn:E; [by constructor|]. destruct (Split s " ") as [|x xs]; [by repeat constructor; cbn; rewrite E|].
  apply Forall_cons in IH as [Hx Hxs]. constructor; [|done]. cbn. by rewrite E, Hx.
Qed.

(** A codec for any countable type. *)
Fixpoint pos_text (p : positive) : string :=
  match p with xH => "." | xO p => String "0" (pos_text p) | xI p => String "1" (pos_text p) end.
Fixpoint text_pos (s : string) : option positive :=
  match s with
  | String "0" s => xO <$> text_pos s
  | String "1" s => xI <$> text_pos s
  | String _ _ => Some xH
  | EmptyString => None
  end.

Lemma text_pos_text p : text_pos (pos_text p) = Some p /\ pos_text p <> "".
Proof. induction p as [p [IH _]|p [IH _]|]; cbn; rewrite ?IH; done. Qed.

Definition to_text {A} `{Countable A} (x : A) : string := pos_text (encode x).
Definition of_text {A} `{Countable A} (s : string) : option A := text_pos s ≫= decode.

Lemma of_to_text {A} `{Countable A} (x : A) : of_text (to_text x) = Some x /\ to_text x <> "".
Proof. unfold of_text, to_text. destruct (text_pos_text (encode x)) as [-> Hne]. split; [apply decode_encode|done]. Qed.

(** ** A database

    One that reads the texts of the store, for PostgreSQL. *)

Definition demo_stmt (q : bytes) (a : list sqlarg) : option stmt :=
  let same (s : stmt) := bool_decide (stmt_text DialectPostgres s = Some q) in
  let none := mkRow "" "" None None None None "" None true "" "" in
  match a with
  | [Some sig; Some ty; Some id; Some client; rs; gs; ra; ga; Some data; form; Some _; Some expires; Some created] =>
      if same (SSave "" "" none) then Some (SSave sig ty (mkRow id client rs gs ra ga data form true expires created)) else None
  | [Some sig; Some id; Some client; Some data; Some expires; Some created] =>
      if same (SSaveOIDC "" none) then Some (SSaveOIDC sig (mkRow id client None None None None data None true expires created)) else None
  | [Some x] =>
      if same (SDeactivateSigType "") then Some (SDeactivateSigType x) else if same (SDeactivateSig "") then Some (SDeactivateSig x)
      else if same (SDeactivateRequest "" true) then Some (SDeactivateRequest x true) else if same (SDeactivateRequest "" false) then Some (SDeactivateRequest x false)
      else if same (SDelete "" TAuthorize) then Some (SDelete x TAuthorize) else if same (SDelete "" TAccess) then Some (SDelete x TAccess)
      else if same (SDelete "" TRefresh) then Some (SDelete x TRefresh) else if same (SDelete "" TPkce) then Some (SDelete x TPkce)
      else if same (SDelete "" TOidc) then Some (SDelete x TOidc) else None
  | [Some x; Some y] => if same (SRename "" "") then Some (SRename x y) else if same (SSetJti "" "") then Some (SSetJti x y) else None
  | _ => None
  end.

Definition demo_exec (q : bytes) (a : list sqlarg) (t : tables) : bool * tables :=
  match demo_stmt q a ≫= (fun s => denote s t) with Some t' => (true, t') | None => (false, t) end.

Definition demo_latest (id : string) (t : tables) : option (list sqlval) :=
  let rows := map_to_list (filter (fun kr => sr_request_id kr.2 = id /\ kr.1.2 = "refresh_token" /\ sr_active kr.2 = true) (tb_sessions t)) in
  (fun kr => [VText kr.1.1]) <$> head rows.

Definition demo_query (q : bytes) (a : list sqlarg) (t : tables) : query_answer :=
  let same (x : query) := bool_decide (query_text x = q) in
  let row (o : option (list sqlval)) := match o with Some vs => QRow vs | None => QNone end in
  match a with
  | [Some x; Some y] =>
      if same (QSession "" "") then
        row ((fun r => [VText (sr_request_id r); VText (sr_client_id r); column (sr_requested_scopes r); column (sr_granted_scopes r);
          column (sr_requested_audience r); column (sr_granted_audience r); VText (sr_session_data r); column (sr_form r); VBool (sr_active r)]) <$> tb_sessions t !! (x, y))
      else if same (QJti "" "") then QRow [VBool (match tb_jti t !! x with Some _ => false | None => false end)]
      else QErr
  | [Some x] =>
      if same (QOidc "") then row (r ← tb_sessions t !! (x, "oidc"); if sr_active r then Some [VText (sr_request_id r); VText (sr_client_id r); VText (sr_session_data r)] else None)
      else if same (QClient "") then
        row ((fun r => [VText (cl_hashed_secret r); column (cl_redirect_uris r); column (cl_grant_types r); column (cl_response_types r);
          VText (cl_scopes r); column (cl_audience r); VBool (cl_is_public r)]) <$> tb_clients t !! x)
      else if same (QLatest "") then row (demo_latest x t)
      else QErr
  | _ => QErr
  end.

(** All times are equal to it. *)
Definition no_order (_ _ : string) : bool := false.

Lemma demo_reads s : exists text, stmt_text DialectPostgres s = Some text /\ forall t, demo_exec text (stmt_args s) t = match denote s t with Some t' => (true, t') | None => (false, t) end.
Proof.
  destruct s as [sig ty [? ? [] [] [] [] ? ? ? ? ?]|sig []|sig|sig|id []|sig []|sig id|jti exp]; (eexists; split; [reflexivity|]); intros t; unfold demo_exec, demo_stmt; cbn [stmt_args]; cbv beta zeta iota;
    repeat match goal with |- context [bool_decide ?P] => let b := eval vm_compute in (bool_decide P) in change (bool_decide P) with b end; cbn [mbind option_bind]; try reflexivity.
Qed.

Lemma demo_understands : understands demo_exec demo_query DialectPostgres no_order (fun t => t).
Proof.
  split.
  - intros s text t Ht. destruct (demo_reads s) as (text' & Ht' & H). rewrite Ht in Ht'. injection Ht' as <-. unfold exec. cbn [Rewrite]. rewrite H. by destruct (denote s t).
  - intros q t. unfold queryRow. cbn [Rewrite]. destruct q as [sig ty|sig|id|id|jti now]; cbn [query_args demo_query];
      repeat match goal with |- context [bool_decide ?P] => let b := eval vm_compute in (bool_decide P) in change (bool_decide P) with b end; cbn [answers].
    + by destruct (tb_sessions t !! (sig, ty)).
    + destruct (tb_sessions t !! (sig, "oidc")) as [r|]; [|done]. cbn. by destruct (sr_active r).
    + by destruct (tb_clients t !! id).
    + unfold demo_latest. set (f := filter _ _). destruct (head (map_to_list f)) as [[key r]|] eqn:E; cbn.
      * apply head_Some_elem_of, elem_of_map_to_list in E. apply map_lookup_filter_Some in E. exists key, r. naive_solver.
      * intros key r Hc. apply head_None in E. apply map_to_list_empty_iff in E. assert (Hf : f !! key = Some r) by (apply map_lookup_filter_Some; naive_solver). by rewrite E in Hf.
    + by destruct (tb_jti t !! jti).
Qed.

Lemma demo_queries t : no_query_fails demo_query DialectPostgres t.
Proof.
  intros q. unfold queryRow. cbn [Rewrite]. destruct q; cbn [query_args demo_query];
    repeat match goal with |- context [bool_decide ?P] => let b := eval vm_compute in (bool_decide P) in change (bool_decide P) with b end; cbn iota;
    first [by destruct (_ <$> _)|by destruct (_ ≫= _)|by destruct (demo_latest _ _)|done].
Qed.

Definition demo_request (id : string) : Requester string unit := mkRequester id "app" None None None None "ann" tt.
Definition demo_client : client_row := mkClientRow "hash" None None None "openid  profile" None false.
Definition demo_db : tables := mkTables ∅ {[ "app" := demo_client ]} ∅.

Lemma codec_ok : codecs_ok (S := string) (F := unit) to_text of_text to_text of_text to_text of_text.
Proof. split; [apply of_to_text|split; apply of_to_text]. Qed.

Lemma oauth_sessions_are_map_witness :
  let ops := [OCreate AuthorizeCode "t0" "t1" "code" (demo_request "r"); OCreate PKCE "t0" "t1" "code" (demo_request "r"); OInvalidate (S := string) (F := unit) "code"] in
  let d := (run to_text to_text to_text demo_exec DialectPostgres ops demo_db).2 in
  GetSession of_text of_text "" of_text tt demo_query DialectPostgres AuthorizeCode "code" d = inr ErrInactiveToken.
Proof.
  intros ops. pose proof (oauth_sessions_are_map to_text of_text to_text of_text "" to_text of_text tt demo_exec demo_query DialectPostgres no_order (fun t => t)
    ops demo_db AuthorizeCode "code" demo_understands codec_ok eq_refl) as H.
  assert (E : (run to_text to_text to_text demo_exec DialectPostgres ops demo_db).1 = (fun o => (o, true)) <$> ops) by (vm_compute; reflexivity).
  destruct (run _ _ _ _ _ ops demo_db) as [l d]. cbn [fst snd] in *. subst l. etrans; [exact (H (demo_queries d))|]. vm_compute. reflexivity.
Defined.

(** A token is created, rotated, replaced under the same request, and rotated again: the second
    rotation fails and has made the token inactive all the same. *)
Definition rotated_twice : tables :=
  let create sig t := (CreateRefreshTokenSession to_text (to_text (A := string)) (to_text (A := unit)) demo_exec DialectPostgres "t0" "t1" sig (demo_request "r") t).2 in
  create "s2" (RotateRefreshToken demo_exec demo_query DialectPostgres "r" "s1" (create "s1" demo_db)).2.

Lemma refresh_rotates_once_witness :
  let '(ok, t) := RotateRefreshToken demo_exec demo_query DialectPostgres "r" "s2" rotated_twice in
  ok = false /\ GetRefreshTokenSession of_text (of_text (A := string)) "" (of_text (A := unit)) tt demo_query DialectPostgres "s2" t = inr ErrInactiveToken.
Proof.
  pose proof (proj1 (refresh_rotates_once demo_exec demo_query DialectPostgres no_order (fun t => t) "r" "s2" rotated_twice demo_understands) ("s1", "refresh_token") ("s2", "refresh_token")) as H.
  assert (E : GetRefreshTokenSession of_text (of_text (A := string)) "" (of_text (A := unit)) tt demo_query DialectPostgres "s2"
    (RotateRefreshToken demo_exec demo_query DialectPostgres "r" "s2" rotated_twice).2 = inr ErrInactiveToken) by (vm_compute; reflexivity).
  assert (H1 : is_Some (refresh_rows "r" (tb_sessions rotated_twice) !! ("s1", "refresh_token"))) by (apply (bool_decide_unpack _); vm_compute; exact I).
  assert (H2 : is_Some (refresh_rows "r" (tb_sessions rotated_twice) !! ("s2", "refresh_token"))) by (apply (bool_decide_unpack _); vm_compute; exact I).
  specialize (H ltac:(discriminate) H1 H2). destruct (RotateRefreshToken _ _ _ _ _ _) as [ok t]. cbn in H, E. by split.
Defined.
