(* ===== verification/SqlModel.v ===== *)
(** * Models and DDL (db/types.go, db/dialect.go, db/migrate.go, db/index.go)

    The columns of a Go struct from its field tags, their types and defaults in each SQL
    family, and the statements that create a table.  A [reflect.Type] is the inductive
    [goType]; a struct type is the list of its fields with the tags the code reads.
    Trimming and changing case are those of ASCII text. *)

From S2P Require Import Prelude GoStrings Utf8.
From Stdlib Require Import Ascii String.
#[local] Open Scope list_scope.
#[local] Open Scope Z_scope.

Infix "+++" := String.append (at level 60, right associativity) : go_scope.

(** ** What is used of package strings *)

Fixpoint str_map (f : ascii -> ascii) (s : string) : string :=
  match s with EmptyString => EmptyString | String c s => String (f c) (str_map f s) end.

Definition upper_byte (c : ascii) : ascii := if is_lower c then ascii_of_N (N_of_ascii c - 32) else c.
Definition lower_byte (c : ascii) : ascii := if is_upper c then add32 c else c.
Definition ToUpper : string -> string := str_map upper_byte.
Definition ToLower : string -> string := str_map lower_byte.
Definition EqualFold (s t : string) : bool := String.eqb (ToLower s) (ToLower t).

Definition space_byte (c : ascii) : bool := Ascii.eqb c " " || (N.leb 9 (N_of_ascii c) && N.leb (N_of_ascii c) 13).

Fixpoint trim_left (s : string) : string :=
  match s with EmptyString => EmptyString | String c s' => if space_byte c then trim_left s' else s end.

(** The last byte that is not a space ends the result. *)
Fixpoint trim_end (s : string) : string :=
  match s with
  | EmptyString => EmptyString
  | String c s => match trim_end s with EmptyString => if space_byte c then EmptyString else String c EmptyString | t => String c t end
  end.

Definition TrimSpace (s : string) : string := trim_end (trim_left s).

Fixpoint Join (l : list string) (sep : string) : string :=
  match l with [] => EmptyString | [x] => x | x :: l => x +++ sep +++ Join l sep end.

Definition ContainsByte (s : string) (c : ascii) : bool := bool_decide (is_Some (IndexByte s c)).

(** ** Types and fields *)

Inductive intKind := Int | Int8 | Int16 | Int32 | Int64 | Uint | Uint8 | Uint16 | Uint32 | Uint64.

(** The width of a kind, its sign and its range. *)
Definition bits (k : intKind) : Z :=
  match k with Int8 | Uint8 => 8 | Int16 | Uint16 => 16 | Int32 | Uint32 => 32 | Int | Int64 | Uint | Uint64 => 64 end.
Definition is_signed (k : intKind) : bool := match k with Int | Int8 | Int16 | Int32 | Int64 => true | _ => false end.
Definition fits (k : intKind) (z : Z) : Prop :=
  if is_signed k then - 2 ^ (bits k - 1) <= z < 2 ^ (bits k - 1) else 0 <= z < 2 ^ bits k.

Inductive goType :=
| TBool | TInt (k : intKind) | TFloat32 | TFloat64 | TString
| TSlice (elem : goType) | TArray (elem : goType) | TMap (elem : goType)
| TStruct (String_ Name_ : string)                     (* what [String] and [Name] return *)
| TPtr (elem : goType) | TOther.

(** A field of a struct: its name, whether it is exported, its type, and what
    [Tag.Get("db")] and [Tag.Get("json")] return. *)
Record structField : Type := mkField { sf_Name : string; sf_IsExported : bool; sf_Type : goType; sf_db : string; sf_json : string }.

Record FieldInfo : Type := mkFieldInfo {
  Column : string; GoName : string; Primary : bool; Auto : bool; Required : bool; Default : string;
  Index : bool; Unique : bool; Skip : bool; FieldType : goType; Tags_json : string; TypeOverride : string; FK : string
}.
#[export] Instance eta_fieldinfo : Eta FieldInfo := fun f =>
  mkFieldInfo (Column f) (GoName f) (Primary f) (Auto f) (Required f) (Default f) (Index f) (Unique f) (Skip f)
    (FieldType f) (Tags_json f) (TypeOverride f) (FK f).

Record TableInfo : Type := mkTableInfo { Fields : list FieldInfo; PrimaryKey : string }.
#[export] Instance eta_tableinfo : Eta TableInfo := fun i => mkTableInfo (Fields i) (PrimaryKey i).

Record Constraint : Type := mkConstraint { con_Type : string; con_Columns : list string; con_Name : string }.

(** ** Tags *)

Definition opens (c : ascii) : bool := Ascii.eqb c "(" || Ascii.eqb c "[" || Ascii.eqb c "{".
Definition closes (c : ascii) : bool := Ascii.eqb c ")" || Ascii.eqb c "]" || Ascii.eqb c "}".

(** The loop of [splitTag]: [b] is the builder. *)
Fixpoint splitTag_loop (b : string) (depth : Z) (tag : string) : list string :=
  match tag with
  | EmptyString => if String.eqb b "" then [] else [b]
  | String c tag =>
      if opens c then splitTag_loop (b +++ String c "") (depth + 1) tag
      else if closes c then splitTag_loop (b +++ String c "") (depth - 1) tag
      else if Ascii.eqb c "," && (depth =? 0) then b :: splitTag_loop "" depth tag
      else splitTag_loop (b +++ String c "") depth tag
  end.

Definition splitTag (tag : string) : list string := splitTag_loop "" 0 tag.

Definition isUpper (r : Z) : bool := (65 <=? r) && (r <=? 90).
Definition isLower (r : Z) : bool := (97 <=? r) && (r <=? 122).

(** The loop of [toSnake] over the runes; [prev] is the rune before. *)
Fixpoint snake_runes (prev : option Z) (rs : list Z) : list Z :=
  match rs with
  | [] => []
  | r :: rs' =>
      (if isUpper r then
         (match prev with
          | None => []
          | Some p =>
              if isLower p then [95]
              else match rs' with n :: _ => if isLower n then [95] else [] | [] => [] end
          end) ++ [r + 32]
       else [r]) ++ snake_runes (Some r) rs'
  end.

Definition toSnake (s : string) : string := string_of_runes (snake_runes None (runes_of s)).

(** One element of a tag after the column name. *)
Definition parseTagPart (col : string) (p : string) (st : FieldInfo * TableInfo) : FieldInfo * TableInfo :=
  let '(fi, info) := st in
  let p := TrimSpace p in
  if String.eqb p "primary" then (fi <| Primary := true |>, info <| PrimaryKey := col |>)
  else if String.eqb p "auto" then (fi <| Auto := true |>, info)
  else if String.eqb p "required" then (fi <| Required := true |>, info)
  else if String.eqb p "index" then (fi <| Index := true |>, info)
  else if String.eqb p "unique" then (fi <| Unique := true |>, info)
  else if String.eqb p "-" then (fi <| Skip := true |>, info)
  else if HasPrefix p "default=" then (fi <| Default := TrimPrefix p "default=" |>, info)
  else if HasPrefix p "type=" then (fi <| TypeOverride := TrimPrefix p "type=" |>, info)
  else if HasPrefix p "fk=" then (fi <| FK := TrimPrefix p "fk=" |>, info)
  else st.

Fixpoint parseTagParts (parts : list string) (col : string) (st : FieldInfo * TableInfo) : FieldInfo * TableInfo :=
  match parts with [] => st | p :: parts => parseTagParts parts col (parseTagPart col p st) end.

(** The body of the loop of [parseType]; [None] is the panic of [parts[0]]. *)
Definition parse_field (f : structField) (info : TableInfo) : option TableInfo :=
  if negb (sf_IsExported f) then Some info
  else
    let fi := mkFieldInfo "" (sf_Name f) false false false "" false false false (sf_Type f) (sf_json f) "" "" in
    match splitTag (sf_db f) with
    | [] => None
    | p0 :: parts =>
        let col := TrimSpace p0 in
        if String.eqb col "-" then Some (info <| Fields := Fields info ++ [fi <| Skip := true |>] |>)
        else
          let col := if String.eqb col "" then toSnake (sf_Name f) else col in
          let '(fi, info) := parseTagParts parts col (fi <| Column := col |>, info) in
          Some (info <| Fields := Fields info ++ [fi] |>)
    end.

Fixpoint parse_fields (fs : list structField) (info : TableInfo) : option TableInfo :=
  match fs with [] => Some info | f :: fs => info' ← parse_field f info; parse_fields fs info' end.

Definition parseType (fs : list structField) : option TableInfo := parse_fields fs (mkTableInfo [] "").

Inductive model_error := ErrNotStruct | ErrNoPrimaryKey.

(** [parseStruct] for a type whose fields are [fs], or that is no struct ([None]), after
    taking the element of a pointer. The outer option is the panic of [parseType]. *)
Definition parseStruct (fs : option (list structField)) : option (TableInfo + model_error) :=
  match fs with
  | None => Some (inr ErrNotStruct)
  | Some fs => info ← parseType fs; Some (if String.eqb (PrimaryKey info) "" then inr ErrNoPrimaryKey else inl info)
  end.

(** [IndexFields] *)
Definition IndexFields (fs : option (list structField)) : option (list string + model_error) :=
  match fs with
  | None => Some (inr ErrNotStruct)
  | Some fs =>
      info ← parseType fs;
      Some (inl (Column <$> filter (fun f => negb (Skip f || String.eqb (Column f) "") && (Index f || Unique f || Primary f)) (Fields info)))
  end.

(** ** Dialects *)

Inductive dialect := dialectPostgres | dialectMySQL | dialectSQLite.
#[export] Instance dialect_eq_dec : EqDecision dialect.
Proof. solve_decision. Defined.

Inductive typeKind := tkUnknown | tkJSON | tkArray | tkDecimal | tkTime | tkUUID | tkBool | tkBytes.

(** The map [typeTranslation]: [None] for a dialect or kind that is not a key. *)
Definition typeTranslation (d : dialect) : option (typeKind -> option string) :=
  match d with
  | dialectPostgres => None
  | dialectMySQL => Some (fun k =>
      match k with
      | tkJSON => Some "JSON" | tkArray => Some "JSON" | tkDecimal => Some "" | tkTime => Some "DATETIME(3)"
      | tkUUID => Some "CHAR(36)" | tkBool => Some "TINYINT(1)" | tkBytes => Some "BLOB" | tkUnknown => None
      end)
  | dialectSQLite => Some (fun k =>
      match k with
      | tkJSON => Some "TEXT" | tkArray => Some "TEXT" | tkDecimal => Some "NUMERIC" | tkTime => Some "TEXT"
      | tkUUID => Some "TEXT" | tkBool => Some "INTEGER" | tkBytes => Some "BLOB" | tkUnknown => None
      end)
  end.

Definition canonicalType (up : string) : typeKind :=
  if String.eqb up "JSON" || HasPrefix up "JSONB" then tkJSON
  else if String.eqb up "TEXT[]" || HasSuffix up "[]" then tkArray
  else if HasPrefix up "DECIMAL" || HasPrefix up "NUMERIC" then tkDecimal
  else if HasPrefix up "TIMESTAMPTZ" || HasPrefix up "TIMESTAMP" then tkTime
  else if String.eqb up "UUID" then tkUUID
  else if String.eqb up "BOOLEAN" || String.eqb up "BOOL" then tkBool
  else if String.eqb up "BYTEA" || String.eqb up "BLOB" then tkBytes
  else tkUnknown.

Definition translateType (d : dialect) (t : string) : string :=
  match typeTranslation d with
  | None => t
  | Some rules =>
      let rest := if decide (d = dialectSQLite) then "TEXT" else t in
      match rules (canonicalType (ToUpper (TrimSpace t))) with
      | Some mapped => if String.eqb mapped "" then rest else mapped
      | None => rest
      end
  end.

Definition elem_type (t : goType) : goType := match t with TPtr e => e | t => t end.

Definition sqlType (t : goType) : string :=
  match elem_type t with
  | TInt _ => "BIGINT"
  | TFloat32 | TFloat64 => "DOUBLE PRECISION"
  | TString => "TEXT"
  | TBool => "BOOLEAN"
  | TSlice (TInt Uint8) => "BYTEA"
  | TSlice _ | TMap _ => "JSONB"
  | TStruct name _ => if String.eqb name "time.Time" then "TIMESTAMPTZ" else if String.eqb name "netip.Addr" then "INET" else "JSONB"
  | TArray _ | TPtr _ | TOther => "TEXT"
  end.

Definition baseTypeMySQL (t : goType) : string :=
  match t with
  | TInt _ => "BIGINT"
  | TFloat32 | TFloat64 => "DOUBLE"
  | TString => "VARCHAR(255)"
  | TBool => "TINYINT(1)"
  | TSlice (TInt Uint8) => "BLOB"
  | TSlice _ | TMap _ => "JSON"
  | TStruct name _ => if String.eqb name "time.Time" then "DATETIME(3)" else "JSON"
  | TArray _ | TPtr _ | TOther => "VARCHAR(255)"
  end.

Definition baseTypeSQLite (t : goType) : string :=
  match t with
  | TInt _ | TBool => "INTEGER"
  | TFloat32 | TFloat64 => "REAL"
  | TSlice (TInt Uint8) => "BLOB"
  | _ => "TEXT"
  end.

Definition baseType (d : dialect) (t : goType) : string :=
  let t := elem_type t in
  match d with dialectMySQL => baseTypeMySQL t | dialectSQLite => baseTypeSQLite t | dialectPostgres => sqlType t end.

Definition columnType (d : dialect) (f : FieldInfo) : string :=
  if Auto f then match d with dialectMySQL => "BIGINT UNSIGNED AUTO_INCREMENT" | dialectSQLite => "INTEGER" | dialectPostgres => "BIGSERIAL" end
  else if negb (String.eqb (TypeOverride f) "") then translateType d (TypeOverride f)
  else baseType d (FieldType f).

(** ** Defaults and DDL

    [ParseFloat] says whether [strconv.ParseFloat] accepts a text. *)

Section ddl.
Context (ParseFloat : string -> bool).

Definition needsQuotedDefault (s : string) : bool :=
  if String.eqb s "" then false
  else if ContainsByte s "(" || HasPrefix s "'" then false
  else if bool_decide (ToLower s ∈ ["true"; "false"; "null"]) then false
  else negb (ParseFloat s).

(** [None] for [ok = false]: the default is left out. *)
Definition columnDefault (d : dialect) (def : string) : option string :=
  let trimmed := TrimSpace def in
  let low := ToLower trimmed in
  if String.eqb trimmed "" then None
  else if bool_decide (low ∈ ["now()"; "current_timestamp"]) then
    Some (match d with dialectMySQL => "CURRENT_TIMESTAMP(3)" | dialectSQLite => "CURRENT_TIMESTAMP" | dialectPostgres => "now()" end)
  else if bool_decide (low ∈ ["gen_random_uuid()"; "uuid()"; "uuid_generate_v4()"]) then
    Some (match d with dialectMySQL => "(UUID())" | dialectSQLite => "(lower(hex(randomblob(16))))" | dialectPostgres => "gen_random_uuid()" end)
  else if bool_decide (low ∈ ["true"; "false"]) then
    Some (if decide (d = dialectPostgres) then low else if EqualFold trimmed "true" then "1" else "0")
  else if String.eqb low "null" then Some "NULL"
  else if ContainsByte trimmed "(" then (if decide (d = dialectSQLite) then None else Some trimmed)
  else if needsQuotedDefault trimmed then Some ("'" +++ trimmed +++ "'")
  else Some trimmed.

(** [fk[:i] + "(" + fk[i+1:] + ")"] at the first dot, if it is not the first byte *)
Definition fk_target (fk : string) : string :=
  match IndexByte fk "." with
  | Some (S i) => str_take (S i) fk +++ "(" +++ str_drop (S (S i)) fk +++ ")"
  | _ => fk
  end.

Definition option_list {A} (o : option A) : list A := match o with Some x => [x] | None => [] end.

(** The PostgreSQL column definition (migrate.go). *)
Definition buildColumnDef (f : FieldInfo) : string :=
  Join ([Column f; columnType dialectPostgres f]
        ++ (if Primary f then ["PRIMARY KEY"] else [])
        ++ (if Required f || Primary f then ["NOT NULL"] else [])
        ++ option_list ((fun d => "DEFAULT " +++ d) <$> columnDefault dialectPostgres (Default f))
        ++ (if negb (String.eqb (FK f) "") then ["REFERENCES " +++ fk_target (FK f)] else [])) " ".

(** The MySQL column definition (mysql.go). *)
Definition mysql_buildColumnDef (f : FieldInfo) : string :=
  let parts := ["`" +++ Column f +++ "`"; columnType dialectMySQL f] in
  if Auto f then Join (parts ++ if Primary f then ["PRIMARY KEY"] else []) " "
  else Join (parts ++ (if Required f || Primary f then ["NOT NULL"] else ["NULL"])
                   ++ (if Primary f then ["PRIMARY KEY"] else [])
                   ++ option_list ((fun d => "DEFAULT " +++ d) <$> columnDefault dialectMySQL (Default f))) " ".

(** The index of one column, if it has one. *)
Definition index_of_field (tableName : string) (f : FieldInfo) : list string :=
  if Index f || Unique f then
    ["CREATE " +++ (if Unique f then "UNIQUE INDEX" else "INDEX") +++ " IF NOT EXISTS idx_" +++ tableName +++ "_" +++ Column f
     +++ " ON " +++ tableName +++ " (" +++ Column f +++ ")"]
  else [].

(** One constraint of [applyTableConstraints]; [None] is the panic of [c.Columns[0]]. *)
Definition apply_constraint (tableName : string) (c : Constraint) (st : list string * list string) : option (list string * list string) :=
  let '(parts, indexes) := st in
  if String.eqb (con_Type c) "UNIQUE" then Some (parts ++ ["UNIQUE (" +++ Join (con_Columns c) ", " +++ ")"], indexes)
  else if String.eqb (con_Type c) "INDEX" then
    let idxName := if String.eqb (con_Name c) "" then "idx_" +++ tableName +++ "_" +++ Join (con_Columns c) "_" else con_Name c in
    Some (parts, indexes ++ ["CREATE INDEX IF NOT EXISTS " +++ idxName +++ " ON " +++ tableName +++ " (" +++ Join (con_Columns c) ", " +++ ")"])
  else if String.eqb (con_Type c) "CHECK" then
    match con_Columns c with [] => None | e :: _ => Some (parts ++ ["CHECK (" +++ e +++ ")"], indexes) end
  else Some st.

Fixpoint applyTableConstraints (tableName : string) (cs : list Constraint) (st : list string * list string) : option (list string * list string) :=
  match cs with [] => Some st | c :: cs => st' ← apply_constraint tableName c st; applyTableConstraints tableName cs st' end.

(** [AutoInit]: the statements, in the order they run; the first that fails ends it. *)
Definition AutoInit (tableName : string) (info : TableInfo) (cs : list Constraint) : option (list string) :=
  let fs := filter (fun f => negb (Skip f)) (Fields info) in
  st ← applyTableConstraints tableName cs (buildColumnDef <$> fs, mjoin (index_of_field tableName <$> fs));
  let '(parts, indexes) := st in
  Some (("CREATE TABLE IF NOT EXISTS " +++ tableName +++ " (" +++ String "010" ("  " +++ Join parts ("," +++ String "010" "  ")) +++ String "010" ")") :: indexes).
End ddl.

(** ** Properties *)

(** What an element of a tag must be for its commas to stay inside it: brackets that
    balance, commas only within them. *)
Fixpoint tag_part_ok (depth : Z) (p : string) : bool :=
  match p with
  | EmptyString => depth =? 0
  | String c p =>
      if opens c then tag_part_ok (depth + 1) p
      else if closes c then tag_part_ok (depth - 1) p
      else negb (Ascii.eqb c "," && (depth =? 0)) && tag_part_ok depth p
  end.

Lemma splitTag_part b depth p rest : tag_part_ok depth p = true -> splitTag_loop b depth (p +++ rest) = splitTag_loop (b +++ p) 0 rest.
Proof.
  revert b depth. induction p as [|c p IH]; intros b depth; [rewrite str_app_nil_l|rewrite str_app_cons]; cbn.
  - intros ->%Z.eqb_eq. by rewrite str_app_nil_r.
  - destruct (opens c); [|destruct (closes c)]; [| |destruct (Ascii.eqb c "," && (depth =? 0)); [done|]]; cbn; intros H; rewrite IH by done; by rewrite str_app_assoc, str_app_cons, str_app_nil_l.
Qed.

(** Splitting a struct tag undoes joining its elements with commas, for elements
    whose commas are bracketed ([type=DECIMAL(10,2)]), unless the last one is empty. *)
Theorem splitTag_join (parts : list string) (lst : string) :
  Forall (fun p => tag_part_ok 0 p = true) parts -> tag_part_ok 0 lst = true -> lst <> "" ->
  splitTag (Join (parts ++ [lst]) ",") = parts ++ [lst].
Proof.
  intros Hp Hl Hne. unfold splitTag. induction Hp as [|p parts Hp _ IH]; cbn [app Join].
  - rewrite <- (str_app_nil_r lst) at 1. rewrite splitTag_part by done. rewrite str_app_nil_l. cbn [splitTag_loop]. destruct (String.eqb_spec lst ""); [done|]. done.
  - destruct (parts ++ [lst]) as [|q qs] eqn:E; [by destruct parts|]. rewrite splitTag_part by done. rewrite str_app_nil_l, (str_app_cons "," ""), str_app_nil_l. cbn [splitTag_loop]. cbn. f_equal. exact IH.
Qed.

Lemma splitTag_join_witness :
  splitTag "price, type=DECIMAL(10,2),required" = ["price"; " type=DECIMAL(10,2)"; "required"].
Proof. apply (splitTag_join ["price"; " type=DECIMAL(10,2)"] "required"); [repeat constructor|reflexivity|discriminate]. Defined.

Lemma parse_fields_app fs gs info : parse_fields (fs ++ gs) info = parse_fields fs info ≫= parse_fields gs.
Proof. revert info. induction fs as [|f fs IH]; intros info; cbn; [done|]. destruct (parse_field f info); cbn; auto. Qed.

(** A model with an exported field that has no [db] tag cannot be parsed: the
    column name it should get from the Go name is never computed, [parts[0]] is out of
    range. *)
Theorem untagged_field_panics (before after : list structField) (f : structField) :
  sf_IsExported f = true -> sf_db f = "" -> parseType (before ++ f :: after) = None.
Proof.
  intros He Ht. unfold parseType. rewrite parse_fields_app. destruct (parse_fields before _) as [info|]; [|done]. cbn.
  unfold parse_field. by rewrite He, Ht.
Qed.

Lemma untagged_field_panics_witness :
  parseType [mkField "ID" true (TInt Int64) "id,primary,auto" ""; mkField "Name" true TString "" ""] = None.
Proof. apply (untagged_field_panics [_] []); reflexivity. Defined.

(** The primary key is the column of a field that was parsed as primary. *)
Definition pk_ok (info : TableInfo) : Prop :=
  PrimaryKey info <> "" -> exists f, f ∈ Fields info /\ Primary f = true /\ Column f = PrimaryKey info.

Lemma parseTagParts_pk parts col fi info fi' info' :
  parseTagParts parts col (fi, info) = (fi', info') -> Column fi = col ->
  Column fi' = col /\ Fields info' = Fields info /\ (Primary fi = true -> Primary fi' = true) /\
  (PrimaryKey info' = PrimaryKey info \/ (PrimaryKey info' = col /\ Primary fi' = true)).
Proof.
  revert fi info. induction parts as [|p parts IH]; intros fi info; cbn [parseTagParts]; [intros [= <- <-] ?; auto|].
  unfold parseTagPart at 1. intros H Hc.
  repeat match type of H with context [if ?b then _ else _] => destruct b end;
    (destruct (IH _ _ H ltac:(exact Hc)) as (H1 & H2 & H3 & H4); cbn in *; split_and!; auto; naive_solver).
Qed.

Lemma parse_field_pk f info info' : pk_ok info -> parse_field f info = Some info' -> pk_ok info'.
Proof.
  intros Hi. unfold parse_field. destruct (sf_IsExported f); cbn [negb]; [|by intros [= <-]].
  destruct (splitTag (sf_db f)) as [|p0 parts]; [done|]. destruct (String.eqb (TrimSpace p0) "-").
  - intros [= <-] Hk. destruct (Hi Hk) as (g & Hg & ?). exists g. split; [cbn; set_solver|done].
  - match goal with |- context [parseTagParts ?a ?b ?c] => destruct (parseTagParts a b c) as [fi info1] eqn:E end.
    intros [= <-]. apply parseTagParts_pk in E as (Hc & Hf & _ & Hp); [|done]. intros Hk. cbn in Hk |- *.
    destruct Hp as [Hp|[Hp Hpr]]; rewrite Hp in *.
    + destruct (Hi Hk) as (g & Hg & ?). exists g. split; [rewrite Hf; set_solver|done].
    + exists fi. split; [set_solver|done].
Qed.

(** C40: the primary key of a model that parses is one of its columns. *)
Theorem primary_key_is_a_column (fs : option (list structField)) (info : TableInfo) :
  parseStruct fs = Some (inl info) ->
  exists f, f ∈ Fields info /\ Primary f = true /\ Column f = PrimaryKey info /\ PrimaryKey info <> "".
Proof.
  destruct fs as [fs|]; [|done]. cbn. unfold parseType. intros H. assert (Hi : pk_ok info /\ PrimaryKey info <> "").
  2:{ destruct Hi as [Hi Hk]. destruct (Hi Hk) as (f & ?). exists f. tauto. }
  assert (H0 : pk_ok (mkTableInfo [] "")) by (by intros []). revert H0 H. generalize (mkTableInfo [] "").
  induction fs as [|f fs IH]; intros i0 H0; cbn.
  - destruct (String.eqb_spec (PrimaryKey i0) ""); [done|]. by intros [= <-].
  - destruct (parse_field f i0) as [i1|] eqn:E; cbn; [|done]. apply IH. by eapply parse_field_pk.
Qed.

Definition demo_model : list structField :=
  [mkField "Code" true TString "short_code,primary" ""; mkField "Hits" true (TInt Int) "hits" ""].

Lemma primary_key_is_a_column_witness :
  exists info f, parseStruct (Some demo_model) = Some (inl info) /\ f ∈ Fields info /\ Column f = "short_code".
Proof.
  set (info := match parseType demo_model with Some i => i | None => mkTableInfo [] "" end). vm_compute in info.
  assert (E : parseStruct (Some demo_model) = Some (inl info)) by (vm_compute; reflexivity).
  exists info. destruct (primary_key_is_a_column (Some demo_model) info E) as (f & Hf & _ & Hc & _). exists f. exact (conj E (conj Hf Hc)).
Defined.

(** Whatever the Go type and the [type=] override, a SQLite column has one of the five
    SQLite types; PostgreSQL keeps an override as it is written. *)
Theorem column_types_closed (f : FieldInfo) :
  columnType dialectSQLite f ∈ ["INTEGER"; "TEXT"; "NUMERIC"; "REAL"; "BLOB"] /\
  (Auto f = false -> TypeOverride f <> "" -> columnType dialectPostgres f = TypeOverride f).
Proof.
  split.
  - unfold columnType. destruct (Auto f); [repeat constructor|]. destruct (negb _).
    + unfold translateType. cbn [typeTranslation]. destruct (canonicalType _); cbn [String.eqb]; repeat constructor.
    + unfold baseType, baseTypeSQLite. destruct (elem_type (FieldType f)) as [| | | | |e| | | | |]; try destruct e as [| []| | | | | | | | |]; repeat constructor.
  - intros Ha Ht. unfold columnType. rewrite Ha. by destruct (String.eqb_spec (TypeOverride f) "").
Qed.

Lemma column_types_closed_witness :
  columnType dialectPostgres (mkFieldInfo "price" "Price" false false false "" false false false TFloat64 "" "DECIMAL(10,2)" "") = "DECIMAL(10,2)".
Proof. apply column_types_closed; [reflexivity|discriminate]. Defined.

(** A default is quoted without escaping, and on SQLite a uuid default is generated by the
    server. *)
Example defaults :
  columnDefault (fun _ => false) dialectPostgres "it's" = Some "'it's'" /\
  columnDefault (fun _ => false) dialectSQLite "uuid()" = Some "(lower(hex(randomblob(16))))".
Proof. split; vm_compute; reflexivity. Qed.
