(* ===== verification/RedisClient.v ===== *)
(** * The Redis client and the sharded key-value store (infra/stores/redis, infra/stores/kv)

    [Redis] is a client of a server, made of a configuration; its methods send one command
    through a connection that all clients of one address share, and turn the reply into what
    the method returns.  [clusterStore] has the same methods over several servers: the key
    says which.  The connection (go-redis) and the servers are parameters: [cmd] are the
    commands the methods send, [conn_do] what the server does with one. *)

From S2P Require Import Prelude GoStrings Float64 SqlModel ConsistentHash.
From stdpp Require Import pretty.
From Stdlib Require Import Ascii.
#[local] Open Scope string_scope.
#[local] Open Scope list_scope.
#[local] Open Scope Z_scope.

(** ** Commands and replies *)

(** [red.ZRangeBy] *)
Record ZRangeBy : Type := mkBy { by_Min : string; by_Max : string; by_Offset : Z; by_Count : Z }.

(** The commands, indexed by their replies; durations are nanoseconds. *)
Inductive cmd : Type -> Type :=
| c_BitCount (key : string) (start stop : Z) : cmd Z
| c_BitOpAnd (dest : string) (keys : list string) : cmd Z
| c_BitOpNot (dest key : string) : cmd Z
| c_BitOpOr (dest : string) (keys : list string) : cmd Z
| c_BitOpXor (dest : string) (keys : list string) : cmd Z
| c_BitPos (key : string) (bit start stop : Z) : cmd Z
| c_BLPop (timeout : Z) (key : string) : cmd (list string)
| c_Decr (key : string) : cmd Z
| c_DecrBy (key : string) (decrement : Z) : cmd Z
| c_Del (keys : list string) : cmd Z
| c_DoArgs (args : list any) : cmd any
| c_Eval (script : string) (keys : list string) (args : list any) : cmd any
| c_EvalSha (sha : string) (keys : list string) (args : list any) : cmd any
| c_Exists (keys : list string) : cmd Z
| c_Expire (key : string) (expiration : Z) : cmd bool
| c_ExpireAt (key : string) (unix : Z) : cmd bool
| c_Get (key : string) : cmd string
| c_GetBit (key : string) (offset : Z) : cmd Z
| c_GetDel (key : string) : cmd string
| c_GetEx (key : string) (expiration : Z) : cmd string
| c_GetSet (key value : string) : cmd string
| c_HDel (key : string) (fields : list string) : cmd Z
| c_HExists (key field : string) : cmd bool
| c_HGet (key field : string) : cmd string
| c_HGetAll (key : string) : cmd (gmap string string)
| c_HIncrBy (key field : string) (increment : Z) : cmd Z
| c_HIncrByFloat (key field : string) (increment : float64) : cmd float64
| c_HKeys (key : string) : cmd (list string)
| c_HLen (key : string) : cmd Z
| c_HMGet (key : string) (fields : list string) : cmd (list any)
| c_HSet (key field value : string) : cmd Z
| c_HSetNX (key field value : string) : cmd bool
| c_HMSet (key : string) (values : gmap string any) : cmd bool
| c_HScan (key : string) (cursor : Z) (pattern : string) (count : Z) : cmd (list string * Z)
| c_HVals (key : string) : cmd (list string)
| c_Incr (key : string) : cmd Z
| c_IncrBy (key : string) (increment : Z) : cmd Z
| c_IncrByFloat (key : string) (increment : float64) : cmd float64
| c_Keys (pattern : string) : cmd (list string)
| c_LLen (key : string) : cmd Z
| c_LIndex (key : string) (index : Z) : cmd string
| c_LPop (key : string) : cmd string
| c_LPopCount (key : string) (count : Z) : cmd (list string)
| c_LPush (key : string) (values : list any) : cmd Z
| c_LRange (key : string) (start stop : Z) : cmd (list string)
| c_LRem (key : string) (count : Z) (value : string) : cmd Z
| c_LTrim (key : string) (start stop : Z) : cmd string
| c_MGet (keys : list string) : cmd (list any)
| c_MSet (values : list any) : cmd string
| c_Persist (key : string) : cmd bool
| c_PFAdd (key : string) (values : list any) : cmd Z
| c_PFCount (key : string) : cmd Z
| c_PFMerge (dest : string) (keys : list string) : cmd string
| c_Ping : cmd string
| c_Publish (channel : string) (message : any) : cmd Z
| c_RPop (key : string) : cmd string
| c_RPopCount (key : string) (count : Z) : cmd (list string)
| c_RPush (key : string) (values : list any) : cmd Z
| c_RPopLPush (source destination : string) : cmd string
| c_SAdd (key : string) (values : list any) : cmd Z
| c_Scan (cursor : Z) (pattern : string) (count : Z) : cmd (list string * Z)
| c_SetBit (key : string) (offset value : Z) : cmd Z
| c_SScan (key : string) (cursor : Z) (pattern : string) (count : Z) : cmd (list string * Z)
| c_SCard (key : string) : cmd Z
| c_ScriptLoad (script : string) : cmd string
| c_SetEx (key value : string) (expiration : Z) : cmd string
| c_SetNX (key value : string) (expiration : Z) : cmd bool
| c_SIsMember (key : string) (value : any) : cmd bool
| c_SMembers (key : string) : cmd (list string)
| c_SPop (key : string) : cmd string
| c_SRandMemberN (key : string) (count : Z) : cmd (list string)
| c_SRem (key : string) (values : list any) : cmd Z
| c_SUnion (keys : list string) : cmd (list string)
| c_SUnionStore (dest : string) (keys : list string) : cmd Z
| c_SDiff (keys : list string) : cmd (list string)
| c_SDiffStore (dest : string) (keys : list string) : cmd Z
| c_SInter (keys : list string) : cmd (list string)
| c_SInterStore (dest : string) (keys : list string) : cmd Z
| c_TTL (key : string) : cmd Z
| c_Unlink (keys : list string) : cmd Z
| c_ZAdd (key : string) (members : list (float64 * any)) : cmd Z
| c_ZAddNX (key : string) (members : list (float64 * any)) : cmd Z
| c_ZCard (key : string) : cmd Z
| c_ZCount (key min max : string) : cmd Z
| c_ZIncrBy (key : string) (increment : float64) (member : string) : cmd float64
| c_ZScore (key member : string) : cmd float64
| c_ZScan (key : string) (cursor : Z) (pattern : string) (count : Z) : cmd (list string * Z)
| c_ZRank (key member : string) : cmd Z
| c_ZRem (key : string) (values : list any) : cmd Z
| c_ZRemRangeByScore (key min max : string) : cmd Z
| c_ZRemRangeByRank (key : string) (start stop : Z) : cmd Z
| c_ZRange (key : string) (start stop : Z) : cmd (list string)
| c_ZRangeWithScores (key : string) (start stop : Z) : cmd (list (float64 * any))
| c_ZRevRangeWithScores (key : string) (start stop : Z) : cmd (list (float64 * any))
| c_ZRangeByScoreWithScores (key : string) (by_ : ZRangeBy) : cmd (list (float64 * any))
| c_ZRevRange (key : string) (start stop : Z) : cmd (list string)
| c_ZRevRangeByScoreWithScores (key : string) (by_ : ZRangeBy) : cmd (list (float64 * any))
| c_ZRevRank (key member : string) : cmd Z.

(** The keys a command reads and writes; the others are not about keys they name. *)
Definition keys_of {A} (c : cmd A) : option (list string) :=
  match c with
  | c_BitCount key _ _ => Some [key]
  | c_BitOpAnd dest keys => Some (dest :: keys)
  | c_BitOpNot dest key => Some [dest; key]
  | c_BitOpOr dest keys => Some (dest :: keys)
  | c_BitOpXor dest keys => Some (dest :: keys)
  | c_BitPos key _ _ _ => Some [key]
  | c_BLPop _ key => Some [key]
  | c_Decr key => Some [key]
  | c_DecrBy key _ => Some [key]
  | c_Del keys => Some keys
  | c_Eval _ keys _ => Some keys
  | c_EvalSha _ keys _ => Some keys
  | c_Exists keys => Some keys
  | c_Expire key _ => Some [key]
  | c_ExpireAt key _ => Some [key]
  | c_Get key => Some [key]
  | c_GetBit key _ => Some [key]
  | c_GetDel key => Some [key]
  | c_GetEx key _ => Some [key]
  | c_GetSet key _ => Some [key]
  | c_HDel key _ => Some [key]
  | c_HExists key _ => Some [key]
  | c_HGet key _ => Some [key]
  | c_HGetAll key => Some [key]
  | c_HIncrBy key _ _ => Some [key]
  | c_HIncrByFloat key _ _ => Some [key]
  | c_HKeys key => Some [key]
  | c_HLen key => Some [key]
  | c_HMGet key _ => Some [key]
  | c_HSet key _ _ => Some [key]
  | c_HSetNX key _ _ => Some [key]
  | c_HMSet key _ => Some [key]
  | c_HScan key _ _ _ => Some [key]
  | c_HVals key => Some [key]
  | c_Incr key => Some [key]
  | c_IncrBy key _ => Some [key]
  | c_IncrByFloat key _ => Some [key]
  | c_LLen key => Some [key]
  | c_LIndex key _ => Some [key]
  | c_LPop key => Some [key]
  | c_LPopCount key _ => Some [key]
  | c_LPush key _ => Some [key]
  | c_LRange key _ _ => Some [key]
  | c_LRem key _ _ => Some [key]
  | c_LTrim key _ _ => Some [key]
  | c_MGet keys => Some keys
  | c_Persist key => Some [key]
  | c_PFAdd key _ => Some [key]
  | c_PFCount key => Some [key]
  | c_PFMerge dest keys => Some (dest :: keys)
  | c_RPop key => Some [key]
  | c_RPopCount key _ => Some [key]
  | c_RPush key _ => Some [key]
  | c_RPopLPush source destination => Some [source; destination]
  | c_SAdd key _ => Some [key]
  | c_SetBit key _ _ => Some [key]
  | c_SScan key _ _ _ => Some [key]
  | c_SCard key => Some [key]
  | c_SetEx key _ _ => Some [key]
  | c_SetNX key _ _ => Some [key]
  | c_SIsMember key _ => Some [key]
  | c_SMembers key => Some [key]
  | c_SPop key => Some [key]
  | c_SRandMemberN key _ => Some [key]
  | c_SRem key _ => Some [key]
  | c_SUnion keys => Some keys
  | c_SUnionStore dest keys => Some (dest :: keys)
  | c_SDiff keys => Some keys
  | c_SDiffStore dest keys => Some (dest :: keys)
  | c_SInter keys => Some keys
  | c_SInterStore dest keys => Some (dest :: keys)
  | c_TTL key => Some [key]
  | c_Unlink keys => Some keys
  | c_ZAdd key _ => Some [key]
  | c_ZAddNX key _ => Some [key]
  | c_ZCard key => Some [key]
  | c_ZCount key _ _ => Some [key]
  | c_ZIncrBy key _ _ => Some [key]
  | c_ZScore key _ => Some [key]
  | c_ZScan key _ _ _ => Some [key]
  | c_ZRank key _ => Some [key]
  | c_ZRem key _ => Some [key]
  | c_ZRemRangeByScore key _ _ => Some [key]
  | c_ZRemRangeByRank key _ _ => Some [key]
  | c_ZRange key _ _ => Some [key]
  | c_ZRangeWithScores key _ _ => Some [key]
  | c_ZRevRangeWithScores key _ _ => Some [key]
  | c_ZRangeByScoreWithScores key _ => Some [key]
  | c_ZRevRange key _ _ => Some [key]
  | c_ZRevRangeByScoreWithScores key _ => Some [key]
  | c_ZRevRank key _ => Some [key]
  | _ => None
  end.

(** [red.Nil] and other errors. *)
Inductive rerr : Type := ENil | EText (msg : string).
Notation res A := (rerr + A)%type.
Definition err_text (e : rerr) : string := match e with ENil => "redis: nil" | EText msg => msg end.

(** ** The client *)

Record Redis : Type := mkRedis { Addr : string; Type_ : string; User : string; Pass : string; DB : Z; MasterName : string; SentinelUser : string; SentinelPass : string;
  poolSize : Z; tls : bool; tlsSkipVerify : bool }.
#[export] Instance eta_redis : Eta Redis := fun r => mkRedis (Addr r) (Type_ r) (User r) (Pass r) (DB r) (MasterName r) (SentinelUser r) (SentinelPass r) (poolSize r) (tls r) (tlsSkipVerify r).

Definition ClusterType : string := "cluster".
Definition NodeType : string := "node".
Definition SentinelType : string := "sentinel".

Record RedisConf : Type := mkRedisConf { rc_Host : string; rc_Type : string; rc_User : string; rc_Pass : string; rc_Tls : bool; rc_TlsSkipVerify : bool; rc_NonBlock : bool; rc_Database : Z;
  rc_MasterName : string; rc_SentinelUsername : string; rc_SentinelPassword : string; rc_PoolSize : Z; rc_PingTimeout : Z }.
#[export] Instance eta_redisconf : Eta RedisConf := fun c => mkRedisConf (rc_Host c) (rc_Type c) (rc_User c) (rc_Pass c) (rc_Tls c) (rc_TlsSkipVerify c) (rc_NonBlock c) (rc_Database c)
  (rc_MasterName c) (rc_SentinelUsername c) (rc_SentinelPassword c) (rc_PoolSize c) (rc_PingTimeout c).

Definition RedisConf_Validate (rc : RedisConf) : option string :=
  if (rc_Host rc =? "")%string then Some "empty redis host" else if (rc_Type rc =? "")%string then Some "empty redis type" else None.

Definition RedisKeyConf_Validate (rc : RedisConf) (key : string) : option string :=
  match RedisConf_Validate rc with Some e => Some e | None => if (key =? "")%string then Some "empty redis key" else None end.

(** [Option]: a change of the client. *)
Notation Option := (Redis -> Redis).
Definition Cluster : Option := fun r => r <| Type_ := ClusterType |>.
Definition Sentinel (masterName : string) : Option := fun r => r <| Type_ := SentinelType |> <| MasterName := masterName |>.
Definition WithSentinelUser (user : string) : Option := fun r => r <| SentinelUser := user |>.
Definition WithSentinelPass (pass : string) : Option := fun r => r <| SentinelPass := pass |>.
Definition WithDB (db : Z) : Option := fun r => r <| DB := db |>.
Definition WithPass (pass : string) : Option := fun r => r <| Pass := pass |>.
Definition WithTLS : Option := fun r => r <| tls := true |>.
Definition WithTLSSkipVerify (skip : bool) : Option := fun r => r <| tlsSkipVerify := skip |>.
Definition WithPoolSize (size : Z) : Option := fun r => r <| poolSize := size |>.
Definition WithUser (user : string) : Option := fun r => r <| User := user |>.

Definition newRedis (addr : string) (opts : list Option) : Redis := foldl (fun r opt => opt r) (mkRedis addr NodeType "" "" 0 "" "" "" 0 false false) opts.

(** [RedisConf.NewRedis], deprecated. *)
Definition RedisConf_NewRedis (rc : RedisConf) : Redis :=
  let opts := if (rc_Type rc =? ClusterType)%string then [Cluster] else [] in
  let opts := if (rc_User rc =? "")%string then opts else opts ++ [WithUser (rc_User rc)] in
  let opts := if (rc_Pass rc =? "")%string then opts else opts ++ [WithPass (rc_Pass rc)] in
  let opts := if rc_Tls rc then opts ++ [WithTLS] else opts in
  let opts := if rc_TlsSkipVerify rc then opts ++ [WithTLSSkipVerify true] else opts in
  newRedis (rc_Host rc) opts.

(** What [red.ParseURL] finds in a URL: address, user, password, database, TLS. *)
Record redisURL : Type := mkURL { u_Addr : string; u_Username : string; u_Password : string; u_DB : Z; u_TLS : bool }.

Section url.
Context (ParseURL : string -> option redisURL).

Definition resolveRedisURL (conf : RedisConf) : RedisConf :=
  if HasPrefix (rc_Host conf) "redis://" || HasPrefix (rc_Host conf) "rediss://" then
    match ParseURL (rc_Host conf) with
    | None => conf
    | Some u =>
        let conf := conf <| rc_Host := u_Addr u |> in
        let conf := if (u_Username u =? "")%string then conf else conf <| rc_User := u_Username u |> in
        let conf := if (u_Password u =? "")%string then conf else conf <| rc_Pass := u_Password u |> in
        let conf := if u_DB u =? 0 then conf else conf <| rc_Database := u_DB u |> in
        if u_TLS u && negb (rc_Tls conf) then conf <| rc_Tls := true |> else conf
    end
  else conf.

(** The options of [NewRedis], each put before the ones collected so far, then the caller's. *)
Definition NewRedis_options (conf : RedisConf) (opts : list Option) : list Option :=
  let opts := if (rc_Type conf =? ClusterType)%string then Cluster :: opts else opts in
  let opts := if (rc_Type conf =? SentinelType)%string then
                let opts := Sentinel (rc_MasterName conf) :: opts in
                let opts := if (rc_SentinelUsername conf =? "")%string then opts else WithSentinelUser (rc_SentinelUsername conf) :: opts in
                if (rc_SentinelPassword conf =? "")%string then opts else WithSentinelPass (rc_SentinelPassword conf) :: opts
              else opts in
  let opts := if (rc_User conf =? "")%string then opts else WithUser (rc_User conf) :: opts in
  let opts := if (rc_Pass conf =? "")%string then opts else WithPass (rc_Pass conf) :: opts in
  let opts := if rc_Tls conf then WithTLS :: opts else opts in
  let opts := if rc_Database conf =? 0 then opts else WithDB (rc_Database conf) :: opts in
  if 0 <? rc_PoolSize conf then WithPoolSize (rc_PoolSize conf) :: opts else opts.
End url.

(** ** Connections

    What a connection is made with.  The addresses of a cluster are a set. *)
Record connOptions : Type := mkConn { co_Kind : string; co_Addrs : gset string; co_MasterName : string; co_SentinelUser : string; co_SentinelPass : string; co_User : string; co_Pass : string; co_DB : Z;
  co_PoolSize : Z; co_TLS : option bool }.
#[export] Instance connOptions_eq_dec : EqDecision connOptions.
Proof. solve_decision. Defined.

(** The TLS configuration, with whether certificates are left unverified. *)
Definition tlsConfig (r : Redis) : option bool := if tls r then Some (tlsSkipVerify r) else None.
Definition splitClusterAddrs (addr : string) : gset string := list_to_set (TrimSpace <$> Split addr ",").
Definition splitSentinelAddrs (addr : string) : gset string := list_to_set (filter (fun a => a <> "") (TrimSpace <$> Split addr ",")).

(** What [getClient], [getCluster] and [getSentinel] make a connection of, and the key it is
    kept under: the kind's manager and the address. *)
Definition getClient_options (r : Redis) : connOptions := mkConn NodeType {[Addr r]} "" "" "" (User r) (Pass r) (DB r) (poolSize r) (tlsConfig r).
Definition getCluster_options (r : Redis) : connOptions := mkConn ClusterType (splitClusterAddrs (Addr r)) "" "" "" (User r) (Pass r) 0 0 (tlsConfig r).
Definition getSentinel_options (r : Redis) : connOptions :=
  mkConn SentinelType (splitSentinelAddrs (Addr r)) (MasterName r) (SentinelUser r) (SentinelPass r) (User r) (Pass r) (DB r) 0 (tlsConfig r).
Definition own_options (r : Redis) : connOptions :=
  if (Type_ r =? ClusterType)%string then getCluster_options r else if (Type_ r =? SentinelType)%string then getSentinel_options r else getClient_options r.
Definition conn_key (r : Redis) : string * string := (Type_ r, if (Type_ r =? SentinelType)%string then (MasterName r ++ "@" ++ Addr r)%string else Addr r).

(** [conn_do o t c s]: the server at [t] with command [c]; [o] stands for the moment - the clock,
    the random choices and the failures. *)
Class RedisServer (O S : Type) := conn_do : forall {A}, O -> connOptions -> cmd A -> S -> res A * S.

(** The connections made so far, and the servers. *)
Record world (S : Type) : Type := mkWorld { managers : gmap (string * string) connOptions; servers : S }.
Arguments mkWorld {S} _ _. Arguments managers {S} _. Arguments servers {S} _.

Section client.
Context {O S : Type} `{!RedisServer O S}.
Context (FormatFloat : float64 -> string).

Definition M (A : Type) : Type := O -> world S -> res A * world S.
Definition ret {A} (x : A) : M A := fun _ w => (inr x, w).
Definition fail {A} (e : rerr) : M A := fun _ w => (inl e, w).
Definition mbind {A B} (m : M A) (k : A -> M B) : M B := fun o w => match m o w with (inl e, w) => (inl e, w) | (inr x, w) => k x o w end.
#[local] Notation "'let!' x := m 'in' k" := (mbind m (fun x => k)) (at level 200, x pattern, m at level 100, k at level 200).

(** [getRedis], with [syncx.ResourceManager.GetResource]: a connection that was made under the
    key is used again, whatever it was made with. *)
Definition getRedis (r : Redis) : M connOptions := fun _ w =>
  if negb ((Type_ r =? ClusterType)%string || (Type_ r =? NodeType)%string || (Type_ r =? SentinelType)%string) then (inl (EText ("redis type '" ++ Type_ r ++ "' is not supported")), w)
  else match managers w !! conn_key r with
       | Some conn => (inr conn, w)
       | None => (inr (own_options r), mkWorld (<[conn_key r := own_options r]> (managers w)) (servers w))
       end.

(** A command of a connection, and of a client. *)
Definition conn_send {A} (conn : connOptions) (c : cmd A) : M A := fun o w => let '(x, s) := conn_do o conn c (servers w) in (x, mkWorld (managers w) s).
Definition send {A} (r : Redis) (c : cmd A) : M A := let! conn := getRedis r in conn_send conn c.

(** [.Err()], and [red.Nil] read as the empty string. *)
Definition error_of {A} (m : M A) : M unit := let! _ := m in ret tt.
Definition nil_is_empty (m : M string) : M string := fun o w => match m o w with (inl ENil, w) => (inr "", w) | r => r end.

(** [time.Duration(seconds) * time.Second] *)
Definition seconds_of (seconds : Z) : Z := wrap64 (seconds * 10 ^ 9).
Definition FormatInt (z : Z) : string := pretty z.

(** [int64(v)]: towards zero; numbers out of the range become the least integer, as on amd64. *)
Definition f64_int64 (x : float64) : Z :=
  match x with
  | S754_zero _ => 0
  | S754_finite s m e => let a := if 0 <=? e then Zpos m * 2 ^ e else Zpos m / 2 ^ (- e) in let z := if s then - a else a in if (-2^63 <=? z) && (z <? 2^63) then z else -2^63
  | _ => -2^63
  end.

Definition toStrings (vals : list any) : list string := (fun val => match val with ANil => "" | AString s => s | _ => Repr val end) <$> vals.
Definition member_text (m : any) : string := match m with AString s => s | _ => Repr m end.
Definition toPairs (vals : list (float64 * any)) : list (string * Z) := (fun v => (member_text v.2, f64_int64 v.1)) <$> vals.
Definition toFloatPairs (vals : list (float64 * any)) : list (string * float64) := (fun v => (member_text v.2, v.1)) <$> vals.

(** *** The methods *)

Definition Redis_BitCount (r : Redis) (key : string) (start stop : Z) : M Z := send r (c_BitCount key start stop).
Definition Redis_BitOpAnd (r : Redis) (dest : string) (keys : list string) : M Z := send r (c_BitOpAnd dest keys).
Definition Redis_BitOpNot (r : Redis) (dest key : string) : M Z := send r (c_BitOpNot dest key).
Definition Redis_BitOpOr (r : Redis) (dest : string) (keys : list string) : M Z := send r (c_BitOpOr dest keys).
Definition Redis_BitOpXor (r : Redis) (dest : string) (keys : list string) : M Z := send r (c_BitOpXor dest keys).
Definition Redis_BitPos (r : Redis) (key : string) (bit start stop : Z) : M Z := send r (c_BitPos key bit start stop).
Definition Redis_Decr (r : Redis) (key : string) : M Z := send r (c_Decr key).
Definition Redis_Decrby (r : Redis) (key : string) (decrement : Z) : M Z := send r (c_DecrBy key decrement).
Definition Redis_Del (r : Redis) (keys : list string) : M Z := send r (c_Del keys).
Definition Redis_Do (r : Redis) (args : list any) : M any :=
  match args with [] => fail (EText "missing redis command") | _ => send r (c_DoArgs args) end.
Definition Redis_Eval (r : Redis) (script : string) (keys : list string) (args : list any) : M any := send r (c_Eval script keys args).
Definition Redis_EvalSha (r : Redis) (sha : string) (keys : list string) (args : list any) : M any := send r (c_EvalSha sha keys args).
Definition Redis_Exists (r : Redis) (key : string) : M bool := let! v := send r (c_Exists [key]) in ret (v =? 1).
Definition Redis_ExistsMany (r : Redis) (keys : list string) : M Z := send r (c_Exists keys).
Definition Redis_Expire (r : Redis) (key : string) (seconds : Z) : M unit := error_of (send r (c_Expire key (seconds_of seconds))).
Definition Redis_Expireat (r : Redis) (key : string) (expireTime : Z) : M unit := error_of (send r (c_ExpireAt key expireTime)).
Definition Redis_Get (r : Redis) (key : string) : M string := nil_is_empty (send r (c_Get key)).
Definition Redis_GetBit (r : Redis) (key : string) (offset : Z) : M Z := send r (c_GetBit key offset).
Definition Redis_GetDel (r : Redis) (key : string) : M string := nil_is_empty (send r (c_GetDel key)).
Definition Redis_GetEx (r : Redis) (key : string) (seconds : Z) : M string := nil_is_empty (send r (c_GetEx key (seconds_of seconds))).
Definition Redis_GetSet (r : Redis) (key value : string) : M string := nil_is_empty (send r (c_GetSet key value)).
Definition Redis_Hdel (r : Redis) (key : string) (fields : list string) : M bool := let! v := send r (c_HDel key fields) in ret (1 <=? v).
Definition Redis_Hexists (r : Redis) (key field : string) : M bool := send r (c_HExists key field).
Definition Redis_Hget (r : Redis) (key field : string) : M string := send r (c_HGet key field).
Definition Redis_Hgetall (r : Redis) (key : string) : M (gmap string string) := send r (c_HGetAll key).
Definition Redis_Hincrby (r : Redis) (key field : string) (increment : Z) : M Z := send r (c_HIncrBy key field increment).
Definition Redis_HincrbyFloat (r : Redis) (key field : string) (increment : float64) : M float64 := send r (c_HIncrByFloat key field increment).
Definition Redis_Hkeys (r : Redis) (key : string) : M (list string) := send r (c_HKeys key).
Definition Redis_Hlen (r : Redis) (key : string) : M Z := send r (c_HLen key).
Definition Redis_Hmget (r : Redis) (key : string) (fields : list string) : M (list string) := let! v := send r (c_HMGet key fields) in ret (toStrings v).
Definition Redis_Hset (r : Redis) (key field value : string) : M unit := error_of (send r (c_HSet key field value)).
Definition Redis_Hsetnx (r : Redis) (key field value : string) : M bool := send r (c_HSetNX key field value).
Definition Redis_Hmset (r : Redis) (key : string) (fieldsAndValues : gmap string string) : M unit := error_of (send r (c_HMSet key (AString <$> fieldsAndValues))).
Definition Redis_Hscan (r : Redis) (key : string) (cursor : Z) (pattern : string) (count : Z) : M (list string * Z) := send r (c_HScan key cursor pattern count).
Definition Redis_Hvals (r : Redis) (key : string) : M (list string) := send r (c_HVals key).
Definition Redis_Incr (r : Redis) (key : string) : M Z := send r (c_Incr key).
Definition Redis_Incrby (r : Redis) (key : string) (increment : Z) : M Z := send r (c_IncrBy key increment).
Definition Redis_IncrbyFloat (r : Redis) (key : string) (increment : float64) : M float64 := send r (c_IncrByFloat key increment).
Definition Redis_Keys (r : Redis) (pattern : string) : M (list string) := send r (c_Keys pattern).
Definition Redis_Llen (r : Redis) (key : string) : M Z := send r (c_LLen key).
Definition Redis_Lindex (r : Redis) (key : string) (index : Z) : M string := send r (c_LIndex key index).
Definition Redis_Lpop (r : Redis) (key : string) : M string := send r (c_LPop key).
Definition Redis_LpopCount (r : Redis) (key : string) (count : Z) : M (list string) := send r (c_LPopCount key count).
Definition Redis_Lpush (r : Redis) (key : string) (values : list any) : M Z := send r (c_LPush key values).
Definition Redis_Lrange (r : Redis) (key : string) (start stop : Z) : M (list string) := send r (c_LRange key start stop).
Definition Redis_Lrem (r : Redis) (key : string) (count : Z) (value : string) : M Z := send r (c_LRem key count value).
Definition Redis_Ltrim (r : Redis) (key : string) (start stop : Z) : M unit := error_of (send r (c_LTrim key start stop)).
Definition Redis_Mget (r : Redis) (keys : list string) : M (list string) := let! v := send r (c_MGet keys) in ret (toStrings v).
Definition Redis_Mset (r : Redis) (fieldsAndValues : list any) : M string := send r (c_MSet fieldsAndValues).
Definition Redis_Persist (r : Redis) (key : string) : M bool := send r (c_Persist key).
Definition Redis_Pfadd (r : Redis) (key : string) (values : list any) : M bool := let! v := send r (c_PFAdd key values) in ret (1 <=? v).
Definition Redis_Pfcount (r : Redis) (key : string) : M Z := send r (c_PFCount key).
Definition Redis_Pfmerge (r : Redis) (dest : string) (keys : list string) : M unit := error_of (send r (c_PFMerge dest keys)).
Definition Redis_Publish (r : Redis) (channel : string) (message : any) : M Z := send r (c_Publish channel message).
Definition Redis_Rpop (r : Redis) (key : string) : M string := send r (c_RPop key).
Definition Redis_RpopCount (r : Redis) (key : string) (count : Z) : M (list string) := send r (c_RPopCount key count).
Definition Redis_Rpush (r : Redis) (key : string) (values : list any) : M Z := send r (c_RPush key values).
Definition Redis_RPopLPush (r : Redis) (source destination : string) : M string := send r (c_RPopLPush source destination).
Definition Redis_Sadd (r : Redis) (key : string) (values : list any) : M Z := send r (c_SAdd key values).
Definition Redis_Scan (r : Redis) (cursor : Z) (pattern : string) (count : Z) : M (list string * Z) := send r (c_Scan cursor pattern count).
Definition Redis_SetBit (r : Redis) (key : string) (offset value : Z) : M Z := send r (c_SetBit key offset value).
Definition Redis_Sscan (r : Redis) (key : string) (cursor : Z) (pattern : string) (count : Z) : M (list string * Z) := send r (c_SScan key cursor pattern count).
Definition Redis_Scard (r : Redis) (key : string) : M Z := send r (c_SCard key).
Definition Redis_ScriptLoad (r : Redis) (script : string) : M string := send r (c_ScriptLoad script).
Definition Redis_Set (r : Redis) (key value : string) : M unit := error_of (send r (c_SetEx key value 0)).
Definition Redis_Setex (r : Redis) (key value : string) (seconds : Z) : M unit := error_of (send r (c_SetEx key value (seconds_of seconds))).
Definition Redis_Setnx (r : Redis) (key value : string) : M bool := send r (c_SetNX key value 0).
Definition Redis_SetnxEx (r : Redis) (key value : string) (seconds : Z) : M bool := send r (c_SetNX key value (seconds_of seconds)).
Definition Redis_Sismember (r : Redis) (key : string) (value : any) : M bool := send r (c_SIsMember key value).
Definition Redis_Smembers (r : Redis) (key : string) : M (list string) := send r (c_SMembers key).
Definition Redis_Spop (r : Redis) (key : string) : M string := send r (c_SPop key).
Definition Redis_Srandmember (r : Redis) (key : string) (count : Z) : M (list string) := send r (c_SRandMemberN key count).
Definition Redis_Srem (r : Redis) (key : string) (values : list any) : M Z := send r (c_SRem key values).
Definition Redis_Sunion (r : Redis) (keys : list string) : M (list string) := send r (c_SUnion keys).
Definition Redis_Sunionstore (r : Redis) (dest : string) (keys : list string) : M Z := send r (c_SUnionStore dest keys).
Definition Redis_Sdiff (r : Redis) (keys : list string) : M (list string) := send r (c_SDiff keys).
Definition Redis_Sdiffstore (r : Redis) (dest : string) (keys : list string) : M Z := send r (c_SDiffStore dest keys).
Definition Redis_Sinter (r : Redis) (keys : list string) : M (list string) := send r (c_SInter keys).
Definition Redis_Sinterstore (r : Redis) (dest : string) (keys : list string) : M Z := send r (c_SInterStore dest keys).
Definition Redis_Ttl (r : Redis) (key : string) : M Z :=
  let! duration := send r (c_TTL key) in ret (if 0 <=? duration then Z.quot duration (10 ^ 9) else duration).
Definition Redis_Unlink (r : Redis) (keys : list string) : M Z := send r (c_Unlink keys).
Definition Redis_ZaddFloat (r : Redis) (key : string) (score : float64) (value : string) : M bool := let! v := send r (c_ZAdd key [(score, AString value)]) in ret (v =? 1).
Definition Redis_Zadd (r : Redis) (key : string) (score : Z) (value : string) : M bool := Redis_ZaddFloat r key (f64_of_Z score) value.
Definition Redis_ZaddnxFloat (r : Redis) (key : string) (score : float64) (value : string) : M bool :=
  let! v := send r (c_ZAddNX key [(score, AString value)]) in ret (v =? 1).
Definition Redis_Zaddnx (r : Redis) (key : string) (score : Z) (value : string) : M bool := Redis_ZaddnxFloat r key (f64_of_Z score) value.
Definition Redis_Zadds (r : Redis) (key : string) (ps : list (string * Z)) : M Z := send r (c_ZAdd key ((fun p => (f64_of_Z p.2, AString p.1)) <$> ps)).
Definition Redis_Zcard (r : Redis) (key : string) : M Z := send r (c_ZCard key).
Definition Redis_Zcount (r : Redis) (key : string) (start stop : Z) : M Z := send r (c_ZCount key (FormatInt start) (FormatInt stop)).
Definition Redis_Zincrby (r : Redis) (key : string) (increment : Z) (field : string) : M Z :=
  let! v := send r (c_ZIncrBy key (f64_of_Z increment) field) in ret (f64_int64 v).
Definition Redis_ZscoreByFloat (r : Redis) (key value : string) : M float64 := send r (c_ZScore key value).
Definition Redis_Zscore (r : Redis) (key value : string) : M Z := let! v := send r (c_ZScore key value) in ret (f64_int64 v).
Definition Redis_Zscan (r : Redis) (key : string) (cursor : Z) (pattern : string) (count : Z) : M (list string * Z) := send r (c_ZScan key cursor pattern count).
Definition Redis_Zrank (r : Redis) (key field : string) : M Z := send r (c_ZRank key field).
Definition Redis_Zrem (r : Redis) (key : string) (values : list any) : M Z := send r (c_ZRem key values).
Definition Redis_Zremrangebyscore (r : Redis) (key : string) (start stop : Z) : M Z := send r (c_ZRemRangeByScore key (FormatInt start) (FormatInt stop)).
Definition Redis_Zremrangebyrank (r : Redis) (key : string) (start stop : Z) : M Z := send r (c_ZRemRangeByRank key start stop).
Definition Redis_Zrange (r : Redis) (key : string) (start stop : Z) : M (list string) := send r (c_ZRange key start stop).
Definition Redis_ZrangeWithScores (r : Redis) (key : string) (start stop : Z) : M (list (string * Z)) :=
  let! v := send r (c_ZRangeWithScores key start stop) in ret (toPairs v).
Definition Redis_ZrangeWithScoresByFloat (r : Redis) (key : string) (start stop : Z) : M (list (string * float64)) :=
  let! v := send r (c_ZRangeWithScores key start stop) in ret (toFloatPairs v).
Definition Redis_ZrevrangeWithScores (r : Redis) (key : string) (start stop : Z) : M (list (string * Z)) :=
  let! v := send r (c_ZRevRangeWithScores key start stop) in ret (toPairs v).
Definition Redis_ZrevrangeWithScoresByFloat (r : Redis) (key : string) (start stop : Z) : M (list (string * float64)) :=
  let! v := send r (c_ZRevRangeWithScores key start stop) in ret (toFloatPairs v).
Definition Redis_ZrangebyscoreWithScores (r : Redis) (key : string) (start stop : Z) : M (list (string * Z)) :=
  let! v := send r (c_ZRangeByScoreWithScores key (mkBy (FormatInt start) (FormatInt stop) 0 0)) in ret (toPairs v).
Definition Redis_ZrangebyscoreWithScoresByFloat (r : Redis) (key : string) (start stop : float64) : M (list (string * float64)) :=
  let! v := send r (c_ZRangeByScoreWithScores key (mkBy (FormatFloat start) (FormatFloat stop) 0 0)) in ret (toFloatPairs v).
Definition Redis_ZrangebyscoreWithScoresAndLimit (r : Redis) (key : string) (start stop page size : Z) : M (list (string * Z)) :=
  if size <=? 0 then ret [] else let! v := send r (c_ZRangeByScoreWithScores key (mkBy (FormatInt start) (FormatInt stop) (wrap64 (page * size)) size)) in ret (toPairs v).
Definition Redis_ZrangebyscoreWithScoresByFloatAndLimit (r : Redis) (key : string) (start stop : float64) (page size : Z) : M (list (string * float64)) :=
  if size <=? 0 then ret [] else let! v := send r (c_ZRangeByScoreWithScores key (mkBy (FormatFloat start) (FormatFloat stop) (wrap64 (page * size)) size)) in ret (toFloatPairs v).
Definition Redis_Zrevrange (r : Redis) (key : string) (start stop : Z) : M (list string) := send r (c_ZRevRange key start stop).
Definition Redis_ZrevrangebyscoreWithScores (r : Redis) (key : string) (start stop : Z) : M (list (string * Z)) :=
  let! v := send r (c_ZRevRangeByScoreWithScores key (mkBy (FormatInt start) (FormatInt stop) 0 0)) in ret (toPairs v).
Definition Redis_ZrevrangebyscoreWithScoresByFloat (r : Redis) (key : string) (start stop : float64) : M (list (string * float64)) :=
  let! v := send r (c_ZRevRangeByScoreWithScores key (mkBy (FormatFloat start) (FormatFloat stop) 0 0)) in ret (toFloatPairs v).
Definition Redis_ZrevrangebyscoreWithScoresAndLimit (r : Redis) (key : string) (start stop page size : Z) : M (list (string * Z)) :=
  if size <=? 0 then ret [] else let! v := send r (c_ZRevRangeByScoreWithScores key (mkBy (FormatInt start) (FormatInt stop) (wrap64 (page * size)) size)) in ret (toPairs v).
Definition Redis_ZrevrangebyscoreWithScoresByFloatAndLimit (r : Redis) (key : string) (start stop : float64) (page size : Z) : M (list (string * float64)) :=
  if size <=? 0 then ret [] else let! v := send r (c_ZRevRangeByScoreWithScores key (mkBy (FormatFloat start) (FormatFloat stop) (wrap64 (page * size)) size)) in ret (toFloatPairs v).
Definition Redis_Zrevrank (r : Redis) (key field : string) : M Z := send r (c_ZRevRank key field).

Definition blockingQueryTimeout : Z := 5 * 10 ^ 9.

(** The node of a blocking command is the caller's; [None] is nil. *)
Definition Redis_BlpopWithTimeout (node : option connOptions) (timeout : Z) (key : string) : M string :=
  match node with
  | None => fail (EText "nil redis node")
  | Some conn => let! vals := conn_send conn (c_BLPop timeout key) in match vals with _ :: v :: _ => ret v | _ => fail (EText ("no value on key: " ++ key)) end
  end.
Definition Redis_Blpop (node : option connOptions) (key : string) : M string := Redis_BlpopWithTimeout node blockingQueryTimeout key.
Definition Redis_BlpopEx (node : option connOptions) (key : string) : M (string * bool) :=
  match node with
  | None => fail (EText "nil redis node")
  | Some conn => let! vals := conn_send conn (c_BLPop blockingQueryTimeout key) in match vals with _ :: v :: _ => ret (v, true) | _ => fail (EText ("no value on key: " ++ key)) end
  end.

(** An error is [false]. *)
Definition Redis_Ping (r : Redis) : M bool := fun o w => match send r c_Ping o w with (inl _, w) => (inr false, w) | (inr v, w) => (inr (v =? "PONG")%string, w) end.
Definition checkConnection (r : Redis) : M unit := error_of (send r c_Ping).

Definition NewRedis (ParseURL : string -> option redisURL) (conf : RedisConf) (opts : list Option) : M Redis :=
  match RedisConf_Validate conf with
  | Some e => fail (EText e)
  | None =>
      let conf := resolveRedisURL ParseURL conf in
      let rds := newRedis (rc_Host conf) (NewRedis_options conf opts) in
      if rc_NonBlock conf then ret rds else fun o w => match checkConnection rds o w with (inl e, w) => (inl (EText ("redis connect error, addr: " ++ rc_Host conf ++ ": " ++ err_text e)), w) | (inr _, w) => (inr rds, w) end
  end.

(** ** The sharded store *)

Section store.
Context (hashFunc : string -> N) (sprintV : any -> string).

(** The ring holds clients under their addresses; adding one removes the one of its address. *)
Record clusterStore : Type := mkStore { dispatcher : ConsistentHash; clients : gmap string Redis }.

Definition TotalWeights (c : list (RedisConf * Z)) : Z := foldl (fun weights nw => wrap64 (weights + Z.max 0 nw.2)) 0 c.

Fixpoint NewStore_loop (ParseURL : string -> option redisURL) (c : list (RedisConf * Z)) (cs : clusterStore) : M clusterStore :=
  match c with
  | [] => ret cs
  | (conf, weight) :: c =>
      let! cn := NewRedis ParseURL conf [] in
      NewStore_loop ParseURL c (mkStore (AddWithWeight hashFunc (AStringer (Addr cn)) weight (dispatcher cs)) (<[Addr cn := cn]> (clients cs)))
  end.

(** A failure ends the process. *)
Definition NewStore (ParseURL : string -> option redisURL) (c : list (RedisConf * Z)) : M clusterStore :=
  match c with
  | [] => fail (EText "no cache nodes")
  | _ => if TotalWeights c <=? 0 then fail (EText "no cache nodes") else NewStore_loop ParseURL c (mkStore NewConsistentHash ∅)
  end.

Context (cs : clusterStore).

Definition clusterStore_getRedis (key : string) : option Redis :=
  match Get hashFunc sprintV (AString key) (dispatcher cs) with Some (Some n) => clients cs !! Repr n | _ => None end.

Definition with_node {A} (key : string) (f : Redis -> M A) : M A := match clusterStore_getRedis key with Some node => f node | None => fail (EText "no redis node") end.

Definition Store_Decr (key : string) : M Z := with_node key (fun node => Redis_Decr node key).
Definition Store_Decrby (key : string) (decrement : Z) : M Z := with_node key (fun node => Redis_Decrby node key decrement).
Definition Store_Eval (script key : string) (args : list any) : M any := with_node key (fun node => Redis_Eval node script [key] args).
Definition Store_Exists (key : string) : M bool := with_node key (fun node => Redis_Exists node key).
Definition Store_Expire (key : string) (seconds : Z) : M unit := with_node key (fun node => Redis_Expire node key seconds).
Definition Store_Expireat (key : string) (expireTime : Z) : M unit := with_node key (fun node => Redis_Expireat node key expireTime).
Definition Store_Get (key : string) : M string := with_node key (fun node => Redis_Get node key).
Definition Store_Hdel (key field : string) : M bool := with_node key (fun node => Redis_Hdel node key [field]).
Definition Store_Hexists (key field : string) : M bool := with_node key (fun node => Redis_Hexists node key field).
Definition Store_Hget (key field : string) : M string := with_node key (fun node => Redis_Hget node key field).
Definition Store_Hgetall (key : string) : M (gmap string string) := with_node key (fun node => Redis_Hgetall node key).
Definition Store_Hincrby (key field : string) (increment : Z) : M Z := with_node key (fun node => Redis_Hincrby node key field increment).
Definition Store_Hkeys (key : string) : M (list string) := with_node key (fun node => Redis_Hkeys node key).
Definition Store_Hlen (key : string) : M Z := with_node key (fun node => Redis_Hlen node key).
Definition Store_Hmget (key : string) (fields : list string) : M (list string) := with_node key (fun node => Redis_Hmget node key fields).
Definition Store_Hset (key field value : string) : M unit := with_node key (fun node => Redis_Hset node key field value).
Definition Store_Hsetnx (key field value : string) : M bool := with_node key (fun node => Redis_Hsetnx node key field value).
Definition Store_Hmset (key : string) (fieldsAndValues : gmap string string) : M unit := with_node key (fun node => Redis_Hmset node key fieldsAndValues).
Definition Store_Hvals (key : string) : M (list string) := with_node key (fun node => Redis_Hvals node key).
Definition Store_Incr (key : string) : M Z := with_node key (fun node => Redis_Incr node key).
Definition Store_Incrby (key : string) (increment : Z) : M Z := with_node key (fun node => Redis_Incrby node key increment).
Definition Store_Llen (key : string) : M Z := with_node key (fun node => Redis_Llen node key).
Definition Store_Lindex (key : string) (index : Z) : M string := with_node key (fun node => Redis_Lindex node key index).
Definition Store_Lpop (key : string) : M string := with_node key (fun node => Redis_Lpop node key).
Definition Store_Lpush (key : string) (values : list any) : M Z := with_node key (fun node => Redis_Lpush node key values).
Definition Store_Lrange (key : string) (start stop : Z) : M (list string) := with_node key (fun node => Redis_Lrange node key start stop).
Definition Store_Lrem (key : string) (count : Z) (value : string) : M Z := with_node key (fun node => Redis_Lrem node key count value).
Definition Store_Persist (key : string) : M bool := with_node key (fun node => Redis_Persist node key).
Definition Store_Pfadd (key : string) (values : list any) : M bool := with_node key (fun node => Redis_Pfadd node key values).
Definition Store_Pfcount (key : string) : M Z := with_node key (fun node => Redis_Pfcount node key).
Definition Store_Rpush (key : string) (values : list any) : M Z := with_node key (fun node => Redis_Rpush node key values).
Definition Store_Sadd (key : string) (values : list any) : M Z := with_node key (fun node => Redis_Sadd node key values).
Definition Store_Scard (key : string) : M Z := with_node key (fun node => Redis_Scard node key).
Definition Store_Set (key value : string) : M unit := with_node key (fun node => Redis_Set node key value).
Definition Store_Setex (key value : string) (seconds : Z) : M unit := with_node key (fun node => Redis_Setex node key value seconds).
Definition Store_Setnx (key value : string) : M bool := with_node key (fun node => Redis_Setnx node key value).
Definition Store_SetnxEx (key value : string) (seconds : Z) : M bool := with_node key (fun node => Redis_SetnxEx node key value seconds).
Definition Store_GetSet (key value : string) : M string := with_node key (fun node => Redis_GetSet node key value).
Definition Store_Sismember (key : string) (value : any) : M bool := with_node key (fun node => Redis_Sismember node key value).
Definition Store_Smembers (key : string) : M (list string) := with_node key (fun node => Redis_Smembers node key).
Definition Store_Spop (key : string) : M string := with_node key (fun node => Redis_Spop node key).
Definition Store_Srandmember (key : string) (count : Z) : M (list string) := with_node key (fun node => Redis_Srandmember node key count).
Definition Store_Srem (key : string) (values : list any) : M Z := with_node key (fun node => Redis_Srem node key values).
Definition Store_Sscan (key : string) (cursor : Z) (pattern : string) (count : Z) : M (list string * Z) := with_node key (fun node => Redis_Sscan node key cursor pattern count).
Definition Store_Ttl (key : string) : M Z := with_node key (fun node => Redis_Ttl node key).
Definition Store_ZaddFloat (key : string) (score : float64) (value : string) : M bool := with_node key (fun node => Redis_ZaddFloat node key score value).
Definition Store_Zadds (key : string) (ps : list (string * Z)) : M Z := with_node key (fun node => Redis_Zadds node key ps).
Definition Store_Zcard (key : string) : M Z := with_node key (fun node => Redis_Zcard node key).
Definition Store_Zcount (key : string) (start stop : Z) : M Z := with_node key (fun node => Redis_Zcount node key start stop).
Definition Store_Zincrby (key : string) (increment : Z) (field : string) : M Z := with_node key (fun node => Redis_Zincrby node key increment field).
Definition Store_Zrank (key field : string) : M Z := with_node key (fun node => Redis_Zrank node key field).
Definition Store_Zrange (key : string) (start stop : Z) : M (list string) := with_node key (fun node => Redis_Zrange node key start stop).
Definition Store_ZrangeWithScores (key : string) (start stop : Z) : M (list (string * Z)) := with_node key (fun node => Redis_ZrangeWithScores node key start stop).
Definition Store_ZrangebyscoreWithScores (key : string) (start stop : Z) : M (list (string * Z)) := with_node key (fun node => Redis_ZrangebyscoreWithScores node key start stop).
Definition Store_ZrangebyscoreWithScoresAndLimit (key : string) (start stop page size : Z) : M (list (string * Z)) := with_node key (fun node => Redis_ZrangebyscoreWithScoresAndLimit node key start stop page size).
Definition Store_Zrem (key : string) (values : list any) : M Z := with_node key (fun node => Redis_Zrem node key values).
Definition Store_Zremrangebyrank (key : string) (start stop : Z) : M Z := with_node key (fun node => Redis_Zremrangebyrank node key start stop).
Definition Store_Zremrangebyscore (key : string) (start stop : Z) : M Z := with_node key (fun node => Redis_Zremrangebyscore node key start stop).
Definition Store_Zrevrange (key : string) (start stop : Z) : M (list string) := with_node key (fun node => Redis_Zrevrange node key start stop).
Definition Store_ZrevrangebyscoreWithScores (key : string) (start stop : Z) : M (list (string * Z)) := with_node key (fun node => Redis_ZrevrangebyscoreWithScores node key start stop).
Definition Store_ZrevrangebyscoreWithScoresAndLimit (key : string) (start stop page size : Z) : M (list (string * Z)) := with_node key (fun node => Redis_ZrevrangebyscoreWithScoresAndLimit node key start stop page size).
Definition Store_Zrevrank (key field : string) : M Z := with_node key (fun node => Redis_Zrevrank node key field).
Definition Store_Zscore (key value : string) : M Z := with_node key (fun node => Redis_Zscore node key value).
Definition Store_Zadd (key : string) (score : Z) (value : string) : M bool := Store_ZaddFloat key (f64_of_Z score) value.

(** The sum, and the errors of the keys that failed. *)
Fixpoint Store_Del_loop (keys : list string) (val : Z) (be : list rerr) : M (Z * list rerr) :=
  match keys with
  | [] => ret (val, be)
  | key :: keys => fun o w =>
      let '(x, w) := with_node key (fun node => Redis_Del node [key]) o w in
      match x with inl e => Store_Del_loop keys val (be ++ [e]) o w | inr v => Store_Del_loop keys (wrap64 (val + v)) be o w end
  end.
Definition Store_Del (keys : list string) : M (Z * list rerr) := Store_Del_loop keys 0 [].
End store.
End client.

(** ** Properties *)

(** A call of the store, but for [Del]. *)
Inductive call : Type -> Type :=
| k_Decr (key : string) : call Z
| k_Decrby (key : string) (decrement : Z) : call Z
| k_Eval (script key : string) (args : list any) : call any
| k_Exists (key : string) : call bool
| k_Expire (key : string) (seconds : Z) : call unit
| k_Expireat (key : string) (expireTime : Z) : call unit
| k_Get (key : string) : call string
| k_Hdel (key field : string) : call bool
| k_Hexists (key field : string) : call bool
| k_Hget (key field : string) : call string
| k_Hgetall (key : string) : call (gmap string string)
| k_Hincrby (key field : string) (increment : Z) : call Z
| k_Hkeys (key : string) : call (list string)
| k_Hlen (key : string) : call Z
| k_Hmget (key : string) (fields : list string) : call (list string)
| k_Hset (key field value : string) : call unit
| k_Hsetnx (key field value : string) : call bool
| k_Hmset (key : string) (fieldsAndValues : gmap string string) : call unit
| k_Hvals (key : string) : call (list string)
| k_Incr (key : string) : call Z
| k_Incrby (key : string) (increment : Z) : call Z
| k_Llen (key : string) : call Z
| k_Lindex (key : string) (index : Z) : call string
| k_Lpop (key : string) : call string
| k_Lpush (key : string) (values : list any) : call Z
| k_Lrange (key : string) (start stop : Z) : call (list string)
| k_Lrem (key : string) (count : Z) (value : string) : call Z
| k_Persist (key : string) : call bool
| k_Pfadd (key : string) (values : list any) : call bool
| k_Pfcount (key : string) : call Z
| k_Rpush (key : string) (values : list any) : call Z
| k_Sadd (key : string) (values : list any) : call Z
| k_Scard (key : string) : call Z
| k_Set (key value : string) : call unit
| k_Setex (key value : string) (seconds : Z) : call unit
| k_Setnx (key value : string) : call bool
| k_SetnxEx (key value : string) (seconds : Z) : call bool
| k_GetSet (key value : string) : call string
| k_Sismember (key : string) (value : any) : call bool
| k_Smembers (key : string) : call (list string)
| k_Spop (key : string) : call string
| k_Srandmember (key : string) (count : Z) : call (list string)
| k_Srem (key : string) (values : list any) : call Z
| k_Sscan (key : string) (cursor : Z) (pattern : string) (count : Z) : call (list string * Z)
| k_Ttl (key : string) : call Z
| k_Zadd (key : string) (score : Z) (value : string) : call bool
| k_ZaddFloat (key : string) (score : float64) (value : string) : call bool
| k_Zadds (key : string) (ps : list (string * Z)) : call Z
| k_Zcard (key : string) : call Z
| k_Zcount (key : string) (start stop : Z) : call Z
| k_Zincrby (key : string) (increment : Z) (field : string) : call Z
| k_Zrank (key field : string) : call Z
| k_Zrange (key : string) (start stop : Z) : call (list string)
| k_ZrangeWithScores (key : string) (start stop : Z) : call (list (string * Z))
| k_ZrangebyscoreWithScores (key : string) (start stop : Z) : call (list (string * Z))
| k_ZrangebyscoreWithScoresAndLimit (key : string) (start stop page size : Z) : call (list (string * Z))
| k_Zrem (key : string) (values : list any) : call Z
| k_Zremrangebyrank (key : string) (start stop : Z) : call Z
| k_Zremrangebyscore (key : string) (start stop : Z) : call Z
| k_Zrevrange (key : string) (start stop : Z) : call (list string)
| k_ZrevrangebyscoreWithScores (key : string) (start stop : Z) : call (list (string * Z))
| k_ZrevrangebyscoreWithScoresAndLimit (key : string) (start stop page size : Z) : call (list (string * Z))
| k_Zrevrank (key field : string) : call Z
| k_Zscore (key value : string) : call Z.

Definition call_key {A} (c : call A) : string :=
  match c with
  | k_Decr key => key
  | k_Decrby key _ => key
  | k_Eval _ key _ => key
  | k_Exists key => key
  | k_Expire key _ => key
  | k_Expireat key _ => key
  | k_Get key => key
  | k_Hdel key _ => key
  | k_Hexists key _ => key
  | k_Hget key _ => key
  | k_Hgetall key => key
  | k_Hincrby key _ _ => key
  | k_Hkeys key => key
  | k_Hlen key => key
  | k_Hmget key _ => key
  | k_Hset key _ _ => key
  | k_Hsetnx key _ _ => key
  | k_Hmset key _ => key
  | k_Hvals key => key
  | k_Incr key => key
  | k_Incrby key _ => key
  | k_Llen key => key
  | k_Lindex key _ => key
  | k_Lpop key => key
  | k_Lpush key _ => key
  | k_Lrange key _ _ => key
  | k_Lrem key _ _ => key
  | k_Persist key => key
  | k_Pfadd key _ => key
  | k_Pfcount key => key
  | k_Rpush key _ => key
  | k_Sadd key _ => key
  | k_Scard key => key
  | k_Set key _ => key
  | k_Setex key _ _ => key
  | k_Setnx key _ => key
  | k_SetnxEx key _ _ => key
  | k_GetSet key _ => key
  | k_Sismember key _ => key
  | k_Smembers key => key
  | k_Spop key => key
  | k_Srandmember key _ => key
  | k_Srem key _ => key
  | k_Sscan key _ _ _ => key
  | k_Ttl key => key
  | k_Zadd key _ _ => key
  | k_ZaddFloat key _ _ => key
  | k_Zadds key _ => key
  | k_Zcard key => key
  | k_Zcount key _ _ => key
  | k_Zincrby key _ _ => key
  | k_Zrank key _ => key
  | k_Zrange key _ _ => key
  | k_ZrangeWithScores key _ _ => key
  | k_ZrangebyscoreWithScores key _ _ => key
  | k_ZrangebyscoreWithScoresAndLimit key _ _ _ _ => key
  | k_Zrem key _ => key
  | k_Zremrangebyrank key _ _ => key
  | k_Zremrangebyscore key _ _ => key
  | k_Zrevrange key _ _ => key
  | k_ZrevrangebyscoreWithScores key _ _ => key
  | k_ZrevrangebyscoreWithScoresAndLimit key _ _ _ _ => key
  | k_Zrevrank key _ => key
  | k_Zscore key _ => key
  end.

Section properties.
Context {O S : Type} `{!RedisServer O S} (FormatFloat : float64 -> string).

(** A call at a client, and at a store. *)
Definition at_client {A} (node : Redis) (c : call A) : M (O := O) (S := S) A :=
  match c with
  | k_Decr key => Redis_Decr node key
  | k_Decrby key decrement => Redis_Decrby node key decrement
  | k_Eval script key args => Redis_Eval node script [key] args
  | k_Exists key => Redis_Exists node key
  | k_Expire key seconds => Redis_Expire node key seconds
  | k_Expireat key expireTime => Redis_Expireat node key expireTime
  | k_Get key => Redis_Get node key
  | k_Hdel key field => Redis_Hdel node key [field]
  | k_Hexists key field => Redis_Hexists node key field
  | k_Hget key field => Redis_Hget node key field
  | k_Hgetall key => Redis_Hgetall node key
  | k_Hincrby key field increment => Redis_Hincrby node key field increment
  | k_Hkeys key => Redis_Hkeys node key
  | k_Hlen key => Redis_Hlen node key
  | k_Hmget key fields => Redis_Hmget node key fields
  | k_Hset key field value => Redis_Hset node key field value
  | k_Hsetnx key field value => Redis_Hsetnx node key field value
  | k_Hmset key fieldsAndValues => Redis_Hmset node key fieldsAndValues
  | k_Hvals key => Redis_Hvals node key
  | k_Incr key => Redis_Incr node key
  | k_Incrby key increment => Redis_Incrby node key increment
  | k_Llen key => Redis_Llen node key
  | k_Lindex key index => Redis_Lindex node key index
  | k_Lpop key => Redis_Lpop node key
  | k_Lpush key values => Redis_Lpush node key values
  | k_Lrange key start stop => Redis_Lrange node key start stop
  | k_Lrem key count value => Redis_Lrem node key count value
  | k_Persist key => Redis_Persist node key
  | k_Pfadd key values => Redis_Pfadd node key values
  | k_Pfcount key => Redis_Pfcount node key
  | k_Rpush key values => Redis_Rpush node key values
  | k_Sadd key values => Redis_Sadd node key values
  | k_Scard key => Redis_Scard node key
  | k_Set key value => Redis_Set node key value
  | k_Setex key value seconds => Redis_Setex node key value seconds
  | k_Setnx key value => Redis_Setnx node key value
  | k_SetnxEx key value seconds => Redis_SetnxEx node key value seconds
  | k_GetSet key value => Redis_GetSet node key value
  | k_Sismember key value => Redis_Sismember node key value
  | k_Smembers key => Redis_Smembers node key
  | k_Spop key => Redis_Spop node key
  | k_Srandmember key count => Redis_Srandmember node key count
  | k_Srem key values => Redis_Srem node key values
  | k_Sscan key cursor pattern count => Redis_Sscan node key cursor pattern count
  | k_Ttl key => Redis_Ttl node key
  | k_Zadd key score value => Redis_ZaddFloat node key (f64_of_Z score) value
  | k_ZaddFloat key score value => Redis_ZaddFloat node key score value
  | k_Zadds key ps => Redis_Zadds node key ps
  | k_Zcard key => Redis_Zcard node key
  | k_Zcount key start stop => Redis_Zcount node key start stop
  | k_Zincrby key increment field => Redis_Zincrby node key increment field
  | k_Zrank key field => Redis_Zrank node key field
  | k_Zrange key start stop => Redis_Zrange node key start stop
  | k_ZrangeWithScores key start stop => Redis_ZrangeWithScores node key start stop
  | k_ZrangebyscoreWithScores key start stop => Redis_ZrangebyscoreWithScores node key start stop
  | k_ZrangebyscoreWithScoresAndLimit key start stop page size => Redis_ZrangebyscoreWithScoresAndLimit node key start stop page size
  | k_Zrem key values => Redis_Zrem node key values
  | k_Zremrangebyrank key start stop => Redis_Zremrangebyrank node key start stop
  | k_Zremrangebyscore key start stop => Redis_Zremrangebyscore node key start stop
  | k_Zrevrange key start stop => Redis_Zrevrange node key start stop
  | k_ZrevrangebyscoreWithScores key start stop => Redis_ZrevrangebyscoreWithScores node key start stop
  | k_ZrevrangebyscoreWithScoresAndLimit key start stop page size => Redis_ZrevrangebyscoreWithScoresAndLimit node key start stop page size
  | k_Zrevrank key field => Redis_Zrevrank node key field
  | k_Zscore key value => Redis_Zscore node key value
  end.

Definition at_store {A} (hashFunc : string -> N) (sprintV : any -> string) (cs : clusterStore) (c : call A) : M (O := O) (S := S) A :=
  match c with
  | k_Decr key => Store_Decr hashFunc sprintV cs key
  | k_Decrby key decrement => Store_Decrby hashFunc sprintV cs key decrement
  | k_Eval script key args => Store_Eval hashFunc sprintV cs script key args
  | k_Exists key => Store_Exists hashFunc sprintV cs key
  | k_Expire key seconds => Store_Expire hashFunc sprintV cs key seconds
  | k_Expireat key expireTime => Store_Expireat hashFunc sprintV cs key expireTime
  | k_Get key => Store_Get hashFunc sprintV cs key
  | k_Hdel key field => Store_Hdel hashFunc sprintV cs key field
  | k_Hexists key field => Store_Hexists hashFunc sprintV cs key field
  | k_Hget key field => Store_Hget hashFunc sprintV cs key field
  | k_Hgetall key => Store_Hgetall hashFunc sprintV cs key
  | k_Hincrby key field increment => Store_Hincrby hashFunc sprintV cs key field increment
  | k_Hkeys key => Store_Hkeys hashFunc sprintV cs key
  | k_Hlen key => Store_Hlen hashFunc sprintV cs key
  | k_Hmget key fields => Store_Hmget hashFunc sprintV cs key fields
  | k_Hset key field value => Store_Hset hashFunc sprintV cs key field value
  | k_Hsetnx key field value => Store_Hsetnx hashFunc sprintV cs key field value
  | k_Hmset key fieldsAndValues => Store_Hmset hashFunc sprintV cs key fieldsAndValues
  | k_Hvals key => Store_Hvals hashFunc sprintV cs key
  | k_Incr key => Store_Incr hashFunc sprintV cs key
  | k_Incrby key increment => Store_Incrby hashFunc sprintV cs key increment
  | k_Llen key => Store_Llen hashFunc sprintV cs key
  | k_Lindex key index => Store_Lindex hashFunc sprintV cs key index
  | k_Lpop key => Store_Lpop hashFunc sprintV cs key
  | k_Lpush key values => Store_Lpush hashFunc sprintV cs key values
  | k_Lrange key start stop => Store_Lrange hashFunc sprintV cs key start stop
  | k_Lrem key count value => Store_Lrem hashFunc sprintV cs key count value
  | k_Persist key => Store_Persist hashFunc sprintV cs key
  | k_Pfadd key values => Store_Pfadd hashFunc sprintV cs key values
  | k_Pfcount key => Store_Pfcount hashFunc sprintV cs key
  | k_Rpush key values => Store_Rpush hashFunc sprintV cs key values
  | k_Sadd key values => Store_Sadd hashFunc sprintV cs key values
  | k_Scard key => Store_Scard hashFunc sprintV cs key
  | k_Set key value => Store_Set hashFunc sprintV cs key value
  | k_Setex key value seconds => Store_Setex hashFunc sprintV cs key value seconds
  | k_Setnx key value => Store_Setnx hashFunc sprintV cs key value
  | k_SetnxEx key value seconds => Store_SetnxEx hashFunc sprintV cs key value seconds
  | k_GetSet key value => Store_GetSet hashFunc sprintV cs key value
  | k_Sismember key value => Store_Sismember hashFunc sprintV cs key value
  | k_Smembers key => Store_Smembers hashFunc sprintV cs key
  | k_Spop key => Store_Spop hashFunc sprintV cs key
  | k_Srandmember key count => Store_Srandmember hashFunc sprintV cs key count
  | k_Srem key values => Store_Srem hashFunc sprintV cs key values
  | k_Sscan key cursor pattern count => Store_Sscan hashFunc sprintV cs key cursor pattern count
  | k_Ttl key => Store_Ttl hashFunc sprintV cs key
  | k_Zadd key score value => Store_Zadd hashFunc sprintV cs key score value
  | k_ZaddFloat key score value => Store_ZaddFloat hashFunc sprintV cs key score value
  | k_Zadds key ps => Store_Zadds hashFunc sprintV cs key ps
  | k_Zcard key => Store_Zcard hashFunc sprintV cs key
  | k_Zcount key start stop => Store_Zcount hashFunc sprintV cs key start stop
  | k_Zincrby key increment field => Store_Zincrby hashFunc sprintV cs key increment field
  | k_Zrank key field => Store_Zrank hashFunc sprintV cs key field
  | k_Zrange key start stop => Store_Zrange hashFunc sprintV cs key start stop
  | k_ZrangeWithScores key start stop => Store_ZrangeWithScores hashFunc sprintV cs key start stop
  | k_ZrangebyscoreWithScores key start stop => Store_ZrangebyscoreWithScores hashFunc sprintV cs key start stop
  | k_ZrangebyscoreWithScoresAndLimit key start stop page size => Store_ZrangebyscoreWithScoresAndLimit hashFunc sprintV cs key start stop page size
  | k_Zrem key values => Store_Zrem hashFunc sprintV cs key values
  | k_Zremrangebyrank key start stop => Store_Zremrangebyrank hashFunc sprintV cs key start stop
  | k_Zremrangebyscore key start stop => Store_Zremrangebyscore hashFunc sprintV cs key start stop
  | k_Zrevrange key start stop => Store_Zrevrange hashFunc sprintV cs key start stop
  | k_ZrevrangebyscoreWithScores key start stop => Store_ZrevrangebyscoreWithScores hashFunc sprintV cs key start stop
  | k_ZrevrangebyscoreWithScoresAndLimit key start stop page size => Store_ZrevrangebyscoreWithScoresAndLimit hashFunc sprintV cs key start stop page size
  | k_Zrevrank key field => Store_Zrevrank hashFunc sprintV cs key field
  | k_Zscore key value => Store_Zscore hashFunc sprintV cs key value
  end.

Lemma at_store_node {A} hashFunc sprintV cs (c : call A) : at_store hashFunc sprintV cs c = with_node hashFunc sprintV cs (call_key c) (fun node => at_client node c).
Proof. by destruct c. Qed.
End properties.

(** *** The store is one server *)

(** What Redis documents of commands that name their keys: they leave every other key alone, and
    their reply and the new contents of their keys depend on the contents of those keys only. *)
Class RedisLaws (O S C : Type) `{!RedisServer O S} := {
  cell : S -> connOptions -> string -> C;
  law_frame : forall {A} o t (c : cmd A) ks s t' k, keys_of c = Some ks -> k ∉ ks -> cell (conn_do o t c s).2 t' k = cell s t' k;
  law_local : forall {A} o t t' (c : cmd A) ks s s', keys_of c = Some ks -> (forall k, k ∈ ks -> cell s t k = cell s' t' k) ->
    (conn_do o t c s).1 = (conn_do o t' c s').1 /\ forall k, k ∈ ks -> cell (conn_do o t c s).2 t k = cell (conn_do o t' c s').2 t' k }.

Section store_properties.
Context {O S C : Type} `{!RedisServer O S} `{!RedisLaws O S C} (hashFunc : string -> N) (sprintV : any -> string).

(** The connection a client uses. *)
Definition conn_of (w : world S) (r : Redis) : connOptions := default (own_options r) (managers w !! conn_key r).

(** Every key has a client, of a type there is; clients that share a connection agree on it. *)
Record serves (cs : clusterStore) : Prop := mk_serves {
  sv_all : forall key, exists r, clusterStore_getRedis hashFunc sprintV cs key = Some r;
  sv_type : forall key r, clusterStore_getRedis hashFunc sprintV cs key = Some r -> Type_ r = ClusterType \/ Type_ r = NodeType \/ Type_ r = SentinelType;
  sv_share : forall key r key' r', clusterStore_getRedis hashFunc sprintV cs key = Some r -> clusterStore_getRedis hashFunc sprintV cs key' = Some r' -> conn_key r = conn_key r' -> own_options r = own_options r' }.

Context (cs1 cs2 : clusterStore) (V1 : serves cs1) (V2 : serves cs2).

(** Each key has the same contents in both stores. *)
Definition same_data (w1 w2 : world S) : Prop := forall key r1 r2, clusterStore_getRedis hashFunc sprintV cs1 key = Some r1 -> clusterStore_getRedis hashFunc sprintV cs2 key = Some r2 ->
  cell (servers w1) (conn_of w1 r1) key = cell (servers w2) (conn_of w2 r2) key.

Definition same {A} (m1 m2 : M (O := O) A) : Prop := forall o w1 w2, same_data w1 w2 -> (m1 o w1).1 = (m2 o w2).1 /\ same_data (m1 o w1).2 (m2 o w2).2.

(** Asking for a connection gives the client's and changes no client's. *)
Lemma getRedis_conn cs key r (o : O) (w : world S) : serves cs -> clusterStore_getRedis hashFunc sprintV cs key = Some r ->
  (getRedis r o w).1 = inr (conn_of w r) /\ servers (getRedis r o w).2 = servers w /\
  forall key' r', clusterStore_getRedis hashFunc sprintV cs key' = Some r' -> conn_of (getRedis r o w).2 r' = conn_of w r'.
Proof.
  intros [_ T Sh] E. unfold getRedis. assert (Ty : ((Type_ r =? ClusterType)%string || (Type_ r =? NodeType)%string || (Type_ r =? SentinelType)%string) = true).
  { by destruct (T _ _ E) as [-> |[-> | ->]]. }
  rewrite Ty. cbn [negb]. destruct (managers w !! conn_key r) as [c|] eqn:L; cbn [fst snd].
  - split_and!; [|done|done]. unfold conn_of. by rewrite L.
  - split_and!; [|done|]; [unfold conn_of; by rewrite L|]. intros key' r' E'. unfold conn_of. cbn [managers]. destruct (decide (conn_key r = conn_key r')) as [K|K].
    + rewrite <- K, lookup_insert_eq, L. cbn. by apply (Sh key r key' r').
    + by rewrite lookup_insert_ne.
Qed.

Lemma same_ret {A} (x : A) : same (ret x) (ret x).
Proof. done. Qed.
Lemma same_bind {A B} (m1 m2 : M (O := O) A) (k1 k2 : A -> M B) : same m1 m2 -> (forall x, same (k1 x) (k2 x)) -> same (mbind m1 k1) (mbind m2 k2).
Proof.
  intros Hm Hk o w1 w2 R. unfold mbind. destruct (Hm o w1 w2 R) as [E R']. destruct (m1 o w1) as [x1 w1'], (m2 o w2) as [x2 w2']. cbn in *. subst x2.
  destruct x1 as [e|x]; [done|]. by apply Hk.
Qed.
Lemma same_nil (m1 m2 : M (O := O) string) : same m1 m2 -> same (nil_is_empty m1) (nil_is_empty m2).
Proof.
  intros Hm o w1 w2 R. unfold nil_is_empty. destruct (Hm o w1 w2 R) as [E R']. destruct (m1 o w1) as [x1 w1'], (m2 o w2) as [x2 w2']. cbn in *. subst x2. by destruct x1 as [[]|].
Qed.
Lemma same_error {A} (m1 m2 : M (O := O) A) : same m1 m2 -> same (error_of m1) (error_of m2).
Proof. intros H. apply same_bind; [done|]. intros _. apply same_ret. Qed.

Lemma same_send {A} (c : cmd A) key r1 r2 : keys_of c = Some [key] -> clusterStore_getRedis hashFunc sprintV cs1 key = Some r1 -> clusterStore_getRedis hashFunc sprintV cs2 key = Some r2 ->
  same (send r1 c) (send r2 c).
Proof.
  intros K E1 E2 o w1 w2 R. unfold send, mbind, conn_send.
  destruct (getRedis_conn cs1 key r1 o w1 V1 E1) as (G1 & S1 & C1), (getRedis_conn cs2 key r2 o w2 V2 E2) as (G2 & S2 & C2).
  destruct (getRedis r1 o w1) as [x1 w1'], (getRedis r2 o w2) as [x2 w2']. cbn [fst snd] in *. subst x1 x2. rewrite S1, S2.
  destruct (law_local o (conn_of w1 r1) (conn_of w2 r2) c [key] (servers w1) (servers w2) K) as [L1 L2].
  { intros k ->%list_elem_of_singleton. by apply R. }
  pose proof (fun t' k => law_frame o (conn_of w1 r1) c [key] (servers w1) t' k K) as F1. pose proof (fun t' k => law_frame o (conn_of w2 r2) c [key] (servers w2) t' k K) as F2.
  destruct (conn_do o (conn_of w1 r1) c (servers w1)) as [y1 s1], (conn_do o (conn_of w2 r2) c (servers w2)) as [y2 s2]. cbn [fst snd] in *. split; [done|].
  intros k q1 q2 Q1 Q2. cbn [servers]. assert (X1 : conn_of (mkWorld (managers w1') s1) q1 = conn_of w1 q1) by (rewrite <- (C1 k q1 Q1); done).
  assert (X2 : conn_of (mkWorld (managers w2') s2) q2 = conn_of w2 q2) by (rewrite <- (C2 k q2 Q2); done). rewrite X1, X2. destruct (decide (k = key)) as [->|N].
  - rewrite E1 in Q1. rewrite E2 in Q2. simplify_eq. apply L2. left.
  - rewrite F1, F2 by (by rewrite list_elem_of_singleton). by apply R.
Qed.

#[local] Ltac one_command := first [apply same_ret|apply same_error|apply same_nil|eapply same_send; [reflexivity|done|done]|apply same_bind; [|intros ?]].

Lemma same_call {A} (c : call A) : same (at_store hashFunc sprintV cs1 c) (at_store hashFunc sprintV cs2 c).
Proof.
  rewrite !at_store_node. unfold with_node. destruct (sv_all cs1 V1 (call_key c)) as [r1 E1], (sv_all cs2 V2 (call_key c)) as [r2 E2]. rewrite E1, E2.
  destruct c; cbn [call_key] in *; cbn [at_client]; unfold Redis_ZrangebyscoreWithScoresAndLimit, Redis_ZrevrangebyscoreWithScoresAndLimit; try (destruct (size <=? 0)); repeat one_command.
Qed.

Lemma same_del keys val be : same (Store_Del_loop hashFunc sprintV cs1 keys val be) (Store_Del_loop hashFunc sprintV cs2 keys val be).
Proof.
  revert val be. induction keys as [|key keys IH]; intros val be; [apply same_ret|]. intros o w1 w2 R. cbn [Store_Del_loop].
  unfold with_node. destruct (sv_all cs1 V1 key) as [r1 E1], (sv_all cs2 V2 key) as [r2 E2]. rewrite E1, E2.
  destruct (same_send (c_Del [key]) key r1 r2 eq_refl E1 E2 o w1 w2 R) as [H1 H2]. unfold Redis_Del.
  destruct (send r1 _ o w1) as [x1 w1'], (send r2 _ o w2) as [x2 w2']. cbn in H1, H2. subst x2. destruct x1; by apply IH.
Qed.
End store_properties.

(** A history of the store: calls at moments, and the replies. *)
Inductive store_op : Type := | Keyed {A : Type} (c : call A) | DelKeys (keys : list string).

Fixpoint run_store {O S} `{!RedisServer O S} (hashFunc : string -> N) (sprintV : any -> string) (cs : clusterStore) (ops : list (O * store_op)) (w : world S) : list {A : Type & res A} :=
  match ops with
  | [] => []
  | (o, Keyed c) :: ops => let '(x, w) := at_store hashFunc sprintV cs c o w in existT _ x :: run_store hashFunc sprintV cs ops w
  | (o, DelKeys keys) :: ops => let '(x, w) := Store_Del hashFunc sprintV cs keys o w in existT _ x :: run_store hashFunc sprintV cs ops w
  end.

(** *** A new store has a client for every key *)

Section new_store.
Context {O S : Type} `{!RedisServer O S} (hashFunc : string -> N) (sprintV : any -> string) (ParseURL : string -> option redisURL).

(** The client of a configuration, and its address. *)
Definition client_of (conf : RedisConf) : Redis := let conf := resolveRedisURL ParseURL conf in newRedis (rc_Host conf) (NewRedis_options conf []).
Definition addr_of (conf : RedisConf) : string := rc_Host (resolveRedisURL ParseURL conf).

Lemma client_of_type conf : Addr (client_of conf) = addr_of conf /\ (Type_ (client_of conf) = ClusterType \/ Type_ (client_of conf) = NodeType \/ Type_ (client_of conf) = SentinelType).
Proof.
  unfold client_of, addr_of. generalize (resolveRedisURL ParseURL conf) as c. intros c. unfold newRedis, NewRedis_options.
  repeat match goal with |- context [if ?b then _ else _] => destruct b end; cbn; auto.
Qed.

Lemma last_at (m m' a a' : string) : str_all (fun x => negb (Ascii.eqb x "@")) a = true -> str_all (fun x => negb (Ascii.eqb x "@")) a' = true -> (m ++ String "@" a = m' ++ String "@" a')%string -> a = a'.
Proof.
  assert (X : forall (m : string) a, str_all (fun x => negb (Ascii.eqb x "@")) (m ++ String "@" a)%string = false).
  { intros m0 b. rewrite str_all_app. cbn. apply andb_false_r. }
  intros Ha Ha'. revert m'. induction m as [|d m IH]; intros [|d' m'] E; cbn in E.
  - by injection E.
  - injection E as _ E. subst a. by rewrite X in Ha.
  - injection E as _ E. subst a'. by rewrite X in Ha'.
  - injection E as _ E. by apply (IH m').
Qed.

Lemma NewStore_loop_run c cs o (w : world S) : Forall (fun cw => RedisConf_Validate cw.1 = None /\ rc_NonBlock (resolveRedisURL ParseURL cw.1) = true) c ->
  NewStore_loop hashFunc ParseURL c cs o w =
  (inr (mkStore (foldl (ch_apply hashFunc) (dispatcher cs) ((fun cw => OpAddWithWeight (AStringer (addr_of cw.1)) cw.2) <$> c)) (foldl (fun m cw => <[addr_of cw.1 := client_of cw.1]> m) (clients cs) c)), w).
Proof.
  intros F. revert cs. induction F as [|[conf weight] c [V B] _ IH]; intros cs; cbn [NewStore_loop]; [by destruct cs|]. unfold mbind, NewRedis. cbn [fst] in *. rewrite V, B. unfold ret at 1.
  fold (client_of conf). rewrite (proj1 (client_of_type conf)), IH. done.
Qed.

Lemma clients_spec c (m : gmap string Redis) : NoDup (addr_of <$> c.*1) -> (forall a, a ∈ addr_of <$> c.*1 -> m !! a = None) ->
  forall a r, foldl (fun m cw => <[addr_of cw.1 := client_of cw.1]> m) m c !! a = Some r <-> m !! a = Some r \/ exists cw : RedisConf * Z, cw ∈ c /\ a = addr_of cw.1 /\ r = client_of cw.1.
Proof.
  revert m. induction c as [|[conf x] c IH]; intros m N D a r; cbn; [set_solver|]. cbn in N. apply NoDup_cons in N as [N1 N2]. rewrite IH; [|done|].
  - destruct (decide (a = addr_of conf)) as [->|Ne].
    + rewrite lookup_insert_eq, (D (addr_of conf)) by (cbn; left). split.
      * intros [[= <-]|(cw & H & E & ->)]; right; [exists (conf, x); split; [left|done]|exists cw; split; [by right|done]].
      * intros [|(cw & [->|H]%elem_of_cons & E & ->)]; [done|by left|right; by exists cw].
    + rewrite lookup_insert_ne by done. split; (intros [H|(cw & H & E & ->)]; [by left|]); [right; exists cw; split; [by right|done]|].
      apply elem_of_cons in H as [->|H]; [by cbn in *|]. right. by exists cw.
  - intros b Hb. rewrite lookup_insert_ne by (intros <-; done). apply D. cbn. by right.
Qed.

Lemma plan_spec c K (m : gmap string (any * nat)) : NoDup (addr_of <$> c.*1) ->
  let p := foldl (plan_apply K) m ((fun cw => OpAddWithWeight (AStringer (addr_of cw.1)) cw.2) <$> c) in
  (forall cw, cw ∈ c -> p !! addr_of cw.1 = Some (AStringer (addr_of cw.1), Z.to_nat (Z.min (Z.quot (wrap64 (K * cw.2)) 100) K))) /\
  (forall a, a ∉ addr_of <$> c.*1 -> p !! a = m !! a).
Proof.
  revert m. induction c as [|[conf x] c IH]; intros m N; cbn -[wrap64]; [split; [by intros ? ?%elem_of_nil|done]|]. cbn in N. apply NoDup_cons in N as [N1 N2].
  destruct (IH (<[addr_of conf := (AStringer (addr_of conf), Z.to_nat (Z.min (Z.quot (wrap64 (K * x)) 100) K))]> m) N2) as [I1 I2]. split.
  - intros cw [->|H]%elem_of_cons; [|by apply I1]. cbn [fst snd]. rewrite I2 by done. by rewrite lookup_insert_eq.
  - intros a Ha. rewrite not_elem_of_cons in Ha. destruct Ha as [Ha1 Ha2]. rewrite I2 by done. by rewrite lookup_insert_ne.
Qed.

Lemma TotalWeights_positive (c : list (RedisConf * Z)) : Forall (fun cw => 0 <= cw.2 <= 100) c -> Exists (fun cw => 0 < cw.2) c -> Z.of_nat (length c) < 2 ^ 32 -> 0 < TotalWeights c.
Proof.
  intros F E Hl. unfold TotalWeights.
  assert (G : forall (c : list (RedisConf * Z)) a, Forall (fun cw => 0 <= cw.2 <= 100) c -> 0 <= a -> a + 100 * Z.of_nat (length c) < 2 ^ 62 ->
    a <= foldl (fun weights nw => wrap64 (weights + Z.max 0 nw.2)) a c /\ (Exists (fun cw => 0 < cw.2) c -> a < foldl (fun weights nw => wrap64 (weights + Z.max 0 nw.2)) a c)).
  { clear. induction c as [|[conf x] c IH]; intros a F Ha Hb; cbn -[wrap64 Z.pow]; [split; [lia|by intros ?%Exists_nil]|]. apply Forall_cons in F as [Fx F]. cbn in Fx. cbn [length] in Hb.
    rewrite wrap64_small by lia. destruct (IH (a + Z.max 0 x) F) as [I1 I2]; [lia|lia|]. split; [lia|]. intros [H|H]%Exists_cons; [cbn in H; lia|]. specialize (I2 H). lia. }
  apply (G c 0 F); [lia|lia|done].
Qed.

(** A new store has a client for every key: [NewStore] succeeds on servers with distinct
    addresses and with weights up to a hundred, one at least positive, and in the store it
    makes every key has a client, provided the virtual nodes of the ring do not collide. *)
Lemma NewStore_serves (c : list (RedisConf * Z)) (o : O) (w : world S) :
  Forall (fun cw => RedisConf_Validate cw.1 = None /\ rc_NonBlock (resolveRedisURL ParseURL cw.1) = true /\ 0 <= cw.2 <= 100 /\ str_all (fun x => negb (Ascii.eqb x "@")) (addr_of cw.1) = true) c ->
  Exists (fun cw => 0 < cw.2) c -> Z.of_nat (length c) < 2 ^ 32 -> NoDup (addr_of <$> c.*1) -> collision_free hashFunc (list_to_set (addr_of <$> c.*1)) 100 ->
  exists cs, NewStore hashFunc ParseURL c o w = (inr cs, w) /\ serves hashFunc sprintV cs.
Proof.
  intros F E Hl N CF. assert (TW : 0 < TotalWeights c) by (apply TotalWeights_positive; [eapply Forall_impl; [exact F|intros ? (_ & _ & ? & _); done]|done|done]).
  assert (F' : Forall (fun cw => RedisConf_Validate cw.1 = None /\ rc_NonBlock (resolveRedisURL ParseURL cw.1) = true) c) by (eapply Forall_impl; [exact F|intros ? (? & ? & _); done]).
  set (ops := (fun cw : RedisConf * Z => OpAddWithWeight (AStringer (addr_of cw.1)) cw.2) <$> c).
  exists (mkStore (foldl (ch_apply hashFunc) NewConsistentHash ops) (foldl (fun m cw => <[addr_of cw.1 := client_of cw.1]> m) ∅ c)). split.
  { unfold NewStore. replace (TotalWeights c <=? 0) with false by lia. transitivity (NewStore_loop hashFunc ParseURL c (mkStore NewConsistentHash ∅) o w); [destruct c; [by apply Exists_nil in E|done]|by rewrite NewStore_loop_run]. }
  pose proof (clients_spec c ∅ N ltac:(done)) as Cl. destruct (plan_spec c 100 ∅ N) as [P1 P2].
  assert (Rg : ring_ok hashFunc (list_to_set (addr_of <$> c.*1)) 100 (foldl (plan_apply 100) ∅ ops) (foldl (ch_apply hashFunc) NewConsistentHash ops)).
  { apply (ring_ok_run hashFunc sprintV); [done| |exact (ring_ok_new hashFunc _ 100)]. apply Forall_fmap, Forall_forall. intros cw H. cbn. apply elem_of_list_to_set, list_elem_of_fmap. exists cw.1. split; [done|by apply list_elem_of_fmap_2]. }
  assert (Inv : forall key r, clusterStore_getRedis hashFunc sprintV (mkStore (foldl (ch_apply hashFunc) NewConsistentHash ops) (foldl (fun m cw => <[addr_of cw.1 := client_of cw.1]> m) ∅ c)) key = Some r -> exists cw, cw ∈ c /\ r = client_of cw.1).
  { intros key r. unfold clusterStore_getRedis. destruct (Get _ _ _ _) as [[n|]|]; [|done|done]. intros [|(cw & H & _ & ->)]%Cl; [done|by exists cw]. }
  split.
  - intros key. unfold clusterStore_getRedis. cbn [dispatcher clients]. pose proof (Get_rel hashFunc sprintV _ _ _ (AString key) (ro_rel _ _ _ _ _ Rg)) as G. destruct (Get _ _ _ _) as [[n|]|]; [|exfalso|done].
    + destruct G as (p & (r & k & i & L & _ & _) & _). destruct (decide (r ∈ addr_of <$> c.*1)) as [Hr|Hr]; [|by rewrite P2 in L].
      apply list_elem_of_fmap in Hr as (conf & -> & Hr). apply list_elem_of_fmap in Hr as (cw & -> & Hr). rewrite P1 in L by done. injection L as <- _. cbn [Repr reprOfValue]. exists (client_of cw.1). apply Cl. right. by exists cw.
    + apply Exists_exists in E as (cw & H & Hw). rewrite Forall_forall in F. destruct (F cw H) as (_ & _ & B & _). eapply (G (point hashFunc (addr_of cw.1) 0)). exists (addr_of cw.1), (Z.to_nat (Z.min (Z.quot (wrap64 (100 * cw.2)) 100) 100)), 0%nat.
      split_and!; [by apply P1| |done]. rewrite wrap64_small by lia. rewrite Z.mul_comm, Z.quot_mul by lia. lia.
  - intros key r (cw & _ & ->)%Inv. apply client_of_type.
  - intros key r key' r' (cw & H & ->)%Inv (cw' & H' & ->)%Inv K. assert (EA : addr_of cw.1 = addr_of cw'.1).
    { destruct (client_of_type cw.1) as [A1 _], (client_of_type cw'.1) as [A2 _]. unfold conn_key in K. injection K as T K. rewrite T, A1, A2 in K. destruct (_ =? SentinelType)%string; [|done].
      rewrite Forall_forall in F. destruct (F cw H) as (_ & _ & _ & X), (F cw' H') as (_ & _ & _ & X'). by apply (last_at _ _ _ _ X X' K). }
    assert (Some (client_of cw.1) = Some (client_of cw'.1)) as [= ->]; [|done]. rewrite <- (proj2 (Cl (addr_of cw.1) (client_of cw.1)) ltac:(right; by exists cw)), EA.
    apply Cl. right. by exists cw'.
Qed.
End new_store.

(** The sharded store is one key-value server.  Whatever the servers behind two stores and
    however the ring divides the keys among them - one server among them - every history of
    calls has the same replies at both, if each key has the same contents at the start and
    has a client.  The laws idealise the servers: scripts touch only the keys they declare,
    a call fails at one server exactly when it fails at another, and scans of equal
    contents answer in the same order. *)
Theorem store_is_one_server {O S C : Type} `{!RedisServer O S} `{!RedisLaws O S C} (hashFunc : string -> N) (sprintV : any -> string) (cs1 cs2 : clusterStore) (w1 w2 : world S) (ops : list (O * store_op)) :
  serves hashFunc sprintV cs1 -> serves hashFunc sprintV cs2 ->
  (forall key r1 r2, clusterStore_getRedis hashFunc sprintV cs1 key = Some r1 -> clusterStore_getRedis hashFunc sprintV cs2 key = Some r2 ->
     cell (servers w1) (conn_of w1 r1) key = cell (servers w2) (conn_of w2 r2) key) ->
  run_store hashFunc sprintV cs1 ops w1 = run_store hashFunc sprintV cs2 ops w2.
Proof.
  intros V1 V2. change (same_data hashFunc sprintV cs1 cs2 w1 w2 -> run_store hashFunc sprintV cs1 ops w1 = run_store hashFunc sprintV cs2 ops w2).
  revert w1 w2. induction ops as [|[o [A c|keys]] ops IH]; intros w1 w2 R; cbn [run_store]; [done| |].
  - destruct (same_call hashFunc sprintV cs1 cs2 V1 V2 c o w1 w2 R) as [E R']. destruct (at_store _ _ cs1 c o w1), (at_store _ _ cs2 c o w2). cbn in *. subst. by rewrite (IH _ _ R').
  - destruct (same_del hashFunc sprintV cs1 cs2 V1 V2 keys 0 [] o w1 w2 R) as [E R']. unfold Store_Del. destruct (Store_Del_loop _ _ cs1 _ _ _ o w1), (Store_Del_loop _ _ cs2 _ _ _ o w2). cbn in *. subst. by rewrite (IH _ _ R').
Qed.

(** Servers that count: [INCR] and [DEL] of counters. *)
Definition counters : Type := connOptions -> string -> Z.

#[export] Instance counting : RedisServer unit counters := fun A _ t c =>
  match c in cmd A return counters -> res A * counters with
  | c_Incr key => fun s => (inr (s t key + 1), fun t' k => if decide (t' = t /\ k = key) then s t key + 1 else s t' k)
  | c_Del keys => fun s => (inr (Z.of_nat (length (filter (fun k => s t k <> 0) keys))), fun t' k => if decide (t' = t /\ k ∈ keys) then 0 else s t' k)
  | _ => fun s => (inl (EText "unknown command"), s)
  end.

#[export] Instance counting_laws : RedisLaws unit counters Z.
Proof.
  refine {| cell := fun s => s |}.
  - intros A o t c ks s t' k E N. destruct c; cbn in E |- *; try done; simplify_eq; rewrite decide_False; [done|set_solver|done|set_solver].
  - intros A o t t' c ks s s' E H. destruct c; cbn in E |- *; try done; simplify_eq.
    + split; [|intros k Hk; by rewrite !decide_True]. do 3 f_equal. apply Prelude.filter_ext_in. intros k Hk. rewrite H by done. done.
    + rewrite (H key) by left. split; [done|]. intros k Hk. apply list_elem_of_singleton in Hk as ->. by rewrite !decide_True.
Defined.

Definition no_url (_ : string) : option redisURL := None.
Definition plain_conf (host : string) : RedisConf := mkRedisConf host "node" "" "" false false true 0 "" "" "" 0 0.

Lemma store_is_one_server_witness :
  let w : world counters := mkWorld ∅ (fun _ _ => 0) in
  exists cs1 cs2, NewStore (O := unit) text_hash no_url [(plain_conf "a", 100); (plain_conf "b", 50)] tt w = (inr cs1, w) /\ NewStore (O := unit) text_hash no_url [(plain_conf "a", 100)] tt w = (inr cs2, w) /\
  run_store text_hash plain_text cs1 [(tt, Keyed (k_Incr "x")); (tt, Keyed (k_Incr "y")); (tt, DelKeys ["x"; "z"])] w = run_store text_hash plain_text cs2 [(tt, Keyed (k_Incr "x")); (tt, Keyed (k_Incr "y")); (tt, DelKeys ["x"; "z"])] w.
Proof.
  intros w. destruct (NewStore_serves (O := unit) text_hash plain_text no_url [(plain_conf "a", 100); (plain_conf "b", 50)] tt w) as (cs1 & E1 & V1).
  { repeat constructor; cbn; lia. } { left. cbn. lia. } { cbn. lia. } { apply (bool_decide_unpack _). vm_compute. exact I. } { exact two_nodes_free. }
  destruct (NewStore_serves (O := unit) text_hash plain_text no_url [(plain_conf "a", 100)] tt w) as (cs2 & E2 & V2).
  { repeat constructor; cbn; lia. } { left. cbn. lia. } { cbn. lia. } { apply (bool_decide_unpack _). vm_compute. exact I. }
  { intros r1 r2 i1 i2 H1 H2. apply two_nodes_free; set_solver. }
  exists cs1, cs2. split; [done|]. split; [done|]. apply (store_is_one_server text_hash plain_text cs1 cs2 w w); [done|done|]. intros. reflexivity.
Defined.

(** Two clients of one address share the connection of the one that was used first: the second
    is at the first's database, with the first's user. *)
Lemma client_of_another_database :
  let r0 := client_of no_url (plain_conf "a") in let r1 := client_of no_url ((plain_conf "a") <| rc_Database := 1 |> <| rc_User := "app" |>) in
  let w := (getRedis (O := unit) r0 tt (mkWorld (S := counters) ∅ (fun _ _ => 0))).2 in
  DB r1 = 1 /\ exists conn, (getRedis (O := unit) r1 tt w).1 = inr conn /\ co_DB conn = 0 /\ co_User conn = "".
Proof. cbn. split; [done|]. eexists. split_and!; reflexivity. Qed.

(** [NewRedis] does not read [TlsSkipVerify]. *)
Lemma skip_verify_not_read ParseURL conf b : client_of ParseURL (conf <| rc_TlsSkipVerify := b |>) = client_of ParseURL conf.
Proof.
  unfold client_of, resolveRedisURL. cbn [rc_Host]. destruct (_ || _); [|reflexivity]. destruct (ParseURL _) as [u|]; [|reflexivity]. destruct conf, u.
  cbn [u_Username u_Password u_DB u_TLS u_Addr]. destruct (u_Username0 =? "")%string, (u_Password0 =? "")%string, (u_DB0 =? 0), u_TLS0, rc_Tls0; reflexivity.
Qed.
