(* ===== verification/FieldOptions.v ===== *)
(** * Field options (infra/mapping/fieldoptions.go, utils.go, valuer.go)

    The tag of a struct field, such as [json:"name,optional,default=1,range=[1:5]"], is cut into
    segments; the first is the key, the others set the options of the field.  Tags are byte
    strings in UTF-8, whose spaces are those of ASCII.  [ParseFloat] is an argument. *)

From Stdlib Require Import Ascii String.
From S2P Require Import Prelude GoStrings Float64 SqlModel.
#[local] Open Scope list_scope.
#[local] Open Scope Z_scope.

Record numberRange : Type := mkRange { left : float64; leftInclude : bool; right : float64; rightInclude : bool }.

Record fieldOptionsWithContext : Type := mkFOC {
  Inherit : bool; FromString : bool; Optional : bool; Options : list string; fo_Default : string; EnvVar : string; Range : option numberRange }.
#[export] Instance eta_FOC : Eta fieldOptionsWithContext := fun r =>
  mkFOC (Inherit r) (FromString r) (Optional r) (Options r) (fo_Default r) (EnvVar r) (Range r).

Record fieldOptions : Type := mkFO { fo : fieldOptionsWithContext; OptionalDep : string }.
#[export] Instance eta_FO : Eta fieldOptions := fun r => mkFO (fo r) (OptionalDep r).

Definition no_options : fieldOptions := mkFO (mkFOC false false false [] "" "" None) "".

Inductive tag_error := ErrWrongOptional | ErrWrongTag (tag : string) | ErrNumberRange | ErrParseFloat.

(** ** Segments *)

Definition is_left (c : ascii) : bool := Ascii.eqb c "(" || Ascii.eqb c "[".
Definition is_right (c : ascii) : bool := Ascii.eqb c ")" || Ascii.eqb c "]".

Definition snoc (s : string) (c : ascii) : string := s +++ String c "".

Fixpoint segments_loop (val : string) (escaped grouped : bool) (buf : string) (segments : list string) : list string :=
  match val with
  | EmptyString => let last := TrimSpace buf in if String.eqb last "" then segments else segments ++ [last]
  | String ch val =>
      if escaped then segments_loop val false grouped (snoc buf ch) segments
      else if Ascii.eqb ch "," then
        if grouped then segments_loop val false grouped (snoc buf ch) segments else segments_loop val false grouped "" (segments ++ [TrimSpace buf])
      else if Ascii.eqb ch "\" then
        if grouped then segments_loop val false grouped (snoc buf ch) segments else segments_loop val true grouped buf segments
      else if is_left ch then segments_loop val false true (snoc buf ch) segments
      else if is_right ch then segments_loop val false false (snoc buf ch) segments
      else segments_loop val false grouped (snoc buf ch) segments
  end.

Definition parseSegments (val : string) : list string := segments_loop val false false "" [].

Fixpoint trim_left_while (P : ascii -> bool) (s : string) : string := match s with EmptyString => s | String c s' => if P c then trim_left_while P s' else s end.
Fixpoint trim_right_while (P : ascii -> bool) (s : string) : string :=
  match s with EmptyString => s | String c s' => match trim_right_while P s' with EmptyString => if P c then EmptyString else String c EmptyString | t => String c t end end.

Definition parseGroupedSegments (val : string) : list string := parseSegments (trim_right_while is_right (trim_left_while is_left val)).

Definition parseOptions (val : string) : list string :=
  match val with EmptyString => [] | String c _ => if Ascii.eqb c "[" then parseGroupedSegments val else Split val "|" end.

Definition parseProperty (tag val : string) : string + tag_error :=
  match Split val "=" with [_; v] => inl (TrimSpace v) | _ => inr (ErrWrongTag tag) end.

(** ** Ranges *)

Definition MaxFloat64 : float64 := f64_scaled (2^53 - 1) 971.
Definition f64_neg (x : float64) : float64 := SFopp x.
Definition f64_eqb (x y : float64) : bool := SFeqb x y.

Definition isLeftInclude (b : ascii) : bool + tag_error := if Ascii.eqb b "[" then inl true else if Ascii.eqb b "(" then inl false else inr ErrNumberRange.
Definition isRightInclude (b : ascii) : bool + tag_error := if Ascii.eqb b "]" then inl true else if Ascii.eqb b ")" then inl false else inr ErrNumberRange.

Fixpoint last_byte (c : ascii) (s : string) : string * ascii := match s with EmptyString => (EmptyString, c) | String c' s' => let '(s'', l) := last_byte c' s' in (String c s'', l) end.

Section ranges.
Context (ParseFloat : string -> option float64).

Definition parse_bound (s : string) (def : float64) : float64 + tag_error :=
  if String.eqb s "" then inl def else match ParseFloat s with Some f => inl f | None => inr ErrParseFloat end.

Definition parseIntervalValues (f0 f1 : string) : float64 * float64 + tag_error :=
  if String.eqb f0 "" && String.eqb f1 "" then inr ErrNumberRange
  else match parse_bound f0 (f64_neg MaxFloat64) with
       | inr e => inr e
       | inl l => match parse_bound f1 MaxFloat64 with
                  | inr e => inr e
                  | inl r => if f64_lt r l then inr ErrNumberRange else inl (l, r)
                  end
       end.

Definition parseNumberRange (str : string) : numberRange + tag_error :=
  match str with
  | EmptyString => inr ErrNumberRange
  | String b0 str =>
      match isLeftInclude b0, str with
      | inr e, _ => inr e
      | inl _, EmptyString => inr ErrNumberRange
      | inl li, String c str =>
          let '(str, b1) := last_byte c str in
          match isRightInclude b1 with
          | inr e => inr e
          | inl ri =>
              match Split str ":" with
              | [f0; f1] =>
                  match parseIntervalValues f0 f1 with
                  | inr e => inr e
                  | inl (l, r) => if f64_eqb l r && (negb li || negb ri) then inr ErrNumberRange else inl (mkRange l li r ri)
                  end
              | _ => inr ErrNumberRange
              end
          end
      end
  end.

Definition validateNumberRange (fv : float64) (nr : option numberRange) : bool :=
  match nr with
  | None => true
  | Some nr =>
      negb ((leftInclude nr && f64_lt fv (left nr)) || (negb (leftInclude nr) && f64_le fv (left nr)))
      && negb ((rightInclude nr && f64_lt (right nr) fv) || (negb (rightInclude nr) && f64_le (right nr) fv))
  end.

(** ** Options *)

Definition parseOption (o : fieldOptions) (option : string) : fieldOptions + tag_error :=
  let property (tag : string) (set : string -> fieldOptions + tag_error) := match parseProperty tag option with inl v => set v | inr e => inr e end in
  let upd (f : fieldOptionsWithContext -> fieldOptionsWithContext) := o <| fo := f (fo o) |> in
  if String.eqb option "inherit" then inl (upd (fun x => x <| Inherit := true |>))
  else if String.eqb option "string" then inl (upd (fun x => x <| FromString := true |>))
  else if HasPrefix option "optional" then
    match Split option "=" with
    | [_] => inl (upd (fun x => x <| Optional := true |>))
    | [_; dep] => inl ((upd (fun x => x <| Optional := true |>)) <| OptionalDep := dep |>)
    | _ => inr ErrWrongOptional
    end
  else if HasPrefix option "options" then property "options" (fun v => inl (upd (fun x => x <| Options := parseOptions v |>)))
  else if HasPrefix option "default" then property "default" (fun v => inl (upd (fun x => x <| fo_Default := v |>)))
  else if HasPrefix option "env" then property "env" (fun v => inl (upd (fun x => x <| EnvVar := v |>)))
  else if HasPrefix option "range" then
    property "range" (fun v => match parseNumberRange v with inl nr => inl (upd (fun x => x <| Range := Some nr |>)) | inr e => inr e end)
  else inl o.

Fixpoint parse_options (o : fieldOptions) (segments : list string) : fieldOptions + tag_error :=
  match segments with
  | [] => inl o
  | s :: segments => match parseOption o (TrimSpace s) with inl o => parse_options o segments | inr e => inr e end
  end.

(** [segments[0]] panics ([None]) on a tag that has no segment. *)
Definition doParseKeyAndOptions (value : string) : option (string * option fieldOptions + tag_error) :=
  match parseSegments value with
  | [] => None
  | k :: [] => Some (inl (TrimSpace k, None))
  | k :: options => Some (match parse_options no_options options with inl o => inl (TrimSpace k, Some o) | inr e => inr e end)
  end.

(** ** The cache *)

(** A field: its name, and [Tag.Get]. *)
Record tagged : Type := mkTagged { f_Name : string; Tag : string -> string }.

Definition parseFallbackOptions (f : tagged) : option (option fieldOptions + tag_error) :=
  let fallback := TrimSpace (Tag f "config") in
  if String.eqb fallback "" then Some (inl None)
  else r ← doParseKeyAndOptions fallback; Some (match r with inl (_, o) => inl o | inr e => inr e end).

Definition cmp_Or (a b : string) : string := if String.eqb a "" then b else a.

(** A result: the key, the options and the error, which can come together. *)
Definition result : Type := string * option fieldOptions * option tag_error.

Definition with_fallback (tagName : string) (f : tagged) (key : string) (o : option fieldOptions) (err : option tag_error) : option result :=
  match o with
  | None =>
      if negb (String.eqb tagName "config") then
        fb ← parseFallbackOptions f;
        Some (match fb with
              | inr e => ("", None, Some e)
              | inl (Some fb) => (key, Some fb, None)
              | inl None => (key, None, err)
              end)
      else Some (key, None, err)
  | Some o => Some (key, Some o, err)
  end.

Notation cache := (gmap string (string * option fieldOptions * option tag_error)).

(** What goes to the cache for a tag. *)
Definition parsed (value : string) : option (string * option fieldOptions * option tag_error) :=
  r ← doParseKeyAndOptions value; Some (match r with inl (k, o) => (k, o, None) | inr e => ("", None, Some e) end).

(** [None] is a panic. *)
Definition parseKeyAndOptions (tagName : string) (f : tagged) (c : cache) : option result * cache :=
  let value := TrimSpace (Tag f tagName) in
  if String.eqb value "" then (with_fallback tagName f (f_Name f) None None, c)
  else match c !! value with
       | Some (k, o, err) => (with_fallback tagName f (cmp_Or k (f_Name f)) o err, c)
       | None =>
           match parsed value with
           | None => (None, c)
           | Some (k, o, err) => (with_fallback tagName f (cmp_Or k (f_Name f)) o err, <[value := (k, o, err)]> c)
           end
       end.
End ranges.

(** ** Options in context *)

(** [m.Value(key)] says whether the key has a value. *)
Definition toOptionsWithContext (o : fieldOptions) (key : string) (has : string -> bool) : fieldOptionsWithContext + string :=
  let finish (optional : bool) :=
    if Bool.eqb (Optional (fo o)) optional then inl (fo o)
    else inl (mkFOC false (FromString (fo o)) optional (Options (fo o)) (fo_Default (fo o)) (EnvVar (fo o)) None) in
  if Optional (fo o) then
    match OptionalDep o with
    | EmptyString => finish true
    | String c dep =>
        if Ascii.eqb c "!" then
          if String.eqb dep "" then inr "wrong optional value"
          else if Bool.eqb (has dep) (has key) then inr "set value for either" else finish (has dep)
        else
          let dep := OptionalDep o in
          if negb (Bool.eqb (has dep) (has key)) then inr "both provided or both not" else finish (negb (has dep))
    end
  else finish false.

(** ** Required structs *)

(** A type: a struct whose fields have their tags, or another one.  [ft_any] says whether the
    field has a tag at all, [ft_lookup] whether it has the tag of a name. *)
Inductive stype := SOther | SStruct (fields : list sfield)
with sfield := mkSField (sf_tagged : tagged) (ft_any : bool) (ft_lookup : string -> bool) (sf_type : stype).

Section required.
Context (ParseFloat : string -> option float64).

Definition usingDifferentKeys (key : string) (ft_any : bool) (ft_lookup : string -> bool) : bool := ft_any && negb (ft_lookup key).

Definition hasOptionalFallback (f : tagged) : bool :=
  match parseFallbackOptions ParseFloat f with Some (inl (Some o)) => Optional (fo o) || negb (String.eqb (fo_Default (fo o)) "") | _ => false end.

Definition starts_with_not (dep : string) : bool := match dep with String c _ => Ascii.eqb c "!" | EmptyString => false end.

(** [implicitValueRequiredStruct] and [checkFieldRequired]; the error of a tag or its panic is
    [None].  The tags are parsed without the cache, which does not change the result. *)
Fixpoint structRequired (tag : string) (t : stype) : option bool :=
  match t with
  | SOther => Some true
  | SStruct fields =>
      (fix go (fs : list sfield) : option bool :=
         match fs with
         | [] => Some false
         | mkSField f any lookup ty :: fs =>
             if usingDifferentKeys tag any lookup then
               if negb (String.eqb tag "config") && hasOptionalFallback f then go fs else Some true
             else
               match (parseKeyAndOptions ParseFloat tag f ∅).1 with
               | None | Some (_, _, Some _) => None
               | Some (_, None, None) => r ← structRequired tag ty; if r : bool then Some true else go fs
               | Some (_, Some o, None) =>
                   if negb (Optional (fo o)) && String.eqb (fo_Default (fo o)) "" then Some true
                   else if starts_with_not (OptionalDep o) then Some true
                   else go fs
               end
         end) fields
  end.

(** [structValueRequired]: the cache has the type for its key, not the tag. *)
Definition structValueRequired (tag : string) (id : nat) (t : stype) (c : gmap nat (option bool)) : option bool * gmap nat (option bool) :=
  match c !! id with
  | Some r => (r, c)
  | None => let r := structRequired tag t in (r, <[id := r]> c)
  end.
End required.

(** ** Properties *)

Definition cache_ok (ParseFloat : string -> option float64) (c : gmap string (string * option fieldOptions * option tag_error)) : Prop :=
  forall v r, c !! v = Some r -> parsed ParseFloat v = Some r.

(** The cache of parsed tags is transparent: in every state it can be in, a field gets the
    key, the options and the error that parsing its tags gives, and the cache stays sound. *)
Theorem tag_cache_transparent (ParseFloat : string -> option float64) (tagName : string) (f : tagged) c :
  cache_ok ParseFloat c -> (parseKeyAndOptions ParseFloat tagName f c).1 = (parseKeyAndOptions ParseFloat tagName f ∅).1 /\ cache_ok ParseFloat (parseKeyAndOptions ParseFloat tagName f c).2.
Proof.
  intros I. unfold parseKeyAndOptions. destruct (String.eqb _ ""); [done|]. rewrite lookup_empty. set (v := TrimSpace (Tag f tagName)).
  destruct (c !! v) as [[[k o] e]|] eqn:E; [by rewrite (I _ _ E)|].
  destruct (parsed ParseFloat v) as [[[k o] e]|] eqn:P; [|done]. split; [done|]. cbn. intros v' r. destruct (decide (v = v')) as [<-|N].
  - rewrite lookup_insert_eq. intros [= <-]. done.
  - rewrite lookup_insert_ne by done. apply I.
Qed.
Lemma tag_cache_transparent_witness : let f := mkTagged "Name" (fun t => if String.eqb t "json" then "name,optional" else "") in
  (parseKeyAndOptions (fun _ => None) "json" f (parseKeyAndOptions (fun _ => None) "json" f ∅).2).1 = (parseKeyAndOptions (fun _ => None) "json" f ∅).1.
Proof.
  intros f. refine (proj1 (tag_cache_transparent (fun _ => None) "json" f _ _)). refine (proj2 (tag_cache_transparent (fun _ => None) "json" f ∅ _)).
  intros v r H. rewrite lookup_empty in H. discriminate H.
Defined.

(** The cache of required structs is not: a struct whose field is optional as JSON and required
    in a form is required in a form, and is not when it was asked about as JSON before. *)
Lemma struct_cache_ignores_tag :
  let f := mkTagged "Name" (fun t => if String.eqb t "json" then "name,optional" else if String.eqb t "form" then "name,string" else "") in
  let t := SStruct [mkSField f true (fun t => String.eqb t "json" || String.eqb t "form") SOther] in
  let none := fun _ : string => None in
  (structValueRequired none "form" 0 t ∅).1 = Some true /\ (structValueRequired none "form" 0 t (structValueRequired none "json" 0 t ∅).2).1 = Some false.
Proof. split; reflexivity. Qed.

(** *** Segments *)

Definition special (c : ascii) : bool := Ascii.eqb c "," || Ascii.eqb c "\" || is_left c || is_right c.
Fixpoint escape (s : string) : string :=
  match s with EmptyString => EmptyString | String c s => if special c then String "\" (String c (escape s)) else String c (escape s) end.

Lemma snoc_app buf c s : snoc buf c +++ s = buf +++ String c s.
Proof. unfold snoc. by rewrite str_app_assoc. Qed.

Lemma segments_escape s rest buf segs : segments_loop (escape s +++ rest) false false buf segs = segments_loop rest false false (buf +++ s) segs.
Proof.
  revert buf. induction s as [|c s IH]; intros buf; cbn [escape]; [by rewrite str_app_nil_l, str_app_nil_r|].
  destruct (special c) eqn:E; rewrite !str_app_cons; cbn [segments_loop].
  - cbn. by rewrite IH, snoc_app.
  - unfold special in E. apply orb_false_iff in E as [E E4]. apply orb_false_iff in E as [E E3]. apply orb_false_iff in E as [E1 E2].
    rewrite E1, E2, E3, E4, IH, snoc_app. done.
Qed.

Definition trimmed (s : string) : Prop := TrimSpace s = s.

Lemma segments_join segs : forall buf acc x, trimmed x -> Forall trimmed segs -> default x (last segs) <> "" -> buf = "" ->
  segments_loop (Join (escape <$> (x :: segs)) ",") false false buf acc = acc ++ x :: segs.
Proof.
  induction segs as [|y segs IH]; intros buf acc x Hx F L ->.
  - cbn [fmap list_fmap Join]. rewrite <- (str_app_nil_r (escape x)), segments_escape, str_app_nil_l. cbn [segments_loop]. rewrite Hx.
    destruct (String.eqb_spec x ""); [done|]. done.
  - apply Forall_cons in F as [Fy F]. cbn [fmap list_fmap]. change (Join (?a :: ?b :: ?l) ?s) with (a +++ s +++ Join (b :: l) s).
    rewrite segments_escape, str_app_nil_l. change ("," +++ ?r) with (String "," r). cbn [segments_loop Ascii.eqb Bool.eqb]. rewrite Hx.
    change (escape y :: (escape <$> segs)) with (escape <$> (y :: segs)). rewrite IH; [by rewrite <- (assoc_L (++))|done|done| |done].
    destruct segs as [|z segs]; [done|]. change (last (y :: z :: segs)) with (last (z :: segs)) in L. destruct (last (z :: segs)) eqn:Z; [done|]. by apply last_None in Z.
Qed.

(** *** A tag and its options *)

Definition absent (c : ascii) (s : string) : bool := str_all (fun x => negb (Ascii.eqb x c)) s.

(** A value that can stand in a tag: not empty, no spaces around it, no equal sign. *)
Definition plain (s : string) : Prop := s <> "" /\ trimmed s /\ absent "=" s = true.

Lemma trim_left_length s : (String.length (trim_left s) <= String.length s)%nat.
Proof. induction s as [|c s IH]; cbn; [lia|]. destruct (space_byte c); cbn; lia. Qed.
Lemma trim_end_length s : (String.length (trim_end s) <= String.length s)%nat.
Proof. induction s as [|c s IH]; cbn; [lia|]. destruct (trim_end s) eqn:E; [destruct (space_byte c); cbn; lia|]. cbn in *. lia. Qed.

Lemma trimmed_end s : trimmed s -> trim_end s = s.
Proof.
  unfold trimmed, TrimSpace. intros H. pose proof (trim_end_length (trim_left s)) as L. rewrite H in L.
  assert (E : trim_left s = s); [|by rewrite E in H]. destruct s as [|c s]; [done|]. cbn in *. destruct (space_byte c); [|done].
  pose proof (trim_left_length s). lia.
Qed.

Lemma trim_end_fixed_app p s : trim_end s = s -> s <> "" -> trim_end (p +++ s) = p +++ s.
Proof.
  intros H N. induction p as [|c p IH]; [by rewrite str_app_nil_l|]. rewrite str_app_cons. cbn [trim_end]. rewrite IH.
  destruct (p +++ s) eqn:E; [|done]. exfalso. destruct p; [rewrite str_app_nil_l in E; done|rewrite str_app_cons in E; done].
Qed.

Lemma trimmed_app c p s : space_byte c = false -> s <> "" -> trimmed s -> trimmed (String c p +++ s).
Proof.
  intros Hc N H. unfold trimmed, TrimSpace. rewrite str_app_cons. cbn [trim_left]. rewrite Hc, <- str_app_cons. apply trim_end_fixed_app; [|done]. by apply trimmed_end.
Qed.

Lemma Split_two c p v : absent c p = true -> absent c v = true -> Split (p +++ String c v) c = [p; v].
Proof. intros Hp Hv. rewrite Split_SplitN2, (SplitN2_app _ _ _ Hp), Split_SplitN2, (SplitN2_absent _ _ Hv). done. Qed.

Lemma parseProperty_eq tag p v : absent "=" p = true -> plain v -> parseProperty tag (p +++ String "=" v) = inl v.
Proof. intros Hp (N & T & A). unfold parseProperty. rewrite (Split_two _ _ _ Hp A). by rewrite T. Qed.

Lemma Join_Split c l : l <> [] -> Forall (fun s => absent c s = true) l -> Split (Join l (String c "")) c = l.
Proof.
  induction l as [|x [|y l] IH]; intros N F; [done| |].
  - apply Forall_cons in F as [F _]. cbn. by rewrite Split_SplitN2, (SplitN2_absent _ _ F).
  - apply Forall_cons in F as [Fx F]. change (Join (x :: y :: l) (String c "")) with (x +++ String c "" +++ Join (y :: l) (String c "")). rewrite str_app_cons, str_app_nil_l.
    rewrite Split_SplitN2, (SplitN2_app _ _ _ Fx), IH by done. done.
Qed.

Section roundtrip.
Context (ParseFloat : string -> option float64).

(** The segments that write the options down; [range] is a text of the range. *)
Definition option_segments (o : fieldOptions) (range : string) : list string :=
  (if Inherit (fo o) then ["inherit"] else []) ++ (if FromString (fo o) then ["string"] else [])
  ++ (if Optional (fo o) then [if String.eqb (OptionalDep o) "" then "optional" else "optional" +++ String "=" (OptionalDep o)] else [])
  ++ (if bool_decide (Options (fo o) = []) then [] else ["options" +++ String "=" (Join (Options (fo o)) "|")])
  ++ (if String.eqb (fo_Default (fo o)) "" then [] else ["default" +++ String "=" (fo_Default (fo o))])
  ++ (if String.eqb (EnvVar (fo o)) "" then [] else ["env" +++ String "=" (EnvVar (fo o))])
  ++ (match Range (fo o) with None => [] | Some _ => ["range" +++ String "=" range] end).

Record writable (o : fieldOptions) (range : string) : Prop := mkWritable {
  w_dep : OptionalDep o = "" \/ (Optional (fo o) = true /\ plain (OptionalDep o));
  w_options : Options (fo o) = [] \/ (plain (Join (Options (fo o)) "|") /\ Forall (fun s => absent "|" s = true) (Options (fo o)) /\ forall s, Join (Options (fo o)) "|" <> String "[" s);
  w_default : fo_Default (fo o) = "" \/ plain (fo_Default (fo o));
  w_env : EnvVar (fo o) = "" \/ plain (EnvVar (fo o));
  w_range : match Range (fo o) with None => True | Some nr => plain range /\ parseNumberRange ParseFloat range = inl nr end }.

Lemma parse_options_app o l1 l2 : parse_options ParseFloat o (l1 ++ l2) = match parse_options ParseFloat o l1 with inl o => parse_options ParseFloat o l2 | inr e => inr e end.
Proof. revert o. induction l1 as [|s l1 IH]; intros o; cbn; [done|]. destruct (parseOption ParseFloat o (TrimSpace s)); [apply IH|done]. Qed.

Lemma one_option o s : trimmed s -> parse_options ParseFloat o [s] = parseOption ParseFloat o s.
Proof. intros T. cbn. rewrite T. by destruct (parseOption ParseFloat o s). Qed.

(** Each group of segments sets its options. *)
Lemma seg_inherit o (b : bool) : parse_options ParseFloat o (if b then ["inherit"] else []) = inl (if b then o <| fo := (fo o) <| Inherit := true |> |> else o).
Proof. by destruct b. Qed.
Lemma seg_string o (b : bool) : parse_options ParseFloat o (if b then ["string"] else []) = inl (if b then o <| fo := (fo o) <| FromString := true |> |> else o).
Proof. by destruct b. Qed.

Lemma seg_optional o (b : bool) dep : dep = "" \/ (b = true /\ plain dep) ->
  parse_options ParseFloat o (if b then [if String.eqb dep "" then "optional" else "optional" +++ String "=" dep] else [])
  = inl (if b then mkFO ((fo o) <| Optional := true |>) (if String.eqb dep "" then OptionalDep o else dep) else o).
Proof.
  intros H. destruct b; [|done]. destruct (String.eqb_spec dep "") as [->|N]; [by destruct o|]. destruct H as [?|[_ (_ & T & A)]]; [done|].
  rewrite one_option by (apply (trimmed_app "o" "ptional="); done). unfold parseOption.
  change (String.eqb ("optional" +++ String "=" dep) "inherit") with false. change (String.eqb ("optional" +++ String "=" dep) "string") with false.
  replace (HasPrefix _ "optional") with true by (symmetry; apply HasPrefix_app). by rewrite (Split_two "=" "optional" dep).
Qed.

Lemma seg_options o l : l = [] \/ (plain (Join l "|") /\ Forall (fun s => absent "|" s = true) l /\ forall s, Join l "|" <> String "[" s) ->
  parse_options ParseFloat o (if bool_decide (l = []) then [] else ["options" +++ String "=" (Join l "|")])
  = inl (if bool_decide (l = []) then o else o <| fo := (fo o) <| Options := l |> |>).
Proof.
  intros H. case_bool_decide as E; [done|]. destruct H as [?|(P & F & B)]; [done|]. pose proof P as (N & T & A).
  rewrite one_option by (apply (trimmed_app "o" "ptions="); done). unfold parseOption.
  change (String.eqb ("options" +++ String "=" (Join l "|")) "inherit") with false. change (String.eqb ("options" +++ String "=" (Join l "|")) "string") with false.
  change (HasPrefix ("options" +++ String "=" (Join l "|")) "optional") with false. replace (HasPrefix _ "options") with true by (symmetry; apply HasPrefix_app).
  rewrite (parseProperty_eq "options" "options") by done. do 3 f_equal. unfold parseOptions. destruct (Join l "|") as [|c s] eqn:J; [done|].
  destruct (Ascii.eqb_spec c "[") as [->|_]; [by destruct (B s)|]. rewrite <- J. by rewrite (Join_Split "|").
Qed.

Lemma seg_default o d : d = "" \/ plain d ->
  parse_options ParseFloat o (if String.eqb d "" then [] else ["default" +++ String "=" d]) = inl (if String.eqb d "" then o else o <| fo := (fo o) <| fo_Default := d |> |>).
Proof.
  intros H. destruct (String.eqb_spec d ""); [done|]. destruct H as [?|P]; [done|]. pose proof P as (N & T & A).
  rewrite one_option by (apply (trimmed_app "d" "efault="); done). unfold parseOption.
  change (String.eqb ("default" +++ String "=" d) "inherit") with false. change (String.eqb ("default" +++ String "=" d) "string") with false.
  change (HasPrefix ("default" +++ String "=" d) "optional") with false. change (HasPrefix ("default" +++ String "=" d) "options") with false.
  replace (HasPrefix _ "default") with true by (symmetry; apply HasPrefix_app). by rewrite (parseProperty_eq "default" "default").
Qed.

Lemma seg_env o d : d = "" \/ plain d ->
  parse_options ParseFloat o (if String.eqb d "" then [] else ["env" +++ String "=" d]) = inl (if String.eqb d "" then o else o <| fo := (fo o) <| EnvVar := d |> |>).
Proof.
  intros H. destruct (String.eqb_spec d ""); [done|]. destruct H as [?|P]; [done|]. pose proof P as (N & T & A).
  rewrite one_option by (apply (trimmed_app "e" "nv="); done). unfold parseOption.
  change (String.eqb ("env" +++ String "=" d) "inherit") with false. change (String.eqb ("env" +++ String "=" d) "string") with false.
  change (HasPrefix ("env" +++ String "=" d) "optional") with false. change (HasPrefix ("env" +++ String "=" d) "options") with false.
  change (HasPrefix ("env" +++ String "=" d) "default") with false. replace (HasPrefix _ "env") with true by (symmetry; apply HasPrefix_app).
  by rewrite (parseProperty_eq "env" "env").
Qed.

Lemma seg_range o nr range : match nr with None => True | Some nr => plain range /\ parseNumberRange ParseFloat range = inl nr end ->
  parse_options ParseFloat o (match nr with None => [] | Some _ => ["range" +++ String "=" range] end) = inl (match nr with None => o | Some nr => o <| fo := (fo o) <| Range := Some nr |> |> end).
Proof.
  destruct nr as [nr|]; [|done]. intros [P E]. pose proof P as (N & T & A).
  rewrite one_option by (apply (trimmed_app "r" "ange="); done). unfold parseOption.
  change (String.eqb ("range" +++ String "=" range) "inherit") with false. change (String.eqb ("range" +++ String "=" range) "string") with false.
  change (HasPrefix ("range" +++ String "=" range) "optional") with false. change (HasPrefix ("range" +++ String "=" range) "options") with false.
  change (HasPrefix ("range" +++ String "=" range) "default") with false. change (HasPrefix ("range" +++ String "=" range) "env") with false.
  replace (HasPrefix _ "range") with true by (symmetry; apply HasPrefix_app). by rewrite (parseProperty_eq "range" "range"), E.
Qed.

Lemma option_segments_parse o range : writable o range -> parse_options ParseFloat no_options (option_segments o range) = inl o.
Proof.
  intros [Wd Wo Wf We Wr]. unfold option_segments.
  rewrite parse_options_app, seg_inherit, parse_options_app, seg_string, parse_options_app, (seg_optional _ _ _ Wd), parse_options_app, (seg_options _ _ Wo),
    parse_options_app, (seg_default _ _ Wf), parse_options_app, (seg_env _ _ We), (seg_range _ _ _ Wr).
  f_equal. destruct o as [[inh fs op os d e r] dep]. cbn in *. unfold no_options.
  destruct (String.eqb_spec dep "") as [->|Nd], (String.eqb_spec d "") as [->|N1], (String.eqb_spec e "") as [->|N2]; destruct (bool_decide (os = [])) eqn:Eo;
    (apply bool_decide_eq_true in Eo as -> || clear Eo); destruct op; try (destruct Wd as [?|[? _]]; done); destruct inh, fs, r; reflexivity.
Qed.

(** What is written down is read back: the tag made of a key and of the segments of a
    field's options, each escaped, is parsed to that key and those options. *)
Theorem tag_roundtrip (key range : string) (o : fieldOptions) :
  trimmed key -> Forall trimmed (option_segments o range) -> writable o range -> option_segments o range <> [] ->
  doParseKeyAndOptions ParseFloat (Join (escape <$> key :: option_segments o range) ",") = Some (inl (key, Some o)).
Proof.
  intros Tk Ts W N. unfold doParseKeyAndOptions, parseSegments. rewrite (segments_join (option_segments o range) "" [] key); [|done|done| |done].
  - cbn [app]. rewrite Tk. destruct (option_segments o range) as [|x l] eqn:E; [done|]. rewrite <- E, option_segments_parse by done. done.
  - destruct (last (option_segments o range)) as [z|] eqn:L; [|by apply last_None in L]. cbn. apply last_Some in L as [l' L].
    assert (Z : Forall (fun s => s <> "") (option_segments o range)).
    { unfold option_segments. rewrite !Forall_app. split_and!; repeat case_match; repeat constructor; done. }
    rewrite L, Forall_app in Z. destruct Z as [_ Z]. by apply Forall_cons in Z as [Z _].
Qed.
End roundtrip.

Definition demo_options : fieldOptions := mkFO (mkFOC false true true ["a"; "b"] "a" "" None) "!other".
Lemma tag_roundtrip_witness :
  Join (escape <$> "na,me" :: option_segments demo_options "") "," = "na\,me,string,optional=!other,options=a|b,default=a"
  /\ doParseKeyAndOptions (fun _ => None) (Join (escape <$> "na,me" :: option_segments demo_options "") ",") = Some (inl ("na,me", Some demo_options)).
Proof.
  split; [reflexivity|]. apply (tag_roundtrip (fun _ => None) "na,me" "" demo_options).
  - reflexivity.
  - repeat constructor.
  - split; cbn; auto; right; repeat split; try discriminate; repeat constructor.
  - discriminate.
Defined.

(** *** Dependent options *)

(** [optional=dep] makes a field optional when neither it nor [dep] has a value and required
    when both have one, and is an error otherwise; [optional=!dep] is an error unless exactly one
    has a value.  The options, the default, the variable and the conversion from text are
    those of the tag; the range is dropped when the field turns out to be required. *)
Theorem optional_dependency (o : fieldOptions) (key : string) (has : string -> bool) (c : ascii) (dep : string) :
  Optional (fo o) = true -> OptionalDep o = String c dep -> dep <> "" ->
  let other := if Ascii.eqb c "!" then dep else String c dep in
  let agree := Bool.eqb (has other) (has key) in
  match toOptionsWithContext o key has with
  | inr _ => agree = Ascii.eqb c "!"
  | inl r => agree = negb (Ascii.eqb c "!") /\ Optional r = negb (has key)
      /\ Options r = Options (fo o) /\ fo_Default r = fo_Default (fo o) /\ EnvVar r = EnvVar (fo o) /\ FromString r = FromString (fo o)
      /\ (Optional r = true -> Range r = Range (fo o)) /\ (Optional r = false -> Range r = None)
  end.
Proof.
  intros Ho Hd N other agree. unfold toOptionsWithContext, agree, other. rewrite Ho, Hd. destruct (Ascii.eqb c "!").
  - destruct (String.eqb_spec dep ""); [done|]. destruct (has dep), (has key); cbn; try done; rewrite ?Ho; naive_solver.
  - destruct (has (String c dep)), (has key); cbn; try done; rewrite ?Ho; naive_solver.
Qed.
Lemma optional_dependency_witness : exists r, toOptionsWithContext (mkFO (mkFOC false false true [] "" "" (Some (mkRange MaxFloat64 true MaxFloat64 true))) "base") "key" (fun _ => true) = inl r
  /\ Optional r = false /\ Range r = None.
Proof.
  pose proof (optional_dependency (mkFO (mkFOC false false true [] "" "" (Some (mkRange MaxFloat64 true MaxFloat64 true))) "base") "key" (fun _ => true) "b" "ase" eq_refl eq_refl ltac:(discriminate)) as H.
  cbv zeta in H. destruct (toOptionsWithContext _ _ _) as [r|e] eqn:E; [|discriminate E]. destruct H as (_ & H1 & _ & _ & _ & _ & _ & H2).
  exists r. split; [reflexivity|]. split; [exact H1|exact (H2 H1)].
Defined.
