(* ===== verification/Unmarshal.v ===== *)
(** * Decoding into structs (infra/mapping/unmarshaler.go, valuer.go, utils.go)

    A document - what a JSON or YAML decoder makes of a text: nil, booleans, strings,
    [json.Number]s, slices and maps - is written into a Go value by its reflected type.

    Maps are references, so they live in a heap: [Value] of a valuer that inherits writes into
    the maps of the document, and a field of type [map[string]any] becomes the document's map
    itself, or the package's [emptyMap] (location 0).  A map is the list of its entries in the
    order a [range] visits them.  Types are finite: a struct that contains itself through
    pointers is not one.  Types with methods ([TextUnmarshaler], [json.Unmarshaler]) are
    [TyOpaque]; embedded fields are structs or pointers to structs.  The full names that only
    appear in messages are left out, and so is what is left in the target after an error. *)

From Stdlib Require Import Ascii String.
From S2P Require Import Prelude GoStrings GoStrconv Float64 SqlModel FieldOptions.
#[local] Open Scope list_scope.
#[local] Open Scope Z_scope.

(** ** Types, values, documents *)

Inductive gty :=
| TyBool | TyInt (k : intKind) | TyDuration | TyFloat32 | TyFloat64 | TyString | TyAny
| TyPtr (t : gty) | TySlice (t : gty) | TyMap (elem : gty) | TyStruct (fs : list gfield) | TyOpaque (name : string)
with gfield :=
| FNamed (name : string) (tags : list (string * string)) (exported : bool) (t : gty)
| FEmbed (name : string) (tags : list (string * string)) (ptr : bool) (fs : list gfield).

Inductive kind := KBool | KInt (k : intKind) | KFloat32 | KFloat64 | KString | KInterface | KPtr | KSlice | KMap | KStruct.
#[export] Instance intKind_eq_dec : EqDecision intKind.
Proof. solve_decision. Defined.
#[export] Instance kind_eq_dec : EqDecision kind.
Proof. solve_decision. Defined.

Definition kind_of (t : gty) : kind :=
  match t with
  | TyBool => KBool | TyInt k => KInt k | TyDuration => KInt Int64 | TyFloat32 => KFloat32 | TyFloat64 => KFloat64 | TyString => KString
  | TyAny => KInterface | TyPtr _ => KPtr | TySlice _ => KSlice | TyMap _ => KMap | TyStruct _ | TyOpaque _ => KStruct
  end.

Fixpoint Deref (t : gty) : gty := match t with TyPtr t => Deref t | _ => t end.

(** Interface values of a document; [ANilList] is a nil slice. *)
Inductive any := ANil | ABool (b : bool) | AString (s : string) | ANumber (s : string) | ANilList | AList (l : list any) | AMap (loc : nat).

(** Go values; [VNil] is the nil pointer, slice, map or interface; [VShared] a [map[string]any]. *)
Inductive gv :=
| VBool (b : bool) | VInt (z : Z) | VFloat (f : float64) | VString (s : string) | VNil | VPtr (v : gv) | VSlice (l : list gv)
| VMap (m : list (string * gv)) | VShared (loc : nat) | VAny (a : any) | VStruct (vs : list gv) | VOpaque (s : string).

Definition field_name (f : gfield) : string := match f with FNamed n _ _ _ | FEmbed n _ _ _ => n end.
Definition field_tags (f : gfield) : list (string * string) := match f with FNamed _ t _ _ | FEmbed _ t _ _ => t end.
Definition field_type (f : gfield) : gty := match f with FNamed _ _ _ t => t | FEmbed _ _ ptr fs => if ptr then TyPtr (TyStruct fs) else TyStruct fs end.

Fixpoint zero (t : gty) : gv :=
  match t with
  | TyBool => VBool false | TyInt _ | TyDuration => VInt 0 | TyFloat32 | TyFloat64 => VFloat (S754_zero false) | TyString => VString ""
  | TyAny | TyPtr _ | TySlice _ | TyMap _ => VNil
  | TyStruct fs => VStruct (zero_field <$> fs)
  | TyOpaque _ => VOpaque ""
  end
with zero_field (f : gfield) : gv :=
  match f with FNamed _ _ _ t => zero t | FEmbed _ _ ptr fs => if ptr then VNil else VStruct (zero_field <$> fs) end.

Fixpoint is_zero (v : gv) : bool :=
  match v with
  | VBool b => negb b | VInt z => z =? 0 | VFloat f => match f with S754_zero s => negb s | _ => false end | VString s | VOpaque s => String.eqb s ""
  | VNil => true | VStruct vs => forallb is_zero vs
  | VPtr _ | VSlice _ | VMap _ | VShared _ | VAny _ => false
  end.

(** A target behind the pointers of its type ([SetValue], [ensureValue]). *)
Fixpoint wrap (t : gty) (v : gv) : gv := match t with TyPtr t => VPtr (wrap t v) | _ => v end.

Definition maybeNewValue (t : gty) (v : gv) : gv := match t, v with TyPtr t, VNil => VPtr (zero t) | _, _ => v end.

Fixpoint assoc {A} (k : string) (m : list (string * A)) : option A :=
  match m with [] => None | (k', v) :: m => if String.eqb k k' then Some v else assoc k m end.

(** ** The decoder's monad *)

Inductive uerr :=
| ErrTypeMismatch | ErrUnsupportedType | ErrNilSliceElement | ErrParse | ErrRange | ErrOptions | ErrTag | ErrOptionalDep
| ErrNotSet | ErrNil | ErrNotFullySet | ErrNotZero | ErrNotString | ErrNotPointer.

(** [Deep] is a type deeper than the bound of the recursion. *)
Inductive res (A : Type) := Ok (a : A) | Err (e : uerr) | Panic | Deep.
Arguments Ok {A}. Arguments Err {A}. Arguments Panic {A}. Arguments Deep {A}.

Notation heap := (list (list (string * any))).
Definition M (A : Type) : Type := heap -> res A * heap.

Definition ret {A} (a : A) : M A := fun h => (Ok a, h).
Definition err {A} (e : uerr) : M A := fun h => (Err e, h).
Definition panic {A} : M A := fun h => (Panic, h).
Definition deep {A} : M A := fun h => (Deep, h).
Definition mbind {A B} (m : M A) (f : A -> M B) : M B := fun h =>
  let '(r, h) := m h in match r with Ok a => f a h | Err e => (Err e, h) | Panic => (Panic, h) | Deep => (Deep, h) end.
Definition guard (b : bool) (e : uerr) : M unit := if b then ret tt else err e.
Definition of_option {A} (o : option A) (e : uerr) : M A := match o with Some a => ret a | None => err e end.

Declare Scope unm_scope.
Notation "'let!' x := m 'in' k" := (mbind m (fun x => k)) (at level 200, x pattern, m at level 100, k at level 200) : unm_scope.
Notation "m ;; k" := (mbind m (fun _ => k)) (at level 100, k at level 200, right associativity) : unm_scope.
#[local] Open Scope unm_scope.

Definition map_at (loc : nat) : M (list (string * any)) := fun h => (Ok (default [] (h !! loc)), h).

(** ** Valuers *)

(** [Inheriting v] is [recursiveValuer{current: v, parent: v.Parent()}], and
    [ChainedValuer next m] is [recursiveValuer{current: mapValuer(next), parent: m}]: the code
    makes recursive valuers in these two ways. *)
Inductive valuer := MapValuer (loc : nat) | SimpleValuer (current : valuer) (parent : option valuer) | ChainedValuer (next : nat) (parent : valuer) | Inheriting (v : valuer).

Fixpoint Parent (v : valuer) : option valuer :=
  match v with
  | MapValuer _ | SimpleValuer _ None => None
  | SimpleValuer _ (Some p) | ChainedValuer _ p => Some (Inheriting p)
  | Inheriting v => Inheriting <$> Parent v
  end.

(** [vm[k] = v] for the entries of [pm] whose key [vm] does not have. *)
Definition inherit_entries (vm pm : nat) : M unit := fun h =>
  let old := default [] (h !! vm) in
  (Ok tt, <[vm := old ++ filter (fun kv => negb (bool_decide (is_Some (assoc kv.1 old)))) (default [] (h !! pm))]> h).

(** [Value] of a recursive valuer, from those of its current one and of its parent. *)
Definition recursive_Value (current : M (option any)) (parent : option (M (option any))) : M (option any) :=
  let! val := current in
  match val, parent with
  | None, None => ret None
  | None, Some parent => parent
  | Some (AMap vm), Some parent =>
      let! pv := parent in
      match pv with Some (AMap pm) => inherit_entries vm pm;; ret (Some (AMap vm)) | _ => ret (Some (AMap vm)) end
  | Some val, _ => ret (Some val)
  end.

Definition map_Value (loc : nat) (key : string) : M (option any) := let! m := map_at loc in ret (assoc key m).

Fixpoint value_fuel (n : nat) (v : valuer) (key : string) : M (option any) :=
  match n with
  | O => deep
  | S n =>
      let parent := (fun p => value_fuel n p key) <$> Parent v in
      match v with
      | MapValuer loc => map_Value loc key
      | SimpleValuer current _ => value_fuel n current key
      | ChainedValuer next _ => recursive_Value (map_Value next key) parent
      | Inheriting v => recursive_Value (value_fuel n v key) parent
      end
  end.

(** The current valuer and the parent of one are smaller than it. *)
Fixpoint valuer_size (v : valuer) : nat :=
  match v with
  | MapValuer _ => 1 | SimpleValuer c p => S (valuer_size c + match p with Some p => valuer_size p | None => 0 end)
  | ChainedValuer _ p => S (S (valuer_size p)) | Inheriting v => S (valuer_size v)
  end.
Definition Value (v : valuer) (key : string) : M (option any) := value_fuel (valuer_size v) v key.

(** [strings.FieldsFunc(key, '.')]; the cache of [readKeys] only remembers it. *)
Definition readKeys (key : string) (opaque : bool) : list string :=
  if opaque then [key] else filter (fun k => negb (String.eqb k "")) (Split key ".").

Fixpoint getValueWithChainedKeys (m : valuer) (keys : list string) : M (option any) :=
  match keys with
  | [] => ret None
  | [k] => Value m k
  | k :: keys =>
      let! v := Value m k in
      match v with Some (AMap next) => getValueWithChainedKeys (ChainedValuer next m) keys | _ => ret None end
  end.

Definition getValue (m : valuer) (key : string) (opaque : bool) : M (option any) := getValueWithChainedKeys m (readKeys key opaque).

Notation opts := (option fieldOptionsWithContext).
Definition inherit (o : opts) : bool := match o with Some o => Inherit o | None => false end.
Definition optional (o : opts) : bool := match o with Some o => Optional o | None => false end.
Definition fromString (o : opts) : bool := match o with Some o => FromString o | None => false end.
Definition options (o : opts) : list string := match o with Some o => Options o | None => [] end.
Definition getDefault (o : opts) : option string := match o with Some o => if String.eqb (fo_Default o) "" then None else Some (fo_Default o) | None => None end.
Definition range_of (o : opts) : option numberRange := match o with Some o => Range o | None => None end.

Definition createValuer (v : valuer) (o : opts) : valuer := if inherit o then Inheriting v else SimpleValuer v (Parent v).

(** ** Options of the unmarshaler *)

Record Unmarshaler : Type := mkUnmarshaler {
  u_key : string; fillDefault : bool; fromArray : bool; u_fromString : bool; opaqueKeys : bool; canonicalKey : option (string -> string) }.

Definition NewUnmarshaler (key : string) : Unmarshaler := mkUnmarshaler key false false false false None.

Definition ParseBool (s : string) : option bool :=
  if existsb (String.eqb s) ["1"; "t"; "T"; "true"; "TRUE"; "True"] then Some true
  else if existsb (String.eqb s) ["0"; "f"; "F"; "false"; "FALSE"; "False"] then Some false else None.

Section unmarshal.
(** [strconv.ParseFloat] at 64 and 32 bits, the rounding of [SetFloat] to a [float32] and its
    overflow, [time.ParseDuration], base64, what [jsonx] makes of a text: a document, whose maps
    are allocated, or a map of a type; the [UnmarshalText] and [UnmarshalJSON] of the opaque
    types that have them; the environment. *)
Context (ParseFloat ParseFloat32 : string -> option float64) (to_float32 : float64 -> float64) (OverflowFloat32 : float64 -> bool).
Context (ParseDuration : string -> option Z) (Base64 : string -> option (list Z)).
Context (json_any : string -> heap -> option any * heap) (json_map : gty -> string -> option gv).
Context (UnmarshalText UnmarshalJSON : string -> option (string -> option gv)) (Env : string -> string).
Context (u : Unmarshaler).

(** ** Primitive values *)

Definition parseIntBits (k : intKind) (s : string) : option Z :=
  let '(n, e) := if is_signed k then ParseInt s else ParseUint s in
  match e with
  | Some _ => None
  | None => if (if is_signed k then (- 2 ^ (bits k - 1) <=? n) && (n <? 2 ^ (bits k - 1)) else n <? 2 ^ bits k) then Some n else None
  end.

Definition convertTypeFromString (k : kind) (s : string) : M gv :=
  match k with
  | KBool =>
      if String.eqb s "1" || EqualFold s "true" then ret (VBool true)
      else if String.eqb s "0" || EqualFold s "false" then ret (VBool false) else err ErrTypeMismatch
  | KInt k => of_option (VInt <$> parseIntBits k s) ErrParse
  | KFloat32 => of_option (VFloat <$> ParseFloat32 s) ErrParse
  | KFloat64 => of_option (VFloat <$> ParseFloat s) ErrParse
  | KString => ret (VString s)
  | _ => err ErrUnsupportedType
  end.

(** [setValueFromString] on a value of type [t]. *)
Definition setValueFromString (k : kind) (t : gty) (s : string) : M gv := let! v := convertTypeFromString k s in ret (wrap t v).

(** The text [Repr] makes of a boolean. *)
Definition validateValueInOptions (val : any) (options : list string) : bool :=
  match options with
  | [] => true
  | _ => match val with
         | AString s | ANumber s => existsb (String.eqb s) options
         | ABool b => existsb (String.eqb (if b then "true" else "false")) options
         | _ => false
         end
  end.

Definition validateJsonNumberRange (s : string) (o : opts) : M unit :=
  match range_of o with
  | None => ret tt
  | Some nr => let! f := of_option (ParseFloat s) ErrParse in guard (validateNumberRange f (Some nr)) ErrRange
  end.

(** [toFloat64] of what [convertTypeFromString] returns. *)
Definition toFloat64 (v : gv) : option float64 := match v with VInt z => Some (f64_of_Z z) | VFloat f => Some f | _ => None end.

Definition validateValueRange (v : gv) (o : opts) : bool :=
  match range_of o with None => true | Some nr => match toFloat64 v with Some f => validateNumberRange f (Some nr) | None => false end end.

Definition fillDurationValue (t : gty) (dur : string) : M gv := let! d := of_option (ParseDuration dur) ErrParse in ret (wrap t (VInt d)).

(** [validateAndSetValue] and the [json.Number] case, behind the pointers of the type. *)
Definition fillPrimitive (t : gty) (mapValue : any) (o : opts) : M gv :=
  match mapValue with
  | AString s => let! v := convertTypeFromString (kind_of (Deref t)) s in guard (validateValueRange v o) ErrRange;; ret (wrap t v)
  | ANumber s => validateJsonNumberRange s o;; setValueFromString (kind_of (Deref t)) t s
  | _ => err ErrTypeMismatch
  end.

(** A boolean or a string into a field of the same kind: neither is a number, so a range is an
    error. *)
Definition fillWithSameType (t : gty) (mapValue : any) (o : opts) : M gv :=
  let v := match mapValue with ABool b => VBool b | AString s => VString s | a => VAny a end in
  guard (validateValueRange v o) ErrRange;; ret (wrap t v).

(** What the pointers of a value lead to; a nil one has no element. *)
Fixpoint indirect (t : gty) (v : gv) : option gv :=
  match t with TyPtr t => match v with VPtr v => indirect t v | _ => None end | _ => Some v end.

Definition processFieldPrimitiveWithJSONNumber (t : gty) (value : gv) (s : string) (o : opts) : M gv :=
  validateJsonNumberRange s o;;
  guard (validateValueInOptions (ANumber s) (options o)) ErrOptions;;
  match kind_of (Deref t) with
  | KInt k => let! v := convertTypeFromString (KInt k) s in ret (wrap t v)
  | KFloat32 =>
      let! f := of_option (ParseFloat s) ErrParse in
      match indirect t value with
      | None => panic
      | Some _ => if OverflowFloat32 f then err ErrParse else ret (wrap t (VFloat (to_float32 f)))
      end
  | KFloat64 => let! f := of_option (ParseFloat s) ErrParse in ret (wrap t (VFloat f))
  | _ => err ErrTypeMismatch
  end.

(** The kind of a document's value; a [json.Number] is a string. *)
Definition any_kind (a : any) : option kind :=
  match a with
  | ANil => None | ABool _ => Some KBool | AString _ | ANumber _ => Some KString | ANilList | AList _ => Some KSlice | AMap _ => Some KMap
  end.

Definition processFieldPrimitive (t : gty) (value : gv) (mapValue : any) (o : opts) : M gv :=
  match mapValue with
  | ANumber s => processFieldPrimitiveWithJSONNumber t value s o
  | _ =>
      if decide (any_kind mapValue = Some (kind_of (Deref t))) then
        guard (validateValueInOptions mapValue (options o)) ErrOptions;; fillWithSameType t mapValue o
      else err ErrTypeMismatch
  end.

Definition processFieldWithEnvValue (t : gty) (value : gv) (envVal : string) (o : opts) : M gv :=
  guard (validateValueInOptions (AString envVal) (options o)) ErrOptions;;
  match Deref t with
  | TyString => ret (wrap t (VString envVal))
  | TyBool => let! b := of_option (ParseBool envVal) ErrParse in ret (wrap t (VBool b))
  | TyDuration => fillDurationValue t envVal
  | _ => processFieldPrimitiveWithJSONNumber t value envVal o
  end.

(** ** Slices, maps and structs *)

(** The calls on smaller types: [fillSlice], [generateMap] and [processField]. *)
Record engine : Type := mkEngine { e_slice : gty -> gv -> any -> M gv; e_map : gty -> nat -> M gv; e_field : gfield -> gv -> valuer -> M gv }.

Section level.
Context (E : engine).

Definition struct_fields (t : gty) : list gfield := match Deref t with TyStruct fs => fs | _ => [] end.

Fixpoint fields_loop (fs : list gfield) (vs : list gv) (m : valuer) : M (list gv) :=
  match fs, vs with
  | f :: fs, v :: vs => let! v := e_field E f v m in let! vs := fields_loop fs vs m in ret (v :: vs)
  | _, vs => ret vs
  end.

(** [unmarshalWithFullName] into a value of a struct type. *)
Definition unmarshalWithFullName (fs : list gfield) (m : valuer) (v : gv) : M gv :=
  match v with VStruct vs => let! vs := fields_loop fs vs m in ret (VStruct vs) | v => ret v end.

Definition fillStructElement (base : gty) (value : any) : M gv :=
  match value with
  | AMap loc => let! v := unmarshalWithFullName (struct_fields base) (SimpleValuer (MapValuer loc) None) (zero (Deref base)) in ret (wrap base v)
  | _ => err ErrTypeMismatch
  end.

(** [fieldType.Key()] panics on a pointer to a map. *)
Definition fillMap (t : gty) (loc : nat) : M gv := match t with TyMap elem => e_map E elem loc | _ => panic end.

(** Whether a boolean or a slice of the document can be assigned to a type, and as what. *)
Definition assign (a : any) (t : gty) : option gv :=
  match a, t with
  | ABool b, TyBool => Some (VBool b)
  | ANilList, TySlice TyAny => Some VNil
  | AList l, TySlice TyAny => Some (VSlice (VAny <$> l))
  | (ABool _ | ANilList | AList _), TyAny => Some (VAny a)
  | _, _ => None
  end.

(** An element of type [base]. *)
Definition fillSliceValue (base : gty) (baseKind : kind) (value : any) : M gv :=
  match value with
  | ANil => err ErrNilSliceElement
  | ANumber s | AString s => setValueFromString baseKind base s
  | AMap loc =>
      match kind_of (Deref base) with
      | KStruct => fillStructElement base value
      | KMap => fillMap base loc
      | _ => err ErrTypeMismatch
      end
  | _ => let! v := of_option (assign value (Deref base)) ErrTypeMismatch in ret (wrap base v)
  end.

Definition Elem (t : gty) : gty := match t with TyPtr t | TySlice t | TyMap t => t | _ => t end.

(** [value.Set(conv)] panics when the field is a pointer to a slice. *)
Definition set_slice (t : gty) (v : gv) : M gv := match t with TySlice _ => ret v | _ => panic end.

(** An element of a slice; a slice in the place of a pointer panics at its [Set]. *)
Definition slice_element (base : gty) (a : any) : M gv :=
  match a with
  | ANil => ret (zero base)
  | _ => match kind_of (Deref base) with
         | KStruct => fillStructElement base a
         | KSlice =>
             let! v := e_slice E (Deref base) (zero base) a in
             match base with TyPtr _ => match v with VNil => ret (zero base) | _ => panic end | _ => ret v end
         | k => fillSliceValue base k a
         end
  end.

Fixpoint slice_loop (base : gty) (l : list any) : M (list gv) :=
  match l with [] => ret [] | a :: l => let! v := slice_element base a in let! vs := slice_loop base l in ret (v :: vs) end.

Definition fillSlice (t : gty) (value : gv) (mapValue : any) : M gv :=
  match mapValue with
  | ANilList => ret value
  | AList [] => set_slice t (VSlice [])
  | AList l =>
      let! conv := slice_loop (Elem t) l in
      if existsb (fun a => match a with ANil => false | _ => true end) l then set_slice t (VSlice conv) else ret value
  | ANil => panic                                    (* [refValue.Type()] *)
  | _ => err ErrTypeMismatch
  end.

Fixpoint string_loop (base : gty) (l : list any) : M (list gv) :=
  match l with [] => ret [] | a :: l => let! v := fillSliceValue base (kind_of base) a in let! vs := string_loop base l in ret (v :: vs) end.

Definition fillSliceFromString (t : gty) (s : string) : M gv := fun h =>
  let '(slice, h) := json_any s h in
  match slice with
  | Some ANil => set_slice t (VSlice []) h
  | Some (AList l) => (let! conv := string_loop (Elem t) l in set_slice t (VSlice conv)) h
  | _ => (Err ErrParse, h)
  end.

(** The elements of a default; the cache of parsed defaults is keyed by the text. *)
Definition default_slice (t : gty) (dflt : string) : M any := fun h =>
  if decide (kind_of (Deref (Elem t)) = KString) then
    (Ok (match parseGroupedSegments dflt with [] => ANilList | l => AList (AString <$> l) end), h)
  else let '(slice, h) := json_any dflt h in (match slice with Some a => Ok a | None => Err ErrParse end, h).

Definition fillSliceWithDefault (t : gty) (value : gv) (dflt : string) : M gv := let! slice := default_slice t dflt in fillSlice t value slice.

(** [SetMapIndex] of a value in the place of a pointer panics. *)
Definition not_pointer {A} (t : gty) (a : A) : M A := match t with TyPtr _ => panic | _ => ret a end.

Definition setMapPrimitiveElement (elem : gty) (data : any) : M gv :=
  match data with
  | ABool b => if decide (kind_of (Deref elem) = KBool) then not_pointer elem (VBool b) else err ErrTypeMismatch
  | AString s => if decide (kind_of (Deref elem) = KString) then not_pointer elem (VString s) else err ErrTypeMismatch
  | ANumber s => let! v := convertTypeFromString (kind_of (Deref elem)) s in not_pointer elem v
  | _ => err ErrTypeMismatch
  end.

Definition map_element (elem : gty) (data : any) : M gv :=
  match kind_of (Deref elem) with
  | KSlice => let! v := e_slice E elem (zero (Deref elem)) data in not_pointer elem v
  | KStruct => fillStructElement elem data
  | KMap => match data with AMap loc => match elem with TyMap e => e_map E e loc | _ => panic end | _ => err ErrTypeMismatch end
  | _ => setMapPrimitiveElement elem data
  end.

Fixpoint map_loop (elem : gty) (m : list (string * any)) : M (list (string * gv)) :=
  match m with [] => ret [] | (k, a) :: m => let! v := map_element elem a in let! r := map_loop elem m in ret ((k, v) :: r) end.

(** A target of type [map[string]any] is the document's map itself. *)
Definition generateMap (elem : gty) (loc : nat) : M gv :=
  match elem with TyAny => ret (VShared loc) | _ => let! m := map_at loc in let! r := map_loop elem m in ret (VMap r) end.

(** ** Fields *)

Definition processFieldStringToSlice (t : gty) (a : any) (s : string) : M gv :=
  match kind_of (Elem t), a with
  | KInt Uint8, AString _ => match Base64 s with Some bs => set_slice t (VSlice (VInt <$> bs)) | None => fillSliceFromString t s end
  | _, _ => fillSliceFromString t s
  end.

(** [implementsUnmarshaler]: the methods have pointer receivers. *)
Definition json_method (t : gty) : option (string -> option gv) :=
  if String.eqb (u_key u) "json" then match t with TyPtr (TyOpaque n) => UnmarshalJSON n | _ => None end else None.

Definition processFieldFromString (t : gty) (value : gv) (a : any) (s : string) (o : opts) : M gv :=
  match Deref t with
  | TyMap _ => of_option (json_map t s) ErrParse
  | TySlice _ => processFieldStringToSlice t a s
  | TyDuration => match a with AString _ => fillDurationValue t s | _ => err ErrNotString end
  | TyOpaque _ =>
      match json_method t with
      | Some f => match a with AString _ => let! v := of_option (f s) ErrParse in ret (wrap t v) | _ => err ErrNotString end
      | None => processFieldPrimitive t value a o
      end
  | _ => processFieldPrimitive t value a o
  end.

Definition processFieldStruct (t : gty) (value : gv) (m : valuer) : M gv :=
  match t with
  | TyPtr _ => let! v := unmarshalWithFullName (struct_fields t) m (zero (Deref t)) in ret (wrap t v)
  | _ => unmarshalWithFullName (struct_fields t) m value
  end.

Definition processFieldNotFromString (t : gty) (value : gv) (a : any) (parent : option valuer) (o : opts) : M gv :=
  match a, kind_of (Deref t) with
  | (AString s | ANumber s), _ => processFieldFromString t value a s o
  | AMap loc, KStruct => processFieldStruct t value (SimpleValuer (MapValuer loc) parent)
  | (ANilList | AList _), KSlice => fillSlice t value a
  | AMap loc, KMap => fillMap t loc
  | _, _ => processFieldPrimitive t value a o
  end.

(** The tags of a field as [Tag.Get] and [Tag.Lookup] have them. *)
Definition tagged_of (f : gfield) : tagged := mkTagged (field_name f) (fun t => default "" (assoc t (field_tags f))).
Definition has_tags (f : gfield) : bool := match field_tags f with [] => false | _ => true end.
Definition lookup_tag (f : gfield) (t : string) : bool := bool_decide (is_Some (assoc t (field_tags f))).

Definition canonical (key : string) : string := match canonicalKey u with Some f => f key | None => key end.

(** The tags are parsed without their cache, and [m] is a valuer over a map of the document,
    whose [Value] changes nothing. *)
Definition parseOptionsWithContext (f : gfield) (m : valuer) : M (string * opts) := fun h =>
  match (parseKeyAndOptions ParseFloat (u_key u) (tagged_of f) ∅).1 with
  | None => (Panic, h)
  | Some (_, _, Some _) => (Err ErrTag, h)
  | Some (key, None, None) => (Ok (key, None), h)
  | Some (key, Some o, None) =>
      let key := canonical key in
      let o := if String.eqb (OptionalDep o) "" then o else o <| OptionalDep := canonical (OptionalDep o) |> in
      if fillDefault u then (Ok (key, Some (fo o)), h)
      else match toOptionsWithContext o key (fun k => match (Value m k h).1 with Ok (Some _) => true | _ => false end) with
           | inl c => (Ok (key, Some c), h)
           | inr _ => (Err ErrOptionalDep, h)
           end
  end.

(** The types as [structValueRequired] reads them. *)
Fixpoint stype_of (t : gty) : stype := match t with TyStruct fs => SStruct (sfield_of <$> fs) | TyOpaque _ => SStruct [] | _ => SOther end
with sfield_of (f : gfield) : sfield :=
  match f with
  | FNamed _ _ _ t => mkSField (tagged_of f) (has_tags f) (lookup_tag f) (stype_of t)
  | FEmbed _ _ ptr fs => mkSField (tagged_of f) (has_tags f) (lookup_tag f) (if ptr then SOther else SStruct (sfield_of <$> fs))
  end.

(** The package's empty map. *)
Definition emptyMap : nat := O.

Definition processNamedFieldWithoutValue (t : gty) (value : gv) (o : opts) : M gv :=
  match getDefault o with
  | Some dflt =>
      match Deref t with
      | TyDuration => fillDurationValue t dflt
      | TySlice _ => let! v := fillSliceWithDefault (Deref t) value dflt in match t, v with TyPtr _, VSlice _ => panic | _, _ => ret v end
      | _ => setValueFromString (kind_of (Deref t)) t dflt
      end
  | None =>
      let from_empty := processFieldNotFromString t value (AMap emptyMap) None o in
      if fillDefault u then
        match t with TyStruct _ | TyOpaque _ => from_empty | _ => ret value end
      else
        match kind_of (Deref t) with
        | KMap | KSlice => if optional o then ret value else from_empty
        | KStruct =>
            if optional o then ret value
            else match structRequired ParseFloat (u_key u) (stype_of (Deref t)) with
                 | None => err ErrTag
                 | Some true => err ErrNotSet
                 | Some false => from_empty
                 end
        | _ => if optional o then ret value else err ErrNotSet
        end
  end.

(** [processFieldTextUnmarshaler]: behind two pointers or more the value is made new, whether
    the type has the method or not. *)
Definition text_target (t : gty) (value : gv) : gv := match t with TyPtr (TyPtr _) => wrap t (zero (Deref t)) | _ => value end.
Definition text_method (t : gty) : option (string -> option gv) := match Deref t with TyOpaque n => UnmarshalText n | _ => None end.

Definition processNamedFieldWithValueFromString (t : gty) (a : any) (o : opts) : M gv :=
  match a with
  | AString s | ANumber s =>
      guard (match options o with [] => true | l => existsb (String.eqb s) l end) ErrOptions;; fillPrimitive t a o
  | _ => err ErrNotString
  end.

Definition processNamedFieldWithValue (t : gty) (value : gv) (a : any) (parent : valuer) (o : opts) : M gv :=
  match a with
  | ANil => if optional o then ret value else err ErrNil
  | _ =>
      let value := text_target t (maybeNewValue t value) in
      match text_method t, a with
      | Some f, AString s => let! v := of_option (f s) ErrParse in ret (wrap t v)
      | _, _ =>
          match kind_of (Deref t) with
          | KMap | KSlice | KStruct => processFieldNotFromString t value a (Some parent) o
          | _ =>
              if u_fromString u || fromString o then processNamedFieldWithValueFromString t a o
              else processFieldNotFromString t value a (Some parent) o
          end
      end
  end.

Definition applyFromArrayOption (t : gty) (a : any) : M any :=
  if negb (fromArray u) then ret a
  else match kind_of t with
       | KSlice => ret a
       | _ => match a with
              | ANil => panic                        (* [reflect.TypeOf(nil).Kind()] *)
              | AList (x :: _) => ret x
              | _ => ret a
              end
       end.

Definition processNamedField (f : gfield) (exported : bool) (t : gty) (value : gv) (m : valuer) : M gv :=
  if negb exported then ret value
  else
    let! ko := parseOptionsWithContext f m in
    let '(key, o) := ko in
    if String.eqb key "-" then ret value
    else
      let env := match o with Some o => if String.eqb (EnvVar o) "" then "" else Env (EnvVar o) | None => "" end in
      if negb (String.eqb env "") then processFieldWithEnvValue t value env o
      else
        let! a := getValue (createValuer m o) (canonical key) (opaqueKeys u) in
        if fillDefault u then guard (is_zero value) ErrNotZero;; processNamedFieldWithoutValue t value o
        else match a with
             | None => processNamedFieldWithoutValue t value o
             | Some a => let! a := applyFromArrayOption t a in processNamedFieldWithValue t value a m o
             end.

(** The loop of [processAnonymousStructFieldOptional]: the values, whether any field had one,
    and whether a required field had none. *)
Fixpoint embedded_loop (fs : list gfield) (vs : list gv) (m : valuer) : M (list gv * bool * bool) :=
  match fs, vs with
  | f :: fs, v :: vs =>
      let! ko := parseOptionsWithContext f m in
      let! a := getValue m ko.1 (opaqueKeys u) in
      let has := bool_decide (is_Some a) in
      let! v := if has then e_field E f v m else ret v in
      let! r := embedded_loop fs vs m in
      ret (v :: r.1.1, has || r.1.2, (negb (optional ko.2) && negb has) || r.2)
  | _, vs => ret (vs, false, false)
  end.

Definition struct_of (v : gv) (fs : list gfield) : list gv := match v with VStruct vs | VPtr (VStruct vs) => vs | _ => zero_field <$> fs end.
Definition embed (ptr : bool) (vs : list gv) : gv := if ptr then VPtr (VStruct vs) else VStruct vs.

Definition processAnonymousField (f : gfield) (ptr : bool) (fs : list gfield) (value : gv) (m : valuer) : M gv :=
  let! ko := parseOptionsWithContext f m in
  if String.eqb ko.1 "-" then ret value
  else if optional ko.2 then
    let! r := embedded_loop fs (struct_of value fs) m in
    let '(vs, filled, missing) := r in
    if filled then if missing then err ErrNotFullySet else ret (embed ptr vs) else ret value
  else let! vs := fields_loop fs (struct_of value fs) m in ret (embed ptr vs).

Definition processField (f : gfield) (value : gv) (m : valuer) : M gv :=
  if usingDifferentKeys (u_key u) (has_tags f) (lookup_tag f) && negb (negb (String.eqb (u_key u) "config") && lookup_tag f "config") then ret value
  else match f with
       | FNamed _ _ exported t => processNamedField f exported t value m
       | FEmbed _ _ ptr fs => processAnonymousField f ptr fs value m
       end.
End level.

Fixpoint engine_at (n : nat) : engine :=
  match n with
  | O => mkEngine (fun _ _ _ => deep) (fun _ _ => deep) (fun _ _ _ => deep)
  | S n => let E := engine_at n in mkEngine (fillSlice E) (generateMap E) (processField E)
  end.

(** How deep a type is. *)
Fixpoint depth (t : gty) : nat :=
  match t with
  | TyPtr t | TySlice t | TyMap t => S (depth t)
  | TyStruct fs => S (list_max (field_depth <$> fs))
  | _ => 1
  end
with field_depth (f : gfield) : nat :=
  match f with FNamed _ _ _ t => S (depth t) | FEmbed _ _ _ fs => S (list_max (field_depth <$> fs)) end.

(** [Unmarshal] of a document into a pointer to a value of type [t], itself not a pointer. *)
Definition Unmarshal (t : gty) (value : gv) (i : any) : M gv :=
  let E := engine_at (depth t) in
  match i, t with
  | AMap loc, TyStruct fs => unmarshalWithFullName E fs (SimpleValuer (MapValuer loc) None) value
  | AMap _, TyOpaque _ => ret value
  | AMap _, _ => err ErrTypeMismatch
  | (ANilList | AList _), TySlice _ => fillSlice E t value i
  | (ANilList | AList _), _ => err ErrTypeMismatch
  | _, _ => err ErrUnsupportedType
  end.
End unmarshal.

(** ** Termination *)

Definition nodeep {A} (m : M A) : Prop := forall h, (m h).1 <> Deep.

Lemma nodeep_ret {A} (a : A) : nodeep (ret a). Proof. done. Qed.
Lemma nodeep_err {A} e : nodeep (@err A e). Proof. done. Qed.
Lemma nodeep_panic {A} : nodeep (@panic A). Proof. done. Qed.
Lemma nodeep_guard b e : nodeep (guard b e). Proof. by destruct b. Qed.
Lemma nodeep_of_option {A} (o : option A) e : nodeep (of_option o e). Proof. by destruct o. Qed.
Lemma nodeep_map_at l : nodeep (map_at l). Proof. done. Qed.
Lemma nodeep_inherit a b : nodeep (inherit_entries a b). Proof. done. Qed.
Lemma nodeep_bind {A B} (m : M A) (f : A -> M B) : nodeep m -> (forall a, nodeep (f a)) -> nodeep (mbind m f).
Proof. intros Hm Hf h. unfold mbind. specialize (Hm h). destruct (m h) as [[a|e| |] h']; cbn in *; [apply Hf|done..]. Qed.
#[local] Hint Resolve nodeep_ret nodeep_err nodeep_panic nodeep_guard nodeep_of_option nodeep_map_at nodeep_inherit nodeep_bind : nodeep.

(** Splits a body at its binds and its matches. *)
Ltac nd := repeat (first [progress auto with nodeep | apply nodeep_bind; [|intros ?]
  | match goal with
    | |- nodeep (match ?x with _ => _ end) => destruct x eqn:?
    | |- nodeep (let '_ := ?x in _) => destruct x eqn:?
    end]).

Lemma Parent_smaller v p : Parent v = Some p -> (valuer_size p < valuer_size v)%nat.
Proof.
  revert p. induction v as [loc|c IHc [q|]|next q IHq|v IH]; intros p; cbn; try done.
  - intros [= <-]. cbn. assert (1 <= valuer_size c)%nat by (destruct c; cbn; lia). lia.
  - intros [= <-]. cbn. lia.
  - destruct (Parent v) as [q|] eqn:E; [|done]. intros [= <-]. cbn. specialize (IH q eq_refl). lia.
Qed.

Lemma Value_nodeep v key : nodeep (Value v key).
Proof.
  unfold Value. enough (forall n v, (valuer_size v <= n)%nat -> nodeep (value_fuel n v key)) by auto.
  assert (Hrec : forall c p, nodeep c -> (forall q, p = Some q -> nodeep q) -> nodeep (recursive_Value c p)).
  { intros c p Hc Hp. unfold recursive_Value. apply nodeep_bind; [done|]. intros [[]|]; destruct p as [q|]; auto with nodeep.
    apply nodeep_bind; [auto|]. intros [[]|]; auto with nodeep. }
  induction n as [|n IH]; intros [loc|c p|next p|w] Hn; cbn in Hn; try lia; cbn -[Parent].
  - unfold map_Value. auto with nodeep.
  - apply IH. lia.
  - apply Hrec; [unfold map_Value; auto with nodeep|]. cbn. intros q [= <-]. apply IH. cbn. lia.
  - apply Hrec; [apply IH; lia|]. intros q Hq. destruct (Parent (Inheriting w)) as [r|] eqn:E; [|done]. injection Hq as <-. apply IH.
    apply Parent_smaller in E. cbn in E. lia.
Qed.
#[local] Hint Resolve Value_nodeep : nodeep.

Lemma getValue_nodeep m key opaque : nodeep (getValue m key opaque).
Proof.
  unfold getValue. generalize (readKeys key opaque) as ks. intros ks. revert m. induction ks as [|k [|k' ks] IH]; intros m; cbn [getValueWithChainedKeys]; auto with nodeep.
  apply nodeep_bind; [auto with nodeep|]. intros [[]|]; auto with nodeep. apply IH.
Qed.
#[local] Hint Resolve getValue_nodeep : nodeep.

Lemma depth_pos t : (1 <= depth t)%nat. Proof. destruct t; cbn; lia. Qed.
Lemma Deref_depth t : (depth (Deref t) <= depth t)%nat.
Proof. induction t using gty_ind; cbn; lia. Qed.
Lemma Elem_depth t : (depth (Elem t) <= depth t)%nat. Proof. destruct t; cbn; lia. Qed.

Lemma fields_depth f fs : f ∈ fs -> (field_depth f <= list_max (field_depth <$> fs))%nat.
Proof.
  induction 1 as [f fs|f g fs _ IH]; change (list_max (field_depth <$> ?x :: ?l)) with (Nat.max (field_depth x) (list_max (field_depth <$> l))); lia.
Qed.

Lemma struct_fields_depth t f : f ∈ struct_fields t -> (field_depth f < depth t)%nat.
Proof.
  unfold struct_fields. pose proof (Deref_depth t) as H. destruct (Deref t) eqn:E; cbn; try (intros []%elem_of_nil). intros Hf%fields_depth.
  cbn [depth] in H. lia.
Qed.

Section termination.
Context (ParseFloat ParseFloat32 : string -> option float64).

(** What an engine of level [n] can do. *)
Record level_ok (n : nat) (E : engine) : Prop := {
  lo_slice : forall t v a, (S (depth (Elem t)) <= n)%nat -> nodeep (e_slice E t v a);
  lo_map : forall elem l, (S (depth elem) <= n)%nat -> nodeep (e_map E elem l);
  lo_field : forall f v m, (field_depth f <= n)%nat -> nodeep (e_field E f v m) }.

Context (n : nat) (E : engine) (HE : level_ok n E).
Notation convert := (convertTypeFromString ParseFloat ParseFloat32).

Lemma convert_nodeep k s : nodeep (convert k s).
Proof. destruct k; cbn; nd. Qed.
#[local] Hint Resolve convert_nodeep : nodeep.

Lemma fields_loop_nodeep fs vs m : (forall f, f ∈ fs -> (field_depth f <= n)%nat) -> nodeep (fields_loop E fs vs m).
Proof using HE.
  revert vs. induction fs as [|f fs IH]; intros [|v vs] H; cbn; auto with nodeep. apply nodeep_bind; [apply HE, H; left|]. intros a.
  apply nodeep_bind; [apply IH; intros g Hg; apply H; by right|]. auto with nodeep.
Qed.

Lemma struct_nodeep t m v : (depth t <= n)%nat -> nodeep (unmarshalWithFullName E (struct_fields t) m v).
Proof using HE.
  intros H. unfold unmarshalWithFullName. destruct v; auto with nodeep. apply nodeep_bind; [|auto with nodeep]. apply fields_loop_nodeep.
  intros f Hf%struct_fields_depth. lia.
Qed.

Lemma struct_element_nodeep t a : (depth t <= n)%nat -> nodeep (fillStructElement E t a).
Proof using HE. intros H. destruct a; cbn; auto with nodeep. apply nodeep_bind; [by apply struct_nodeep|auto with nodeep]. Qed.

Lemma fillMap_nodeep t l : (depth t <= n)%nat -> nodeep (fillMap E t l).
Proof using HE. intros H. destruct t; cbn; auto with nodeep. by apply HE. Qed.

Lemma slice_value_nodeep t k a : (depth t <= n)%nat -> nodeep (fillSliceValue ParseFloat ParseFloat32 E t k a).
Proof using HE.
  intros H. unfold fillSliceValue, setValueFromString. destruct a; nd; [by apply fillMap_nodeep|by apply struct_nodeep].
Qed.

Lemma string_loop_nodeep t l : (depth t <= n)%nat -> nodeep (string_loop ParseFloat ParseFloat32 E t l).
Proof using HE. intros H. induction l as [|a l IH]; cbn; auto with nodeep. apply nodeep_bind; [by apply slice_value_nodeep|auto with nodeep]. Qed.

Lemma slice_element_nodeep t a : (depth t <= n)%nat -> nodeep (slice_element ParseFloat ParseFloat32 E t a).
Proof using HE.
  intros H. pose proof (Deref_depth t) as HD. unfold slice_element. destruct a; auto with nodeep.
  all: destruct (Deref t) eqn:ED; cbn [kind_of]; try (by apply slice_value_nodeep); try (by apply struct_element_nodeep).
  all: cbn [depth] in HD; apply nodeep_bind; [apply HE; cbn [Elem]; lia|]; intros v; destruct t; auto with nodeep; destruct v; auto with nodeep.
Qed.

Lemma slice_loop_nodeep t l : (depth t <= n)%nat -> nodeep (slice_loop ParseFloat ParseFloat32 E t l).
Proof using HE. intros H. induction l as [|a l IH]; cbn -[slice_element]; auto with nodeep. apply nodeep_bind; [by apply slice_element_nodeep|auto with nodeep]. Qed.

Lemma fillSlice_nodeep t v a : (depth (Elem t) <= n)%nat -> nodeep (fillSlice ParseFloat ParseFloat32 E t v a).
Proof using HE.
  intros H. assert (HS : forall w, nodeep (set_slice t w)) by (intros w; unfold set_slice; destruct t; auto with nodeep).
  unfold fillSlice. destruct a as [| | | | |[|x l]|]; auto with nodeep. apply nodeep_bind; [by apply slice_loop_nodeep|]. intros c. destruct (existsb _ _); auto with nodeep.
Qed.

Lemma generateMap_nodeep t l : (depth t <= n)%nat -> nodeep (generateMap ParseFloat ParseFloat32 E t l).
Proof using HE.
  intros H. enough (HL : forall m, nodeep (map_loop ParseFloat ParseFloat32 E t m)) by (unfold generateMap; destruct t; auto with nodeep).
  assert (HP : forall A (a : A), nodeep (not_pointer t a)) by (intros A a; unfold not_pointer; destruct t; auto with nodeep).
  induction m as [|[k a] m IH]; cbn -[map_element]; auto with nodeep. apply nodeep_bind; [|auto with nodeep].
  unfold map_element, setMapPrimitiveElement. destruct (kind_of (Deref t)) eqn:K; try (by apply struct_element_nodeep); nd.
  - apply HE. destruct t; try discriminate K; cbn [Elem depth] in *; lia.
  - apply HE. cbn [depth] in H. lia.
Qed.

Context (to_float32 : float64 -> float64) (OverflowFloat32 : float64 -> bool).
Context (ParseDuration : string -> option Z) (Base64 : string -> option (list Z)).
Context (json_any : string -> heap -> option any * heap) (json_map : gty -> string -> option gv).
Context (UnmarshalText UnmarshalJSON : string -> option (string -> option gv)) (Env : string -> string) (u : Unmarshaler).

Lemma number_range_nodeep s o : nodeep (validateJsonNumberRange ParseFloat s o).
Proof. unfold validateJsonNumberRange. nd. Qed.
#[local] Hint Resolve number_range_nodeep : nodeep.

Lemma json_number_nodeep t v s o : nodeep (processFieldPrimitiveWithJSONNumber ParseFloat ParseFloat32 to_float32 OverflowFloat32 t v s o).
Proof. unfold processFieldPrimitiveWithJSONNumber. nd. Qed.
#[local] Hint Resolve json_number_nodeep : nodeep.

Lemma primitive_nodeep t v a o : nodeep (processFieldPrimitive ParseFloat ParseFloat32 to_float32 OverflowFloat32 t v a o).
Proof. unfold processFieldPrimitive, fillWithSameType. nd. Qed.
#[local] Hint Resolve primitive_nodeep : nodeep.

Lemma duration_nodeep t s : nodeep (fillDurationValue ParseDuration t s).
Proof. unfold fillDurationValue. nd. Qed.
#[local] Hint Resolve duration_nodeep : nodeep.

Lemma from_string_nodeep t s : (depth t <= n)%nat -> nodeep (fillSliceFromString ParseFloat ParseFloat32 json_any E t s).
Proof.
  intros H h. unfold fillSliceFromString. destruct (json_any s h) as [[a|] h']; [|done].
  assert (HS : forall w, nodeep (set_slice t w)) by (intros w; unfold set_slice; destruct t; auto with nodeep).
  destruct a; try done; [apply HS|]. apply nodeep_bind; [apply string_loop_nodeep; pose proof (Elem_depth t); lia|auto].
Qed.

Lemma not_from_string_nodeep t v a p o : (depth t <= n)%nat ->
  nodeep (processFieldNotFromString ParseFloat ParseFloat32 to_float32 OverflowFloat32 ParseDuration Base64 json_any json_map UnmarshalJSON u E t v a p o).
Proof.
  intros H. assert (HS : forall w, nodeep (set_slice t w)) by (intros w; unfold set_slice; destruct t; auto with nodeep).
  assert (HT : forall b s, nodeep (processFieldFromString ParseFloat ParseFloat32 to_float32 OverflowFloat32 ParseDuration Base64 json_any json_map UnmarshalJSON u E t v b s o)).
  { intros b s. unfold processFieldFromString, processFieldStringToSlice. pose proof (from_string_nodeep t s H) as HF. nd. }
  unfold processFieldNotFromString, processFieldStruct. pose proof (Elem_depth t) as HL.
  destruct a; auto; destruct (kind_of (Deref t)); auto with nodeep; try (apply fillSlice_nodeep; lia); try (by apply fillMap_nodeep).
  destruct t; try apply struct_nodeep; auto. apply nodeep_bind; [by apply struct_nodeep|auto with nodeep].
Qed.

Lemma parse_options_nodeep f m : nodeep (parseOptionsWithContext ParseFloat u f m).
Proof.
  intros h. unfold parseOptionsWithContext. destruct (parseKeyAndOptions _ _ _ _).1 as [[[k [o|]] [e|]]|]; try done.
  destruct (fillDefault u); [done|]. by destruct (toOptionsWithContext _ _ _).
Qed.
#[local] Hint Resolve parse_options_nodeep : nodeep.

Lemma without_value_nodeep t v o : (depth t <= n)%nat ->
  nodeep (processNamedFieldWithoutValue ParseFloat ParseFloat32 to_float32 OverflowFloat32 ParseDuration Base64 json_any json_map UnmarshalJSON u E t v o).
Proof.
  intros H. unfold processNamedFieldWithoutValue, setValueFromString.
  pose proof (not_from_string_nodeep t v (AMap emptyMap) None o H) as HN.
  assert (HD : forall d, nodeep (default_slice json_any (Deref t) d)).
  { intros d h. unfold default_slice. destruct (decide _); [done|]. by destruct (json_any d h) as [[]]. }
  pose proof (Deref_depth t). nd. apply fillSlice_nodeep. cbn [Elem depth] in *. lia.
Qed.

Lemma processField_nodeep f v m : (field_depth f <= S n)%nat ->
  nodeep (processField ParseFloat ParseFloat32 to_float32 OverflowFloat32 ParseDuration Base64 json_any json_map UnmarshalText UnmarshalJSON Env u E f v m).
Proof.
  intros H. unfold processField. destruct (_ && _); [auto with nodeep|]. destruct f as [name tags exported t|name tags ptr fs].
  - cbn [field_depth] in H. assert (Ht : (depth t <= n)%nat) by lia. unfold processNamedField, processFieldWithEnvValue, applyFromArrayOption, processNamedFieldWithValue, processNamedFieldWithValueFromString, fillPrimitive, setValueFromString.
    pose proof (fun v => not_from_string_nodeep t v) as HN. pose proof (fun v => without_value_nodeep t v) as HW. nd.
  - cbn [field_depth] in H. assert (HF : forall g, g ∈ fs -> (field_depth g <= n)%nat) by (intros g Hg%fields_depth; lia). unfold processAnonymousField.
    apply nodeep_bind; [auto with nodeep|]. intros [key o]. destruct (String.eqb _ _); [auto with nodeep|]. destruct (optional _).
    + apply nodeep_bind; [|intros [[vs []] []]; auto with nodeep]. generalize (struct_of v fs) as vs. clear H. induction fs as [|g fs IH]; intros [|w vs]; cbn; auto with nodeep.
      apply nodeep_bind; [auto with nodeep|]. intros ko. apply nodeep_bind; [auto with nodeep|]. intros a. apply nodeep_bind.
      { destruct (bool_decide _); [|auto with nodeep]. apply HE, HF. left. }
      intros w'. apply nodeep_bind; [|auto with nodeep]. apply IH. intros g' Hg'. apply HF. by right.
    + apply nodeep_bind; [by apply fields_loop_nodeep|auto with nodeep].
Qed.
End termination.

(** ** Properties *)

Section properties.
Context (ParseFloat ParseFloat32 : string -> option float64) (to_float32 : float64 -> float64) (OverflowFloat32 : float64 -> bool).
Context (ParseDuration : string -> option Z) (Base64 : string -> option (list Z)).
Context (json_any : string -> heap -> option any * heap) (json_map : gty -> string -> option gv).
Context (UnmarshalText UnmarshalJSON : string -> option (string -> option gv)) (Env : string -> string) (u : Unmarshaler).
Notation at_level := (engine_at ParseFloat ParseFloat32 to_float32 OverflowFloat32 ParseDuration Base64 json_any json_map UnmarshalText UnmarshalJSON Env u).
Notation unmarshal := (Unmarshal ParseFloat ParseFloat32 to_float32 OverflowFloat32 ParseDuration Base64 json_any json_map UnmarshalText UnmarshalJSON Env u).

Lemma engine_ok n : level_ok n (at_level n).
Proof.
  induction n as [|n IH].
  - split; [lia..|]. intros f v m H. destruct f; cbn in H; lia.
  - split; cbn [engine_at e_slice e_map e_field]; intros.
    + by apply (fillSlice_nodeep _ _ n); [|lia].
    + by apply (generateMap_nodeep _ _ n); [|lia].
    + by apply (processField_nodeep _ _ n).
Qed.

(** Decoding into a type that does not contain itself ends: whatever the target, the
    document - cyclic maps included - and the options, the recursion is never deeper than
    the type. *)
Theorem unmarshal_ends (t : gty) (value : gv) (i : any) (h : heap) : (unmarshal t value i h).1 <> Deep.
Proof.
  revert h. change (nodeep (unmarshal t value i)). pose proof (engine_ok (depth t)) as HE. unfold Unmarshal.
  destruct i; auto with nodeep; destruct t; auto with nodeep; try by apply (fillSlice_nodeep _ _ _ _ HE); cbn [Elem depth]; lia.
  by apply (struct_nodeep _ _ HE (TyStruct fs)).
Qed.
End properties.

(** ** Documents of values *)

Definition all2 {A B} (P : A -> B -> Prop) : list A -> list B -> Prop :=
  fix go l k := match l, k with [], [] => True | a :: l, b :: k => P a b /\ go l k | _, _ => False end.

(** What may be behind a pointer, in a slice and in a map. *)
Definition behind (t : gty) : bool :=
  match t with TyBool | TyInt _ | TyDuration | TyFloat64 | TyString | TyStruct _ | TyOpaque _ => true | _ => false end.
Definition in_slice (t : gty) : bool :=
  match t with
  | TyBool | TyInt _ | TyFloat64 | TyString | TySlice _ | TyMap _ | TyStruct _ => true
  | TyPtr t => match t with TyBool | TyInt _ | TyFloat64 | TyString | TyStruct _ => true | _ => false end
  | _ => false
  end.
Definition in_map (t : gty) : bool :=
  match t with
  | TyBool | TyInt _ | TyFloat64 | TyString | TySlice _ | TyMap _ | TyStruct _ | TyPtr (TyStruct _) => true
  | _ => false
  end.

(** Options that neither change nor check a value. *)
Definition plain_options (o : option fieldOptions) : Prop :=
  match o with
  | None => True
  | Some o => OptionalDep o = "" /\ Inherit (fo o) = false /\ FromString (fo o) = false /\ EnvVar (fo o) = "" /\ Options (fo o) = [] /\ Range (fo o) = None
  end.
Definition may_be_absent (o : option fieldOptions) : Prop := match o with Some o => Optional (fo o) = true /\ fo_Default (fo o) = "" | None => False end.

Section documents.
Context (ParseFloat : string -> option float64) (ParseDuration : string -> option Z) (UnmarshalText : string -> option (string -> option gv)).
Context (key : string) (h : heap).

(** A field the decoder looks at, and what its tag says. *)
Definition reads (f : gfield) (k : string) (o : option fieldOptions) : Prop :=
  (has_tags f = false \/ lookup_tag f key = true) /\ (parseKeyAndOptions ParseFloat key (tagged_of f) ∅).1 = Some (k, o, None) /\
  plain_options o /\ k <> "-" /\ k <> "" /\ absent "." k = true.

(** [a] is the document of [v] in the heap [h]. *)
Fixpoint encodes (t : gty) (v : gv) (a : any) {struct t} : Prop :=
  match t with
  | TyBool => exists b, v = VBool b /\ a = ABool b
  | TyInt k => exists z, v = VInt z /\ a = ANumber (pretty z) /\ fits k z
  | TyDuration => exists d s, v = VInt d /\ a = AString s /\ ParseDuration s = Some d
  | TyFloat64 => exists f s, v = VFloat f /\ a = ANumber s /\ ParseFloat s = Some f
  | TyString => exists s, v = VString s /\ a = AString s
  | TyOpaque n => exists f s, UnmarshalText n = Some f /\ a = AString s /\ f s = Some v
  | TyPtr t => behind t = true /\ exists w, v = VPtr w /\ encodes t w a
  | TySlice t => in_slice t = true /\ exists l la, v = VSlice l /\ a = AList la /\ all2 (encodes t) l la
  | TyMap t =>
      match t with
      | TyAny => exists loc, v = VShared loc /\ a = AMap loc
      | _ => in_map t = true /\ exists m loc ma, v = VMap m /\ a = AMap loc /\ h !! loc = Some ma /\ all2 (fun kv ka => kv.1 = ka.1 /\ encodes t kv.2 ka.2) m ma
      end
  | TyStruct fs => exists vs loc m, v = VStruct vs /\ a = AMap loc /\ h !! loc = Some m /\ all2 (encodes_field m) fs vs
  | TyFloat32 | TyAny => False
  end
with encodes_field (m : list (string * any)) (f : gfield) (v : gv) {struct f} : Prop :=
  match f with
  | FNamed _ _ exported t =>
      if exported then
        exists k o, reads f k o /\ match assoc k m with Some a => encodes t v a | None => may_be_absent o /\ v = zero t end
      else v = zero t
  | FEmbed _ _ ptr fs => exists k, reads f k None /\ exists vs, v = embed ptr vs /\ all2 (encodes_field m) fs vs
  end.
End documents.

(** Numbers are read back. *)
Lemma parseIntBits_pretty (k : intKind) (z : Z) : fits k z -> parseIntBits k (pretty z) = Some z.
Proof.
  intros F. assert (HN : forall z, 0 <= z -> pretty z = pretty (Z.to_N z)) by (intros [|p|p] ?; [done|done|lia]).
  assert (B : bits k - 1 <= 63 /\ 0 <= bits k - 1 /\ bits k <= 64) by (destruct k; cbn; lia). pose proof (Z.pow_le_mono_r 2 (bits k - 1) 63) as P1. pose proof (Z.pow_le_mono_r 2 (bits k) 64) as P2.
  unfold parseIntBits, fits in *. destruct (is_signed k).
  - destruct (Z_lt_le_dec z 0) as [L|L].
    + destruct z as [|p|p]; [lia..|]. change (pretty (Z.neg p)) with (String "-" (pretty (N.pos p))). cbn [ParseInt]. cbn -[ParseUint pretty Z.pow].
      rewrite ParseUint_pretty by (unfold maxUint64; lia). cbn [negb andb]. destruct (Z.ltb_spec (2^63) (Z.of_N (N.pos p))); [lia|].
      destruct (Z.leb_spec (- 2 ^ (bits k - 1)) (- Z.of_N (N.pos p))); [|lia]. destruct (Z.ltb_spec (- Z.of_N (N.pos p)) (2 ^ (bits k - 1))); [done|lia].
    + rewrite HN, ParseInt_pretty by lia. rewrite Z2N.id by lia. destruct (Z.leb_spec (- 2 ^ (bits k - 1)) z); [|lia]. by destruct (Z.ltb_spec z (2 ^ (bits k - 1))); [|lia].
  - rewrite HN, ParseUint_pretty by (unfold maxUint64; lia). rewrite Z2N.id by lia. by destruct (Z.ltb_spec z (2 ^ bits k)); [|lia].
Qed.

(** ** Reading documents back *)

Definition plain_unmarshaler (u : Unmarshaler) : Prop :=
  fillDefault u = false /\ fromArray u = false /\ u_fromString u = false /\ canonicalKey u = None.

Section roundtrip.
Context (ParseFloat ParseFloat32 : string -> option float64) (to_float32 : float64 -> float64) (OverflowFloat32 : float64 -> bool).
Context (ParseDuration : string -> option Z) (Base64 : string -> option (list Z)).
Context (json_any : string -> heap -> option any * heap) (json_map : gty -> string -> option gv).
Context (UnmarshalText UnmarshalJSON : string -> option (string -> option gv)) (Env : string -> string) (u : Unmarshaler).
Context (plain : plain_unmarshaler u) (h : heap).
Notation enc := (encodes ParseFloat ParseDuration UnmarshalText (u_key u) h).
Notation enc_field := (encodes_field ParseFloat ParseDuration UnmarshalText (u_key u) h).

(** Calls that read values back and leave the heap as it is. *)
Record reads_back (n : nat) (E : engine) : Prop := {
  rb_slice : forall t v a old, (S (depth t) <= n)%nat -> enc (TySlice t) v a -> e_slice E (TySlice t) old a h = (Ok v, h);
  rb_map : forall t v loc, (S (depth t) <= n)%nat -> enc (TyMap t) v (AMap loc) -> e_map E t loc h = (Ok v, h);
  rb_field : forall f v loc m p, (field_depth f <= n)%nat -> h !! loc = Some m -> enc_field m f v ->
    e_field E f (zero_field f) (SimpleValuer (MapValuer loc) p) h = (Ok v, h) }.

Context (n : nat) (E : engine) (HE : reads_back n E).

Lemma bind_ok {A B} (m : M A) (f : A -> M B) a r : m h = (Ok a, h) -> f a h = r -> mbind m f h = r.
Proof. unfold mbind. by intros -> <-. Qed.

Lemma fields_back fs vs loc m p : (forall f, f ∈ fs -> (field_depth f <= n)%nat) -> h !! loc = Some m -> all2 (enc_field m) fs vs ->
  fields_loop E fs (zero_field <$> fs) (SimpleValuer (MapValuer loc) p) h = (Ok vs, h).
Proof.
  intros D Hm. revert vs. induction fs as [|f fs IH]; intros [|v vs] A; cbn in A; try done. destruct A as [A1 A2].
  cbn [fields_loop fmap list_fmap]. eapply bind_ok; [apply (rb_field _ _ HE) with m; [apply D; left|done|done]|]. eapply bind_ok; [apply IH; [|done]|done].
  intros g Hg. apply D. by right.
Qed.

Lemma struct_back fs v a p : (depth (TyStruct fs) <= n)%nat -> enc (TyStruct fs) v a -> exists loc, a = AMap loc /\
  unmarshalWithFullName E fs (SimpleValuer (MapValuer loc) p) (zero (TyStruct fs)) h = (Ok v, h).
Proof.
  intros D (vs & loc & m & -> & -> & Hm & A). exists loc. split; [done|]. cbn [zero unmarshalWithFullName]. eapply bind_ok; [|done].
  apply fields_back with m; [|done|done]. intros f Hf%fields_depth. cbn [depth] in D. lia.
Qed.

(** The value of a struct or of a pointer to one, from a map. *)
Lemma struct_element_back t v a : (depth t <= n)%nat -> (match t with TyStruct _ | TyPtr (TyStruct _) => true | _ => false end) = true -> enc t v a ->
  fillStructElement E t a h = (Ok v, h).
Proof.
  intros D S He. destruct t as [| | | | | | |t| | |fs|]; try discriminate S.
  - destruct t as [| | | | | | | | | |fs|]; try discriminate S. destruct He as (_ & w & -> & He). cbn [depth] in D.
    destruct (struct_back fs w a None) as (loc & -> & H); [cbn [depth]; lia|done|]. cbn [fillStructElement]. by eapply bind_ok.
  - destruct (struct_back fs v a None) as (loc & -> & H); [done..|]. cbn [fillStructElement]. by eapply bind_ok.
Qed.

(** Booleans, numbers and strings, also behind a pointer. *)
Lemma int_back k z : fits k z -> convertTypeFromString ParseFloat ParseFloat32 (KInt k) (pretty z) h = (Ok (VInt z), h).
Proof. intros F. cbn [convertTypeFromString]. by rewrite parseIntBits_pretty. Qed.
Lemma float_back f s : ParseFloat s = Some f -> convertTypeFromString ParseFloat ParseFloat32 KFloat64 s h = (Ok (VFloat f), h).
Proof. intros F. cbn [convertTypeFromString]. by rewrite F. Qed.

Definition scalar (t : gty) : bool := match t with TyBool | TyInt _ | TyFloat64 | TyString => true | _ => false end.

Lemma scalar_slice_value t v a w : scalar t = true -> enc t v a -> w = t \/ w = TyPtr t ->
  fillSliceValue ParseFloat ParseFloat32 E w (kind_of t) a h = (Ok (wrap w v), h) /\ a <> ANil.
Proof.
  intros S He Hw. destruct t as [|k| | | | | | | | | |]; try discriminate S; cbn in He; unfold fillSliceValue, setValueFromString.
  - destruct He as (b & -> & ->). split; [|done]. by destruct Hw as [-> | ->].
  - destruct He as (z & -> & -> & F). split; [|done]. eapply bind_ok; [by apply int_back|done].
  - destruct He as (f & s & -> & -> & F). split; [|done]. eapply bind_ok; [by apply float_back|done].
  - by destruct He as (s & -> & ->).
Qed.

Lemma slice_element_back t v a : (depth t <= n)%nat -> in_slice t = true -> enc t v a -> slice_element ParseFloat ParseFloat32 E t a h = (Ok v, h) /\ a <> ANil.
Proof.
  intros D S He.
  assert (HS : forall w, Deref t = w -> scalar w = true -> t = w \/ t = TyPtr w -> forall x, v = wrap t x -> enc w x a -> slice_element ParseFloat ParseFloat32 E t a h = (Ok v, h) /\ a <> ANil).
  { intros w Dt S1 S2 x -> Hx. destruct (scalar_slice_value w x a t S1 Hx S2) as [H N]. split; [|done]. rewrite <- H. unfold slice_element. rewrite Dt.
    destruct w; try discriminate S1; cbn [kind_of]; by destruct a. }
  assert (HT : (match t with TyStruct _ | TyPtr (TyStruct _) => true | _ => false end) = true -> slice_element ParseFloat ParseFloat32 E t a h = (Ok v, h) /\ a <> ANil).
  { intros S1. pose proof (struct_element_back t v a D S1 He) as H. destruct a; try discriminate H. split; [|done]. rewrite <- H. unfold slice_element.
    destruct t as [| | | | | | |[]| | | |]; try discriminate S1; done. }
  destruct t as [| | | | | | |w|w|w| |]; try discriminate S; try exact (HS _ eq_refl eq_refl (or_introl eq_refl) v eq_refl He); try (by apply HT).
  - destruct w; try discriminate S; try (by apply HT); destruct He as (_ & x & -> & He); exact (HS _ eq_refl eq_refl (or_intror eq_refl) x eq_refl He).
  - pose proof He as (_ & l & la & -> & -> & _). split; [|done]. cbn [slice_element Deref kind_of]. eapply bind_ok; [by apply (rb_slice _ _ HE)|done].
  - assert (exists loc, a = AMap loc) as [loc ->] by (cbn in He; destruct w; naive_solver). split; [|done]. cbn. by apply (rb_map _ _ HE).
Qed.

Lemma slice_loop_back t l la : (depth t <= n)%nat -> in_slice t = true -> all2 (enc t) l la ->
  slice_loop ParseFloat ParseFloat32 E t la h = (Ok l, h) /\ Forall (fun a => a <> ANil) la.
Proof.
  intros D S. revert la. induction l as [|v l IH]; intros [|a la] A; cbn in A; try done. destruct A as [A1 A2]. destruct (IH la A2) as [H N].
  destruct (slice_element_back t v a D S A1) as [H1 N1]. split; [|by constructor]. cbn [slice_loop]. eapply bind_ok; [done|]. by eapply bind_ok.
Qed.

Lemma fillSlice_back t v a old : (depth t <= n)%nat -> enc (TySlice t) v a -> fillSlice ParseFloat ParseFloat32 E (TySlice t) old a h = (Ok v, h).
Proof.
  intros D (S & l & la & -> & -> & A). destruct (slice_loop_back t l la D S A) as [H N]. destruct la as [|a la].
  - destruct l; [done|by cbn in A].
  - cbn [fillSlice Elem]. eapply bind_ok; [done|]. inversion N as [|? ? Na _]; subst. cbn [existsb]. by destruct a.
Qed.

Lemma map_element_back t v a : (depth t <= n)%nat -> in_map t = true -> enc t v a -> map_element ParseFloat ParseFloat32 E t a h = (Ok v, h).
Proof.
  intros D S He. destruct t as [|k| | | | | |w|w|w| |]; try discriminate S; unfold map_element; cbn [Deref kind_of].
  - destruct He as (b & -> & ->). done.
  - destruct He as (z & -> & -> & F). cbn [setMapPrimitiveElement]. eapply bind_ok; [by apply int_back|done].
  - destruct He as (f & s & -> & -> & F). cbn [setMapPrimitiveElement]. eapply bind_ok; [by apply float_back|done].
  - destruct He as (s & -> & ->). done.
  - destruct w; try discriminate S. by apply struct_element_back.
  - eapply bind_ok; [by apply (rb_slice _ _ HE)|done].
  - assert (exists loc, a = AMap loc) as [loc ->] by (cbn in He; destruct w; naive_solver). by apply (rb_map _ _ HE).
  - by apply struct_element_back.
Qed.

Lemma generateMap_back t v loc : (depth t <= n)%nat -> enc (TyMap t) v (AMap loc) -> generateMap ParseFloat ParseFloat32 E t loc h = (Ok v, h).
Proof.
  intros D He. assert (HL : in_map t = true -> forall m ma, all2 (fun kv ka => kv.1 = ka.1 /\ enc t kv.2 ka.2) m ma -> map_loop ParseFloat ParseFloat32 E t ma h = (Ok m, h)).
  { intros S. induction m as [|[k w] m IH]; intros [|[k' a] ma] A; cbn in A; try done. destruct A as [[-> A1] A2]. cbn [map_loop].
    eapply bind_ok; [by apply map_element_back|]. eapply bind_ok; [by apply IH|done]. }
  cbn [encodes] in He. destruct t; try (by destruct He as (l & -> & [= ->])); destruct He as (S & m & loc' & ma & -> & [= ->] & Hm & A);
    unfold generateMap; (eapply bind_ok; [unfold map_at; rewrite Hm; done|]); (eapply bind_ok; [by apply HL|done]).
Qed.

(** *** Fields *)

Definition quiet (o : opts) : Prop := match o with None => True | Some o => Inherit o = false /\ FromString o = false /\ EnvVar o = "" /\ Options o = [] /\ Range o = None end.

Lemma options_back f k o m : reads ParseFloat (u_key u) f k o -> parseOptionsWithContext ParseFloat u f m h = (Ok (k, fo <$> o), h) /\ quiet (fo <$> o).
Proof.
  destruct plain as (P1 & P2 & P3 & P4). intros (_ & Hp & Po & _). unfold parseOptionsWithContext. rewrite Hp. destruct o as [o|]; [|done]. destruct Po as (H1 & H2).
  split; [|done]. unfold canonical. rewrite P4, P1, H1. cbn [String.eqb]. unfold toOptionsWithContext. rewrite H1. by destruct (Optional (fo o)) eqn:O; cbn; rewrite ?O.
Qed.

Lemma Split_absent c s : absent c s = true -> Split s c = [s].
Proof. intros H. rewrite Split_SplitN2, SplitN2_absent by exact H. done. Qed.

Lemma getValue_back loc m p o k : h !! loc = Some m -> quiet o -> k <> "" -> absent "." k = true ->
  getValue (createValuer (SimpleValuer (MapValuer loc) p) o) k (opaqueKeys u) h = (Ok (assoc k m), h).
Proof.
  intros Hm Q N A. assert (K : readKeys k (opaqueKeys u) = [k]).
  { unfold readKeys. destruct (opaqueKeys u); [done|]. rewrite Split_absent by done. cbn. by destruct (String.eqb_spec k ""). }
  unfold getValue. rewrite K. assert (I : inherit o = false) by (destruct o as [o|]; [apply Q|done]). unfold createValuer. rewrite I.
  cbn. unfold map_Value, mbind, map_at. by rewrite Hm.
Qed.

Notation not_from_string := (processFieldNotFromString ParseFloat ParseFloat32 to_float32 OverflowFloat32 ParseDuration Base64 json_any json_map UnmarshalJSON u E).
Notation with_value := (processNamedFieldWithValue ParseFloat ParseFloat32 to_float32 OverflowFloat32 ParseDuration Base64 json_any json_map UnmarshalText UnmarshalJSON u E).

(** A scalar, a duration or an opaque value, also behind a pointer. *)
Lemma simple_back t w v a m o old : behind t = true -> (match t with TyStruct _ => false | _ => true end) = true -> w = t \/ w = TyPtr t -> quiet o -> enc t v a ->
  with_value w old a m o h = (Ok (wrap w v), h).
Proof.
  destruct plain as (P1 & P2 & P3 & P4). intros B NS Hw Q He. assert (HD : Deref w = t) by (destruct Hw as [-> | ->]; by destruct t).
  assert (HF : fromString o = false /\ options o = [] /\ range_of o = None) by (destruct o as [o|]; [|done]; cbn; naive_solver). destruct HF as (F1 & F2 & F3).
  assert (HM : match t with TyOpaque _ => False | _ => True end -> text_method UnmarshalText w = None) by (unfold text_method; rewrite HD; by destruct t).
  assert (HN : a <> ANil) by (destruct t; try discriminate B; try discriminate NS; cbn in He; naive_solver).
  unfold processNamedFieldWithValue. destruct t as [|k| | | | | | | | | |name]; try discriminate B; try discriminate NS; cbn in He.
  - destruct He as (b & -> & ->). rewrite (HM I). rewrite HD, P3, F1. cbn [kind_of orb]. unfold processFieldNotFromString, processFieldPrimitive. rewrite HD. cbn.
    unfold fillWithSameType, validateValueRange. rewrite F2, F3. done.
  - destruct He as (z & -> & -> & F). rewrite (HM I). rewrite HD, P3, F1. cbn [kind_of orb]. unfold processFieldNotFromString, processFieldFromString, processFieldPrimitive, processFieldPrimitiveWithJSONNumber, validateJsonNumberRange. rewrite HD, F3, F2.
    eapply bind_ok; [done|]. eapply bind_ok; [done|]. cbn [kind_of]. eapply bind_ok; [by apply int_back|done].
  - destruct He as (d & s & -> & -> & F). rewrite (HM I). rewrite HD, P3, F1. cbn [kind_of orb]. unfold processFieldNotFromString, processFieldFromString. rewrite HD.
    unfold fillDurationValue. rewrite F. done.
  - destruct He as (f & s & -> & -> & F). rewrite (HM I). rewrite HD, P3, F1. cbn [kind_of orb]. unfold processFieldNotFromString, processFieldFromString, processFieldPrimitive, processFieldPrimitiveWithJSONNumber, validateJsonNumberRange. rewrite HD, F3, F2.
    eapply bind_ok; [done|]. eapply bind_ok; [done|]. cbn [kind_of]. eapply bind_ok; [by rewrite F|done].
  - destruct He as (s & -> & ->). rewrite (HM I). rewrite HD, P3, F1. cbn [kind_of orb]. unfold processFieldNotFromString, processFieldFromString, processFieldPrimitive. rewrite HD. cbn.
    unfold fillWithSameType, validateValueRange. rewrite F2, F3. done.
  - destruct He as (f & s & Ht & -> & F). unfold text_method. rewrite HD, Ht. eapply bind_ok; [by rewrite F|done].
Qed.

Lemma with_value_back t v a m o : (depth t <= n)%nat -> quiet o -> enc t v a -> with_value t (zero t) a m o h = (Ok v, h).
Proof.
  intros D Q He. destruct t as [|k| | | | | |w|w|w|fs|name]; try (by destruct He); try (match type of He with enc ?t _ _ => exact (simple_back t t v a m o _ eq_refl eq_refl (or_introl eq_refl) Q He) end).
  - destruct He as (B & x & -> & He). destruct w as [| | | | | | | | | |fs|]; try discriminate B; try (match type of He with enc ?t _ _ => exact (simple_back t (TyPtr t) x a m o VNil eq_refl eq_refl (or_intror eq_refl) Q He) end).
    cbn [depth] in D. destruct (struct_back fs x a (Some m)) as (loc & -> & H); [cbn [depth]; lia|done|]. cbn -[zero]. eapply bind_ok; [exact H|done].
  - pose proof He as (_ & l & la & -> & -> & _). cbn -[fillSlice]. apply fillSlice_back; [cbn [depth] in D; lia|done].
  - assert (exists loc, a = AMap loc) as [loc ->] by (cbn in He; destruct w; naive_solver). cbn. by apply (rb_map _ _ HE).
  - destruct (struct_back fs v a (Some m)) as (loc & -> & H); [done..|]. cbn -[zero]. exact H.
Qed.

Notation process := (processField ParseFloat ParseFloat32 to_float32 OverflowFloat32 ParseDuration Base64 json_any json_map UnmarshalText UnmarshalJSON Env u E).

Lemma processed f v m k o : reads ParseFloat (u_key u) f k o ->
  process f v m = match f with
                  | FNamed _ _ exported t => processNamedField ParseFloat ParseFloat32 to_float32 OverflowFloat32 ParseDuration Base64 json_any json_map UnmarshalText UnmarshalJSON Env u E f exported t v m
                  | FEmbed _ _ ptr fs => processAnonymousField ParseFloat u E f ptr fs v m
                  end.
Proof. intros (H & _). unfold processField, usingDifferentKeys. destruct H as [-> | ->]; [done|]. by rewrite andb_false_r. Qed.

Lemma processField_back f v loc m p : (field_depth f <= S n)%nat -> h !! loc = Some m -> enc_field m f v ->
  process f (zero_field f) (SimpleValuer (MapValuer loc) p) h = (Ok v, h).
Proof.
  destruct plain as (P1 & P2 & P3 & P4). intros D Hm He. destruct f as [name tags exported t|name tags ptr fs].
  - cbn [encodes_field] in He. destruct exported.
    2:{ subst v. unfold processField. by destruct (_ && _). }
    destruct He as (k & o & R & He). rewrite (processed _ _ _ _ _ R). destruct (options_back _ _ _ (SimpleValuer (MapValuer loc) p) R) as [Ho Q].
    pose proof R as (_ & _ & Po & N1 & N2 & A). unfold processNamedField. cbn [negb]. eapply bind_ok; [exact Ho|]. cbn beta iota.
    destruct (String.eqb_spec k "-"); [done|].
    assert (Henv : (match fo <$> o with Some o => if String.eqb (EnvVar o) "" then "" else Env (EnvVar o) | None => "" end) = "").
    { destruct o as [o|]; [|done]. cbn. destruct Po as (_ & _ & _ & -> & _). done. }
    rewrite Henv. cbn [String.eqb negb]. unfold canonical. rewrite P4. eapply bind_ok; [by apply getValue_back|]. cbn beta. rewrite P1.
    destruct (assoc k m) as [a|].
    + eapply bind_ok; [unfold applyFromArrayOption; rewrite P2; done|]. apply with_value_back; [cbn [field_depth] in D; lia|done|done].
    + destruct He as [HO ->]. unfold may_be_absent in HO. destruct o as [o|]; [|done]. destruct HO as [O1 O2]. unfold processNamedFieldWithoutValue. cbn [fmap option_fmap option_map getDefault optional].
      rewrite O2. cbn [String.eqb]. rewrite P1, O1. by destruct (kind_of (Deref t)).
  - destruct He as (k & R & vs & -> & A). rewrite (processed _ _ _ _ _ R). destruct (options_back _ _ _ (SimpleValuer (MapValuer loc) p) R) as [Ho _].
    pose proof R as (_ & _ & _ & N1 & _). unfold processAnonymousField. eapply bind_ok; [exact Ho|]. cbn [fst snd fmap option_fmap option_map optional].
    destruct (String.eqb_spec k "-"); [done|].
    assert (Hz : struct_of (zero_field (FEmbed name tags ptr fs)) fs = zero_field <$> fs) by by destruct ptr. rewrite Hz.
    eapply bind_ok; [apply fields_back with m; [|done|exact A]|done]. intros g Hg%fields_depth. cbn [field_depth] in D. lia.
Qed.
End roundtrip.

Section read_back.
Context (ParseFloat ParseFloat32 : string -> option float64) (to_float32 : float64 -> float64) (OverflowFloat32 : float64 -> bool).
Context (ParseDuration : string -> option Z) (Base64 : string -> option (list Z)).
Context (json_any : string -> heap -> option any * heap) (json_map : gty -> string -> option gv).
Context (UnmarshalText UnmarshalJSON : string -> option (string -> option gv)) (Env : string -> string) (u : Unmarshaler).
Notation at_level := (engine_at ParseFloat ParseFloat32 to_float32 OverflowFloat32 ParseDuration Base64 json_any json_map UnmarshalText UnmarshalJSON Env u).
Notation unmarshal := (Unmarshal ParseFloat ParseFloat32 to_float32 OverflowFloat32 ParseDuration Base64 json_any json_map UnmarshalText UnmarshalJSON Env u).

Lemma engine_back h n : plain_unmarshaler u -> reads_back ParseFloat ParseDuration UnmarshalText u h n (at_level n).
Proof.
  intros P. induction n as [|n IH].
  - split; [lia..|]. intros f v loc m p H. destruct f; cbn in H; lia.
  - split; cbn [engine_at e_slice e_map e_field]; intros.
    + eapply fillSlice_back; first [exact IH|lia|eassumption|assumption].
    + eapply generateMap_back; first [exact IH|lia|eassumption|assumption].
    + eapply processField_back; first [exact IH|exact P|eassumption|assumption].
Qed.

(** C14: what is written down is read back.  A document of a value - of a struct, with its embedded
    structs, pointers, slices, maps, durations and optional fields - is decoded into that value by
    an unmarshaler without special options, and the document stays as it is. *)
Theorem documents_read_back (h : heap) (t : gty) (v : gv) (a : any) :
  plain_unmarshaler u -> match t with TyStruct _ | TySlice _ => True | _ => False end -> encodes ParseFloat ParseDuration UnmarshalText (u_key u) h t v a ->
  unmarshal t (zero t) a h = (Ok v, h).
Proof.
  intros P Ht He. pose proof (engine_back h (depth t) P) as HE. unfold Unmarshal. destruct t as [| | | | | | | |w| |fs|]; try done.
  - pose proof He as (_ & l & la & -> & -> & _). eapply fillSlice_back; first [exact HE|exact He|cbn [depth]; lia|assumption].
  - edestruct struct_back with (fs := fs) (v := v) (a := a) (p := @None valuer) as (loc & -> & H); [..|exact H]; first [exact HE|exact He|assumption|done].
Qed.
End read_back.

(** ** Examples and gaps *)

Definition no_parse {A B} : A -> option B := fun _ => None.
Definition demo_json (s : string) (h : heap) : option any * heap := (None, h).
Notation demo_unmarshal := (Unmarshal no_parse no_parse id (fun _ => false) no_parse no_parse demo_json (fun _ => no_parse) no_parse no_parse).
Notation no_env := (fun _ : string => "").

Definition demo_type : gty := TyStruct
  [FNamed "Name" [("json", "name")] true TyString; FNamed "Age" [("json", "age,optional")] true (TyInt Int8);
   FEmbed "Base" [] true [FNamed "Tags" [("json", "tags")] true (TySlice TyString)]; FNamed "Limits" [("json", "limits")] true (TyMap (TyInt Int64))].
Definition demo_heap : heap := [[]; [("name", AString "ada"); ("tags", AList [AString "x"; AString "y"]); ("limits", AMap 2)]; [("low", ANumber "-3")]].
Definition demo_value : gv := VStruct [VString "ada"; VInt 0; VPtr (VStruct [VSlice [VString "x"; VString "y"]]); VMap [("low", VInt (-3))]].

Lemma documents_read_back_witness : demo_unmarshal no_env (NewUnmarshaler "json") demo_type (zero demo_type) (AMap 1) demo_heap = (Ok demo_value, demo_heap).
Proof.
  apply (documents_read_back no_parse no_parse id (fun _ => false) no_parse no_parse demo_json (fun _ => no_parse) no_parse no_parse no_env (NewUnmarshaler "json") demo_heap demo_type demo_value (AMap 1)).
  - repeat split; reflexivity.
  - exact I.
  - cbn [encodes demo_type]. do 3 eexists. split; [reflexivity|]. split; [reflexivity|]. split; [reflexivity|]. cbn [all2]. split; [|split; [|split; [|split; [|exact I]]]].
    + exists "name", None. split; [split; [by right|repeat split; done]|]. cbn. by eexists.
    + eexists "age", _. split; [split; [by right|split; [vm_compute; reflexivity|repeat split; done]]|]. cbn. repeat split; done.
    + exists "Base". split; [split; [by left|repeat split; done]|]. exists [VSlice [VString "x"; VString "y"]]. split; [done|]. cbn [all2 encodes_field]. split; [|exact I].
      exists "tags", None. split; [split; [by right|repeat split; done]|]. cbn. split; [done|]. do 2 eexists. repeat split; try reflexivity; by eexists.
    + exists "limits", None. split; [split; [by right|repeat split; done]|]. cbn. split; [done|]. do 3 eexists. split; [reflexivity|]. split; [reflexivity|]. split; [reflexivity|].
      cbn. split; [|exact I]. split; [reflexivity|]. exists (-3). repeat split; lia.
Defined.

(** A required field of type [map[string]any] that the document does not have becomes the
    package's empty map.  What the program then writes to the field is there for every later
    decoding: in such fields, and in structs the document does not have. *)
Lemma empty_map_is_shared :
  let t := TyStruct [FNamed "Extra" [("json", "extra")] true (TyMap TyAny)] in
  let s := TyStruct [FNamed "User" [("json", "user")] true (TyStruct [FNamed "Role" [("json", "role,optional")] true TyString])] in
  demo_unmarshal no_env (NewUnmarshaler "json") t (zero t) (AMap 1) [[]; []] = (Ok (VStruct [VShared emptyMap]), [[]; []]) /\
  demo_unmarshal no_env (NewUnmarshaler "json") s (zero s) (AMap 1) [[]; []] = (Ok (VStruct [VStruct [VString ""]]), [[]; []]) /\
  let written := [[("role", AString "admin")]; []] in
  demo_unmarshal no_env (NewUnmarshaler "json") s (zero s) (AMap 1) written = (Ok (VStruct [VStruct [VString "admin"]]), written).
Proof. repeat split; reflexivity. Qed.

(** Documents that end the program: a null in a map of slices, and an empty slice for a field that is a
    pointer to a slice; and the environment variable of a field that is a pointer to a [float32]. *)
Lemma decoding_panics :
  let m := TyStruct [FNamed "M" [("json", "m")] true (TyMap (TySlice TyString))] in
  let p := TyStruct [FNamed "P" [("json", "p")] true (TyPtr (TySlice TyString))] in
  let f := TyStruct [FNamed "F" [("json", "f,env=F")] true (TyPtr TyFloat32)] in
  let parse := fun _ : string => Some (S754_zero false) in
  (demo_unmarshal no_env (NewUnmarshaler "json") m (zero m) (AMap 1) [[]; [("m", AMap 2)]; [("k", ANil)]]).1 = Panic /\
  (demo_unmarshal no_env (NewUnmarshaler "json") p (zero p) (AMap 1) [[]; [("p", AList [])]]).1 = Panic /\
  (Unmarshal parse parse id (fun _ => false) no_parse no_parse demo_json (fun _ => no_parse) no_parse no_parse (fun _ => "1") (NewUnmarshaler "json") f (zero f) (AMap 1) [[]; []]).1 = Panic.
Proof. repeat split; reflexivity. Qed.

(** A default is not checked against the options of its field. *)
Lemma default_unchecked :
  let t := TyStruct [FNamed "Mode" [("json", "mode,default=x,options=a|b")] true TyString] in
  demo_unmarshal no_env (NewUnmarshaler "json") t (zero t) (AMap 1) [[]; []] = (Ok (VStruct [VString "x"]), [[]; []]) /\
  (demo_unmarshal no_env (NewUnmarshaler "json") t (zero t) (AMap 1) [[]; [("mode", AString "x")]]).1 = Err ErrOptions.
Proof. split; reflexivity. Qed.

(** ** Inherited values *)

(** The valuer of a struct inside structs: its map, and the maps around it from the inside out. *)
Fixpoint nested (l : nat) (around : list nat) : valuer :=
  SimpleValuer (MapValuer l) (match around with [] => None | p :: around => Some (nested p around) end).
Fixpoint nearest (h : heap) (key : string) (l : nat) (around : list nat) : option any :=
  match assoc key (default [] (h !! l)) with
  | Some v => Some v
  | None => match around with [] => None | p :: around => nearest h key p around end
  end.

Definition not_map (a : any) : bool := match a with AMap _ => false | _ => true end.

Fixpoint inheriting (j : nat) (v : valuer) : valuer := match j with O => v | S j => Inheriting (inheriting j v) end.

Lemma Parent_nested j l around :
  Parent (inheriting j (nested l around)) = match around with [] => None | p :: around => Some (inheriting (S j) (nested p around)) end.
Proof. induction j as [|j IH]; [by destruct around|]. cbn [inheriting Parent]. rewrite IH. by destruct around. Qed.

Section inherited.
Context (h : heap) (key : string).
Definition plain_at (m : nat) : Prop := forall v, assoc key (default [] (h !! m)) = Some v -> not_map v = true.

Lemma nearest_plain l around v : plain_at l -> Forall plain_at around -> nearest h key l around = Some v -> not_map v = true.
Proof.
  revert l. induction around as [|p around IH]; intros l Hl Ha; cbn; (destruct (assoc key (default [] (h !! l))) as [w|] eqn:W; [intros [= <-]; by apply Hl|]); [done|].
  apply Forall_cons in Ha as [Hp Ha]. by apply IH.
Qed.

(** A recursive valuer whose current one has a value that is not a map, or none. *)
Lemma recursive_plain c p r : c h = (Ok r, h) -> (forall v, r = Some v -> not_map v = true) ->
  recursive_Value c p h = match r, p with None, Some p => p h | _, _ => (Ok r, h) end.
Proof.
  intros Hc Hr. unfold recursive_Value, mbind. rewrite Hc. destruct r as [v|]; [|by destruct p]. specialize (Hr v eq_refl). by destruct v; [..|discriminate Hr].
Qed.

Lemma value_step n j v :
  value_fuel (S n) (inheriting (S j) v) key = recursive_Value (value_fuel n (inheriting j v) key) ((fun p => value_fuel n p key) <$> Parent (inheriting (S j) v)).
Proof. done. Qed.

Lemma inheriting_size j v : valuer_size (inheriting j v) = (j + valuer_size v)%nat.
Proof. induction j as [|j IH]; [done|]. cbn [inheriting valuer_size]. by rewrite IH. Qed.

Lemma nearest_value around l j n : plain_at l -> Forall plain_at around -> (S j + valuer_size (nested l around) <= n)%nat ->
  value_fuel n (inheriting (S j) (nested l around)) key h = (Ok (nearest h key l around), h).
Proof.
  revert l j n. induction around as [|p around IH]; intros l j n Hl Ha; revert n; induction j as [|j IHj]; intros [|n] Hn; try lia; rewrite value_step, Parent_nested.
  - rewrite (recursive_plain _ _ (assoc key (default [] (h !! l)))); [|by cbn in Hn; destruct n as [|[|n]]; [lia..|]|exact Hl]. cbn. by destruct (assoc key _).
  - rewrite (recursive_plain _ _ (nearest h key l [])); [|apply IHj; lia|intros v; by apply nearest_plain]. cbn. by destruct (assoc key _).
  - pose proof Ha as [Hp Ha']%Forall_cons. cbn [nested valuer_size] in Hn.
    rewrite (recursive_plain _ _ (assoc key (default [] (h !! l)))); [|by destruct n as [|[|n]]; [lia..|]|exact Hl]. cbn [nearest fmap option_fmap option_map].
    destruct (assoc key _); [done|]. apply IH; [done..|]. lia.
  - pose proof Ha as [Hp Ha']%Forall_cons. cbn [nested valuer_size] in Hn.
    rewrite (recursive_plain _ _ (nearest h key l (p :: around))); [|apply IHj; cbn [nested valuer_size]; lia|intros v; by apply nearest_plain]. cbn [fmap option_fmap option_map].
    destruct (nearest h key l (p :: around)) eqn:N; [done|]. cbn [nearest] in N. destruct (assoc key _); [done|]. rewrite IH by (done || lia). by rewrite N.
Qed.
End inherited.

(** A field with [inherit] whose key has no map for a value gets the value of the innermost
    struct around it that has one; the document is not changed. *)
Theorem inherited_from_nearest (h : heap) (key : string) (l : nat) (around : list nat) (o : fieldOptionsWithContext) :
  Inherit o = true -> Forall (plain_at h key) (l :: around) -> Value (createValuer (nested l around) (Some o)) key h = (Ok (nearest h key l around), h).
Proof.
  intros I [Hl Ha]%Forall_cons. unfold createValuer. cbn [inherit]. rewrite I. apply (nearest_value h key around l 0); [done..|]. cbn. lia.
Qed.
Lemma inherited_from_nearest_witness : let h := [[("timeout", ANumber "5")]; [("host", AString "a")]] in
  Value (createValuer (nested 1 [0%nat]) (Some (mkFOC true false false [] "" "" None))) "timeout" h = (Ok (Some (ANumber "5")), h).
Proof.
  intros h. refine (inherited_from_nearest h "timeout" 1 [0%nat] (mkFOC true false false [] "" "" None) eq_refl _). constructor; [|constructor; [|constructor]]; intros v H; [discriminate H|]. injection H as <-. reflexivity.
Defined.

(** The maps around it are merged into a map of the document itself. *)
Lemma inherit_writes_document :
  let h := [[("db", AMap 2)]; [("db", AMap 3)]; [("port", ANumber "5432")]; [("host", AString "a")]] in
  Value (createValuer (nested 1 [0%nat]) (Some (mkFOC true false false [] "" "" None))) "db" h =
  (Ok (Some (AMap 3)), [[("db", AMap 2)]; [("db", AMap 3)]; [("port", ANumber "5432")]; [("host", AString "a"); ("port", ANumber "5432")]]).
Proof. reflexivity. Qed.
