(* ===== verification/GoPath.v ===== *)
(** * Slash-separated paths (path/filepath on Unix: Clean, Join, Ext)

    [Clean] is the lexical processing of Go: elements are read from left to right onto a
    stack, "." and empty elements are dropped and ".." takes the element before it away.
    The lemmas give the shape of a clean path and the elements of a joined one. *)

From S2P Require Import Prelude GoStrings SqlModel.
From Stdlib Require Import Ascii.

#[local] Open Scope string_scope.

Definition slash : ascii := "/"%char.

(** One element of the path; the stack is kept with its top first. *)
Definition clean_step (rooted : bool) (stack : list string) (e : string) : list string :=
  if (e =? "") || (e =? ".") then stack
  else if e =? ".." then
    match stack with
    | x :: stack' => if x =? ".." then ".." :: stack else stack'
    | [] => if rooted then [] else [".."]
    end
  else e :: stack.

Definition clean_elems (rooted : bool) (path : string) : list string :=
  reverse (foldl (clean_step rooted) [] (Split path slash)).

Definition Clean (path : string) : string :=
  if path =? "" then "."
  else
    let rooted := HasPrefix path "/" in
    let es := clean_elems rooted path in
    if rooted then "/" ++ Join es "/"
    else match es with [] => "." | _ => Join es "/" end.

(** [filepath.Join] of two elements: the empty ones are left out. *)
Definition Join2 (a b : string) : string :=
  if a =? "" then (if b =? "" then "" else Clean b)
  else Clean (a ++ "/" ++ b).

(** [filepath.Ext]: from the last dot of the last element. *)
Fixpoint Ext (path : string) : string :=
  match path with
  | EmptyString => ""
  | String c rest =>
      let e := Ext rest in
      if e =? "" then
        (if Ascii.eqb c "." && bool_decide (IndexByte rest slash = None) then path else "")
      else e
  end.

(** An element a clean path is made of. *)
Definition no_slash (e : string) : bool := str_all (fun x => negb (Ascii.eqb x slash)) e.
Definition plain (e : string) : Prop := no_slash e = true /\ e <> "" /\ e <> "." /\ e <> "..".

Lemma Split_no_slash (s : string) : Forall (fun e => no_slash e = true) (Split s slash).
Proof.
  induction s as [|d s IH]; cbn [Split]; [by constructor|]. destruct (Ascii.eqb d slash) eqn:E; [by constructor|].
  destruct (Split s slash) as [|t ts]; [constructor; [|done]; unfold no_slash; cbn; by rewrite E|].
  inversion_clear IH as [|? ? Ht Hts]. constructor; [|done]. unfold no_slash in *. cbn. by rewrite E, Ht.
Qed.

Lemma Split_app (a b : string) : no_slash a = true -> Split (a ++ "/" ++ b) slash = a :: Split b slash.
Proof. intros Ha. rewrite Split_SplitN2. change ("/" ++ b) with (String slash b). by rewrite SplitN2_app. Qed.

Lemma Split_plain (a : string) : no_slash a = true -> Split a slash = [a].
Proof. intros Ha. rewrite Split_SplitN2, SplitN2_absent; done. Qed.

Lemma Split_Join (es : list string) :
  es <> [] -> Forall (fun e => no_slash e = true) es -> Split (Join es "/") slash = es.
Proof.
  induction es as [|e es IH]; [done|]. intros _ [He Hes]%Forall_cons. destruct es as [|e' es]; [by apply Split_plain|].
  cbn [Join]. rewrite Split_app by done. f_equal. by apply IH.
Qed.

(** The stack of an absolute path has plain elements only; that of a relative path has plain
    elements over a run of "..". *)
Definition stack_ok (rooted : bool) (stack : list string) : Prop :=
  exists ps k, stack = (ps ++ replicate k "..")%list /\ Forall plain ps /\ (rooted = true -> k = 0%nat).

Lemma clean_step_ok rooted stack e : no_slash e = true -> stack_ok rooted stack -> stack_ok rooted (clean_step rooted stack e).
Proof.
  intros He (ps & k & -> & Hps & Hk). unfold clean_step.
  destruct (String.eqb_spec e "") as [->|H1]; [by exists ps, k|]. destruct (String.eqb_spec e ".") as [->|H2]; [by exists ps, k|]. cbn [orb].
  destruct (String.eqb_spec e "..") as [->|H3].
  - destruct ps as [|p ps].
    + destruct k as [|k]; cbn.
      * destruct rooted; [exists [], 0%nat; done|exists [], 1%nat; done].
      * exists [], (S (S k)). split; [done|split; [done|]]. intros Hr. by specialize (Hk Hr).
    + apply Forall_cons in Hps as [Hp Hps]. cbn. destruct (String.eqb_spec p "..") as [->|_]; [by destruct Hp as (_ & _ & _ & []) |].
      by exists ps, k.
  - exists (e :: ps), k. split; [done|split; [|done]]. constructor; [|done]. repeat split; done.
Qed.

Lemma clean_foldl_ok rooted es stack :
  Forall (fun e => no_slash e = true) es -> stack_ok rooted stack -> stack_ok rooted (foldl (clean_step rooted) stack es).
Proof. intros Hes. revert stack. induction Hes as [|e es He _ IH]; intros stack Hs; [done|]. cbn. by apply IH, clean_step_ok. Qed.

Lemma clean_elems_shape rooted path :
  exists k ps, clean_elems rooted path = (replicate k ".." ++ ps)%list /\ Forall plain ps /\ (rooted = true -> k = 0%nat).
Proof.
  destruct (clean_foldl_ok rooted (Split path slash) [] (Split_no_slash path)) as (ps & k & E & Hps & Hk).
  { by exists [], 0%nat. }
  exists k, (reverse ps). unfold clean_elems. rewrite E, reverse_app, reverse_replicate. split; [done|split; [|done]]. by apply Forall_reverse.
Qed.

Lemma clean_elems_rooted path : Forall plain (clean_elems true path).
Proof. destruct (clean_elems_shape true path) as (k & ps & -> & Hps & Hk). rewrite Hk by done. done. Qed.

(** Plain elements are pushed as they are. *)
Lemma clean_step_plain rooted stack p : plain p -> clean_step rooted stack p = p :: stack.
Proof.
  intros (_ & H1 & H2 & H3). unfold clean_step.
  destruct (String.eqb_spec p ""), (String.eqb_spec p "."), (String.eqb_spec p ".."); done.
Qed.

Lemma clean_plain rooted ps stack : Forall plain ps -> foldl (clean_step rooted) stack ps = (reverse ps ++ stack)%list.
Proof.
  intros Hps. revert stack. induction Hps as [|p ps Hp _ IH]; intros stack; [done|]. cbn [foldl].
  by rewrite clean_step_plain, IH, reverse_cons, <- (assoc_L (++)).
Qed.

Lemma plain_no_slash ps : Forall plain ps -> Forall (fun e => no_slash e = true) ps.
Proof. intros H. eapply Forall_impl; [exact H|]. by intros e []. Qed.

(** The elements of a clean absolute path, read back from its text. *)
Lemma clean_elems_abs (ps : list string) : Forall plain ps -> clean_elems true ("/" ++ Join ps "/") = ps.
Proof.
  intros Hps. unfold clean_elems. change ("/" ++ Join ps "/") with (String slash (Join ps "/")). cbn [Split]. rewrite Ascii.eqb_refl. cbn [foldl].
  change (clean_step true [] "") with (@nil string). destruct ps as [|p ps]; [done|].
  rewrite Split_Join, clean_plain, app_nil_r, reverse_involutive; [done|done|done|by apply plain_no_slash].
Qed.

(** The text of an absolute path followed by a relative one has the elements of both. *)
Lemma clean_join (root ks stack : list string) :
  Forall plain root -> Forall plain ks ->
  foldl (clean_step true) stack (Split (Join root "/" ++ "/" ++ Join ks "/") slash) = (reverse (root ++ ks) ++ stack)%list.
Proof.
  intros Hr Hk.
  assert (Hks : forall stack, foldl (clean_step true) stack (Split (Join ks "/") slash) = (reverse ks ++ stack)%list).
  { clear stack. intros stack. destruct ks as [|k ks]; [done|]. by rewrite Split_Join, clean_plain by (done || by apply plain_no_slash). }
  revert stack. induction Hr as [|r root Hr1 Hr IH]; intros stack.
  - cbn [Join]. rewrite str_app_nil_l. change ("/" ++ Join ks "/") with (String slash (Join ks "/")). cbn [Split]. rewrite Ascii.eqb_refl.
    cbn [foldl]. change (clean_step true stack "") with stack. apply Hks.
  - destruct root as [|r' root].
    + cbn [Join]. rewrite Split_app by apply Hr1. cbn [foldl]. rewrite Hks, clean_step_plain by done.
      change ([r] ++ ks)%list with (r :: ks). by rewrite reverse_cons, <- (assoc_L (++)).
    + change (Join (r :: r' :: root) "/") with (r ++ "/" ++ Join (r' :: root) "/"). rewrite !str_app_assoc, Split_app by apply Hr1.
      cbn [foldl]. rewrite IH, clean_step_plain by done.
      change ((r :: r' :: root) ++ ks)%list with (r :: ((r' :: root) ++ ks)%list). by rewrite (reverse_cons _ r), <- (assoc_L (++)).
Qed.

(** Joining a relative path of plain elements to an absolute one appends its elements. *)
Lemma Join2_elems (root ks : list string) :
  Forall plain root -> Forall plain ks ->
  Join2 ("/" ++ Join root "/") (Join ks "/") = "/" ++ Join (root ++ ks) "/".
Proof.
  intros Hr Hk. unfold Join2. change ("/" ++ Join root "/" =? "") with false. cbn iota.
  change (("/" ++ Join root "/") ++ "/" ++ Join ks "/") with (String slash (Join root "/" ++ "/" ++ Join ks "/")).
  unfold Clean. set (t := Join root "/" ++ "/" ++ Join ks "/"). change (String slash t =? "") with false. cbn iota.
  replace (HasPrefix (String slash t) "/") with true by (by destruct t). do 2 f_equal.
  unfold clean_elems. cbn [Split]. rewrite Ascii.eqb_refl. cbn [foldl]. change (clean_step true [] "") with (@nil string).
  subst t. by rewrite clean_join, app_nil_r, reverse_involutive.
Qed.
