(* ===== verification/RotateLog.v ===== *)
(** * Rotating log files (infra/logx/rotatelogger.go)

    A logger appends to a file and, when its rule says so, renames the file to a backup and
    starts a new one; a goroutine per rotation then compresses the backup, if that is asked
    for, and removes the outdated ones, while the logger goes on writing.  Files are lists of
    what was written to them.  The clock's formats, [filepath.Glob] and the compression of
    [compress/gzip] are parameters, and so is whether a call of the operating system fails. *)

From S2P Require Import Prelude GoStrings SqlModel GoPath.
From Stdlib Require Import Ascii String.
From stdpp Require Import sorting.
#[local] Open Scope string_scope.
#[local] Open Scope list_scope.
#[local] Open Scope Z_scope.

Notation files := (gmap string (list string)).
Definition size_of (chunks : list string) : Z := Z.of_nat (sum_list_with String.length chunks).

(** The order of strings, by bytes. *)
Definition str_le (a b : string) : Prop := String.leb a b = true.
#[export] Instance str_le_dec : RelDecision str_le := fun a b => decide (String.leb a b = true).

(** ** Names *)

(** The part of a path after the last slash, and the one before it. *)
Fixpoint after_slash (p : string) : string :=
  match p with EmptyString => "" | String c q => if bool_decide (IndexByte q slash = None) then if Ascii.eqb c slash then q else p else after_slash q end.
Fixpoint upto_slash (p : string) : string :=
  match p with EmptyString => "" | String c q => if bool_decide (IndexByte p slash = None) then "" else String c (upto_slash q) end.
Fixpoint strip_slashes (p : string) : string :=
  match p with EmptyString => "" | String c q => match strip_slashes q with EmptyString => if Ascii.eqb c slash then "" else String c "" | r => String c r end end.

(** [filepath.Dir] and [filepath.Base] *)
Definition Dir (p : string) : string := Clean (upto_slash p).
Definition Base (p : string) : string :=
  if (p =? "")%string then "." else let b := after_slash (strip_slashes p) in if (b =? "")%string then "/" else b.

Definition gzipExt : string := ".gz".
Definition megaBytes : Z := 2 ^ 20.

(** ** Rules *)

(** [RotateRule]: the clock is read where a method asks for the time. *)
Class RotateRule (R : Type) := {
  BackupFileName : Z -> R -> string;
  MarkRotated : Z -> R -> R;
  OutdatedFiles : Z -> R -> files -> list string;
  ShallRotate : Z -> Z -> R -> bool }.

Record DailyRotateRule : Type := mkDaily { rotatedTime : string; rr_filename : string; delimiter : string; days : Z; gzip : bool }.
Record SizeLimitRotateRule : Type := mkSizeRule { sr_daily : DailyRotateRule; maxSize : Z; maxBackups : Z }.

Section rules.
(** The date and the RFC 3339 text of a time, and the files of a pattern. *)
Context (DateOnly RFC3339 : Z -> string) (Glob : string -> files -> option (list string)).

Definition days_before (now : Z) (days : Z) : Z := wrap64 (now - wrap64 (3600 * 10 ^ 9 * wrap64 (24 * days))).

Definition DefaultRotateRule (now : Z) (filename delimiter : string) (days : Z) (gzip : bool) : DailyRotateRule := mkDaily (DateOnly now) filename delimiter days gzip.

Definition daily_BackupFileName (now : Z) (r : DailyRotateRule) : string := rr_filename r +:+ delimiter r +:+ DateOnly now.
Definition daily_MarkRotated (now : Z) (r : DailyRotateRule) : DailyRotateRule := mkDaily (DateOnly now) (rr_filename r) (delimiter r) (days r) (gzip r).
Definition daily_ShallRotate (now : Z) (_ : Z) (r : DailyRotateRule) : bool := negb (rotatedTime r =? "")%string && negb (DateOnly now =? rotatedTime r)%string.

Definition daily_OutdatedFiles (now : Z) (r : DailyRotateRule) (fs : files) : list string :=
  if days r <=? 0 then []
  else match Glob (if gzip r then rr_filename r +:+ delimiter r +:+ "*" +:+ gzipExt else rr_filename r +:+ delimiter r +:+ "*") fs with
       | None => []
       | Some l => let boundaryFile := rr_filename r +:+ delimiter r +:+ DateOnly (days_before now (days r)) +:+ (if gzip r then gzipExt else "") in
                   filter (fun f => String.ltb f boundaryFile = true) l
       end.

Definition NewSizeLimitRotateRule (now : Z) (filename delimiter : string) (days maxSize maxBackups : Z) (gzip : bool) : SizeLimitRotateRule :=
  mkSizeRule (mkDaily (RFC3339 now) filename delimiter days gzip) (wrap64 (maxSize * megaBytes)) maxBackups.

(** The base name without its extension, and the extension. *)
Definition parseFilename (r : SizeLimitRotateRule) : string * string :=
  let logName := Base (rr_filename (sr_daily r)) in let ext := Ext (rr_filename (sr_daily r)) in (str_take (String.length logName - String.length ext) logName, ext).

Definition size_BackupFileName (now : Z) (r : SizeLimitRotateRule) : string :=
  let '(prefix, ext) := parseFilename r in Join2 (Dir (rr_filename (sr_daily r))) (prefix +:+ delimiter (sr_daily r) +:+ RFC3339 now +:+ ext).
Definition size_MarkRotated (now : Z) (r : SizeLimitRotateRule) : SizeLimitRotateRule :=
  let d := sr_daily r in mkSizeRule (mkDaily (RFC3339 now) (rr_filename d) (delimiter d) (days d) (gzip d)) (maxSize r) (maxBackups r).
Definition size_ShallRotate (_ : Z) (size : Z) (r : SizeLimitRotateRule) : bool := (0 <? maxSize r) && (maxSize r <? size).

(** The files up to the first one that is not before the boundary. *)
Fixpoint before_boundary (boundary : string) (l : list string) : list string := match l with [] => [] | f :: l => if String.leb boundary f then [] else f :: before_boundary boundary l end.

Definition sort_Strings (l : list string) : list string := merge_sort str_le l.

Definition size_OutdatedFiles (now : Z) (r : SizeLimitRotateRule) (fs : files) : list string :=
  let d := sr_daily r in let dir := Dir (rr_filename d) in let '(prefix, ext) := parseFilename r in
  match Glob (dir +:+ "/" +:+ prefix +:+ delimiter d +:+ "*" +:+ ext +:+ (if gzip d then gzipExt else "")) fs with
  | None => []
  | Some l =>
      let l := sort_Strings l in
      let many := bool_decide (0 < maxBackups r /\ maxBackups r < Z.of_nat (List.length l)) in
      let cut := if many then (List.length l - Z.to_nat (maxBackups r))%nat else 0%nat in
      let old := if 0 <? days d then before_boundary (Join2 dir (prefix +:+ delimiter d +:+ RFC3339 (days_before now (days d)) +:+ ext) +:+ (if gzip d then gzipExt else "")) (drop cut l) else [] in
      elements (list_to_set (take cut l ++ old) : gset string)
  end.

#[export] Instance daily_rule : RotateRule DailyRotateRule := { BackupFileName := daily_BackupFileName; MarkRotated := daily_MarkRotated; OutdatedFiles := daily_OutdatedFiles; ShallRotate := daily_ShallRotate }.
#[export] Instance size_rule : RotateRule SizeLimitRotateRule := { BackupFileName := size_BackupFileName; MarkRotated := size_MarkRotated; OutdatedFiles := size_OutdatedFiles; ShallRotate := size_ShallRotate }.
End rules.

(** ** The logger *)

Record RotateLogger (R : Type) : Type := mkLogger { filename : string; backup : string; fp : bool; rule : R; compress : bool; currentSize : Z }.
Arguments mkLogger {R} _ _ _ _ _ _. Arguments filename {R} _. Arguments backup {R} _. Arguments fp {R} _. Arguments rule {R} _. Arguments compress {R} _. Arguments currentSize {R} _.

(** Which calls of the operating system work. *)
Record os_calls : Type := mkOs { os_close : bool; os_rename : bool; os_create : bool; os_open : bool; os_write : bool }.
Definition all_work : os_calls := mkOs true true true true true.

Section logger.
Context {R : Type} `{!RotateRule R}.

Definition getBackupFilename (now : Z) (l : RotateLogger R) : string := if (backup l =? "")%string then BackupFileName now (rule l) else backup l.

(** [initialize]; [None] is an error. *)
Definition initialize (now : Z) (o : os_calls) (name : string) (r : R) (compress : bool) (fs : files) : option (RotateLogger R * files) :=
  let clean := Clean name in
  match fs !! clean with
  | None => if os_create o then Some (mkLogger name (BackupFileName now r) true r compress 0, <[clean := []]> fs) else None
  | Some chunks => if os_open o then Some (mkLogger name (BackupFileName now r) true r compress (size_of chunks), fs) else None
  end.

(** [rotate]: whether there was an error, the logger and the files, and the backup if one was
    made, which is the file that [postRotate] starts its goroutine for. *)
Definition rotate (now : Z) (o : os_calls) (l : RotateLogger R) (fs : files) : bool * RotateLogger R * files * option string :=
  let closed := mkLogger (filename l) (backup l) false (rule l) (compress l) (currentSize l) in
  if fp l && negb (os_close o) then (true, closed, fs, None)
  else
    let clean := Clean (filename l) in
    let create (fs : files) (made : option string) :=
      let named := mkLogger (filename l) (BackupFileName now (rule l)) (os_create o) (rule l) (compress l) (currentSize l) in
      (negb (os_create o), named, if os_create o then <[clean := []]> fs else fs, made) in
    match fs !! clean with
    | Some chunks =>
        if (backup l =? "")%string then create fs None
        else if os_rename o then let name := getBackupFilename now l in create (<[name := chunks]> (delete clean fs)) (Some name) else (true, closed, fs, None)
    | None => create fs None
    end.

Definition write (now : Z) (o : os_calls) (v : string) (l : RotateLogger R) (fs : files) : RotateLogger R * files * option string :=
  let '(l, fs, made) :=
    if ShallRotate now (wrap64 (currentSize l + Z.of_nat (String.length v))) (rule l) then
      let '(failed, l, fs, made) := rotate now o l fs in
      if failed then (l, fs, made) else (mkLogger (filename l) (backup l) (fp l) (MarkRotated now (rule l)) (compress l) 0, fs, made)
    else (l, fs, None) in
  if fp l then
    (mkLogger (filename l) (backup l) (fp l) (rule l) (compress l) (wrap64 (currentSize l + Z.of_nat (String.length v))),
     if os_write o then <[Clean (filename l) := default [] (fs !! Clean (filename l)) ++ [v]]> fs else fs, made)
  else (l, fs, made).

(** [maybeDeleteOutdatedFiles]: the files that are removed. *)
Definition maybeDeleteOutdatedFiles (now : Z) (l : RotateLogger R) (fs : files) : files := foldl (fun fs f => delete f fs) fs (OutdatedFiles now (rule l) fs).

(** What the worker writes, one after the other, with the backups that are made. *)
Fixpoint write_all (ws : list (Z * string)) (l : RotateLogger R) (fs : files) : RotateLogger R * files * list string :=
  match ws with
  | [] => (l, fs, [])
  | (now, v) :: ws => let '(l, fs, made) := write now all_work v l fs in let '(l, fs, names) := write_all ws l fs in (l, fs, option_list made ++ names)
  end.
(** *** After a rotation *)

Context (gz : string -> string).
Definition gzipName (file : string) : string := file +:+ gzipExt.

(** How [gzipFile] ends: well, before anything is written, or with something else in the
    compressed file. *)
Inductive gzip_result := GzOk | GzNotStarted | GzPartial (rest : list string).

(** [gzipFile] without its last step: whether it goes on to remove the original. *)
Definition gzipFile (res : gzip_result) (file : string) (fs : files) : files * bool :=
  match fs !! file with
  | None => (fs, false)
  | Some chunks =>
      match res with
      | GzOk => (<[gzipName file := [gz (String.concat "" chunks)]]> fs, true)
      | GzNotStarted => (fs, false)
      | GzPartial rest => (<[gzipName file := rest]> fs, false)
      end
  end.

Definition maybeCompressFile (res : gzip_result) (l : RotateLogger R) (file : string) (fs : files) : files * bool :=
  if compress l then gzipFile res file fs else (fs, false).

(** The goroutines of [postRotate], each with its file and what it does next. *)
Inductive post_phase := PCompress | PRemove | PDelete.

Record log_state : Type := mkLog {
  ls_logger : RotateLogger R; ls_files : files; ls_posts : list (string * post_phase);
  ls_made : list string;                    (* the backups, in the order they were made *)
  ls_removed : list string                  (* what the rule called outdated *) }.

Inductive log_event := LWrite (now : Z) (v : string) | LPost (k : nat) (now : Z) (res : gzip_result).

Definition postRotate (k : nat) (now : Z) (res : gzip_result) (st : log_state) : option log_state :=
  let '(mkLog l fs posts made removed) := st in
  match posts !! k with
  | Some (file, PCompress) =>
      let '(fs, remove) := maybeCompressFile res l file fs in
      Some (mkLog l fs (<[k := (file, if remove then PRemove else PDelete)]> posts) made removed)
  | Some (file, PRemove) => Some (mkLog l (delete file fs) (<[k := (file, PDelete)]> posts) made removed)
  | Some (file, PDelete) => Some (mkLog l (maybeDeleteOutdatedFiles now l fs) (delete k posts) made (removed ++ OutdatedFiles now (rule l) fs))
  | None => None
  end.

Definition log_step (ev : log_event) (st : log_state) : option log_state :=
  match ev with
  | LWrite now v =>
      let '(l, fs, backup) := write now all_work v (ls_logger st) (ls_files st) in
      Some (mkLog l fs (ls_posts st ++ option_list ((fun n => (n, PCompress)) <$> backup)) (ls_made st ++ option_list backup) (ls_removed st))
  | LPost k now res => postRotate k now res st
  end.

Fixpoint log_run (evs : list log_event) (st : log_state) : option log_state :=
  match evs with [] => Some st | ev :: evs => log_step ev st ≫= log_run evs end.

Definition written (evs : list log_event) : list string := omap (fun ev => match ev with LWrite _ v => Some v | LPost _ _ _ => None end) evs.
End logger.

(** ** Properties *)

Section properties.
Context {R : Type} `{!RotateRule R} (named : forall now r, BackupFileName now r <> "").

(** A logger that is open on its file. *)
Definition opened (l : RotateLogger R) (fs : files) (chunks : list string) : Prop := fp l = true /\ backup l <> "" /\ fs !! Clean (filename l) = Some chunks.

(** One write appends to the file or, after a rotation, to a new one. *)
Lemma write_spec now v l fs chunks : opened l fs chunks ->
  let '(l', fs', made) := write now all_work v l fs in
  filename l' = filename l /\
  ((made = None /\ opened l' fs' (chunks ++ [v]) /\ fs' = <[Clean (filename l) := chunks ++ [v]]> fs /\ rule l' = rule l /\ currentSize l' = wrap64 (currentSize l + Z.of_nat (String.length v)) /\
    ShallRotate now (wrap64 (currentSize l + Z.of_nat (String.length v))) (rule l) = false)
   \/ (made = Some (backup l) /\ opened l' fs' [v] /\ fs' = <[Clean (filename l) := [v]]> (<[backup l := chunks]> (delete (Clean (filename l)) fs)) /\ rule l' = MarkRotated now (rule l) /\ currentSize l' = wrap64 (Z.of_nat (String.length v)))).
Proof using named.
  intros (F & B & E). unfold write. destruct (ShallRotate _ _ _) eqn:S.
  - unfold rotate. cbn [os_close os_rename os_create all_work]. rewrite andb_false_r, E. destruct (String.eqb_spec (backup l) "") as [|NB]; [done|]. unfold getBackupFilename. destruct (String.eqb_spec (backup l) ""); [done|].
    cbn. split; [done|]. right. rewrite lookup_insert_eq. cbn. rewrite insert_insert_eq. split_and!; try done. split_and!; [done|apply named|]. by rewrite lookup_insert_eq.
  - cbn. rewrite F. cbn. rewrite E. cbn. split; [done|]. left. split_and!; try done. split_and!; [done|done|]. by rewrite lookup_insert_eq.
Qed.

(** *** Backups and their goroutines *)

(** The names of the backups, plain and compressed, and the file's are different. *)
Definition apart (clean : string) (made : list string) : Prop :=
  NoDup made /\ (forall n m, n ∈ made -> m ∈ made -> n <> gzipName m) /\ (forall n, n ∈ made -> n <> clean /\ gzipName n <> clean).

Lemma apart_prefix clean l1 l2 : l1 `prefix_of` l2 -> apart clean l2 -> apart clean l1.
Proof. intros [k ->] (N & H1 & H2). apply NoDup_app in N as [N _]. split_and!; [done|..]; intros; [apply H1|apply H2]; apply elem_of_app; by left. Qed.

Lemma gzipName_inj : Inj eq eq gzipName.
Proof. unfold gzipName, gzipExt. intros a. induction a as [|c a IH]; intros [|d b] H; cbn in H; [done|..].
  - exfalso. injection H as _ H. by destruct b as [|? [|? [|? ?]]].
  - exfalso. injection H as _ H. by destruct a as [|? [|? [|? ?]]].
  - injection H as -> H. f_equal. by apply IH.
Qed.

(** What a backup held is in it, or in its compressed form, or the rule had it removed. *)
Definition seg_ok (gz : string -> string) (fs : files) (posts : list (string * post_phase)) (removed : list string) (n : string) (cs : list string) : Prop :=
  n ∈ removed \/ gzipName n ∈ removed \/ ((n, PRemove) ∉ posts /\ fs !! n = Some cs) \/
  ((n, PCompress) ∉ posts /\ fs !! gzipName n = Some [gz (String.concat "" cs)]).

Record keeps (gz : string -> string) (name : string) (lines : list string) (st : log_state) (segs : list (string * list string)) (cur : list string) : Prop := mk_keeps {
  ks_name : filename (ls_logger st) = name;
  ks_open : opened (ls_logger st) (ls_files st) cur;
  ks_made : segs.*1 = ls_made st;
  ks_lines : mjoin segs.*2 ++ cur = lines;
  ks_posts : NoDup (ls_posts st).*1;
  ks_of : forall n, n ∈ (ls_posts st).*1 -> n ∈ ls_made st;
  ks_segs : forall n cs, (n, cs) ∈ segs -> seg_ok gz (ls_files st) (ls_posts st) (ls_removed st) n cs }.

Lemma made_mono gz ev (st st' : log_state) : log_step gz ev st = Some st' -> ls_made st `prefix_of` ls_made st' /\ ls_removed st `prefix_of` ls_removed st'.
Proof.
  destruct st as [l fs posts made removed]. destruct ev as [now v|k now res]; cbn.
  - destruct (write _ _ _ _ _) as [[l' fs'] b]. intros [= <-]. split; [by exists (option_list b)|done].
  - destruct (posts !! k) as [[file []]|]; [destruct (maybeCompressFile _ _ _ _ _)|..|done]; intros [= <-]; split; try done. by eexists.
Qed.

Lemma run_mono gz evs : forall (st st' : log_state), log_run gz evs st = Some st' -> ls_made st `prefix_of` ls_made st' /\ ls_removed st `prefix_of` ls_removed st'.
Proof.
  induction evs as [|ev evs IH]; intros st st'; cbn; [by intros [= <-]|]. intros (st1 & H1 & H2)%bind_Some.
  apply made_mono in H1 as [? ?]. apply IH in H2 as [? ?]. split; by etrans.
Qed.

(** Writing, with or without a rotation. *)
Lemma keeps_write gz name lines st segs cur now v st' : keeps gz name lines st segs cur -> log_step gz (LWrite now v) st = Some st' ->
  apart (Clean name) (ls_made st') -> exists segs cur, keeps gz name (lines ++ [v]) st' segs cur.
Proof using named.
  intros [Kn Ko Km Kl Kp Kf Ks]. cbn. pose proof (write_spec now v _ _ cur Ko) as W. destruct (write now all_work v _ _) as [[l1 fs1] b].
  destruct st as [l fs posts made removed]. cbn in *. intros [= <-] (N & A1 & A2). cbn in *. destruct W as [Fn [(-> & O & -> & _)|(-> & O & -> & _)]]; cbn in *.
  - rewrite app_nil_r in *. exists segs, (cur ++ [v]). split; cbn; rewrite ?app_nil_r; try done; [by rewrite Fn|by rewrite app_assoc, Kl|].
    intros n cs Hn. assert (Hm : n ∈ made) by (rewrite <- Km; apply list_elem_of_fmap; by exists (n, cs)). destruct (A2 n Hm). specialize (Ks n cs Hn). unfold seg_ok in *. rewrite Kn, !lookup_insert_ne by done. done.
  - exists (segs ++ [(backup l, cur)]), [v]. apply NoDup_app in N as (N1 & N2 & _). assert (Hb : backup l ∉ made) by (intros H; apply (N2 _ H); by left).
    assert (Hbm : backup l ∈ made ++ [backup l]) by (apply elem_of_app; right; by left).
    split; cbn; try done.
    + by rewrite Fn.
    + by rewrite fmap_app, Km.
    + rewrite fmap_app, join_app. cbn. by rewrite app_nil_r, Kl.
    + rewrite fmap_app. apply NoDup_app. split_and!; [done| |apply NoDup_singleton]. intros x Hx. cbn. rewrite list_elem_of_singleton. intros ->. by apply Hb, Kf.
    + intros n. rewrite fmap_app, !elem_of_app. cbn. rewrite !list_elem_of_singleton. intros [Hn| ->]; [left; by apply Kf|by right].
    + intros n cs Hn. assert (Hp : forall ph, (n, ph) ∈ posts ++ [(backup l, PCompress)] <-> (n, ph) ∈ posts \/ n = backup l /\ ph = PCompress).
      { intros ph. rewrite elem_of_app, list_elem_of_singleton. naive_solver. }
      unfold seg_ok. rewrite !Hp, Kn. apply elem_of_app in Hn as [Hn|Hn].
      * assert (Hm : n ∈ made) by (rewrite <- Km; apply list_elem_of_fmap; by exists (n, cs)). assert (Hm' : n ∈ made ++ [backup l]) by (apply elem_of_app; by left).
        destruct (A2 n Hm') as [? ?]. pose proof (A1 _ _ Hbm Hm'). assert (n <> backup l) by (intros ->; done).
        rewrite !lookup_insert_ne, !lookup_delete_ne by done. destruct (Ks n cs Hn) as [?|[?|[[? ?]|[? ?]]]]; naive_solver.
      * apply list_elem_of_singleton in Hn as [= -> ->]. destruct (A2 _ Hbm) as [? ?]. right; right; left. rewrite lookup_insert_ne, lookup_insert_eq by done. split; [|done].
        intros [HH|[_ HH]]; [|done]. apply Hb, Kf, list_elem_of_fmap. by exists (backup l, PRemove).
Qed.

Lemma outdated_lookup (f : string) : forall (l : list string) (fs : files), f ∉ l -> foldl (fun fs f => delete f fs) fs l !! f = fs !! f.
Proof. induction l as [|x l IH]; intros fs H; cbn; [done|]. apply not_elem_of_cons in H as [? ?]. rewrite IH by done. by rewrite lookup_delete_ne. Qed.

(** The other entries of the list when one changes its phase. *)
Lemma posts_other (posts : list (string * post_phase)) k m ph ph' n q : posts !! k = Some (m, ph) -> n <> m -> (n, q) ∈ <[k := (m, ph')]> posts <-> (n, q) ∈ posts.
Proof.
  intros Hk Hn. rewrite !list_elem_of_lookup. split; intros [i Hi]; exists i; (destruct (decide (i = k)) as [->|Hik]; [|by rewrite list_lookup_insert_ne in *]).
  - rewrite list_lookup_insert_eq in Hi by (by apply lookup_lt_Some in Hk). by simplify_eq.
  - by simplify_eq.
Qed.

Lemma posts_same (posts : list (string * post_phase)) k m ph ph' q : NoDup posts.*1 -> posts !! k = Some (m, ph) -> (m, q) ∈ <[k := (m, ph')]> posts -> q = ph'.
Proof.
  intros N Hk [i Hi]%list_elem_of_lookup. destruct (decide (i = k)) as [->|Hik].
  - rewrite list_lookup_insert_eq in Hi by (by apply lookup_lt_Some in Hk). by simplify_eq.
  - rewrite list_lookup_insert_ne in Hi by done. exfalso. apply Hik. apply (NoDup_lookup _ i k m N); rewrite list_lookup_fmap; [by rewrite Hi|by rewrite Hk].
Qed.

Lemma posts_names (posts : list (string * post_phase)) k m ph ph' : posts !! k = Some (m, ph) -> (<[k := (m, ph')]> posts).*1 = posts.*1.
Proof. intros Hk. rewrite list_fmap_insert. cbn. apply list_insert_id. by rewrite list_lookup_fmap, Hk. Qed.

(** The file a goroutine has compressed, or not. *)
Lemma compress_spec gz res (l : RotateLogger R) file fs : let '(fs', remove) := maybeCompressFile gz res l file fs in
  (forall f, f <> gzipName file -> fs' !! f = fs !! f) /\
  (remove = true -> exists cs, fs !! file = Some cs /\ fs' !! gzipName file = Some [gz (String.concat "" cs)]).
Proof.
  unfold maybeCompressFile, gzipFile. destruct (compress l); [|done]. destruct (fs !! file) as [cs|]; [|done].
  destruct res; (split; [intros f Hf; try done; by rewrite lookup_insert_ne|]); try done. intros _. exists cs. by rewrite lookup_insert_eq.
Qed.

(** What the goroutines do. *)
Lemma keeps_post gz name lines st segs cur k now res st' : keeps gz name lines st segs cur -> postRotate gz k now res st = Some st' ->
  apart (Clean name) (ls_made st') -> Clean name ∉ ls_removed st' -> keeps gz name lines st' segs cur.
Proof.
  intros [Kn Ko Km Kl Kp Kf Ks]. destruct st as [l fs posts made removed]. cbn in *. destruct (posts !! k) as [[m ph]|] eqn:Hk; [|done].
  assert (Hm : m ∈ made) by (apply Kf, list_elem_of_fmap; exists (m, ph); split; [done|by apply list_elem_of_lookup_2 in Hk]).
  assert (Hin : forall n cs, (n, cs) ∈ segs -> n ∈ made) by (intros n cs Hn; rewrite <- Km; apply list_elem_of_fmap; by exists (n, cs)).
  destruct ph.
  - pose proof (compress_spec gz res l m fs) as C. destruct (maybeCompressFile gz res l m fs) as [fs' remove]. destruct C as [C1 C2]. intros [= <-] (N & A1 & A2) _. cbn in *.
    split; cbn; try done; rewrite ?(posts_names _ _ _ _ _ Hk); try done.
    + destruct Ko as (? & ? & ?). split_and!; try done. rewrite C1; [done|]. rewrite Kn. intros E. by destruct (A2 m Hm).
    + intros n cs Hn. pose proof (Hin n cs Hn) as Hnm. unfold seg_ok. destruct (decide (n = m)) as [->|Hne].
      * rewrite (C1 m) by (by apply A1). assert (P : (m, PCompress) ∈ posts) by by apply list_elem_of_lookup_2 in Hk.
        destruct (Ks m cs Hn) as [?|[?|[[? E]|[? _]]]]; [by left|by right; left| |done]. right; right. destruct remove.
        { right. destruct (C2 eq_refl) as (c & E' & ->). simplify_eq. split; [|done]. intros HH. by apply (posts_same _ _ _ _ _ _ Kp Hk) in HH. }
        left. split; [|done]. intros HH. by apply (posts_same _ _ _ _ _ _ Kp Hk) in HH.
      * rewrite !(posts_other _ _ _ _ _ _ _ Hk Hne). rewrite (C1 n) by (by apply A1). rewrite (C1 (gzipName n)) by (intros E; by apply gzipName_inj in E). by apply Ks.
  - intros [= <-] (N & A1 & A2) _. cbn in *. split; cbn; try done; rewrite ?(posts_names _ _ _ _ _ Hk); try done.
    + destruct Ko as (? & ? & ?). split_and!; try done. rewrite lookup_delete_ne; [done|]. rewrite Kn. by apply A2.
    + intros n cs Hn. pose proof (Hin n cs Hn) as Hnm. unfold seg_ok. rewrite (lookup_delete_ne _ m (gzipName n)) by (by apply A1). destruct (decide (n = m)) as [->|Hne].
      * assert (P : (m, PRemove) ∈ posts) by by apply list_elem_of_lookup_2 in Hk.
        destruct (Ks m cs Hn) as [?|[?|[[? E]|[? ?]]]]; [by left|by right; left|done|]. right; right; right. split; [|done]. intros HH. by apply (posts_same _ _ _ _ _ _ Kp Hk) in HH.
      * rewrite !(posts_other _ _ _ _ _ _ _ Hk Hne), lookup_delete_ne by done. by apply Ks.
  - intros [= <-] (N & A1 & A2) Hr. cbn in *. unfold maybeDeleteOutdatedFiles. set (out := OutdatedFiles now (rule l) fs) in *.
    assert (Hsub : forall x, x ∈ delete k posts -> x ∈ posts) by (intros x Hx; eapply elem_of_submseteq; [exact Hx|apply sublist_submseteq, sublist_delete]).
    split; cbn; try done.
    + destruct Ko as (? & ? & ?). split_and!; try done. rewrite outdated_lookup; [done|]. rewrite Kn. intros H'. apply Hr, elem_of_app. by right.
    + eapply sublist_NoDup; [exact Kp|]. apply fmap_sublist, sublist_delete.
    + intros n [[n' q] [-> Hq]]%list_elem_of_fmap. apply Kf, list_elem_of_fmap. exists (n', q). split; [done|by apply Hsub].
    + intros n cs Hn. unfold seg_ok. rewrite !elem_of_app. destruct (decide (n ∈ out)); [by left; right|]. destruct (decide (gzipName n ∈ out)); [by right; left; right|].
      rewrite !outdated_lookup by done. destruct (Ks n cs Hn) as [?|[?|[[? ?]|[? ?]]]]; [by left; left|by right; left; left|..]; right; right; [left|right]; (split; [|done]); intros HH%Hsub; done.
Qed.

Lemma keeps_run gz name evs : forall lines st segs cur st', keeps gz name lines st segs cur -> log_run gz evs st = Some st' ->
  apart (Clean name) (ls_made st') -> Clean name ∉ ls_removed st' -> exists segs cur, keeps gz name (lines ++ written evs) st' segs cur.
Proof using named.
  induction evs as [|ev evs IH]; intros lines st segs cur st' K; cbn [log_run].
  { intros [= <-] _ _. exists segs, cur. by rewrite app_nil_r. }
  intros (st1 & H1 & H2)%bind_Some A Hr. destruct (run_mono _ _ _ _ H2) as [M1 [q M2]]. assert (A1 := apart_prefix _ _ _ M1 A).
  assert (Hr1 : Clean name ∉ ls_removed st1) by (intros H; apply Hr; rewrite M2; apply elem_of_app; by left).
  destruct ev as [now v|k now res].
  - destruct (keeps_write _ _ _ _ _ _ _ _ _ K H1 A1) as (segs1 & cur1 & K1). destruct (IH _ _ _ _ _ K1 H2 A Hr) as (segs2 & cur2 & K2).
    exists segs2, cur2. cbn. by rewrite <- app_assoc in K2.
  - cbn in H1. apply (IH _ _ _ _ _ (keeps_post _ _ _ _ _ _ _ _ _ _ K H1 A1 Hr1) H2 A Hr).
Qed.
End properties.

(** C27: rotation loses no line and repeats none.  From the start of a logger on a file, in every
    interleaving of its writes with the goroutines of the rotations, if the calls that write,
    rename, create and remove files work (the compression itself may fail anywhere), the names
    of the backups and of their compressed forms are different from each other and from the
    file's, and the file itself is never called outdated: what the file held at the start,
    followed by everything written, is what the backups held in the order they were made,
    followed by the file; and what each backup held is still in it, or can be decompressed from
    its compressed form, unless the rule called one of the two outdated. *)
Theorem rotation_keeps_lines {R : Type} `{!RotateRule R} (gz : string -> string) (gunzip : string -> option string) (now : Z) (name : string) (r : R) (compress : bool)
    (fs fs0 : files) (l : RotateLogger R) (evs : list log_event) (st : log_state) :
  (forall s, gunzip (gz s) = Some s) -> (forall now r, BackupFileName now r <> "") ->
  initialize now all_work name r compress fs = Some (l, fs0) -> log_run gz evs (mkLog l fs0 [] [] []) = Some st ->
  apart (Clean name) (ls_made st) -> Clean name ∉ ls_removed st ->
  exists segs, segs.*1 = ls_made st /\
    mjoin segs.*2 ++ default [] (ls_files st !! Clean name) = default [] (fs !! Clean name) ++ written evs /\
    forall n cs, (n, cs) ∈ segs -> ls_files st !! n = Some cs \/
      (exists c, ls_files st !! gzipName n = Some c /\ gunzip (String.concat "" c) = Some (String.concat "" cs)) \/
      n ∈ ls_removed st \/ gzipName n ∈ ls_removed st.
Proof.
  intros G B I H A Hr. assert (K : keeps gz name (default [] (fs !! Clean name)) (mkLog l fs0 [] [] []) [] (default [] (fs !! Clean name))).
  { unfold initialize in I. cbn [os_create os_open all_work] in I. destruct (fs !! Clean name) as [chunks|] eqn:E; injection I as <- <-; split; cbn; try done; try (by apply NoDup_nil); try (intros ? ? ?%elem_of_nil; done); try (intros ? ?%elem_of_nil; done);
      (split_and!; [done|apply B|]); cbn; [done|by rewrite lookup_insert_eq]. }
  destruct (keeps_run B gz name evs _ _ _ _ _ K H A Hr) as (segs & cur & [Kn (_ & _ & Ko) Km Kl _ _ Ks]).
  exists segs. rewrite Kn in Ko. rewrite Ko. split_and!; [done|done|]. intros n cs Hn. destruct (Ks n cs Hn) as [?|[?|[[_ ?]|[_ E]]]]; [by right; right; left|by right; right; right|by left|].
  right; left. eexists. split; [exact E|]. cbn. apply G.
Qed.

(** A clock whose formats are the time in unary. *)
Fixpoint ticks (n : nat) : string := match n with O => "" | S n => String "|" (ticks n) end.
Definition tick_text (now : Z) : string := ticks (S (Z.to_nat now)).
Definition no_glob (_ : string) (_ : files) : option (list string) := None.

#[local] Instance tick_daily : RotateRule DailyRotateRule := daily_rule tick_text no_glob.
#[local] Instance tick_size : RotateRule SizeLimitRotateRule := size_rule tick_text no_glob.

(** Two rotations; the first backup is compressed, the compression of the second one fails. *)
Definition demo_events : list log_event :=
  [LWrite 1 "a"; LWrite 1 "b"; LWrite 2 "c"; LPost 0 2 GzOk; LWrite 3 "d"; LPost 0 3 GzOk; LPost 1 3 (GzPartial ["?"]); LPost 0 3 GzOk].
Definition demo_rule : DailyRotateRule := mkDaily "||" "app.log" "-" 0 false.
Definition demo_start : log_state (R := DailyRotateRule) := mkLog (mkLogger "app.log" "app.log-||" true demo_rule true 0) {["app.log" := []]} [] [] [].
Definition demo_end : log_state (R := DailyRotateRule) := default demo_start (log_run (fun s => "z" +:+ s) demo_events demo_start).

Lemma demo_end_is : ls_made demo_end = ["app.log-||"; "app.log-|||"] /\ ls_removed demo_end = [] /\
  ls_files demo_end = {["app.log-||.gz" := ["zab"]; "app.log-|||" := ["c"]; "app.log-|||.gz" := ["?"]; "app.log" := ["d"]]}.
Proof. vm_compute. split_and!; reflexivity. Qed.

Lemma rotation_keeps_lines_witness :
  exists segs, segs.*1 = ls_made demo_end /\ mjoin segs.*2 ++ default [] (ls_files demo_end !! "app.log") = ["a"; "b"; "c"; "d"].
Proof.
  assert (B : forall now (r : DailyRotateRule), BackupFileName now r <> "").
  { intros now r'. cbn. unfold daily_BackupFileName. destruct (rr_filename r'), (delimiter r'); discriminate. }
  assert (I0 : initialize 1 all_work "app.log" demo_rule true (∅ : files) = Some (ls_logger demo_start, ls_files demo_start)) by (vm_compute; reflexivity).
  assert (Run : log_run (fun s => "z" +:+ s) demo_events demo_start = Some demo_end) by (vm_compute; reflexivity).
  destruct (rotation_keeps_lines (fun s => "z" +:+ s) (fun s => match s with String _ s => Some s | _ => None end) 1 "app.log" demo_rule true ∅ _ _ demo_events demo_end (fun _ => eq_refl) B I0 Run) as (segs & H1 & H2 & _).
  - rewrite (proj1 demo_end_is). split_and!.
    + apply (bool_decide_unpack _). vm_compute. exact I.
    + intros n m. rewrite !elem_of_cons, !elem_of_nil. intros [->|[->|[]]] [->|[->|[]]]; discriminate.
    + intros n. rewrite !elem_of_cons, !elem_of_nil. intros [->|[->|[]]]; split; discriminate.
  - rewrite (proj1 (proj2 demo_end_is)). apply not_elem_of_nil.
  - exists segs. split; [exact H1|]. exact H2.
Defined.

(** The size rule at a clock of seconds: of the files that three rotations in one second make
    only the last is kept, since they have one name. *)
Lemma rotations_of_one_second_lose :
  let r := mkSizeRule (mkDaily "" "app.log" "-" 0 false) 1 0 in
  let '(_, fs', names) := write_all [(1, "a"); (1, "b"); (1, "c"); (1, "d")] (mkLogger "app.log" "app-||.log" true r false 0) {["app.log" := []]} in
  names = ["app-||.log"; "app-||.log"; "app-||.log"] /\ fs' = {["app-||.log" := ["c"]; "app.log" := ["d"]]}.
Proof. vm_compute. split; reflexivity. Qed.

(** *** Sizes *)

Lemma size_of_app a b : size_of (a ++ b) = size_of a + size_of b.
Proof. unfold size_of. induction a as [|x a IH]; cbn; [lia|]. lia. Qed.

Section sizes.
Context (RFC3339 : Z -> string) (Glob : string -> files -> option (list string)).
#[local] Instance the_rule : RotateRule SizeLimitRotateRule := size_rule RFC3339 Glob.
Context (named : forall now r, BackupFileName now r <> "").

(** The size rule bounds every file.  Whatever is written, every file that the logger makes
    or appends to holds at most the limit or, if that is more, the longest entry, provided the
    file was no longer than that at the start. *)
Theorem log_files_bounded (ws : list (Z * string)) (l : RotateLogger SizeLimitRotateRule) (fs : files) (chunks : list string) (B : Z) :
  opened l fs chunks -> currentSize l = size_of chunks -> size_of chunks <= B -> 0 < maxSize (rule l) <= B -> B < 2 ^ 61 -> Forall (fun w => Z.of_nat (String.length w.2) <= B) ws ->
  let '(_, fs', _) := write_all ws l fs in forall f, fs' !! f = fs !! f \/ size_of (default [] (fs' !! f)) <= B.
Proof using named.
  intros O C S M HB F. revert l fs chunks O C S M. induction F as [|[now v] ws Hv F IH]; intros l fs chunks O C S M; cbn [write_all]; [by left|]. cbn in Hv.
  pose proof (write_spec named now v l fs chunks O) as W. destruct (write now all_work v l fs) as [[l1 fs1] made]. destruct W as [Fn W].
  assert (P : 0 <= size_of chunks) by (unfold size_of; lia). assert (V : size_of [v] = Z.of_nat (String.length v)) by (unfold size_of; cbn; lia).
  destruct W as [(-> & O1 & E1 & Rl & C1 & Sh)|(-> & O1 & E1 & Rl & C1)].
  - cbn in Sh. unfold size_ShallRotate in Sh. rewrite C in Sh, C1. rewrite wrap64_small in Sh, C1 by lia. specialize (IH l1 fs1 (chunks ++ [v]) O1). rewrite size_of_app, V, Rl in IH.
    specialize (IH C1 ltac:(destruct (maxSize (rule l) <? size_of chunks + Z.of_nat (String.length v)) eqn:X; lia) M). destruct (write_all ws l1 fs1) as [[l' fs'] names]. intros f. destruct (IH f) as [H|H]; [|by right].
    rewrite H, E1. destruct (decide (f = Clean (filename l))) as [->|N]; [right|left; by rewrite lookup_insert_ne]. rewrite lookup_insert_eq. cbn. rewrite size_of_app, V. lia.
  - rewrite wrap64_small in C1 by lia. specialize (IH l1 fs1 [v] O1). rewrite V, Rl in IH. specialize (IH C1 Hv M). destruct (write_all ws l1 fs1) as [[l' fs'] names]. intros f. destruct (IH f) as [H|H]; [|by right].
    rewrite H, E1. destruct (decide (f = Clean (filename l))) as [->|N]; [right; rewrite lookup_insert_eq; cbn; lia|]. rewrite lookup_insert_ne by done.
    destruct (decide (f = backup l)) as [->|N2]; [right; rewrite lookup_insert_eq; cbn; lia|left]. rewrite lookup_insert_ne by done. by rewrite lookup_delete_ne.
Qed.
End sizes.

Lemma Clean_nonempty p : Clean p <> "".
Proof.
  unfold Clean. destruct (String.eqb_spec p ""); [done|]. destruct (HasPrefix p "/"); [done|].
  assert (F : Forall (fun e => e <> "") (clean_elems false p)).
  { unfold clean_elems. apply Forall_reverse. assert (G : forall l st, Forall (fun e => e <> "") st -> Forall (fun e => e <> "") (foldl (clean_step false) st l)); [|by apply G].
    induction l as [|e l IH]; intros st H; cbn; [done|]. apply IH. unfold clean_step. destruct (String.eqb_spec e ""); cbn; [done|]. destruct (e =? ".")%string; [done|]. destruct (String.eqb_spec e "..") as [->|]; [|by constructor].
    destruct st as [|x st]; [by repeat constructor|]. destruct (x =? "..")%string; [by constructor|]. by apply Forall_cons in H as [_ H]. }
  destruct (clean_elems false p) as [|e es]; [done|]. apply Forall_cons in F as [F _]. destruct e as [|c e]; [done|]. cbn. by destruct es.
Qed.

Lemma size_named RFC3339 now r : (forall now, RFC3339 now <> "") -> size_BackupFileName RFC3339 now r <> "".
Proof.
  intros N. unfold size_BackupFileName. destruct (parseFilename r) as [prefix ext]. unfold Join2. destruct (String.eqb_spec (Dir (rr_filename (sr_daily r))) "") as [E|_]; [|apply Clean_nonempty].
  match goal with |- context [String.eqb ?x ""] => destruct (String.eqb_spec x "") as [X|_] end; [|apply Clean_nonempty]. specialize (N now). destruct prefix; [|done]. destruct (delimiter (sr_daily r)); [|done]. by destruct (RFC3339 now).
Qed.

Lemma log_files_bounded_witness :
  let r := mkSizeRule (mkDaily "" "app.log" "-" 0 false) 3 0 in let l := mkLogger "app.log" "app-||.log" true r false 0 in
  let '(_, fs', _) := write_all [(1, "ab"); (2, "cd"); (3, "ef")] l ({["app.log" := []]} : files) in forall f, fs' !! f = ({["app.log" := []]} : files) !! f \/ size_of (default [] (fs' !! f)) <= 3.
Proof.
  intros r l. apply (log_files_bounded tick_text no_glob) with (chunks := []); try (cbn; lia); try reflexivity.
  - intros now r'. by apply size_named.
  - split_and!; [reflexivity|discriminate|reflexivity].
  - by vm_compute.
  - repeat constructor; cbn; lia.
Defined.

(** *** Old backups *)

Lemma str_le_cons a s b t : str_le (String a s) (String b t) <-> (N_of_ascii a < N_of_ascii b)%N \/ (a = b /\ str_le s t).
Proof.
  unfold str_le, String.leb. cbn. unfold Ascii.compare. destruct (N.compare_spec (N_of_ascii a) (N_of_ascii b)) as [E|L|L].
  - assert (a = b) as -> by (rewrite <- (ascii_N_embedding a), <- (ascii_N_embedding b); by rewrite E). split; [by right|]. intros [?|[_ H]]; [lia|done].
  - split; [by left|done].
  - split; [done|]. intros [?|[-> _]]; lia.
Qed.

#[export] Instance str_le_trans : Transitive str_le.
Proof.
  intros x. induction x as [|a x IH]; intros [|b y] [|c z] H1 H2; try done. apply str_le_cons in H1, H2. apply str_le_cons. destruct H1 as [H1|[-> H1]], H2 as [H2|[-> H2]]; [left; lia|by left|by left|right; split; [done|by apply (IH y)]].
Qed.
#[export] Instance str_le_total : Total str_le.
Proof.
  intros x. induction x as [|a x IH]; intros [|b y]; [by left|by left|by right|]. rewrite !str_le_cons. destruct (N.lt_trichotomy (N_of_ascii a) (N_of_ascii b)) as [H|[H|H]]; [by left; left| |by right; left].
  assert (a = b) as -> by (rewrite <- (ascii_N_embedding a), <- (ascii_N_embedding b); by rewrite H). destruct (IH y); [left|right]; by right.
Qed.

Lemma before_boundary_prefix b l : before_boundary b l `prefix_of` l.
Proof. induction l as [|f l IH]; cbn; [done|]. destruct (String.leb b f); [apply prefix_nil|by apply prefix_cons]. Qed.

(** What the size rule removes.  The files it names as outdated are backups; each of them comes
    before every backup it keeps; and it keeps no more than [maxBackups], if that is set. *)
Theorem outdated_backups RFC3339 Glob (now : Z) (r : SizeLimitRotateRule) (fs : files) (l : list string) :
  let d := sr_daily r in
  Glob (Dir (rr_filename d) +:+ "/" +:+ (parseFilename r).1 +:+ delimiter d +:+ "*" +:+ (parseFilename r).2 +:+ (if gzip d then gzipExt else "")) fs = Some l -> NoDup l ->
  let out := size_OutdatedFiles RFC3339 Glob now r fs in
  (forall f, f ∈ out -> f ∈ l) /\ (forall f g, f ∈ out -> g ∈ l -> g ∉ out -> str_le f g) /\ (0 < maxBackups r -> Z.of_nat (List.length (filter (fun f => f ∉ out) l)) <= maxBackups r).
Proof.
  intros d G N out. unfold size_OutdatedFiles in out. fold d in out. destruct (parseFilename r) as [prefix ext]. cbn in G. unfold out. rewrite G. clear out.
  set (s := sort_Strings l). set (cut := if bool_decide _ then _ else _). set (old := if 0 <? days d then _ else _).
  assert (P : (take cut s ++ old) `prefix_of` s).
  { rewrite <- (take_drop cut s) at 2. apply prefix_app. unfold old. destruct (0 <? days d); [apply before_boundary_prefix|apply prefix_nil]. }
  assert (Perm : s ≡ₚ l) by apply merge_sort_Permutation. assert (St : StronglySorted str_le s) by (apply StronglySorted_merge_sort; apply _).
  destruct P as [q P]. set (p := take cut s ++ old) in *. assert (In : forall f, f ∈ elements (list_to_set p : gset string) <-> f ∈ p) by (intros f; by rewrite elem_of_elements, elem_of_list_to_set).
  assert (Ns : NoDup (p ++ q)) by (rewrite <- P; by rewrite Perm). apply NoDup_app in Ns as (N1 & N2 & N3). split_and!.
  - intros f H%In. rewrite <- Perm, P. apply elem_of_app. by left.
  - intros f g H%In Hg Hn. rewrite In in Hn. rewrite <- Perm, P in Hg. apply elem_of_app in Hg as [Hg|Hg]; [done|]. rewrite P in St. by eapply StronglySorted_app_1_elem_of.
  - intros Hm. assert (E : length (filter (fun f => f ∉ elements (list_to_set p : gset string)) l) = length q).
    { rewrite <- (Permutation_length (filter_Permutation _ _ _ Perm)), P, filter_app. rewrite filter_none, filter_all; [done| |].
      - apply Forall_forall. intros f Hf. rewrite In. intros Hp. by apply (N2 f).
      - apply Forall_forall. intros f Hf H. apply H. by apply In. }
    change (Z.of_nat (length (filter (fun f => f ∉ elements (list_to_set p : gset string)) l)) <= maxBackups r). rewrite E.
    assert (Ls : (length s = length p + length q)%nat) by (rewrite P at 1; apply length_app). assert (Lp : (cut <= length p)%nat).
    { assert (cut <= length s)%nat by (unfold cut; case_bool_decide; lia). unfold p. rewrite length_app, length_take_le by done. lia. }
    unfold cut in Lp. case_bool_decide; lia.
Qed.

Lemma outdated_backups_witness :
  let r := mkSizeRule (mkDaily "" "app.log" "-" 0 false) 1 2 in let l := ["./app-|||.log"; "./app-|.log"; "./app-||.log"] in
  let out := size_OutdatedFiles tick_text (fun _ _ => Some l) 5 r ∅ in
  (forall f, f ∈ out -> f ∈ l) /\ (forall f g, f ∈ out -> g ∈ l -> g ∉ out -> str_le f g) /\ (0 < 2 -> Z.of_nat (List.length (filter (fun f => f ∉ out) l)) <= 2).
Proof.
  intros r l. apply (outdated_backups tick_text (fun _ _ => Some l) 5 r ∅ l); [reflexivity|]. apply (bool_decide_unpack _). vm_compute. exact I.
Defined.
