(* ===== verification/EntryAuth.v ===== *)
(** * Authentication of entries (runtime/entry.go, runtime/service.go; server/middleware:
      oauth.go, ory.go, ory_jwt.go, jwt_zitadel.go, kratos_session.go)

    [registerAuthMiddleware] builds the chain of handlers in front of an entry's handler.
    A chain is run on the request and the "auth_mode" local; a nil handler in it is
    [None].  The clients (OpenFGA, Zitadel, Ory, the introspection endpoint), the session
    store and the user's validators are arguments. *)

From S2P Require Import Prelude GoStrings Codec Http.
From S2P Require Import SqlRewrite ConfigTypes.
From S2P Require Import Auth.
From S2P Require RateLimit ConfigValidate ConfigText SqlModel.
From Stdlib Require Import Ascii Btauto.

#[local] Open Scope string_scope.
#[local] Open Scope list_scope.
#[local] Open Scope Z_scope.

Notation hasAuth := ConfigValidate.hasAuth.

(** ** Chains *)

Record ctx : Type := mkCtx { cx_rq : request; cx_mode : string }.

Definition with_auth (a : AuthContext) (rq : request) : request :=
  mkRequest (rq_method rq) (rq_path rq) (rq_header rq) (rq_cookie rq) (rq_query rq) (rq_param rq) (rq_routeName rq) (rq_body rq)
    (Some a) (rq_local rq) (rq_csrfSkip rq).

Definition with_claims (k : string) (v : claims) (rq : request) : request :=
  mkRequest (rq_method rq) (rq_path rq) (rq_header rq) (rq_cookie rq) (rq_query rq) (rq_param rq) (rq_routeName rq) (rq_body rq)
    (rq_auth rq) (fun k' => if (k' =? k)%string then Some v else rq_local rq k') (rq_csrfSkip rq).

Definition apply_effect (c : ctx) (e : effect) : ctx :=
  match e with
  | SetAuth a => mkCtx (with_auth a (cx_rq c)) (cx_mode c)
  | SetClaims k v => mkCtx (with_claims k v (cx_rq c)) (cx_mode c)
  | SetLocal k v => if (k =? "auth_mode")%string then mkCtx (cx_rq c) v else c
  | SetHeader _ _ | SetCookie _ _ => c
  end.

Notation handler := (ctx -> outcome).

Inductive chain_result := Reached (c : ctx) | Answered (o : outcome) | NilHandler.

Fixpoint run_chain (hs : list (option handler)) (c : ctx) : chain_result :=
  match hs with
  | [] => Reached c
  | None :: _ => NilHandler
  | Some h :: hs => match h c with Next effs => run_chain hs (foldl apply_effect c effs) | o => Answered o end
  end.

(** ** Introspection of OAuth tokens (oauth.go) *)

Section oauth.
Record OAuthConfig : Type := mkOAuth { oa_IntrospectionURL : string; oa_CacheTTL : Z }.

Record introspection : Type := mkIntrospection { in_Active : bool; in_Sub : string; in_Username : string; in_Scope : string }.

(** The endpoint's answer for a token ([None]: no answer that decodes), and the hexadecimal
    SHA-256 of a token. *)
Context (endpoint : string -> option introspection) (sha256_hex : string -> string).

Definition scope_words (s : string) : list string := String.string_of_list_ascii <$> Fields (String.list_ascii_of_string s).

(** [None] is an error. *)
Definition introspectToken (token : string) : option AuthContext :=
  match endpoint token with
  | None => None
  | Some c =>
      if negb (in_Active c) then None
      else
        let user := if (in_Sub c =? "")%string then in_Username c else in_Sub c in
        if (user =? "")%string then None else Some (mkAuth user "" (scope_words (in_Scope c)) [] token ∅)
  end.

Record introspectCacheEntry : Type := mkCacheEntry { ce_auth : AuthContext; ce_expires : Z }.
Notation introspectCache := (gmap string introspectCacheEntry).

Definition cache_get (now : Z) (key : string) (c : introspectCache) : option AuthContext * introspectCache :=
  match c !! key with
  | Some e => if ce_expires e <? now then (None, delete key c) else (Some (ce_auth e), c)
  | None => (None, delete key c)
  end.

Definition cache_set (now : Z) (key : string) (a : AuthContext) (ttl : Z) (c : introspectCache) : introspectCache :=
  <[key := mkCacheEntry a (now + ttl)]> c.

(** One request at time [now]; the cache is shared by all requests of the handler. *)
Definition Introspect (cfg : OAuthConfig) (now : Z) (cache : introspectCache) (rq : request) : outcome * introspectCache :=
  let ttl := if oa_CacheTTL cfg <=? 0 then 60 * 10^9 else oa_CacheTTL cfg in
  let disabled := oa_CacheTTL cfg <=? 0 in
  match CutPrefix (rq_header rq "Authorization") "Bearer " with
  | None => (Reply 401 "missing bearer token", cache)
  | Some token =>
      if (SqlModel.TrimSpace token =? "")%string then (Reply 401 "missing bearer token", cache)
      else if (oa_IntrospectionURL cfg =? "")%string then (Reply 500 "oauth introspection not configured", cache)
      else
        let key := sha256_hex token in
        let '(hit, cache) := if disabled then (None, cache) else cache_get now key cache in
        match hit with
        | Some a => (Next [SetAuth a], cache)
        | None =>
            match introspectToken token with
            | None => (Reply 401 "introspection", cache)
            | Some a => (Next [SetAuth a], if disabled then cache else cache_set now key a ttl cache)
            end
        end
  end.
End oauth.
Arguments Introspect endpoint sha256_hex cfg now cache rq : assert.

Notation introspectCache := (gmap string introspectCacheEntry).

(** ** Tokens validated by Zitadel and Ory, Kratos sessions, Keto *)

(** The two differ in the client that validates ([None] is an error) only. *)
Definition JWTWithClient (validate : string -> option claims) (cfg : JWTConfig) (rq : request) : outcome :=
  let contextKey := orElse (jc_ContextKey cfg) "claims" in
  let '(token, rawToken) := extractToken rq (jc_TokenLookup cfg) in
  if (token =? "")%string then Reply 401 "missing or malformed token"
  else
    match validate token with
    | None => Reply 401 "invalid token"
    | Some c =>
        let effects := [SetClaims contextKey c; SetAuth (buildAuthContext c rawToken)] in
        if match jc_TokenBlacklist cfg with Some revoked => revoked rawToken | None => false end then ReplyWith effects 401 "token revoked"
        else Next effects
    end.

Definition JWTWithZitadel := JWTWithClient.
Definition JWTWithOry := JWTWithClient.

Record kratosSession : Type := mkKratosSession { ks_ID : string; ks_OrgID : string; ks_Roles : list string }.

(** What is used of [ory.Client]. *)
Record oryClient : Type := mkOryClient {
  oc_ValidateJWT : string -> option claims;
  oc_ValidateSession : string -> option kratosSession;
  oc_KetoCheck : string -> string -> string -> string -> option bool;      (* namespace, object, relation, subject *)
  oc_RoleNamespace : string; oc_RoleRelation : string; oc_PermissionRelation : string
}.

(** [cookies] are the request's cookies in order. *)
Definition kratosSessionCookie (cookies : list (string * string)) (rq : request) : string :=
  let v := rq_cookie rq "ory_session" in
  if negb (v =? "")%string then v
  else foldl (fun found kv => if (found =? "")%string && HasPrefix kv.1 "ory_session" then kv.2 else found) "" cookies.

Definition KratosSession (cl : oryClient) (cookies : list (string * string)) (rq : request) : outcome :=
  let token := (extractToken rq "header:Authorization").1 in
  let token := if (token =? "")%string then rq_header rq "X-Session-Token" else token in
  let token := if (token =? "")%string then kratosSessionCookie cookies rq else token in
  if (token =? "")%string then Reply 401 "missing session"
  else
    match oc_ValidateSession cl token with
    | None => Reply 401 "invalid or expired session"
    | Some s => Next [SetLocal "session" (ks_ID s); SetAuth (mkAuth (ks_ID s) (ks_OrgID s) (ks_Roles s) [] token ∅)]
    end.

Definition subjectID (a : AuthContext) : string := ("user:" ++ UserID a)%string.

Fixpoint checkRolesViaKeto (cl : oryClient) (a : AuthContext) (roles : list string) : option bool :=
  match roles with
  | [] => Some false
  | role :: roles =>
      match oc_KetoCheck cl (oc_RoleNamespace cl) role (oc_RoleRelation cl) (subjectID a) with
      | None => None
      | Some true => Some true
      | Some false => checkRolesViaKeto cl a roles
      end
  end.

Definition splitPermission (perm : string) : option (string * string) :=
  match SplitN2 perm ":"%char with (a, Some b) => Some (a, b) | (_, None) => None end.

Fixpoint checkPermissionsViaKeto (cl : oryClient) (a : AuthContext) (perms : list string) : option bool :=
  match perms with
  | [] => Some false
  | perm :: perms =>
      match splitPermission perm with
      | None => checkPermissionsViaKeto cl a perms
      | Some (ns, obj) =>
          match oc_KetoCheck cl ns obj (oc_PermissionRelation cl) (subjectID a) with
          | None => None
          | Some true => Some true
          | Some false => checkPermissionsViaKeto cl a perms
          end
      end
  end.

Definition is_nil {A} (l : list A) : bool := match l with [] => true | _ => false end.

Definition Ory (cl : oryClient) (roles permissions : list string) (rq : request) : outcome :=
  match rq_auth rq with
  | None => Reply 401 "auth context required"
  | Some a =>
      if negb (is_nil roles) && negb (bool_decide (checkRolesViaKeto cl a roles = Some true)) then Reply 403 "insufficient roles"
      else if negb (is_nil permissions) && negb (bool_decide (checkPermissionsViaKeto cl a permissions = Some true)) then Reply 403 "insufficient permissions"
      else Next []
  end.

(** ** The middlewares of an entry *)

(** The validator's error, [None] when it accepts: identity, roles, permissions. *)
Notation authValidatorFn := (AuthContext -> list string -> list string -> option string).

(** What [registerEntries] passes on; a nil pointer or function is [None]. *)
Record deps : Type := mkDeps {
  dp_driver : string;
  dp_jwtCfg : option JWTConfig;
  dp_authValidator : option authValidatorFn;
  dp_apiKeyValidator : option (string -> resolved);
  dp_basicValidator : option (string -> string -> resolved);
  dp_fga : option (string -> string -> string -> option bool);
  dp_zitadel : option (string -> option claims);
  dp_ory : option oryClient;
  dp_oauth : option OAuthConfig;                    (* entryAuthExtra.oauth *)
  dp_session : option string                        (* the cookie of entryAuthExtra.session *)
}.

Definition identity_modes : list string := ["jwt"; "basic"; "oauth"; "session"].
Definition hasIdentityAuth (e : EntryDef) : bool := existsb (hasAuth e) identity_modes.

Definition mode_in (c : ctx) (ms : list string) : bool := existsb (String.eqb (cx_mode c)) ms.

Definition jwtReadsHeader (e : EntryDef) (jwtCfg : option JWTConfig) : bool :=
  let reads lookup := (lookup =? "")%string || HasPrefix lookup "header:" in
  if (EntryDef_JWTFrom e =? "")%string then match jwtCfg with None => false | Some cfg => reads (jc_TokenLookup cfg) end
  else HasPrefix (EntryDef_JWTFrom e) "header:".

Definition needsAuthRouter (e : EntryDef) (hasJWT hasOAuth hasAPIKey hasBasic : bool) (jwtCfg : option JWTConfig) : bool :=
  let channels := Z.b2z hasJWT + Z.b2z hasOAuth + Z.b2z hasAPIKey + Z.b2z hasBasic in
  if channels <? 2 then false else jwtReadsHeader e jwtCfg || hasBasic || hasOAuth.

Definition authRouter (e : EntryDef) : handler := fun c =>
  let raw := rq_header (cx_rq c) "Authorization" in
  let prefix := EntryDef_APIPrefix e in
  if HasPrefix raw "Bearer " && hasAuth e "jwt" then Next [SetLocal "auth_mode" "jwt"]
  else if HasPrefix raw "Bearer " && hasAuth e "oauth" then Next [SetLocal "auth_mode" "oauth"]
  else if HasPrefix raw "Basic " && hasAuth e "basic" then Next [SetLocal "auth_mode" "basic"]
  else if ((prefix =? "")%string || HasPrefix raw prefix) && hasAuth e "apikey" then Next [SetLocal "auth_mode" "apikey"]
  else Next [].

Definition jwtConfigForEntry (e : EntryDef) (cfg : JWTConfig) : JWTConfig :=
  let lookup := if (EntryDef_JWTFrom e =? "")%string then jc_TokenLookup cfg else EntryDef_JWTFrom e in
  mkJWTConfig (jc_Secret cfg) (jc_PrevSecret cfg) (jc_ContextKey cfg) (orElse lookup "header:Authorization") (jc_Algorithm cfg)
    (jc_Issuer cfg) (jc_Audience cfg) (jc_TokenBlacklist cfg) (jc_JWKSURL cfg).

Definition jwtSkipWrapper (e : EntryDef) (mw : request -> outcome) : handler := fun c =>
  if mode_in c ["apikey"; "basic"; "oauth"; "session"] then Next []
  else if (EntryDef_JWTFrom e =? "")%string && (cx_mode c =? "")%string && negb (HasPrefix (rq_header (cx_rq c) "Authorization") "Bearer ") then Next []
  else mw (cx_rq c).

Definition manualAuthMiddleware (e : EntryDef) (roles permissions : list string) (validator : option authValidatorFn) : option handler :=
  match validator with
  | None => None
  | Some validate =>
      if negb (hasIdentityAuth e) then None
      else Some (fun c =>
        if (cx_mode c =? "apikey")%string then Next []
        else match rq_auth (cx_rq c) with
             | None => Reply 401 "auth context required"
             | Some a => match validate a roles permissions with Some err => Reply 403 err | None => Next [] end
             end)
  end.

Definition apiKeyRoleMiddleware (e : EntryDef) (validator : option authValidatorFn) : list (option handler) :=
  match validator with
  | Some validate =>
      if negb (hasAuth e "apikey") || is_nil (EntryDef_Roles e) then []
      else [Some (fun c =>
        if mode_in c ["jwt"; "basic"; "oauth"; "session"] then Next []
        else match rq_auth (cx_rq c) with
             | None => Reply 401 "auth context required"
             | Some a => match validate a (EntryDef_Roles e) (EntryDef_Permissions e) with Some err => Reply 403 err | None => Next [] end
             end)]
  | None => []
  end.

(** ** What is validated before (runtime/service.go) *)

(** What the service was given and its auth section. *)
Record authSetup : Type := mkSetup {
  su_driver : string; su_hasAPIKeyValidator : bool; su_hasAuthValidator : bool; su_hasBasicValidator : bool;
  su_oauth : option OAuthConf; su_session : option SessionConf
}.

Definition validateAPIKeyEntry (e : EntryDef) (s : authSetup) : option string :=
  if negb (hasAuth e "apikey") then None
  else if (su_driver s =? "none")%string || (su_driver s =? "")%string then Some "apikey mode requires auth.driver"
  else if ((su_driver s =? "manual")%string || (su_driver s =? "ory")%string) && negb (su_hasAPIKeyValidator s) then Some "apikey mode requires WithAPIKeyValidator()"
  else None.

Definition validateJWTEntry (e : EntryDef) (s : authSetup) (hasAPIKey : bool) : option string :=
  if negb (hasAuth e "jwt") then None
  else if (su_driver s =? "none")%string || (su_driver s =? "")%string then Some "jwt mode requires driver != none"
  else if (su_driver s =? "manual")%string && negb (su_hasAuthValidator s) && negb hasAPIKey then Some "jwt mode requires WithAuthValidator()"
  else None.

Definition validateEntryAuthConfig (e : EntryDef) (s : authSetup) : option string :=
  match validateAPIKeyEntry e s with
  | Some err => Some err
  | None =>
      match validateJWTEntry e s (hasAuth e "apikey") with
      | Some err => Some err
      | None =>
          if hasAuth e "basic" && negb (su_hasBasicValidator s) then Some "basic mode requires WithBasicValidator()"
          else if hasAuth e "oauth" && match su_oauth s with Some o => (SqlModel.TrimSpace (OAuthConf_IntrospectionURL o) =? "")%string | None => true end
          then Some "oauth mode requires auth.oauth.introspection_url"
          else if hasAuth e "session" && negb (su_driver s =? "ory")%string &&
                  match su_session s with Some ss => (SqlModel.TrimSpace (SessionConf_Store ss) =? "")%string | None => true end
          then Some "session mode requires auth.session.store (shared KV)"
          else None
      end
  end.

(** [buildAuthExtra]: the OAuth configuration and the session cookie; an unknown store is an
    error.  [ParseDuration] is [None] on a text that is not a duration. *)
Definition parseServerDuration (ParseDuration : string -> option Z) (s : string) (fallback : Z) : Z := default fallback (ParseDuration s).

Definition buildAuthExtra (ParseDuration : string -> option Z) (kvConns : gset string) (auth : option AuthConfig)
  : (option OAuthConfig * option string) + string :=
  match auth with
  | None => inl (None, None)
  | Some a =>
      let oauth := (fun o => mkOAuth (OAuthConf_IntrospectionURL o) (parseServerDuration ParseDuration (OAuthConf_CacheTTL o) (60 * 10^9))) <$> AuthConfig_OAuth a in
      match AuthConfig_Session a with
      | None => inl (oauth, None)
      | Some s =>
          if (SqlModel.TrimSpace (SessionConf_Store s) =? "")%string then inr "auth.session.store is required (shared KV)"
          else if bool_decide (SessionConf_Store s ∈ kvConns) then inl (oauth, Some (orElse (SessionConf_Cookie s) "sid"))
          else inr "auth.session.store not found"
      end
  end.

(** The setup validation saw and the dependencies registration gets are the same
    service's. *)
Definition agrees (s : authSetup) (d : deps) : Prop :=
  su_driver s = dp_driver d /\ su_hasAPIKeyValidator s = bool_decide (is_Some (dp_apiKeyValidator d)) /\
  su_hasAuthValidator s = bool_decide (is_Some (dp_authValidator d)) /\ su_hasBasicValidator s = bool_decide (is_Some (dp_basicValidator d)) /\
  (is_Some (su_oauth s) <-> is_Some (dp_oauth d)) /\ (is_Some (su_session s) <-> is_Some (dp_session d)).

(** ** The chain *)

Section entry.
(** The environment of the handlers: the JWT library (as in Auth), the introspection
    endpoint and its cache at this request, the session store and its codec, the cookies
    of the request in order, and the time in seconds and nanoseconds. *)
Context {RSAKey ECKey : Type} (parseRSAPublicKey : string -> option RSAKey) (parseECDSAPublicKey : string -> option ECKey)
  (jwksKeyFunc : JWTConfig -> tokenHeader -> option (@key RSAKey ECKey))
  (jwtParse : Z -> list string -> (tokenHeader -> option (@key RSAKey ECKey)) -> string -> option claims)
  (GetIssuer : claims -> option string) (GetAudience : claims -> option (list string)) (GetExpirationTime : claims -> option (option Z)).
Context (endpoint : string -> option introspection) (sha256_hex : string -> string) (cache : introspectCache).
Context (unmarshal : string -> option sessionData) (store : gmap string store_entry).
Context (cookies : list (string * string)) (now now_ns : Z).
(** The rate limit of the entry after authentication, if one is configured: it lets a request
    pass or answers 429. *)
Context (rate_limit : option handler).

Definition JWT_mw (cfg : JWTConfig) : request -> outcome :=
  JWT parseRSAPublicKey parseECDSAPublicKey jwksKeyFunc jwtParse GetIssuer GetAudience GetExpirationTime cfg now_ns.

Definition jwtMiddleware (e : EntryDef) (jwtCfg : option JWTConfig) : option handler :=
  match jwtCfg with
  | None => None
  | Some cfg => if negb (hasAuth e "jwt") then None else Some (jwtSkipWrapper e (JWT_mw (jwtConfigForEntry e cfg)))
  end.

(** A nil [jwtCfg] is dereferenced while the chain is built: that panic is a nil handler
    too. *)
Definition zitadelJWTMiddleware (e : EntryDef) (jwtCfg : option JWTConfig) (z : string -> option claims) : option handler :=
  cfg ← jwtCfg; if negb (hasAuth e "jwt") then None else Some (jwtSkipWrapper e (JWTWithZitadel z (jwtConfigForEntry e cfg))).

Definition oryJWTMiddleware (e : EntryDef) (jwtCfg : option JWTConfig) (o : oryClient) : option handler :=
  cfg ← jwtCfg; if negb (hasAuth e "jwt") then None else Some (jwtSkipWrapper e (JWTWithOry (oc_ValidateJWT o) (jwtConfigForEntry e cfg))).

Definition openfgaMiddleware (e : EntryDef) (fga : option (string -> string -> string -> option bool)) (roles permissions : list string) : option handler :=
  match fga with
  | None => None
  | Some check => if negb (hasIdentityAuth e) then None else Some (fun c => OpenFGA check (mkFGA "" "" roles permissions) (cx_rq c))
  end.

Definition oryMiddleware (e : EntryDef) (o : option oryClient) (roles permissions : list string) : option handler :=
  match o with
  | None => None
  | Some cl => if negb (hasIdentityAuth e) then None else Some (fun c => Ory cl roles permissions (cx_rq c))
  end.

Definition apiKeyMiddleware (e : EntryDef) (resolver : option (string -> resolved)) (fga : option (string -> string -> string -> option bool)) : option handler :=
  let object := (EntryDef_Type e ++ ":" ++ EntryDef_Path e)%string in
  let mw := APIKey resolver fga (mkAPIKeyConfig (EntryDef_APIPrefix e) "can_access" object "") in
  Some (fun c =>
    if mode_in c ["jwt"; "basic"; "oauth"; "session"] then Next []
    else if (cx_mode c =? "")%string && HasPrefix (rq_header (cx_rq c) "Authorization") "Bearer " then Next []
    else if (cx_mode c =? "")%string && hasIdentityAuth e && (rq_header (cx_rq c) "Authorization" =? "")%string then Next []
    else mw (cx_rq c)).

(** The wrapper that basic, oauth and session share: skip when there is an identity or
    another mode was chosen. *)
Definition unless_other (others : list string) (mw : request -> outcome) : handler := fun c =>
  match rq_auth (cx_rq c) with
  | Some _ => Next []
  | None => if mode_in c others then Next [] else mw (cx_rq c)
  end.

Definition basicMiddleware (e : EntryDef) (validator : option (string -> string -> resolved)) : option handler :=
  if negb (hasAuth e "basic") then None else Some (unless_other ["jwt"; "apikey"; "oauth"; "session"] (Basic validator "")).

Definition oauthMiddleware (e : EntryDef) (cfg : OAuthConfig) : option handler :=
  if negb (hasAuth e "oauth") then None
  else Some (unless_other ["jwt"; "apikey"; "basic"; "session"] (fun rq => (Introspect endpoint sha256_hex cfg now_ns cache rq).1)).

Definition sessionMiddleware (e : EntryDef) (cookie : string) : option handler :=
  if negb (hasAuth e "session") then None else Some (unless_other ["jwt"; "apikey"; "basic"; "oauth"] (Session unmarshal cookie now store)).

Definition kratosSessionMiddleware (e : EntryDef) (cl : oryClient) : option handler :=
  if negb (hasAuth e "session") then None else Some (unless_other ["jwt"; "apikey"; "basic"; "oauth"] (KratosSession cl cookies)).

(** [append(mws, mw)] with [mw] possibly nil. *)
Definition appendJWTMiddleware (e : EntryDef) (d : deps) : list (option handler) :=
  if (dp_driver d =? "openfga-zitadel")%string then
    [match dp_zitadel d with Some z => zitadelJWTMiddleware e (dp_jwtCfg d) z | None => jwtMiddleware e (dp_jwtCfg d) end] ++
    match dp_fga d with Some _ => [openfgaMiddleware e (dp_fga d) (EntryDef_Roles e) (EntryDef_Permissions e)] | None => [] end
  else if (dp_driver d =? "ory")%string then
    [match dp_ory d with Some o => oryJWTMiddleware e (dp_jwtCfg d) o | None => jwtMiddleware e (dp_jwtCfg d) end] ++
    match dp_ory d with Some _ => [oryMiddleware e (dp_ory d) (EntryDef_Roles e) (EntryDef_Permissions e)] | None => [] end
  else if (dp_driver d =? "manual")%string then
    [jwtMiddleware e (dp_jwtCfg d); manualAuthMiddleware e (EntryDef_Roles e) (EntryDef_Permissions e) (dp_authValidator d)]
  else [jwtMiddleware e (dp_jwtCfg d)].

Definition jwt_active (e : EntryDef) (d : deps) : bool := hasAuth e "jwt" && negb (dp_driver d =? "none")%string && negb (dp_driver d =? "")%string.

Definition appendCredentialMiddlewares (e : EntryDef) (d : deps) : list (option handler) :=
  (if hasAuth e "apikey" then [apiKeyMiddleware e (dp_apiKeyValidator d) (dp_fga d)] ++ apiKeyRoleMiddleware e (dp_authValidator d) else []) ++
  (if hasAuth e "basic" then [basicMiddleware e (dp_basicValidator d)] else []) ++
  match dp_oauth d with Some cfg => if hasAuth e "oauth" then [oauthMiddleware e cfg] else [] | None => [] end ++
  match dp_session d with Some ck => if hasAuth e "session" then [sessionMiddleware e ck] else [] | None => [] end ++
  match dp_ory d with Some o => if hasAuth e "session" && (dp_driver d =? "ory")%string then [kratosSessionMiddleware e o] else [] | None => [] end ++
  (if jwt_active e d then appendJWTMiddleware e d ++ (if EntryDef_RequiresMFA e then [Some (fun c => MFARequired (cx_rq c))] else []) else []).

(** A factory that returns nil adds nothing. *)
Definition keep (h : option handler) : list (option handler) := match h with Some _ => [h] | None => [] end.

Definition appendNonJWTRoles (e : EntryDef) (d : deps) : list (option handler) :=
  if jwt_active e d || negb (hasIdentityAuth e) then []
  else if (dp_driver d =? "openfga-zitadel")%string then keep (openfgaMiddleware e (dp_fga d) (EntryDef_Roles e) (EntryDef_Permissions e))
  else if (dp_driver d =? "ory")%string then keep (oryMiddleware e (dp_ory d) (EntryDef_Roles e) (EntryDef_Permissions e))
  else keep (manualAuthMiddleware e (EntryDef_Roles e) (EntryDef_Permissions e) (dp_authValidator d)).

Definition router_installed (e : EntryDef) (d : deps) : bool :=
  needsAuthRouter e (jwt_active e d) (hasAuth e "oauth") (hasAuth e "apikey") (hasAuth e "basic") (dp_jwtCfg d).

Definition registerAuthMiddleware (e : EntryDef) (d : deps) : list (option handler) :=
  (if router_installed e d then [Some (authRouter e)] else []) ++
  appendCredentialMiddlewares e d ++
  appendNonJWTRoles e d ++
  (if hasAuth e "apikey" || jwt_active e d || hasAuth e "basic" || hasAuth e "oauth" || hasAuth e "session" then keep rate_limit else []).

#[local] Arguments hasIdentityAuth _ : simpl never.
#[local] Arguments ConfigValidate.hasAuth _ _ : simpl never.

(** ** Properties of chains *)

Lemma run_chain_app hs1 hs2 c :
  run_chain (hs1 ++ hs2) c = match run_chain hs1 c with Reached c' => run_chain hs2 c' | r => r end.
Proof. revert c. induction hs1 as [|[h|] hs1 IH]; intros c; [done| |done]. cbn. by destruct (h c). Qed.

(** A property of the context that every handler which calls the next one keeps. *)
Definition keeps (I : ctx -> Prop) (h : option handler) : Prop :=
  forall f c effs, h = Some f -> I c -> f c = Next effs -> I (foldl apply_effect c effs).

Lemma run_chain_keeps I hs c c' : Forall (keeps I) hs -> I c -> run_chain hs c = Reached c' -> I c'.
Proof.
  intros Hhs. revert c. induction Hhs as [|[h|] hs Hh _ IH]; intros c HI H; cbn in H; [by simplify_eq| |done].
  destruct (h c) eqn:E; try done. eapply IH; [|done]. by eapply Hh.
Qed.

(** ** A request without credentials *)

Definition anonymous (rq : request) : Prop :=
  (forall k, rq_header rq k = "") /\ (forall k, rq_cookie rq k = "") /\ (forall k, rq_query rq k = "") /\
  rq_auth rq = None /\ (forall k, rq_local rq k = None).

(** A check of the identity is in the chain. *)
Definition identity_checked (e : EntryDef) (d : deps) : bool :=
  hasIdentityAuth e &&
  (if (dp_driver d =? "openfga-zitadel")%string then bool_decide (is_Some (dp_fga d))
   else if (dp_driver d =? "ory")%string then bool_decide (is_Some (dp_ory d))
   else bool_decide (is_Some (dp_authValidator d)) && (negb (jwt_active e d) || (dp_driver d =? "manual")%string)).

Definition refuses_anonymous (e : EntryDef) (d : deps) : bool :=
  (hasAuth e "apikey" &&
     (negb (hasIdentityAuth e) || router_installed e d && (EntryDef_APIPrefix e =? "")%string ||
      negb (is_nil (EntryDef_Roles e)) && bool_decide (is_Some (dp_authValidator d)))) ||
  hasAuth e "basic" ||
  hasAuth e "oauth" && bool_decide (is_Some (dp_oauth d)) ||
  hasAuth e "session" && (bool_decide (is_Some (dp_session d)) || (dp_driver d =? "ory")%string && bool_decide (is_Some (dp_ory d))) ||
  jwt_active e d && (negb (EntryDef_JWTFrom e =? "")%string || EntryDef_RequiresMFA e) ||
  identity_checked e d.

(** The request is answered with 401. *)
Definition refused (r : chain_result) : Prop := exists effs msg, r = Answered (ReplyWith effs 401 msg).

Lemma refused_app hs1 hs2 c : refused (run_chain hs1 c) -> refused (run_chain (hs1 ++ hs2) c).
Proof. intros (effs & msg & H). rewrite run_chain_app, H. by exists effs, msg. Qed.

Lemma anonymous_token rq lookup : anonymous rq -> extractToken rq lookup = ("", "").
Proof.
  intros (Hh & Hc & Hq & _). unfold extractToken. destruct (SplitN2 lookup ":"%char) as [src [key|]]; [|done].
  destruct (src =? "header")%string; [by rewrite Hh|]. destruct (src =? "cookie")%string; [by rewrite Hc|].
  destruct (src =? "query")%string; [by rewrite Hq|done].
Qed.

(** A part of the chain refuses the request, or lets it through unchanged. *)
Definition gate (hs : list (option handler)) (b : bool) (c : ctx) : Prop := if b then refused (run_chain hs c) else run_chain hs c = Reached c.

Lemma gate_app hs1 hs2 b1 b2 c : gate hs1 b1 c -> gate hs2 b2 c -> gate (hs1 ++ hs2) (b1 || b2) c.
Proof. destruct b1; cbn; [intros H _; by apply refused_app|]. intros H1 H2. unfold gate in *. by rewrite run_chain_app, H1. Qed.

Lemma gate_nil c : gate [] false c.
Proof. done. Qed.

Lemma gate_if (t b : bool) hs c : gate hs b c -> gate (if t then hs else []) (t && b) c.
Proof. by destruct t. Qed.

Lemma gate_refuse (f : handler) effs msg c : f c = ReplyWith effs 401 msg -> gate [Some f] true c.
Proof. intros H. exists effs, msg. cbn. by rewrite H. Qed.

Lemma gate_pass (f : handler) c : f c = Next [] -> gate [Some f] false c.
Proof. intros H. unfold gate. cbn. by rewrite H. Qed.

Section anonymous.
Context (e : EntryDef) (d : deps) (cfg : JWTConfig) (rq : request).
Context (Hcfg : dp_jwtCfg d = Some cfg) (Hrq : anonymous rq).
Let c := mkCtx rq "".

Lemma anonymous_header k : rq_header rq k = "".
Proof. apply Hrq. Qed.
Lemma anonymous_auth : rq_auth rq = None.
Proof. apply Hrq. Qed.

Lemma gate_apikey : gate [apiKeyMiddleware e (dp_apiKeyValidator d) (dp_fga d)] (negb (hasIdentityAuth e)) c.
Proof.
  destruct (hasIdentityAuth e) eqn:Hi; cbn [negb].
  - apply gate_pass. cbn. by rewrite anonymous_header, Hi.
  - eapply gate_refuse. cbn. rewrite anonymous_header, Hi. cbn. unfold APIKey. cbn. by rewrite anonymous_header.
Qed.

Lemma gate_apikey_roles :
  hasAuth e "apikey" = true ->
  gate (apiKeyRoleMiddleware e (dp_authValidator d)) (negb (is_nil (EntryDef_Roles e)) && bool_decide (is_Some (dp_authValidator d))) c.
Proof.
  intros Ha. unfold apiKeyRoleMiddleware. destruct (dp_authValidator d) as [v|]; [|by rewrite andb_false_r].
  rewrite Ha. destruct (is_nil (EntryDef_Roles e)); cbn [negb orb andb]; [apply gate_nil|].
  rewrite bool_decide_eq_true_2 by done. eapply gate_refuse. cbn. by rewrite anonymous_auth.
Qed.

Lemma gate_other others mw effs msg : "" ∉ others -> mw rq = ReplyWith effs 401 msg -> gate [Some (unless_other others mw)] true c.
Proof.
  intros Ho Hm. eapply gate_refuse. unfold unless_other. cbn [cx_rq c]. rewrite anonymous_auth.
  assert (mode_in c others = false) as ->; [|done]. unfold mode_in. apply not_true_iff_false. rewrite existsb_exists.
  intros (x & Hx%list_elem_of_In & <-%String.eqb_eq). done.
Qed.

Lemma gate_basic : hasAuth e "basic" = true -> gate [basicMiddleware e (dp_basicValidator d)] true c.
Proof.
  intros Hb. unfold basicMiddleware. rewrite Hb. cbn [negb]. eapply gate_other; [by rewrite !elem_of_cons, elem_of_nil; intuition|].
  unfold Basic. rewrite anonymous_header. reflexivity.
Qed.

Lemma gate_oauth ocfg : hasAuth e "oauth" = true -> gate [oauthMiddleware e ocfg] true c.
Proof.
  intros Hb. unfold oauthMiddleware. rewrite Hb. cbn [negb]. eapply gate_other; [by rewrite !elem_of_cons, elem_of_nil; intuition|].
  unfold Introspect. rewrite anonymous_header. reflexivity.
Qed.

Lemma gate_session ck : hasAuth e "session" = true -> gate [sessionMiddleware e ck] true c.
Proof.
  intros Hb. unfold sessionMiddleware. rewrite Hb. cbn [negb]. eapply gate_other; [by rewrite !elem_of_cons, elem_of_nil; intuition|].
  unfold Session. destruct Hrq as (_ & -> & _). reflexivity.
Qed.

Lemma gate_kratos cl : cookies = [] -> hasAuth e "session" = true -> gate [kratosSessionMiddleware e cl] true c.
Proof.
  intros Hck Hb. unfold kratosSessionMiddleware. rewrite Hb. cbn [negb]. eapply gate_other; [by rewrite !elem_of_cons, elem_of_nil; intuition|].
  unfold KratosSession, kratosSessionCookie. rewrite (anonymous_token rq) by done. rewrite anonymous_header.
  destruct Hrq as (_ & -> & _). rewrite Hck. reflexivity.
Qed.

Lemma gate_wrapper mw effs msg : mw rq = ReplyWith effs 401 msg -> gate [Some (jwtSkipWrapper e mw)] (negb (EntryDef_JWTFrom e =? "")%string) c.
Proof.
  intros Hm. destruct (EntryDef_JWTFrom e =? "")%string eqn:E; cbn [negb].
  - apply gate_pass. unfold jwtSkipWrapper. rewrite E. cbn. by rewrite anonymous_header.
  - eapply gate_refuse. unfold jwtSkipWrapper. rewrite E. cbn. exact Hm.
Qed.

Lemma gate_jwt : hasAuth e "jwt" = true -> gate [jwtMiddleware e (dp_jwtCfg d)] (negb (EntryDef_JWTFrom e =? "")%string) c.
Proof.
  intros Hj. unfold jwtMiddleware. rewrite Hcfg, Hj. cbn [negb]. eapply gate_wrapper. unfold JWT_mw, JWT. by rewrite anonymous_token.
Qed.

Lemma gate_client validate cfg' : gate [Some (jwtSkipWrapper e (JWTWithClient validate cfg'))] (negb (EntryDef_JWTFrom e =? "")%string) c.
Proof. eapply gate_wrapper. unfold JWTWithClient. by rewrite anonymous_token. Qed.

(** The check of roles, whichever it is. *)
Lemma gate_fga check roles perms : hasIdentityAuth e = true -> gate [openfgaMiddleware e (Some check) roles perms] true c.
Proof. intros Hi. unfold openfgaMiddleware. rewrite Hi. eapply gate_refuse. unfold OpenFGA. cbn. by rewrite anonymous_auth. Qed.
Lemma gate_ory cl roles perms : hasIdentityAuth e = true -> gate [oryMiddleware e (Some cl) roles perms] true c.
Proof. intros Hi. unfold oryMiddleware. rewrite Hi. eapply gate_refuse. unfold Ory. cbn. by rewrite anonymous_auth. Qed.
Lemma gate_manual v roles perms : hasIdentityAuth e = true -> gate [manualAuthMiddleware e roles perms (Some v)] true c.
Proof. intros Hi. unfold manualAuthMiddleware. rewrite Hi. eapply gate_refuse. cbn. by rewrite anonymous_auth. Qed.

Lemma jwt_identity : hasAuth e "jwt" = true -> hasIdentityAuth e = true.
Proof. intros H. unfold hasIdentityAuth. cbn. by rewrite H. Qed.

Lemma jwt_active_has : jwt_active e d = true -> hasAuth e "jwt" = true.
Proof. unfold jwt_active. by destruct (hasAuth e "jwt"). Qed.

(** No nil handler: a manual driver has a validator when tokens are accepted. *)
Definition no_nil : Prop := jwt_active e d = true -> dp_driver d = "manual" -> is_Some (dp_authValidator d).

Lemma gate_jwt_block :
  no_nil -> jwt_active e d = true ->
  gate (appendJWTMiddleware e d ++ (if EntryDef_RequiresMFA e then [Some (fun c => MFARequired (cx_rq c))] else []))
       (negb (EntryDef_JWTFrom e =? "")%string || EntryDef_RequiresMFA e || identity_checked e d) c.
Proof.
  intros Hn Hj. pose proof (jwt_active_has Hj) as Hh. pose proof (jwt_identity Hh) as Hi.
  rewrite <- orb_assoc, (orb_comm (EntryDef_RequiresMFA e)), orb_assoc. apply gate_app.
  2:{ destruct (EntryDef_RequiresMFA e); [|apply gate_nil]. eapply gate_refuse. unfold MFARequired. cbn. by destruct Hrq as (_ & _ & _ & _ & ->). }
  unfold appendJWTMiddleware, identity_checked. rewrite Hi, Hj. cbn [andb negb orb].
  destruct (dp_driver d =? "openfga-zitadel")%string.
  { apply gate_app.
    - destruct (dp_zitadel d); [unfold zitadelJWTMiddleware; rewrite Hcfg, Hh; apply gate_client|by apply gate_jwt].
    - destruct (dp_fga d); [rewrite bool_decide_eq_true_2 by done; by apply gate_fga|rewrite bool_decide_eq_false_2 by (by intros []); apply gate_nil]. }
  destruct (dp_driver d =? "ory")%string.
  { apply gate_app.
    - destruct (dp_ory d); [unfold oryJWTMiddleware; rewrite Hcfg, Hh; apply gate_client|by apply gate_jwt].
    - destruct (dp_ory d); [rewrite bool_decide_eq_true_2 by done; by apply gate_ory|rewrite bool_decide_eq_false_2 by (by intros []); apply gate_nil]. }
  destruct (String.eqb_spec (dp_driver d) "manual") as [Em|_].
  - destruct (Hn Hj Em) as [v Ev]. rewrite Ev. rewrite bool_decide_eq_true_2 by done. cbn [andb].
    apply (gate_app [_] [_]); [by apply gate_jwt|by apply gate_manual].
  - rewrite andb_false_r, orb_false_r. by apply gate_jwt.
Qed.

Lemma gate_nonjwt : gate (appendNonJWTRoles e d) (negb (jwt_active e d) && identity_checked e d) c.
Proof.
  unfold appendNonJWTRoles, identity_checked. destruct (jwt_active e d); cbn [orb negb andb]; [apply gate_nil|].
  destruct (hasIdentityAuth e) eqn:Hi; cbn [negb andb]; [|apply gate_nil].
  destruct (dp_driver d =? "openfga-zitadel")%string.
  { destruct (dp_fga d) as [f|]; [|rewrite bool_decide_eq_false_2 by (by intros []); apply gate_nil].
    rewrite bool_decide_eq_true_2 by done. pose proof (gate_fga f (EntryDef_Roles e) (EntryDef_Permissions e) Hi) as H.
    unfold openfgaMiddleware in *. rewrite Hi in *. exact H. }
  destruct (dp_driver d =? "ory")%string.
  { destruct (dp_ory d) as [f|]; [|rewrite bool_decide_eq_false_2 by (by intros []); apply gate_nil].
    rewrite bool_decide_eq_true_2 by done. pose proof (gate_ory f (EntryDef_Roles e) (EntryDef_Permissions e) Hi) as H.
    unfold oryMiddleware in *. rewrite Hi in *. exact H. }
  rewrite andb_true_r. destruct (dp_authValidator d) as [f|]; [|rewrite bool_decide_eq_false_2 by (by intros []); apply gate_nil].
  rewrite bool_decide_eq_true_2 by done. pose proof (gate_manual f (EntryDef_Roles e) (EntryDef_Permissions e) Hi) as H.
  unfold manualAuthMiddleware in *. rewrite Hi in *. exact H.
Qed.

(** The conditions of [refuses_anonymous] that do not depend on the router. *)
Definition refuses_unrouted : bool :=
  hasAuth e "apikey" && (negb (hasIdentityAuth e) || negb (is_nil (EntryDef_Roles e)) && bool_decide (is_Some (dp_authValidator d))) ||
  (hasAuth e "basic" ||
  (hasAuth e "oauth" && bool_decide (is_Some (dp_oauth d)) ||
  (hasAuth e "session" && bool_decide (is_Some (dp_session d)) ||
  (hasAuth e "session" && (dp_driver d =? "ory")%string && bool_decide (is_Some (dp_ory d)) ||
  jwt_active e d && (negb (EntryDef_JWTFrom e =? "")%string || EntryDef_RequiresMFA e || identity_checked e d))))).

Lemma refuses_anonymous_eq :
  refuses_anonymous e d =
  hasAuth e "apikey" && router_installed e d && (EntryDef_APIPrefix e =? "")%string ||
  (refuses_unrouted || negb (jwt_active e d) && identity_checked e d).
Proof.
  unfold refuses_anonymous, refuses_unrouted. generalize (identity_checked e d), (jwt_active e d), (router_installed e d), (hasIdentityAuth e).
  intros ic ja ri ia. btauto.
Qed.

Lemma gate_credentials : cookies = [] -> no_nil -> gate (appendCredentialMiddlewares e d) refuses_unrouted c.
Proof.
  intros Hck Hn. unfold appendCredentialMiddlewares, refuses_unrouted. repeat apply gate_app.
  - destruct (hasAuth e "apikey") eqn:Ha; [|apply gate_nil]. apply (gate_app [_]); [apply gate_apikey|by apply gate_apikey_roles].
  - destruct (hasAuth e "basic") eqn:Ha; [by apply gate_basic|apply gate_nil].
  - destruct (dp_oauth d); [|rewrite bool_decide_eq_false_2, andb_false_r by (by intros []); apply gate_nil]. rewrite bool_decide_eq_true_2, andb_true_r by done.
    destruct (hasAuth e "oauth") eqn:Ha; [by apply gate_oauth|apply gate_nil].
  - destruct (dp_session d); [|rewrite bool_decide_eq_false_2, andb_false_r by (by intros []); apply gate_nil]. rewrite bool_decide_eq_true_2, andb_true_r by done.
    destruct (hasAuth e "session") eqn:Ha; [by apply gate_session|apply gate_nil].
  - destruct (dp_ory d); [|rewrite bool_decide_eq_false_2, andb_false_r by (by intros []); apply gate_nil]. rewrite bool_decide_eq_true_2, andb_true_r by done.
    destruct (hasAuth e "session") eqn:Ha; [|apply gate_nil]. cbn [andb]. destruct (dp_driver d =? "ory")%string; [by apply gate_kratos|apply gate_nil].
  - destruct (jwt_active e d) eqn:Ha; [by apply gate_jwt_block|apply gate_nil].
Qed.

(** The rate limit at the end of the chain. *)
Definition rate_limit_part : list (option handler) :=
  if hasAuth e "apikey" || jwt_active e d || hasAuth e "basic" || hasAuth e "oauth" || hasAuth e "session" then keep rate_limit else [].

(** C32: A request without any credentials: either the chain answers 401, or it lets the request
    through to the entry's handler (past the rate limit, if any), and [refuses_anonymous]
    says which.  An entry with modes is not always closed to such requests: with tokens
    in the Authorization header (the default), and no role check in the chain, the request
    is served. *)
Theorem anonymous_request :
  cookies = [] -> no_nil ->
  if refuses_anonymous e d then refused (run_chain (registerAuthMiddleware e d) (mkCtx rq ""))
  else run_chain (registerAuthMiddleware e d) (mkCtx rq "") = run_chain rate_limit_part (mkCtx rq "").
Proof.
  intros Hck Hn. rewrite refuses_anonymous_eq. unfold registerAuthMiddleware. fold rate_limit_part.
  pose proof (gate_app _ _ _ _ _ (gate_credentials Hck Hn) gate_nonjwt) as Hg.
  destruct (hasAuth e "apikey" && router_installed e d && (EntryDef_APIPrefix e =? "")%string) eqn:Ek.
  - apply andb_true_iff in Ek as [[Ha Hr]%andb_true_iff Hp]. rewrite Hr. cbn [app orb]. unfold appendCredentialMiddlewares. rewrite Ha.
    cbn [app run_chain]. unfold authRouter. cbn [cx_rq]. rewrite anonymous_header, Ha, Hp. cbn. unfold APIKey. cbn. rewrite anonymous_header. by eexists _, _.
  - cbn [orb]. assert (Hrt : run_chain (if router_installed e d then [Some (authRouter e)] else []) c = Reached c).
    { destruct (router_installed e d); [|done]. cbn. unfold authRouter. cbn [cx_rq c]. rewrite anonymous_header. cbn [HasPrefix String.prefix andb].
      destruct (hasAuth e "apikey"); [|by rewrite andb_false_r]. cbn in Ek. rewrite Ek. cbn.
      destruct (EntryDef_APIPrefix e) eqn:Ep; [done|]. cbn. done. }
    rewrite run_chain_app. fold c. rewrite Hrt. rewrite app_assoc, run_chain_app.
    destruct (refuses_unrouted || _); [|by rewrite Hg]. destruct Hg as (effs & msg & ->). by exists effs, msg.
Qed.
End anonymous.

(** ** Where an identity comes from *)

Definition same_creds (rq rq' : request) : Prop := rq_header rq = rq_header rq' /\ rq_cookie rq = rq_cookie rq' /\ rq_query rq = rq_query rq'.

(** A middleware that reads only headers, cookies and the query. *)
Definition creds_only (mw : request -> outcome) : Prop := forall rq rq', same_creds rq rq' -> mw rq = mw rq'.

Definition grants (mw : request -> outcome) (rq : request) (a : AuthContext) : Prop := exists effs, mw rq = Next effs /\ SetAuth a ∈ effs.

Section sound.
Context (e : EntryDef) (d : deps) (rq : request).

Definition apikey_mw : request -> outcome :=
  APIKey (dp_apiKeyValidator d) (dp_fga d) (mkAPIKeyConfig (EntryDef_APIPrefix e) "can_access" (EntryDef_Type e ++ ":" ++ EntryDef_Path e)%string "").

(** The check of tokens that the driver installs. *)
Definition jwt_check (cfg : JWTConfig) : request -> outcome :=
  if (dp_driver d =? "openfga-zitadel")%string then
    match dp_zitadel d with Some z => JWTWithZitadel z (jwtConfigForEntry e cfg) | None => JWT_mw (jwtConfigForEntry e cfg) end
  else if (dp_driver d =? "ory")%string then
    match dp_ory d with Some o => JWTWithOry (oc_ValidateJWT o) (jwtConfigForEntry e cfg) | None => JWT_mw (jwtConfigForEntry e cfg) end
  else JWT_mw (jwtConfigForEntry e cfg).

(** The checks of credentials that the modes of the entry and the driver allow. *)
Definition credential_checks : list (request -> outcome) :=
  (if hasAuth e "apikey" then [apikey_mw] else []) ++
  (if hasAuth e "basic" then [Basic (dp_basicValidator d) ""] else []) ++
  match dp_oauth d with Some cfg => if hasAuth e "oauth" then [fun rq => (Introspect endpoint sha256_hex cfg now_ns cache rq).1] else [] | None => [] end ++
  match dp_session d with Some ck => if hasAuth e "session" then [Session unmarshal ck now store] else [] | None => [] end ++
  match dp_ory d with Some o => if hasAuth e "session" && (dp_driver d =? "ory")%string then [KratosSession o cookies] else [] | None => [] end ++
  (if jwt_active e d then match dp_jwtCfg d with Some cfg => [jwt_check cfg] | None => [] end else []).

Lemma extractToken_creds rq1 rq2 lookup : same_creds rq1 rq2 -> extractToken rq1 lookup = extractToken rq2 lookup.
Proof. intros (H1 & H2 & H3). unfold extractToken. by rewrite H1, H2, H3. Qed.

Lemma jwt_check_cases (P : (request -> outcome) -> Prop) cfg :
  P (JWT_mw (jwtConfigForEntry e cfg)) -> (forall z, P (JWTWithZitadel z (jwtConfigForEntry e cfg))) ->
  (forall v, P (JWTWithOry v (jwtConfigForEntry e cfg))) -> P (jwt_check cfg).
Proof. intros Hp Hz Ho. unfold jwt_check. repeat case_match; auto. Qed.

Lemma credential_checks_creds mw : mw ∈ credential_checks -> creds_only mw.
Proof.
  intros Hmw rq1 rq2 Hs. pose proof (extractToken_creds rq1 rq2) as Ht. destruct Hs as (H1 & H2 & H3).
  unfold credential_checks in Hmw. rewrite !elem_of_app in Hmw. destruct Hmw as [H|[H|[H|[H|[H|H]]]]].
  - destruct (hasAuth e "apikey"); [|by apply elem_of_nil in H]. apply list_elem_of_singleton in H as ->. unfold apikey_mw, APIKey. by rewrite H1.
  - destruct (hasAuth e "basic"); [|by apply elem_of_nil in H]. apply list_elem_of_singleton in H as ->. unfold Basic. by rewrite H1.
  - destruct (dp_oauth d), (hasAuth e "oauth"); try by apply elem_of_nil in H. apply list_elem_of_singleton in H as ->. unfold Introspect. by rewrite H1.
  - destruct (dp_session d), (hasAuth e "session"); try by apply elem_of_nil in H. apply list_elem_of_singleton in H as ->. unfold Session. by rewrite H2.
  - destruct (dp_ory d), (hasAuth e "session"), (dp_driver d =? "ory")%string; try by apply elem_of_nil in H. apply list_elem_of_singleton in H as ->.
    unfold KratosSession, kratosSessionCookie. by rewrite Ht, H1, H2.
  - destruct (jwt_active e d), (dp_jwtCfg d) as [cfg|]; try by apply elem_of_nil in H. apply list_elem_of_singleton in H as ->.
    apply jwt_check_cases; intros; unfold JWTWithZitadel, JWTWithOry, JWTWithClient, JWT_mw, JWT; by rewrite Ht.
Qed.

(** The identity was granted by a check of the request's credentials. *)
Definition genuine (a : AuthContext) : Prop := exists mw, mw ∈ credential_checks /\ grants mw rq a.

Definition known (c : ctx) : Prop := same_creds rq (cx_rq c) /\ forall a, rq_auth (cx_rq c) = Some a -> genuine a.

Lemma apply_effects_creds effs c : same_creds rq (cx_rq c) -> same_creds rq (cx_rq (foldl apply_effect c effs)).
Proof.
  revert c. induction effs as [|ef effs IH]; intros c H; [done|]. apply IH. destruct ef; cbn; try done. by destruct (_ =? _)%string.
Qed.

Lemma apply_effects_auth effs c a :
  rq_auth (cx_rq (foldl apply_effect c effs)) = Some a -> rq_auth (cx_rq c) = Some a \/ SetAuth a ∈ effs.
Proof.
  revert c. induction effs as [|ef effs IH]; intros c H; [by left|]. cbn in H. destruct (IH _ H) as [H'|H']; [|right; by right].
  destruct ef as [| | | |b]; cbn in H'; try (by left); [destruct (_ =? _)%string; by left|]. simplify_eq. right. left.
Qed.

(** A handler that skips or runs a credential check. *)
Lemma keeps_check f mw : (forall c, f c = Next [] \/ f c = mw (cx_rq c)) -> mw ∈ credential_checks -> keeps known (Some f).
Proof.
  intros Hf Hmw f' c effs [= <-] [Hs Ha] Hn. split; [by apply apply_effects_creds|].
  intros a [Ha'|Hin]%apply_effects_auth; [by apply Ha|]. destruct (Hf c) as [E|E]; rewrite E in Hn; [by simplify_eq; apply elem_of_nil in Hin|].
  exists mw. split; [done|]. exists effs. split; [|done]. rewrite <- Hn. by apply (credential_checks_creds mw Hmw).
Qed.

Lemma credential_checks_mode mw rq0 effs c : mw ∈ credential_checks -> mw rq0 = Next effs -> cx_mode (foldl apply_effect c effs) = cx_mode c.
Proof.
  intros Hmw Hn. unfold credential_checks in Hmw. rewrite !elem_of_app in Hmw. destruct Hmw as [H|[H|[H|[H|[H|H]]]]].
  - destruct (hasAuth e "apikey"); [|by apply elem_of_nil in H]. apply list_elem_of_singleton in H as ->. unfold apikey_mw, APIKey in Hn. by repeat case_match; simplify_eq.
  - destruct (hasAuth e "basic"); [|by apply elem_of_nil in H]. apply list_elem_of_singleton in H as ->. unfold Basic in Hn. by repeat case_match; simplify_eq.
  - destruct (dp_oauth d), (hasAuth e "oauth"); try by apply elem_of_nil in H. apply list_elem_of_singleton in H as ->. unfold Introspect in Hn. repeat case_match; cbn in *; simplify_eq; done.
  - destruct (dp_session d), (hasAuth e "session"); try by apply elem_of_nil in H. apply list_elem_of_singleton in H as ->. unfold Session in Hn. by repeat case_match; simplify_eq.
  - destruct (dp_ory d), (hasAuth e "session"), (dp_driver d =? "ory")%string; try by apply elem_of_nil in H. apply list_elem_of_singleton in H as ->. unfold KratosSession in Hn. by repeat case_match; simplify_eq.
  - destruct (jwt_active e d), (dp_jwtCfg d) as [cfg|]; try by apply elem_of_nil in H. apply list_elem_of_singleton in H as ->.
    revert Hn. apply jwt_check_cases; intros; unfold JWTWithZitadel, JWTWithOry, JWTWithClient, JWT_mw, JWT in *; by repeat case_match; simplify_eq.
Qed.

(** The handlers after the router: credential checks, which may be skipped, and checks that
    leave the context as it is. *)
Inductive part : option handler -> Prop :=
| part_check f mw : (forall c, f c = Next [] \/ f c = mw (cx_rq c)) -> mw ∈ credential_checks -> part (Some f)
| part_plain f : (forall c effs, f c = Next effs -> foldl apply_effect c effs = c) -> part (Some f)
| part_nil : part None.

Lemma part_known h : part h -> keeps known h.
Proof.
  intros [f mw Hf Hmw|f Hf|]; [by eapply keeps_check| |by intros f c effs]. intros f' c effs [= <-] HI Hn. by rewrite (Hf _ _ Hn).
Qed.

(** The request has an identity or was routed to the API key check. *)
Definition admitted (c : ctx) : Prop := is_Some (rq_auth (cx_rq c)) \/ cx_mode c = "apikey".

Lemma apply_effects_some effs c : is_Some (rq_auth (cx_rq c)) -> is_Some (rq_auth (cx_rq (foldl apply_effect c effs))).
Proof. revert c. induction effs as [|ef effs IH]; intros c H; [done|]. apply IH. destruct ef; cbn; try done. by destruct (_ =? _)%string. Qed.

Lemma part_mode h f c effs : part h -> h = Some f -> f c = Next effs -> cx_mode (foldl apply_effect c effs) = cx_mode c.
Proof.
  intros [f' mw Hf Hmw|f' Hf|] [= <-] Hn; [|by rewrite (Hf _ _ Hn)].
  destruct (Hf c) as [E|E]; rewrite E in Hn; [by simplify_eq|by eapply credential_checks_mode].
Qed.

Lemma part_admitted h : part h -> keeps admitted h.
Proof.
  intros Hp f c effs Hh [Ha|Hm] Hn; [left; by apply apply_effects_some|]. right. by rewrite (part_mode h f c effs Hp Hh Hn).
Qed.

Lemma part_mode_is m h : part h -> keeps (fun c => cx_mode c = m) h.
Proof. intros Hp f c effs Hh Hm Hn. by rewrite (part_mode h f c effs Hp Hh Hn). Qed.

Lemma openfga_part check cfg : part (Some (fun c => OpenFGA check cfg (cx_rq c))).
Proof. apply part_plain. intros c effs. unfold OpenFGA. repeat case_match; intros; by simplify_eq. Qed.
Lemma ory_part cl roles perms : part (Some (fun c => Ory cl roles perms (cx_rq c))).
Proof. apply part_plain. intros c effs. unfold Ory. repeat case_match; intros; by simplify_eq. Qed.
Lemma mfa_part : part (Some (fun c => MFARequired (cx_rq c))).
Proof. apply part_plain. intros c effs. unfold MFARequired. repeat case_match; intros; by simplify_eq. Qed.
Lemma manual_part roles perms v : part (manualAuthMiddleware e roles perms v).
Proof.
  unfold manualAuthMiddleware. destruct v; [|constructor]. destruct (hasIdentityAuth e); [|constructor]. apply part_plain. intros c effs.
  repeat case_match; intros; by simplify_eq.
Qed.

Lemma wrapper_part mw : mw ∈ credential_checks -> part (Some (jwtSkipWrapper e mw)).
Proof. intros Hmw. eapply part_check; [|done]. intros c. unfold jwtSkipWrapper. repeat case_match; auto. Qed.
Lemma unless_part others mw : mw ∈ credential_checks -> part (Some (unless_other others mw)).
Proof. intros Hmw. eapply part_check; [|done]. intros c. unfold unless_other. repeat case_match; auto. Qed.

Lemma jwt_check_part cfg : jwt_active e d = true -> dp_jwtCfg d = Some cfg -> part (Some (jwtSkipWrapper e (jwt_check cfg))).
Proof. intros Hj Ec. apply wrapper_part. unfold credential_checks. rewrite Hj, Ec, !elem_of_app. do 5 right. left. Qed.

Lemma jwt_parts : jwt_active e d = true -> Forall part (appendJWTMiddleware e d).
Proof.
  intros Hj. pose proof (jwt_active_has e d Hj) as Hm. pose proof (fun cfg => jwt_check_part cfg Hj) as Hp. unfold jwt_check in Hp.
  unfold appendJWTMiddleware, jwtMiddleware, zitadelJWTMiddleware, oryJWTMiddleware, openfgaMiddleware, oryMiddleware.
  rewrite (jwt_identity e Hm), Hm. cbn [negb].
  destruct (_ =? "openfga-zitadel")%string.
  { apply Forall_app_2; [apply Forall_singleton; destruct (dp_zitadel d), (dp_jwtCfg d); cbn; by auto using part_nil|].
    destruct (dp_fga d); [|constructor]. apply Forall_singleton, openfga_part. }
  destruct (_ =? "ory")%string.
  { apply Forall_app_2; [apply Forall_singleton; destruct (dp_ory d), (dp_jwtCfg d); cbn; by auto using part_nil|].
    destruct (dp_ory d); [|constructor]. apply Forall_singleton, ory_part. }
  assert (part match dp_jwtCfg d with Some cfg => Some (jwtSkipWrapper e (JWT_mw (jwtConfigForEntry e cfg))) | None => None end)
    by (destruct (dp_jwtCfg d); by auto using part_nil).
  destruct (_ =? "manual")%string; [|by apply Forall_singleton]. constructor; [done|]. apply Forall_singleton, manual_part.
Qed.

Lemma credential_parts : Forall part (appendCredentialMiddlewares e d).
Proof.
  unfold appendCredentialMiddlewares. repeat apply Forall_app_2.
  - destruct (hasAuth e "apikey") eqn:Ha; [|constructor]. constructor.
    + eapply part_check with (mw := apikey_mw); [|unfold credential_checks; rewrite Ha; apply elem_of_app; left; left].
      intros c. unfold apikey_mw. cbn beta iota. repeat case_match; auto.
    + unfold apiKeyRoleMiddleware. destruct (dp_authValidator d); [|constructor]. destruct (_ || _); [constructor|]. constructor; [|constructor].
      apply part_plain. intros c effs. repeat case_match; intros; by simplify_eq.
  - destruct (hasAuth e "basic") eqn:Ha; [|constructor]. unfold basicMiddleware. rewrite Ha. constructor; [|constructor]. apply unless_part.
    unfold credential_checks. rewrite Ha, !elem_of_app. right. left. left.
  - destruct (dp_oauth d) eqn:Eo, (hasAuth e "oauth") eqn:Ha; try constructor; [|constructor]. unfold oauthMiddleware. rewrite Ha. apply unless_part.
    unfold credential_checks. rewrite Eo, Ha, !elem_of_app. do 2 right. left. left.
  - destruct (dp_session d) eqn:Eo, (hasAuth e "session") eqn:Ha; try constructor; [|constructor]. unfold sessionMiddleware. rewrite Ha. apply unless_part.
    unfold credential_checks. rewrite Eo, Ha, !elem_of_app. do 3 right. left. left.
  - destruct (dp_ory d) eqn:Eo; [|constructor]. destruct (hasAuth e "session") eqn:Ha; [|constructor]. cbn [andb]. destruct (_ =? "ory")%string eqn:Ed; [|constructor].
    constructor; [|constructor]. unfold kratosSessionMiddleware. rewrite Ha. apply unless_part.
    unfold credential_checks. rewrite Eo, Ha, Ed, !elem_of_app. do 4 right. left. left.
  - destruct (jwt_active e d) eqn:Ha; [|constructor]. apply Forall_app_2; [by apply jwt_parts|].
    destruct (EntryDef_RequiresMFA e); [|constructor]. constructor; [apply mfa_part|constructor].
Qed.

Lemma keep_part h : part h -> Forall part (keep h).
Proof. destruct h; [by intros; apply Forall_singleton|constructor]. Qed.

Lemma nonjwt_parts : Forall part (appendNonJWTRoles e d).
Proof.
  unfold appendNonJWTRoles. destruct (_ || _); [constructor|].
  destruct (_ =? "openfga-zitadel")%string; [|destruct (_ =? "ory")%string]; apply keep_part; [..|apply manual_part].
  - unfold openfgaMiddleware. destruct (dp_fga d); [|constructor]. destruct (hasIdentityAuth e); [apply openfga_part|constructor].
  - unfold oryMiddleware. destruct (dp_ory d); [|constructor]. destruct (hasIdentityAuth e); [apply ory_part|constructor].
Qed.

(** A handler that only lets admitted requests pass. *)
Definition checks_identity (h : option handler) : Prop := exists f, h = Some f /\ forall c effs, f c = Next effs -> admitted (foldl apply_effect c effs).

Lemma run_chain_admitted hs c c' : Forall part hs -> Exists checks_identity hs -> run_chain hs c = Reached c' -> admitted c'.
Proof.
  intros Hp Hex. revert c. induction Hex as [h hs (f & -> & Hf)|h hs Hex IH]; intros c H; cbn in H.
  - apply Forall_cons in Hp as [_ Hp]. destruct (f c) eqn:E; try done. eapply run_chain_keeps; [|by eapply Hf|done].
    eapply Forall_impl; [done|]. intros h'. apply part_admitted.
  - apply Forall_cons in Hp as [_ Hp]. destruct h as [f|]; [|done]. destruct (f c); try done. by eapply IH.
Qed.

Lemma openfga_checks check roles perms : hasIdentityAuth e = true -> checks_identity (openfgaMiddleware e (Some check) roles perms).
Proof.
  intros Hi. unfold openfgaMiddleware. rewrite Hi. eexists. split; [done|]. intros c effs Hn. left. apply apply_effects_some.
  unfold OpenFGA in Hn. by destruct (rq_auth (cx_rq c)).
Qed.
Lemma ory_checks cl roles perms : hasIdentityAuth e = true -> checks_identity (oryMiddleware e (Some cl) roles perms).
Proof.
  intros Hi. unfold oryMiddleware. rewrite Hi. eexists. split; [done|]. intros c effs Hn. left. apply apply_effects_some.
  unfold Ory in Hn. by destruct (rq_auth (cx_rq c)).
Qed.
Lemma manual_checks v roles perms : hasIdentityAuth e = true -> checks_identity (manualAuthMiddleware e roles perms (Some v)).
Proof.
  intros Hi. unfold manualAuthMiddleware. rewrite Hi. eexists. split; [done|]. intros c effs Hn. cbn beta in Hn.
  destruct (String.eqb_spec (cx_mode c) "apikey") as [E|E]; [|destruct (rq_auth (cx_rq c)) eqn:Ea; [|done]].
  - simplify_eq. by right.
  - left. apply apply_effects_some. by rewrite Ea.
Qed.

Lemma chain_checks_identity : identity_checked e d = true -> Exists checks_identity (appendCredentialMiddlewares e d ++ appendNonJWTRoles e d).
Proof.
  intros [Hi Hc]%andb_true_iff. apply Exists_app. unfold appendCredentialMiddlewares, appendNonJWTRoles. rewrite Hi.
  destruct (jwt_active e d); cbn [negb orb] in *.
  - left. do 5 (apply Exists_app; right). apply Exists_app. left. unfold appendJWTMiddleware.
    destruct (_ =? "openfga-zitadel")%string.
    { apply bool_decide_eq_true in Hc as [f Hf]. rewrite Hf. apply Exists_app. right. left. by apply openfga_checks. }
    destruct (_ =? "ory")%string.
    { apply bool_decide_eq_true in Hc as [f Hf]. rewrite Hf. apply Exists_app. right. left. by apply ory_checks. }
    apply andb_true_iff in Hc as [Hv Hm]. rewrite Hm. apply bool_decide_eq_true in Hv as [f Hf]. rewrite Hf. right. left. by apply manual_checks.
  - right. destruct (_ =? "openfga-zitadel")%string.
    { apply bool_decide_eq_true in Hc as [f Hf]. rewrite Hf. pose proof (openfga_checks f (EntryDef_Roles e) (EntryDef_Permissions e) Hi) as H.
      destruct (openfgaMiddleware _ _ _ _); [by left|]. by destruct H as (? & ? & _). }
    destruct (_ =? "ory")%string.
    { apply bool_decide_eq_true in Hc as [f Hf]. rewrite Hf. pose proof (ory_checks f (EntryDef_Roles e) (EntryDef_Permissions e) Hi) as H.
      destruct (oryMiddleware _ _ _ _); [by left|]. by destruct H as (? & ? & _). }
    apply andb_true_iff in Hc as [Hv _]. apply bool_decide_eq_true in Hv as [f Hf]. rewrite Hf.
    pose proof (manual_checks f (EntryDef_Roles e) (EntryDef_Permissions e) Hi) as H. destruct (manualAuthMiddleware _ _ _ _); [by left|]. by destruct H as (? & ? & _).
Qed.

(** The rate limit only sets headers of the response. *)
Definition rate_limit_plain : Prop := forall f c effs, rate_limit = Some f -> f c = Next effs -> foldl apply_effect c effs = c.

Lemma rate_limit_parts : rate_limit_plain -> Forall part (rate_limit_part e d).
Proof.
  intros Hrl. unfold rate_limit_part. destruct (_ || _); [|constructor]. apply keep_part. unfold rate_limit_plain in Hrl.
  destruct rate_limit as [f|]; [|constructor]. apply part_plain. intros c effs Hn. by eapply Hrl.
Qed.

(** What follows the router in the chain. *)
Definition after_router : list (option handler) := appendCredentialMiddlewares e d ++ appendNonJWTRoles e d ++ rate_limit_part e d.

Lemma after_router_parts : rate_limit_plain -> Forall part after_router.
Proof. intros Hrl. unfold after_router. apply Forall_app_2; [apply credential_parts|]. apply Forall_app_2; [apply nonjwt_parts|by apply rate_limit_parts]. Qed.

(** Routed to the API key check, the request passes it. *)
Lemma routed_apikey c c' :
  rate_limit_plain -> hasAuth e "apikey" = true -> same_creds rq (cx_rq c) -> cx_mode c = "apikey" -> run_chain after_router c = Reached c' ->
  passes (apikey_mw rq) = true.
Proof.
  intros Hrl Ha Hs Hm H. unfold after_router, appendCredentialMiddlewares in H. rewrite Ha in H. cbn [app run_chain apiKeyMiddleware] in H.
  unfold mode_in in H. cbn [existsb] in H. rewrite Hm in H. cbn in H.
  change (APIKey _ _ _ _) with (apikey_mw (cx_rq c)) in H.
  assert (E : apikey_mw rq = apikey_mw (cx_rq c)).
  { apply credential_checks_creds; [|done]. unfold credential_checks. rewrite Ha. apply elem_of_app. left. left. }
  rewrite E. by destruct (apikey_mw (cx_rq c)).
Qed.

(** The router leaves the request and its identity alone; it chooses the API key mode for
    entries that accept keys only. *)
Lemma router_step c0 c1 :
  cx_mode c0 = "" -> run_chain (if router_installed e d then [Some (authRouter e)] else []) c0 = Reached c1 ->
  cx_rq c1 = cx_rq c0 /\ (cx_mode c1 = "apikey" -> hasAuth e "apikey" = true).
Proof.
  intros Hm H. destruct (router_installed e d); cbn in H; [|simplify_eq; by rewrite Hm]. unfold authRouter in H.
  destruct (_ && hasAuth e "jwt"); [by simplify_eq|]. destruct (_ && hasAuth e "oauth"); [by simplify_eq|].
  destruct (_ && hasAuth e "basic"); [by simplify_eq|]. destruct (_ && hasAuth e "apikey") eqn:E; [|simplify_eq; by rewrite Hm].
  apply andb_true_iff in E as [_ E]. by simplify_eq.
Qed.

(** C4: Authentication is sound wherever an identity check is in the chain: a request that
    reaches the handler of such an entry has an identity that one of the entry's own
    checks granted for the credentials it carried, or was routed to the API key check and
    passed it.  In any entry, an identity the handler sees is one such a check granted. *)
Theorem entry_authentication_sound (c' : ctx) :
  rate_limit_plain -> rq_auth rq = None -> run_chain (registerAuthMiddleware e d) (mkCtx rq "") = Reached c' ->
  (forall a, rq_auth (cx_rq c') = Some a -> genuine a) /\
  (identity_checked e d = true ->
   (exists a, rq_auth (cx_rq c') = Some a /\ genuine a) \/ hasAuth e "apikey" = true /\ passes (apikey_mw rq) = true).
Proof.
  intros Hrl Hnone H. unfold registerAuthMiddleware in H. fold (rate_limit_part e d) in H. rewrite run_chain_app in H.
  destruct (run_chain (if router_installed e d then _ else _) _) as [c1| |] eqn:Hr; try done. fold after_router in H.
  destruct (router_step (mkCtx rq "") c1 eq_refl Hr) as [Hrq Hmode]. cbn in Hrq.
  assert (Hk : known c1) by (split; rewrite Hrq; [done|by rewrite Hnone]).
  assert (Hkc : known c').
  { eapply run_chain_keeps; [|exact Hk|exact H]. eapply Forall_impl; [by apply after_router_parts|]. intros h. apply part_known. }
  split; [apply Hkc|]. intros Hic.
  assert (admitted c') as [[a Ha]|Hm].
  { eapply run_chain_admitted; [by apply after_router_parts| |exact H]. unfold after_router. rewrite app_assoc. apply Exists_app. left. by apply chain_checks_identity. }
  - left. exists a. split; [done|]. by apply Hkc.
  - right. assert (Hm1 : cx_mode c1 = "apikey").
    { enough (cx_mode c' = cx_mode c1) by congruence. eapply (run_chain_keeps (fun c => cx_mode c = cx_mode c1)); [|done|exact H].
      eapply Forall_impl; [by apply after_router_parts|]. intros h. apply part_mode_is. }
    split; [by apply Hmode|]. eapply routed_apikey; [done|by apply Hmode|by rewrite Hrq|done|exact H].
Qed.

(** On an entry that accepts API keys only and requires no roles, the key is not checked at
    all when the Authorization header starts with "Bearer ": whatever follows, the request
    goes on without an identity.  This is how the documentation says keys may be sent, and
    the configuration is one that [validateEntryAuthConfig] accepts. *)
Theorem apikey_bearer_unchecked :
  EntryDef_AuthModes e = ["apikey"] -> EntryDef_Roles e = [] -> HasPrefix (rq_header rq "Authorization") "Bearer " = true ->
  run_chain (registerAuthMiddleware e d) (mkCtx rq "") = run_chain (rate_limit_part e d) (mkCtx rq "").
Proof.
  intros Hm Hr Hb.
  assert (Ha : forall m, hasAuth e m = (m =? "apikey")%string) by (intros m; unfold ConfigValidate.hasAuth; rewrite Hm; cbn; by rewrite orb_false_r).
  assert (Hi : hasIdentityAuth e = false) by (unfold hasIdentityAuth; cbn; by rewrite !Ha).
  unfold registerAuthMiddleware. fold (rate_limit_part e d).
  assert (Hj : jwt_active e d = false) by (unfold jwt_active; by rewrite Ha).
  assert (router_installed e d = false) as ->.
  { unfold router_installed, needsAuthRouter. rewrite Hj, !Ha. done. }
  unfold appendCredentialMiddlewares, appendNonJWTRoles. rewrite Hj, Hi, !Ha. cbn [orb negb app].
  change (("apikey" =? "apikey")%string) with true. change (("basic" =? "apikey")%string) with false. change (("oauth" =? "apikey")%string) with false.
  change (("session" =? "apikey")%string) with false. cbn [andb].
  assert (Hrole : apiKeyRoleMiddleware e (dp_authValidator d) = []).
  { unfold apiKeyRoleMiddleware. rewrite Hr. destruct (dp_authValidator d); [|done]. cbn. by rewrite orb_true_r. }
  assert (Hk : forall hs, run_chain (apiKeyMiddleware e (dp_apiKeyValidator d) (dp_fga d) :: hs) (mkCtx rq "") = run_chain hs (mkCtx rq "")).
  { intros hs. unfold apiKeyMiddleware. cbn [run_chain]. unfold mode_in. cbn [existsb cx_mode cx_rq]. rewrite Hb. reflexivity. }
  rewrite Hrole. by destruct (dp_oauth d), (dp_session d), (dp_ory d); cbn [app]; rewrite Hk.
Qed.
End sound.
End entry.

(** ** How old a cached verdict can be *)

Section staleness.
Context (sha256_hex : string -> string) (cfg : OAuthConfig).

(** A request with the time and the endpoint it meets. *)
Notation visit := (Z * (string -> option introspection) * request)%type.

Definition bearer (rq : request) : option string := CutPrefix (rq_header rq "Authorization") "Bearer ".

Definition cache_after (vs : list visit) : introspectCache :=
  foldl (fun c v => (Introspect v.1.2 sha256_hex cfg v.1.1 c v.2).2) ∅ vs.

(** An earlier visit at which the endpoint vouched for the identity, for a token with this
    hash. *)
Definition vouched (vs : list visit) (key : string) (a : AuthContext) (t0 : Z) : Prop :=
  exists ep rq token, (t0, ep, rq) ∈ vs /\ bearer rq = Some token /\ sha256_hex token = key /\ introspectToken ep token = Some a.

Lemma cache_get_entry now key c a c' :
  cache_get now key c = (Some a, c') -> exists e, c !! key = Some e /\ ce_auth e = a /\ now <= ce_expires e.
Proof.
  unfold cache_get. destruct (c !! key) as [e|]; [|done]. destruct (Z.ltb_spec (ce_expires e) now); [done|]. intros [= <- <-]. by exists e.
Qed.

Lemma cache_get_sub now key c r c' k e : cache_get now key c = (r, c') -> c' !! k = Some e -> c !! k = Some e.
Proof.
  unfold cache_get. intros H Hk. repeat case_match; simplify_eq; [apply lookup_delete_Some in Hk as [_ Hk]; done|done|].
  by apply lookup_delete_Some in Hk as [_ Hk].
Qed.

Lemma cache_after_vouched vs key e :
  cache_after vs !! key = Some e -> 0 < oa_CacheTTL cfg /\ exists t0, vouched vs key (ce_auth e) t0 /\ ce_expires e = t0 + oa_CacheTTL cfg.
Proof.
  revert key e. induction vs as [|v vs IH] using rev_ind; intros key e H; [unfold cache_after in H; cbn in H; by rewrite lookup_empty in H|].
  unfold cache_after in H. rewrite foldl_app in H. cbn [foldl] in H. fold (cache_after vs) in H. destruct v as [[now ep] rq]. cbn [fst snd] in H.
  assert (Hold : cache_after vs !! key = Some e ->
    0 < oa_CacheTTL cfg /\ exists t0, vouched (vs ++ [(now, ep, rq)]) key (ce_auth e) t0 /\ ce_expires e = t0 + oa_CacheTTL cfg).
  { intros H0. destruct (IH _ _ H0) as (Ht & t0 & (ep0 & rq0 & tok & Hin & Hv) & He). split; [done|]. exists t0. split; [|done].
    exists ep0, rq0, tok. split; [|done]. apply elem_of_app. by left. }
  unfold Introspect in H. fold (bearer rq) in H. destruct (bearer rq) as [token|] eqn:Hb; [|by apply Hold].
  destruct (_ =? "")%string; [by apply Hold|]. destruct (oa_IntrospectionURL cfg =? "")%string; [by apply Hold|].
  destruct (Z.leb_spec (oa_CacheTTL cfg) 0) as [Hd|Hd].
  { cbn in H. destruct (introspectToken ep token); by apply Hold. }
  destruct (cache_get now (sha256_hex token) (cache_after vs)) as [r c1] eqn:Eg. destruct r as [a|]; cbn [snd] in H.
  { apply Hold. by eapply cache_get_sub. }
  destruct (introspectToken ep token) as [a|] eqn:Ei; cbn [snd] in H; [|apply Hold; by eapply cache_get_sub].
  unfold cache_set in H. apply lookup_insert_Some in H as [[<- <-]|[_ H]]; [|apply Hold; by eapply cache_get_sub].
  split; [done|]. exists now. split; [|done]. exists ep, rq, token. split; [apply elem_of_app; right; left|done].
Qed.

(** A token is accepted only when the endpoint says now that it is active, or said so for
    this token (or one with the same hash) at a request no longer ago than the cache's
    time to live: a revoked token is refused from then on. *)
Theorem introspection_staleness (vs : list visit) (now : Z) (ep : string -> option introspection) (rq : request) (effs : list effect) :
  (Introspect ep sha256_hex cfg now (cache_after vs) rq).1 = Next effs ->
  exists token a, bearer rq = Some token /\ effs = [SetAuth a] /\
    (introspectToken ep token = Some a \/
     0 < oa_CacheTTL cfg /\ exists t0, vouched vs (sha256_hex token) a t0 /\ now <= t0 + oa_CacheTTL cfg).
Proof.
  unfold Introspect. fold (bearer rq). destruct (bearer rq) as [token|] eqn:Hb; [|done].
  destruct (_ =? "")%string; [done|]. destruct (oa_IntrospectionURL cfg =? "")%string; [done|]. intros H. exists token.
  assert (Hnow : forall a, introspectToken ep token = Some a -> exists a', Some token = Some token /\ [SetAuth a] = [SetAuth a'] /\
    (introspectToken ep token = Some a' \/ 0 < oa_CacheTTL cfg /\ exists t0, vouched vs (sha256_hex token) a' t0 /\ now <= t0 + oa_CacheTTL cfg)).
  { intros a Ha. exists a. auto. }
  destruct (oa_CacheTTL cfg <=? 0).
  { cbn in H. destruct (introspectToken ep token) as [a|] eqn:Ei; [|done]. simplify_eq/=. rewrite <- Ei in *. by apply Hnow. }
  destruct (cache_get now (sha256_hex token) (cache_after vs)) as [r c1] eqn:Eg. destruct r as [a|]; cbn in H.
  - simplify_eq. exists a. split; [done|]. split; [done|]. right. apply cache_get_entry in Eg as (e & He & <- & Hle).
    destruct (cache_after_vouched _ _ _ He) as (Ht & t0 & Hv & Hexp). split; [done|]. exists t0. split; [done|lia].
  - destruct (introspectToken ep token) as [a|] eqn:Ei; [|done]. simplify_eq/=. rewrite <- Ei in *. by apply Hnow.
Qed.
End staleness.

(** ** Instances *)

(** An entry with tokens only under the driver openfga-zitadel, without an OpenFGA
    client ("identity only"), and one with API keys under the manual driver. *)
Definition demo_jwt_entry : EntryDef := (ConfigTypes.zero : EntryDef) <| EntryDef_Type := "rest" |> <| EntryDef_Path := "/me" |> <| EntryDef_AuthModes := ["jwt"] |>.
Definition demo_key_entry : EntryDef := (ConfigTypes.zero : EntryDef) <| EntryDef_Type := "webhook" |> <| EntryDef_Path := "/hook" |> <| EntryDef_AuthModes := ["apikey"] |>.
Definition demo_basic_entry : EntryDef := (ConfigTypes.zero : EntryDef) <| EntryDef_Type := "rest" |> <| EntryDef_Path := "/me" |> <| EntryDef_AuthModes := ["basic"] |>.

Definition demo_jwt_config : JWTConfig := mkJWTConfig "secret" "" "" "" "HS256" "" "" None "".
Definition demo_jwt_deps : deps := mkDeps "openfga-zitadel" (Some demo_jwt_config) None None None None (Some (fun _ => None)) None None None.
Definition demo_key_deps : deps := mkDeps "manual" (Some demo_jwt_config) None (Some (fun _ => ResolveNil)) None None None None None None.
Definition demo_ann : AuthContext := mkAuth "ann" "" [] [] "" ∅.
Definition demo_basic_deps : deps :=
  mkDeps "manual" (Some demo_jwt_config) (Some (fun _ _ _ => None)) None
    (Some (fun u p => if (u =? "ann")%string && (p =? "pw")%string then ResolveAuth demo_ann else ResolveNil)) None None None None None.

Definition demo_chain (e : EntryDef) (d : deps) (rq : request) : chain_result :=
  run_chain (registerAuthMiddleware (RSAKey := unit) (ECKey := unit) (fun _ => None) (fun _ => None) (fun _ _ => None) (fun _ _ _ _ => None)
    (fun _ => None) (fun _ => None) (fun _ => None) (fun _ => None) (fun s => s) ∅ (fun _ => None) ∅ [] 0 0 None e d) (mkCtx rq "").

Lemma demo_anonymous : anonymous no_request.
Proof. by repeat split. Qed.

(** The configuration is accepted, and a request without a token reaches the handler. *)
Lemma anonymous_request_witness :
  validateEntryAuthConfig demo_jwt_entry (mkSetup "openfga-zitadel" false false false None None) = None /\
  demo_chain demo_jwt_entry demo_jwt_deps no_request = Reached (mkCtx no_request "").
Proof.
  split; [reflexivity|].
  exact (anonymous_request (RSAKey := unit) (ECKey := unit) (fun _ => None) (fun _ => None) (fun _ _ => None) (fun _ _ _ _ => None)
    (fun _ => None) (fun _ => None) (fun _ => None) (fun _ => None) (fun s => s) ∅ (fun _ => None) ∅ [] 0 0 None
    demo_jwt_entry demo_jwt_deps demo_jwt_config no_request eq_refl demo_anonymous eq_refl (fun _ H => match H with eq_refl => I end)).
Defined.

Definition demo_bearer : request := with_header (fun _ => "Bearer anything") no_request.

Lemma apikey_bearer_unchecked_witness :
  validateEntryAuthConfig demo_key_entry (mkSetup "manual" true false false None None) = None /\
  demo_chain demo_key_entry demo_key_deps demo_bearer = Reached (mkCtx demo_bearer "").
Proof.
  split; [reflexivity|].
  exact (apikey_bearer_unchecked (RSAKey := unit) (ECKey := unit) (fun _ => None) (fun _ => None) (fun _ _ => None) (fun _ _ _ _ => None)
    (fun _ => None) (fun _ => None) (fun _ => None) (fun _ => None) (fun s => s) ∅ (fun _ => None) ∅ [] 0 0 None
    demo_key_entry demo_key_deps demo_bearer eq_refl eq_refl eq_refl).
Defined.

Definition demo_credentials : request := with_header (fun _ => basic_header "ann" "pw") no_request.

Lemma entry_authentication_sound_witness :
  exists c, demo_chain demo_basic_entry demo_basic_deps demo_credentials = Reached c /\
  ((exists a, rq_auth (cx_rq c) = Some a) \/ hasAuth demo_basic_entry "apikey" = true).
Proof.
  exists (mkCtx (with_auth demo_ann demo_credentials) ""). split; [vm_compute; reflexivity|].
  destruct (proj2 (entry_authentication_sound (RSAKey := unit) (ECKey := unit) (fun _ => None) (fun _ => None) (fun _ _ => None) (fun _ _ _ _ => None)
    (fun _ => None) (fun _ => None) (fun _ => None) (fun _ => None) (fun s => s) ∅ (fun _ => None) ∅ [] 0 0 None
    demo_basic_entry demo_basic_deps demo_credentials (mkCtx (with_auth demo_ann demo_credentials) "")
    ltac:(intros f c effs H; discriminate H) eq_refl ltac:(vm_compute; reflexivity)) eq_refl) as [(a & Ha & _)|[Ha _]].
  - left. exists a. exact Ha.
  - right. exact Ha.
Defined.

Definition demo_active (t : string) : option introspection := Some (mkIntrospection true "ann" "" "read").

Lemma introspection_staleness_witness :
  exists a, (Introspect demo_active (fun s => s) (mkOAuth "https://idp" 10) 5 (cache_after (fun s => s) (mkOAuth "https://idp" 10) [(0, demo_active, demo_bearer)]) demo_bearer).1 = Next [SetAuth a].
Proof.
  destruct (introspection_staleness (fun s => s) (mkOAuth "https://idp" 10) [(0, demo_active, demo_bearer)] 5 demo_active demo_bearer
    [SetAuth (mkAuth "ann" "" ["read"] [] "anything" ∅)] ltac:(vm_compute; reflexivity)) as (token & a & _ & [= <-] & _).
  eexists. vm_compute. reflexivity.
Defined.
