(* ===== verification/ExitWorker.v ===== *)
(** * Exit workers (runtime/exit.go)

    Consumers of a broker's messages: callbacks of a subscription (or the loop that pulls)
    put messages into a channel, a fixed number of worker goroutines takes them out and
    handles them, and [shutdown] closes first the signal and then the channel.  The machine's
    events are the steps of any goroutine between two accesses to shared state.  A [select]
    with several ready cases may take any of them, and sending on a closed channel panics. *)

From S2P Require Import Prelude ConfigTypes.
From Stdlib Require Import Ascii.

#[local] Open Scope string_scope.
#[local] Open Scope list_scope.
#[local] Open Scope Z_scope.

(** ** One message *)

Inductive settlement := Acked | Naked | Termed.
#[export] Instance settlement_eq_dec : EqDecision settlement. Proof. solve_decision. Defined.

(** What hooks, handler and broker do with one message: [hooks_ok] is [None] without hooks,
    else whether [OnMessage] succeeds; the response of the handler ([None] is an error);
    whether [Respond] succeeds. *)
Record run_env : Type := mkRun { re_hook : option bool; re_response : option string; re_respond : bool }.

(** The settlement and the reply that was sent. *)
Definition processTask (cfg : ExitWorker) (env : run_env) : settlement * option string :=
  if bool_decide (re_hook env = Some false) then (Naked, None)
  else
    match re_response env with
    | None => (if ExitWorker_TermOnFailure cfg then Termed else Naked, None)
    | Some resp =>
        if ExitWorker_Reply cfg && negb (String.eqb resp "") then
          if re_respond env then (Acked, Some resp) else (Naked, None)
        else (Acked, None)
    end.

(** ** The machine *)

Notation msg := nat.

(** A goroutine that enqueues: in the pull loop before its check; before the first check of
    [enqueueMsg]; about to evaluate its [select]; blocked in it. *)
Inductive enqueuer := EPull (m : msg) | EFirst (m : msg) | ESelect (m : msg) | EBlocked (m : msg).

(** A worker: at its [select]; with a message it has not checked the signal for; past the
    check; handling it (counted in [inFlight]); done with it, still counted; returned. *)
Inductive worker := WIdle | WGot (m : msg) | WReady (m : msg) | WRun (m : msg) | WDone | WExit.

(** [shutdown]: not called; the signal closed; the channel closed, waiting; returned. *)
Inductive stopping := NotStopped | Signalled | Waiting | Drained | TimedOut.
#[export] Instance stopping_eq_dec : EqDecision stopping. Proof. solve_decision. Defined.

Record exitWorker : Type := mkExit {
  x_cap : nat; x_queue : list msg; x_enq : list enqueuer; x_workers : list worker;
  x_inFlight : Z; x_stop : stopping; x_settled : list (msg * settlement); x_panic : bool
}.
#[export] Instance eta_exit : Eta exitWorker := fun x =>
  mkExit (x_cap x) (x_queue x) (x_enq x) (x_workers x) (x_inFlight x) (x_stop x) (x_settled x) (x_panic x).

Definition maxConcurrent (cfg : ExitWorker) : nat := if ExitWorker_MaxConcurrent cfg <=? 0 then 1%nat else Z.to_nat (ExitWorker_MaxConcurrent cfg).

Definition startExitWorker (cfg : ExitWorker) : exitWorker :=
  mkExit (maxConcurrent cfg * 2) [] [] (replicate (maxConcurrent cfg) WIdle) 0 NotStopped [] false.

(** [shutdownCh] is closed; [tasks] is closed. *)
Definition signalled (x : exitWorker) : bool := negb (bool_decide (x_stop x = NotStopped)).
Definition closed (x : exitWorker) : bool := negb (bool_decide (x_stop x = NotStopped)) && negb (bool_decide (x_stop x = Signalled)).

Definition settle (m : msg) (s : settlement) (x : exitWorker) : exitWorker := x <| x_settled := x_settled x ++ [(m, s)] |>.
Definition set_worker (w : nat) (s : worker) (x : exitWorker) : exitWorker := x <| x_workers := <[w := s]> (x_workers x) |>.
Definition leave (i : nat) (x : exitWorker) : exitWorker := x <| x_enq := delete i (x_enq x) |>.

Inductive event :=
| Push (m : msg)                          (* the subscription's callback starts *)
| Pull (m : msg)                          (* the pull loop comes to a message it fetched *)
| CheckPull (i : nat) | CheckFirst (i : nat) | Send (i : nat) | Block (i : nat) | GiveUp (i : nat)
| Receive (w : nat) | Quit (w : nat) | QuitClosed (w : nat) | CheckTask (w : nat) | Count (w : nat)
| Process (w : nat) (env : run_env) | Uncount (w : nat)
| CloseSignal | CloseTasks | PollInFlight | Timeout.

(** [None]: the event cannot happen now (its goroutine is elsewhere or blocked, or the
    program has panicked). *)
Definition enqueue_step (ev : event) (x : exitWorker) : option exitWorker :=
  match ev with
  | Push m => Some (x <| x_enq := x_enq x ++ [EFirst m] |>)
  | Pull m => Some (x <| x_enq := x_enq x ++ [EPull m] |>)
  | CheckPull i =>
      match x_enq x !! i with
      | Some (EPull m) => Some (if signalled x then settle m Naked (leave i x) else x <| x_enq := <[i := EFirst m]> (x_enq x) |>)
      | _ => None
      end
  | CheckFirst i =>
      match x_enq x !! i with
      | Some (EFirst m) => Some (if signalled x then settle m Naked (leave i x) else x <| x_enq := <[i := ESelect m]> (x_enq x) |>)
      | _ => None
      end
  | Send i =>
      match x_enq x !! i with
      | Some (ESelect m) =>
          if closed x then Some (x <| x_panic := true |>)
          else if bool_decide (length (x_queue x) < x_cap x)%nat then Some (leave i (x <| x_queue := x_queue x ++ [m] |>))
          else None
      | Some (EBlocked m) =>
          if negb (signalled x) && bool_decide (length (x_queue x) < x_cap x)%nat then Some (leave i (x <| x_queue := x_queue x ++ [m] |>)) else None
      | _ => None
      end
  | Block i =>
      match x_enq x !! i with
      | Some (ESelect m) =>
          if signalled x || bool_decide (length (x_queue x) < x_cap x)%nat then None else Some (x <| x_enq := <[i := EBlocked m]> (x_enq x) |>)
      | _ => None
      end
  | GiveUp i =>
      match x_enq x !! i with
      | Some (ESelect m) | Some (EBlocked m) => if signalled x then Some (settle m Naked (leave i x)) else None
      | _ => None
      end
  | _ => None
  end.

Definition worker_step (cfg : ExitWorker) (ev : event) (x : exitWorker) : option exitWorker :=
  match ev with
  | Receive w =>
      match x_workers x !! w, x_queue x with
      | Some WIdle, m :: q => Some (set_worker w (WGot m) (x <| x_queue := q |>))
      | _, _ => None
      end
  | Quit w => match x_workers x !! w with Some WIdle => if signalled x then Some (set_worker w WExit x) else None | _ => None end
  | QuitClosed w =>
      match x_workers x !! w, x_queue x with
      | Some WIdle, [] => if closed x then Some (set_worker w WExit x) else None
      | _, _ => None
      end
  | CheckTask w =>
      match x_workers x !! w with
      | Some (WGot m) => Some (if signalled x then settle m Naked (set_worker w WIdle x) else set_worker w (WReady m) x)
      | _ => None
      end
  | Count w =>
      match x_workers x !! w with
      | Some (WReady m) => Some (set_worker w (WRun m) (x <| x_inFlight := x_inFlight x + 1 |>))
      | _ => None
      end
  | Process w env =>
      match x_workers x !! w with
      | Some (WRun m) => Some (settle m (processTask cfg env).1 (set_worker w WDone x))
      | _ => None
      end
  | Uncount w =>
      match x_workers x !! w with
      | Some WDone => Some (set_worker w WIdle (x <| x_inFlight := x_inFlight x - 1 |>))
      | _ => None
      end
  | _ => None
  end.

Definition shutdown_step (ev : event) (x : exitWorker) : option exitWorker :=
  match ev with
  | CloseSignal => if bool_decide (x_stop x = NotStopped) then Some (x <| x_stop := Signalled |>) else None
  | CloseTasks => if bool_decide (x_stop x = Signalled) then Some (x <| x_stop := Waiting |>) else None
  | PollInFlight => if bool_decide (x_stop x = Waiting) then (if x_inFlight x =? 0 then Some (x <| x_stop := Drained |>) else Some x) else None
  | Timeout => if bool_decide (x_stop x = Waiting) then Some (x <| x_stop := TimedOut |>) else None
  | _ => None
  end.

Definition step (cfg : ExitWorker) (ev : event) (x : exitWorker) : option exitWorker :=
  if x_panic x then None
  else match ev with
  | Push _ | Pull _ | CheckPull _ | CheckFirst _ | Send _ | Block _ | GiveUp _ => enqueue_step ev x
  | CloseSignal | CloseTasks | PollInFlight | Timeout => shutdown_step ev x
  | _ => worker_step cfg ev x
  end.

Fixpoint run (cfg : ExitWorker) (evs : list event) (x : exitWorker) : option exitWorker :=
  match evs with [] => Some x | ev :: evs => x ← step cfg ev x; run cfg evs x end.

(** ** Where the messages are *)

Definition enq_msg (e : enqueuer) : msg := match e with EPull m | EFirst m | ESelect m | EBlocked m => m end.
Definition worker_msg (w : worker) : option msg := match w with WGot m | WReady m | WRun m => Some m | _ => None end.
Definition counted (w : worker) : bool := match w with WRun _ | WDone => true | _ => false end.

Definition places (x : exitWorker) : list msg := (enq_msg <$> x_enq x) ++ x_queue x ++ omap worker_msg (x_workers x) ++ (x_settled x).*1.

Lemma omap_delete {A B} (f : A -> option B) l i a : l !! i = Some a -> omap f l ≡ₚ option_list (f a) ++ omap f (delete i l).
Proof. intros H. rewrite (delete_Permutation l i a H) at 1. cbn. by destruct (f a). Qed.

Lemma delete_insert_same {A} (l : list A) i a : delete i (<[i := a]> l) = delete i l.
Proof. revert i. induction l as [|x l IH]; intros [|i]; cbn; [done..|]. f_equal. apply IH. Qed.

Lemma omap_insert {A B} (f : A -> option B) l i a b : l !! i = Some a -> omap f (<[i := b]> l) ≡ₚ option_list (f b) ++ omap f (delete i l).
Proof.
  intros H. rewrite (omap_delete f (<[i := b]> l) i b), delete_insert_same; [done|]. apply list_lookup_insert_eq. by eapply lookup_lt_Some.
Qed.

Lemma fmap_delete_perm {A B} (f : A -> B) l i a : l !! i = Some a -> f <$> l ≡ₚ f a :: (f <$> delete i l).
Proof. intros H. by rewrite (delete_Permutation l i a H) at 1. Qed.

(** The message an event brings in. *)
Definition brought (ev : event) : list msg := match ev with Push m | Pull m => [m] | _ => [] end.

Section places.
Context (cfg : ExitWorker).

Lemma places_leave x i e s : x_enq x !! i = Some e -> places (settle (enq_msg e) s (leave i x)) ≡ₚ places x.
Proof.
  intros H. unfold places. cbn. rewrite fmap_app, (fmap_delete_perm enq_msg _ _ _ H). cbn.
  rewrite !(assoc_L (++)). symmetry. apply Permutation_cons_append.
Qed.

Lemma places_send x i e : x_enq x !! i = Some e -> places (leave i (x <| x_queue := x_queue x ++ [enq_msg e] |>)) ≡ₚ places x.
Proof.
  intros H. unfold places. cbn. rewrite (fmap_delete_perm enq_msg _ _ _ H). cbn. rewrite <- (assoc_L (++)). cbn.
  rewrite (assoc_L (++)), <- Permutation_middle, <- (assoc_L (++)). done.
Qed.

Lemma places_enq x i e e' : x_enq x !! i = Some e -> enq_msg e' = enq_msg e -> places (x <| x_enq := <[i := e']> (x_enq x) |>) = places x.
Proof.
  intros H E. unfold places. cbn. rewrite list_fmap_insert, E. f_equal. apply list_insert_id. by rewrite list_lookup_fmap, H.
Qed.

(** A worker changes state: its message stays, arrives from the queue, or is settled. *)
Lemma workers_same ws w a b : ws !! w = Some a -> worker_msg b = worker_msg a -> omap worker_msg (<[w := b]> ws) ≡ₚ omap worker_msg ws.
Proof. intros H E. by rewrite (omap_insert _ _ _ _ _ H), E, <- (omap_delete _ _ _ _ H). Qed.

Lemma workers_put ws w a b m : ws !! w = Some a -> worker_msg a = None -> worker_msg b = Some m -> omap worker_msg (<[w := b]> ws) ≡ₚ m :: omap worker_msg ws.
Proof. intros H Ea Eb. rewrite (omap_insert _ _ _ _ _ H), Eb, (omap_delete _ _ _ _ H), Ea. done. Qed.

Lemma exit_workers_drop ws w a b m : ws !! w = Some a -> worker_msg a = Some m -> worker_msg b = None -> m :: omap worker_msg (<[w := b]> ws) ≡ₚ omap worker_msg ws.
Proof. intros H Ea Eb. rewrite (omap_insert _ _ _ _ _ H), Eb, (omap_delete _ _ _ _ H), Ea. done. Qed.

Lemma places_worker x w a b n : x_workers x !! w = Some a -> worker_msg b = worker_msg a -> places (set_worker w b (x <| x_inFlight := n |>)) ≡ₚ places x.
Proof. intros H E. unfold places. cbn. by rewrite (workers_same _ _ _ _ H E). Qed.

Lemma places_settle x w a b m s : x_workers x !! w = Some a -> worker_msg a = Some m -> worker_msg b = None -> places (settle m s (set_worker w b x)) ≡ₚ places x.
Proof.
  intros H Ea Eb. unfold places. cbn. rewrite <- (exit_workers_drop _ _ _ _ _ H Ea Eb), fmap_app. cbn.
  do 2 apply Permutation_app_head. rewrite (assoc_L (++)). symmetry. apply Permutation_cons_append.
Qed.

(** No step loses or duplicates a message. *)
Lemma step_places ev x x' : step cfg ev x = Some x' -> places x' ≡ₚ places x ++ brought ev.
Proof.
  intros H. unfold step, enqueue_step, worker_step, shutdown_step in H. destruct (x_panic x); [done|].
  destruct ev as [m|m|i|i|i|i|i|w|w|w|w|w|w env|w| | | |]; cbn [brought]; rewrite ?app_nil_r.
  1, 2: simplify_eq; unfold places; cbn; rewrite fmap_app; cbn; rewrite <- !(assoc_L (++)); apply Permutation_app_head; rewrite Permutation_app_comm, <- !(assoc_L (++)); done.
  - destruct (x_enq x !! i) as [[m|m|m|m]|] eqn:E; try done. destruct (signalled x); simplify_eq; [by apply (places_leave x i (EPull m))|by rewrite (places_enq x i (EPull m))].
  - destruct (x_enq x !! i) as [[m|m|m|m]|] eqn:E; try done. destruct (signalled x); simplify_eq; [by apply (places_leave x i (EFirst m))|by rewrite (places_enq x i (EFirst m))].
  - destruct (x_enq x !! i) as [[m|m|m|m]|] eqn:E; try done.
    + destruct (closed x); [by simplify_eq|]. destruct (bool_decide _); [|done]. simplify_eq. by apply (places_send x i (ESelect m)).
    + destruct (_ && _); [|done]. simplify_eq. by apply (places_send x i (EBlocked m)).
  - destruct (x_enq x !! i) as [[m|m|m|m]|] eqn:E; try done. destruct (_ || _); [done|]. simplify_eq. by rewrite (places_enq x i (ESelect m)).
  - destruct (x_enq x !! i) as [[m|m|m|m]|] eqn:E; try done; destruct (signalled x); [|done| |done]; simplify_eq;
      [by apply (places_leave x i (ESelect m))|by apply (places_leave x i (EBlocked m))].
  - destruct (x_workers x !! w) as [[]|] eqn:E; try done. destruct (x_queue x) as [|m q] eqn:Eq; [done|]. simplify_eq.
    unfold places. cbn. rewrite Eq. rewrite (workers_put _ _ _ _ m E) by done. apply Permutation_app_head. cbn. by rewrite <- Permutation_middle.
  - destruct (x_workers x !! w) as [[]|] eqn:E; try done. destruct (signalled x); [|done]. simplify_eq. unfold places. cbn. by rewrite (workers_same _ _ _ _ E).
  - destruct (x_workers x !! w) as [[]|] eqn:E; try done. destruct (x_queue x) eqn:Eq; [|done]. destruct (closed x); [|done]. simplify_eq.
    unfold places. cbn. by rewrite (workers_same _ _ _ _ E).
  - destruct (x_workers x !! w) as [[|m|m|m| |]|] eqn:E; try done. destruct (signalled x); simplify_eq; [by apply (places_settle x w (WGot m))|].
    unfold places. cbn. by rewrite (workers_same _ _ _ _ E).
  - destruct (x_workers x !! w) as [[|m|m|m| |]|] eqn:E; try done. simplify_eq. by apply (places_worker x w (WReady m)).
  - destruct (x_workers x !! w) as [[|m|m|m| |]|] eqn:E; try done. simplify_eq. by apply (places_settle x w (WRun m)).
  - destruct (x_workers x !! w) as [[|m|m|m| |]|] eqn:E; try done. simplify_eq. by apply (places_worker x w WDone).
  - destruct (bool_decide _); [by simplify_eq|done].
  - destruct (bool_decide _); [by simplify_eq|done].
  - destruct (bool_decide _); [|done]. destruct (_ =? _); by simplify_eq.
  - destruct (bool_decide _); [by simplify_eq|done].
Qed.

Lemma run_places evs : forall x x', run cfg evs x = Some x' -> places x' ≡ₚ places x ++ (evs ≫= brought).
Proof.
  induction evs as [|ev evs IH]; intros x x' H; cbn in H; [simplify_eq; by rewrite app_nil_r|].
  apply bind_Some in H as (x1 & H1 & H2). rewrite (IH _ _ H2), (step_places _ _ _ H1). cbn. by rewrite <- (assoc_L (++)).
Qed.
End places.

(** ** The invariant of the counters and the channel *)

Definition count1 (w : worker) : nat := if counted w then 1%nat else 0%nat.

Record exit_inv (cfg : ExitWorker) (x : exitWorker) : Prop := mkInv {
  inv_cap : x_cap x = (maxConcurrent cfg * 2)%nat;
  inv_workers : length (x_workers x) = maxConcurrent cfg;
  inv_queue : (length (x_queue x) <= x_cap x)%nat;
  inv_inFlight : x_inFlight x = Z.of_nat (sum_list_with count1 (x_workers x));
  inv_panic : x_panic x = true -> closed x = true
}.

Lemma inv_set cfg x w a b n : exit_inv cfg x -> x_panic x = false -> x_workers x !! w = Some a ->
  n + Z.of_nat (count1 a) = x_inFlight x + Z.of_nat (count1 b) -> exit_inv cfg (set_worker w b (x <| x_inFlight := n |>)).
Proof.
  intros [Hc Hw Hq Hf Hp] Np H E. pose proof (sum_insert count1 _ _ _ b H). split; cbn; [done|by rewrite length_insert|done|lia|by rewrite Np].
Qed.

Lemma inv_set_same cfg x w a b : exit_inv cfg x -> x_panic x = false -> x_workers x !! w = Some a -> counted a = counted b -> exit_inv cfg (set_worker w b x).
Proof. intros I Np H E. destruct x. apply (inv_set cfg _ w a b _ I Np H). unfold count1. by rewrite E. Qed.

(** The invariant does not speak of settled messages or of the goroutines that enqueue. *)
Lemma exit_frame cfg x s e : exit_inv cfg x -> exit_inv cfg (x <| x_settled := s |> <| x_enq := e |>).
Proof. by intros []. Qed.

Lemma inv_queue_sub cfg x q : exit_inv cfg x -> (length q <= x_cap x)%nat -> exit_inv cfg (x <| x_queue := q |>).
Proof. by intros [] H. Qed.

Lemma inv_stop cfg x s : exit_inv cfg x -> x_panic x = false -> exit_inv cfg (x <| x_stop := s |>).
Proof. intros [] Np. split; cbn; [done..|by rewrite Np]. Qed.

Lemma inv_enq_step cfg x s e : exit_inv cfg x -> exit_inv cfg (mkExit (x_cap x) (x_queue x) e (x_workers x) (x_inFlight x) (x_stop x) s (x_panic x)).
Proof. intros I. exact (exit_frame cfg x s e I). Qed.

Lemma inv_settle cfg x m s : exit_inv cfg x -> exit_inv cfg (settle m s x).
Proof. by intros []. Qed.

Create HintDb exit.
#[local] Hint Resolve exit_frame inv_stop inv_enq_step inv_set_same : exit.

Lemma step_inv cfg ev x x' : exit_inv cfg x -> step cfg ev x = Some x' -> exit_inv cfg x'.
Proof.
  intros I H. unfold step, enqueue_step, worker_step, shutdown_step in H. destruct (x_panic x) eqn:Np; [done|].
  assert (Hsend : forall i m, (length (x_queue x) < x_cap x)%nat -> exit_inv cfg (leave i (x <| x_queue := x_queue x ++ [m] |>))).
  { intros i m L. apply (inv_enq_step cfg (x <| x_queue := x_queue x ++ [m] |>)), inv_queue_sub; [done|]. rewrite length_app. cbn. lia. }
  destruct ev; repeat first [progress simplify_eq | case_match | case_bool_decide]; subst; try done; auto with exit;
    try (by apply (exit_frame cfg x)); try (by eapply inv_set_same; eauto).
  - destruct I. split; cbn; auto.
  - by destruct (signalled x).
  - destruct I as [Hc Hw Hq Hf Hp]. eapply (inv_set_same cfg (x <| x_queue := _ |>)); [|done|done|done]. apply inv_queue_sub; [done|].
    match goal with E : x_queue x = _ |- _ => rewrite E in Hq; cbn in Hq; lia end.
  - eapply inv_settle, inv_set_same; eauto.
  - eapply inv_set; eauto. cbn. lia.
  - eapply inv_settle, inv_set_same; eauto.
  - eapply inv_set; eauto. cbn. lia.
Qed.

Lemma start_inv cfg : exit_inv cfg (startExitWorker cfg).
Proof.
  split; cbn; [done|by rewrite length_replicate|lia| |done].
  induction (maxConcurrent cfg) as [|n IH]; cbn; [done|]. by rewrite IH.
Qed.

Lemma run_inv cfg evs : forall x x', exit_inv cfg x -> run cfg evs x = Some x' -> exit_inv cfg x'.
Proof.
  induction evs as [|ev evs IH]; intros x x' I H; cbn in H; [by simplify_eq|].
  apply bind_Some in H as (x1 & H1 & H2). eauto using step_inv.
Qed.

Lemma count1_le ws : (sum_list_with count1 ws <= length ws)%nat.
Proof. induction ws as [|[] ws IH]; cbn; lia. Qed.

(** ** What settles a message *)

(** A message is settled by the handling of a worker, or given back because of a shutdown. *)
Definition settled_by (cfg : ExitWorker) (evs : list event) (s : settlement) : Prop :=
  (exists w env, Process w env ∈ evs /\ (processTask cfg env).1 = s) \/ (s = Naked /\ CloseSignal ∈ evs).

Lemma step_settled cfg ev x x' m s : step cfg ev x = Some x' -> (m, s) ∈ x_settled x' ->
  (m, s) ∈ x_settled x \/ (exists w env, ev = Process w env /\ (processTask cfg env).1 = s) \/ (s = Naked /\ signalled x = true).
Proof.
  intros H Hm. unfold step, enqueue_step, worker_step, shutdown_step in H. destruct (x_panic x); [done|].
  destruct ev; repeat first [progress simplify_eq | case_match]; cbn in Hm; rewrite ?elem_of_app, ?list_elem_of_singleton in Hm; naive_solver.
Qed.

Lemma step_signalled cfg ev x x' : step cfg ev x = Some x' -> signalled x' = true -> signalled x = true \/ ev = CloseSignal.
Proof.
  intros H Hs. unfold step, enqueue_step, worker_step, shutdown_step in H. destruct (x_panic x); [done|].
  destruct ev; repeat first [progress simplify_eq | case_match]; auto; left;
    first [by rewrite <- Hs | unfold signalled in *; cbn in *; congruence | idtac];
    unfold signalled; match goal with E : bool_decide (_ = _) = true |- _ => apply bool_decide_eq_true in E; by rewrite E end.
Qed.

Lemma run_settled cfg evs : forall x x' m s, run cfg evs x = Some x' -> (m, s) ∈ x_settled x' ->
  (m, s) ∈ x_settled x \/ settled_by cfg evs s \/ (s = Naked /\ signalled x = true).
Proof.
  induction evs as [|ev evs IH]; intros x x' m s H Hm; cbn in H; [simplify_eq; auto|].
  apply bind_Some in H as (x1 & H1 & H2). unfold settled_by in *. setoid_rewrite elem_of_cons.
  destruct (IH _ _ _ _ H2 Hm) as [Hs|[Hs|[-> Hs]]].
  - destruct (step_settled _ _ _ _ _ _ H1 Hs); naive_solver.
  - naive_solver.
  - destruct (step_signalled _ _ _ _ H1 Hs) as [?|<-]; naive_solver.
Qed.

Lemma start_settled cfg : places (startExitWorker cfg) = [].
Proof. unfold places. cbn. rewrite app_nil_r. by induction (maxConcurrent cfg). Qed.

(** C20: From the start of an exit worker, whatever its goroutines do and in whatever order:
    every message delivered to it is in exactly one place (with a goroutine that enqueues it,
    in the channel, with a worker, or settled) and is settled at most once; nothing that was
    not delivered is settled; a message is acknowledged or terminated only by the handling of
    a worker, and given back only by one or because of the shutdown; the channel never holds
    more than twice [max_concurrent] messages, and the in-flight counter is the number of
    workers that handle one, at most [max_concurrent]. *)
Theorem exit_messages_settled_once cfg evs x :
  NoDup (evs ≫= brought) -> run cfg evs (startExitWorker cfg) = Some x ->
  places x ≡ₚ (evs ≫= brought) /\ NoDup (places x) /\ NoDup ((x_settled x).*1) /\
  (forall m s, (m, s) ∈ x_settled x -> m ∈ (evs ≫= brought) /\ settled_by cfg evs s) /\
  (length (x_queue x) <= 2 * maxConcurrent cfg)%nat /\
  x_inFlight x = Z.of_nat (sum_list_with count1 (x_workers x)) /\ 0 <= x_inFlight x <= Z.of_nat (maxConcurrent cfg).
Proof.
  intros Nd H. pose proof (run_places _ _ _ _ H) as P. rewrite start_settled in P. cbn in P.
  destruct (run_inv _ _ _ _ (start_inv cfg) H) as [Hc Hw Hq Hf _]. pose proof (count1_le (x_workers x)).
  assert (Np : NoDup (places x)) by by rewrite P.
  split_and!; [done|done| | |lia|done|lia|lia].
  - unfold places in Np. rewrite !NoDup_app in Np. tauto.
  - intros m s Hm. split.
    + rewrite <- P. unfold places. rewrite !elem_of_app. right. right. right. apply (list_elem_of_fmap_2 fst _ (m, s) Hm).
    + destruct (run_settled _ _ _ _ _ _ H Hm) as [Hn|[?|[_ ?]]]; [by apply elem_of_nil in Hn|done|done].
Qed.

(** ** The shutdown *)

(** Workers that are past the check of the signal and will still handle a message. *)
Definition due (w : worker) : nat := match w with WReady _ | WRun _ => 1%nat | _ => 0%nat end.
Definition handling (ev : event) : nat := match ev with Process _ _ => 1%nat | _ => 0%nat end.

Lemma step_due cfg ev x x' : signalled x = true -> step cfg ev x = Some x' ->
  signalled x' = true /\ (sum_list_with due (x_workers x') + handling ev = sum_list_with due (x_workers x))%nat.
Proof.
  intros Hs H. unfold step, enqueue_step, worker_step, shutdown_step in H. rewrite ?Hs in H. destruct (x_panic x); [done|].
  destruct ev; cbn in H; rewrite ?Hs in H; cbn in H; repeat first [progress simplify_eq | case_match]; cbn [handling]; split; try done; cbn; try lia;
    match goal with H : x_workers x !! ?w = Some ?a |- context [<[?w := ?b]> _] => pose proof (sum_insert due _ _ _ b H); cbn in *; lia end.
Qed.

Lemma run_due cfg evs : forall x x', signalled x = true -> run cfg evs x = Some x' ->
  (sum_list_with due (x_workers x') + sum_list_with handling evs = sum_list_with due (x_workers x))%nat.
Proof.
  induction evs as [|ev evs IH]; intros x x' Hs H; cbn in H; [simplify_eq; cbn; lia|].
  apply bind_Some in H as (x1 & H1 & H2). destruct (step_due _ _ _ _ Hs H1) as [Hs1 E]. specialize (IH _ _ Hs1 H2). cbn. lia.
Qed.

Lemma due_le ws : (sum_list_with due ws <= length ws)%nat.
Proof. induction ws as [|[] ws IH]; cbn; lia. Qed.

(** Once the shutdown signal is given, at most one more message per worker is handled,
    namely by the workers that were past their check of the signal, whatever the broker still
    delivers. *)
Theorem exit_shutdown_bounded cfg evs1 x1 evs2 x2 :
  run cfg evs1 (startExitWorker cfg) = Some x1 -> signalled x1 = true -> run cfg evs2 x1 = Some x2 ->
  (sum_list_with handling evs2 <= sum_list_with due (x_workers x1) <= maxConcurrent cfg)%nat.
Proof.
  intros H1 Hs H2. pose proof (run_due _ _ _ _ Hs H2). destruct (run_inv _ _ _ _ (start_inv cfg) H1) as [_ Hw _ _ _].
  pose proof (due_le (x_workers x1)). lia.
Qed.

Definition ok_env : run_env := mkRun None (Some "") true.

(** Two messages delivered, the first handled, the second in a worker when the signal comes. *)
Definition demo_cfg : ExitWorker := (ConfigTypes.zero : ExitWorker) <| ExitWorker_MaxConcurrent := 2 |>.
Definition demo_events : list event :=
  [Push 1%nat; Push 2%nat; CheckFirst 0; CheckFirst 1; Send 0; Send 0; Receive 0; CheckTask 0; Count 0; Process 0 ok_env; Receive 1; CheckTask 1; CloseSignal].

Lemma exit_messages_settled_once_witness : exists x,
  run demo_cfg demo_events (startExitWorker demo_cfg) = Some x /\ NoDup (places x) /\ x_settled x = [(1%nat, Acked)] /\ x_inFlight x <= 2.
Proof.
  eexists. split; [vm_compute; reflexivity|].
  eassert (H := exit_messages_settled_once demo_cfg demo_events _ ltac:(vm_compute; repeat constructor; set_solver) ltac:(vm_compute; reflexivity)).
  split; [apply H|]. split; [reflexivity|]. apply H.
Defined.

Lemma exit_shutdown_bounded_witness : exists x1 x2,
  run demo_cfg demo_events (startExitWorker demo_cfg) = Some x1 /\ run demo_cfg [Count 1; Process 1 ok_env] x1 = Some x2 /\
  (1 <= sum_list_with due (x_workers x1) <= 2)%nat.
Proof.
  eexists _, _. split; [vm_compute; reflexivity|]. split; [vm_compute; reflexivity|].
  eapply (exit_shutdown_bounded demo_cfg demo_events _ [Count 1; Process 1 ok_env] _); vm_compute; reflexivity.
Defined.

(** When the workers have left, nothing takes a message out of the channel. *)
Lemma run_abandoned cfg evs : forall x x', Forall (eq WExit) (x_workers x) -> run cfg evs x = Some x' -> x_queue x `prefix_of` x_queue x'.
Proof.
  induction evs as [|ev evs IH]; intros x x' Hw H; cbn in H; [by simplify_eq|]. apply bind_Some in H as (x1 & H1 & H2).
  assert (Hg : forall w a, x_workers x !! w = Some a -> a = WExit) by (intros w a E; symmetry; by eapply Forall_lookup in E).
  assert (x_workers x1 = x_workers x /\ x_queue x `prefix_of` x_queue x1) as [E1 E2].
  { unfold step, enqueue_step, worker_step, shutdown_step in H1. destruct (x_panic x); [done|].
    destruct ev; repeat first [progress simplify_eq | case_match]; cbn; try done;
      try (match goal with E : x_workers x !! _ = Some _ |- _ => by apply Hg in E end); split; (done || by apply prefix_app_r). }
  rewrite <- E1 in Hw. by etrans; [|eapply IH].
Qed.

(** What the shutdown does not guarantee.  A subscription's callback that passed its
    check of the signal before the shutdown sends on the closed channel, which panics; the
    shutdown reports that the worker is drained while a worker still has a message to
    handle; workers leave while messages are in the channel, which are then never settled. *)
Theorem exit_shutdown_gaps :
  (exists x, run demo_cfg [Push 1%nat; CheckFirst 0; CloseSignal; CloseTasks; Send 0] (startExitWorker demo_cfg) = Some x /\ x_panic x = true) /\
  (exists x x', run demo_cfg (demo_events ++ [Uncount 0; CloseTasks; PollInFlight]) (startExitWorker demo_cfg) = Some x /\ x_stop x = Drained /\
     (2%nat ∉ (x_settled x).*1) /\ run demo_cfg [Count 1; Process 1 ok_env] x = Some x' /\ (2%nat, Acked) ∈ x_settled x') /\
  (exists x, run demo_cfg [Push 1%nat; CheckFirst 0; Send 0; CloseSignal; CloseTasks; Quit 0; Quit 1; PollInFlight] (startExitWorker demo_cfg) = Some x /\
     x_stop x = Drained /\ x_workers x = [WExit; WExit] /\ x_queue x = [1%nat] /\ x_settled x = [] /\
     forall evs x', run demo_cfg evs x = Some x' -> 1%nat ∈ x_queue x').
Proof.
  split_and!.
  - eexists. by split.
  - eexists _, _. split; [vm_compute; reflexivity|]. split; [reflexivity|]. split; [cbn; set_solver|]. split; [vm_compute; reflexivity|]. cbn. set_solver.
  - eexists. split; [vm_compute; reflexivity|]. do 4 (split; [reflexivity|]). intros evs x' H.
    eapply run_abandoned in H; [|cbn; by repeat constructor]. eapply elem_of_prefix; [|done]. cbn. set_solver.
Qed.
