(* ===== verification/Brokers.v ===== *)
(** * Brokers (events/consumer.go, events/kafka_broker.go, events/kafka_message.go, events/nats.go,
      events/kv.go)

    Consumers of JetStream and Kafka, and the key-value buckets.  The clients of both brokers are
    parameters: what a call answers is an input, and what the servers keep is modelled as far
    as their documentation says how commits and acknowledgements move it. *)

From S2P Require Import Prelude GoStrings SqlModel.
From Stdlib Require Import Ascii String.
#[local] Open Scope string_scope.
#[local] Open Scope list_scope.
#[local] Open Scope Z_scope.

(** ** JetStream consumers *)

(** [AckAction] is an [int]: a handler can return any. *)
Definition Ack : Z := 0.
Definition Nak : Z := 1.
Definition NakDelay : Z := 2.
Definition Term : Z := 3.

Record ConsumerConfig : Type := mkConsumer { cc_Stream : string; cc_Subject : string; cc_Durable : string; cc_QueueGroup : string; cc_DeliverAll : bool; cc_MaxDeliver : Z; cc_AckWait : Z; cc_BackOff : list Z;
  cc_PullBatch : Z; cc_PullMaxWait : Z; cc_NakDelay : Z; cc_Reply : bool }.

Notation second := (10 ^ 9).

Definition DefaultConsumerConfig (stream durable : string) : ConsumerConfig :=
  mkConsumer stream stream durable "" true 5 (30 * second) [1 * second; 2 * second; 5 * second; 10 * second; 30 * second] 10 (5 * second) (5 * second) false.

Definition getNakDelay (cfg : ConsumerConfig) : Z := if 0 <? cc_NakDelay cfg then cc_NakDelay cfg else 5 * second.

Inductive subOpt : Type := oMaxDeliver (n : Z) | oAckWait (d : Z) | oDeliverAll | oDeliverNew | oBackOff (l : list Z) | oDurable (name : string) | oManualAck.

Definition consumerSubOpts (cfg : ConsumerConfig) : list subOpt :=
  [oMaxDeliver (cc_MaxDeliver cfg); oAckWait (cc_AckWait cfg); if cc_DeliverAll cfg then oDeliverAll else oDeliverNew] ++ (match cc_BackOff cfg with [] => [] | l => [oBackOff l] end).

Definition push_options (cfg : ConsumerConfig) : list subOpt := [oDurable (cc_Durable cfg); oManualAck] ++ consumerSubOpts cfg.

(** What a message is answered with. *)
Inductive settle : Type := MAck | MNak | MNakDelay (d : Z) | MTerm.

(** [processMsg]: [decode] is [json.Unmarshal], the handler returns an action or an error. *)
Definition processMsg {T} (decode : string -> option T) (handler : T -> string + Z) (cfg : ConsumerConfig) (data : string) : settle :=
  match decode data with
  | None => MTerm
  | Some x =>
      match handler x with
      | inl _ => MNak
      | inr action =>
          if action =? Ack then MAck else if action =? Nak then MNak else if action =? NakDelay then MNakDelay (getNakDelay cfg) else if action =? Term then MTerm else MAck
      end
  end.

(** The size of a batch and the time to wait for one. *)
Definition pull_batch (cfg : ConsumerConfig) : Z := if cc_PullBatch cfg <=? 0 then 10 else cc_PullBatch cfg.
Definition pull_wait (cfg : ConsumerConfig) : Z :=
  let w := if cc_PullMaxWait cfg <=? 0 then 5 * second else cc_PullMaxWait cfg in if 2 * second <? w then 2 * second else w.

(** The batch, until the context is done: [live] says of each message whether it is not yet. *)
Fixpoint pull_messages {T} (decode : string -> option T) (handler : T -> string + Z) (cfg : ConsumerConfig) (msgs : list (nat * string)) (live : nat -> bool) : list (nat * settle) * bool :=
  match msgs with
  | [] => ([], true)
  | (i, data) :: msgs => if live i then let '(l, go) := pull_messages decode handler cfg msgs live in ((i, processMsg decode handler cfg data) :: l, go) else ([], false)
  end.

(** The loop of [ConsumePull] over the rounds: whether the context is live, and what [Fetch] gives;
    an error is a round without messages. *)
Fixpoint pull_loop {T} (decode : string -> option T) (handler : T -> string + Z) (cfg : ConsumerConfig) (rounds : list (bool * option (list (nat * string)))) (live : nat -> bool) : list (nat * settle) :=
  match rounds with
  | [] => []
  | (false, _) :: _ => []
  | (true, None) :: rounds => pull_loop decode handler cfg rounds live
  | (true, Some msgs) :: rounds => let '(l, go) := pull_messages decode handler cfg msgs live in if go then l ++ pull_loop decode handler cfg rounds live else l
  end.

(** *** The durable consumer at the server

    A stream, and for each durable name the position of a consumer in it. *)
Record jetstream : Type := mkJS { js_log : list string; js_consumers : gmap string nat }.

(** [DeleteConsumer], and a subscription that makes a consumer unless the name has one. *)
Definition DeleteConsumer (durable : string) (s : jetstream) : jetstream := mkJS (js_log s) (delete durable (js_consumers s)).
Definition js_subscribe (durable : string) (deliverAll : bool) (s : jetstream) : jetstream :=
  match js_consumers s !! durable with Some _ => s | None => mkJS (js_log s) (<[durable := if deliverAll then 0%nat else List.length (js_log s)]> (js_consumers s)) end.
Definition js_acked (durable : string) (n : nat) (s : jetstream) : jetstream := mkJS (js_log s) (alter (Nat.add n) durable (js_consumers s)).
Definition js_publish (data : string) (s : jetstream) : jetstream := mkJS (js_log s ++ [data]) (js_consumers s).

(** What [ConsumePull] and [ConsumePush] do at the server. *)
Definition Consume (cfg : ConsumerConfig) (s : jetstream) : jetstream := js_subscribe (cc_Durable cfg) (cc_DeliverAll cfg) (DeleteConsumer (cc_Durable cfg) s).

(** What a consumer has still to deliver. *)
Definition to_deliver (durable : string) (s : jetstream) : list string := match js_consumers s !! durable with Some p => drop p (js_log s) | None => [] end.

(** ** Kafka *)

Record KafkaBroker : Type := mkKafka { kb_name : string; kb_brokers : list string; kb_consumerGroup : string; ensured : gset string }.
Definition NewKafkaBroker (name : string) (brokers : list string) (group : string) : KafkaBroker := mkKafka name brokers group ∅.

(** [create]: whether dialing and [CreateTopics] succeed. *)
Definition ensureTopic (create : string -> option string) (topic : string) : option string := create topic.

Definition ensure_subject (create : string -> option string) (subject : string) (b : KafkaBroker) : option string * KafkaBroker :=
  if decide (subject ∈ ensured b) then (None, b)
  else match ensureTopic create subject with Some e => (Some e, b) | None => (None, mkKafka (kb_name b) (kb_brokers b) (kb_consumerGroup b) ({[subject]} ∪ ensured b)) end.

(** [write]: what [DialLeader] and [WriteMessages] answer. *)
Definition Kafka_Publish (create : string -> option string) (write : string -> string -> option string) (subject data : string) (b : KafkaBroker) : option string * KafkaBroker :=
  let '(err, b) := ensure_subject create subject b in match err with Some e => (Some e, b) | None => (write subject data, b) end.

(** It does not note that the topic is there. *)
Definition Kafka_EnsureStream (create : string -> option string) (name : string) (b : KafkaBroker) : option string := if decide (name ∈ ensured b) then None else ensureTopic create name.

Fixpoint Kafka_EnsureStreams (create : string -> option string) (names : list string) (b : KafkaBroker) : option string :=
  match names with [] => None | n :: names => match Kafka_EnsureStream create n b with Some e => Some e | None => Kafka_EnsureStreams create names b end end.

(** A group at a partition: the messages and the committed offset; committing a message puts the
    offset after it. *)
Record group : Type := mkGroup { gr_log : list string; gr_committed : nat }.
Definition CommitMessages (offset : nat) (g : group) : group := mkGroup (gr_log g) (S offset).

(** [kafkaMessage]: [Nak] does nothing. *)
Definition kafka_Ack (offset : nat) (g : group) : group := CommitMessages offset g.
Definition kafka_Nak (offset : nat) (g : group) : group := g.
Definition kafka_Term (offset : nat) (g : group) : group := CommitMessages offset g.

(** The loop of [Subscribe] from an offset on: for each message it fetches, whether the handler
    returns no error and whether the commit succeeds.  It ends when fetching fails. *)
Fixpoint kafka_loop (offset : nat) (results : list (bool * bool)) (g : group) : group :=
  match results with
  | [] => g
  | (ok, commit) :: results => kafka_loop (S offset) results (if ok && commit then kafka_Ack offset g else g)
  end.

(** A reader of the group: it starts at the committed offset. *)
Definition kafka_session (results : list (bool * bool)) (g : group) : group := kafka_loop (gr_committed g) results g.
Definition kafka_next (g : group) : list string := drop (gr_committed g) (gr_log g).

(** ** NATS connections *)

Record ConnOptions : Type := mkConnOptions { no_Name : string; no_URL : string; no_MaxReconnects : Z; no_ReconnectWait : Z; no_Timeout : Z; no_RetryOnFail : bool; no_User : string; no_Password : string; no_Token : string;
  no_NKeySeed : string; no_NKeySeedFile : string; no_CredsFile : string; no_CAFile : string; no_CertFile : string; no_KeyFile : string }.

Inductive natsOption : Type :=
| RetryOnFailedConnect (b : bool) | MaxReconnects (n : Z) | ReconnectWait (d : Z) | Timeout_ (d : Z) | UserCredentials (file : string) | Nkey (seed : string) | Token_ (t : string) | UserInfo (user pass : string)
| RootCAs (file : string) | ClientCert (cert key : string) | TLSHandshakeFirst | NilOption.

Section connect.
(** A file's contents, and whether a seed is one: its error. *)
Context (ReadFile : string -> option string) (FromSeed : string -> option string).

Definition nkeyOption (o : ConnOptions) : string + natsOption :=
  let seed := TrimSpace (no_NKeySeed o) in
  match (if (seed =? "")%string && negb (no_NKeySeedFile o =? "")%string then match ReadFile (no_NKeySeedFile o) with None => None | Some raw => Some (TrimSpace raw) end else Some seed) with
  | None => inl "events: read nkey seed file"
  | Some seed => if (seed =? "")%string then inr NilOption else match FromSeed seed with Some e => inl ("events: parse nkey seed: " +:+ e) | None => inr (Nkey seed) end
  end.

Definition authOptions (o : ConnOptions) : string + list natsOption :=
  if negb (TrimSpace (no_CredsFile o) =? "")%string then inr [UserCredentials (no_CredsFile o)]
  else if negb (no_NKeySeed o =? "")%string || negb (no_NKeySeedFile o =? "")%string then match nkeyOption o with inl e => inl e | inr x => inr [x] end
  else if negb (no_Token o =? "")%string then inr [Token_ (no_Token o)]
  else if negb (no_User o =? "")%string then inr [UserInfo (no_User o) (no_Password o)]
  else inr [].

Definition at_least_one (x default : Z) : Z := if x <=? 0 then default else x.

(** The address and the options [Connect] connects with. *)
Definition Connect (o : ConnOptions) : string + (string * list natsOption) :=
  match authOptions o with
  | inl e => inl e
  | inr auth => inr (if (no_URL o =? "")%string then "nats://127.0.0.1:4222" else no_URL o,
      [RetryOnFailedConnect (no_RetryOnFail o); MaxReconnects (at_least_one (no_MaxReconnects o) 10); ReconnectWait (at_least_one (no_ReconnectWait o) (2 * second)); Timeout_ (at_least_one (no_Timeout o) (5 * second))] ++ auth
      ++ (if (no_CAFile o =? "")%string then [] else [RootCAs (no_CAFile o)])
      ++ (if negb (no_CertFile o =? "")%string && negb (no_KeyFile o =? "")%string then [ClientCert (no_CertFile o) (no_KeyFile o)] else [])
      ++ (if negb (no_CAFile o =? "")%string || negb (no_CertFile o =? "")%string then [TLSHandshakeFirst] else []))
  end.
End connect.

(** [WaitForNATS]: whether an attempt succeeds, and whether the context is done during the pause
    after it.  The result ([None] is the error of the context), and the number of attempts. *)
Fixpoint wait_loop (connects cancelled : nat -> bool) (i : nat) (left_ : nat) : option bool * nat :=
  match left_ with
  | O => (Some false, i)
  | S left_ => if connects i then (Some true, S i) else match left_ with O => (Some false, S i) | _ => if cancelled i then (None, S i) else wait_loop connects cancelled (S i) left_ end
  end.
Definition WaitForNATS (connects cancelled : nat -> bool) (retries : Z) : option bool * nat := wait_loop connects cancelled 0 (Z.to_nat retries).

(** ** Buckets *)

(** A bucket of the server, and the values of the typed cache. *)
Section cache.
Context {T : Type} (encode : T -> option string) (decode : string -> option T).

Notation bucket := (gmap string string).

(** [nats.ErrKeyNotFound] is no value. *)
Definition Cache_Get (key : string) (b : bucket) : string + option T :=
  match b !! key with None => inr None | Some data => match decode data with None => inl "events: cache unmarshal" | Some v => inr (Some v) end end.

Definition Cache_Set (key : string) (val : T) (b : bucket) : option string * bucket :=
  match encode val with None => (Some "events: cache marshal", b) | Some data => (None, <[key := data]> b) end.

Definition Cache_Delete (key : string) (b : bucket) : option string * bucket := (None, delete key b).

(** The result, the bucket, and whether [fn] was called. *)
Definition Cache_GetOrSet (key : string) (fn : string + option T) (b : bucket) : (string + option T) * bucket * bool :=
  match Cache_Get key b with
  | inl e => (inl e, b, false)
  | inr (Some v) => (inr (Some v), b, false)
  | inr None =>
      match fn with
      | inl e => (inl e, b, true)
      | inr None => (inr None, b, true)
      | inr (Some v) => let '(err, b) := Cache_Set key v b in match err with Some e => (inl e, b, true) | None => (inr (Some v), b, true) end
      end
  end.
End cache.

(** *** The buckets of a connection *)

Inductive StorageType : Type := FileStorage | MemoryStorage.
Inductive CompressionType : Type := S2Compression | NoCompression.

(** The numbers of [nats.StorageType] and [nats.StoreCompression]. *)
Definition convertStorage (s : StorageType) : Z := match s with MemoryStorage => 1 | FileStorage => 0 end.
Definition convertCompression (c : CompressionType) : Z := match c with NoCompression => 0 | S2Compression => 1 end.

Record StreamConfig : Type := mkStream { sc_Name : string; sc_Subjects : list string; sc_MaxAge : Z; sc_MaxBytes : Z; sc_Storage : StorageType; sc_Compression : CompressionType }.
Definition DefaultStreamConfig (name : string) : StreamConfig := mkStream name [name; name +:+ ".>"] (24 * 3600 * second) (1024 * 1024 * 1024) FileStorage S2Compression.

(** [AddStream]: what it answers; a stream that there is is no error. *)
Inductive answer : Type := Done | AlreadyInUse | Failed (msg : string).
Definition EnsureStream (add : StreamConfig -> answer) (cfg : StreamConfig) : option string :=
  match add cfg with Failed msg => Some ("events: stream " +:+ sc_Name cfg +:+ ": " +:+ msg) | _ => None end.
Fixpoint EnsureStreams (add : StreamConfig -> answer) (cfgs : list StreamConfig) : option string :=
  match cfgs with [] => None | cfg :: cfgs => match EnsureStream add cfg with Some e => Some e | None => EnsureStreams add cfgs end end.

Record KVConfig : Type := mkKV { kc_Bucket : string; kc_Description : string; kc_TTL : Z; kc_MaxBytes : Z; kc_Storage : StorageType; kc_Replicas : Z }.
Definition DefaultKVConfig (bucket : string) : KVConfig := mkKV bucket (bucket +:+ " KV store") (5 * 60 * second) (256 * 1024 * 1024) MemoryStorage 0.

(** The buckets the connection has handles of, and those of the server: how each was made, and
    what it holds. *)
Record kv_state : Type := mkKvState { kvs : gset string; srv : gmap string (KVConfig * gmap string string) }.

(** What calls of the server fail with. *)
Record kv_calls : Type := mkKvCalls { fail_create : option string; fail_load : option string; fail_get : option string; fail_put : option string; fail_delete : string -> option string; fail_keys : option string }.
Definition kv_work : kv_calls := mkKvCalls None None None None (fun _ => None) None.

Definition EnsureKeyValue (o : kv_calls) (cfg : KVConfig) (s : kv_state) : option string * kv_state :=
  let b := kc_Bucket cfg in
  if decide (b ∈ kvs s) then (None, s)
  else match fail_create o, srv s !! b with
       | Some e, _ => (Some ("events: kv " +:+ b +:+ ": " +:+ e), s)
       | None, None => (None, mkKvState ({[b]} ∪ kvs s) (<[b := (cfg, ∅)]> (srv s)))
       | None, Some _ => match fail_load o with Some e => (Some ("events: kv load " +:+ b +:+ ": " +:+ e), s) | None => (None, mkKvState ({[b]} ∪ kvs s) (srv s)) end
       end.

Definition held (bucket : string) (s : kv_state) : gmap string string := match srv s !! bucket with Some (_, m) => m | None => ∅ end.
Definition hold (bucket : string) (m : gmap string string) (s : kv_state) : kv_state := mkKvState (kvs s) (alter (fun cm => (cm.1, m)) bucket (srv s)).

Definition KVGet (o : kv_calls) (bucket key : string) (s : kv_state) : (string + string) * kv_state :=
  match EnsureKeyValue o (DefaultKVConfig bucket) s with
  | (Some e, s) => (inl e, s)
  | (None, s) => (match fail_get o with Some e => inl e | None => match held bucket s !! key with Some v => inr v | None => inl "nats: key not found" end end, s)
  end.

Definition KVPut (o : kv_calls) (bucket key value : string) (s : kv_state) : option string * kv_state :=
  match EnsureKeyValue o (DefaultKVConfig bucket) s with
  | (Some e, s) => (Some e, s)
  | (None, s) => match fail_put o with Some e => (Some e, s) | None => (None, hold bucket (<[key := value]> (held bucket s)) s) end
  end.

Definition KVDelete (o : kv_calls) (bucket key : string) (s : kv_state) : option string * kv_state :=
  match EnsureKeyValue o (DefaultKVConfig bucket) s with
  | (Some e, s) => (Some e, s)
  | (None, s) => match fail_delete o key with Some e => (Some e, s) | None => (None, hold bucket (delete key (held bucket s)) s) end
  end.

(** No keys is no error. *)
Definition KVKeys (o : kv_calls) (bucket : string) (s : kv_state) : (string + list string) * kv_state :=
  match EnsureKeyValue o (DefaultKVConfig bucket) s with
  | (Some e, s) => (inl ("events: kv keys: " +:+ e), s)
  | (None, s) => (match fail_keys o with Some e => inl ("events: kv keys: " +:+ e) | None => inr (map_to_list (held bucket s)).*1 end, s)
  end.

(** A key that cannot be deleted is left. *)
Definition KVReset (o : kv_calls) (bucket : string) (s : kv_state) : option string * kv_state :=
  match EnsureKeyValue o (DefaultKVConfig bucket) s with
  | (Some e, s) => (Some e, s)
  | (None, s) =>
      match fail_keys o with
      | Some e => (Some ("events: kv reset: " +:+ e), s)
      | None => (None, hold bucket (foldl (fun m k => match fail_delete o k with Some _ => m | None => delete k m end) (held bucket s) (map_to_list (held bucket s)).*1) s)
      end
  end.

(** *** Producers *)

(** [Publish]: [publish] is what JetStream answers, [opts] the number of options. *)
Definition Producer_Publish {T} (encode : T -> option string) (publish : string -> string -> list string -> option string) (sub : string) (msg : T) (ids : list string) : option string :=
  match encode msg with
  | None => Some "events: marshal"
  | Some data => match publish sub data ids with Some e => Some ("events: publish " +:+ sub +:+ ": " +:+ e) | None => None end
  end.
Definition PublishWithID {T} (encode : T -> option string) (publish : string -> string -> list string -> option string) (sub : string) (msg : T) (id : string) (ids : list string) : option string :=
  Producer_Publish encode publish sub msg (ids ++ [id]).

(** [PublishAndWait]: the reply, decoded; the timeout is not used. *)
Definition PublishAndWait {T} (encode : T -> option string) (decode : string -> option T) (request : string -> string -> string + string) (sub : string) (msg : T) (timeout : Z) : string + T :=
  match encode msg with
  | None => inl "events: marshal"
  | Some data => match request sub data with
                 | inl e => inl ("events: request " +:+ sub +:+ ": " +:+ e)
                 | inr resp => match decode resp with None => inl "events: unmarshal reply" | Some v => inr v end
                 end
  end.
Definition PublishAndWaitRaw (request : string -> string -> string + string) (sub data : string) (timeout : Z) : string + string :=
  match request sub data with inl e => inl ("events: request " +:+ sub +:+ ": " +:+ e) | inr resp => inr resp end.

(** ** Properties *)

(** *** Kafka *)

Lemma kafka_loop_app l1 l2 : forall offset g, kafka_loop offset (l1 ++ l2) g = kafka_loop (offset + List.length l1) l2 (kafka_loop offset l1 g).
Proof. induction l1 as [|[ok c] l1 IH]; intros offset g; cbn [kafka_loop app List.length]; [by rewrite Nat.add_0_r|]. rewrite IH. f_equal. lia. Qed.

Lemma kafka_loop_fails l : Forall (fun r => r.1 && r.2 = false) l -> forall offset g, kafka_loop offset l g = g.
Proof. induction 1 as [|[ok c] l H _ IH]; intros offset g; cbn [kafka_loop]; [done|]. cbn in H. rewrite H. apply IH. Qed.

Lemma kafka_loop_bounds l : forall offset g, (gr_committed g <= offset)%nat -> gr_log (kafka_loop offset l g) = gr_log g /\ (gr_committed g <= gr_committed (kafka_loop offset l g) <= offset + List.length l)%nat.
Proof.
  induction l as [|[ok c] l IH]; intros offset g Hg; cbn [kafka_loop List.length]; [split; [done|lia]|]. destruct (IH (S offset) (if ok && c then kafka_Ack offset g else g)) as [L B].
  - destruct (ok && c); cbn; lia.
  - rewrite L. destruct (ok && c); cbn in *; split; (done || lia).
Qed.

(** What a Kafka consumer sees again.  Of the messages that a reader fetched, the next reader
    of the group gets a message exactly when neither it nor any later one was handled without
    an error and committed: a message whose handling failed is seen again only if nothing
    after it succeeded. *)
Theorem kafka_redelivery (results : list (bool * bool)) (g : group) (i : nat) : (i < List.length results)%nat ->
  let g' := kafka_session results g in
  gr_log g' = gr_log g /\ ((gr_committed g' <= gr_committed g + i)%nat <-> forall j r, (i <= j)%nat -> results !! j = Some r -> r.1 && r.2 = false).
Proof.
  intros Hi g'. unfold g', kafka_session. destruct (kafka_loop_bounds results (gr_committed g) g ltac:(lia)) as [L _]. split; [done|]. split.
  - intros H j r Hj E. destruct (r.1 && r.2) eqn:K; [exfalso|done]. rewrite <- (take_drop_middle results j r E), kafka_loop_app in H. destruct r as [ok c]. cbn [kafka_loop] in H. cbn in K. rewrite K in H.
    pose proof (lookup_lt_Some _ _ _ E) as Hl. rewrite length_take_le in H by lia.
    destruct (kafka_loop_bounds (drop (S j) results) (S (gr_committed g + j)) (kafka_Ack (gr_committed g + j) (kafka_loop (gr_committed g) (take j results) g))) as [_ B]; [cbn; lia|]. cbn in B. lia.
  - intros H. rewrite <- (take_drop i results), kafka_loop_app, kafka_loop_fails.
    + destruct (kafka_loop_bounds (take i results) (gr_committed g) g ltac:(lia)) as [_ B]. rewrite length_take_le in B by lia. lia.
    + apply Forall_lookup. intros k r E. rewrite lookup_drop in E. apply (H (i + k)%nat); [lia|done].
Qed.

Lemma kafka_redelivery_witness :
  let g' := kafka_session [(true, true); (false, true); (true, true); (false, true)] (mkGroup ["a"; "b"; "c"; "d"] 0) in
  gr_log g' = ["a"; "b"; "c"; "d"] /\ (gr_committed g' <= 0 + 3)%nat.
Proof.
  intros g'. destruct (kafka_redelivery [(true, true); (false, true); (true, true); (false, true)] (mkGroup ["a"; "b"; "c"; "d"] 0) 3 ltac:(cbn; lia)) as [H1 H2]. split; [exact H1|].
  apply H2. intros [|[|[|[|j]]]] r Hj E; try lia; cbn in E; [by injection E as <-|done].
Defined.


(** A worker's subscription puts a message into its channel and returns no error: with Kafka
    the message is committed before it is handled, whatever its handling says. *)
Lemma committed_before_handled (n : nat) (g : group) : kafka_next (kafka_session (replicate n (true, true)) g) = drop n (kafka_next g).
Proof.
  unfold kafka_next. rewrite drop_drop. destruct (kafka_loop_bounds (replicate n (true, true)) (gr_committed g) g ltac:(lia)) as [L _]. unfold kafka_session. rewrite L. f_equal.
  destruct n as [|n]; [cbn; lia|]. replace (S n) with (n + 1)%nat by lia. rewrite replicate_add, kafka_loop_app, length_replicate. cbn. lia.
Qed.

(** *** JetStream *)

(** A consumer that is started begins anew: with [DeliverAll] every message of the stream is
    delivered again, acknowledged or not; without it what was published while no consumer ran
    is not delivered. *)
Lemma consume_starts_over (cfg : ConsumerConfig) (s : jetstream) : to_deliver (cc_Durable cfg) (Consume cfg s) = if cc_DeliverAll cfg then js_log s else [].
Proof.
  unfold to_deliver, Consume, js_subscribe, DeleteConsumer. cbn. rewrite lookup_delete_eq. cbn. rewrite lookup_insert_eq. destruct (cc_DeliverAll cfg); [done|]. by rewrite drop_all.
Qed.

(** Without the deletion a durable name goes on where its last acknowledgements were. *)
Lemma subscribe_goes_on (durable : string) (all : bool) (s : jetstream) p : js_consumers s !! durable = Some p -> to_deliver durable (js_subscribe durable all s) = drop p (js_log s).
Proof. intros E. unfold to_deliver, js_subscribe. by rewrite E, E. Qed.

Lemma pull_messages_spec {T} (decode : string -> option T) handler cfg msgs live :
  (pull_messages decode handler cfg msgs live).1 `prefix_of` ((fun m => (m.1, processMsg decode handler cfg m.2)) <$> msgs) /\
  ((forall m, m ∈ msgs -> live m.1 = true) -> pull_messages decode handler cfg msgs live = ((fun m => (m.1, processMsg decode handler cfg m.2)) <$> msgs, true)).
Proof.
  induction msgs as [|[i data] msgs [IH1 IH2]]; cbn; [done|]. destruct (live i) eqn:E.
  - destruct (pull_messages decode handler cfg msgs live) as [l go]. cbn in *. split; [by apply prefix_cons|]. intros H. assert (X : forall m, m ∈ msgs -> live m.1 = true) by (intros m Hm; apply H; by right). by injection (IH2 X) as -> ->.
  - split; [apply prefix_nil|]. intros H. specialize (H (i, data) ltac:(left)). cbn in H. congruence.
Qed.

Lemma prefix_is_sublist {A} (l k : list A) : l `prefix_of` k -> sublist l k.
Proof. intros [x ->]. apply sublist_inserts_r. reflexivity. Qed.

(** The pulling consumer answers every message once.  Of the messages it fetches each is
    answered at most once, in the order they come, with the answer of [processMsg]; and if the
    context stays live each is answered. *)
Theorem pull_answers {T} (decode : string -> option T) (handler : T -> string + Z) (cfg : ConsumerConfig) (rounds : list (bool * option (list (nat * string)))) (live : nat -> bool) :
  let answers := (fun m => (m.1, processMsg decode handler cfg m.2)) <$> (rounds ≫= (fun r => default [] r.2)) in
  sublist (pull_loop decode handler cfg rounds live) answers
  /\ (NoDup (fst <$> (rounds ≫= (fun r => default [] r.2))) -> NoDup (fst <$> pull_loop decode handler cfg rounds live))
  /\ (Forall (fun r => r.1 = true) rounds -> (forall i, live i = true) -> pull_loop decode handler cfg rounds live = answers).
Proof.
  intros answers. assert (S : sublist (pull_loop decode handler cfg rounds live) answers).
  { unfold answers. clear answers. induction rounds as [|[[] [msgs|]] rounds IH]; cbn; [constructor| |done|apply sublist_nil_l|apply sublist_nil_l].
    rewrite fmap_app. destruct (pull_messages_spec decode handler cfg msgs live) as [P _]. destruct (pull_messages decode handler cfg msgs live) as [l go]. cbn in P. destruct go.
    - apply sublist_app; [by apply prefix_is_sublist|done].
    - apply sublist_inserts_r, prefix_is_sublist, P. }
  split_and!; [done| |].
  - intros N. eapply sublist_NoDup; [|apply (fmap_sublist fst), S]. unfold answers. rewrite <- list_fmap_compose. exact N.
  - intros F Hl. unfold answers. clear answers S. induction F as [|[[] [msgs|]] rounds H F IH]; cbn; try done. rewrite fmap_app. destruct (pull_messages_spec decode handler cfg msgs live) as [_ P].
    rewrite P by auto. by rewrite IH.
Qed.

(** [WaitForNATS] tries no more than it was told to; it succeeds if an attempt does before the
    context is done, and then stops. *)
Lemma wait_bounded (connects cancelled : nat -> bool) (retries : Z) :
  ((WaitForNATS connects cancelled retries).2 <= Z.to_nat retries)%nat /\
  ((WaitForNATS connects cancelled retries).1 = Some true -> exists i, (i < Z.to_nat retries)%nat /\ connects i = true /\ forall j, (j < i)%nat -> connects j = false /\ cancelled j = false).
Proof.
  unfold WaitForNATS. generalize (Z.to_nat retries) as n. intros n.
  assert (G : forall n i, ((wait_loop connects cancelled i n).2 <= i + n)%nat /\ ((wait_loop connects cancelled i n).1 = Some true -> exists k, (i <= k < i + n)%nat /\ connects k = true /\ forall j, (i <= j < k)%nat -> connects j = false /\ cancelled j = false)).
  { induction n0 as [|m IH]; intros i; cbn [wait_loop]; [cbn; split; [lia|done]|]. destruct (connects i) eqn:E.
    - cbn. split; [lia|]. intros _. exists i. split_and!; [lia|lia|done|intros j Hj; lia].
    - destruct m as [|m]; [cbn; split; [lia|done]|]. destruct (cancelled i) eqn:Ec; [cbn; split; [lia|done]|]. destruct (IH (S i)) as [B H]. split; [lia|]. intros Hs. destruct (H Hs) as (k & Hk & C & A).
      exists k. split_and!; [lia|lia|done|]. intros j Hj. destruct (Nat.eq_dec j i) as [->|]; [done|]. apply A. lia. }
  destruct (G n 0%nat) as [B H]. split; [lia|]. intros Hs. destruct (H Hs) as (k & Hk & C & A). exists k. split_and!; [lia|done|]. intros j Hj. apply A. lia.
Qed.

(** *** Buckets *)

(** Reading a bucket that there is not makes it, in memory and with a life of five minutes; a
    configuration of its own given later is not used. *)
Lemma read_makes_bucket (bucket key : string) (s : kv_state) (cfg : KVConfig) : bucket ∉ kvs s -> srv s !! bucket = None -> kc_Bucket cfg = bucket ->
  let s' := (EnsureKeyValue kv_work cfg (KVGet kv_work bucket key s).2).2 in fst <$> srv s' !! bucket = Some (DefaultKVConfig bucket).
Proof.
  intros K E <-. unfold KVGet, EnsureKeyValue at 2. cbn [kc_Bucket DefaultKVConfig fail_create kv_work]. rewrite decide_False by done. rewrite E. cbn [snd]. unfold EnsureKeyValue. cbn [kvs]. rewrite decide_True by set_solver.
  cbn. by rewrite lookup_insert_eq.
Qed.

(** What was put is read, by this connection and after any other calls on other keys. *)
Lemma put_then_get (bucket key value : string) (s : kv_state) : (forall b, b ∈ kvs s -> is_Some (srv s !! b)) ->
  (KVPut kv_work bucket key value s).1 = None /\ (KVGet kv_work bucket key (KVPut kv_work bucket key value s).2).1 = inr value.
Proof.
  intros W. assert (E : exists s1 cm, EnsureKeyValue kv_work (DefaultKVConfig bucket) s = (None, s1) /\ bucket ∈ kvs s1 /\ srv s1 !! bucket = Some cm).
  { unfold EnsureKeyValue. cbn [kc_Bucket DefaultKVConfig fail_create fail_load kv_work]. destruct (decide (bucket ∈ kvs s)) as [D|D].
    - destruct (W _ D) as [cm H]. by exists s, cm.
    - destruct (srv s !! bucket) as [cm|] eqn:L; eexists _, _; split; [reflexivity|split; [cbn; set_solver|cbn; exact L]|reflexivity|split; [cbn; set_solver|cbn; apply lookup_insert_eq]]. }
  destruct E as (s1 & [c m] & E & K & L). unfold KVPut. rewrite E. cbn [fail_put kv_work fst snd]. split; [done|]. unfold KVGet, EnsureKeyValue. cbn [kc_Bucket DefaultKVConfig kvs hold]. rewrite decide_True by done.
  cbn [fail_get kv_work fst]. unfold held at 1, hold. cbn [srv]. rewrite lookup_alter_eq, L. cbn. by rewrite lookup_insert_eq.
Qed.
