(* ===== verification/OpenApi.v ===== *)
(** * The OpenAPI document (runtime/openapi.go)

    [BuildOpenAPI] describes the entries of a configuration.  The document is the part of
    [openapi3.T] that the code fills in; the containers of the library (paths, responses,
    schemas) are finite maps.  Building the schema of a model registers the models its
    fields mention, and is recursive: [fuel] bounds the depth, and [None] is a recursion
    deeper than it.  Changing case is that of ASCII text. *)

From S2P Require Import Prelude GoStrings GoStrconv.
From stdpp Require Import sorting.
From S2P Require Import SqlModel ConfigTypes.
From S2P Require ConfigText.
From Stdlib Require Import Ascii String.
#[local] Open Scope list_scope.
#[local] Open Scope Z_scope.

(** ** The document *)

Inductive schemaRef : Type :=
| mkSchemaRef (Ref : string) (Value : option schema)
with schema : Type :=
| mkSchema (Type_ : list string) (Format : string) (Properties : gmap string schemaRef)
    (Items AdditionalProperties : option schemaRef).

Notation Schemas := (gmap string schemaRef).

(** The schema of a type, and that of a type with a format. *)
Definition typed (t : string) : schema := mkSchema [t] "" ∅ None None.
Definition formatted (t f : string) : schema := mkSchema [t] f ∅ None None.

Definition inlineSchema (s : schema) : schemaRef := mkSchemaRef "" (Some s).

Record Parameter_ : Type := mkParameter { prm_Name : string; prm_In : string; prm_Schema : schemaRef }.

(** [Content] is the schema of the JSON body. *)
Record Response : Type := mkResponse { rs_Description : string; rs_Content : option schemaRef }.

Notation Responses := (gmap string Response).

(** A requirement names one scheme, with its scopes. *)
Notation SecurityRequirement := (string * list string)%type.

(** A method and a path. *)
Notation opKey := (string * string)%type.

Record Operation : Type := mkOperation {
  op_Summary : string; op_OperationID : string; op_Tags : list string; op_Description : string;
  op_Parameters : list Parameter_; op_RequestBody : option schemaRef; op_Responses : Responses;
  op_Security : option (list SecurityRequirement)
}.
#[export] Instance eta_operation : Eta Operation := fun o =>
  mkOperation (op_Summary o) (op_OperationID o) (op_Tags o) (op_Description o) (op_Parameters o) (op_RequestBody o)
    (op_Responses o) (op_Security o).

Inductive Method := GET | POST | PUT | PATCH | DELETE.
#[export] Instance Method_eq_dec : EqDecision Method. Proof. solve_decision. Defined.

Definition method_name (m : Method) : string :=
  match m with GET => "GET" | POST => "POST" | PUT => "PUT" | PATCH => "PATCH" | DELETE => "DELETE" end.

Definition methods : list Method := [GET; POST; PUT; PATCH; DELETE].

(** [switch method]: [None] when no case applies. *)
Definition method_of (s : string) : option Method :=
  if String.eqb s "GET" then Some GET else if String.eqb s "POST" then Some POST else if String.eqb s "PUT" then Some PUT
  else if String.eqb s "PATCH" then Some PATCH else if String.eqb s "DELETE" then Some DELETE else None.

Record PathItem : Type := mkPathItem {
  pi_Get : option Operation; pi_Post : option Operation; pi_Put : option Operation;
  pi_Patch : option Operation; pi_Delete : option Operation
}.
#[export] Instance eta_pathitem : Eta PathItem := fun i => mkPathItem (pi_Get i) (pi_Post i) (pi_Put i) (pi_Patch i) (pi_Delete i).

Definition empty_item : PathItem := mkPathItem None None None None None.

Definition slot (m : Method) (i : PathItem) : option Operation :=
  match m with GET => pi_Get i | POST => pi_Post i | PUT => pi_Put i | PATCH => pi_Patch i | DELETE => pi_Delete i end.

Definition set_slot (m : Method) (o : option Operation) (i : PathItem) : PathItem :=
  match m with
  | GET => i <| pi_Get := o |> | POST => i <| pi_Post := o |> | PUT => i <| pi_Put := o |>
  | PATCH => i <| pi_Patch := o |> | DELETE => i <| pi_Delete := o |>
  end.

Record SecurityScheme : Type := mkScheme {
  ss_Type : string; ss_Scheme : string; ss_BearerFormat : string; ss_In : string; ss_Name : string; ss_Description : string
}.

Record Server : Type := mkServer { srv_URL : string; srv_Description : string }.

Record T : Type := mkT {
  d_OpenAPI : string; d_Title : string; d_Version : string;
  d_Paths : gmap string PathItem; d_Schemas : Schemas;
  d_SecuritySchemes : gmap string SecurityScheme; d_Security : list SecurityRequirement; d_Servers : list Server
}.
#[export] Instance eta_T : Eta T := fun d =>
  mkT (d_OpenAPI d) (d_Title d) (d_Version d) (d_Paths d) (d_Schemas d) (d_SecuritySchemes d) (d_Security d) (d_Servers d).

Definition operation (d : T) (path : string) (m : Method) : option Operation := d_Paths d !! path ≫= slot m.

(** ** Helpers *)

Definition param (name in_ typ : string) : Parameter_ := mkParameter name in_ (inlineSchema (typed typ)).
Definition responses200 (s : schemaRef) : Responses := {["200" := mkResponse "OK" (Some s)]}.
Definition responses201 (s : schemaRef) : Responses := {["201" := mkResponse "Created" (Some s)]}.
Definition okResp : Responses := {["200" := mkResponse "OK" None]}.

(** [strings.ToUpper(p[:1])]: one byte, which is not valid UTF-8 alone beyond ASCII. *)
Definition upper_first (p : string) : string :=
  match p with
  | EmptyString => EmptyString
  | String c p => (if N.ltb (N_of_ascii c) 128 then String (upper_byte c) "" else String "239" (String "191" (String "189" ""))) +++ p
  end.

Definition pascal (s : string) : string := Join (upper_first <$> Split s "-") "".

(** [http.StatusText]. *)
Definition StatusText (n : Z) : string :=
  match n with
  | 100 => "Continue" | 101 => "Switching Protocols" | 102 => "Processing" | 103 => "Early Hints"
  | 200 => "OK" | 201 => "Created" | 202 => "Accepted" | 203 => "Non-Authoritative Information" | 204 => "No Content"
  | 205 => "Reset Content" | 206 => "Partial Content" | 207 => "Multi-Status" | 208 => "Already Reported" | 226 => "IM Used"
  | 300 => "Multiple Choices" | 301 => "Moved Permanently" | 302 => "Found" | 303 => "See Other" | 304 => "Not Modified"
  | 305 => "Use Proxy" | 307 => "Temporary Redirect" | 308 => "Permanent Redirect"
  | 400 => "Bad Request" | 401 => "Unauthorized" | 402 => "Payment Required" | 403 => "Forbidden" | 404 => "Not Found"
  | 405 => "Method Not Allowed" | 406 => "Not Acceptable" | 407 => "Proxy Authentication Required" | 408 => "Request Timeout"
  | 409 => "Conflict" | 410 => "Gone" | 411 => "Length Required" | 412 => "Precondition Failed"
  | 413 => "Request Entity Too Large" | 414 => "Request URI Too Long" | 415 => "Unsupported Media Type"
  | 416 => "Requested Range Not Satisfiable" | 417 => "Expectation Failed" | 418 => "I'm a teapot"
  | 421 => "Misdirected Request" | 422 => "Unprocessable Entity" | 423 => "Locked" | 424 => "Failed Dependency"
  | 425 => "Too Early" | 426 => "Upgrade Required" | 428 => "Precondition Required" | 429 => "Too Many Requests"
  | 431 => "Request Header Fields Too Large" | 451 => "Unavailable For Legal Reasons"
  | 500 => "Internal Server Error" | 501 => "Not Implemented" | 502 => "Bad Gateway" | 503 => "Service Unavailable"
  | 504 => "Gateway Timeout" | 505 => "HTTP Version Not Supported" | 506 => "Variant Also Negotiates"
  | 507 => "Insufficient Storage" | 508 => "Loop Detected" | 510 => "Not Extended" | 511 => "Network Authentication Required"
  | _ => ""
  end.

Definition Atoi (s : string) : option Z := match ParseInt s with (n, None) => Some n | _ => None end.

(** ** Schemas of models *)

Section build.
(** The registered models; [RegisterModel] stores no nil pointer. *)
Context (models : gmap string TableInfo).

Section fields.
(** [registerModelSchema] on the schemas of the document. *)
Context (register : Schemas -> string -> option (option schemaRef * Schemas)).

Definition is_byte (t : goType) : bool := match t with TInt Uint8 => true | _ => false end.

(** [follow]: a pointer is followed once. *)
Fixpoint field_schema (follow : bool) (t : goType) (sch : Schemas) : option (schemaRef * Schemas) :=
  match t with
  | TPtr e => if follow then field_schema false e sch else Some (inlineSchema (typed "string"), sch)
  | TInt _ => Some (inlineSchema (typed "integer"), sch)
  | TFloat32 | TFloat64 => Some (inlineSchema (typed "number"), sch)
  | TString => Some (inlineSchema (typed "string"), sch)
  | TBool => Some (inlineSchema (typed "boolean"), sch)
  | TSlice e | TArray e =>
      if is_byte e then Some (inlineSchema (formatted "string" "byte"), sch)
      else '(items, sch) ← field_schema true e sch;
           Some (inlineSchema (mkSchema ["array"] "" ∅ (Some items) None), sch)
  | TMap e =>
      '(elems, sch) ← field_schema true e sch;
      Some (inlineSchema (mkSchema ["object"] "" ∅ None (Some elems)), sch)
  | TStruct str name =>
      if String.eqb str "time.Time" then Some (inlineSchema (formatted "string" "date-time"), sch)
      else match models !! name with
           | None => Some (inlineSchema (typed "object"), sch)
           | Some _ =>
               '(r, sch) ← register sch name;
               Some (default (inlineSchema (typed "object")) r, sch)
           end
  | TOther => Some (inlineSchema (typed "string"), sch)
  end.

Definition jsonName (f : FieldInfo) : string :=
  if String.eqb (Tags_json f) "" then Column f
  else let name := (SplitN2 (Tags_json f) ",").1 in
       if negb (String.eqb name "") && negb (String.eqb name "-") then name else Column f.

(** The loop over the fields; [props] are the properties so far. *)
Fixpoint schema_fields (fs : list FieldInfo) (props : gmap string schemaRef) (sch : Schemas) : option (gmap string schemaRef * Schemas) :=
  match fs with
  | [] => Some (props, sch)
  | f :: fs =>
      if Skip f then schema_fields fs props sch
      else '(prop, sch) ← field_schema true (FieldType f) sch;
           schema_fields fs (<[jsonName f := prop]> props) sch
  end.

Definition build_with (info : TableInfo) (sch : Schemas) : option (schema * Schemas) :=
  '(props, sch) ← schema_fields (Fields info) ∅ sch; Some (mkSchema ["object"] "" props None None, sch).
End fields.

Definition component (name : string) : string := "#/components/schemas/" +++ name.

Fixpoint registerModelSchema (fuel : nat) (sch : Schemas) (name : string) : option (option schemaRef * Schemas) :=
  match fuel with
  | O => None
  | S fuel =>
      match models !! name with
      | None => Some (None, sch)
      | Some info =>
          sch ← match sch !! name with
                | Some _ => Some sch
                | None => '(s, sch) ← build_with (registerModelSchema fuel) info sch; Some (<[name := inlineSchema s]> sch)
                end;
          Some (Some (mkSchemaRef (component name) None), sch)
      end
  end.

Definition buildSchema (fuel : nat) (info : TableInfo) (sch : Schemas) : option (schema * Schemas) :=
  build_with (registerModelSchema fuel) info sch.

Definition fieldToSchemaRef (fuel : nat) (t : goType) (sch : Schemas) : option (schemaRef * Schemas) :=
  field_schema (registerModelSchema fuel) true t sch.

(** A model a field may have left empty. *)
Definition register_named (fuel : nat) (sch : Schemas) (name : string) : option (option schemaRef * Schemas) :=
  if String.eqb name "" then Some (None, sch) else registerModelSchema fuel sch name.

(** ** Responses *)

Definition byte_le_str (a b : string) : Prop := String.leb a b = true.
#[local] Instance byte_le_str_dec : RelDecision byte_le_str.
Proof. intros a b. unfold byte_le_str. apply _. Defined.

(** [sort.Strings] of the keys. *)
Definition response_codes (e : EntryDef) : list string := merge_sort byte_le_str (map_to_list (EntryDef_Responses e)).*1.

(** The first declared code that is a success, with its description. *)
Fixpoint declared_success (resps : gmap string string) (codes : list string) : option (Z * string) :=
  match codes with
  | [] => None
  | code :: codes =>
      match Atoi code with
      | Some n =>
          if (200 <=? n) && (n <? 300) then
            let d := default "" (resps !! code) in
            Some (n, if negb (String.eqb d "") then d else StatusText n)
          else declared_success resps codes
      | None => declared_success resps codes
      end
  end.

Definition success_of (e : EntryDef) : Z * string :=
  match declared_success (EntryDef_Responses e) (response_codes e) with
  | Some s => s
  | None => if String.eqb (EntryDef_Method e) "POST" then (201, "Created") else (200, "OK")
  end.

(** The loop over the declared codes.  The response of the success code is one object that
    several codes may share: it is [None] here, and [desc] is its description so far. *)
Fixpoint responses_loop (resps : gmap string string) (success : Z) (errSchema : option schemaRef) (codes : list string)
    (desc : string) (acc : gmap string (option Response)) : string * gmap string (option Response) :=
  match codes with
  | [] => (desc, acc)
  | code :: codes =>
      match Atoi code with
      | None => responses_loop resps success errSchema codes desc acc
      | Some n =>
          let d := default "" (resps !! code) in
          let d := if String.eqb d "" then StatusText n else d in
          if n =? success then
            responses_loop resps success errSchema codes (if negb (String.eqb d "") then d else desc) (<[code := None]> acc)
          else
            responses_loop resps success errSchema codes desc
              (<[code := Some (mkResponse d (if 400 <=? n then errSchema else None))]> acc)
      end
  end.

Definition operationResponses (fuel : nat) (e : EntryDef) (successSchema : option schemaRef) (sch : Schemas) : option (Responses * Schemas) :=
  let '(success, successDesc) := success_of e in
  '(errSchema, sch) ← register_named fuel sch (EntryDef_ErrorModel e);
  let '(desc, acc) := responses_loop (EntryDef_Responses e) success errSchema (response_codes e) successDesc {[pretty success := None]} in
  Some (default (mkResponse desc successSchema) <$> acc, sch).

(** ** Paths of the entries *)

(** [pathItem]: the item of a path, created on first use. *)
Definition pathItem (path : string) (d : T) : T :=
  match d_Paths d !! path with
  | Some _ => d
  | None => d <| d_Paths := <[path := empty_item]> (d_Paths d) |>
  end.

(** An assignment to a field of the item of [path]. *)
Definition assign (path : string) (m : Method) (op : Operation) (d : T) : T :=
  d <| d_Paths := alter (set_slot m (Some op)) path (d_Paths d) |>.

(** The same when the field is nil. *)
Definition assign_if_nil (path : string) (m : Method) (op : Operation) (d : T) : T :=
  match operation d path m with Some _ => d | None => assign path m op d end.

Definition crud_resource (e : EntryDef) : string :=
  if String.eqb (EntryDef_Resource e) "" then ConfigText.plural (EntryDef_Table e) else EntryDef_Resource e.
Definition crud_base (prefix : string) (e : EntryDef) : string := prefix +++ "/" +++ crud_resource e.
Definition crud_idPath (prefix : string) (e : EntryDef) : string :=
  if Contains (EntryDef_Path e) ":id" then prefix +++ EntryDef_Path e else crud_base prefix e +++ "/:id".

Definition addCRUDPaths (fuel : nat) (d : T) (e : EntryDef) (prefix : string) : option T :=
  let info := models !! EntryDef_Model e in
  let resource := crud_resource e in
  let base := crud_base prefix e in
  sch ← match info with
        | None => Some (d_Schemas d)
        | Some info => '(s, sch) ← buildSchema fuel info (d_Schemas d); Some (<[EntryDef_Model e := inlineSchema s]> sch)
        end;
  '(schemaRef, sch) ← match info with
                      | None => Some (inlineSchema (mkSchema [] "" ∅ None None), sch)
                      | Some info => '(s, sch) ← buildSchema fuel info sch; Some (inlineSchema s, sch)
                      end;
  let d := d <| d_Schemas := sch |> in
  let d := pathItem base d in
  let d := assign_if_nil base GET
    (mkOperation ("List " +++ resource) ("list" +++ pascal resource) [] ""
       [param "page" "query" "integer"; param "size" "query" "integer"; param "cursor" "query" "string"; param "sort" "query" "string"]
       None (responses200 schemaRef) None) d in
  let d := assign_if_nil base POST
    (mkOperation ("Create " +++ resource) ("create" +++ pascal resource) [] "" [] (Some schemaRef) (responses201 schemaRef) None) d in
  let idPath := crud_idPath prefix e in
  let d := pathItem idPath d in
  let d := assign_if_nil idPath GET
    (mkOperation ("Get " +++ resource +++ " by ID") ("get" +++ pascal resource) [] "" [param "id" "path" "string"] None (responses200 schemaRef) None) d in
  let d := assign_if_nil idPath PATCH
    (mkOperation ("Update " +++ resource) ("update" +++ pascal resource) [] "" [param "id" "path" "string"] None okResp None) d in
  let d := assign_if_nil idPath DELETE
    (mkOperation ("Delete " +++ resource) ("delete" +++ pascal resource) [] "" [param "id" "path" "string"] None
       {["204" := mkResponse "Deleted" None]} None) d in
  Some d.

Definition addRestPath (fuel : nat) (d : T) (e : EntryDef) (prefix : string) : option T :=
  let path := prefix +++ EntryDef_Path e in
  let summary := if String.eqb (EntryDef_Summary e) "" then EntryDef_Handler e else EntryDef_Summary e in
  let tags := match EntryDef_Tags e with [] => [EntryDef_Type e] | tags => tags end in
  '(reqSchema, sch) ← register_named fuel (d_Schemas d) (EntryDef_RequestModel e);
  '(respSchema, sch) ← register_named fuel sch (EntryDef_ResponseModel e);
  '(resps, sch) ← operationResponses fuel e respSchema sch;
  let m := EntryDef_Method e in
  let body := if negb (String.eqb m "") && negb (String.eqb m "GET") && negb (String.eqb m "DELETE") then reqSchema else None in
  let op := mkOperation summary (EntryDef_Handler e) tags (EntryDef_Description e) [] body resps None in
  let d := pathItem path (d <| d_Schemas := sch |>) in
  Some (match method_of m with Some m => assign path m op d | None => d end).

Definition addWSPath (d : T) (e : EntryDef) (prefix : string) : T :=
  let path := prefix +++ EntryDef_Path e in
  assign path GET
    (mkOperation ("WebSocket: " +++ EntryDef_Handler e) (EntryDef_Handler e) [] "" [] None {["101" := mkResponse "Switching Protocols" None]} None)
    (pathItem path d).

Definition addSSEPath (d : T) (e : EntryDef) (prefix : string) : T :=
  let path := prefix +++ EntryDef_Path e in
  assign path GET
    (mkOperation ("SSE stream: " +++ EntryDef_Handler e) (EntryDef_Handler e) [] "" [] None
       {["200" := mkResponse "SSE stream" (Some (inlineSchema (typed "string")))]} None)
    (pathItem path d).

Definition addFilePath (d : T) (e : EntryDef) (prefix : string) : T :=
  let path := prefix +++ EntryDef_Path e in
  match method_of (EntryDef_Method e) with
  | Some m => assign path m (mkOperation ("File: " +++ EntryDef_Handler e) (EntryDef_Handler e) [] "" [] None okResp None) (pathItem path d)
  | None => d
  end.

Definition addAsyncPaths (d : T) (e : EntryDef) (prefix : string) : T :=
  let base := prefix +++ EntryDef_Path e in
  let h := EntryDef_Handler e in
  let job := [param "job_id" "path" "string"] in
  let d := pathItem base d in
  let d := assign_if_nil base POST
    (mkOperation ("Submit " +++ h +++ " job") ("submit" +++ pascal h) ["async"] (EntryDef_Description e) [] None
       {["202" := mkResponse "Job accepted" None]} None) d in
  let d := assign_if_nil base GET
    (mkOperation ("List " +++ h +++ " jobs") ("list" +++ pascal h +++ "Jobs") ["async"] "" [] None okResp None) d in
  let jobPath := base +++ "/:job_id" in
  let d := pathItem jobPath d in
  let d := assign_if_nil jobPath GET
    (mkOperation ("Get " +++ h +++ " job status") ("get" +++ pascal h +++ "Job") ["async"] "" job None okResp None) d in
  let d := assign_if_nil jobPath DELETE
    (mkOperation ("Cancel " +++ h +++ " job") ("cancel" +++ pascal h +++ "Job") ["async"] "" job None okResp None) d in
  let ssePath := jobPath +++ "/status" in
  let d := pathItem ssePath d in
  assign_if_nil ssePath GET
    (mkOperation ("Stream " +++ h +++ " job status (SSE)") ("stream" +++ pascal h +++ "JobStatus") ["async"; "sse"] "" job None okResp None) d.

Definition addGraphQLPath (d : T) (e : EntryDef) (prefix : string) : T :=
  let path := prefix +++ EntryDef_Path e in
  let summary := if String.eqb (EntryDef_Summary e) "" then "GraphQL: " +++ EntryDef_Handler e else EntryDef_Summary e in
  let querySchema := mkSchema ["object"] ""
    (<["query" := inlineSchema (typed "string")]> {["variables" := inlineSchema (typed "object")]}) None None in
  let op := mkOperation summary (EntryDef_Handler e) ["graphql"] (EntryDef_Description e) [] (Some (inlineSchema querySchema)) okResp None in
  d <| d_Paths := <[path := empty_item <| pi_Post := Some op |>]> (d_Paths d) |>.

Definition addEntryPaths (fuel : nat) (d : T) (e : EntryDef) (prefix : string) : option T :=
  let t := EntryDef_Type e in
  if String.eqb t "crud" then addCRUDPaths fuel d e prefix
  else if String.eqb t "rest" || String.eqb t "webhook" then addRestPath fuel d e prefix
  else if String.eqb t "websocket" then Some (addWSPath d e prefix)
  else if String.eqb t "sse" then Some (addSSEPath d e prefix)
  else if String.eqb t "file" then Some (addFilePath d e prefix)
  else if String.eqb t "async" then Some (addAsyncPaths d e prefix)
  else if String.eqb t "graphql" then Some (addGraphQLPath d e prefix)
  else Some d.

(** The loop of [BuildOpenAPI] over the entries. *)
Fixpoint add_entries (fuel : nat) (d : T) (es : list EntryDef) (prefix : string) : option T :=
  match es with
  | [] => Some d
  | e :: es => if EntryDef_Hidden e then add_entries fuel d es prefix else d ← addEntryPaths fuel d e prefix; add_entries fuel d es prefix
  end.

(** ** Security *)

Definition authModeSchemes : list (string * string) :=
  [("jwt", "bearerAuth"); ("apikey", "apiKeyAuth"); ("basic", "basicAuth"); ("oauth", "oauthAuth"); ("session", "sessionAuth")].

Definition requirementForModes (modes : list string) : list SecurityRequirement :=
  (fun m => (m.2, [])) <$> filter (fun m => m.1 ∈ modes) authModeSchemes.

Definition remember (method_ path : string) (entryModes : list string) (modes : gmap opKey (list string)) : gmap opKey (list string) :=
  let key := (ToUpper method_, path) in
  match modes !! key with Some _ => modes | None => <[key := entryModes]> modes end.

Definition remember_entry (prefix : string) (modes : gmap opKey (list string)) (e : EntryDef) : gmap opKey (list string) :=
  let am := EntryDef_AuthModes e in
  if EntryDef_Hidden e then modes
  else if String.eqb (EntryDef_Type e) "rest" || String.eqb (EntryDef_Type e) "webhook" then
    if negb (String.eqb (EntryDef_Method e) "") then remember (EntryDef_Method e) (prefix +++ EntryDef_Path e) am modes else modes
  else if String.eqb (EntryDef_Type e) "crud" then
    let base := crud_base prefix e in
    let idPath := crud_idPath prefix e in
    remember "DELETE" idPath am (remember "PATCH" idPath am (remember "GET" idPath am (remember "POST" base am (remember "GET" base am modes))))
  else modes.

Definition entry_modes (es : list EntryDef) (prefix : string) : gmap opKey (list string) := foldl (remember_entry prefix) ∅ es.

Definition stamp (modes : gmap opKey (list string)) (path : string) (m : Method) (op : Operation) : Operation :=
  match modes !! (method_name m, path) with
  | Some entryModes => op <| op_Security := Some (requirementForModes entryModes) |>
  | None => op
  end.

Definition map_item (f : Method -> option Operation -> option Operation) (i : PathItem) : PathItem :=
  mkPathItem (f GET (pi_Get i)) (f POST (pi_Post i)) (f PUT (pi_Put i)) (f PATCH (pi_Patch i)) (f DELETE (pi_Delete i)).

Definition applyEntrySecurity (d : T) (es : list EntryDef) (prefix : string) : T :=
  let modes := entry_modes es prefix in
  d <| d_Paths := map_imap (fun path item => Some (map_item (fun m o => stamp modes path m <$> o) item)) (d_Paths d) |>.

(** The modes of the entries that are not hidden. *)
Definition has_modes (es : list EntryDef) : gset string :=
  foldr (fun e has => if EntryDef_Hidden e then has else list_to_set (EntryDef_AuthModes e) ∪ has) ∅ es.

Definition securityRequirements (es : list EntryDef) : list SecurityRequirement :=
  let has := has_modes es in
  if decide (has = ∅) then [] else requirementForModes (elements has).

Definition scheme_if (b : bool) (name : string) (s : SecurityScheme) (m : gmap string SecurityScheme) : gmap string SecurityScheme :=
  if b then <[name := s]> m else m.

Definition buildSecuritySchemes (es : list EntryDef) (sessionCookie : string) : gmap string SecurityScheme :=
  let has := has_modes es in
  let sessionCookie := if String.eqb sessionCookie "" then "sid" else sessionCookie in
  scheme_if (bool_decide ("session" ∈ has)) "sessionAuth" (mkScheme "apiKey" "" "" "cookie" sessionCookie "Server-side session cookie")
 (scheme_if (bool_decide ("oauth" ∈ has)) "oauthAuth" (mkScheme "http" "bearer" "opaque" "" "" "Opaque OAuth access token (RFC 7662 introspection)")
 (scheme_if (bool_decide ("basic" ∈ has)) "basicAuth" (mkScheme "http" "basic" "" "" "" "HTTP Basic credentials (RFC 7617)")
 (scheme_if (bool_decide ("apikey" ∈ has)) "apiKeyAuth" (mkScheme "apiKey" "" "" "header" "Authorization" "API key (default header: Authorization)")
 (scheme_if (bool_decide ("jwt" ∈ has)) "bearerAuth" (mkScheme "http" "bearer" "JWT" "" "" "JWT bearer token from the auth service") ∅)))).

(** ** Servers and exclusions *)

Definition specServer (cfg : ServiceConfig) : option Server :=
  let host := ServerConf_Host (ServiceConfig_Server cfg) in
  if String.eqb host "" then None
  else
    let host := if String.eqb host "0.0.0.0" then "localhost" else host in
    let u := "http://" +++ host in
    Some (mkServer (if negb (ServiceConfig_Port cfg =? 0) then u +++ ":" +++ pretty (ServiceConfig_Port cfg) else u) "This service").

(** Whether [pruneSpecPaths] deletes a path. *)
Definition pattern_matches (pattern path : string) : bool :=
  if String.eqb pattern "" then false
  else if HasSuffix pattern "*" then HasPrefix path (TrimSuffix pattern "*")
  else String.eqb path pattern.

Definition pruneSpecPaths (d : T) (pattern : string) : T :=
  d <| d_Paths := filter (fun kv => pattern_matches pattern kv.1 = false) (d_Paths d) |>.

Definition operationHasTag (excluded : list string) (op : Operation) : bool := existsb (fun tag => bool_decide (tag ∈ excluded)) (op_Tags op).

(** The body of the loop over the paths: [None] deletes the path. *)
Definition exclude_item (excluded : list string) (i : PathItem) : option PathItem :=
  let i := map_item (fun _ o => op ← o; if operationHasTag excluded op then None else Some op) i in
  if existsb (fun m => bool_decide (is_Some (slot m i))) methods then Some i else None.

Definition applySpecExclusions (d : T) (cfg : ServiceConfig) : T :=
  match ServerConf_OpenAPI (ServiceConfig_Server cfg) with
  | None => d
  | Some oai =>
      let d := foldl pruneSpecPaths d (OpenAPIConf_ExcludePaths oai) in
      match OpenAPIConf_ExcludeTags oai with
      | [] => d
      | excluded => d <| d_Paths := omap (exclude_item excluded) (d_Paths d) |>
      end
  end.

Definition session_cookie (cfg : ServiceConfig) : string :=
  match ServiceConfig_Auth cfg ≫= AuthConfig_Session with
  | Some s => if negb (String.eqb (SessionConf_Cookie s) "") then SessionConf_Cookie s else "sid"
  | None => "sid"
  end.

Definition new_document (cfg : ServiceConfig) : T := mkT "3.0.3" (ServiceConfig_Name cfg) "1.0.0" ∅ ∅ ∅ [] [].

Definition BuildOpenAPI (fuel : nat) (cfg : ServiceConfig) : option T :=
  let prefix := ServerConf_APIPrefix (ServiceConfig_Server cfg) in
  let es := ServiceConfig_Entry cfg in
  d ← add_entries fuel (new_document cfg) es prefix;
  let d := applyEntrySecurity d es prefix in
  let d := d <| d_Security := securityRequirements es |> in
  let d := d <| d_SecuritySchemes := buildSecuritySchemes es (session_cookie cfg) |> in
  let d := match specServer cfg with Some s => d <| d_Servers := [s] |> | None => d end in
  Some (applySpecExclusions d cfg).
End build.

(** ** Models that mention each other *)

Section models.
Context (models : gmap string TableInfo).

(** The registered models a type mentions, as [field_schema] follows it. *)
Fixpoint type_models (follow : bool) (t : goType) : list string :=
  match t with
  | TPtr e => if follow then type_models false e else []
  | TSlice e | TArray e | TMap e => type_models true e
  | TStruct str name => if String.eqb str "time.Time" then [] else if decide (is_Some (models !! name)) then [name] else []
  | _ => []
  end.

Definition info_mentions (info : TableInfo) (m : string) : Prop :=
  exists f, f ∈ Fields info /\ Skip f = false /\ m ∈ type_models true (FieldType f).

Definition mentions (n m : string) : Prop := exists info, models !! n = Some info /\ info_mentions info m.

(** No chain of mentions from the model is infinite. *)
Definition acyclic (n : string) : Prop := Acc (flip mentions) n.

Lemma acyclic_irrefl n : acyclic n -> ~ tc mentions n n.
Proof.
  induction 1 as [n _ IH]. intros Hc. assert (exists y, mentions n y /\ rtc mentions y n) as (y & Hy & Hyn).
  { inversion Hc as [? ? H|? y ? H1 H2]; subst; [by exists n|]. exists y. split; [done|by apply tc_rtc]. }
  apply (IH y Hy). eapply tc_rtc_l; [done|by apply tc_once].
Qed.

(** A predicate on schemas that every registration of a mentioned model keeps, with what it
    gives of the model, passes to the fields and to the model itself. *)
Lemma field_schema_ind (register : Schemas -> string -> option (option schemaRef * Schemas)) (I : Schemas -> Prop) (Q : string -> Prop) :
  (forall sch m r sch', I sch -> register sch m = Some (r, sch') -> I sch' /\ Q m) ->
  forall t follow sch r sch', I sch -> field_schema models register follow t sch = Some (r, sch') -> I sch' /\ Forall Q (type_models follow t).
Proof.
  intros Hreg. induction t as [| | | | |e IH|e IH|e IH|str name|e IH|]; intros follow sch r sch' HI H;
    try (cbn in H; simplify_eq; split; [done|constructor]).
  1, 2: cbn [field_schema type_models] in *; destruct (is_byte e) eqn:E;
    [destruct e as [|[]| | | | | | | | |]; try done; simplify_eq; split; [done|constructor]
    |apply bind_Some in H as ([items s1] & H1 & H2); simplify_eq; by eapply IH].
  - cbn [field_schema type_models] in *. apply bind_Some in H as ([elems s1] & H1 & H2). simplify_eq. by eapply IH.
  - cbn [field_schema type_models] in *. destruct (String.eqb str "time.Time"); [simplify_eq; split; [done|constructor]|].
    destruct (models !! name) eqn:E; [|rewrite decide_False by (by intros []); simplify_eq; split; [done|constructor]].
    apply bind_Some in H as ([r1 s1] & H1 & H2). simplify_eq. rewrite decide_True by done.
    destruct (Hreg _ _ _ _ HI H1). split; [done|by repeat constructor].
  - cbn [field_schema type_models] in *. destruct follow; [by eapply IH|]. simplify_eq. split; [done|constructor].
Qed.

Lemma build_with_ind (register : Schemas -> string -> option (option schemaRef * Schemas)) (I : Schemas -> Prop) (Q : string -> Prop) :
  (forall sch m r sch', I sch -> register sch m = Some (r, sch') -> I sch' /\ Q m) ->
  forall info sch s sch', I sch -> build_with models register info sch = Some (s, sch') -> I sch' /\ forall m, info_mentions info m -> Q m.
Proof.
  intros Hreg info sch s sch' HI H. apply bind_Some in H as ([props s1] & H & ?). simplify_eq.
  assert (I sch' /\ forall f m, f ∈ Fields info -> Skip f = false -> m ∈ type_models true (FieldType f) -> Q m) as [? Hq].
  { revert HI H. generalize (∅ : gmap string schemaRef) as acc. revert sch. induction (Fields info) as [|f fs IH]; intros sch acc HI H; cbn in H.
    - simplify_eq. split; [done|]. intros f m []%elem_of_nil.
    - destruct (Skip f) eqn:Ef.
      + destruct (IH _ _ HI H) as [? Hq]. split; [done|]. intros f' m [->|Hf]%elem_of_cons; [by rewrite Ef|by eapply Hq].
      + apply bind_Some in H as ([p s2] & H1 & H2). destruct (field_schema_ind register I Q Hreg _ _ _ _ _ HI H1) as [HI' Hf].
        destruct (IH _ _ HI' H2) as [? Hq]. split; [done|]. intros f' m [->|Hf']%elem_of_cons; [|by eapply Hq].
        intros _ Hm. by eapply Forall_forall in Hf. }
  split; [done|]. intros m (f & ? & ? & ?). by eapply Hq.
Qed.

(** If building returns, the models it mentions are acyclic. *)
Definition registered_acyclic (sch : Schemas) : Prop := forall n, is_Some (sch !! n) -> acyclic n.

Lemma register_acyclic fuel : forall sch m r sch',
  registered_acyclic sch -> registerModelSchema models fuel sch m = Some (r, sch') -> registered_acyclic sch' /\ acyclic m.
Proof.
  induction fuel as [|fuel IH]; intros sch m r sch' HI H; [done|]. cbn [registerModelSchema] in H.
  destruct (models !! m) as [info|] eqn:Em.
  2:{ simplify_eq. split; [done|]. constructor. intros y (info & E & _). congruence. }
  apply bind_Some in H as (s1 & H & ?). simplify_eq. destruct (sch !! m) eqn:Es; [simplify_eq; split; [done|by apply HI]|].
  apply bind_Some in H as ([s s2] & H & ?). simplify_eq.
  destruct (build_with_ind _ registered_acyclic acyclic IH _ _ _ _ HI H) as [HI' Hq].
  assert (acyclic m) as Hm by (constructor; intros y (info' & E & Hy); apply Hq; congruence).
  split; [|done]. intros n [x Hn]. apply lookup_insert_Some in Hn as [[-> _]|[_ Hn]]; [done|by apply HI'].
Qed.

Lemma build_acyclic fuel name info sch s sch' :
  models !! name = Some info -> registered_acyclic sch -> buildSchema models fuel info sch = Some (s, sch') -> registered_acyclic sch' /\ acyclic name.
Proof.
  intros E HI H. destruct (build_with_ind _ registered_acyclic acyclic (register_acyclic fuel) _ _ _ _ HI H) as [HI' Hq].
  split; [done|]. constructor. intros y (info' & E' & Hy). apply Hq. congruence.
Qed.

(** Registering returns when it does for every model the fields mention. *)
Lemma field_schema_returns register t : forall follow,
  (forall m sch, m ∈ type_models follow t -> is_Some (register sch m)) -> forall sch, is_Some (field_schema models register follow t sch).
Proof.
  induction t as [| | | | |e IH|e IH|e IH|str name|e IH|]; intros follow H sch; try done.
  1, 2: cbn [field_schema type_models] in *; destruct (is_byte e); [done|]; destruct (IH true H sch) as [[] ->]; done.
  - cbn [field_schema type_models] in *. by destruct (IH true H sch) as [[] ->].
  - cbn [field_schema type_models] in *. destruct (String.eqb str "time.Time"); [done|]. destruct (models !! name) eqn:E; [|done].
    rewrite decide_True in H by done. destruct (H name sch) as [[] ->]; [by apply list_elem_of_singleton|done].
  - cbn [field_schema type_models] in *. destruct follow; [by apply IH|done].
Qed.

Lemma build_with_returns register info :
  (forall m sch, info_mentions info m -> is_Some (register sch m)) -> forall sch, is_Some (build_with models register info sch).
Proof.
  intros H sch. unfold build_with. enough (is_Some (schema_fields models register (Fields info) ∅ sch)) as [[] ->] by done.
  assert (Hf : forall f, f ∈ Fields info -> Skip f = false -> forall sch, is_Some (field_schema models register true (FieldType f) sch)).
  { intros f Hf Hs. apply field_schema_returns. intros m s Hm. apply H. by exists f. }
  revert sch. generalize (∅ : gmap string schemaRef) as acc. clear H.
  induction (Fields info) as [|f fs IH]; intros acc sch; cbn [schema_fields]; [done|].
  destruct (Skip f) eqn:Es; [by apply IH; intros; apply Hf; [right|]|].
  destruct (Hf f ltac:(left) Es sch) as [[p s'] ->]. cbn. apply IH. intros; apply Hf; [by right|done].
Qed.

(** A chain of mentions visits every model at most once, so the number of models bounds the
    depth; [seen] are the models on the way to [n]. *)
Lemma register_returns fuel : forall (seen : gset string) n sch,
  acyclic n -> (forall v, v ∈ seen -> tc mentions v n) -> (size (dom models ∖ seen) < fuel)%nat ->
  is_Some (registerModelSchema models fuel sch n).
Proof.
  induction fuel as [|fuel IH]; intros seen n sch Hn Hseen Hf; [lia|]. cbn [registerModelSchema].
  destruct (models !! n) as [info|] eqn:E; [|done]. destruct (sch !! n); [done|].
  assert (n ∉ seen) as Hns by (intros H; by apply (acyclic_irrefl n Hn), Hseen).
  destruct (build_with_returns (registerModelSchema models fuel) info) with (sch := sch) as [[s s'] Hb]; [|unfold mbind, option_bind; rewrite Hb; done].
  intros m s' Hm. apply (IH ({[n]} ∪ seen)).
  - apply (Acc_inv Hn). by exists info.
  - intros v [->%elem_of_singleton|Hv]%elem_of_union; [apply tc_once; by exists info|]. eapply tc_r; [by apply Hseen|by exists info].
  - assert (dom models ∖ ({[n]} ∪ seen) ⊂ dom models ∖ seen) as Hss%subset_size; [|lia].
    apply elem_of_dom_2 in E. split; [set_solver|]. intros Hsub. specialize (Hsub n). set_solver.
Qed.

Definition enough : nat := S (size models).

Lemma register_enough n sch : acyclic n -> is_Some (registerModelSchema models enough sch n).
Proof. intros Hn. apply (register_returns _ ∅); [done|set_solver|]. rewrite difference_empty_L, size_dom. unfold enough. lia. Qed.

Lemma build_enough name info sch : models !! name = Some info -> acyclic name -> is_Some (buildSchema models enough info sch).
Proof. intros E Hn. apply build_with_returns. intros m s Hm. apply register_enough. apply (Acc_inv Hn). by exists info. Qed.
End models.

(** ** Paths and operations *)

Lemma schemas_pathItem p d : d_Schemas (pathItem p d) = d_Schemas d.
Proof. unfold pathItem. by destruct (_ !! _). Qed.
Lemma schemas_assign p m op d : d_Schemas (assign p m op d) = d_Schemas d.
Proof. done. Qed.
Lemma schemas_if_nil p m op d : d_Schemas (assign_if_nil p m op d) = d_Schemas d.
Proof. unfold assign_if_nil. by destruct (operation _ _ _). Qed.

Create HintDb doc_db.
#[local] Hint Rewrite schemas_pathItem schemas_assign schemas_if_nil : doc_db.

Lemma slot_set m m' o i : slot m (set_slot m' o i) = if decide (m = m') then o else slot m i.
Proof. by destruct m, m'. Qed.

Definition has_path (d : T) (p : string) : Prop := is_Some (d_Paths d !! p).

Lemma operation_pathItem p d q m : operation (pathItem p d) q m = operation d q m.
Proof.
  unfold pathItem, operation. destruct (d_Paths d !! p) eqn:E; [done|]. cbn.
  destruct (decide (p = q)) as [->|Hne]; [rewrite lookup_insert_eq, E; by destruct m|by rewrite lookup_insert_ne].
Qed.

Lemma operation_assign p m op d q m' :
  has_path d p -> operation (assign p m op d) q m' = if decide (q = p /\ m' = m) then Some op else operation d q m'.
Proof.
  intros [i Hi]. unfold operation, assign. cbn. destruct (decide (q = p)) as [->|Hne].
  - rewrite lookup_alter_eq, Hi. cbn. rewrite slot_set. repeat case_decide; naive_solver.
  - rewrite lookup_alter_ne by done. by rewrite decide_False by naive_solver.
Qed.

Lemma operation_if_nil p m op d q m' :
  has_path d p ->
  operation (assign_if_nil p m op d) q m' =
  match operation d q m' with Some o => Some o | None => if decide (q = p /\ m' = m) then Some op else None end.
Proof.
  intros Hp. unfold assign_if_nil. destruct (operation d p m) eqn:E.
  - destruct (operation d q m') eqn:E'; [done|]. rewrite decide_False; [done|]. intros [-> ->]. congruence.
  - rewrite operation_assign by done. case_decide as Hd; [destruct Hd as [-> ->]; by rewrite E|by destruct (operation d q m')].
Qed.

Lemma has_pathItem p d q : has_path (pathItem p d) q <-> has_path d q \/ q = p.
Proof.
  unfold has_path, pathItem. destruct (d_Paths d !! p) eqn:E; [naive_solver|]. cbn.
  destruct (decide (q = p)) as [->|Hne]; [rewrite lookup_insert_eq; naive_solver|rewrite lookup_insert_ne; naive_solver].
Qed.
Lemma has_assign p m op d q : has_path (assign p m op d) q <-> has_path d q.
Proof. unfold has_path, assign. cbn. apply lookup_alter_is_Some. Qed.
Lemma has_if_nil p m op d q : has_path (assign_if_nil p m op d) q <-> has_path d q.
Proof. unfold assign_if_nil. destruct (operation _ _ _); [done|apply has_assign]. Qed.

(** Solves that a path was created before. *)
Ltac has := repeat first [rewrite has_if_nil | rewrite has_assign | rewrite has_pathItem]; tauto.

(** ** Termination *)

Definition entry_models (e : EntryDef) : list string :=
  if EntryDef_Hidden e then []
  else if String.eqb (EntryDef_Type e) "crud" then [EntryDef_Model e]
  else if String.eqb (EntryDef_Type e) "rest" || String.eqb (EntryDef_Type e) "webhook"
  then filter (fun n => n <> "") [EntryDef_RequestModel e; EntryDef_ResponseModel e; EntryDef_ErrorModel e] else [].

Section termination.
Context (models : gmap string TableInfo).

Lemma unknown_acyclic n : models !! n = None -> acyclic models n.
Proof. intros E. constructor. intros y (info & E' & _). congruence. Qed.

Lemma register_named_acyclic fuel sch n r sch' :
  registered_acyclic models sch -> register_named models fuel sch n = Some (r, sch') ->
  registered_acyclic models sch' /\ (n <> "" -> acyclic models n).
Proof.
  intros HI. unfold register_named. destruct (String.eqb_spec n ""); [by intros ?; simplify_eq|].
  intros H. destruct (register_acyclic models fuel _ _ _ _ HI H). done.
Qed.

Lemma add_entry_acyclic fuel d e prefix d' :
  registered_acyclic models (d_Schemas d) -> EntryDef_Hidden e = false -> addEntryPaths models fuel d e prefix = Some d' ->
  registered_acyclic models (d_Schemas d') /\ Forall (acyclic models) (entry_models e).
Proof.
  intros HI Hh. unfold addEntryPaths, entry_models. rewrite Hh.
  destruct (String.eqb _ "crud").
  { unfold addCRUDPaths. intros H. apply bind_Some in H as (s1 & H1 & H). apply bind_Some in H as ([r s2] & H2 & H). simplify_eq.
    autorewrite with doc_db. cbn.
    destruct (models !! EntryDef_Model e) as [info|] eqn:E; [|simplify_eq; split; [done|]; apply Forall_singleton; by apply unknown_acyclic].
    apply bind_Some in H1 as ([s s3] & H1 & ?). apply bind_Some in H2 as ([s' s4] & H2 & ?). simplify_eq.
    destruct (build_acyclic models _ _ _ _ _ _ E HI H1) as [HI1 Ha].
    split; [|by apply Forall_singleton]. eapply (build_acyclic models fuel _ _ _ _ _ E); [|done].
    intros n [x Hn]. apply lookup_insert_Some in Hn as [[<- _]|[_ Hn]]; [done|by apply HI1]. }
  destruct (_ || _).
  { unfold addRestPath, operationResponses. intros H. apply bind_Some in H as ([r1 s1] & H1 & H). apply bind_Some in H as ([r2 s2] & H2 & H).
    apply bind_Some in H as ([r3 s3] & H3 & H). destruct (success_of e) as [sc sd]. apply bind_Some in H3 as ([r4 s4] & H3 & H4).
    destruct (responses_loop _ _ _ _ _ _). simplify_eq.
    destruct (register_named_acyclic _ _ _ _ _ HI H1) as [HI1 A1]. destruct (register_named_acyclic _ _ _ _ _ HI1 H2) as [HI2 A2].
    destruct (register_named_acyclic _ _ _ _ _ HI2 H3) as [HI3 A3]. split.
    - destruct (method_of _); autorewrite with doc_db; done.
    - apply Forall_forall. intros n [Hn Hin]%list_elem_of_filter. revert Hin. rewrite !elem_of_cons, elem_of_nil. naive_solver. }
  intros H. split; [|constructor].
  unfold addFilePath in H. repeat case_match; simplify_eq; unfold addWSPath, addSSEPath, addAsyncPaths, addGraphQLPath; cbn zeta; autorewrite with doc_db; done.
Qed.

Lemma add_entries_acyclic fuel es prefix : forall d d',
  registered_acyclic models (d_Schemas d) -> add_entries models fuel d es prefix = Some d' -> Forall (acyclic models) (es ≫= entry_models).
Proof.
  induction es as [|e es IH]; intros d d' HI H; [constructor|]. cbn in *. apply Forall_app.
  destruct (EntryDef_Hidden e) eqn:Hh.
  - split; [unfold entry_models; rewrite Hh; constructor|by eapply IH].
  - apply bind_Some in H as (d1 & H1 & H). destruct (add_entry_acyclic _ _ _ _ _ HI Hh H1). split; [done|by eapply IH].
Qed.

Lemma add_entry_returns d e prefix :
  EntryDef_Hidden e = false -> Forall (acyclic models) (entry_models e) -> is_Some (addEntryPaths models (enough models) d e prefix).
Proof.
  intros Hh. unfold addEntryPaths, entry_models. rewrite Hh. destruct (String.eqb _ "crud").
  { intros [Ha _]%Forall_cons. unfold addCRUDPaths. destruct (models !! EntryDef_Model e) as [info|] eqn:E; [|done].
    destruct (build_enough models _ info (d_Schemas d) E Ha) as [[s s1] ->]. cbn.
    destruct (build_enough models _ info (<[EntryDef_Model e:=inlineSchema s]> s1) E Ha) as [[s' s2] ->]. done. }
  destruct (_ || _).
  { intros Hf. assert (Hr : forall n sch, n ∈ [EntryDef_RequestModel e; EntryDef_ResponseModel e; EntryDef_ErrorModel e] ->
      is_Some (register_named models (enough models) sch n)).
    { intros n sch Hn. unfold register_named. destruct (String.eqb_spec n ""); [done|]. apply register_enough.
      eapply Forall_forall; [done|]. by apply list_elem_of_filter. }
    unfold addRestPath, operationResponses.
    destruct (Hr (EntryDef_RequestModel e) (d_Schemas d)) as [[r1 s1] ->]; [left|]. cbn.
    destruct (Hr (EntryDef_ResponseModel e) s1) as [[r2 s2] ->]; [right; left|]. cbn. destruct (success_of e).
    destruct (Hr (EntryDef_ErrorModel e) s2) as [[r3 s3] ->]; [right; right; left|]. cbn. by destruct (responses_loop _ _ _ _ _ _). }
  intros _. by repeat case_match.
Qed.

Lemma add_entries_returns es prefix : forall d,
  Forall (acyclic models) (es ≫= entry_models) -> is_Some (add_entries models (enough models) d es prefix).
Proof.
  induction es as [|e es IH]; intros d H; [done|]. cbn in *. apply Forall_app in H as [He Hes].
  destruct (EntryDef_Hidden e) eqn:Hh; [by apply IH|].
  destruct (add_entry_returns d e prefix Hh He) as [d1 ->]. cbn. by apply IH.
Qed.

(** C22: Building the document ends exactly when no model of an entry leads to a model
    that mentions itself: with as much recursion as there are models when there is none, and
    with no depth of recursion at all when there is one.  Nothing in the code looks for such
    models: a type with a field of its own type exhausts the stack. *)
Theorem BuildOpenAPI_returns_iff (cfg : ServiceConfig) :
  let names := ServiceConfig_Entry cfg ≫= entry_models in
  (Forall (acyclic models) names -> is_Some (BuildOpenAPI models (S (size models)) cfg)) /\
  (forall fuel, is_Some (BuildOpenAPI models fuel cfg) -> Forall (acyclic models) names).
Proof.
  intros names. unfold BuildOpenAPI. split.
  - intros H. fold (enough models). by destruct (add_entries_returns _ (ServerConf_APIPrefix (ServiceConfig_Server cfg)) (new_document cfg) H) as [d ->].
  - intros fuel [d Hd]. apply bind_Some in Hd as (d0 & H & _). eapply add_entries_acyclic; [|done]. by intros n [x ?].
Qed.
End termination.

(** ** References *)

(** [r] is referred to in a schema. *)
Inductive refers (r : string) : schemaRef -> Prop :=
| refers_here v : r <> "" -> refers r (mkSchemaRef r v)
| refers_property n t f ps k s it ap : ps !! k = Some s -> refers r s -> refers r (mkSchemaRef n (Some (mkSchema t f ps it ap)))
| refers_items n t f ps s ap : refers r s -> refers r (mkSchemaRef n (Some (mkSchema t f ps (Some s) ap)))
| refers_additional n t f ps it s : refers r s -> refers r (mkSchemaRef n (Some (mkSchema t f ps it (Some s)))).

(** Every reference in a schema is to a component that is defined. *)
Definition resolved (sch : Schemas) (s : schemaRef) : Prop := forall r, refers r s -> exists n, r = component n /\ is_Some (sch !! n).

Definition components_ok (sch : Schemas) : Prop := forall k s, sch !! k = Some s -> resolved sch s.

(** Components are added and replaced, never removed. *)
Definition grows (sch sch' : Schemas) : Prop := forall n, is_Some (sch !! n) -> is_Some (sch' !! n).

#[global] Instance grows_preorder : PreOrder grows.
Proof. split; [by intros sch n|intros a b c H1 H2 n Hn; by apply H2, H1]. Qed.

Lemma resolved_grows sch sch' s : grows sch sch' -> resolved sch s -> resolved sch' s.
Proof. intros Hg H r Hr. destruct (H r Hr) as (n & -> & Hn). exists n. split; [done|by apply Hg]. Qed.

Lemma grows_insert sch n s : grows sch (<[n := s]> sch).
Proof. intros k Hk. apply lookup_insert_is_Some'. by right. Qed.

Lemma components_insert sch n s : components_ok sch -> resolved sch s -> components_ok (<[n := s]> sch).
Proof.
  intros Hc Hs k s' H. apply (resolved_grows sch); [apply grows_insert|]. apply lookup_insert_Some in H as [[_ <-]|[_ H]]; [done|by eapply Hc].
Qed.

(** The parts of a schema without a name of its own. *)
Lemma resolved_inline sch ts f ps it ap :
  (forall k s, ps !! k = Some s -> resolved sch s) -> (forall s, it = Some s -> resolved sch s) -> (forall s, ap = Some s -> resolved sch s) ->
  resolved sch (inlineSchema (mkSchema ts f ps it ap)).
Proof. intros Hp Hi Ha r H. inversion H; subst; [done|by eapply Hp|by eapply Hi|by eapply Ha]. Qed.

Lemma resolved_plain sch ts f : resolved sch (inlineSchema (mkSchema ts f ∅ None None)).
Proof. apply resolved_inline; [intros k s H; by rewrite lookup_empty in H|done|done]. Qed.

Lemma resolved_items sch s : resolved sch s -> resolved sch (inlineSchema (mkSchema ["array"] "" ∅ (Some s) None)).
Proof. intros H. apply resolved_inline; [intros k s' Hk; by rewrite lookup_empty in Hk|by intros ? [= <-]|done]. Qed.

Lemma resolved_additional sch s : resolved sch s -> resolved sch (inlineSchema (mkSchema ["object"] "" ∅ None (Some s))).
Proof. intros H. apply resolved_inline; [intros k s' Hk; by rewrite lookup_empty in Hk|done|by intros ? [= <-]]. Qed.

Lemma resolved_component sch n : is_Some (sch !! n) -> resolved sch (mkSchemaRef (component n) None).
Proof. intros Hn r H. inversion H; subst. by exists n. Qed.

Create HintDb resolved_db.
#[export] Hint Resolve resolved_plain resolved_items resolved_additional resolved_component resolved_grows components_insert grows_insert : resolved_db.

(** What every step of the construction keeps. *)
Definition step_ok (sch : Schemas) (r : option schemaRef) (sch' : Schemas) : Prop :=
  grows sch sch' /\ (components_ok sch -> components_ok sch' /\ forall s, r = Some s -> resolved sch' s).

Lemma step_same sch s : (forall sch, resolved sch s) -> step_ok sch (Some s) sch.
Proof. intros H. split; [done|]. intros Hc. split; [done|]. by intros ? [= <-]. Qed.

Lemma step_none sch : step_ok sch None sch.
Proof. by split. Qed.

(** A result wrapped in a larger schema. *)
Lemma step_wrap sch s s' sch' : step_ok sch (Some s) sch' -> (forall sch, resolved sch s -> resolved sch s') -> step_ok sch (Some s') sch'.
Proof.
  intros [Hg H] Hw. split; [done|]. intros Hc. destruct (H Hc) as [Hc' Hr]. split; [done|]. intros ? [= <-]. by apply Hw, Hr.
Qed.

#[export] Hint Resolve step_same step_none : resolved_db.

Section references.
Context (models : gmap string TableInfo).

Lemma field_schema_refs (register : Schemas -> string -> option (option schemaRef * Schemas)) :
  (forall sch m r sch', register sch m = Some (r, sch') -> step_ok sch r sch') ->
  forall t follow sch r sch', field_schema models register follow t sch = Some (r, sch') -> step_ok sch (Some r) sch'.
Proof.
  intros Hreg. induction t as [| | | | |e IH|e IH|e IH|str name|e IH|]; intros follow sch r sch' H;
    try (cbn in H; simplify_eq; apply step_same; intros; apply resolved_plain).
  1, 2: cbn [field_schema] in H; destruct (is_byte e); [simplify_eq; apply step_same; intros; apply resolved_plain|];
    apply bind_Some in H as ([items s1] & H1 & H2); simplify_eq; eapply step_wrap; [by eapply IH|intros ?; apply resolved_items].
  - cbn [field_schema] in H. apply bind_Some in H as ([items s1] & H1 & H2). simplify_eq. eapply step_wrap; [by eapply IH|]. intros. by apply resolved_additional.
  - cbn [field_schema] in H. destruct (String.eqb _ _); [simplify_eq; apply step_same; intros; apply resolved_plain|].
    destruct (models !! name); [|simplify_eq; apply step_same; intros; apply resolved_plain].
    apply bind_Some in H as ([r1 s1] & H1 & H2). simplify_eq. apply Hreg in H1. destruct r1; [done|].
    destruct H1 as [Hg Hk]. split; [done|]. intros Hc. destruct (Hk Hc). split; [done|]. intros ? [= <-]. apply resolved_plain.
  - cbn [field_schema] in H. destruct follow; [by eapply IH|]. simplify_eq. apply step_same. intros. apply resolved_plain.
Qed.

Lemma build_with_refs register info sch s sch' :
  (forall sch m r sch', register sch m = Some (r, sch') -> step_ok sch r sch') ->
  build_with models register info sch = Some (s, sch') -> step_ok sch (Some (inlineSchema s)) sch'.
Proof.
  intros Hreg H. apply bind_Some in H as ([props s1] & H & ?). simplify_eq.
  enough (forall acc, schema_fields models register (Fields info) acc sch = Some (props, sch') ->
    grows sch sch' /\ (components_ok sch -> (forall k s, acc !! k = Some s -> resolved sch s) ->
      components_ok sch' /\ forall k s, props !! k = Some s -> resolved sch' s)) as Hk.
  { destruct (Hk ∅ H) as [Hg Hr]. split; [done|]. intros Hc. destruct (Hr Hc) as [Hc' Hp]; [intros k s E; by rewrite lookup_empty in E|].
    split; [done|]. intros ? [= <-]. by apply resolved_inline. }
  clear H. revert sch. induction (Fields info) as [|f fs IH]; intros sch acc H; cbn [schema_fields] in H; [by simplify_eq|].
  destruct (Skip f); [by apply IH|]. apply bind_Some in H as ([p s2] & H1 & H2).
  apply (field_schema_refs register Hreg) in H1 as [Hg1 H1]. destruct (IH _ _ H2) as [Hg2 Hk].
  split; [by transitivity s2|]. intros Hc Ha. destruct (H1 Hc) as [Hc2 Hp]. apply Hk; [done|].
  intros k s E. apply lookup_insert_Some in E as [[_ <-]|[_ E]]; [by apply Hp|]. eapply resolved_grows; [done|by eapply Ha].
Qed.

Lemma register_refs fuel : forall sch m r sch', registerModelSchema models fuel sch m = Some (r, sch') -> step_ok sch r sch'.
Proof.
  induction fuel as [|fuel IH]; intros sch m r sch' H; [done|]. cbn [registerModelSchema] in H.
  destruct (models !! m) as [info|]; [|simplify_eq; apply step_none].
  apply bind_Some in H as (s1 & H & ?). simplify_eq. destruct (sch !! m) eqn:E.
  - simplify_eq. split; [done|]. intros Hc. split; [done|]. intros ? [= <-]. by apply resolved_component.
  - apply bind_Some in H as ([s s2] & H & ?). simplify_eq. apply (build_with_refs _ _ _ _ _ IH) in H as [Hg Hk].
    split; [transitivity s2; [done|apply grows_insert]|]. intros Hc. destruct (Hk Hc) as [Hc' Hr].
    split; [by apply components_insert, Hr|]. intros ? [= <-]. apply resolved_component. apply lookup_insert_is_Some'. by left.
Qed.

Lemma register_named_refs fuel sch n r sch' : register_named models fuel sch n = Some (r, sch') -> step_ok sch r sch'.
Proof. unfold register_named. destruct (String.eqb n ""); [intros ?; simplify_eq; apply step_none|apply register_refs]. Qed.
End references.

(** ** The document's references *)

Definition references_ok (sch : Schemas) (op : Operation) : Prop :=
  (forall s, op_RequestBody op = Some s -> resolved sch s) /\
  (forall c r s, op_Responses op !! c = Some r -> rs_Content r = Some s -> resolved sch s) /\
  (forall p, p ∈ op_Parameters op -> resolved sch (prm_Schema p)).

(** An operation of the document before security is applied. *)
Definition operation_ok (sch : Schemas) (op : Operation) : Prop := references_ok sch op /\ op_Security op = None.

Definition document_ok (d : T) : Prop :=
  components_ok (d_Schemas d) /\ forall p m op, operation d p m = Some op -> operation_ok (d_Schemas d) op.

Lemma operation_ok_grows sch sch' op : grows sch sch' -> operation_ok sch op -> operation_ok sch' op.
Proof.
  intros Hg [(H1 & H2 & H3) Hs]. split; [|done]. split; [|split]; intros; eapply resolved_grows; [done|by apply H1|done|by eapply H2|done|by apply H3].
Qed.

(** Operations whose responses have at most one schema. *)
Lemma operation_ok_intro sch sum id tags desc ps body resps :
  (forall s, body = Some s -> resolved sch s) -> map_Forall (fun _ r => forall s, rs_Content r = Some s -> resolved sch s) resps ->
  (forall p, p ∈ ps -> exists n i t, p = param n i t) -> operation_ok sch (mkOperation sum id tags desc ps body resps None).
Proof.
  intros H1 H2 H3. split; [|done]. split; [done|split]; cbn; [intros c r s E; by apply (H2 c r E)|]. intros p Hp. destruct (H3 p Hp) as (n & i & t & ->). apply resolved_plain.
Qed.

Lemma document_pathItem p d : document_ok d -> document_ok (pathItem p d).
Proof. intros [H1 H2]. split; rewrite schemas_pathItem; [done|]. intros q m op. rewrite operation_pathItem. apply H2. Qed.

Lemma operation_assign_inv p m op d q m' o : operation (assign p m op d) q m' = Some o -> o = op \/ operation d q m' = Some o.
Proof.
  unfold operation, assign. cbn. destruct (decide (p = q)) as [->|Hne]; [|rewrite lookup_alter_ne by done; by right].
  rewrite lookup_alter_eq. destruct (d_Paths d !! q) as [i|]; [|done]. cbn. rewrite slot_set. case_decide; [intros [= <-]; by left|by right].
Qed.

Lemma document_assign p m op d : document_ok d -> operation_ok (d_Schemas d) op -> document_ok (assign p m op d).
Proof. intros [H1 H2] Ho. split; [done|]. intros q m' o [->|H]%operation_assign_inv; [done|]. by eapply H2. Qed.

Lemma document_if_nil p m op d : document_ok d -> operation_ok (d_Schemas d) op -> document_ok (assign_if_nil p m op d).
Proof. intros Hd Ho. unfold assign_if_nil. destruct (operation d p m); [done|by apply document_assign]. Qed.

(** A registration, seen from the document. *)
Lemma document_schemas d r sch : document_ok d -> step_ok (d_Schemas d) r sch -> document_ok (d <| d_Schemas := sch |>) /\ (forall s, r = Some s -> resolved sch s).
Proof.
  intros [H1 H2] [Hg Hk]. destruct (Hk H1) as [Hc Hr]. split; [|done]. split; [done|]. intros p m op Hop. eapply operation_ok_grows; [done|by eapply H2].
Qed.

(** Side conditions of [operation_ok_intro]: parameters are built by [param], responses are
    singletons. *)
Ltac ok_op :=
  repeat first [rewrite schemas_if_nil | rewrite schemas_assign | rewrite schemas_pathItem];
  apply operation_ok_intro;
  [intros ? ?; simplify_eq; eauto with resolved_db
  |try apply map_Forall_singleton; cbn; intros ? ?; simplify_eq; eauto with resolved_db
  |intros ? ?; repeat match goal with H : _ ∈ _ :: _ |- _ => apply elem_of_cons in H as [->|H] | H : _ ∈ [] |- _ => by apply elem_of_nil in H end; eauto].

Section document.
Context (models : gmap string TableInfo).

Lemma crud_document fuel d e prefix d' : document_ok d -> addCRUDPaths models fuel d e prefix = Some d' -> document_ok d'.
Proof.
  intros Hd H. unfold addCRUDPaths in H. apply bind_Some in H as (s1 & H1 & H). apply bind_Some in H as ([r s2] & H2 & H). cbn zeta in H.
  assert (document_ok (d <| d_Schemas := s2 |>) /\ resolved s2 r) as [Hd2 Hr].
  { destruct (models !! EntryDef_Model e) as [info|].
    - apply bind_Some in H1 as ([a sa] & H1 & ?). apply bind_Some in H2 as ([b sb] & H2 & ?). simplify_eq.
      apply (build_with_refs models) in H1; [|apply register_refs]. apply (build_with_refs models) in H2; [|apply register_refs].
      destruct (document_schemas d _ _ Hd H1) as [Hda Hra].
      assert (step_ok (d_Schemas d) (Some (inlineSchema b)) s2) as Hstep.
      { destruct H1 as [Hg1 Hk1], H2 as [Hg2 Hk2]. split; [etrans; [exact Hg1|]; etrans; [apply grows_insert|exact Hg2]|].
        intros Hc. destruct (Hk1 Hc) as [Hc1 Hr1]. apply Hk2. apply components_insert; [done|by apply Hr1]. }
      destruct (document_schemas d _ _ Hd Hstep) as [? Hrb]. split; [done|by apply Hrb].
    - simplify_eq. split; [done|apply resolved_plain]. }
  simplify_eq. set (d2 := d <| d_Schemas := s2 |>) in *. change s2 with (d_Schemas d2) in Hr.
  repeat first [apply document_if_nil | apply document_pathItem | done]; ok_op; done.
Qed.
End document.

(** ** Documented responses *)

Lemma responses_loop_lookup resps success err codes : forall desc acc c,
  (responses_loop resps success err codes desc acc).2 !! c =
  match (if decide (c ∈ codes) then Atoi c else None) with
  | Some n =>
      Some (if n =? success then None
            else let d := default "" (resps !! c) in
                 Some (mkResponse (if String.eqb d "" then StatusText n else d) (if 400 <=? n then err else None)))
  | None => acc !! c
  end.
Proof.
  induction codes as [|code codes IH]; intros desc acc c; [done|]. cbn [responses_loop].
  destruct (decide (c = code)) as [->|Hne].
  - rewrite (decide_True (P := code ∈ code :: codes)) by left. destruct (Atoi code) as [n|] eqn:En.
    + destruct (n =? success) eqn:Es; rewrite IH; (case_decide; [by rewrite En, Es|by rewrite lookup_insert_eq]).
    + rewrite IH. by case_decide; [rewrite En|].
  - rewrite (decide_ext (c ∈ code :: codes) (c ∈ codes)) by (rewrite elem_of_cons; naive_solver).
    destruct (Atoi code) as [n|]; [|apply IH]. destruct (n =? success); rewrite IH; (destruct (if decide _ then _ else _); [done|by rewrite lookup_insert_ne]).
Qed.

Lemma response_codes_elem e c : c ∈ response_codes e <-> is_Some (EntryDef_Responses e !! c).
Proof.
  unfold response_codes. rewrite merge_sort_Permutation. rewrite list_elem_of_fmap. split.
  - intros ([c' d] & -> & H%elem_of_map_to_list). by exists d.
  - intros [d H]. exists (c, d). split; [done|by apply elem_of_map_to_list].
Qed.

Lemma success_of_range e : 200 <= (success_of e).1 < 300.
Proof.
  unfold success_of. assert (H : forall codes s, declared_success (EntryDef_Responses e) codes = Some s -> 200 <= s.1 < 300).
  { induction codes as [|c codes IH]; intros s; cbn; [done|]. destruct (Atoi c) as [n|]; [|apply IH].
    destruct ((200 <=? n) && (n <? 300)) eqn:E; [|apply IH]. intros [= <-]. cbn. lia. }
  destruct (declared_success _ _) as [s|] eqn:E; [by apply (H _ _ E)|]. destruct (String.eqb _ _); cbn; lia.
Qed.

(** The responses of a route: the success code (the first declared one in the 2xx range, or
    201 for POST and 200 otherwise) with the response model, and every declared code that is
    a number, with the error model from 400 on; codes that are not numbers are dropped. *)
Theorem responses_documented (models : gmap string TableInfo) fuel e ss sch rs sch' :
  operationResponses models fuel e ss sch = Some (rs, sch') ->
  exists err, register_named models fuel sch (EntryDef_ErrorModel e) = Some (err, sch') /\
    (200 <= (success_of e).1 < 300) /\
    forall c, rs_Content <$> rs !! c =
      match EntryDef_Responses e !! c ≫= fun _ => Atoi c with
      | Some n => Some (if n =? (success_of e).1 then ss else if 400 <=? n then err else None)
      | None => if decide (c = pretty (success_of e).1) then Some ss else None
      end.
Proof.
  unfold operationResponses. pose proof (success_of_range e) as Hr. destruct (success_of e) as [success desc].
  intros H. apply bind_Some in H as ([err s1] & H1 & H).
  pose proof (responses_loop_lookup (EntryDef_Responses e) success err (response_codes e) desc {[pretty success := None]}) as Hl.
  destruct (responses_loop _ _ _ _ _ _) as [desc' acc]. cbn [snd] in Hl. simplify_eq. exists err. split; [done|]. split; [done|]. intros c. cbn [fst].
  rewrite lookup_fmap, (Hl c). rewrite (decide_ext _ _ _ _ (response_codes_elem e c)).
  destruct (EntryDef_Responses e !! c) as [d|] eqn:Ed; cbn.
  - rewrite decide_True by done. destruct (Atoi c) as [n|]; [by destruct (n =? success)|].
    case_decide as Hc; [subst; by rewrite lookup_singleton_eq|by rewrite lookup_singleton_ne].
  - rewrite decide_False by (by intros []). case_decide as Hc; [subst; by rewrite lookup_singleton_eq|by rewrite lookup_singleton_ne].
Qed.

Section document_entries.
Context (models : gmap string TableInfo).

Lemma rest_document fuel d e prefix d' : document_ok d -> addRestPath models fuel d e prefix = Some d' -> document_ok d'.
Proof.
  intros Hd H. unfold addRestPath in H. apply bind_Some in H as ([r1 s1] & H1 & H). apply bind_Some in H as ([r2 s2] & H2 & H).
  apply bind_Some in H as ([rs s3] & H3 & H). cbn zeta in H. simplify_eq.
  destruct (responses_documented _ _ _ _ _ _ _ H3) as (err & H4 & _ & Hc).
  apply register_named_refs in H1, H2, H4.
  destruct (document_schemas d _ _ Hd H1) as [Hd1 Hr1]. destruct (document_schemas _ _ _ Hd1 H2) as [Hd2 Hr2].
  destruct (document_schemas _ _ _ Hd2 H4) as [Hd3 Hr3].
  assert (forall s, r1 = Some s -> resolved s3 s) as Hr1'.
  { intros s Hs. eapply resolved_grows, Hr1, Hs. transitivity s2; [apply H2|apply H4]. }
  assert (forall s, r2 = Some s -> resolved s3 s) as Hr2' by (intros s Hs; eapply resolved_grows, Hr2, Hs; apply H4).
  change (document_ok (d <| d_Schemas := s3 |>)) in Hd3.
  destruct (method_of _); [|by apply document_pathItem]. apply document_assign; [by apply document_pathItem|].
  rewrite schemas_pathItem. apply operation_ok_intro; [| |intros p Hp; by apply elem_of_nil in Hp].
  - intros s Hs. apply Hr1'. by destruct (_ && _).
  - intros c r E s Hs. specialize (Hc c). rewrite E in Hc. cbn in Hc. rewrite Hs in Hc.
    repeat case_match; simplify_eq; auto.
Qed.

Lemma add_entry_document fuel d e prefix d' : document_ok d -> addEntryPaths models fuel d e prefix = Some d' -> document_ok d'.
Proof.
  intros Hd. unfold addEntryPaths. destruct (String.eqb _ "crud"); [by apply crud_document|].
  destruct (_ || _); [by apply rest_document|].
  destruct (String.eqb _ "websocket"); [intros [= <-]; apply document_assign; [by apply document_pathItem|ok_op]|].
  destruct (String.eqb _ "sse"); [intros [= <-]; apply document_assign; [by apply document_pathItem|ok_op]|].
  destruct (String.eqb _ "file").
  { intros [= <-]. unfold addFilePath. destruct (method_of _); [|done]. apply document_assign; [by apply document_pathItem|ok_op]. }
  destruct (String.eqb _ "async").
  { intros [= <-]. unfold addAsyncPaths. cbn zeta. repeat first [apply document_if_nil | apply document_pathItem | done]; ok_op. }
  destruct (String.eqb _ "graphql"); intros [= <-]; [|done].
  destruct Hd as [Hc Ho]. split; [done|]. intros p m op. unfold operation, addGraphQLPath. cbn.
  destruct (decide (prefix +++ EntryDef_Path e = p)) as [<-|Hne]; [rewrite lookup_insert_eq|rewrite lookup_insert_ne by done; apply Ho].
  cbn. destruct m; try done. intros [= <-]. apply operation_ok_intro; [| |intros q Hq; by apply elem_of_nil in Hq].
  - intros s [= <-]. apply resolved_inline; [|done|done]. intros k s. rewrite lookup_insert_Some, lookup_singleton_Some.
    intros [[_ <-]|[_ [_ <-]]]; apply resolved_plain.
  - by apply map_Forall_singleton.
Qed.

Lemma add_entries_document fuel es prefix : forall d d', document_ok d -> add_entries models fuel d es prefix = Some d' -> document_ok d'.
Proof.
  induction es as [|e es IH]; intros d d' Hd H; cbn in H; [by simplify_eq|]. destruct (EntryDef_Hidden e); [by eapply IH|].
  apply bind_Some in H as (d1 & H1 & H). eapply IH, H. by eapply add_entry_document.
Qed.
End document_entries.

Lemma new_document_ok cfg : document_ok (new_document cfg).
Proof.
  split; [intros k s Hk; by cbn in Hk; rewrite lookup_empty in Hk|].
  intros p m op Hp. unfold operation in Hp. cbn in Hp. by rewrite lookup_empty in Hp.
Qed.

(** ** What is documented *)

(** The operations an entry contributes. *)
Definition provides (prefix : string) (e : EntryDef) (p : string) (m : Method) : bool :=
  let t := EntryDef_Type e in
  let path := prefix +++ EntryDef_Path e in
  let at_ q ms := bool_decide (p = q /\ m ∈ ms) in
  if EntryDef_Hidden e then false
  else if String.eqb t "crud" then at_ (crud_base prefix e) [GET; POST] || at_ (crud_idPath prefix e) [GET; PATCH; DELETE]
  else if String.eqb t "rest" || String.eqb t "webhook" then bool_decide (p = path /\ method_of (EntryDef_Method e) = Some m)
  else if String.eqb t "websocket" || String.eqb t "sse" then at_ path [GET]
  else if String.eqb t "file" then bool_decide (p = path /\ method_of (EntryDef_Method e) = Some m)
  else if String.eqb t "async" then at_ path [GET; POST] || at_ (path +++ "/:job_id") [GET; DELETE] || at_ ((path +++ "/:job_id") +++ "/status") [GET]
  else if String.eqb t "graphql" then at_ path [POST]
  else false.

(** A GraphQL entry replaces the item of its path. *)
Definition replaces (prefix : string) (e : EntryDef) (p : string) : bool :=
  negb (EntryDef_Hidden e) && String.eqb (EntryDef_Type e) "graphql" && bool_decide (p = prefix +++ EntryDef_Path e).

Section operations.
Context (models : gmap string TableInfo) (fuel : nat) (prefix : string).

Lemma if_nil_some p m op d q m' : has_path d p ->
  is_Some (operation (assign_if_nil p m op d) q m') <-> is_Some (operation d q m') \/ q = p /\ m' = m.
Proof. intros Hp. rewrite operation_if_nil by done. destruct (operation d q m'); [naive_solver|]. case_decide; [naive_solver|]. split; [by intros []|intros [[]|]; done]. Qed.

Lemma assign_some p m op d q m' :
  is_Some (operation (assign p m op (pathItem p d)) q m') <-> is_Some (operation d q m') \/ q = p /\ m' = m.
Proof. rewrite operation_assign by has. rewrite operation_pathItem. case_decide; naive_solver. Qed.

Lemma add_entry_operations d e d' p m :
  EntryDef_Hidden e = false -> addEntryPaths models fuel d e prefix = Some d' ->
  is_Some (operation d' p m) <-> is_Some (operation d p m) /\ replaces prefix e p = false \/ provides prefix e p m = true.
Proof.
  intros Hh. unfold addEntryPaths, provides, replaces. rewrite Hh. cbn [negb andb].
  destruct (String.eqb_spec (EntryDef_Type e) "crud") as [->|Hcrud].
  { unfold addCRUDPaths. intros H. apply bind_Some in H as (s1 & _ & H). apply bind_Some in H as ([r s2] & _ & H). cbn zeta in H. simplify_eq.
    rewrite !if_nil_some by has. rewrite operation_pathItem. rewrite !if_nil_some by has. rewrite operation_pathItem. cbn.
    rewrite orb_true_iff, !bool_decide_eq_true, !elem_of_cons, elem_of_nil. naive_solver. }
  destruct (_ || _) eqn:Erest.
  { apply orb_true_iff in Erest as [->%String.eqb_eq| ->%String.eqb_eq].
    all: unfold addRestPath; intros H; apply bind_Some in H as ([r1 s1] & _ & H); apply bind_Some in H as ([r2 s2] & _ & H);
      apply bind_Some in H as ([r3 s3] & _ & H); cbn zeta in H; simplify_eq; rewrite bool_decide_eq_true.
    all: destruct (method_of _) as [m'|]; [rewrite assign_some|rewrite operation_pathItem]; cbn; naive_solver. }
  destruct (String.eqb_spec (EntryDef_Type e) "websocket") as [->|Hws].
  { intros [= <-]. unfold addWSPath. cbn [orb]. rewrite assign_some, bool_decide_eq_true, list_elem_of_singleton. naive_solver. }
  destruct (String.eqb_spec (EntryDef_Type e) "sse") as [->|Hsse].
  { intros [= <-]. unfold addSSEPath. cbn [orb]. rewrite assign_some, bool_decide_eq_true, list_elem_of_singleton. naive_solver. }
  cbn [orb]. destruct (String.eqb_spec (EntryDef_Type e) "file") as [->|Hfile].
  { intros [= <-]. unfold addFilePath. rewrite bool_decide_eq_true. destruct (method_of _) as [m'|]; [rewrite assign_some|]; naive_solver. }
  destruct (String.eqb_spec (EntryDef_Type e) "async") as [->|Hasync].
  { intros [= <-]. unfold addAsyncPaths. cbn zeta.
    repeat first [rewrite if_nil_some by has | rewrite operation_pathItem].
    rewrite !orb_true_iff, !bool_decide_eq_true, !elem_of_cons, !elem_of_nil. naive_solver. }
  destruct (String.eqb_spec (EntryDef_Type e) "graphql") as [Hgql|Hgql]; intros [= <-]; [|naive_solver].
  unfold addGraphQLPath, operation. cbn. rewrite !bool_decide_eq_true, bool_decide_eq_false, list_elem_of_singleton.
  destruct (decide (p = prefix +++ EntryDef_Path e)) as [->|Hne]; [rewrite lookup_insert_eq|rewrite lookup_insert_ne by done; naive_solver].
  cbn. destruct m; cbn; naive_solver.
Qed.

(** The document lists an operation, before exclusions, exactly when an entry that is not
    hidden provides it and no GraphQL entry on the same path comes after it. *)
Lemma add_entries_operations es : forall d d' p m,
  add_entries models fuel d es prefix = Some d' ->
  is_Some (operation d' p m) <->
  is_Some (operation d p m) /\ (forall e, e ∈ es -> replaces prefix e p = false) \/
  exists es1 e es2, es = es1 ++ e :: es2 /\ provides prefix e p m = true /\ forall e', e' ∈ es2 -> replaces prefix e' p = false.
Proof.
  induction es as [|e es IH]; intros d d' p m H.
  - cbn in H. simplify_eq. split; [intros; left; split; [done|intros e []%elem_of_nil]|intros [[? _]|(es1 & e & es2 & Hes & _)]; [done|by destruct es1]].
  - cbn in H. destruct (EntryDef_Hidden e) eqn:Hh.
    + assert (replaces prefix e p = false /\ provides prefix e p m = false) as [Hr Hp] by (unfold replaces, provides; by rewrite Hh).
      rewrite (IH _ _ _ _ H). setoid_rewrite elem_of_cons. split.
      * intros [[? He]|(es1 & e1 & es2 & -> & ? & ?)]; [left; naive_solver|right; by exists (e :: es1), e1, es2].
      * intros [[? He]|(es1 & e1 & es2 & Hes & ? & ?)]; [left; naive_solver|]. destruct es1 as [|e0 es1]; simplify_list_eq; [congruence|].
        right. by exists es1, e1, es2.
    + apply bind_Some in H as (d1 & H1 & H). rewrite (IH _ _ _ _ H). rewrite (add_entry_operations _ _ _ p m Hh H1).
      setoid_rewrite elem_of_cons. split.
      * intros [[[[? Hr]|Hp] He]|(es1 & e1 & es2 & -> & ? & ?)]; [left; naive_solver|right; by exists [], e, es|right; by exists (e :: es1), e1, es2].
      * intros [[? He]|(es1 & e1 & es2 & Hes & ? & ?)]; [left; naive_solver|]. destruct es1 as [|e0 es1]; simplify_list_eq; [left; naive_solver|].
        right. by exists es1, e1, es2.
Qed.
End operations.

(** ** Security and exclusions *)

(** The operations whose requirement an entry decides. *)
Definition secures (prefix : string) (e : EntryDef) : list opKey :=
  if EntryDef_Hidden e then []
  else if String.eqb (EntryDef_Type e) "rest" || String.eqb (EntryDef_Type e) "webhook" then
    if String.eqb (EntryDef_Method e) "" then [] else [(ToUpper (EntryDef_Method e), prefix +++ EntryDef_Path e)]
  else if String.eqb (EntryDef_Type e) "crud" then
    [("GET", crud_base prefix e); ("POST", crud_base prefix e);
     ("GET", crud_idPath prefix e); ("PATCH", crud_idPath prefix e); ("DELETE", crud_idPath prefix e)]
  else [].

(** The entry that decides: the first one. *)
Definition securing_entry (prefix : string) (es : list EntryDef) (p : string) (m : Method) : option EntryDef :=
  snd <$> list_find (fun e => (method_name m, p) ∈ secures prefix e) es.

Definition excluded_path (cfg : ServiceConfig) (p : string) : bool :=
  match ServerConf_OpenAPI (ServiceConfig_Server cfg) with
  | Some oai => existsb (fun pattern => pattern_matches pattern p) (OpenAPIConf_ExcludePaths oai)
  | None => false
  end.

Definition excluded_operation (cfg : ServiceConfig) (op : Operation) : bool :=
  match ServerConf_OpenAPI (ServiceConfig_Server cfg) with
  | Some oai => operationHasTag (OpenAPIConf_ExcludeTags oai) op
  | None => false
  end.

Lemma remember_lookup me p am modes k :
  remember me p am modes !! k = match modes !! k with Some ms => Some ms | None => if decide (k = (ToUpper me, p)) then Some am else None end.
Proof.
  unfold remember. destruct (modes !! (ToUpper me, p)) eqn:E.
  - destruct (modes !! k) eqn:Ek; [done|]. by rewrite decide_False by congruence.
  - destruct (decide (k = (ToUpper me, p))) as [->|Hne]; [by rewrite lookup_insert_eq, E|]. rewrite lookup_insert_ne by done. by destruct (modes !! k).
Qed.

Lemma remember_entry_lookup prefix modes e k :
  remember_entry prefix modes e !! k =
  match modes !! k with Some ms => Some ms | None => if decide (k ∈ secures prefix e) then Some (EntryDef_AuthModes e) else None end.
Proof.
  unfold remember_entry, secures. destruct (EntryDef_Hidden e); [by destruct (modes !! k)|].
  destruct (_ || _).
  { destruct (String.eqb _ ""); cbn [negb]; [by destruct (modes !! k)|]. rewrite remember_lookup. destruct (modes !! k); [done|].
    by rewrite (decide_ext _ _ _ _ (list_elem_of_singleton _ _)). }
  destruct (String.eqb _ "crud"); [|by destruct (modes !! k)].
  rewrite !remember_lookup. change (ToUpper "GET") with "GET". change (ToUpper "POST") with "POST". change (ToUpper "PATCH") with "PATCH".
  change (ToUpper "DELETE") with "DELETE". destruct (modes !! k); [done|].
  destruct (decide (k ∈ _)) as [Hin|Hin]; rewrite !elem_of_cons, elem_of_nil in Hin; repeat case_decide; try done; exfalso; naive_solver.
Qed.

Lemma entry_modes_lookup es prefix p m :
  entry_modes es prefix !! (method_name m, p) = EntryDef_AuthModes <$> securing_entry prefix es p m.
Proof.
  unfold entry_modes, securing_entry. set (k := (method_name m, p)).
  enough (forall modes, foldl (remember_entry prefix) modes es !! k =
    match modes !! k with Some ms => Some ms | None => EntryDef_AuthModes <$> (snd <$> list_find (fun e => k ∈ secures prefix e) es) end) as H by (rewrite H; by rewrite lookup_empty).
  induction es as [|e es IH]; intros modes; [by cbn; destruct (modes !! k)|]. cbn [foldl list_find]. rewrite IH, remember_entry_lookup.
  destruct (modes !! k); [done|]. case_decide; [done|]. by destruct (list_find _ es) as [[]|].
Qed.

Lemma prune_operation d pats p m :
  operation (foldl pruneSpecPaths d pats) p m = if existsb (fun pat => pattern_matches pat p) pats then None else operation d p m.
Proof.
  revert d. induction pats as [|pat pats IH]; intros d; [done|]. cbn [foldl existsb]. rewrite IH. unfold operation. cbn.
  rewrite map_lookup_filter. destruct (pattern_matches pat p) eqn:E; cbn; [destruct (d_Paths d !! p); cbn; [|by case_match]; rewrite option_guard_False by congruence; by case_match|].
  destruct (existsb _ _); [done|]. destruct (d_Paths d !! p); [|done]. cbn. by rewrite option_guard_True by done.
Qed.

Lemma exclude_slot ex i m : (exclude_item ex i ≫= slot m) = (op ← slot m i; if operationHasTag ex op then None else Some op).
Proof.
  unfold exclude_item. set (i' := map_item _ i). assert (Hs : slot m i' = (op ← slot m i; if operationHasTag ex op then None else Some op)) by by destruct m.
  destruct (existsb _ methods) eqn:E; [done|]. rewrite <- Hs. cbn. destruct (slot m i') eqn:Es; [|done]. exfalso.
  assert (existsb (fun m => bool_decide (is_Some (slot m i'))) methods = true); [|congruence].
  apply existsb_exists. exists m. split; [destruct m; cbn; tauto|]. apply bool_decide_eq_true. by rewrite Es.
Qed.

Lemma exclusions_operation d cfg p m :
  operation (applySpecExclusions d cfg) p m =
  if excluded_path cfg p then None else op ← operation d p m; if excluded_operation cfg op then None else Some op.
Proof.
  unfold applySpecExclusions, excluded_path, excluded_operation. destruct (ServerConf_OpenAPI _) as [oai|]; [|by destruct (operation d p m)].
  set (d1 := foldl pruneSpecPaths d _).
  assert (Hp : operation d1 p m = if existsb (fun pat => pattern_matches pat p) (OpenAPIConf_ExcludePaths oai) then None else operation d p m)
    by apply prune_operation.
  assert (Hn : forall op, operationHasTag [] op = false).
  { intros op. unfold operationHasTag. induction (op_Tags op) as [|t ts IH]; [done|]. cbn. by rewrite IH. }
  enough (H : forall d2, operation d2 p m = (op ← operation d1 p m; if operationHasTag (OpenAPIConf_ExcludeTags oai) op then None else Some op) ->
    operation d2 p m = if existsb (fun pat => pattern_matches pat p) (OpenAPIConf_ExcludePaths oai) then None
      else op ← operation d p m; if operationHasTag (OpenAPIConf_ExcludeTags oai) op then None else Some op).
  { apply H. destruct (OpenAPIConf_ExcludeTags oai) as [|t ts].
    - destruct (operation d1 p m); [|done]. cbn. by rewrite Hn.
    - unfold operation. cbn [d_Paths upd]. cbn. rewrite lookup_omap. destruct (d_Paths d1 !! p) as [i|]; [|done]. apply exclude_slot. }
  intros d2 H2. rewrite H2, Hp. by destruct (existsb _ _).
Qed.

Lemma security_operation d es prefix p m :
  operation (applyEntrySecurity d es prefix) p m = stamp (entry_modes es prefix) p m <$> operation d p m.
Proof.
  unfold operation, applyEntrySecurity. cbn. rewrite map_lookup_imap. destruct (d_Paths d !! p) as [i|]; [|done]. cbn. by destruct m.
Qed.

Lemma document_ops (models : gmap string TableInfo) (fuel : nat) (cfg : ServiceConfig) (d : T) :
  BuildOpenAPI models fuel cfg = Some d ->
  let es := ServiceConfig_Entry cfg in
  let prefix := ServerConf_APIPrefix (ServiceConfig_Server cfg) in
  exists d0, add_entries models fuel (new_document cfg) es prefix = Some d0 /\
  forall p m,
    (is_Some (operation d0 p m) <->
     exists es1 e es2, es = es1 ++ e :: es2 /\ provides prefix e p m = true /\ forall e', e' ∈ es2 -> replaces prefix e' p = false) /\
    operation d p m =
      (if excluded_path cfg p then None
       else op ← operation d0 p m;
            if excluded_operation cfg op then None
            else Some (op <| op_Security := requirementForModes ∘ EntryDef_AuthModes <$> securing_entry prefix es p m |>)).
Proof.
  intros H es prefix. unfold BuildOpenAPI in H. apply bind_Some in H as (d0 & H0 & H). exists d0. split; [done|]. intros p m. split.
  - rewrite (add_entries_operations _ _ _ _ _ _ p m H0). split; [|by right]. intros [[[op Hop] _]|?]; [|done].
    unfold operation in Hop. cbn in Hop. by rewrite lookup_empty in Hop.
  - cbn zeta in H. simplify_eq. rewrite exclusions_operation. destruct (excluded_path cfg p); [done|].
    set (d1 := applyEntrySecurity d0 es prefix).
    assert (Hd1 : forall d2, d_Paths d2 = d_Paths d1 -> operation d2 p m = stamp (entry_modes es prefix) p m <$> operation d0 p m).
    { intros d2 E. unfold operation at 1. rewrite E. apply security_operation. }
    rewrite Hd1 by (by destruct (specServer cfg)). destruct (operation d0 p m) as [op|] eqn:Eop; [|done]. cbn.
    unfold stamp. rewrite entry_modes_lookup.
    apply (add_entries_document models) in H0; [|apply new_document_ok].
    destruct H0 as [_ Ho]. destruct (Ho _ _ _ Eop) as [_ Hsec].
    destruct (securing_entry prefix es p m) as [e|]; cbn; [done|]. replace (op <| op_Security := None |>) with op; [done|].
    destruct op; cbn in *; by subst.
Qed.

(** C21: The operations of the finished document are those that the entries which are not hidden
    provide, less the ones a GraphQL entry on the same path replaces, less the excluded
    paths and tags; each carries the requirement of the first entry of type rest,
    webhook or crud for its method and path, and none when there is no such entry (it
    then falls under the requirement of the whole document, also when it is public). *)
Theorem document_operations (models : gmap string TableInfo) (fuel : nat) (cfg : ServiceConfig) (d : T) :
  BuildOpenAPI models fuel cfg = Some d ->
  let es := ServiceConfig_Entry cfg in
  let prefix := ServerConf_APIPrefix (ServiceConfig_Server cfg) in
  exists d0, add_entries models fuel (new_document cfg) es prefix = Some d0 /\
  forall p m,
    (is_Some (operation d0 p m) <->
     exists es1 e es2, es = es1 ++ e :: es2 /\ provides prefix e p m = true /\ forall e', e' ∈ es2 -> replaces prefix e' p = false) /\
    operation d p m =
      (if excluded_path cfg p then None
       else op ← operation d0 p m;
            if excluded_operation cfg op then None
            else Some (op <| op_Security := requirementForModes ∘ EntryDef_AuthModes <$> securing_entry prefix es p m |>)).
Proof. apply document_ops. Qed.

(** ** Every name in the document is defined *)

Lemma exclusions_rest d cfg :
  d_Schemas (applySpecExclusions d cfg) = d_Schemas d /\ d_SecuritySchemes (applySpecExclusions d cfg) = d_SecuritySchemes d /\
  d_Security (applySpecExclusions d cfg) = d_Security d.
Proof.
  unfold applySpecExclusions. destruct (ServerConf_OpenAPI _) as [oai|]; [|done].
  assert (H : forall pats d, d_Schemas (foldl pruneSpecPaths d pats) = d_Schemas d /\
    d_SecuritySchemes (foldl pruneSpecPaths d pats) = d_SecuritySchemes d /\ d_Security (foldl pruneSpecPaths d pats) = d_Security d).
  { induction pats as [|pat pats IH]; intros d'; [done|]. cbn. destruct (IH (pruneSpecPaths d' pat)) as (-> & -> & ->). done. }
  destruct (OpenAPIConf_ExcludeTags oai); apply H.
Qed.

Lemma has_modes_elem es e mode : e ∈ es -> EntryDef_Hidden e = false -> mode ∈ EntryDef_AuthModes e -> mode ∈ has_modes es.
Proof.
  induction es as [|e' es IH]; intros He Hh Hm; [by apply elem_of_nil in He|]. cbn.
  apply elem_of_cons in He as [<-|He]; [rewrite Hh; set_solver|]. destruct (EntryDef_Hidden e'); set_solver.
Qed.

Lemma schemes_defined es cookie modes s :
  (forall mode, mode ∈ modes -> mode ∈ has_modes es) -> s ∈ (requirementForModes modes).*1 -> is_Some (buildSecuritySchemes es cookie !! s).
Proof.
  intros Hsub Hs. unfold requirementForModes in Hs. rewrite <- list_fmap_compose in Hs.
  apply list_elem_of_fmap in Hs as ([mode name] & -> & Hin). apply list_elem_of_filter in Hin as [Hm%Hsub Hin]. cbn in Hm |- *.
  unfold buildSecuritySchemes, scheme_if. repeat (apply elem_of_cons in Hin as [Hin|Hin]; [simplify_eq|]); [..|by apply elem_of_nil in Hin].
  all: rewrite (bool_decide_eq_true_2 _ Hm); repeat (destruct (bool_decide _); [try (by rewrite lookup_insert_eq); rewrite lookup_insert_ne by done|]); try (by rewrite lookup_insert_eq).
Qed.

Lemma securing_visible prefix es p m e : securing_entry prefix es p m = Some e -> e ∈ es /\ EntryDef_Hidden e = false.
Proof.
  unfold securing_entry. destruct (list_find _ es) as [[i e']|] eqn:E; [|done]. intros [= <-].
  apply list_find_Some in E as (Hl & Hk & _). split; [by eapply list_elem_of_lookup_2|].
  unfold secures in Hk. destruct (EntryDef_Hidden e'); [by apply elem_of_nil in Hk|done].
Qed.

(** A document that is built is closed: every reference in its components and operations is
    to a component it defines, and every security scheme named by a requirement, of the
    document or of an operation, is defined. *)
Theorem document_closed (models : gmap string TableInfo) (fuel : nat) (cfg : ServiceConfig) (d : T) :
  BuildOpenAPI models fuel cfg = Some d ->
  components_ok (d_Schemas d) /\
  (forall p m op, operation d p m = Some op ->
     references_ok (d_Schemas d) op /\
     forall reqs s, op_Security op = Some reqs -> s ∈ reqs.*1 -> is_Some (d_SecuritySchemes d !! s)) /\
  forall s, s ∈ (d_Security d).*1 -> is_Some (d_SecuritySchemes d !! s).
Proof.
  intros H. destruct (document_ops _ _ _ _ H) as (d0 & H0 & Hops). unfold BuildOpenAPI in H. rewrite H0 in H. cbn in H.
  apply (add_entries_document models) in H0 as [Hc Ho]; [|apply new_document_ok].
  set (es := ServiceConfig_Entry cfg) in *.
  assert (d_Schemas d = d_Schemas d0 /\ d_SecuritySchemes d = buildSecuritySchemes es (session_cookie cfg) /\ d_Security d = securityRequirements es)
    as (-> & -> & ->).
  { simplify_eq. destruct (exclusions_rest (match specServer cfg with
      | Some s => (applyEntrySecurity d0 es (ServerConf_APIPrefix (ServiceConfig_Server cfg))) <| d_Security := securityRequirements es |>
          <| d_SecuritySchemes := buildSecuritySchemes es (session_cookie cfg) |> <| d_Servers := [s] |>
      | None => (applyEntrySecurity d0 es (ServerConf_APIPrefix (ServiceConfig_Server cfg))) <| d_Security := securityRequirements es |>
          <| d_SecuritySchemes := buildSecuritySchemes es (session_cookie cfg) |>
      end) cfg) as (E1 & E2 & E3). rewrite E1, E2, E3. by destruct (specServer cfg). }
  split; [done|]. split.
  - intros p m op Hop. rewrite (proj2 (Hops p m)) in Hop. destruct (excluded_path cfg p); [done|].
    apply bind_Some in Hop as (op0 & E0 & Hop). destruct (excluded_operation cfg op0); [done|]. simplify_eq.
    destruct (Ho _ _ _ E0) as [Hr _]. split; [exact Hr|]. intros reqs s Hreq Hs. cbn in Hreq.
    destruct (securing_entry _ es p m) as [e|] eqn:Ee; [|done]. cbn in Hreq. simplify_eq.
    apply securing_visible in Ee as [He Hh]. eapply schemes_defined; [|exact Hs]. intros mode Hm. by eapply has_modes_elem.
  - intros s Hs. unfold securityRequirements in Hs. case_decide; [by apply elem_of_nil in Hs|].
    eapply schemes_defined; [|done]. intros mode. by rewrite elem_of_elements.
Qed.

(** ** Examples *)

Definition demo_entry (type method_ path handler : string) : EntryDef :=
  (ConfigTypes.zero : EntryDef) <| EntryDef_Type := type |> <| EntryDef_Method := method_ |> <| EntryDef_Path := path |> <| EntryDef_Handler := handler |>.

Definition demo_config (es : list EntryDef) : ServiceConfig :=
  (ConfigTypes.zero : ServiceConfig) <| ServiceConfig_Name := "demo" |> <| ServiceConfig_Entry := es |>.

Definition demo_field (name : string) (t : goType) : FieldInfo := mkFieldInfo name name false false false "" false false false t "" "" "".

(** Orders have items; a node has children that are nodes. *)
Definition demo_models : gmap string TableInfo :=
  <["Order" := mkTableInfo [demo_field "id" (TInt Int64); demo_field "items" (TSlice (TPtr (TStruct "models.Item" "Item")))] "id"]>
  (<["Item" := mkTableInfo [demo_field "price" TFloat64] "id"]>
  {["Node" := mkTableInfo [demo_field "children" (TSlice (TStruct "models.Node" "Node"))] "id"]}).

Definition demo_crud (model : string) : EntryDef := (demo_entry "crud" "" "" "") <| EntryDef_Model := model |> <| EntryDef_Resource := "orders" |>.

Lemma BuildOpenAPI_returns_iff_witness :
  is_Some (BuildOpenAPI demo_models 4 (demo_config [demo_crud "Order"])) /\
  forall fuel, BuildOpenAPI demo_models fuel (demo_config [demo_crud "Node"]) = None.
Proof.
  split.
  - apply (BuildOpenAPI_returns_iff demo_models (demo_config [demo_crud "Order"])).
    apply (proj2 (BuildOpenAPI_returns_iff demo_models (demo_config [demo_crud "Order"])) 2%nat).
    refine (bool_decide_unpack _ _). vm_compute. exact I.
  - intros fuel. destruct (BuildOpenAPI demo_models fuel _) as [d|] eqn:E; [exfalso|reflexivity].
    assert (H : Forall (acyclic demo_models) ["Node"]).
    { apply (proj2 (BuildOpenAPI_returns_iff demo_models (demo_config [demo_crud "Node"])) fuel). rewrite E. eexists. reflexivity. }
    apply (acyclic_irrefl demo_models "Node" (proj1 (Forall_singleton _ _) H)). apply tc_once.
    eexists. split; [reflexivity|]. eexists. split; [left|]. split; [reflexivity|left].
Defined.

Definition demo_document (es : list EntryDef) : T := default (new_document ConfigTypes.zero) (BuildOpenAPI ∅ 1 (demo_config es)).

Definition demo_public : EntryDef := demo_entry "sse" "" "/feed" "feed".
Definition demo_private : EntryDef := (demo_entry "rest" "GET" "/orders" "listOrders") <| EntryDef_AuthModes := ["jwt"] |>.

Lemma document_operations_witness :
  exists op, operation (demo_document [demo_private; demo_public]) "/orders" GET = Some op /\ op_Security op = Some [("bearerAuth", [])].
Proof.
  destruct (document_operations ∅ 1 (demo_config [demo_private; demo_public]) (demo_document [demo_private; demo_public])) as (d0 & E0 & H);
    [vm_compute; reflexivity|].
  rewrite (proj2 (H "/orders" GET)). vm_compute in E0. injection E0 as <-. eexists. split; vm_compute; reflexivity.
Defined.

Lemma document_closed_witness : is_Some (d_SecuritySchemes (demo_document [demo_private; demo_public]) !! "bearerAuth").
Proof.
  destruct (document_closed ∅ 1 (demo_config [demo_private; demo_public]) (demo_document [demo_private; demo_public])) as (_ & _ & H);
    [vm_compute; reflexivity|].
  apply H. vm_compute. left.
Defined.

Definition demo_post : EntryDef := (demo_entry "rest" "POST" "/orders" "createOrder") <| EntryDef_Responses := <["200" := ""]> {["404" := "gone"]} |>.

(** The declared 200 has the schema, and there is no 201. *)
Lemma responses_documented_witness :
  let s := Some (mkSchemaRef (component "Item") None) in
  exists rs, operationResponses ∅ 1 demo_post s ∅ = Some (rs, ∅) /\
  (rs_Content <$> rs !! "200", rs_Content <$> rs !! "201", rs_Content <$> rs !! "404") = (Some s, None, Some None).
Proof.
  intros s. eexists. split; [reflexivity|].
  destruct (responses_documented ∅ 1 demo_post s ∅ _ ∅ eq_refl) as (err & He & _ & H). rewrite !H. injection He as <-. vm_compute. reflexivity.
Defined.

(** Three places where the document does not say what the comments promise.  A GraphQL entry
    removes the operations documented before on its path.  A public route that is not a rest,
    webhook or crud entry has no requirement of its own, and so inherits that of the
    document.  Where a crud entry and a rest entry share a path, the operation is that of
    the last one and the requirement that of the first. *)
Theorem document_gaps :
  operation (demo_document [demo_private]) "/orders" GET <> None /\
  operation (demo_document [demo_private; demo_entry "graphql" "POST" "/orders" "query"]) "/orders" GET = None /\
  (op_Security <$> operation (demo_document [demo_private; demo_public]) "/feed" GET = Some None /\
   d_Security (demo_document [demo_private; demo_public]) = [("bearerAuth", [])]) /\
  (fun op => (op_OperationID op, op_Security op)) <$> operation (demo_document [demo_crud "Order"; demo_private]) "/orders" GET =
    Some ("listOrders", Some []).
Proof. split; [intros H; vm_compute in H; discriminate|]. split; [vm_compute; reflexivity|]. split; [split; vm_compute; reflexivity|vm_compute; reflexivity]. Qed.
