(* ===== verification/ErrorHandler.v ===== *)
(** * Errors of the API (runtime/errcode/errcode.go; [errorHandler] of server/server.go)

    An error is what the handler reads of it: the status and message of the fiber error in its
    chain, the code and the public message of the oops error in its chain.  Both libraries
    find the value through the chain, so it is a field here.  The code of an oops error is any
    value; one that is no string makes the handler's type assertion panic. *)

From S2P Require Import Prelude GoStrings SqlModel.
From S2P Require OpenApi.
From Stdlib Require Import Ascii.

#[local] Open Scope string_scope.
#[local] Open Scope Z_scope.

Notation ErrCodeNotFound := "ERR_NOT_FOUND".
Notation ErrCodeValidation := "ERR_VALIDATION".
Notation ErrCodeUnauthorized := "ERR_UNAUTHORIZED".
Notation ErrCodeForbidden := "ERR_FORBIDDEN".
Notation ErrCodeRateLimited := "ERR_RATE_LIMITED".
Notation ErrCodeTimeout := "ERR_TIMEOUT".
Notation ErrCodeDBConnection := "ERR_DB_CONNECTION".
Notation ErrCodeDBQuery := "ERR_DB_QUERY".
Notation ErrCodeNATS := "ERR_NATS".
Notation ErrCodeInternal := "ERR_INTERNAL".

Inductive oops_code := NoCode | CodeString (s : string) | CodeOther.
Record fiber_error : Type := mkFiberError { fe_Code : Z; fe_Message : string }.
Record oops_error : Type := mkOops { oo_Code : oops_code; oo_Public : string }.
Record go_error : Type := mkError { ge_fiber : option fiber_error; ge_oops : option oops_error }.

(** ** errcode *)

Definition joinErr (status : Z) (msg : string) (code public : string) : go_error :=
  mkError (Some (mkFiberError status msg)) (Some (mkOops (CodeString code) public)).

Definition errCodeFromStatus (status : Z) : string :=
  match status with
  | 404 => ErrCodeNotFound
  | 400 => ErrCodeValidation
  | 401 => ErrCodeUnauthorized
  | 403 => ErrCodeForbidden
  | 429 => ErrCodeRateLimited
  | 504 => ErrCodeTimeout
  | _ => ErrCodeInternal
  end.

Definition ErrStatus (status : Z) (msg : string) : go_error := joinErr status msg (errCodeFromStatus status) msg.
Definition ErrNotFound : go_error := joinErr 404 "resource not found" ErrCodeNotFound "resource not found".
Definition ErrValidation : go_error := joinErr 400 "Validation failed" ErrCodeValidation "Validation failed".
Definition ErrUnauthorized (reason : string) : go_error := joinErr 401 reason ErrCodeUnauthorized reason.
Definition ErrForbidden : go_error := joinErr 403 "Access denied" ErrCodeForbidden "Access denied".
Definition ErrRateLimited : go_error := joinErr 429 "Too many requests" ErrCodeRateLimited "Too many requests".
Definition ErrTimeout : go_error := joinErr 504 "Operation timed out" ErrCodeTimeout "Operation timed out".

(** [wrap_code code inner] is what [Code] of the oops library answers for a builder with the
    code that wraps [inner]. *)
Section wrap.
Context (wrap_code : string -> go_error -> oops_code).

Definition wrapErr (status : Z) (msg code : string) (inner : go_error) : go_error :=
  mkError (Some (mkFiberError status msg)) (Some (mkOops (wrap_code code inner) msg)).
Definition ErrDBQuery : go_error -> go_error := wrapErr 500 "Database operation failed" ErrCodeDBQuery.
Definition ErrDBConnection : go_error -> go_error := wrapErr 500 "Database connection failed" ErrCodeDBConnection.
Definition ErrNATSPublish : go_error -> go_error := wrapErr 500 "Message publishing failed" ErrCodeNATS.
Definition ErrInternal : go_error -> go_error := wrapErr 500 "internal server error" ErrCodeInternal.
End wrap.

(** ** The error handler *)

Record Problem : Type := mkProblem { p_Type : string; p_Title : string; p_Status : Z; p_Detail : string; p_Instance : string; p_Code : string }.

Definition oopsCodeToHTTP (codeStr : string) : Z :=
  if (codeStr =? ErrCodeNotFound)%string then 404
  else if (codeStr =? ErrCodeValidation)%string then 400
  else if (codeStr =? ErrCodeUnauthorized)%string then 401
  else if (codeStr =? ErrCodeForbidden)%string then 403
  else if (codeStr =? ErrCodeRateLimited)%string then 429
  else if (codeStr =? ErrCodeTimeout)%string then 504
  else 500.

(** [strings.TrimRight(s, "/")]. *)
Fixpoint TrimRight_slash (s : string) : string :=
  match s with
  | EmptyString => ""
  | String c s => match TrimRight_slash s with EmptyString => if Ascii.eqb c "/" then "" else String c "" | t => String c t end
  end.

Definition problemType (base code : string) : string :=
  if (base =? "")%string then "about:blank"
  else TrimRight_slash base ++ "/" ++ str_map (fun c => if Ascii.eqb c "_" then "-"%char else c) (ToLower code).

Definition statusTitle (code : Z) : string :=
  let t := OpenApi.StatusText code in if (t =? "")%string then "Request failed" else t.

(** The document written, [Kept] when the handler already answered. *)
Inductive handled_error := Kept | Written (doc : Problem) | Panics.

Definition errorHandler (problemBase : string) (written : bool) (path : string) (err : go_error) : handled_error :=
  if written then Kept
  else
    let '(code, message) := match ge_fiber err with Some fe => (fe_Code fe, fe_Message fe) | None => (500, "internal server error") end in
    let finish code errCode message :=
      let message := if 500 <=? code then "internal server error" else message in
      Written (mkProblem (problemType problemBase errCode) (statusTitle code) code message path errCode) in
    match ge_oops err with
    | None => finish code ErrCodeInternal message
    | Some oo =>
        let public code := if negb (oo_Public oo =? "")%string && (code <? 500) then oo_Public oo else message in
        match oo_Code oo with
        | CodeOther => Panics
        | NoCode => finish code ErrCodeInternal (public code)
        | CodeString errCode =>
            let code := if 500 <=? code then oopsCodeToHTTP errCode else code in
            finish code errCode (public code)
        end
    end.

(** What a client sees of an error.  An answer already written is kept.  Otherwise the
    problem document repeats its own status; from 500 on its detail is the generic message
    whatever the error says; below 500 the detail is, unchanged, the public message of the
    error or else the message of its fiber error. *)
Theorem errors_sanitized (base path : string) (err : go_error) :
  errorHandler base true path err = Kept /\
  (forall doc, errorHandler base false path err = Written doc ->
     p_Instance doc = path /\
     (500 <= p_Status doc -> p_Detail doc = "internal server error") /\
     (p_Status doc < 500 ->
        (exists fe, ge_fiber err = Some fe /\ p_Status doc = fe_Code fe /\ fe_Code fe < 500 /\
           p_Detail doc = match ge_oops err with Some oo => if (oo_Public oo =? "")%string then fe_Message fe else oo_Public oo | None => fe_Message fe end) \/
        (exists oo c, ge_oops err = Some oo /\ oo_Code oo = CodeString c /\ p_Status doc = oopsCodeToHTTP c))) /\
  (errorHandler base false path err = Panics <-> exists oo, ge_oops err = Some oo /\ oo_Code oo = CodeOther).
Proof.
  split; [done|]. unfold errorHandler. destruct err as [fe oo]. cbn [ge_fiber ge_oops]. split.
  - intros doc. destruct oo as [[[|c|] public]|]; cbn [oo_Code oo_Public].
    + destruct fe as [[code msg]|]; cbn; intros [= <-]; cbn; (split; [done|]).
      * destruct (Z.leb_spec 500 code); split; try lia; [done|]. intros _. left. eexists. split; [done|]. cbn. split; [done|split; [done|]].
        rewrite (proj2 (Z.ltb_lt _ _)) by done. rewrite andb_true_r. by destruct (public =? "")%string.
      * split; [done|]. lia.
    + destruct fe as [[code msg]|]; cbn -[oopsCodeToHTTP]; intros [= <-]; cbn -[oopsCodeToHTTP]; (split; [done|]).
      * destruct (Z.leb_spec 500 code).
        -- split; [by intros ->%Z.leb_le|]. intros _. right. by eexists _, c.
        -- split; [lia|]. intros _. left. eexists. split; [done|]. cbn. split; [done|split; [done|]].
           rewrite (proj2 (Z.leb_gt _ _)), (proj2 (Z.ltb_lt _ _)) by done. rewrite andb_true_r. by destruct (public =? "")%string.
      * split; [by intros ->%Z.leb_le|]. intros _. right. by eexists _, c.
    + by destruct fe as [[code msg]|].
    + destruct fe as [[code msg]|]; cbn; intros [= <-]; cbn; (split; [done|]).
      * destruct (Z.leb_spec 500 code); split; try lia; [done|]. intros _. left. eexists. split; [done|]. cbn. done.
      * split; [done|]. lia.
  - split.
    + destruct oo as [[[|c|] public]|]; cbn; destruct fe as [[code msg]|]; intros H; try discriminate; by eexists.
    + intros (o & -> & Ho). rewrite Ho. by destruct fe as [[code msg]|].
Qed.

Lemma errors_sanitized_witness :
  p_Detail (mkProblem "about:blank" "Internal Server Error" 500 "internal server error" "/api/x" ErrCodeInternal) = "internal server error" /\
  errorHandler "" false "/api/x" (mkError (Some (mkFiberError 500 "dial tcp 198.51.100.5:5432: timeout")) None)
    = Written (mkProblem "about:blank" "Internal Server Error" 500 "internal server error" "/api/x" ErrCodeInternal).
Proof.
  destruct (errors_sanitized "" "/api/x" (mkError (Some (mkFiberError 500 "dial tcp 198.51.100.5:5432: timeout")) None)) as (_ & H & _).
  destruct (H _ eq_refl) as (_ & H5 & _). split; [exact (H5 ltac:(cbn; lia))|reflexivity].
Defined.

(** The errors of the API keep their status and code below 500, with the code of the table;
    from 500 on only a timeout does: [ErrStatus] with 501, 502 or 503 is answered as a 500.
    Statuses outside the table (409, 413, 415) are answered with the code of an internal
    error; and nothing is redacted from the message of a client error. *)
Theorem errcode_answers (wrap_code : string -> go_error -> oops_code) (inner : go_error) (path msg : string) :
  (forall code, wrap_code code inner = CodeString code) ->
  (forall status, status < 500 -> errorHandler "" false path (ErrStatus status msg) =
     Written (mkProblem "about:blank" (statusTitle status) status msg path (errCodeFromStatus status))) /\
  (forall status, 500 <= status -> exists doc, errorHandler "" false path (ErrStatus status msg) = Written doc /\
     p_Status doc = (if decide (status = 504) then 504 else 500)) /\
  Forall (fun e : go_error * (Z * string) => exists doc, errorHandler "" false path e.1 = Written doc /\ p_Status doc = e.2.1 /\ p_Code doc = e.2.2)
    [(ErrNotFound, (404, ErrCodeNotFound)); (ErrValidation, (400, ErrCodeValidation)); (ErrUnauthorized msg, (401, ErrCodeUnauthorized));
     (ErrForbidden, (403, ErrCodeForbidden)); (ErrRateLimited, (429, ErrCodeRateLimited)); (ErrTimeout, (504, ErrCodeTimeout));
     (ErrDBQuery wrap_code inner, (500, ErrCodeDBQuery)); (ErrDBConnection wrap_code inner, (500, ErrCodeDBConnection));
     (ErrNATSPublish wrap_code inner, (500, ErrCodeNATS)); (ErrInternal wrap_code inner, (500, ErrCodeInternal));
     (ErrStatus 413 "x", (413, ErrCodeInternal)); (ErrStatus 409 "x", (409, ErrCodeInternal))] /\
  errorHandler "" false path (ErrStatus 400 "dial tcp 198.51.100.5:5432: timeout") =
    Written (mkProblem "about:blank" "Bad Request" 400 "dial tcp 198.51.100.5:5432: timeout" path ErrCodeValidation).
Proof.
  intros Hwrap. split; [|split; [|split; [|done]]].
  - intros status Hs. unfold errorHandler, ErrStatus, joinErr. cbn [ge_fiber ge_oops oo_Code oo_Public fe_Code fe_Message].
    rewrite (proj2 (Z.leb_gt 500 status)) by done. rewrite (proj2 (Z.ltb_lt _ _)) by done. rewrite (proj2 (Z.leb_gt 500 status)) by done.
    by destruct (negb (msg =? "")%string).
  - intros status Hs. unfold errorHandler, ErrStatus, joinErr. cbn [ge_fiber ge_oops oo_Code oo_Public fe_Code fe_Message].
    rewrite (proj2 (Z.leb_le 500 status)) by done. eexists. split; [reflexivity|]. cbn [p_Status].
    destruct (decide (status = 504)) as [->|Hne]; [done|].
    assert (E : errCodeFromStatus status = ErrCodeInternal); [|by rewrite E].
    unfold errCodeFromStatus. destruct status as [|p|p]; try lia. repeat (destruct p as [p|p|]; try done; try lia).
  - repeat constructor; unfold errorHandler; cbn; rewrite ?Hwrap; eexists; done.
Qed.

Lemma errcode_answers_witness :
  errorHandler "" false "/f" (ErrStatus 413 "too big") = Written (mkProblem "about:blank" (statusTitle 413) 413 "too big" "/f" "ERR_INTERNAL") /\
  exists doc, errorHandler "" false "/f" (ErrStatus 503 "busy") = Written doc /\ p_Status doc = 500.
Proof.
  destruct (errcode_answers (fun code _ => CodeString code) (mkError None None) "/f" "too big" (fun _ => eq_refl)) as (H & _).
  destruct (errcode_answers (fun code _ => CodeString code) (mkError None None) "/f" "busy" (fun _ => eq_refl)) as (_ & H' & _).
  split; [exact (H 413 ltac:(lia))|exact (H' 503 ltac:(lia))].
Defined.
