(* ===== verification/ServerSetup.v ===== *)
(** * The server a service sets up (runtime/service.go: [initServer] and the conversions it
    calls; server/server.go: [New] and the middlewares it registers; server/tls.go:
    [listenTLS]; server/middleware/cors.go)

    The application is the list of what is registered, in order.  A middleware that skips a
    request carries the test it applies to the path.  Configuration pointers are [option]s;
    [collectCSRFExclusions] appends to the configuration the service and the server share, so
    it is a step on that value.  [ParseDuration] is [time.ParseDuration] in nanoseconds. *)

From S2P Require Import Prelude GoStrings Float64 SqlModel ConfigTypes Http Guards.
From S2P Require RateLimit Ssrf AsyncJob EntryAuth.
From Stdlib Require Import Ascii.

#[local] Open Scope string_scope.
#[local] Open Scope list_scope.
#[local] Open Scope Z_scope.

(** ** Configuration of the server package *)

Record RouteConfig : Type := mkRoute { rc_Path : string; rc_Middleware : list string }.

Notation origin_test := (option (string -> bool)).

Record CORSGroup : Type := mkCORSGroup {
  cg_Name : string; cg_PathPrefix : string; cg_Origins : list string; cg_Methods : list string; cg_Headers : list string;
  cg_Credentials : bool; cg_MaxAge : Z; cg_ExposeHeaders : list string; cg_AllowPrivateNetwork : bool; cg_AllowOriginsFunc : origin_test }.

Record CORSConfig : Type := mkCORS {
  cc_Origins : list string; cc_Methods : list string; cc_Headers : list string; cc_Credentials : bool; cc_MaxAge : Z;
  cc_ExposeHeaders : list string; cc_AllowPrivateNetwork : bool; cc_AllowOriginsFunc : origin_test; cc_Groups : list CORSGroup }.

Record CSPGroup : Type := mkCSPGroup { pg_Name : string; pg_PathPrefix : string; pg_CSP : option CSPConfig }.

Record TLSConfig : Type := mkTLS {
  tls_Enabled : bool; tls_Manual : option ManualTLS; tls_Autocert : option AutocertTLS; tls_MinVersion : string; tls_MaxVersion : string;
  tls_CurvePrefs : list string; tls_CipherSuites : list string; tls_RedirectHTTP : bool; tls_RedirectPort : Z }.

(** [middleware.RateLimitConfig] with the algorithm as written. *)
Record RateLimitMW : Type := mkRateLimitMW {
  rl_Algorithm : string; rl_TTL : Z; rl_SkipFailed : bool; rl_SkipSuccessful : bool;
  rl_Global : option RateLimit.RateLimitEntry; rl_PerIP : option RateLimit.RateLimitEntry }.

Record Config : Type := mkConfig {
  c_Port : Z; c_Host : string; c_Prefork : bool; c_BodyLimit : Z; c_Timeout : Z; c_ReadTimeout : Z; c_WriteTimeout : Z; c_IdleTimeout : Z;
  c_MaxConns : Z; c_MaxBytes : Z; c_MetricsPath : string; c_HealthPath : string; c_HealthEnabled : bool;
  c_StartupPath : string; c_ReadinessPath : string; c_LivenessPath : string; c_StartupEnabled : bool; c_ReadinessEnabled : bool; c_LivenessEnabled : bool;
  c_ShutdownTimeout : Z; c_RecoverStack : bool; c_APIPrefix : string; c_Routes : list RouteConfig; c_ProblemTypeBase : string;
  c_TrustedProxies : list string; c_Logger : bool; c_LoadShedding : bool; c_Breaker : bool; c_Compression : bool; c_StreamRequestBody : bool;
  c_ReduceMemoryUsage : bool; c_SecurityHeaders : option SecurityHeadersConfig; c_CSRF : option CSRFConfig; c_RateLimit : option RateLimitMW;
  c_TLS : option TLSConfig; c_SSRF : option Ssrf.SSRFConfig; c_CSPGroups : list CSPGroup; c_Correlation : option CorrelationConf;
  c_LogSkipPaths : list string; c_LogSampleRate : float64 }.

Record SecurityConfig : Type := mkSecurity {
  s_ContentSecurity : option ContentSecurityDef; s_Cryption : option CryptionDef; s_EncryptCookie : option EncryptCookieDef }.

(** ** Conversions (runtime/service.go) *)

Section convert.
Context (ParseDuration : string -> option Z).

Notation parseDurationDef := (AsyncJob.parseDurationDef ParseDuration).
Notation parseServerDuration := (EntryAuth.parseServerDuration ParseDuration).

Definition csp_config (c : CSPConf) : CSPConfig :=
  mkCSP (CSPConf_Level c) (CSPConf_DefaultSrc c) (CSPConf_ScriptSrc c) (CSPConf_StyleSrc c) (CSPConf_ImgSrc c) (CSPConf_ConnectSrc c)
    (CSPConf_FontSrc c) (CSPConf_FrameSrc c) (CSPConf_FrameAncestors c) (CSPConf_ObjectSrc c) (CSPConf_BaseURI c) (CSPConf_FormAction c)
    (CSPConf_UpgradeInsecureReq c).

Definition convertSecurityHeaders (cfg : option SecurityHeadersConf) : option SecurityHeadersConfig :=
  (fun cfg =>
     let csp := match SecurityHeadersConf_CSPConfig cfg with Some c => BuildCSP (csp_config c) | None => SecurityHeadersConf_CSP cfg end in
     mkSecurityHeaders (SecurityHeadersConf_FrameOptions cfg) (SecurityHeadersConf_ReferrerPolicy cfg) (SecurityHeadersConf_PermissionsPolicy cfg)
       (SecurityHeadersConf_HSTS cfg) (SecurityHeadersConf_HSTSMaxAge cfg) (SecurityHeadersConf_HSTSIncludeSubs cfg) csp
       (SecurityHeadersConf_COOP cfg) (SecurityHeadersConf_COEP cfg) (SecurityHeadersConf_CORP cfg) (SecurityHeadersConf_CacheControl cfg)) <$> cfg.

(** The prefix of a named group: the first middleware path that applies it, else the path of
    the first entry that names it, with the prefix of the API in front. *)
Definition group_prefix (kind : string) (entry_group : EntryDef -> string) (name : string) (cfg : ServiceConfig) : string :=
  match head (filter (fun mw => (kind ++ name)%string ∈ RouteMW_Apply mw) (ServerConf_Middleware (ServiceConfig_Server cfg))) with
  | Some mw => RouteMW_Path mw
  | None =>
      let prefix := ServerConf_APIPrefix (ServiceConfig_Server cfg) in
      match head (filter (fun e => entry_group e = name /\ EntryDef_Path e <> "") (ServiceConfig_Entry cfg)) with
      | Some e =>
          let p := EntryDef_Path e in
          if negb (prefix =? "")%string && negb (HasPrefix p prefix) then (prefix ++ p)%string else p
      | None => ""
      end
  end.
Definition corsGroupPathPrefix : string -> ServiceConfig -> string := group_prefix "cors:" EntryDef_CORS.
Definition cspGroupPathPrefix : string -> ServiceConfig -> string := group_prefix "csp:" EntryDef_CSP.

Definition convertCSPGroups (sc : ServerConf) (cfg : ServiceConfig) : list CSPGroup :=
  (fun g => mkCSPGroup (CSPGroupConf_Name g) (cspGroupPathPrefix (CSPGroupConf_Name g) cfg) (csp_config <$> CSPGroupConf_CSPConfig g)) <$> ServerConf_CSPGroups sc.

Definition convertCSRF (cfg : option CSRFConf) (cookieCfg : option CookieConf) : option CSRFConfig :=
  match cfg with
  | Some cfg =>
      if negb (CSRFConf_Enabled cfg) then None
      else
        let sameSite := if (CSRFConf_SameSite cfg =? "")%string then match cookieCfg with Some k => CookieConf_SameSite k | None => "" end else CSRFConf_SameSite cfg in
        let secure := if CSRFConf_Secure cfg then true else match cookieCfg with Some k => CookieConf_Secure k | None => false end in
        Some (mkCSRF (CSRFConf_Enabled cfg) (CSRFConf_CookieName cfg) (CSRFConf_HeaderName cfg) sameSite secure (CSRFConf_ExcludePaths cfg) (CSRFConf_JSONCheck cfg))
  | None => None
  end.

Definition limit_entry (d : RateLimitDef) : RateLimit.RateLimitEntry :=
  RateLimit.mkRateLimitEntry (RateLimitDef_RequestsPerSecond d) (RateLimitDef_Burst d) (parseDurationDef (RateLimitDef_TTL d)).

Definition convertRateLimit (cfg : option RateLimitConf) : option RateLimitMW :=
  match cfg with
  | Some cfg =>
      if negb (RateLimitConf_Enabled cfg) then None
      else Some (mkRateLimitMW (RateLimitConf_Algorithm cfg) (parseDurationDef (RateLimitConf_TTL cfg)) (RateLimitConf_SkipFailedRequests cfg)
                   (RateLimitConf_SkipSuccessfulRequests cfg) (limit_entry <$> RateLimitConf_Global cfg) (limit_entry <$> RateLimitConf_PerIP cfg))
  | None => None
  end.

Definition convertCorrelation (cfg : option CorrelationConf) : option CorrelationConf :=
  match cfg with Some cfg => if CorrelationConf_Enabled cfg then Some cfg else None | None => None end.

Definition convertSSRF (cfg : option SSRFConf) : option Ssrf.SSRFConfig :=
  match cfg with
  | Some cfg =>
      if negb (SSRFConf_Enabled cfg) then None
      else Some (Ssrf.mkSSRFConfig (SSRFConf_Enabled cfg) (SSRFConf_BlockPrivate cfg) (SSRFConf_BlockLoopback cfg) (SSRFConf_BlockMetadata cfg) (SSRFConf_AllowedHosts cfg) false)
  | None => None
  end.

Definition convertTLS (cfg : option TLSConf) : option TLSConfig :=
  match cfg with
  | Some cfg =>
      if negb (TLSConf_Enabled cfg) then None
      else Some (mkTLS (TLSConf_Enabled cfg) (TLSConf_Manual cfg) (TLSConf_Autocert cfg) (TLSConf_MinVersion cfg) (TLSConf_MaxVersion cfg)
                   (TLSConf_CurvePrefs cfg) (TLSConf_CipherSuites cfg) (TLSConf_RedirectHTTP cfg) (TLSConf_RedirectPort cfg))
  | None => None
  end.

(** The zero configuration of a service without telemetry is not enabled. *)
Definition convertTelemetry (cfg : option TelemetryConf) : TelemetryConf :=
  match cfg with Some cfg => if TelemetryConf_Enabled cfg then cfg else ConfigTypes.zero | None => ConfigTypes.zero end.

Definition enabled {A} (on : A -> bool) (x : option A) : option A := match x with Some a => if on a then Some a else None | None => None end.

Definition securityConfig (sc : ServerConf) : SecurityConfig :=
  match ServerConf_Security sc with
  | Some s =>
      mkSecurity (enabled ContentSecurityDef_Enabled (SecurityDef_ContentSecurity s)) (enabled CryptionDef_Enabled (SecurityDef_Cryption s))
        (enabled EncryptCookieDef_Enabled (SecurityDef_EncryptCookie s))
  | None => mkSecurity None None None
  end.

Definition buildRouteConfigs (middlewares : list RouteMW) : list RouteConfig :=
  (fun mw => mkRoute (RouteMW_Path mw) (RouteMW_Apply mw)) <$> middlewares.

(** The server's configuration is passed by value: what is appended goes to the [CSRFConf] both
    share, and a new one made for a server without is lost. *)
Definition collectCSRFExclusions (entries : list EntryDef) (csrf : option CSRFConf) : option CSRFConf :=
  (fun c => mkCSRFConf (CSRFConf_Enabled c) (CSRFConf_CookieName c) (CSRFConf_HeaderName c) (CSRFConf_SameSite c) (CSRFConf_Secure c)
     (CSRFConf_ExcludePaths c ++ (EntryDef_Path <$> filter (fun e => EntryDef_CSRF e = Some false) entries)) (CSRFConf_JSONCheck c)) <$> csrf.

Definition cors_group (cfg : ServiceConfig) (g : CORSGroupConf) : CORSGroup :=
  mkCORSGroup (CORSGroupConf_Name g) (corsGroupPathPrefix (CORSGroupConf_Name g) cfg) (CORSGroupConf_Origins g) (CORSGroupConf_Methods g)
    (CORSGroupConf_Headers g) (CORSGroupConf_Credentials g) (CORSGroupConf_MaxAge g) (CORSGroupConf_ExposeHeaders g)
    (CORSGroupConf_AllowPrivateNetwork g) None.

(** The first group of the name takes the function. *)
Fixpoint set_group_func (name : string) (fn : string -> bool) (groups : list CORSGroup) : list CORSGroup :=
  match groups with
  | [] => []
  | g :: groups =>
      if (cg_Name g =? name)%string then
        mkCORSGroup (cg_Name g) (cg_PathPrefix g) (cg_Origins g) (cg_Methods g) (cg_Headers g) (cg_Credentials g) (cg_MaxAge g) (cg_ExposeHeaders g)
          (cg_AllowPrivateNetwork g) (Some fn) :: groups
      else g :: set_group_func name fn groups
  end.

Definition empty_cors : CORSConfig := mkCORS [] [] [] false 0 [] false None [].

(** [corsFuncs] in the order the map is ranged over. *)
Definition buildCORSConfig (cfg : ServiceConfig) (corsFuncs : list (string * (string -> bool))) : option CORSConfig :=
  let sc := ServiceConfig_Server cfg in
  let base := (fun c => mkCORS (CORSConf_Origins c) (CORSConf_Methods c) (CORSConf_Headers c) (CORSConf_Credentials c) (CORSConf_MaxAge c)
                 (CORSConf_ExposeHeaders c) (CORSConf_AllowPrivateNetwork c) None []) <$> ServerConf_CORS sc in
  let with_groups := foldl (fun cors g =>
    let c := default empty_cors cors in
    Some (mkCORS (cc_Origins c) (cc_Methods c) (cc_Headers c) (cc_Credentials c) (cc_MaxAge c) (cc_ExposeHeaders c) (cc_AllowPrivateNetwork c)
            (cc_AllowOriginsFunc c) (cc_Groups c ++ [cors_group cfg g]))) base (ServerConf_CORSGroups sc) in
  foldl (fun cors (nf : string * (string -> bool)) =>
    let c := default empty_cors cors in
    Some (mkCORS (cc_Origins c) (cc_Methods c) (cc_Headers c) (cc_Credentials c) (cc_MaxAge c) (cc_ExposeHeaders c) (cc_AllowPrivateNetwork c)
            (if (nf.1 =? "")%string then Some nf.2 else cc_AllowOriginsFunc c)
            (if (nf.1 =? "")%string then cc_Groups c else set_group_func nf.1 nf.2 (cc_Groups c)))) with_groups corsFuncs.

Notation seconds n := (n * 10^9).

Definition buildServerConfig (cfg : ServiceConfig) (sc : ServerConf) (routes : list RouteConfig) : Config :=
  mkConfig (ServiceConfig_Port cfg) (ServerConf_Host sc) (ServerConf_Prefork sc) (ServerConf_BodyLimit sc)
    (parseServerDuration (ServerConf_Timeout sc) (seconds 30)) (parseServerDuration (ServerConf_ReadTimeout sc) (seconds 15))
    (parseServerDuration (ServerConf_WriteTimeout sc) (seconds 30)) (parseServerDuration (ServerConf_IdleTimeout sc) (seconds 120))
    (ServerConf_MaxConns sc) (ServerConf_MaxBytes sc) (ServerConf_MetricsPath sc) (ServerConf_HealthPath sc) (ServerConf_HealthEnabled sc)
    (ServerConf_StartupPath sc) (ServerConf_ReadinessPath sc) (ServerConf_LivenessPath sc) (ServerConf_StartupEnabled sc)
    (ServerConf_ReadinessEnabled sc) (ServerConf_LivenessEnabled sc) (parseServerDuration (ServerConf_ShutdownTimeout sc) (seconds 10))
    (ServerConf_RecoverStack sc) (ServerConf_APIPrefix sc) routes (ServerConf_ProblemTypeBase sc) (ServerConf_TrustedProxies sc)
    (ServerConf_Logger sc) (ServerConf_LoadShedding sc) (ServerConf_Breaker sc) (ServerConf_Compression sc) (ServerConf_StreamRequestBody sc)
    (ServerConf_ReduceMemoryUsage sc) (convertSecurityHeaders (ServerConf_SecurityHeaders sc)) (convertCSRF (ServerConf_CSRF sc) (ServerConf_Cookies sc))
    (convertRateLimit (ServerConf_RateLimit sc)) (convertTLS (ServerConf_TLS sc)) (convertSSRF (ServerConf_SSRF sc)) (convertCSPGroups sc cfg)
    (convertCorrelation (ServerConf_Correlation sc)) (ServerConf_LogSkipPaths sc) (ServerConf_LogSampleRate sc).
End convert.

(** ** Lists and comma-separated texts (server/server.go, server/middleware/cors.go) *)

Definition joinOrStar (items : list string) : string := match items with [] => "*" | _ => Join items ", " end.
Definition joinOrDefault (items : list string) (def : string) : string := match items with [] => def | _ => Join (TrimSpace <$> items) ", " end.
Definition joinOrEmpty (items : list string) : string := Join items ",".

Definition splitAndTrim (s : string) : list string :=
  if (s =? "")%string then [] else filter (fun p => p <> "") (TrimSpace <$> Split s ",").

(** What the CORS middleware of the library is given. *)
Record cors_config : Type := mkCors {
  co_Origins : list string; co_Methods : list string; co_Headers : list string; co_Credentials : bool; co_MaxAge : Z;
  co_ExposeHeaders : list string; co_AllowPrivateNetwork : bool; co_OriginsFunc : origin_test }.

(** [middleware.CORS] on the strings it is called with. *)
Definition CORS (origins methods headers : string) (credentials : bool) (maxAge : Z) (expose : string) (private : bool) (fn : origin_test) : cors_config :=
  mkCors (splitAndTrim origins) (splitAndTrim methods) (splitAndTrim headers) credentials maxAge (splitAndTrim expose) private fn.

Definition default_methods : string := "GET,POST,PUT,PATCH,DELETE,OPTIONS".
Definition default_headers : string := "Origin,Content-Type,Accept,Authorization".

Definition global_cors (c : CORSConfig) : cors_config :=
  CORS (joinOrStar (cc_Origins c)) (joinOrDefault (cc_Methods c) default_methods) (joinOrDefault (cc_Headers c) default_headers)
    (cc_Credentials c) (cc_MaxAge c) (joinOrEmpty (cc_ExposeHeaders c)) (cc_AllowPrivateNetwork c) (cc_AllowOriginsFunc c).
Definition group_cors (g : CORSGroup) : cors_config :=
  CORS (joinOrStar (cg_Origins g)) (joinOrDefault (cg_Methods g) default_methods) (joinOrDefault (cg_Headers g) default_headers)
    (cg_Credentials g) (cg_MaxAge g) (joinOrEmpty (cg_ExposeHeaders g)) (cg_AllowPrivateNetwork g) (cg_AllowOriginsFunc g).

(** ** What is registered (server/server.go) *)

Inductive mw :=
| MRecover (stack : bool) | MBodyReader | MHeaderSanitize | MCorrelation (cfg : CorrelationConf) | MTrace (cfg : TelemetryConf)
| MSecurityHeaders (cfg : SecurityHeadersConfig) (skip : string -> bool)
| MCSRF (cfg : CSRFConfig) | MRateLimit (cfg : RateLimitMW)
| MContentSecurity (cfg : ContentSecurityDef) | MCryption (cfg : CryptionDef) | MEncryptCookie (cfg : EncryptCookieDef)
| MLogger (skip : list string) (rate : float64) | MShedding | MBreaker | MCompress | MMaxConns (n : Z) | MMaxBytes (n : Z) | MGunzip | MPrometheus
| MCORS (cfg : cors_config) (skip : string -> bool).

Inductive probe := Health | Startup | Readiness | Liveness | Metrics.

Inductive registered :=
| Use (m : mw)                              (* app.Use *)
| UseAt (prefix : string) (m : mw)          (* a group's Use *)
| Get (path : string) (p : probe).          (* app.Get of a probe *)

Definition when {A} (b : bool) (x : list A) : list A := if b then x else [].
Definition on_some {A B} (f : A -> B) (x : option A) : list B := match x with Some a => [f a] | None => [] end.
Definition nonempty (s : string) : bool := negb (s =? "")%string.

Definition setupGlobalMiddlewares (cfg : Config) (telemetry : TelemetryConf) : list registered :=
  [Use (MRecover (c_RecoverStack cfg)); Use MBodyReader; Use MHeaderSanitize] ++
  on_some (fun c => Use (MCorrelation c)) (enabled CorrelationConf_Enabled (c_Correlation cfg)) ++
  when (c_HealthEnabled cfg && nonempty (c_HealthPath cfg)) [Get (c_HealthPath cfg) Health] ++
  when (c_StartupEnabled cfg && nonempty (c_StartupPath cfg)) [Get (c_StartupPath cfg) Startup] ++
  when (c_ReadinessEnabled cfg && nonempty (c_ReadinessPath cfg)) [Get (c_ReadinessPath cfg) Readiness] ++
  when (c_LivenessEnabled cfg && nonempty (c_LivenessPath cfg)) [Get (c_LivenessPath cfg) Liveness] ++
  when (TelemetryConf_Enabled telemetry) [Use (MTrace telemetry)] ++
  [Get (c_MetricsPath cfg) Metrics].

Definition csp_owner (path : string) (g : CSPGroup) : bool := nonempty (pg_PathPrefix g) && HasPrefix path (pg_PathPrefix g).

Definition with_csp (h : SecurityHeadersConfig) (csp : string) : SecurityHeadersConfig :=
  mkSecurityHeaders (sh_FrameOptions h) (sh_ReferrerPolicy h) (sh_PermissionsPolicy h) (sh_HSTS h) (sh_HSTSMaxAge h) (sh_HSTSIncludeSubs h) csp
    (sh_COOP h) (sh_COEP h) (sh_CORP h) (sh_CacheControl h).

(** [Next] of the configuration of a service is nil. *)
Definition applySecurityHeaders (cfg : Config) : list registered :=
  match c_SecurityHeaders cfg with
  | None => []
  | Some h =>
      Use (MSecurityHeaders h (fun path => existsb (csp_owner path) (c_CSPGroups cfg))) ::
      (g ← c_CSPGroups cfg;
       match pg_CSP g with
       | Some csp => when (nonempty (pg_PathPrefix g)) [Use (MSecurityHeaders (with_csp h (BuildCSP csp)) (fun path => negb (HasPrefix path (pg_PathPrefix g))))]
       | None => []
       end)
  end.

(** [ParsePublicKey] says whether the key parses. *)
Definition setupSecurityMiddlewares (ParsePublicKey : string -> bool) (cfg : Config) (security : SecurityConfig) : list registered :=
  applySecurityHeaders cfg ++
  on_some (fun c => Use (MCSRF c)) (c_CSRF cfg) ++
  on_some (fun c => Use (MRateLimit c)) (c_RateLimit cfg) ++
  on_some (fun c => Use (MContentSecurity c)) (enabled (fun c => ContentSecurityDef_Enabled c && ParsePublicKey (ContentSecurityDef_PublicKey c)) (s_ContentSecurity security)) ++
  on_some (fun c => Use (MCryption c)) (enabled CryptionDef_Enabled (s_Cryption security)) ++
  on_some (fun c => Use (MEncryptCookie c)) (enabled EncryptCookieDef_Enabled (s_EncryptCookie security)).

Definition cors_owner (path : string) (g : CORSGroup) : bool := nonempty (cg_Name g) && nonempty (cg_PathPrefix g) && HasPrefix path (cg_PathPrefix g).
Definition corsPathSkipped (path : string) (corsCfg : CORSConfig) : bool := existsb (cors_owner path) (cc_Groups corsCfg).

Definition registerCORSGroup (g : CORSGroup) : list registered :=
  when (nonempty (cg_PathPrefix g)) [Use (MCORS (group_cors g) (fun path => negb (HasPrefix path (cg_PathPrefix g))))].

Definition setupCORS (corsCfg : option CORSConfig) : list registered :=
  match corsCfg with
  | None => []
  | Some c =>
      when (bool_decide (cc_Origins c <> []) || bool_decide (is_Some (cc_AllowOriginsFunc c))) [Use (MCORS (global_cors c) (fun path => corsPathSkipped path c))] ++
      (g ← cc_Groups c; when (nonempty (cg_Name g)) (registerCORSGroup g))
  end.

Definition findCORSGroup (groups : list CORSGroup) (name : string) : option CORSGroup := head (filter (fun g => cg_Name g = name) groups).

Definition applyMiddlewareByType (prefix name : string) (cfg : Config) (corsCfg : option CORSConfig) : list registered :=
  let use m := [UseAt prefix m] in
  if (name =? "logger")%string then use (MLogger (c_LogSkipPaths cfg) (c_LogSampleRate cfg))
  else if (name =? "shedding")%string then use MShedding
  else if (name =? "breaker")%string then use MBreaker
  else if (name =? "maxconns")%string then use (MMaxConns (c_MaxConns cfg))
  else if (name =? "maxbytes")%string then use (MMaxBytes (c_MaxBytes cfg))
  else if (name =? "gunzip")%string then use MGunzip
  else if (name =? "prometheus")%string then use MPrometheus
  else if (name =? "cors")%string then match corsCfg with Some c => use (MCORS (global_cors c) (fun _ => false)) | None => [] end
  else if HasPrefix name "cors:" then
    match corsCfg with
    | Some c => match findCORSGroup (cc_Groups c) (TrimPrefix name "cors:") with Some g => use (MCORS (group_cors g) (fun _ => false)) | None => [] end
    | None => []
    end
  else [].

Definition setupPerRouteMiddlewares (cfg : Config) (corsCfg : option CORSConfig) : list registered :=
  rc ← c_Routes cfg; name ← rc_Middleware rc; applyMiddlewareByType (rc_Path rc) name cfg corsCfg.

Definition setupRouteOrGlobalMiddlewares (cfg : Config) (corsCfg : option CORSConfig) : list registered :=
  when (c_Logger cfg) [Use (MLogger (c_LogSkipPaths cfg) (c_LogSampleRate cfg))] ++
  when (c_LoadShedding cfg) [Use MShedding] ++
  when (c_Breaker cfg) [Use MBreaker] ++
  when (c_Compression cfg) [Use MCompress] ++
  [Use (MMaxConns (c_MaxConns cfg)); Use (MMaxBytes (c_MaxBytes cfg)); Use MGunzip; Use MPrometheus] ++
  setupCORS corsCfg ++
  setupPerRouteMiddlewares cfg corsCfg.

Section server.
(** The endpoints of the library's health checks. *)
Context (StartupEndpoint ReadinessEndpoint LivenessEndpoint : string).

Definition DefaultConfig : Config :=
  mkConfig 8080 "0.0.0.0" false (4 * 1024 * 1024) (30 * 10^9) (15 * 10^9) (30 * 10^9) (120 * 10^9) 1000 (4 * 2^20) "/metrics" "/healthz" true
    StartupEndpoint ReadinessEndpoint LivenessEndpoint true true true (10 * 10^9) true "/api" [] "" [] true true true false false false
    None None None None None [] None ["/health"; "/metrics"] (f64_of_Z 0).

Definition set_shutdown (cfg : Config) (d : Z) : Config :=
  mkConfig (c_Port cfg) (c_Host cfg) (c_Prefork cfg) (c_BodyLimit cfg) (c_Timeout cfg) (c_ReadTimeout cfg) (c_WriteTimeout cfg) (c_IdleTimeout cfg)
    (c_MaxConns cfg) (c_MaxBytes cfg) (c_MetricsPath cfg) (c_HealthPath cfg) (c_HealthEnabled cfg) (c_StartupPath cfg) (c_ReadinessPath cfg)
    (c_LivenessPath cfg) (c_StartupEnabled cfg) (c_ReadinessEnabled cfg) (c_LivenessEnabled cfg) d (c_RecoverStack cfg) (c_APIPrefix cfg)
    (c_Routes cfg) (c_ProblemTypeBase cfg) (c_TrustedProxies cfg) (c_Logger cfg) (c_LoadShedding cfg) (c_Breaker cfg) (c_Compression cfg)
    (c_StreamRequestBody cfg) (c_ReduceMemoryUsage cfg) (c_SecurityHeaders cfg) (c_CSRF cfg) (c_RateLimit cfg) (c_TLS cfg) (c_SSRF cfg)
    (c_CSPGroups cfg) (c_Correlation cfg) (c_LogSkipPaths cfg) (c_LogSampleRate cfg).

Record Server : Type := mkServer { sv_app : list registered; sv_config : Config; sv_probe : bool; sv_ready : bool }.

Definition New (ParsePublicKey : string -> bool) (cfg : Config) (telemetry : TelemetryConf) (security : SecurityConfig) (corsCfg : option CORSConfig) : Server :=
  let cfg := if c_Port cfg =? 0 then DefaultConfig else cfg in
  let cfg := if c_ShutdownTimeout cfg =? 0 then set_shutdown cfg (10 * 10^9) else cfg in
  mkServer (setupGlobalMiddlewares cfg telemetry ++ setupSecurityMiddlewares ParsePublicKey cfg security ++ setupRouteOrGlobalMiddlewares cfg corsCfg)
    cfg false false.

(** [initServer] of a service, without the authentication clients it starts. *)
Definition initServer (ParseDuration : string -> option Z) (ParsePublicKey : string -> bool) (corsFuncs : list (string * (string -> bool))) (cfg : ServiceConfig) : Server :=
  let sc := ServiceConfig_Server cfg in
  let corsCfg := buildCORSConfig cfg corsFuncs in
  let routes := buildRouteConfigs (ServerConf_Middleware sc) in
  let sc := sc <| ServerConf_CSRF := collectCSRFExclusions (ServiceConfig_Entry cfg) (ServerConf_CSRF sc) |> in
  New ParsePublicKey (buildServerConfig ParseDuration cfg sc routes) (convertTelemetry (ServerConf_Telemetry sc)) (securityConfig sc) corsCfg.
End server.

(** The probes: [sv_probe] says whether a readiness function is set, [answer] is what it
    answers at the time of the call. *)
Definition ready (answer : bool) (s : Server) : bool := if sv_probe s then answer else sv_ready s.
Definition MarkReady (s : Server) : Server := mkServer (sv_app s) (sv_config s) (sv_probe s) true.
Definition SetReady (set answer : bool) (s : Server) : Server := mkServer (sv_app s) (sv_config s) set (sv_ready s || (set && answer)).

(** ** Listening (server/tls.go) *)

Inductive tls_version := TLS10 | TLS11 | TLS12 | TLS13.
Definition parseTLSVersion (v : string) : tls_version :=
  let v := ToLower v in
  if (v =? "1.0")%string then TLS10 else if (v =? "1.1")%string then TLS11 else if (v =? "1.2")%string then TLS12
  else if (v =? "1.3")%string then TLS13 else TLS12.

Definition known_curves : list string := ["X25519"; "P-256"; "P-384"; "P-521"].
Definition parseCurves (curves : list string) : list string := filter (fun c => c ∈ known_curves) (ToUpper <$> curves).

Definition known_ciphers : list string :=
  ["TLS_ECDHE_RSA_WITH_AES_256_GCM_SHA384"; "TLS_ECDHE_RSA_WITH_AES_128_GCM_SHA256"; "TLS_ECDHE_ECDSA_WITH_AES_256_GCM_SHA384";
   "TLS_ECDHE_ECDSA_WITH_AES_128_GCM_SHA256"; "TLS_AES_256_GCM_SHA384"; "TLS_AES_128_GCM_SHA256"; "TLS_CHACHA20_POLY1305_SHA256"].
Definition parseCiphers (ciphers : list string) : list string := filter (fun c => c ∈ known_ciphers) ciphers.

(** The part of [tls.Config] that is set; [None] leaves what was there. *)
Record tls_settings : Type := mkSettings { ts_Min : option tls_version; ts_Max : option tls_version; ts_Curves : option (list string); ts_Ciphers : option (list string) }.

Definition applyTLSConfig (cfg : TLSConfig) : tls_settings :=
  mkSettings (if nonempty (tls_MinVersion cfg) then Some (parseTLSVersion (tls_MinVersion cfg)) else None)
    (if nonempty (tls_MaxVersion cfg) then Some (parseTLSVersion (tls_MaxVersion cfg)) else None)
    (match tls_CurvePrefs cfg with [] => None | cs => Some (parseCurves cs) end)
    (match tls_CipherSuites cfg with [] => None | cs => Some (parseCiphers cs) end).

Inductive listening :=
| PlainHTTP
| ManualHTTPS (certFile keyFile : string) (settings : tls_settings) (redirect : option Z)
| AutocertHTTPS (domains : list string) (settings : tls_settings) (redirect : option Z).

Definition redirect_port (cfg : TLSConfig) : option Z :=
  if tls_RedirectHTTP cfg then Some (if tls_RedirectPort cfg <=? 0 then 80 else tls_RedirectPort cfg) else None.

Definition listenTLS (tlsCfg : option TLSConfig) : listening :=
  match tlsCfg with
  | None => PlainHTTP
  | Some cfg =>
      if negb (tls_Enabled cfg) then PlainHTTP
      else match tls_Manual cfg with
           | Some m => if nonempty (ManualTLS_CertFile m) then ManualHTTPS (ManualTLS_CertFile m) (ManualTLS_KeyFile m) (mkSettings None None None None) (redirect_port cfg)
                       else match tls_Autocert cfg with
                            | Some a => match AutocertTLS_Domains a with [] => PlainHTTP | ds => AutocertHTTPS ds (applyTLSConfig cfg) (redirect_port cfg) end
                            | None => PlainHTTP end
           | None => match tls_Autocert cfg with
                     | Some a => match AutocertTLS_Domains a with [] => PlainHTTP | ds => AutocertHTTPS ds (applyTLSConfig cfg) (redirect_port cfg) end
                     | None => PlainHTTP end
           end
  end.

(** ** Security headers of a path *)

Definition set_headers (h : gmap string string) (e : effect) : gmap string string := match e with SetHeader k v => <[k := v]> h | _ => h end.

(** The headers on the response after the middlewares have run on a path. *)
Definition headers_step (path : string) (h : gmap string string) (r : registered) : gmap string string :=
  match r with
  | Use (MSecurityHeaders cfg skip) => match SecurityHeaders cfg (skip path) with Next es => foldl set_headers h es | _ => h end
  | _ => h
  end.
Definition headers_after (regs : list registered) (path : string) : gmap string string := foldl (headers_step path) ∅ regs.

Definition CSP : string := "Content-Security-Policy".
Definition nosniff : string := "X-Content-Type-Options".

Lemma header_if_other k v name (h : gmap string string) : name <> k -> foldl set_headers h (header_if k v) !! name = h !! name.
Proof. intros Hne. unfold header_if. destruct (v =? "")%string; [done|]. cbn. by rewrite lookup_insert_ne. Qed.

Lemma header_if_same k v (h : gmap string string) : foldl set_headers h (header_if k v) !! k = if (v =? "")%string then h !! k else Some v.
Proof. unfold header_if. destruct (v =? "")%string; [done|]. cbn. by rewrite lookup_insert_eq. Qed.

Lemma hsts_other cfg name (h : gmap string string) : name <> "Strict-Transport-Security" ->
  foldl set_headers h (if sh_HSTS cfg then [SetHeader "Strict-Transport-Security" (hstsValue (sh_HSTSMaxAge cfg) (sh_HSTSIncludeSubs cfg))] else []) !! name = h !! name.
Proof. intros Hne. destruct (sh_HSTS cfg); [|done]. cbn. by rewrite lookup_insert_ne. Qed.

(** What one of them leaves on the policy and on the "nosniff" header. *)
Lemma SecurityHeaders_sets cfg (h : gmap string string) :
  let h' := match SecurityHeaders cfg false with Next es => foldl set_headers h es | _ => h end in
  h' !! nosniff = Some "nosniff" /\ h' !! CSP = (if (sh_CSP cfg =? "")%string then h !! CSP else Some (sh_CSP cfg)).
Proof.
  cbn [SecurityHeaders]. rewrite !foldl_app. unfold nosniff, CSP. split.
  - rewrite !header_if_other, hsts_other, !header_if_other by done. cbn [foldl set_headers]. by rewrite lookup_insert_eq.
  - rewrite !header_if_other, hsts_other, header_if_same, !header_if_other by done. cbn [foldl set_headers]. by rewrite lookup_insert_ne.
Qed.

Lemma str_take_length (n : nat) (s : string) : (n <= String.length s)%nat -> String.length (str_take n s) = n.
Proof. revert s. induction n as [|n IH]; intros [|c s] H; cbn in *; try lia. rewrite IH; lia. Qed.

Lemma joinDirective_length name values defaults : (1 <= String.length name)%nat -> defaults <> "" -> (3 <= String.length (joinDirective name values defaults))%nat.
Proof.
  intros Hn Hd. unfold joinDirective. destruct values as [|v vs].
  - apply String.eqb_neq in Hd. rewrite Hd, !str_length_app. cbn. lia.
  - rewrite str_length_app. cbn [String.length].
    assert (H : forall l acc, (String.length acc <= String.length (foldl (fun acc v => acc ++ (" " ++ v))%string acc l))%nat); [|specialize (H (v :: vs) name); lia].
    intros l. induction l as [|x l IH]; intros acc; [done|]. cbn [foldl]. etransitivity; [|apply IH]. rewrite str_length_app. lia.
Qed.

Lemma BuildCSP_nonempty c : BuildCSP c <> "".
Proof.
  unfold BuildCSP. destruct (csp_Level c =? "strict")%string; [done|]. unfold buildCustomCSP. set (policy := (joinDirective "default-src" _ _ ++ _)%string).
  assert (Hl : (3 <= String.length policy)%nat).
  { subst policy. rewrite str_length_app. pose proof (joinDirective_length "default-src" (csp_DefaultSrc c) "'self'"). cbn [String.length] in *. specialize (H ltac:(lia) ltac:(done)). lia. }
  destruct (Nat.ltb_spec 2 (String.length policy)); [|lia]. intros E. apply (f_equal String.length) in E. rewrite str_take_length in E by lia. cbn in E. lia.
Qed.

(** The groups whose policy is used on a path, in the order of the configuration. *)
Definition csp_owners (path : string) (groups : list CSPGroup) : list CSPGroup := filter (fun g => csp_owner path g = true) groups.
Definition csp_policies (path : string) (groups : list CSPGroup) : list CSPConfig := omap pg_CSP (csp_owners path groups).

Lemma groups_headers path h groups (acc : gmap string string) :
  let regs := g ← groups;
    match pg_CSP g with
    | Some csp => when (nonempty (pg_PathPrefix g)) [Use (MSecurityHeaders (with_csp h (BuildCSP csp)) (fun path => negb (HasPrefix path (pg_PathPrefix g))))]
    | None => []
    end in
  foldl (headers_step path) acc regs !! CSP = match last (csp_policies path groups) with Some p => Some (BuildCSP p) | None => acc !! CSP end /\
  foldl (headers_step path) acc regs !! nosniff = match csp_policies path groups with [] => acc !! nosniff | _ => Some "nosniff" end.
Proof.
  cbn zeta. revert acc. induction groups as [|g groups IH]; intros acc; [done|]. cbn [mbind list_bind]. rewrite foldl_app.
  unfold csp_policies, csp_owners in *. rewrite filter_cons. destruct g as [name prefix csp]. cbn [pg_CSP pg_PathPrefix] in *.
  destruct (decide (csp_owner path (mkCSPGroup name prefix csp) = true)) as [Ho|Ho].
  - apply andb_true_iff in Ho as [Hp Hh]. cbn [pg_PathPrefix] in Hp, Hh. destruct csp as [c|]; [|apply IH]. rewrite Hp. cbn [when foldl headers_step omap list_omap pg_CSP].
    rewrite Hh. cbn [negb]. destruct (SecurityHeaders_sets (with_csp h (BuildCSP c)) acc) as [Hn Hc]. cbn [sh_CSP with_csp] in Hc.
    rewrite (proj2 (String.eqb_neq _ _) (BuildCSP_nonempty c)) in Hc. set (acc' := match SecurityHeaders _ false with Next es => _ | _ => _ end) in *.
    destruct (IH acc') as [-> ->]. rewrite Hc, Hn. destruct (omap pg_CSP _) as [|p ps]; [done|]. split; [|done]. change (last (c :: p :: ps)) with (last (p :: ps)). destruct (last (p :: ps)) eqn:E; [done|]. by apply last_None in E.
  - assert (Hskip : foldl (headers_step path) acc (match csp with Some c => when (nonempty prefix) [Use (MSecurityHeaders (with_csp h (BuildCSP c)) (fun path => negb (HasPrefix path prefix)))] | None => [] end) = acc); [|rewrite Hskip; apply IH].
    destruct csp as [c|]; [|done]. unfold when. destruct (nonempty prefix) eqn:Hp; [|done]. cbn [foldl headers_step].
    destruct (HasPrefix path prefix) eqn:Hh; [|done]. exfalso. apply Ho. unfold csp_owner. cbn. by rewrite Hp, Hh.
Qed.

(** The content security policy of a path.  A path no CSP group owns gets the global policy
    and all the security headers; a path owned by groups gets the policy of the last of them
    that has one; and a path owned only by groups without a policy loses every security
    header, the policy included. *)
Theorem csp_of_path (cfg : Config) (h : SecurityHeadersConfig) (path : string) :
  c_SecurityHeaders cfg = Some h ->
  let owners := csp_owners path (c_CSPGroups cfg) in
  let policies := csp_policies path (c_CSPGroups cfg) in
  let hs := headers_after (applySecurityHeaders cfg) path in
  hs !! CSP = match last policies with
              | Some p => Some (BuildCSP p)
              | None => match owners with [] => if (sh_CSP h =? "")%string then None else Some (sh_CSP h) | _ => None end
              end /\
  hs !! nosniff = match owners, policies with [], _ | _, _ :: _ => Some "nosniff" | _, _ => None end.
Proof.
  intros Hh. cbn zeta. unfold headers_after, applySecurityHeaders. rewrite Hh. cbn [foldl headers_step].
  set (acc := match SecurityHeaders h (existsb (csp_owner path) (c_CSPGroups cfg)) with Next es => foldl set_headers ∅ es | _ => ∅ end).
  destruct (groups_headers path h (c_CSPGroups cfg) acc) as [-> ->].
  assert (Hacc : acc !! CSP = match csp_owners path (c_CSPGroups cfg) with [] => if (sh_CSP h =? "")%string then None else Some (sh_CSP h) | _ => None end /\
    acc !! nosniff = match csp_owners path (c_CSPGroups cfg) with [] => Some "nosniff" | _ => None end).
  { subst acc. unfold csp_owners. destruct (existsb (csp_owner path) (c_CSPGroups cfg)) eqn:Ex.
    - apply existsb_exists in Ex as (g & Hg & Ho). assert (Hin : g ∈ filter (fun g => csp_owner path g = true) (c_CSPGroups cfg)) by (apply list_elem_of_filter; split; [done|by apply list_elem_of_In]).
      destruct (filter _ _); [by apply not_elem_of_nil in Hin|]. done.
    - rewrite filter_none.
      + destruct (SecurityHeaders_sets h ∅) as [Hn Hc]. rewrite Hn, Hc, lookup_empty. done.
      + apply Forall_forall. intros g Hg Ho. assert (existsb (csp_owner path) (c_CSPGroups cfg) = true); [|congruence]. apply existsb_exists. exists g. by rewrite <- list_elem_of_In. }
  destruct Hacc as [-> ->]. split; [done|]. unfold csp_policies. destruct (csp_owners path (c_CSPGroups cfg)) as [|g gs]; [done|]. by destruct (omap pg_CSP (g :: gs)).
Qed.

(** ** CORS of a path *)

(** The CORS middlewares that act on a path. *)
Definition cors_acting (regs : list registered) (path : string) : list cors_config :=
  omap (fun r => match r with Use (MCORS c skip) => if skip path then None else Some c | _ => None end) regs.

Definition cors_owners (path : string) (c : CORSConfig) : list CORSGroup := filter (fun g => cors_owner path g = true) (cc_Groups c).
Definition has_origins (c : CORSConfig) : bool := bool_decide (cc_Origins c <> []) || bool_decide (is_Some (cc_AllowOriginsFunc c)).

Lemma cors_acting_app a b path : cors_acting (a ++ b) path = cors_acting a path ++ cors_acting b path.
Proof. apply omap_app. Qed.

Lemma groups_acting path groups :
  cors_acting (g ← groups; when (nonempty (cg_Name g)) (registerCORSGroup g)) path = group_cors <$> filter (fun g => cors_owner path g = true) groups.
Proof.
  induction groups as [|g groups IH]; [done|]. cbn [mbind list_bind]. rewrite cors_acting_app, IH, filter_cons. unfold cors_owner, registerCORSGroup, when.
  destruct (nonempty (cg_Name g)); cbn [andb]; [|by rewrite decide_False]. destruct (nonempty (cg_PathPrefix g)); cbn [andb]; [|by rewrite decide_False].
  cbn. destruct (HasPrefix path (cg_PathPrefix g)); cbn; [by rewrite decide_True|by rewrite decide_False].
Qed.

Lemma corsPathSkipped_owners path c : corsPathSkipped path c = bool_decide (cors_owners path c <> []).
Proof.
  unfold corsPathSkipped, cors_owners. induction (cc_Groups c) as [|g groups IH]; [done|]. cbn [existsb]. rewrite filter_cons.
  destruct (cors_owner path g); cbn [orb]; [by rewrite decide_True|by rewrite decide_False].
Qed.

(** ** Comma-separated lists *)

Definition no_comma (s : string) : bool := str_all (fun c => negb (Ascii.eqb c ",")) s.

Lemma Split_comma (pad : string) (x : string) (xs : list string) : no_comma pad = true -> Forall (fun s => no_comma s = true) (x :: xs) ->
  Split (Join (x :: xs) (String "," pad)) "," = x :: ((fun y => pad ++ y)%string <$> xs).
Proof.
  intros Hp H. assert (Hgen : forall xs x, no_comma x = true -> Forall (fun s => no_comma s = true) xs ->
    Split (Join (x :: xs) (String "," pad)) "," = x :: ((fun y => pad ++ y)%string <$> xs)); [|apply Forall_cons in H as [? ?]; by apply Hgen].
  clear x xs H. intros xs. induction xs as [|y ys IH]; intros x Hx Hxs; [by rewrite Split_SplitN2, SplitN2_absent|].
  apply Forall_cons in Hxs as [Hy Hys]. change (Join (x :: y :: ys) (String "," pad)) with (x ++ String "," (pad ++ Join (y :: ys) (String "," pad)))%string.
  rewrite Split_SplitN2, SplitN2_app by done. f_equal.
  assert (E : (pad ++ Join (y :: ys) (String "," pad))%string = Join ((pad ++ y)%string :: ys) (String "," pad)).
  { destruct ys; cbn [Join]; [done|]. by rewrite str_app_assoc. }
  rewrite E, IH; [done| |done]. unfold no_comma in *. clear -Hp Hy. induction pad as [|c pad IHp]; [done|]. rewrite str_app_cons. cbn in Hp |- *.
  apply andb_true_iff in Hp as [-> Hp]. by apply IHp.
Qed.

Lemma trim_end_trim_end s : trim_end (trim_end s) = trim_end s.
Proof.
  induction s as [|c s IH]; [done|]. cbn. destruct (trim_end s) as [|d t] eqn:E.
  - destruct (space_byte c) eqn:Ec; [done|]. cbn. by rewrite Ec.
  - cbn in IH |- *. by rewrite IH.
Qed.

Lemma trim_left_trim_end s : trim_left s = s -> trim_left (trim_end s) = trim_end s.
Proof.
  destruct s as [|c s]; [done|]. cbn. destruct (space_byte c) eqn:Ec.
  - intros E. exfalso. assert (H : forall u, (String.length (trim_left u) <= String.length u)%nat).
    { induction u as [|d u IHu]; cbn; [lia|]. destruct (space_byte d); cbn; lia. }
    specialize (H s). rewrite E in H. cbn in H. lia.
  - intros _. destruct (trim_end s); cbn; by rewrite Ec.
Qed.

Lemma trim_left_idem s : trim_left (trim_left s) = trim_left s.
Proof. induction s as [|c s IH]; [done|]. cbn. destruct (space_byte c) eqn:E; [done|]. cbn. by rewrite E. Qed.

Lemma TrimSpace_idem s : TrimSpace (TrimSpace s) = TrimSpace s.
Proof. unfold TrimSpace. rewrite trim_left_trim_end by apply trim_left_idem. apply trim_end_trim_end. Qed.

Lemma TrimSpace_no_comma s : no_comma s = true -> no_comma (TrimSpace s) = true.
Proof.
  unfold no_comma, TrimSpace. assert (Hl : forall s, str_all (fun c => negb (Ascii.eqb c ",")) s = true -> str_all (fun c => negb (Ascii.eqb c ",")) (trim_left s) = true).
  { clear s. induction s as [|c s IH]; [done|]. cbn. intros [Hc Hs]%andb_true_iff. destruct (space_byte c); [by apply IH|]. cbn. by rewrite Hc, Hs. }
  assert (He : forall s, str_all (fun c => negb (Ascii.eqb c ",")) s = true -> str_all (fun c => negb (Ascii.eqb c ",")) (trim_end s) = true).
  { clear s Hl. induction s as [|c s IH]; [done|]. cbn. intros [Hc Hs]%andb_true_iff. specialize (IH Hs). destruct (trim_end s) as [|d t]; [|cbn in *; by rewrite Hc].
    destruct (space_byte c); [done|]. cbn. by rewrite Hc. }
  auto.
Qed.

Lemma split_join (pad : string) (items : list string) : pad = "" \/ pad = " " -> items <> [] -> Forall (fun s => no_comma s = true) items ->
  splitAndTrim (Join items (String "," pad)) = filter (fun p => p <> "") (TrimSpace <$> items).
Proof.
  intros Hp Hne Hc. destruct items as [|x xs]; [done|]. unfold splitAndTrim. destruct (String.eqb_spec (Join (x :: xs) (String "," pad)) "") as [E|_].
  - destruct xs as [|y ys]; cbn in E; [by rewrite E|]. by destruct x.
  - rewrite Split_comma by (destruct Hp as [->| ->]; done). f_equal. cbn [fmap list_fmap]. f_equal. rewrite <- list_fmap_compose. apply list_fmap_ext.
    intros i y _. cbn. by destruct Hp as [->| ->].
Qed.

(** CORS of a path.  The lists of origins, methods and headers reach the library as they are
    configured, trimmed and without empty ones, when none has a comma in it.  A path that no
    named group owns is answered by the global policy (if it has origins), a path owned by
    groups by every one of them, in the order of the configuration, and never by the global
    one. *)
Theorem cors_of_path (c : CORSConfig) (path : string) :
  cors_acting (setupCORS (Some c)) path =
    (if has_origins c && bool_decide (cors_owners path c = []) then [global_cors c] else []) ++ (group_cors <$> cors_owners path c) /\
  (forall items def, items <> [] -> Forall (fun s => no_comma s = true) items ->
     splitAndTrim (joinOrStar items) = filter (fun p => p <> "") (TrimSpace <$> items) /\
     splitAndTrim (joinOrDefault items def) = filter (fun p => p <> "") (TrimSpace <$> items) /\
     splitAndTrim (joinOrEmpty items) = filter (fun p => p <> "") (TrimSpace <$> items)).
Proof.
  split.
  - cbn [setupCORS]. rewrite cors_acting_app, groups_acting. f_equal. fold (has_origins c). unfold when. destruct (has_origins c); [|done]. cbn.
    rewrite corsPathSkipped_owners. destruct (decide (cors_owners path c = [])) as [->|Hne]; [done|]. rewrite (bool_decide_false (_ = [])) by done. by rewrite bool_decide_true.
  - intros items def Hne Hc. unfold joinOrStar, joinOrDefault, joinOrEmpty. destruct items as [|x xs]; [done|]. split_and!.
    + change ", " with (String "," " "). apply split_join; auto.
    + change ", " with (String "," " "). rewrite split_join; [|by auto|done|].
      * f_equal. rewrite <- list_fmap_compose. apply list_fmap_ext. intros i y _. apply TrimSpace_idem.
      * apply Forall_fmap. eapply Forall_impl; [exact Hc|]. intros s Hs. by apply TrimSpace_no_comma.
    + change "," with (String "," ""). apply split_join; auto.
Qed.

Definition docs_headers : SecurityHeadersConfig := mkSecurityHeaders "DENY" "" "" false 0 false "default-src 'self'" "" "" "" "".
Definition docs_config : Config :=
  mkConfig 8080 "0.0.0.0" false 0 0 0 0 0 0 0 "" "" false "" "" "" false false false 0 false "/api" [] "" [] false false false false false false
    (Some docs_headers) None None None None [mkCSPGroup "docs" "/docs" None] None [] (f64_of_Z 0).

Lemma csp_of_path_witness :
  headers_after (applySecurityHeaders docs_config) "/docs/a" !! nosniff = None /\
  headers_after (applySecurityHeaders docs_config) "/api" !! CSP = Some "default-src 'self'".
Proof.
  split; [exact (proj2 (csp_of_path docs_config docs_headers "/docs/a" eq_refl))|exact (proj1 (csp_of_path docs_config docs_headers "/api" eq_refl))].
Defined.

Lemma cors_of_path_witness :
  let c := mkCORS [" https://a.example "] ["GET"; "POST"] [] false 0 [] false None [] in
  cors_acting (setupCORS (Some c)) "/x" = [global_cors c] /\ splitAndTrim (joinOrStar [" https://a.example "]) = ["https://a.example"].
Proof.
  cbn zeta. destruct (cors_of_path (mkCORS [" https://a.example "] ["GET"; "POST"] [] false 0 [] false None []) "/x") as [H1 H2]. split; [exact H1|].
  destruct (H2 [" https://a.example "] "") as [H _]; [done|by repeat constructor|]. rewrite H. by vm_compute.
Defined.
