(* ===== verification/Events.v ===== *)
(** * Events of a service (runtime/entry_rest.go: [wrapEventPublish], [selectBrokers];
    runtime/outbox.go; runtime/cron.go)

    Brokers are names; what a broker does with a message, and whether a statement of the
    database succeeds, are arguments.  The outbox table is the list of its rows in the order of
    their ids, which the database hands out in increasing order. *)

From S2P Require Import Prelude ConfigTypes.

#[local] Open Scope string_scope.
#[local] Open Scope list_scope.
#[local] Open Scope Z_scope.

(** ** Publishing after a handler *)

(** A message for a broker. *)
Record message : Type := mkMessage { ms_broker : string; ms_subject : string; ms_body : string }.

Definition selectBrokers (target : EventPublishTarget) (entryEventStream : string) (allBrokers : gset string) : gset string :=
  let name := if (EventPublishTarget_EventStream target =? "")%string then entryEventStream else EventPublishTarget_EventStream target in
  if negb (name =? "")%string && bool_decide (name ∈ allBrokers) then {[name]} else allBrokers.

Definition target_subject (target : EventPublishTarget) : string :=
  if (EventPublishTarget_Subject target =? "")%string then EventPublishTarget_Stream target else EventPublishTarget_Subject target.

(** What [wrapEventPublish] sends when the handler has answered [status] with [body] or
    failed; the order within a target is that of a map. *)
Definition wrapEventPublish (targets : list EventPublishTarget) (stream : string) (brokers : gset string) (failed : bool) (status : Z) (body : string) : list message :=
  if negb failed && (status <? 400) then
    target ← targets; (fun b => mkMessage b (target_subject target) body) <$> elements (selectBrokers target stream brokers)
  else [].

(** Events are published for a request exactly when its handler succeeded with a status
    below 400: every target gets the response's body, on the broker it names (or its entry
    does), once.  A name that no broker has, like none at all, sends it to all brokers. *)
Theorem events_published (targets : list EventPublishTarget) (stream : string) (brokers : gset string) (failed : bool) (status : Z) (body : string) (m : message) :
  m ∈ wrapEventPublish targets stream brokers failed status body <->
  failed = false /\ status < 400 /\ ms_body m = body /\ ms_broker m ∈ brokers /\
  exists t, t ∈ targets /\ ms_subject m = target_subject t /\
    let name := if (EventPublishTarget_EventStream t =? "")%string then stream else EventPublishTarget_EventStream t in
    (name <> "" -> name ∈ brokers -> ms_broker m = name).
Proof.
  unfold wrapEventPublish. destruct failed; cbn [negb andb]; [split; [by intros ?%not_elem_of_nil|by intros []]|].
  destruct (Z.ltb_spec status 400) as [Hs|Hs]; [|split; [by intros ?%not_elem_of_nil|by intros (_ & ? & _); lia]].
  rewrite list_elem_of_bind. split.
  - intros (t & Hm & Ht). apply list_elem_of_fmap in Hm as (b & -> & Hb%elem_of_elements). cbn. unfold selectBrokers in Hb. split; [done|split; [done|split; [done|]]].
    destruct (negb (_ =? "")%string && bool_decide _) eqn:E.
    + apply andb_true_iff in E as [_ E%bool_decide_eq_true]. apply elem_of_singleton in Hb as ->. split; [done|]. by exists t.
    + split; [done|]. exists t. split; [done|split; [done|]]. intros Hne Hin. apply andb_false_iff in E as [E|E].
      * apply negb_false_iff, String.eqb_eq in E. done.
      * by apply bool_decide_eq_false in E.
  - intros (_ & _ & Hbody & Hb & t & Ht & Hsub & Hname). exists t. split; [|done]. apply list_elem_of_fmap. exists (ms_broker m).
    split; [destruct m; cbn in *; congruence|]. apply elem_of_elements. unfold selectBrokers. destruct (negb (_ =? "")%string && bool_decide _) eqn:E; [|done].
    apply andb_true_iff in E as [E1%negb_true_iff%String.eqb_neq E2%bool_decide_eq_true]. apply elem_of_singleton. by apply Hname.
Qed.

(** ** The outbox *)

Record OutboxRecord : Type := mkOutbox { ob_ID : Z; ob_Subject : string; ob_Payload : string; ob_pending : bool }.
Notation outbox := (list OutboxRecord).

Definition InsertOutbox (id : Z) (subject payload : string) (t : outbox) : outbox := t ++ [mkOutbox id subject payload true].

Definition mark_published (id : Z) (t : outbox) : outbox :=
  (fun r => if ob_ID r =? id then mkOutbox (ob_ID r) (ob_Subject r) (ob_Payload r) false else r) <$> t.

(** [SELECT ... WHERE status = 'pending' ORDER BY id LIMIT 100]. *)
Definition pending (t : outbox) : outbox := filter (fun r => ob_pending r = true) t.
Definition batch (t : outbox) : outbox := take 100 (pending t).

(** The outcomes of one turn: of the query, of publishing a record, of marking it. *)
Record turn : Type := mkTurn { tn_query : bool; tn_publish : Z -> bool; tn_mark : Z -> bool }.

(** The table and the ids of what was published, in order. *)
Definition relay_record (o : turn) (s : outbox * list Z) (r : OutboxRecord) : outbox * list Z :=
  if negb (tn_publish o (ob_ID r)) then s
  else (if tn_mark o (ob_ID r) then mark_published (ob_ID r) s.1 else s.1, s.2 ++ [ob_ID r]).

Definition relayOnce (o : turn) (s : outbox * list Z) : outbox * list Z :=
  if tn_query o then foldl (relay_record o) s (batch s.1) else s.

Inductive outbox_event := Insert (id : Z) (subject payload : string) | Turn (o : turn).
Definition outbox_step (s : outbox * list Z) (ev : outbox_event) : outbox * list Z :=
  match ev with Insert id subject payload => (InsertOutbox id subject payload s.1, s.2) | Turn o => relayOnce o s end.
Definition outbox_run (evs : list outbox_event) (s : outbox * list Z) : outbox * list Z := foldl outbox_step s evs.

Lemma mark_ids id t : ob_ID <$> mark_published id t = ob_ID <$> t.
Proof. unfold mark_published. rewrite <- list_fmap_compose. apply list_fmap_ext. intros i r _. cbn. by destruct (ob_ID r =? id). Qed.

Lemma relay_ids o rs s : ob_ID <$> (foldl (relay_record o) s rs).1 = ob_ID <$> s.1.
Proof.
  revert s. induction rs as [|r rs IH]; intros s; [done|]. cbn [foldl]. rewrite IH. unfold relay_record.
  destruct (tn_publish o (ob_ID r)); [|done]. cbn. destruct (tn_mark o (ob_ID r)); [apply mark_ids|done].
Qed.

(** Every record marked was published, and what was published is in the table. *)
Definition outbox_inv (s : outbox * list Z) : Prop :=
  (forall r, r ∈ s.1 -> ob_pending r = false -> ob_ID r ∈ s.2) /\ (forall id, id ∈ s.2 -> id ∈ ob_ID <$> s.1).

Lemma relay_inv o rs s : (forall r, r ∈ rs -> ob_ID r ∈ ob_ID <$> s.1) -> outbox_inv s -> outbox_inv (foldl (relay_record o) s rs).
Proof.
  revert s. induction rs as [|r rs IH]; intros s Hrs Hs; [done|]. cbn [foldl].
  assert (Hid : ob_ID <$> (relay_record o s r).1 = ob_ID <$> s.1) by apply (relay_ids o [r] s).
  apply IH; [intros r' Hr'; rewrite Hid; apply Hrs; by right|]. destruct Hs as [H1 H2]. unfold relay_record.
  destruct (tn_publish o (ob_ID r)) eqn:Ep; [|done]. cbn [negb]. split; cbn [fst snd].
  - intros x Hx Hpx. apply elem_of_app. destruct (tn_mark o (ob_ID r)); [|left; by apply H1].
    apply list_elem_of_fmap in Hx as (y & -> & Hy). destruct (Z.eqb_spec (ob_ID y) (ob_ID r)) as [E|Hne]; [right; apply list_elem_of_singleton; by rewrite E|left; by apply H1].
  - intros id [Hin|Hin]%elem_of_app.
    + destruct (tn_mark o (ob_ID r)); [rewrite mark_ids|]; by apply H2.
    + apply list_elem_of_singleton in Hin as ->. destruct (tn_mark o (ob_ID r)); [rewrite mark_ids|]; apply Hrs; by left.
Qed.

Lemma batch_sub t r : r ∈ batch t -> r ∈ pending t.
Proof. intros H. eapply elem_of_sublist; [exact H|apply sublist_take]. Qed.

(** The outbox delivers at least once: whatever fails over any sequence of inserts and
    turns, a record is marked published only after it was published, and only records of the
    table are. *)
Theorem outbox_at_least_once (evs : list outbox_event) :
  let s := outbox_run evs ([], []) in
  (forall r, r ∈ s.1 -> ob_pending r = false -> ob_ID r ∈ s.2) /\ (forall id, id ∈ s.2 -> id ∈ ob_ID <$> s.1).
Proof.
  assert (Hgen : forall s, outbox_inv s -> outbox_inv (outbox_run evs s)); [|apply Hgen; split; [intros r H|intros id H]; by apply not_elem_of_nil in H].
  unfold outbox_run. induction evs as [|ev evs IH]; intros s Hs; [done|]. cbn [foldl]. apply IH. destruct ev as [id subject payload|o]; cbn [outbox_step].
  - destruct Hs as [H1 H2]. split; cbn [fst snd]; unfold InsertOutbox.
    + intros r [Hr|Hr]%elem_of_app Hp; [by apply H1|]. apply list_elem_of_singleton in Hr as ->. done.
    + intros i Hi. rewrite fmap_app. apply elem_of_app. left. by apply H2.
  - unfold relayOnce. destruct (tn_query o); [|done]. apply relay_inv; [|done]. intros r Hr%batch_sub. apply list_elem_of_filter in Hr as [_ Hr].
    by apply list_elem_of_fmap_2.
Qed.

(** ** Turns in which nothing fails *)

Definition all_works : turn := mkTurn true (fun _ => true) (fun _ => true).

Lemma mark_pending t id : pending (mark_published id t) = filter (fun r => ob_ID r <> id) (pending t).
Proof.
  unfold pending, mark_published. induction t as [|r t IH]; [done|]. cbn [fmap list_fmap]. rewrite !filter_cons. destruct (Z.eqb_spec (ob_ID r) id) as [E|Hne].
  - cbn [ob_pending]. rewrite decide_False by done. destruct (decide (ob_pending r = true)); [|exact IH]. rewrite filter_cons, decide_False; [exact IH|]. intros H. by apply H.
  - destruct (decide (ob_pending r = true)); [|exact IH]. rewrite filter_cons, decide_True by done. by rewrite IH.
Qed.

Lemma relay_all rs : forall s, NoDup (ob_ID <$> s.1) -> NoDup (ob_ID <$> rs) ->
  let s' := foldl (relay_record all_works) s rs in
  s'.2 = s.2 ++ (ob_ID <$> rs) /\ pending s'.1 = filter (fun r => ob_ID r ∉ ob_ID <$> rs) (pending s.1).
Proof.
  induction rs as [|r rs IH]; intros s Hs Hrs; cbn [foldl].
  { split; [by rewrite app_nil_r|]. rewrite filter_all; [done|]. apply Forall_forall. intros x _. apply not_elem_of_nil. }
  cbn in Hrs. apply NoDup_cons in Hrs as [Hr Hrs]. unfold relay_record at 2 4. cbn [tn_publish tn_mark all_works negb].
  destruct (IH (mark_published (ob_ID r) s.1, s.2 ++ [ob_ID r])) as [H1 H2]; [cbn [fst]; by rewrite mark_ids|done|]. cbn [fst snd] in H1, H2. split.
  - rewrite H1. cbn. by rewrite <- (assoc_L (++)).
  - rewrite H2, mark_pending. rewrite list_filter_filter. apply list_filter_iff. intros x. cbn. rewrite not_elem_of_cons. naive_solver.
Qed.

Lemma pending_ids_NoDup t : NoDup (ob_ID <$> t) -> NoDup (ob_ID <$> pending t).
Proof.
  unfold pending. induction t as [|r t IH]; [done|]. cbn [fmap list_fmap]. intros [Hr Ht]%NoDup_cons. rewrite filter_cons. destruct (decide _); [|by apply IH].
  cbn. apply NoDup_cons. split; [|by apply IH]. intros Hin. apply Hr. apply list_elem_of_fmap in Hin as (x & -> & Hx). apply list_elem_of_fmap_2. by apply list_elem_of_filter in Hx as [_ ?].
Qed.

Lemma filter_tail (l : outbox) n : NoDup (ob_ID <$> l) -> filter (fun r => ob_ID r ∉ ob_ID <$> take n l) l = drop n l.
Proof.
  intros Hnd. transitivity (filter (fun r => ob_ID r ∉ ob_ID <$> take n l) (take n l ++ drop n l)); [by rewrite take_drop|]. rewrite filter_app, filter_none, filter_all; [done| |].
  - apply Forall_forall. intros x Hx Hin. rewrite <- (take_drop n l), fmap_app in Hnd. apply NoDup_app in Hnd as (_ & Hd & _).
    apply (Hd (ob_ID x)); [done|by apply list_elem_of_fmap_2].
  - apply Forall_forall. intros x Hx Hn. by apply Hn, list_elem_of_fmap_2.
Qed.

Lemma turn_works s : NoDup (ob_ID <$> s.1) ->
  (relayOnce all_works s).2 = s.2 ++ (ob_ID <$> batch s.1) /\ pending (relayOnce all_works s).1 = drop 100 (pending s.1) /\
  ob_ID <$> (relayOnce all_works s).1 = ob_ID <$> s.1.
Proof.
  intros Hs. unfold relayOnce. cbn [tn_query all_works]. pose proof (pending_ids_NoDup _ Hs) as Hp.
  assert (Hb : NoDup (ob_ID <$> batch s.1)).
  { unfold batch. rewrite <- (take_drop 100 (pending s.1)), fmap_app in Hp. by apply NoDup_app in Hp as [? _]. }
  destruct (relay_all (batch s.1) s Hs Hb) as [H1 H2]. split; [done|split; [|apply relay_ids]]. rewrite H2. by apply filter_tail.
Qed.

(** When nothing fails the outbox is emptied in order: a table with n pending records has
    them all published after n / 100 turns (rounded up), each exactly once and in the order of
    their ids, and none is pending any more. *)
Theorem outbox_delivers (t : outbox) (k : nat) : NoDup (ob_ID <$> t) -> (length (pending t) <= 100 * k)%nat ->
  let s := outbox_run (replicate k (Turn all_works)) (t, []) in
  s.2 = ob_ID <$> pending t /\ pending s.1 = [] /\ NoDup s.2.
Proof.
  intros Hnd Hk. assert (Hgen : forall k s, NoDup (ob_ID <$> s.1) -> (length (pending s.1) <= 100 * k)%nat ->
    (outbox_run (replicate k (Turn all_works)) s).2 = s.2 ++ (ob_ID <$> pending s.1) /\ pending (outbox_run (replicate k (Turn all_works)) s).1 = []).
  { clear. unfold outbox_run. induction k as [|k IH]; intros s Hs Hl.
    - destruct (pending s.1) eqn:E; [|cbn in Hl; lia]. cbn. by rewrite app_nil_r.
    - cbn [replicate foldl outbox_step]. destruct (turn_works s Hs) as (H1 & H2 & H3). destruct (IH (relayOnce all_works s)) as [Ha Hb].
      + by rewrite H3.
      + rewrite H2, length_drop. lia.
      + split; [|done]. rewrite Ha, H1, H2, <- (assoc_L (++)), <- fmap_app. unfold batch. by rewrite take_drop. }
  cbn zeta. destruct (Hgen k (t, []) Hnd Hk) as [H1 H2]. cbn [fst snd app] in H1, H2. split; [done|split; [done|]]. rewrite H1. by apply pending_ids_NoDup.
Qed.

Definition demo_outbox : outbox := (fun i => mkOutbox (Z.of_nat i) "orders" "{}" true) <$> seq 0 150.

Lemma outbox_delivers_witness : (outbox_run (replicate 2 (Turn all_works)) (demo_outbox, [])).2 = Z.of_nat <$> seq 0 150.
Proof.
  destruct (outbox_delivers demo_outbox 2) as [H _]; [|vm_compute; lia|etransitivity; [exact H|by vm_compute]].
  unfold demo_outbox. rewrite <- list_fmap_compose. apply NoDup_fmap_2; [intros x y H; cbn in H; lia|apply NoDup_seq].
Defined.

(** What the outbox does when something keeps failing.  A record whose publishing succeeds
    but whose marking fails is published again at every turn.  While the first hundred pending
    records cannot be published, no other record is even tried, however many turns pass and
    whatever is inserted behind them. *)
Theorem outbox_stuck (t : outbox) (o : turn) (evs : list outbox_event) :
  (forall r, r ∈ batch t -> tn_publish o (ob_ID r) = false) -> length (batch t) = 100%nat ->
  Forall (fun ev => match ev with Insert _ _ _ => True | Turn o' => o' = o end) evs ->
  (outbox_run evs (t, [])).2 = [] /\
  (outbox_run [Insert 1 "orders" "{}"; Turn (mkTurn true (fun _ => true) (fun _ => false)); Turn all_works] ([], [])).2 = [1; 1].
Proof.
  intros Hf Hlen Hevs. split; [|by vm_compute].
  assert (Hskip : forall rs s, (forall r, r ∈ rs -> tn_publish o (ob_ID r) = false) -> foldl (relay_record o) s rs = s).
  { clear. induction rs as [|r rs IH]; intros s H; [done|]. cbn [foldl]. unfold relay_record at 2. rewrite (H r) by left. cbn [negb]. apply IH. intros x Hx. apply H. by right. }
  assert (Hgen : forall t', batch t' = batch t -> (outbox_run evs (t', [])).2 = []); [|by apply Hgen].
  unfold outbox_run. induction Hevs as [|ev evs Hev _ IH]; intros t' Hb; [done|]. cbn [foldl]. destruct ev as [id subject payload|o']; cbn [outbox_step].
  - apply IH. unfold InsertOutbox, batch, pending in *. cbn [fst]. rewrite filter_app, take_app_le; [done|]. rewrite <- Hb, length_take in Hlen. lia.
  - subst o'. unfold relayOnce. cbn [fst]. rewrite Hskip by (rewrite Hb; exact Hf). replace (if tn_query o then (t', []) else (t', [])) with (t', @nil Z) by (by destruct (tn_query o)). by apply IH.
Qed.

Lemma outbox_stuck_witness :
  (outbox_run [Turn (mkTurn true (fun id => 100 <=? id) (fun _ => true)); Insert 150 "orders" "{}"; Turn (mkTurn true (fun id => 100 <=? id) (fun _ => true))] (demo_outbox, [])).2 = [].
Proof.
  apply (outbox_stuck demo_outbox (mkTurn true (fun id => 100 <=? id) (fun _ => true))); [|by vm_compute|repeat constructor].
  intros r Hr. cbn. assert (H : Forall (fun r => ob_ID r < 100) (batch demo_outbox)) by (vm_compute; repeat constructor).
  eapply Forall_forall in H; [|exact Hr]. by apply Z.leb_gt.
Defined.

(** ** Cron jobs *)

Inductive cron_action := CronPublishTo (subject : string) | CronHandler (name : string) | CronInternal.
Inductive cron_error := CronStarted | CronDuplicate | CronNoBroker | CronNoHandler | CronMode | CronSchedule | CronNilPublish.

(** [cs_entries] is what the scheduler of the library runs. *)
Record CronScheduler : Type := mkCron { cr_entries : list (string * string * cron_action); cr_jobs : gset string; cr_started : bool }.
Definition NewCronScheduler : CronScheduler := mkCron [] ∅ false.

Section cron.
(** Whether the library parses a schedule. *)
Context (parses : string -> bool).

Definition add_func (cfg : CronJob) (a : cron_action) (s : CronScheduler) : CronScheduler + cron_error :=
  if parses (CronJob_Schedule cfg) then
    inl (mkCron (cr_entries s ++ [(CronJob_Name cfg, CronJob_Schedule cfg, a)]) ({[CronJob_Name cfg]} ∪ cr_jobs s) (cr_started s))
  else inr CronSchedule.

(** [broker] says whether there is one; [handler] names the function found. *)
Definition AddJob (cfg : CronJob) (broker : bool) (handler : option string) (s : CronScheduler) : CronScheduler + cron_error :=
  if cr_started s then inr CronStarted
  else if bool_decide (CronJob_Name cfg ∈ cr_jobs s) then inr CronDuplicate
  else if (CronJob_Mode cfg =? "nats")%string then
    if negb broker then inr CronNoBroker
    else match CronJob_Publish cfg with
         | Some p => add_func cfg (CronPublishTo (if (CronPublish_Subject p =? "")%string then CronPublish_Stream p else CronPublish_Subject p)) s
         | None => inr CronNilPublish
         end
  else if (CronJob_Mode cfg =? "handler")%string then
    match handler with Some h => add_func cfg (CronHandler h) s | None => inr CronNoHandler end
  else if (CronJob_Mode cfg =? "internal")%string then add_func cfg CronInternal s
  else inr CronMode.

Fixpoint AddAll (cronDefs : list CronJob) (broker : bool) (handlers : gset string) (s : CronScheduler) : option cron_error * CronScheduler :=
  match cronDefs with
  | [] => (None, s)
  | cfg :: cronDefs =>
      let handler := if (CronJob_Mode cfg =? "handler")%string && bool_decide (CronJob_Handler cfg ∈ handlers) then Some (CronJob_Handler cfg) else None in
      match AddJob cfg broker handler s with inl s => AddAll cronDefs broker handlers s | inr e => (Some e, s) end
  end.

Definition Start (s : CronScheduler) : CronScheduler := mkCron (cr_entries s) (cr_jobs s) true.
Definition Stop (s : CronScheduler) : CronScheduler := mkCron (cr_entries s) (cr_jobs s) false.

Notation names s := ((fun e => e.1.1) <$> cr_entries s).

Lemma AddJob_entries cfg broker handler s s' : AddJob cfg broker handler s = inl s' ->
  exists a, cr_entries s' = cr_entries s ++ [(CronJob_Name cfg, CronJob_Schedule cfg, a)] /\ cr_jobs s' = {[CronJob_Name cfg]} ∪ cr_jobs s /\
    CronJob_Name cfg ∉ cr_jobs s /\ cr_started s' = cr_started s /\ cr_started s = false.
Proof.
  unfold AddJob, add_func. destruct (cr_started s); [done|]. case_bool_decide as Hn; [done|].
  destruct (CronJob_Mode cfg =? "nats")%string; [destruct broker; [|done]; destruct (CronJob_Publish cfg); [|done]|
    destruct (CronJob_Mode cfg =? "handler")%string; [destruct handler; [|done]|destruct (CronJob_Mode cfg =? "internal")%string; [|done]]];
    cbn [negb]; destruct (parses (CronJob_Schedule cfg)); try done; intros [= <-]; eexists; done.
Qed.

(** The scheduler runs the jobs of the configuration: if all can be added, each job is
    scheduled exactly once, in order and under a name of its own; if one cannot, the ones before
    it stay scheduled and the service does not start. *)
Theorem cron_jobs_scheduled (cronDefs : list CronJob) (broker : bool) (handlers : gset string) :
  let '(err, s) := AddAll cronDefs broker handlers NewCronScheduler in
  (err = None -> names s = CronJob_Name <$> cronDefs /\ NoDup (CronJob_Name <$> cronDefs)) /\
  (forall e, err = Some e -> exists done_ rest, cronDefs = done_ ++ rest /\ rest <> [] /\ names s = CronJob_Name <$> done_).
Proof.
  assert (Hgen : forall defs s0, cr_started s0 = false -> NoDup (names s0) -> (forall n, n ∈ cr_jobs s0 <-> n ∈ names s0) ->
    let '(err, s) := AddAll defs broker handlers s0 in
    (err = None -> names s = names s0 ++ (CronJob_Name <$> defs) /\ NoDup (names s)) /\
    (forall e, err = Some e -> exists d r, defs = d ++ r /\ r <> [] /\ names s = names s0 ++ (CronJob_Name <$> d))).
  { clear. induction defs as [|cfg defs IH]; intros s0 H0 Hnd Hj; cbn [AddAll]; [split; [intros _; by rewrite app_nil_r|done]|].
    destruct (AddJob _ _ _ s0) as [s1|e] eqn:Ea.
    - apply AddJob_entries in Ea as (a & He & Hjobs & Hfresh & Hs1 & _).
      assert (Hn1 : names s1 = names s0 ++ [CronJob_Name cfg]) by (rewrite He, fmap_app; done).
      specialize (IH s1). destruct (AddAll defs broker handlers s1) as [err s]. destruct IH as [IH1 IH2].
      + congruence.
      + rewrite Hn1. apply NoDup_app. split; [done|split; [|apply NoDup_singleton]]. intros x Hx ->%list_elem_of_singleton. apply Hfresh. by apply Hj.
      + intros n. rewrite Hjobs, Hn1, elem_of_union, elem_of_singleton, elem_of_app, list_elem_of_singleton, Hj. tauto.
      + split.
        * intros E. destruct (IH1 E) as [-> Hd]. split; [|done]. rewrite Hn1. cbn. by rewrite <- (assoc_L (++)).
        * intros e E. destruct (IH2 e E) as (d & r & -> & Hr & ->). exists (cfg :: d), r. split; [done|split; [done|]]. rewrite Hn1. cbn. by rewrite <- (assoc_L (++)).
    - split; [done|]. intros e' _. exists [], (cfg :: defs). split; [done|split; [done|]]. by rewrite app_nil_r. }
  pose proof (Hgen cronDefs NewCronScheduler eq_refl ltac:(constructor) ltac:(intros n; cbn; set_solver)) as H.
  destruct (AddAll cronDefs broker handlers NewCronScheduler) as [err s]. destruct H as [H1 H2]. split; [|exact H2].
  intros E. destruct (H1 E) as [Hn Hd]. cbn in Hn. rewrite Hn in Hd. done.
Qed.
End cron.

Lemma cron_jobs_scheduled_witness :
  let jobs := [mkCronJob "a" "@daily" "internal" None ""; mkCronJob "b" "@daily" "handler" None "F"] in
  (AddAll (fun _ => true) jobs false {["F"]} NewCronScheduler).1 = None /\ NoDup (CronJob_Name <$> jobs).
Proof.
  cbn zeta. split; [by vm_compute|].
  pose proof (cron_jobs_scheduled (fun _ => true) [mkCronJob "a" "@daily" "internal" None ""; mkCronJob "b" "@daily" "handler" None "F"] false {["F"]}) as H.
  destruct (AddAll _ _ _ _ _) as [err s] eqn:E. destruct H as [H _]. apply (f_equal fst) in E. vm_compute in E. destruct (H (eq_sym E)) as [_ Hd]. exact Hd.
Defined.
