(* ===== verification/DbResolver.v ===== *)
(** * Database pools (runtime/db_resolver.go)

    A pool is the configuration it was opened with: the drivers are libraries, and whether
    opening a database works is an argument.  [getenv] is [os.Getenv], [ParseDuration]
    [time.ParseDuration] in nanoseconds. *)

From S2P Require Import Prelude GoStrings GoStrconv SqlModel ConfigTypes ConfigValidate.
From S2P Require OpenApi.
From Stdlib Require Import Ascii.

#[local] Open Scope string_scope.
#[local] Open Scope list_scope.
#[local] Open Scope Z_scope.

(** [db.PoolConfig] of a PostgreSQL pool. *)
Record PoolSettings : Type := mkPoolSettings {
  ps_MaxConns : Z; ps_MinConns : Z; ps_MaxConnLifetime : Z; ps_MaxConnIdleTime : Z; ps_HealthCheckPeriod : Z; ps_StatementTimeout : Z }.

Inductive pool :=
| PgPool (url : string) (s : PoolSettings)
| SqlPool (driver url token : string) (maxOpen maxIdle : option Z)
| MongoPool (url uri : string).

Definition pool_url (p : pool) : string := match p with PgPool url _ | SqlPool _ url _ _ _ | MongoPool url _ => url end.
Definition pool_driver (p : pool) : string := match p with PgPool _ _ => "postgres" | SqlPool d _ _ _ _ => d | MongoPool _ _ => "mongo" end.

Section resolver.
Context (getenv : string -> string) (ParseDuration : string -> option Z).

(** [strconv.ParseInt(v, 10, 32)] of a variable that is set to a positive number. *)
Definition env_int (name : string) (def : Z) : Z :=
  let v := getenv name in
  if (v =? "")%string then def
  else match ParseInt v with (n, None) => if (0 <? n) && (n <? 2^31) then n else def | _ => def end.

(** 32-bit wrap-around. *)
Definition wrap32 (z : Z) : Z := (z + 2^31) mod 2^32 - 2^31.

Definition autoSizeMaxConns (pc : PoolConf) : Z :=
  let pgMax := env_int "PG_SERVER_MAX_CONNS" 100 in
  let reserved := if PoolConf_ReservedConns pc <=? 0 then 10 else PoolConf_ReservedConns pc in
  let replicas := env_int "REPLICA_COUNT" 1 in
  Z.max (Z.quot (wrap32 (pgMax - reserved)) replicas) 1.

Definition applyPoolConf (pc : option PoolConf) : PoolSettings :=
  match pc with
  | None => mkPoolSettings 10 2 0 0 0 0
  | Some pc =>
      let dur s := default 0 (ParseDuration s) in
      mkPoolSettings (if PoolConf_MaxConns pc <=? 0 then autoSizeMaxConns pc else PoolConf_MaxConns pc) (PoolConf_MinConns pc)
        (dur (PoolConf_MaxConnLifetime pc)) (dur (PoolConf_MaxConnIdleTime pc)) (dur (PoolConf_HealthCheckPeriod pc)) (dur (PoolConf_StatementTimeout pc))
  end.

Definition initPostgres (cfg : DBConfig) : pool := PgPool (DBConfig_URL cfg) (applyPoolConf (DBConfig_Pool cfg)).

Definition max_open (cfg : DBConfig) : option Z :=
  match DBConfig_Pool cfg with Some p => if 0 <? PoolConf_MaxConns p then Some (PoolConf_MaxConns p) else None | None => None end.

(** The SQL drivers: Turso, libSQL and MySQL. *)
Definition initSQL (cfg : DBConfig) : pool :=
  let idle := match DBConfig_Pool cfg with
              | Some p => if (DBConfig_Driver cfg =? "mysql")%string && (0 <? PoolConf_MaxConns p) && (0 <? PoolConf_MinConns p) then Some (PoolConf_MinConns p) else None
              | None => None end in
  SqlPool (DBConfig_Driver cfg) (DBConfig_URL cfg) (DBConfig_AuthToken cfg) (max_open cfg) idle.

Definition initMongo (cfg : DBConfig) : pool :=
  let uri := DBConfig_URL cfg in
  let uri :=
    match DBConfig_Pool cfg with
    | Some p =>
        if 0 <? PoolConf_MaxConns p then
          let uri := if negb (GoStrings.Contains uri "/?") && negb (GoStrings.Contains uri "?") then (uri ++ "/")%string else uri in
          (uri ++ "?maxPoolSize=" ++ pretty (PoolConf_MaxConns p) ++ "&maxConnecting=" ++ pretty (Z.min (Z.quot (PoolConf_MaxConns p) 10) 10))%string
        else uri
    | None => uri
    end in
  MongoPool (DBConfig_URL cfg) uri.

Definition open_pool (cfg : DBConfig) : option pool :=
  if (DBConfig_Driver cfg =? "postgres")%string then Some (initPostgres cfg)
  else if str_in (DBConfig_Driver cfg) ["turso"; "turso-serverless"; "libsql"; "go-libsql"; "mysql"] then Some (initSQL cfg)
  else if (DBConfig_Driver cfg =? "mongo")%string then Some (initMongo cfg)
  else None.

Inductive db_init_error := InvalidConfig (e : cfg_error) | UnknownDriver | OpenFailed.

(** [works] says whether a database can be opened. *)
Context (works : DBConfig -> bool).

Definition dedupKey (cfg : DBConfig) : string := (DBConfig_Driver cfg ++ ":" ++ DBConfig_URL cfg)%string.

Fixpoint init_loop (databases : list DBConfig) (pools poolByKey : gmap string pool) : gmap string pool + db_init_error :=
  match databases with
  | [] => inl pools
  | dbCfg :: databases =>
      match DBConfig_Validate getenv dbCfg with
      | (_, Some e) => inr (InvalidConfig e)
      | (dbCfg, None) =>
          match poolByKey !! dedupKey dbCfg with
          | Some existing => init_loop databases (<[DBConfig_Name dbCfg := existing]> pools) poolByKey
          | None =>
              match open_pool dbCfg with
              | None => inr UnknownDriver
              | Some p =>
                  if negb (DBConfig_Driver dbCfg =? "mongo")%string && negb (works dbCfg) then inr OpenFailed
                  else
                    let pools := <[DBConfig_Name dbCfg := p]> pools in
                    let readCfg := dbCfg <| DBConfig_URL := DBConfig_ReadURL dbCfg |> in
                    let pools :=
                      if (DBConfig_Driver dbCfg =? "postgres")%string && negb (DBConfig_ReadURL dbCfg =? "")%string && works readCfg
                      then <[(DBConfig_Name dbCfg ++ "-read")%string := initPostgres readCfg]> pools else pools in
                    init_loop databases pools (<[dedupKey dbCfg := p]> poolByKey)
              end
          end
      end
  end.
Definition initDatabases (databases : list DBConfig) : gmap string pool + db_init_error := init_loop databases ∅ ∅.

Definition PoolPGRead (pools : gmap string pool) (name : string) : option pool :=
  match pools !! (name ++ "-read")%string with
  | Some (PgPool url s) => Some (PgPool url s)
  | _ => match pools !! name with Some (PgPool url s) => Some (PgPool url s) | _ => None end
  end.

(** ** What validation leaves *)

Definition drivers : list string := ["postgres"; "turso"; "turso-serverless"; "libsql"; "go-libsql"; "mysql"; "mongo"].

Lemma normalizeDriver_known d d' : DBConfig_normalizeDriver d = (d', None) ->
  DBConfig_Name d' = DBConfig_Name d /\ DBConfig_URL d' = DBConfig_URL d /\ DBConfig_ReadURL d' = DBConfig_ReadURL d /\ DBConfig_Pool d' = DBConfig_Pool d /\
  DBConfig_Driver d' ∈ drivers.
Proof.
  unfold DBConfig_normalizeDriver, drivers. destruct (str_in _ ["postgres"; "pg"]); [intros [= <-]; repeat split; cbn; left|].
  destruct (String.eqb_spec (DBConfig_Driver d) "turso") as [Et|_].
  { destruct (TursoConf_Validate _) as [t err]. intros [= <- ->]. repeat split; cbn. rewrite Et. right; left. }
  destruct (str_in _ ["turso-serverless"; "libsql"; "go-libsql"]) eqn:E2.
  { apply str_in_spec in E2. destruct (DBConfig_Turso d); intros [= <-]; repeat split; cbn; set_solver. }
  destruct (str_in _ ["mysql"; "mongo"]) eqn:E3; [|done]. apply str_in_spec in E3. intros [= <-]. repeat split. set_solver.
Qed.

(** A validated database keeps its name and its URLs, has a known driver, and its pool has at
    least one connection. *)
Lemma Validate_ok d d' : DBConfig_Validate getenv d = (d', None) ->
  DBConfig_Name d' = DBConfig_Name d /\ DBConfig_URL d' = DBConfig_URL d /\ DBConfig_ReadURL d' = DBConfig_ReadURL d /\ DBConfig_Driver d' ∈ drivers /\
  (DBConfig_Driver d' <> "mongo" -> DBConfig_Pool d' = Some (PoolConf_defaults (match DBConfig_Pool d with Some p => p | None => mkPoolConf 10 2 "" "" "" 10 "" end))).
Proof.
  unfold DBConfig_Validate. intros H. apply m_seq_ok in H as (d1 & H1 & H). apply m_check_ok in H1 as [_ ->].
  apply m_seq_ok in H as (d2 & H2 & H). apply m_check_ok in H2 as [_ ->]. apply m_seq_ok in H as (d3 & H3 & H). apply m_check_ok in H3 as [_ ->].
  apply m_seq_ok in H as (d4 & H4 & H). apply m_assign_if_ok in H4. apply m_seq_ok in H as (d5 & H5 & H). apply m_assign_if_ok in H.
  assert (H4' : DBConfig_Name d4 = DBConfig_Name d /\ DBConfig_URL d4 = DBConfig_URL d /\ DBConfig_ReadURL d4 = DBConfig_ReadURL d /\ DBConfig_Pool d4 = DBConfig_Pool d).
  { rewrite H4. unfold DBConfig_resolveAuthToken. destruct (_ || _); [done|]. destruct (negb (is_empty (getenv _))); done. }
  apply normalizeDriver_known in H5 as (E1 & E2 & E3 & Hp & Hd). destruct H4' as (F1 & F2 & F3 & F4). subst d'.
  destruct (negb (DBConfig_Driver d5 =? "mongo")%string) eqn:E.
  - cbn. rewrite Hp, F4. split_and!; [congruence..|done|done].
  - apply negb_false_iff, String.eqb_eq in E. split_and!; [congruence..|done|done].
Qed.

Lemma open_pool_ok cfg p : open_pool cfg = Some p -> pool_driver p = DBConfig_Driver cfg /\ pool_url p = DBConfig_URL cfg.
Proof.
  unfold open_pool. destruct (String.eqb_spec (DBConfig_Driver cfg) "postgres") as [->|_]; [by intros [= <-]|].
  destruct (str_in _ _); [by intros [= <-]|]. destruct (String.eqb_spec (DBConfig_Driver cfg) "mongo") as [->|_]; [by intros [= <-]|done].
Qed.

(** The key names the driver and the URL. *)
Lemma dedupKey_inj c1 c2 : DBConfig_Driver c1 ∈ drivers -> DBConfig_Driver c2 ∈ drivers -> dedupKey c1 = dedupKey c2 ->
  DBConfig_Driver c1 = DBConfig_Driver c2 /\ DBConfig_URL c1 = DBConfig_URL c2.
Proof.
  assert (Hd : forall d, d ∈ drivers -> str_all (fun c => negb (Ascii.eqb c ":")) d = true).
  { intros d. unfold drivers. rewrite !elem_of_cons, elem_of_nil. intros [->|[->|[->|[->|[->|[->|[->|[]]]]]]]]; done. }
  intros H1%Hd H2%Hd E. unfold dedupKey in E. apply (f_equal (fun s => SplitN2 s ":")) in E.
  change (":" ++ DBConfig_URL c1)%string with (String ":" (DBConfig_URL c1)) in E. change (":" ++ DBConfig_URL c2)%string with (String ":" (DBConfig_URL c2)) in E.
  rewrite !SplitN2_app in E by done. by injection E.
Qed.

(** What the keys of the loop name. *)
Definition keys_ok (byKey : gmap string pool) : Prop :=
  forall k p, byKey !! k = Some p -> exists c, DBConfig_Driver c ∈ drivers /\ k = dedupKey c /\ pool_driver p = DBConfig_Driver c /\ pool_url p = DBConfig_URL c.

Definition is_for (p : pool) (d : DBConfig) : Prop :=
  exists d', DBConfig_Validate getenv d = (d', None) /\ pool_driver p = DBConfig_Driver d' /\ pool_url p = DBConfig_URL d.

(** No database has the name of another, or of another's replica. *)
Definition names_free (ds : list DBConfig) : Prop :=
  NoDup (DBConfig_Name <$> ds) /\ forall d d', d ∈ ds -> d' ∈ ds -> DBConfig_Name d <> (DBConfig_Name d' ++ "-read")%string.

Lemma init_loop_ok ds : forall pools byKey pools', keys_ok byKey -> names_free ds -> init_loop ds pools byKey = inl pools' ->
  (forall d, d ∈ ds -> exists p, pools' !! DBConfig_Name d = Some p /\ is_for p d) /\
  (forall n, (forall d, d ∈ ds -> n <> DBConfig_Name d /\ n <> (DBConfig_Name d ++ "-read")%string) -> pools' !! n = pools !! n).
Proof.
  induction ds as [|d ds IH]; intros pools byKey pools' Hk [Hnd Hnr]; cbn [init_loop]; [intros [= <-]; split; [intros ? []%not_elem_of_nil|done]|].
  destruct (DBConfig_Validate getenv d) as [d' [e|]] eqn:Ev; [done|]. pose proof (Validate_ok d d' Ev) as (Hname & Hurl & Hread & Hdr & _).
  cbn in Hnd. apply NoDup_cons in Hnd as [Hfresh Hnd].
  assert (Hfree : names_free ds) by (split; [done|intros a b Ha Hb; apply Hnr; by right]).
  assert (Hlater : forall x, x ∈ ds -> DBConfig_Name d <> DBConfig_Name x /\ DBConfig_Name d <> (DBConfig_Name x ++ "-read")%string).
  { intros x Hx. split; [intros E; apply Hfresh; rewrite E; by apply list_elem_of_fmap_2|]. apply Hnr; [left|by right]. }
  assert (Hmain : forall pools1 byKey1 p, keys_ok byKey1 -> pools1 !! DBConfig_Name d = Some p -> pool_driver p = DBConfig_Driver d' -> pool_url p = DBConfig_URL d' ->
    (forall n, n <> DBConfig_Name d -> n <> (DBConfig_Name d ++ "-read")%string -> pools1 !! n = pools !! n) -> init_loop ds pools1 byKey1 = inl pools' ->
    (forall x, x ∈ d :: ds -> exists p, pools' !! DBConfig_Name x = Some p /\ is_for p x) /\
    (forall n, (forall x, x ∈ d :: ds -> n <> DBConfig_Name x /\ n <> (DBConfig_Name x ++ "-read")%string) -> pools' !! n = pools !! n)).
  { intros pools1 byKey1 p Hk1 Hp Hpd Hpu Hsame Hinit. destruct (IH _ _ _ Hk1 Hfree Hinit) as [Ha Hb]. split.
    - intros x [->|Hx]%elem_of_cons; [|by apply Ha]. exists p. rewrite Hb by done. split; [done|]. exists d'. by rewrite <- Hurl.
    - intros n Hn. rewrite Hb by (intros x Hx; apply Hn; by right). destruct (Hn d) as [H1 H2]; [left|]. by apply Hsame. }
  destruct (byKey !! dedupKey d') as [ex|] eqn:Ek.
  - destruct (Hk _ _ Ek) as (c & Hc & Ekey & Hpd & Hpu). destruct (dedupKey_inj d' c Hdr Hc Ekey) as [E1 E2].
    apply (Hmain _ byKey ex); [done|by rewrite Hname, lookup_insert_eq|congruence|congruence|]. intros n H1 _. rewrite Hname. by rewrite lookup_insert_ne.
  - destruct (open_pool d') as [p|] eqn:Eo; [|done]. destruct (open_pool_ok d' p Eo) as [Hpd Hpu]. destruct (_ && negb (works d')); [done|].
    apply Hmain with (p := p); [|rewrite Hname|done|done|].
    + intros k q. destruct (decide (dedupKey d' = k)) as [<-|Hne]; [rewrite lookup_insert_eq; intros [= <-]; by exists d'|]. rewrite lookup_insert_ne by done. apply Hk.
    + destruct (_ && works _); [|by rewrite lookup_insert_eq]. rewrite lookup_insert_ne; [by rewrite lookup_insert_eq|].
      intros E. by apply (Hnr d d); [left|left|].
    + intros n H1 H2. rewrite Hname. destruct (_ && works _); rewrite ?lookup_insert_ne by (intros E; done); done.
Qed.

(** Every database of the configuration gets a pool of its own driver and URL: when the pools
    are opened and no name is another's (or another's replica's), the pool of a name has the
    driver and the URL configured under it, even though databases with the same driver and URL
    share one. *)
Theorem databases_resolved (ds : list DBConfig) (pools : gmap string pool) :
  names_free ds -> initDatabases ds = inl pools -> forall d, d ∈ ds -> exists p, pools !! DBConfig_Name d = Some p /\ is_for p d.
Proof. intros Hn Hi. apply (proj1 (init_loop_ok ds ∅ ∅ pools ltac:(intros k p H; by rewrite lookup_empty in H) Hn Hi)). Qed.

(** The pool sizes that are configured are the ones used.  Validation replaces a missing or
    non-positive number of connections by ten before a pool is opened, so the size computed from
    the server's connections and the replicas is never used, whatever the environment says; that
    size itself leaves the reserved connections free, unless only one is left. *)
Theorem pool_sizes (d d' : DBConfig) : DBConfig_Validate getenv d = (d', None) -> DBConfig_Driver d' = "postgres" ->
  (exists s, initPostgres d' = PgPool (DBConfig_URL d) s /\
     ps_MaxConns s = (match DBConfig_Pool d with Some p => if PoolConf_MaxConns p <? 1 then 10 else PoolConf_MaxConns p | None => 10 end)) /\
  (forall pc, 0 < PoolConf_ReservedConns pc < 2^31 ->
     let pgMax := env_int "PG_SERVER_MAX_CONNS" 100 in
     let replicas := env_int "REPLICA_COUNT" 1 in
     autoSizeMaxConns pc = 1 \/ autoSizeMaxConns pc * replicas + PoolConf_ReservedConns pc <= pgMax).
Proof.
  intros Hv Hd. pose proof (Validate_ok d d' Hv) as (_ & Hurl & _ & _ & Hp). split.
  - unfold initPostgres. rewrite Hurl. eexists. split; [done|]. rewrite Hp by (by rewrite Hd). destruct (DBConfig_Pool d) as [p|]; [|done].
    unfold PoolConf_defaults. destruct (Z.ltb_spec (PoolConf_MaxConns p) 1) as [H|H].
    + cbn. destruct (PoolConf_MinConns p <? 1); cbn; destruct (PoolConf_ReservedConns p <? 1); done.
    + destruct (PoolConf_MinConns p <? 1); cbn; destruct (PoolConf_ReservedConns p <? 1); cbn; rewrite (proj2 (Z.leb_gt _ _)); done || lia.
  - intros pc Hr. cbn zeta. unfold autoSizeMaxConns. rewrite (proj2 (Z.leb_gt (PoolConf_ReservedConns pc) 0)) by lia.
    assert (Henv : forall n def, 0 < def < 2^31 -> 0 < env_int n def < 2^31).
    { intros n def Hdef. unfold env_int. destruct (getenv n =? "")%string; [done|]. destruct (ParseInt (getenv n)) as [v [e|]]; [done|].
      destruct (Z.ltb_spec 0 v); [|done]. destruct (Z.ltb_spec v (2^31)); cbn [andb]; lia. }
    pose proof (Henv "PG_SERVER_MAX_CONNS" 100 ltac:(lia)) as H1. pose proof (Henv "REPLICA_COUNT" 1 ltac:(lia)) as H2.
    set (m := env_int "PG_SERVER_MAX_CONNS" 100) in *. set (r := env_int "REPLICA_COUNT" 1) in *.
    assert (Hw : wrap32 (m - PoolConf_ReservedConns pc) = m - PoolConf_ReservedConns pc) by (unfold wrap32; rewrite Z.mod_small; lia). rewrite Hw.
    destruct (Z.le_gt_cases 1 (Z.quot (m - PoolConf_ReservedConns pc) r)) as [Hq|Hq]; [right|left; lia]. rewrite Z.max_l by lia.
    assert (0 <= m - PoolConf_ReservedConns pc). { destruct (Z.le_gt_cases 0 (m - PoolConf_ReservedConns pc)); [done|]. pose proof (Z.quot_le_mono (m - PoolConf_ReservedConns pc) 0 r ltac:(lia) ltac:(lia)) as Hm. rewrite Z.quot_0_l in Hm by lia. lia. }
    pose proof (Z.mul_quot_le (m - PoolConf_ReservedConns pc) r ltac:(lia) ltac:(lia)). lia.
Qed.
End resolver.

Definition no_env (_ : string) : string := "".
Definition pg (name url read : string) : DBConfig := mkDBConfig name "pg" url "" read "" None None None.

Lemma databases_resolved_witness :
  exists pools, initDatabases no_env (fun _ => None) (fun _ => true) [pg "main" "postgres://a" "postgres://r"; pg "audit" "postgres://a" ""] = inl pools /\
    exists p, pools !! "audit" = Some p /\ pool_url p = "postgres://a".
Proof.
  destruct (initDatabases no_env (fun _ => None) (fun _ => true) [pg "main" "postgres://a" "postgres://r"; pg "audit" "postgres://a" ""]) as [pools|e] eqn:E; [|by vm_compute in E].
  exists pools. split; [done|].
  destruct (databases_resolved no_env (fun _ => None) (fun _ => true) [pg "main" "postgres://a" "postgres://r"; pg "audit" "postgres://a" ""] pools) with (d := pg "audit" "postgres://a" "")
    as (p & Hp & d' & _ & _ & Hu).
  - split; [by repeat constructor; set_solver|]. intros d d'. rewrite !elem_of_cons, !elem_of_nil. intros [->|[->|[]]] [->|[->|[]]] E'; vm_compute in E'; discriminate E'.
  - exact E.
  - right; left.
  - exists p. split; [exact Hp|exact Hu].
Defined.

Lemma pool_sizes_witness :
  exists s, initPostgres no_env (fun _ => None) (DBConfig_Validate no_env (pg "main" "postgres://a" "")).1 = PgPool "postgres://a" s /\ ps_MaxConns s = 10.
Proof. exact (proj1 (pool_sizes no_env (fun _ => None) (fun _ => true) (pg "main" "postgres://a" "") (DBConfig_Validate no_env (pg "main" "postgres://a" "")).1 eq_refl eq_refl)). Defined.

(** What sharing pools and building URIs miss.  A second database with the driver and the URL
    of a first one gets the first's pool, so its own connection limits and token are not used and
    its read replica is never opened: its reads go to the primary.  A MongoDB URI that has a
    query gets a second question mark, and the database name of one that has none is followed by
    a slash. *)
Theorem pool_sharing_gaps :
  (exists pools, initDatabases no_env (fun _ => None) (fun _ => true) [pg "main" "postgres://a" ""; pg "audit" "postgres://a" "postgres://replica"] = inl pools /\
     exists s, PoolPGRead pools "audit" = Some (PgPool "postgres://a" s)) /\
  (let db name token := mkDBConfig name "turso-serverless" "libsql://x" token "" "" None None None in
   exists pools, initDatabases no_env (fun _ => None) (fun _ => true) [db "one" "token-1"; db "two" "token-2"] = inl pools /\
     exists a b, pools !! "two" = Some (SqlPool "turso-serverless" "libsql://x" "token-1" a b)) /\
  (let db url := mkDBConfig "m" "mongo" url "" "" "" (Some (mkPoolConf 50 0 "" "" "" 0 "")) None None in
   initMongo (db "mongodb://h/shop?authSource=admin") = MongoPool "mongodb://h/shop?authSource=admin" "mongodb://h/shop?authSource=admin?maxPoolSize=50&maxConnecting=5" /\
   initMongo (db "mongodb://h/shop") = MongoPool "mongodb://h/shop" "mongodb://h/shop/?maxPoolSize=50&maxConnecting=5").
Proof.
  split; [eexists; split; [by vm_compute|]; eexists; by vm_compute|].
  split; [cbn zeta; eexists; split; [by vm_compute|]; do 2 eexists; by vm_compute|]. split; by vm_compute.
Qed.
