(* ===== verification/Storage.v ===== *)
(** * File storage (server/storage.go, server/spool.go, runtime/entry_file.go, the cached
    storage of runtime/service.go)

    The directory tree is a map from the elements of an absolute path to a file or a
    directory, without symbolic links; the root of the tree always exists.  Readers are the
    bytes they deliver and whether they fail afterwards. *)

From S2P Require Import Prelude GoStrings GoStrconv SqlModel GoPath OpenApi.
From Stdlib Require Import Ascii.

#[local] Open Scope string_scope.

(** ** The file system *)

Inductive node := File (data : string) | Dir.
Notation fs := (gmap (list string) node).

Definition is_dir (t : fs) (p : list string) : bool :=
  match p with [] => true | _ => match t !! p with Some Dir => true | _ => false end end.

(** The elements the kernel walks for a clean absolute path. *)
Definition elems (path : string) : list string := clean_elems true path.

(** [os.MkdirAll]: the directories of the path from the top. *)
Fixpoint mkdirs (t : fs) (above below : list string) : option fs :=
  match below with
  | [] => Some t
  | e :: below =>
      let p := (above ++ [e])%list in
      match t !! p with
      | Some Dir => mkdirs t p below
      | Some (File _) => None
      | None => mkdirs (<[p := Dir]> t) p below
      end
  end.
Definition MkdirAll (t : fs) (path : string) : option fs := mkdirs t [] (elems path).

(** The directory a path is in. *)
Definition parent (p : list string) : list string := reverse (tail (reverse p)).

(** [os.Create]: the file is made or truncated. *)
Definition Create (t : fs) (p : list string) : option fs :=
  if is_dir t (parent p) && negb (is_dir t p) then Some (<[p := File ""]> t) else None.

Inductive opened := OpenFile (data : string) | OpenDir | NotExist | OpenError.

(** Some directory of the path is a file. *)
Definition is_file (t : fs) (p : list string) : bool := match t !! p with Some (File _) => true | _ => false end.
Definition through_file (t : fs) (p : list string) : bool :=
  existsb (fun n => is_file t (take (S n) (parent p))) (seq 0 (length (parent p))).

(** [os.Open]: a path through a file is another error than a missing one. *)
Definition Open (t : fs) (p : list string) : opened :=
  if is_dir t p then OpenDir
  else match t !! p with
       | Some (File d) => OpenFile d
       | Some Dir => OpenDir
       | None => if through_file t p then OpenError else NotExist
       end.

(** [os.Remove]: a file, or a directory with nothing in it. *)
Definition Remove (t : fs) (p : list string) : option fs :=
  match t !! p with
  | Some (File _) => Some (delete p t)
  | Some Dir => if bool_decide (map_Forall (fun q _ => parent q <> p \/ q = []) t) then Some (delete p t) else None
  | None => None
  end.

(** ** [sanitizeKey] and the local storage *)

(** The loop that takes "../" and "/" off the front; a turn takes at least one byte. *)
Fixpoint strip_front (fuel : nat) (key : string) : string :=
  match fuel with
  | O => key
  | S fuel =>
      if HasPrefix key "../" || HasPrefix key "/" then strip_front fuel (TrimPrefix (TrimPrefix key "../") "/") else key
  end.

Definition sanitizeKey (key : string) : string :=
  let key := Clean key in
  let key := strip_front (S (String.length key)) key in
  if (key =? ".") || (key =? "..") then "" else key.

Record reader : Type := mkReader { rd_data : string; rd_fails : bool }.

Inductive upload_error := MkdirErr | CreateErr | CopyErr.
Inductive downloaded := Content (data : string) | Unreadable | FileNotFound | DownloadErr.

Section local.
(** [l.root], a clean absolute path. *)
Context (root : string).

Definition LocalStorage_Upload (key : string) (r : reader) (t : fs) : option upload_error * fs :=
  let key := sanitizeKey key in
  let fullPath := elems (Join2 root key) in
  match mkdirs t [] (parent fullPath) with
  | None => (Some MkdirErr, t)
  | Some t =>
      match Create t fullPath with
      | None => (Some CreateErr, t)
      | Some t => (if rd_fails r then Some CopyErr else None, <[fullPath := File (rd_data r)]> t)
      end
  end.

Definition LocalStorage_Download (key : string) (t : fs) : downloaded :=
  match Open t (elems (Join2 root (sanitizeKey key))) with
  | OpenFile d => Content d
  | OpenDir => Unreadable
  | NotExist => FileNotFound
  | OpenError => DownloadErr
  end.

Definition LocalStorage_Delete (key : string) (t : fs) : bool * fs :=
  match Remove t (elems (Join2 root (sanitizeKey key))) with Some t => (true, t) | None => (false, t) end.
End local.

(** [filepath.Abs] in the working directory [wd]. *)
Definition Abs (wd root : string) : string := if HasPrefix root "/" then Clean root else Join2 wd root.

Definition NewLocalStorage (wd root : string) (t : fs) : option (string * fs) :=
  let abs := Abs wd root in
  (fun t => (abs, t)) <$> MkdirAll t abs.

(** ** What a key names *)

(** The elements of the file a key names below the root. *)
Definition key_elems (key : string) : list string :=
  let es := clean_elems (HasPrefix key "/") key in filter (fun e => e <> "..") es.

Lemma key_elems_plain key : Forall plain (key_elems key).
Proof.
  unfold key_elems. destruct (clean_elems_shape (HasPrefix key "/") key) as (k & ps & -> & Hps & _). rewrite filter_app.
  apply Forall_app. split.
  - induction k as [|k IH]; [done|]. cbn. by rewrite decide_False by (intros H; by apply H).
  - apply Forall_forall. intros e [_ He]%list_elem_of_filter. by eapply Forall_forall in Hps.
Qed.

Lemma TrimPrefix_app (a b : string) : TrimPrefix (a ++ b) a = b.
Proof. unfold TrimPrefix. rewrite HasPrefix_app. apply str_drop_app. Qed.

Lemma TrimPrefix_no (s p : string) : HasPrefix s p = false -> TrimPrefix s p = s.
Proof. unfold TrimPrefix. by intros ->. Qed.

(** A path of plain elements starts with neither "/" nor "../". *)
Lemma Join_plain_front (ps : list string) : Forall plain ps -> HasPrefix (Join ps "/") "../" = false /\ HasPrefix (Join ps "/") "/" = false.
Proof.
  intros Hps. destruct Hps as [|p ps (Hs & H1 & _ & H3) _]; [done|].
  assert (E : exists rest, Join (p :: ps) "/" = p ++ rest /\ (rest = "" \/ exists t, rest = "/" ++ t)).
  { destruct ps as [|p' ps]; [exists ""; rewrite str_app_nil_r; auto|]. eexists. split; [reflexivity|right; by eexists]. }
  destruct E as (rest & -> & Hrest). unfold no_slash, HasPrefix, slash in *. destruct p as [|a p]; [done|]. rewrite str_app_cons. cbn [str_all String.prefix] in Hs |- *.
  apply andb_true_iff in Hs as [Ha Hs]. apply negb_true_iff, Ascii.eqb_neq in Ha.
  destruct (ascii_dec "/"%char a) as [<-|_]; [done|]. split; [|done].
  destruct (ascii_dec "."%char a) as [<-|_]; [|done]. destruct p as [|b p].
  { rewrite str_app_nil_l. by destruct Hrest as [->|[t ->]]. }
  rewrite str_app_cons. cbn [str_all String.prefix] in Hs |- *.
  apply andb_true_iff in Hs as [Hb Hs]. apply negb_true_iff, Ascii.eqb_neq in Hb.
  destruct (ascii_dec "."%char b) as [<-|_]; [|done]. destruct p as [|c p]; [done|].
  rewrite str_app_cons. cbn [str_all String.prefix] in Hs |- *.
  apply andb_true_iff in Hs as [Hc Hs]. apply negb_true_iff, Ascii.eqb_neq in Hc.
  by destruct (ascii_dec "/"%char c) as [<-|_].
Qed.

(** The loop takes the run of ".." off the front and leaves the plain elements. *)
Lemma strip_front_run (k : nat) (ps : list string) (fuel : nat) : Forall plain ps ->
  (String.length (Join (replicate k ".." ++ ps) "/") < fuel)%nat ->
  let key := strip_front fuel (Join (replicate k ".." ++ ps) "/") in
  (if (key =? ".") || (key =? "..") then "" else key) = Join ps "/".
Proof.
  intros Hps. revert fuel. induction k as [|k IH]; intros fuel Hf.
  - cbn [replicate app] in *. destruct fuel as [|fuel]; [lia|]. cbn [strip_front]. destruct (Join_plain_front ps Hps) as [-> ->]. cbn [orb].
    destruct Hps as [|p ps (Hs & H1 & H2 & H3) Hps]; [done|]. destruct ps as [|p' ps].
    + cbn [Join]. destruct (String.eqb_spec p "."), (String.eqb_spec p ".."); done.
    + assert (Hlen : forall e, no_slash e = true -> Join (p :: p' :: ps) "/" <> e).
      { intros e He E. pose proof (Split_plain e He) as Hsp. rewrite <- E in Hsp. rewrite Split_Join in Hsp; [done|done|].
        inversion_clear Hps as [|? ? Hp' Hps']. repeat constructor; [done|apply Hp'|by apply plain_no_slash]. }
      destruct (String.eqb_spec (Join (p :: p' :: ps) "/") "."), (String.eqb_spec (Join (p :: p' :: ps) "/") ".."); try done; by (exfalso; eapply Hlen; [|eassumption]).
  - destruct (replicate k ".." ++ ps)%list as [|e es] eqn:E.
    + apply app_nil in E as [Ek ->]. destruct k; [|done]. destruct fuel; [done|]. cbn. done.
    + replace (replicate (S k) ".." ++ ps)%list with (".." :: e :: es) in Hf |- * by (cbn; by rewrite E).
      change (Join (".." :: e :: es) "/") with ("../" ++ Join (e :: es) "/") in Hf |- *.
      destruct fuel as [|fuel]; [lia|]. cbn [strip_front]. rewrite HasPrefix_app. cbn [orb]. rewrite TrimPrefix_app.
      rewrite str_length_app in Hf. cbn [String.length] in Hf.
      rewrite TrimPrefix_no; [apply IH; lia|]. rewrite <- E. destruct k as [|k]; [by apply Join_plain_front|].
      cbn [replicate app]. by destruct (replicate k ".." ++ ps)%list.
Qed.

(** [sanitizeKey]: the text of the elements the key names, without a leading "/" or "..". *)
Lemma sanitizeKey_elems (key : string) : sanitizeKey key = Join (key_elems key) "/".
Proof.
  unfold sanitizeKey, key_elems, Clean. destruct (String.eqb_spec key "") as [->|Hne]; [done|].
  destruct (clean_elems_shape (HasPrefix key "/") key) as (k & ps & -> & Hps & Hk).
  assert (Hf : filter (fun e => e <> "..") (replicate k ".." ++ ps)%list = ps).
  { rewrite filter_app, (filter_none _ (replicate k "..")), (filter_all _ ps); [done| |].
    - eapply Forall_impl; [exact Hps|]. by intros e (_ & _ & _ & H).
    - apply Forall_replicate. intros H. by apply H. }
  rewrite Hf. destruct (HasPrefix key "/").
  - rewrite Hk by done. cbn [replicate app]. destruct (Join_plain_front ps Hps) as [H1 H2].
    change ("/" ++ Join ps "/") with (String slash (Join ps "/")) at 1. cbn [String.length strip_front].
    replace (HasPrefix ("/" ++ Join ps "/") "/") with true by (by rewrite HasPrefix_app). rewrite orb_true_r.
    rewrite (TrimPrefix_no ("/" ++ Join ps "/") "../") by done. rewrite TrimPrefix_app.
    apply (strip_front_run 0 ps (S (String.length (Join ps "/"))) Hps). cbn. lia.
  - destruct (replicate k ".." ++ ps)%list as [|e es] eqn:E.
    + apply app_nil in E as [_ ->]. done.
    + rewrite <- E. apply strip_front_run; [done|lia].
Qed.

(** ** The local storage as a map from keys to contents *)

(** Every file and directory is in a directory. *)
Definition tree_ok (t : fs) : Prop := forall p, is_Some (t !! p) -> p <> [] /\ is_dir t (parent p) = true.

Lemma parent_snoc (p : list string) (e : string) : parent (p ++ [e])%list = p.
Proof. unfold parent. rewrite reverse_snoc. cbn [tail]. apply reverse_involutive. Qed.

Lemma parent_split (p : list string) : p <> [] -> exists e, p = (parent p ++ [e])%list.
Proof. intros Hp. destruct p as [|e p _] using rev_ind; [done|]. exists e. by rewrite parent_snoc. Qed.

(** A directory is in directories all the way up. *)
Lemma is_dir_prefix (t : fs) (p q : list string) : tree_ok t -> is_dir t (p ++ q)%list = true -> is_dir t p = true.
Proof.
  intros Ht. induction q as [|e q IH] using rev_ind; [by rewrite app_nil_r|]. rewrite (assoc_L (++)). intros Hd. apply IH.
  assert (Hs : is_Some (t !! ((p ++ q) ++ [e])%list)).
  { unfold is_dir in Hd. destruct ((p ++ q) ++ [e])%list as [|x l] eqn:E; [by destruct (p ++ q)%list|]. destruct (t !! _) as [[]|]; try done; eauto. }
  apply Ht in Hs as [_ Hs]. by rewrite parent_snoc in Hs.
Qed.

Lemma is_dir_insert (t : fs) (p q : list string) (n : node) :
  t !! q = None \/ n = Dir \/ is_dir t q = false -> is_dir t p = true -> is_dir (<[q := n]> t) p = true.
Proof.
  intros Hq. unfold is_dir. destruct p as [|e p]; [done|]. destruct (decide (q = e :: p)) as [->|Hne]; [|by rewrite lookup_insert_ne].
  rewrite lookup_insert_eq. destruct Hq as [->|[->|Hq]]; [done..|]. unfold is_dir in Hq. destruct (t !! _) as [[]|]; done.
Qed.

Lemma mkdirs_ok (below above : list string) (t t' : fs) : tree_ok t -> is_dir t above = true -> mkdirs t above below = Some t' ->
  tree_ok t' /\ is_dir t' (above ++ below)%list = true /\
  forall p, t' !! p = t !! p \/ (t !! p = None /\ t' !! p = Some Dir /\ p `prefix_of` (above ++ below)%list).
Proof.
  revert above t. induction below as [|e below IH]; intros above t Ht Ha; cbn [mkdirs].
  { intros [= ->]. rewrite app_nil_r. auto. }
  replace (above ++ e :: below)%list with ((above ++ [e]) ++ below)%list by (by rewrite <- (assoc_L (++))).
  destruct (t !! (above ++ [e])%list) as [[d|]|] eqn:E; [done| |]; intros H.
  { apply IH in H; [done|done|]. unfold is_dir. destruct (above ++ [e])%list eqn:E'; [done|]. by rewrite E. }
  assert (Ht1 : tree_ok (<[(above ++ [e])%list := Dir]> t)).
  { intros p Hp. destruct (decide (p = (above ++ [e])%list)) as [->|Hne].
    - split; [by destruct above|]. rewrite parent_snoc. apply is_dir_insert; auto.
    - rewrite lookup_insert_ne in Hp by done. apply Ht in Hp as [Hp Hd]. split; [done|]. apply is_dir_insert; auto. }
  apply IH in H as (H1 & H2 & H3); [|done|].
  - split; [done|split; [done|]]. intros p. destruct (H3 p) as [Hp|(Hp & Hp' & Hpre)].
    + destruct (decide (p = (above ++ [e])%list)) as [->|Hne]; [|left; by rewrite Hp, lookup_insert_ne].
      right. rewrite Hp, lookup_insert_eq. split; [done|split; [done|]]. by eexists.
    + right. destruct (decide (p = (above ++ [e])%list)) as [->|Hne]; [by rewrite lookup_insert_eq in Hp|]. by rewrite lookup_insert_ne in Hp.
  - unfold is_dir. destruct (above ++ [e])%list eqn:E'; [done|]. by rewrite <- E', lookup_insert_eq.
Qed.

(** [MkdirAll] is refused only by a file on the way. *)
Lemma mkdirs_refused (below above : list string) (t : fs) :
  mkdirs t above below = None -> exists p, p `prefix_of` (above ++ below)%list /\ is_file t p = true.
Proof.
  revert above t. induction below as [|e below IH]; intros above t; cbn [mkdirs]; [done|].
  replace (above ++ e :: below)%list with ((above ++ [e]) ++ below)%list by (by rewrite <- (assoc_L (++))).
  destruct (t !! (above ++ [e])%list) as [[d|]|] eqn:E.
  - intros _. exists (above ++ [e])%list. split; [by eexists|]. unfold is_file. by rewrite E.
  - apply IH.
  - intros (p & Hp & Hf)%IH. exists p. split; [done|]. unfold is_file in *. destruct (decide (p = (above ++ [e])%list)) as [->|Hne]; [by rewrite lookup_insert_eq in Hf|].
    by rewrite lookup_insert_ne in Hf.
Qed.

Inductive op := OpUpload (key : string) (r : reader) | OpDownload (key : string) | OpDelete (key : string).
Inductive reply := Uploaded (e : option upload_error) | Downloaded (d : downloaded) | Deleted (ok : bool).

Definition do_op (root : string) (o : op) (t : fs) : reply * fs :=
  match o with
  | OpUpload key r => let '(e, t) := LocalStorage_Upload root key r t in (Uploaded e, t)
  | OpDownload key => (Downloaded (LocalStorage_Download root key t), t)
  | OpDelete key => let '(ok, t) := LocalStorage_Delete root key t in (Deleted ok, t)
  end.

Fixpoint run (root : string) (ops : list op) (t : fs) : list reply * fs :=
  match ops with
  | [] => ([], t)
  | o :: ops => let '(x, t) := do_op root o t in let '(xs, t) := run root ops t in (x :: xs, t)
  end.

(** What the storage holds, by the elements of the keys. *)
Notation contents := (list string -> option string).
Definition files (root : list string) (t : fs) : contents :=
  fun ks => match t !! (root ++ ks)%list with Some (File d) => Some d | _ => None end.

(** The contract: an upload sets the content of its key to what was read, wholly or not at
    all seen from the other keys; a download gives the content of its key. *)
Definition spec_step (m : contents) (o : op) (x : reply) (m' : contents) : Prop :=
  match o, x with
  | OpUpload key r, Uploaded (Some MkdirErr) | OpUpload key r, Uploaded (Some CreateErr) => forall ks, m' ks = m ks
  | OpUpload key r, Uploaded e =>
      e = (if rd_fails r then Some CopyErr else None) /\
      m' (key_elems key) = Some (rd_data r) /\ forall ks, ks <> key_elems key -> m' ks = m ks
  | OpDownload key, Downloaded d => (forall s, d = Content s <-> m (key_elems key) = Some s) /\ forall ks, m' ks = m ks
  | OpDelete key, Deleted ok =>
      (is_Some (m (key_elems key)) -> ok = true) /\ m' (key_elems key) = None /\ forall ks, ks <> key_elems key -> m' ks = m ks
  | _, _ => False
  end.

Fixpoint spec_run (m : contents) (ops : list op) (xs : list reply) (m' : contents) : Prop :=
  match ops, xs with
  | [], [] => forall ks, m' ks = m ks
  | o :: ops, x :: xs => exists m1, spec_step m o x m1 /\ spec_run m1 ops xs m'
  | _, _ => False
  end.

Section contract.
Context (rs : list string) (rs_plain : Forall plain rs).
Notation root := ("/" ++ Join rs "/").

(** The tree around the storage: the directory above its root is there, the root itself may
    not be. *)
Definition storage_ok (t : fs) : Prop := tree_ok t /\ is_dir t (parent rs) = true.

(** Every key names a path below the root. *)
Lemma location (key : string) : elems (Join2 root (sanitizeKey key)) = (rs ++ key_elems key)%list.
Proof.
  rewrite sanitizeKey_elems, Join2_elems by (done || apply key_elems_plain). unfold elems. apply clean_elems_abs.
  apply Forall_app. split; [done|apply key_elems_plain].
Qed.

Lemma below_root (t : fs) (ks p : list string) : storage_ok t -> p `prefix_of` (rs ++ ks)%list -> t !! p = None -> p <> [] -> rs `prefix_of` p.
Proof.
  intros [Ht Hd] Hp Hn Hne. destruct (prefix_weak_total p rs (rs ++ ks)) as [H|H]; [done|by eexists| |done].
  destruct (decide (p = rs)) as [->|Hprs]; [done|]. exfalso. destruct H as [q ->].
  destruct q as [|e q _] using rev_ind; [by rewrite app_nil_r in Hprs|]. rewrite (assoc_L (++)), parent_snoc in Hd.
  apply is_dir_prefix in Hd; [|done]. unfold is_dir in Hd. destruct p; [done|]. by rewrite Hn in Hd.
Qed.

Lemma is_dir_lookup (t : fs) p : p <> [] -> is_dir t p = true <-> t !! p = Some Dir.
Proof. intros Hp. unfold is_dir. destruct p; [done|]. by destruct (t !! _) as [[]|]. Qed.

Lemma parent_length (p : list string) : p <> [] -> (length (parent p) < length p)%nat.
Proof. intros (e & ->)%parent_split. rewrite parent_snoc, length_app. cbn. lia. Qed.

Lemma parent_app (p q : list string) : q <> [] -> parent (p ++ q)%list = (p ++ parent q)%list.
Proof. intros (e & ->)%parent_split. by rewrite (assoc_L (++)), !parent_snoc. Qed.

(** Writing or taking away a file leaves the tree in order. *)
Lemma tree_ok_file (t : fs) p d : tree_ok t -> p <> [] -> is_dir t (parent p) = true -> is_dir t p = false -> tree_ok (<[p := File d]> t).
Proof.
  intros Ht Hp Hpd Hnd q Hq. destruct (decide (q = p)) as [->|Hne].
  - split; [done|]. apply is_dir_insert; auto.
  - rewrite lookup_insert_ne in Hq by done. apply Ht in Hq as [Hq Hd]. split; [done|]. apply is_dir_insert; auto.
Qed.

Lemma tree_ok_delete (t : fs) p : tree_ok t -> (forall q, is_Some (t !! q) -> parent q = p -> p = []) -> tree_ok (delete p t).
Proof.
  intros Ht Hch q Hq. destruct (decide (q = p)) as [->|Hne]; [rewrite lookup_delete_eq in Hq; by destruct Hq|].
  rewrite lookup_delete_ne in Hq by done. pose proof Hq as Hq'. apply Ht in Hq as [Hq Hd]. split; [done|]. unfold is_dir in *.
  destruct (parent q) as [|e l] eqn:E; [done|]. rewrite lookup_delete_ne; [done|]. intros ->. by specialize (Hch q Hq' E).
Qed.

Lemma Remove_tree (t t' : fs) p : tree_ok t -> Remove t p = Some t' -> t' = delete p t /\ tree_ok t'.
Proof.
  intros Ht. unfold Remove. destruct (t !! p) as [[d|]|] eqn:E; [| |done].
  - intros [= <-]. split; [done|]. apply tree_ok_delete; [done|]. intros q Hq <-. apply Ht in Hq as [_ Hq]. unfold is_dir in Hq.
    destruct (parent q); [done|]. by rewrite E in Hq.
  - case_bool_decide as Hall; [|done]. intros [= <-]. split; [done|]. apply tree_ok_delete; [done|]. intros q [n Hq] Hpq.
    destruct (Hall q n Hq) as [H| ->]; [done|]. apply (mk_is_Some _ n), Ht in Hq as [[] _]. done.
Qed.

(** What every operation keeps, and what it does to the contents. *)
Definition op_ok (t : fs) (o : op) (x : reply) (t' : fs) : Prop :=
  storage_ok t' /\ (forall p, ~ rs `prefix_of` p -> t' !! p = t !! p) /\ spec_step (files rs t) o x (files rs t').

Lemma tree_root (t : fs) : tree_ok t -> t !! [] = None.
Proof. intros Ht. destruct (t !! []) eqn:E; [|done]. by destruct (Ht []) as [[] _]; eauto. Qed.

(** The directories made for an upload are below the root and no files. *)
Lemma upload_dirs (key : string) (t t1 : fs) : storage_ok t -> mkdirs t [] (parent (rs ++ key_elems key)%list) = Some t1 ->
  storage_ok t1 /\ (forall p, ~ rs `prefix_of` p -> t1 !! p = t !! p) /\ forall ks, files rs t1 ks = files rs t ks.
Proof.
  intros Hok. pose proof Hok as [Ht Hd]. intros (Ht1 & Hd1 & Hm)%mkdirs_ok; [|done|done]. rewrite app_nil_l in Hd1. rewrite app_nil_l in Hm.
  assert (Hf1 : forall p, p <> [] -> t1 !! p = t !! p \/ (t !! p = None /\ t1 !! p = Some Dir /\ rs `prefix_of` p)).
  { intros p Hp. destruct (Hm p) as [H|(H1 & H2 & H3)]; [auto|]. right. split; [done|split; [done|]].
    apply (below_root t (key_elems key)); [done| |done|done]. etransitivity; [exact H3|].
    destruct (decide (rs ++ key_elems key = [])%list) as [->|(e' & E)%parent_split]; [done|]. rewrite E at 2. by eexists. }
  split; [|split].
  - split; [done|]. destruct (decide (parent rs = [])) as [->|Hne]; [done|]. apply is_dir_lookup; [done|]. apply is_dir_lookup in Hd; [|done].
    destruct (Hf1 (parent rs) Hne) as [->|(H1 & _)]; [done|]. by rewrite Hd in H1.
  - intros p Hp. destruct (decide (p = [])) as [->|Hne]; [by rewrite !tree_root|]. by destruct (Hf1 p Hne) as [|(_ & _ & H)].
  - intros ks. unfold files. destruct (Hm (rs ++ ks)%list) as [->|(-> & -> & _)]; done.
Qed.

Lemma upload_ok (key : string) (r : reader) (t : fs) : storage_ok t ->
  let '(x, t') := do_op root (OpUpload key r) t in op_ok t (OpUpload key r) x t'.
Proof.
  intros Hok. unfold op_ok. cbn [do_op]. unfold LocalStorage_Upload. rewrite location.
  destruct (mkdirs t [] _) as [t1|] eqn:Em; [|done]. apply upload_dirs in Em as (Hok1 & Hframe1 & Hfiles1); [|done].
  unfold Create. destruct (is_dir t1 (parent _) && negb (is_dir t1 _)) eqn:Ec; [|done].
  apply andb_true_iff in Ec as [Ec1 Ec2%negb_true_iff]. rewrite insert_insert_eq.
  assert (Hloc : (rs ++ key_elems key)%list <> []) by (intros E; by rewrite E in Ec2).
  split; [|split].
  - destruct Hok1. split; [by apply tree_ok_file|]. apply is_dir_insert; auto.
  - intros p Hp. rewrite lookup_insert_ne; [by apply Hframe1|]. intros <-. apply Hp. by eexists.
  - cbn. assert (Hset : files rs (<[(rs ++ key_elems key)%list := File (rd_data r)]> t1) (key_elems key) = Some (rd_data r) /\
      forall ks, ks <> key_elems key -> files rs (<[(rs ++ key_elems key)%list := File (rd_data r)]> t1) ks = files rs t ks).
    { unfold files at 1 2. rewrite lookup_insert_eq. split; [done|]. intros ks Hks. rewrite lookup_insert_ne; [apply Hfiles1|]. by intros ?%(inj (app rs)). }
    by destruct (rd_fails r).
Qed.

Lemma download_ok (key : string) (t : fs) : storage_ok t ->
  forall s, LocalStorage_Download root key t = Content s <-> files rs t (key_elems key) = Some s.
Proof.
  intros [Ht _] s. unfold LocalStorage_Download, Open, files. rewrite location. destruct (is_dir t (rs ++ key_elems key)) eqn:Ed.
  - split; [done|]. unfold is_dir in Ed. destruct (rs ++ key_elems key)%list eqn:E; [by rewrite tree_root|]. by destruct (t !! _) as [[]|].
  - destruct (t !! (rs ++ key_elems key)%list) as [[d|]|] eqn:E; [split; congruence|done|]. by destruct (through_file _ _).
Qed.

Lemma delete_ok (key : string) (t : fs) : storage_ok t ->
  let '(x, t') := do_op root (OpDelete key) t in op_ok t (OpDelete key) x t'.
Proof.
  intros Hok. pose proof Hok as [Ht Hd]. unfold op_ok. cbn [do_op]. unfold LocalStorage_Delete. rewrite location.
  destruct (Remove t _) as [t1|] eqn:Er.
  - apply Remove_tree in Er as [-> Ht1]; [|done]. split; [|split].
    + split; [done|]. destruct (decide (parent rs = [])) as [->|Hne]; [done|]. apply is_dir_lookup; [done|]. apply is_dir_lookup in Hd; [|done].
      rewrite lookup_delete_ne; [done|]. intros E. assert (Hrs : rs <> []) by (by intros ->). apply parent_length in Hrs. rewrite <- E, length_app in Hrs. lia.
    + intros p Hp. rewrite lookup_delete_ne; [done|]. intros <-. apply Hp. by eexists.
    + cbn. unfold files at 2 3. rewrite lookup_delete_eq. split; [done|split; [done|]]. intros ks Hks. unfold files. rewrite lookup_delete_ne; [done|].
      by intros ?%(inj (app rs)).
  - split; [done|split; [done|]]. cbn. unfold Remove in Er.
    assert (Hnf : files rs t (key_elems key) = None) by (unfold files; by destruct (t !! _) as [[]|]).
    rewrite Hnf. split; [by intros []|done].
Qed.

Lemma do_op_ok (o : op) (t : fs) : storage_ok t -> let '(x, t') := do_op root o t in op_ok t o x t'.
Proof.
  intros Hok. destruct o as [key r|key|key]; [by apply upload_ok| |by apply delete_ok].
  cbn [do_op]. split; [done|split; [done|]]. cbn. split; [by apply download_ok|done].
Qed.

(** C26: The local storage is a map from keys to contents that never leaves its root: whatever
    keys the operations are given (with "..", absolute, empty), nothing outside the root
    changes, an upload sets the content of its key only, a download gives the content
    last set, and two keys share a file exactly when they have the same clean elements. *)
Theorem local_storage_is_map (ops : list op) (t : fs) : storage_ok t ->
  let '(xs, t') := run root ops t in
  storage_ok t' /\ (forall p, ~ rs `prefix_of` p -> t' !! p = t !! p) /\ spec_run (files rs t) ops xs (files rs t').
Proof.
  revert t. induction ops as [|o ops IH]; intros t Hok; cbn [run]; [done|].
  pose proof (do_op_ok o t Hok) as Ho. destruct (do_op root o t) as [x t1]. destruct Ho as (Hok1 & Hf1 & Hs1).
  specialize (IH t1 Hok1). destruct (run root ops t1) as [xs t2]. destruct IH as (Hok2 & Hf2 & Hs2).
  split; [done|split; [|by exists (files rs t1)]]. intros p Hp. by rewrite Hf2, Hf1.
Qed.
End contract.

Definition demo_root : list string := ["srv"; "files"].
Definition demo_tree : fs := {[ ["srv"] := Dir; ["etc"] := Dir; ["etc"; "passwd"] := File "root:x:0:0" ]}.

Lemma demo_root_plain : Forall plain demo_root.
Proof. repeat constructor; done. Qed.

Lemma demo_tree_ok : storage_ok demo_root demo_tree.
Proof.
  split; [|done]. intros p [n Hn]. unfold demo_tree in Hn.
  repeat (apply lookup_insert_Some in Hn as [[<- <-]|[_ Hn]]; [done|]). by apply lookup_singleton_Some in Hn as [<- <-].
Qed.

Lemma local_storage_is_map_witness :
  let '(xs, t') := run "/srv/files" [OpUpload "../../etc/passwd" (mkReader "hello" false); OpDownload "/etc/passwd"; OpDelete "a/../../etc//passwd"; OpDownload "etc/passwd"] demo_tree in
  xs = [Uploaded None; Downloaded (Content "hello"); Deleted true; Downloaded FileNotFound] /\
  storage_ok demo_root t' /\ (forall p, ~ demo_root `prefix_of` p -> t' !! p = demo_tree !! p) /\
  t' !! ["etc"; "passwd"] = Some (File "root:x:0:0").
Proof.
  pose proof (local_storage_is_map demo_root demo_root_plain
    [OpUpload "../../etc/passwd" (mkReader "hello" false); OpDownload "/etc/passwd"; OpDelete "a/../../etc//passwd"; OpDownload "etc/passwd"] demo_tree demo_tree_ok) as H.
  change ("/" ++ Join demo_root "/") with "/srv/files" in H. destruct (run "/srv/files" _ demo_tree) as [xs t'] eqn:E. destruct H as (H1 & H2 & _).
  split; [|split; [done|split; [done|]]].
  - apply (f_equal fst) in E. vm_compute in E. by rewrite <- E.
  - rewrite H2; [by vm_compute|]. intros [q Hq]. done.
Defined.

(** Where the contract of the storage has edges: an upload whose body breaks off replaces
    the file by what arrived; the key ".." (or "/") names the root itself, so deleting it
    takes an empty storage's directory away and answers success, and downloading it gives a
    handle that cannot be read; the names of two keys are the same file when they clean to the
    same elements; a key below a file cannot be stored. *)
Theorem local_storage_edges :
  let up k d fails := OpUpload k (mkReader d fails) in
  (run "/srv/files" [up "report" "version one" false; up "report" "ver" true; OpDownload "report"] demo_tree).1
    = [Uploaded None; Uploaded (Some CopyErr); Downloaded (Content "ver")] /\
  (let '(xs, t) := run "/srv/files" [up "x" "1" false; OpDownload ".."; OpDelete "x"; OpDelete ".."] demo_tree in
    xs = [Uploaded None; Downloaded Unreadable; Deleted true; Deleted true] /\ is_dir t demo_root = false) /\
  (run "/srv/files" [up "a/b" "1" false; up "../a/./b" "2" false; OpDownload "a/b"; up "a/b/c" "3" false; up "a" "4" false] demo_tree).1
    = [Uploaded None; Uploaded None; Downloaded (Content "2"); Uploaded (Some MkdirErr); Uploaded (Some CreateErr)].
Proof. split; [by vm_compute|split; by vm_compute]. Qed.

(** ** Spooled uploads (server/spool.go) *)

Record SpoolConfig : Type := mkSpool { sc_Mode : string; sc_MemoryLimit : Z }.

(** What one [Read] of the body gives: some bytes, and whether the stream goes on, ended or
    broke.  A stream that runs out of reads has ended. *)
Inductive read_end := More | EOF | ReadErr.
Notation stream := (list (string * read_end)).

(** The outcomes of the calls to the temporary file, in the order of the calls. *)
Record disk_faults : Type := mkDisk { df_create : bool; df_writes : nat -> bool; df_close : bool }.
Definition disk_works : disk_faults := mkDisk true (fun _ => true) true.

(** [sp_file] is the temporary file's content once it is made; [sp_writes] counts the calls
    of [Write]. *)
Record spooler : Type := mkSpooler { sp_mem : string; sp_file : option string; sp_size : Z; sp_writes : nat }.

Section spool.
Context (mode : string) (limit : Z) (df : disk_faults).

Definition spill (sp : spooler) : bool * spooler :=
  if negb (df_create df) then (false, sp)
  else if negb (df_writes df (sp_writes sp)) then (false, mkSpooler (sp_mem sp) (Some "") (sp_size sp) (S (sp_writes sp)))
  else (true, mkSpooler "" (Some (sp_mem sp)) (sp_size sp) (S (sp_writes sp))).

Definition useDisk (sp : spooler) (chunk : string) : bool :=
  (mode =? "disk") ||
  (negb (mode =? "memory") && bool_decide (sp_file sp = None) &&
   (Z.of_nat (String.length (sp_mem sp)) + Z.of_nat (String.length chunk) >? limit)%Z).

Definition writeChunk (chunk : string) (sp : spooler) : bool * spooler :=
  let '(ok, sp) := if useDisk sp chunk && bool_decide (sp_file sp = None) then spill sp else (true, sp) in
  if negb ok then (false, sp)
  else
    let size := wrap64 (sp_size sp + Z.of_nat (String.length chunk)) in
    match sp_file sp with
    | Some d =>
        if df_writes df (sp_writes sp) then (true, mkSpooler (sp_mem sp) (Some (d ++ chunk)) size (S (sp_writes sp)))
        else (false, mkSpooler (sp_mem sp) (Some d) (sp_size sp) (S (sp_writes sp)))
    | None => (true, mkSpooler (sp_mem sp ++ chunk) None size (sp_writes sp))
    end.

Fixpoint ingest (st : stream) (sp : spooler) : bool * spooler :=
  match st with
  | [] => (true, sp)
  | (chunk, e) :: st =>
      let '(ok, sp) := if chunk =? "" then (true, sp) else writeChunk chunk sp in
      if negb ok then (false, sp)
      else match e with EOF => (true, sp) | ReadErr => (false, sp) | More => ingest st sp end
  end.

Definition finish (sp : spooler) : bool * spooler :=
  let '(ok, sp) := match sp_file sp with None => spill sp | Some _ => (true, sp) end in
  if negb ok then (false, sp) else (df_close df, sp).
End spool.

Definition spool_mode (cfg : SpoolConfig) : string := if sc_Mode cfg =? "" then "auto" else sc_Mode cfg.
Definition spool_limit (cfg : SpoolConfig) : Z := if (sc_MemoryLimit cfg <=? 0)%Z then 4 * 2^20 else sc_MemoryLimit cfg.
Definition new_spooler : spooler := mkSpooler "" None 0 0.

(** The spooled file's content and size if it worked, and the temporary file that is left. *)
Definition SpoolToFile (cfg : SpoolConfig) (df : disk_faults) (st : stream) : option (string * Z) * option string :=
  let '(ok, sp) := ingest (spool_mode cfg) (spool_limit cfg) df st new_spooler in
  if negb ok then (None, None)
  else
    let '(ok, sp) := finish df sp in
    (if ok then (fun d => (d, sp_size sp)) <$> sp_file sp else None, sp_file sp).

(** [up] is the backend's [Upload] of a file and its size.  The temporary file is removed on
    the way out, whatever the upload did. *)
Definition UploadStream {B : Type} (cfg : SpoolConfig) (df : disk_faults) (up : string -> Z -> B -> bool * B) (st : stream) (b : B) : bool * B * option string :=
  match SpoolToFile cfg df st with
  | (None, left_over) => (false, b, left_over)
  | (Some (d, size), _) => let '(ok, b) := up d size b in (ok, b, None)
  end.

(** The bytes of a stream up to its end, and whether it broke. *)
Fixpoint stream_bytes (st : stream) : string :=
  match st with [] => "" | (chunk, More) :: st => chunk ++ stream_bytes st | (chunk, _) :: _ => chunk end.
Fixpoint stream_breaks (st : stream) : bool :=
  match st with [] => false | (_, More) :: st => stream_breaks st | (_, EOF) :: _ => false | (_, ReadErr) :: _ => true end.

(** What the spooler holds of the stream. *)
Definition spooled (sp : spooler) : string := default "" (sp_file sp) ++ sp_mem sp.

Definition spool_inv (mode : string) (limit : Z) (sp : spooler) : Prop :=
  (is_Some (sp_file sp) -> sp_mem sp = "") /\
  (mode = "disk" -> sp_mem sp = "") /\
  (mode <> "memory" -> (Z.of_nat (String.length (sp_mem sp)) <= limit)%Z) /\
  wrap64 (sp_size sp) = sp_size sp.

Lemma wrap64_add (a b : Z) : wrap64 (wrap64 a + b) = wrap64 (a + b).
Proof.
  unfold wrap64. replace ((a + 2^63) mod 2^64 - 2^63 + b + 2^63)%Z with ((a + 2^63) mod 2^64 + b)%Z by lia.
  rewrite Z.add_mod_idemp_l by lia. do 2 f_equal. lia.
Qed.

Lemma wrap64_idem (a : Z) : wrap64 (wrap64 a) = wrap64 a.
Proof. apply wrap64_small, wrap64_range. Qed.

(** One chunk: nothing is lost or reordered, and memory stays within the limit. *)
Lemma writeChunk_ok mode limit df chunk sp : (0 <= limit)%Z -> spool_inv mode limit sp ->
  let '(ok, sp') := writeChunk mode limit df chunk sp in
  (ok = true -> spool_inv mode limit sp' /\ spooled sp' = spooled sp ++ chunk /\ sp_size sp' = wrap64 (sp_size sp + Z.of_nat (String.length chunk))) /\
  (df = disk_works -> ok = true).
Proof.
  intros Hl (H1 & H2 & H3 & H4). unfold writeChunk, spooled.
  destruct (useDisk mode limit sp chunk && bool_decide (sp_file sp = None)) eqn:Eu.
  - apply andb_true_iff in Eu as [_ Hf%bool_decide_eq_true]. rewrite Hf. unfold spill.
    destruct (df_create df) eqn:Ec; cbn; [|split; [done|intros ->; done]]. destruct (df_writes df (sp_writes sp)) eqn:Ew; cbn; [|split; [done|intros ->; done]].
    destruct (df_writes df (S (sp_writes sp))) eqn:Ew'; [|split; [done|intros ->; done]]. split; [|done]. intros _.
    split; [|by rewrite str_app_nil_r]. by repeat split; cbn; intros; try lia; auto using wrap64_idem.
  - cbn [negb]. destruct (sp_file sp) as [d|] eqn:Ef.
    + specialize (H1 (mk_is_Some _ _ eq_refl)). destruct (df_writes df (sp_writes sp)) eqn:Ew; [|split; [done|intros ->; done]].
      split; [|done]. intros _. cbn. rewrite H1. split; [|by rewrite !str_app_nil_r]. by repeat split; cbn; intros; try lia; auto using wrap64_idem.
    + split; [|done]. intros _. cbn. split; [|split; [by rewrite !str_app_nil_l|done]].
      unfold useDisk in Eu. rewrite Ef, (bool_decide_true (None = None)) in Eu by done. rewrite andb_true_r in Eu. apply orb_false_iff in Eu as [Ed Em].
      apply String.eqb_neq in Ed. split; [by intros []|split; [done|split; [|apply wrap64_idem]]]. intros Hm%String.eqb_neq. rewrite Hm in Em. cbn in Em |- *.
      rewrite str_length_app. lia.
Qed.

Lemma ingest_ok mode limit df st sp : (0 <= limit)%Z -> spool_inv mode limit sp ->
  let '(ok, sp') := ingest mode limit df st sp in
  (ok = true -> spool_inv mode limit sp' /\ spooled sp' = spooled sp ++ stream_bytes st /\
     sp_size sp' = wrap64 (sp_size sp + Z.of_nat (String.length (stream_bytes st))) /\ stream_breaks st = false) /\
  (df = disk_works -> stream_breaks st = false -> ok = true).
Proof.
  intros Hl. revert sp. induction st as [|[chunk e] st IH]; intros sp Hi; cbn [ingest stream_bytes stream_breaks].
  { split; [|done]. intros _. rewrite str_app_nil_r, Z.add_0_r. pose proof Hi as (_ & _ & _ & ->). done. }
  assert (Hw : let '(ok, sp') := if chunk =? "" then (true, sp) else writeChunk mode limit df chunk sp in
    (ok = true -> spool_inv mode limit sp' /\ spooled sp' = spooled sp ++ chunk /\ sp_size sp' = wrap64 (sp_size sp + Z.of_nat (String.length chunk))) /\ (df = disk_works -> ok = true)).
  { destruct (String.eqb_spec chunk "") as [->|_]; [|by apply writeChunk_ok].
    rewrite str_app_nil_r, Z.add_0_r. split; [|done]. pose proof Hi as (_ & _ & _ & ->). done. }
  destruct (if chunk =? "" then _ else _) as [[] sp1]; cbn [negb]; [|split; [done|intros Hd; by apply Hw in Hd]].
  destruct Hw as [Hw _]. destruct (Hw eq_refl) as (Hi1 & Hs1 & Hz1). destruct e; [|by auto..].
  specialize (IH sp1 Hi1). destruct (ingest mode limit df st sp1) as [ok sp2]. destruct IH as [IH Hd]. split; [|done].
  intros Hok. destruct (IH Hok) as (Ha & Hb & Hc & He). split; [done|split; [by rewrite Hb, Hs1, str_app_assoc|split; [|done]]].
  by rewrite Hc, Hz1, wrap64_add, str_length_app, Nat2Z.inj_add, Z.add_assoc.
Qed.

Lemma finish_ok mode limit df sp : spool_inv mode limit sp ->
  let '(ok, sp') := finish df sp in
  (ok = true -> sp_file sp' = Some (spooled sp) /\ sp_size sp' = sp_size sp) /\ (df = disk_works -> ok = true).
Proof.
  intros (H1 & _). unfold finish, spill, spooled. destruct (sp_file sp) as [d|] eqn:Ef; cbn.
  - split; [|by intros ->]. intros _. rewrite Ef, H1, str_app_nil_r by eauto. done.
  - destruct (df_create df) eqn:Ec; cbn; [|split; [done|intros ->; done]]. destruct (df_writes df (sp_writes sp)) eqn:Ew; cbn; [|split; [done|intros ->; done]].
    split; [done|by intros ->].
Qed.

Lemma spool_start cfg : (0 <= spool_limit cfg)%Z /\ spool_inv (spool_mode cfg) (spool_limit cfg) new_spooler.
Proof. split; [|repeat split; done || intros _; cbn]; unfold spool_limit; destruct (Z.leb_spec (sc_MemoryLimit cfg) 0); lia. Qed.

(** A spooled upload stores the stream: whenever spooling succeeds the file handed to the
    backend is exactly the bytes of the body in order with its length as the size, it
    succeeds whenever the body does not break and the disk works, and unless the mode is
    "memory" the part of the body held in memory never exceeds the limit.  The temporary
    file is gone after the upload, and after a spool that did not succeed while reading. *)
Theorem spooled_upload_is_stream (cfg : SpoolConfig) (df : disk_faults) (st : stream) :
  (Z.of_nat (String.length (stream_bytes st)) < 2^63)%Z ->
  (forall d size left_over, SpoolToFile cfg df st = (Some (d, size), left_over) ->
     d = stream_bytes st /\ size = Z.of_nat (String.length d) /\ stream_breaks st = false) /\
  (df = disk_works -> stream_breaks st = false -> exists left_over, SpoolToFile cfg df st = (Some (stream_bytes st, Z.of_nat (String.length (stream_bytes st))), left_over)) /\
  (forall n, let '(ok, sp) := ingest (spool_mode cfg) (spool_limit cfg) df (take n st) new_spooler in
     ok = true -> spool_mode cfg <> "memory" -> (Z.of_nat (String.length (sp_mem sp)) <= spool_limit cfg)%Z) /\
  (forall B up (b : B), is_Some (UploadStream cfg df up st b).2 -> (ingest (spool_mode cfg) (spool_limit cfg) df st new_spooler).1 = true /\ (SpoolToFile cfg df st).1 = None).
Proof.
  intros Hlen. destruct (spool_start cfg) as [Hl Hi0].
  assert (Hmain : let '(r, lo) := SpoolToFile cfg df st in
    (forall d size, r = Some (d, size) -> d = stream_bytes st /\ size = Z.of_nat (String.length d) /\ stream_breaks st = false) /\
    (df = disk_works -> stream_breaks st = false -> r = Some (stream_bytes st, Z.of_nat (String.length (stream_bytes st)))) /\
    (is_Some lo -> (ingest (spool_mode cfg) (spool_limit cfg) df st new_spooler).1 = true)).
  { unfold SpoolToFile. pose proof (ingest_ok _ _ df st _ Hl Hi0) as H. destruct (ingest _ _ _ _ _) as [[] sp]; cbn [negb fst].
    2:{ destruct H as [_ H]. split; [done|split; [|by intros []]]. intros Hd Hb. by specialize (H Hd Hb). }
    destruct H as [H _]. destruct (H eq_refl) as (Hi & Hs & Hz & Hb). rewrite str_app_nil_l in Hs.
    change (sp_size new_spooler) with 0%Z in Hz. rewrite Z.add_0_l, wrap64_small in Hz by lia.
    pose proof (finish_ok _ _ df sp Hi) as Hf. destruct (finish df sp) as [[] sp']; cbn [negb]; destruct Hf as [Hf Hd].
    - destruct (Hf eq_refl) as [-> ->]. rewrite Hs, Hz. cbn. split; [|done]. by intros d size [= <- <-].
    - split; [done|split; [|done]]. intros E. by specialize (Hd E). }
  destruct (SpoolToFile cfg df st) as [r lo] eqn:Es. destruct Hmain as (Hm1 & Hm2 & Hm3). split; [|split; [|split]].
  - intros d size lo' [= -> _]. by apply Hm1.
  - intros Hd Hb. exists lo. by rewrite (Hm2 Hd Hb).
  - intros n. pose proof (ingest_ok _ _ df (take n st) _ Hl Hi0) as H. destruct (ingest _ _ _ (take n st) _) as [ok sp]. intros Hok Hmode.
    destruct H as [H _]. destruct (H Hok) as ((_ & _ & H3 & _) & _). by apply H3.
  - intros B up b. unfold UploadStream. rewrite Es. destruct r as [[d size]|].
    + destruct (up d size b). by intros [].
    + intros Hlo. split; [by apply Hm3|done].
Qed.

Lemma spooled_upload_is_stream_witness :
  let st := [("hello ", More); ("", More); ("wor", More); ("ld", EOF); ("lost", More)] in
  SpoolToFile (mkSpool "" 8) disk_works st = (Some ("hello world", 11%Z), Some "hello world") /\
  (forall d size lo, SpoolToFile (mkSpool "" 8) disk_works st = (Some (d, size), lo) -> d = "hello world").
Proof.
  cbn zeta. split; [by vm_compute|]. intros d size lo H.
  by destruct (spooled_upload_is_stream (mkSpool "" 8) disk_works [("hello ", More); ("", More); ("wor", More); ("ld", EOF); ("lost", More)]) as [Hs _];
    [vm_compute; done|destruct (Hs d size lo H)].
Defined.

(** The temporary file of a spool that fails at its end is left behind: a body kept in
    memory is written to the temporary file only when the stream has ended, and when that
    write fails (a full disk) the upload answers an error without removing the file, which
    a write that fails while the body is read does not. *)
Theorem spool_leaves_temporary_file :
  let full := mkDisk true (fun _ => false) true in
  let st := [("hello", EOF)] in
  UploadStream (mkSpool "memory" 0) full (fun _ _ b => (true, b)) st tt = (false, tt, Some "") /\
  UploadStream (mkSpool "disk" 0) full (fun _ _ b => (true, b)) st tt = (false, tt, None).
Proof. split; by vm_compute. Qed.
