(* ===== verification/CachedStorage.v ===== *)
(** * Cached storage (runtime/service.go: [cachedStorage], [sanitizeKey])

    A storage backend behind a cache in memory (L1) and a directory of files (L2).  The
    backend is a map from keys to contents; L1 may drop an entry at any time; L2 is the map
    of the files in the cache directory, in which nothing makes directories.  The writes to
    the caches of a download run in a goroutine of their own and are a step of their own. *)

From S2P Require Import Prelude GoStrings SqlModel GoPath OpenApi Storage.
From Stdlib Require Import Ascii.

#[local] Open Scope string_scope.

(** [strings.ReplaceAll(key, "..", "")]. *)
Fixpoint drop_dotdot (s : string) : string :=
  match s with
  | String "." (String "." r) => drop_dotdot r
  | String c r => String c (drop_dotdot r)
  | EmptyString => ""
  end.

(** [strings.TrimLeft(key, "/")]. *)
Fixpoint TrimLeft_slash (s : string) : string :=
  match s with String "/" r => TrimLeft_slash r | _ => s end.

Definition safe_key (key : string) : string := TrimLeft_slash (drop_dotdot key).

(** The file [os.WriteFile] makes for a cleaned key: one element below the directory. *)
Definition write_name (safe : string) : option string :=
  match filter (fun e => e <> "" /\ e <> ".") (Split safe slash) with [name] => Some name | _ => None end.

(** The file [os.DirFS] opens: only for a path in the form it requires. *)
Definition read_name (safe : string) : option string :=
  match Split safe slash with
  | [name] => if (name =? "") || (name =? ".") || (name =? "..") then None else Some name
  | _ => None
  end.

Record cachedStorage : Type := mkCachedStorage {
  cs_backend : gmap string string; cs_l1 : option (gmap string string); cs_disk : option (gmap string string);
  cs_stores : list (string * string) }.

Definition Download (key : string) (c : cachedStorage) : option string * cachedStorage :=
  let set_l1 l1 data := (<[key := data]> : gmap string string -> gmap string string) <$> l1 in
  match l1 ← cs_l1 c; l1 !! key with
  | Some data => (Some data, c)
  | None =>
      match disk ← cs_disk c; name ← read_name (safe_key key); disk !! name with
      | Some data => (Some data, mkCachedStorage (cs_backend c) (set_l1 (cs_l1 c) data) (cs_disk c) (cs_stores c))
      | None =>
          match cs_backend c !! key with
          | None => (None, c)
          | Some data => (Some data, mkCachedStorage (cs_backend c) (cs_l1 c) (cs_disk c) (cs_stores c ++ [(key, data)])%list)
          end
      end
  end.

(** The goroutine of a download. *)
Definition store (key data : string) (c : cachedStorage) : cachedStorage :=
  mkCachedStorage (cs_backend c) ((<[key := data]> : gmap string string -> _) <$> cs_l1 c)
    (match cs_disk c with
     | Some disk => Some (match write_name (safe_key key) with Some name => <[name := data]> disk | None => disk end)
     | None => None
     end) (cs_stores c).

(** [Upload] and [Delete] are those of the embedded backend. *)
Inductive cs_op := CDownload (key : string) | CStore (i : nat) | CExpire (key : string) | CUpload (key data : string) | CDelete (key : string).

Definition cs_step (o : cs_op) (c : cachedStorage) : option (option string) * cachedStorage :=
  match o with
  | CDownload key => let '(r, c) := Download key c in (Some r, c)
  | CStore i =>
      match cs_stores c !! i with
      | Some (key, data) => (None, store key data (mkCachedStorage (cs_backend c) (cs_l1 c) (cs_disk c) (delete i (cs_stores c))))
      | None => (None, c)
      end
  | CExpire key => (None, mkCachedStorage (cs_backend c) (delete key <$> cs_l1 c) (cs_disk c) (cs_stores c))
  | CUpload key data => (None, mkCachedStorage (<[key := data]> (cs_backend c)) (cs_l1 c) (cs_disk c) (cs_stores c))
  | CDelete key => (None, mkCachedStorage (delete key (cs_backend c)) (cs_l1 c) (cs_disk c) (cs_stores c))
  end.

(** The answers of the downloads of a run. *)
Fixpoint cs_run (ops : list cs_op) (c : cachedStorage) : list (option string) * cachedStorage :=
  match ops with
  | [] => ([], c)
  | o :: ops => let '(r, c) := cs_step o c in let '(rs, c) := cs_run ops c in (option_list r ++ rs, c)%list
  end.

(** ** The names of the cache *)

Lemma drop_dotdot_no (s : string) : Contains (drop_dotdot s) ".." = false /\
  forall r, drop_dotdot s = String "." r -> HasPrefix r "." = false.
Proof.
  assert (Hgen : forall n s, (String.length s <= n)%nat -> Contains (drop_dotdot s) ".." = false /\
    (forall r, drop_dotdot s = String "." r -> HasPrefix r "." = false)); [|by apply (Hgen (String.length s))].
  clear s. intros n. induction n as [|n IH]; intros s Hs; [by destruct s; cbn in Hs; [|lia]|].
  assert (Hcons : forall c r, drop_dotdot (String c r) = String c (drop_dotdot r) -> (String.length r <= n)%nat ->
    (c = "."%char -> HasPrefix (drop_dotdot r) "." = false) ->
    Contains (drop_dotdot (String c r)) ".." = false /\ (forall q, drop_dotdot (String c r) = String "." q -> HasPrefix q "." = false)).
  { intros c r -> Hr Hdot. destruct (IH r Hr) as [H1 _]. split; [|intros q [= -> <-]; by apply Hdot].
    cbn [Contains]. rewrite H1, orb_false_r. unfold HasPrefix in *. cbn [String.prefix]. destruct (ascii_dec "." c) as [<-|]; [|done]. by apply Hdot. }
  destruct s as [|c r]; [done|]. destruct (ascii_dec c ".") as [->|Hc].
  - destruct r as [|d r]; [apply Hcons; [done|cbn; lia|done]|]. destruct (ascii_dec d ".") as [->|Hd].
    + change (drop_dotdot (String "." (String "." r))) with (drop_dotdot r). apply IH. cbn in Hs. lia.
    + assert (E : forall q, drop_dotdot (String d q) = String d (drop_dotdot q)) by (intros q; destruct d as [[] [] [] [] [] [] [] []]; done).
      apply Hcons; [by destruct d as [[] [] [] [] [] [] [] []]|cbn in Hs |- *; lia|]. intros _. rewrite E, HasPrefix_byte. by apply Ascii.eqb_neq.
  - apply Hcons; [by destruct c as [[] [] [] [] [] [] [] []]|cbn in Hs; lia|done].
Qed.

Lemma TrimLeft_suffix s : exists p, s = p ++ TrimLeft_slash s.
Proof.
  induction s as [|c s [p IH]]; [by exists ""|]. destruct (ascii_dec c "/") as [->|Hc].
  - exists (String "/" p). rewrite str_app_cons. cbn [TrimLeft_slash]. by f_equal.
  - exists "". by destruct c as [[] [] [] [] [] [] [] []].
Qed.

Lemma Contains_suffix p s sub : Contains (p ++ s) sub = false -> Contains s sub = false.
Proof. induction p as [|c p IH]; [done|]. rewrite str_app_cons. cbn. intros [_ H]%orb_false_iff. by apply IH. Qed.

(** A cleaned key has no ".." left. *)
Lemma safe_key_no_dotdot key : Contains (safe_key key) ".." = false.
Proof.
  unfold safe_key. destruct (TrimLeft_suffix (drop_dotdot key)) as [p E]. destruct (drop_dotdot_no key) as [H _]. rewrite E in H. by apply Contains_suffix in H.
Qed.

Lemma read_write_name safe name : read_name safe = Some name -> write_name safe = Some name.
Proof.
  unfold read_name, write_name. destruct (Split safe slash) as [|n [|]]; [done| |done].
  destruct (String.eqb_spec n ""), (String.eqb_spec n "."), (String.eqb_spec n ".."); try done. intros [= <-].
  rewrite filter_cons, decide_True by done. done.
Qed.

(** ** Reads *)

(** The caches hold what the backend has. *)
Definition coherent (K : gset string) (c : cachedStorage) : Prop :=
  (forall l1 k d, cs_l1 c = Some l1 -> l1 !! k = Some d -> k ∈ K -> cs_backend c !! k = Some d) /\
  (forall k d, (k, d) ∈ cs_stores c -> k ∈ K /\ cs_backend c !! k = Some d) /\
  (forall disk k name d, cs_disk c = Some disk -> k ∈ K -> write_name (safe_key k) = Some name -> disk !! name = Some d -> cs_backend c !! k = Some d).

(** No two of the keys share a file of the cache. *)
Definition names_apart (K : gset string) : Prop :=
  forall k k' name, k ∈ K -> k' ∈ K -> write_name (safe_key k) = Some name -> write_name (safe_key k') = Some name -> k = k'.

Definition reads_only (K : gset string) (o : cs_op) : Prop :=
  match o with CDownload k => k ∈ K | CStore _ | CExpire _ => True | CUpload _ _ | CDelete _ => False end.

Definition downloads (ops : list cs_op) : list string := omap (fun o => match o with CDownload k => Some k | _ => None end) ops.

Lemma Download_coherent K key c : names_apart K -> key ∈ K -> coherent K c ->
  let '(r, c') := Download key c in r = cs_backend c !! key /\ cs_backend c' = cs_backend c /\ coherent K c'.
Proof.
  intros HK Hk (H1 & H2 & H3). unfold Download. destruct (cs_l1 c ≫= _) as [d|] eqn:E1.
  - apply bind_Some in E1 as (l1 & El1 & Ed). by rewrite (H1 l1 key d El1 Ed Hk).
  - destruct (cs_disk c ≫= _) as [d|] eqn:E2.
    + apply bind_Some in E2 as (disk & Edisk & E2). apply bind_Some in E2 as (name & En & Ed). apply read_write_name in En.
      pose proof (H3 disk key name d Edisk Hk En Ed) as Hb. split; [by rewrite Hb|split; [done|]]. split; [|done]. cbn.
      intros l1 k d'. destruct (cs_l1 c) as [l|] eqn:El; [|done]. intros [= <-] Hl HkK. destruct (decide (k = key)) as [->|Hne]; [by rewrite lookup_insert_eq in Hl; injection Hl as <-|].
      rewrite lookup_insert_ne in Hl by done. by eapply H1.
    + destruct (cs_backend c !! key) as [d|] eqn:Eb; [|done]. split; [done|split; [done|]]. split; [done|split; [|done]]. cbn.
      intros k d' [Hin|Hin]%elem_of_app; [by apply H2|]. apply list_elem_of_singleton in Hin as [= -> ->]. done.
Qed.

Lemma store_coherent K key data c : names_apart K -> key ∈ K -> cs_backend c !! key = Some data -> coherent K c -> coherent K (store key data c).
Proof.
  intros HK Hk Hb (H1 & H2 & H3). split; [|split; [done|]]; cbn.
  - intros l1 k d. destruct (cs_l1 c) as [l|] eqn:El; [|done]. intros [= <-] Hl HkK. destruct (decide (k = key)) as [->|Hne]; [rewrite lookup_insert_eq in Hl; congruence|].
    rewrite lookup_insert_ne in Hl by done. by eapply H1.
  - intros disk k name d. destruct (cs_disk c) as [ds|] eqn:Ed; [|done]. intros [= <-] HkK Hn Hl. destruct (write_name (safe_key key)) as [n|] eqn:En; [|by eapply H3].
    destruct (decide (n = name)) as [->|Hne]; [|rewrite lookup_insert_ne in Hl by done; by eapply H3].
    rewrite (HK k key name HkK Hk Hn En). rewrite lookup_insert_eq in Hl. congruence.
Qed.

(** While the backend is only read, the cached storage is the backend: over any
    interleaving of downloads, of the goroutines that fill the caches and of entries that
    expire, every download answers what the backend holds, provided no two of the keys read
    share a file of the cache.  No cleaned key has a ".." left. *)
Theorem cached_storage_reads (K : gset string) (ops : list cs_op) (c : cachedStorage) :
  names_apart K -> coherent K c -> Forall (reads_only K) ops ->
  (cs_run ops c).1 = (fun k => cs_backend c !! k) <$> downloads ops /\ forall key, Contains (safe_key key) ".." = false.
Proof.
  intros HK Hc Hops. split; [|apply safe_key_no_dotdot]. revert c Hc. induction Hops as [|o ops Ho _ IH]; intros c Hc; [done|]. cbn [cs_run].
  assert (Hstep : let '(r, c') := cs_step o c in cs_backend c' = cs_backend c /\ coherent K c' /\ option_list r = (fun k => cs_backend c !! k) <$> downloads [o]).
  { destruct o as [key|i|key| |]; [| | |done..].
    - cbn [cs_step]. pose proof (Download_coherent K key c HK Ho Hc) as Hd. destruct (Download key c) as [r c']. destruct Hd as (-> & -> & Hc'). done.
    - cbn [cs_step]. destruct (cs_stores c !! i) as [[k d]|] eqn:E; [|done]. pose proof Hc as (H1 & H2 & H3).
      destruct (H2 k d) as [HkK Hb]; [by eapply list_elem_of_lookup_2|]. split; [done|split; [|done]]. apply store_coherent; [done..|].
      split; [done|split; [|done]]. cbn. intros k' d' Hin. apply H2. eapply elem_of_sublist; [exact Hin|apply sublist_delete].
    - split; [done|split; [|done]]. destruct Hc as (H1 & H2 & H3). split; [|done]. cbn. intros l1 k d. destruct (cs_l1 c) as [l|]; [|done].
      intros [= <-] [_ Hl]%lookup_delete_Some. by eapply H1. }
  destruct (cs_step o c) as [r c']. destruct Hstep as (Hb & Hc' & Hr). specialize (IH c' Hc'). destruct (cs_run ops c') as [rs c'']. cbn [fst] in *.
  rewrite IH, Hr, Hb. by destruct o.
Qed.

Definition demo_keys : gset string := {[ "a.txt"; "b.txt" ]}.
Definition demo_cache : cachedStorage := mkCachedStorage {[ "a.txt" := "alpha"; "b.txt" := "beta" ]} (Some ∅) (Some ∅) [].

Lemma demo_names : names_apart demo_keys.
Proof.
  intros k k' name Hk Hk' Hn Hn'. unfold demo_keys in *.
  apply elem_of_union in Hk as [->%elem_of_singleton| ->%elem_of_singleton], Hk' as [->%elem_of_singleton| ->%elem_of_singleton]; try done;
    vm_compute in Hn, Hn'; congruence.
Qed.

Lemma demo_coherent : coherent demo_keys demo_cache.
Proof.
  split; [|split].
  - intros l1 k d [= <-]. by rewrite lookup_empty.
  - intros k d []%not_elem_of_nil.
  - intros disk k name d [= <-] _ _. by rewrite lookup_empty.
Qed.

Lemma cached_storage_reads_witness :
  (cs_run [CDownload "a.txt"; CDownload "b.txt"; CStore 1; CStore 0; CExpire "a.txt"; CDownload "a.txt"; CDownload "b.txt"] demo_cache).1
    = [Some "alpha"; Some "beta"; Some "alpha"; Some "beta"].
Proof.
  destruct (cached_storage_reads demo_keys [CDownload "a.txt"; CDownload "b.txt"; CStore 1; CStore 0; CExpire "a.txt"; CDownload "a.txt"; CDownload "b.txt"]
    demo_cache demo_names demo_coherent) as [H _]; [|rewrite H; by vm_compute].
  repeat constructor; cbn; unfold demo_keys; set_solver.
Defined.

(** What the caches do when the backend changes.  An upload or a delete leaves both caches
    as they are: a download goes on answering the content of before, from memory until the
    entry expires and from the directory for good.  Two keys that clean to one name share a
    file, so a download of "report..1" answers the content of "report1", a key the backend may
    not even have.  A key with a "/" is never kept in the directory. *)
Theorem cached_storage_stale :
  let warm := [CDownload "a.txt"; CStore 0] in
  (forall data, (cs_run (warm ++ [CUpload "a.txt" data; CExpire "a.txt"; CDownload "a.txt"])%list demo_cache).1 = [Some "alpha"; Some "alpha"]) /\
  (cs_run (warm ++ [CDelete "a.txt"; CExpire "a.txt"; CDownload "a.txt"])%list demo_cache).1 = [Some "alpha"; Some "alpha"] /\
  (cs_run [CUpload "report1" "secret"; CDownload "report1"; CStore 0; CDownload "report..1"] demo_cache).1 = [Some "secret"; Some "secret"] /\
  (cs_run [CUpload "x/y" "1"; CDownload "x/y"; CStore 0] demo_cache).2.(cs_disk) = Some ∅.
Proof. split; [intros data; by vm_compute|split; [by vm_compute|split; by vm_compute]]. Qed.
