(* ===== verification/FileEntry.v ===== *)
(** * File entries and sizes (runtime/entry_file.go; [parseSizeBytes], [parseBytes],
    [parseMemoryLimit] of runtime/service.go)

    Sizes with a unit ("10MB"), the validation of an uploaded body, and the cleaning of
    file names.  [int] and [int64] are 64 bits wide. *)

From S2P Require Import Prelude GoStrings GoStrconv SqlModel GoPath ConfigTypes.
From Stdlib Require Import Ascii.

#[local] Open Scope string_scope.
#[local] Open Scope Z_scope.

(** ** Sizes *)

(** The digits at the front of a text. *)
Fixpoint digits_front (s : string) : string :=
  match s with
  | EmptyString => ""
  | String c s => if is_digit c then String c (digits_front s) else ""
  end.

(** [fmt.Sscanf(s, "%d", &n)] on a text without a space in front: a sign, digits, and
    whatever follows them is left. *)
Definition Sscanf_d (s : string) : option Z :=
  let '(sign, rest) :=
    match s with
    | String c rest => if Ascii.eqb c "+" || Ascii.eqb c "-" then (String c "", rest) else ("", s)
    | EmptyString => ("", "")
    end in
  let ds := digits_front rest in
  if (ds =? "")%string then None
  else match ParseInt (sign ++ ds) with (n, None) => Some n | (_, Some _) => None end.

(** The [switch] over the suffixes: the first that matches, its factor and the text without
    it. *)
Fixpoint unit_of (units : list (string * Z)) (s : string) : Z * string :=
  match units with
  | [] => (1, s)
  | (u, m) :: units => if HasSuffix s u then (m, TrimSuffix s u) else unit_of units s
  end.

Definition max_units : list (string * Z) := [("mb", 1024 * 1024); ("kb", 1024); ("gb", 1024 * 1024 * 1024); ("b", 1)].
Definition size_units : list (string * Z) := [("gb", 1024 * 1024 * 1024); ("mb", 1024 * 1024); ("kb", 1024); ("b", 1)].
Definition byte_units : list (string * Z) :=
  [("TIB", 2^40); ("GIB", 2^30); ("MIB", 2^20); ("KIB", 2^10);
   ("TB", 10^12); ("GB", 10^9); ("MB", 10^6); ("KB", 10^3); ("B", 1)].

Definition parseMaxSize (s : string) : Z :=
  let s := ToLower (TrimSpace s) in
  if (s =? "")%string then 0
  else
    let '(multiplier, s) := unit_of max_units s in
    match Sscanf_d s with
    | Some n => if n <? 0 then 0 else wrap64 (n * multiplier)
    | None => 0
    end.

Definition parseSizeBytes (s : string) (fallback : Z) : Z :=
  let s := ToLower (TrimSpace s) in
  if (s =? "")%string then fallback
  else
    let '(multiplier, s) := unit_of size_units s in
    match Sscanf_d s with
    | Some n => if n <? 0 then fallback else wrap64 (n * multiplier)
    | None => fallback
    end.

Definition parseBytes (s : string) : Z :=
  if (s =? "")%string then 0
  else
    let '(multiplier, s) := unit_of byte_units (ToUpper (TrimSpace s)) in
    match ParseInt s with
    | (n, None) => wrap64 (n * multiplier)
    | (_, Some _) => 0
    end.

(** [readCgroupMemoryLimit] over the contents of the two files, [None] for one that cannot
    be read. *)
Definition readCgroupMemoryLimit (v2 v1 : option string) : Z :=
  match (match v2 with Some d => Some d | None => v1 end) with
  | None => 0
  | Some data => match ParseInt (TrimSpace data) with (limit, None) => limit | (_, Some _) => 0 end
  end.

(** Division of Go truncates towards zero. *)
Definition parseMemoryLimit (v2 v1 : option string) (val : string) : Z :=
  if (val =? "")%string then 0
  else if HasSuffix val "%" then
    match ParseInt (TrimSuffix val "%") with
    | (pct, None) =>
        if (pct <=? 0) || (100 <? pct) then 0
        else
          let memLimit := readCgroupMemoryLimit v2 v1 in
          if memLimit <=? 0 then 0 else Z.quot (wrap64 (memLimit * pct)) 100
    | (_, Some _) => 0
    end
  else parseBytes val.

(** What [initGC] sets: the percentage and the limit of the collector, when they are set. *)
Definition initGC (v2 v1 : option string) (cfg : option GCConfig) : option Z * option Z :=
  match cfg with
  | None => (None, None)
  | Some cfg =>
      (if 0 <? GCConfig_GOGC cfg then Some (GCConfig_GOGC cfg) else None,
       if (GCConfig_MemoryLimit cfg =? "")%string then None
       else let limit := parseMemoryLimit v2 v1 (GCConfig_MemoryLimit cfg) in
            if 0 <? limit then Some limit else None)
  end.

(** ** Reading a size back *)

Lemma str_drop_app_le (n : nat) (a b : string) : (n <= String.length a)%nat -> str_drop n (a ++ b) = str_drop n a ++ b.
Proof. revert n. induction a as [|c a IH]; intros [|n] H; cbn in H; [done|lia|done|]. rewrite str_app_cons. cbn. apply IH. lia. Qed.

Lemma str_drop_app_ge (n : nat) (a b : string) : (String.length a <= n)%nat -> str_drop n (a ++ b) = str_drop (n - String.length a) b.
Proof.
  revert n. induction a as [|c a IH]; intros n H; [by rewrite Nat.sub_0_r|]. destruct n as [|n]; [cbn in H; lia|].
  rewrite str_app_cons. cbn in H |- *. apply IH. lia.
Qed.

Lemma str_drop_all P n (a : string) : str_all P a = true -> str_all P (str_drop n a) = true.
Proof. revert n. induction a as [|c a IH]; intros [|n]; cbn; try done. intros [_ H]%andb_true_iff. by apply IH. Qed.

(** A suffix without digits of digits and a unit is a suffix of the unit. *)
Lemma HasSuffix_unit (ds u v : string) :
  str_all is_digit ds = true -> str_all (fun c => negb (is_digit c)) v = true ->
  HasSuffix (ds ++ u) v = HasSuffix u v.
Proof.
  intros Hds Hv. unfold HasSuffix. rewrite str_length_app. destruct (Nat.leb_spec (String.length v) (String.length u)) as [Hle|Hlt].
  - rewrite (proj2 (Nat.leb_le _ _)) by lia. rewrite str_drop_app_ge by lia. do 2 f_equal. f_equal. lia.
  - destruct (Nat.leb_spec (String.length v) (String.length ds + String.length u)) as [Hle'|]; [|done]. cbn [andb].
    rewrite str_drop_app_le by lia. apply String.eqb_neq. intros E. rewrite <- E in Hv.
    pose proof (str_drop_all is_digit (String.length ds + String.length u - String.length v) ds Hds) as Ht.
    rewrite str_all_app in Hv. apply andb_true_iff in Hv as [Hv _]. destruct (str_drop _ ds) as [|c t].
    + apply (f_equal String.length) in E. rewrite str_app_nil_l in E. lia.
    + cbn in Ht, Hv. destruct (is_digit c); done.
Qed.

(** The unit a table of units finds at the end of a number. *)
Lemma unit_of_number (units : list (string * Z)) (ds u : string) (m : Z) :
  str_all is_digit ds = true -> Forall (fun um => str_all (fun c => negb (is_digit c)) um.1 = true) units ->
  unit_of units u = (m, "") -> unit_of units (ds ++ u) = (m, ds).
Proof.
  intros Hds Hu. induction Hu as [|[v k] units Hv _ IH]; cbn; [intros [= <- ->]; by rewrite str_app_nil_r|].
  cbn in Hv. rewrite HasSuffix_unit by done. destruct (HasSuffix u v) eqn:Es; [|exact IH]. intros [= -> Ht]. f_equal.
  assert (u = v) as ->; [|apply TrimSuffix_app].
  unfold TrimSuffix in Ht. rewrite Es in Ht. unfold HasSuffix in Es. apply andb_true_iff in Es as [Hl%Nat.leb_le E%String.eqb_eq].
  assert (Hlen : forall n s, (n <= String.length s)%nat -> String.length (str_take n s) = n).
  { clear. intros n. induction n as [|n IH]; intros [|c s] H; cbn in *; try lia. rewrite IH; lia. }
  pose proof (Hlen (String.length u - String.length v)%nat u ltac:(lia)) as Hn. rewrite Ht in Hn. cbn in Hn. rewrite <- Hn in E. by destruct u.
Qed.

Lemma digits_front_all (s : string) : str_all is_digit s = true -> digits_front s = s.
Proof. induction s as [|c s IH]; [done|]. cbn. intros [Hc Hs]%andb_true_iff. by rewrite Hc, IH. Qed.

Lemma Sscanf_pretty (x : N) : Z.of_N x < 2^63 -> Sscanf_d (pretty x) = Some (Z.of_N x).
Proof.
  intros Hx. destruct (pretty_N_digits x) as [Hd Hne]. pose proof (ParseInt_pretty x Hx) as Hp. unfold Sscanf_d.
  destruct (pretty x) as [|c s] eqn:E; [done|]. pose proof Hd as Hd'. cbn in Hd'. apply andb_true_iff in Hd' as [Hc _].
  destruct (is_digit_sign c Hc) as [-> ->]. cbn [orb]. rewrite digits_front_all by done. cbn [String.eqb]. rewrite str_app_nil_l, Hp. done.
Qed.

(** Digits are not spaces and have no case. *)
Lemma digit_case (c : ascii) : is_digit c = true -> space_byte c = false /\ lower_byte c = c /\ upper_byte c = c.
Proof. destruct c as [[] [] [] [] [] [] [] []]; vm_compute; done. Qed.

Lemma str_map_digits (f : ascii -> ascii) (ds u : string) :
  (forall c, is_digit c = true -> f c = c) -> str_all is_digit ds = true -> str_map f (ds ++ u) = ds ++ str_map f u.
Proof. intros Hf. induction ds as [|c ds IH]; [done|]. rewrite str_app_cons. cbn. intros [Hc Hd]%andb_true_iff. by rewrite Hf, IH. Qed.

(** A printed number with a unit has no spaces around it. *)
Lemma TrimSpace_number (x : N) (u : string) : trim_end u = u -> TrimSpace (pretty x ++ u) = pretty x ++ u.
Proof.
  intros Hu. destruct (pretty_N_digits x) as [Hd Hne]. set (ds := pretty x) in *. clearbody ds. unfold TrimSpace.
  assert (trim_left (ds ++ u) = ds ++ u) as ->.
  { destruct ds as [|c ds]; [done|]. rewrite str_app_cons. cbn in Hd |- *. apply andb_true_iff in Hd as [Hc _]. by destruct (digit_case c Hc) as [-> _]. }
  destruct (decide (u = "")) as [->|Hune].
  - rewrite str_app_nil_r. clear Hu. induction ds as [|c ds IH]; [done|]. cbn in Hd |- *. apply andb_true_iff in Hd as [Hc Hd].
    destruct (digit_case c Hc) as [Hs _]. destruct ds as [|d ds]; [cbn; by rewrite Hs|]. rewrite IH by done. done.
  - clear Hne Hd. induction ds as [|c ds IH]; [done|]. rewrite str_app_cons. cbn. rewrite IH. destruct ds; [by destruct u|done].
Qed.

Lemma number_unit (f : ascii -> ascii) (units : list (string * Z)) (x : N) (u : string) (m : Z) :
  (forall c, is_digit c = true -> f c = c) -> Forall (fun um => str_all (fun c => negb (is_digit c)) um.1 = true) units ->
  trim_end u = u -> unit_of units (str_map f u) = (m, "") ->
  unit_of units (str_map f (TrimSpace (pretty x ++ u))) = (m, pretty x) /\ str_map f (TrimSpace (pretty x ++ u)) <> "".
Proof.
  intros Hf Hunits Hu Hm. destruct (pretty_N_digits x) as [Hd Hne]. rewrite TrimSpace_number, str_map_digits by done.
  split; [by apply unit_of_number|]. by destruct (pretty x).
Qed.

(** The units of the documentation, in the case it writes them in and in lower case. *)
Definition doc_units : list (string * Z) :=
  [("", 1); ("B", 1); ("KB", 2^10); ("MB", 2^20); ("GB", 2^30); ("b", 1); ("kb", 2^10); ("mb", 2^20); ("gb", 2^30)].
Definition memory_units : list (string * Z) :=
  [("", 1); ("B", 1); ("KB", 10^3); ("MB", 10^6); ("GB", 10^9); ("TB", 10^12); ("KiB", 2^10); ("MiB", 2^20); ("GiB", 2^30); ("TiB", 2^40)].

(** A size written as a number and a unit is read as that many bytes: by the body limit of
    file entries and the sizes of spooled storage with the binary units, by the memory limit of
    the collector with the decimal and the "iB" units, for every number whose size fits an
    [int64]. *)
Theorem sizes_read_back (x : N) (fallback : Z) :
  Forall (fun um => Z.of_N x * um.2 < 2^63 ->
    parseMaxSize (pretty x ++ um.1) = Z.of_N x * um.2 /\ parseSizeBytes (pretty x ++ um.1) fallback = Z.of_N x * um.2) doc_units /\
  Forall (fun um => Z.of_N x * um.2 < 2^63 -> parseBytes (pretty x ++ um.1) = Z.of_N x * um.2) memory_units.
Proof.
  assert (Hlow : forall c, is_digit c = true -> lower_byte c = c) by (intros c H; apply (digit_case c H)).
  assert (Hup : forall c, is_digit c = true -> upper_byte c = c) by (intros c H; apply (digit_case c H)).
  split; apply Forall_forall; intros [u m] Hin Hx; cbn [fst snd] in *.
  - assert (H : 0 < m /\ trim_end u = u /\ unit_of max_units (ToLower u) = (m, "") /\ unit_of size_units (ToLower u) = (m, "")).
    { repeat (apply elem_of_cons in Hin as [[= -> ->]|Hin]; [by vm_compute|]). by apply not_elem_of_nil in Hin. }
    destruct H as (Hm & Hu & Hmax & Hsize). assert (Z.of_N x < 2^63) by nia.
    unfold parseMaxSize, parseSizeBytes. unfold ToLower in *.
    destruct (number_unit lower_byte max_units x u m Hlow) as [E1 Hne1]; [by repeat constructor|done|done|].
    destruct (number_unit lower_byte size_units x u m Hlow) as [E2 Hne2]; [by repeat constructor|done|done|].
    apply String.eqb_neq in Hne1. rewrite Hne1, E1, E2, Sscanf_pretty by done.
    rewrite (proj2 (Z.ltb_ge (Z.of_N x) 0)), wrap64_small by lia. done.
  - assert (H : 0 < m /\ trim_end u = u /\ unit_of byte_units (ToUpper u) = (m, "")).
    { repeat (apply elem_of_cons in Hin as [[= -> ->]|Hin]; [by vm_compute|]). by apply not_elem_of_nil in Hin. }
    destruct H as (Hm & Hu & Hb). assert (Z.of_N x < 2^63) by nia. unfold parseBytes. unfold ToUpper in *.
    destruct (number_unit upper_byte byte_units x u m Hup) as [E1 _]; [by repeat constructor|done|done|].
    destruct (pretty_N_digits x) as [_ Hne]. replace (pretty x ++ u =? "")%string with false by (by destruct (pretty x)).
    rewrite E1, ParseInt_pretty by done. by rewrite wrap64_small by lia.
Qed.

Lemma sizes_read_back_witness : parseMaxSize "10MB" = 10485760 /\ parseSizeBytes "10MB" 0 = 10485760 /\ parseBytes "512MiB" = 536870912.
Proof.
  destruct (sizes_read_back 10 0) as [H _]. destruct (Forall_lookup_1 _ _ 3 _ H eq_refl) as [H1 H2]; [vm_compute; done|].
  destruct (sizes_read_back 512 0) as [_ H']. pose proof (Forall_lookup_1 _ _ 7 _ H' eq_refl) as H3.
  split; [exact H1|split; [exact H2|apply H3; vm_compute; done]].
Defined.

(** How sizes go wrong.  Text after the number is not read, so an "iB" unit or a fraction
    limits a body to the bytes of the number's front ("10MiB" is ten bytes, "1.5GB" one
    gigabyte); what is not a number switches the limit off, as does a size that overflows to a
    negative one; a percentage of a control group of the first version that has no limit
    overflows to a negative size, which is ignored. *)
Theorem sizes_misread :
  parseMaxSize "10MiB" = 10 /\ parseMaxSize "1.5GB" = 2^30 /\ parseMaxSize "ten MB" = 0 /\ parseMaxSize "9000000000GB" < 0 /\
  parseSizeBytes "5MiB" 0 = 5 /\ parseBytes "64M" = 0 /\
  parseMemoryLimit None (Some "9223372036854771712") "90%" = -3686 /\
  initGC None (Some "9223372036854771712") (Some (mkGCConfig 50 "90%")) = (Some 50, None).
Proof. vm_compute. repeat split; done. Qed.

(** ** Validation of uploads *)

Definition matchContentType (contentType allowed : string) : bool :=
  if (contentType =? allowed)%string then true
  else if HasSuffix allowed "/*" then HasPrefix contentType (TrimSuffix allowed "/*" ++ "/")
  else false.

Fixpoint isContentTypeAllowed (contentType : string) (allowed : list string) : bool :=
  match allowed with [] => false | t :: allowed => if matchContentType contentType t then true else isContentTypeAllowed contentType allowed end.

(** What the validator reads of a request: the Content-Type header, the length of the body,
    the files of a multipart form by field ([None] when the body is no such form), and what
    [http.DetectContentType] says of the body. *)
Record upload : Type := mkUpload { up_type : string; up_length : Z; up_form : option (gmap string (list string)); up_detected : string }.

(** The status of the refusal, [None] when the handler is called. *)
Definition fileValidator (entry : EntryDef) (c : upload) : option Z :=
  let types := EntryDef_AllowedTypes entry in
  if bool_decide (types <> []) && negb (isContentTypeAllowed (up_type c) types) then Some 415
  else
    let maxBytes := parseMaxSize (EntryDef_MaxSize entry) in
    if negb (EntryDef_MaxSize entry =? "")%string && (0 <? maxBytes) && (maxBytes <? up_length c) then Some 413
    else if (0 <? EntryDef_MaxFiles entry) &&
            match up_form c with Some form => EntryDef_MaxFiles entry <? Z.of_nat (size form) | None => false end then Some 413
    else if EntryDef_MagicBytes entry && (512 <? up_length c) && negb (isContentTypeAllowed (up_detected c) types) then Some 415
    else None.

(** What [registerFile] adds to the application, in order: a validator for everything below
    the path, and the route. *)
Inductive registration := UseValidator (path : string) (entry : EntryDef) | Route (method path handler : string).

Definition registerFile (known : string -> bool) (prefix : string) (entry : EntryDef) : option (list registration) :=
  if negb (known (EntryDef_Handler entry)) then None
  else
    let path := prefix ++ EntryDef_Path entry in
    let validates := (bool_decide (EntryDef_AllowedTypes entry <> []) || negb (EntryDef_MaxSize entry =? "")%string) &&
                     bool_decide (EntryDef_Method entry ∈ ["POST"; "PUT"; "PATCH"]) in
    Some ((if validates then [UseValidator path entry] else []) ++ [Route (EntryDef_Method entry) path (EntryDef_Handler entry)])%list.

(** The router: what is registered is tried in order; [under p path] and [is_route p path] are
    its matching of a middleware's prefix and of a route. *)
Section serve.
Context (under is_route : string -> string -> bool).

Inductive answer := Refused (status : Z) | Handled (handler : string) | NoRoute.

Fixpoint serve (app : list registration) (method path : string) (c : upload) : answer :=
  match app with
  | [] => NoRoute
  | UseValidator p entry :: app =>
      if under p path then match fileValidator entry c with Some status => Refused status | None => serve app method path c end
      else serve app method path c
  | Route m p h :: app => if (m =? method)%string && is_route p path then Handled h else serve app method path c
  end.
End serve.

(** A media type without parameters that is no pattern. *)
Definition media_type (t : string) : Prop := HasSuffix t "/*" = false.

Lemma not_allowed (ct : string) (types : list string) :
  Forall media_type types -> ct ∉ types -> isContentTypeAllowed ct types = false.
Proof.
  intros H. induction H as [|t types Ht _ IH]; intros Hct; [done|]. apply not_elem_of_cons in Hct as [Hne Hct]. cbn.
  unfold matchContentType. apply String.eqb_neq in Hne. rewrite Hne, Ht. by apply IH.
Qed.

Lemma isContentTypeAllowed_exists ct types : isContentTypeAllowed ct types = true <-> exists t, t ∈ types /\ matchContentType ct t = true.
Proof.
  induction types as [|t types IH]; cbn; [split; [done|]; intros (t & []%not_elem_of_nil & _)|].
  destruct (matchContentType ct t) eqn:E; [split; [|done]; intros _; exists t; split; [left|done]|].
  rewrite IH. split; intros (u & Hu & Hm); exists u; (split; [|done]); [by right|]. apply elem_of_cons in Hu as [->|Hu]; [congruence|done].
Qed.

(** An upload entry lets a request through to its handler exactly when its content type is
    one of the allowed ones, its body is within the size limit, its form has at most the
    allowed number of fields with files, and a body over 512 bytes is detected as an allowed
    type. *)
Theorem upload_validated (under is_route : string -> string -> bool) (known : string -> bool) (prefix : string) (entry : EntryDef) (app : list registration) (c : upload) :
  let path := prefix ++ EntryDef_Path entry in
  EntryDef_Method entry ∈ ["POST"; "PUT"; "PATCH"] -> EntryDef_AllowedTypes entry <> [] ->
  under path path = true -> is_route path path = true -> 0 < parseMaxSize (EntryDef_MaxSize entry) ->
  registerFile known prefix entry = Some app ->
  serve under is_route app (EntryDef_Method entry) path c = Handled (EntryDef_Handler entry) <->
  (exists t, t ∈ EntryDef_AllowedTypes entry /\ matchContentType (up_type c) t = true) /\
  up_length c <= parseMaxSize (EntryDef_MaxSize entry) /\
  (0 < EntryDef_MaxFiles entry -> forall form, up_form c = Some form -> Z.of_nat (size form) <= EntryDef_MaxFiles entry) /\
  (EntryDef_MagicBytes entry = true -> 512 < up_length c -> exists t, t ∈ EntryDef_AllowedTypes entry /\ matchContentType (up_detected c) t = true).
Proof.
  intros path Hm Ht Hu Hr Hmax Happ. unfold registerFile in Happ. destruct (known _); [|done]. injection Happ as <-.
  rewrite (bool_decide_true (_ ∈ _)), (bool_decide_true (_ <> [])) by done. cbn [orb andb app serve]. fold path. rewrite Hu, Hr, String.eqb_refl. cbn [andb].
  rewrite <- !isContentTypeAllowed_exists.
  assert (HM : (EntryDef_MaxSize entry =? "")%string = false).
  { apply String.eqb_neq. intros E. by rewrite E in Hmax. }
  unfold fileValidator. rewrite HM, (bool_decide_true (_ <> [])) by done. cbn [negb andb].
  destruct (isContentTypeAllowed (up_type c) _); cbn [negb]; [|by split; [|intros [? _]]].
  rewrite (proj2 (Z.ltb_lt _ _) Hmax). cbn [andb]. destruct (Z.ltb_spec (parseMaxSize (EntryDef_MaxSize entry)) (up_length c)); [split; [done|]; lia|].
  assert (Hff : (0 <? EntryDef_MaxFiles entry) && match up_form c with Some form => EntryDef_MaxFiles entry <? Z.of_nat (size form) | None => false end = false <->
    (0 < EntryDef_MaxFiles entry -> forall form, up_form c = Some form -> Z.of_nat (size form) <= EntryDef_MaxFiles entry)).
  { rewrite andb_false_iff, Z.ltb_ge. destruct (up_form c) as [form|]; [rewrite Z.ltb_ge|by split; [|auto]]. split.
    - intros [H'|H'] Hp f [= <-]; lia.
    - intros H'. destruct (Z.le_gt_cases (EntryDef_MaxFiles entry) 0); [by left|right]. by apply H'. }
  destruct (_ && match up_form c with _ => _ end) eqn:Ef; [split; [done|]; intros (_ & _ & H' & _); by apply Hff in H'|].
  destruct (EntryDef_MagicBytes entry); cbn [andb]; [|split; [|done]; intros _; split; [done|split; [done|split; [by apply Hff|done]]]].
  destruct (Z.ltb_spec 512 (up_length c)); cbn [andb]; [|split; [|done]; intros _; split; [done|split; [done|split; [by apply Hff|lia]]]].
  destruct (isContentTypeAllowed (up_detected c) _); cbn [negb]; split; try done.
  - intros _. split; [done|split; [done|split; [by apply Hff|done]]].
  - intros (_ & _ & _ & H'). by discriminate H'.
Qed.

(** The entry of the documentation: images up to 10MB, at most 5 files, content checked. *)
Definition upload_entry : EntryDef :=
  (ConfigTypes.zero : EntryDef) <| EntryDef_Type := "file" |> <| EntryDef_Method := "POST" |> <| EntryDef_Path := "/files" |> <| EntryDef_Handler := "Upload" |>
    <| EntryDef_AllowedTypes := ["image/png"; "image/jpeg"] |> <| EntryDef_MaxSize := "10MB" |> <| EntryDef_MaxFiles := 5 |> <| EntryDef_MagicBytes := true |>.
Definition same_path (p path : string) : bool := (p =? path)%string.

Lemma upload_validated_witness :
  serve same_path same_path (default [] (registerFile (fun _ => true) "/api" upload_entry)) "POST" "/api/files" (mkUpload "image/png" 4096 None "image/jpeg") = Handled "Upload".
Proof.
  apply (proj2 (upload_validated same_path same_path (fun _ => true) "/api" upload_entry _ _
    ltac:(left) ltac:(done) eq_refl eq_refl ltac:(by vm_compute) eq_refl)).
  split; [exists "image/png"; split; [left|done]|]. split; [by vm_compute|]. split; [done|]. intros _ _. exists "image/jpeg". split; [right; left|done].
Defined.

(** What the validation of uploads misses.  A list of plain media types refuses every
    multipart form, whose content type carries its boundary, so the number of files is never
    looked at; where forms are let in, the limit counts the fields and not the files in them.
    The limit of files and the check of the content alone register no validator.  The
    validator is registered for every method, so a download registered later on the same path
    is refused for its missing content type.  The content is compared with the allowed types
    and not with the declared one. *)
Theorem upload_gaps (under is_route : string -> string -> bool) :
  (forall p, under p p = true) ->
  (forall entry c, EntryDef_AllowedTypes entry <> [] -> Forall media_type (EntryDef_AllowedTypes entry) ->
     up_type c ∉ EntryDef_AllowedTypes entry -> fileValidator entry c = Some 415) /\
  (let forms := upload_entry <| EntryDef_AllowedTypes := ["multipart/*"] |> <| EntryDef_MagicBytes := false |> in
   fileValidator forms (mkUpload "multipart/form-data; boundary=x" 900 (Some {[ "docs" := replicate 400 "a.png" ]}) "text/plain; charset=utf-8") = None) /\
  (forall prefix entry, EntryDef_AllowedTypes entry = [] -> EntryDef_MaxSize entry = "" ->
     registerFile (fun _ => true) prefix entry = Some [Route (EntryDef_Method entry) (prefix ++ EntryDef_Path entry) (EntryDef_Handler entry)]) /\
  (let get := upload_entry <| EntryDef_Method := "GET" |> <| EntryDef_Handler := "Download" |> <| EntryDef_AllowedTypes := [] |> <| EntryDef_MaxSize := "" |> in
   forall app1 app2, registerFile (fun _ => true) "/api" upload_entry = Some app1 -> registerFile (fun _ => true) "/api" get = Some app2 ->
   serve under is_route (app1 ++ app2)%list "GET" "/api/files" (mkUpload "" 0 None "text/plain; charset=utf-8") = Refused 415) /\
  fileValidator upload_entry (mkUpload "image/png" 4096 None "image/jpeg") = None.
Proof.
  intros Hu. split; [|split; [by vm_compute|split; [|split; [|by vm_compute]]]].
  - intros entry c Hne Hm Hct. unfold fileValidator. by rewrite bool_decide_true, not_allowed.
  - intros prefix entry H1 H2. unfold registerFile. rewrite H1, H2. done.
  - intros get app1 app2 [= <-] [= <-]. cbn [app serve]. change ("/api" ++ EntryDef_Path upload_entry) with "/api/files". by rewrite Hu.
Qed.

Lemma upload_gaps_witness :
  fileValidator upload_entry (mkUpload "multipart/form-data; boundary=x" 900 (Some ∅) "text/plain; charset=utf-8") = Some 415.
Proof.
  destruct (upload_gaps same_path same_path) as [H _]; [intros p; apply String.eqb_refl|]. apply H; [done|by repeat constructor|].
  cbn. intros [E|[E|[]%not_elem_of_nil]%elem_of_cons]%elem_of_cons; done.
Defined.

(** ** File names *)

Definition isSafeFileChar (r : ascii) : bool :=
  byte_le "a" r "z" || byte_le "A" r "Z" || byte_le "0" r "9" || Ascii.eqb r "." || Ascii.eqb r "_" || Ascii.eqb r "-".

(** The safe characters of a text: the bytes of a rune outside ASCII are none. *)
Fixpoint keep (P : ascii -> bool) (s : string) : string :=
  match s with EmptyString => "" | String c s => if P c then String c (keep P s) else keep P s end.
Definition sanitizeExt (ext : string) : string := keep isSafeFileChar ext.

(** [strings.ReplaceAll(s, c, "")] for one byte. *)
Definition drop_byte (c : ascii) (s : string) : string := keep (fun d => negb (Ascii.eqb d c)) s.

Definition SanitizeFilename (name : string) : string :=
  if (name =? "")%string then "untitled"
  else
    let ext := Ext name in
    let baseName := if (ext =? "")%string then name else str_take (String.length name - String.length ext) name in
    let baseName := drop_byte "000" (drop_byte "\" (drop_byte "/" baseName)) in
    let result := keep isSafeFileChar baseName in
    let result := if (result =? "")%string then "untitled" else result in
    let result := result ++ sanitizeExt ext in
    let result := if Nat.ltb 255 (String.length result) then str_take 255 result else result in
    if (result =? "")%string then "untitled" else result.

Lemma keep_all P s : str_all P (keep P s) = true.
Proof. induction s as [|c s IH]; [done|]. cbn. destruct (P c) eqn:E; [|done]. cbn. by rewrite E. Qed.

Lemma str_take_all P n s : str_all P s = true -> str_all P (str_take n s) = true.
Proof. revert n. induction s as [|c s IH]; intros [|n]; cbn; try done. intros [-> H]%andb_true_iff. by apply IH. Qed.

Lemma str_take_le n s : (String.length (str_take n s) <= n)%nat.
Proof. revert s. induction n as [|n IH]; intros [|c s]; cbn; try lia. specialize (IH s). lia. Qed.

Lemma keep_id P s : str_all P s = true -> keep P s = s.
Proof. induction s as [|c s IH]; [done|]. cbn. intros [-> H]%andb_true_iff. by rewrite IH. Qed.

Lemma str_all_impl (P Q : ascii -> bool) s : (forall c, P c = true -> Q c = true) -> str_all P s = true -> str_all Q s = true.
Proof. intros H. induction s as [|c s IH]; [done|]. cbn. intros [Hc Hs]%andb_true_iff. by rewrite (H c Hc), IH. Qed.

Lemma Ext_suffix (s : string) : exists b, s = b ++ Ext s.
Proof.
  induction s as [|c s [b IH]]; [by exists ""|]. cbn [Ext]. destruct (Ext s =? "")%string eqn:E.
  - destruct (_ && _); [by exists ""|]. exists (String c s). by rewrite str_app_nil_r.
  - exists (String c b). rewrite str_app_cons. by f_equal.
Qed.

Lemma safe_chars (c : ascii) : isSafeFileChar c = true -> negb (Ascii.eqb c "/") = true /\ negb (Ascii.eqb c "\") = true /\ negb (Ascii.eqb c "000") = true.
Proof. destruct c as [[] [] [] [] [] [] [] []]; vm_compute; done. Qed.

(** The end of the cleaning: never empty, cut at 255 bytes. *)
Lemma finish_name (r : string) : r <> "" -> str_all isSafeFileChar r = true ->
  let r' := if Nat.ltb 255 (String.length r) then str_take 255 r else r in
  r' <> "" /\ (String.length r' <= 255)%nat /\ str_all isSafeFileChar r' = true.
Proof.
  intros Hne Hr. cbn zeta. destruct (Nat.ltb_spec 255 (String.length r)); [|done].
  split; [by destruct r|]. split; [apply str_take_le|by apply str_take_all].
Qed.

(** A cleaned file name is not empty, has at most 255 bytes, and is made of letters, digits,
    dots, underscores and hyphens only; a name of such characters that has a stem and is not
    too long is kept as it is.  The names "." and ".." pass: a cleaned name can be the one of a
    directory above. *)
Theorem SanitizeFilename_safe (name : string) :
  (let r := SanitizeFilename name in r <> "" /\ (String.length r <= 255)%nat /\ str_all isSafeFileChar r = true) /\
  (str_all isSafeFileChar name = true -> (String.length name <= 255)%nat -> Ext name <> name -> SanitizeFilename name = name) /\
  SanitizeFilename ".." = ".." /\ SanitizeFilename "./" = "." /\ SanitizeFilename "/.." = "..".
Proof.
  split; [|split; [|by vm_compute]].
  - cbn zeta. unfold SanitizeFilename. destruct (name =? "")%string; [split; [done|split; [cbn; lia|done]]|].
    set (base := keep isSafeFileChar _). set (stem := if (base =? "")%string then "untitled" else base).
    assert (Hstem : stem <> "" /\ str_all isSafeFileChar stem = true).
    { subst stem. destruct (String.eqb_spec base ""); [done|]. split; [done|apply keep_all]. }
    destruct (finish_name (stem ++ sanitizeExt (Ext name))) as (H1 & H2 & H3).
    { by destruct stem, Hstem. }
    { rewrite str_all_app. apply andb_true_iff. split; [apply Hstem|apply keep_all]. }
    by rewrite (proj2 (String.eqb_neq _ _) H1).
  - intros Hs Hl He. destruct (Ext_suffix name) as [b Hb]. unfold SanitizeFilename.
    destruct (String.eqb_spec name "") as [E|Hne]; [by rewrite E in He|].
    assert (Hbase : (if (Ext name =? "")%string then name else str_take (String.length name - String.length (Ext name)) name) = b).
    { destruct (String.eqb_spec (Ext name) "") as [E|_]; [by rewrite Hb, E, str_app_nil_r at 1|].
      rewrite Hb at 1 3. rewrite str_length_app. replace (_ + _ - _)%nat with (String.length b) by lia. apply str_take_app. }
    rewrite Hbase. rewrite Hb, str_all_app in Hs. apply andb_true_iff in Hs as [Hsb Hse].
    assert (Hdrop : forall c, (forall d, isSafeFileChar d = true -> negb (Ascii.eqb d c) = true) -> drop_byte c b = b).
    { intros c Hc. apply keep_id. by apply (str_all_impl isSafeFileChar). }
    rewrite !Hdrop by (intros d Hd; apply (safe_chars d Hd)). rewrite (keep_id isSafeFileChar b) by done.
    destruct (String.eqb_spec b "") as [->|_]; [by rewrite str_app_nil_l in Hb|].
    unfold sanitizeExt. rewrite keep_id by done. rewrite <- Hb. destruct (Nat.ltb_spec 255 (String.length name)); [lia|].
    by rewrite (proj2 (String.eqb_neq _ _) Hne).
Qed.

Lemma SanitizeFilename_safe_witness : SanitizeFilename "report-2024_v1.tar.gz" = "report-2024_v1.tar.gz" /\ SanitizeFilename "../../etc/pass wd" = "....etcpasswd".
Proof.
  split; [|by vm_compute]. destruct (SanitizeFilename_safe "report-2024_v1.tar.gz") as (_ & H & _). apply H; [by vm_compute|cbn; lia|by vm_compute].
Defined.
