(* ===== verification/Service.v ===== *)
(** * The service (runtime/service.go)

    What a program registers before [Run], the stages of [RunWithContext] in their order, the
    lazily opened key-value stores and the sessions kept in them, [shutdown], and the
    permissions gathered from the configuration.  The outcomes of what the stages call
    (connections, seeds, route registration) are the argument [world]. *)

From Stdlib Require Import Ascii String.
From S2P Require Import Prelude GoStrings ConfigTypes EntryAuth FileEntry.
#[local] Open Scope list_scope.
#[local] Open Scope Z_scope.

(** ** State *)

Inductive broker := Nats (name : string) | Kafka (name : string) (brokers : list string) (group : string).

Record Service : Type := mkService {
  sv_config : ServiceConfig;
  sv_pools : gset string;                       (* open database pools *)
  sv_kvConns : gset string;                     (* a nil map has no keys *)
  sv_streamConns : gmap string broker;
  sv_natsConns : gmap string broker;
  sv_storage : gmap string StorageDef;          (* the backends, by entry path *)
  sv_fsRegistry : gset string;
  sv_setup : authSetup;                         (* the validators registered and the auth section *)
  sv_srv : bool; sv_cron : bool; sv_grpc : bool; sv_exits : bool; sv_reapers : nat }.
#[export] Instance eta_Service : Eta Service := fun s =>
  mkService (sv_config s) (sv_pools s) (sv_kvConns s) (sv_streamConns s) (sv_natsConns s) (sv_storage s) (sv_fsRegistry s) (sv_setup s)
    (sv_srv s) (sv_cron s) (sv_grpc s) (sv_exits s) (sv_reapers s).

Definition newFromConfig (cfg : ServiceConfig) (setup : authSetup) : Service := mkService cfg ∅ ∅ ∅ ∅ ∅ ∅ setup false false false false 0.

Definition WithFS (name : string) (s : Service) : Service := s <| sv_fsRegistry := {[name]} ∪ sv_fsRegistry s |>.

(** [KV]: the connection, opened on the first call for a configured name. *)
Definition KV (name : string) (s : Service) : option string * Service :=
  if decide (name ∈ sv_kvConns s) then (Some name, s)
  else if existsb (fun c => String.eqb (KVConfig_Name c) name) (ServiceConfig_KV (sv_config s))
       then (Some name, s <| sv_kvConns := {[name]} ∪ sv_kvConns s |>) else (None, s).

(** ** Sessions *)

(** [s.config.Auth.Session]: the nil pointer of a service without an auth section is [None]. *)
Definition sessionStore (ParseDuration : string -> option Z) (s : Service) : option (string * Z + string) :=
  auth ← ServiceConfig_Auth (sv_config s);
  Some (match AuthConfig_Session auth with
        | None => inr "auth.session not configured"
        | Some sc =>
            if String.eqb (SessionConf_Store sc) "" then inr "auth.session.store is required (shared KV)"
            else if decide (SessionConf_Store sc ∈ sv_kvConns s) then inl (SessionConf_Store sc, parseServerDuration ParseDuration (SessionConf_TTL sc) (24 * 3600 * 10^9))
            else inr "auth.session.store not found"
        end).

Definition SessionCookieName (s : Service) : option string :=
  auth ← ServiceConfig_Auth (sv_config s);
  Some (match AuthConfig_Session auth with Some sc => if String.eqb (SessionConf_Cookie sc) "" then "sid" else SessionConf_Cookie sc | None => "sid" end).

(** ** Validation of the auth section *)

Fixpoint first_error {A} (f : A -> option string) (l : list A) : option string :=
  match l with [] => None | x :: l => match f x with Some e => Some e | None => first_error f l end end.

Definition validateAuthDisabled (s : Service) : option string :=
  first_error (fun e => match EntryDef_AuthModes e with [] => None | _ => Some "auth requires auth.enabled: true" end) (ServiceConfig_Entry (sv_config s)).

Definition validateAuthEnabled (s : Service) : option string :=
  first_error (fun e => validateEntryAuthConfig e (sv_setup s)) (ServiceConfig_Entry (sv_config s)).

Definition validateAuthConfig (s : Service) : option string :=
  match ServiceConfig_Auth (sv_config s) with
  | Some a => if AuthConfig_Enabled a then validateAuthEnabled s else validateAuthDisabled s
  | None => validateAuthDisabled s
  end.

(** ** Streams *)

Inductive storageType := MemoryStorage | FileStorage.
Inductive compressionType := NoCompression | S2Compression.
Definition parseNATSStorage (s : string) : storageType := if String.eqb s "memory" then MemoryStorage else FileStorage.
Definition parseNATSCompression (s : string) : compressionType := if String.eqb s "none" then NoCompression else S2Compression.

(** [connect] says whether a connection opens, [ensure] whether the stream is there afterwards,
    with the age and bytes it is asked for ([None] for the default). *)
Section streams.
Context (ParseDuration : string -> option Z) (connect : StreamConfig -> bool).
Context (ensure : string -> string -> option Z -> option Z -> storageType -> compressionType -> bool).

Fixpoint ensure_streams (conn : string) (sds : list StreamDef) : option string :=
  match sds with
  | [] => None
  | sd :: sds =>
      let age := if String.eqb (StreamDef_MaxAge sd) "" then None else ParseDuration (StreamDef_MaxAge sd) in
      let size := if 0 <? StreamDef_MaxBytes sd then Some (StreamDef_MaxBytes sd) else None in
      if ensure conn (StreamDef_Name sd) age size (parseNATSStorage (StreamDef_Storage sd)) (parseNATSCompression (StreamDef_Compression sd))
      then ensure_streams conn sds else Some (StreamDef_Name sd)
  end.

(** The brokers, or the error with the connections that stay open.  A driver of neither kind
    leaves a nil broker, which validation excludes. *)
Fixpoint initStreams (configs : list StreamConfig) (brokers : gmap string broker) : gmap string broker + string * gmap string broker :=
  match configs with
  | [] => inl brokers
  | cfg :: configs =>
      if String.eqb (StreamConfig_Driver cfg) "nats" then
        if negb (connect cfg) then inr ("connect", brokers)
        else
          let conn := Nats (StreamConfig_Name cfg) in
          match ensure_streams (StreamConfig_Name cfg) (StreamConfig_Streams cfg) with
          | Some e => inr (e, <[StreamConfig_Name cfg := conn]> brokers)
          | None => initStreams configs (<[StreamConfig_Name cfg := conn]> brokers)
          end
      else
        let group := if String.eqb (StreamConfig_ConsumerGroup cfg) "" then StreamConfig_Name cfg +:+ "-group" else StreamConfig_ConsumerGroup cfg in
        initStreams configs (<[StreamConfig_Name cfg := Kafka (StreamConfig_Name cfg) (StreamConfig_Brokers cfg) group]> brokers)
  end.

Definition initStreamConns (s : Service) : option string * Service :=
  match ServiceConfig_Stream (sv_config s) with
  | [] => (None, s)
  | configs =>
      match initStreams configs ∅ with
      | inr (e, _) => (Some e, s)
      | inl brokers => (None, s <| sv_streamConns := brokers |> <| sv_natsConns := brokers ∪ sv_natsConns s |>)
      end
  end.
End streams.

(** ** Storage and static files *)

(** The endpoint without its scheme, and whether it was https. *)
Definition split_endpoint (endpoint : string) : string * bool :=
  if (8 <? Z.of_nat (String.length endpoint)) && HasPrefix endpoint "https://" then (str_drop 8 endpoint, true)
  else if (7 <? Z.of_nat (String.length endpoint)) && HasPrefix endpoint "http://" then (str_drop 7 endpoint, false)
  else (endpoint, false).

Inductive backend :=
| Local (path : string)
| S3 (endpoint region bucket : string) (useSSL : bool) (partSize concurrency : Z)
| Spooled (b : backend) (mode : string) (memoryLimit : Z) (dir : string) (partSize concurrency : Z) (async : bool)
| Cached (b : backend) (ttl : Z).

Definition spoolPartSize (s : StorageDef) : string := match StorageDef_Spool s with Some sp => SpoolDef_PartSize sp | None => "" end.
Definition spoolConcurrency (s : StorageDef) : Z := match StorageDef_Spool s with Some sp => SpoolDef_Concurrency sp | None => 0 end.

Definition initStorageFromDef (ParseDuration : string -> option Z) (s : StorageDef) : backend + string :=
  if String.eqb (StorageDef_Mode s) "local" then inl (Local (StorageDef_Path s))
  else if String.eqb (StorageDef_Mode s) "s3" then
    let '(endpoint, useSSL) := split_endpoint (StorageDef_Endpoint s) in
    let b := S3 endpoint (StorageDef_Region s) (StorageDef_Bucket s) useSSL (parseSizeBytes (spoolPartSize s) 0) (spoolConcurrency s) in
    let b := match StorageDef_Spool s with
             | Some sp => Spooled b (SpoolDef_Mode sp) (parseSizeBytes (SpoolDef_MemoryLimit sp) (4 * 1024 * 1024)) (SpoolDef_Dir sp) (parseSizeBytes (SpoolDef_PartSize sp) 0) (SpoolDef_Concurrency sp) (SpoolDef_Async sp)
             | None => b
             end in
    match StorageDef_Cache s with
    | Some c =>
        if String.eqb (CacheConfig_L1 c) "ram" || String.eqb (CacheConfig_L2 c) "disk" then
          let ttl := default 0 (ParseDuration (CacheConfig_L1TTL c)) in inl (Cached b (if ttl <=? 0 then 5 * 60 * 10^9 else ttl))
        else inl b
    | None => inl b
    end
  else inr "unsupported storage mode".

(** The routes of a static definition: the file handler, then the fallback of a single-page
    application.  [None] when it is skipped. *)
Inductive static_route := StaticFiles (methods : list string) (path : string) (embed : bool) (root : string) (index : list string) | SPA (methods : list string) (path index : string).

Definition registerStatic (s : Service) (sd : StaticDef) : list static_route :=
  let embed := String.eqb (StaticDef_FS sd) "embed" in
  if (if embed then String.eqb (StaticDef_FSName sd) "" || negb (bool_decide (StaticDef_FSName sd ∈ sv_fsRegistry s)) else String.eqb (StaticDef_Dir sd) "") then []
  else
    let index := match StaticDef_IndexNames sd with [] => ["index.html"] | l => l end in
    let methods := match StaticDef_Methods sd with [] => ["GET"; "HEAD"] | l => l end in
    let path := StaticDef_Prefix sd +:+ "/*" in
    StaticFiles methods path embed (if embed then "" else StaticDef_Dir sd) index :: (if StaticDef_SPA sd then [SPA methods path (default "" (head index))] else []).

(** ** Running *)

Inductive act := ALogger | ADeploy | AAuth | AConnect | ASeeds | AServer | ARoutes | AStatic | ARedirects | ADocs | AExit | ACron | AGrpcServer | AReady | AListen.

Record world : Type := mkWorld {
  w_logger : option string; w_deploy : option string; w_pools : gset string + string; w_stream_first : bool;
  w_connect : StreamConfig -> bool; w_ensure : string -> string -> option Z -> option Z -> storageType -> compressionType -> bool;
  w_grpc : bool; w_seeds : list (option string); w_backend : StorageDef -> bool; w_entries : option string; w_exit : option string; w_cron : option string; w_listen : option string }.

Section run.
Context (ParseDuration : string -> option Z) (w : world).

(** A stage: what it does to the service, and its error. *)
Definition stage : Type := Service -> option string * Service.
Definition ok (f : Service -> Service) : stage := fun s => (None, f s).
Definition check (e : Service -> option string) : stage := fun s => (e s, s).

(** [initDatabases] and [initStreamConns] run at the same time; both have ended when the group
    is waited for, and the error is that of the one that failed first. *)
Definition initConnections : stage := fun s =>
  let '(e1, s) := match ServiceConfig_Databases (sv_config s) with
                  | [] => (None, s)
                  | _ => match w_pools w with inl p => (None, s <| sv_pools := p |>) | inr e => (Some e, s) end
                  end in
  let '(e2, s) := initStreamConns ParseDuration (w_connect w) (w_ensure w) s in
  (match e1, e2 with Some e1, Some e2 => Some (if w_stream_first w then e2 else e1) | Some e, None | None, Some e => Some e | None, None => None end, s).

Definition runSeeds : stage := check (fun _ => first_error id (w_seeds w)).

(** The storage of the file entries: the first entry of a path decides. *)
Fixpoint init_storages (es : list EntryDef) (st : gmap string StorageDef) : option string * gmap string StorageDef :=
  match es with
  | [] => (None, st)
  | e :: es =>
      match EntryDef_Storage e with
      | Some sd =>
          if String.eqb (EntryDef_Type e) "file" && bool_decide (st !! EntryDef_Path e = None) then
            match initStorageFromDef ParseDuration sd with
            | inl _ => if w_backend w sd then init_storages es (<[EntryDef_Path e := sd]> st) else (Some "storage", st)
            | inr err => (Some err, st)
            end
          else init_storages es st
      | None => init_storages es st
      end
  end.

(** The limiter's store, if it has been opened. *)
Definition rlRedis (s : Service) : option string :=
  rl ← ServerConf_RateLimit (ServiceConfig_Server (sv_config s));
  if String.eqb (RateLimitConf_KV rl) "" then None else if decide (RateLimitConf_KV rl ∈ sv_kvConns s) then Some (RateLimitConf_KV rl) else None.

Definition registerEntryRoutes : stage := fun s =>
  match ServiceConfig_Entry (sv_config s) with
  | [] => (None, s)
  | es =>
      let '(e, st) := init_storages es (sv_storage s) in
      let s := s <| sv_storage := st |> in
      match e with
      | Some e => (Some e, s)
      | None =>
          match buildAuthExtra ParseDuration (sv_kvConns s) (ServiceConfig_Auth (sv_config s)) with
          | inr e => (Some ("auth setup: " +:+ e), s)
          | inl _ => (w_entries w, s)
          end
      end
  end.

Definition startExitWorkers : stage := fun s =>
  match ServiceConfig_Exit (sv_config s) with [] => (None, s) | _ => (w_exit w, s <| sv_exits := true |>) end.
Definition startCron : stage := fun s =>
  match ServiceConfig_Cron (sv_config s) with [] => (None, s) | _ => (w_cron w, s <| sv_cron := true |>) end.

(** [RunWithContext]: its stages, each with the action it stands for. *)
Definition stages : list (act * stage) :=
  [(ALogger, check (fun _ => w_logger w)); (ADeploy, check (fun _ => w_deploy w)); (AAuth, check validateAuthConfig); (AConnect, initConnections);
   (ASeeds, fun s => runSeeds (s <| sv_grpc := w_grpc w |>)); (AServer, ok (fun s => s <| sv_srv := true |>)); (ARoutes, registerEntryRoutes);
   (AStatic, ok id); (ARedirects, ok id); (ADocs, ok id); (AExit, startExitWorkers); (ACron, startCron); (AGrpcServer, ok id); (AReady, ok id);
   (AListen, check (fun _ => w_listen w))].

Fixpoint run_stages (l : list (act * stage)) (s : Service) : list act * option string * Service :=
  match l with
  | [] => ([], None, s)
  | (a, f) :: l =>
      let '(e, s) := f s in
      match e with
      | Some e => ([a], Some e, s)
      | None => let '(t, e, s) := run_stages l s in (a :: t, e, s)
      end
  end.

Definition RunWithContext (s : Service) : list act * option string * Service := run_stages stages s.
End run.

(** ** Shutdown *)

Inductive stop_act := StopServer | StopGrpc | Cancel | StopCron | StopExits | StopReaper | CloseBroker (name : string) | ClosePool (name : string).

(** [cancel] is set by [RunWithContext]; brokers and pools are closed in the order of the maps. *)
Definition shutdown (cancel : bool) (s : Service) : list stop_act :=
  (if sv_srv s then [StopServer] else []) ++ (if sv_grpc s then [StopGrpc] else []) ++ (if cancel then [Cancel] else [])
  ++ (if sv_cron s then [StopCron] else []) ++ [StopExits] ++ repeat StopReaper (sv_reapers s)
  ++ ((fun kv => CloseBroker kv.1) <$> map_to_list (sv_natsConns s)) ++ (ClosePool <$> elements (sv_pools s)).

(** ** Permissions *)

Record PermissionDef : Type := mkPermission { p_Role : string; p_Resource : string; p_Action : string }.
#[export] Instance PermissionDef_eq_dec : EqDecision PermissionDef.
Proof. solve_decision. Defined.

Definition permission_key (p : PermissionDef) : string := p_Role p +:+ "|" +:+ p_Resource p +:+ "|" +:+ p_Action p.

(** [add] *)
Definition add_permission (p : PermissionDef) (st : gset string * list PermissionDef) : gset string * list PermissionDef :=
  if String.eqb (p_Role p) "" || String.eqb (p_Resource p) "" || String.eqb (p_Action p) "" then st
  else if decide (permission_key p ∈ st.1) then st
  else ({[permission_key p]} ∪ st.1, st.2 ++ [p]).

(** [addGrant] *)
Definition addGrant (role perm : string) (st : gset string * list PermissionDef) : gset string * list PermissionDef :=
  match SplitN2 perm ":" with (resource, Some action) => add_permission (mkPermission role resource action) st | _ => st end.

(** The grants in the order they are added; [range] is the order of the map of roles. *)
Definition grants (range : gmap string (list string) -> list (string * list string)) (cfg : ServiceConfig) : list (string * string) :=
  (match ServiceConfig_Auth cfg with Some a => range (AuthConfig_RolePermissions a) ≫= (fun rp => pair rp.1 <$> rp.2) | None => [] end)
  ++ (ServiceConfig_Entry cfg ≫= (fun e => EntryDef_Roles e ≫= (fun role => pair role <$> EntryDef_Permissions e))).

Definition collectPermissions (range : gmap string (list string) -> list (string * list string)) (cfg : ServiceConfig) : list PermissionDef :=
  (foldl (fun st g => addGrant g.1 g.2 st) (∅, []) (grants range cfg)).2.

(** ** Properties *)

Lemma run_stages_prefix l s : let '(t, e, _) := run_stages l s in
  t `prefix_of` l.*1 /\ (e = None -> t = l.*1) /\ (forall err, e = Some err -> exists a f, l !! (length t - 1)%nat = Some (a, f) /\ (0 < length t)%nat).
Proof.
  revert s. induction l as [|[a f] l IH]; intros s; cbn; [by split_and!|]. destruct (f s) as [[err|] s'] eqn:E.
  - split_and!; [apply prefix_cons, prefix_nil|done|]. intros err' _. exists a, f. cbn. split; [done|lia].
  - specialize (IH s'). destruct (run_stages l s') as [[t e] s'']. destruct IH as (H1 & H2 & H3). split_and!; [by apply prefix_cons|intros En; f_equal; auto|].
    intros err Er. destruct (H3 err Er) as (a' & f' & L & P). exists a', f'. cbn. destruct t as [|x t]; cbn in *; [lia|]. rewrite Nat.sub_0_r in *. split; [done|lia].
Qed.

Lemma run_stages_app l1 l2 s : run_stages (l1 ++ l2) s =
  let '(t, e, s') := run_stages l1 s in match e with Some e => (t, Some e, s') | None => let '(t2, e2, s2) := run_stages l2 s' in (t ++ t2, e2, s2) end.
Proof.
  revert s. induction l1 as [|[a f] l1 IH]; intros s; cbn; [by destruct (run_stages l2 s) as [[]]|]. destruct (f s) as [[e|] s']; [done|].
  rewrite IH. destruct (run_stages l1 s') as [[t [e|]] s'']; [done|]. by destruct (run_stages l2 s'') as [[]].
Qed.

(** What the stages keep: the configuration, and the stores that were opened before. *)
Lemma stages_keep ParseDuration w s a f : (a, f) ∈ stages ParseDuration w -> sv_config (f s).2 = sv_config s /\ sv_kvConns (f s).2 = sv_kvConns s.
Proof.
  unfold stages. intros H. repeat (apply elem_of_cons in H as [H|H]; [injection H as -> ->; try done|]); [..|by apply elem_of_nil in H].
  - assert (K : forall s, sv_config (initStreamConns ParseDuration (w_connect w) (w_ensure w) s).2 = sv_config s /\ sv_kvConns (initStreamConns ParseDuration (w_connect w) (w_ensure w) s).2 = sv_kvConns s).
    { intros s0. unfold initStreamConns. destruct (ServiceConfig_Stream _) as [|st sts]; [done|]. by destruct (initStreams _ _ _ (st :: sts) ∅) as [|[]]. }
    unfold initConnections. destruct (match ServiceConfig_Databases (sv_config s) with [] => _ | _ => _ end) as [e1 s1] eqn:E1. specialize (K s1).
    destruct (initStreamConns _ _ _ s1) as [e2 s2]. cbn in *. destruct K as [-> ->]. destruct (ServiceConfig_Databases _), (w_pools w); by injection E1 as <- <-.
  - unfold registerEntryRoutes. destruct (ServiceConfig_Entry _); [done|]. destruct (init_storages _ _ _ _) as [[e'|] st]; [done|]. cbn. by destruct (buildAuthExtra _ _ _).
  - unfold startExitWorkers. by destruct (ServiceConfig_Exit _).
  - unfold startCron. by destruct (ServiceConfig_Cron _).
Qed.

Lemma run_stages_keep ParseDuration w l s : (forall a f, (a, f) ∈ l -> (a, f) ∈ stages ParseDuration w) ->
  let '(_, _, s') := run_stages l s in sv_config s' = sv_config s /\ sv_kvConns s' = sv_kvConns s.
Proof.
  revert s. induction l as [|[a f] l IH]; intros s H; cbn; [done|]. pose proof (stages_keep ParseDuration w s a f (H a f ltac:(left))) as [K1 K2].
  destruct (f s) as [[e|] s1]; cbn in *; [done|]. specialize (IH s1 ltac:(intros; apply H; by right)).
  destruct (run_stages l s1) as [[t e] s2]. destruct IH as [I1 I2]. split; congruence.
Qed.

(** The stages run in their order and the first error ends the run: what ran is a prefix of
    the stages, all of them when there is no error, and the service is marked ready only after
    every stage before has succeeded. *)
Theorem run_in_order ParseDuration (w : world) (s : Service) :
  let '(t, e, _) := RunWithContext ParseDuration w s in
  let acts := (stages ParseDuration w).*1 in
  t `prefix_of` acts /\ (e = None -> t = acts) /\ (AReady ∈ t -> t = acts /\ e = w_listen w).
Proof.
  pose proof (run_stages_prefix (stages ParseDuration w) s) as P. unfold RunWithContext.
  destruct (run_stages (stages ParseDuration w) s) as [[t e] s'] eqn:R. destruct P as (P1 & P2 & _). split; [done|]. split; [done|]. intros Ready.
  change (stages ParseDuration w) with (take 14 (stages ParseDuration w) ++ [(AListen, check (fun _ => w_listen w))]) in R.
  rewrite run_stages_app in R. pose proof (run_stages_prefix (take 14 (stages ParseDuration w)) s) as Q.
  destruct (run_stages (take 14 (stages ParseDuration w)) s) as [[t1 e1] s1] eqn:R1. destruct Q as (Q1 & Q2 & _). destruct e1 as [e1|].
  - injection R as <- <- <-. exfalso.
    change (take 14 (stages ParseDuration w)) with (take 13 (stages ParseDuration w) ++ [(AReady, ok id)]) in R1. rewrite run_stages_app in R1.
    pose proof (run_stages_prefix (take 13 (stages ParseDuration w)) s) as Q'. destruct (run_stages (take 13 (stages ParseDuration w)) s) as [[t2 [e2|]] s2]; [|cbn in R1; discriminate R1].
    injection R1 as <- <- <-. destruct Q' as ((rest & Q') & _). assert (H : AReady ∈ (take 13 (stages ParseDuration w)).*1) by (rewrite Q'; set_solver).
    clear -H. cbn in H. repeat (apply elem_of_cons in H as [H|H]; [discriminate H|]). by apply elem_of_nil in H.
  - rewrite (Q2 eq_refl) in R. cbn in R. destruct (w_listen w) as [le|]; injection R as <- <- <-; done.
Qed.

Section sessions.
Context (ParseDuration : string -> option Z) (w : world).

(** The routes are not registered without the session store. *)
Lemma routes_need_store s auth sc : ServiceConfig_Auth (sv_config s) = Some auth -> AuthConfig_Session auth = Some sc ->
  SessionConf_Store sc ∉ sv_kvConns s -> ServiceConfig_Entry (sv_config s) <> [] -> exists e, (registerEntryRoutes ParseDuration w s).1 = Some e.
Proof.
  intros Ha Hs Hk Hn. unfold registerEntryRoutes. destruct (ServiceConfig_Entry (sv_config s)) as [|x l] eqn:El; [done|].
  destruct (init_storages ParseDuration w (x :: l) (sv_storage s)) as [[e|] st]; [by exists e|]. unfold buildAuthExtra. cbn. rewrite Ha, Hs.
  destruct (SqlModel.TrimSpace (SessionConf_Store sc) =? "")%string; [by eexists|]. rewrite bool_decide_eq_false_2 by done. by eexists.
Qed.

(** A service with server-side sessions does not start unless the program has asked for the
    session store itself: the stores are opened by [KV] only, so whatever the configuration
    and the outcome of everything else, without that call the run ends with an error before
    it is ready; with it, the session store is found. *)
Theorem sessions_need_KV (s : Service) (auth : AuthConfig) (sc : SessionConf) :
  ServiceConfig_Auth (sv_config s) = Some auth -> AuthConfig_Session auth = Some sc -> SessionConf_Store sc <> "" ->
  sv_kvConns s = ∅ -> ServiceConfig_Entry (sv_config s) <> [] ->
  (let '(t, e, _) := RunWithContext ParseDuration w s in AReady ∉ t /\ e <> None)
  /\ (existsb (fun c => String.eqb (KVConfig_Name c) (SessionConf_Store sc)) (ServiceConfig_KV (sv_config s)) = true ->
      exists ttl, sessionStore ParseDuration (KV (SessionConf_Store sc) s).2 = Some (inl (SessionConf_Store sc, ttl))).
Proof.
  intros Ha Hs Hne Hk Hn. split.
  - unfold RunWithContext. change (stages ParseDuration w) with (take 6 (stages ParseDuration w) ++ (ARoutes, registerEntryRoutes ParseDuration w) :: drop 7 (stages ParseDuration w)).
    rewrite run_stages_app. pose proof (run_stages_prefix (take 6 (stages ParseDuration w)) s) as P.
    pose proof (run_stages_keep ParseDuration w (take 6 (stages ParseDuration w)) s ltac:(intros a f H; rewrite <- (take_drop 6 (stages ParseDuration w)); apply elem_of_app; by left)) as K.
    assert (N : forall t, t `prefix_of` (take 6 (stages ParseDuration w)).*1 -> AReady ∉ t).
    { intros t [rest Hp] H. assert (H' : AReady ∈ (take 6 (stages ParseDuration w)).*1) by (rewrite Hp; set_solver). clear -H'. cbn in H'.
      repeat (apply elem_of_cons in H' as [H'|H']; [discriminate H'|]). by apply elem_of_nil in H'. }
    destruct (run_stages (take 6 (stages ParseDuration w)) s) as [[t [e|]] s1]; destruct P as (P1 & P2 & _); [split; [by apply N|done]|].
    destruct K as [K1 K2]. cbn [run_stages]. destruct (routes_need_store s1 auth sc) as [e E]; [by rewrite K1|done|rewrite K2, Hk; set_solver|by rewrite K1|].
    destruct (registerEntryRoutes ParseDuration w s1) as [e' s2]. cbn in E. subst e'. split; [|done].
    rewrite elem_of_app, list_elem_of_singleton. intros [H|H]; [by apply (N t)|done].
  - intros Hc. unfold sessionStore, KV. rewrite Hk. rewrite decide_False by set_solver. rewrite Hc. cbn. rewrite Ha. cbn. rewrite Hs.
    destruct (String.eqb_spec (SessionConf_Store sc) ""); [done|]. rewrite decide_True by set_solver. by eexists.
Qed.
End sessions.

Definition demo_session : SessionConf := mkSessionConf "" "sessions" "1h".
Definition demo_auth : AuthConfig :=
  mkAuthConfig true "manual" zero zero zero zero zero zero zero zero zero zero zero zero zero zero zero zero zero zero zero zero zero (Some demo_session).
Definition demo_config : ServiceConfig :=
  (zero : ServiceConfig) <| ServiceConfig_Auth := Some demo_auth |> <| ServiceConfig_Entry := [zero] |> <| ServiceConfig_KV := [mkKVConfig "sessions" "redis" "" 0] |>.
Definition demo_service : Service := newFromConfig demo_config (mkSetup "manual" true true true None (Some demo_session)).
Definition demo_world : world :=
  mkWorld None None (inl {["primary"]}) false (fun _ => true) (fun _ _ _ _ _ _ => true) false [] (fun _ => true) None None None None.

Lemma sessions_need_KV_witness :
  (let '(t, e, _) := RunWithContext (fun _ => None) demo_world demo_service in AReady ∉ t /\ e <> None)
  /\ (exists ttl, sessionStore (fun _ => None) (KV "sessions" demo_service).2 = Some (inl ("sessions", ttl)))
  /\ (RunWithContext (fun _ => None) demo_world (KV "sessions" demo_service).2).1.2 = None.
Proof.
  destruct (sessions_need_KV (fun _ => None) demo_world demo_service demo_auth demo_session eq_refl eq_refl ltac:(discriminate) eq_refl ltac:(discriminate)) as [H1 H2].
  split; [exact H1|]. split; [exact (H2 eq_refl)|]. vm_compute. reflexivity.
Defined.

(** A run that fails after the databases are open returns with the pools open. *)
Lemma run_leaves_pools_open :
  let s := newFromConfig ((zero : ServiceConfig) <| ServiceConfig_Databases := [zero] |>) (mkSetup "" false false false None None) in
  let w := mkWorld None None (inl {["primary"]}) false (fun _ => true) (fun _ _ _ _ _ _ => true) false [Some "seed 0"] (fun _ => true) None None None None in
  let '(_, e, s') := RunWithContext (fun _ => None) w s in e = Some "seed 0" /\ sv_pools s' = {["primary"]}.
Proof. vm_compute. split; reflexivity. Qed.

(** *** Permissions *)

Lemma permission_key_inj p q : str_all (fun x => negb (Ascii.eqb x "|")) (p_Role p) = true -> str_all (fun x => negb (Ascii.eqb x "|")) (p_Role q) = true ->
  str_all (fun x => negb (Ascii.eqb x "|")) (p_Resource p) = true -> str_all (fun x => negb (Ascii.eqb x "|")) (p_Resource q) = true ->
  permission_key p = permission_key q -> p = q.
Proof.
  destruct p as [r1 s1 a1], q as [r2 s2 a2]. unfold permission_key. cbn. intros R1 R2 S1 S2 H.
  assert (E := f_equal (fun s => SplitN2 s "|") H). cbn beta in E. change ("|" +:+ ?x) with (String "|" x) in E.
  rewrite !SplitN2_app in E by done. injection E as E1 E2. assert (E := f_equal (fun s => SplitN2 s "|") E2). cbn beta in E.
  change ("|" +:+ ?x) with (String "|" x) in E. rewrite !SplitN2_app in E by done. injection E as E3 E4. congruence.
Qed.

Record perms_inv (seen : list (string * string)) (st : gset string * list PermissionDef) : Prop := mkPermsInv {
  pv_keys : forall k, k ∈ st.1 <-> k ∈ permission_key <$> st.2;
  pv_nodup : NoDup (permission_key <$> st.2);
  pv_sound : forall p, p ∈ st.2 -> p_Role p <> "" /\ p_Resource p <> "" /\ p_Action p <> "" /\ exists perm, (p_Role p, perm) ∈ seen /\ SplitN2 perm ":" = (p_Resource p, Some (p_Action p));
  pv_complete : forall role perm resource action, (role, perm) ∈ seen -> SplitN2 perm ":" = (resource, Some action) -> role <> "" -> resource <> "" -> action <> "" ->
    permission_key (mkPermission role resource action) ∈ st.1 }.

Lemma addGrant_inv seen st role perm : perms_inv seen st -> perms_inv (seen ++ [(role, perm)]) (addGrant role perm st).
Proof.
  intros [K N S C]. unfold addGrant. destruct (SplitN2 perm ":") as [resource [action|]] eqn:Sp.
  - unfold add_permission. cbn [p_Role p_Resource p_Action]. destruct (String.eqb_spec role "") as [->|Nr]; cbn [orb].
    { split; [done|done| |]; [intros p Hp; destruct (S p Hp) as (? & ? & ? & q & Hq & E); split_and!; [done..|]; exists q; set_solver|].
      intros r q rs a [H|H%list_elem_of_singleton]%elem_of_app; [by apply C|]. injection H as -> ->. done. }
    destruct (String.eqb_spec resource "") as [->|Ns]; cbn [orb].
    { split; [done|done| |]; [intros p Hp; destruct (S p Hp) as (? & ? & ? & q & Hq & E); split_and!; [done..|]; exists q; set_solver|].
      intros r q rs a [H|H%list_elem_of_singleton]%elem_of_app; [by apply C|]. injection H as -> ->. rewrite Sp. by intros [= -> ->]. }
    destruct (String.eqb_spec action "") as [->|Na]; cbn [orb].
    { split; [done|done| |]; [intros p Hp; destruct (S p Hp) as (? & ? & ? & q & Hq & E); split_and!; [done..|]; exists q; set_solver|].
      intros r q rs a [H|H%list_elem_of_singleton]%elem_of_app; [by apply C|]. injection H as -> ->. rewrite Sp. by intros [= -> ->]. }
    destruct (decide _) as [D|D].
    { split; [done|done| |]; [intros p Hp; destruct (S p Hp) as (? & ? & ? & q & Hq & E); split_and!; [done..|]; exists q; set_solver|].
      intros r q rs a [H|H%list_elem_of_singleton]%elem_of_app; [by apply C|]. injection H as -> ->. rewrite Sp. by intros [= <- <-]. }
    split; cbn [fst snd].
    + intros k. rewrite fmap_app, elem_of_union, elem_of_singleton, elem_of_app, K. cbn. rewrite list_elem_of_singleton. tauto.
    + rewrite fmap_app. apply NoDup_app. split_and!; [done| |cbn; apply NoDup_singleton]. intros k Hk ->%list_elem_of_singleton. apply D. by apply K.
    + intros p [Hp| ->%list_elem_of_singleton]%elem_of_app.
      * destruct (S p Hp) as (? & ? & ? & q & Hq & E). split_and!; [done..|]. exists q. set_solver.
      * cbn. split_and!; [done..|]. exists perm. split; [set_solver|done].
    + intros r q rs a [H|H%list_elem_of_singleton]%elem_of_app; [intros; apply elem_of_union; right; by eapply C|]. injection H as -> ->. rewrite Sp. intros [= <- <-] _ _ _. set_solver.
  - split; [done|done| |].
    + intros p Hp. destruct (S p Hp) as (? & ? & ? & q & Hq & E). split_and!; [done..|]. exists q. set_solver.
    + intros r q rs a [H|H%list_elem_of_singleton]%elem_of_app; [by apply C|]. injection H as -> ->. by rewrite Sp.
Qed.

Lemma grants_inv gs seen st : perms_inv seen st -> perms_inv (seen ++ gs) (foldl (fun st g => addGrant g.1 g.2 st) st gs).
Proof.
  revert seen st. induction gs as [|[r p] gs IH]; intros seen st I; cbn; [by rewrite app_nil_r|].
  rewrite (assoc_L (++) seen [(r, p)] gs : seen ++ (r, p) :: gs = (seen ++ [(r, p)]) ++ gs). apply IH. by apply addGrant_inv.
Qed.

Lemma collected_spec (range : gmap string (list string) -> list (string * list string)) (cfg : ServiceConfig) :
  let ps := collectPermissions range cfg in
  NoDup ps
  /\ (forall p, p ∈ ps -> p_Role p <> "" /\ p_Resource p <> "" /\ p_Action p <> ""
        /\ exists perm, (p_Role p, perm) ∈ grants range cfg /\ SplitN2 perm ":" = (p_Resource p, Some (p_Action p)))
  /\ ((forall role perm, (role, perm) ∈ grants range cfg -> str_all (fun x => negb (Ascii.eqb x "|")) role = true /\ str_all (fun x => negb (Ascii.eqb x "|")) (SplitN2 perm ":").1 = true) ->
      forall role perm resource action, (role, perm) ∈ grants range cfg -> SplitN2 perm ":" = (resource, Some action) -> role <> "" -> resource <> "" -> action <> "" ->
      mkPermission role resource action ∈ ps).
Proof.
  intros ps. destruct (grants_inv (grants range cfg) [] (∅, [])) as [K N S C].
  { split; cbn; [intros k; split; [by intros ?%elem_of_empty|by intros ?%elem_of_nil]|constructor|by intros p ?%elem_of_nil|by intros ? ? ? ? ?%elem_of_nil]. }
  cbn [app] in *. fold (collectPermissions range cfg) in *. split_and!.
  - exact (NoDup_fmap_1 _ _ N).
  - exact S.
  - intros Bar role perm resource action Hg Hs Hr Hrs Ha. specialize (C _ _ _ _ Hg Hs Hr Hrs Ha). apply K, list_elem_of_fmap in C as (p & E & Hp).
    destruct (S p Hp) as (_ & _ & _ & q & Hq & Eq). destruct (Bar _ _ Hg) as [B1 B2], (Bar _ _ Hq) as [B3 B4]. rewrite Hs in B2. rewrite Eq in B4. cbn in *.
    by rewrite (permission_key_inj (mkPermission role resource action) p B1 B3 B2 B4 E).
Qed.

(** The permissions seeded at the authorization server are those the configuration grants:
    each of them comes from a grant of a non-empty role, resource and action, none is there
    twice, and every such grant is there, provided that no role or resource has a bar, which
    the key that tells grants apart puts between them. *)
Theorem permissions_collected (range : gmap string (list string) -> list (string * list string)) (cfg : ServiceConfig) :
  let ps := collectPermissions range cfg in
  NoDup ps
  /\ (forall p, p ∈ ps -> p_Role p <> "" /\ p_Resource p <> "" /\ p_Action p <> ""
        /\ exists perm, (p_Role p, perm) ∈ grants range cfg /\ SplitN2 perm ":" = (p_Resource p, Some (p_Action p)))
  /\ ((forall role perm, (role, perm) ∈ grants range cfg -> str_all (fun x => negb (Ascii.eqb x "|")) role = true /\ str_all (fun x => negb (Ascii.eqb x "|")) (SplitN2 perm ":").1 = true) ->
      forall role perm resource action, (role, perm) ∈ grants range cfg -> SplitN2 perm ":" = (resource, Some action) -> role <> "" -> resource <> "" -> action <> "" ->
      mkPermission role resource action ∈ ps).
Proof. apply collected_spec. Qed.

(** With a bar in a name two grants can have one key, and the second is dropped. *)
Lemma permissions_collide :
  let cfg := (zero : ServiceConfig) <| ServiceConfig_Auth := Some (mkAuthConfig true "ory" zero zero zero zero zero zero zero zero zero zero zero
    {["a" := ["b|c:d"]; "a|b" := ["c:d"]]} zero zero zero zero zero zero zero zero zero zero) |> in
  length (grants map_to_list cfg) = 2%nat /\ length (collectPermissions map_to_list cfg) = 1%nat.
Proof. vm_compute. split; reflexivity. Qed.

(** *** Shutdown *)

(** [shutdown] closes every broker and every pool once, and nothing else of either. *)
Theorem shutdown_closes_all (s : Service) (cancel : bool) :
  (forall name, CloseBroker name ∈ shutdown cancel s <-> name ∈ dom (sv_natsConns s)) /\ (forall name, ClosePool name ∈ shutdown cancel s <-> name ∈ sv_pools s)
  /\ NoDup (filter (fun a => match a with CloseBroker _ | ClosePool _ => true | _ => false end = true) (shutdown cancel s)).
Proof.
  set (close := fun a => match a with CloseBroker _ | ClosePool _ => true | _ => false end = true).
  set (brokers := (fun kv : string * broker => CloseBroker kv.1) <$> map_to_list (sv_natsConns s)). set (pools := ClosePool <$> elements (sv_pools s)).
  assert (F : filter close (shutdown cancel s) = brokers ++ pools).
  { unfold shutdown. fold brokers pools. rewrite !filter_app.
    assert (R : filter close (repeat StopReaper (sv_reapers s)) = []) by (induction (sv_reapers s) as [|n IH]; cbn; [done|exact IH]).
    assert (B : filter close brokers = brokers).
    { apply filter_all, Forall_forall. by intros a (kv & -> & _)%list_elem_of_fmap. }
    assert (P : filter close pools = pools).
    { apply filter_all, Forall_forall. by intros a (kv & -> & _)%list_elem_of_fmap. }
    rewrite R, B, P. by destruct (sv_srv s), (sv_grpc s), cancel, (sv_cron s). }
  assert (M : forall a, close a -> (a ∈ shutdown cancel s <-> a ∈ brokers ++ pools)).
  { intros a Ha. rewrite <- F, list_elem_of_filter. tauto. }
  split_and!.
  - intros name. rewrite M by done. rewrite elem_of_app. unfold brokers, pools. rewrite !list_elem_of_fmap, elem_of_dom. split.
    + intros [([k b] & [= ->] & H%elem_of_map_to_list)|(? & ? & _)]; [by exists b|done].
    + intros [b H]. left. exists (name, b). split; [done|]. by apply elem_of_map_to_list.
  - intros name. rewrite M by done. rewrite elem_of_app. unfold brokers, pools. rewrite !list_elem_of_fmap. split.
    + intros [(? & ? & _)|(n & [= ->] & H%elem_of_elements)]; done.
    + intros H. right. exists name. split; [done|]. by apply elem_of_elements.
  - rewrite F. apply NoDup_app. split_and!.
    + change brokers with (CloseBroker ∘ fst <$> map_to_list (sv_natsConns s)). rewrite list_fmap_compose. apply NoDup_fmap; [by intros ? ? [=]|]. apply NoDup_fst_map_to_list.
    + intros a (kv & -> & _)%list_elem_of_fmap (n & ? & _)%list_elem_of_fmap. done.
    + unfold pools. apply NoDup_fmap; [by intros ? ? [=]|]. apply NoDup_elements.
Qed.
