(* ===== verification/Authorization.v ===== *)
(** * Authorization (server/auth/openfga/seed.go, server/auth/ory/client.go, runtime/service.go)

    At its start the service writes the permissions of its configuration to the authorization
    server - OpenFGA or Ory Keto - and its middlewares then ask that server.  The servers are
    parameters: classes of operations, with the documented behaviour as laws over the relation
    tuples they hold. *)

From Stdlib Require Import Ascii String.
From S2P Require Import Prelude GoStrings ConfigTypes Http Auth EntryAuth Service.
#[local] Open Scope list_scope.
#[local] Open Scope Z_scope.

(** ** OpenFGA *)

(** A permission of the package, with its actions. *)
Record fgaPermission : Type := mkFgaPermission { fp_Role : string; fp_Resource : string; fp_Actions : list string }.

(** A type definition: for each relation the types of users, with a relation of theirs or none. *)
Record typeDefinition : Type := mkTypeDef { td_Type : string; td_Relations : list (string * list (string * string)) }.

(** [None] is a write that worked, otherwise the error's text; for models, whether it worked;
    for checks [None] is an error. *)
Class FgaServer (S : Type) := {
  WriteTuple : string -> string -> string -> S -> option string * S;
  WriteAuthorizationModel : list typeDefinition -> S -> bool * S;
  fga_Check : S -> string -> string -> string -> option bool }.

Section seed.
Context {S : Type} `{!FgaServer S}.

Definition isDuplicate (err : option string) : bool :=
  match err with None => false | Some s => Contains s "already exist" || Contains s "already existed" end.

(** The tuple of a role, a resource and an action. *)
Definition seed_tuple (role resource action : string) : string * string * string :=
  ("role:" +:+ role +:+ "#member", "can_" +:+ action, resource +:+ ":" +:+ action).

Fixpoint seed_actions (role resource : string) (actions : list string) (s : S) : option string * S :=
  match actions with
  | [] => (None, s)
  | action :: actions =>
      let '(user, relation, object) := seed_tuple role resource action in
      let '(err, s) := WriteTuple user relation object s in
      match err with
      | Some e => if isDuplicate err then seed_actions role resource actions s else (Some ("seed: write " +:+ user +:+ " " +:+ relation +:+ " " +:+ object +:+ ": " +:+ e), s)
      | None => seed_actions role resource actions s
      end
  end.

(** The error, and the server afterwards. *)
Fixpoint SeedPermissions (ps : list fgaPermission) (s : S) : option string * S :=
  match ps with
  | [] => (None, s)
  | p :: ps => let '(err, s) := seed_actions (fp_Role p) (fp_Resource p) (fp_Actions p) s in match err with Some e => (Some e, s) | None => SeedPermissions ps s end
  end.

Definition AssignRole (user role : string) (s : S) : option string * S :=
  let '(err, s) := WriteTuple user "member" ("role:" +:+ role) s in
  if bool_decide (is_Some err) && negb (isDuplicate err) then (err, s) else (None, s).

(** [resources[p.Resource] = append(resources[p.Resource], action)] unless it is there. *)
Fixpoint add_action (resource action : string) (resources : list (string * list string)) : list (string * list string) :=
  match resources with
  | [] => [(resource, [action])]
  | (r, l) :: resources => if String.eqb r resource then (r, if decide (action ∈ l) then l else l ++ [action]) :: resources else (r, l) :: add_action resource action resources
  end.

Definition model_resources (ps : list fgaPermission) : list (string * list string) :=
  foldl (fun rs p => if String.eqb (fp_Resource p) "" then rs else foldl (fun rs a => add_action (fp_Resource p) a rs) rs (fp_Actions p)) [] ps.

(** The order of the resources is that of the map. *)
Definition default_model (resources : list (string * list string)) : list typeDefinition :=
  [mkTypeDef "user" []; mkTypeDef "role" [("member", [("user", "")])]]
  ++ ((fun ra => mkTypeDef ra.1 ((fun a => ("can_" +:+ a, [("role", "member"); ("user", "")])) <$> ra.2)) <$> resources).

Definition EnsureDefaultModel (resources : list (string * list string)) (s : S) : bool * S := WriteAuthorizationModel (default_model resources) s.

Definition EnsureModel (ps : list fgaPermission) (s : S) : bool * S := EnsureDefaultModel (model_resources ps) s.

(** What [collectPermissions] makes. *)
Definition fga_of (p : PermissionDef) : fgaPermission := mkFgaPermission (p_Role p) (p_Resource p) [p_Action p].

(** [seedOpenFGAPermissions]: errors are logged, and the service starts. *)
Definition seedOpenFGAPermissions (range : gmap string (list string) -> list (string * list string)) (cfg : ServiceConfig) (s : S) : S :=
  let ps := fga_of <$> collectPermissions range cfg in
  let '(ok, s) := EnsureModel ps s in
  if negb ok then s else match ps with [] => s | _ => (SeedPermissions ps s).2 end.
End seed.

Definition DefaultPermissions (resource : string) : list fgaPermission :=
  [mkFgaPermission (resource +:+ ":manager") resource ["create"; "read"; "update"; "delete"; "publish"];
   mkFgaPermission (resource +:+ ":editor") resource ["create"; "read"; "update"]; mkFgaPermission (resource +:+ ":viewer") resource ["read"]].

(** ** What OpenFGA documents *)

Notation tuple := (string * string * string)%type.

(** A user that is a set, [object#relation]. *)
Definition userset (u : string) : option (string * string) := match SplitN2 u "#" with (o, Some r) => Some (o, r) | _ => None end.

Inductive holds (t : gset tuple) (u : string) : string -> string -> Prop :=
| holds_direct r o : (u, r, o) ∈ t -> holds t u r o
| holds_set r o w o' r' : (w, r, o) ∈ t -> userset w = Some (o', r') -> holds t u r' o' -> holds t u r o.

(** The same within a number of steps. *)
Fixpoint holds_within (n : nat) (t : gset tuple) (u r o : string) : Prop :=
  match n with O => False | S n => (u, r, o) ∈ t \/ exists w o' r', (w, r, o) ∈ t /\ userset w = Some (o', r') /\ holds_within n t u r' o' end.

(** The type of an object, and the type and relation of a user. *)
Definition type_of_object (o : string) : string := (SplitN2 o ":").1.
Definition type_of_user (u : string) : string * string := match userset u with Some (o, r) => (type_of_object o, r) | None => (type_of_object u, "") end.

(** The tuple is one of the model. *)
Definition allows (defs : list typeDefinition) (u r o : string) : Prop :=
  exists d refs, d ∈ defs /\ td_Type d = type_of_object o /\ (r, refs) ∈ td_Relations d /\ type_of_user u ∈ refs.

(** The relation is one of the object's type. *)
Definition relation_of (defs : list typeDefinition) (r o : string) : Prop := exists d refs, d ∈ defs /\ td_Type d = type_of_object o /\ (r, refs) ∈ td_Relations d.

(** [tuples] and [defs_of] are what the server holds: the tuples and the latest model.  It
    accepts a model, and the names of a tuple, by rules of its own; a tuple of the model is
    added, or reported as there already; a check of a relation that the model does not have is
    an error, and any other one follows the tuples and the sets among their users - up to a
    depth, of which two steps are used here. *)
Class FgaLaws (S : Type) `{!FgaServer S} := {
  tuples : S -> gset tuple; defs_of : S -> list typeDefinition; accepts : list typeDefinition -> bool; names_ok : string -> string -> string -> bool;
  law_model : forall defs s, (WriteAuthorizationModel defs s).1 = accepts defs /\ tuples (WriteAuthorizationModel defs s).2 = tuples s
    /\ defs_of (WriteAuthorizationModel defs s).2 = (if accepts defs then defs else defs_of s);
  law_write : forall u r o s, names_ok u r o = true -> allows (defs_of s) u r o ->
    (((u, r, o) ∉ tuples s -> (WriteTuple u r o s).1 = None) /\ ((u, r, o) ∈ tuples s -> isDuplicate (WriteTuple u r o s).1 = true))
    /\ tuples (WriteTuple u r o s).2 = {[(u, r, o)]} ∪ tuples s;
  law_defs : forall u r o s, defs_of (WriteTuple u r o s).2 = defs_of s;
  law_check_sound : forall s u r o, fga_Check s u r o = Some true -> relation_of (defs_of s) r o /\ holds (tuples s) u r o;
  law_check_complete : forall s u r o, relation_of (defs_of s) r o -> holds_within 2 (tuples s) u r o -> fga_Check s u r o = Some true }.

(** ** Properties *)

Definition no_hash (s : string) : bool := str_all (fun x => negb (Ascii.eqb x "#")) s.

Lemma app_inv_tail (a b c : string) : (a ++ c)%string = (b ++ c)%string -> a = b.
Proof. intros H. by rewrite <- (TrimSuffix_app a c), H, TrimSuffix_app. Qed.

Lemma userset_role r : no_hash r = true -> userset ("role:" +:+ r +:+ "#member") = Some ("role:" +:+ r, "member").
Proof.
  intros H. unfold userset. change ("role:" +:+ r +:+ "#member") with (("role:" ++ r) ++ String "#" "member")%string.
  rewrite SplitN2_app; [done|]. change ("role:" +:+ r) with ("role:" ++ r)%string. by rewrite str_all_app.
Qed.
Lemma within_holds n t u r o : holds_within n t u r o -> holds t u r o.
Proof. revert r o. induction n as [|n IH]; intros r o; cbn; [done|]. intros [H|(w & o' & r' & H & E & H')]; [by constructor|]. econstructor 2; [done|done|by apply IH]. Qed.
Lemma userset_plain u : no_hash u = true -> userset u = None.
Proof. intros H. unfold userset. by rewrite SplitN2_absent. Qed.

(** *** The model covers the permissions *)

Lemma add_action_spec resource action rs : (exists l, (resource, l) ∈ add_action resource action rs /\ action ∈ l) /\
  forall r l, (r, l) ∈ rs -> exists l', (r, l') ∈ add_action resource action rs /\ l ⊆ l'.
Proof.
  induction rs as [|[r l] rs [(l1 & I1 & I2) I3]]; cbn; [split; [exists [action]; set_solver|by intros r l ?%elem_of_nil]|].
  destruct (String.eqb_spec r resource) as [->|N]; split.
  - destruct (decide (action ∈ l)); [exists l|exists (l ++ [action])]; set_solver.
  - intros r' l' [E|H]%elem_of_cons; [injection E as -> ->|exists l'; split; [by right|done]]. destruct (decide (action ∈ l)); [exists l|exists (l ++ [action])]; set_solver.
  - exists l1. set_solver.
  - intros r' l' [E|H]%elem_of_cons; [injection E as -> ->; exists l; split; [left|done]|]. destruct (I3 r' l' H) as (l'' & ? & ?). exists l''. split; [by right|done].
Qed.

Lemma model_covers ps p action : p ∈ ps -> fp_Resource p <> "" -> action ∈ fp_Actions p -> exists l, (fp_Resource p, l) ∈ model_resources ps /\ action ∈ l.
Proof.
  intros Hp Hr Ha. unfold model_resources. generalize (@nil (string * list string)) as rs.
  assert (Keep : forall ps rs r l, (r, l) ∈ rs -> exists l', (r, l') ∈ foldl (fun rs p => if String.eqb (fp_Resource p) "" then rs else foldl (fun rs a => add_action (fp_Resource p) a rs) rs (fp_Actions p)) rs ps /\ l ⊆ l').
  { assert (K1 : forall res acts rs r l, (r, l) ∈ rs -> exists l', (r, l') ∈ foldl (fun rs a => add_action res a rs) rs acts /\ l ⊆ l').
    { intros res acts. induction acts as [|a acts IH]; intros rs r l H; cbn; [by exists l|]. destruct (add_action_spec res a rs) as [_ K]. destruct (K r l H) as (l1 & H1 & S1).
      destruct (IH _ r l1 H1) as (l2 & H2 & S2). exists l2. split; [done|]. set_solver. }
    clear -K1. induction ps as [|q ps IH]; intros rs r l H; cbn; [by exists l|]. destruct (String.eqb (fp_Resource q) ""); [by apply IH|].
    destruct (K1 (fp_Resource q) (fp_Actions q) rs r l H) as (l1 & H1 & S1). destruct (IH _ r l1 H1) as (l2 & H2 & S2). exists l2. split; [done|]. set_solver. }
  assert (Add : forall acts rs, action ∈ acts -> exists l, (fp_Resource p, l) ∈ foldl (fun rs a => add_action (fp_Resource p) a rs) rs acts /\ action ∈ l).
  { induction acts as [|a acts IH]; intros rs; [by intros ?%elem_of_nil|]. cbn. intros [<-|H]%elem_of_cons; [|by apply IH]. clear IH.
    destruct (add_action_spec (fp_Resource p) action rs) as [(l & H1 & H2) _]. revert H1. generalize (add_action (fp_Resource p) action rs) as rs'. revert l H2.
    induction acts as [|b acts IH]; intros l H2 rs' H1; cbn; [by exists l|]. destruct (add_action_spec (fp_Resource p) b rs') as [_ K]. destruct (K _ _ H1) as (l' & H3 & H4). apply (IH l'); [set_solver|done]. }
  apply list_elem_of_split in Hp as (ps1 & ps2 & ->). intros rs. rewrite foldl_app. generalize (foldl (fun rs p => if String.eqb (fp_Resource p) "" then rs else foldl (fun rs a => add_action (fp_Resource p) a rs) rs (fp_Actions p)) rs ps1) as rs'.
  intros rs'. cbn. destruct (String.eqb_spec (fp_Resource p) ""); [done|].
  destruct (Add (fp_Actions p) rs' Ha) as (l & H1 & H2). destruct (Keep ps2 _ _ _ H1) as (l' & H3 & H4). exists l'. split; [done|]. set_solver.
Qed.

Section openfga.
Context {S : Type} `{!FgaServer S} `{!FgaLaws S}.

(** Writing a tuple of the model adds it, whether it is new or not. *)
Definition fits (s : S) (t : tuple) : Prop := names_ok t.1.1 t.1.2 t.2 = true /\ allows (defs_of s) t.1.1 t.1.2 t.2.

Lemma write_tuple u r o s : fits s (u, r, o) -> ((WriteTuple u r o s).1 = None \/ isDuplicate (WriteTuple u r o s).1 = true) /\
  tuples (WriteTuple u r o s).2 = {[(u, r, o)]} ∪ tuples s /\ defs_of (WriteTuple u r o s).2 = defs_of s.
Proof.
  intros [V A]. destruct (law_write u r o s V A) as [[N D] T]. split_and!; [|done|apply law_defs]. destruct (decide ((u, r, o) ∈ tuples s)); auto.
Qed.

Lemma seed_actions_tuples role resource actions s : (forall a, a ∈ actions -> fits s (seed_tuple role resource a)) ->
  (seed_actions role resource actions s).1 = None /\ tuples (seed_actions role resource actions s).2 = list_to_set (seed_tuple role resource <$> actions) ∪ tuples s /\
  defs_of (seed_actions role resource actions s).2 = defs_of s.
Proof.
  revert s. induction actions as [|a actions IH]; intros s A; cbn [seed_actions]; [cbn; set_solver|].
  pose proof (A a ltac:(left)) as Aa. destruct (seed_tuple role resource a) as [[user relation] object] eqn:E. destruct (write_tuple _ _ _ _ Aa) as (W1 & W2 & W3).
  destruct (WriteTuple _ _ _ s) as [err s1]. cbn [fst snd] in *. destruct (IH s1) as (I1 & I2 & I3).
  { intros b Hb. unfold fits. rewrite W3. apply A. by right. }
  destruct err as [e|]; [destruct W1 as [W1|W1]; [done|]; rewrite W1|];
    (split_and!; [done| |by rewrite I3]; rewrite I2, W2; cbn [fmap list_fmap list_to_set]; rewrite E; set_solver).
Qed.

Definition seeds (ps : list fgaPermission) : list tuple := ps ≫= (fun p => seed_tuple (fp_Role p) (fp_Resource p) <$> fp_Actions p).

Lemma SeedPermissions_tuples ps s : (forall p a, p ∈ ps -> a ∈ fp_Actions p -> fits s (seed_tuple (fp_Role p) (fp_Resource p) a)) ->
  tuples (SeedPermissions ps s).2 = list_to_set (seeds ps) ∪ tuples s /\ defs_of (SeedPermissions ps s).2 = defs_of s.
Proof.
  revert s. induction ps as [|p ps IH]; intros s A; cbn [SeedPermissions]; [cbn; set_solver|].
  destruct (seed_actions_tuples (fp_Role p) (fp_Resource p) (fp_Actions p) s) as (I1 & I2 & I3); [intros a Ha; apply A; [left|done]|].
  destruct (seed_actions _ _ _ s) as [err s1]. cbn [fst snd] in *. rewrite I1. destruct (IH s1) as [J1 J2].
  { intros q a Hq Ha. unfold fits. rewrite I3. apply A; [by right|done]. }
  split; [|by rewrite J2]. rewrite J1, I2. unfold seeds. rewrite bind_cons. rewrite list_to_set_app_L. set_solver.
Qed.

Lemma AssignRole_tuples user role s : fits s (user, "member", "role:" +:+ role) ->
  tuples (AssignRole user role s).2 = {[(user, "member", "role:" +:+ role)]} ∪ tuples s /\ defs_of (AssignRole user role s).2 = defs_of s.
Proof.
  intros A. destruct (write_tuple _ _ _ _ A) as (_ & W2 & W3). unfold AssignRole. destruct (WriteTuple _ _ _ s) as [err s1]. cbn [fst snd] in *.
  by destruct (bool_decide _ && _).
Qed.

Definition assign (assigns : list (string * string)) (s : S) : S := foldl (fun s ur => (AssignRole ur.1 ur.2 s).2) s assigns.

Lemma assign_tuples assigns s : (forall ur, ur ∈ assigns -> fits s (ur.1, "member", "role:" +:+ ur.2)) ->
  tuples (assign assigns s) = list_to_set ((fun ur => (ur.1, "member", "role:" +:+ ur.2)) <$> assigns) ∪ tuples s /\ defs_of (assign assigns s) = defs_of s.
Proof.
  revert s. induction assigns as [|[u r] assigns IH]; intros s A; cbn; [set_solver|]. destruct (AssignRole_tuples u r s (A (u, r) ltac:(left))) as [T D].
  unfold assign in IH. destruct (IH (AssignRole u r s).2) as [I1 I2]; [intros ur H; unfold fits; rewrite D; apply A; by right|]. rewrite I1, I2, T. split; [set_solver|done].
Qed.

(** The tuples a store with seeds and members holds a relation by. *)
Lemma holds_seeded (ps : list PermissionDef) (assigns : list (string * string)) (t : gset tuple) user kind action :
  (forall x, x ∈ t <-> x ∈ seeds (fga_of <$> ps) \/ exists ur, ur ∈ assigns /\ x = (ur.1, "member", "role:" +:+ ur.2)) ->
  (forall p, p ∈ ps -> no_hash (p_Role p) = true /\ str_all (fun x => negb (Ascii.eqb x ":")) (p_Resource p) = true) ->
  (forall ur, ur ∈ assigns -> no_hash ur.1 = true) -> no_hash user = true -> str_all (fun x => negb (Ascii.eqb x ":")) kind = true ->
  (holds t user ("can_" +:+ action) (kind +:+ ":" +:+ action) -> exists role, (user, role) ∈ assigns /\ mkPermission role kind action ∈ ps) /\
  forall role, (user, role) ∈ assigns -> mkPermission role kind action ∈ ps -> holds_within 2 t user ("can_" +:+ action) (kind +:+ ":" +:+ action).
Proof.
  intros T P A U Kc.
  assert (Seed : forall x, x ∈ seeds (fga_of <$> ps) <-> exists p, p ∈ ps /\ x = seed_tuple (p_Role p) (p_Resource p) (p_Action p)).
  { intros x. unfold seeds. rewrite list_elem_of_bind. split.
    - intros (q & H1 & H2). apply list_elem_of_fmap in H2 as (p & -> & Hp). cbn in H1. apply list_elem_of_singleton in H1. by exists p.
    - intros (p & Hp & ->). exists (fga_of p). split; [left|by apply list_elem_of_fmap_2]. }
  assert (Mem : forall role, holds t user "member" ("role:" +:+ role) -> (user, role) ∈ assigns).
  { intros role. inversion 1 as [? ? H1|? ? w o' r' H1 H2]; subst; apply T in H1 as [(p & _ & E)%Seed|([u r] & Hu & E)]; try discriminate; injection E as -> E; [by simplify_eq|].
    by rewrite (userset_plain u (A _ Hu)) in H2. }
  split.
  - inversion 1 as [? ? H1|? ? w o' r' H1 H2 H3]; subst; apply T in H1 as [(p & Hp & E)%Seed|([u r] & Hu & E)]; try discriminate; unfold seed_tuple in E.
    + injection E as -> _ _. exfalso. destruct (P p Hp) as [Hh _]. pose proof (userset_role (p_Role p) Hh) as X. by rewrite userset_plain in X.
    + destruct (P p Hp) as [Hh Hc]. injection E as -> Ea Eo. rewrite (userset_role (p_Role p) Hh) in H2. injection H2 as <- <-. apply Mem in H3. exists (p_Role p). split; [done|].
      pose proof (SplitN2_app _ action _ Kc) as X1. pose proof (SplitN2_app _ (p_Action p) _ Hc) as X2. change (kind +:+ ":" +:+ action) with (kind ++ String ":" action)%string in Eo.
      change (p_Resource p +:+ ":" +:+ p_Action p) with (p_Resource p ++ String ":" (p_Action p))%string in Eo. rewrite Eo, X2 in X1. injection X1 as <- <-. by destruct p.
  - intros role Hu Hp. destruct (P _ Hp) as [Hh _]. cbn in Hh. right. exists ("role:" +:+ role +:+ "#member"), ("role:" +:+ role), "member".
    split_and!; [apply T; left; apply Seed; by exists (mkPermission role kind action)|by apply userset_role|]. left. apply T. right. by exists (user, role).
Qed.

(** What the service seeds is in its model. *)
Lemma seed_allowed ps p : p ∈ ps -> no_hash (p_Role p) = true -> str_all (fun x => negb (Ascii.eqb x ":")) (p_Resource p) = true -> p_Resource p <> "" ->
  let defs := default_model (model_resources (fga_of <$> ps)) in let '(u, r, o) := seed_tuple (p_Role p) (p_Resource p) (p_Action p) in allows defs u r o.
Proof.
  intros Hp Hh Hc Hn. destruct (model_covers (fga_of <$> ps) (fga_of p) (p_Action p)) as (l & Hl & Ha); [by apply list_elem_of_fmap_2|done|left|]. cbn in Hl.
  exists (mkTypeDef (p_Resource p) ((fun a => ("can_" +:+ a, [("role", "member"); ("user", "")])) <$> l)), [("role", "member"); ("user", "")]. split_and!; cbn [td_Type td_Relations].
  - unfold default_model. apply elem_of_app. right. apply list_elem_of_fmap. by exists (p_Resource p, l).
  - unfold type_of_object. change (p_Resource p +:+ ":" +:+ p_Action p) with (p_Resource p ++ String ":" (p_Action p))%string. by rewrite (SplitN2_app (p_Resource p) (p_Action p) _ Hc).
  - by apply (list_elem_of_fmap_2 (fun a => ("can_" +:+ a, [("role", "member"); ("user", "")])) l (p_Action p)).
  - unfold type_of_user. rewrite userset_role by done. left.
Qed.

Lemma member_allowed u role defs : no_hash u = true -> type_of_object u = "user" -> mkTypeDef "role" [("member", [("user", "")])] ∈ defs -> allows defs u "member" ("role:" +:+ role).
Proof.
  intros Hh Hu Hd. exists (mkTypeDef "role" [("member", [("user", "")])]), [("user", "")]. split_and!; [done|done|left|]. unfold type_of_user. rewrite userset_plain by done. rewrite Hu. left.
Qed.

Lemma seeded_tuples range cfg s : let ps := collectPermissions range cfg in tuples s = ∅ -> accepts (default_model (model_resources (fga_of <$> ps))) = true ->
  (forall p, p ∈ ps -> no_hash (p_Role p) = true /\ str_all (fun x => negb (Ascii.eqb x ":")) (p_Resource p) = true /\ p_Resource p <> "") ->
  (forall p, p ∈ ps -> let '(u, r, o) := seed_tuple (p_Role p) (p_Resource p) (p_Action p) in names_ok u r o = true) ->
  tuples (seedOpenFGAPermissions range cfg s) = list_to_set (seeds (fga_of <$> ps)) /\ defs_of (seedOpenFGAPermissions range cfg s) = default_model (model_resources (fga_of <$> ps)).
Proof.
  intros ps Ht Hm Hp Hn. unfold seedOpenFGAPermissions. fold ps. unfold EnsureModel, EnsureDefaultModel. destruct (law_model (default_model (model_resources (fga_of <$> ps))) s) as (L1 & L2 & L3).
  destruct (WriteAuthorizationModel _ s) as [ok s1]. cbn [fst snd] in *. rewrite Hm in *. subst ok. cbn [negb].
  destruct (SeedPermissions_tuples (fga_of <$> ps) s1) as [J1 J2].
  - intros q a Hq Ha. apply list_elem_of_fmap in Hq as (p & -> & Hq). cbn in Ha. apply list_elem_of_singleton in Ha as ->. destruct (Hp p Hq) as (H1 & H2 & H3).
    pose proof (seed_allowed ps p Hq H1 H2 H3) as A. pose proof (Hn p Hq) as N. split; [exact N|]. rewrite L3. exact A.
  - destruct (fga_of <$> ps) eqn:E; [cbn; rewrite L2, L3; split; [done|done]|]. rewrite <- E in *. rewrite J1, J2, L2, L3, Ht. split; [set_solver|done].
Qed.

(** C7: an end-to-end property of authorization through OpenFGA.  From an empty store of tuples,
    after the service has written its model and its permissions and users were made members
    of roles, the check of the middleware lets a user through a permission exactly when the
    configuration grants that permission to one of the user's roles - by
    [auth.role_permissions] or by an entry.  The server accepts the model and the names; roles
    and users have no hash, and roles and resources no bar. *)
Theorem seeded_permissions_hold range cfg (s : S) (assigns : list (string * string)) (user perm : string) :
  tuples s = ∅ -> accepts (default_model (model_resources (fga_of <$> collectPermissions range cfg))) = true ->
  (forall role perm, (role, perm) ∈ grants range cfg -> no_hash role = true /\ str_all (fun x => negb (Ascii.eqb x "|")) role = true /\ str_all (fun x => negb (Ascii.eqb x "|")) (SplitN2 perm ":").1 = true) ->
  (forall p, p ∈ collectPermissions range cfg -> let '(u, r, o) := seed_tuple (p_Role p) (p_Resource p) (p_Action p) in names_ok u r o = true) ->
  (forall ur, ur ∈ assigns -> no_hash ur.1 = true /\ type_of_object ur.1 = "user" /\ names_ok ur.1 "member" ("role:" +:+ ur.2) = true) -> no_hash user = true ->
  checkPermissionsViaFGA (fga_Check (assign assigns (seedOpenFGAPermissions range cfg s))) user [perm] = Some true <->
  exists role resource action, (user, role) ∈ assigns /\ (role, perm) ∈ grants range cfg /\ SplitN2 perm ":" = (resource, Some action) /\ role <> "" /\ resource <> "" /\ action <> "".
Proof.
  intros Ht Hm Hg Hn Ha Hu. destruct (collected_spec range cfg) as (_ & Sound & Complete).
  assert (P : forall p, p ∈ collectPermissions range cfg -> no_hash (p_Role p) = true /\ str_all (fun x => negb (Ascii.eqb x ":")) (p_Resource p) = true /\ p_Resource p <> "").
  { intros p Hp. destruct (Sound p Hp) as (_ & N & _ & q & G & E). split_and!; [apply (Hg _ _ G)|apply (SplitN2_cut _ _ _ _ E)|done]. }
  destruct (seeded_tuples range cfg s Ht Hm P Hn) as [T D]. set (ps := collectPermissions range cfg) in *. set (s1 := seedOpenFGAPermissions range cfg s) in *.
  destruct (assign_tuples assigns s1) as [T' D'].
  { intros ur H. destruct (Ha ur H) as (A1 & A2 & A3). split; [done|]. rewrite D. cbn. apply member_allowed; [done|done|right; left]. }
  cbn [checkPermissionsViaFGA]. destruct (SplitN2 perm ":") as [kind [action|]] eqn:E; [|split; [done|by intros (? & ? & ? & _ & _ & ? & _)]].
  destruct (SplitN2_cut _ _ _ _ E) as [Hc ->].
  destruct (holds_seeded ps assigns (tuples (assign assigns s1)) user kind action) as [H1 H2].
  { intros x. rewrite T', T. rewrite elem_of_union, !elem_of_list_to_set, list_elem_of_fmap. naive_solver. }
  { intros p Hp; split; apply P; done. } { intros ur H; apply (Ha ur H). } { done. } { done. }
  transitivity (fga_Check (assign assigns s1) user ("can_" +:+ action) (kind +:+ ":" +:+ action) = Some true).
  { change ("can_" ++ action)%string with ("can_" +:+ action). change (kind ++ ":" ++ action)%string with (kind +:+ ":" +:+ action). by destruct (fga_Check _ _ _ _) as [[]|]. }
  split.
  - intros [_ (role & Hr & Hp)%H1]%law_check_sound. destruct (Sound _ Hp) as (N1 & N2 & N3 & q & G & Eq). cbn in *. destruct (SplitN2_cut _ _ _ _ Eq) as [_ ->]. by exists role, kind, action.
  - intros (role & resource & act & Hr & G & [= <- <-] & N1 & N2 & N3).
    assert (Hp : mkPermission role kind action ∈ ps) by (eapply Complete; [intros r q Hq; split; apply (Hg _ _ Hq)|exact G|done..]).
    apply law_check_complete; [rewrite D', D|by apply (H2 role)]. destruct (P _ Hp) as (P1 & P2 & P3). destruct (seed_allowed ps _ Hp P1 P2 P3) as (d & refs & A1 & A2 & A3 & _). by exists d, refs.
Qed.
End openfga.

(** ** An OpenFGA server *)

Section reach.
Context (t : gset tuple) (u : string).

(** The relations a user has: those of a tuple of the user's own, and those of the sets the
    user is in. *)
Definition fga_step (X : gset (string * string)) : gset (string * string) :=
  set_omap (fun x => let '(w, r, o) := x in
    if decide (w = u) then Some (r, o) else match userset w with Some (o', r') => if decide ((r', o') ∈ X) then Some (r, o) else None | None => None end) t.

Fixpoint fga_reach (n : nat) (X : gset (string * string)) : gset (string * string) :=
  match n with O => X | S n => if decide (fga_step X ⊆ X) then X else fga_reach n (X ∪ fga_step X) end.

Definition fga_targets : gset (string * string) := set_map (fun x : tuple => let '(_, r, o) := x in (r, o)) t.
Definition fga_holds : gset (string * string) := fga_reach (S (size fga_targets)) ∅.

Lemma fga_step_spec X r o : (r, o) ∈ fga_step X <-> exists w, (w, r, o) ∈ t /\ (w = u \/ exists o' r', userset w = Some (o', r') /\ (r', o') ∈ X).
Proof.
  unfold fga_step. rewrite elem_of_set_omap. split.
  - intros ([[w r1] o1] & H & E). exists w. destruct (decide (w = u)) as [->|]; [injection E as -> ->; by auto|]. destruct (userset w) as [[o' r']|]; [|done].
    destruct (decide _); [|done]. injection E as -> ->. split; [done|]. right. by exists o', r'.
  - intros (w & H & C). exists (w, r, o). split; [done|]. destruct (decide (w = u)); [done|]. destruct C as [|(o' & r' & -> & H')]; [done|]. by rewrite decide_True.
Qed.

Lemma fga_reach_spec n X : X ⊆ fga_targets -> (size fga_targets < n + size X)%nat -> (forall r o, (r, o) ∈ X -> holds t u r o) ->
  fga_step (fga_reach n X) ⊆ fga_reach n X /\ forall r o, (r, o) ∈ fga_reach n X -> holds t u r o.
Proof.
  revert X. induction n as [|n IH]; intros X Hs Hn Hh; cbn [fga_reach]; [pose proof (subseteq_size _ _ Hs); lia|]. destruct (decide _) as [D|D]; [done|].
  assert (St : fga_step X ⊆ fga_targets).
  { intros [r o] (w & H & _)%fga_step_spec. apply elem_of_map. by exists (w, r, o). }
  apply IH; [set_solver| |].
  - assert (L : (size X < size (X ∪ fga_step X))%nat) by (apply subset_size; set_solver). lia.
  - intros r o [H|(w & H & C)%fga_step_spec]%elem_of_union; [by apply Hh|]. destruct C as [->|(o' & r' & E & H')]; [by constructor|]. econstructor 2; [done|done|by apply Hh].
Qed.

Lemma fga_holds_spec r o : (r, o) ∈ fga_holds <-> holds t u r o.
Proof.
  destruct (fga_reach_spec (S (size fga_targets)) ∅) as [C S]; [set_solver|rewrite size_empty; lia|set_solver|]. fold fga_holds in C, S. split; [apply S|].
  induction 1 as [r o H|r o w o' r' H E _ IH]; apply C, fga_step_spec; [by exists u; auto|]. exists w. split; [done|]. right. by exists o', r'.
Qed.
End reach.

(** A server that keeps the tuples and the latest model. *)
Definition fga_store : Type := gset tuple * list typeDefinition.

Definition allowsb (defs : list typeDefinition) (u r o : string) : bool :=
  existsb (fun d => String.eqb (td_Type d) (type_of_object o) && existsb (fun rr => String.eqb rr.1 r && bool_decide (type_of_user u ∈ rr.2)) (td_Relations d)) defs.
Definition relationb (defs : list typeDefinition) (r o : string) : bool :=
  existsb (fun d => String.eqb (td_Type d) (type_of_object o) && existsb (fun rr => String.eqb rr.1 r) (td_Relations d)) defs.

#[export] Instance fga_store_server : FgaServer fga_store := {
  WriteTuple u r o s := if negb (allowsb s.2 u r o) then (Some "openfga: write tuple failed: not allowed by the model", s)
                        else if decide ((u, r, o) ∈ s.1) then (Some "openfga: write tuple failed: the tuple already existed", s) else (None, ({[(u, r, o)]} ∪ s.1, s.2));
  WriteAuthorizationModel defs s := if bool_decide (NoDup (td_Type <$> defs)) then (true, (s.1, defs)) else (false, s);
  fga_Check s u r o := if relationb s.2 r o then Some (bool_decide ((r, o) ∈ fga_holds s.1 u)) else None }.

Lemma allowsb_spec defs u r o : allowsb defs u r o = true <-> allows defs u r o.
Proof.
  unfold allowsb, allows. rewrite existsb_exists. split.
  - intros (d & Hd & [Ht%String.eqb_eq H]%andb_true_iff). apply existsb_exists in H as ([r' refs] & Hr & [E%String.eqb_eq H]%andb_true_iff). cbn in *. subst r'.
    exists d, refs. rewrite !list_elem_of_In. split_and!; [done..|]. by apply bool_decide_eq_true, list_elem_of_In in H.
  - intros (d & refs & Hd%list_elem_of_In & Ht & Hr%list_elem_of_In & Hu). exists d. split; [done|]. rewrite Ht, String.eqb_refl. cbn. apply existsb_exists. exists (r, refs).
    split; [done|]. cbn. rewrite String.eqb_refl. by apply bool_decide_eq_true.
Qed.

Lemma relationb_spec defs r o : relationb defs r o = true <-> relation_of defs r o.
Proof.
  unfold relationb, relation_of. rewrite existsb_exists. split.
  - intros (d & Hd & [Ht%String.eqb_eq H]%andb_true_iff). apply existsb_exists in H as ([r' refs] & Hr & E%String.eqb_eq). cbn in *. subst r'. exists d, refs. by rewrite !list_elem_of_In.
  - intros (d & refs & Hd%list_elem_of_In & Ht & Hr%list_elem_of_In). exists d. split; [done|]. rewrite Ht, String.eqb_refl. cbn. apply existsb_exists. exists (r, refs). split; [done|]. apply String.eqb_refl.
Qed.

#[export] Instance fga_store_laws : FgaLaws fga_store.
Proof.
  refine {| tuples := fst; defs_of := snd; accepts defs := bool_decide (NoDup (td_Type <$> defs)); names_ok _ _ _ := true |}.
  - intros defs s. cbn. by case_bool_decide.
  - intros u r o s _ A%allowsb_spec. cbn [WriteTuple fga_store_server]. rewrite A. cbn [negb]. destruct (decide _) as [D|D]; cbn; split; [split; done|set_solver|split; done|done].
  - intros u r o s. cbn. destruct (allowsb _ _ _ _); [|done]. cbn. by destruct (decide _).
  - intros s u r o. cbn [fga_Check fga_store_server]. rewrite <- relationb_spec, <- fga_holds_spec. destruct (relationb _ _ _); [|done]. by intros [= H%bool_decide_eq_true].
  - intros s u r o R%relationb_spec H%within_holds%fga_holds_spec. cbn [fga_Check fga_store_server]. rewrite R. by rewrite bool_decide_true.
Defined.

#[local] Ltac members := let M := fresh in rewrite ?elem_of_cons; intros M; repeat (destruct M as [M|M]; [simplify_eq; split_and!; reflexivity|]); by apply elem_of_nil in M.

Lemma seeded_permissions_hold_witness :
  let cfg := (zero : ServiceConfig) <| ServiceConfig_Entry := [(zero : EntryDef) <| EntryDef_Roles := ["manager"; "viewer"] |> <| EntryDef_Permissions := ["products:read"] |>;
    (zero : EntryDef) <| EntryDef_Roles := ["manager"] |> <| EntryDef_Permissions := ["products:write"] |>] |> in
  checkPermissionsViaFGA (fga_Check (assign [("user:1", "manager"); ("user:2", "viewer")] (seedOpenFGAPermissions map_to_list cfg (∅, [])))) "user:1" ["products:write"] = Some true /\
  (checkPermissionsViaFGA (fga_Check (assign [("user:1", "manager"); ("user:2", "viewer")] (seedOpenFGAPermissions map_to_list cfg (∅, [])))) "user:2" ["products:write"] = Some true -> False).
Proof.
  intros cfg. assert (G : forall r q, (r, q) ∈ grants map_to_list cfg -> no_hash r = true /\ str_all (fun x => negb (Ascii.eqb x "|")) r = true /\ str_all (fun x => negb (Ascii.eqb x "|")) (SplitN2 q ":").1 = true).
  { intros r q. vm_compute (grants _ _). members. }
  assert (A : forall ur : string * string, ur ∈ [("user:1", "manager"); ("user:2", "viewer")] -> no_hash ur.1 = true /\ type_of_object ur.1 = "user" /\ names_ok ur.1 "member" ("role:" +:+ ur.2) = true).
  { intros ur. members. }
  pose proof (fun u Hu => seeded_permissions_hold map_to_list cfg (∅, []) [("user:1", "manager"); ("user:2", "viewer")] u "products:write" eq_refl eq_refl G (fun _ _ => eq_refl) A Hu) as T.
  split; [apply (T "user:1" eq_refl)|intros H; apply (T "user:2" eq_refl) in H].
  - exists "manager", "products", "write". split_and!; try done; [left|]. vm_compute (grants _ _). do 2 right. left.
  - destruct H as (r & _ & _ & H1 & H2 & _). vm_compute (grants _ _) in H2. repeat (apply elem_of_cons in H1 as [H1|H1]); try (by apply elem_of_nil in H1); simplify_eq.
    repeat (apply elem_of_cons in H2 as [H2|H2]; [by simplify_eq|]). by apply elem_of_nil in H2.
Defined.

(** ** Ory Keto *)

Module Keto.

(** The subject of a relation tuple. *)
Inductive subject : Type := SubjectID (id : string) | SubjectSet (namespace object relation : string).
#[export] Instance subject_eq_dec : EqDecision subject.
Proof. solve_decision. Defined.
#[export] Instance subject_countable : Countable subject.
Proof.
  refine (inj_countable' (fun x => match x with SubjectID i => inl i | SubjectSet n o r => inr (n, o, r) end) (fun x => match x with inl i => SubjectID i | inr (n, o, r) => SubjectSet n o r end) _).
  by intros [].
Qed.

Notation ktuple := (string * string * string * subject)%type.

(** The names the client is configured with. *)
Record ketoConfig : Type := mkKeto { RoleNamespace : string; RoleRelation : string; PermissionRelation : string }.

Definition orDefault (s d : string) : string := if String.eqb s "" then d else s.
Definition keto_NewClient (cfg : ketoConfig) : ketoConfig := mkKeto (orDefault (RoleNamespace cfg) "roles") (orDefault (RoleRelation cfg) "assignee") (orDefault (PermissionRelation cfg) "perform").

(** [PUT] and [DELETE /admin/relation-tuples] with the status, [None] for a request that failed;
    [POST /relation-tuples/check], [None] also for a body that is not read. *)
Class KetoServer (S : Type) := { keto_PUT : ktuple -> S -> option Z * S; keto_DELETE : ktuple -> S -> option Z * S; keto_check : ktuple -> S -> option bool }.

Section client.
Context {S : Type} `{!KetoServer S} (c : ketoConfig).

(** The second component of each is the server; [true] is no error. *)
Definition WriteKetoTuple (namespace object relation id : string) (s : S) : bool * S :=
  let '(st, s) := keto_PUT (namespace, object, relation, SubjectID id) s in (bool_decide (st = Some 201 \/ st = Some 200), s).

Definition DeleteKetoTuple (namespace object relation id : string) (s : S) : bool * S :=
  let '(st, s) := keto_DELETE (namespace, object, relation, SubjectID id) s in (bool_decide (st = Some 204 \/ st = Some 200 \/ st = Some 404), s).

Definition KetoCheck (s : S) (namespace object relation id : string) : option bool := keto_check (namespace, object, relation, SubjectID id) s.

Definition grant (p : PermissionDef) : ktuple := (p_Resource p, p_Action p, PermissionRelation c, SubjectSet (RoleNamespace c) (p_Role p) (RoleRelation c)).

Fixpoint keto_SeedPermissions (ps : list PermissionDef) (s : S) : bool * S :=
  match ps with
  | [] => (true, s)
  | p :: ps =>
      if String.eqb (p_Role p) "" || String.eqb (p_Resource p) "" || String.eqb (p_Action p) "" then keto_SeedPermissions ps s
      else let '(st, s) := keto_PUT (grant p) s in
           if bool_decide (st = Some 201 \/ st = Some 200 \/ st = Some 409) then keto_SeedPermissions ps s else (false, s)
  end.

(** [seedOryPermissions], with the permissions of the configuration. *)
Definition seedOryPermissions (range : gmap string (list string) -> list (string * list string)) (cfg : ServiceConfig) (s : S) : S :=
  match collectPermissions range cfg with [] => s | ps => (keto_SeedPermissions ps s).2 end.
End client.

(** What Keto documents: a tuple whose namespaces are known is kept; a check follows the tuples
    and the sets among their subjects, up to a depth, of which two steps are used here. *)
Inductive keto_holds (t : gset ktuple) (x : subject) : string -> string -> string -> Prop :=
| keto_direct n o r : (n, o, r, x) ∈ t -> keto_holds t x n o r
| keto_set n o r n' o' r' : (n, o, r, SubjectSet n' o' r') ∈ t -> keto_holds t x n' o' r' -> keto_holds t x n o r.

Fixpoint keto_holds_within (k : nat) (t : gset ktuple) (x : subject) (n o r : string) : Prop :=
  match k with O => False | S k => (n, o, r, x) ∈ t \/ exists n' o' r', (n, o, r, SubjectSet n' o' r') ∈ t /\ keto_holds_within k t x n' o' r' end.

Definition keto_names (namespaces : gset string) (t : ktuple) : Prop := t.1.1.1 ∈ namespaces /\ match t.2 with SubjectSet n _ _ => n ∈ namespaces | SubjectID _ => True end.

Class KetoLaws (S : Type) `{!KetoServer S} := {
  keto_tuples : S -> gset ktuple; namespaces : gset string;
  keto_put : forall t s, keto_names namespaces t -> (exists st, (keto_PUT t s).1 = Some st /\ (st = 201 \/ st = 200)) /\ keto_tuples (keto_PUT t s).2 = {[t]} ∪ keto_tuples s;
  keto_check_sound : forall n o r i s, keto_check (n, o, r, SubjectID i) s = Some true -> keto_holds (keto_tuples s) (SubjectID i) n o r;
  keto_check_complete : forall n o r i s, keto_holds_within 2 (keto_tuples s) (SubjectID i) n o r -> keto_check (n, o, r, SubjectID i) s = Some true }.

Section keto.
Context {S : Type} `{!KetoServer S} `{!KetoLaws S} (c : ketoConfig).

Lemma keto_seed_tuples ps s : (forall p, p ∈ ps -> p_Role p <> "" /\ p_Resource p <> "" /\ p_Action p <> "" /\ p_Resource p ∈ namespaces) -> RoleNamespace c ∈ namespaces ->
  keto_tuples (keto_SeedPermissions c ps s).2 = list_to_set (grant c <$> ps) ∪ keto_tuples s.
Proof.
  intros P R. revert s. induction ps as [|p ps IH]; intros s; cbn [keto_SeedPermissions]; [cbn; set_solver|]. destruct (P p ltac:(left)) as (N1 & N2 & N3 & N4).
  apply String.eqb_neq in N1, N2, N3. rewrite N1, N2, N3. cbn [orb]. destruct (keto_put (grant c p) s) as [(st & E & Hst) T]; [done|]. destruct (keto_PUT (grant c p) s) as [st' s']. cbn [fst snd] in *. subst st'.
  rewrite bool_decide_true by naive_solver. rewrite IH by (intros q Hq; apply P; by right). rewrite T. cbn. set_solver.
Qed.

Definition keto_assign (assigns : list (string * string)) (s : S) : S := foldl (fun s ur => (WriteKetoTuple (RoleNamespace c) ur.2 (RoleRelation c) ur.1 s).2) s assigns.

Lemma keto_assign_tuples assigns s : RoleNamespace c ∈ namespaces -> keto_tuples (keto_assign assigns s) = list_to_set ((fun ur => (RoleNamespace c, ur.2, RoleRelation c, SubjectID ur.1)) <$> assigns) ∪ keto_tuples s.
Proof.
  intros R. revert s. induction assigns as [|[u r] assigns IH]; intros s; cbn; [set_solver|]. unfold keto_assign in IH. rewrite IH. unfold WriteKetoTuple.
  destruct (keto_put (RoleNamespace c, r, RoleRelation c, SubjectID u) s) as [_ T]; [done|]. cbn [fst snd]. destruct (keto_PUT _ s) as [st s']. cbn [fst snd] in *. rewrite T. set_solver.
Qed.

(** An end-to-end property of authorization through Ory Keto.  From an empty store of tuples,
    after the service has seeded its permissions and users were made members of roles, the
    check of the middleware lets a user through a permission exactly when the configuration
    grants that permission to one of the user's roles.  The namespaces of the resources and
    of the roles are declared at the server, and permissions and roles are not one relation. *)
Theorem keto_permissions_hold range cfg cl (s : S) (assigns : list (string * string)) (a : AuthContext) (perm : string) :
  keto_tuples s = ∅ -> RoleNamespace c ∈ namespaces -> RoleRelation c <> PermissionRelation c ->
  (forall role perm, (role, perm) ∈ grants range cfg -> (SplitN2 perm ":").1 ∈ namespaces /\ str_all (fun x => negb (Ascii.eqb x "|")) role = true /\ str_all (fun x => negb (Ascii.eqb x "|")) (SplitN2 perm ":").1 = true) ->
  oc_PermissionRelation cl = PermissionRelation c -> oc_KetoCheck cl = KetoCheck (keto_assign assigns (seedOryPermissions c range cfg s)) ->
  checkPermissionsViaKeto cl a [perm] = Some true <->
  exists role resource action, (subjectID a, role) ∈ assigns /\ (role, perm) ∈ grants range cfg /\ SplitN2 perm ":" = (resource, Some action) /\ role <> "" /\ resource <> "" /\ action <> "".
Proof.
  intros Ht HR Hne Hg Hr Hk. destruct (collected_spec range cfg) as (_ & Sound & Complete). set (ps := collectPermissions range cfg) in *.
  assert (T : forall x, x ∈ keto_tuples (keto_assign assigns (seedOryPermissions c range cfg s)) <-> (exists p, p ∈ ps /\ x = grant c p) \/ exists ur, ur ∈ assigns /\ x = (RoleNamespace c, ur.2, RoleRelation c, SubjectID ur.1)).
  { intros x. rewrite keto_assign_tuples by done. assert (Es : keto_tuples (seedOryPermissions c range cfg s) = list_to_set (grant c <$> ps)).
    { unfold seedOryPermissions. fold ps. rewrite <- (right_id_L ∅ (∪) (list_to_set (grant c <$> ps))), <- Ht, <- keto_seed_tuples; [by destruct ps| |done].
      intros p Hp. destruct (Sound p Hp) as (? & ? & ? & q & G & E). destruct (Hg _ _ G) as [Hq _]. rewrite E in Hq. done. }
    rewrite Es, elem_of_union, !elem_of_list_to_set, !list_elem_of_fmap. naive_solver. }
  cbn [checkPermissionsViaKeto]. unfold splitPermission. destruct (SplitN2 perm ":") as [ns [obj|]] eqn:E; [|split; [done|by intros (? & ? & ? & _ & _ & ? & _)]].
  rewrite Hk, Hr. unfold KetoCheck. destruct (SplitN2_cut _ _ _ _ E) as [Hc ->].
  transitivity (keto_check (ns, obj, PermissionRelation c, SubjectID (subjectID a)) (keto_assign assigns (seedOryPermissions c range cfg s)) = Some true); [by destruct (keto_check _ _) as [[]|]|]. split.
  - intros H%keto_check_sound. inversion H as [? ? ? H1|? ? ? n' o' r' H1 H2]; subst; apply T in H1 as [(p & Hp & X)|(ur & _ & X)]; unfold grant in X; simplify_eq.
    destruct (Sound p Hp) as (N1 & N2 & N3 & q & G & Eq). destruct (SplitN2_cut _ _ _ _ Eq) as [_ ->]. exists (p_Role p), (p_Resource p), (p_Action p). split_and!; try done.
    inversion H2 as [? ? ? H1|? ? ? n' o' r' H1 _]; subst; apply T in H1 as [(q & Hq & X)|([u r] & Hu & X)]; unfold grant in X; cbn in *; simplify_eq. done.
  - intros (role & resource & act & Hu & G & [= <- <-] & N1 & N2 & N3). apply keto_check_complete. right. exists (RoleNamespace c), role, (RoleRelation c). split.
    + apply T. left. exists (mkPermission role ns obj). split; [|done]. eapply Complete; [intros r q Hq; split; apply (Hg _ _ Hq)|exact G|done..].
    + left. apply T. right. by exists (subjectID a, role).
Qed.
End keto.

(** A server of two steps. *)
#[export] Instance two_steps : KetoServer (gset ktuple) := {
  keto_PUT t s := (Some 201, {[t]} ∪ s); keto_DELETE t s := (Some 204, s ∖ {[t]});
  keto_check q s := Some (bool_decide (q ∈ s) || existsb (fun x => let '(n, o, r, w) := x in let '(n0, o0, r0, i) := q in
    bool_decide ((n, o, r) = (n0, o0, r0)) && match w with SubjectSet n' o' r' => bool_decide ((n', o', r', i) ∈ s) | SubjectID _ => false end) (elements s)) }.

Lemma two_steps_spec (n o r : string) (i : subject) (s : gset ktuple) : keto_check (n, o, r, i) s = Some true <-> keto_holds_within 2 s i n o r.
Proof.
  cbn. split.
  - intros [= [H%bool_decide_eq_true|H]%orb_true_iff]; [by left|]. right. apply existsb_exists in H as ([[[n1 o1] r1] w] & Hx & [E%bool_decide_eq_true Hw]%andb_true_iff). simplify_eq.
    apply list_elem_of_In, elem_of_elements in Hx. destruct w as [|n' o' r']; [done|]. exists n', o', r'. split; [done|]. left. by apply bool_decide_eq_true in Hw.
  - intros [H|(n' & o' & r' & H & H')]; [by rewrite bool_decide_true|]. destruct H' as [H'|(? & ? & ? & _ & [])]. rewrite orb_true_intro; [done|]. right. apply existsb_exists.
    exists (n, o, r, SubjectSet n' o' r'). split; [by apply list_elem_of_In, elem_of_elements|]. by rewrite !bool_decide_true.
Qed.

Lemma within_keto k t x n o r : keto_holds_within k t x n o r -> keto_holds t x n o r.
Proof. revert n o r. induction k as [|k IH]; intros n o r; cbn; [done|]. intros [H|(n' & o' & r' & H & H')]; [by constructor|]. econstructor 2; [done|by apply IH]. Qed.

#[export] Instance two_steps_laws : KetoLaws (gset ktuple).
Proof.
  refine {| keto_tuples := id; namespaces := {["roles"; "products"]} |}.
  - intros t s _. split; [by exists 201; auto|done].
  - intros n o r i s H%two_steps_spec. by apply (within_keto 2).
  - intros n o r i s H. by apply two_steps_spec.
Defined.

Lemma keto_permissions_hold_witness :
  let cfg := (zero : ServiceConfig) <| ServiceConfig_Entry := [(zero : EntryDef) <| EntryDef_Roles := ["manager"] |> <| EntryDef_Permissions := ["products:write"] |>] |> in
  let c := keto_NewClient (mkKeto "" "" "") in
  let cl := mkOryClient (fun _ => None) (fun _ => None) (KetoCheck (keto_assign c [("user:1", "manager")] (seedOryPermissions c map_to_list cfg ∅))) (RoleNamespace c) (RoleRelation c) (PermissionRelation c) in
  checkPermissionsViaKeto cl (mkAuth "1" "" [] [] "" ∅) ["products:write"] = Some true.
Proof.
  intros cfg c cl. apply (keto_permissions_hold c map_to_list cfg cl (∅ : gset ktuple) [("user:1", "manager")] (mkAuth "1" "" [] [] "" ∅) "products:write"); try reflexivity.
  - intros H. vm_compute in H. discriminate H.
  - intros r q. vm_compute (grants _ _). intros H. apply list_elem_of_singleton in H. simplify_eq. split_and!; reflexivity.
  - exists "manager", "products", "write". split_and!; try done; [left|]. vm_compute (grants _ _). left.
Defined.
End Keto.
