(* ===== verification/Redirects.v ===== *)
(** * Redirects (runtime/service.go: [registerRedirects], [buildRedirectHandler],
    [extractParams]; runtime/redirect.go: [IsSameOrigin])

    A request is its method, the parameters the router found and its query string.
    [url.Parse] is used through the parts of the URL it returns. *)

From S2P Require Import Prelude GoStrings SqlModel ConfigTypes GoPath FileEntry.
From S2P Require OpenApi.
From Stdlib Require Import Ascii.

#[local] Open Scope string_scope.
#[local] Open Scope list_scope.
#[local] Open Scope Z_scope.

Notation Contains := GoStrings.Contains.

(** [strings.ReplaceAll] for a nonempty [old]; [skip] bytes belong to a match. *)
Fixpoint replace_go (old new : string) (skip : nat) (s : string) : string :=
  match s with
  | EmptyString => ""
  | String c r =>
      match skip with
      | S k => replace_go old new k r
      | O => if HasPrefix s old then (new ++ replace_go old new (String.length old - 1) r)%string else String c (replace_go old new 0 r)
      end
  end.
Definition ReplaceAll (s old new : string) : string := replace_go old new 0 s.

(** ** The handler of a redirect *)

Definition extractParams (pattern : string) : list string :=
  omap (fun seg => match seg with String ":" p => Some p | _ => None end) (Split pattern "/").

Record visit : Type := mkVisit { v_method : string; v_param : string -> string; v_query : string }.

Inductive redirected := PassOn | To (status : Z) (target : string).

(** The parameters of the pattern put into a target, in order. *)
Definition put_params (param : string -> string) (ps : list string) (target : string) : string :=
  foldl (fun t p => if (param p =? "")%string then t else ReplaceAll t (String ":" p) (param p)) target ps.

Definition buildRedirectHandler (from to : string) (status : Z) (preserveQuery : bool) (methods : gset string) (c : visit) : redirected :=
  if bool_decide (methods <> ∅) && bool_decide (v_method c ∉ methods) then PassOn
  else
    let hasWildcard := HasSuffix from "/*" in
    let hasParams := Contains from ":" in
    let target :=
      if hasWildcard && HasSuffix to "/*" then
        (if (v_param c "*" =? "")%string then TrimSuffix to "/*" else TrimSuffix to "/*" ++ "/" ++ v_param c "*")%string
      else to in
    let target := if hasParams && negb hasWildcard then put_params (v_param c) (extractParams from) target else target in
    let target :=
      if preserveQuery && negb (v_query c =? "")%string then
        (if Contains target "?" then target ++ "&" ++ v_query c else target ++ "?" ++ v_query c)%string
      else target in
    To status target.

(** What is registered for a redirect of the configuration: methods, pattern and handler. *)
Definition registerRedirect (rd : RedirectDef) : option (list string * string * (visit -> redirected)) :=
  if (RedirectDef_From rd =? "")%string || (RedirectDef_To rd =? "")%string then None
  else
    let status := if RedirectDef_Status rd =? 0 then 302 else RedirectDef_Status rd in
    let methods := match RedirectDef_Methods rd with [] => ["GET"] | ms => ms end in
    let preserveQuery := default true (RedirectDef_PreserveQuery rd) in
    Some (methods, RedirectDef_From rd,
          buildRedirectHandler (RedirectDef_From rd) (RedirectDef_To rd) status preserveQuery (list_to_set (ToUpper <$> methods))).
Definition registerRedirects (rds : list RedirectDef) : list (list string * string * (visit -> redirected)) := omap registerRedirect rds.

(** ** Parameters *)

(** An element of a target: a text without colons, or a parameter. *)
Inductive seg := Lit (s : string) | Par (p : string).
Definition seg_text (x : seg) : string := match x with Lit s => s | Par p => String ":" p end.
Definition seg_value (param : string -> string) (ps : list string) (x : seg) : string :=
  match x with Lit s => s | Par p => if bool_decide (p ∈ ps) && negb (param p =? "")%string then param p else (String ":" p) end.
Definition template (f : seg -> string) (xs : list seg) : string := Join (f <$> xs) "/".

Definition no_colon (s : string) : bool := str_all (fun c => negb (Ascii.eqb c ":")) s.

Lemma replace_lit old new s rest : no_colon s = true -> ReplaceAll (s ++ rest) (String ":" old) new = (s ++ ReplaceAll rest (String ":" old) new)%string.
Proof.
  intros Hs. unfold ReplaceAll. induction s as [|c s IH]; [done|]. cbn in Hs. apply andb_true_iff in Hs as [Hc Hs]. rewrite !str_app_cons. cbn [replace_go].
  assert (HasPrefix (String c (s ++ rest)) (String ":" old) = false) as ->; [|by rewrite IH].
  unfold HasPrefix. cbn [String.prefix]. destruct (ascii_dec ":" c) as [<-|]; [done|done].
Qed.

Lemma replace_skip old new s rest : replace_go old new (String.length s) (s ++ rest) = replace_go old new 0 rest.
Proof. induction s as [|c s IH]; [done|]. rewrite str_app_cons. exact IH. Qed.

Lemma replace_hit old new rest : ReplaceAll ((String ":" old) ++ rest) (String ":" old) new = (new ++ ReplaceAll rest (String ":" old) new)%string.
Proof.
  unfold ReplaceAll. change ((String ":" old) ++ rest)%string with (String ":" (old ++ rest)). cbn [replace_go].
  assert (HasPrefix (String ":" (old ++ rest)) (String ":" old) = true) as ->.
  { change (String ":" (old ++ rest)) with ((String ":" old) ++ rest)%string. unfold HasPrefix. set (p := (String ":" old)). clearbody p.
    induction p as [|c p IH]; [by destruct rest|]. rewrite str_app_cons. cbn [String.prefix]. by destruct (ascii_dec c c). }
  f_equal. change (String.length (String ":" old) - 1)%nat with (String.length old - 0)%nat. rewrite Nat.sub_0_r. apply replace_skip.
Qed.

(** Another parameter is left when the replaced one is no prefix of it. *)
Lemma replace_miss old new p rest : no_colon p = true -> no_slash old = true -> HasPrefix p old = false ->
  (rest = "" \/ exists t, rest = String slash t) ->
  ReplaceAll ((String ":" p) ++ rest) (String ":" old) new = ((String ":" p) ++ ReplaceAll rest (String ":" old) new)%string.
Proof.
  intros Hp Hold Hpre Hrest. unfold ReplaceAll. change ((String ":" p) ++ rest)%string with (String ":" (p ++ rest)). cbn [replace_go].
  assert (HasPrefix (String ":" (p ++ rest)) (String ":" old) = false) as ->.
  { unfold HasPrefix. cbn [String.prefix]. destruct (ascii_dec ":" ":"); [|done]. clear -Hold Hpre Hrest. unfold HasPrefix in Hpre.
    revert p Hpre. induction old as [|c old IH]; intros p Hpre; [by destruct p|]. cbn in Hold. apply andb_true_iff in Hold as [Hc Hold].
    destruct p as [|d p].
    - destruct Hrest as [->|[t ->]]; [done|]. rewrite str_app_nil_l. cbn [String.prefix]. destruct (ascii_dec c slash) as [->|]; [done|done].
    - rewrite str_app_cons. cbn [String.prefix] in Hpre |- *. destruct (ascii_dec c d); [|done]. by apply IH. }
  change ((String ":" p) ++ replace_go (String ":" old) new 0 rest)%string with (String ":" (p ++ replace_go (String ":" old) new 0 rest)). f_equal.
  apply (replace_lit old new p rest Hp).
Qed.

(** The rest of a template after its first element. *)
Definition after (f : seg -> string) (xs : list seg) : string := match xs with [] => "" | _ => String slash (template f xs) end.

Lemma template_cons f x xs : template f (x :: xs) = (f x ++ after f xs)%string.
Proof. unfold template, after. destruct xs; cbn; [by rewrite str_app_nil_r|done]. Qed.

Lemma after_shape f xs : after f xs = "" \/ exists t, after f xs = String slash t.
Proof. destruct xs; [by left|right; by eexists]. Qed.

(** Replacing one parameter in a template. *)
Lemma replace_template (f : seg -> string) (old new : string) (xs : list seg) :
  no_slash old = true ->
  Forall (fun x => no_colon (f x) = true \/ exists p, x = Par p /\ f x = (String ":" p) /\ no_colon p = true /\ (p = old \/ HasPrefix p old = false)) xs ->
  ReplaceAll (template f xs) (String ":" old) new =
  template (fun x => if bool_decide (f x = (String ":" old)) then new else f x) xs.
Proof.
  intros Hold H. induction H as [|x xs Hx _ IH]; [done|]. rewrite !template_cons.
  assert (Hafter : ReplaceAll (after f xs) (String ":" old) new = after (fun x => if bool_decide (f x = (String ":" old)) then new else f x) xs).
  { destruct xs as [|y ys]; [done|]. unfold after. rewrite <- IH. exact (replace_lit old new "/" (template f (y :: ys)) eq_refl). }
  destruct Hx as [Hc|(p & -> & E & Hp & Hor)].
  - rewrite replace_lit by done. rewrite Hafter. f_equal. rewrite bool_decide_false; [done|]. intros E. by rewrite E in Hc.
  - rewrite E. destruct Hor as [->|Hpre].
    + rewrite replace_hit, Hafter. by rewrite bool_decide_true.
    + rewrite replace_miss by (done || apply after_shape). rewrite Hafter. rewrite bool_decide_false; [done|]. intros [= ->].
      unfold HasPrefix in Hpre. clear -Hpre. induction old as [|c old IH]; [done|]. cbn [String.prefix] in Hpre. destruct (ascii_dec c c); [by apply IH|done].
Qed.

Lemma seg_value_par param done_ p : seg_value param done_ (Par p) = (String ":" p) \/ seg_value param done_ (Par p) = param p.
Proof. cbn. destruct (_ && _); auto. Qed.

(** The parameters of a pattern put into a target one after the other. *)
Lemma put_params_template (param : string -> string) (ps : list string) (xs : list seg) :
  Forall (fun p => no_slash p = true /\ no_colon p = true /\ no_colon (param p) = true) ps ->
  (forall p q, p ∈ ps -> Par q ∈ xs -> p = q \/ HasPrefix q p = false) ->
  Forall (fun x => match x with Lit s => no_colon s = true | Par p => no_colon p = true end) xs ->
  put_params param ps (template seg_text xs) = template (seg_value param ps) xs.
Proof.
  intros Hps Hpre Hxs. assert (Hgen : forall done_ todo, (forall p, p ∈ done_ ++ todo -> p ∈ ps) ->
    put_params param todo (template (seg_value param done_) xs) = template (seg_value param (done_ ++ todo)) xs).
  2:{ specialize (Hgen [] ps ltac:(done)). cbn [app] in Hgen. by rewrite <- Hgen. }
  intros done_ todo. revert done_. induction todo as [|p todo IH]; intros done_ Hin; cbn [put_params foldl]; [by rewrite app_nil_r|].
  assert (Hp : p ∈ ps) by (apply Hin, elem_of_app; right; left).
  pose proof (proj1 (Forall_forall _ _) Hps p Hp) as (Hns & Hnc & Hnv).
  assert (Hstep : (if (param p =? "")%string then template (seg_value param done_) xs else ReplaceAll (template (seg_value param done_) xs) (String ":" p) (param p))
    = template (seg_value param (done_ ++ [p])) xs).
  { assert (Hext : forall f g, (forall x, x ∈ xs -> f x = g x) -> template f xs = template g xs).
    { intros f g Hfg. unfold template. f_equal. apply list_fmap_ext. intros i x Hx. apply Hfg. by eapply list_elem_of_lookup_2. }
    destruct (String.eqb_spec (param p) "") as [E|Hne].
    - apply Hext. intros [s|q] _; [done|]. cbn. destruct (decide (q = p)) as [->|Hq]; [by rewrite E, !andb_false_r|].
      rewrite (bool_decide_ext (q ∈ done_ ++ [p]) (q ∈ done_)); [done|]. rewrite elem_of_app, list_elem_of_singleton. tauto.
    - rewrite replace_template; [|done|].
      + apply Hext. intros [s|q] Hx.
        * cbn. rewrite bool_decide_false; [done|]. intros ->. pose proof (proj1 (Forall_forall _ _) Hxs _ Hx) as Hs. cbn in Hs. done.
        * cbn [seg_value]. destruct (decide (q = p)) as [->|Hq].
          -- rewrite (bool_decide_true (p ∈ done_ ++ [p])) by (apply elem_of_app; right; by left). rewrite (proj2 (String.eqb_neq _ _) Hne). cbn [negb andb].
             destruct (bool_decide (p ∈ done_)); cbn [andb]; [|by rewrite bool_decide_true]. rewrite bool_decide_false; [done|]. intros E. by rewrite E in Hnv.
          -- rewrite (bool_decide_ext (q ∈ done_ ++ [p]) (q ∈ done_)) by (rewrite elem_of_app, list_elem_of_singleton; tauto).
             destruct (bool_decide (q ∈ done_) && _) eqn:Eq; [|rewrite bool_decide_false; [done|by intros [= ->]]].
             apply andb_true_iff in Eq as [Hd%bool_decide_eq_true _]. rewrite bool_decide_false; [done|]. intros E.
             assert (Hqs : q ∈ ps) by (apply Hin, elem_of_app; by left). pose proof (proj1 (Forall_forall _ _) Hps q Hqs) as (_ & _ & Hv). by rewrite E in Hv.
      + apply Forall_forall. intros [s|q] Hx; [left; exact (proj1 (Forall_forall _ _) Hxs _ Hx)|].
        destruct (seg_value_par param done_ q) as [E|E]; [right; exists q; split_and!; [done|done|exact (proj1 (Forall_forall _ _) Hxs _ Hx)|]|].
        * destruct (Hpre p q Hp Hx) as [->|]; auto.
        * cbn [seg_value] in E |- *. destruct (bool_decide (q ∈ done_) && _) eqn:Eq; cbn in *.
          -- left. apply andb_true_iff in Eq as [Hd%bool_decide_eq_true _]. assert (Hqs : q ∈ ps) by (apply Hin, elem_of_app; by left).
             exact (proj2 (proj2 (proj1 (Forall_forall _ _) Hps q Hqs))).
          -- right. exists q. split_and!; [done|done|exact (proj1 (Forall_forall _ _) Hxs _ Hx)|]. destruct (Hpre p q Hp Hx) as [->|]; auto. }
  change (foldl _ ?t todo) with (put_params param todo t). rewrite Hstep, IH.
  - by rewrite <- (assoc_L (++)).
  - intros q Hq. apply Hin. rewrite <- (assoc_L (++)) in Hq. exact Hq.
Qed.

Definition with_query (preserveQuery : bool) (query target : string) : string :=
  if preserveQuery && negb (query =? "")%string then
    (if Contains target "?" then target ++ "&" ++ query else target ++ "?" ++ query)%string
  else target.

(** A redirect forwards what it names.  With parameters in the pattern, every element ":p" of
    the target whose parameter the pattern has and the request gives is replaced by its value
    and every other element is kept, provided that no parameter's name is the beginning of
    another's and no value has a colon.  With "/*" at the end of both, the target is followed by
    the rest of the path.  The query is appended; and a request with another method is passed
    on. *)
Theorem redirect_forwards (from : string) (status : Z) (preserveQuery : bool) (methods : gset string) (c : visit) :
  v_method c ∈ methods ->
  (forall xs, Contains from ":" = true -> HasSuffix from "/*" = false ->
     Forall (fun p => no_slash p = true /\ no_colon p = true /\ no_colon (v_param c p) = true) (extractParams from) ->
     (forall p q, p ∈ extractParams from -> Par q ∈ xs -> p = q \/ HasPrefix q p = false) ->
     Forall (fun x => match x with Lit s => no_colon s = true | Par p => no_colon p = true end) xs ->
     buildRedirectHandler from (template seg_text xs) status preserveQuery methods c =
       To status (with_query preserveQuery (v_query c) (template (seg_value (v_param c) (extractParams from)) xs))) /\
  (forall base, HasSuffix from "/*" = true ->
     buildRedirectHandler from (base ++ "/*")%string status preserveQuery methods c =
       To status (with_query preserveQuery (v_query c) (base ++ (if (v_param c "*" =? "")%string then "" else "/" ++ v_param c "*"))%string)) /\
  (forall to m, methods <> ∅ -> m ∉ methods -> buildRedirectHandler from to status preserveQuery methods (mkVisit m (v_param c) (v_query c)) = PassOn).
Proof.
  intros Hm. split_and!.
  - intros xs Hc Hw Hps Hpre Hxs. unfold buildRedirectHandler. rewrite (bool_decide_false (v_method c ∉ methods)) by (intros H; by apply H). rewrite andb_false_r, Hc, Hw. cbn [andb negb].
    by rewrite put_params_template.
  - intros base Hw. unfold buildRedirectHandler. rewrite (bool_decide_false (v_method c ∉ methods)) by (intros H; by apply H). rewrite andb_false_r, Hw, HasSuffix_app, TrimSuffix_app.
    cbn [andb negb]. rewrite andb_false_r. cbn [andb]. unfold with_query. destruct (String.eqb_spec (v_param c "*") ""); [|done]. by rewrite str_app_nil_r.
  - intros to m Hne Hm'. unfold buildRedirectHandler. cbn [v_method]. by rewrite !bool_decide_true.
Qed.

Definition user_visit : visit := mkVisit "GET" (fun p => if (p =? "id")%string then "42" else if (p =? "tab")%string then "posts" else "") "page=2".

Lemma redirect_forwards_witness :
  buildRedirectHandler "/user/:id/:tab" "/profile/:id/show/:tab" 302 true {["GET"]} user_visit = To 302 "/profile/42/show/posts?page=2".
Proof.
  destruct (redirect_forwards "/user/:id/:tab" 302 true {["GET"]} user_visit ltac:(apply elem_of_singleton; reflexivity)) as (H & _).
  etransitivity; [apply (H [Lit ""; Lit "profile"; Par "id"; Lit "show"; Par "tab"])|by vm_compute].
  - reflexivity.
  - reflexivity.
  - by repeat constructor.
  - intros p q Hp Hq. change (extractParams "/user/:id/:tab") with ["id"; "tab"] in Hp.
    assert (Hqs : q = "id" \/ q = "tab") by (rewrite !elem_of_cons, elem_of_nil in Hq; destruct Hq as [E|[E|[E|[E|[E|[]]]]]]; first [discriminate E|injection E as ->; auto]).
    apply elem_of_cons in Hp as [->|[->|[]%not_elem_of_nil]%elem_of_cons]; destruct Hqs as [->| ->]; auto.
  - by repeat constructor.
Defined.

(** Where redirects go wrong.  A redirect of everything to "/*" sends a path with two slashes
    to another host: the target of "/old//evil.example" is "//evil.example".  A parameter whose
    name begins another's is put into it; a value with a colon can be replaced in turn; and with
    a wildcard in the pattern the parameters are left as they are. *)
Theorem redirect_gaps (param : string -> string) :
  (forall host, buildRedirectHandler "/old/*" "/*" 302 false ∅ (mkVisit "GET" (fun _ => "/" ++ host)%string "") = To 302 ("//" ++ host)%string) /\
  put_params (fun p => if (p =? "id")%string then "7" else "x") (extractParams "/:id/:idx") "/to/:id/:idx" = "/to/7/7x" /\
  put_params (fun p => if (p =? "a")%string then ":b" else "secret") (extractParams "/:a/:b") "/to/:a" = "/to/secret" /\
  buildRedirectHandler "/u/:id/*" "/v/:id" 302 false ∅ (mkVisit "GET" param "") = To 302 "/v/:id".
Proof. split; [intros host; reflexivity|]. split; [by vm_compute|]. split; [by vm_compute|reflexivity]. Qed.

(** ** Same origin (runtime/redirect.go) *)

(** What is used of the [url.URL] of a referer. *)
Record parsed_url : Type := mkURL { u_Scheme : string; u_Hostname : string; u_Port : string }.

(** The text before and after the last colon. *)
Fixpoint splitHostPort (host : string) : string * string :=
  match host with
  | EmptyString => ("", "")
  | String c rest =>
      match IndexByte rest ":" with
      | Some _ => let '(h, p) := splitHostPort rest in (String c h, p)
      | None => if Ascii.eqb c ":" then ("", rest) else (let '(h, p) := splitHostPort rest in (String c h, p))
      end
  end.

Definition normalizePort (port scheme : string) : string :=
  if (port =? "")%string then ""
  else if (port =? "80")%string && ((scheme =? "")%string || (scheme =? "http")%string) then ""
  else if (port =? "443")%string && (scheme =? "https")%string then ""
  else port.

(** [url] is what [url.Parse] made of the referer, [None] for an error. *)
Definition IsSameOrigin (referer : string) (url : option parsed_url) (requestHost : string) : bool :=
  if (referer =? "")%string || (requestHost =? "")%string then false
  else match url with
       | None => false
       | Some u =>
           if (u_Hostname u =? "")%string then false
           else
             let '(reqHost, reqPort) := splitHostPort requestHost in
             if negb (EqualFold (u_Hostname u) reqHost) then false
             else (normalizePort (u_Port u) (u_Scheme u) =? normalizePort reqPort "")%string
       end.

Lemma splitHostPort_app (h p : string) : no_colon p = true -> splitHostPort (h ++ String ":" p)%string = (h, p).
Proof.
  intros Hp. induction h as [|c h IH].
  - rewrite str_app_nil_l. cbn. by rewrite (IndexByte_None p ":" Hp).
  - rewrite str_app_cons. cbn [splitHostPort]. rewrite IH. destruct (IndexByte (h ++ String ":" p)%string ":") eqn:E; [done|]. exfalso. clear -E.
    induction h as [|d h IHh]; [done|]. rewrite str_app_cons in E. cbn in E. destruct (Ascii.eqb d ":"); [done|]. destruct (IndexByte (h ++ String ":" p)%string ":"); done.
Qed.

Lemma splitHostPort_none (h : string) : no_colon h = true -> splitHostPort h = (h, "").
Proof.
  induction h as [|c h IH]; [done|]. cbn. intros [Hc Hh]%andb_true_iff. apply negb_true_iff in Hc. by rewrite (IndexByte_None h ":" Hh), Hc, IH.
Qed.

(** Same origin, by host and port.  For host names without colons a referer is of the same
    origin exactly when the hosts agree up to case and the ports do once the defaults are left
    out.  The scheme is not compared; port 443 of the request is no default, so the page
    "https://h" is foreign to the host "h:443"; and an IPv6 host, which keeps its brackets in
    the request and loses them in the referer, is never its own origin. *)
Theorem same_origin (referer h : string) (u : parsed_url) (port : string) :
  referer <> "" -> h <> "" -> u_Hostname u <> "" -> no_colon h = true -> no_colon port = true ->
  (IsSameOrigin referer (Some u) (h ++ String ":" port)%string = true <->
     EqualFold (u_Hostname u) h = true /\ normalizePort (u_Port u) (u_Scheme u) = (if (port =? "80")%string then "" else port)) /\
  (IsSameOrigin referer (Some u) h = true <-> EqualFold (u_Hostname u) h = true /\ normalizePort (u_Port u) (u_Scheme u) = "") /\
  IsSameOrigin referer (Some (mkURL "http" h "")) h = IsSameOrigin referer (Some (mkURL "https" h "")) h /\
  IsSameOrigin referer (Some (mkURL "https" h "")) (h ++ ":443")%string = false /\
  IsSameOrigin referer (Some (mkURL "http" "::1" "8080")) "[::1]:8080" = false.
Proof.
  intros Hr Hh Hu Hnc Hnp. unfold IsSameOrigin. rewrite (proj2 (String.eqb_neq _ _) Hr), (proj2 (String.eqb_neq _ _) Hh), (proj2 (String.eqb_neq _ _) Hu). cbn [orb u_Hostname u_Port u_Scheme].
  assert (Hne : forall t, ((h ++ String ":" t)%string =? "")%string = false) by (intros t; by destruct h).
  assert (Hnorm : normalizePort port "" = if (port =? "80")%string then "" else port).
  { unfold normalizePort. destruct (String.eqb_spec port "") as [->|]; [done|]. destruct (port =? "80")%string; [done|]. cbn. by rewrite andb_false_r. }
  split_and!.
  - rewrite Hne, splitHostPort_app, Hnorm by done. destruct (EqualFold (u_Hostname u) h); cbn [negb]; [|split; [done|by intros []]]. rewrite String.eqb_eq. tauto.
  - rewrite splitHostPort_none by done. destruct (EqualFold (u_Hostname u) h); cbn [negb]; [|split; [done|by intros []]].
    change (normalizePort "" "") with "". rewrite String.eqb_eq. tauto.
  - rewrite (proj2 (String.eqb_neq _ _) Hh). done.
  - change ":443" with (String ":" "443"). rewrite Hne, (proj2 (String.eqb_neq _ _) Hh), splitHostPort_app by done. by destruct (EqualFold h h).
  - by vm_compute.
Qed.

Lemma same_origin_witness : IsSameOrigin "https://Shop.example/cart" (Some (mkURL "https" "Shop.example" "")) "shop.example:80" = true.
Proof.
  apply (proj2 (proj1 (same_origin "https://Shop.example/cart" "shop.example" (mkURL "https" "Shop.example" "") "80"
    ltac:(discriminate) ltac:(discriminate) ltac:(discriminate) eq_refl eq_refl))).
  split; by vm_compute.
Defined.
