(* ===== verification/Migrations.v ===== *)
(** * Versioned migrations (db/migrations.go)

    [NewMigrator] reads the files of a directory, [Up] applies the pending ones in order,
    [Down] rolls the last one back.  The database is its schema, on which a statement acts
    ([exec], a parameter, [None] when it fails), and the rows of [schema_migrations].  A
    transaction works on a copy that replaces the database when it commits; [begin_ok] and
    [commit_ok] say whether the database accepts to begin and to commit the transaction of
    a version.  [sum] is the hexadecimal SHA-256 of a file. *)

From Stdlib Require Import Ascii String Sorting.Sorted.
From stdpp Require Import pretty.
From S2P Require Import Prelude GoStrings SqlModel.
#[local] Open Scope list_scope.
#[local] Open Scope Z_scope.

Record Migration : Type := mkMigration { Version : Z; Name : string; SQL : string; Checksum : string }.
Record MigrationStatus : Type := mkStatus { st_Migration : Migration; Applied : bool; Modified : bool }.

Definition newline : ascii := "010".
Definition digit (c : ascii) : bool := byte_le "0" c "9".

(** [atoi]: [int] arithmetic *)
Fixpoint atoi_loop (n : Z) (s : string) : Z :=
  match s with
  | EmptyString => n
  | String c s => if negb (digit c) then n else atoi_loop (wrap64 (n * 10 + Z.of_N (N_of_ascii c - 48))) s
  end.
Definition atoi (s : string) : Z := atoi_loop 0 s.

Fixpoint digits_prefix (s : string) : string * string :=
  match s with
  | String c s' => if digit c then let '(a, b) := digits_prefix s' in (String c a, b) else ("", s)
  | EmptyString => ("", "")
  end.

(** [migrationFileRe.FindStringSubmatch]: digits, an underscore or a dash, a name, ".sql" *)
Definition migrationFileRe (name : string) : option (string * string) :=
  match digits_prefix name with
  | (EmptyString, _) => None
  | (ds, String c rest) =>
      if (Ascii.eqb c "_" || Ascii.eqb c "-") && HasSuffix rest ".sql" then
        let m2 := TrimSuffix rest ".sql" in
        if negb (String.eqb m2 "") && str_all (fun c => negb (Ascii.eqb c newline)) m2 then Some (ds, m2) else None
      else None
  | (_, EmptyString) => None
  end.

(** A directory entry: its name, whether it is a directory, its content if it can be read. *)
Record dirEntry : Type := mkEntry { e_Name : string; e_IsDir : bool; e_content : option string }.

Inductive mig_error := ErrDuplicate (version : Z) | ErrRead (name : string).

Section migrator.
Context (sum : string -> string).

Fixpoint load_loop (entries : list dirEntry) (seen : gmap Z string) (migrations : list Migration) : list Migration + mig_error :=
  match entries with
  | [] => inl migrations
  | e :: entries =>
      if e_IsDir e then load_loop entries seen migrations
      else match migrationFileRe (e_Name e) with
           | None => load_loop entries seen migrations
           | Some (m1, m2) =>
               if HasSuffix m2 ".down" then load_loop entries seen migrations
               else
                 let version := atoi m1 in
                 match seen !! version with
                 | Some _ => inr (ErrDuplicate version)
                 | None =>
                     match e_content e with
                     | None => inr (ErrRead (e_Name e))
                     | Some raw => load_loop entries (<[version := e_Name e]> seen) (migrations ++ [mkMigration version m2 raw (sum raw)])
                     end
                 end
           end
  end.

(** [sort.Slice] by version *)
Fixpoint insert_migration (m : Migration) (l : list Migration) : list Migration :=
  match l with [] => [m] | m' :: l => if Version m <=? Version m' then m :: m' :: l else m' :: insert_migration m l end.
Definition sort_migrations (l : list Migration) : list Migration := foldr insert_migration [] l.

Definition NewMigrator (entries : list dirEntry) : list Migration + mig_error :=
  match load_loop entries ∅ [] with inl ms => inl (sort_migrations ms) | inr e => inr e end.

(** ** Statements *)

(** The loop of [splitStatements]; [b] is the builder. *)
Fixpoint split_loop (lines : list string) (b : string) : list string :=
  match lines with
  | [] => let stmt := TrimSpace b in if String.eqb stmt "" then [] else [stmt]
  | line :: lines =>
      let trimmed := TrimSpace line in
      if String.eqb trimmed "" || HasPrefix trimmed "--" then split_loop lines b
      else
        let b := b +++ line +++ String newline "" in
        if HasSuffix trimmed ";" then
          let stmt := TrimSpace (TrimSuffix (TrimSpace b) ";") in
          (if String.eqb stmt "" then [] else [stmt]) ++ split_loop lines ""
        else split_loop lines b
  end.

Definition splitStatements (sqlText : string) : list string := split_loop (Split sqlText newline) "".

(** ** Up and Down *)

Context {D : Type} (exec : string -> D -> option D) (begin_ok commit_ok : Z -> bool).

(** The schema and the control table: version, name and checksum. *)
Record database : Type := mkDatabase { schema : D; control : gmap Z (string * string) }.

Inductive up_error := ErrModified (m : Migration) | ErrApply (m : Migration).

Fixpoint exec_all (stmts : list string) (d : D) : option D :=
  match stmts with [] => Some d | s :: stmts => d' ← exec s d; exec_all stmts d' end.

(** Inside one transaction: the statements, then the row of the control table, whose version
    is a primary key.  A transaction that fails leaves nothing behind: this holds of databases
    whose schema changes are part of the transaction (PostgreSQL, SQLite); MySQL commits them
    one by one. *)
Definition applyOne (m : Migration) (db : database) : option database :=
  if negb (begin_ok (Version m)) then None
  else
    d ← exec_all (splitStatements (SQL m)) (schema db);
    match control db !! Version m with
    | Some _ => None
    | None => if commit_ok (Version m) then Some (mkDatabase d (<[Version m := (Name m, Checksum m)]> (control db))) else None
    end.

(** The loop of [Up]: [applied] was read before it. *)
Fixpoint up_loop (applied : gmap Z (string * string)) (ms : list Migration) (db : database) (done_ : list Z) : list Z * option up_error * database :=
  match ms with
  | [] => (done_, None, db)
  | m :: ms =>
      match applied !! Version m with
      | Some (_, sum) => if negb (String.eqb sum (Checksum m)) then (done_, Some (ErrModified m), db) else up_loop applied ms db done_
      | None =>
          match applyOne m db with
          | None => (done_, Some (ErrApply m), db)
          | Some db' => up_loop applied ms db' (done_ ++ [Version m])
          end
      end
  end.

Definition Up (ms : list Migration) (db : database) : list Z * option up_error * database := up_loop (control db) ms db [].

Definition Status (ms : list Migration) (db : database) : list MigrationStatus :=
  (fun m => match control db !! Version m with
            | Some (_, sum) => mkStatus m true (negb (String.eqb sum (Checksum m)))
            | None => mkStatus m false false
            end) <$> ms.

(** [%0*d] with a width of 4, for a version that is not negative *)
Definition pad4 (v : Z) : string :=
  let s := pretty (Z.to_N v) in
  match (4 - String.length s)%nat with 0%nat => s | 1%nat => "0" +++ s | 2%nat => "00" +++ s | 3%nat => "000" +++ s | _ => "0000" +++ s end.

Definition downName (m : Migration) : string := pad4 (Version m) +++ "_" +++ Name m +++ ".down.sql".

Inductive down_result := NothingApplied | NoDownFile (name : string) | DownFailed | RolledBack (version : Z).

(** The last of the migrations that is applied. *)
Definition last_applied (ms : list Migration) (db : database) : option Migration :=
  last (filter (fun m => is_Some (control db !! Version m)) ms).

Definition Down (files : string -> option string) (ms : list Migration) (db : database) : down_result * database :=
  match last_applied ms db with
  | None => (NothingApplied, db)
  | Some m =>
      match files (downName m) with
      | None => (NoDownFile (downName m), db)
      | Some raw =>
          if negb (begin_ok (Version m)) then (DownFailed, db)
          else match exec_all (splitStatements raw) (schema db) with
               | None => (DownFailed, db)
               | Some d => if commit_ok (Version m) then (RolledBack (Version m), mkDatabase d (delete (Version m) (control db))) else (DownFailed, db)
               end
      end
  end.

(** ** Loading *)

Definition version_lt (m m' : Migration) : Prop := Version m < Version m'.

Lemma load_loop_distinct entries seen ms ms' :
  load_loop entries seen ms = inl ms' -> NoDup (Version <$> ms) -> (forall v, v ∈ Version <$> ms -> is_Some (seen !! v)) -> NoDup (Version <$> ms').
Proof using.
  revert seen ms. induction entries as [|e entries IH]; intros seen ms; cbn [load_loop]; [by intros [= <-]|].
  destruct (e_IsDir e); [apply IH|]. destruct (migrationFileRe (e_Name e)) as [[m1 m2]|]; [|apply IH]. destruct (HasSuffix m2 ".down"); [apply IH|].
  destruct (seen !! atoi m1) eqn:E; [done|]. destruct (e_content e) as [raw|]; [|done]. intros H Hd Hs. apply (IH _ _ H).
  - rewrite fmap_app. apply NoDup_app. split_and!; [done| |apply NoDup_singleton]. intros v Hv Hv2. apply list_elem_of_singleton in Hv2 as ->. cbn in Hv. apply Hs in Hv as [? Hv]. congruence.
  - intros v. rewrite fmap_app, elem_of_app. intros [Hv|Hv].
    + destruct (decide (v = atoi m1)) as [->|]; [rewrite lookup_insert_eq; eauto|]. rewrite lookup_insert_ne by done. by apply Hs.
    + apply list_elem_of_singleton in Hv as ->. cbn. rewrite lookup_insert_eq. eauto.
Qed.

Lemma insert_migration_perm m l : insert_migration m l ≡ₚ m :: l.
Proof using. induction l as [|m' l IH]; cbn; [done|]. destruct (_ <=? _); [done|]. rewrite IH. constructor. Qed.

Lemma sort_migrations_perm l : sort_migrations l ≡ₚ l.
Proof using. induction l as [|m l IH]; cbn; [done|]. by rewrite insert_migration_perm, IH. Qed.

Lemma sort_migrations_sorted l : NoDup (Version <$> l) -> StronglySorted version_lt (sort_migrations l).
Proof using.
  induction l as [|m l IH]; cbn [fmap list_fmap sort_migrations foldr]; [constructor|]. rewrite NoDup_cons. intros [Hm Hd]. specialize (IH Hd).
  change (foldr insert_migration [] l) with (sort_migrations l).
  assert (Hne : forall m', m' ∈ sort_migrations l -> Version m' <> Version m).
  { intros m' Hm' E. apply Hm. rewrite <- E. apply list_elem_of_fmap_2. by rewrite <- (sort_migrations_perm l). }
  clear Hm Hd. induction IH as [|m' l' Hl IHl Hm']; cbn [insert_migration]; [repeat constructor|].
  assert (Hmm := Hne m' ltac:(by left)). destruct (Z.leb_spec (Version m) (Version m')).
  - constructor; [by constructor|]. constructor; [unfold version_lt; lia|]. eapply Forall_impl; [exact Hm'|]. unfold version_lt. intros x Hx. lia.
  - constructor; [apply IHl; intros x Hx; apply Hne; by right|]. rewrite insert_migration_perm. constructor; [unfold version_lt; lia|done].
Qed.

(** The migrations of a directory are in strictly increasing order of version. *)
Lemma NewMigrator_sorted entries ms : NewMigrator entries = inl ms -> StronglySorted version_lt ms.
Proof using.
  unfold NewMigrator. destruct (load_loop entries ∅ []) as [ms0|] eqn:E; [|done]. intros [= <-]. apply sort_migrations_sorted.
  eapply load_loop_distinct; [exact E|constructor|]. intros v Hv. by apply elem_of_nil in Hv.
Qed.

(** ** Applying *)

Definition pending (applied : gmap Z (string * string)) (ms : list Migration) : list Migration := filter (fun m => applied !! Version m = None) ms.
Definition record (m : Migration) : Z * (string * string) := (Version m, (Name m, Checksum m)).

Lemma exec_all_app s1 s2 d : exec_all (s1 ++ s2) d = exec_all s1 d ≫= exec_all s2.
Proof using. revert d. induction s1 as [|s s1 IH]; intros d; cbn; [done|]. destruct (exec s d); cbn; auto. Qed.

(** The database after the migrations [pre] were gone through, [done_] being the new ones. *)
Record up_inv (db : database) (pre : list Migration) (done_ : list Z) (db' : database) : Prop := mk_up_inv {
  up_done : done_ = Version <$> pending (control db) pre;
  up_schema : exec_all (pending (control db) pre ≫= (fun m => splitStatements (SQL m))) (schema db) = Some (schema db');
  up_control : control db' = list_to_map (record <$> pending (control db) pre) ∪ control db;
  up_recorded : Forall (fun m => exists n, control db' !! Version m = Some (n, Checksum m)) pre
}.

(** Why [Up] stops before [rest]. *)
Definition up_stop (db db' : database) (rest : list Migration) (err : option up_error) : Prop :=
  match err with
  | None => rest = []
  | Some (ErrModified m) => head rest = Some m /\ exists n s, control db !! Version m = Some (n, s) /\ s <> Checksum m
  | Some (ErrApply m) => head rest = Some m /\ control db !! Version m = None /\ applyOne m db' = None
  end.

Lemma applyOne_inv m db db' : applyOne m db = Some db' ->
  exec_all (splitStatements (SQL m)) (schema db) = Some (schema db') /\ control db !! Version m = None /\ control db' = <[Version m := (Name m, Checksum m)]> (control db).
Proof using.
  unfold applyOne. destruct (begin_ok _); [|done]. cbn [negb]. destruct (exec_all _ _) as [d|]; [|done]. cbn. destruct (control db !! Version m); [done|].
  destruct (commit_ok _); [|done]. intros [= <-]. done.
Qed.

Lemma pending_snoc a ms m : pending a (ms ++ [m]) = pending a ms ++ (if decide (a !! Version m = None) then [m] else []).
Proof using. unfold pending. by rewrite filter_app. Qed.

Lemma record_not_in (m : Migration) ms : Version m ∉ Version <$> ms -> (list_to_map (record <$> ms) : gmap Z (string * string)) !! Version m = None.
Proof using.
  intros H. apply not_elem_of_list_to_map_1. intros Hin. apply H. apply list_elem_of_fmap in Hin as ([v x] & -> & Hv).
  apply list_elem_of_fmap in Hv as (m' & [= -> ->] & Hm'). cbn [fst]. by apply (list_elem_of_fmap_2 Version).
Qed.

(** One migration more, applied before. *)
Lemma up_inv_skip db pre done_ db' m n : up_inv db pre done_ db' -> control db !! Version m = Some (n, Checksum m) -> Version m ∉ Version <$> pre -> up_inv db (pre ++ [m]) done_ db'.
Proof using.
  intros [H1 H2 H3 H4] Hm Hn. constructor; rewrite ?pending_snoc, ?decide_False, ?app_nil_r by congruence; try done.
  apply Forall_app. split; [done|]. apply Forall_singleton. exists n. rewrite H3, lookup_union_r; [done|]. apply record_not_in.
  intros Hin. apply Hn. apply list_elem_of_fmap in Hin as (x & -> & Hx). apply list_elem_of_filter in Hx as [_ Hx]. by apply list_elem_of_fmap_2.
Qed.

(** One migration more, applied now. *)
Lemma up_inv_apply db pre done_ db' m db'' : up_inv db pre done_ db' -> control db !! Version m = None -> applyOne m db' = Some db'' -> Version m ∉ Version <$> pre ->
  up_inv db (pre ++ [m]) (done_ ++ [Version m]) db''.
Proof using.
  intros [H1 H2 H3 H4] Hm (E1 & E2 & E3)%applyOne_inv Hn. constructor; rewrite ?pending_snoc, ?decide_True by done.
  - by rewrite fmap_app, H1.
  - rewrite bind_app, exec_all_app, H2. cbn. by rewrite app_nil_r.
  - rewrite fmap_app, list_to_map_app, E3, H3. cbn. rewrite insert_union_l. f_equal. apply map_eq. intros k. rewrite lookup_union.
    destruct (decide (k = Version m)) as [->|Hk].
    + rewrite !lookup_insert_eq. rewrite record_not_in; [done|]. intros Hin. apply Hn. apply list_elem_of_fmap in Hin as (x & -> & Hx).
      apply list_elem_of_filter in Hx as [_ Hx]. by apply list_elem_of_fmap_2.
    + rewrite !lookup_insert_ne by done. rewrite lookup_empty. by destruct (list_to_map _ !! k).
  - apply Forall_app. split; [|apply Forall_singleton; rewrite E3, lookup_insert_eq; eauto]. rewrite Forall_forall in H4 |- *.
    intros x Hx. destruct (H4 x Hx) as [n Hxn]. exists n. rewrite E3, lookup_insert_ne; [done|]. intros E. apply Hn. rewrite E. by apply list_elem_of_fmap_2.
Qed.

Lemma up_loop_spec ms db0 db done_ pre out err db' :
  NoDup (Version <$> pre ++ ms) -> up_inv db0 pre done_ db -> up_loop (control db0) ms db done_ = (out, err, db') ->
  exists pre' rest, pre ++ ms = pre' ++ rest /\ up_inv db0 pre' out db' /\ up_stop db0 db' rest err.
Proof using.
  revert db done_ pre. induction ms as [|m ms IH]; intros db done_ pre Hd Hi; cbn [up_loop]; [intros [= <- <- <-]; exists pre, []; done|].
  assert (Hn : Version m ∉ Version <$> pre) by (rewrite fmap_app in Hd; apply NoDup_app in Hd as (_ & H & _); intros Hin; apply (H _ Hin); by left).
  assert (Hd' : NoDup (Version <$> (pre ++ [m]) ++ ms)) by (by rewrite <- (assoc_L app)).
  destruct (control db0 !! Version m) as [[n s]|] eqn:E.
  - destruct (String.eqb_spec s (Checksum m)) as [->|Hs]; cbn [negb].
    + intros H. destruct (IH db done_ (pre ++ [m]) Hd' ltac:(by eapply up_inv_skip) H) as (p & r & Hp & ?). exists p, r. split; [|done]. by rewrite <- Hp, <- (assoc_L app).
    + intros [= <- <- <-]. exists pre, (m :: ms). split_and!; [done|done|]. cbn. split; [done|]. eauto.
  - destruct (applyOne m db) as [db1|] eqn:Ea.
    + intros H. destruct (IH db1 (done_ ++ [Version m]) (pre ++ [m]) Hd' ltac:(by eapply up_inv_apply) H) as (p & r & Hp & ?). exists p, r. split; [|done]. by rewrite <- Hp, <- (assoc_L app).
    + intros [= <- <- <-]. by exists pre, (m :: ms).
Qed.

Lemma sorted_NoDup ms : StronglySorted version_lt ms -> NoDup (Version <$> ms).
Proof using.
  induction 1 as [|m ms _ IH Hm]; cbn; [constructor|]. constructor; [|done]. intros Hin. apply list_elem_of_fmap in Hin as (m' & E & Hm').
  rewrite Forall_forall in Hm. specialize (Hm m' Hm'). unfold version_lt in Hm. lia.
Qed.

Lemma up_loop_idle applied ms db done_ : Forall (fun m => exists n, applied !! Version m = Some (n, Checksum m)) ms -> up_loop applied ms db done_ = (done_, None, db).
Proof using. induction 1 as [|m ms [n Hm] _ IH]; cbn; [done|]. by rewrite Hm, String.eqb_refl. Qed.

(** C23: [Up] applies exactly the pending migrations, in order, each with its record, and
    stops before the first one that was modified or fails, leaving no trace of it; after a
    run without error every migration is recorded and a second run does nothing. *)
Theorem Up_applies_pending (entries : list dirEntry) (ms : list Migration) (db db' : database) (out : list Z) (err : option up_error) :
  NewMigrator entries = inl ms -> Up ms db = (out, err, db') ->
  exists pre rest, ms = pre ++ rest /\ up_inv db pre out db' /\ up_stop db db' rest err /\ (err = None -> Up ms db' = ([], None, db')).
Proof using.
  intros Hm%NewMigrator_sorted Hu. destruct (up_loop_spec ms db db [] [] out err db') as (pre & rest & Hp & Hi & Hs).
  - by apply sorted_NoDup.
  - constructor; cbn; [done|done|by rewrite (left_id_L ∅ (∪))|constructor].
  - exact Hu.
  - exists pre, rest. split_and!; [done|done|done|]. intros ->. cbn in Hs. subst rest. rewrite app_nil_r in Hp. cbn in Hp. subst pre. apply up_loop_idle, Hi.
Qed.

(** Rolling back undoes the last migration: when its down file undoes its statements,
    [Down] after [Up] gives the database before. *)
Theorem Down_undoes_Up (files : string -> option string) (ms : list Migration) (m : Migration) (raw : string) (db db' : database) :
  (forall v, begin_ok v = true) -> (forall v, commit_ok v = true) ->
  Forall (fun m => exists n, control db !! Version m = Some (n, Checksum m)) ms -> control db !! Version m = None ->
  files (downName m) = Some raw ->
  (forall d d', exec_all (splitStatements (SQL m)) d = Some d' -> exec_all (splitStatements raw) d' = Some d) ->
  Up (ms ++ [m]) db = ([Version m], None, db') -> Down files (ms ++ [m]) db' = (RolledBack (Version m), db).
Proof using.
  intros Hb Hc Hms Hm Hf Hinv Hu. assert (Ha : applyOne m db = Some db').
  { revert Hu. unfold Up. generalize ([] : list Z). induction Hms as [|x ms [n Hx] _ IH]; intros l; cbn.
    - rewrite Hm. destruct (applyOne m db); [|done]. by intros [= _ <-].
    - rewrite Hx, String.eqb_refl. apply IH. }
  apply applyOne_inv in Ha as (E1 & E2 & E3). unfold Down, last_applied.
  rewrite filter_app. cbn [filter list_filter]. rewrite decide_True by (rewrite E3, lookup_insert_eq; eauto). rewrite last_snoc, Hf, Hb. cbn [negb].
  rewrite (Hinv _ _ E1), Hc. f_equal. destruct db as [d c]. cbn in *. by rewrite E3, delete_insert_id by done.
Qed.
End migrator.

(** ** Splitting a file *)

(** A migration file: lines that are dropped, and statements over one or more lines. *)
Inductive chunk := Noise (line : string) | Stmt (lines : list string) (lst : string).

Definition no_newline (s : string) : bool := str_all (fun c => negb (Ascii.eqb c newline)) s.
Definition noise_ok (l : string) : bool := no_newline l && (String.eqb (TrimSpace l) "" || HasPrefix (TrimSpace l) "--").

(** A line of a statement: no comment, no outer spaces, no final semicolon. *)
Definition line_ok (l : string) : bool :=
  match l with EmptyString => false | String c _ => negb (space_byte c) end
  && String.eqb (trim_end l) l && no_newline l && negb (HasPrefix l "--") && negb (HasSuffix l ";").

Definition nl : string := String newline "".
Definition print_lines (ls : list string) : string := foldr (fun l s => l +++ nl +++ s) "" ls.
Definition chunk_lines (c : chunk) : list string := match c with Noise l => [l] | Stmt ls lst => ls ++ [lst +++ ";"] end.
Definition print_file (cs : list chunk) : string := print_lines (cs ≫= chunk_lines).
Definition chunk_ok (c : chunk) : bool := match c with Noise l => noise_ok l | Stmt ls lst => forallb line_ok ls && line_ok lst end.
Definition chunk_stmts (c : chunk) : list string := match c with Noise _ => [] | Stmt ls lst => [Join (ls ++ [lst]) nl] end.

Lemma trim_end_app a b : trim_end b <> "" -> trim_end (a +++ b) = a +++ trim_end b.
Proof.
  intros Hb. induction a as [|c a IH]; [by rewrite !str_app_nil_l|]. rewrite !str_app_cons. cbn [trim_end]. rewrite IH.
  destruct (a +++ trim_end b) eqn:E; [|done]. destruct a; [by rewrite str_app_nil_l in E|by rewrite str_app_cons in E].
Qed.

Lemma trim_end_nl s : trim_end (s +++ nl) = trim_end s.
Proof. induction s as [|c s IH]; [done|]. rewrite str_app_cons. cbn [trim_end]. by rewrite IH. Qed.

Lemma TrimSpace_fixed s : match s with EmptyString => false | String c _ => negb (space_byte c) end = true -> TrimSpace s = trim_end s.
Proof. destruct s as [|c s]; [done|]. unfold TrimSpace. cbn [trim_left]. by destruct (space_byte c). Qed.

Lemma HasPrefix_dash_app a : a <> "" -> HasPrefix (a +++ ";") "--" = HasPrefix a "--".
Proof.
  destruct a as [|c [|d a]]; [done|..]; intros _; rewrite !str_app_cons; unfold HasPrefix; cbn [String.prefix].
  - rewrite str_app_nil_l. cbn. by destruct (ascii_dec "-" c).
  - destruct (ascii_dec "-" c); [|done]. destruct (ascii_dec "-" d); [|done]. destruct a; [done|]. by rewrite str_app_cons.
Qed.

Lemma line_ok_inv l : line_ok l = true ->
  (exists c l', l = String c l' /\ space_byte c = false) /\ trim_end l = l /\ no_newline l = true /\ HasPrefix l "--" = false /\ HasSuffix l ";" = false.
Proof.
  unfold line_ok. destruct l as [|c l]; [done|]. rewrite !andb_true_iff, !negb_true_iff, String.eqb_eq. intros ((((? & ?) & ?) & ?) & ?). eauto 10.
Qed.

Lemma no_newline_app a b : no_newline (a +++ b) = no_newline a && no_newline b.
Proof. unfold no_newline. induction a as [|c a IH]; [done|]. rewrite str_app_cons. cbn. by rewrite IH, andb_assoc. Qed.

Lemma Split_lines ls : forallb no_newline ls = true -> Split (print_lines ls) newline = ls ++ [""].
Proof.
  induction ls as [|l ls IH]; cbn [forallb print_lines foldr]; [done|]. intros [Hl Hls]%andb_true_iff. rewrite Split_SplitN2.
  change (nl +++ foldr (fun l s => l +++ nl +++ s) "" ls) with (String newline (print_lines ls)). rewrite SplitN2_app by exact Hl. cbn [app]. by rewrite IH.
Qed.

Lemma split_stmt_lines ls rest b : forallb line_ok ls = true -> split_loop (ls ++ rest) b = split_loop rest (b +++ print_lines ls).
Proof.
  revert b. induction ls as [|l ls IH]; intros b; cbn [forallb print_lines foldr app]; [by rewrite str_app_nil_r|]. intros [Hl Hls]%andb_true_iff.
  apply line_ok_inv in Hl as ((c & l' & -> & Hc) & Ht & _ & Hp & Hs). cbn [split_loop].
  rewrite TrimSpace_fixed, Ht by (by rewrite Hc). rewrite Hp, Hs. cbn [String.eqb orb]. rewrite IH by done. by rewrite !str_app_assoc.
Qed.

Lemma print_lines_Join ls lst x : print_lines ls +++ lst +++ x = Join (ls ++ [lst]) nl +++ x.
Proof.
  induction ls as [|l ls IH]; [done|]. cbn [print_lines foldr app]. change (foldr (fun l s => l +++ nl +++ s) "" ls) with (print_lines ls).
  rewrite !str_app_assoc, IH. destruct (ls ++ [lst]) as [|y ys] eqn:E; [by destruct ls|]. cbn [Join]. by rewrite !str_app_assoc.
Qed.

Lemma split_stmt ls lst rest : forallb line_ok ls = true -> line_ok lst = true ->
  split_loop (ls ++ (lst +++ ";") :: rest) "" = Join (ls ++ [lst]) nl :: split_loop rest "".
Proof.
  intros Hls Hl. rewrite split_stmt_lines, str_app_nil_l by done. assert (Hok := Hl). apply line_ok_inv in Hl as ((c & l' & El & Hc) & Ht & _ & Hp & _). cbn [split_loop].
  assert (Hns : match lst +++ ";" with EmptyString => false | String c _ => negb (space_byte c) end = true) by (rewrite El, str_app_cons; by rewrite Hc).
  rewrite TrimSpace_fixed, trim_end_app by done. change (trim_end ";") with ";". rewrite HasPrefix_dash_app, Hp by (by rewrite El).
  assert (String.eqb (lst +++ ";") "" = false) as -> by (by rewrite El). cbn [orb]. rewrite HasSuffix_app.
  rewrite (str_app_assoc lst), (print_lines_Join ls lst). set (X := Join (ls ++ [lst]) nl).
  assert (HX : (exists c X', X = String c X' /\ space_byte c = false) /\ trim_end X = X).
  { unfold X. clear -Hls Ht Hok. apply line_ok_inv in Hok as ((c & l' & -> & Hc) & _). destruct ls as [|l ls]; [by eauto|]. split.
    - cbn [forallb] in Hls. apply andb_true_iff in Hls as [Hl _]. apply line_ok_inv in Hl as ((c2 & l2 & -> & Hc2) & _).
      cbn [app Join]. destruct (ls ++ _) eqn:E; [by destruct ls|]. rewrite str_app_cons. eauto.
    - assert (E : Join ((l :: ls) ++ [String c l']) nl = print_lines (l :: ls) +++ String c l') by (by rewrite <- (str_app_nil_r (Join _ _)), <- print_lines_Join, str_app_nil_r).
      rewrite E, trim_end_app, Ht; [done|]. by rewrite Ht. }
  destruct HX as [(c2 & X' & EX & Hc2) HX].
  assert (E1 : TrimSpace (X +++ ";" +++ String newline "") = X +++ ";").
  { rewrite TrimSpace_fixed by (rewrite EX, str_app_cons; by rewrite Hc2). rewrite <- (str_app_assoc X). change (String newline "") with nl.
    rewrite trim_end_nl, trim_end_app by done. done. }
  rewrite E1, TrimSuffix_app. rewrite TrimSpace_fixed, HX by (rewrite EX; by rewrite Hc2). by rewrite EX.
Qed.

(** Splitting a migration file gives back its statements: whatever blank and comment
    lines are between them, and over however many lines each one runs. *)
Theorem splitStatements_print (cs : list chunk) :
  forallb chunk_ok cs = true -> splitStatements (print_file cs) = cs ≫= chunk_stmts.
Proof.
  intros Hok. unfold splitStatements, print_file. rewrite Split_lines.
  - induction cs as [|c cs IH]; [done|]. cbn [forallb] in Hok. apply andb_true_iff in Hok as [Hc Hcs]. specialize (IH Hcs). rewrite !bind_cons, <- (assoc_L app).
    destruct c as [l|ls lst]; cbn [chunk_ok chunk_lines chunk_stmts app] in *.
    + apply andb_true_iff in Hc as [_ Hc]. cbn [split_loop]. by rewrite Hc.
    + apply andb_true_iff in Hc as [H1 H2]. rewrite <- (assoc_L app). cbn [app]. rewrite split_stmt by done. by rewrite IH.
  - induction cs as [|c cs IH]; [done|]. cbn [forallb] in Hok. apply andb_true_iff in Hok as [Hc Hcs]. rewrite bind_cons, forallb_app, IH by done.
    rewrite andb_true_r. destruct c as [l|ls lst]; cbn [chunk_ok chunk_lines] in *.
    + apply andb_true_iff in Hc as [Hc _]. cbn. by rewrite Hc.
    + apply andb_true_iff in Hc as [H1 H2]. rewrite forallb_app. cbn. apply line_ok_inv in H2 as (_ & _ & H2 & _). rewrite no_newline_app, H2. cbn. rewrite andb_true_r.
      apply forallb_forall. intros l Hl. rewrite forallb_forall in H1. specialize (H1 l Hl). apply line_ok_inv in H1 as (_ & _ & H1 & _). exact H1.
Qed.

Lemma splitStatements_print_witness :
  splitStatements (print_file [Noise "-- users"; Stmt ["CREATE TABLE users ("; "id INTEGER"] ")"; Noise "  "; Stmt [] "CREATE INDEX i ON users (id)"]) =
  ["CREATE TABLE users (" +++ nl +++ "id INTEGER" +++ nl +++ ")"; "CREATE INDEX i ON users (id)"].
Proof. rewrite splitStatements_print; reflexivity. Defined.

(** ** Two migrations on a toy database *)

(** The schema is the list of statements run; [undo] removes the last one. *)
Definition demo_exec (s : string) (d : list string) : option (list string) :=
  if String.eqb s "undo" then match d with [] => None | _ :: d => Some d end
  else if String.eqb s "bad" then None else Some (s :: d).

Definition demo_dir : list dirEntry :=
  [mkEntry "0001_init.sql" false (Some "create a;"); mkEntry "0002_more.down.sql" false (Some "undo;"); mkEntry "0002_more.sql" false (Some "create b;"); mkEntry "notes.txt" false None].
Definition demo_migrations : list Migration := [mkMigration 1 "init" "create a;" "create a;"; mkMigration 2 "more" "create b;" "create b;"].
Definition demo_db : database (D:=list string) := mkDatabase ["create a"] {[1 := ("init", "create a;")]}.
Definition demo_db' : database (D:=list string) := mkDatabase ["create b"; "create a"] {[1 := ("init", "create a;"); 2 := ("more", "create b;")]}.

Lemma Up_applies_pending_witness :
  exists pre rest, demo_migrations = pre ++ rest /\ up_inv demo_exec demo_db pre [2] demo_db' /\
    up_stop demo_exec (fun _ => true) (fun _ => true) demo_db demo_db' rest None /\ Up demo_exec (fun _ => true) (fun _ => true) demo_migrations demo_db' = ([], None, demo_db').
Proof.
  destruct (Up_applies_pending (fun s => s) demo_exec (fun _ => true) (fun _ => true) demo_dir demo_migrations demo_db demo_db' [2] None) as (pre & rest & H1 & H2 & H3 & H4);
    [vm_compute; reflexivity|vm_compute; reflexivity|]. exists pre, rest. exact (conj H1 (conj H2 (conj H3 (H4 eq_refl)))).
Defined.

Lemma Down_undoes_Up_witness :
  Down demo_exec (fun _ => true) (fun _ => true) (fun n => if String.eqb n "0002_more.down.sql" then Some "undo;" else None) demo_migrations demo_db' = (RolledBack 2, demo_db).
Proof.
  apply (Down_undoes_Up demo_exec (fun _ => true) (fun _ => true) _ [mkMigration 1 "init" "create a;" "create a;"] (mkMigration 2 "more" "create b;" "create b;") "undo;" demo_db demo_db').
  - reflexivity.
  - reflexivity.
  - repeat constructor. exists "init". reflexivity.
  - reflexivity.
  - reflexivity.
  - intros d d'. cbn. intros [= <-]. reflexivity.
  - vm_compute. reflexivity.
Defined.

(** The down file is looked up under a four-digit version and an underscore: the companion
    of a migration named otherwise is not found, although the migration is loaded. *)
Example down_name_is_fixed :
  NewMigrator (fun s => s) [mkEntry "3-add.sql" false (Some "x;"); mkEntry "3-add.down.sql" false (Some "y;")] = inl [mkMigration 3 "add" "x;" "x;"] /\
  downName (mkMigration 3 "add" "x;" "x;") = "0003_add.down.sql".
Proof. split; vm_compute; reflexivity. Qed.
