(* ===== verification/SqlTable.v ===== *)
(** * Tables (db/table.go, db/pagination.go)

    The operations of [Table] build SQL text and run it on a connection pool.  The database
    is not part of the sources: an operation is a [prog], which asks the database to run a
    text with arguments and goes on with what it replies.  [sql] is the syntax of the
    statements these operations are meant to send, [render] prints one and [eval] is what
    SQL says it does on a table; a database that [understands] a statement answers its text
    accordingly.  A Go map is a [gmap] together with the order [range] iterates it in.  An
    entity is the map from the names of its struct's fields to their values. *)

From Stdlib Require Import Ascii String Sorting.Sorted.
From stdpp Require Import pretty.
From S2P Require Import Prelude GoStrings GoStrconv SqlModel.
#[local] Open Scope list_scope.
#[local] Open Scope Z_scope.

(** ** Values, statements, and what they mean *)

Inductive value := VNull | VBool (b : bool) | VInt (z : Z) | VText (s : string).

#[export] Instance value_eq_dec : EqDecision value.
Proof. solve_decision. Defined.

(** [reflect.Value.IsZero] *)
Definition IsZero (v : value) : bool :=
  match v with VNull => true | VBool b => negb b | VInt z => z =? 0 | VText s => String.eqb s "" end.

Notation row := (gmap string value).
Notation entity := (gmap string value).

Inductive cmp := Eq | Gt.
Inductive lim := NoLim | Lit (n : Z) | Param.

Inductive sql :=
| SSelect (cols : list string) (tbl : string) (conds : list (string * cmp)) (order : list string) (limit offset : lim)
| SCount (tbl : string) (conds : list (string * cmp))
| SInsert (tbl : string) (cols returning : list string)
| SUpdate (tbl : string) (sets : list string) (conds : list (string * cmp)) (returning : list string)
| SDelete (tbl : string) (conds : list (string * cmp)).

Definition cmp_text (op : cmp) : string := match op with Eq => " = $" | Gt => " > $" end.

(** Parameters are numbered in the order they appear; [n] is the next one. *)
Fixpoint conds_text (first : bool) (n : nat) (cs : list (string * cmp)) : string :=
  match cs with
  | [] => ""
  | (c, op) :: cs => (if first then " WHERE " else " AND ") +++ c +++ cmp_text op +++ pretty n +++ conds_text false (S n) cs
  end.

Fixpoint sets_text (n : nat) (cols : list string) : list string :=
  match cols with [] => [] | c :: cols => (c +++ " = $" +++ pretty n) :: sets_text (S n) cols end.

Definition lim_text (keyword : string) (n : nat) (l : lim) : string :=
  match l with NoLim => "" | Lit z => keyword +++ pretty z | Param => keyword +++ "$" +++ pretty n end.

Definition placeholders (n : nat) : list string := (fun i : nat => "$" +++ pretty i) <$> seq 1 n.

Definition render (s : sql) : string :=
  match s with
  | SSelect cols tbl conds order limit offset =>
      let n := S (length conds) in
      "SELECT " +++ Join cols ", " +++ " FROM " +++ tbl +++ conds_text true 1 conds
      +++ (match order with [] => "" | _ => " ORDER BY " +++ Join order ", " end)
      +++ lim_text " LIMIT " n limit +++ lim_text " OFFSET " (match limit with Param => S n | _ => n end) offset
  | SCount tbl conds => "SELECT COUNT(" +++ "*) FROM " +++ tbl +++ conds_text true 1 conds
  | SInsert tbl cols returning =>
      "INSERT INTO " +++ tbl +++ " (" +++ Join cols ", " +++ ") VALUES (" +++ Join (placeholders (length cols)) ", " +++ ") RETURNING " +++ Join returning ", "
  | SUpdate tbl sets conds returning =>
      "UPDATE " +++ tbl +++ " SET " +++ Join (sets_text 1 sets) ", " +++ conds_text true (S (length sets)) conds +++ " RETURNING " +++ Join returning ", "
  | SDelete tbl conds => "DELETE FROM " +++ tbl +++ conds_text true 1 conds
  end.

(** What the database replies to [Query], [Exec] and [QueryRow(...).Scan(&count)]. *)
Inductive reply := Failed | Rows (l : list row) | Affected (n : Z) | Number (n : Z).

(** [sql_eq] and [sql_lt] compare a column's value with an argument or another column's value;
    [fill] adds the columns an INSERT leaves to their defaults. *)
Section semantics.
Context (sql_eq sql_lt : value -> value -> bool) (fill : row -> row).

Definition col (c : string) (r : row) : value := default VNull (r !! c).

Definition cond_holds (c : string * cmp) (a : value) (r : row) : bool :=
  match c.2 with Eq => sql_eq (col c.1 r) a | Gt => sql_lt a (col c.1 r) end.

Fixpoint conds_hold (cs : list (string * cmp)) (args : list value) (r : row) : bool :=
  match cs, args with
  | c :: cs, a :: args => cond_holds c a r && conds_hold cs args r
  | [], _ => true
  | _ :: _, [] => false
  end.

(** ORDER BY: [r] does not come after [r']; ties keep the order of the table. *)
Fixpoint row_le (order : list string) (r r' : row) : bool :=
  match order with
  | [] => true
  | c :: order => sql_lt (col c r) (col c r') || (negb (sql_lt (col c r') (col c r)) && row_le order r r')
  end.

Fixpoint insert_row (order : list string) (r : row) (l : list row) : list row :=
  match l with [] => [r] | r' :: l => if row_le order r r' then r :: r' :: l else r' :: insert_row order r l end.

Definition sort_rows (order : list string) (l : list row) : list row := foldr (insert_row order) [] l.

Definition project (cols : list string) (r : row) : row := filter (fun kv => kv.1 ∈ cols) r.

Definition arg_number (o : option value) : nat := match o with Some (VInt z) => Z.to_nat z | _ => 0%nat end.

Definition lim_count (l : lim) (a : option value) : option nat :=
  match l with NoLim => None | Lit z => Some (Z.to_nat z) | Param => Some (arg_number a) end.

Definition set_columns (sets : list string) (args : list value) (r : row) : row := list_to_map (zip sets args) ∪ r.

Definition eval (s : sql) (args : list value) (d : list row) : reply * list row :=
  match s with
  | SSelect cols _ conds order limit offset =>
      let l := sort_rows order (filter (fun r => conds_hold conds args r) d) in
      let n := length conds in
      let l := match lim_count offset (args !! (match limit with Param => S n | _ => n end)) with Some k => drop k l | None => l end in
      let l := match lim_count limit (args !! n) with Some k => take k l | None => l end in
      (Rows (project cols <$> l), d)
  | SCount _ conds => (Number (Z.of_nat (length (filter (fun r => conds_hold conds args r) d))), d)
  | SInsert _ cols returning =>
      let r := fill (list_to_map (zip cols args)) in (Rows [project returning r], d ++ [r])
  | SUpdate _ sets conds returning =>
      let upd := fun r => if conds_hold conds (drop (length sets) args) r then set_columns sets args r else r in
      (Rows ((project returning ∘ upd) <$> filter (fun r => conds_hold conds (drop (length sets) args) r) d), upd <$> d)
  | SDelete _ conds =>
      (Affected (Z.of_nat (length (filter (fun r => conds_hold conds args r) d))), filter (fun r => negb (conds_hold conds args r)) d)
  end.

Definition understands (exec : string -> list value -> list row -> reply * list row) (s : sql) : Prop :=
  forall args d, exec (render s) args d = eval s args d.
End semantics.

(** ** Programs that talk to the database *)

Inductive prog (A : Type) : Type :=
| Ret (a : A)
| Ask (query : string) (args : list value) (k : reply -> prog A).
Arguments Ret {A} a.
Arguments Ask {A} query args k.

Fixpoint run {A} (exec : string -> list value -> list row -> reply * list row) (p : prog A) (d : list row) : A * list row :=
  match p with
  | Ret a => (a, d)
  | Ask q args k => let '(r, d') := exec q args d in run exec (k r) d'
  end.

Fixpoint bind {A B} (p : prog A) (f : A -> prog B) : prog B :=
  match p with Ret a => f a | Ask q args k => Ask q args (fun r => bind (k r) f) end.

(** Every statement the program can send, whatever the replies, satisfies [P]. *)
Fixpoint sends {A} (P : string -> list value -> Prop) (p : prog A) : Prop :=
  match p with Ret _ => True | Ask q args k => P q args /\ forall r, sends P (k r) end.

Inductive db_error := ErrNotFound | ErrInvalidColumn (c : string) | ErrNoFields | ErrTooMany | ErrDB (op : string).

(** ** The table *)

Record Table : Type := mkTable { t_info : TableInfo; tableName : string; columns : list string }.

(** The table of a model that parsed. *)
Definition NewTable (info : TableInfo) (name : string) : Table :=
  mkTable info name (Column <$> filter (fun f => negb (Skip f)) (Fields info)).

Definition columnsList (t : Table) : string := Join (columns t) ", ".

Definition validColumn (t : Table) (c : string) : bool := existsb (fun f => String.eqb (Column f) c) (Fields (t_info t)).

Definition defaultListLimit : Z := 1000.

(** [resolveColumn] (and the method [ResolveColumn]) *)
Fixpoint resolve_fields (fs : list FieldInfo) (jsonKey : string) : string :=
  match fs with
  | [] => jsonKey
  | f :: fs =>
      if String.eqb (Tags_json f) "" then (if String.eqb (Column f) jsonKey then Column f else resolve_fields fs jsonKey)
      else if String.eqb (SplitN2 (Tags_json f) ",").1 jsonKey then Column f else resolve_fields fs jsonKey
  end.

Definition resolveColumn (info : TableInfo) (jsonKey : string) : string := resolve_fields (Fields info) jsonKey.

Section table.
(** How Go iterates a map, and pgx's [RowToStructByName]. *)
Context (range : forall V, gmap string V -> list (string * V)) (scan : row -> option entity).
(** [fmt.Sprintf("%v", v)] *)
Context (sprint : value -> string).
Arguments range {V} _.

Definition ResolvePatchColumns {V} (info : TableInfo) (patch : gmap string V) : gmap string V :=
  foldl (fun m kv => <[resolveColumn info kv.1 := kv.2]> m) ∅ (range patch).

(** [pgx.CollectRows] and [pgx.CollectExactlyOneRow] with [RowToStructByName] *)
Definition collect (op : string) (r : reply) : list entity + db_error :=
  match r with Rows l => match mapM scan l with Some es => inl es | None => inr (ErrDB op) end | _ => inr (ErrDB op) end.

(** [notFound] says whether [ErrNoRows] becomes [ErrNotFound]. *)
Definition one (notFound : bool) (op : string) (r : reply) : entity + db_error :=
  match r with
  | Rows [x] => match scan x with Some e => inl e | None => inr (ErrDB op) end
  | Rows [] => inr (if notFound then ErrNotFound else ErrDB op)
  | _ => inr (ErrDB op)
  end.

(** [RowsAffected() == 0] *)
Definition affected (op : string) (r : reply) : option db_error :=
  match r with Affected n => if n =? 0 then Some ErrNotFound else None | _ => Some (ErrDB op) end.

Definition List_ (t : Table) : prog (list entity + db_error) :=
  Ask ("SELECT " +++ columnsList t +++ " FROM " +++ tableName t +++ " ORDER BY " +++ PrimaryKey (t_info t) +++ " LIMIT " +++ pretty defaultListLimit) []
    (fun r => Ret (collect "list" r)).

Definition Get (t : Table) (id : value) : prog (entity + db_error) :=
  Ask ("SELECT " +++ columnsList t +++ " FROM " +++ tableName t +++ " WHERE " +++ PrimaryKey (t_info t) +++ " = $1") [id]
    (fun r => Ret (one true "get" r)).

Definition GetScoped (t : Table) (id : value) (tenantField tenantID : string) : prog (entity + db_error) :=
  if negb (validColumn t tenantField) then Ret (inr (ErrInvalidColumn tenantField))
  else
    Ask ("SELECT " +++ columnsList t +++ " FROM " +++ tableName t +++ " WHERE " +++ PrimaryKey (t_info t) +++ " = $1 AND " +++ tenantField +++ " = $2")
      [id; VText tenantID] (fun r => Ret (one true "get scoped" r)).

Definition FindBy (t : Table) (column : string) (v : value) : prog (entity + db_error) :=
  if negb (validColumn t column) then Ret (inr (ErrInvalidColumn column))
  else Ask ("SELECT " +++ columnsList t +++ " FROM " +++ tableName t +++ " WHERE " +++ column +++ " = $1") [v]
         (fun r => Ret (one true "find by" r)).

(** The columns and values [Create] and [Upsert] send: no skipped or generated field, no
    zero value of a field with a default. *)
Fixpoint insert_values (fs : list FieldInfo) (e : entity) : list (string * value) :=
  match fs with
  | [] => []
  | f :: fs =>
      if Skip f || Auto f then insert_values fs e
      else match e !! GoName f with
           | None => insert_values fs e
           | Some v => if negb (String.eqb (Default f) "") && IsZero v then insert_values fs e else (Column f, v) :: insert_values fs e
           end
  end.

Definition Create (t : Table) (e : entity) : prog (entity + db_error) :=
  let cvs := insert_values (Fields (t_info t)) e in
  Ask ("INSERT INTO " +++ tableName t +++ " (" +++ Join cvs.*1 ", " +++ ") VALUES (" +++ Join (placeholders (length cvs)) ", " +++ ") RETURNING " +++ columnsList t)
    cvs.*2 (fun r => Ret (one false "create" r)).

(** [fv.SetString] panics ([None]) on a field that is no string. *)
Definition CreateScoped (t : Table) (e : entity) (tenantField tenantID : string) : option (prog (entity + db_error)) :=
  if negb (validColumn t tenantField) then Some (Ret (inr (ErrInvalidColumn tenantField)))
  else
    match list_find (fun f => Column f = tenantField) (Fields (t_info t)) with
    | None => Some (Create t e)
    | Some (_, f) =>
        match e !! GoName f with
        | None => Some (Create t e)
        | Some (VText _) => Some (Create t (<[GoName f := VText tenantID]> e))
        | Some _ => None
        end
    end.

(** The loop over the patch: the SET list and the arguments, or the invalid column. *)
Fixpoint set_loop (t : Table) (idx : nat) (kvs : list (string * value)) (sets : list string) (args : list value) : (list string * list value * nat) + db_error :=
  match kvs with
  | [] => inl (sets, args, idx)
  | (c, v) :: kvs =>
      if negb (validColumn t c) then inr (ErrInvalidColumn c)
      else set_loop t (S idx) kvs (sets ++ [c +++ " = $" +++ pretty idx]) (args ++ [v])
  end.

(** [len(patch) >= math.MaxInt] cannot be. *)
Definition Update (t : Table) (id : value) (patch : gmap string value) : prog (entity + db_error) :=
  if decide (patch = ∅) then Ret (inr ErrNoFields)
  else
    match set_loop t 1 (range (ResolvePatchColumns (t_info t) patch)) [] [] with
    | inr e => Ret (inr e)
    | inl (sets, args, idx) =>
        Ask ("UPDATE " +++ tableName t +++ " SET " +++ Join sets ", " +++ " WHERE " +++ PrimaryKey (t_info t) +++ " = $" +++ pretty idx +++ " RETURNING " +++ columnsList t)
          (args ++ [id]) (fun r => Ret (one true "update" r))
    end.

Definition UpdateScoped (t : Table) (id : value) (patch : gmap string value) (tenantField tenantID : string) : prog (entity + db_error) :=
  if negb (validColumn t tenantField) then Ret (inr (ErrInvalidColumn tenantField))
  else if decide (patch = ∅) then Ret (inr ErrNoFields)
  else
    match set_loop t 1 (range (ResolvePatchColumns (t_info t) patch)) [] [] with
    | inr e => Ret (inr e)
    | inl (sets, args, idx) =>
        Ask ("UPDATE " +++ tableName t +++ " SET " +++ Join sets ", " +++ " WHERE " +++ PrimaryKey (t_info t) +++ " = $" +++ pretty idx
             +++ " AND " +++ tenantField +++ " = $" +++ pretty (S idx) +++ " RETURNING " +++ columnsList t)
          (args ++ [id; VText tenantID]) (fun r => Ret (one true "update scoped" r))
    end.

Definition Delete (t : Table) (id : value) : prog (option db_error) :=
  Ask ("DELETE FROM " +++ tableName t +++ " WHERE " +++ PrimaryKey (t_info t) +++ " = $1") [id] (fun r => Ret (affected "delete" r)).

Definition DeleteScoped (t : Table) (id : value) (tenantField tenantID : string) : prog (option db_error) :=
  if negb (validColumn t tenantField) then Ret (Some (ErrInvalidColumn tenantField))
  else Ask ("DELETE FROM " +++ tableName t +++ " WHERE " +++ PrimaryKey (t_info t) +++ " = $1 AND " +++ tenantField +++ " = $2")
         [id; VText tenantID] (fun r => Ret (affected "delete scoped" r)).

(** The loop over [where], which also numbers the cursor of [QueryKeyset]. *)
Fixpoint where_loop (t : Table) (idx : nat) (kvs : list (string * value)) (query : string) (args : list value) : (string * list value * nat) + db_error :=
  match kvs with
  | [] => inl (query, args, idx)
  | (c, v) :: kvs =>
      if negb (validColumn t c) then inr (ErrInvalidColumn c)
      else
        let query := if Nat.eqb idx 1 then query +++ " WHERE " +++ c +++ " = $" +++ pretty idx else query +++ " AND " +++ c +++ " = $" +++ pretty idx in
        where_loop t (S idx) kvs query (args ++ [v])
  end.

(** [orderBy == ""] means the primary key. *)
Definition order_column (t : Table) (orderBy : string) : string + db_error :=
  if String.eqb orderBy "" then inl (PrimaryKey (t_info t)) else if validColumn t orderBy then inl orderBy else inr (ErrInvalidColumn orderBy).

Definition QueryWhere (t : Table) (where_ : gmap string value) (orderBy : string) (limit offset : Z) : prog (list entity + db_error) :=
  match order_column t orderBy with
  | inr e => Ret (inr e)
  | inl orderBy =>
      match where_loop t 1 (range where_) ("SELECT " +++ columnsList t +++ " FROM " +++ tableName t) [] with
      | inr e => Ret (inr e)
      | inl (query, args, _) =>
          let query := query +++ " ORDER BY " +++ orderBy in
          let query := if 0 <? limit then query +++ " LIMIT " +++ pretty limit else query in
          let query := if 0 <? offset then query +++ " OFFSET " +++ pretty offset else query in
          Ask query args (fun r => Ret (collect "where" r))
      end
  end.

Definition ListScoped (t : Table) (tenantField tenantID : string) : prog (list entity + db_error) :=
  if negb (validColumn t tenantField) then Ret (inr (ErrInvalidColumn tenantField))
  else QueryWhere t {[tenantField := VText tenantID]} (PrimaryKey (t_info t)) defaultListLimit 0.

(** [Count]: only the first condition is used. *)
Definition Count (t : Table) (where_ : list (string * value)) : prog (Z + db_error) :=
  let query := "SELECT COUNT(" +++ "*) FROM " +++ tableName t in
  match where_ with
  | [] => Ask query [] (fun r => Ret (match r with Number n => inl n | _ => inr (ErrDB "count") end))
  | (c, v) :: _ =>
      if negb (validColumn t c) then Ret (inr (ErrInvalidColumn c))
      else Ask (query +++ " WHERE " +++ c +++ " = $1") [v] (fun r => Ret (match r with Number n => inl n | _ => inr (ErrDB "count") end))
  end.

Definition QueryPaginated (t : Table) (page size : Z) (orderBy : string) : prog (list entity * Z + db_error) :=
  let page := if page <? 1 then 1 else page in
  let size := if size <? 1 then 10 else size in
  match order_column t orderBy with
  | inr e => Ret (inr e)
  | inl orderBy =>
      let offset := wrap64 ((page - 1) * size) in
      bind (Count t []) (fun total =>
        match total with
        | inr e => Ret (inr e)
        | inl total =>
            Ask ("SELECT " +++ columnsList t +++ " FROM " +++ tableName t +++ " ORDER BY " +++ orderBy +++ " LIMIT $1 OFFSET $2") [VInt size; VInt offset]
              (fun r => Ret (match collect "paginated" r with inl es => inl (es, total) | inr e => inr e end))
        end)
  end.

(** [orderField]: the Go name of the order column *)
Definition go_name (t : Table) (column : string) : string :=
  match list_find (fun f => Column f = column) (Fields (t_info t)) with Some (_, f) => GoName f | None => column end.

Definition QueryKeyset (t : Table) (cursor : string) (size : Z) (orderBy : string) (where_ : gmap string value) : prog (list entity * string + db_error) :=
  let size := if size <? 1 then 10 else size in
  match order_column t orderBy with
  | inr e => Ret (inr e)
  | inl orderBy =>
      let b := "SELECT " +++ columnsList t +++ " FROM " +++ tableName t in
      let '(b, args, idx) :=
        if negb (String.eqb cursor "") then (b +++ " WHERE " +++ orderBy +++ " > $" +++ pretty 1%nat, [VText cursor], 2%nat) else (b, [], 1%nat) in
      match where_loop t idx (range where_) b args with
      | inr e => Ret (inr e)
      | inl (b, args, idx) =>
          let b := b +++ " ORDER BY " +++ orderBy in
          let b := if negb (String.eqb orderBy (PrimaryKey (t_info t))) then b +++ ", " +++ PrimaryKey (t_info t) else b in
          let b := b +++ " LIMIT $" +++ pretty idx in
          Ask b (args ++ [VInt (wrap64 (size + 1))])
            (fun r => Ret (match collect "keyset" r with
                           | inr e => inr e
                           | inl result =>
                               if size <? Z.of_nat (length result) then
                                 let next := match result !! Z.to_nat (size - 1) with
                                             | Some last => match last !! go_name t orderBy with Some v => sprint v | None => "" end
                                             | None => ""
                                             end in
                                 inl (take (Z.to_nat size) result, next)
                               else inl (result, "")
                           end))
      end
  end.
End table.

(** ** The text is that of a statement over the model *)

(** Brings concatenations to the right and computes literals. *)
Ltac text := cbn [render conds_text sets_text cmp_text lim_text Join length app]; rewrite ?str_app_assoc, ?str_app_nil_r, ?str_app_nil_l; try reflexivity.

Definition names (s : sql) : list string :=
  match s with
  | SSelect cols tbl conds order _ _ => tbl :: cols ++ conds.*1 ++ order
  | SCount tbl conds => tbl :: conds.*1
  | SInsert tbl cols returning => tbl :: cols ++ returning
  | SUpdate tbl sets conds returning => tbl :: sets ++ conds.*1 ++ returning
  | SDelete tbl conds => tbl :: conds.*1
  end.

Definition lim_params (l : lim) : nat := match l with Param => 1 | _ => 0 end.

Definition params (s : sql) : nat :=
  match s with
  | SSelect _ _ conds _ limit offset => length conds + lim_params limit + lim_params offset
  | SCount _ conds => length conds
  | SInsert _ cols _ => length cols
  | SUpdate _ sets conds _ => length sets + length conds
  | SDelete _ conds => length conds
  end%nat.

(** The names of the model: the only ones that may appear in a statement. *)
Definition model_name (t : Table) (n : string) : Prop := n = tableName t \/ n = PrimaryKey (t_info t) \/ n ∈ Column <$> Fields (t_info t).

(** A statement over the model, with an argument for each of its parameters. *)
Definition from_model (t : Table) (q : string) (args : list value) : Prop :=
  exists s, q = render s /\ Forall (model_name t) (names s) /\ length args = params s.

Lemma validColumn_name t c : validColumn t c = true -> model_name t c.
Proof.
  unfold validColumn. rewrite existsb_exists. intros (f & Hf & He). apply String.eqb_eq in He as <-. right. right.
  apply list_elem_of_fmap. exists f. split; [done|]. by apply list_elem_of_In.
Qed.

Lemma columns_names info n : Forall (model_name (NewTable info n)) (columns (NewTable info n)).
Proof.
  apply Forall_forall. intros c. cbn. rewrite list_elem_of_fmap. intros (f & -> & Hf). apply list_elem_of_filter in Hf as [_ Hf].
  right. right. cbn. apply list_elem_of_fmap. eauto.
Qed.

Definition eqs (kvs : list (string * value)) : list (string * cmp) := (fun kv => (kv.1, Eq)) <$> kvs.

Lemma eqs_names kvs : (eqs kvs).*1 = kvs.*1.
Proof. unfold eqs. induction kvs as [|[] kvs IH]; cbn; [done|]. by f_equal. Qed.

Lemma eqs_length kvs : length (eqs kvs) = length kvs.
Proof. unfold eqs. by rewrite length_fmap. Qed.

(** The first column of a list that is not one of the model's. *)
Definition invalid (t : Table) (kvs : list (string * value)) : option string :=
  (fun p => (p.2).1) <$> list_find (fun kv => validColumn t kv.1 = false) kvs.

Lemma invalid_cons t c v kvs : invalid t ((c, v) :: kvs) = if validColumn t c then invalid t kvs else Some c.
Proof.
  unfold invalid. cbn. destruct (validColumn t c) eqn:E; [rewrite decide_False by (cbn; congruence)|by rewrite decide_True].
  by destruct (list_find _ kvs).
Qed.

Lemma invalid_None t kvs : invalid t kvs = None <-> Forall (fun c => validColumn t c = true) kvs.*1.
Proof.
  induction kvs as [|[c v] kvs IH]; [done|]. rewrite invalid_cons. cbn. rewrite Forall_cons, <- IH. destruct (validColumn t c); naive_solver.
Qed.

Lemma valid_names t kvs : invalid t kvs = None -> Forall (model_name t) kvs.*1.
Proof. intros H%invalid_None. eapply Forall_impl; [exact H|]. intros c. apply validColumn_name. Qed.

Lemma set_loop_spec t kvs idx sets args :
  set_loop t idx kvs sets args =
  match invalid t kvs with Some c => inr (ErrInvalidColumn c) | None => inl (sets ++ sets_text idx kvs.*1, args ++ kvs.*2, (idx + length kvs)%nat) end.
Proof.
  revert idx sets args. induction kvs as [|[c v] kvs IH]; intros idx sets args; cbn [set_loop].
  - cbn. by rewrite !app_nil_r, Nat.add_0_r.
  - rewrite invalid_cons. destruct (validColumn t c); cbn [negb]; [|done]. rewrite IH. destruct (invalid t kvs); [done|].
    cbn. rewrite <- !(assoc_L app). cbn. do 2 f_equal. lia.
Qed.

Lemma where_loop_spec t kvs idx q args : (1 <= idx)%nat ->
  where_loop t idx kvs q args =
  match invalid t kvs with Some c => inr (ErrInvalidColumn c) | None => inl (q +++ conds_text (Nat.eqb idx 1) idx (eqs kvs), args ++ kvs.*2, (idx + length kvs)%nat) end.
Proof.
  revert idx q args. induction kvs as [|[c v] kvs IH]; intros idx q args Hi; cbn [where_loop].
  - cbn. by rewrite app_nil_r, str_app_nil_r, Nat.add_0_r.
  - rewrite invalid_cons. destruct (validColumn t c); cbn [negb]; [|done]. rewrite IH by lia. destruct (invalid t kvs); [done|].
    rewrite <- !(assoc_L app). replace (S idx =? 1)%nat with false by (symmetry; apply Nat.eqb_neq; lia). cbn -[pretty Nat.eqb].
    do 2 f_equal; [f_equal|lia]. destruct (idx =? 1)%nat; by rewrite !str_app_assoc.
Qed.

(** The statement of each operation. *)
Definition get_stmt (t : Table) : sql := SSelect (columns t) (tableName t) [(PrimaryKey (t_info t), Eq)] [] NoLim NoLim.
Definition get_scoped_stmt (t : Table) (tf : string) : sql := SSelect (columns t) (tableName t) [(PrimaryKey (t_info t), Eq); (tf, Eq)] [] NoLim NoLim.
Definition delete_scoped_stmt (t : Table) (tf : string) : sql := SDelete (tableName t) [(PrimaryKey (t_info t), Eq); (tf, Eq)].
Definition update_stmt (t : Table) (cols : list string) : sql := SUpdate (tableName t) cols [(PrimaryKey (t_info t), Eq)] (columns t).
Definition update_scoped_stmt (t : Table) (cols : list string) (tf : string) : sql :=
  SUpdate (tableName t) cols [(PrimaryKey (t_info t), Eq); (tf, Eq)] (columns t).
Definition where_stmt (t : Table) (cs : list (string * cmp)) (order : string) (limit offset : Z) : sql :=
  SSelect (columns t) (tableName t) cs [order] (if 0 <? limit then Lit limit else NoLim) (if 0 <? offset then Lit offset else NoLim).
Definition keyset_order (t : Table) (order : string) : list string :=
  if String.eqb order (PrimaryKey (t_info t)) then [order] else [order; PrimaryKey (t_info t)].
Definition keyset_stmt (t : Table) (cs : list (string * cmp)) (order : string) : sql :=
  SSelect (columns t) (tableName t) cs (keyset_order t order) Param NoLim.
Definition cursor_conds (cursor order : string) : list (string * cmp) := if String.eqb cursor "" then [] else [(order, Gt)].
Definition cursor_args (cursor : string) : list value := if String.eqb cursor "" then [] else [VText cursor].

Lemma get_scoped_text t tf :
  "SELECT " +++ columnsList t +++ " FROM " +++ tableName t +++ " WHERE " +++ PrimaryKey (t_info t) +++ " = $1 AND " +++ tf +++ " = $2" = render (get_scoped_stmt t tf).
Proof. unfold get_scoped_stmt, columnsList. by text. Qed.

Lemma delete_scoped_text t tf :
  "DELETE FROM " +++ tableName t +++ " WHERE " +++ PrimaryKey (t_info t) +++ " = $1 AND " +++ tf +++ " = $2" = render (delete_scoped_stmt t tf).
Proof. unfold delete_scoped_stmt. by text. Qed.

Lemma update_scoped_text t cols tf :
  "UPDATE " +++ tableName t +++ " SET " +++ Join (sets_text 1 cols) ", " +++ " WHERE " +++ PrimaryKey (t_info t) +++ " = $" +++ pretty (S (length cols))
  +++ " AND " +++ tf +++ " = $" +++ pretty (S (S (length cols))) +++ " RETURNING " +++ columnsList t = render (update_scoped_stmt t cols tf).
Proof. unfold update_scoped_stmt, columnsList. by text. Qed.

Lemma update_text t cols :
  "UPDATE " +++ tableName t +++ " SET " +++ Join (sets_text 1 cols) ", " +++ " WHERE " +++ PrimaryKey (t_info t) +++ " = $" +++ pretty (S (length cols))
  +++ " RETURNING " +++ columnsList t = render (update_stmt t cols).
Proof. unfold update_stmt, columnsList. by text. Qed.

Lemma keyset_text t cs order :
  ((("SELECT " +++ columnsList t +++ " FROM " +++ tableName t) +++ conds_text true 1 cs) +++ " ORDER BY " +++ order)
  +++ (if negb (String.eqb order (PrimaryKey (t_info t))) then ", " +++ PrimaryKey (t_info t) else "") +++ " LIMIT $" +++ pretty (S (length cs))
  = render (keyset_stmt t cs order).
Proof.
  unfold keyset_stmt, columnsList, keyset_order. cbn [render lim_text]. destruct (String.eqb order _); cbn [negb Join]; by rewrite !str_app_assoc, ?str_app_nil_r, ?str_app_nil_l.
Qed.

Lemma where_text t cs order limit offset :
  (let q := (("SELECT " +++ columnsList t +++ " FROM " +++ tableName t) +++ conds_text true 1 cs) +++ " ORDER BY " +++ order in
   let q := if 0 <? limit then q +++ " LIMIT " +++ pretty limit else q in
   if 0 <? offset then q +++ " OFFSET " +++ pretty offset else q) = render (where_stmt t cs order limit offset).
Proof.
  unfold where_stmt, columnsList. cbn [render Join]. destruct (0 <? limit), (0 <? offset); cbn [lim_text]; by rewrite ?str_app_assoc, ?str_app_nil_r, ?str_app_nil_l.
Qed.

Section statements.
Context (range : forall V, gmap string V -> list (string * V)) (scan : row -> option entity) (sprint : value -> string).

Lemma UpdateScoped_eq t id patch tf tid :
  UpdateScoped range scan t id patch tf tid =
  if negb (validColumn t tf) then Ret (inr (ErrInvalidColumn tf))
  else if decide (patch = ∅) then Ret (inr ErrNoFields)
  else let kvs := range _ (ResolvePatchColumns range (t_info t) patch) in
       match invalid t kvs with
       | Some c => Ret (inr (ErrInvalidColumn c))
       | None => Ask (render (update_scoped_stmt t kvs.*1 tf)) (kvs.*2 ++ [id; VText tid]) (fun r => Ret (one scan true "update scoped" r))
       end.
Proof.
  unfold UpdateScoped. destruct (validColumn t tf); [|done]. cbn [negb]. destruct (decide _); [done|]. cbv zeta. rewrite set_loop_spec.
  destruct (invalid t _); [done|]. cbn [app]. rewrite <- (update_scoped_text t _ tf), length_fmap. done.
Qed.

Lemma Update_eq t id patch :
  Update range scan t id patch =
  if decide (patch = ∅) then Ret (inr ErrNoFields)
  else let kvs := range _ (ResolvePatchColumns range (t_info t) patch) in
       match invalid t kvs with
       | Some c => Ret (inr (ErrInvalidColumn c))
       | None => Ask (render (update_stmt t kvs.*1)) (kvs.*2 ++ [id]) (fun r => Ret (one scan true "update" r))
       end.
Proof.
  unfold Update. destruct (decide _); [done|]. cbv zeta. rewrite set_loop_spec. destruct (invalid t _); [done|]. cbn [app].
  rewrite <- (update_text t), length_fmap. done.
Qed.

Lemma QueryWhere_eq t w orderBy limit offset :
  QueryWhere range scan t w orderBy limit offset =
  match order_column t orderBy with
  | inr e => Ret (inr e)
  | inl o => match invalid t (range _ w) with
             | Some c => Ret (inr (ErrInvalidColumn c))
             | None => Ask (render (where_stmt t (eqs (range _ w)) o limit offset)) (range _ w).*2 (fun r => Ret (collect scan "where" r))
             end
  end.
Proof.
  unfold QueryWhere. destruct (order_column t orderBy) as [o|]; [|done]. rewrite where_loop_spec by lia. destruct (invalid t _); [done|].
  cbv zeta. cbn [Nat.eqb app]. by rewrite <- where_text.
Qed.

(** What [QueryKeyset] makes of the reply. *)
Definition keyset_page (t : Table) (size : Z) (order : string) (r : reply) : list entity * string + db_error :=
  match collect scan "keyset" r with
  | inr e => inr e
  | inl result =>
      if size <? Z.of_nat (length result) then
        let next := match result !! Z.to_nat (size - 1) with
                    | Some last => match last !! go_name t order with Some v => sprint v | None => "" end
                    | None => ""
                    end in
        inl (take (Z.to_nat size) result, next)
      else inl (result, "")
  end.

Lemma QueryKeyset_eq t cursor size orderBy w :
  QueryKeyset range scan sprint t cursor size orderBy w =
  let size := if size <? 1 then 10 else size in
  match order_column t orderBy with
  | inr e => Ret (inr e)
  | inl o => match invalid t (range _ w) with
             | Some c => Ret (inr (ErrInvalidColumn c))
             | None => Ask (render (keyset_stmt t (cursor_conds cursor o ++ eqs (range _ w)) o)) (cursor_args cursor ++ (range _ w).*2 ++ [VInt (wrap64 (size + 1))])
                         (fun r => Ret (keyset_page t size o r))
             end
  end.
Proof.
  unfold QueryKeyset. cbv zeta. destruct (order_column t orderBy) as [o|]; [|done]. unfold cursor_conds, cursor_args.
  destruct (String.eqb cursor ""); cbn [negb].
  - rewrite where_loop_spec by lia. destruct (invalid t _); [done|]. cbn [Nat.eqb app]. rewrite <- keyset_text, eqs_length.
    f_equal. destruct (String.eqb o _); cbn [negb]; by rewrite ?str_app_assoc, ?str_app_nil_l.
  - rewrite where_loop_spec by lia. destruct (invalid t _); [done|]. cbn [Nat.eqb app]. rewrite <- keyset_text. cbn [length]. rewrite eqs_length.
    f_equal. cbn [conds_text cmp_text]. destruct (String.eqb o _); cbn [negb]; by rewrite ?str_app_assoc, ?str_app_nil_l.
Qed.

(** *** Every operation *)

Inductive operation :=
| OpList | OpListScoped (tf tid : string)
| OpGet (id : value) | OpGetScoped (id : value) (tf tid : string) | OpFindBy (c : string) (v : value)
| OpCreate (e : entity)
| OpUpdate (id : value) (patch : gmap string value) | OpUpdateScoped (id : value) (patch : gmap string value) (tf tid : string)
| OpDelete (id : value) | OpDeleteScoped (id : value) (tf tid : string)
| OpQueryWhere (w : gmap string value) (orderBy : string) (limit offset : Z) | OpCount (w : list (string * value))
| OpPaginated (page size : Z) (orderBy : string) | OpKeyset (cursor : string) (size : Z) (orderBy : string) (w : gmap string value).

Definition perform (t : Table) (op : operation) : prog unit :=
  let forget {A} (p : prog A) := bind p (fun _ => Ret tt) in
  match op with
  | OpList => forget (List_ scan t) | OpListScoped tf tid => forget (ListScoped range scan t tf tid)
  | OpGet id => forget (Get scan t id) | OpGetScoped id tf tid => forget (GetScoped scan t id tf tid) | OpFindBy c v => forget (FindBy scan t c v)
  | OpCreate e => forget (Create scan t e)
  | OpUpdate id p => forget (Update range scan t id p) | OpUpdateScoped id p tf tid => forget (UpdateScoped range scan t id p tf tid)
  | OpDelete id => forget (Delete t id) | OpDeleteScoped id tf tid => forget (DeleteScoped t id tf tid)
  | OpQueryWhere w o l off => forget (QueryWhere range scan t w o l off) | OpCount w => forget (Count t w)
  | OpPaginated p s o => forget (QueryPaginated scan t p s o) | OpKeyset c s o w => forget (QueryKeyset range scan sprint t c s o w)
  end.

Lemma sends_bind {A B} P (p : prog A) (f : A -> prog B) : sends P p -> (forall a, sends P (f a)) -> sends P (bind p f).
Proof. induction p as [a|q args k IH]; cbn; [auto|]. intros [Hq Hk] Hf. split; [done|]. intros r. by apply IH. Qed.

Lemma run_bind {A B} exec (p : prog A) (f : A -> prog B) (d : list row) : run exec (bind p f) d = run exec (f (run exec p d).1) (run exec p d).2.
Proof. revert d. induction p as [a|q args k IH]; intros d; [done|]. cbn. destruct (exec q args d) as [r d']. apply IH. Qed.

Lemma order_column_name t orderBy o : order_column t orderBy = inl o -> model_name t o.
Proof.
  unfold order_column. destruct (String.eqb orderBy ""); [intros [= <-]; right; by left|]. destruct (validColumn t orderBy) eqn:E; [|done].
  intros [= <-]. by apply validColumn_name.
Qed.

Lemma insert_values_names t e : Forall (model_name t) (insert_values (Fields (t_info t)) e).*1.
Proof.
  assert (H : forall fs, (forall f, f ∈ fs -> f ∈ Fields (t_info t)) -> Forall (model_name t) (insert_values fs e).*1).
  { induction fs as [|f fs IH]; intros Hs; cbn [insert_values]; [constructor|]. assert (IH' := IH ltac:(set_solver)).
    destruct (Skip f || Auto f); [done|]. destruct (e !! GoName f); [|done]. destruct (_ && _); [done|]. cbn. constructor; [|done].
    right. right. apply list_elem_of_fmap. exists f. split; [done|]. apply Hs. set_solver. }
  by apply H.
Qed.

Lemma QueryWhere_sends info n w orderBy limit offset :
  let t := NewTable info n in sends (from_model t) (QueryWhere range scan t w orderBy limit offset).
Proof.
  cbv zeta. rewrite QueryWhere_eq. destruct (order_column _ orderBy) as [o|] eqn:Eo; [|done]. apply order_column_name in Eo.
  destruct (invalid _ _) eqn:Ei; [done|]. apply valid_names in Ei. split; [|done]. eexists. split; [reflexivity|]. unfold where_stmt. cbn [names params].
  split.
  - constructor; [by left|]. rewrite !Forall_app, eqs_names. split_and!; [apply columns_names|done|by apply Forall_singleton].
  - rewrite eqs_length, length_fmap. destruct (0 <? limit), (0 <? offset); cbn; lia.
Qed.

(** The shape of the goals below: a statement, its names, its number of arguments. *)
Ltac solve_from_model :=
  split; [|done]; eexists; split; [reflexivity|]; split; [|cbn; rewrite ?length_app, ?length_fmap, ?eqs_length; cbn; lia];
  cbn; rewrite ?app_nil_r; repeat first [rewrite Forall_cons | rewrite Forall_app];
  split_and?; try (apply columns_names); try apply Forall_nil_2; try (by left); try (right; by left); try (by apply validColumn_name); try assumption.

(** C2: no text a request supplies reaches a SQL statement.  Whatever the columns, filters,
    patches, sort keys and cursors an operation is given, every statement it sends is one
    over the model's table and columns, with exactly as many arguments as parameters; a
    name that is not the model's ends the operation before the database is asked. *)
Theorem statements_from_model (info : TableInfo) (n : string) (op : operation) :
  sends (from_model (NewTable info n)) (perform (NewTable info n) op).
Proof.
  set (t := NewTable info n). destruct op; cbn [perform]; apply sends_bind; try done.
  - split; [|done]. exists (SSelect (columns t) (tableName t) [] [PrimaryKey (t_info t)] (Lit defaultListLimit) NoLim).
    split; [unfold columnsList; by text|]. split; [|done]. cbn [names]. constructor; [by left|]. rewrite !Forall_app. split_and!; [apply columns_names|constructor|apply Forall_singleton; right; by left].
  - unfold ListScoped. destruct (validColumn t tf); [|done]. cbn [negb]. apply QueryWhere_sends.
  - unfold Get. replace (_ +++ _) with (render (get_stmt t)) by (unfold get_stmt, columnsList; by text). solve_from_model.
  - unfold GetScoped. destruct (validColumn t tf) eqn:E; [|done]. cbn [negb]. rewrite get_scoped_text. solve_from_model.
  - unfold FindBy. destruct (validColumn t c) eqn:E; [|done]. cbn [negb].
    replace (_ +++ _) with (render (SSelect (columns t) (tableName t) [(c, Eq)] [] NoLim NoLim)) by (unfold columnsList; by text). solve_from_model.
  - unfold Create. cbv zeta. set (cvs := insert_values _ e). split; [|done]. exists (SInsert (tableName t) cvs.*1 (columns t)).
    split; [cbn [render]; by rewrite length_fmap|]. split; [|cbn; by rewrite !length_fmap]. cbn [names].
    constructor; [by left|]. apply Forall_app. split; [apply insert_values_names|apply columns_names].
  - rewrite Update_eq. destruct (decide _); [done|]. cbv zeta. destruct (invalid t _) eqn:Ei; [done|]. apply valid_names in Ei. solve_from_model.
  - rewrite UpdateScoped_eq. destruct (validColumn t tf) eqn:E; [|done]. cbn [negb]. destruct (decide _); [done|]. cbv zeta.
    destruct (invalid t _) eqn:Ei; [done|]. apply valid_names in Ei. solve_from_model.
  - unfold Delete. replace (_ +++ _) with (render (SDelete (tableName t) [(PrimaryKey (t_info t), Eq)])) by (by text). solve_from_model.
  - unfold DeleteScoped. destruct (validColumn t tf) eqn:E; [|done]. cbn [negb]. rewrite delete_scoped_text. solve_from_model.
  - apply QueryWhere_sends.
  - unfold Count. destruct w as [|[c v] w].
    + replace (_ +++ _) with (render (SCount (tableName t) [])) by (by text). solve_from_model.
    + destruct (validColumn t c) eqn:E; [|done]. cbn [negb].
      replace (_ +++ _) with (render (SCount (tableName t) [(c, Eq)])) by (by text). solve_from_model.
  - unfold QueryPaginated. destruct (order_column t orderBy) as [o|] eqn:Eo; [|done]. apply order_column_name in Eo. apply sends_bind.
    + unfold Count. replace (_ +++ _) with (render (SCount (tableName t) [])) by (by text). solve_from_model.
    + intros [total|]; [|done]. replace (_ +++ _) with (render (SSelect (columns t) (tableName t) [] [o] Param Param)) by (unfold columnsList; by text).
      solve_from_model.
  - rewrite QueryKeyset_eq. cbv zeta. destruct (order_column t orderBy) as [o|] eqn:Eo; [|done]. apply order_column_name in Eo.
    destruct (invalid t _) eqn:Ei; [done|]. apply valid_names in Ei. split; [|done]. eexists. split; [reflexivity|]. unfold keyset_stmt. cbn [names params]. split.
    + constructor; [by left|]. rewrite fmap_app, !Forall_app, eqs_names. split_and!; [apply columns_names| |done|].
      * unfold cursor_conds. destruct (String.eqb cursor ""); cbn; [constructor|by apply Forall_singleton].
      * unfold keyset_order. destruct (String.eqb o _); repeat apply Forall_cons_2; try done; try apply Forall_nil_2; right; by left.
    + unfold cursor_conds, cursor_args. destruct (String.eqb cursor ""); cbn; rewrite ?length_app, eqs_length, length_fmap; cbn; lia.
Qed.
End statements.

(** ** Sorting and selecting rows *)

Lemma elem_take {A} n (l : list A) x : x ∈ take n l -> x ∈ l.
Proof. intros H. rewrite <- (take_drop n l). apply elem_of_app. by left. Qed.


Section rows.
Context (sql_eq sql_lt : value -> value -> bool).
Notation holds := (conds_hold sql_eq sql_lt).
Notation sorted_by := (sort_rows sql_lt).

Lemma conds_hold_app cs cs' args args' r : length cs = length args -> holds (cs ++ cs') (args ++ args') r = holds cs args r && holds cs' args' r.
Proof. revert args. induction cs as [|c cs IH]; intros [|a args] H; cbn in *; try done. rewrite IH by lia. by rewrite andb_assoc. Qed.

Lemma conds_hold_extra cs args extra r : length cs = length args -> holds cs (args ++ extra) r = holds cs args r.
Proof. intros H. rewrite <- (app_nil_r cs) at 1. rewrite conds_hold_app by done. cbn. by rewrite andb_true_r. Qed.

Lemma insert_row_perm order r l : insert_row sql_lt order r l ≡ₚ r :: l.
Proof. induction l as [|r' l IH]; cbn; [done|]. destruct (row_le _ _ _ _); [done|]. rewrite IH. constructor. Qed.

Lemma sort_rows_perm order l : sorted_by order l ≡ₚ l.
Proof. induction l as [|r l IH]; cbn; [done|]. by rewrite insert_row_perm, IH. Qed.

(** A key column on which the rows are strictly ordered. *)
Context (o : string).
Definition key_lt (r r' : row) : Prop := sql_lt (col o r) (col o r') = true.
Context (lt_irrefl : forall v, sql_lt v v = false) (lt_trans : forall a b c, sql_lt a b = true -> sql_lt b c = true -> sql_lt a c = true).

Definition distinct_keys (l : list row) : Prop := forall i j r r', l !! i = Some r -> l !! j = Some r' -> i <> j -> key_lt r r' \/ key_lt r' r.

Lemma key_lt_asym r r' : key_lt r r' -> key_lt r' r -> False.
Proof. intros H1 H2. pose proof (lt_trans _ _ _ H1 H2). unfold key_lt in *. by rewrite lt_irrefl in *. Qed.

Lemma distinct_keys_cons r l : distinct_keys (r :: l) -> distinct_keys l /\ (forall r', r' ∈ l -> key_lt r r' \/ key_lt r' r).
Proof.
  intros H. split; [intros i j x y Hi Hj Hne; by apply (H (S i) (S j)); [..|lia]|].
  intros r' [i Hi]%list_elem_of_lookup. by apply (H 0%nat (S i)).
Qed.

(** A check of [distinct_keys]. *)
Fixpoint distinct_b (l : list row) : bool :=
  match l with [] => true | r :: l => forallb (fun r' => sql_lt (col o r) (col o r') || sql_lt (col o r') (col o r)) l && distinct_b l end.

Lemma distinct_b_sound l : distinct_b l = true -> distinct_keys l.
Proof using.
  induction l as [|r l IH]; cbn [distinct_b]; [done|]. rewrite andb_true_iff, forallb_forall. intros [Hr Hl].
  assert (Hh : forall r', r' ∈ l -> key_lt r r' \/ key_lt r' r) by (intros r' Hr'; unfold key_lt; apply orb_true_iff, Hr; by apply list_elem_of_In).
  intros [|i] [|j] x y Hx Hy Hne; cbn in Hx, Hy; simplify_eq.
  - apply Hh. by eapply list_elem_of_lookup_2.
  - apply or_comm, Hh. by eapply list_elem_of_lookup_2.
  - eapply (IH Hl i j); [done..|congruence].
Qed.

Lemma row_le_key order r r' : key_lt r r' \/ key_lt r' r -> row_le sql_lt (o :: order) r r' = sql_lt (col o r) (col o r').
Proof.
  intros H. cbn. destruct (sql_lt (col o r) (col o r')) eqn:E; [done|]. destruct H as [H|H]; unfold key_lt in H; [congruence|]. by rewrite H.
Qed.

Lemma insert_row_sorted order r l :
  (forall r', r' ∈ l -> key_lt r r' \/ key_lt r' r) -> StronglySorted key_lt l -> StronglySorted key_lt (insert_row sql_lt (o :: order) r l).
Proof.
  intros Hd. induction 1 as [|r' l Hl IH Hr']; cbn [insert_row]; [repeat constructor|].
  assert (Hrr := Hd r' ltac:(set_solver)). rewrite row_le_key by done. destruct (sql_lt _ _) eqn:E.
  - constructor; [by constructor|]. constructor; [done|]. eapply Forall_impl; [exact Hr'|]. intros x. by apply lt_trans.
  - constructor; [apply IH; set_solver|]. rewrite insert_row_perm. constructor; [|done]. destruct Hrr as [H|H]; [unfold key_lt in H; congruence|done].
Qed.

Lemma sort_rows_sorted order l : distinct_keys l -> StronglySorted key_lt (sorted_by (o :: order) l).
Proof.
  induction l as [|r l IH]; cbn; intros Hd; [constructor|]. apply distinct_keys_cons in Hd as [Hd Hr].
  apply insert_row_sorted; [|by apply IH]. intros r' Hr'. apply Hr. by rewrite <- (sort_rows_perm (o :: order) l).
Qed.

Lemma sorted_unique l1 l2 : StronglySorted key_lt l1 -> StronglySorted key_lt l2 -> l1 ≡ₚ l2 -> l1 = l2.
Proof.
  intros H1. revert l2. induction H1 as [|r1 l1 H1 IH Hr1]; intros l2 H2 Hp; [by apply Permutation_nil_l in Hp|].
  destruct H2 as [|r2 l2 H2 Hr2]; [by apply Permutation_nil_r in Hp|].
  assert (r1 = r2) as <-.
  { assert (Ha : r1 ∈ r2 :: l2) by (rewrite <- Hp; set_solver). assert (Hb : r2 ∈ r1 :: l1) by (rewrite Hp; set_solver).
    apply elem_of_cons in Ha as [->|Ha]; [done|]. apply elem_of_cons in Hb as [->|Hb]; [done|]. rewrite Forall_forall in Hr1, Hr2.
    exfalso. eapply key_lt_asym; [by apply Hr1|by apply Hr2]. }
  f_equal. apply IH; [done|]. by apply Permutation_cons_inv in Hp.
Qed.

Lemma sorted_filter (P : row -> Prop) `{forall r, Decision (P r)} l : StronglySorted key_lt l -> StronglySorted key_lt (filter P l).
Proof.
  induction 1 as [|r l Hl IH Hr]; [constructor|]. rewrite filter_cons. destruct (decide (P r)); [|done]. constructor; [done|].
  rewrite Forall_forall in *. intros r' Hr'. apply Hr. by apply list_elem_of_filter in Hr' as [_ ?].
Qed.

Lemma distinct_keys_filter (P : row -> Prop) `{forall r, Decision (P r)} l : distinct_keys l -> distinct_keys (filter P l).
Proof.
  induction l as [|r l IH]; intros Hd; [done|]. apply distinct_keys_cons in Hd as [Hd Hr]. rewrite filter_cons. destruct (decide (P r)); [|auto].
  intros [|i] [|j] x y; cbn; [done|..]; intros Hx Hy Hne.
  - injection Hx as <-. apply Hr. apply list_elem_of_lookup_2 in Hy. by apply list_elem_of_filter in Hy as [_ ?].
  - injection Hy as <-. apply list_elem_of_lookup_2 in Hx. apply list_elem_of_filter in Hx as [_ ?]. destruct (Hr x); [done|auto..].
  - eapply IH; [done..|]. congruence.
Qed.

(** Selecting commutes with sorting. *)
Lemma sort_filter order (P : row -> Prop) `{forall r, Decision (P r)} l : distinct_keys l ->
  sorted_by (o :: order) (filter P l) = filter P (sorted_by (o :: order) l).
Proof.
  intros Hd. apply sorted_unique.
  - by apply sort_rows_sorted, distinct_keys_filter.
  - by apply sorted_filter, sort_rows_sorted.
  - by rewrite !sort_rows_perm.
Qed.

(** The rows after one of a sorted list are those with a greater key. *)
Lemma filter_after l i x (P : row -> Prop) `{forall r, Decision (P r)} : StronglySorted key_lt l -> l !! i = Some x ->
  (forall r, r ∈ l -> P r <-> key_lt x r) -> filter P l = drop (S i) l.
Proof.
  intros Hl. revert i. induction Hl as [|r l Hl IH Hr]; intros i Hx HP; [done|]. rewrite Forall_forall in Hr. destruct i as [|i]; cbn [lookup list_lookup] in Hx.
  - injection Hx as ->. rewrite filter_cons, decide_False.
    2:{ intros Hp. apply HP in Hp; [|set_solver]. unfold key_lt in Hp. by rewrite lt_irrefl in Hp. }
    cbn [drop]. apply filter_all. apply Forall_forall. intros r' Hr'. apply HP; [set_solver|]. by apply Hr.
  - rewrite filter_cons, decide_False; [apply IH; [done|]; intros y Hy; apply HP; set_solver|]. intros Hp. apply HP in Hp; [|set_solver].
    eapply key_lt_asym; [exact Hp|]. apply Hr. by eapply list_elem_of_lookup_2.
Qed.
End rows.

(** ** Keyset pagination *)

Section keyset.
Context (range : forall V, gmap string V -> list (string * V)) (scan : row -> option entity) (sprint : value -> string).
Context (sql_eq sql_lt : value -> value -> bool) (fill : row -> row).
Context (exec : string -> list value -> list row -> reply * list row).

(** A client that follows the cursors until there is none, or an error. *)
Fixpoint pages (fuel : nat) (t : Table) (cursor : string) (size : Z) (orderBy : string) (w : gmap string value) (d : list row) : list entity :=
  match fuel with
  | O => []
  | S fuel =>
      match (run exec (QueryKeyset range scan sprint t cursor size orderBy w) d).1 with
      | inr _ => []
      | inl (items, next) => items ++ (if String.eqb next "" then [] else pages fuel t next size orderBy w d)
      end
  end.

Context (t : Table) (size : Z) (orderBy o : string) (w : gmap string value) (d : list row) (ent : row -> entity).
Notation kvs := (range value w).

(** The rows the filters select. *)
Definition matching : list row := filter (fun r => conds_hold sql_eq sql_lt (eqs kvs) kvs.*2 r) d.

(** What is assumed of the database and of pgx: [<] is a strict order; the statements are
    understood; a row becomes an entity whose field for the order column holds its value.  The
    order column holds integers, or texts that are not empty, in fields that are no pointers
    ([fmt] prints the address of one): [fmt] prints integers in decimal and texts as they are,
    and the database reads the text of a parameter as a value of the column's type. *)
Record keyset_env : Prop := mk_keyset_env {
  ke_irrefl v : sql_lt v v = false;
  ke_trans a b c : sql_lt a b = true -> sql_lt b c = true -> sql_lt a c = true;
  ke_first : understands sql_eq sql_lt fill exec (keyset_stmt t (eqs kvs) o);
  ke_next : understands sql_eq sql_lt fill exec (keyset_stmt t ((o, Gt) :: eqs kvs) o);
  ke_scan r : r ∈ matching -> scan (project (columns t) r) = Some (ent r) /\ ent r !! go_name t o = Some (col o r);
  ke_key : (forall r, r ∈ matching -> exists z, col o r = VInt z /\ int64 z) \/ (forall r, r ∈ matching -> exists s, col o r = VText s /\ s <> "");
  ke_print_int z : sprint (VInt z) = pretty z;
  ke_print_text s : sprint (VText s) = s;
  ke_param z z' : int64 z -> sql_lt (VText (pretty z)) (VInt z') = sql_lt (VInt z) (VInt z')
}.

Context (He : keyset_env) (Hsize : 1 <= size < 2 ^ 63 - 1) (Ho : order_column t orderBy = inl o) (Hw : invalid t kvs = None).
Context (Hd : distinct_keys sql_lt o matching).

(** A cursor is not empty, and compares like the key it was printed from. *)
Lemma cursor_compares r r' : r ∈ matching -> r' ∈ matching -> sprint (col o r) <> "" /\ sql_lt (VText (sprint (col o r))) (col o r') = sql_lt (col o r) (col o r').
Proof using He.
  intros Hr Hr'. destruct (ke_key He) as [H|H]; destruct (H r Hr) as [x Hx], (H r' Hr') as [x' Hx'].
  - destruct Hx as [Hx Hi], Hx' as [Hx' _]. rewrite Hx, Hx', (ke_print_int He). split; [apply pretty_Z_nonempty|by apply (ke_param He)].
  - destruct Hx as [Hx Ne], Hx' as [Hx' _]. by rewrite Hx, Hx', (ke_print_text He).
Qed.

Definition in_order : list row := sort_rows sql_lt (keyset_order t o) matching.

Lemma keyset_order_cons : exists order, keyset_order t o = o :: order.
Proof using. unfold keyset_order. destruct (String.eqb o _); eauto. Qed.

Lemma in_order_sorted : StronglySorted (key_lt sql_lt o) in_order.
Proof using He Hd. unfold in_order. destruct keyset_order_cons as [order ->]. by apply sort_rows_sorted; [exact (ke_irrefl He)|exact (ke_trans He)|]. Qed.

Lemma in_order_matching r : r ∈ in_order <-> r ∈ matching.
Proof using. unfold in_order. by rewrite sort_rows_perm. Qed.

Lemma collect_page l : (forall r, r ∈ l -> r ∈ matching) -> collect scan "keyset" (Rows (project (columns t) <$> l)) = inl (ent <$> l).
Proof using He.
  intros Hl. cbn. assert (mapM scan (project (columns t) <$> l) = Some (ent <$> l)) as ->; [|done]. apply mapM_Some_2.
  induction l as [|r l IH]; cbn; constructor; [apply (ke_scan He), Hl, elem_of_cons; by left|]. apply IH. intros x Hx. apply Hl, elem_of_cons. by right.
Qed.

Lemma keyset_rest_page (rest : list row) : (forall r, r ∈ rest -> r ∈ matching) ->
  keyset_page scan sprint t size o (Rows (project (columns t) <$> take (Z.to_nat (size + 1)) rest)) =
  inl (ent <$> take (Z.to_nat size) rest,
       if size <? Z.of_nat (length rest) then match rest !! Z.to_nat (size - 1) with Some r => sprint (col o r) | None => "" end else "").
Proof using He Hsize.
  intros Hr. unfold keyset_page. rewrite collect_page by (intros r Hin; by apply Hr, (elem_take _ _ _ Hin)). rewrite length_fmap, length_take.
  destruct (Z.ltb_spec size (Z.of_nat (length rest))) as [Hlt|Hge].
  - rewrite (proj2 (Z.ltb_lt size _)) by lia. rewrite list_lookup_fmap, lookup_take_lt by lia. do 2 f_equal.
    + rewrite <- fmap_take, take_take. do 2 f_equal. lia.
    + destruct (rest !! Z.to_nat (size - 1)) as [r|] eqn:E; cbn; [|done]. by rewrite (proj2 (ke_scan He r (Hr r (list_elem_of_lookup_2 _ _ _ E)))).
  - rewrite (proj2 (Z.ltb_ge size _)) by lia. rewrite !take_ge by lia. done.
Qed.

Lemma keyset_arg (cs : list (string * cmp)) (args : list value) : length cs = length args ->
  lim_count Param ((args ++ [VInt (wrap64 (size + 1))]) !! length cs) = Some (Z.to_nat (size + 1)).
Proof using Hsize. intros ->. rewrite list_lookup_middle by done. by rewrite wrap64_small by lia. Qed.

Lemma first_page :
  (run exec (QueryKeyset range scan sprint t "" size orderBy w) d).1 = keyset_page scan sprint t size o (Rows (project (columns t) <$> take (Z.to_nat (size + 1)) in_order)).
Proof using He Hsize Ho Hw.
  rewrite QueryKeyset_eq. replace (size <? 1) with false by (symmetry; apply Z.ltb_ge; lia). cbv zeta. rewrite Ho, Hw. cbn [run]. cbn [cursor_conds cursor_args String.eqb app].
  rewrite (ke_first He). cbn [eval keyset_stmt run fst]. rewrite keyset_arg by (by rewrite eqs_length, length_fmap). cbn [lim_count].
  unfold in_order, matching. do 6 f_equal. apply Prelude.filter_ext_in. intros r _. by rewrite conds_hold_extra by (by rewrite eqs_length, length_fmap).
Qed.

Lemma next_page i x : in_order !! i = Some x ->
  (run exec (QueryKeyset range scan sprint t (sprint (col o x)) size orderBy w) d).1 =
  keyset_page scan sprint t size o (Rows (project (columns t) <$> take (Z.to_nat (size + 1)) (drop (S i) in_order))).
Proof using He Hsize Ho Hw Hd.
  intros Hx. assert (Hm : x ∈ matching) by (apply in_order_matching; by eapply list_elem_of_lookup_2).
  rewrite QueryKeyset_eq. replace (size <? 1) with false by (symmetry; apply Z.ltb_ge; lia). cbv zeta. rewrite Ho, Hw. cbn [run].
  unfold cursor_conds, cursor_args. destruct (String.eqb_spec (sprint (col o x)) "") as [E|_]; [by destruct (proj1 (cursor_compares x x Hm Hm))|].
  cbn [app]. rewrite (ke_next He). cbn [eval keyset_stmt run fst]. rewrite app_comm_cons. rewrite keyset_arg by (cbn; by rewrite eqs_length, length_fmap). cbn [lim_count].
  do 4 f_equal. set (P := fun r => sql_lt (VText (sprint (col o x))) (col o r) = true).
  transitivity (sort_rows sql_lt (keyset_order t o) (filter P matching)).
  - f_equal. unfold matching. rewrite list_filter_filter. apply Prelude.filter_ext_in. intros r _. rewrite conds_hold_extra by (cbn; by rewrite eqs_length, length_fmap).
    cbn. rewrite andb_True. unfold P. rewrite <- Is_true_true. tauto.
  - destruct keyset_order_cons as [order Eo]. rewrite Eo, sort_filter by (first [exact (ke_irrefl He)|exact (ke_trans He)|exact Hd]). rewrite <- Eo.
    change (sort_rows sql_lt (keyset_order t o) matching) with in_order.
    apply (filter_after sql_lt o (ke_irrefl He) (ke_trans He) _ i x); [apply in_order_sorted|done|].
    intros r Hr%in_order_matching. unfold P, key_lt. by rewrite (proj2 (cursor_compares x r Hm Hr)).
Qed.

Lemma pages_from fuel k cursor :
  (run exec (QueryKeyset range scan sprint t cursor size orderBy w) d).1 =
    keyset_page scan sprint t size o (Rows (project (columns t) <$> take (Z.to_nat (size + 1)) (drop k in_order))) ->
  (length (drop k in_order) < fuel)%nat -> pages fuel t cursor size orderBy w d = ent <$> drop k in_order.
Proof using He Hsize Ho Hw Hd.
  revert k cursor. induction fuel as [|fuel IH]; intros k cursor Hrun Hlen; [lia|]. cbn [pages]. rewrite Hrun.
  rewrite keyset_rest_page by (intros r Hr; apply in_order_matching; rewrite <- (take_drop k in_order); apply elem_of_app; by right).
  destruct (Z.ltb_spec size (Z.of_nat (length (drop k in_order)))) as [Hlt|Hge].
  - destruct (lookup_lt_is_Some_2 (drop k in_order) (Z.to_nat (size - 1)) ltac:(lia)) as [x Hx]. rewrite Hx.
    rewrite lookup_drop in Hx. assert (Hm : x ∈ matching) by (apply in_order_matching; by eapply list_elem_of_lookup_2).
    destruct (String.eqb_spec (sprint (col o x)) "") as [E|_]; [by destruct (proj1 (cursor_compares x x Hm Hm))|].
    rewrite (IH (S (k + Z.to_nat (size - 1)))).
    + rewrite <- fmap_app. f_equal. rewrite <- (take_drop (Z.to_nat size) (drop k in_order)) at 2. rewrite drop_drop. do 2 f_equal. lia.
    + by apply next_page.
    + rewrite length_drop in *. lia.
  - cbn. rewrite take_ge by lia. by rewrite app_nil_r.
Qed.

(** C19: following the cursors of keyset pagination returns every row the filters select
    exactly once, in the order of the key, and ends: when no two of those rows have the
    same value in the order column, and that column holds integers or non-empty texts that
    are no pointers (the cursor is the printed key), and the page size is below the
    greatest integer. *)
Theorem keyset_visits_all :
  pages (S (length matching)) t "" size orderBy w d = ent <$> in_order /\ in_order ≡ₚ matching /\ StronglySorted (key_lt sql_lt o) in_order.
Proof using He Hsize Ho Hw Hd.
  assert (Hp : in_order ≡ₚ matching) by (unfold in_order; apply sort_rows_perm). split; [|split; [done|apply in_order_sorted]].
  apply (pages_from _ 0); [apply first_page|]. rewrite drop_0, (Permutation_length Hp). lia.
Qed.
End keyset.

(** ** A database that understands given statements *)

Definition db_of (sql_eq sql_lt : value -> value -> bool) (fill : row -> row) (stmts : list sql) (q : string) (args : list value) (d : list row) : reply * list row :=
  match list_find (fun s => render s = q) stmts with Some (_, s) => eval sql_eq sql_lt fill s args d | None => (Failed, d) end.

Lemma db_of_understands sql_eq sql_lt fill stmts i s :
  stmts !! i = Some s -> (forall j s', (j < i)%nat -> stmts !! j = Some s' -> render s' <> render s) ->
  understands sql_eq sql_lt fill (db_of sql_eq sql_lt fill stmts) s.
Proof.
  intros Hs Hj args d. unfold db_of. rewrite (proj2 (list_find_Some _ _ i s)); [done|]. split_and!; [done|done|]. intros j y Hy Hlt. by eapply Hj.
Qed.

(** Numbers, and texts that are numbers, compare as numbers; other texts as equal or not. *)
Definition demo_num (v : value) : option Z :=
  match v with VInt z => Some z | VText s => match ParseInt s with (z, None) => Some z | _ => None end | _ => None end.
Definition demo_lt (a b : value) : bool := match demo_num a, demo_num b with Some x, Some y => x <? y | _, _ => false end.
Definition demo_eq (a b : value) : bool :=
  match a, b with VText s, VText u => String.eqb s u | _, _ => match demo_num a, demo_num b with Some x, Some y => x =? y | _, _ => false end end.
Definition demo_print (v : value) : string := match v with VInt z => pretty z | VText s => s | _ => "" end.

Definition demo_info : TableInfo :=
  let f c n pk := mkFieldInfo c n pk false false "" false false false TString "" "" "" in
  mkTableInfo [f "id" "ID" true; f "score" "Score" false; f "org_id" "OrgID" false] "id".
Definition demo_table : Table := NewTable demo_info "items".
Definition demo_row (id score : Z) (org : string) : row := {["id" := VInt id; "score" := VInt score; "org_id" := VText org]}.
Definition demo_scan (r : row) : option entity := Some {["ID" := col "id" r; "Score" := col "score" r; "OrgID" := col "org_id" r]}.
Definition demo_range (V : Type) (m : gmap string V) : list (string * V) := map_to_list m.
Definition demo_w (org : string) : gmap string value := {["org_id" := VText org]}.

Lemma demo_lt_irrefl v : demo_lt v v = false.
Proof. unfold demo_lt. destruct (demo_num v); [apply Z.ltb_irrefl|done]. Qed.

Lemma demo_lt_trans a b c : demo_lt a b = true -> demo_lt b c = true -> demo_lt a c = true.
Proof. unfold demo_lt. destruct (demo_num a), (demo_num b), (demo_num c); try done. lia. Qed.

Definition demo_exec : string -> list value -> list row -> reply * list row :=
  db_of demo_eq demo_lt id [keyset_stmt demo_table [("org_id", Eq)] "id"; keyset_stmt demo_table [("id", Gt); ("org_id", Eq)] "id"].
Definition demo_rows : list row := [demo_row 3 0 "a"; demo_row 9 0 "b"; demo_row 1 0 "a"; demo_row 2 0 "a"].
Definition demo_ent (r : row) : entity := default ∅ (demo_scan r).

Lemma keyset_visits_all_witness :
  pages demo_range demo_scan demo_print demo_exec 4 demo_table "" 2 "" (demo_w "a") demo_rows =
  demo_ent <$> in_order demo_range demo_eq demo_lt demo_table "id" (demo_w "a") demo_rows /\
  ((fun r => col "id" r) <$> in_order demo_range demo_eq demo_lt demo_table "id" (demo_w "a") demo_rows) = [VInt 1; VInt 2; VInt 3].
Proof.
  assert (Hm : matching demo_range demo_eq demo_lt (demo_w "a") demo_rows = [demo_row 3 0 "a"; demo_row 1 0 "a"; demo_row 2 0 "a"]) by (refine (bool_decide_unpack _ _); vm_compute; exact I).
  destruct (keyset_visits_all demo_range demo_scan demo_print demo_eq demo_lt id demo_exec demo_table 2 "" "id" (demo_w "a") demo_rows demo_ent) as (Hp & _); [|lia|reflexivity..| |].
  - constructor.
    + exact demo_lt_irrefl.
    + exact demo_lt_trans.
    + apply (db_of_understands _ _ _ _ 0); [reflexivity|lia].
    + apply (db_of_understands _ _ _ _ 1); [reflexivity|]. intros [|j] s' Hj; [|lia]. intros [= <-]. vm_compute. discriminate.
    + intros r. rewrite Hm, !elem_of_cons, elem_of_nil. intros [->|[->|[->|[]]]]; (split; [refine (bool_decide_unpack _ _); vm_compute; exact I|vm_compute; reflexivity]).
    + left. intros r. rewrite Hm, !elem_of_cons, elem_of_nil. intros [->|[->|[->|[]]]]; eexists; (split; [vm_compute; reflexivity|split; vm_compute; congruence]).
    + done.
    + done.
    + intros z z' Hz. unfold demo_lt, demo_num. by rewrite ParseInt_pretty_Z.
  - rewrite Hm. apply distinct_b_sound. vm_compute. reflexivity.
  - rewrite Hm in Hp. split; [exact Hp|]. vm_compute. reflexivity.
Defined.

(** Keyset pagination over a column that is not unique loses rows: the next page starts
    after the last value, not after the last row.  Three rows with the same score, read one
    per page: the first page is also the last but one, two rows are never returned. *)
Theorem keyset_skips_ties :
  let exec := db_of demo_eq demo_lt id [keyset_stmt demo_table [] "score"; keyset_stmt demo_table [("score", Gt)] "score"] in
  let d := [demo_row 1 7 "a"; demo_row 2 7 "a"; demo_row 3 7 "a"; demo_row 4 8 "a"] in
  (fun e => e !! "ID") <$> pages demo_range demo_scan demo_print exec 9 demo_table "" 1 "score" ∅ d = [Some (VInt 1); Some (VInt 4)].
Proof. vm_compute. reflexivity. Qed.
