(* ===== verification/TableOps.v ===== *)
(** * Further table operations (db/table.go) and prepared tables (db/prepared.go)

    [Exists], [Increment], [Upsert], [BatchInsert], [ExecRaw] and [Transaction] of [Table], and
    [PreparedTable], which prepares its statements on one connection of the pool and then
    runs them by name on whichever connection the pool hands out. *)

From Stdlib Require Import Ascii String.
From stdpp Require Import pretty.
From S2P Require Import Prelude GoStrings GoStrconv SqlModel SqlTable.
#[local] Open Scope list_scope.
#[local] Open Scope Z_scope.

Section table.
Context (scan : row -> option entity).

Definition Exists (t : Table) (column : string) (v : value) : prog (bool + db_error) :=
  if negb (validColumn t column) then Ret (inr (ErrInvalidColumn column))
  else Ask ("SELECT 1 FROM " +++ tableName t +++ " WHERE " +++ column +++ " = $1 LIMIT 1") [v]
         (fun r => Ret (match r with Failed => inr (ErrDB "exists") | Rows (_ :: _) => inl true | _ => inl false end)).

Definition Increment (t : Table) (id : value) (column : string) (amount : Z) : prog (option db_error) :=
  if negb (validColumn t column) then Ret (Some (ErrInvalidColumn column))
  else Ask ("UPDATE " +++ tableName t +++ " SET " +++ column +++ " = " +++ column +++ " + $1 WHERE " +++ PrimaryKey (t_info t) +++ " = $2") [VInt amount; id]
         (fun r => Ret (affected "increment" r)).

Definition ExecRaw (sql : string) (args : list value) : prog (Z + db_error) :=
  Ask sql args (fun r => Ret (match r with Affected n => inl n | _ => inr (ErrDB "exec") end)).

(** The columns, the SET list and the statement of [Upsert]. *)
Definition upsert_sets (conflictColumn : string) (cols : list string) : list string :=
  (fun c => c +++ " = EXCLUDED." +++ c) <$> filter (fun c => c <> conflictColumn) cols.

Definition Upsert (t : Table) (e : entity) (conflictColumn : string) : prog (entity + db_error) :=
  if negb (validColumn t conflictColumn) then Ret (inr (ErrInvalidColumn conflictColumn))
  else
    let cvs := insert_values (Fields (t_info t)) e in
    Ask ("INSERT INTO " +++ tableName t +++ " (" +++ Join cvs.*1 ", " +++ ") VALUES (" +++ Join (placeholders (length cvs)) ", " +++ ") ON CONFLICT (" +++ conflictColumn
         +++ ") DO UPDATE SET " +++ Join (upsert_sets conflictColumn cvs.*1) ", " +++ " RETURNING " +++ columnsList t)
      cvs.*2 (fun r => Ret (one scan false "upsert" r)).

(** [insertColumns], and the rows [BatchInsert] copies: a zero value of a field with a default
    is sent as NULL. *)
Definition insertColumns (t : Table) : list string := Column <$> filter (fun f => Skip f = false /\ Auto f = false) (Fields (t_info t)).
Definition columnField (t : Table) (column : string) : option FieldInfo := snd <$> list_find (fun f => Column f = column) (Fields (t_info t)).

Definition batch_value (t : Table) (e : entity) (col : string) : list value :=
  match columnField t col with
  | None => []
  | Some fi => match e !! GoName fi with None => [] | Some v => if negb (String.eqb (Default fi) "") && IsZero v then [VNull] else [v] end
  end.
Definition batch_row (t : Table) (e : entity) : list value := insertColumns t ≫= batch_value t e.

(** The call of [CopyFrom]: the table, the columns and the rows; nothing for no entities. *)
Definition BatchInsert (t : Table) (entities : list entity) : option (string * list string * list (list value)) :=
  match entities with [] => None | _ => Some (tableName t, insertColumns t, batch_row t <$> entities) end.

(** [Transaction] on the database [d]: [fn] returns its error and the changed database. *)
Definition Transaction {D} (begin_ok commit_ok : bool) (fn : D -> option db_error * D) (d : D) : option db_error * D :=
  if negb begin_ok then (Some (ErrDB "tx begin"), d)
  else match fn d with
       | (Some e, _) => (Some e, d)
       | (None, d') => if commit_ok then (None, d') else (Some (ErrDB "commit"), d)
       end.

(** ** Prepared tables *)

(** [conns] holds, for each connection of the pool, the statements prepared on it. *)
Record PreparedTable : Type := mkPrepared { pt_table : Table; pt_prepped : gset string; pt_conns : list (gmap string string) }.

Definition NewPreparedTable (t : Table) (conns : list (gmap string string)) : PreparedTable := mkPrepared t ∅ conns.

Definition stmtName (t : Table) (op : string) : string := "sdk_" +++ tableName t +++ ":" +++ op.

Definition buildSQL (t : Table) (op : string) : option string :=
  if String.eqb op "list" then Some ("SELECT " +++ columnsList t +++ " FROM " +++ tableName t +++ " ORDER BY " +++ PrimaryKey (t_info t) +++ " LIMIT " +++ pretty defaultListLimit)
  else if String.eqb op "get" then Some ("SELECT " +++ columnsList t +++ " FROM " +++ tableName t +++ " WHERE " +++ PrimaryKey (t_info t) +++ " = $1")
  else if String.eqb op "count" then Some ("SELECT COUNT(" +++ "*) FROM " +++ tableName t)
  else if String.eqb op "exists" then Some ("SELECT 1 FROM " +++ tableName t +++ " WHERE " +++ PrimaryKey (t_info t) +++ " = $1 LIMIT 1")
  else if String.eqb op "delete" then Some ("DELETE FROM " +++ tableName t +++ " WHERE " +++ PrimaryKey (t_info t) +++ " = $1")
  else None.

(** [prepare]: [acquired] is the connection the pool gives, if any.  Whether it worked, and the
    table afterwards. *)
Definition prepare (acquired : option nat) (op : string) (pt : PreparedTable) : bool * PreparedTable :=
  if decide (op ∈ pt_prepped pt) then (true, pt)
  else match buildSQL (pt_table pt) op, acquired with
       | Some sql, Some i =>
           match pt_conns pt !! i with
           | Some c => (true, mkPrepared (pt_table pt) ({[op]} ∪ pt_prepped pt) (<[i := <[stmtName (pt_table pt) op := sql]> c]> (pt_conns pt)))
           | None => (false, pt)
           end
       | _, _ => (false, pt)
       end.

(** A statement run by its name on connection [j]: the database takes the name for the statement
    prepared there, and for SQL text otherwise. *)
Definition stmt_text (j : nat) (name : string) (pt : PreparedTable) : string :=
  match pt_conns pt !! j with Some c => default name (c !! name) | None => name end.

Definition with_stmt {A} (acquired : option nat) (j : nat) (op : string) (pt : PreparedTable) (fallback : prog A) (args : list value) (k : reply -> A) : prog A * PreparedTable :=
  let '(ok, pt) := prepare acquired op pt in
  (if ok then Ask (stmt_text j (stmtName (pt_table pt) op) pt) args (fun r => Ret (k r)) else fallback, pt).

Definition prepared_List (acquired : option nat) (j : nat) (pt : PreparedTable) : prog (list entity + db_error) * PreparedTable :=
  with_stmt acquired j "list" pt (List_ scan (pt_table pt)) [] (collect scan "list").
Definition prepared_Get (acquired : option nat) (j : nat) (id : value) (pt : PreparedTable) : prog (entity + db_error) * PreparedTable :=
  with_stmt acquired j "get" pt (Get scan (pt_table pt) id) [id] (one scan false "get").
Definition prepared_Count (acquired : option nat) (j : nat) (pt : PreparedTable) : prog (Z + db_error) * PreparedTable :=
  with_stmt acquired j "count" pt (Ret (inr (ErrDB "count"))) [] (fun r => match r with Number n => inl n | _ => inr (ErrDB "count") end).
Definition prepared_Exists (acquired : option nat) (j : nat) (scan_bool : reply -> option bool) (column : string) (v : value) (pt : PreparedTable) : prog (bool + db_error) * PreparedTable :=
  let '(ok, pt) := prepare acquired "exists" pt in
  (if negb ok || negb (String.eqb column (PrimaryKey (t_info (pt_table pt)))) then Exists (pt_table pt) column v
   else Ask (stmt_text j (stmtName (pt_table pt) "exists") pt) [v] (fun r => Ret (match scan_bool r with Some b => inl b | None => inr (ErrDB "exists") end)), pt).
Definition prepared_Delete (acquired : option nat) (j : nat) (id : value) (pt : PreparedTable) : prog (option db_error) * PreparedTable :=
  with_stmt acquired j "delete" pt (Delete (pt_table pt) id) [id] (fun r => match r with Affected _ => None | _ => Some (ErrDB "delete") end).
End table.

(** ** Properties *)

Lemma stmtName_inj t op op' : stmtName t op = stmtName t op' -> op = op'.
Proof. unfold stmtName. intros H. do 3 apply (inj (String.append _)) in H. done. Qed.

(** What is prepared is prepared on the first connection, with the statement of the operation. *)
Definition prepared_inv (pt : PreparedTable) : Prop :=
  exists c, pt_conns pt = [c] /\ forall op, op ∈ pt_prepped pt -> exists sql, buildSQL (pt_table pt) op = Some sql /\ c !! stmtName (pt_table pt) op = Some sql.

Lemma prepare_inv acquired op pt : prepared_inv pt ->
  let '(ok, pt') := prepare acquired op pt in
  prepared_inv pt' /\ pt_table pt' = pt_table pt /\ (ok = true -> Some (stmt_text 0 (stmtName (pt_table pt) op) pt') = buildSQL (pt_table pt) op).
Proof.
  intros (c & Ec & I). unfold prepare. destruct (decide _) as [D|D].
  - split; [by exists c|]. split; [done|]. intros _. destruct (I _ D) as (sql & E1 & E2). unfold stmt_text. by rewrite Ec, E1; cbn; rewrite E2.
  - assert (P : prepared_inv pt) by (by exists c). destruct (buildSQL (pt_table pt) op) as [sql|] eqn:B; [|done]. destruct acquired as [i|]; [|done].
    rewrite Ec. destruct i as [|i]; [|done]. cbn. split; [|split; [done|intros _; unfold stmt_text; cbn; by rewrite lookup_insert_eq]].
    eexists. split; [reflexivity|]. cbn. intros op' [->%elem_of_singleton|H]%elem_of_union; [exists sql; by rewrite lookup_insert_eq|].
    destruct (I _ H) as (sql' & E1 & E2). exists sql'. split; [done|]. rewrite lookup_insert_ne; [done|]. intros ->%stmtName_inj. done.
Qed.

(** Over a pool of one connection a prepared table answers lists, counts and gets of rows
    that exist as the table does, prepares each statement once, and keeps doing so in every
    state that its operations reach. *)
Theorem prepared_refines_table (scan : row -> option entity) (acquired : option nat) (id : value) (pt : PreparedTable)
    (exec : string -> list value -> list row -> reply * list row) (d : list row) :
  prepared_inv pt ->
  (let '(p, pt') := prepared_List scan acquired 0 pt in prepared_inv pt' /\ run exec p d = run exec (List_ scan (pt_table pt)) d)
  /\ (let '(p, pt') := prepared_Count acquired 0 pt in prepared_inv pt' /\ (acquired = Some 0%nat -> run exec p d = run exec (Count (pt_table pt) []) d))
  /\ (let '(p, pt') := prepared_Get scan acquired 0 id pt in prepared_inv pt'
      /\ match run exec (Get scan (pt_table pt) id) d with
         | (inl e, d') => run exec p d = (inl e, d')
         | (inr _, d') => exists err, run exec p d = (inr err, d')
         end).
Proof.
  intros I. split_and!.
  - unfold prepared_List, with_stmt. pose proof (prepare_inv acquired "list" pt I) as P. destruct (prepare acquired "list" pt) as [ok pt']. destruct P as (P1 & P2 & P3).
    split; [done|]. destruct ok; [|done]. specialize (P3 eq_refl). cbn in P3. injection P3 as P3. rewrite P2. cbn [run]. rewrite P3. done.
  - unfold prepared_Count, with_stmt. pose proof (prepare_inv acquired "count" pt I) as P. destruct (prepare acquired "count" pt) as [ok pt'] eqn:E. destruct P as (P1 & P2 & P3).
    split; [done|]. intros ->. destruct ok.
    + specialize (P3 eq_refl). cbn in P3. injection P3 as P3. rewrite P2. cbn [run]. rewrite P3. done.
    + destruct I as (c & Ec & _). unfold prepare in E. destruct (decide _); [done|]. cbn in E. rewrite Ec in E. done.
  - unfold prepared_Get, with_stmt. pose proof (prepare_inv acquired "get" pt I) as P. destruct (prepare acquired "get" pt) as [ok pt']. destruct P as (P1 & P2 & P3).
    split; [done|]. destruct ok; [|destruct (run exec (Get scan (pt_table pt) id) d) as [[e|err] d'] eqn:R; eauto].
    specialize (P3 eq_refl). cbn in P3. injection P3 as P3. rewrite P2. cbn [run Get]. rewrite P3. destruct (exec _ [id] d) as [r d']. cbn.
    destruct r as [|[|x [|y l]]| |]; cbn; eauto. destruct (scan x); eauto.
Qed.
Lemma prepared_refines_table_witness : let '(p, pt') := prepared_List demo_scan (Some 0%nat) 0 (NewPreparedTable demo_table [∅]) in
  prepared_inv pt' /\ run demo_exec p demo_rows = run demo_exec (List_ demo_scan demo_table) demo_rows.
Proof.
  refine (proj1 (prepared_refines_table demo_scan (Some 0%nat) (VInt 1) (NewPreparedTable demo_table [∅]) demo_exec demo_rows _)).
  exists ∅. split; [reflexivity|]. intros op H. destruct (proj1 (elem_of_empty op) H).
Defined.

(** Over a pool of two connections the statement is prepared on one, and the other gets its
    name for a query; and a prepared delete of a row that is not there succeeds. *)
Lemma prepared_elsewhere : let '(p, pt') := prepared_List demo_scan (Some 0%nat) 1 (NewPreparedTable demo_table [∅; ∅]) in
  match p with Ask q _ _ => q = "sdk_items:list" | Ret _ => False end.
Proof. reflexivity. Qed.

Lemma prepared_delete_missing (d : list row) :
  let exec := fun (_ : string) (_ : list value) d => (Affected 0, d) in
  run exec (prepared_Delete (Some 0%nat) 0 (VInt 7) (NewPreparedTable demo_table [∅])).1 d = (None, d)
  /\ run exec (Delete demo_table (VInt 7)) d = (Some ErrNotFound, d).
Proof. split; reflexivity. Qed.

(** The rows of a batch have a value for each of its columns when the struct has the
    model's fields; where the field has a default and the value is zero, [Create] leaves the
    column out, so that the default applies, and the batch sends NULL. *)
Theorem batch_rows_fit (t : Table) (e : entity) :
  Forall (fun f => is_Some (e !! GoName f)) (Fields (t_info t)) -> NoDup (Column <$> Fields (t_info t)) ->
  length (batch_row t e) = length (insertColumns t)
  /\ forall f v, f ∈ Fields (t_info t) -> Skip f = false -> Auto f = false -> e !! GoName f = Some v -> Default f <> "" -> IsZero v = true ->
     batch_value t e (Column f) = [VNull] /\ Column f ∉ (insert_values (Fields (t_info t)) e).*1.
Proof.
  intros F N.
  assert (K : forall f, f ∈ Fields (t_info t) -> columnField t (Column f) = Some f).
  { intros f Hf. unfold columnField. destruct (list_find_elem_of (fun f' => Column f' = Column f) _ f Hf eq_refl) as [[i f'] E]. rewrite E. cbn. f_equal.
    apply list_find_Some in E as (E1 & E2 & _). apply list_elem_of_lookup in Hf as [j Ej].
    assert (i = j); [|congruence]. eapply (NoDup_lookup _ i j (Column f) N); rewrite list_lookup_fmap; [by rewrite E1; cbn; rewrite E2|by rewrite Ej]. }
  split.
  - unfold batch_row, insertColumns. assert (S : forall f, f ∈ filter (fun f => Skip f = false /\ Auto f = false) (Fields (t_info t)) -> length (batch_value t e (Column f)) = 1%nat).
    { intros f [_ Hf]%list_elem_of_filter. unfold batch_value. rewrite (K f Hf). rewrite Forall_forall in F. destruct (F f Hf) as [v ->]. by destruct (_ && _). }
    revert S. generalize (filter (fun f => Skip f = false /\ Auto f = false) (Fields (t_info t))). induction l as [|f l IH]; intros S; cbn; [done|].
    rewrite length_app, (S f) by left. cbn. f_equal. apply IH. intros f' Hf'. apply S. by right.
  - intros f v Hf Sk Au Ev De Ze. split.
    + unfold batch_value. rewrite (K f Hf), Ev, Ze. by destruct (String.eqb_spec (Default f) "").
    + intros ([c w] & E & H)%list_elem_of_fmap. cbn in E. subst c.
      assert (G : forall fs, (forall g, g ∈ fs -> g ∈ Fields (t_info t)) -> (Column f, w) ∉ insert_values fs e).
      { induction fs as [|g fs IH]; intros Hs; cbn [insert_values]; [by intros ?%elem_of_nil|]. assert (IH' := IH ltac:(set_solver)).
        destruct (Skip g || Auto g); [done|]. destruct (e !! GoName g) as [u|] eqn:Eu; [|done]. destruct (_ && _) eqn:Z; [done|].
        intros [E|?]%elem_of_cons; [|done]. injection E as E1 E2. assert (g = f).
        { pose proof (K g (Hs g ltac:(by left))) as Kg. rewrite <- E1, (K f Hf) in Kg. congruence. }
        subst g. rewrite Ev in Eu. injection Eu as ->. rewrite Ze, andb_true_r in Z. destruct (String.eqb_spec (Default f) ""); done. }
      by apply (G _ (fun g H => H)).
Qed.
Lemma batch_rows_fit_witness : length (batch_row demo_table {["ID" := VInt 0; "Score" := VInt 0; "OrgID" := VText "a"]}) = length (insertColumns demo_table).
Proof.
  apply (batch_rows_fit demo_table {["ID" := VInt 0; "Score" := VInt 0; "OrgID" := VText "a"]}).
  - repeat constructor; cbn; eexists; reflexivity.
  - apply (bool_decide_unpack _). vm_compute. exact I.
Defined.
