(* ===== verification/Crud.v ===== *)
(** * CRUD entries (runtime/entry_crud.go, runtime/table_provider.go)

    The handlers behind a CRUD entry on a PostgreSQL table: the tenant middleware, the list
    parameters, and [tableCRUD], which turns requests into table operations.  A handler is a
    [prog] of SqlTable whose result is the response.  Decoding of request bodies is done
    before ([None] is a body that does not decode), and the hooks of the entry are functions
    of what they are given. *)

From Stdlib Require Import Ascii String.
From S2P Require Import Prelude GoStrings GoStrconv Http SqlModel SqlTable.
#[local] Open Scope list_scope.
#[local] Open Scope Z_scope.

(** ** Overrides and routes *)

Definition isDisabled (field : string) : bool := String.eqb field "-".
Definition isOverridden (field : string) : bool := negb (String.eqb field "") && negb (String.eqb field "-").

Definition buildIDParam (path : string) : string :=
  if existsb (fun part => HasPrefix part ":") (Split path "/") then "" else "/:id".

(** What is registered for an operation: nothing, the handler named in the override, or the
    provider's; [inr] is the error for a handler that does not exist. *)
Inductive registration := NotRegistered | Override (name : string) | Provided.

Definition register_operation (handlers : list string) (field : string) : registration + string :=
  if isDisabled field then inl NotRegistered
  else if isOverridden field then (if bool_decide (field ∈ handlers) then inl (Override field) else inr field)
  else inl Provided.

(** ** The tenant *)

Record tenant_entry : Type := mkTenantEntry { TenantField : string; TenantScope : string }.

Definition buildTenantMiddleware (entry : tenant_entry) (rq : request) : outcome :=
  let scope := if String.eqb (TenantScope entry) "" then "org_id" else TenantScope entry in
  let tenantID := match rq_local rq "claims" with
                  | Some cl => match cl !! scope with Some (JStr tid) => tid | _ => "" end
                  | None => ""
                  end in
  let tenantID := if String.eqb tenantID "" then match rq_auth rq with Some a => OrgID a | None => "" end else tenantID in
  if String.eqb tenantID "" then Reply 403 "tenant scope not found in token claims"
  else Next [SetLocal "tenant_field" (TenantField entry); SetLocal "tenant_id" tenantID].

(** The locals [tenant_field] and [tenant_id], if they are strings. *)
Definition tenantInfo (field id : option string) : string * string :=
  match field, id with
  | Some f, Some i => if negb (String.eqb f "") && negb (String.eqb i "") then (f, i) else ("", "")
  | _, _ => ("", "")
  end.

(** ** List parameters *)

Record ListParams : Type := mkListParams {
  Page : Z; Size : Z; Sort : string; Filters : gmap string string; Cursor : string; Pagination : string; lp_Fields : list string
}.

(** The query string of a request: its arguments in order, and Fiber's [Query[int]], which
    returns the default for an absent or malformed number. *)
Record query_args : Type := mkQuery { q_all : list (string * string); q_int : string -> Z -> Z }.

(** [c.Query(key, def)]: the first value, and the default when it is absent or empty *)
Definition q_string (q : query_args) (key def : string) : string :=
  match list_find (fun kv => kv.1 = key) (q_all q) with
  | Some (_, (_, v)) => if String.eqb v "" then def else v
  | None => def
  end.

Definition reserved : list string := ["page"; "size"; "sort"; "cursor"].

Definition parseListParams (q : query_args) (pageSize maxPageSize : Z) (sortable : list string) (pagination : string) : ListParams + string :=
  let size := Z.min (Z.max (q_int q "size" pageSize) pageSize) maxPageSize in
  let sort := q_string q "sort" "id" in
  let sort := if String.eqb sort "" then "id" else sort in
  if negb (bool_decide (sortable = [])) && negb (bool_decide (sort ∈ sortable)) then inr sort
  else
    let page := Z.max (q_int q "page" 1) 1 in
    let filters := foldl (fun m kv => if bool_decide (kv.1 ∈ reserved) then m else <[kv.1 := kv.2]> m) ∅ (q_all q) in
    inl (mkListParams page size sort filters (q_string q "cursor" "") pagination []).

(** The sizes [registerCRUDList] passes on. *)
Definition page_sizes (PageSize MaxPageSize : Z) : Z * Z :=
  let pageSize := if PageSize <? 1 then 10 else PageSize in
  let maxPageSize := if MaxPageSize <? 1 then 100 else MaxPageSize in
  (pageSize, if maxPageSize <? pageSize then pageSize else maxPageSize).

(** ** Responses *)

Inductive http_error := ErrValidation (field : string) | ErrNotFoundRecord | ErrDBQuery (e : db_error).

(** The entities, or what [filterSlice] keeps of them. *)
Inductive data := Items (l : list entity) | Selected (l : list (gmap string value)).

Inductive response :=
| Item (status : Z) (e : entity)
| PaginatedResponse (d : data) (total page size : Z)
| KeysetResponse (d : data) (nextCursor : string) (pageSize : Z)
| NoContent
| Err (e : http_error).

Definition json_name (f : FieldInfo) : string :=
  if String.eqb (Tags_json f) "" || String.eqb (Tags_json f) "-" then GoName f else (SplitN2 (Tags_json f) ",").1.

Definition filterFields (info : TableInfo) (fields : list string) (e : entity) : gmap string value :=
  foldl (fun m f => if bool_decide (json_name f ∈ fields)
                    then match e !! GoName f with Some v => <[json_name f := v]> m | None => m end
                    else m) ∅ (SqlModel.Fields info).

Definition filterSlice (info : TableInfo) (items : list entity) (fields : list string) : data :=
  match fields with [] => Items items | _ => Selected (filterFields info fields <$> items) end.

(** [ErrNotFound] becomes a 404, everything else a database error. *)
Definition item_error (e : db_error) : http_error := match e with ErrNotFound => ErrNotFoundRecord | e => ErrDBQuery e end.

Section crud.
Context (range : forall V, gmap string V -> list (string * V)) (scan : row -> option entity) (sprint : value -> string).

(** The hooks; the After hooks get a pointer and may change what is answered, their errors
    are logged. *)
Record hooks : Type := mkHooks {
  BeforeCreate : entity -> option entity; AfterCreate : entity -> entity;
  BeforeUpdate : string -> gmap string value -> option (gmap string value); AfterUpdate : entity -> entity;
  BeforeDelete : string -> bool
}.
Definition DefaultHooks : hooks := mkHooks Some id (fun _ p => Some p) id (fun _ => true).

Context (h : hooks).

Definition makeFiltersMap (filters : gmap string string) : gmap string value := VText <$> filters.

Definition scoped (tenant : string * string) : bool := negb (String.eqb tenant.1 "") && negb (String.eqb tenant.2 "").

Definition with_tenant (tenant : string * string) (w : gmap string value) : gmap string value :=
  if scoped tenant then <[tenant.1 := VText tenant.2]> w else w.

Definition crud_List (t : Table) (tenant : string * string) (params : ListParams) : prog response :=
  let filters := ResolvePatchColumns range (t_info t) (Filters params) in
  if String.eqb (Pagination params) "keyset" then
    bind (QueryKeyset range scan sprint t (Cursor params) (Size params) (Sort params) (with_tenant tenant (makeFiltersMap filters)))
      (fun r => Ret (match r with
                     | inr e => Err (ErrDBQuery e)
                     | inl (items, next) => KeysetResponse (filterSlice (t_info t) items (lp_Fields params)) next (Size params)
                     end))
  else if negb (bool_decide (filters = ∅)) || scoped tenant then
    let wcs := ((fun kv => (kv.1, VText kv.2)) <$> range _ filters) ++ (if scoped tenant then [(tenant.1, VText tenant.2)] else []) in
    bind (QueryWhere range scan t (with_tenant tenant (makeFiltersMap filters)) (Sort params) (Size params) (wrap64 ((Page params - 1) * Size params)))
      (fun r => match r with
                | inr e => Ret (Err (ErrDBQuery e))
                | inl items =>
                    bind (Count t wcs) (fun n => Ret (match n with
                      | inr e => Err (ErrDBQuery e)
                      | inl total => PaginatedResponse (filterSlice (t_info t) items (lp_Fields params)) total (Page params) (Size params)
                      end))
                end)
  else
    bind (QueryPaginated scan t (Page params) (Size params) (Sort params))
      (fun r => Ret (match r with
                     | inr e => Err (ErrDBQuery e)
                     | inl (items, total) => PaginatedResponse (filterSlice (t_info t) items (lp_Fields params)) total (Page params) (Size params)
                     end)).

Definition crud_Get (t : Table) (tenant : string * string) (id : string) : prog response :=
  bind (if scoped tenant then GetScoped scan t (VText id) tenant.1 tenant.2 else Get scan t (VText id))
    (fun r => Ret (match r with inl item => Item 200 item | inr e => Err (item_error e) end)).

(** [None] is the panic of [CreateScoped]. *)
Definition crud_Create (t : Table) (tenant : string * string) (body : option entity) : option (prog response) :=
  match body with
  | None => Some (Ret (Err (ErrValidation "body")))
  | Some e =>
      match BeforeCreate h e with
      | None => Some (Ret (Err (ErrValidation "hook")))
      | Some e =>
          p ← (if scoped tenant then CreateScoped scan t e tenant.1 tenant.2 else Some (Create scan t e));
          Some (bind p (fun r => Ret (match r with inl e => Item 201 (AfterCreate h e) | inr e => Err (ErrDBQuery e) end)))
      end
  end.

Definition crud_Update (t : Table) (tenant : string * string) (id : string) (body : option (gmap string value)) : prog response :=
  match body with
  | None => Ret (Err (ErrValidation "body"))
  | Some patch =>
      match BeforeUpdate h id patch with
      | None => Ret (Err (ErrValidation "hook"))
      | Some patch =>
          let patch := ResolvePatchColumns range (t_info t) patch in
          bind (if scoped tenant then UpdateScoped range scan t (VText id) patch tenant.1 tenant.2 else Update range scan t (VText id) patch)
            (fun r => Ret (match r with inl e => Item 200 (AfterUpdate h e) | inr e => Err (item_error e) end))
      end
  end.

Definition crud_Delete (t : Table) (tenant : string * string) (id : string) : prog response :=
  if negb (BeforeDelete h id) then Ret (Err (ErrValidation "hook"))
  else bind (if scoped tenant then DeleteScoped t (VText id) tenant.1 tenant.2 else Delete t (VText id))
         (fun r => Ret (match r with None => NoContent | Some e => Err (item_error e) end)).
End crud.

(** ** Tenant isolation *)

Section isolation.
Context (sql_eq sql_lt : value -> value -> bool) (fill : row -> row).
Context (tf tid : string).
Notation holds := (conds_hold sql_eq sql_lt).

(** A row of the tenant. *)
Definition mine (r : row) : bool := sql_eq (col tf r) (VText tid).

Definition conds_of (s : sql) : list (string * cmp) :=
  match s with SSelect _ _ cs _ _ _ | SCount _ cs | SUpdate _ _ cs _ | SDelete _ cs => cs | SInsert _ _ _ => [] end.
Definition where_args (s : sql) (args : list value) : list value := match s with SUpdate _ sets _ _ => drop (length sets) args | _ => args end.

(** The statement compares the tenant column with the tenant. *)
Definition tenant_bound (s : sql) (args : list value) : Prop :=
  exists i, conds_of s !! i = Some (tf, Eq) /\ where_args s args !! i = Some (VText tid).

Lemma conds_hold_lookup cs args r i c a : holds cs args r = true -> cs !! i = Some c -> args !! i = Some a -> cond_holds sql_eq sql_lt c a r = true.
Proof using.
  revert args i. induction cs as [|c' cs IH]; intros args i; [by rewrite lookup_nil|]. destruct args as [|a' args]; [done|]. cbn [conds_hold].
  intros [H1 H2]%andb_true_iff. destruct i as [|i]; cbn; [by intros [= <-] [= <-]|by apply IH].
Qed.

Lemma bound_mine s args r : tenant_bound s args -> holds (conds_of s) (where_args s args) r = true -> mine r = true.
Proof using. intros (i & H1 & H2) H. by apply (conds_hold_lookup _ _ _ _ _ _ H H1 H2). Qed.

Lemma filter_mine (P : row -> bool) (d : list row) : (forall r, P r = true -> mine r = true) -> filter (fun r => P r) d = filter (fun r => P r) (filter (fun r => mine r) d).
Proof using.
  intros H. rewrite list_filter_filter. apply Prelude.filter_ext_in. intros r _. specialize (H r). clear -H. destruct (P r), (mine r); naive_solver.
Qed.

Lemma filter_mine_update (P : row -> bool) (f : row -> row) (d : list row) : (forall r, P r = true -> mine r = true) ->
  filter (fun r => mine r) ((fun r => if P r then f r else r) <$> d) =
  filter (fun r => mine r) ((fun r => if P r then f r else r) <$> filter (fun r => mine r) d).
Proof using.
  intros H. induction d as [|r d IH]; [done|]. rewrite (filter_cons _ r d). destruct (decide (mine r)) as [Hr|Hr]; rewrite !fmap_cons, !(filter_cons _ (if P r then _ else _)), IH; [done|].
  destruct (P r) eqn:E; [apply H in E; by rewrite E in Hr|]. by rewrite decide_False.
Qed.

(** A step of the database on behalf of the tenant: the reply and the tenant's rows depend
    on the tenant's rows only. *)
Lemma eval_isolated s args (d1 d2 : list row) : tenant_bound s args -> filter (fun r => mine r) d1 = filter (fun r => mine r) d2 ->
  (eval sql_eq sql_lt fill s args d1).1 = (eval sql_eq sql_lt fill s args d2).1 /\
  filter (fun r => mine r) (eval sql_eq sql_lt fill s args d1).2 = filter (fun r => mine r) (eval sql_eq sql_lt fill s args d2).2.
Proof using.
  intros Hb Hd. assert (Hm := bound_mine s args). assert (Hf : filter (fun r => holds (conds_of s) (where_args s args) r) d1 = filter (fun r => holds (conds_of s) (where_args s args) r) d2).
  { rewrite (filter_mine _ d1), (filter_mine _ d2), Hd; [done|intros r; by apply Hm..]. }
  destruct s as [cols tbl cs order l1 l2|tbl cs|tbl cols ret|tbl sets cs ret|tbl cs]; cbn [eval conds_of where_args fst snd] in *.
  - by rewrite Hf.
  - by rewrite Hf.
  - destruct Hb as (i & Hi & _). by destruct i.
  - rewrite Hf. split; [done|].
    rewrite (filter_mine_update _ _ d1), (filter_mine_update _ _ d2), Hd by (intros r; by apply Hm). done.
  - rewrite Hf. split; [done|]. rewrite !list_filter_filter.
    assert (Hg : forall d : list row, filter (fun r => mine r /\ negb (holds cs args r)) d = filter (fun r => negb (holds cs args r)) (filter (fun r => mine r) d)); [|by rewrite !Hg, Hd].
    intros d. rewrite list_filter_filter. apply Prelude.filter_ext_in. tauto.
Qed.

(** The rows of the other tenants are kept. *)
Definition others (d : list row) : list row := filter (fun r => negb (mine r)) d.

Lemma others_sublist d : others d `sublist_of` d.
Proof using. unfold others. induction d as [|r d IH]; [constructor|]. rewrite filter_cons. destruct (decide _); by constructor. Qed.

Lemma others_mono d d' : d `sublist_of` d' -> others d `sublist_of` others d'.
Proof using.
  unfold others. induction 1 as [|r d d' _ IH|r d d' _ IH]; [done|..].
  - rewrite !filter_cons. destruct (decide _); [by constructor|done].
  - rewrite (filter_cons _ r d'). destruct (decide _); [by constructor|done].
Qed.

Lemma eval_keeps s args d : tenant_bound s args -> others d `sublist_of` (eval sql_eq sql_lt fill s args d).2.
Proof using.
  intros Hb. assert (Hm := bound_mine s args). destruct s as [cols tbl cs order l1 l2|tbl cs|tbl cols ret|tbl sets cs ret|tbl cs]; cbn [eval conds_of where_args fst snd] in *.
  - apply others_sublist.
  - apply others_sublist.
  - apply sublist_inserts_r, others_sublist.
  - unfold others. induction d as [|r d IH]; [constructor|]. rewrite filter_cons. cbn [fmap list_fmap]. destruct (decide _) as [Hr|]; [|by constructor].
    destruct (holds cs _ r) eqn:Eh; [by rewrite (Hm r Hb Eh) in Hr|]. by constructor.
  - unfold others. induction d as [|r d IH]; [constructor|]. rewrite filter_cons, (filter_cons _ r d). destruct (decide (negb (mine r))) as [Hr|].
    + rewrite decide_True; [by constructor|]. destruct (holds cs args r) eqn:Eh; [by rewrite (Hm r Hb Eh) in Hr|done].
    + destruct (decide _); by try constructor.
Qed.

Context (exec : string -> list value -> list row -> reply * list row).

(** A text whose execution is isolated: the reply and the tenant's rows depend on the tenant's
    rows only, and the other rows are kept. *)
Definition bound_text (q : string) (args : list value) : Prop := forall d1 d2 : list row,
  filter (fun r => mine r) d1 = filter (fun r => mine r) d2 ->
  (exec q args d1).1 = (exec q args d2).1 /\ filter (fun r => mine r) (exec q args d1).2 = filter (fun r => mine r) (exec q args d2).2
  /\ others d1 `sublist_of` (exec q args d1).2.

(** Statements the database understands, bound to the tenant. *)
Lemma understood_bound s args : understands sql_eq sql_lt fill exec s -> tenant_bound s args -> bound_text (render s) args.
Proof using. intros Hu Hb d1 d2 Hd. rewrite !(Hu args). destruct (eval_isolated s args d1 d2 Hb Hd). split_and!; [done..|]. by apply eval_keeps. Qed.

Lemma run_isolated {A} (p : prog A) (d1 d2 : list row) : sends bound_text p -> filter (fun r => mine r) d1 = filter (fun r => mine r) d2 ->
  (run exec p d1).1 = (run exec p d2).1 /\ others d1 `sublist_of` (run exec p d1).2.
Proof using.
  clear fill sql_lt. revert d1 d2. induction p as [a|q args k IH]; intros d1 d2; cbn [run sends]; [intros _ _; split; [done|apply others_sublist]|].
  intros [Hb Hk] Hd. destruct (Hb d1 d2 Hd) as (H1 & H2 & H3).
  destruct (exec q args d1) as [r1 d1'], (exec q args d2) as [r2 d2']. cbn in *. subst r2.
  destruct (IH r1 d1' d2' (Hk r1) H2) as [H4 H5]. split; [done|]. etrans; [|exact H5].
  apply others_mono in H3. unfold others in *. by rewrite list_filter_filter in H3; rewrite (Prelude.filter_ext_in _ (fun r => negb (mine r))) in H3 by tauto.
Qed.
End isolation.

Section requests.
Context (range : forall V, gmap string V -> list (string * V)) (scan : row -> option entity) (sprint : value -> string) (h : hooks).
Context (sql_eq sql_lt : value -> value -> bool) (fill : row -> row).
Context (exec : string -> list value -> list row -> reply * list row).

(** Requests that touch existing rows. *)
Inductive crud_request :=
| RList (params : ListParams) | RGet (id : string) | RUpdate (id : string) (body : option (gmap string value)) | RDelete (id : string).

Definition handle (t : Table) (tenant : string * string) (rq : crud_request) : prog response :=
  match rq with
  | RList params => crud_List range scan sprint t tenant params
  | RGet id => crud_Get scan t tenant id
  | RUpdate id body => crud_Update range scan h t tenant id body
  | RDelete id => crud_Delete h t tenant id
  end.

Definition list_where (t : Table) (tenant : string * string) (params : ListParams) : list (string * value) :=
  range _ (with_tenant tenant (makeFiltersMap (ResolvePatchColumns range (t_info t) (Filters params)))).

Definition list_order (t : Table) (params : ListParams) : string := match order_column t (Sort params) with inl o => o | inr _ => "" end.

(** The column of the condition a list in offset mode is counted with. *)
Definition count_column (t : Table) (tenant : string * string) (params : ListParams) : string :=
  default tenant.1 (head (range _ (ResolvePatchColumns range (t_info t) (Filters params))).*1).

(** The statements a request of a tenant sends. *)
Definition stmts_of (t : Table) (tenant : string * string) (rq : crud_request) : list sql :=
  match rq with
  | RGet _ => [get_scoped_stmt t tenant.1]
  | RDelete _ => [delete_scoped_stmt t tenant.1]
  | RUpdate id (Some patch) =>
      match BeforeUpdate h id patch with
      | Some patch => [update_scoped_stmt t (range _ (ResolvePatchColumns range (t_info t) (ResolvePatchColumns range (t_info t) patch))).*1 tenant.1]
      | None => []
      end
  | RUpdate _ None => []
  | RList params =>
      if String.eqb (Pagination params) "keyset"
      then [keyset_stmt t (cursor_conds (Cursor params) (list_order t params) ++ eqs (list_where t tenant params)) (list_order t params)]
      else [where_stmt t (eqs (list_where t tenant params)) (list_order t params) (Size params) (wrap64 ((Page params - 1) * Size params));
            SCount (tableName t) [(count_column t tenant params, Eq)]]
  end.

(** Lists in offset mode with filters of the client: [Count] uses the first filter only, so
    their totals are not the tenant's. *)
Definition scoped_total (rq : crud_request) : bool :=
  match rq with RList params => String.eqb (Pagination params) "keyset" || bool_decide (Filters params = ∅) | _ => true end.

(** A response, without the total where it is not the tenant's. *)
Definition tenant_view (rq : crud_request) (r : response) : response :=
  match r with PaginatedResponse d total page size => PaginatedResponse d (if scoped_total rq then total else 0) page size | r => r end.

Hypothesis range_perm : forall V (m : gmap string V), range V m ≡ₚ map_to_list m.

Context (t : Table) (tf tid : string) (Hscoped : scoped (tf, tid) = true).
Notation ten := (tf, tid).

Lemma tenant_in_where params : exists i, list_where t ten params !! i = Some (tf, VText tid).
Proof using range_perm Hscoped.
  apply list_elem_of_lookup_1. unfold list_where, with_tenant. rewrite Hscoped, range_perm. apply elem_of_map_to_list. cbn. by rewrite lookup_insert_eq.
Qed.

Lemma eqs_lookup kvs i c v : kvs !! i = Some (c, v) -> eqs kvs !! i = Some (c, Eq) /\ kvs.*2 !! i = Some v.
Proof using. intros H. unfold eqs. by rewrite !list_lookup_fmap, H. Qed.

Notation bound := (bound_text sql_eq tf tid exec).

Lemma handle_bound rq : scoped_total rq = true -> (forall s, s ∈ stmts_of t ten rq -> understands sql_eq sql_lt fill exec s) -> sends bound (handle t ten rq).
Proof using range_perm Hscoped.
  intros Hc Hu. destruct rq as [params|id|id body|id]; cbn [handle stmts_of scoped_total] in *.
  - unfold crud_List, list_order in *. destruct (tenant_in_where params) as [i Hi]. destruct (eqs_lookup _ _ _ _ Hi) as [Hi1 Hi2].
    destruct (String.eqb (Pagination params) "keyset"); cbn [orb] in Hc.
    + apply sends_bind; [|done]. rewrite QueryKeyset_eq. cbv zeta. destruct (order_column t _) as [o|] eqn:Eo; [|done].
      destruct (invalid t _); [done|]. split; [|done]. apply (understood_bound sql_eq sql_lt fill); [apply Hu, list_elem_of_singleton; done|].
      exists (length (cursor_conds (Cursor params) o) + i)%nat. cbn [conds_of where_args keyset_stmt]. split; [by rewrite lookup_app_r, Nat.add_comm, Nat.add_sub by lia|].
      assert (length (cursor_conds (Cursor params) o) = length (cursor_args (Cursor params))) as -> by (unfold cursor_conds, cursor_args; by destruct (String.eqb _ "")).
      rewrite lookup_app_r, Nat.add_comm, Nat.add_sub by lia. by apply lookup_app_l_Some.
    + apply bool_decide_eq_true in Hc. rewrite Hscoped, orb_true_r. apply sends_bind.
      * rewrite QueryWhere_eq. destruct (order_column t _) as [o|] eqn:Eo; [|done]. destruct (invalid t _); [done|]. split; [|done].
        apply (understood_bound sql_eq sql_lt fill); [apply Hu; by left|]. by exists i.
      * intros [items|]; [|done]. apply sends_bind; [|done].
        assert (Er : range string ∅ = []) by (apply Permutation_nil_r; by rewrite range_perm, map_to_list_empty).
        assert (Ef : ResolvePatchColumns range (t_info t) (Filters params) = ∅) by (rewrite Hc; unfold ResolvePatchColumns; by rewrite Er).
        assert (Ec : count_column t ten params = tf) by (unfold count_column; by rewrite Ef, Er).
        rewrite Ef, Er. cbn [fmap list_fmap app Count].
        destruct (validColumn t _); [|done]. cbn [negb]. split; [|done].
        replace (_ +++ _) with (render (SCount (tableName t) [(tf, Eq)])) by (by text). apply (understood_bound sql_eq sql_lt fill); [apply Hu; rewrite Ec; right; by left|]. by exists 0%nat.
  - unfold crud_Get. rewrite Hscoped. apply sends_bind; [|done]. unfold GetScoped. destruct (validColumn t _); [|done]. cbn [negb]. rewrite get_scoped_text.
    split; [|done]. apply (understood_bound sql_eq sql_lt fill); [apply Hu; by left|]. by exists 1%nat.
  - unfold crud_Update. destruct body as [patch|]; [|done]. destruct (BeforeUpdate h id patch) as [p|]; [|done]. rewrite Hscoped. apply sends_bind; [|done].
    rewrite UpdateScoped_eq. destruct (validColumn t _); [|done]. cbn [negb]. destruct (decide _); [done|]. cbv zeta. destruct (invalid t _); [done|].
    split; [|done]. apply (understood_bound sql_eq sql_lt fill); [apply Hu; by left|]. exists 1%nat. split; [done|]. cbn [where_args update_scoped_stmt].
    rewrite lookup_drop, lookup_app_r by (rewrite !length_fmap; lia). rewrite !length_fmap. by replace (_ + 1 - _)%nat with 1%nat by lia.
  - unfold crud_Delete. destruct (BeforeDelete h id); [|done]. cbn [negb]. rewrite Hscoped. apply sends_bind; [|done]. unfold DeleteScoped.
    destruct (validColumn t _); [|done]. cbn [negb]. rewrite delete_scoped_text. split; [|done]. apply (understood_bound sql_eq sql_lt fill); [apply Hu; by left|]. by exists 1%nat.
Qed.

(** Whatever is counted, the count leaves the rows, and only the total depends on it. *)
Lemma filtered_list params (items : list entity) (d1 d2 : list row) : scoped_total (RList params) = false ->
  (forall s, s ∈ stmts_of t ten (RList params) -> understands sql_eq sql_lt fill exec s) ->
  let filters := ResolvePatchColumns range (t_info t) (Filters params) in
  let wcs := ((fun kv => (kv.1, VText kv.2)) <$> range _ filters) ++ [(tf, VText tid)] in
  let p := bind (Count t wcs) (fun n => Ret (match n with
             | inr e => Err (ErrDBQuery e)
             | inl total => PaginatedResponse (filterSlice (t_info t) items (lp_Fields params)) total (Page params) (Size params)
             end)) in
  tenant_view (RList params) (run exec p d1).1 = tenant_view (RList params) (run exec p d2).1 /\ (run exec p d1).2 = d1.
Proof using.
  clear range_perm Hscoped.
  intros Hc Hu filters wcs p. assert (exists v rest, wcs = (count_column t ten params, v) :: rest) as (v & rest & E).
  { unfold wcs, count_column. fold filters. destruct (range _ filters) as [|[c x] l]; [by eexists _, []|by eexists _, _]. }
  unfold p. rewrite E. cbn [Count]. destruct (validColumn t _); cbn [negb]; [|done]. cbn [bind run].
  assert (Ht := Hc). cbn [stmts_of scoped_total] in Hu, Hc. destruct (String.eqb (Pagination params) "keyset"); [done|].
  assert (Hs : understands sql_eq sql_lt fill exec (SCount (tableName t) [(count_column t ten params, Eq)])) by (apply Hu; right; by left).
  replace (_ +++ _) with (render (SCount (tableName t) [(count_column t ten params, Eq)])) by (by text). rewrite !(Hs [v]). cbn [eval run fst snd].
  unfold tenant_view. by rewrite Ht.
Qed.

(** A list in offset mode with filters: the items are the tenant's, the total is not. *)
Lemma filtered_isolated rq (d1 d2 : list row) : scoped_total rq = false ->
  (forall s, s ∈ stmts_of t ten rq -> understands sql_eq sql_lt fill exec s) ->
  filter (fun r => mine sql_eq tf tid r) d1 = filter (fun r => mine sql_eq tf tid r) d2 ->
  tenant_view rq (run exec (handle t ten rq) d1).1 = tenant_view rq (run exec (handle t ten rq) d2).1 /\
  others sql_eq tf tid d1 `sublist_of` (run exec (handle t ten rq) d1).2.
Proof using range_perm Hscoped.
  intros Hc Hu Hd. destruct rq as [params| | |]; [|done..]. assert (Hl := fun items d1 d2 => filtered_list params items d1 d2 Hc Hu). cbv zeta in Hl.
  assert (Hk := Hc). cbn [handle stmts_of scoped_total] in *. destruct (String.eqb (Pagination params) "keyset") eqn:Ek; [done|].
  unfold crud_List. rewrite Ek, Hscoped, orb_true_r. rewrite !run_bind.
  assert (Hq : sends bound (QueryWhere range scan t (with_tenant ten (makeFiltersMap (ResolvePatchColumns range (t_info t) (Filters params)))) (Sort params) (Size params) (wrap64 ((Page params - 1) * Size params)))).
  { destruct (tenant_in_where params) as [i Hi]. destruct (eqs_lookup _ _ _ _ Hi) as [Hi1 Hi2]. rewrite QueryWhere_eq. unfold list_order in Hu.
    destruct (order_column t _) as [o|] eqn:Eo; [|done]. destruct (invalid t _); [done|]. split; [|done].
    apply (understood_bound sql_eq sql_lt fill); [apply Hu; by left|]. by exists i. }
  destruct (run_isolated sql_eq tf tid exec _ d1 d2 Hq Hd) as [H1 H2].
  destruct (run exec _ d1) as [r1 d1'], (run exec _ d2) as [r2 d2']. cbn [fst snd] in *. subst r2. destruct r1 as [items|e]; [|done].
  destruct (Hl items d1' d2') as [H3 H4]. split; [exact H3|]. by rewrite H4.
Qed.

(** C1: tenants are isolated.  A request made for a tenant (a get, an update, a delete, a
    list) gets a response that depends on that tenant's rows only, and leaves the rows of
    every other tenant in the table as they were.  One part of one response is excepted: the
    total of a list in offset mode with filters, which counts by the first filter alone
    ([tenant_view] leaves it out, and [list_total_counts_other_tenants] shows it). *)
Theorem tenant_isolation (rq : crud_request) (d1 d2 : list row) :
  (forall s, s ∈ stmts_of t ten rq -> understands sql_eq sql_lt fill exec s) ->
  filter (fun r => mine sql_eq tf tid r) d1 = filter (fun r => mine sql_eq tf tid r) d2 ->
  tenant_view rq (run exec (handle t ten rq) d1).1 = tenant_view rq (run exec (handle t ten rq) d2).1 /\
  others sql_eq tf tid d1 `sublist_of` (run exec (handle t ten rq) d1).2.
Proof using range_perm Hscoped.
  intros Hu Hd. destruct (scoped_total rq) eqn:Hc.
  - destruct (run_isolated sql_eq tf tid exec _ d1 d2 (handle_bound rq Hc Hu) Hd) as [-> H]. done.
  - by apply filtered_isolated.
Qed.
End requests.

(** A tenant "a", its rows, and those of another tenant. *)
Definition demo_a : list row := [demo_row 1 7 "a"; demo_row 2 8 "b"].
Definition demo_b : list row := [demo_row 5 7 "b"; demo_row 1 7 "a"; demo_row 6 7 "b"].

Lemma tenant_isolation_witness :
  let exec := db_of demo_eq demo_lt id [get_scoped_stmt demo_table "org_id"] in
  let p := handle demo_range demo_scan demo_print DefaultHooks demo_table ("org_id", "a") (RGet "1") in
  (run exec p demo_a).1 = (run exec p demo_b).1 /\ match (run exec p demo_a).1 with Item 200 _ => True | _ => False end.
Proof.
  intros exec p. split; [|vm_compute; exact I].
  apply (tenant_isolation demo_range demo_scan demo_print DefaultHooks demo_eq demo_lt id exec
    (fun V m => reflexivity _) demo_table "org_id" "a" eq_refl (RGet "1") demo_a demo_b).
  - intros s Hs. apply list_elem_of_singleton in Hs as ->. apply (db_of_understands _ _ _ _ 0); [reflexivity|lia].
  - refine (bool_decide_unpack _ _). vm_compute. exact I.
Defined.

(** An update can give a row to another tenant: the tenant column is not protected from
    the patch.  Tenant "a" patches its row 1 with [org_id = "b"]; afterwards the row is
    tenant "b"'s and the request was answered with it. *)
Theorem update_can_change_tenant :
  let p := handle demo_range demo_scan demo_print DefaultHooks demo_table ("org_id", "a") (RUpdate "1" (Some {["org_id" := VText "b"]})) in
  let exec := db_of demo_eq demo_lt id [update_scoped_stmt demo_table ["org_id"] "org_id"] in
  match run exec p demo_a with
  | (Item 200 e, d) => e !! "OrgID" = Some (VText "b") /\ (fun r => (col "id" r, col "org_id" r)) <$> d = [(VInt 1, VText "b"); (VInt 2, VText "b")]
  | _ => False
  end.
Proof. vm_compute. split; reflexivity. Qed.

(** The total of a filtered list counts other tenants' rows: [Count] uses the first
    condition only, which is the client's filter.  Tenant "a" lists its rows with score 7,
    gets one row, and the total is 3. *)
Theorem list_total_counts_other_tenants :
  let params := mkListParams 1 10 "id" {["score" := "7"]} "" "offset" [] in
  let exec := db_of demo_eq demo_lt id [where_stmt demo_table (eqs (list_where demo_range demo_table ("org_id", "a") params)) "id" 10 0; SCount "items" [("score", Eq)]] in
  match (run exec (handle demo_range demo_scan demo_print DefaultHooks demo_table ("org_id", "a") (RList params)) demo_b).1 with
  | PaginatedResponse (Items l) total _ _ => (fun e => e !! "ID") <$> l = [Some (VInt 1)] /\ total = 3
  | _ => False
  end.
Proof. vm_compute. split; reflexivity. Qed.

(** ** Creation *)

Lemma insert_values_in fs e f v : f ∈ fs -> Skip f = false -> Auto f = false -> e !! GoName f = Some v -> IsZero v = false -> (Column f, v) ∈ insert_values fs e.
Proof.
  intros Hf Hs Ha Hv Hz. induction fs as [|g fs IH]; [by apply elem_of_nil in Hf|]. cbn [insert_values]. apply elem_of_cons in Hf as [<-|Hf].
  - rewrite Hs, Ha, Hv. cbn [orb]. rewrite Hz, andb_false_r. by left.
  - specialize (IH Hf). destruct (Skip g || Auto g); [done|]. destruct (e !! GoName g); [|done]. destruct (_ && _); [done|]. by right.
Qed.

(** A create made for a tenant inserts the tenant: whatever tenant the client wrote in
    the body, the INSERT carries the tenant column once per field of that name and gives the
    first one the tenant of the token. *)
Theorem create_is_scoped (scan : row -> option entity) (t : Table) (e : entity) (tf tid : string) (p : prog (entity + db_error)) (f : FieldInfo) (i : nat) :
  list_find (fun f => Column f = tf) (SqlModel.Fields (t_info t)) = Some (i, f) -> Skip f = false -> Auto f = false -> tid <> "" ->
  is_Some (e !! GoName f) -> CreateScoped scan t e tf tid = Some p ->
  exists cvs k, p = Ask (render (SInsert (tableName t) cvs.*1 (columns t))) cvs.*2 k /\ (tf, VText tid) ∈ cvs.
Proof.
  intros Hl Hs Ha Ht [v Hv]. apply list_find_Some in Hl as Hf. destruct Hf as (Hf & Hc & _). apply list_elem_of_lookup_2 in Hf.
  unfold CreateScoped. assert (validColumn t tf = true) as ->.
  { apply existsb_exists. exists f. split; [by apply list_elem_of_In|by apply String.eqb_eq]. }
  cbn [negb]. rewrite Hl, Hv. destruct v as [| | |s]; [done..|]. intros [= <-]. unfold Create.
  exists (insert_values (SqlModel.Fields (t_info t)) (<[GoName f := VText tid]> e)). eexists. split.
  - f_equal. cbn [render]. by rewrite length_fmap.
  - rewrite <- Hc. apply insert_values_in; try done; [by rewrite lookup_insert_eq|]. cbn. by apply String.eqb_neq.
Qed.

Lemma create_is_scoped_witness :
  let e : entity := {["ID" := VText "9"; "Score" := VText "1"; "OrgID" := VText "spoofed"]} in
  exists p, CreateScoped demo_scan demo_table e "org_id" "a" = Some p /\
    exists cvs k, p = Ask (render (SInsert "items" cvs.*1 (columns demo_table))) cvs.*2 k /\ ("org_id", VText "a") ∈ cvs.
Proof.
  intros e. eexists. split; [reflexivity|].
  eapply (create_is_scoped demo_scan demo_table e "org_id" "a" _ _ 2); [reflexivity|reflexivity|reflexivity|discriminate|by eexists|reflexivity].
Defined.

(** The page size a list uses is at least the entry's page size and at most its maximum,
    and the page is positive, whatever the client asks for. *)
Theorem list_params_in_range (q : query_args) (PageSize MaxPageSize : Z) (sortable : list string) (pagination : string) (params : ListParams) :
  let '(ps, mx) := page_sizes PageSize MaxPageSize in
  parseListParams q ps mx sortable pagination = inl params ->
  1 <= ps <= Size params /\ Size params <= mx /\ 1 <= Page params /\ (sortable = [] \/ Sort params ∈ sortable) /\
  (forall k, k ∈ reserved -> Filters params !! k = None).
Proof.
  unfold page_sizes. set (ps := if PageSize <? 1 then 10 else PageSize). set (m0 := if MaxPageSize <? 1 then 100 else MaxPageSize).
  assert (1 <= ps) by (unfold ps; destruct (Z.ltb_spec PageSize 1); lia). unfold parseListParams. cbv zeta.
  destruct (_ && _) eqn:E; [done|]. intros [= <-]. cbn [Size Page Sort Filters]. split_and!.
  - lia.
  - destruct (Z.ltb_spec m0 ps); lia.
  - lia.
  - lia.
  - apply andb_false_iff in E as [E|E]; apply negb_false_iff, bool_decide_eq_true in E; auto.
  - intros k Hk. assert (H0 : (∅ : gmap string string) !! k = None) by apply lookup_empty. revert H0. generalize (∅ : gmap string string).
    induction (q_all q) as [|[k' v] l IH]; intros m Hm; [exact Hm|]. cbn [foldl fst snd]. apply IH.
    destruct (decide (k' ∈ reserved)); [by rewrite bool_decide_eq_true_2|]. rewrite bool_decide_eq_false_2 by done. rewrite lookup_insert_ne; [done|]. by intros ->.
Qed.

Lemma list_params_in_range_witness :
  exists params, parseListParams (mkQuery [("size", "1000"); ("score", "7")] (fun k d => if String.eqb k "size" then 1000 else d)) 10 100 [] "offset" = inl params /\
    Size params <= 100.
Proof.
  eexists. split; [vm_compute; reflexivity|].
  apply (list_params_in_range (mkQuery [("size", "1000"); ("score", "7")] (fun k d => if String.eqb k "size" then 1000 else d)) 10 100 [] "offset"). vm_compute. reflexivity.
Defined.
