(* ===== verification/EntryRoutes.v ===== *)
(** * Routes of the entries (runtime/entry.go: [registerEntries], [registerOneEntry]; the
      registrations of entry_rest.go, entry_crud.go, entry_realtime.go, entry_file.go,
      entry_async.go, entry_graphql.go, entry_grpc.go; runtime/bulkhead.go)

    An entry adds middlewares at its path, the routes of its type with their chains of
    handlers, and the CORS of its group.  The router tries what is registered in order: [under
    p path] is its matching of a middleware's prefix, [is_route p path] that of a route; the
    middlewares run until a route answers.  The handler of an entry answers the request; it is
    named by its [endpoint], with the publication of events it may be wrapped in. *)

From S2P Require Import Prelude GoStrings SqlModel ConfigTypes Http Guards Syncx ServerSetup.
From S2P Require GoStrconv Auth JobStore AsyncJob JobStores EntryAuth Crud.
From Stdlib Require Import Ascii.

#[local] Open Scope string_scope.
#[local] Open Scope list_scope.
#[local] Open Scope Z_scope.

(** ** Prefixes *)

(** The regular expression [/v\d+$]: the last element is "v" and digits. *)
Definition version_suffix (s : string) : bool :=
  match reverse (Split s "/") with
  | String "v" ds :: _ :: _ => negb (ds =? "")%string && str_all GoStrconv.is_digit ds
  | _ => false
  end.

Definition buildEntryPrefix (prefix : string) (entry : EntryDef) : string :=
  if version_suffix prefix then prefix
  else if (EntryDef_APIVersion entry =? "")%string then prefix
  else (prefix ++ "/" ++ EntryDef_APIVersion entry)%string.

(** ** What an entry registers *)

Inductive entry_mw :=
| EDeprecation (status sunset : string) | EValidation (model : string) | ERateLimit (limit : RateLimitDef)
| ERetry (conf : RetryConf) | ETimeout (d : Z) | EFallback (mode : string) | ECORS (cfg : cors_config) | EFileValidator (entry : EntryDef).

(** The handlers of the entries: one the program registered under a name, an operation of the
    provider of a model, a socket or stream, an operation of a job manager, and the two fixed
    ones. *)
Inductive endpoint :=
| EpRest (name : string) | EpList (model : string) | EpGet (model : string) | EpCreate (model : string) | EpUpdate (model : string) | EpDelete (model : string)
| EpWebSocket (name : string) | EpSSE (name : string) | EpSubmit | EpStatus | EpCancel | EpStatusStream | EpJobs | EpGrpc (service : string) | EpGraphQL.

(** The chain of a route: the handlers of [registerAuthMiddleware] and those a type of entry
    adds, the bulkhead, and the entry's own handler. *)
Notation handler := (EntryAuth.ctx -> outcome).
Inductive link := HMw (h : option handler) | HBulkhead (names : list string) | HEntry (ep : endpoint).

Inductive item := IUse (path : string) (m : entry_mw) | IRoute (method path : string) (chain : list link).

Definition usual (method : string) : bool := bool_decide (method ∈ ["GET"; "POST"; "PUT"; "PATCH"; "DELETE"]).

(** [app.Get(path, mws[0], mws[1:]..., h)], and [app.Add(method, path, h, mws...)] for the
    other methods. *)
Definition registerRoute (method path : string) (mws : list link) (h : endpoint) : list item :=
  if usual method then [IRoute method path (mws ++ [HEntry h])] else [IRoute method path (HEntry h :: mws)].

(** What the program registered, the connections, and the error of building the GraphQL
    schema, if any.  [rg_CRUD] says of a provider whether it is a cached one. *)
Record registry : Type := mkRegistry {
  rg_Rest : list string; rg_WS : list string; rg_SSE : list string; rg_CRUD : gmap string bool; rg_Async : gmap string unit;
  rg_conns : JobStores.connections; rg_kv : gset string; rg_schema : option string
}.

(** How a registration ends early; what was registered until then stays. *)
Inductive stop := Fails (msg : string) | Panics.
Definition registered : Type := list item * option stop.

Definition reg (items : list item) : registered := (items, None).
Definition refuse (msg : string) : registered := ([], Some (Fails msg)).
Definition and_then (a b : registered) : registered := match a with (items, None) => (items ++ b.1, b.2) | _ => a end.

Section entry.
(** [auth] is what [registerAuthMiddleware] returns for an entry ([EntryAuth]). *)
Context (ParseDuration : string -> option Z) (auth : EntryDef -> list (option handler)).

Definition registerDeprecation (entry : EntryDef) (path : string) : list item :=
  when (nonempty (EntryDef_APIStatus entry) && negb (EntryDef_APIStatus entry =? "current")%string)
    [IUse path (EDeprecation (EntryDef_APIStatus entry) (EntryDef_SunsetDate entry))].

Definition registerValidationMiddleware (entry : EntryDef) (path : string) : list item :=
  when (nonempty (EntryDef_ValidationModel entry) && bool_decide (EntryDef_Type entry ∈ ["crud"; "rest"; "webhook"]))
    [IUse path (EValidation (EntryDef_ValidationModel entry))].

Definition registerEntryRateLimit (entry : EntryDef) (path : string) : list item :=
  match EntryDef_RateLimit entry with
  | Some d => when (0 <? RateLimitDef_RequestsPerSecond d) [IUse path (ERateLimit d)]
  | None => []
  end.

Definition registerRetry (entry : EntryDef) (path : string) : list item :=
  match EntryDef_Retry entry with
  | Some r => when (0 <? RetryConf_MaxRetries r) [IUse path (ERetry r)]
  | None => []
  end.

Definition registerEntryTimeout (entry : EntryDef) (path : string) : list item :=
  if (EntryDef_Timeout entry =? "")%string then []
  else match ParseDuration (EntryDef_Timeout entry) with Some d => [IUse path (ETimeout d)] | None => [] end.

Definition registerFallback (entry : EntryDef) (path : string) : list item :=
  when (nonempty (EntryDef_Fallback entry)) [IUse path (EFallback (EntryDef_Fallback entry))].

(** The middlewares of an entry, at its path. *)
Definition entry_middlewares (prefix : string) (entry : EntryDef) : list item :=
  let path := (buildEntryPrefix prefix entry ++ EntryDef_Path entry)%string in
  registerDeprecation entry path ++ registerValidationMiddleware entry path ++ registerEntryRateLimit entry path ++
  registerRetry entry path ++ registerEntryTimeout entry path ++ registerFallback entry path.

(** The handlers in front of the entry's own. *)
Definition entry_mws (entry : EntryDef) : list link :=
  (HMw <$> auth entry) ++ when (bool_decide (EntryDef_Bulkhead entry <> ∅)) [HBulkhead (map_to_list (EntryDef_Bulkhead entry)).*1].

Context (rg : registry).

Definition registerREST (entry : EntryDef) (prefix : string) (mws : list link) : registered :=
  if bool_decide (EntryDef_Handler entry ∈ rg_Rest rg)
  then reg (registerRoute (EntryDef_Method entry) (prefix ++ EntryDef_Path entry) mws (EpRest (EntryDef_Handler entry)))
  else refuse "rest handler not found".

(** One operation of a CRUD entry: [registerCRUDList] to [registerCRUDDelete]. *)
Definition registerOperation (method path : string) (mws : list link) (field : string) (provided : endpoint) : registered :=
  match Crud.register_operation (rg_Rest rg) field with
  | inl Crud.NotRegistered => reg []
  | inl (Crud.Override name) => reg (registerRoute method path mws (EpRest name))
  | inl Crud.Provided => reg (registerRoute method path mws provided)
  | inr _ => refuse "crud override: handler not found"
  end.

Definition tenant_handler (entry : EntryDef) : handler :=
  fun c => Crud.buildTenantMiddleware (Crud.mkTenantEntry (EntryDef_TenantField entry) (EntryDef_TenantScope entry)) (EntryAuth.cx_rq c).

Definition registerCRUD (entry : EntryDef) (prefix : string) (mws : list link) : registered :=
  let model := EntryDef_Model entry in
  match rg_CRUD rg !! model with
  | None => refuse "crud model: no provider registered"
  | Some cached =>
      if nonempty (EntryDef_Cache entry) && negb cached then refuse "crud model: provider is not cached"
      else
        let base := (prefix ++ EntryDef_Path entry)%string in
        let ov := default ConfigTypes.zero (EntryDef_Overrides entry) in
        let mws := mws ++ when (nonempty (EntryDef_TenantField entry)) [HMw (Some (tenant_handler entry))] in
        let one := (base ++ Crud.buildIDParam base)%string in
        and_then (registerOperation "GET" base mws (CRUDOverrides_List ov) (EpList model))
          (and_then (registerOperation "GET" one mws (CRUDOverrides_Get ov) (EpGet model))
             (and_then (registerOperation "POST" base mws (CRUDOverrides_Create ov) (EpCreate model))
                (and_then (registerOperation "PATCH" one mws (CRUDOverrides_Update ov) (EpUpdate model))
                   (registerOperation "DELETE" one mws (CRUDOverrides_Delete ov) (EpDelete model)))))
  end.

Definition registerWebSocket (entry : EntryDef) (prefix : string) (mws : list link) : registered :=
  if bool_decide (EntryDef_Handler entry ∈ rg_WS rg)
  then reg (registerRoute "GET" (prefix ++ EntryDef_Path entry) mws (EpWebSocket (EntryDef_Handler entry)))
  else refuse "websocket handler not found".

(** [middleware.SSE] *)
Definition SSE : handler :=
  fun _ => Next [SetHeader "Content-Type" "text/event-stream"; SetHeader "Cache-Control" "no-cache"; SetHeader "Connection" "keep-alive"].

Definition registerSSE (entry : EntryDef) (prefix : string) (mws : list link) : registered :=
  if bool_decide (EntryDef_Handler entry ∈ rg_SSE rg)
  then reg (registerRoute "GET" (prefix ++ EntryDef_Path entry) (mws ++ [HMw (Some SSE)]) (EpSSE (EntryDef_Handler entry)))
  else refuse "sse handler not found".

Definition registerFile (entry : EntryDef) (prefix : string) (mws : list link) : registered :=
  if bool_decide (EntryDef_Handler entry ∈ rg_Rest rg) then
    let path := (prefix ++ EntryDef_Path entry)%string in
    let validates := (bool_decide (EntryDef_AllowedTypes entry <> []) || nonempty (EntryDef_MaxSize entry)) && bool_decide (EntryDef_Method entry ∈ ["POST"; "PUT"; "PATCH"]) in
    reg (when validates [IUse path (EFileValidator entry)] ++ registerRoute (EntryDef_Method entry) path mws (EpRest (EntryDef_Handler entry)))
  else refuse "file handler not found".

(** The manager that [AsyncJob.registerAsync] makes is independent of the store. *)
Definition registerAsync (entry : EntryDef) (prefix : string) (mws : list link) : registered :=
  match AsyncJob.registerAsync (A := unit) ParseDuration prefix entry (rg_Async rg) (JobStore.mkMemoryJobStore ∅ 0 ∅ 0) with
  | AsyncJob.RegError _ msg => refuse msg
  | AsyncJob.RegPanic _ => ([], Some Panics)
  | AsyncJob.RegOk _ _ _ =>
      let path := AsyncJob.resolveAsyncPath prefix entry in
      reg (registerRoute "POST" path mws EpSubmit ++ registerRoute "GET" (path ++ "/:job_id") mws EpStatus ++
           registerRoute "DELETE" (path ++ "/:job_id") mws EpCancel ++ registerRoute "GET" (path ++ "/:job_id/status") mws EpStatusStream ++
           registerRoute "GET" path mws EpJobs)
  end.

(** [registerGRPC] leaves the middlewares out. *)
Definition registerGRPC (entry : EntryDef) (prefix : string) : registered :=
  if (EntryDef_ServiceName entry =? "")%string then reg [] else reg [IRoute "GET" (prefix ++ EntryDef_Path entry) [HEntry (EpGrpc (EntryDef_ServiceName entry))]].

Definition registerGraphQL (entry : EntryDef) (prefix : string) (mws : list link) : registered :=
  match rg_schema rg with Some err => refuse err | None => reg (registerRoute "POST" (prefix ++ EntryDef_Path entry) mws EpGraphQL) end.

(** The switch on the type. *)
Definition registerType (entry : EntryDef) (prefix : string) (mws : list link) : registered :=
  let ty := EntryDef_Type entry in
  if (ty =? "crud")%string then registerCRUD entry prefix mws
  else if (ty =? "rest")%string || (ty =? "webhook")%string then registerREST entry prefix mws
  else if (ty =? "websocket")%string then registerWebSocket entry prefix mws
  else if (ty =? "sse")%string then registerSSE entry prefix mws
  else if (ty =? "file")%string then registerFile entry prefix mws
  else if (ty =? "async")%string then
    match JobStores.resolveAsyncStore ParseDuration entry (rg_conns rg) with inl err => refuse err | inr _ => registerAsync entry prefix mws end
  else if (ty =? "grpc")%string then registerGRPC entry prefix
  else if (ty =? "graphql")%string then registerGraphQL entry prefix mws
  else refuse "unknown entry type".

Definition registerOneEntry (prefix : string) (entry : EntryDef) : registered :=
  and_then (reg (entry_middlewares prefix entry)) (registerType entry (buildEntryPrefix prefix entry) (entry_mws entry)).

Definition validateEntryAuth (entry : EntryDef) : option string :=
  if bool_decide (EntryDef_Roles entry = []) && bool_decide (EntryDef_Permissions entry = []) then None
  else if nonempty (EntryDef_Handler entry) then (if bool_decide (EntryDef_Handler entry ∈ rg_Rest rg) then None else Some "handler not registered")
  else if (EntryDef_Type entry =? "crud")%string then (if bool_decide (is_Some (rg_CRUD rg !! EntryDef_Model entry)) then None else Some "crud model: no provider registered")
  else None.

Definition joinCORSStrings (items : list string) : string := Join (TrimSpace <$> items) ",".
Definition joinCORSStringsDefault (items : list string) (def : string) : string := match items with [] => def | _ => joinCORSStrings items end.

Definition entry_cors (g : CORSGroupConf) (fn : origin_test) : cors_config :=
  CORS (joinCORSStrings (CORSGroupConf_Origins g)) (joinCORSStringsDefault (CORSGroupConf_Methods g) default_methods)
    (joinCORSStringsDefault (CORSGroupConf_Headers g) default_headers) (CORSGroupConf_Credentials g) (CORSGroupConf_MaxAge g)
    (joinCORSStrings (CORSGroupConf_ExposeHeaders g)) (CORSGroupConf_AllowPrivateNetwork g) fn.

Definition registerEntryCORS (prefix : string) (groups : list CORSGroupConf) (corsFuncs : gmap string (string -> bool)) (entry : EntryDef) : list item :=
  if (EntryDef_CORS entry =? "")%string then []
  else match head (filter (fun g => CORSGroupConf_Name g = EntryDef_CORS entry) groups) with
       | Some g => [IUse (prefix ++ EntryDef_Path entry) (ECORS (entry_cors g (corsFuncs !! CORSGroupConf_Name g)))]
       | None => []
       end.

(** One round of the loop of [registerEntries]. *)
Definition registerEntry (cfg : ServiceConfig) (corsFuncs : gmap string (string -> bool)) (entry : EntryDef) : registered :=
  let prefix := ServerConf_APIPrefix (ServiceConfig_Server cfg) in
  match (if bool_decide (EntryDef_AuthModes entry = []) then None else validateEntryAuth entry) with
  | Some err => refuse err
  | None => and_then (registerOneEntry prefix entry) (reg (registerEntryCORS prefix (ServerConf_CORSGroups (ServiceConfig_Server cfg)) corsFuncs entry))
  end.

Definition registerEntries (cfg : ServiceConfig) (corsFuncs : gmap string (string -> bool)) : registered :=
  match EntryAuth.buildAuthExtra ParseDuration (rg_kv rg) (ServiceConfig_Auth cfg) with
  | inr err => refuse err
  | inl _ => foldr (fun entry rest => and_then (registerEntry cfg corsFuncs entry) rest) (reg []) (ServiceConfig_Entry cfg)
  end.
End entry.

(** ** Serving *)

Section serve.
Context (under is_route : string -> string -> bool).

(** The middlewares that run before a route answers, and the route's chain. *)
Fixpoint dispatch (app : list item) (method path : string) : list entry_mw * option (list link) :=
  match app with
  | [] => ([], None)
  | IUse p m :: app => let '(ms, r) := dispatch app method path in (if under p path then m :: ms else ms, r)
  | IRoute m p chain :: app => if (m =? method)%string && is_route p path then ([], Some chain) else dispatch app method path
  end.

(** A chain run on a request; [free] is what borrowing the bulkheads gives.  The entry's handler
    answers, so nothing after it runs. *)
Inductive route_result := RanHandler (ep : endpoint) (c : EntryAuth.ctx) | AnsweredBy (o : outcome) | Busy | NilPanic | NoHandler.
Fixpoint run_links (free : list string -> bool) (chain : list link) (c : EntryAuth.ctx) : route_result :=
  match chain with
  | [] => NoHandler
  | HMw None :: _ => NilPanic
  | HMw (Some h) :: chain => match h c with Next effs => run_links free chain (foldl EntryAuth.apply_effect c effs) | o => AnsweredBy o end
  | HBulkhead names :: chain => if free names then run_links free chain c else Busy
  | HEntry ep :: _ => RanHandler ep c
  end.

(** The paths of the entries before a request's, as the router takes them. *)
Definition uses (app : list item) (path : string) : list entry_mw := omap (fun i => match i with IUse p m => if under p path then Some m else None | IRoute _ _ _ => None end) app.

Lemma dispatch_app a b method path :
  Forall (fun i => match i with IRoute m p _ => (m =? method)%string && is_route p path = false | IUse _ _ => True end) a ->
  dispatch (a ++ b) method path = (uses a path ++ (dispatch b method path).1, (dispatch b method path).2).
Proof.
  intros H. unfold uses. induction H as [|i a Hi _ IH]; cbn [app dispatch omap list_omap]; [by destruct (dispatch b method path)|].
  destruct i as [p m|m p ch]; [|by rewrite Hi, IH]. rewrite IH. by destruct (under p path).
Qed.

Lemma dispatch_route chain method path rest : is_route path path = true -> dispatch (IRoute method path chain :: rest) method path = ([], Some chain).
Proof. intros H. cbn. by rewrite String.eqb_refl, H. Qed.
End serve.

(** ** Which middlewares a request meets *)

Section meet.
Context (ParseDuration : string -> option Z) (auth : EntryDef -> list (option handler)) (rg : registry) (under is_route : string -> string -> bool).
Notation registerEntries := (registerEntries ParseDuration auth rg).
Notation registerEntry := (registerEntry ParseDuration auth rg).

Definition entry_path (prefix : string) (e : EntryDef) : string := (buildEntryPrefix prefix e ++ EntryDef_Path e)%string.

Lemma entry_middlewares_use prefix e : Forall (fun i => exists m, i = IUse (entry_path prefix e) m) (entry_middlewares ParseDuration prefix e).
Proof.
  unfold entry_middlewares, entry_path, registerDeprecation, registerValidationMiddleware, registerEntryRateLimit, registerRetry, registerEntryTimeout, registerFallback, when.
  repeat apply Forall_app_2.
  - destruct (_ && _); repeat constructor; eauto.
  - destruct (_ && _); repeat constructor; eauto.
  - destruct (EntryDef_RateLimit e); [destruct (_ <? _)|]; repeat constructor; eauto.
  - destruct (EntryDef_Retry e); [destruct (_ <? _)|]; repeat constructor; eauto.
  - destruct (_ =? _)%string; [constructor|]. destruct (ParseDuration _); repeat constructor; eauto.
  - destruct (nonempty _); repeat constructor; eauto.
Qed.

Lemma and_then_done a b items : and_then a b = (items, None) -> exists b', a.2 = None /\ b = (b', None) /\ items = a.1 ++ b'.
Proof. destruct a as [ia [|]], b as [ib sb]; cbn; [done|]. intros [= <- ->]. by exists ib. Qed.

(** A configuration that is registered is registered entry by entry. *)
Lemma registered_entries cfg fs app : registerEntries cfg fs = (app, None) ->
  app = (ServiceConfig_Entry cfg ≫= fun e => (registerEntry cfg fs e).1) /\ forall e, e ∈ ServiceConfig_Entry cfg -> (registerEntry cfg fs e).2 = None.
Proof.
  unfold EntryRoutes.registerEntries. destruct (EntryAuth.buildAuthExtra _ _ _); [|done]. revert app.
  induction (ServiceConfig_Entry cfg) as [|e es IH]; intros app H; cbn in H; [injection H as <-; split; [done|]; by intros e ?%elem_of_nil|].
  destruct (and_then_done _ _ _ H) as (b & He & Hb & ->). destruct (IH b Hb) as [-> Hes]. split; [done|]. intros x [->|Hx]%elem_of_cons; auto.
Qed.

(** The middlewares of an entry are not its own.  In a configuration that was registered, a
    request to a route that no route before it matches meets the middlewares of every earlier
    entry whose path is a prefix of its path (rate limit, retry, timeout, fallback,
    validation, deprecation, CORS), whatever their method and type, then those that its own
    entry registered before the route; the CORS of the entry's own group, registered after its
    routes, is not among them. *)
Theorem request_meets (cfg : ServiceConfig) (fs : gmap string (string -> bool)) (app : list item) (before after : list EntryDef) (e : EntryDef)
    (own rest : list item) (method path : string) (chain : list link) :
  registerEntries cfg fs = (app, None) -> ServiceConfig_Entry cfg = before ++ e :: after -> (registerEntry cfg fs e).1 = own ++ IRoute method path chain :: rest ->
  let earlier := (before ≫= fun e => (registerEntry cfg fs e).1) ++ own in
  Forall (fun i => match i with IRoute m p _ => (m =? method)%string && is_route p path = false | IUse _ _ => True end) earlier -> is_route path path = true ->
  dispatch under is_route app method path = (uses under earlier path, Some chain).
Proof.
  intros H Hes He earlier Hf Hr. destruct (registered_entries _ _ _ H) as [-> _]. rewrite Hes, bind_app. cbn [mbind list_bind]. rewrite He.
  rewrite <- (assoc_L (++) own), (assoc_L (++)). fold earlier. rewrite dispatch_app by done. cbn [app]. rewrite dispatch_route by done. by rewrite app_nil_r.
Qed.

(** ** Authentication *)

(** The handlers a type of entry adds between the authentication and its own. *)
Definition type_handlers (e : EntryDef) : list (option handler) :=
  if (EntryDef_Type e =? "crud")%string then when (nonempty (EntryDef_TenantField e)) [Some (tenant_handler e)]
  else when (EntryDef_Type e =? "sse")%string [Some SSE].

(** The chains of an entry: for the usual methods everything before the handler, for the others
    after it; the route of a gRPC entry has nothing else. *)
Definition entry_chain (e : EntryDef) (method : string) (chain : list link) (ep : endpoint) : Prop :=
  if (EntryDef_Type e =? "grpc")%string then chain = [HEntry ep]
  else if usual method then chain = entry_mws auth e ++ (HMw <$> type_handlers e) ++ [HEntry ep] else exists links, chain = HEntry ep :: links.

Definition routes_ok (e : EntryDef) (r : registered) : Prop := Forall (fun i => match i with IUse _ _ => True | IRoute m _ chain => exists ep, entry_chain e m chain ep end) r.1.

Lemma routes_app e a b : routes_ok e a -> routes_ok e b -> routes_ok e (and_then a b).
Proof. unfold routes_ok. destruct a as [ia []], b as [ib sb]; cbn; [done|]. intros Ha Hb. by apply Forall_app_2. Qed.

Lemma routes_refuse e msg : routes_ok e (refuse msg).
Proof. apply Forall_nil_2. Qed.

Lemma routes_reg_app e a b : routes_ok e (reg a) -> routes_ok e (reg b) -> routes_ok e (reg (a ++ b)).
Proof. apply (Forall_app_2 _ a b). Qed.

Lemma route_ok e method path ep : (EntryDef_Type e =? "grpc")%string = false ->
  routes_ok e (reg (registerRoute method path (entry_mws auth e ++ (HMw <$> type_handlers e)) ep)).
Proof.
  intros Hg. unfold routes_ok, registerRoute. cbn. destruct (usual method) eqn:U; apply Forall_singleton; exists ep; unfold entry_chain; rewrite Hg, U; [by rewrite <- (assoc_L (++))|eauto].
Qed.

Lemma operation_ok e method path field ep : (EntryDef_Type e =? "grpc")%string = false ->
  routes_ok e (registerOperation rg method path (entry_mws auth e ++ (HMw <$> type_handlers e)) field ep).
Proof.
  intros Hg. unfold registerOperation. destruct (Crud.register_operation _ _) as [[]|]; [apply Forall_nil_2|by apply route_ok..|apply routes_refuse].
Qed.

Lemma plain_mws e : type_handlers e = [] -> entry_mws auth e = entry_mws auth e ++ (HMw <$> type_handlers e).
Proof. intros ->. cbn. by rewrite app_nil_r. Qed.

Lemma type_ok e prefix : routes_ok e (registerType ParseDuration rg e prefix (entry_mws auth e)).
Proof.
  unfold registerType. destruct (EntryDef_Type e =? "crud")%string eqn:Ec; [|destruct (_ || _) eqn:Er; [|destruct (EntryDef_Type e =? "websocket")%string eqn:Ew;
    [|destruct (EntryDef_Type e =? "sse")%string eqn:Es; [|destruct (EntryDef_Type e =? "file")%string eqn:Ef; [|destruct (EntryDef_Type e =? "async")%string eqn:Ea;
    [|destruct (EntryDef_Type e =? "grpc")%string eqn:Eg; [|destruct (EntryDef_Type e =? "graphql")%string eqn:Eq; [|apply routes_refuse]]]]]]]].
  all: try (apply orb_true_iff in Er as [Er|Er]); repeat match goal with H : (EntryDef_Type _ =? _)%string = true |- _ => apply String.eqb_eq in H end.
  - assert (Ht : HMw <$> type_handlers e = when (nonempty (EntryDef_TenantField e)) [HMw (Some (tenant_handler e))])
      by (unfold type_handlers; rewrite Ec; cbn; by destruct (nonempty _)).
    unfold registerCRUD. destruct (rg_CRUD rg !! _); [|apply routes_refuse]. destruct (_ && _); [apply routes_refuse|]. cbv zeta. rewrite <- Ht.
    repeat apply routes_app; apply operation_ok; rewrite Ec; done.
  - unfold registerREST. case_bool_decide; [|apply routes_refuse]. rewrite (plain_mws e) by (unfold type_handlers; by rewrite Er). apply route_ok. by rewrite Er.
  - unfold registerREST. case_bool_decide; [|apply routes_refuse]. rewrite (plain_mws e) by (unfold type_handlers; by rewrite Er). apply route_ok. by rewrite Er.
  - unfold registerWebSocket. case_bool_decide; [|apply routes_refuse]. rewrite (plain_mws e) by (unfold type_handlers; by rewrite Ew). apply route_ok. by rewrite Ew.
  - unfold registerSSE. case_bool_decide; [|apply routes_refuse]. replace (entry_mws auth e ++ [HMw (Some SSE)]) with (entry_mws auth e ++ (HMw <$> type_handlers e)) by (unfold type_handlers; by rewrite Es). apply route_ok. by rewrite Es.
  - unfold registerFile. case_bool_decide; [|apply routes_refuse]. cbv zeta. apply routes_reg_app; [unfold when; destruct (_ && _); by repeat constructor|].
    rewrite (plain_mws e) by (unfold type_handlers; by rewrite Ef). apply route_ok. by rewrite Ef.
  - destruct (JobStores.resolveAsyncStore _ _ _); [apply routes_refuse|]. unfold registerAsync. destruct (AsyncJob.registerAsync _ _ _ _ _); [apply routes_refuse|apply Forall_nil_2|].
    rewrite (plain_mws e) by (unfold type_handlers; by rewrite Ea). cbv zeta. repeat apply routes_reg_app; apply route_ok; by rewrite Ea.
  - unfold registerGRPC. destruct (_ =? "")%string; [apply Forall_nil_2|]. apply Forall_singleton. eexists. unfold entry_chain. rewrite Eg. reflexivity.
  - unfold registerGraphQL. destruct (rg_schema rg); [apply routes_refuse|]. rewrite (plain_mws e) by (unfold type_handlers; by rewrite Eq). apply route_ok. by rewrite Eq.
Qed.

Lemma entry_ok cfg fs e : routes_ok e (registerEntry cfg fs e).
Proof.
  unfold EntryRoutes.registerEntry. destruct (if bool_decide _ then None else _); [apply routes_refuse|]. apply routes_app; [apply routes_app; [|apply type_ok]|].
  - eapply Forall_impl; [apply entry_middlewares_use|]. by intros i [m ->].
  - unfold routes_ok, registerEntryCORS. cbn. destruct (EntryDef_CORS e =? "")%string; [constructor|]. destruct (head _); by repeat constructor.
Qed.

(** The route that answers is one of the routes registered. *)
Lemma dispatch_elem app method path ms chain : dispatch under is_route app method path = (ms, Some chain) -> exists p, IRoute method p chain ∈ app.
Proof.
  revert ms. induction app as [|[p m|m p ch] app IH]; intros ms H; cbn in H; [done| |].
  - destruct (dispatch _ _ app method path) as [ms' r]. injection H as _ ->. destruct (IH ms' eq_refl) as [p' Hp]. exists p'. by right.
  - destruct (String.eqb_spec m method) as [->|]; cbn [andb] in H; [destruct (is_route p path); cbn in H|].
    + injection H as _ ->. exists p. by left.
    + destruct (IH ms H) as [p' Hp]. exists p'. by right.
    + destruct (IH ms H) as [p' Hp]. exists p'. by right.
Qed.

Lemma run_links_mws free hs chain c :
  run_links free ((HMw <$> hs) ++ chain) c =
  match EntryAuth.run_chain hs c with
  | EntryAuth.Reached c' => run_links free chain c'
  | EntryAuth.Answered o => AnsweredBy o
  | EntryAuth.NilHandler => NilPanic
  end.
Proof. revert c. induction hs as [|[h|] hs IH]; intros c; [done| |done]. cbn. destruct (h c); first [done|apply IH]. Qed.

Definition bulkheads_free (free : list string -> bool) (e : EntryDef) : Prop := EntryDef_Bulkhead e = ∅ \/ free (map_to_list (EntryDef_Bulkhead e)).*1 = true.

Lemma run_entry_chain free e ep c ep' c' :
  run_links free (entry_mws auth e ++ (HMw <$> type_handlers e) ++ [HEntry ep]) c = RanHandler ep' c' <->
  ep' = ep /\ exists c1, EntryAuth.run_chain (auth e) c = EntryAuth.Reached c1 /\ bulkheads_free free e /\ EntryAuth.run_chain (type_handlers e) c1 = EntryAuth.Reached c'.
Proof.
  assert (Ht : forall c, run_links free ((HMw <$> type_handlers e) ++ [HEntry ep]) c = RanHandler ep' c' <-> ep' = ep /\ EntryAuth.run_chain (type_handlers e) c = EntryAuth.Reached c').
  { intros c0. rewrite run_links_mws. cbn. destruct (EntryAuth.run_chain _ c0); naive_solver. }
  unfold entry_mws. rewrite <- (assoc_L (++)), run_links_mws. destruct (EntryAuth.run_chain (auth e) c) as [c1| |]; [|naive_solver..].
  unfold when, bulkheads_free. case_bool_decide as Hb; cbn [app run_links].
  - destruct (free _); [rewrite Ht|]; naive_solver.
  - rewrite Ht. naive_solver.
Qed.

(** C3: Authentication in front of the handler.  In a configuration that was registered, with
    entries of every type, a request that a route answers is answered by a route of an entry.
    For the methods GET, POST, PUT, PATCH and DELETE that entry's handler runs exactly when all
    authentication handlers of the entry let the request through, its bulkheads are free, and
    what its type adds (the tenant of a CRUD entry, the headers of a stream) does too - with
    the identity they set.  Two kinds of routes are served without any of it, whatever the
    credentials: those of other methods, whose handler is registered in front of the
    middlewares, and the route of a gRPC entry, which has none. *)
Theorem route_authentication (cfg : ServiceConfig) (fs : gmap string (string -> bool)) (app : list item) (method path : string) (ms : list entry_mw) (chain : list link) :
  registerEntries cfg fs = (app, None) -> dispatch under is_route app method path = (ms, Some chain) ->
  exists e ep, e ∈ ServiceConfig_Entry cfg /\ forall free c,
    if usual method && negb (EntryDef_Type e =? "grpc")%string
    then forall ep' c', run_links free chain c = RanHandler ep' c' <->
           ep' = ep /\ exists c1, EntryAuth.run_chain (auth e) c = EntryAuth.Reached c1 /\ bulkheads_free free e /\
                                 EntryAuth.run_chain (type_handlers e) c1 = EntryAuth.Reached c'
    else run_links free chain c = RanHandler ep c.
Proof.
  intros H Hd. destruct (registered_entries _ _ _ H) as [-> _]. apply dispatch_elem in Hd as [p Hp]. apply list_elem_of_bind in Hp as (e & Hp & He).
  pose proof (proj1 (Forall_forall _ _) (entry_ok cfg fs e) _ Hp) as [ep Hc]. cbn in Hc. exists e, ep. split; [done|]. intros free c. unfold entry_chain in Hc.
  destruct (EntryDef_Type e =? "grpc")%string; [rewrite andb_false_r; by subst chain|]. destruct (usual method); cbn [andb negb].
  - subst chain. intros ep' c'. apply run_entry_chain.
  - by destruct Hc as [links ->].
Qed.
End meet.

(** ** The configuration of the examples *)

Definition rest_entry (method path handler : string) : EntryDef :=
  (ConfigTypes.zero : EntryDef) <| EntryDef_Type := "rest" |> <| EntryDef_Method := method |> <| EntryDef_Path := path |> <| EntryDef_Handler := handler |>.

Definition with_entries (es : list EntryDef) : ServiceConfig :=
  (ConfigTypes.zero : ServiceConfig) <| ServiceConfig_Port := 8080 |> <| ServiceConfig_Server := (ConfigTypes.zero : ServerConf) <| ServerConf_APIPrefix := "/api" |> |>
    <| ServiceConfig_Entry := es |>.

(** A prefix of the path, at an element. *)
Definition prefix_of_path (p path : string) : bool := (p =? path)%string || HasPrefix path (p ++ "/").
Definition one_second (s : string) : option Z := if (s =? "1s")%string then Some (10^9) else None.

(** The handlers the examples name. *)
Definition demo_registry : registry := mkRegistry ["Create"; "Export"; "Admin"; "One"; "Two"] [] [] ∅ ∅ (JobStores.mkConns ∅ ∅ ∅ (fun _ => false) (fun _ => false)) ∅ None.

Lemma request_meets_witness :
  let create := (rest_entry "POST" "/orders" "Create") <| EntryDef_Timeout := "1s" |> <| EntryDef_RateLimit := Some (mkRateLimitDef 5 5 "") |> in
  let export := rest_entry "GET" "/orders/export" "Export" in
  let app := (registerEntries one_second (fun _ => []) demo_registry (with_entries [create; export]) ∅).1 in
  (dispatch prefix_of_path String.eqb app "GET" "/api/orders/export").1 = [ERateLimit (mkRateLimitDef 5 5 ""); ETimeout (10^9)].
Proof.
  cbn zeta. set (create := (rest_entry "POST" "/orders" "Create") <| EntryDef_Timeout := "1s" |> <| EntryDef_RateLimit := Some (mkRateLimitDef 5 5 "") |>).
  set (export := rest_entry "GET" "/orders/export" "Export").
  pose proof (request_meets one_second (fun _ => []) demo_registry prefix_of_path String.eqb (with_entries [create; export]) ∅
    (registerEntries one_second (fun _ => []) demo_registry (with_entries [create; export]) ∅).1 [create] [] export [] [] "GET" "/api/orders/export" [HEntry (EpRest "Export")]
    eq_refl eq_refl eq_refl) as H.
  cbn zeta in H. rewrite H; [by vm_compute|by repeat constructor|reflexivity].
Defined.

(** An entry behind a handler that refuses everything: HEAD runs it, GET does not. *)
Definition refuse_all (_ : EntryDef) : list (option handler) := [Some (fun _ => Reply 401 "unauthorized")].

Lemma route_authentication_witness :
  let serve method := match (dispatch prefix_of_path String.eqb (registerEntries one_second refuse_all demo_registry (with_entries [rest_entry method "/admin" "Admin"]) ∅).1 method "/api/admin").2 with
                      | Some chain => run_links (fun _ => true) chain (EntryAuth.mkCtx Auth.no_request "")
                      | None => NoHandler end in
  serve "HEAD" = RanHandler (EpRest "Admin") (EntryAuth.mkCtx Auth.no_request "") /\ forall ep c', serve "GET" <> RanHandler ep c'.
Proof.
  cbn zeta. split; [vm_compute; reflexivity|]. intros ep c'. set (cfg := with_entries [rest_entry "GET" "/admin" "Admin"]).
  set (app := (registerEntries one_second refuse_all demo_registry cfg ∅).1).
  assert (R : registerEntries one_second refuse_all demo_registry cfg ∅ = (app, None)) by (vm_compute; reflexivity).
  assert (D : dispatch prefix_of_path String.eqb app "GET" "/api/admin" = ([], Some [HMw (Some (fun _ => Reply 401 "unauthorized")); HEntry (EpRest "Admin")])) by (vm_compute; reflexivity).
  destruct (route_authentication one_second refuse_all demo_registry prefix_of_path String.eqb cfg ∅ app "GET" "/api/admin" _ _ R D) as (e & ep0 & He & H).
  apply list_elem_of_singleton in He as ->. specialize (H (fun _ => true) (EntryAuth.mkCtx Auth.no_request "")). rewrite D. cbn [snd].
  intros Hc. apply (H ep c') in Hc as (_ & c1 & Hc & _). discriminate Hc.
Defined.

(** ** CSRF exclusions *)

(** The paths the CSRF check leaves out are the configured ones and, for the entries with
    [csrf: false], their paths as they are written in the configuration, without the prefix of
    the API and the version their routes have: with the default prefix the check still refuses
    the entry's requests, and it leaves out another path. *)
Theorem csrf_exclusions (entries : list EntryDef) (c : CSRFConf) (cookies : option CookieConf) (m : CSRFConfig) :
  convertCSRF (collectCSRFExclusions entries (Some c)) cookies = Some m ->
  (forall path, isExcludedPath path (cs_ExcludePaths m) = true <->
     isExcludedPath path (CSRFConf_ExcludePaths c) = true \/
     exists e, e ∈ entries /\ EntryDef_CSRF e = Some false /\ isExcludedPath path [EntryDef_Path e] = true) /\
  (forall e rq prefix, entries = [e] -> CSRFConf_ExcludePaths c = [] -> CutSuffix (EntryDef_Path e) "/*" = None -> prefix <> "" ->
     rq_path rq = (prefix ++ EntryDef_Path e)%string -> rq_csrfSkip rq = false -> rq_method rq = "POST" -> CSRFConf_JSONCheck c = false ->
     rq_header rq (Auth.orElse (cs_HeaderName m) "X-CSRF-Token") = "" ->
     CSRF m None rq = Reply 403 "csrf token mismatch").
Proof.
  cbn -[isExcludedPath]. destruct (CSRFConf_Enabled c) eqn:He; [|done]. cbn [negb]. intros [= <-]. cbn [cs_ExcludePaths cs_HeaderName]. split.
  - intros path. rewrite !isExcludedPath_iff. split.
    + intros (ep & [Hin|Hin]%elem_of_app & Hep); [left; by exists ep|]. right.
      apply list_elem_of_fmap in Hin as (e & -> & Hf). apply list_elem_of_filter in Hf as [Hc Hin]. exists e. split; [done|split; [done|]].
      apply isExcludedPath_iff. exists (EntryDef_Path e). split; [left|done].
    + intros [(ep & Hin & Hep)|(e & Hin & Hc & Hx)]; [exists ep; split; [apply elem_of_app; by left|done]|].
      apply isExcludedPath_iff in Hx as (ep & Hep & Hrest). apply list_elem_of_singleton in Hep as ->. exists (EntryDef_Path e). split; [|done].
      apply elem_of_app. right. apply list_elem_of_fmap. exists e. split; [done|]. by apply list_elem_of_filter.
  - intros e rq prefix -> Hc0 Hcut Hp Hpath Hskip Hmeth Hj Hh. unfold CSRF. cbn [cs_CookieName cs_HeaderName cs_ExcludePaths cs_JSONCheck].
    assert (Hex : isExcludedPath (rq_path rq) (CSRFConf_ExcludePaths c ++ (EntryDef_Path <$> filter (fun e => EntryDef_CSRF e = Some false) [e])) = false).
    { apply not_true_iff_false. rewrite isExcludedPath_iff, Hc0, app_nil_l. intros (ep & Hin & Hne & Hm).
      apply list_elem_of_fmap in Hin as (e' & -> & [_ ->%list_elem_of_singleton]%list_elem_of_filter). rewrite Hcut in Hm. rewrite Hpath in Hm.
      apply (f_equal String.length) in Hm. rewrite str_length_app in Hm. destruct prefix; [done|]. cbn in Hm. lia. }
    rewrite Hex, Hskip, Hmeth, Hj, Hh. done.
Qed.

Definition hook_entry : EntryDef := (rest_entry "POST" "/hook" "Hook") <| EntryDef_CSRF := Some false |>.
Definition hook_request (path : string) : request :=
  mkRequest "POST" path (fun _ => "") (fun _ => "") (fun _ => "") (fun _ => "") "" "" None (fun _ => None) false.

Lemma csrf_exclusions_witness :
  match convertCSRF (collectCSRFExclusions [hook_entry] (Some (mkCSRFConf true "" "" "" false [] false))) None with
  | Some m => CSRF m None (hook_request (entry_path "/api" hook_entry)) = Reply 403 "csrf token mismatch" /\ isExcludedPath "/hook" (cs_ExcludePaths m) = true
  | None => False
  end.
Proof.
  destruct (csrf_exclusions [hook_entry] (mkCSRFConf true "" "" "" false [] false) None _ eq_refl) as [H1 H2]. cbn iota beta.
  change (convertCSRF (collectCSRFExclusions [hook_entry] (Some (mkCSRFConf true "" "" "" false [] false))) None) with (Some (mkCSRF true "" "" "" false ["/hook"] false)).
  cbn iota. split; [by apply (H2 hook_entry (hook_request (entry_path "/api" hook_entry)) "/api")|].
  apply H1. right. exists hook_entry. split; [left|]. split; [done|by vm_compute].
Defined.

(** ** A group of entries *)

(** Where named groups and the set-up fall short.  The CORS of a group is installed for the
    first entry that names it: a request to the second gets the CORS headers of the global
    policy while its preflight is answered by the group's too.  A configuration with port 0 is
    replaced by the defaults, so its security headers, CSRF check, rate limit and TLS are gone.
    With certificate files the TLS versions, curves and ciphers of the configuration are not
    used; and TLS that is enabled without certificates listens in the clear. *)
Theorem setup_gaps (ParsePublicKey : string -> bool) (a b c : string) :
  (let e1 := (rest_entry "GET" "/one" "One") <| EntryDef_CORS := "app" |> in
   let e2 := (rest_entry "GET" "/two" "Two") <| EntryDef_CORS := "app" |> in
   let cfg := with_entries [e1; e2] in
   let sc := (ConfigTypes.zero : ServerConf) <| ServerConf_APIPrefix := "/api" |> <| ServerConf_CORS := Some (mkCORSConf ["https://a.example"] [] [] false 0 [] false) |>
               <| ServerConf_CORSGroups := [mkCORSGroupConf "app" ["https://b.example"] [] [] false 0 [] false] |> in
   let cfg := cfg <| ServiceConfig_Server := sc |> in
   let acting path := co_Origins <$> cors_acting (sv_app (initServer a b c (fun _ => None) ParsePublicKey [] cfg)) path in
   let entry_acting method path := omap (fun m => match m with ECORS k => Some (co_Origins k) | _ => None end)
     (dispatch prefix_of_path String.eqb (registerEntries (fun _ => None) (fun _ => []) demo_registry cfg ∅).1 method path).1 in
   acting "/api/one" = [["https://b.example"]] /\ acting "/api/two" = [["https://a.example"]] /\
   entry_acting "GET" "/api/two" = [] /\ entry_acting "OPTIONS" "/api/two" = [["https://b.example"]]) /\
  (forall cfg telemetry security cors, c_Port cfg = 0 ->
     let s := New a b c ParsePublicKey cfg telemetry security cors in
     c_SecurityHeaders (sv_config s) = None /\ c_CSRF (sv_config s) = None /\ c_RateLimit (sv_config s) = None /\ c_TLS (sv_config s) = None) /\
  (forall cfg m, tls_Enabled cfg = true -> tls_Manual cfg = Some m -> nonempty (ManualTLS_CertFile m) = true ->
     listenTLS (Some cfg) = ManualHTTPS (ManualTLS_CertFile m) (ManualTLS_KeyFile m) (mkSettings None None None None) (redirect_port cfg)) /\
  (forall cfg, tls_Manual cfg = None -> tls_Autocert cfg = None -> listenTLS (Some cfg) = PlainHTTP).
Proof.
  split; [cbn zeta; split_and!; by vm_compute|split; [|split]].
  - intros cfg telemetry security cors Hp. cbn zeta. unfold New. rewrite Hp. cbn. done.
  - intros cfg m H1 H2 H3. unfold listenTLS. by rewrite H1, H2, H3.
  - intros cfg H1 H2. unfold listenTLS. rewrite H1, H2. by destruct (tls_Enabled cfg).
Qed.

Lemma setup_gaps_witness : listenTLS (Some (mkTLS true (Some (mkManualTLS "c.pem" "k.pem")) None "1.3" "" [] [] false 0)) = ManualHTTPS "c.pem" "k.pem" (mkSettings None None None None) None.
Proof.
  destruct (setup_gaps (fun _ => true) "" "" "") as (_ & _ & H & _).
  exact (H (mkTLS true (Some (mkManualTLS "c.pem" "k.pem")) None "1.3" "" [] [] false 0) (mkManualTLS "c.pem" "k.pem") eq_refl eq_refl eq_refl).
Defined.

(** ** Bulkheads (runtime/bulkhead.go) *)

Notation bulkheads := (gmap string Limit).

Definition BulkheadGet (name : string) (s : bulkheads) : option Limit := s !! name.

(** A name that is registered keeps its limit. *)
Definition BulkheadRegister (name : string) (limit : Z) (s : bulkheads) : bulkheads :=
  match s !! name, NewLimit limit with None, Some l => <[name := l]> s | _, _ => s end.

(** The bulkheads of an entry, in the order the map is ranged over. *)
Definition registerBulkhead (entry : list (string * Z)) (s : bulkheads) : bulkheads :=
  foldl (fun s nl => if 0 <? nl.2 then BulkheadRegister nl.1 nl.2 s else s) s entry.

(** The borrowing of the middleware: the names borrowed so far and whether all were. *)
Fixpoint borrow_all (names : list string) (s : bulkheads) : bool * list string * bulkheads :=
  match names with
  | [] => (true, [], s)
  | n :: names =>
      match s !! n with
      | None => borrow_all names s
      | Some l =>
          let '(ok, l) := TryBorrow l in
          if ok then let '(all, held, s) := borrow_all names (<[n := l]> s) in (all, n :: held, s) else (false, [], s)
      end
  end.

(** The deferred returns. *)
Definition return_all (held : list string) (s : bulkheads) : bulkheads :=
  foldl (fun s n => match s !! n with Some l => <[n := (Return l).2]> s | None => s end) s held.

(** A request enters: what it holds if it goes on; a refusal (503) gives back what it took. *)
Definition bulkhead_enter (names : list string) (s : bulkheads) : option (list string) * bulkheads :=
  let '(all, held, s) := borrow_all names s in if all then (Some held, s) else (None, return_all (reverse held) s).
Definition bulkhead_exit (held : list string) (s : bulkheads) : bulkheads := return_all (reverse held) s.

(** How many times a name is held. *)
Definition held_of (n : string) (l : list string) : nat := length (filter (fun x => x = n) l).
Definition tokens_of (n : string) (s : bulkheads) : nat := match s !! n with Some l => tokens l | None => 0%nat end.
Definition cap_of (n : string) (s : bulkheads) : option nat := cap <$> s !! n.

Definition bulkheads_ok (s : bulkheads) : Prop := forall n l, s !! n = Some l -> (tokens l <= cap l)%nat.

Lemma held_of_cons n x l : held_of n (x :: l) = ((if decide (x = n) then 1 else 0) + held_of n l)%nat.
Proof. unfold held_of. rewrite filter_cons. by destruct (decide (x = n)). Qed.

Lemma held_of_app n a b : held_of n (a ++ b) = (held_of n a + held_of n b)%nat.
Proof. unfold held_of. by rewrite filter_app, length_app. Qed.

Lemma borrow_all_ok names s : bulkheads_ok s ->
  let '(all, held, s') := borrow_all names s in
  bulkheads_ok s' /\ (forall n, cap_of n s' = cap_of n s) /\ (forall n, tokens_of n s' = (tokens_of n s + held_of n held)%nat) /\ (forall n, (0 < held_of n held)%nat -> is_Some (s !! n)).
Proof.
  revert s. induction names as [|x names IH]; intros s Hs; cbn [borrow_all].
  { split; [done|split; [done|split; [intros n; cbn; lia|cbn; lia]]]. }
  destruct (s !! x) as [l|] eqn:El; [|by apply IH]. unfold TryBorrow. case_bool_decide as Ht; cycle 1.
  { split; [done|split; [done|split; [intros n; cbn; lia|cbn; lia]]]. }
  assert (Hs1 : bulkheads_ok (<[x := mkLimit (cap l) (S (tokens l))]> s)).
  { intros n l'. destruct (decide (n = x)) as [->|Hne]; [rewrite lookup_insert_eq; intros [= <-]; cbn; lia|]. rewrite lookup_insert_ne by done. apply Hs. }
  specialize (IH _ Hs1). destruct (borrow_all names _) as [[all held] s']. destruct IH as (H1 & H2 & H3 & H4). split; [done|].
  assert (Hn : forall n, n <> x -> (<[x := mkLimit (cap l) (S (tokens l))]> s) !! n = s !! n) by (intros n Hne; by rewrite lookup_insert_ne).
  split; [|split].
  - intros n. rewrite H2. unfold cap_of. destruct (decide (n = x)) as [->|Hne]; [by rewrite lookup_insert_eq, El|by rewrite Hn].
  - intros n. rewrite H3, held_of_cons. unfold tokens_of. destruct (decide (x = n)) as [->|Hne]; [rewrite lookup_insert_eq, El; cbn; lia|]. rewrite Hn by done. lia.
  - intros n. rewrite held_of_cons. destruct (decide (x = n)) as [->|Hne]; [by rewrite El|]. intros Hh. rewrite <- (Hn n) by done. apply H4. lia.
Qed.

Lemma return_all_ok held s : bulkheads_ok s -> (forall n, (held_of n held <= tokens_of n s)%nat) ->
  bulkheads_ok (return_all held s) /\ (forall n, cap_of n (return_all held s) = cap_of n s) /\ (forall n, tokens_of n (return_all held s) = (tokens_of n s - held_of n held)%nat).
Proof.
  revert s. induction held as [|x held IH]; intros s Hs Hh; cbn [return_all foldl].
  { split; [done|split; [done|]]. intros n. unfold held_of. cbn. lia. }
  pose proof (Hh x) as Hx. rewrite held_of_cons, decide_True in Hx by done. unfold tokens_of in Hx. destruct (s !! x) as [l|] eqn:El; [|lia].
  assert (Hr : (Return l).2 = mkLimit (cap l) (tokens l - 1)) by (destruct l as [k [|t]]; cbn in *; [lia|]; by rewrite Nat.sub_0_r). rewrite Hr.
  assert (Htok : forall n, tokens_of n (<[x := mkLimit (cap l) (tokens l - 1)]> s) = (tokens_of n s - if decide (x = n) then 1 else 0)%nat).
  { intros n. unfold tokens_of. destruct (decide (x = n)) as [->|Hne]; [by rewrite lookup_insert_eq, El|]. rewrite lookup_insert_ne by done. lia. }
  destruct (IH (<[x := mkLimit (cap l) (tokens l - 1)]> s)) as (H1 & H2 & H3).
  - intros n l'. destruct (decide (n = x)) as [->|Hne]; [rewrite lookup_insert_eq; intros [= <-]; specialize (Hs x l El); cbn; lia|]. rewrite lookup_insert_ne by done. apply Hs.
  - intros n. rewrite Htok. specialize (Hh n). rewrite held_of_cons in Hh. lia.
  - split; [done|split].
    + intros n. fold (return_all held). rewrite H2. unfold cap_of. destruct (decide (n = x)) as [->|Hne]; [by rewrite lookup_insert_eq, El|by rewrite lookup_insert_ne].
    + intros n. rewrite H3, Htok, held_of_cons. lia.
Qed.

(** Requests in flight and what each holds. *)
Record bulkhead_state : Type := mkBulk { bk_sems : bulkheads; bk_flight : list (list string) }.
Inductive bulk_event := BEnter (names : list string) | BExit (i : nat).

Definition bulk_step (ev : bulk_event) (b : bulkhead_state) : bulkhead_state :=
  match ev with
  | BEnter names =>
      match bulkhead_enter names (bk_sems b) with
      | (Some held, s) => mkBulk s (held :: bk_flight b)
      | (None, s) => mkBulk s (bk_flight b)
      end
  | BExit i => match bk_flight b !! i with Some held => mkBulk (bulkhead_exit held (bk_sems b)) (delete i (bk_flight b)) | None => b end
  end.

Definition bulk_run (evs : list bulk_event) (b : bulkhead_state) : bulkhead_state := foldl (fun b ev => bulk_step ev b) b evs.

Definition flight_of (n : string) (fl : list (list string)) : nat := sum_list (held_of n <$> fl).

Definition bulk_inv (b : bulkhead_state) : Prop :=
  bulkheads_ok (bk_sems b) /\ forall n, tokens_of n (bk_sems b) = flight_of n (bk_flight b).

Lemma held_of_reverse n l : held_of n (reverse l) = held_of n l.
Proof. unfold held_of. apply Permutation_length. by rewrite reverse_Permutation. Qed.

Lemma flight_of_delete n fl i held : fl !! i = Some held -> flight_of n fl = (held_of n held + flight_of n (delete i fl))%nat.
Proof.
  revert i. induction fl as [|h fl IH]; intros [|i]; [done|done|by intros [= ->]|]. intros Hi.
  change (delete (S i) (h :: fl)) with (h :: delete i fl).
  assert (E : forall t, flight_of n (h :: t) = (held_of n h + flight_of n t)%nat) by done. rewrite !E, (IH i Hi). lia.
Qed.

Lemma bulk_step_inv ev b : bulk_inv b -> bulk_inv (bulk_step ev b) /\ forall n, cap_of n (bk_sems (bulk_step ev b)) = cap_of n (bk_sems b).
Proof.
  intros [Hok Htok]. destruct ev as [names|i]; cbn [bulk_step].
  - unfold bulkhead_enter. pose proof (borrow_all_ok names (bk_sems b) Hok) as H. destruct (borrow_all names (bk_sems b)) as [[[] held] s].
    + destruct H as (H1 & H2 & H3 & _). split; [|done]. split; [done|]. intros n. cbn [bk_sems bk_flight].
      change (flight_of n (held :: bk_flight b)) with (held_of n held + flight_of n (bk_flight b))%nat. rewrite H3, Htok. lia.
    + destruct H as (H1 & H2 & H3 & _). destruct (return_all_ok (reverse held) s H1) as (R1 & R2 & R3).
      { intros n. rewrite held_of_reverse, H3. lia. }
      split; [|intros n; cbn; by rewrite R2]. split; [done|]. intros n. cbn [bk_sems bk_flight]. rewrite R3, held_of_reverse, H3, Htok. lia.
  - destruct (bk_flight b !! i) as [held|] eqn:E; [|done]. unfold bulkhead_exit. destruct (return_all_ok (reverse held) (bk_sems b) Hok) as (R1 & R2 & R3).
    { intros n. rewrite held_of_reverse, Htok, (flight_of_delete n _ i held E). lia. }
    split; [|done]. split; [done|]. intros n. cbn [bk_sems bk_flight]. rewrite R3, held_of_reverse, Htok, (flight_of_delete n _ i held E). lia.
Qed.

(** A bulkhead bounds concurrency: over any interleaving of requests that enter, are
    refused and finish, the requests in flight hold a bulkhead at most as often as its limit
    allows, no permit is lost (a refusal gives back what it had taken), and when every request
    has finished all permits are free.  A name keeps the limit it was first registered with,
    whatever another entry configures, and a limit that is not positive leaves it unbounded. *)
Theorem bulkhead_bounded (sems : bulkheads) (evs : list bulk_event) :
  (forall n l, sems !! n = Some l -> tokens l = 0%nat) ->
  let b := bulk_run evs (mkBulk sems []) in
  (forall n k, cap_of n sems = Some k -> (flight_of n (bk_flight b) <= k)%nat) /\
  (bk_flight b = [] -> forall n, tokens_of n (bk_sems b) = 0%nat) /\
  (forall n lim1 lim2 s l, NewLimit lim1 = Some l -> s !! n = None -> BulkheadRegister n lim2 (BulkheadRegister n lim1 s) !! n = Some l) /\
  (forall n lim s, lim <= 0 -> registerBulkhead [(n, lim)] s = s).
Proof.
  intros H0. cbn zeta.
  assert (Hinv : bulk_inv (bulk_run evs (mkBulk sems [])) /\ forall n, cap_of n (bk_sems (bulk_run evs (mkBulk sems []))) = cap_of n sems).
  { assert (Hgen : forall b, bulk_inv b -> bulk_inv (bulk_run evs b) /\ forall n, cap_of n (bk_sems (bulk_run evs b)) = cap_of n (bk_sems b)).
    { unfold bulk_run. induction evs as [|ev evs IH]; intros b Hb; [done|]. cbn [foldl]. destruct (bulk_step_inv ev b Hb) as [Hb' Hc].
      destruct (IH _ Hb') as [H1 H2]. split; [done|]. intros n. by rewrite H2, Hc. }
    apply Hgen. split; [intros n l Hl; specialize (H0 n l Hl); lia|]. intros n. unfold tokens_of. cbn. destruct (sems !! n) as [l|] eqn:E; [|done]. by rewrite (H0 n l E). }
  destruct Hinv as [[Hok Htok] Hcap]. split_and!.
  - intros n k Hk. rewrite <- Htok. rewrite <- Hcap in Hk. unfold cap_of, tokens_of in *. destruct (_ !! n) as [l|] eqn:E; [|done]. injection Hk as <-. by eapply Hok.
  - intros Hf n. by rewrite Htok, Hf.
  - intros n lim1 lim2 s l Hl Hn. unfold BulkheadRegister. rewrite Hn, Hl, lookup_insert_eq. by rewrite lookup_insert_eq.
  - intros n lim s Hl. cbn. by destruct (Z.ltb_spec 0 lim); [lia|].
Qed.

Lemma bulkhead_bounded_witness :
  let b := bulk_run [BEnter ["db"; "ai"]; BEnter ["db"]; BEnter ["ai"; "db"]; BExit 1] (mkBulk (registerBulkhead [("db", 2); ("ai", 5)] ∅) []) in
  (flight_of "db" (bk_flight b) <= 2)%nat /\ bk_flight b = [["db"]].
Proof.
  cbn zeta. split; [|by vm_compute].
  apply (bulkhead_bounded (registerBulkhead [("db", 2); ("ai", 5)] ∅) [BEnter ["db"; "ai"]; BEnter ["db"]; BEnter ["ai"; "db"]; BExit 1]); [|by vm_compute].
  intros n l Hl. change (registerBulkhead [("db", 2); ("ai", 5)] ∅) with ({["ai" := mkLimit 5 0; "db" := mkLimit 2 0]} : bulkheads) in Hl.
  apply lookup_insert_Some in Hl as [[_ <-]|[_ [_ <-]%lookup_singleton_Some]]; done.
Defined.
