(* ===== verification/MySqlTable.v ===== *)
(** * MySQL tables (db/mysql.go) and their CRUD provider (runtime/table_provider.go)

    The operations of [MySQLTable] and [mysqlCRUD], as programs of SqlTable over the
    [database/sql] pool.  The conversion of a row into a struct (scan.go) is the argument
    [scan]. *)

From Stdlib Require Import Ascii String.
From stdpp Require Import pretty.
From S2P Require Import Prelude GoStrings GoStrconv SqlModel SqlTable Crud.
#[local] Open Scope list_scope.
#[local] Open Scope Z_scope.

Section mysql.
Context (range : forall V, gmap string V -> list (string * V)) (scan : row -> option entity) (sprint : value -> string) (NewID : string).

Definition columnField (t : Table) (column : string) : option FieldInfo :=
  snd <$> list_find (fun f => Column f = column) (SqlModel.Fields (t_info t)).

Definition scanRows (op : string) (r : reply) : list entity + db_error :=
  match r with Rows l => match mapM scan l with Some es => inl es | None => inr (ErrDB op) end | _ => inr (ErrDB op) end.

(** [QueryRowContext(...).Scan]: the first row, if any *)
Definition scanRow (op : string) (r : reply) : entity + db_error :=
  match r with
  | Rows (x :: _) => match scan x with Some e => inl e | None => inr (ErrDB op) end
  | Rows [] => inr ErrNotFound
  | _ => inr (ErrDB op)
  end.

Definition number (op : string) (r : reply) : Z + db_error := match r with Number n => inl n | _ => inr (ErrDB op) end.

Definition select_from (t : Table) : string := "SELECT " +++ columnsList t +++ " FROM " +++ tableName t.
Definition pk (t : Table) : string := PrimaryKey (t_info t).

(** The loops over [where] of [QueryWhere] and [CountWhere]. *)
Fixpoint my_where_loop (t : Table) (first : bool) (kvs : list (string * value)) (b : string) (args : list value) : (string * list value) + db_error :=
  match kvs with
  | [] => inl (b, args)
  | (c, v) :: kvs =>
      match columnField t c with
      | None => inr (ErrInvalidColumn c)
      | Some _ => my_where_loop t false kvs (b +++ (if first then " WHERE " else " AND ") +++ c +++ " = ?") (args ++ [v])
      end
  end.

Definition my_QueryWhere (t : Table) (where_ : gmap string value) (orderBy : string) (limit offset : Z) : prog (list entity + db_error) :=
  match (if String.eqb orderBy "" then inl (pk t) else match columnField t orderBy with None => inr (ErrInvalidColumn orderBy) | Some _ => inl orderBy end) with
  | inr e => Ret (inr e)
  | inl orderBy =>
      match my_where_loop t true (range _ where_) (select_from t) [] with
      | inr e => Ret (inr e)
      | inl (b, args) =>
          let b := b +++ " ORDER BY " +++ orderBy in
          let b := if 0 <? limit then b +++ " LIMIT " +++ pretty limit else b in
          let b := if 0 <? offset then b +++ " OFFSET " +++ pretty offset else b in
          Ask b args (fun r => Ret (scanRows "where" r))
      end
  end.

Definition my_CountWhere (t : Table) (where_ : gmap string value) : prog (Z + db_error) :=
  match my_where_loop t true (range _ where_) ("SELECT COUNT(" +++ "*) FROM " +++ tableName t) [] with
  | inr e => Ret (inr e)
  | inl (b, args) => Ask b args (fun r => Ret (number "count" r))
  end.

Definition my_List (t : Table) : prog (list entity + db_error) :=
  Ask (select_from t +++ " ORDER BY " +++ pk t +++ " LIMIT " +++ pretty defaultListLimit) [] (fun r => Ret (scanRows "list" r)).

Definition my_ListPaginated (t : Table) (limit offset : Z) : prog (list entity + db_error) :=
  Ask (select_from t +++ " ORDER BY " +++ pk t +++ " LIMIT ? OFFSET ?") [VInt limit; VInt offset] (fun r => Ret (scanRows "list paginated" r)).

Definition my_Count (t : Table) : prog (Z + db_error) :=
  Ask ("SELECT COUNT(" +++ "*) FROM " +++ tableName t) [] (fun r => Ret (number "count" r)).

(** The keyset query: neither the order nor the filters are checked against the model. *)
Fixpoint my_keyset_loop (cursor : string) (kvs : list (string * value)) (b : string) (args : list value) : string * list value :=
  match kvs with
  | [] => (b, args)
  | (c, v) :: kvs =>
      let b := if negb (String.eqb cursor "") || negb (bool_decide (args = [])) then b +++ " AND " +++ c +++ " = ?" else b +++ " WHERE " +++ c +++ " = ?" in
      my_keyset_loop cursor kvs b (args ++ [v])
  end.

(** [result[size-1]] panics ([None]) for a size below 1 when there are rows left over. *)
Definition my_keyset_page (t : Table) (size : Z) (orderBy : string) (r : reply) : option (list entity * string + db_error) :=
  match scanRows "keyset" r with
  | inr e => Some (inr e)
  | inl result =>
      if size <? Z.of_nat (length result) then
        if size <? 1 then None
        else
          let next := match result !! Z.to_nat (size - 1), columnField t orderBy with
                      | Some last, Some f => match last !! GoName f with Some v => sprint v | None => "" end
                      | _, _ => ""
                      end in
          Some (inl (take (Z.to_nat size) result, next))
      else Some (inl (result, ""))
  end.

Definition my_QueryKeyset (t : Table) (cursor : string) (size : Z) (orderBy : string) (where_ : gmap string value) : prog (option (list entity * string + db_error)) :=
  let orderBy := if String.eqb orderBy "" then pk t else orderBy in
  let b := select_from t in
  let '(b, args) := if negb (String.eqb cursor "") then (b +++ " WHERE " +++ orderBy +++ " > ?", [VText cursor]) else (b, []) in
  let '(b, args) := my_keyset_loop cursor (range _ where_) b args in
  let b := b +++ " ORDER BY " +++ orderBy in
  let b := if negb (String.eqb orderBy (pk t)) then b +++ ", " +++ pk t else b in
  Ask (b +++ " LIMIT ?") (args ++ [VInt (wrap64 (size + 1))]) (fun r => Ret (my_keyset_page t size orderBy r)).

Definition my_Get (t : Table) (id : value) : prog (entity + db_error) :=
  Ask (select_from t +++ " WHERE " +++ pk t +++ " = ?") [id] (fun r => Ret (scanRow "get" r)).

Definition my_GetScoped (t : Table) (id : value) (tenantField tenantID : string) : prog (entity + db_error) :=
  match columnField t tenantField with
  | None => Ret (inr (ErrInvalidColumn tenantField))
  | Some _ => Ask (select_from t +++ " WHERE " +++ pk t +++ " = ? AND " +++ tenantField +++ " = ?") [id; VText tenantID] (fun r => Ret (scanRow "get scoped" r))
  end.

(** The SET list: the keys of the patch between backquotes, whatever they are. *)
Definition my_sets (kvs : list (string * value)) : string := Join ((fun kv => "`" +++ kv.1 +++ "` = ?") <$> kvs) ", ".

Definition my_Update (t : Table) (id : value) (patch : gmap string value) : prog (entity + db_error) :=
  if decide (patch = ∅) then Ret (inr ErrNoFields)
  else
    let kvs := range _ (ResolvePatchColumns range (t_info t) patch) in
    Ask ("UPDATE " +++ tableName t +++ " SET " +++ my_sets kvs +++ " WHERE " +++ pk t +++ " = ?") (kvs.*2 ++ [id])
      (fun r => match r with Affected _ => my_Get t id | _ => Ret (inr (ErrDB "update")) end).

Definition my_UpdateScoped (t : Table) (id : value) (patch : gmap string value) (tenantField tenantID : string) : prog (entity + db_error) :=
  match columnField t tenantField with
  | None => Ret (inr (ErrInvalidColumn tenantField))
  | Some _ =>
      if decide (patch = ∅) then Ret (inr ErrNoFields)
      else
        let kvs := range _ (ResolvePatchColumns range (t_info t) patch) in
        Ask ("UPDATE " +++ tableName t +++ " SET " +++ my_sets kvs +++ " WHERE " +++ pk t +++ " = ? AND " +++ tenantField +++ " = ?") (kvs.*2 ++ [id; VText tenantID])
          (fun r => match r with Affected _ => my_GetScoped t id tenantField tenantID | _ => Ret (inr (ErrDB "update scoped")) end)
  end.

Definition my_Delete (t : Table) (id : value) : prog (option db_error) :=
  Ask ("DELETE FROM " +++ tableName t +++ " WHERE " +++ pk t +++ " = ?") [id] (fun r => Ret (affected "delete" r)).

Definition my_DeleteScoped (t : Table) (id : value) (tenantField tenantID : string) : prog (option db_error) :=
  match columnField t tenantField with
  | None => Ret (Some (ErrInvalidColumn tenantField))
  | Some _ => Ask ("DELETE FROM " +++ tableName t +++ " WHERE " +++ pk t +++ " = ? AND " +++ tenantField +++ " = ?") [id; VText tenantID] (fun r => Ret (affected "delete scoped" r))
  end.

(** [ensureStringPK]: the entity with an identifier if its string primary key is empty, and
    whether it has such a key. *)
Fixpoint ensureStringPK (fs : list FieldInfo) (e : entity) : entity * bool :=
  match fs with
  | [] => (e, false)
  | f :: fs =>
      if negb (Primary f) || negb (match FieldType f with TString => true | _ => false end) then ensureStringPK fs e
      else (match e !! GoName f with Some v => if IsZero v then <[GoName f := VText NewID]> e else e | None => e end, true)
  end.

Fixpoint my_insertColumns (fs : list FieldInfo) (e : entity) : list (string * value) :=
  match fs with
  | [] => []
  | f :: fs =>
      match e !! GoName f with
      | None => my_insertColumns fs e
      | Some v =>
          let stringPK := Primary f && (match FieldType f with TString => true | _ => false end) && negb (IsZero v) in
          if Skip f || (Auto f && negb stringPK) then my_insertColumns fs e
          else if negb (String.eqb (Default f) "") && IsZero v then my_insertColumns fs e
          else ("`" +++ Column f +++ "`", v) :: my_insertColumns fs e
      end
  end.

Definition my_CountScoped (t : Table) (tenantField tenantID : string) : prog (Z + db_error) :=
  match columnField t tenantField with
  | None => Ret (inr (ErrInvalidColumn tenantField))
  | Some _ => Ask ("SELECT COUNT(" +++ "*) FROM " +++ tableName t +++ " WHERE " +++ tenantField +++ " = ?") [VText tenantID] (fun r => Ret (number "count scoped" r))
  end.

Definition my_ListScoped (t : Table) (tenantField tenantID : string) : prog (list entity + db_error) :=
  match columnField t tenantField with
  | None => Ret (inr (ErrInvalidColumn tenantField))
  | Some _ => Ask (select_from t +++ " WHERE " +++ tenantField +++ " = ? ORDER BY " +++ pk t +++ " LIMIT " +++ pretty defaultListLimit) [VText tenantID]
                (fun r => Ret (scanRows "list scoped" r))
  end.

Definition my_ListScopedPaginated (t : Table) (tenantField tenantID : string) (limit offset : Z) : prog (list entity + db_error) :=
  match columnField t tenantField with
  | None => Ret (inr (ErrInvalidColumn tenantField))
  | Some _ => Ask (select_from t +++ " WHERE " +++ tenantField +++ " = ? ORDER BY " +++ pk t +++ " LIMIT ? OFFSET ?") [VText tenantID; VInt limit; VInt offset]
                (fun r => Ret (scanRows "list scoped paginated" r))
  end.

Definition placeholder (n : nat) : string := Join (repeat "?" n) ", ".

(** The reply to an INSERT is [Number id] with the identifier that was generated, or
    [Affected _] when there is none ([LastInsertId] is 0). *)
Definition LastInsertId (r : reply) : option Z := match r with Number id => Some id | Affected _ => Some 0 | _ => None end.

(** [reflect.Value.SetInt] panics on a field of another kind. *)
Definition signed (ty : goType) : bool :=
  match ty with TInt (Int | Int8 | Int16 | Int32 | Int64) => true | _ => false end.

(** [None] is the panic of [SetInt]. *)
Definition my_Create (t : Table) (e : entity) : prog (option (entity + db_error)) :=
  let '(e, stringPK) := ensureStringPK (SqlModel.Fields (t_info t)) e in
  let cvs := my_insertColumns (SqlModel.Fields (t_info t)) e in
  match cvs with
  | [] => Ret (Some (inr ErrNoFields))
  | _ =>
      Ask ("INSERT INTO " +++ tableName t +++ " (" +++ Join cvs.*1 ", " +++ ") VALUES (" +++ placeholder (length cvs) +++ ")") cvs.*2
        (fun r => Ret (match LastInsertId r with
                       | None => Some (inr (ErrDB "create"))
                       | Some id =>
                           if negb (String.eqb (pk t) "") && negb stringPK then
                             match list_find (fun f => Primary f = true) (SqlModel.Fields (t_info t)) with
                             | None => Some (inl e)
                             | Some (_, f) => if signed (FieldType f) then Some (inl (<[GoName f := VInt id]> e)) else None
                             end
                           else Some (inl e)
                       end))
  end.

(** [None] is the panic of [SetString] on a field that is no string. *)
Definition set_tenant (t : Table) (e : entity) (tenantField tenantID : string) : option entity :=
  match columnField t tenantField with
  | None => Some e
  | Some f => match e !! GoName f with None => Some e | Some (VText _) => Some (<[GoName f := VText tenantID]> e) | Some _ => None end
  end.

Definition my_CreateScoped (t : Table) (e : entity) (tenantField tenantID : string) : prog (option (entity + db_error)) :=
  match columnField t tenantField with
  | None => Ret (Some (inr (ErrInvalidColumn tenantField)))
  | Some _ => match set_tenant t e tenantField tenantID with None => Ret None | Some e => my_Create t e end
  end.

(** [AutoInit]: the table, then its indexes; the error of an index is only printed. *)
Fixpoint my_indexes (qs : list string) : prog (option db_error) :=
  match qs with [] => Ret None | q :: qs => Ask q [] (fun _ => my_indexes qs) end.

Definition my_AutoInit (IsNumeric : string -> bool) (t : Table) (cs : list Constraint) : option (prog (option db_error)) :=
  let fs := filter (fun f => negb (Skip f)) (SqlModel.Fields (t_info t)) in
  st ← applyTableConstraints (tableName t) cs (mysql_buildColumnDef IsNumeric <$> fs, mjoin (index_of_field (tableName t) <$> fs));
  let '(parts, indexes) := st in
  Some (Ask ("CREATE TABLE IF NOT EXISTS " +++ tableName t +++ " (" +++ String "010" ("  " +++ Join parts ("," +++ String "010" "  ")) +++ String "010" ") ENGINE=InnoDB DEFAULT CHARSET=utf8mb4") []
          (fun r => match r with Failed => Ret (Some (ErrDB "migrate")) | _ => my_indexes indexes end)).

(** ** The provider *)

(** [offsetFilteredWhere] *)
Definition offsetFilteredWhere (info : TableInfo) (filters : gmap string string) (tenant : string * string) : gmap string value :=
  with_tenant tenant (makeFiltersMap (ResolvePatchColumns range info filters)).

(** [None] is the panic of [QueryKeyset]. *)
Definition mysqlCRUD_List (t : Table) (tenant : string * string) (params : ListParams) : prog (option response) :=
  if String.eqb (Pagination params) "keyset" then
    bind (my_QueryKeyset t (Cursor params) (Size params) (Sort params) (with_tenant tenant (makeFiltersMap (Filters params))))
      (fun r => Ret (match r with
                     | None => None
                     | Some (inr e) => Some (Err (ErrDBQuery e))
                     | Some (inl (items, next)) => Some (KeysetResponse (Items items) next (Size params))
                     end))
  else
    let limit := if Size params <=? 0 then 10 else Size params in
    let offset := Z.max (wrap64 ((Page params - 1) * limit)) 0 in
    let page (n : Z) (items : list entity + db_error) :=
      match items with inl l => Some (PaginatedResponse (Items l) n (Page params) (Size params)) | inr e => Some (Err (ErrDBQuery e)) end in
    if negb (bool_decide (Filters params = ∅)) || scoped tenant then
      let w := offsetFilteredWhere (t_info t) (Filters params) tenant in
      bind (my_CountWhere t w) (fun n => match n with
        | inr e => Ret (Some (Err (ErrDBQuery e)))
        | inl n => bind (my_QueryWhere t w (Sort params) limit offset) (fun l => Ret (page n l)) end)
    else
      bind (my_Count t) (fun n => match n with
        | inr e => Ret (Some (Err (ErrDBQuery e)))
        | inl n => bind (my_ListPaginated t limit offset) (fun l => Ret (page n l)) end).

Definition mysqlCRUD_Update (h : hooks) (t : Table) (tenant : string * string) (id : string) (body : option (gmap string value)) : prog response :=
  match body with
  | None => Ret (Err (ErrValidation "body"))
  | Some patch =>
      match BeforeUpdate h id patch with
      | None => Ret (Err (ErrValidation "hook"))
      | Some patch =>
          bind (if scoped tenant then my_UpdateScoped t (VText id) patch tenant.1 tenant.2 else my_Update t (VText id) patch)
            (fun r => Ret (match r with inl e => Item 200 (AfterUpdate h e) | inr e => Err (item_error e) end))
      end
  end.

Definition mysqlCRUD_Get (t : Table) (tenant : string * string) (id : string) : prog response :=
  bind (if scoped tenant then my_GetScoped t (VText id) tenant.1 tenant.2 else my_Get t (VText id))
    (fun r => Ret (match r with inl item => Item 200 item | inr e => Err (item_error e) end)).

(** [None] is the panic of [SetInt] or [SetString]. *)
Definition mysqlCRUD_Create (h : hooks) (t : Table) (tenant : string * string) (body : option entity) : prog (option response) :=
  match body with
  | None => Ret (Some (Err (ErrValidation "body")))
  | Some e =>
      match BeforeCreate h e with
      | None => Ret (Some (Err (ErrValidation "hook")))
      | Some e =>
          bind (if scoped tenant then my_CreateScoped t e tenant.1 tenant.2 else my_Create t e)
            (fun r => Ret (match r with
                           | None => None
                           | Some (inl e) => Some (Item 201 (AfterCreate h e))
                           | Some (inr e) => Some (Err (ErrDBQuery e))
                           end))
      end
  end.

Definition mysqlCRUD_Delete (h : hooks) (t : Table) (tenant : string * string) (id : string) : prog response :=
  if negb (BeforeDelete h id) then Ret (Err (ErrValidation "hook"))
  else bind (if scoped tenant then my_DeleteScoped t (VText id) tenant.1 tenant.2 else my_Delete t (VText id))
         (fun r => Ret (match r with None => NoContent | Some e => Err (item_error e) end)).
End mysql.

(** ** Properties *)

(** The first statement a program sends. *)
Definition first_query {A} (p : prog A) : option string := match p with Ask q _ _ => Some q | Ret _ => None end.

Lemma range_singleton (range : forall V, gmap string V -> list (string * V)) V (k : string) (v : V) :
  (forall V m, range V m ≡ₚ map_to_list m) -> range V {[k := v]} = [(k, v)].
Proof. intros H. apply Permutation_singleton_r. by rewrite H, map_to_list_singleton. Qed.

(** On MySQL the names in a request reach the SQL text unchecked.  For any text at all,
    used as the name of a query parameter in a keyset list or as a key of a PATCH body that
    is no JSON name of the model, the first statement sent contains that text as it is. *)
Theorem mysql_text_from_request (range : forall V, gmap string V -> list (string * V)) (scan : row -> option entity) (sprint : value -> string)
    (t : Table) (evil v id : string) (size : Z) :
  (forall V m, range V m ≡ₚ map_to_list m) -> resolveColumn (t_info t) evil = evil ->
  first_query (mysqlCRUD_List range scan sprint t ("", "") (mkListParams 1 size (pk t) {[evil := v]} "" "keyset" [])) =
    Some (select_from t +++ " WHERE " +++ evil +++ " = ? ORDER BY " +++ pk t +++ " LIMIT ?") /\
  first_query (mysqlCRUD_Update range scan DefaultHooks t ("", "") id (Some {[evil := VText v]})) =
    Some ("UPDATE " +++ tableName t +++ " SET `" +++ evil +++ "` = ? WHERE " +++ pk t +++ " = ?").
Proof.
  intros Hr He. split.
  - unfold mysqlCRUD_List, my_QueryKeyset. cbn [Pagination Cursor Size Sort Filters String.eqb Ascii.eqb Bool.eqb scoped with_tenant fst snd negb andb].
    unfold with_tenant, makeFiltersMap. cbn [scoped fst snd String.eqb negb andb]. rewrite map_fmap_singleton, range_singleton by done.
    cbn [my_keyset_loop]. replace (if String.eqb (pk t) "" then pk t else pk t) with (pk t) by (by destruct (String.eqb (pk t) "")).
    rewrite String.eqb_refl. cbn. by rewrite !str_app_assoc.
  - unfold mysqlCRUD_Update, my_Update. cbn [BeforeUpdate DefaultHooks scoped fst snd String.eqb negb andb bind]. rewrite decide_False by apply map_non_empty_singleton.
    cbn. unfold ResolvePatchColumns at 1. rewrite range_singleton by done. cbn [foldl fst snd]. rewrite He.
    change (<[evil:=VText v]> (∅ : gmap string value)) with ({[evil := VText v]} : gmap string value). rewrite range_singleton by done.
    unfold my_sets. cbn [fmap list_fmap fst Join]. rewrite !str_app_assoc. reflexivity.
Qed.

Lemma mysql_text_from_request_witness :
  first_query (mysqlCRUD_List demo_range demo_scan demo_print demo_table ("", "") (mkListParams 1 10 (pk demo_table) {["1=1 OR id" := "0"]} "" "keyset" [])) =
  Some "SELECT id, score, org_id FROM items WHERE 1=1 OR id = ? ORDER BY id LIMIT ?".
Proof.
  destruct (mysql_text_from_request demo_range demo_scan demo_print demo_table "1=1 OR id" "0" "1" 10) as [H _]; [reflexivity|reflexivity|]. exact H.
Defined.
