(* ===== verification/TursoTable.v ===== *)
(** * Turso tables (db/turso.go) and their CRUD provider (runtime/table_provider.go)

    [TursoTable] and [tursoCRUD] over the [database/sql] pool of SQLite.  Where turso.go has
    the statements of mysql.go letter by letter the operation is that of MySqlTable; the
    others return the row they write, and address the tenant column by the name it has in
    the model.  The rows are converted by scan.go, the argument [scan]. *)

From Stdlib Require Import Ascii String.
From stdpp Require Import pretty.
From S2P Require Import Prelude GoStrings GoStrconv SqlModel SqlTable Crud MySqlTable.
#[local] Open Scope list_scope.
#[local] Open Scope Z_scope.

Section turso.
Context (range : forall V, gmap string V -> list (string * V)) (scan : row -> option entity) (sprint : value -> string).

(** [NewTursoTableFrom]: the model given, or the one parsed from the type. *)
Definition NewTursoTableFrom (parsed : TableInfo + model_error) (tableName : string) (info : option TableInfo) : Table + model_error :=
  match info with
  | Some info => inl (NewTable info tableName)
  | None => match parsed with inl info => inl (NewTable info tableName) | inr e => inr e end
  end.

(** ** Schema *)

Definition turso_buildColumnDef (IsNumeric : string -> bool) (f : FieldInfo) : string :=
  if Auto f then Join [Column f; "INTEGER PRIMARY KEY AUTOINCREMENT"] " "
  else Join ([Column f; columnType dialectSQLite f]
             ++ (if Required f || Primary f then ["NOT NULL"] else [])
             ++ option_list ((fun d => "DEFAULT " +++ d) <$> columnDefault IsNumeric dialectSQLite (Default f))
             ++ (if Primary f then ["PRIMARY KEY"] else [])) " ".

(** The reply to the query for the table's name: whether a row came back. *)
Definition tableExists (t : Table) : prog bool :=
  Ask "SELECT name FROM sqlite_master WHERE type='table' AND name=?" [VText (tableName t)]
    (fun r => Ret (match r with Rows (_ :: _) => true | _ => false end)).

Fixpoint turso_indexes (qs : list string) : prog (option db_error) :=
  match qs with [] => Ret None | q :: qs => Ask q [] (fun r => match r with Failed => Ret (Some (ErrDB "index")) | _ => turso_indexes qs end) end.

(** [None] is the panic of a CHECK without columns. *)
Definition turso_AutoInit (IsNumeric : string -> bool) (t : Table) (cs : list Constraint) : prog (option (option db_error)) :=
  bind (tableExists t) (fun ex =>
    if ex : bool then Ret (Some None)
    else
      let fs := filter (fun f => negb (Skip f)) (SqlModel.Fields (t_info t)) in
      match applyTableConstraints (tableName t) cs (turso_buildColumnDef IsNumeric <$> fs, mjoin (index_of_field (tableName t) <$> fs)) with
      | None => Ret None
      | Some (parts, indexes) =>
          Ask ("CREATE TABLE IF NOT EXISTS " +++ tableName t +++ " (" +++ String "010" ("  " +++ Join parts ("," +++ String "010" "  ")) +++ String "010" ")") []
            (fun r => match r with Failed => Ret (Some (Some (ErrDB "migrate"))) | _ => bind (turso_indexes indexes) (fun e => Ret (Some e)) end)
      end).

(** ** Operations *)

Definition turso_QueryWhere := my_QueryWhere range scan.
Definition turso_CountWhere := my_CountWhere range.
Definition turso_List := my_List scan.
Definition turso_ListPaginated := my_ListPaginated scan.
Definition turso_Count := my_Count.
Definition turso_QueryKeyset := my_QueryKeyset range scan sprint.
Definition turso_Get := my_Get scan.
Definition turso_Delete := my_Delete.

Definition turso_CountScoped (t : Table) (tenantField tenantID : string) : prog (Z + db_error) :=
  match columnField t tenantField with
  | None => Ret (inr (ErrInvalidColumn tenantField))
  | Some f => Ask ("SELECT COUNT(" +++ "*) FROM " +++ tableName t +++ " WHERE " +++ Column f +++ " = ?") [VText tenantID] (fun r => Ret (number "count scoped" r))
  end.

Definition turso_Create (t : Table) (e : entity) : prog (entity + db_error) :=
  let cvs := insert_values (SqlModel.Fields (t_info t)) e in
  Ask ("INSERT INTO " +++ tableName t +++ " (" +++ Join cvs.*1 ", " +++ ") VALUES (" +++ placeholder (length cvs) +++ ") RETURNING " +++ columnsList t) cvs.*2
    (fun r => Ret (match scanRow scan "create" r with inl e => inl e | inr _ => inr (ErrDB "create") end)).

(** The SET list: the keys of the patch as they are. *)
Definition turso_sets (kvs : list (string * value)) : string := Join ((fun kv => kv.1 +++ " = ?") <$> kvs) ", ".

Definition turso_Update (t : Table) (id : value) (patch : gmap string value) : prog (entity + db_error) :=
  if decide (patch = ∅) then Ret (inr ErrNoFields)
  else
    let kvs := range _ (ResolvePatchColumns range (t_info t) patch) in
    Ask ("UPDATE " +++ tableName t +++ " SET " +++ turso_sets kvs +++ " WHERE " +++ pk t +++ " = ? RETURNING " +++ columnsList t) (kvs.*2 ++ [id])
      (fun r => Ret (scanRow scan "update" r)).

Definition turso_ListScoped (t : Table) (tenantField tenantID : string) : prog (list entity + db_error) :=
  match columnField t tenantField with
  | None => Ret (inr (ErrInvalidColumn tenantField))
  | Some f => Ask (select_from t +++ " WHERE " +++ Column f +++ " = ? ORDER BY " +++ pk t +++ " LIMIT " +++ pretty defaultListLimit) [VText tenantID]
                (fun r => Ret (scanRows scan "list scoped" r))
  end.

Definition turso_ListScopedPaginated (t : Table) (tenantField tenantID : string) (limit offset : Z) : prog (list entity + db_error) :=
  match columnField t tenantField with
  | None => Ret (inr (ErrInvalidColumn tenantField))
  | Some f => Ask (select_from t +++ " WHERE " +++ Column f +++ " = ? ORDER BY " +++ pk t +++ " LIMIT ? OFFSET ?") [VText tenantID; VInt limit; VInt offset]
                (fun r => Ret (scanRows scan "list scoped paginated" r))
  end.

Definition turso_GetScoped (t : Table) (id : value) (tenantField tenantID : string) : prog (entity + db_error) :=
  match columnField t tenantField with
  | None => Ret (inr (ErrInvalidColumn tenantField))
  | Some f => Ask (select_from t +++ " WHERE " +++ pk t +++ " = ? AND " +++ Column f +++ " = ?") [id; VText tenantID] (fun r => Ret (scanRow scan "get scoped" r))
  end.

(** [None] is the panic of [SetString] on a field that is no string. *)
Definition turso_CreateScoped (t : Table) (e : entity) (tenantField tenantID : string) : prog (option (entity + db_error)) :=
  match columnField t tenantField with
  | None => Ret (Some (inr (ErrInvalidColumn tenantField)))
  | Some _ => match set_tenant t e tenantField tenantID with None => Ret None | Some e => bind (turso_Create t e) (fun r => Ret (Some r)) end
  end.

Definition turso_UpdateScoped (t : Table) (id : value) (patch : gmap string value) (tenantField tenantID : string) : prog (entity + db_error) :=
  match columnField t tenantField with
  | None => Ret (inr (ErrInvalidColumn tenantField))
  | Some f =>
      if decide (patch = ∅) then Ret (inr ErrNoFields)
      else
        let kvs := range _ (ResolvePatchColumns range (t_info t) patch) in
        Ask ("UPDATE " +++ tableName t +++ " SET " +++ turso_sets kvs +++ " WHERE " +++ pk t +++ " = ? AND " +++ Column f +++ " = ?") (kvs.*2 ++ [id; VText tenantID])
          (fun r => match affected "update scoped" r with
                    | Some e => Ret (inr e)
                    | None => turso_GetScoped t id tenantField tenantID
                    end)
  end.

Definition turso_DeleteScoped (t : Table) (id : value) (tenantField tenantID : string) : prog (option db_error) :=
  match columnField t tenantField with
  | None => Ret (Some (ErrInvalidColumn tenantField))
  | Some f => Ask ("DELETE FROM " +++ tableName t +++ " WHERE " +++ pk t +++ " = ? AND " +++ Column f +++ " = ?") [id; VText tenantID] (fun r => Ret (affected "delete scoped" r))
  end.

(** ** The provider *)

(** [None] is the panic of [QueryKeyset]. *)
Definition tursoCRUD_List (t : Table) (tenant : string * string) (params : ListParams) : prog (option response) :=
  if String.eqb (Pagination params) "keyset" then
    bind (turso_QueryKeyset t (Cursor params) (Size params) (Sort params) (with_tenant tenant (makeFiltersMap (Filters params))))
      (fun r => Ret (match r with
                     | None => None
                     | Some (inr e) => Some (Err (ErrDBQuery e))
                     | Some (inl (items, next)) => Some (KeysetResponse (Items items) next (Size params))
                     end))
  else
    let limit := if Size params <=? 0 then 10 else Size params in
    let offset := Z.max (wrap64 ((Page params - 1) * limit)) 0 in
    let page (n : Z) (items : list entity + db_error) :=
      match items with inl l => Some (PaginatedResponse (Items l) n (Page params) (Size params)) | inr e => Some (Err (ErrDBQuery e)) end in
    if negb (bool_decide (Filters params = ∅)) || scoped tenant then
      let w := offsetFilteredWhere range (t_info t) (Filters params) tenant in
      bind (turso_CountWhere t w) (fun n => match n with
        | inr e => Ret (Some (Err (ErrDBQuery e)))
        | inl n => bind (turso_QueryWhere t w (Sort params) limit offset) (fun l => Ret (page n l)) end)
    else
      bind (turso_Count t) (fun n => match n with
        | inr e => Ret (Some (Err (ErrDBQuery e)))
        | inl n => bind (turso_ListPaginated t limit offset) (fun l => Ret (page n l)) end).

Definition tursoCRUD_Get (t : Table) (tenant : string * string) (id : string) : prog response :=
  bind (if scoped tenant then turso_GetScoped t (VText id) tenant.1 tenant.2 else turso_Get t (VText id))
    (fun r => Ret (match r with inl item => Item 200 item | inr e => Err (item_error e) end)).

(** [None] is the panic of [SetString]. *)
Definition tursoCRUD_Create (h : hooks) (t : Table) (tenant : string * string) (body : option entity) : prog (option response) :=
  match body with
  | None => Ret (Some (Err (ErrValidation "body")))
  | Some e =>
      match BeforeCreate h e with
      | None => Ret (Some (Err (ErrValidation "hook")))
      | Some e =>
          bind (if scoped tenant then turso_CreateScoped t e tenant.1 tenant.2 else bind (turso_Create t e) (fun r => Ret (Some r)))
            (fun r => Ret (match r with
                           | None => None
                           | Some (inl e) => Some (Item 201 (AfterCreate h e))
                           | Some (inr e) => Some (Err (ErrDBQuery e))
                           end))
      end
  end.

Definition tursoCRUD_Update (h : hooks) (t : Table) (tenant : string * string) (id : string) (body : option (gmap string value)) : prog response :=
  match body with
  | None => Ret (Err (ErrValidation "body"))
  | Some patch =>
      match BeforeUpdate h id patch with
      | None => Ret (Err (ErrValidation "hook"))
      | Some patch =>
          bind (if scoped tenant then turso_UpdateScoped t (VText id) patch tenant.1 tenant.2 else turso_Update t (VText id) patch)
            (fun r => Ret (match r with inl e => Item 200 (AfterUpdate h e) | inr e => Err (item_error e) end))
      end
  end.

Definition tursoCRUD_Delete (h : hooks) (t : Table) (tenant : string * string) (id : string) : prog response :=
  if negb (BeforeDelete h id) then Ret (Err (ErrValidation "hook"))
  else bind (if scoped tenant then turso_DeleteScoped t (VText id) tenant.1 tenant.2 else turso_Delete t (VText id))
         (fun r => Ret (match r with None => NoContent | Some e => Err (item_error e) end)).
End turso.
