(* ===== verification/TenantSql.v ===== *)
(** * Tenant isolation on MySQL and Turso

    The statements of mysql.go and turso.go, printed with [?] for each parameter, mean what
    those of SqlTable mean, except that one without RETURNING replies with a count.  A request
    for a tenant is isolated on both databases, as it is on PostgreSQL (Crud). *)

From Stdlib Require Import Ascii String.
From stdpp Require Import pretty.
From S2P Require Import Prelude GoStrings GoStrconv SqlModel SqlTable Crud MySqlTable TursoTable.
#[local] Open Scope list_scope.
#[local] Open Scope Z_scope.

(** ** Statements with question marks *)

Fixpoint q_conds (first : bool) (cs : list (string * cmp)) : string :=
  match cs with
  | [] => ""
  | (c, op) :: cs => (if first then " WHERE " else " AND ") +++ c +++ (match op with Eq => " = ?" | Gt => " > ?" end) +++ q_conds false cs
  end.

Definition q_lim (keyword : string) (l : lim) : string :=
  match l with NoLim => "" | Lit z => keyword +++ pretty z | Param => keyword +++ "?" end.

(** [quote] is how the columns of SET and of an INSERT are written. *)
Definition q_render (quote : string -> string) (s : sql) : string :=
  match s with
  | SSelect cols tbl conds order limit offset =>
      "SELECT " +++ Join cols ", " +++ " FROM " +++ tbl +++ q_conds true conds
      +++ (match order with [] => "" | _ => " ORDER BY " +++ Join order ", " end) +++ q_lim " LIMIT " limit +++ q_lim " OFFSET " offset
  | SCount tbl conds => "SELECT COUNT(" +++ "*) FROM " +++ tbl +++ q_conds true conds
  | SInsert tbl cols returning =>
      "INSERT INTO " +++ tbl +++ " (" +++ Join (quote <$> cols) ", " +++ ") VALUES (" +++ placeholder (length cols) +++ ")"
      +++ (match returning with [] => "" | _ => " RETURNING " +++ Join returning ", " end)
  | SUpdate tbl sets conds returning =>
      "UPDATE " +++ tbl +++ " SET " +++ Join ((fun c => quote c +++ " = ?") <$> sets) ", " +++ q_conds true conds
      +++ (match returning with [] => "" | _ => " RETURNING " +++ Join returning ", " end)
  | SDelete tbl conds => "DELETE FROM " +++ tbl +++ q_conds true conds
  end.

Section semantics.
Context (sql_eq sql_lt : value -> value -> bool) (fill : row -> row).
(** The rows an UPDATE reports: those it matched, or those it changed. *)
Context (tally : list row -> list row -> Z).
Context (tf tid : string) (exec : string -> list value -> list row -> reply * list row) (quote : string -> string).

Definition q_eval (s : sql) (args : list value) (d : list row) : reply * list row :=
  match s with
  | SUpdate _ sets conds [] =>
      let matched := filter (fun r => conds_hold sql_eq sql_lt conds (drop (length sets) args) r) d in
      (Affected (tally matched (set_columns sets args <$> matched)), (eval sql_eq sql_lt fill s args d).2)
  | _ => eval sql_eq sql_lt fill s args d
  end.

Definition q_understands (s : sql) : Prop := forall args d, exec (q_render quote s) args d = q_eval s args d.

Lemma q_eval_state s args d : (q_eval s args d).2 = (eval sql_eq sql_lt fill s args d).2.
Proof using. by destruct s as [| | |? ? ? []|]. Qed.

Lemma q_bound s args : q_understands s -> tenant_bound tf tid s args -> bound_text sql_eq tf tid exec (q_render quote s) args.
Proof using.
  intros Hu Hb d1 d2 Hd. rewrite !(Hu args), !q_eval_state. destruct (eval_isolated sql_eq sql_lt fill tf tid s args d1 d2 Hb Hd) as [E1 E2].
  split_and!; [|done|by apply eval_keeps]. destruct s as [| | |tbl sets cs []|]; try exact E1. unfold q_eval. cbn [fst].
  assert (Hm := fun r => bound_mine sql_eq sql_lt tf tid (SUpdate tbl sets cs []) args r Hb). cbn [conds_of where_args] in Hm.
  rewrite (filter_mine sql_eq tf tid _ d1 Hm), (filter_mine sql_eq tf tid _ d2 Hm), Hd. done.
Qed.
End semantics.

(** ** The texts *)

Lemma columnField_valid t c : columnField t c = None <-> validColumn t c = false.
Proof.
  unfold columnField, validColumn. induction (SqlModel.Fields (t_info t)) as [|f fs IH]; cbn; [done|].
  destruct (String.eqb_spec (Column f) c) as [E|E]; [rewrite decide_True by done; done|]. rewrite decide_False by done. cbn. rewrite <- IH.
  destruct (list_find _ fs) as [[]|]; done.
Qed.

Lemma columnField_column t c f : columnField t c = Some f -> Column f = c.
Proof. unfold columnField. intros ([i f'] & H & E)%fmap_Some. cbn in E. subst f'. by apply list_find_Some in H as (_ & H & _). Qed.

Lemma my_where_loop_spec t first kvs b args :
  my_where_loop t first kvs b args = match invalid t kvs with Some c => inr (ErrInvalidColumn c) | None => inl (b +++ q_conds first (eqs kvs), args ++ kvs.*2) end.
Proof.
  revert first b args. induction kvs as [|[c v] kvs IH]; intros first b args; cbn [my_where_loop].
  - cbn. by rewrite str_app_nil_r, app_nil_r.
  - rewrite invalid_cons. destruct (columnField t c) as [f|] eqn:E.
    + assert (validColumn t c = true) as -> by (destruct (validColumn t c) eqn:V; [done|]; apply columnField_valid in V; congruence).
      rewrite IH. destruct (invalid t kvs); [done|]. cbn. by rewrite !str_app_assoc, <- (assoc_L (++)).
    + by rewrite (proj1 (columnField_valid t c) E).
Qed.

Lemma my_keyset_loop_spec cursor kvs b args :
  my_keyset_loop cursor kvs b args = (b +++ q_conds (String.eqb cursor "" && bool_decide (args = [])) (eqs kvs), args ++ kvs.*2).
Proof.
  revert b args. induction kvs as [|[c v] kvs IH]; intros b args; cbn [my_keyset_loop].
  - cbn. by rewrite str_app_nil_r, app_nil_r.
  - rewrite IH. rewrite (bool_decide_eq_false_2 (args ++ [v] = [])) by (by destruct args). rewrite andb_false_r. cbn.
    rewrite <- negb_andb. destruct (_ && _); cbn; by rewrite !str_app_assoc, <- (assoc_L (++)).
Qed.

Definition keyset_order (t : Table) (o : string) : list string := if String.eqb o (pk t) then [o] else [o; pk t].
Definition q_keyset_stmt (t : Table) (conds : list (string * cmp)) (o : string) : sql := SSelect (columns t) (tableName t) conds (keyset_order t o) Param NoLim.
Definition q_order (t : Table) (params : ListParams) : string := if String.eqb (Sort params) "" then pk t else Sort params.

(** The statements a request of a tenant sends; [ret] is what an update returns. *)
Section statements.
Context (range : forall V, gmap string V -> list (string * V)) (h : hooks).

Definition q_list_where (t : Table) (tenant : string * string) (params : ListParams) : list (string * value) :=
  range _ (with_tenant tenant (makeFiltersMap (ResolvePatchColumns range (t_info t) (Filters params)))).
Definition q_keyset_where (t : Table) (tenant : string * string) (params : ListParams) : list (string * value) :=
  range _ (with_tenant tenant (makeFiltersMap (Filters params))).

Definition q_stmts (t : Table) (tenant : string * string) (rq : crud_request) : list sql :=
  let get := SSelect (columns t) (tableName t) [(pk t, Eq); (tenant.1, Eq)] [] NoLim NoLim in
  match rq with
  | RGet _ => [get]
  | RDelete _ => [SDelete (tableName t) [(pk t, Eq); (tenant.1, Eq)]]
  | RUpdate id (Some patch) =>
      match BeforeUpdate h id patch with
      | Some patch => [SUpdate (tableName t) (range _ (ResolvePatchColumns range (t_info t) patch)).*1 [(pk t, Eq); (tenant.1, Eq)] []; get]
      | None => []
      end
  | RUpdate _ None => []
  | RList params =>
      if String.eqb (Pagination params) "keyset"
      then [q_keyset_stmt t (cursor_conds (Cursor params) (q_order t params) ++ eqs (q_keyset_where t tenant params)) (q_order t params)]
      else let limit := if Size params <=? 0 then 10 else Size params in
           let offset := Z.max (wrap64 ((Page params - 1) * limit)) 0 in
           [SCount (tableName t) (eqs (q_list_where t tenant params));
            SSelect (columns t) (tableName t) (eqs (q_list_where t tenant params)) [q_order t params] (Lit limit) (if 0 <? offset then Lit offset else NoLim)]
  end.

(** The names that reach the text of a statement unchecked: the filters and the order of a
    keyset list and the keys of a patch (docs/security.md says that names are checked). *)
Definition unchecked_names (t : Table) (tenant : string * string) (rq : crud_request) : list string :=
  match rq with
  | RList params => if String.eqb (Pagination params) "keyset" then q_order t params :: (q_keyset_where t tenant params).*1 else []
  | RUpdate id (Some patch) => match BeforeUpdate h id patch with Some patch => (range _ (ResolvePatchColumns range (t_info t) patch)).*1 | None => [] end
  | _ => []
  end.
End statements.

(** ** Isolation *)

Lemma offset_limit (n : Z) : 0 < (if n <=? 0 then 10 else n).
Proof. destruct (n <=? 0) eqn:E; lia. Qed.

Section isolation.
Context (range : forall V, gmap string V -> list (string * V)) (scan : row -> option entity) (sprint : value -> string) (h : hooks).
Context (sql_eq sql_lt : value -> value -> bool) (fill : row -> row) (tally : list row -> list row -> Z).
Context (exec : string -> list value -> list row -> reply * list row).
Hypothesis range_perm : forall V (m : gmap string V), range V m ≡ₚ map_to_list m.
Context (t : Table) (Hcols : Forall (model_name t) (columns t)) (tf tid : string) (Hscoped : scoped (tf, tid) = true).
Notation ten := (tf, tid).
Notation bound := (bound_text sql_eq tf tid exec).

Definition backquote (c : string) : string := "`" +++ c +++ "`".

Definition mysql_handle (rq : crud_request) : prog (option response) :=
  match rq with
  | RList params => mysqlCRUD_List range scan sprint t ten params
  | RGet id => bind (mysqlCRUD_Get scan t ten id) (fun r => Ret (Some r))
  | RUpdate id body => bind (mysqlCRUD_Update range scan h t ten id body) (fun r => Ret (Some r))
  | RDelete id => bind (mysqlCRUD_Delete h t ten id) (fun r => Ret (Some r))
  end.

Definition turso_handle (rq : crud_request) : prog (option response) :=
  match rq with
  | RList params => tursoCRUD_List range scan sprint t ten params
  | RGet id => bind (tursoCRUD_Get scan t ten id) (fun r => Ret (Some r))
  | RUpdate id body => bind (tursoCRUD_Update range scan h t ten id body) (fun r => Ret (Some r))
  | RDelete id => bind (tursoCRUD_Delete h t ten id) (fun r => Ret (Some r))
  end.

Section dialect.
Context (quote : string -> string).
(** Statements over the model are understood. *)
Definition understood (s : sql) : Prop := Forall (model_name t) (names s) -> q_understands sql_eq sql_lt fill tally exec quote s.

Lemma in_where (w : gmap string value) : exists i, range _ (with_tenant ten w) !! i = Some (tf, VText tid).
Proof using range_perm Hscoped Hcols.
  apply list_elem_of_lookup_1. unfold with_tenant. rewrite Hscoped, range_perm. apply elem_of_map_to_list. cbn. by rewrite lookup_insert_eq.
Qed.

Lemma eqs_bound kvs i : kvs !! i = Some (tf, VText tid) -> eqs kvs !! i = Some (tf, Eq) /\ kvs.*2 !! i = Some (VText tid).
Proof using. apply eqs_lookup. Qed.

(** The text of a statement, whose conditions bind the tenant. *)
Lemma sends_text q args s : q = q_render quote s -> understood s -> Forall (model_name t) (names s) -> tenant_bound tf tid s args -> bound q args.
Proof using. intros -> Hu Hn. apply (q_bound sql_eq sql_lt fill tally). by apply Hu. Qed.

Lemma table_name : model_name t (tableName t).
Proof using. by left. Qed.
Lemma pk_name : model_name t (pk t).
Proof using. right. by left. Qed.
Lemma field_name c f : columnField t c = Some f -> model_name t c.
Proof using. intros H. apply validColumn_name. destruct (validColumn t c) eqn:E; [done|]. apply columnField_valid in E. congruence. Qed.
Lemma eqs_model_names kvs : Forall (model_name t) kvs.*1 -> Forall (model_name t) (eqs kvs).*1.
Proof using. unfold eqs. rewrite <- list_fmap_compose. done. Qed.

(** Names of a statement over the model. *)
Ltac model_names := cbn [names q_keyset_stmt]; rewrite ?fmap_app; repeat (apply Forall_cons_2 || apply Forall_app_2); try apply Forall_nil_2; eauto using table_name, pk_name, eqs_model_names, field_name.

Lemma CountWhere_bound w : understood (SCount (tableName t) (eqs (range _ (with_tenant ten w)))) -> sends bound (my_CountWhere range t (with_tenant ten w)).
Proof using range_perm Hscoped Hcols.
  intros Hu. destruct (in_where w) as [i Hi]. unfold my_CountWhere. rewrite my_where_loop_spec. destruct (invalid t _) eqn:Ei; [done|]. apply valid_names in Ei. split; [|done].
  eapply sends_text; [|exact Hu|model_names|exists i; by apply eqs_bound]. cbn. by rewrite !str_app_assoc.
Qed.

Lemma QueryWhere_bound w orderBy limit offset : 0 < limit -> (forall o, (if String.eqb orderBy "" then pk t else orderBy) = o ->
    understood (SSelect (columns t) (tableName t) (eqs (range _ (with_tenant ten w))) [o] (Lit limit) (if 0 <? offset then Lit offset else NoLim))) ->
  sends bound (my_QueryWhere range scan t (with_tenant ten w) orderBy limit offset).
Proof using range_perm Hscoped Hcols.
  intros Hl Hu. destruct (in_where w) as [i Hi]. unfold my_QueryWhere. rewrite (proj2 (Z.ltb_lt 0 limit)) by done.
  assert (H : forall o, (if String.eqb orderBy "" then pk t else orderBy) = o -> model_name t o ->
    sends bound (match my_where_loop t true (range _ (with_tenant ten w)) (select_from t) [] with
      | inr e => Ret (inr e)
      | inl (b, args) => Ask (let b := b +++ " ORDER BY " +++ o in let b := b +++ " LIMIT " +++ pretty limit in if 0 <? offset then b +++ " OFFSET " +++ pretty offset else b) args
                           (fun r => Ret (scanRows scan "where" r)) end)).
  { intros o Eo Hn. rewrite my_where_loop_spec. destruct (invalid t _) eqn:Ei; [done|]. apply valid_names in Ei. split; [|done].
    eapply sends_text; [|exact (Hu o Eo)|model_names|exists i; by apply eqs_bound]. cbn [q_render q_lim Join]. unfold select_from, columnsList. destruct (0 <? offset); cbn [q_lim]; rewrite ?str_app_nil_r, !str_app_assoc; reflexivity. }
  destruct (String.eqb orderBy "") eqn:E; [apply H; [done|apply pk_name]|]. destruct (columnField t orderBy) as [f|] eqn:F; [apply H; [done|by eapply field_name]|done].
Qed.

Lemma QueryKeyset_bound w cursor size orderBy : let o := if String.eqb orderBy "" then pk t else orderBy in
  understood (q_keyset_stmt t (cursor_conds cursor o ++ eqs (range _ (with_tenant ten w))) o) ->
  Forall (model_name t) (o :: (range _ (with_tenant ten w)).*1) -> sends bound (my_QueryKeyset range scan sprint t cursor size orderBy (with_tenant ten w)).
Proof using range_perm Hscoped Hcols.
  intros o Hu [Ho Hw]%Forall_cons. destruct (in_where w) as [i Hi]. destruct (eqs_bound _ _ Hi) as [H1 H2]. unfold my_QueryKeyset. fold o. unfold cursor_conds in Hu.
  destruct (String.eqb cursor "") eqn:Ec; cbn [negb]; rewrite my_keyset_loop_spec, ?Ec; cbn [andb]; (split; [|done]).
  - eapply sends_text; [|exact Hu|model_names; unfold keyset_order; destruct (String.eqb o (pk t)); model_names|]; [|exists i; cbn [conds_of where_args app q_keyset_stmt]; split; [done|by apply lookup_app_l_Some]].
    unfold q_keyset_stmt, keyset_order. cbn [q_render q_lim app]. unfold select_from, columnsList. destruct (String.eqb o (pk t)); cbn [negb Join]; rewrite ?str_app_nil_r, !str_app_assoc; reflexivity.
  - eapply sends_text; [|exact Hu|model_names; unfold keyset_order; destruct (String.eqb o (pk t)); model_names|]; [|exists (S i); cbn [conds_of where_args app q_keyset_stmt]; split; [done|by apply lookup_app_l_Some]].
    unfold q_keyset_stmt, keyset_order. cbn [q_render q_lim app q_conds]. unfold select_from, columnsList. destruct (String.eqb o (pk t)); cbn [negb Join]; rewrite ?str_app_nil_r, !str_app_assoc; reflexivity.
Qed.

Lemma GetScoped_bound id q : q = select_from t +++ " WHERE " +++ pk t +++ " = ? AND " +++ tf +++ " = ?" ->
  model_name t tf -> understood (SSelect (columns t) (tableName t) [(pk t, Eq); (tf, Eq)] [] NoLim NoLim) -> bound q [id; VText tid].
Proof using Hcols.
  intros -> Htf Hu. eapply sends_text; [|exact Hu|model_names|by exists 1%nat]. cbn. unfold select_from, columnsList. by rewrite ?str_app_nil_r, !str_app_assoc.
Qed.

Lemma DeleteScoped_bound id q : q = "DELETE FROM " +++ tableName t +++ " WHERE " +++ pk t +++ " = ? AND " +++ tf +++ " = ?" ->
  model_name t tf -> understood (SDelete (tableName t) [(pk t, Eq); (tf, Eq)]) -> bound q [id; VText tid].
Proof using. intros -> Htf Hu. eapply sends_text; [|exact Hu|model_names|by exists 1%nat]. reflexivity. Qed.

Lemma UpdateScoped_bound (kvs : list (string * value)) sets id q : sets = Join ((fun c => quote c +++ " = ?") <$> kvs.*1) ", " ->
  q = "UPDATE " +++ tableName t +++ " SET " +++ sets +++ " WHERE " +++ pk t +++ " = ? AND " +++ tf +++ " = ?" ->
  model_name t tf -> Forall (model_name t) kvs.*1 -> understood (SUpdate (tableName t) kvs.*1 [(pk t, Eq); (tf, Eq)] []) -> bound q (kvs.*2 ++ [id; VText tid]).
Proof using.
  intros -> -> Htf Hk Hu. eapply sends_text; [|exact Hu|model_names|]; [cbn; by rewrite ?str_app_nil_r, ?str_app_assoc|].
  exists 1%nat. split; [done|]. cbn [where_args]. rewrite lookup_drop, lookup_app_r by (rewrite !length_fmap; apply Nat.le_add_r). by rewrite !length_fmap, Nat.add_comm, Nat.add_sub.
Qed.

(** The queries of a list. *)
Lemma list_bound params (A := option response) (f1 : option (list entity * string + db_error) -> prog A) (f2 : Z -> list entity + db_error -> A) (f3 : db_error -> A) (e3 : prog A) :
  (forall s, s ∈ q_stmts range h t ten (RList params) -> understood s) -> Forall (model_name t) (unchecked_names range h t ten (RList params)) -> (forall r, sends bound (f1 r)) ->
  let limit := if Size params <=? 0 then 10 else Size params in
  let offset := Z.max (wrap64 ((Page params - 1) * limit)) 0 in
  sends bound (if String.eqb (Pagination params) "keyset" then
      bind (my_QueryKeyset range scan sprint t (Cursor params) (Size params) (Sort params) (with_tenant ten (makeFiltersMap (Filters params)))) f1
    else if negb (bool_decide (Filters params = ∅)) || scoped ten then
      bind (my_CountWhere range t (offsetFilteredWhere range (t_info t) (Filters params) ten)) (fun n => match n with
        | inr e => Ret (f3 e)
        | inl n => bind (my_QueryWhere range scan t (offsetFilteredWhere range (t_info t) (Filters params) ten) (Sort params) limit offset) (fun l => Ret (f2 n l)) end)
    else e3).
Proof using range_perm Hscoped Hcols.
  intros Hu Hn H1 limit offset. unfold q_stmts in Hu. cbn [unchecked_names] in Hn. fold limit offset in Hu. cbv zeta in Hu. destruct (String.eqb (Pagination params) "keyset").
  - apply sends_bind; [|done]. apply QueryKeyset_bound; [|exact Hn]. apply Hu, list_elem_of_singleton. reflexivity.
  - rewrite Hscoped, orb_true_r. apply sends_bind; [apply CountWhere_bound, Hu; by left|]. intros [n|e]; [|done]. apply sends_bind; [|done].
    apply QueryWhere_bound; [apply offset_limit|]. intros o <-. apply Hu. right. by left.
Qed.
End dialect.

Lemma mysql_bound rq : (forall s, s ∈ q_stmts range h t ten rq -> understood backquote s) -> Forall (model_name t) (unchecked_names range h t ten rq) -> sends bound (mysql_handle rq).
Proof using range_perm Hscoped Hcols.
  intros Hu Hn. destruct rq as [params|id|id body|id]; cbn [mysql_handle].
  - unfold mysqlCRUD_List. apply (list_bound backquote params _ (fun n l => match l with inl l => Some (PaginatedResponse (Items l) n (Page params) (Size params)) | inr e => Some (Err (ErrDBQuery e)) end) (fun e => Some (Err (ErrDBQuery e)))); done.
  - apply sends_bind; [|done]. unfold mysqlCRUD_Get. rewrite Hscoped. apply sends_bind; [|done]. unfold my_GetScoped. destruct (columnField t _) as [f|] eqn:F; [|done].
    split; [|done]. apply (GetScoped_bound backquote); [done|by eapply field_name|]. apply Hu. by left.
  - apply sends_bind; [|done]. unfold mysqlCRUD_Update. destruct body as [patch|]; [|done]. cbn [q_stmts unchecked_names] in Hu, Hn. destruct (BeforeUpdate h id patch) as [p|]; [|done].
    rewrite Hscoped. apply sends_bind; [|done]. unfold my_UpdateScoped, my_GetScoped. destruct (columnField t _) as [f|] eqn:F; [|done]. destruct (decide _); [done|]. split.
    + eapply (UpdateScoped_bound backquote); [|done|by eapply field_name|done|apply Hu; by left]. unfold my_sets. rewrite <- list_fmap_compose. f_equal. apply list_fmap_ext. intros _ [c v] _. cbn. unfold backquote. by rewrite !str_app_assoc.
    + intros [| | |]; try done. split; [|done]. apply (GetScoped_bound backquote); [done|by eapply field_name|]. apply Hu. right. by left.
  - apply sends_bind; [|done]. unfold mysqlCRUD_Delete. destruct (BeforeDelete h id); [|done]. cbn [negb]. rewrite Hscoped. apply sends_bind; [|done].
    unfold my_DeleteScoped. destruct (columnField t _) as [f|] eqn:F; [|done]. split; [|done]. apply (DeleteScoped_bound backquote); [done|by eapply field_name|]. apply Hu. by left.
Qed.

Lemma turso_bound rq : (forall s, s ∈ q_stmts range h t ten rq -> understood id s) -> Forall (model_name t) (unchecked_names range h t ten rq) -> sends bound (turso_handle rq).
Proof using range_perm Hscoped Hcols.
  intros Hu Hn. destruct rq as [params|id|id body|id]; cbn [turso_handle].
  - unfold tursoCRUD_List. apply (list_bound Datatypes.id params _ (fun n l => match l with inl l => Some (PaginatedResponse (Items l) n (Page params) (Size params)) | inr e => Some (Err (ErrDBQuery e)) end) (fun e => Some (Err (ErrDBQuery e)))); done.
  - apply sends_bind; [|done]. unfold tursoCRUD_Get. rewrite Hscoped. apply sends_bind; [|done]. unfold turso_GetScoped. destruct (columnField t _) as [f|] eqn:F; [|done].
    split; [|done]. apply (GetScoped_bound Datatypes.id); [by rewrite (columnField_column _ _ _ F)|by eapply field_name|]. apply Hu. by left.
  - apply sends_bind; [|done]. unfold tursoCRUD_Update. destruct body as [patch|]; [|done]. cbn [q_stmts unchecked_names] in Hu, Hn. destruct (BeforeUpdate h id patch) as [p|]; [|done].
    rewrite Hscoped. apply sends_bind; [|done]. unfold turso_UpdateScoped, turso_GetScoped. destruct (columnField t _) as [f|] eqn:F; [|done].
    rewrite (columnField_column _ _ _ F). destruct (decide _); [done|]. split.
    + eapply (UpdateScoped_bound Datatypes.id); [|done|by eapply field_name|done|apply Hu; by left]. unfold turso_sets. rewrite <- list_fmap_compose. reflexivity.
    + intros r. destruct (affected _ r); [done|]. split; [|done]. apply (GetScoped_bound Datatypes.id); [done|by eapply field_name|]. apply Hu. right. by left.
  - apply sends_bind; [|done]. unfold tursoCRUD_Delete. destruct (BeforeDelete h id); [|done]. cbn [negb]. rewrite Hscoped. apply sends_bind; [|done].
    unfold turso_DeleteScoped. destruct (columnField t _) as [f|] eqn:F; [|done]. rewrite (columnField_column _ _ _ F). split; [|done]. apply (DeleteScoped_bound Datatypes.id); [done|by eapply field_name|]. apply Hu. by left.
Qed.

(** C5: on MySQL and on Turso a get, an update, a delete or a list (with filters too) made for
    a tenant is answered from that tenant's rows only, and keeps the rows of every other
    tenant, on a database that understands the statements over the model.  The names that the
    code puts into the text without a check - the filters and the order of a keyset list, the
    keys of a patch - are assumed to be columns of the model: with others there is no
    isolation, since the text is whatever they say ([mysql_text_from_request]). *)
Theorem question_tenant_isolation (rq : crud_request) (turso : bool) (d1 d2 : list row) :
  Forall (model_name t) (unchecked_names range h t ten rq) ->
  (forall s, s ∈ q_stmts range h t ten rq -> Forall (model_name t) (names s) -> q_understands sql_eq sql_lt fill tally exec (if turso then id else backquote) s) ->
  filter (fun r => mine sql_eq tf tid r) d1 = filter (fun r => mine sql_eq tf tid r) d2 ->
  let p := if turso then turso_handle rq else mysql_handle rq in
  (run exec p d1).1 = (run exec p d2).1 /\ others sql_eq tf tid d1 `sublist_of` (run exec p d1).2.
Proof using range_perm Hscoped Hcols. intros Hn Hu Hd. destruct turso; apply run_isolated; auto using turso_bound, mysql_bound. Qed.
End isolation.

(** A database that knows the given statements. *)
Definition q_db_of (quote : string -> string) (stmts : list sql) (q : string) (args : list value) (d : list row) : reply * list row :=
  match list_find (fun s => q_render quote s = q) stmts with
  | Some (_, s) => q_eval demo_eq demo_lt id (fun before _ => Z.of_nat (length before)) s args d
  | None => (Failed, d)
  end.

(** Tenant "a" patches its row through Turso: the statement and the query that follows. *)
Definition demo_patch : crud_request := RUpdate "1" (Some {["score" := VInt 9]}).
Definition demo_stmts : list sql := q_stmts demo_range DefaultHooks demo_table ("org_id", "a") demo_patch.

Lemma question_tenant_isolation_witness :
  let exec := q_db_of id demo_stmts in
  let p := turso_handle demo_range demo_scan demo_print DefaultHooks demo_table "org_id" "a" demo_patch in
  (run exec p demo_a).1 = (run exec p demo_b).1 /\ match (run exec p demo_a).1 with Some (Item 200 e) => e !! "Score" = Some (VInt 9) | _ => False end.
Proof.
  intros exec p. split; [|vm_compute; reflexivity].
  apply (question_tenant_isolation demo_range demo_scan demo_print DefaultHooks demo_eq demo_lt id (fun before _ => Z.of_nat (length before)) exec
    (fun V m => reflexivity _) demo_table (columns_names _ _) "org_id" "a" eq_refl demo_patch true demo_a demo_b).
  - assert (E : unchecked_names demo_range DefaultHooks demo_table ("org_id", "a") demo_patch = ["score"]) by (vm_compute; reflexivity).
    rewrite E. apply Forall_cons_2; [|apply Forall_nil_2]. apply validColumn_name. reflexivity.
  - intros s Hs _ args d. unfold exec, q_db_of.
    assert (E : exists i, list_find (fun s' => q_render id s' = q_render id s) demo_stmts = Some (i, s)).
    { apply list_elem_of_lookup in Hs as [[|[|i]] Hs]; [injection Hs as <-; exists 0%nat; vm_compute; reflexivity|injection Hs as <-; exists 1%nat; vm_compute; reflexivity|done]. }
    destruct E as [i E]. rewrite E. reflexivity.
  - refine (bool_decide_unpack _ _). vm_compute. exact I.
Defined.
