(* ===== verification/ScanRow.v ===== *)
(** * Reading rows (db/scan.go)

    A driver value is assigned to a field of the model's struct, converted where the database
    stores another representation.  Times and floating-point numbers are the types [tm] and
    [fl]; parsing them and converting between integers and floats is Go's library, given as
    arguments, as is the assignment to fields of the remaining kinds. *)

From Stdlib Require Import Ascii String.
From stdpp Require Import pretty.
From S2P Require Import Prelude GoStrings GoStrconv Utf8 SqlModel.
#[local] Open Scope list_scope.
#[local] Open Scope Z_scope.

Section scan.
Context {tm fl : Type}.

(** What a driver hands over. *)
Inductive driver := DNil | DInt (z : Z) | DFloat (f : fl) | DBool (b : bool) | DBytes (s : string) | DString (s : string) | DTime (t : tm).

(** What a field holds. *)
Inductive goval := GBool (b : bool) | GInt (z : Z) | GFloat (f : fl) | GString (s : string) | GBytes (s : string) | GTime (t : tm) | GPtr (o : option goval) | GZero.

Context (time_Parse : string -> string -> option tm) (time_Unix : Z -> tm) (ParseFloat : string -> option fl).
Context (fl_of_int : Z -> fl) (int_of_fl : intKind -> fl -> Z) (to_float32 : fl -> fl).
Context (other : goType -> driver -> option goval).

(** Integers of a kind: the value keeps the low bits. *)
Definition truncate (k : intKind) (z : Z) : Z :=
  if is_signed k then (z + 2 ^ (bits k - 1)) mod 2 ^ bits k - 2 ^ (bits k - 1) else z mod 2 ^ bits k.

Definition timeLayouts : list string :=
  ["2006-01-02T15:04:05.999999999Z07:00"; "2006-01-02T15:04:05Z07:00"; "2006-01-02 15:04:05.999999999-07:00";
   "2006-01-02 15:04:05.999999999"; "2006-01-02 15:04:05"; "2006-01-02T15:04:05"; "2006-01-02"].

Fixpoint try_layouts (layouts : list string) (s : string) : option tm :=
  match layouts with [] => None | l :: layouts => match time_Parse l s with Some t => Some t | None => try_layouts layouts s end end.
Definition parseTimeString (s : string) : option tm := try_layouts timeLayouts (TrimSpace s).

Definition toTime (d : driver) : option tm :=
  match d with DTime t => Some t | DString s | DBytes s => parseTimeString s | DInt z => Some (time_Unix z) | _ => None end.

Definition text_true (s : string) : bool := String.eqb s "1" || EqualFold s "true" || EqualFold s "t".
Definition toBool (d : driver) : option bool :=
  match d with DBool b => Some b | DInt z => Some (negb (z =? 0)) | DString s | DBytes s => Some (text_true s) | _ => None end.

Definition asString (d : driver) : option string := match d with DString s | DBytes s => Some s | _ => None end.

Definition setFromString (ty : goType) (s : string) : option goval :=
  match ty with
  | TFloat32 => (fun f => GFloat (to_float32 f)) <$> ParseFloat s
  | TFloat64 => GFloat <$> ParseFloat s
  | TInt k =>
      let '(n, err) := if is_signed k then ParseInt s else ParseUint s in
      match err with Some _ => None | None => Some (GInt (truncate k n)) end
  | TString => Some (GString s)
  | _ => None
  end.

(** [reflect]'s assignment or conversion of the driver's value to the field's type, if there is
    one.  An integer converts to a string: to the character it is the code of. *)
Definition convert (ty : goType) (d : driver) : option goval :=
  match ty, d with
  | TInt k, DInt z => Some (GInt (truncate k z))
  | TInt k, DFloat f => Some (GInt (truncate k (int_of_fl k f)))
  | TFloat64, DFloat f => Some (GFloat f)
  | TFloat32, DFloat f => Some (GFloat (to_float32 f))
  | TFloat64, DInt z => Some (GFloat (fl_of_int z))
  | TFloat32, DInt z => Some (GFloat (to_float32 (fl_of_int z)))
  | TString, DInt z => Some (GString (string_of_bytes (encode_rune z)))
  | TString, (DString s | DBytes s) => Some (GString s)
  | TSlice (TInt Uint8), (DString s | DBytes s) => Some (GBytes s)
  | (TInt _ | TFloat32 | TFloat64 | TString | TSlice (TInt Uint8)), _ => None
  | _, _ => other ty d
  end.

Fixpoint setField (ty : goType) (old : goval) (d : driver) : option goval :=
  match d with
  | DNil => Some old
  | _ =>
      match ty with
      | TPtr elem => (fun v => GPtr (Some v)) <$> setField elem GZero d
      | TStruct "time.Time" _ => GTime <$> toTime d
      | TBool => GBool <$> toBool d
      | _ =>
          match convert ty d with
          | Some v => Some v
          | None => match asString d with Some s => setFromString ty s | None => None end
          end
      end
  end.

(** [scanTargets] and [assignTargets]: each column goes to the first field of that name, if the
    struct has it; the first value that does not fit ends it. *)
Definition scanTargets (fields : list FieldInfo) (e : gmap string goval) (columns : list string) : list (option FieldInfo) :=
  (fun col => match list_find (fun f => Column f = col) fields with Some (_, f) => match e !! GoName f with Some _ => Some f | None => None end | None => None end) <$> columns.

Fixpoint assignTargets (dests : list (option FieldInfo)) (ptrs : list driver) (e : gmap string goval) : option (gmap string goval) :=
  match dests, ptrs with
  | None :: dests, _ :: ptrs => assignTargets dests ptrs e
  | Some f :: dests, d :: ptrs => v ← setField (FieldType f) (default GZero (e !! GoName f)) d; assignTargets dests ptrs (<[GoName f := v]> e)
  | _, _ => Some e
  end.

Definition ParseTimePtr (d : driver) : option (option tm) := match d with DNil => Some None | d => Some <$> toTime d end.

(** ** Properties *)

Lemma truncate_fits k z : fits k z -> truncate k z = z.
Proof. unfold fits, truncate. destruct k; cbn; intros H; rewrite Z.mod_small; lia. Qed.

Lemma truncate_range k z : fits k (truncate k z).
Proof.
  unfold fits, truncate. destruct k; cbn;
    match goal with |- context [?a mod ?b] => pose proof (Z.mod_pos_bound a b) end; lia.
Qed.

(** A text comes as a string or as bytes, whatever the column. *)
Definition is_text (d : driver) (s : string) : Prop := d = DString s \/ d = DBytes s.

Definition bool_texts (b : bool) : list string := if b then ["1"; "t"; "T"; "true"; "True"; "TRUE"] else ["0"; "f"; "F"; "false"; "False"; "FALSE"].

(** The first of the layouts in which a text is a time says which. *)
Definition time_text (s : string) (t : tm) : Prop :=
  exists pre layout post, timeLayouts = pre ++ layout :: post /\ Forall (fun l => time_Parse l (TrimSpace s) = None) pre /\ time_Parse layout (TrimSpace s) = Some t.

(** The representations a driver hands over for a value of the model: integers as INTEGER or
    as their decimal digits, signed ones with their sign; booleans as BOOLEAN, as an integer or
    as text; floating-point numbers as such, as integers or as text; text and blobs as each
    other; times as such, as text in one of the layouts, or in seconds; texts as strings or as
    bytes; and all of them for pointers. *)
Inductive represents : goType -> driver -> goval -> Prop :=
| rep_int k z : fits k z -> represents (TInt k) (DInt z) (GInt z)
| rep_digits k z d : fits k z -> is_text d (pretty z) -> represents (TInt k) d (GInt z)
| rep_bool b : represents TBool (DBool b) (GBool b)
| rep_bool_int z : represents TBool (DInt z) (GBool (negb (z =? 0)))
| rep_bool_text b s d : s ∈ bool_texts b -> is_text d s -> represents TBool d (GBool b)
| rep_float f : represents TFloat64 (DFloat f) (GFloat f)
| rep_float_int z : represents TFloat64 (DInt z) (GFloat (fl_of_int z))
| rep_float_text f s d : ParseFloat s = Some f -> is_text d s -> represents TFloat64 d (GFloat f)
| rep_float32 d f : represents TFloat64 d (GFloat f) -> represents TFloat32 d (GFloat (to_float32 f))
| rep_text s d : is_text d s -> represents TString d (GString s)
| rep_blob s d : is_text d s -> represents (TSlice (TInt Uint8)) d (GBytes s)
| rep_time n t : represents (TStruct "time.Time" n) (DTime t) (GTime t)
| rep_time_text n s t d : time_text s t -> is_text d s -> represents (TStruct "time.Time" n) d (GTime t)
| rep_time_unix n z : represents (TStruct "time.Time" n) (DInt z) (GTime (time_Unix z))
| rep_ptr ty d v : represents ty d v -> represents (TPtr ty) d (GPtr (Some v)).

Lemma represents_not_nil ty d v : represents ty d v -> d <> DNil.
Proof. induction 1; try done; match goal with X : is_text _ _ |- _ => destruct X as [-> | ->]; done end. Qed.

Lemma time_text_parse s t : time_text s t -> parseTimeString s = Some t.
Proof.
  intros (pre & l & post & E & F & H). unfold parseTimeString. rewrite E. clear E.
  induction F as [|x pre Hx F IH]; cbn; [by rewrite H|by rewrite Hx].
Qed.

Lemma digits_read k z : fits k z -> (if is_signed k then ParseInt (pretty z) else ParseUint (pretty z)) = (z, None).
Proof.
  intros H. destruct (is_signed k) eqn:S.
  - apply ParseInt_pretty_Z. unfold int64. destruct k; cbn in *; try done; unfold fits in H; cbn in H; lia.
  - assert (0 <= z <= maxUint64) as [H0 H1] by (unfold maxUint64; destruct k; cbn in *; try done; unfold fits in H; cbn in H; lia).
    destruct z as [|p|p]; [done| |lia]. apply (ParseUint_pretty (N.pos p)). exact H1.
Qed.

Lemma bool_text_read b s : s ∈ bool_texts b -> text_true s = b.
Proof. destruct b; cbn; rewrite !elem_of_cons, elem_of_nil; intros H; repeat (destruct H as [->|H]; [reflexivity|]); done. Qed.

(** C28: every value of the model is read back from each representation a driver hands over for
    it: integers of every width, booleans, floating-point numbers, text, blobs, times, and
    pointers to them; a NULL leaves the field as it was; and an integer is always within the
    field's range afterwards. *)
Theorem scan_reads_back (ty : goType) (old v : goval) (d : driver) :
  (represents ty d v -> setField ty old d = Some v) /\ setField ty old DNil = Some old
  /\ (forall k z, setField (TInt k) old d = Some (GInt z) -> d <> DNil -> fits k z).
Proof.
  split; [|split; [by destruct ty|]].
  - intros H. revert old. induction H as [k z F|k z d F [-> | ->]|b|z|b s d Hb [-> | ->]|f|z|f s d Hf [-> | ->]|d f H IH|s d [-> | ->]|s d [-> | ->]|n t|n s t d Ht [-> | ->]|n z|ty d v H IH]; intros old;
      cbn [setField convert toBool toTime asString setFromString]; try done.
    all: try (by rewrite truncate_fits).
    all: try (rewrite (digits_read _ _ F); by rewrite truncate_fits).
    all: try (by rewrite (bool_text_read _ _ Hb)).
    all: try (by rewrite Hf).
    all: try (by rewrite (time_text_parse _ _ Ht)).
    + pose proof (represents_not_nil _ _ _ H). specialize (IH old).
      destruct d; cbn in IH |- *; try done; try (by simplify_eq); destruct (ParseFloat _); cbn in *; by simplify_eq.
    + pose proof (represents_not_nil _ _ _ H). rewrite (IH GZero). by destruct d.
  - intros k z H N. destruct d; cbn in H; try done; try (injection H as <-; apply truncate_range);
      destruct (if is_signed k then _ else _) as [n [e|]]; try done; injection H as <-; apply truncate_range.
Qed.

(** A value out of the field's range is cut to its low bits without an error, and an integer
    column read into a text field becomes the character with that code. *)
Lemma scan_truncates (old : goval) : setField (TInt Int8) old (DInt 300) = Some (GInt 44) /\ setField (TInt Uint32) old (DInt (-1)) = Some (GInt 4294967295)
  /\ setField TString old (DInt 65) = Some (GString "A") /\ setField TString old (DInt 1234567) = Some (GString (string_of_bytes [239; 191; 189])).
Proof. repeat split; reflexivity. Qed.
End scan.
Arguments driver : clear implicits.
Arguments goval : clear implicits.

Lemma scan_reads_back_witness :
  setField (tm := unit) (fl := Z) (fun _ _ => None) (fun _ => tt) (fun _ => None) id (fun _ z => z) id (fun _ _ => None) (TPtr (TInt Int16)) GZero (DBytes "-1234") = Some (GPtr (Some (GInt (-1234)))).
Proof.
  apply (proj1 (scan_reads_back (tm := unit) (fl := Z) (fun _ _ => None) (fun _ => tt) (fun _ => None) id (fun _ z => z) id (fun _ _ => None) (TPtr (TInt Int16)) GZero (GPtr (Some (GInt (-1234)))) (DBytes "-1234"))).
  apply rep_ptr, rep_digits; [cbv; split; [discriminate|reflexivity]|right; reflexivity].
Defined.
