(* ===== verification/MongoCrud.v ===== *)
(** * The MongoDB provider (runtime/table_provider.go)

    [mongoCRUD] sends one request to a collection per operation.  The server is not part of the
    sources: it is any one that meets the class [MongoLaws], what MongoDB documents of these
    requests, each of which may also fail.  A document is a map from field names to values, of
    which only texts and identifiers are told apart here; an identifier is an [ObjectID], of
    which [ObjectIDFromHex] and [Hex] are given. *)

From Stdlib Require Import Ascii String.
From S2P Require Import Prelude GoStrings Crud.
#[local] Open Scope list_scope.
#[local] Open Scope Z_scope.

(** A text, an identifier, or any other value - a number, a date, an array, a document - as the
    extended JSON that denotes it. *)
Inductive bval := BText (s : string) | BObjectID (n : N) | BOther (json : string).
#[export] Instance bval_eq_dec : EqDecision bval.
Proof. solve_decision. Defined.

Notation doc := (gmap string bval).

(** A condition on a field: equal to a value, or above an identifier. *)
Inductive cond := CEq (v : bval) | CGt (oid : N).
Notation bfilter := (gmap string cond).

Inductive mreq :=
| MFind (filter : bfilter) (skip limit : Z) | MFindOne (filter : bfilter) | MInsertOne (d : doc) | MInsertOther
| MUpdateOne (filter : bfilter) (set : doc) | MDeleteOne (filter : bfilter).
Inductive mreply := MFailed | MDocs (l : list doc) | MInserted (id : option bval) | MDone.

Inductive mresponse :=
| MKeyset (data : list doc) (nextCursor : string) (size : Z) | MPage (data : list doc) (total page size : Z)
| MItem (status : Z) (d : doc) | MOther (status : Z) | MNoContent | MErrValidation (field : string) | MErrNotFound | MErrQuery.

#[export] Instance mresponse_eq_dec : EqDecision mresponse.
Proof. solve_decision. Defined.

(** A program sends one request and answers from the reply, or answers at once. *)
Inductive mprog := MRet (r : option mresponse) | MAsk (rq : mreq) (k : mreply -> option mresponse).

Section mongo.
Context (ObjectIDFromHex : string -> option N) (Hex : N -> string) (lookupField : string).

Definition filterFor (id : string) : bfilter :=
  if String.eqb lookupField "_id" then
    match ObjectIDFromHex id with Some oid => {["_id" := CEq (BObjectID oid)]} | None => {[lookupField := CEq (BText id)]} end
  else {[lookupField := CEq (BText id)]}.

Definition tenant_filter (tenant : string * string) (f : bfilter) : bfilter := if scoped tenant then <[tenant.1 := CEq (BText tenant.2)]> f else f.

(** [None] is the panic of [results[params.Size-1]]. *)
Definition mongo_page (size : Z) (r : mreply) : option mresponse :=
  match r with
  | MDocs results =>
      if size <? Z.of_nat (length results) then
        if size <? 1 then None
        else
          let next := match results !! Z.to_nat (size - 1) with Some d => match d !! "_id" with Some (BObjectID n) => Hex n | _ => "" end | None => "" end in
          Some (MKeyset (take (Z.to_nat size) results) next size)
      else Some (MKeyset results "" size)
  | _ => Some MErrQuery
  end.

Definition mongo_List (tenant : string * string) (params : ListParams) : mprog :=
  let filter := tenant_filter tenant ∅ in
  if String.eqb (Pagination params) "keyset" then
    let size := wrap64 (Size params + 1) in
    let ask (f : bfilter) := MAsk (MFind f 0 size) (mongo_page (Size params)) in
    if negb (String.eqb (Cursor params) "") then
      match ObjectIDFromHex (Cursor params) with
      | None => MRet (Some (MErrValidation "cursor"))
      | Some oid => ask (<["_id" := CGt oid]> filter)
      end
    else ask filter
  else
    let size := Z.max (Size params) 1 in
    let skip := Z.max (wrap64 ((Page params - 1) * size)) 0 in
    MAsk (MFind filter skip size) (fun r => Some (match r with MDocs l => MPage l 0 (Page params) size | _ => MErrQuery end)).

Definition mongo_Get (tenant : string * string) (id : string) : mprog :=
  MAsk (MFindOne (tenant_filter tenant (filterFor id))) (fun r => Some (match r with MDocs (d :: _) => MItem 200 d | _ => MErrNotFound end)).

(** The body decoded: an object, or another JSON value ([inr tt]), which is sent and answered as
    it is. *)
Definition mongo_Create (tenant : string * string) (body : option (doc + unit)) : mprog :=
  match body with
  | None => MRet (Some (MErrValidation "body"))
  | Some (inr _) => MAsk MInsertOther (fun r => Some (match r with MInserted _ => MOther 201 | _ => MErrQuery end))
  | Some (inl d) =>
      let d := if scoped tenant then <[tenant.1 := BText tenant.2]> d else d in
      MAsk (MInsertOne d) (fun r => Some (match r with
        | MInserted (Some id) => MItem 201 (<["_id" := id]> d)
        | MInserted None => MItem 201 d
        | _ => MErrQuery end))
  end.

Definition mongo_Update (tenant : string * string) (id : string) (body : option doc) : mprog :=
  match body with
  | None => MRet (Some (MErrValidation "body"))
  | Some patch => MAsk (MUpdateOne (tenant_filter tenant (filterFor id)) patch) (fun r => Some (match r with MFailed => MErrQuery | _ => MItem 200 patch end))
  end.

Definition mongo_Delete (tenant : string * string) (id : string) : mprog :=
  MAsk (MDeleteOne (tenant_filter tenant (filterFor id))) (fun r => Some (match r with MFailed => MErrQuery | _ => MNoContent end)).
End mongo.

(** ** The server *)

(** [answers rq l reply l']: asked [rq] with the documents [l] in the collection, in their
    natural order, the server may reply [reply] and have the documents [l'] afterwards.  What a
    find returns of the documents that match is [page]; [matches] is the query language. *)
Class MongoServer := {
  matches : bfilter -> doc -> bool;
  page : Z -> Z -> list doc -> list doc;
  first : list doc -> list doc;
  answers : mreq -> list doc -> mreply -> list doc -> Prop
}.

(** Names that are no paths into documents and no operators. *)
Definition plain_name (k : string) : bool :=
  str_all (fun c => negb (Ascii.eqb c ".")) k && match k with String c _ => negb (Ascii.eqb c "$") | EmptyString => false end.

Definition selected `{MongoServer} (f : bfilter) (l : list doc) : list doc := filter (fun d => matches f d) l.

Class MongoLaws `{MongoServer} : Prop := {
  (** the conditions of a filter are all required *)
  law_and f k c d : f !! k = Some c -> matches f d = true -> matches {[k := c]} d = true;
  (** a field that has the text satisfies the condition *)
  law_eq k t d : plain_name k = true -> d !! k = Some (BText t) -> matches {[k := CEq (BText t)]} d = true;
  law_find f skip limit l reply l' : answers (MFind f skip limit) l reply l' -> l' = l /\ (reply = MFailed \/ reply = MDocs (page skip limit (selected f l)));
  law_findOne f l reply l' : answers (MFindOne f) l reply l' -> l' = l /\ (reply = MFailed \/ reply = MDocs (first (selected f l)));
  (** at most one document is changed or removed, and it matches *)
  law_updateOne f set l reply l' : answers (MUpdateOne f set) l reply l' ->
    (reply = MFailed \/ reply = MDone) /\ (l' = l \/ exists l1 d d' l2, l = l1 ++ d :: l2 /\ matches f d = true /\ l' = l1 ++ d' :: l2);
  law_deleteOne f l reply l' : answers (MDeleteOne f) l reply l' ->
    (reply = MFailed \/ reply = MDone) /\ (l' = l \/ exists l1 d l2, l = l1 ++ d :: l2 /\ matches f d = true /\ l' = l1 ++ l2);
  law_insertOne d l reply l' : answers (MInsertOne d) l reply l' -> reply = MFailed \/ exists id, reply = MInserted (Some id) /\ l' = l ++ [<["_id" := id]> d]
}.

(** A program on a server: the response, whether the server failed, and the documents left. *)
Definition mruns `{MongoServer} (p : mprog) (l : list doc) (resp : option mresponse) (failed : bool) (l' : list doc) : Prop :=
  match p with
  | MRet r => resp = r /\ failed = false /\ l' = l
  | MAsk rq k => exists reply, answers rq l reply l' /\ resp = k reply /\ failed = match reply with MFailed => true | _ => false end
  end.

(** ** Tenants *)

Inductive mongo_request := MRList (params : ListParams) | MRGet (id : string) | MRUpdate (id : string) (body : option doc) | MRDelete (id : string).

Section isolation.
Context {MS : MongoServer} {ML : MongoLaws}.
Context (ObjectIDFromHex : string -> option N) (Hex : N -> string) (lookupField : string).
Context (tf tid : string) (Hscoped : scoped (tf, tid) = true) (Hid : tf <> "_id").

Definition mongo_handle (rq : mongo_request) : mprog :=
  match rq with
  | MRList params => mongo_List ObjectIDFromHex Hex (tf, tid) params
  | MRGet id => mongo_Get ObjectIDFromHex lookupField (tf, tid) id
  | MRUpdate id body => mongo_Update ObjectIDFromHex lookupField (tf, tid) id body
  | MRDelete id => mongo_Delete ObjectIDFromHex lookupField (tf, tid) id
  end.

(** The documents of the tenant are those a query for the tenant finds. *)
Definition of_tenant (d : doc) : bool := matches {[tf := CEq (BText tid)]} d.
Definition bound (f : bfilter) : Prop := f !! tf = Some (CEq (BText tid)).
Definition bound_request (rq : mreq) : Prop := match rq with MFind f _ _ | MFindOne f | MUpdateOne f _ | MDeleteOne f => bound f | _ => False end.

Lemma bound_tenant f d : bound f -> matches f d = true -> of_tenant d = true.
Proof using ML. intros B. by apply law_and. Qed.

Lemma filter_tenant f (l1 l2 : list doc) : bound f -> filter (fun d => of_tenant d) l1 = filter (fun d => of_tenant d) l2 -> selected f l1 = selected f l2.
Proof using ML.
  intros B E. assert (H : forall l : list doc, selected f l = selected f (filter (fun d => of_tenant d) l)); [|by rewrite (H l1), (H l2), E].
  intros l. unfold selected. rewrite list_filter_filter. apply Prelude.filter_ext_in. intros d _. split; [|by intros []]. intros M. split; [done|]. apply Is_true_true. apply (bound_tenant f d B). by apply Is_true_true.
Qed.

Definition foreign (l : list doc) : list doc := filter (fun d => negb (of_tenant d)) l.

Lemma foreign_sublist l : foreign l `sublist_of` l.
Proof using. induction l as [|d l IH]; [constructor|]. unfold foreign. rewrite filter_cons. destruct (decide _); by constructor. Qed.

(** A document of the tenant can change or go, the others stay. *)
Lemma foreign_middle l1 d l2 l : of_tenant d = true -> foreign (l1 ++ d :: l2) `sublist_of` l1 ++ l ++ l2.
Proof using.
  intros T. unfold foreign. rewrite filter_app, filter_cons, T. rewrite decide_False by (by intros []).
  apply sublist_app; [apply foreign_sublist|]. apply sublist_inserts_l, foreign_sublist.
Qed.

Lemma answers_isolated rq l1 l2 r1 r2 l1' l2' : bound_request rq -> filter (fun d => of_tenant d) l1 = filter (fun d => of_tenant d) l2 ->
  answers rq l1 r1 l1' -> answers rq l2 r2 l2' -> (r1 <> MFailed -> r2 <> MFailed -> r1 = r2) /\ foreign l1 `sublist_of` l1'.
Proof using ML.
  intros B E A1 A2. destruct rq as [f skip limit|f|d| |f set|f]; cbn in B; try done.
  - destruct (law_find _ _ _ _ _ _ A1) as [-> H1], (law_find _ _ _ _ _ _ A2) as [_ H2]. rewrite (filter_tenant f l1 l2 B E) in H1. split; [|apply foreign_sublist].
    destruct H1 as [->| ->], H2 as [->| ->]; done.
  - destruct (law_findOne _ _ _ _ A1) as [-> H1], (law_findOne _ _ _ _ A2) as [_ H2]. rewrite (filter_tenant f l1 l2 B E) in H1. split; [|apply foreign_sublist].
    destruct H1 as [->| ->], H2 as [->| ->]; done.
  - destruct (law_updateOne _ _ _ _ _ A1) as [H1 S], (law_updateOne _ _ _ _ _ A2) as [H2 _]. split; [destruct H1 as [->| ->], H2 as [->| ->]; done|].
    destruct S as [->|(a & d & d' & b & -> & M & ->)]; [apply foreign_sublist|]. apply (foreign_middle a d b [d']), (bound_tenant f d B M).
  - destruct (law_deleteOne _ _ _ _ A1) as [H1 S], (law_deleteOne _ _ _ _ A2) as [H2 _]. split; [destruct H1 as [->| ->], H2 as [->| ->]; done|].
    destruct S as [->|(a & d & b & -> & M & ->)]; [apply foreign_sublist|]. apply (foreign_middle a d b []), (bound_tenant f d B M).
Qed.

Lemma tenant_filter_bound f : bound (tenant_filter (tf, tid) f).
Proof using Hscoped. unfold bound, tenant_filter. rewrite Hscoped. cbn. by rewrite lookup_insert_eq. Qed.

Lemma mongo_handle_bound rq : match mongo_handle rq with MRet _ => True | MAsk r _ => bound_request r end.
Proof using Hscoped Hid.
  destruct rq as [params|id|id body|id]; cbn [mongo_handle].
  - unfold mongo_List. destruct (String.eqb (Pagination params) "keyset"); [|apply tenant_filter_bound].
    destruct (negb _); [|apply tenant_filter_bound]. destruct (ObjectIDFromHex (Cursor params)); [|done]. cbn. unfold bound. rewrite lookup_insert_ne by done. apply tenant_filter_bound.
  - apply tenant_filter_bound.
  - unfold mongo_Update. destruct body; [apply tenant_filter_bound|done].
  - apply tenant_filter_bound.
Qed.

(** C6: on MongoDB a list, a get, an update or a delete for a tenant, unless the server fails, is
    answered from that tenant's documents only - those a query for the tenant finds - and in
    every case, failures included, it keeps every document of the others.  A document that is
    created for a tenant carries it, whatever the body says, when the name of the tenant
    field is plain (no path, no operator).  The tenant field is not [_id]: the cursor of a
    list would replace the condition. *)
Theorem mongo_tenant_isolation (rq : mongo_request) (l1 l2 l1' l2' : list doc) (resp1 resp2 : option mresponse) (failed1 failed2 : bool) :
  filter (fun d => of_tenant d) l1 = filter (fun d => of_tenant d) l2 ->
  mruns (mongo_handle rq) l1 resp1 failed1 l1' -> mruns (mongo_handle rq) l2 resp2 failed2 l2' ->
  (failed1 = false -> failed2 = false -> resp1 = resp2) /\ foreign l1 `sublist_of` l1' /\
  (forall d resp l', plain_name tf = true -> mruns (mongo_Create (tf, tid) (Some (inl d))) l1 resp false l' -> exists d', l' = l1 ++ [d'] /\ of_tenant d' = true).
Proof using Hscoped Hid ML.
  intros E R1 R2. pose proof (mongo_handle_bound rq) as B. apply and_assoc; split.
  - destruct (mongo_handle rq) as [r|r k]; cbn in R1, R2.
    + destruct R1 as (-> & -> & ->), R2 as (-> & -> & ->). split; [done|apply foreign_sublist].
    + destruct R1 as (p1 & A1 & -> & ->), R2 as (p2 & A2 & -> & ->). destruct (answers_isolated r l1 l2 p1 p2 l1' l2' B E A1 A2) as [H F]. split; [|done].
      intros N1 N2. rewrite H; [done|by intros ->..].
  - intros d resp l' P. unfold mongo_Create. rewrite Hscoped. cbn [mruns]. intros (reply & A & _ & N). destruct (law_insertOne _ _ _ _ A) as [->|(id & -> & ->)]; [done|].
    eexists. split; [done|]. apply law_eq; [done|]. rewrite lookup_insert_ne by done. by rewrite lookup_insert_eq.
Qed.
End isolation.

(** ** A server *)

(** A collection that is ordered by identifiers and never fails. *)
Definition holds (k : string) (c : cond) (d : doc) : bool :=
  match c with
  | CEq v => bool_decide (d !! k = Some v)
  | CGt oid => match d !! k with Some (BObjectID n) => (oid <? n)%N | _ => false end
  end.
Definition all_hold (f : bfilter) (d : doc) : bool := forallb (fun kc => holds kc.1 kc.2 d) (map_to_list f).

Definition id_of (d : doc) : N := match d !! "_id" with Some (BObjectID n) => n | _ => 0%N end.
Fixpoint insert_doc (d : doc) (l : list doc) : list doc :=
  match l with [] => [d] | d' :: l => if (id_of d <=? id_of d')%N then d :: d' :: l else d' :: insert_doc d l end.
Definition by_id (skip limit : Z) (l : list doc) : list doc :=
  let found := drop (Z.to_nat skip) (foldr insert_doc [] l) in if limit =? 0 then found else take (Z.to_nat (Z.abs limit)) found.

Fixpoint change_first (f : bfilter) (g : doc -> list doc) (l : list doc) : list doc :=
  match l with [] => [] | d :: l => if all_hold f d then g d ++ l else d :: change_first f g l end.

Definition demo_collection (rq : mreq) (l : list doc) : mreply * list doc :=
  match rq with
  | MFind f skip limit => (MDocs (by_id skip limit (filter (fun d => all_hold f d) l)), l)
  | MFindOne f => (MDocs (take 1 (filter (fun d => all_hold f d) l)), l)
  | MInsertOne d => let id := default (BObjectID 77) (d !! "_id") in (MInserted (Some id), l ++ [<["_id" := id]> d])
  | MInsertOther => (MFailed, l)
  | MUpdateOne f set => (MDone, change_first f (fun d => [set ∪ d]) l)
  | MDeleteOne f => (MDone, change_first f (fun _ => []) l)
  end.

#[local] Instance demo_server : MongoServer :=
  {| matches := all_hold; page := by_id; first := take 1; answers rq l reply l' := demo_collection rq l = (reply, l') |}.

Lemma change_first_once f g l : change_first f g l = l \/ exists l1 d l2, l = l1 ++ d :: l2 /\ all_hold f d = true /\ change_first f g l = l1 ++ g d ++ l2.
Proof.
  induction l as [|d l IH]; [by left|]. cbn. destruct (all_hold f d) eqn:M; [right; by exists [], d, l|].
  destruct IH as [->|(l1 & d' & l2 & -> & M' & ->)]; [by left|right]. by exists (d :: l1), d', l2.
Qed.

#[local] Instance demo_server_laws : MongoLaws.
Proof.
  constructor; cbn -[by_id map_to_list].
  - intros f k c d Hk. unfold all_hold. rewrite forallb_forall. intros H. rewrite map_to_list_singleton. cbn. rewrite andb_true_r. apply (H (k, c)). apply list_elem_of_In, elem_of_map_to_list, Hk.
  - intros k t d _ Hk. unfold all_hold. rewrite map_to_list_singleton. cbn. rewrite andb_true_r. by apply bool_decide_eq_true.
  - intros f skip limit l reply l' [= <- <-]. split; [done|by right].
  - intros f l reply l' [= <- <-]. split; [done|by right].
  - intros f set l reply l' [= <- <-]. split; [by right|]. destruct (change_first_once f (fun d => [set ∪ d]) l) as [->|(l1 & d & l2 & E & M & ->)]; [by left|right]. by exists l1, d, (set ∪ d), l2.
  - intros f l reply l' [= <- <-]. split; [by right|]. destruct (change_first_once f (fun _ => []) l) as [->|(l1 & d & l2 & E & M & ->)]; [by left|right]. by exists l1, d, l2.
  - intros d l reply l' [= <- <-]. right. by eexists.
Qed.

Definition demo_run (p : mprog) (l : list doc) : option mresponse * list doc :=
  match p with MRet r => (r, l) | MAsk rq k => let '(reply, l') := demo_collection rq l in (k reply, l') end.

Definition demo_docs : list doc := [{["_id" := BObjectID 1; "org" := BText "a"]}; {["_id" := BObjectID 2; "org" := BText "b"]}].

(** Tenant "a" deletes its document, with and without the document of tenant "b". *)
Lemma mongo_tenant_isolation_witness :
  let p := mongo_handle (fun _ => Some 1%N) (fun _ => "") "_id" "org" "a" (MRDelete "1") in
  (demo_run p demo_docs).1 = (demo_run p (take 1 demo_docs)).1 /\ foreign "org" "a" demo_docs `sublist_of` (demo_run p demo_docs).2.
Proof.
  intros p. destruct (mongo_tenant_isolation (fun _ => Some 1%N) (fun _ => "") "_id" "org" "a" eq_refl ltac:(discriminate) (MRDelete "1") demo_docs (take 1 demo_docs)
    (demo_run p demo_docs).2 (demo_run p (take 1 demo_docs)).2 (demo_run p demo_docs).1 (demo_run p (take 1 demo_docs)).1 false false) as (H1 & H2 & _).
  - refine (bool_decide_unpack _ _). vm_compute. exact I.
  - exists MDone. split; [reflexivity|split; reflexivity].
  - exists MDone. split; [reflexivity|split; reflexivity].
  - exact (conj (H1 eq_refl eq_refl) H2).
Defined.

(** An update or a delete that matches nothing is answered as if it had happened, and an update
    can move a document to another tenant. *)
Lemma mongo_unmatched :
  let patch : doc := {["x" := BOther "1"]} in
  demo_run (mongo_Update (fun _ => Some 9%N) "_id" ("org", "a") "9" (Some patch)) demo_docs = (Some (MItem 200 patch), demo_docs)
  /\ demo_run (mongo_Delete (fun _ => Some 9%N) "_id" ("org", "a") "9") demo_docs = (Some MNoContent, demo_docs)
  /\ (fun d => d !! "org") <$> (demo_run (mongo_Update (fun _ => Some 1%N) "_id" ("org", "a") "1" (Some {["org" := BText "b"]})) demo_docs).2 = [Some (BText "b"); Some (BText "b")].
Proof. split_and!; refine (bool_decide_unpack _ _); vm_compute; exact I. Qed.
